(* ===== verification/_CoqProject ===== *)
-Q . S2P
Prelude.v
Computation.v
ProbeProtocol.v
Float64.v
Text.v
Resilience.v
RuntimeHealth.v
Json.v
Types.v
HealthSummary.v
ProviderRuntime.v
Quota.v
KeyRotation.v
Weighted.v
Selector.v
Affinity.v
ResponseEvents.v
Recovery.v
Caches.v
Pricing.v
Snapshot.v
RoutingAvailability.v
Routing.v
Plan.v
Reservation.v
Slots.v
OpenAi.v
Headers.v
RequestOverrides.v
UpstreamUrl.v
ViaChatRequest.v
ViaChatStream.v
ViaChatProtocol.v
CodexRequests.v
Relay.v
Tap.v
Prepare.v
AttemptLoop.v
PriceCatalog.v
PriceTables.v
PriceSync.v
WsParts.v
WsConnect.v
WsTurn.v
WsRelay.v
WsBudget.v
WsSession.v
Notification.v
Alerts.v
NotifyTables.v
NotifyReport.v
NotifyTransport.v
NotifyRuntime.v
NotifySchedule.v
NotifyDelivery.v
NotifyAdmin.v
Crypto.v
CodexTokens.v
CodexAccounts.v
CodexRefresh.v
CodexLease.v
CodexSessions.v
CodexLogin.v
StatsTables.v
Telemetry.v
TelemetryFacts.v
HourlyFacts.v
DailyFacts.v
ArchiveFacts.v
