(* ===== verification/Prelude.v ===== *)
(** * codex-gate: a verification library for the gateway's core

    codex-gate (package [little-gate], [src/backend/src]) is an HTTP gateway in
    front of OpenAI-compatible providers. A request names a model; the gateway
    authenticates the API key, finds the providers that serve the model, orders them
    into a plan of attempts, sends the attempts one after the other within limits,
    streams the answer back while it reads the usage from it, and prices the request.
    This library models that path from the client's head and body to the settlement
    of the attempt that answered, the same service over a WebSocket, the
    synchronisation of the price tables, the notifications (scheduled reports and
    threshold alerts, sent by mail and to webhooks), the accounts of the Codex
    service (logins, the refresh of their tokens, their quotas), and the statistics and
    logs every request leaves. The files are, in dependency order:

    - [Prelude]: machine integers, options, results, stable sorting, randomness and
      the iteration order of hash maps.
    - [Computation]: the state monad with early return that effectful code is written
      in, its postconditions and their tactics.
    - [ProbeProtocol]: the abstract protocol of half-open probes, refined by both
      circuit breakers.
    - [Float64], [Text], [Json]: what the components use of [f64], of [str] and of
      [serde_json::Value].
    - [Resilience] ([resilience.rs]): the attempt budget of a request, cooldowns,
      [Retry-After].
    - [RuntimeHealth], [HealthSummary] ([health.rs]): the circuit breakers of
      endpoints and upstream keys, and the summary of a provider.
    - [Types] ([types.rs], [db/upstream_config.rs], [request_overrides.rs]): the
      records of the configuration.
    - [ProviderRuntime], [Quota] ([provider_runtime.rs]): the provider breaker with
      its concurrency limit, and the rate-limit quotas of upstream keys.
    - [KeyRotation], [Weighted], [Selector] ([key_rotation.rs], [selector.rs]):
      round-robin and weighted order of keys, order of endpoints.
    - [Affinity] ([affinity.rs]): the book that binds a session to a target.
    - [ResponseEvents] ([response_events.rs]): decoding server-sent events, usage,
      terminal statuses.
    - [Recovery] ([encrypted_content.rs]): the retry after encrypted content is
      rejected.
    - [Caches] ([cache/*.rs]): API keys, WebSocket capabilities, the holder of the
      configuration snapshot.
    - [Pricing] ([pricing.rs]): price cards, tiers, the cost of a request.
    - [Snapshot] ([cache/upstream_cache.rs]): the contents of the configuration
      snapshot, built from the rows of the database.
    - [RoutingAvailability] ([routing_availability.rs], [state.rs]): whether an
      account can take a request now, over the books of the shared state.
    - [Routing] ([proxy.rs]): the routes of a requested model.
    - [Plan] ([proxy.rs]): the ordered attempts of a request and session affinity.
    - [Reservation] ([proxy.rs]): reserving a planned attempt in the books, and the
      scopes ([provider], [endpoint], [key], [response]) a failure is settled with.
    - [Slots]: the concurrency slots in use, and what every operation of the books
      does to them.
    - [OpenAi] ([openai.rs]): what is read from a request body ([request_info]), and
      the byte-level insertion of [stream_options.include_usage].
    - [Headers], [RequestOverrides], [UpstreamUrl] ([proxy.rs],
      [request_overrides.rs], [upstream_url.rs]): the head of the upstream request.
    - [ViaChatRequest], [ViaChatStream], [ViaChatProtocol]
      ([responses_via_chat.rs]): the Responses API served by a chat upstream: the
      request and the complete answer; the streamed answer; the theorems about it.
    - [CodexRequests] ([codex_oauth.rs], [responses_lite.rs]): the normal form of a
      request to the Codex service, its answers and its quota.
    - [Relay] ([proxy.rs], [telemetry.rs]): metering a streamed body, and the three
      ways a body is read ahead before it is relayed.
    - [Tap] ([proxy.rs]): the reader that stands between the upstream body and the
      client ([ProxyTapBody]), and the settlement of an attempt ([finalize_tap]).
    - [Prepare] ([proxy.rs]): the URI, headers and body of one attempt.
    - [AttemptLoop] ([proxy.rs]): a whole request ([proxy_openai_inner] from the
      plan on): reservation, preparation, sending, retries, failover, answer.
    - [PriceCatalog], [PriceTables], [PriceSync] ([price_sync.rs], the price tables
      of [db.rs]): reading a price catalogue, the tables it is written to under a
      lease, and the task that synchronises them.
    - [WsParts], [WsConnect], [WsTurn], [WsSession] ([responses_ws.rs]): the Responses
      API over a WebSocket: its pure parts; finding and opening an upstream
      connection ([connect_selected_upstream]); one turn over a native connection or
      over the HTTP bridge ([forward_response_create]); the session around the turns
      ([serve_websocket]). [WsRelay] shows what a turn sends the client, [WsBudget]
      how many exchanges it costs.
    - [Notification] ([notification/mod.rs]): channels, rules and the schedules of
      reports. [Alerts] ([evaluate_alert] of [notification/runtime.rs]): when an alert
      fires, reminds and recovers.
    - [NotifyTables] ([notification/store.rs]): the tables of the notifications and
      every statement on them. [NotifyReport] ([notification/report.rs]): the payload of
      a notification. [NotifyTransport] ([notification/transport.rs]): the message made
      of it, and what an answer means for the delivery.
    - [NotifyRuntime] ([notification/runtime.rs]): a pass over the due rules and the
      sending of one delivery. [NotifySchedule] shows which windows the reports cover,
      [NotifyDelivery] how often a message is sent.
    - [NotifyAdmin] ([notification/admin.rs]): the administrative endpoints of the
      notifications.
    - [Crypto] ([crypto.rs]): the stored form of secrets.
    - [CodexTokens] ([codex_oauth.rs]): the requests to the login service - device
      codes, exchanges, refreshes, quotas, model lists -, what their answers mean, and the
      callback of the browser.
    - [CodexAccounts] ([codex_oauth.rs]): the table of accounts with the keys they belong
      to, and every statement on them.
    - [CodexRefresh] ([codex_oauth.rs]): handing out a valid token
      ([prepare_auth_with_status]), reading the quota and the models of an account.
      [CodexLease] shows what the lease of a refresh achieves between instances.
    - [CodexSessions] ([codex_oauth.rs], [codex_oauth_callback.rs]): the login sessions
      ([CodexOAuthManager]), the callback, the tasks that carry a login through.
      [CodexLogin] shows what becomes of the logins that run at once.
    - [StatsTables] (the statistics and the request log in [db.rs]): the tables and the
      statements on them. [Telemetry] ([telemetry.rs], [log_archive.rs]): the worker that
      counts and writes, its retention and archive. [TelemetryFacts] shows what stops
      it, [HourlyFacts] and [DailyFacts] what its statistics say, [ArchiveFacts] what
      its retention deletes.

    ** How they interact

    [AttemptLoop.proxy_attempts] takes a plan of [Plan], reserves each attempt with
    [Reservation], prepares it with [Prepare] and asks the world for
    an answer; a retryable answer is settled and the next attempt tried, every other
    answer is read ahead by [Relay] and handed to [Tap]. [Plan] reads [Snapshot]
    (configuration), [Routing] (candidates), the books of
    [RoutingAvailability.SharedState] ([ProviderRuntime], [RuntimeHealth], [Quota],
    [KeyRotation], [Affinity]) and [Selector]; the outcome of an attempt comes back
    to the same books. A book is a Rust structure behind a mutex: an operation is one
    critical section, a function from the book (and the clock reading) to the book
    and the result. An interleaving of concurrent requests is then a sequence of
    operations, and the safety theorems are stated over arbitrary sequences or over
    a step relation whose state has every outstanding guard or permit. The shared
    state is passed explicitly where reading it changes it (quotas and affinity drop
    what has expired). The loop runs in a state monad over the state of one request
    ([AttemptLoop.M]); its properties are shown with postconditions that compose
    along the monad ([post], [keeps], [moves], [stays] of [Computation]). A session
    ([WsSession.serve_websocket]) runs in the same monad over the state of the session
    and its turn ([WsConnect.WsState]) and uses [Plan], [Reservation], [Headers],
    [RequestOverrides], [CodexRequests], [Recovery], [Caches] and the affinity book as
    the loop does; whenever it waits, other requests may change the books and the client
    may leave ([WsConnect.wait]).

    A task or a handler of the notifications ([NotifyRuntime.process_rule],
    [NotifyRuntime.deliver_one], [NotifyAdmin.update_rule]) runs in the same monad over
    the tables of [NotifyTables]; it shares nothing else with other tasks. Before each of
    its statements others may change the tables, and the statement may fail with or
    without having taken effect ([NotifyRuntime.Moment]). [NotifySchedule] is proved for
    all others that respect the relation [others_edit]; [edits_are_assumed] of
    [NotifyAdmin] discharges it for the statements of an administrator.
    [NotifyDelivery] makes the statements of [deliver_one] the steps of a
    transition system in which any number of tasks, on any number of instances,
    interleave with everything else that writes the tables.

    The accounts are modelled the same way. [CodexRefresh.prepare_auth_with_status] runs
    in the monad over the tables of [CodexAccounts]; others may change them before each of
    its statements, and each may fail. It is what the attempt loop and the sessions ask
    for the token of an OAuth key ([aw_auth] of the world in [AttemptLoop]).
    [CodexLease.refresh_step] makes the statements of a refresh the steps of tasks on any
    number of instances, next to logins and everything else that writes an account;
    [CodexLogin.login_step] interleaves the operations on the sessions of one process with
    the tasks that wait for the service and for the database ([CodexSessions.worker_step],
    one step from one wait to the next), under the lock of each session.

    The synchronisation of the prices ([PriceSync.run_job], [PriceSync.run_apply]) passes
    the tables through its statements; before each of them workers and administrators may
    run any operations of [PriceTables], and the statement may be lost, or be committed
    while its acknowledgement is lost ([PriceSync.Fault]).

    The worker of the statistics ([Telemetry.serve]) runs in the same monad over its own
    state, the tables and the archive; others may change the tables whenever it draws
    from the world or runs a statement. It receives the events that [Tap] and the sessions
    send ([Telemetry.TelemetryEvent]), in the order [Telemetry.select] gives; the rows of
    [stats_events] are what [NotifyTables] aggregates ([event_counted_alike]).

    ** Conventions

    A Rust integer is a [Z]; wrapping, saturation and casts are written out where the
    code has them ([Prelude]). Instants are milliseconds as the code has them; every
    reading of the clock is an argument. A [HashMap] is a [gmap]; where the code
    iterates one, the order is the parameter [HashOrder]. Random draws are the
    parameter [FastRand]. A [Result] is a sum, [Option] is [option]; an error carries
    the status, code and message of the code. Third-party code is a parameter:
    hashes, HTTP and RFC 3339 dates, the JSON reader and printer, URI parsing,
    decompression, decimal arithmetic, cron expressions and time zones, the template
    engine, ciphers and MACs. What an upstream does to a request is a
    parameter too: the records of the world in [Tap], [AttemptLoop] and [WsConnect] give
    the answer of every send, its body frame by frame and the readings of the clock, and
    the theorems hold for all of them. What a world sends is a finite list; when it is
    read to its end the reader's deadline has passed.

    ** Fuel

    Loops that remove an element per turn run on the length of their list
    ([weighted_order_pairs], [order_priorities], [order_priority_group]); eviction
    loops run on the size of their map; scanners run on the length of what is left
    to scan; the attempt loop is structural on the targets of the plan, and a target is
    sent to at most three times. A turn of a session is sent again without encrypted
    content at most once ([WsTurn.forward_loop] has fuel one, [no_second_retry] shows it is
    enough) and moves at most to [WsSession.turn_rounds] = three providers ([turn_ends]
    shows that more fuel changes nothing). A task that waits for the refresh of another
    instance looks [REFRESH_LEASE_WAIT_ATTEMPTS] = twenty times, as the code does. The theorems about them have no
    hypothesis on fuel. All other recursion is structural.

    ** Theorems

    - a request: however it ends, every slot it reserved is returned; it sends no
      more than its budget and its single-shot retries allow; what an exclusion or a
      failed recheck rules out is never touched ([AttemptLoop]);
    - the answer: the client receives the converted or unchanged body, a departed
      client does not change the bill and blames nobody; reading ahead replays
      every frame, and the end but for one error it forgets, and gives up on silence;
      metering keeps the last usage ([Tap], [Relay]);
    - circuits: at most one current probe in every interleaving, no orphaned probe,
      thresholds and recovery exact, both refine the protocol of half-open probes
      ([RuntimeHealth], [ProviderRuntime]);
    - limits: no permit is refused below the limit, and the limit is exact unless a
      provider is purged while it serves requests; attempt budgets are exact, reservations never overbook,
      cooldowns are honoured ([ProviderRuntime], [Resilience], [Quota]); a planned
      attempt is reservable, a granted reservation holds what it claims, a failure
      is blamed on its scope ([Reservation]);
    - order: keys, endpoints and providers are permuted, never lost, and sorted as
      documented; rotation is fair ([Selector], [KeyRotation], [Plan]);
    - routing: routes are legitimate, collection is exact, an account is available
      exactly when nothing objects, the retry time promised is never too early
      ([Routing], [RoutingAvailability]);
    - plans: every attempt is sound, a plan is found whenever a route is ready, a
      session follows its binding ([Plan], [Affinity]);
    - requests: overrides cannot touch what the gateway owns, upstream headers are
      exactly the documented ones, the inserted usage option is exactly that, the
      request to the Codex service is in normal form ([RequestOverrides],
      [Headers], [OpenAi], [CodexRequests]);
    - translation: a converted stream is a numbered Responses stream that ends exactly
      once - with its last event, when nothing follows the end in its frame - and faithful
      to the chat stream, the conversation keeps its order, tool names lead back,
      the usage is metered alike ([ViaChatRequest], [ViaChatProtocol]);
    - streams: frames of server-sent events decode to their events in whatever chunks they
      arrive, the decoder's memory is bounded, the usage observed is the final one ([ResponseEvents]);
    - money: accepted cards are well formed and round-trip, a request is charged by
      its tier exactly when its usage and rates are known ([Pricing], [Snapshot]);
    - price synchronisation: a catalogue becomes exactly its acceptable rows, an
      edit by hand takes effect whatever ran before, one price per model is in force,
      manual prices survive, a lost lease writes nothing, every run ends with a result
      that is stored, the preview foretells the outcome ([PriceCatalog], [PriceTables],
      [PriceSync]);
    - sessions: every slot is given back, also after a panic; a turn costs at most
      three connections and requests, ends, and needs a key that is valid now; the
      client sees the upstream's messages unchanged and in order, nothing of a turn
      that another provider takes over; the open target is checked against the
      configuration before each attempt; a departed client blames nobody ([WsParts],
      [WsTurn], [WsRelay], [WsBudget], [WsSession]);
    - notifications: an alert depends on its window of measurements only, a report
      starts where the last completed one ended and counts every event of its window
      once, every pass keeps the schedules whatever others do; no two tasks send the
      same delivery at once, it is sent at most three times and once more for each retry
      of an administrator, a settled one rests; a webhook is retried exactly after a
      temporary failure, and no header of a channel replaces the gateway's own; a
      channel that is sent back as it was shown keeps its secrets ([Alerts], [NotifyReport], [NotifySchedule],
      [NotifyDelivery], [NotifyTransport], [NotifyAdmin]);
    - accounts: the token that is handed out is the stored one of a usable account,
      whatever others do; a refresh replaces what it leased and nothing newer, and on one
      instance sends the current refresh token; an account costs a bounded number of
      requests; a login is saved exactly when its account fits the key and reads back as
      it was; each login exchanges its code and stores its credentials at most once, a
      cancelled one never does, a target has one login at a time; a form is read back as
      it was written ([CodexTokens], [CodexAccounts], [CodexRefresh], [CodexLease],
      [CodexLogin]);
    - statistics: the worker survives an event exactly when it need not shorten a message
      inside a character; the hourly statistics lose no event, whatever fails, and count
      none twice while nothing fails, on any number of instances; the daily statistics
      of one instance whose statements succeed refine a book of counters by day and key;
      no log is deleted that was not archived, while one instance deletes
      ([TelemetryFacts], [HourlyFacts], [DailyFacts], [ArchiveFacts]);
    - caches: only live keys pass, snapshots have a bounded age ([Caches]).

    Where the code does not do what it means to, a theorem or an example states what
    it does: [purge_forgets_running_requests], [weighted_order_overflow],
    [null_error_is_failure], [revocation_overtaken],
    [inactive_model_reported_unknown], [policy_target_blocked_by_legacy_route],
    [null_stream_options_refused], [abandoned_stall_counts_as_success],
    [last_failure_recorded_twice], [departed_timeout_scope],
    [padded_header_never_sent], [two_instances_send_replaced_token],
    [late_callback_hides_login], [long_message_stops_worker], [failed_flush_counts_twice],
    [failed_write_loses_day], [flush_misses_waiting_event],
    [two_instances_delete_unarchived], [broken_error_body_completes],
    [chunk_after_done_depends_on_frames], [equal_headers_merged].

    ** Not modelled

    Sockets, TLS, SQL and files; the administrative API of the gateway beyond the
    operations it calls; metrics, the queries that read statistics and logs back, and the
    bytes of an archive file. Of the accounts: the
    socket the callback arrives on, the tables under PostgreSQL (its statements are those
    for SQLite), and the removal of accounts, which the deletion of a key does. Of
    the notifications: the protocol of the mail server and the HTTP client below
    one request. Of a
    WebSocket session: the durations and the rejected candidates in its routing trace, the
    texts of override errors, the frames below a message, and an upstream that never stops
    sending. Mutex poisoning (a panic while a lock is held) and the
    exhaustion of memory are outside the model, and so are counters of the
    metrics. *)
From stdpp Require Export base gmap sets strings sorting numbers list.
From stdpp Require Export ssreflect.

#[global] Open Scope Z_scope.

Declare Scope gate_scope.
Delimit Scope gate_scope with gate.
Notation "x |> f" := (f x) (at level 79, left associativity, only parsing) : gate_scope.
#[global] Open Scope gate_scope.

Create HintDb gate.

(** ** Machine integers

    Every Rust integer is a [Z] within its width; the wrapping, saturating and
    casting operations of the standard library are spelled out here. *)
Definition u32_max : Z := 4294967295.
Definition u64_max : Z := 18446744073709551615.
Definition i32_max : Z := 2147483647.
Definition i32_min : Z := -2147483648.
Definition i64_max : Z := 9223372036854775807.
Definition i64_min : Z := -9223372036854775808.

Definition sat_i64 (z : Z) : Z := Z.max i64_min (Z.min i64_max z).
Definition i64_sat_add (a b : Z) : Z := sat_i64 (a + b).
Definition i64_sat_sub (a b : Z) : Z := sat_i64 (a - b).
Definition i64_sat_mul (a b : Z) : Z := sat_i64 (a * b).
Definition i64_checked (z : Z) : option Z :=
  if (i64_min <=? z) && (z <=? i64_max) then Some z else None.
Definition u32_sat_add (a b : Z) : Z := Z.min u32_max (a + b).
Definition u32_sat_sub (a b : Z) : Z := Z.max 0 (a - b).
Definition u64_sat_add (a b : Z) : Z := Z.min u64_max (a + b).
Definition u64_sat_mul (a b : Z) : Z := Z.min u64_max (a * b).
Definition u64_wrap (z : Z) : Z := z mod 18446744073709551616.
(** Two's complement reading of the low 32 bits: [i32] arithmetic in a release build. *)
Definition i32_wrap (z : Z) : Z := (z + 2147483648) mod 4294967296 - 2147483648.
(** The same of the low 64 bits, [i64] arithmetic. *)
Definition i64_wrap (z : Z) : Z := (z + 9223372036854775808) mod 18446744073709551616 - 9223372036854775808.
(** [x as u32] of a signed value. *)
Definition as_u32 (z : Z) : Z := z mod 4294967296.

Definition is_u32 (z : Z) : Prop := 0 <= z <= u32_max.
Definition is_u64 (z : Z) : Prop := 0 <= z <= u64_max.
Definition is_i32 (z : Z) : Prop := i32_min <= z <= i32_max.
Definition is_i64 (z : Z) : Prop := i64_min <= z <= i64_max.

Ltac unfold_mint :=
  unfold is_u32, is_u64, is_i32, is_i64, i64_sat_add, i64_sat_sub, i64_sat_mul,
    u32_sat_add, u32_sat_sub, u64_sat_add, u64_sat_mul, sat_i64,
    u32_max, u64_max, i32_max, i32_min, i64_max, i64_min in *.
(** Linear arithmetic after unfolding the machine integers. *)
Ltac mlia := unfold_mint; lia.

Lemma as_u32_id z : 0 <= z <= u32_max → as_u32 z = z.
Proof. unfold as_u32. intros ?. apply Z.mod_small. mlia. Qed.

Lemma i32_wrap_id z : is_i32 z → i32_wrap z = z.
Proof. unfold i32_wrap. intros ?. rewrite Z.mod_small; mlia. Qed.

Lemma i64_wrap_id z : is_i64 z → i64_wrap z = z.
Proof. unfold i64_wrap. intros ?. rewrite Z.mod_small; mlia. Qed.

Lemma u64_wrap_id z : is_u64 z → u64_wrap z = z.
Proof. unfold u64_wrap. intros ?. apply Z.mod_small. mlia. Qed.

Lemma u64_wrap_range z : is_u64 (u64_wrap z).
Proof.
  unfold u64_wrap. pose proof (Z.mod_pos_bound z 18446744073709551616). mlia.
Qed.

Lemma i64_sat_add_ge a b : is_i64 a → 0 <= b → a <= i64_sat_add a b.
Proof. mlia. Qed.

Lemma i64_sat_add_is_i64 a b : is_i64 (i64_sat_add a b).
Proof. mlia. Qed.

Lemma i64_sat_add_exact a b : is_i64 (a + b) → i64_sat_add a b = a + b.
Proof. mlia. Qed.

Lemma i64_sat_add_mono a b a' b' : a <= a' → b <= b' → i64_sat_add a b <= i64_sat_add a' b'.
Proof. mlia. Qed.

#[export] Hint Resolve i64_sat_add_ge i64_sat_add_is_i64 i64_sat_add_mono u64_wrap_range : gate.

(** ** Options, as the code's combinators use them *)
Definition is_some_and {A} (o : option A) (f : A → bool) : bool :=
  match o with Some x => f x | None => false end.
Definition is_none_or {A} (o : option A) (f : A → bool) : bool :=
  match o with Some x => f x | None => true end.
Definition unwrap_or {A} (o : option A) (d : A) : A :=
  match o with Some x => x | None => d end.
Definition opt_filter {A} (f : A → bool) (o : option A) : option A :=
  match o with Some x => if f x then Some x else None | None => None end.
Definition opt_or {A} (o o' : option A) : option A :=
  match o with Some _ => o | None => o' end.
Definition is_some {A} (o : option A) : bool :=
  match o with Some _ => true | None => false end.
Definition is_none {A} (o : option A) : bool := negb (is_some o).
(** Equality of optional integers, [Option<i64>::eq]. *)
Definition opt_eqb (a b : option Z) : bool :=
  match a, b with
  | Some x, Some y => x =? y
  | None, None => true
  | _, _ => false
  end.

Lemma opt_eqb_spec a b : reflect (a = b) (opt_eqb a b).
Proof.
  destruct a as [x|], b as [y|]; simpl; try (constructor; congruence).
  destruct (Z.eqb_spec x y); constructor; congruence.
Qed.

Lemma is_some_and_true {A} (o : option A) f :
  is_some_and o f = true ↔ ∃ x, o = Some x ∧ f x = true.
Proof. destruct o; simpl; naive_solver. Qed.

Lemma is_none_or_true {A} (o : option A) f :
  is_none_or o f = true ↔ ∀ x, o = Some x → f x = true.
Proof. destruct o; simpl; naive_solver. Qed.

(** ** Lists, as the code's iterators and vectors use them *)
Definition is_empty {A} (l : list A) : bool := match l with [] => true | _ => false end.

Definition max_opt (l : list Z) : option Z :=
  match l with [] => None | x :: l' => Some (foldr Z.max x l') end.
Definition min_opt (l : list Z) : option Z :=
  match l with [] => None | x :: l' => Some (foldr Z.min x l') end.
Definition sum_Z (l : list Z) : Z := foldr Z.add 0 l.

Lemma foldr_max_spec x l :
  (∀ y, y ∈ x :: l → y <= foldr Z.max x l) ∧ foldr Z.max x l ∈ x :: l.
Proof.
  induction l as [|a l [IH1 IH2]]; simpl.
  - split; [intros y; rewrite list_elem_of_singleton; lia | set_solver].
  - split.
    + intros y Hy. assert (y = a ∨ y ∈ x :: l) as [->|Hy'] by set_solver; [lia|].
      specialize (IH1 y Hy'). lia.
    + destruct (Z.max_spec a (foldr Z.max x l)) as [[? ->]|[? ->]]; set_solver.
Qed.

Lemma foldr_min_spec x l :
  (∀ y, y ∈ x :: l → foldr Z.min x l <= y) ∧ foldr Z.min x l ∈ x :: l.
Proof.
  induction l as [|a l [IH1 IH2]]; simpl.
  - split; [intros y; rewrite list_elem_of_singleton; lia | set_solver].
  - split.
    + intros y Hy. assert (y = a ∨ y ∈ x :: l) as [->|Hy'] by set_solver; [lia|].
      specialize (IH1 y Hy'). lia.
    + destruct (Z.min_spec a (foldr Z.min x l)) as [[? ->]|[? ->]]; set_solver.
Qed.

Lemma max_opt_Some l m :
  max_opt l = Some m → m ∈ l ∧ ∀ y, y ∈ l → y <= m.
Proof.
  destruct l as [|x l]; simpl; [done|]. intros [= <-].
  destruct (foldr_max_spec x l); auto.
Qed.

Lemma min_opt_Some l m :
  min_opt l = Some m → m ∈ l ∧ ∀ y, y ∈ l → m <= y.
Proof.
  destruct l as [|x l]; simpl; [done|]. intros [= <-].
  destruct (foldr_min_spec x l); auto.
Qed.

Lemma min_opt_None l : min_opt l = None ↔ l = [].
Proof. destruct l; simpl; split; congruence. Qed.

Lemma omap_cons_Some {A B} (f : A → option B) x l y :
  f x = Some y → omap f (x :: l) = y :: omap f l.
Proof. intros H. simpl. by rewrite H. Qed.

Lemma omap_cons_None {A B} (f : A → option B) x l :
  f x = None → omap f (x :: l) = omap f l.
Proof. intros H. simpl. by rewrite H. Qed.

Lemma omap_ext_in {A B} (f g : A → option B) (l : list A) :
  (∀ x, x ∈ l → f x = g x) → omap f l = omap g l.
Proof.
  induction l as [|x l IH]; intros H; [done|]. cbn.
  rewrite (H x); [|set_solver]. rewrite IH; [done|set_solver].
Qed.

Lemma omap_list_fmap {A B C} (f : A → B) (g : B → option C) (l : list A) :
  omap g (f <$> l) = omap (λ x, g (f x)) l.
Proof. induction l as [|x l IH]; [done|]. cbn. by rewrite -IH. Qed.

(** Reading every position of a list gives it back. *)
Lemma omap_lookup_seq {A} (l : list A) : omap (λ i : nat, l !! i) (seq 0 (length l)) = l.
Proof.
  induction l as [|x l IH]; [done|]. cbn. f_equal. rewrite -fmap_S_seq omap_list_fmap. exact IH.
Qed.

(** [Iterator::min_by_key]: the first of the minimal elements. *)
Fixpoint min_by_key {A} (key : A → Z) (l : list A) : option A :=
  match l with
  | [] => None
  | x :: l' =>
      match min_by_key key l' with
      | None => Some x
      | Some y => if key x <=? key y then Some x else Some y
      end
  end.

(** [Iterator::max_by_key]: the last of the maximal elements. *)
Fixpoint max_by_key {A} (key : A → Z) (l : list A) : option A :=
  match l with
  | [] => None
  | x :: l' =>
      match max_by_key key l' with
      | None => Some x
      | Some y => if key x <=? key y then Some y else Some x
      end
  end.

Lemma min_by_key_Some {A} (key : A → Z) l x :
  min_by_key key l = Some x → x ∈ l ∧ ∀ y, y ∈ l → key x <= key y.
Proof.
  revert x. induction l as [|a l IH]; intros x; simpl; [done|].
  destruct (min_by_key key l) as [b|] eqn:E.
  - destruct (IH b eq_refl) as [Hb Hmin].
    destruct (Z.leb_spec (key a) (key b)) as [Hle|Hlt]; intros [= <-].
    + split; [set_solver|]. intros y [->|Hy]%elem_of_cons; [lia|]. specialize (Hmin y Hy). lia.
    + split; [set_solver|]. intros y [->|Hy]%elem_of_cons; [lia|]. auto.
  - intros [= <-]. destruct l as [|c l]; [set_solver by lia|].
    simpl in E. destruct (min_by_key key l) as [d|]; [destruct (_ <=? _)|]; congruence.
Qed.

Lemma min_by_key_None {A} (key : A → Z) l : min_by_key key l = None ↔ l = [].
Proof.
  destruct l as [|x l]; simpl; [done|].
  destruct (min_by_key key l); [destruct (_ <=? _)|]; split; congruence.
Qed.

(** [Vec::swap_remove]: the element at [i] is replaced by the last one. The
    code only calls it within bounds; out of bounds it panics, here it is the
    list without its last element. *)
Definition swap_remove {A} (i : nat) (l : list A) : list A :=
  match last l with
  | None => []
  | Some z => take (length l - 1) (<[i := z]> l)
  end.

Lemma swap_remove_perm {A} (l : list A) i x :
  l !! i = Some x → l ≡ₚ x :: swap_remove i l.
Proof.
  intros Hi. unfold swap_remove.
  destruct (last l) as [z|] eqn:Hl; [|apply last_None in Hl; subst; done].
  apply last_Some in Hl as [l' ->].
  rewrite length_app /= Nat.add_sub.
  apply lookup_app_Some in Hi as [Hi|[Hge Hi]].
  - pose proof (lookup_lt_Some _ _ _ Hi) as Hlt.
    rewrite insert_app_l // take_app_length'; [|by rewrite length_insert].
    rewrite (insert_take_drop l' i z) //.
    rewrite -{1}(take_drop_middle l' i x Hi) -app_assoc /=.
    rewrite -Permutation_middle. apply perm_skip, Permutation_app_head.
    symmetry. apply Permutation_cons_append.
  - apply list_lookup_singleton_Some in Hi as [Hi <-].
    assert (i = length l') as -> by lia.
    rewrite insert_app_r_alt // Nat.sub_diag /= take_app_length.
    by rewrite Permutation_app_comm.
Qed.

Lemma swap_remove_length {A} (l : list A) i :
  (i < length l)%nat → S (length (swap_remove i l)) = length l.
Proof.
  intros Hi. destruct (lookup_lt_is_Some_2 l i Hi) as [x Hx].
  by rewrite (Permutation_length (swap_remove_perm l i x Hx)).
Qed.

(** Stable sorting, the contract of [slice::sort_by_key] and [slice::sort_by]:
    insertion after every smaller and before every equal later element. *)
Section StableSort.
Context {A : Type} (leb : A → A → bool).

Fixpoint insert_by (x : A) (l : list A) : list A :=
  match l with
  | [] => [x]
  | y :: l' => if leb x y then x :: l else y :: insert_by x l'
  end.

Definition sort_by (l : list A) : list A := foldr insert_by [] l.

Lemma insert_by_perm x l : insert_by x l ≡ₚ x :: l.
Proof.
  induction l as [|y l IH]; simpl; [done|].
  destruct (leb x y); [done|]. rewrite IH. apply Permutation_swap.
Qed.

Lemma sort_by_perm l : sort_by l ≡ₚ l.
Proof. induction l as [|x l IH]; simpl; [done|]. by rewrite insert_by_perm IH. Qed.

Hypothesis leb_total : ∀ x y, leb x y = false → leb y x = true.
Hypothesis leb_trans : ∀ x y z, leb x y = true → leb y z = true → leb x z = true.

Lemma insert_by_sorted x l :
  StronglySorted (λ a b, leb a b = true) l →
  StronglySorted (λ a b, leb a b = true) (insert_by x l).
Proof.
  induction 1 as [|y l Hs IH Hall]; simpl; [by repeat constructor|].
  destruct (leb x y) eqn:E.
  - constructor; [by constructor|]. constructor; [done|].
    eapply Forall_impl; [exact Hall|]. intros z Hz. by eapply leb_trans.
  - constructor; [done|]. rewrite insert_by_perm. constructor; auto.
Qed.

Lemma sort_by_sorted l : StronglySorted (λ a b, leb a b = true) (sort_by l).
Proof. induction l; simpl; [constructor|]. by apply insert_by_sorted. Qed.
End StableSort.

Lemma StronglySorted_impl {A} (R R' : A → A → Prop) l :
  (∀ x y, R x y → R' x y) → StronglySorted R l → StronglySorted R' l.
Proof.
  intros HR. induction 1 as [|x l _ IH Hall]; constructor; [done|].
  eapply Forall_impl; [exact Hall|]. auto.
Qed.

(** Lexicographic order on pairs of integers, the key of [sort_by_key(|x| (a, b))]. *)
Definition lex_leb (a b : Z * Z) : bool :=
  (a.1 <? b.1) || ((a.1 =? b.1) && (a.2 <=? b.2)).

Lemma lex_leb_true a b :
  lex_leb a b = true ↔ a.1 < b.1 ∨ a.1 = b.1 ∧ a.2 <= b.2.
Proof.
  unfold lex_leb. by rewrite orb_true_iff andb_true_iff Z.ltb_lt Z.eqb_eq Z.leb_le.
Qed.

Lemma lex_leb_total a b : lex_leb a b = false → lex_leb b a = true.
Proof.
  intros H. apply lex_leb_true. destruct (lex_leb_true a b) as [_ Hb].
  rewrite H in Hb. lia.
Qed.

Lemma lex_leb_trans a b c : lex_leb a b = true → lex_leb b c = true → lex_leb a c = true.
Proof. rewrite !lex_leb_true. lia. Qed.

Definition sort_by_key2 {A} (key : A → Z * Z) (l : list A) : list A :=
  sort_by (λ x y, lex_leb (key x) (key y)) l.
Definition sort_by_key1 {A} (key : A → Z) (l : list A) : list A :=
  sort_by (λ x y, key x <=? key y) l.

Lemma sort_by_key2_perm {A} (key : A → Z * Z) l : sort_by_key2 key l ≡ₚ l.
Proof. apply sort_by_perm. Qed.
Lemma sort_by_key1_perm {A} (key : A → Z) l : sort_by_key1 key l ≡ₚ l.
Proof. apply sort_by_perm. Qed.

Lemma sort_by_key2_sorted {A} (key : A → Z * Z) l :
  StronglySorted (λ x y, lex_leb (key x) (key y) = true) (sort_by_key2 key l).
Proof.
  apply sort_by_sorted; intros *; [apply lex_leb_total|apply lex_leb_trans].
Qed.

Lemma sort_by_key1_sorted {A} (key : A → Z) l :
  StronglySorted (λ x y, key x <= key y) (sort_by_key1 key l).
Proof.
  eapply StronglySorted_impl, (sort_by_sorted (λ x y, key x <=? key y)); simpl.
  all: intros *; rewrite ?Z.leb_le ?Z.leb_gt; lia.
Qed.

Lemma size_list_to_set_le `{Countable K} (l : list K) : (size (list_to_set l : gset K) <= length l)%nat.
Proof.
  induction l as [|x l IH]; simpl; [done|]. rewrite size_union_alt size_singleton.
  pose proof (subseteq_size ((list_to_set l : gset K) ∖ {[x]}) (list_to_set l)) as Hs.
  specialize (Hs ltac:(set_solver)). lia.
Qed.

(** Stability: the elements of one key keep their order. *)
Lemma sort_by_key2_stable {A} (key : A → Z * Z) l c :
  List.filter (λ x, bool_decide (key x = c)) (sort_by_key2 key l) = List.filter (λ x, bool_decide (key x = c)) l.
Proof.
  unfold sort_by_key2, sort_by. induction l as [|x l IH]; [done|]. cbn [foldr List.filter]. rewrite -IH. clear IH.
  generalize (foldr (insert_by (λ x y, lex_leb (key x) (key y))) [] l) as k. intros k.
  induction k as [|y k IH]; [done|]. cbn [insert_by]. destruct (lex_leb (key x) (key y)) eqn:E; [done|].
  cbn [List.filter]. rewrite IH. case_bool_decide as Hx; [|done]. case_bool_decide as Hy; [|done].
  rewrite Hx Hy in E. assert (lex_leb c c = true) as E'; [|congruence]. apply lex_leb_true. lia.
Qed.

(** ** Results

    [Result<A, E>] is [A + E]; [let?] is the [?] operator. *)
(** [Result::map_err] *)
Definition map_err {A E F} (f : E → F) (r : A + E) : A + F := match r with inl a => inl a | inr e => inr (f e) end.
Definition ok_or {A E} (o : option A) (e : E) : A + E :=
  match o with Some x => inl x | None => inr e end.
Definition res_bind {A B E} (r : A + E) (f : A → B + E) : B + E :=
  match r with inl x => f x | inr e => inr e end.
Definition is_ok {A E} (r : A + E) : bool := match r with inl _ => true | inr _ => false end.

Notation "'let?' x := r 'in' k" := (res_bind r (λ x, k))
  (at level 200, x name, r at level 100, k at level 200) : gate_scope.

(** [Option::and_then]; [let!] is [?] on options. *)
Definition opt_bind {A B} (o : option A) (f : A → option B) : option B :=
  match o with Some x => f x | None => None end.
Notation "'let!' x := r 'in' k" := (opt_bind r (λ x, k))
  (at level 200, x name, r at level 100, k at level 200) : gate_scope.

Lemma res_bind_inl {A B E} (r : A + E) (f : A → B + E) y :
  res_bind r f = inl y ↔ ∃ x, r = inl x ∧ f x = inl y.
Proof. destruct r; simpl; naive_solver. Qed.

Lemma res_bind_inr {A B E} (r : A + E) (f : A → B + E) e :
  res_bind r f = inr e ↔ r = inr e ∨ ∃ x, r = inl x ∧ f x = inr e.
Proof. destruct r; cbn; naive_solver. Qed.

Lemma map_err_inl {A E F} (f : E → F) (r : A + E) a : map_err f r = inl a ↔ r = inl a.
Proof. destruct r; naive_solver. Qed.
Lemma map_err_inr {A E F} (f : E → F) (r : A + E) e : map_err f r = inr e ↔ ∃ e', r = inr e' ∧ e = f e'.
Proof. destruct r; naive_solver. Qed.

Lemma ok_or_inl {A E} (o : option A) (e : E) x : ok_or o e = inl x ↔ o = Some x.
Proof. destruct o; simpl; naive_solver. Qed.

Lemma opt_bind_Some {A B} (o : option A) (f : A → option B) y :
  opt_bind o f = Some y ↔ ∃ x, o = Some x ∧ f x = Some y.
Proof. destruct o; simpl; naive_solver. Qed.

(** ** Positions *)

(** [Iterator::rposition]. *)
Fixpoint rposition {A} (f : A → bool) (l : list A) : option nat :=
  match l with
  | [] => None
  | x :: l' =>
      match rposition f l' with
      | Some i => Some (S i)
      | None => if f x then Some O else None
      end
  end.

(** On a list sorted so that [f] holds on a prefix, the last position is the
    number of elements before the first that fails. *)
Lemma rposition_prefix {A} (f : A → bool) (l : list A) :
  (∀ i j x y, (i < j)%nat → l !! i = Some x → l !! j = Some y → f y = true → f x = true) →
  match rposition f l with Some i => S i | None => O end = length (List.filter f l).
Proof.
  induction l as [|x l IH]; intros Hp; simpl; [done|].
  assert (IH' := IH (λ i j a b Hij Ha Hb, Hp (S i) (S j) a b ltac:(lia) Ha Hb)).
  destruct (rposition f l) as [i|] eqn:E.
  - destruct (List.filter f l) as [|y l'] eqn:El; [done|]. rewrite (_ : f x = true); [simpl; simpl in IH'; lia|].
    assert (y ∈ List.filter f l) as Hy by (rewrite El; set_solver).
    apply list_elem_of_In, List.filter_In in Hy as [Hy Hfy]. apply list_elem_of_In, list_elem_of_lookup in Hy as [j Hj].
    exact (Hp O (S j) x y ltac:(lia) eq_refl Hj Hfy).
  - destruct (f x); simpl; lia.
Qed.

(** ** Randomness

    The crate [fastrand] is not part of the program: a generator is a state [R]
    with a draw below a bound, and what the code relies on is the range of a draw. *)
Class FastRand (R : Type) := rand_below : Z → R → Z * R.
Class FastRandOk (R : Type) `{FastRand R} : Prop :=
  rand_below_range : ∀ n (r : R), 0 < n → 0 <= (rand_below n r).1 < n.

(** A concrete generator, for evaluation. *)
#[export] Instance lcg : FastRand Z :=
  λ n s, (s mod n, (1103515245 * s + 12345) mod 2147483648).
#[export] Instance lcg_ok : FastRandOk Z.
Proof. intros n r Hn. apply Z.mod_pos_bound, Hn. Qed.

(** ** Iteration order of [HashMap]

    A [HashMap] is a [gmap]; iterating it visits every entry once in an
    unspecified order, which is a parameter of the operations that iterate. *)
Class HashOrder (K V : Type) `{Countable K} := hash_entries : gmap K V → list (K * V).
Class HashOrderOk (K V : Type) `{HashOrder K V} : Prop :=
  hash_entries_perm : ∀ m : gmap K V, hash_entries m ≡ₚ map_to_list m.

(** The order of [map_to_list], for evaluation. *)
Definition canonical_order {K V} `{Countable K} : HashOrder K V := map_to_list.
Lemma canonical_order_ok {K V} `{Countable K} : HashOrderOk K V (H0 := canonical_order).
Proof. by intros m. Qed.

Lemma elem_of_hash_entries {K V} `{HashOrderOk K V} (m : gmap K V) k v :
  (k, v) ∈ hash_entries m ↔ m !! k = Some v.
Proof. by rewrite hash_entries_perm elem_of_map_to_list. Qed.

(** [HashMap::retain]. *)
Definition retain {K V} `{Countable K} (f : V → bool) (m : gmap K V) : gmap K V :=
  filter (λ kv, f kv.2 = true) m.

Lemma lookup_retain {K V} `{Countable K} (f : V → bool) (m : gmap K V) k :
  retain f m !! k = opt_filter f (m !! k).
Proof.
  unfold retain. rewrite map_lookup_filter. destruct (m !! k) as [v|]; simpl; [|done].
  destruct (f v) eqn:E; [by rewrite option_guard_True|by rewrite option_guard_False].
Qed.

Lemma size_retain_le {K V} `{Countable K} (f : V → bool) (m : gmap K V) :
  (size (retain f m) <= size m)%nat.
Proof. apply map_subseteq_size, map_filter_subseteq. Qed.

Lemma length_omap_le {A B} (f : A → option B) l : (length (omap f l) <= length l)%nat.
Proof. induction l as [|x l IH]; csimpl; [done|]. destruct (f x); cbn; lia. Qed.

(** ** Slices with a limit of a machine word *)

(** [&l[..n]] and [&l[n..]], [n] clamped to the length. *)
Fixpoint take_Z {A} (n : Z) (l : list A) : list A :=
  match l with [] => [] | x :: l' => if 0 <? n then x :: take_Z (n - 1) l' else [] end.
Fixpoint drop_Z {A} (n : Z) (l : list A) : list A :=
  match l with [] => [] | x :: l' => if 0 <? n then drop_Z (n - 1) l' else l end.
Definition len {A} (l : list A) : Z := Z.of_nat (length l).

Lemma take_Z_take {A} n (l : list A) : take_Z n l = take (Z.to_nat n) l.
Proof.
  revert n. induction l as [|x l IH]; intros n; cbn [take_Z]; [by rewrite take_nil|].
  destruct (Z.ltb_spec 0 n); [|by rewrite (_ : Z.to_nat n = 0%nat); [|lia]].
  rewrite (_ : Z.to_nat n = S (Z.to_nat (n - 1))); [|lia]. cbn [take]. by rewrite IH.
Qed.
Lemma elem_of_take_Z {A} n (l : list A) x : x ∈ take_Z n l → x ∈ l.
Proof. rewrite take_Z_take. intros Hx. rewrite -(take_drop (Z.to_nat n) l). set_solver. Qed.

Lemma drop_Z_drop {A} n (l : list A) : drop_Z n l = drop (Z.to_nat n) l.
Proof.
  revert n. induction l as [|x l IH]; intros n; cbn [drop_Z]; [by rewrite drop_nil|].
  destruct (Z.ltb_spec 0 n); [|by rewrite (_ : Z.to_nat n = 0%nat); [|lia]].
  rewrite (_ : Z.to_nat n = S (Z.to_nat (n - 1))); [|lia]. cbn [drop]. by rewrite IH.
Qed.

(** ** An element in the middle of a list *)
Lemma NoDup_map_middle {A B} (f : A → B) before x after :
  NoDup (map f (before ++ x :: after)) →
  NoDup (map f (before ++ after)) ∧ ∀ y, y ∈ before ++ after → f y ≠ f x.
Proof.
  rewrite !map_app /=. intros Hn. rewrite -Permutation_middle in Hn. apply NoDup_cons in Hn as [Hn Hnd].
  split; [done|]. intros y Hin E. apply Hn. rewrite -E -map_app. by apply list_elem_of_In, in_map, list_elem_of_In.
Qed.

Lemma elem_of_rest {A} (before after : list A) x y : y ∈ before ++ after → y ∈ before ++ x :: after.
Proof. rewrite !elem_of_app elem_of_cons. tauto. Qed.

Lemma elem_of_middle {A} (before after : list A) x y : y ∈ before ++ x :: after → y = x ∨ y ∈ before ++ after.
Proof. rewrite !elem_of_app elem_of_cons. tauto. Qed.

Lemma elem_of_swap {A} (before after : list A) x y z : z ∈ before ++ y :: after → z = y ∨ z ∈ before ++ x :: after.
Proof. rewrite !elem_of_app !elem_of_cons. tauto. Qed.

Lemma map_swap {A B} (f : A → B) before x y after : f y = f x → map f (before ++ y :: after) = map f (before ++ x :: after).
Proof. intros E. by rewrite !map_app /= E. Qed.
