(* ===== verification/Computation.v ===== *)
(** * Computation: stateful computations that may leave early

    The handlers of the gateway are long functions that change shared books and return
    from many places. They are written in the monad below - a function from the state to a
    result or an exit, and the state - and reasoned about with postconditions that compose
    along it, with views of the state a computation keeps, preorders it moves along, and
    invariants it maintains. *)
From S2P Require Import Prelude.

(** ** The monad *)
Definition comp (S E A : Type) : Type := S → (A + E) * S.

Section Operations.
Context {S E : Type}.

Definition ret {A} (a : A) : comp S E A := λ s, (inl a, s).
Definition bind {A B} (m : comp S E A) (f : A → comp S E B) : comp S E B :=
  λ s, match m s with (inl a, s) => f a s | (inr e, s) => (inr e, s) end.
Definition leave {A} (e : E) : comp S E A := λ s, (inr e, s).
Definition gets {A} (f : S → A) : comp S E A := λ s, (inl (f s), s).
Definition modify (f : S → S) : comp S E unit := λ s, (inl tt, f s).
(** Reading and writing in one step. *)
Definition state {A} (f : S → A * S) : comp S E A := λ s, let '(a, s) := f s in (inl a, s).
End Operations.

(** Functions that may panic: [return] leaves with [Some] result, a panic with [None]. *)
Definition return_ {S R A} (r : R) : comp S (option R) A := leave (Some r).
Definition panic {S R A} : comp S (option R) A := leave None.
(** A function and its body: what the body returns is the result, a panic goes on. *)
Definition call {S R A} (m : comp S (option A) A) : comp S (option R) A :=
  λ s, match m s with
       | (inl a, s) | (inr (Some a), s) => (inl a, s)
       | (inr None, s) => (inr None, s)
       end.

Declare Scope loop_scope.
Delimit Scope loop_scope with loop.
Notation "'let*' x := m 'in' k" := (bind m (λ x, k))
  (at level 200, x pattern, m at level 100, k at level 200, right associativity) : loop_scope.
Notation "m ;; k" := (bind m (λ _, k)) (at level 100, right associativity) : loop_scope.

(** ** Postconditions *)
Section Post.
Context {S E : Type}.
Notation M := (comp S E).

(** [Q] holds of the result and the state where the computation goes on, [X] where it leaves. *)
Definition post {A} (m : M A) (Q : A → S → Prop) (X : E → S → Prop) (s : S) : Prop :=
  match m s with (inl a, s') => Q a s' | (inr e, s') => X e s' end.

Lemma post_bind {A B} (m : M A) (f : A → M B) Q X s :
  post m (λ a s', post (f a) Q X s') X s → post (bind m f) Q X s.
Proof. unfold post, bind. by destruct (m s) as [[a|e] s']. Qed.

Lemma post_weaken {A} (m : M A) (Q Q' : A → S → Prop) (X X' : E → S → Prop) s :
  post m Q X s → (∀ a s', Q a s' → Q' a s') → (∀ e s', X e s' → X' e s') → post m Q' X' s.
Proof. unfold post. destruct (m s) as [[a|e] s']; auto. Qed.

Lemma post_if {A} (b : bool) (m n : M A) Q X s :
  (b = true → post m Q X s) → (b = false → post n Q X s) → post (if b then m else n) Q X s.
Proof. destruct b; auto. Qed.

Lemma post_and {A} (m : M A) (Q Q' : A → S → Prop) (X X' : E → S → Prop) s :
  post m Q X s → post m Q' X' s → post m (λ a s', Q a s' ∧ Q' a s') (λ e s', X e s' ∧ X' e s') s.
Proof. unfold post. destruct (m s) as [[a|e] s']; auto. Qed.

(** A computation that leaves a view of the state as it is. *)
Definition keeps {A V} (f : S → V) (m : M A) : Prop := ∀ s, f (m s).2 = f s.

Lemma keeps_bind {A B V} (f : S → V) (m : M A) (g : A → M B) :
  keeps f m → (∀ a, keeps f (g a)) → keeps f (bind m g).
Proof.
  intros Hm Hg s. unfold bind. specialize (Hm s). destruct (m s) as [[a|e] s']; cbn [snd] in *; [|done].
  by rewrite (Hg a s').
Qed.

Lemma keeps_ret {A V} (f : S → V) (a : A) : keeps f (ret a).
Proof. done. Qed.
Lemma keeps_leave {A V} (f : S → V) (e : E) : keeps f (leave (A := A) e).
Proof. done. Qed.
Lemma keeps_gets {A V} (f : S → V) (g : S → A) : keeps f (gets g).
Proof. done. Qed.
Lemma keeps_modify {V} (f : S → V) g : (∀ s, f (g s) = f s) → keeps f (modify g).
Proof. done. Qed.
Lemma keeps_state {A V} (f : S → V) (g : S → A * S) : (∀ s, f (g s).2 = f s) → keeps f (state g).
Proof. intros H s. unfold state. specialize (H s). by destruct (g s). Qed.

Lemma post_keeps {A V} (f : S → V) (m : M A) (P : V → Prop) s :
  keeps f m → P (f s) → post m (λ _ s', P (f s')) (λ _ s', P (f s')) s.
Proof. unfold post. intros Hm HP. specialize (Hm s). destruct (m s) as [[a|e] s']; cbn [snd] in Hm; by rewrite Hm. Qed.

(** A computation that moves the state along a preorder. *)
Definition moves {A} (R : S → S → Prop) (m : M A) : Prop := ∀ s, R s (m s).2.

Lemma moves_bind {A B} R `{!PreOrder R} (m : M A) (g : A → M B) :
  moves R m → (∀ a, moves R (g a)) → moves R (bind m g).
Proof.
  intros Hm Hg s. unfold bind. specialize (Hm s). destruct (m s) as [[a|e] s']; cbn [snd] in *; [|done].
  etransitivity; [exact Hm|apply Hg].
Qed.

Lemma moves_pure {A} R `{!PreOrder R} (v : A + E) : moves R (λ s, (v, s)).
Proof. intros s. reflexivity. Qed.

Lemma moves_keeps {A V} (f : S → V) (R : S → S → Prop) (m : M A) :
  (∀ s s', f s' = f s → R s s') → keeps f m → moves R m.
Proof. intros HR Hm s. apply HR, Hm. Qed.

(** A computation that goes on in any case. *)
Definition stays {A} (m : M A) : Prop := ∀ s e, (m s).1 ≠ inr e.

Lemma stays_bind {A B} (m : M A) (g : A → M B) : stays m → (∀ a, stays (g a)) → stays (bind m g).
Proof.
  intros Hm Hg s e. unfold bind. specialize (Hm s). destruct (m s) as [[a|e'] s']; [apply Hg|by destruct (Hm e')].
Qed.

(** What follows a computation that goes on. *)
Lemma stays_goes_on {A B} (m : M A) (g : A → M B) s : stays m → ∃ a s', m s = (inl a, s') ∧ bind m g s = g a s'.
Proof.
  intros Hm. unfold bind. specialize (Hm s). destruct (m s) as [[a|e] s']; [by exists a, s'|by destruct (Hm e)].
Qed.

Lemma moves_modify (P : S → S → Prop) f : (∀ s, P s (f s)) → moves P (modify f).
Proof. done. Qed.
Lemma moves_state {A} (P : S → S → Prop) (f : S → A * S) : (∀ s, P s (f s).2) → moves P (state f).
Proof. intros H s. unfold state. specialize (H s). by destruct (f s). Qed.

Lemma stays_ret {A} (a : A) : stays (ret a).
Proof. done. Qed.
Lemma stays_gets {A} (f : S → A) : stays (gets f).
Proof. done. Qed.
Lemma stays_modify (f : S → S) : stays (modify f).
Proof. done. Qed.
Lemma stays_state {A} (f : S → A * S) : stays (state f).
Proof. intros s e. unfold state. by destruct (f s). Qed.

(** A step that goes on keeps what its preorder respects. *)
Lemma post_moves {A} (P : S → S → Prop) (I : S → Prop) (m : M A) (Q : A → S → Prop) (X : E → S → Prop) s :
  (∀ s s', I s → P s s' → I s') → stays m → moves P m → I s → (∀ a s', P s s' → I s' → Q a s') → post m Q X s.
Proof.
  intros HI Hs Hm Hi HQ. unfold post. specialize (Hs s). specialize (Hm s).
  destruct (m s) as [[a|e] s']; cbn [fst snd] in *; [|by destruct (Hs e)]. eauto.
Qed.

(** Where an invariant holds of the exits too, going on does not matter. *)
Lemma post_moving {A} (P : S → S → Prop) (I : S → Prop) (m : M A) s :
  (∀ s s', I s → P s s' → I s') → moves P m → I s → post m (λ _, I) (λ _, I) s.
Proof. intros HI Hm Hi. unfold post. specialize (Hm s). destruct (m s) as [[a|e] s']; cbn [snd] in Hm; eauto. Qed.
End Post.

(** What a body returns is the result, wherever it was returned. *)
Definition returns {S A} (Q : A → S → Prop) (P : S → Prop) (e : option A) (s : S) : Prop :=
  match e with Some a => Q a s | None => P s end.

Lemma post_call {S R A} (m : comp S (option A) A) (Q : A → S → Prop) (X : option R → S → Prop) s :
  post m Q (returns Q (X None)) s → post (call m) Q X s.
Proof. unfold post, call. by destruct (m s) as [[a|[a|]] s']. Qed.

Lemma keeps_call {S R A V} (f : S → V) (m : comp S (option A) A) : keeps f m → keeps f (call (R := R) m).
Proof. intros H s. unfold call. specialize (H s). by destruct (m s) as [[a|[a|]] s']. Qed.

Lemma moves_call {S R A} P (m : comp S (option A) A) : moves P m → moves P (call (R := R) m).
Proof. intros H s. unfold call. specialize (H s). by destruct (m s) as [[a|[a|]] s']. Qed.

(** A body that returns nowhere goes on. *)
Lemma stays_call {S R A} (m : comp S (option A) A) : stays m → stays (call (R := R) m).
Proof. intros H s e. unfold call. specialize (H s). destruct (m s) as [[a|[a|]] s']; cbn [fst] in *; [done|done|by destruct (H None)]. Qed.

Create HintDb stays.
#[export] Hint Resolve stays_ret stays_gets stays_modify stays_state : stays.
Ltac stay :=
  repeat first
    [ progress intros
    | match goal with |- stays (bind _ _) => apply stays_bind end
    | match goal with |- stays (call _) => apply stays_call end
    | solve [eauto with stays]
    | match goal with
      | |- stays (if ?b then _ else _) => destruct b
      | |- stays (match ?x with _ => _ end) => destruct x
      end ].

Create HintDb keeps.
Create HintDb moves.
#[export] Hint Resolve keeps_ret keeps_leave keeps_gets : keeps.

(** Takes a computation apart; what is left are the operations the view depends on. *)
Ltac keep :=
  repeat first
    [ progress intros
    | match goal with |- keeps _ (bind _ _) => apply keeps_bind end
    | match goal with |- keeps _ (call _) => apply keeps_call end
    | solve [eauto with keeps]
    | solve [apply keeps_modify; intros; repeat case_match; reflexivity]
    | match goal with
      | |- keeps _ (if ?b then _ else _) => destruct b
      | |- keeps _ (match ?x with _ => _ end) => destruct x
      end ].

(** The same for a preorder. *)
Ltac carry :=
  repeat first
    [ progress intros
    | match goal with |- moves _ (bind _ _) => apply moves_bind; [typeclasses eauto| |] end
    | match goal with |- moves _ (call _) => apply moves_call end
    | solve [eauto with moves]
    | match goal with
      | |- moves _ (ret _) => apply moves_pure; typeclasses eauto
      | |- moves _ (leave _) => apply moves_pure; typeclasses eauto
      | |- moves _ (gets _) => intros ?; unfold gets; reflexivity
      | |- moves _ (if ?b then _ else _) => destruct b
      | |- moves _ (match ?x with _ => _ end) => destruct x
      end ].
