(* ===== verification/ProbeProtocol.v ===== *)
(** * ProbeProtocol: what a circuit breaker promises about its recovery probes

    Both health books of the gateway ([health.rs], [provider_runtime.rs]) hand out
    attempt tokens carrying a generation and, for a half-open probe, a probe id.
    This file states that contract once, as an abstract transition system over a
    view of the breaker (generation, last probe id, probe owner) and the tokens
    still held by requests, proves its safety, and gives the interface [Probed]
    through which each book's own state is seen. *)
From S2P Require Import Prelude.

(** ** Tokens and views *)
Record token := Token { tok_generation : Z; tok_probe_id : option Z }.

Record view := View { v_generation : Z; v_next_probe_id : Z; v_probe_owner : option Z }.

#[export] Instance token_eq_dec : EqDecision token.
Proof. solve_decision. Defined.

(** [x.wrapping_add(1).max(1)] on a [u64]. *)
Definition wrapping_next (n : Z) : Z := Z.max 1 (u64_wrap (n + 1)).

Definition view_matches (v : view) (t : token) : bool :=
  (v_generation v =? tok_generation t)
  && is_none_or (tok_probe_id t) (λ p, opt_eqb (v_probe_owner v) (Some p)).

(** The token is the probe the breaker is waiting for. *)
Definition owns_probe (v : view) (t : token) : bool :=
  view_matches v t && is_some (tok_probe_id t).

Definition v_release (v : view) : view :=
  View (v_generation v) (v_next_probe_id v) None.
Definition v_advance (v : view) : view :=
  View (wrapping_next (v_generation v)) (v_next_probe_id v) None.
Definition v_issue (v : view) : view :=
  let p := wrapping_next (v_next_probe_id v) in
  View (v_generation v) p (Some p).

Definition view0 : view := View 1 0 None.

(** ** The abstract transition system *)
Inductive pstep : view * list token → view * list token → Prop :=
  | pstep_stay v T : pstep (v, T) (v, T)
  | pstep_plain v T : pstep (v, T) (v, Token (v_generation v) None :: T)
  | pstep_probe v T :
      v_probe_owner v = None →
      pstep (v, T) (v_issue v, Token (v_generation v) (Some (wrapping_next (v_next_probe_id v))) :: T)
  | pstep_finish_keep v T1 t T2 :
      owns_probe v t = false → pstep (v, T1 ++ t :: T2) (v, T1 ++ T2)
  | pstep_finish_release v T1 t T2 : pstep (v, T1 ++ t :: T2) (v_release v, T1 ++ T2)
  | pstep_finish_advance v T1 t T2 : pstep (v, T1 ++ t :: T2) (v_advance v, T1 ++ T2)
  | pstep_advance v T : pstep (v, T) (v_advance v, T).

(** What finishing a token does to the view of its breaker. *)
Definition finish_effect (v v' : view) (t : token) : Prop :=
  (v' = v ∧ owns_probe v t = false) ∨ v' = v_release v ∨ v' = v_advance v.

Lemma finish_effect_pstep v v' T1 t T2 :
  finish_effect v v' t → pstep (v, T1 ++ t :: T2) (v', T1 ++ T2).
Proof. intros [[-> ?]|[-> | ->]]; by constructor. Qed.

(** Executions of at most [n] steps from the fresh breaker. *)
Inductive preach : Z → view * list token → Prop :=
  | preach_0 : preach 0 (view0, [])
  | preach_S n s s' : preach n s → pstep s s' → preach (n + 1) s'.

(** ** The invariant, for executions short enough that no counter wraps *)
Record pinv (n : Z) (s : view * list token) : Prop := {
  pinv_generation : 1 <= v_generation s.1 <= n + 1;
  pinv_next : 0 <= v_next_probe_id s.1 <= n;
  pinv_token : ∀ t p, t ∈ s.2 → tok_probe_id t = Some p → p <= v_next_probe_id s.1;
  pinv_distinct : NoDup (omap tok_probe_id s.2);
  pinv_owner : ∀ p, v_probe_owner s.1 = Some p →
    Token (v_generation s.1) (Some p) ∈ s.2
}.

Lemma wrapping_next_small n : 0 <= n < u64_max → wrapping_next n = n + 1.
Proof. unfold wrapping_next. intros ?. rewrite u64_wrap_id; mlia. Qed.

Lemma omap_probe_not_fresh (T : list token) q n :
  (∀ t p, t ∈ T → tok_probe_id t = Some p → p <= n) → n < q → q ∉ omap tok_probe_id T.
Proof.
  intros Ht Hq (t & Hin & Hp)%list_elem_of_omap. specialize (Ht t q Hin Hp). lia.
Qed.

(** Removing a token that does not own the probe keeps the owner's token. *)
Lemma owner_survives v T1 t T2 p :
  owns_probe v t = false → v_probe_owner v = Some p →
  Token (v_generation v) (Some p) ∈ T1 ++ t :: T2 →
  Token (v_generation v) (Some p) ∈ T1 ++ T2.
Proof.
  intros Hown Hp [Hin|[<-|Hin]%elem_of_cons]%elem_of_app; [set_solver| |set_solver].
  exfalso. revert Hown. unfold owns_probe, view_matches. simpl.
  rewrite Hp Z.eqb_refl /= Z.eqb_refl. done.
Qed.

Lemma pinv_drop n v v' T1 t T2 :
  pinv n (v, T1 ++ t :: T2) →
  1 <= v_generation v' <= n + 1 → v_next_probe_id v' = v_next_probe_id v →
  (∀ p, v_probe_owner v' = Some p → Token (v_generation v') (Some p) ∈ T1 ++ T2) →
  pinv n (v', T1 ++ T2).
Proof.
  intros [Hg Hn Ht Hd Ho] Hg' Hn' Ho'; simpl in *.
  split; simpl; rewrite ?Hn'; auto.
  - intros t' p Hin. apply Ht. set_solver.
  - rewrite !omap_app in Hd |- *. simpl in Hd.
    destruct (tok_probe_id t); [|done]. rewrite -Permutation_middle in Hd.
    by inversion Hd.
Qed.

Lemma pinv_mono n m s : pinv n s → n <= m → pinv m s.
Proof. intros [] ?. split; auto; lia. Qed.

Lemma pstep_pinv n s s' : n + 1 < u64_max → pinv n s → pstep s s' → pinv (n + 1) s'.
Proof.
  intros Hn Hinv Hstep. destruct Hstep; pose proof Hinv as [Hg Hx Ht Hd Ho]; simpl in *.
  - eapply pinv_mono; [done|lia].
  - split; simpl; try lia; [|done|set_solver].
    intros t p [->|Hin]%elem_of_cons; [done|]. eauto.
  - rewrite /v_issue wrapping_next_small; [|lia]. split; simpl; try lia.
    + intros t p [->|Hin]%elem_of_cons; simpl; [intros [= <-]; lia|].
      intros Hp. specialize (Ht t p Hin Hp). lia.
    + constructor; [|done]. eapply omap_probe_not_fresh; [exact Ht|lia].
    + intros p [= <-]. set_solver.
  - eapply pinv_mono; [eapply pinv_drop; try exact Hinv; eauto|lia].
    intros p Hp. eapply owner_survives; eauto.
  - eapply pinv_mono; [eapply pinv_drop; try exact Hinv; simpl; eauto; try done|lia].
  - eapply pinv_drop; simpl; [eapply pinv_mono; [exact Hinv|lia]|..]; auto; [|done].
    rewrite wrapping_next_small; lia.
  - split; simpl; try done; try lia. rewrite wrapping_next_small; lia.
Qed.

Lemma preach_pinv n s : preach n s → n < u64_max → 0 <= n ∧ pinv n s.
Proof.
  induction 1 as [|n s s' Hr IH Hs]; intros Hn.
  - split; [lia|]. split; simpl; try lia; [set_solver|constructor|done].
  - destruct IH as [? Hinv]; [lia|]. split; [lia|]. eapply pstep_pinv; eauto.
Qed.

(** ** Consequences *)

Lemma owns_probe_inv v t :
  owns_probe v t = true → ∃ p, tok_probe_id t = Some p ∧ v_probe_owner v = Some p
    ∧ tok_generation t = v_generation v.
Proof.
  unfold owns_probe, view_matches. destruct (tok_probe_id t) as [p|]; simpl.
  - rewrite andb_true_r andb_true_iff Z.eqb_eq. intros [? Ho]. exists p.
    destruct (opt_eqb_spec (v_probe_owner v) (Some p)); [auto|done].
  - by rewrite andb_false_r.
Qed.

(** At most one of the outstanding tokens owns the probe. *)
Lemma pinv_single n v T1 t1 T2 t2 T3 :
  pinv n (v, T1 ++ t1 :: T2 ++ t2 :: T3) →
  owns_probe v t1 = true → owns_probe v t2 = true → False.
Proof.
  intros [_ _ _ Hd _] (p & Hp1 & Ho & _)%owns_probe_inv (p' & Hp2 & Ho' & _)%owns_probe_inv.
  cbn [fst snd] in Hd. assert (p' = p) as -> by congruence.
  rewrite omap_app (omap_cons_Some _ _ _ _ Hp1) omap_app (omap_cons_Some _ _ _ _ Hp2) in Hd.
  apply NoDup_app in Hd as (_ & _ & Hd). inversion Hd as [|?? Hni]; subst. set_solver.
Qed.

(** An owner always has its token outstanding. *)
Lemma pinv_owner_held n v T p :
  pinv n (v, T) → v_probe_owner v = Some p → ∃ t, t ∈ T ∧ owns_probe v t = true.
Proof.
  intros [_ _ _ _ Ho] Hp. exists (Token (v_generation v) (Some p)). split; [by apply Ho|].
  unfold owns_probe, view_matches. simpl. by rewrite Hp Z.eqb_refl /= Z.eqb_refl.
Qed.

(** ** The interface a book implements *)
Class Probed (S : Type) := probe_view : S → view.

Section Interface.
Context {S : Type} `{Probed S}.

(** [attempt_token_matches] of both books. *)
Definition token_matches (s : S) (t : token) : bool := view_matches (probe_view s) t.
End Interface.
