(* ===== verification/Float64.v ===== *)
(** * Float64: the [f64] arithmetic the gateway uses

    Latency averages and relative rate-limit durations are computed in [f64]. The
    type is the Standard Library's [spec_float], the executable specification of
    IEEE 754 binary64 (precision 53, maximal exponent 1024), so no rounding is
    idealised away; [parse_f64] is [str::parse::<f64>]. *)
From Stdlib Require Import SpecFloat.
From Stdlib Require Import Ascii String.
From S2P Require Import Prelude.

Abbreviation f64 := spec_float.

Definition f64_prec : Z := 53.
Definition f64_emax : Z := 1024.

Definition f64_add (a b : f64) : f64 := SFadd f64_prec f64_emax a b.
Definition f64_sub (a b : f64) : f64 := SFsub f64_prec f64_emax a b.
Definition f64_mul (a b : f64) : f64 := SFmul f64_prec f64_emax a b.

(** [m * 2^e], correctly rounded. *)
Definition f64_scaled (m e : Z) : f64 := binary_normalize f64_prec f64_emax m e false.

(** [z as f64]. *)
Definition f64_of_Z (z : Z) : f64 := f64_scaled z 0.

Definition f64_zero : f64 := S754_zero false.
Definition f64_one : f64 := f64_of_Z 1.

Definition f64_is_finite (x : f64) : bool :=
  match x with S754_zero _ | S754_finite _ _ _ => true | _ => false end.

(** [x < 0.0]. *)
Definition f64_negative (x : f64) : bool := SFltb x f64_zero.

(** [x.round()]: nearest integer, ties away from zero; [None] for a NaN or an
    infinity, which [round] leaves alone. *)
Definition f64_round_Z (x : f64) : option Z :=
  match x with
  | S754_zero _ => Some 0
  | S754_finite s m e =>
      let a := if 0 <=? e then Z.pos m * 2 ^ e
               else (2 * Z.pos m + 2 ^ (- e)) / (2 * 2 ^ (- e)) in
      Some (if s then - a else a)
  | _ => None
  end.

(** [x.round() as i64]: the cast saturates and sends a NaN to 0. *)
Definition f64_round_i64 (x : f64) : Z :=
  match x with
  | S754_nan => 0
  | S754_infinity s => if s then i64_min else i64_max
  | _ => sat_i64 (unwrap_or (f64_round_Z x) 0)
  end.

(** ** Decimal parsing *)
Definition digit_value (c : ascii) : option Z :=
  let n := Z.of_nat (nat_of_ascii c) in
  if (48 <=? n) && (n <=? 57) then Some (n - 48) else None.

(** Digits of a run: their value, their number and the rest. *)
Fixpoint parse_digits (l : list ascii) (acc : Z) (count : Z) : Z * Z * list ascii :=
  match l with
  | [] => (acc, count, [])
  | c :: l' =>
      match digit_value c with
      | Some d => parse_digits l' (acc * 10 + d) (count + 1)
      | None => (acc, count, l)
      end
  end.

Definition is_char (n : nat) (c : ascii) : bool := Nat.eqb (nat_of_ascii c) n.

(** An optional sign. *)
Definition parse_sign (l : list ascii) : bool * list ascii :=
  match l with
  | c :: l' => if is_char 43 c then (false, l') else if is_char 45 c then (true, l') else (false, l)
  | [] => (false, [])
  end.

(** [m * 10^e] correctly rounded: for a negative exponent the quotient keeps more
    than 64 significant bits and a sticky bit. *)
Definition f64_of_decimal (m e : Z) : f64 :=
  if m =? 0 then f64_zero
  else if 0 <=? e then f64_of_Z (m * 10 ^ e)
  else
    let d := 10 ^ (- e) in
    let k := Z.max 0 (Z.log2 d - Z.log2 m + 66) in
    let q := (m * 2 ^ k) / d in
    let r := (m * 2 ^ k) mod d in
    f64_scaled (2 * q + (if r =? 0 then 0 else 1)) (- k - 1).

Definition f64_neg_if (s : bool) (x : f64) : f64 := if s then SFopp x else x.

Definition ascii_lower (c : ascii) : ascii :=
  let n := nat_of_ascii c in
  if (Nat.leb 65 n && Nat.leb n 90)%nat then ascii_of_nat (n + 32) else c.

(** [str::parse::<f64>]: an optional sign, then [inf], [infinity], [nan] in any
    case, or digits with an optional point and exponent, at least one digit. *)
Definition parse_f64 (s : string) : option f64 :=
  let '(neg, l) := parse_sign (list_ascii_of_string s) in
  let lower := string_of_list_ascii (map ascii_lower l) in
  if String.eqb lower "inf" || String.eqb lower "infinity" then
    Some (f64_neg_if neg (S754_infinity false))
  else if String.eqb lower "nan" then Some S754_nan
  else
    let '(m1, n1, rest) := parse_digits l 0 0 in
    let '(m, n2, rest) :=
      match rest with
      | c :: rest' => if is_char 46 c then parse_digits rest' m1 0 else (m1, 0, rest)
      | [] => (m1, 0, [])
      end in
    if n1 + n2 =? 0 then None
    else
      match rest with
      | [] => Some (f64_neg_if neg (f64_of_decimal m (- n2)))
      | c :: rest' =>
          if is_char 101 (ascii_lower c) then
            let '(eneg, el) := parse_sign rest' in
            let '(ev, en, tail) := parse_digits el 0 0 in
            if (en =? 0) || negb (is_empty tail) then None
            else Some (f64_neg_if neg (f64_of_decimal m ((if eneg then - ev else ev) - n2)))
          else None
      end.

(** The literal [0.2], and its complement to one as the code computes it. *)
Definition f64_0_2 : f64 := f64_of_decimal 2 (-1).

Example f64_0_2_value : f64_0_2 = S754_finite false 7205759403792794 (-55).
Proof. vm_compute. reflexivity. Qed.

Example parse_f64_examples :
  option_map f64_round_i64 (parse_f64 "60") = Some 60
  ∧ option_map f64_round_i64 (parse_f64 "1.5e3") = Some 1500
  ∧ option_map f64_round_i64 (parse_f64 "-2.5") = Some (-3)
  ∧ parse_f64 "" = None ∧ parse_f64 "." = None ∧ parse_f64 "1e" = None.
Proof. by vm_compute. Qed.

(** ** The exponentially weighted moving average of both health books

    [current * (1.0 - alpha) + latency as f64 * alpha], or the first latency. *)
Definition ewma (alpha : f64) (current : option f64) (latency_ms : Z) : f64 :=
  match current with
  | Some c => f64_add (f64_mul c (f64_sub f64_one alpha)) (f64_mul (f64_of_Z latency_ms) alpha)
  | None => f64_of_Z latency_ms
  end.
