(* ===== verification/Text.v ===== *)
(** * Text: the [str] operations of the Standard Library the gateway uses

    A Rust string is its UTF-8 bytes, a [string] of 8-bit characters. *)
From Stdlib Require Import Ascii String.
From S2P Require Import Prelude Float64.

Definition chars (s : string) : list ascii := list_ascii_of_string s.
Definition of_chars (l : list ascii) : string := string_of_list_ascii l.

Lemma of_chars_chars s : of_chars (chars s) = s.
Proof. apply string_of_list_ascii_of_string. Qed.
Lemma chars_of_chars l : chars (of_chars l) = l.
Proof. apply list_ascii_of_string_of_list_ascii. Qed.

Definition code (c : ascii) : Z := Z.of_nat (nat_of_ascii c).

(** Length in bytes, [str::len]. *)
Definition str_len (s : string) : Z := Z.of_nat (String.length s).

(** ** Trimming

    [char::is_whitespace] over UTF-8: the ASCII blanks and the encodings of the
    other characters with the Unicode property White_Space. *)
Definition ascii_space (n : Z) : bool := ((9 <=? n) && (n <=? 13)) || (n =? 32).

Definition wide_spaces : list (list Z) :=
  [[194; 133]; [194; 160]; [225; 154; 128]; [226; 128; 168]; [226; 128; 169];
   [226; 128; 175]; [226; 129; 159]; [227; 128; 128]]
  ++ map (λ i, [226; 128; 128 + Z.of_nat i]) (seq 0 11).

Fixpoint strip_codes (p : list Z) (l : list ascii) : option (list ascii) :=
  match p, l with
  | [], _ => Some l
  | n :: p', c :: l' => if code c =? n then strip_codes p' l' else None
  | _ :: _, [] => None
  end.

(** The rest after one white space character of the given encodings. *)
Definition strip_space (wide : list (list Z)) (l : list ascii) : option (list ascii) :=
  match l with
  | c :: l' =>
      if ascii_space (code c) then Some l'
      else foldr (λ p acc, match strip_codes p l with Some r => Some r | None => acc end) None wide
  | [] => None
  end.

Fixpoint trim_front (fuel : nat) (wide : list (list Z)) (l : list ascii) : list ascii :=
  match fuel with
  | O => l
  | S fuel' =>
      match strip_space wide l with
      | Some l' => trim_front fuel' wide l'
      | None => l
      end
  end.

(** Every round of [trim_front] consumes a byte, so the length is enough fuel. *)
Definition trim_chars (l : list ascii) : list ascii :=
  let l1 := trim_front (length l) wide_spaces l in
  reverse (trim_front (length l1) (map reverse wide_spaces) (reverse l1)).

Definition trim (s : string) : string := of_chars (trim_chars (chars s)).

Definition to_ascii_lowercase (s : string) : string := of_chars (map ascii_lower (chars s)).

Fixpoint strip_prefix_chars (p l : list ascii) : option (list ascii) :=
  match p, l with
  | [], _ => Some l
  | a :: p', c :: l' => if Ascii.eqb a c then strip_prefix_chars p' l' else None
  | _ :: _, [] => None
  end.

Definition strip_prefix (p s : string) : option string :=
  option_map of_chars (strip_prefix_chars (chars p) (chars s)).
Definition strip_suffix (p s : string) : option string :=
  option_map (λ l, of_chars (reverse l)) (strip_prefix_chars (reverse (chars p)) (reverse (chars s))).
Definition starts_with (p s : string) : bool := is_some (strip_prefix p s).
Definition ends_with (p s : string) : bool := is_some (strip_suffix p s).

(** ** Integers: [str::parse::<u64>] and [str::parse::<i64>] *)
Definition parse_nat_digits (l : list ascii) : option Z :=
  let '(v, n, rest) := parse_digits l 0 0 in
  if (0 <? n) && is_empty rest then Some v else None.

Definition parse_u64 (s : string) : option Z :=
  let l := match chars s with
           | c :: l' => if is_char 43 c then l' else c :: l'
           | [] => []
           end in
  opt_filter (λ v, v <=? u64_max) (parse_nat_digits l).

Definition parse_i64 (s : string) : option Z :=
  let '(neg, l) := parse_sign (chars s) in
  match parse_nat_digits l with
  | Some v => i64_checked (if neg then - v else v)
  | None => None
  end.

Example trim_examples :
  trim " a b
" = "a b"%string ∧ trim "   " = ""%string ∧ trim "x"%string = "x"%string.
Proof. by vm_compute. Qed.

Example parse_int_examples :
  parse_u64 "3600" = Some 3600 ∧ parse_u64 "-1" = None ∧ parse_u64 "18446744073709551616" = None
  ∧ parse_i64 "-9223372036854775808" = Some i64_min ∧ parse_i64 "+" = None ∧ parse_i64 "1s" = None.
Proof. by vm_compute. Qed.

Lemma parse_digits_nonneg l acc n :
  0 <= acc → 0 <= n → 0 <= (parse_digits l acc n).1.1 ∧ n <= (parse_digits l acc n).1.2.
Proof.
  revert acc n. induction l as [|c l IH]; intros acc n Ha Hn; simpl; [done|].
  unfold digit_value. set (d := Z.of_nat (nat_of_ascii c)).
  destruct ((48 <=? d) && (d <=? 57)) eqn:E; simpl; [|done].
  apply andb_true_iff in E as [?%Z.leb_le ?%Z.leb_le].
  destruct (IH (acc * 10 + (d - 48)) (n + 1)); lia.
Qed.

Lemma parse_digits_nonneg_eq l acc n v n' rest :
  parse_digits l acc n = (v, n', rest) → 0 <= acc → 0 <= n → 0 <= v.
Proof.
  intros E Ha Hn. pose proof (parse_digits_nonneg l acc n Ha Hn) as [H _]. by rewrite E in H.
Qed.

Lemma parse_u64_range s v : parse_u64 s = Some v → is_u64 v.
Proof.
  unfold parse_u64, parse_nat_digits. intros H.
  destruct (parse_digits _ 0 0) as [[v' n] rest] eqn:E.
  assert (0 <= v') by (by eapply (parse_digits_nonneg_eq _ 0 0)).
  destruct ((0 <? n) && is_empty rest); simpl in H; [|done].
  destruct (Z.leb_spec v' u64_max); simplify_eq. mlia.
Qed.

Lemma parse_i64_range s v : parse_i64 s = Some v → is_i64 v.
Proof.
  unfold parse_i64. destruct (parse_sign _) as [neg l]. destruct (parse_nat_digits l); [|done].
  unfold i64_checked. destruct (_ && _) eqn:E; [|done].
  apply andb_true_iff in E as [?%Z.leb_le ?%Z.leb_le]. intros [= <-]. done.
Qed.

(** ** Printing integers: [ToString] *)
Definition digit_char (d : Z) : ascii := ascii_of_nat (Z.to_nat (48 + d)).

(** One division by ten per digit; a number has at most as many digits as bits. *)
Fixpoint show_digits (fuel : nat) (n : Z) (acc : list ascii) : list ascii :=
  let acc := digit_char (n mod 10) :: acc in
  match fuel with
  | O => acc
  | S fuel' => if n <? 10 then acc else show_digits fuel' (n / 10) acc
  end.

Definition show_nat (n : Z) : list ascii := show_digits (Z.to_nat (Z.log2 n)) n [].

Definition show_Z (z : Z) : string :=
  of_chars (if z <? 0 then ascii_of_nat 45 :: show_nat (- z) else show_nat z).

Example show_Z_examples : show_Z 272000 = "272000"%string ∧ show_Z 0 = "0"%string ∧ show_Z (-7) = "-7"%string.
Proof. by vm_compute. Qed.

Lemma digit_value_char d : 0 <= d < 10 → digit_value (digit_char d) = Some d.
Proof.
  intros Hd. unfold digit_value, digit_char. rewrite nat_ascii_embedding; [|lia]. rewrite Z2Nat.id; [|lia].
  cbv zeta. rewrite (proj2 (Z.leb_le 48 _)) ?(proj2 (Z.leb_le _ 57)); [|lia..]. simpl. f_equal. lia.
Qed.

Lemma parse_digits_count l acc n :
  (parse_digits l acc n).1.2 = (parse_digits l acc 0).1.2 + n
  ∧ (parse_digits l acc n).1.1 = (parse_digits l acc 0).1.1 ∧ (parse_digits l acc n).2 = (parse_digits l acc 0).2.
Proof.
  revert acc n. induction l as [|c l IH]; intros acc n; simpl; [done|].
  destruct (digit_value c) as [d|]; simpl; [|done].
  destruct (IH (acc * 10 + d) (n + 1)) as (H1 & H2 & H3). destruct (IH (acc * 10 + d) 1) as (H1' & H2' & H3').
  rewrite H1 H2 H3 H1' H2' H3'. split_and!; [lia|done|done].
Qed.

(** Reading the digits printed before [tail] continues with the number. *)
Lemma parse_show_digits fuel n tail :
  0 <= n → Z.log2 n <= Z.of_nat fuel →
  ∃ k, 0 < k ∧ ∀ c, parse_digits (show_digits fuel n tail) 0 c = parse_digits tail n (c + k).
Proof.
  revert n tail. induction fuel as [|fuel IH]; intros n tail Hn Hlog; simpl.
  - assert (n < 2) as Hn2.
    { destruct (Z.lt_ge_cases n 2); [done|]. pose proof (Z.log2_le_mono 2 n ltac:(lia)) as Hl.
      change (Z.log2 2) with 1 in Hl. lia. }
    exists 1. split; [lia|]. intros c. rewrite Z.mod_small; [|lia]. rewrite digit_value_char; [|lia]. by f_equal.
  - destruct (Z.ltb_spec n 10).
    + exists 1. split; [lia|]. intros c. simpl. rewrite Z.mod_small; [|lia]. rewrite digit_value_char; [|lia]. by f_equal.
    + assert (Z.log2 (n / 10) <= Z.of_nat fuel) as Hlog'.
      { assert (0 < n / 10) by (apply Z.div_str_pos; lia).
        pose proof (Z.log2_double (n / 10) ltac:(lia)) as Hd.
        pose proof (Z.log2_le_mono (2 * (n / 10)) n ltac:(Z.div_mod_to_equations; lia)). lia. }
      destruct (IH (n / 10) (digit_char (n mod 10) :: tail)) as (k & Hk & Hp);
        [apply Z.div_pos; lia|done|].
      exists (k + 1). split; [lia|]. intros c. rewrite Hp. simpl.
      rewrite digit_value_char; [|apply Z.mod_pos_bound; lia]. f_equal; [|lia].
      pose proof (Z.div_mod n 10 ltac:(lia)). lia.
Qed.

Lemma parse_nat_show n : 0 <= n → parse_nat_digits (show_nat n) = Some n.
Proof.
  intros Hn. unfold parse_nat_digits, show_nat.
  destruct (parse_show_digits (Z.to_nat (Z.log2 n)) n [] Hn) as (k & Hk & Hp).
  { rewrite Z2Nat.id; [lia|apply Z.log2_nonneg]. }
  rewrite Hp /=. by rewrite (proj2 (Z.ltb_lt 0 k)).
Qed.

Lemma show_nat_head n : 0 <= n → ∃ d l, 0 <= d < 10 ∧ show_nat n = digit_char d :: l.
Proof.
  intros Hn. unfold show_nat. generalize (Z.to_nat (Z.log2 n)) as fuel. intros fuel.
  generalize (@nil ascii) as tail. revert n Hn.
  induction fuel as [|fuel IH]; intros n Hn tail; simpl.
  - exists (n mod 10), tail. split; [apply Z.mod_pos_bound; lia|done].
  - destruct (n <? 10).
    + exists (n mod 10), tail. split; [apply Z.mod_pos_bound; lia|done].
    + apply IH, Z.div_pos; lia.
Qed.

Lemma digit_char_no_sign d : 0 <= d < 10 → is_char 43 (digit_char d) = false ∧ is_char 45 (digit_char d) = false.
Proof.
  intros Hd. unfold is_char, digit_char. rewrite nat_ascii_embedding; [|lia].
  split; apply Nat.eqb_neq; lia.
Qed.

(** What is printed is read back. *)
Definition parse_int (s : string) : option Z :=
  let '(neg, l) := parse_sign (chars s) in
  option_map (λ v, if neg then - v else v) (parse_nat_digits l).

Lemma parse_int_show z : parse_int (show_Z z) = Some z.
Proof.
  unfold parse_int, show_Z. rewrite chars_of_chars. destruct (Z.ltb_spec z 0).
  - cbn [parse_sign]. change (is_char 43 (ascii_of_nat 45)) with false. change (is_char 45 (ascii_of_nat 45)) with true.
    cbv iota. rewrite parse_nat_show; [|lia]. simpl. by rewrite Z.opp_involutive.
  - destruct (show_nat_head z ltac:(lia)) as (d & l & Hd & E). destruct (digit_char_no_sign d Hd) as [H1 H2].
    rewrite E. cbn [parse_sign]. by rewrite H1 H2 -E parse_nat_show; [|lia].
Qed.

Lemma parse_i64_int s : parse_i64 s = match parse_int s with Some v => i64_checked v | None => None end.
Proof. unfold parse_i64, parse_int. destruct (parse_sign _) as [neg l]. by destruct (parse_nat_digits l). Qed.

Lemma parse_i64_show z : is_i64 z → parse_i64 (show_Z z) = Some z.
Proof.
  intros Hz. rewrite parse_i64_int parse_int_show. unfold i64_checked.
  rewrite (proj2 (Z.leb_le i64_min z)) ?(proj2 (Z.leb_le z i64_max)) //; mlia.
Qed.

(** [str::rsplit_once] with a non-empty separator. *)
Fixpoint rsplit_once_chars (sep l : list ascii) : option (list ascii * list ascii) :=
  match l with
  | [] => None
  | c :: l' =>
      match rsplit_once_chars sep l' with
      | Some (a, b) => Some (c :: a, b)
      | None => option_map (λ rest, ([], rest)) (strip_prefix_chars sep l)
      end
  end.

Definition rsplit_once (sep s : string) : option (string * string) :=
  option_map (λ '(a, b), (of_chars a, of_chars b)) (rsplit_once_chars (chars sep) (chars s)).

(** [chars().any(char::is_control)] over UTF-8: the ASCII controls and U+0080..U+009F. *)
Fixpoint has_control (l : list ascii) : bool :=
  match l with
  | [] => false
  | c :: l' =>
      (code c <? 32) || (code c =? 127)
      || match l' with
         | d :: _ => (code c =? 194) && (128 <=? code d) && (code d <=? 159)
         | [] => false
         end
      || has_control l'
  end.

Example rsplit_once_examples :
  rsplit_once "_session_" "user_a_session_b_session_c" = Some ("user_a_session_b", "c")%string
  ∧ rsplit_once "_session_" "user" = None.
Proof. by vm_compute. Qed.

(** [hex::encode] *)
Definition hex_digit (n : Z) : ascii := ascii_of_nat (Z.to_nat (if n <? 10 then 48 + n else 87 + n)).
Definition hex_encode (bytes : list Z) : string :=
  of_chars (concat (map (λ b, [hex_digit (b / 16); hex_digit (b mod 16)]) bytes)).

(** ** [String::from_utf8_lossy] *)

(** The ranges the continuation bytes of a lead byte must lie in; [None] for a byte
    that cannot start a character. *)
Definition utf8_ranges (c : Z) : option (list (Z * Z)) :=
  let k := (128, 191) in
  if c <? 128 then Some []
  else if (194 <=? c) && (c <=? 223) then Some [k]
  else if c =? 224 then Some [(160, 191); k]
  else if c =? 237 then Some [(128, 159); k]
  else if (225 <=? c) && (c <=? 239) then Some [k; k]
  else if c =? 240 then Some [(144, 191); k; k]
  else if (241 <=? c) && (c <=? 243) then Some [k; k; k]
  else if c =? 244 then Some [(128, 143); k; k]
  else None.

(** The continuation bytes that are there, whether all are, and the rest. *)
Fixpoint take_continuation (ranges : list (Z * Z)) (l : list ascii) : list ascii * bool * list ascii :=
  match ranges, l with
  | [], _ => ([], true, l)
  | (lo, hi) :: ranges', d :: l' =>
      if (lo <=? code d) && (code d <=? hi) then
        let '(taken, ok, rest) := take_continuation ranges' l' in (d :: taken, ok, rest)
      else ([], false, l)
  | _ :: _, [] => ([], false, [])
  end.

Definition replacement : list ascii := [ascii_of_nat 239; ascii_of_nat 191; ascii_of_nat 189].

(** Every round consumes a byte: the length is enough fuel. *)
Fixpoint utf8_lossy (fuel : nat) (l : list ascii) : list ascii :=
  match fuel, l with
  | O, _ | _, [] => []
  | S fuel', c :: l' =>
      match utf8_ranges (code c) with
      | None => replacement ++ utf8_lossy fuel' l'
      | Some ranges =>
          let '(taken, ok, rest) := take_continuation ranges l' in
          (if ok then c :: taken else replacement) ++ utf8_lossy fuel' rest
      end
  end.

Definition from_utf8_lossy (l : list ascii) : string := of_chars (utf8_lossy (length l) l).

Definition is_one_of (s : string) (l : list string) : bool := existsb (String.eqb s) l.

(** [str::split] with a one-character separator: at least one piece. *)
Fixpoint split_chars (sep : ascii) (l : list ascii) : list (list ascii) :=
  match l with
  | [] => [[]]
  | c :: l' =>
      match split_chars sep l' with
      | piece :: rest => if Ascii.eqb c sep then [] :: piece :: rest else (c :: piece) :: rest
      | [] => [[c]]
      end
  end.

Definition split (sep : ascii) (s : string) : list string := map of_chars (split_chars sep (chars s)).

(** [str::split_once] with a one-character separator. *)
Fixpoint split_once_chars (sep : ascii) (l : list ascii) : option (list ascii * list ascii) :=
  match l with
  | [] => None
  | c :: l' => if Ascii.eqb c sep then Some ([], l')
               else option_map (λ '(a, b), (c :: a, b)) (split_once_chars sep l')
  end.

Definition split_once (sep : ascii) (s : string) : option (string * string) :=
  option_map (λ '(a, b), (of_chars a, of_chars b)) (split_once_chars sep (chars s)).

(** [str::replace] with a non-empty pattern; every round consumes a byte. *)
Fixpoint replace_chars (fuel : nat) (pat to l : list ascii) : list ascii :=
  match fuel, l with
  | S fuel', c :: l' =>
      match strip_prefix_chars pat l with
      | Some rest => to ++ replace_chars fuel' pat to rest
      | None => c :: replace_chars fuel' pat to l'
      end
  | _, _ => l
  end.

Definition replace (pat to s : string) : string :=
  of_chars (replace_chars (String.length s) (chars pat) (chars to) (chars s)).

Definition eq_ignore_ascii_case (a b : string) : bool :=
  String.eqb (to_ascii_lowercase a) (to_ascii_lowercase b).

(** [str::split_ascii_whitespace]: the pieces between runs of blanks. *)
Definition ascii_blank (c : ascii) : bool := existsb (Z.eqb (code c)) [32; 9; 10; 12; 13].

Fixpoint blank_pieces (l : list ascii) : list (list ascii) :=
  match l with
  | [] => []
  | c :: l' =>
      if ascii_blank c then blank_pieces l'
      else match l' with
           | d :: _ => if ascii_blank d then [c] :: blank_pieces l'
                       else match blank_pieces l' with
                            | piece :: rest => (c :: piece) :: rest
                            | [] => [[c]]
                            end
           | [] => [[c]]
           end
  end.

Definition split_ascii_whitespace (s : string) : list string := map of_chars (blank_pieces (chars s)).

(** [str::trim_end_matches] with one character. *)
Fixpoint drop_char (c : ascii) (l : list ascii) : list ascii :=
  match l with
  | x :: l' => if Ascii.eqb x c then drop_char c l' else l
  | [] => []
  end.
Definition trim_end_char (c : ascii) (s : string) : string := of_chars (reverse (drop_char c (reverse (chars s)))).

Example split_examples :
  split "."%char "a.b..c" = ["a"; "b"; ""; "c"]%string ∧ split "."%char "" = [""%string]
  ∧ split_once "/"%char "codex/1/2" = Some ("codex", "1/2")%string
  ∧ replace "ab" "x" "aababc" = "axxc"%string ∧ split_ascii_whitespace "  a  bc d " = ["a"; "bc"; "d"]%string
  ∧ trim_end_char "/"%char "a/b//" = "a/b"%string ∧ eq_ignore_ascii_case "Model" "mOdel" = true.
Proof. by vm_compute. Qed.

Lemma strip_prefix_chars_app p l : strip_prefix_chars p (p ++ l) = Some l.
Proof. induction p as [|c p IH]; cbn; [done|]. by rewrite Ascii.eqb_refl. Qed.

Lemma strip_prefix_chars_Some p l r : strip_prefix_chars p l = Some r → l = p ++ r.
Proof.
  revert l. induction p as [|a p IH]; intros [|c l]; cbn; try done; try by intros [= ->].
  destruct (Ascii.eqb_spec a c); [|done]. subst. intros H. f_equal. by apply IH.
Qed.

(** What the replacement keeps of a property of characters. *)
Lemma replace_chars_forall (P : ascii → bool) fuel pat to l :
  forallb P to = true → forallb P l = true → forallb P (replace_chars fuel pat to l) = true.
Proof.
  intros Hto. revert l. induction fuel as [|fuel IH]; intros [|c l]; cbn [replace_chars]; try done. intros Hl.
  destruct (strip_prefix_chars pat (c :: l)) as [rest|] eqn:E.
  - apply strip_prefix_chars_Some in E. rewrite E forallb_app in Hl. apply andb_true_iff in Hl as [_ Hl].
    rewrite forallb_app Hto /=. by apply IH.
  - cbn in Hl |- *. apply andb_true_iff in Hl as [-> Hl]. by apply IH.
Qed.

Lemma chars_append a b : chars (a +:+ b) = chars a ++ chars b.
Proof. unfold chars. induction a as [|c a IH]; [done|]. change (String c a +:+ b) with (String c (a +:+ b)). cbn. by rewrite IH. Qed.

(** Digits printed: what they are and how many. *)
Lemma show_digits_forall (P : ascii → bool) fuel n acc :
  (∀ d, 0 <= d < 10 → P (digit_char d) = true) → 0 <= n → forallb P acc = true → forallb P (show_digits fuel n acc) = true.
Proof.
  intros HP. revert n acc. induction fuel as [|fuel IH]; intros n acc Hn Ha; cbn.
  - rewrite HP ?Ha //. apply Z.mod_pos_bound. lia.
  - assert (forallb P (digit_char (n mod 10) :: acc) = true) as Ha' by (cbn; rewrite HP ?Ha //; apply Z.mod_pos_bound; lia).
    destruct (n <? 10); [done|]. apply IH; [apply Z.div_pos; lia|done].
Qed.

Lemma show_digits_length fuel n acc (k : nat) :
  0 <= n < 10 ^ Z.of_nat k → (1 <= k)%nat → (length (show_digits fuel n acc) <= k + length acc)%nat.
Proof.
  revert n acc k. induction fuel as [|fuel IH]; intros n acc k Hn Hk; cbn; [lia|].
  destruct (Z.ltb_spec n 10); [cbn; lia|].
  destruct k as [|[|k]]; [lia|cbn in Hn; lia|].
  specialize (IH (n / 10) (digit_char (n mod 10) :: acc) (S k)). cbn [length] in IH.
  assert (0 <= n / 10 < 10 ^ Z.of_nat (S k)) as Hd.
  { rewrite (Nat2Z.inj_succ (S k)) Z.pow_succ_r in Hn; [|lia]. split; [apply Z.div_pos; lia|apply Z.div_lt_upper_bound; lia]. }
  specialize (IH Hd). lia.
Qed.

Lemma show_Z_digits (P : ascii → bool) z :
  0 <= z → (∀ d, 0 <= d < 10 → P (digit_char d) = true) → forallb P (chars (show_Z z)) = true.
Proof.
  intros Hz HP. unfold show_Z. rewrite (proj2 (Z.ltb_ge z 0)) // chars_of_chars. by apply show_digits_forall.
Qed.

Lemma show_Z_length z (k : nat) : 0 <= z < 10 ^ Z.of_nat k → (1 <= k)%nat → (length (chars (show_Z z)) <= k)%nat.
Proof.
  intros Hz Hk. unfold show_Z. rewrite (proj2 (Z.ltb_ge z 0)); [|lia]. rewrite chars_of_chars.
  pose proof (show_digits_length (Z.to_nat (Z.log2 z)) z [] k Hz Hk) as H. unfold show_nat. cbn in H. lia.
Qed.

Lemma show_Z_inj a b : show_Z a = show_Z b → a = b.
Proof. intros H. pose proof (parse_int_show a) as Ha. rewrite H parse_int_show in Ha. congruence. Qed.

Lemma chars_inj a b : chars a = chars b → a = b.
Proof. intros H. by rewrite -(of_chars_chars a) -(of_chars_chars b) H. Qed.

Lemma length_chars s : length (chars s) = String.length s.
Proof. unfold chars. induction s as [|c s IH]; cbn; [done|]. by rewrite IH. Qed.

Lemma length_append a b : String.length (a +:+ b) = (String.length a + String.length b)%nat.
Proof. by rewrite -!length_chars chars_append length_app. Qed.

(** [str::contains] *)
Definition contains (needle s : string) : bool :=
  (fix go (l : list ascii) : bool :=
     is_some (strip_prefix_chars (chars needle) l) || match l with [] => false | _ :: l' => go l' end) (chars s).

(** ** Characters of a [str] *)

(** A byte that starts a character. *)
Definition lead_byte (c : ascii) : bool := negb ((128 <=? code c) && (code c <? 192)).

(** [str::is_char_boundary] *)
Definition is_char_boundary (i : nat) (l : list ascii) : bool :=
  (i =? 0)%nat || match l !! i with Some c => lead_byte c | None => (i =? length l)%nat end.

(** [while !is_char_boundary(i) { i -= 1 }] *)
Fixpoint floor_boundary (i : nat) (l : list ascii) : nat :=
  if is_char_boundary i l then i else match i with O => O | S i => floor_boundary i l end.

(** [str::chars().count()], and the bytes of [str::chars().take(n)]. *)
Definition char_count (s : string) : Z := len (List.filter lead_byte (chars s)).

Fixpoint take_chars (n : nat) (l : list ascii) : list ascii :=
  match l with
  | [] => []
  | c :: l => if lead_byte c then match n with O => [] | S n => c :: take_chars n l end else c :: take_chars n l
  end.

(** The bytes of [str::chars().skip(n)]. *)
Fixpoint drop_chars (n : nat) (l : list ascii) : list ascii :=
  match l with
  | [] => []
  | c :: l' => if lead_byte c then match n with O => l | S n => drop_chars n l' end else drop_chars n l'
  end.

(** [String::from_utf8]: only what needs no replacement. *)
Definition from_utf8 (s : string) : option string := opt_filter (λ s, String.eqb (from_utf8_lossy (chars s)) s) (Some s).

(** ** Splitting what was joined *)
Lemma split_chars_cons_ne sep l : ∃ piece rest, split_chars sep l = piece :: rest.
Proof. destruct l as [|c l]; cbn; [eauto|]. destruct (split_chars sep l); [eauto|]. destruct (Ascii.eqb c sep); eauto. Qed.

Lemma split_chars_app sep p l : forallb (λ d, negb (Ascii.eqb d sep)) p = true →
  split_chars sep (p ++ sep :: l) = p :: split_chars sep l.
Proof.
  induction p as [|c p IH]; intros Hp.
  - cbn. destruct (split_chars_cons_ne sep l) as (piece & rest & ->). by rewrite Ascii.eqb_refl.
  - cbn in Hp |- *. apply andb_true_iff in Hp as [Hc%negb_true_iff Hp]. by rewrite (IH Hp) Hc.
Qed.

Lemma split_chars_plain sep p : forallb (λ d, negb (Ascii.eqb d sep)) p = true → split_chars sep p = [p].
Proof.
  induction p as [|c p IH]; intros Hp; [done|]. cbn in Hp |- *. apply andb_true_iff in Hp as [Hc%negb_true_iff Hp]. by rewrite (IH Hp) Hc.
Qed.

Lemma split_once_chars_app sep p l : forallb (λ d, negb (Ascii.eqb d sep)) p = true → split_once_chars sep (p ++ sep :: l) = Some (p, l).
Proof.
  induction p as [|c p IH]; intros Hp; cbn; [by rewrite Ascii.eqb_refl|].
  cbn in Hp. apply andb_true_iff in Hp as [Hc%negb_true_iff Hp]. by rewrite Hc (IH Hp).
Qed.

(** How often an id occurs. *)
Definition times (id : string) (l : list string) : Z := len (List.filter (String.eqb id) l).

Lemma times_cons id x l : times id (x :: l) = (if String.eqb id x then 1 else 0) + times id l.
Proof. unfold times, len. cbn. destruct (String.eqb id x); cbn [length]; lia. Qed.

Lemma times_nonneg id l : 0 <= times id l.
Proof. unfold times, len. lia. Qed.
