(* ===== verification/Resilience.v ===== *)
(** * Resilience: cooldowns, the shared attempt budget and Retry-After

    Models [resilience.rs]. Instants and durations are nanoseconds in [Z]; an
    operation that reads the clock takes its readings as arguments, one per
    read, so the theorems quantify over every timing. *)
From Stdlib Require Import Ascii String.
From S2P Require Import Prelude Float64 Text.

(** ** Cooldown *)
Definition MAX_ATTEMPTS : Z := 3.
Definition COOLDOWN_BASE_MS : Z := 30000.
Definition COOLDOWN_MAX_MS : Z := 300000.

Definition cooldown_ms (configured_ms failures : Z) : Z :=
  let base := Z.max configured_ms COOLDOWN_BASE_MS in
  Z.min (i64_sat_mul base (Z.shiftl 1 (Z.min (u32_sat_sub failures 1) 10)))
        (Z.max COOLDOWN_MAX_MS base).

Lemma shiftl_1_bounds k : 0 <= k <= 10 → 1 <= Z.shiftl 1 k <= 1024.
Proof.
  intros ?. rewrite Z.shiftl_1_l.
  pose proof (Z.pow_le_mono_r 2 0 k). pose proof (Z.pow_le_mono_r 2 k 10). lia.
Qed.

Lemma shiftl_1_mono j k : 0 <= j <= k → Z.shiftl 1 j <= Z.shiftl 1 k.
Proof. intros ?. rewrite !Z.shiftl_1_l. apply Z.pow_le_mono_r; lia. Qed.

(** The cooldown lies between the larger of the configured and the base delay and
    the larger of the cap and that base. *)
Lemma cooldown_ms_bounds configured failures :
  is_i64 configured → 0 <= failures →
  Z.max configured COOLDOWN_BASE_MS <= cooldown_ms configured failures
    <= Z.max COOLDOWN_MAX_MS (Z.max configured COOLDOWN_BASE_MS).
Proof.
  intros Hc Hf. unfold cooldown_ms.
  pose proof (shiftl_1_bounds (Z.min (u32_sat_sub failures 1) 10)) as Hs.
  assert (0 <= Z.min (u32_sat_sub failures 1) 10 <= 10) as Hk by mlia.
  specialize (Hs Hk). set (k := Z.shiftl 1 _) in *. clearbody k.
  unfold COOLDOWN_MAX_MS, COOLDOWN_BASE_MS in *.
  assert (Z.max configured 30000 <= i64_sat_mul (Z.max configured 30000) k).
  { unfold i64_sat_mul, sat_i64.
    assert (Z.max configured 30000 <= Z.max configured 30000 * k) by nia. mlia. }
  lia.
Qed.

Lemma cooldown_ms_pos configured failures :
  is_i64 configured → 0 <= failures → COOLDOWN_BASE_MS <= cooldown_ms configured failures.
Proof.
  intros Hc Hf. pose proof (cooldown_ms_bounds configured failures Hc Hf).
  unfold COOLDOWN_BASE_MS, COOLDOWN_MAX_MS in *. lia.
Qed.

(** More consecutive failures never shorten the cooldown. *)
Lemma cooldown_ms_mono configured f f' :
  0 <= f <= f' → cooldown_ms configured f <= cooldown_ms configured f'.
Proof.
  intros Hf. unfold cooldown_ms.
  assert (Z.shiftl 1 (Z.min (u32_sat_sub f 1) 10) <= Z.shiftl 1 (Z.min (u32_sat_sub f' 1) 10)) as Hs.
  { apply shiftl_1_mono. mlia. }
  set (b := Z.max configured COOLDOWN_BASE_MS).
  assert (0 <= b) as Hb by (unfold b, COOLDOWN_BASE_MS; lia).
  assert (i64_sat_mul b (Z.shiftl 1 (Z.min (u32_sat_sub f 1) 10))
          <= i64_sat_mul b (Z.shiftl 1 (Z.min (u32_sat_sub f' 1) 10))) as Hm; [|lia].
  unfold i64_sat_mul, sat_i64. nia.
Qed.

#[export] Hint Resolve cooldown_ms_pos : gate.

(** ** The attempt budget of one request *)
Record AttemptBudget := MkBudget {
  used : Z;
  deadline : Z;
  setup_credit : bool;
  sent_by_provider : gmap Z Z
}.

Definition ns_of_ms (ms : Z) : Z := ms * 1000000.

Definition new_budget (now timeout : Z) : AttemptBudget := MkBudget 0 (now + timeout) false ∅.

(** [saturating_duration_since]: never negative. *)
Definition remaining (b : AttemptBudget) (now : Z) : Z := Z.max 0 (deadline b - now).

Definition available (b : AttemptBudget) (now : Z) : bool :=
  (used b <? MAX_ATTEMPTS) && negb (remaining b now =? 0).

Definition provider_available (b : AttemptBudget) (provider_id configured_max : Z) : bool :=
  unwrap_or (sent_by_provider b !! provider_id) 0 <? Z.max configured_max 1.

Definition note_send (b : AttemptBudget) (provider_id : Z) : AttemptBudget :=
  MkBudget (used b) (deadline b) (setup_credit b)
    (<[provider_id := unwrap_or (sent_by_provider b !! provider_id) 0 + 1]> (sent_by_provider b)).

Definition credit_connected_setup (b : AttemptBudget) : AttemptBudget :=
  MkBudget (used b) (deadline b) true (sent_by_provider b).

Definition set_credit (c : bool) (b : AttemptBudget) : AttemptBudget :=
  MkBudget (used b) (deadline b) c (sent_by_provider b).
Definition set_used (u : Z) (b : AttemptBudget) : AttemptBudget :=
  MkBudget u (deadline b) (setup_credit b) (sent_by_provider b).

(** The clock readings of one [begin]: for [available], before the backoff, and
    after it; and the jitter drawn in [0..=250]. *)
Record timing := Timing { t_check : Z; t_before : Z; t_after : Z; jitter_ms : Z }.

(** [Duration::from_millis((500 << (used - 1)) + jitter)] *)
Definition backoff_ns (b : AttemptBudget) (t : timing) : Z :=
  ns_of_ms (Z.shiftl 500 (used b - 1) + jitter_ms t).

(** The clock behaves: time does not go back and [sleep] waits at least the delay. *)
Definition timing_ok (b : AttemptBudget) (t : timing) : Prop :=
  0 <= jitter_ms t <= 250 ∧ t_check t <= t_before t ∧
  (if 0 <? used b then t_before t + backoff_ns b t <= t_after t else t_before t <= t_after t).

Definition begin (b : AttemptBudget) (t : timing) : bool * AttemptBudget :=
  let b := set_credit false b in
  if negb (available b (t_check t)) then (false, b)
  else if (0 <? used b) && (remaining b (t_before t) <=? backoff_ns b t) then (false, b)
  else if remaining b (t_after t) =? 0 then (false, b)
  else (true, set_used (used b + 1) b).

Definition begin_turn (b : AttemptBudget) (t : timing) : bool * AttemptBudget :=
  if setup_credit b then
    let b := set_credit false b in (negb (remaining b (t_check t) =? 0), b)
  else begin (set_credit false b) t.

Definition begin_for_provider (b : AttemptBudget) (provider_id configured_max : Z)
    (turn : bool) (t : timing) : bool * AttemptBudget :=
  if turn && setup_credit b then begin_turn b t
  else if provider_available b provider_id configured_max then begin b t
  else (false, b).

(** ** Retry-After

    [headers] is [hyper::HeaderMap] seen through [get(name)] followed by [to_str];
    [parse_http_date] is [httpdate::parse_http_date] followed by the distance to
    the epoch in nanoseconds, negative before it. *)
Section RetryAfter.
Context (parse_http_date : string → option Z).

Definition retry_after_ms (headers : string → option string) (now_ms : Z) : option Z :=
  match headers "retry-after"%string with
  | None => None
  | Some raw =>
      let value := trim raw in
      match parse_u64 value with
      | Some seconds => Some (Z.min (u64_sat_mul seconds 1000) i64_max)
      | None =>
          match parse_http_date value with
          | None => None
          | Some ns =>
              if ns <? 0 then None
              else Some (Z.max 0 (i64_sat_sub (Z.min (ns / 1000000) i64_max) now_ms))
          end
      end
  end.

Lemma retry_after_ms_nonneg headers now_ms r :
  retry_after_ms headers now_ms = Some r → 0 <= r <= i64_max.
Proof.
  unfold retry_after_ms. destruct (headers _) as [raw|]; [|done].
  destruct (parse_u64 _) as [n|] eqn:E.
  - apply parse_u64_range in E. intros [= <-]. mlia.
  - destruct (parse_http_date _) as [ns|]; [|done].
    destruct (Z.ltb_spec ns 0); [done|]. intros [= <-].
    pose proof (Z.div_pos ns 1000000). mlia.
Qed.
End RetryAfter.

#[export] Hint Resolve retry_after_ms_nonneg : gate.

(** ** Properties of the budget *)

(** The operations a request applies to its budget. *)
Inductive budget_op :=
  | OpBegin (t : timing)
  | OpBeginTurn (t : timing)
  | OpBeginFor (provider_id configured_max : Z) (turn : bool) (t : timing)
  | OpNoteSend (provider_id : Z)
  | OpCredit.

Definition run_op (b : AttemptBudget) (o : budget_op) : bool * AttemptBudget :=
  match o with
  | OpBegin t => begin b t
  | OpBeginTurn t => begin_turn b t
  | OpBeginFor p m turn t => begin_for_provider b p m turn t
  | OpNoteSend p => (false, note_send b p)
  | OpCredit => (false, credit_connected_setup b)
  end.

(** Attempts granted along a sequence of operations. *)
Fixpoint granted (b : AttemptBudget) (ops : list budget_op) : Z :=
  match ops with
  | [] => 0
  | o :: ops' => (if (run_op b o).1 then 1 else 0) + granted (run_op b o).2 ops'
  end.

Definition is_credit (o : budget_op) : bool := match o with OpCredit => true | _ => false end.
Definition credits (ops : list budget_op) : Z := Z.of_nat (length (List.filter is_credit ops)).

(** What [used] and a pending credit still allow. *)
Definition allowance (b : AttemptBudget) : Z :=
  MAX_ATTEMPTS - used b + (if setup_credit b then 1 else 0).

Definition budget_ok (b : AttemptBudget) : Prop := 0 <= used b <= MAX_ATTEMPTS.

Lemma begin_cases b t :
  ((begin b t).1 = false ∧ (begin b t).2 = set_credit false b)
  ∨ ((begin b t).1 = true ∧ (begin b t).2 = set_used (used b + 1) (set_credit false b)
     ∧ used b < MAX_ATTEMPTS ∧ t_after t < deadline b
     ∧ (0 < used b → 0 <= jitter_ms t → backoff_ns b t < deadline b - t_before t)).
Proof.
  unfold begin, available, remaining, backoff_ns. simpl.
  destruct (Z.ltb_spec (used b) MAX_ATTEMPTS); simpl; [|auto].
  destruct (Z.eqb_spec (Z.max 0 (deadline b - t_check t)) 0); simpl; [auto|].
  destruct (Z.ltb_spec 0 (used b)); simpl.
  - destruct (Z.leb_spec (Z.max 0 (deadline b - t_before t)) (ns_of_ms (Z.shiftl 500 (used b - 1) + jitter_ms t)));
      simpl; [auto|].
    destruct (Z.eqb_spec (Z.max 0 (deadline b - t_after t)) 0); simpl; [auto|].
    right. repeat split; auto; try lia. intros _ Hj.
    rewrite Z.shiftl_mul_pow2 in H1 |- *; [|lia]. unfold ns_of_ms in *.
    pose proof (Z.pow_nonneg 2 (used b - 1)). lia.
  - destruct (Z.eqb_spec (Z.max 0 (deadline b - t_after t)) 0); simpl; [auto|].
    right. repeat split; auto; lia.
Qed.

Lemma run_op_allowance b o :
  budget_ok b →
  budget_ok (run_op b o).2
  ∧ allowance (run_op b o).2 + (if (run_op b o).1 then 1 else 0)
    <= allowance b + (if is_credit o then 1 else 0).
Proof.
  assert (∀ b t, budget_ok b → budget_ok (begin b t).2 ∧
    allowance (begin b t).2 + (if (begin b t).1 then 1 else 0) <= allowance b) as Hbegin.
  { unfold budget_ok, allowance. intros b' t Hok.
    destruct (begin_cases b' t) as [[-> ->]|(-> & -> & ? & _)]; simpl; split; try lia;
      destruct (setup_credit b'); lia. }
  assert (∀ b t, budget_ok b → budget_ok (begin_turn b t).2 ∧
    allowance (begin_turn b t).2 + (if (begin_turn b t).1 then 1 else 0) <= allowance b) as Hturn.
  { intros b' t Hok. unfold begin_turn. destruct (setup_credit b') eqn:Ec.
    - simpl. unfold budget_ok, allowance in *. simpl. rewrite Ec. split; [done|].
      destruct (negb _); lia.
    - destruct (Hbegin (set_credit false b') t Hok) as [? Hle]. split; [done|].
      unfold allowance in *. simpl in *. rewrite Ec. lia. }
  intros Hok. destruct o as [t|t|p m turn t|p|]; simpl.
  - destruct (Hbegin b t Hok). split; [done|lia].
  - destruct (Hturn b t Hok). split; [done|lia].
  - unfold begin_for_provider. destruct (turn && setup_credit b); [|destruct (provider_available _ _ _)].
    + destruct (Hturn b t Hok). split; [done|lia].
    + destruct (Hbegin b t Hok). split; [done|lia].
    + simpl. split; [done|lia].
  - split; [done|]. unfold allowance; simpl. lia.
  - split; [done|]. unfold allowance; simpl. destruct (setup_credit b); lia.
Qed.

Lemma granted_allowance ops b : budget_ok b → granted b ops <= allowance b + credits ops.
Proof.
  unfold credits. revert b. induction ops as [|o ops IH]; intros b Hok; simpl.
  - unfold allowance, budget_ok, MAX_ATTEMPTS in *. destruct (setup_credit b); simpl; lia.
  - destruct (run_op_allowance b o Hok) as [Hok' Hle]. specialize (IH _ Hok').
    destruct (is_credit o); simpl; lia.
Qed.

(** Whatever operations a request applies to its budget, in whatever order and
    at whatever times, the attempts granted never exceed the shared limit of three
    plus one per connected WebSocket setup it was credited with. *)
Theorem budget_grants_bounded now timeout ops :
  granted (new_budget now timeout) ops <= MAX_ATTEMPTS + credits ops.
Proof.
  etrans; [apply granted_allowance|]; unfold budget_ok, allowance, MAX_ATTEMPTS; simpl; lia.
Qed.

(** A granted attempt starts before the request deadline, and a retry (an
    attempt after the first) only after an exponential backoff of at least
    500 ms times two to the number of earlier retries. *)
Theorem begin_backoff_and_deadline b t :
  timing_ok b t → (begin b t).1 = true →
  t_after t < deadline b
  ∧ (0 < used b → t_check t + ns_of_ms (500 * 2 ^ (used b - 1)) <= t_after t).
Proof.
  intros (Hj & Hcheck & Hsleep) Hg.
  destruct (begin_cases b t) as [[Hf _]|(_ & _ & _ & Hd & _)]; [congruence|].
  split; [done|]. intros Hu. revert Hsleep.
  destruct (Z.ltb_spec 0 (used b)); [|lia]. unfold backoff_ns, ns_of_ms.
  rewrite Z.shiftl_mul_pow2; lia.
Qed.

Lemma begin_backoff_and_deadline_witness :
  let b := MkBudget 1 120000000000 false ∅ in
  let t := Timing 1000 2000 700000000 100 in
  timing_ok b t ∧ (begin b t).1 = true ∧
  t_after t < deadline b
  ∧ (0 < used b → t_check t + ns_of_ms (500 * 2 ^ (used b - 1)) <= t_after t).
Proof.
  intros b t.
  assert (timing_ok b t) as Hok by (unfold timing_ok; vm_compute; intuition congruence).
  assert ((begin b t).1 = true) as Hg by reflexivity.
  split; [exact Hok|]. split; [exact Hg|].
  exact (begin_backoff_and_deadline b t Hok Hg).
Defined.

(** The cooldown after a failure is at least the operator's setting and the
    30 s base, at most the larger of that and the 5 min cap, and never shrinks as
    failures accumulate. *)
Theorem cooldown_bounded_and_monotone configured f f' :
  is_i64 configured → 0 <= f <= f' →
  Z.max configured COOLDOWN_BASE_MS <= cooldown_ms configured f
  ∧ cooldown_ms configured f <= cooldown_ms configured f'
  ∧ cooldown_ms configured f' <= Z.max COOLDOWN_MAX_MS (Z.max configured COOLDOWN_BASE_MS).
Proof.
  intros Hc Hf. pose proof (cooldown_ms_bounds configured f Hc).
  pose proof (cooldown_ms_bounds configured f' Hc).
  pose proof (cooldown_ms_mono configured f f' Hf). lia.
Qed.

Lemma cooldown_bounded_and_monotone_witness :
  Z.max 1000 COOLDOWN_BASE_MS <= cooldown_ms 1000 2
  ∧ cooldown_ms 1000 2 <= cooldown_ms 1000 5
  ∧ cooldown_ms 1000 5 <= Z.max COOLDOWN_MAX_MS (Z.max 1000 COOLDOWN_BASE_MS).
Proof. apply (cooldown_bounded_and_monotone 1000 2 5); [mlia|lia]. Defined.

Example cooldown_ms_table :
  map (cooldown_ms 1000) [1; 2; 3; 4; 5; 20] = [30000; 60000; 120000; 240000; 300000; 300000]
  ∧ cooldown_ms 600000 1 = 600000.
Proof. by vm_compute. Qed.
