(* ===== verification/RuntimeHealth.v ===== *)
(** * RuntimeHealth: circuit breakers of endpoints and upstream keys

    Models [health.rs]. A book is a map from ids to states, behind one lock that
    every operation takes for its whole duration, so an execution is a sequence of
    operations in any order. [now_ms] is the clock reading the caller passes. *)
From S2P Require Import Prelude Float64 ProbeProtocol Resilience.

(** ** State *)
Inductive CircuitState := Closed | Open | HalfOpen.

#[export] Instance CircuitState_eq_dec : EqDecision CircuitState.
Proof. solve_decision. Defined.

Record RuntimeHealthState := MkHealth {
  rh_generation : Z;
  rh_next_probe_id : Z;
  rh_probe_owner : option Z;
  rh_consecutive_failures : Z;
  rh_success_count : Z;
  rh_failure_count : Z;
  rh_last_status : option Z;
  rh_last_error_type : option string;
  rh_last_error_message : option string;
  rh_latency_ewma_ms : option f64;
  rh_open_until_ms : option Z;
  rh_last_success_at_ms : option Z;
  rh_last_failure_at_ms : option Z;
  rh_updated_at_ms : option Z
}.

Definition set_rh_generation (v : Z) (s : RuntimeHealthState) : RuntimeHealthState :=
  MkHealth v (rh_next_probe_id s) (rh_probe_owner s) (rh_consecutive_failures s) (rh_success_count s) (rh_failure_count s) (rh_last_status s) (rh_last_error_type s) (rh_last_error_message s) (rh_latency_ewma_ms s) (rh_open_until_ms s) (rh_last_success_at_ms s) (rh_last_failure_at_ms s) (rh_updated_at_ms s).
Definition set_rh_next_probe_id (v : Z) (s : RuntimeHealthState) : RuntimeHealthState :=
  MkHealth (rh_generation s) v (rh_probe_owner s) (rh_consecutive_failures s) (rh_success_count s) (rh_failure_count s) (rh_last_status s) (rh_last_error_type s) (rh_last_error_message s) (rh_latency_ewma_ms s) (rh_open_until_ms s) (rh_last_success_at_ms s) (rh_last_failure_at_ms s) (rh_updated_at_ms s).
Definition set_rh_probe_owner (v : option Z) (s : RuntimeHealthState) : RuntimeHealthState :=
  MkHealth (rh_generation s) (rh_next_probe_id s) v (rh_consecutive_failures s) (rh_success_count s) (rh_failure_count s) (rh_last_status s) (rh_last_error_type s) (rh_last_error_message s) (rh_latency_ewma_ms s) (rh_open_until_ms s) (rh_last_success_at_ms s) (rh_last_failure_at_ms s) (rh_updated_at_ms s).
Definition set_rh_consecutive_failures (v : Z) (s : RuntimeHealthState) : RuntimeHealthState :=
  MkHealth (rh_generation s) (rh_next_probe_id s) (rh_probe_owner s) v (rh_success_count s) (rh_failure_count s) (rh_last_status s) (rh_last_error_type s) (rh_last_error_message s) (rh_latency_ewma_ms s) (rh_open_until_ms s) (rh_last_success_at_ms s) (rh_last_failure_at_ms s) (rh_updated_at_ms s).
Definition set_rh_success_count (v : Z) (s : RuntimeHealthState) : RuntimeHealthState :=
  MkHealth (rh_generation s) (rh_next_probe_id s) (rh_probe_owner s) (rh_consecutive_failures s) v (rh_failure_count s) (rh_last_status s) (rh_last_error_type s) (rh_last_error_message s) (rh_latency_ewma_ms s) (rh_open_until_ms s) (rh_last_success_at_ms s) (rh_last_failure_at_ms s) (rh_updated_at_ms s).
Definition set_rh_failure_count (v : Z) (s : RuntimeHealthState) : RuntimeHealthState :=
  MkHealth (rh_generation s) (rh_next_probe_id s) (rh_probe_owner s) (rh_consecutive_failures s) (rh_success_count s) v (rh_last_status s) (rh_last_error_type s) (rh_last_error_message s) (rh_latency_ewma_ms s) (rh_open_until_ms s) (rh_last_success_at_ms s) (rh_last_failure_at_ms s) (rh_updated_at_ms s).
Definition set_rh_last_status (v : option Z) (s : RuntimeHealthState) : RuntimeHealthState :=
  MkHealth (rh_generation s) (rh_next_probe_id s) (rh_probe_owner s) (rh_consecutive_failures s) (rh_success_count s) (rh_failure_count s) v (rh_last_error_type s) (rh_last_error_message s) (rh_latency_ewma_ms s) (rh_open_until_ms s) (rh_last_success_at_ms s) (rh_last_failure_at_ms s) (rh_updated_at_ms s).
Definition set_rh_last_error_type (v : option string) (s : RuntimeHealthState) : RuntimeHealthState :=
  MkHealth (rh_generation s) (rh_next_probe_id s) (rh_probe_owner s) (rh_consecutive_failures s) (rh_success_count s) (rh_failure_count s) (rh_last_status s) v (rh_last_error_message s) (rh_latency_ewma_ms s) (rh_open_until_ms s) (rh_last_success_at_ms s) (rh_last_failure_at_ms s) (rh_updated_at_ms s).
Definition set_rh_last_error_message (v : option string) (s : RuntimeHealthState) : RuntimeHealthState :=
  MkHealth (rh_generation s) (rh_next_probe_id s) (rh_probe_owner s) (rh_consecutive_failures s) (rh_success_count s) (rh_failure_count s) (rh_last_status s) (rh_last_error_type s) v (rh_latency_ewma_ms s) (rh_open_until_ms s) (rh_last_success_at_ms s) (rh_last_failure_at_ms s) (rh_updated_at_ms s).
Definition set_rh_latency_ewma_ms (v : option f64) (s : RuntimeHealthState) : RuntimeHealthState :=
  MkHealth (rh_generation s) (rh_next_probe_id s) (rh_probe_owner s) (rh_consecutive_failures s) (rh_success_count s) (rh_failure_count s) (rh_last_status s) (rh_last_error_type s) (rh_last_error_message s) v (rh_open_until_ms s) (rh_last_success_at_ms s) (rh_last_failure_at_ms s) (rh_updated_at_ms s).
Definition set_rh_open_until_ms (v : option Z) (s : RuntimeHealthState) : RuntimeHealthState :=
  MkHealth (rh_generation s) (rh_next_probe_id s) (rh_probe_owner s) (rh_consecutive_failures s) (rh_success_count s) (rh_failure_count s) (rh_last_status s) (rh_last_error_type s) (rh_last_error_message s) (rh_latency_ewma_ms s) v (rh_last_success_at_ms s) (rh_last_failure_at_ms s) (rh_updated_at_ms s).
Definition set_rh_last_success_at_ms (v : option Z) (s : RuntimeHealthState) : RuntimeHealthState :=
  MkHealth (rh_generation s) (rh_next_probe_id s) (rh_probe_owner s) (rh_consecutive_failures s) (rh_success_count s) (rh_failure_count s) (rh_last_status s) (rh_last_error_type s) (rh_last_error_message s) (rh_latency_ewma_ms s) (rh_open_until_ms s) v (rh_last_failure_at_ms s) (rh_updated_at_ms s).
Definition set_rh_last_failure_at_ms (v : option Z) (s : RuntimeHealthState) : RuntimeHealthState :=
  MkHealth (rh_generation s) (rh_next_probe_id s) (rh_probe_owner s) (rh_consecutive_failures s) (rh_success_count s) (rh_failure_count s) (rh_last_status s) (rh_last_error_type s) (rh_last_error_message s) (rh_latency_ewma_ms s) (rh_open_until_ms s) (rh_last_success_at_ms s) v (rh_updated_at_ms s).
Definition set_rh_updated_at_ms (v : option Z) (s : RuntimeHealthState) : RuntimeHealthState :=
  MkHealth (rh_generation s) (rh_next_probe_id s) (rh_probe_owner s) (rh_consecutive_failures s) (rh_success_count s) (rh_failure_count s) (rh_last_status s) (rh_last_error_type s) (rh_last_error_message s) (rh_latency_ewma_ms s) (rh_open_until_ms s) (rh_last_success_at_ms s) (rh_last_failure_at_ms s) v.

Definition default_health : RuntimeHealthState :=
  MkHealth 1 0 None 0 0 0 None None None None None None None None.

Record RuntimeHealthView := MkHealthView {
  hv_state : CircuitState;
  hv_available : bool;
  hv_consecutive_failures : Z;
  hv_success_count : Z;
  hv_failure_count : Z;
  hv_last_status : option Z;
  hv_last_error_type : option string;
  hv_last_error_message : option string;
  hv_latency_ewma_ms : option Z;
  hv_open_until_ms : option Z;
  hv_last_success_at_ms : option Z;
  hv_last_failure_at_ms : option Z;
  hv_updated_at_ms : option Z
}.

Definition default_view : RuntimeHealthView :=
  MkHealthView Closed true 0 0 0 None None None None None None None None.

Record RuntimeHealthBook := MkHealthBook {
  failure_threshold : Z;
  open_duration_ms : Z;
  ewma_alpha : f64;
  by_id : gmap Z RuntimeHealthState
}.

Definition set_by_id (m : gmap Z RuntimeHealthState) (b : RuntimeHealthBook) : RuntimeHealthBook :=
  MkHealthBook (failure_threshold b) (open_duration_ms b) (ewma_alpha b) m.

Definition new_health_book (threshold open_ms : Z) : RuntimeHealthBook :=
  MkHealthBook (Z.max threshold 1) (Z.max open_ms 1) f64_0_2 ∅.

(** [guard.entry(id).or_default()] *)
Definition health_entry (b : RuntimeHealthBook) (id : Z) : RuntimeHealthState :=
  unwrap_or (by_id b !! id) default_health.
Definition put_health (id : Z) (s : RuntimeHealthState) (b : RuntimeHealthBook) : RuntimeHealthBook :=
  set_by_id (<[id := s]> (by_id b)) b.

#[export] Instance health_probed : Probed RuntimeHealthState :=
  λ s, View (rh_generation s) (rh_next_probe_id s) (rh_probe_owner s).

(** ** Token helpers *)
Definition attempt_token_matches (s : RuntimeHealthState) (t : token) : bool :=
  (rh_generation s =? tok_generation t)
  && is_none_or (tok_probe_id t) (λ probe_id, opt_eqb (rh_probe_owner s) (Some probe_id)).

Definition release_probe_owner (s : RuntimeHealthState) (t : token) : bool * RuntimeHealthState :=
  if is_some_and (tok_probe_id t) (λ probe_id, opt_eqb (rh_probe_owner s) (Some probe_id))
  then (true, set_rh_probe_owner None s)
  else (false, s).

Definition advance_generation (s : RuntimeHealthState) : RuntimeHealthState :=
  s |> set_rh_generation (wrapping_next (rh_generation s)) |> set_rh_probe_owner None.

(** ** Reading the circuit *)
Definition state_kind (s : RuntimeHealthState) (now_ms : Z) : CircuitState :=
  match rh_open_until_ms s with
  | Some open_until_ms => if now_ms <? open_until_ms then Open else HalfOpen
  | None => Closed
  end.

Definition to_view (s : RuntimeHealthState) (now_ms : Z) : RuntimeHealthView :=
  let kind := state_kind s now_ms in
  {| hv_state := kind;
     hv_available := match kind with
                     | Closed => true
                     | Open => false
                     | HalfOpen => is_none (rh_probe_owner s)
                     end;
     hv_consecutive_failures := rh_consecutive_failures s;
     hv_success_count := rh_success_count s;
     hv_failure_count := rh_failure_count s;
     hv_last_status := rh_last_status s;
     hv_last_error_type := rh_last_error_type s;
     hv_last_error_message := rh_last_error_message s;
     hv_latency_ewma_ms := option_map f64_round_i64 (rh_latency_ewma_ms s);
     hv_open_until_ms := match kind with Open => rh_open_until_ms s | _ => None end;
     hv_last_success_at_ms := rh_last_success_at_ms s;
     hv_last_failure_at_ms := rh_last_failure_at_ms s;
     hv_updated_at_ms := rh_updated_at_ms s |}.

Definition snapshot (b : RuntimeHealthBook) (id now_ms : Z) : RuntimeHealthView :=
  match by_id b !! id with
  | None => default_view
  | Some s => to_view s now_ms
  end.

(** ** Attempts *)
Record RuntimeHealthAttemptGuard := MkHealthGuard { hg_id : Z; hg_token : token }.

Definition try_begin_attempt (b : RuntimeHealthBook) (id now_ms : Z)
    : option RuntimeHealthAttemptGuard * RuntimeHealthBook :=
  let s := health_entry b id in
  match state_kind s now_ms with
  | Closed => (Some (MkHealthGuard id (Token (rh_generation s) None)), put_health id s b)
  | Open => (None, put_health id s b)
  | HalfOpen =>
      if is_some (rh_probe_owner s) then (None, put_health id s b)
      else
        let p := wrapping_next (rh_next_probe_id s) in
        let s := s |> set_rh_next_probe_id p |> set_rh_probe_owner (Some p)
                   |> set_rh_updated_at_ms (Some now_ms) in
        (Some (MkHealthGuard id (Token (rh_generation s) (Some p))), put_health id s b)
  end.

Definition finish_neutral (b : RuntimeHealthBook) (id : Z) (t : token) (now_ms : Z) : RuntimeHealthBook :=
  match by_id b !! id with
  | None => b
  | Some s =>
      if attempt_token_matches s t then
        let '(released, s) := release_probe_owner s t in
        put_health id (if released then set_rh_updated_at_ms (Some now_ms) s else s) b
      else b
  end.

Definition finish_success (b : RuntimeHealthBook) (id : Z) (t : token) (status : option Z)
    (observed_latency_ms : option Z) (now_ms : Z) : RuntimeHealthBook :=
  let s := health_entry b id in
  let s := set_rh_success_count (u64_sat_add (rh_success_count s) 1) s in
  let s := match opt_filter (λ v, 0 <=? v) observed_latency_ms with
           | Some latency_ms =>
               set_rh_latency_ewma_ms (Some (ewma (ewma_alpha b) (rh_latency_ewma_ms s) latency_ms)) s
           | None => s
           end in
  if negb (attempt_token_matches s t) then put_health id s b
  else
    let previous_kind := state_kind s now_ms in
    let s := s |> set_rh_consecutive_failures 0 |> set_rh_last_status status
               |> set_rh_last_error_type None |> set_rh_last_error_message None
               |> set_rh_open_until_ms None |> set_rh_last_success_at_ms (Some now_ms)
               |> set_rh_updated_at_ms (Some now_ms) in
    let s := (release_probe_owner s t).2 in
    let s := if decide (previous_kind = HalfOpen) then advance_generation s else s in
    put_health id s b.

Definition finish_failure (b : RuntimeHealthBook) (id : Z) (t : token) (status : option Z)
    (error_type error_message : option string) (now_ms : Z) : RuntimeHealthBook :=
  let s := health_entry b id in
  let s := set_rh_failure_count (u64_sat_add (rh_failure_count s) 1) s in
  if negb (attempt_token_matches s t) then put_health id s b
  else
    let previous_kind := state_kind s now_ms in
    let s := s |> set_rh_last_status status |> set_rh_last_error_type error_type
               |> set_rh_last_error_message error_message
               |> set_rh_last_failure_at_ms (Some now_ms) |> set_rh_updated_at_ms (Some now_ms) in
    let s := (release_probe_owner s t).2 in
    let s := set_rh_consecutive_failures (u32_sat_add (rh_consecutive_failures s) 1) s in
    let configured :=
      if (failure_threshold b <=? rh_consecutive_failures s) || bool_decide (previous_kind = HalfOpen)
      then open_duration_ms b else 0 in
    let s := set_rh_open_until_ms
               (Some (i64_sat_add now_ms (cooldown_ms configured (rh_consecutive_failures s)))) s in
    put_health id (advance_generation s) b.

Definition reset (b : RuntimeHealthBook) (id : Z) : RuntimeHealthBook :=
  let s := advance_generation (health_entry b id) in
  put_health id (s |> set_rh_consecutive_failures 0 |> set_rh_open_until_ms None
                   |> set_rh_last_error_type None |> set_rh_last_error_message None) b.

Definition defer_until (b : RuntimeHealthBook) (id until_ms : Z) : RuntimeHealthBook :=
  let s := health_entry b id in
  let s := set_rh_open_until_ms (Some (Z.max (unwrap_or (rh_open_until_ms s) 0) until_ms)) s in
  put_health id (advance_generation s) b.

(** [RuntimeHealthAttemptGuard]: consuming a guard runs the matching operation on
    its book; dropping one that was not consumed runs [finish_neutral]. *)
Definition is_current (b : RuntimeHealthBook) (g : RuntimeHealthAttemptGuard) : bool :=
  is_some_and (by_id b !! hg_id g) (λ s, attempt_token_matches s (hg_token g)).

Inductive outcome :=
  | Success (status : option Z) (latency_ms : option Z)
  | Failure (status : option Z) (error_type error_message : option string)
  | Neutral.

Definition finish_guard (b : RuntimeHealthBook) (g : RuntimeHealthAttemptGuard) (o : outcome)
    (now_ms : Z) : RuntimeHealthBook :=
  match o with
  | Success status latency => finish_success b (hg_id g) (hg_token g) status latency now_ms
  | Failure status et em => finish_failure b (hg_id g) (hg_token g) status et em now_ms
  | Neutral => finish_neutral b (hg_id g) (hg_token g) now_ms
  end.

(** ** Entry lemmas *)
Lemma health_entry_put id s b id' :
  health_entry (put_health id s b) id' = if decide (id = id') then s else health_entry b id'.
Proof. unfold health_entry, put_health; simpl. rewrite lookup_insert. by case_decide. Qed.

Lemma health_entry_Some b id s : by_id b !! id = Some s → health_entry b id = s.
Proof. unfold health_entry. by intros ->. Qed.

Lemma attempt_token_matches_view s t :
  attempt_token_matches s t = view_matches (probe_view s) t.
Proof. done. Qed.

Lemma advance_generation_view s : probe_view (advance_generation s) = v_advance (probe_view s).
Proof. done. Qed.

(** Finishing a matching token releases the probe it owns and nothing else. *)
Lemma release_probe_owner_view s t :
  attempt_token_matches s t = true →
  probe_view (release_probe_owner s t).2 =
    if owns_probe (probe_view s) t then v_release (probe_view s) else probe_view s.
Proof.
  unfold attempt_token_matches, release_probe_owner, owns_probe, view_matches.
  destruct (tok_probe_id t) as [p|]; simpl; [|by rewrite andb_false_r].
  rewrite andb_true_iff. intros [-> ->]. done.
Qed.

Lemma release_probe_owner_cases s t :
  (release_probe_owner s t).2 = s ∨ (release_probe_owner s t).2 = set_rh_probe_owner None s.
Proof. unfold release_probe_owner. destruct (is_some_and _ _); auto. Qed.

(** ** The abstract contract *)

Lemma finish_effect_released s t v' :
  attempt_token_matches s t = true →
  v' = probe_view (release_probe_owner s t).2 → finish_effect (probe_view s) v' t.
Proof.
  intros Hm ->. rewrite release_probe_owner_view //.
  destruct (owns_probe _ _) eqn:E; [by right; left|by left].
Qed.

Lemma owns_probe_unmatched s t :
  attempt_token_matches s t = false → owns_probe (probe_view s) t = false.
Proof. rewrite attempt_token_matches_view /owns_probe. by intros ->. Qed.

Lemma finish_guard_effect b g o now :
  finish_effect (probe_view (health_entry b (hg_id g)))
    (probe_view (health_entry (finish_guard b g o now) (hg_id g))) (hg_token g).
Proof.
  destruct g as [id t]; simpl. destruct o as [st lat|st et em|]; simpl.
  - unfold finish_success.
    set (s := health_entry b id). set (s1 := match opt_filter _ _ with Some _ => _ | None => _ end).
    assert (probe_view s1 = probe_view s) as Hv by (subst s1; destruct (opt_filter _ _); done).
    destruct (attempt_token_matches s1 t) eqn:Hm; simpl.
    + rewrite health_entry_put decide_True // -Hv. case_decide.
      * right; right. by destruct (release_probe_owner_cases
          (s1 |> set_rh_consecutive_failures 0 |> set_rh_last_status st
           |> set_rh_last_error_type None |> set_rh_last_error_message None
           |> set_rh_open_until_ms None |> set_rh_last_success_at_ms (Some now)
           |> set_rh_updated_at_ms (Some now)) t) as [-> | ->].
      * match goal with |- context [release_probe_owner ?s2 t] =>
          exact (finish_effect_released s2 t _ Hm eq_refl) end.
    + rewrite health_entry_put decide_True // -Hv. left. split; [done|].
      by apply owns_probe_unmatched.
  - unfold finish_failure. set (s := health_entry b id).
    destruct (attempt_token_matches (set_rh_failure_count _ s) t) eqn:Hm; simpl.
    + rewrite health_entry_put decide_True // advance_generation_view.
      right; right. unfold v_advance. simpl. f_equal; unfold release_probe_owner; by destruct (is_some_and _ _).
    + rewrite health_entry_put decide_True //. left. split; [done|].
      by apply (owns_probe_unmatched (set_rh_failure_count (u64_sat_add (rh_failure_count s) 1) s)).
  - unfold finish_neutral. destruct (by_id b !! id) as [s|] eqn:Hs.
    + rewrite (health_entry_Some _ _ _ Hs). destruct (attempt_token_matches s t) eqn:Hm.
      * pose proof (finish_effect_released s t _ Hm eq_refl) as He.
        destruct (release_probe_owner s t) as [r s']; simpl in *.
        rewrite health_entry_put decide_True //. by destruct r.
      * rewrite (health_entry_Some _ _ _ Hs). left. split; [done|]. by apply owns_probe_unmatched.
    + unfold health_entry. rewrite Hs. left. split; [done|]. unfold owns_probe, view_matches; simpl.
      destruct (tok_probe_id t); simpl; by rewrite !andb_false_r.
Qed.

Lemma finish_guard_other b g o now id :
  hg_id g ≠ id → health_entry (finish_guard b g o now) id = health_entry b id.
Proof.
  intros Hne. destruct g as [gid t], o as [st lat|st et em|]; simpl in *;
    unfold finish_success, finish_failure, finish_neutral.
  - destruct (negb _); by rewrite health_entry_put decide_False.
  - destruct (negb _); by rewrite health_entry_put decide_False.
  - destruct (by_id b !! gid); [|done]. destruct (attempt_token_matches _ _); [|done].
    destruct (release_probe_owner _ _) as [[] ?]; by rewrite health_entry_put decide_False.
Qed.

Lemma try_begin_attempt_effect b id now :
  let '(r, b') := try_begin_attempt b id now in
  let v := probe_view (health_entry b id) in
  let v' := probe_view (health_entry b' id) in
  match r with
  | None => v' = v
  | Some g => hg_id g = id ∧
      ((v' = v ∧ hg_token g = Token (v_generation v) None)
       ∨ (v_probe_owner v = None ∧ v' = v_issue v
          ∧ hg_token g = Token (v_generation v) (Some (wrapping_next (v_next_probe_id v)))))
  end.
Proof.
  unfold try_begin_attempt. destruct (state_kind _ _); [| |destruct (is_some _) eqn:Ho];
    rewrite health_entry_put decide_True //=; [auto|].
  split; [done|]. right. by destruct (rh_probe_owner _).
Qed.

Lemma try_begin_attempt_other b id now id' :
  id ≠ id' → health_entry (try_begin_attempt b id now).2 id' = health_entry b id'.
Proof.
  intros Hne. unfold try_begin_attempt.
  destruct (state_kind _ _); [| |destruct (is_some _)]; simpl; by rewrite health_entry_put decide_False.
Qed.

(** ** Executions

    The state is the book with the guards that requests still hold. *)
Definition hconf : Type := RuntimeHealthBook * list RuntimeHealthAttemptGuard.

Inductive hstep : hconf → hconf → Prop :=
  | hstep_begin b G id now g b' :
      try_begin_attempt b id now = (Some g, b') → hstep (b, G) (b', g :: G)
  | hstep_refused b G id now b' :
      try_begin_attempt b id now = (None, b') → hstep (b, G) (b', G)
  | hstep_finish b G1 g G2 o now :
      hstep (b, G1 ++ g :: G2) (finish_guard b g o now, G1 ++ G2)
  | hstep_reset b G id : hstep (b, G) (reset b id, G)
  | hstep_defer b G id until_ms : hstep (b, G) (defer_until b id until_ms, G).

Inductive hreach (threshold open_ms : Z) : Z → hconf → Prop :=
  | hreach_0 : hreach threshold open_ms 0 (new_health_book threshold open_ms, [])
  | hreach_S n s s' : hreach threshold open_ms n s → hstep s s' → hreach threshold open_ms (n + 1) s'.

Definition token_for (id : Z) (g : RuntimeHealthAttemptGuard) : option token :=
  if decide (hg_id g = id) then Some (hg_token g) else None.

(** The abstract state of one id. *)
Definition project (id : Z) (s : hconf) : view * list token :=
  (probe_view (health_entry s.1 id), omap (token_for id) s.2).

Lemma hstep_project id s s' : hstep s s' → pstep (project id s) (project id s').
Proof.
  unfold project. intros [b G i now g b' Hb|b G i now b' Hb|b G1 g G2 o now|b G i|b G i u]; simpl.
  - pose proof (try_begin_attempt_effect b i now) as He. rewrite Hb in He.
    destruct He as [Hid He]. unfold token_for at 2. rewrite Hid. case_decide as Hi; subst.
    + destruct He as [(-> & ->)|(Ho & -> & ->)]; by constructor.
    + pose proof (try_begin_attempt_other b (hg_id g) now id Hi) as Hoth. rewrite Hb /= in Hoth.
      rewrite Hoth. constructor.
  - destruct (decide (i = id)) as [->|Hi].
    + pose proof (try_begin_attempt_effect b id now) as He. rewrite Hb in He.
      rewrite He. constructor.
    + pose proof (try_begin_attempt_other b i now id Hi) as Hoth. rewrite Hb /= in Hoth.
      rewrite Hoth. constructor.
  - rewrite !omap_app. destruct (decide (hg_id g = id)) as [<-|Hi].
    + rewrite (omap_cons_Some _ g G2 (hg_token g)); [|by unfold token_for; rewrite decide_True].
      apply finish_effect_pstep, finish_guard_effect.
    + rewrite (omap_cons_None _ g G2); [|by unfold token_for; rewrite decide_False].
      rewrite finish_guard_other //. constructor.
  - unfold reset. rewrite health_entry_put. case_decide; subst; constructor.
  - unfold defer_until. rewrite health_entry_put. case_decide; subst; [|constructor].
    match goal with |- pstep (?v, _) _ => change (pstep (v, omap (token_for id) G) (v_advance v, omap (token_for id) G)) end.
    constructor.
Qed.

(** The book refines the abstract protocol, id by id. *)
Lemma hreach_project threshold open_ms id n s :
  hreach threshold open_ms n s → preach n (project id s).
Proof.
  induction 1 as [|n s s' _ IH Hs]; [apply preach_0|].
  eapply preach_S; [exact IH|]. by apply hstep_project.
Qed.

(** [probe_id.is_some()] *)
Definition is_probe (g : RuntimeHealthAttemptGuard) : bool := is_some (tok_probe_id (hg_token g)).

Lemma is_current_owns b g :
  is_current b g = true → is_probe g = true →
  owns_probe (probe_view (health_entry b (hg_id g))) (hg_token g) = true.
Proof.
  unfold is_current, is_probe, owns_probe. rewrite is_some_and_true.
  intros (s & Hs & Hm) ->. rewrite (health_entry_Some _ _ _ Hs).
  rewrite attempt_token_matches_view in Hm. by rewrite Hm.
Qed.

(** C7. Half-open recovery is exclusive: in every execution of begins, results,
    drops, resets and deferrals, in any interleaving and shorter than 2^64 - 1
    steps, no two outstanding attempts on the same endpoint or key are both current
    recovery probes. *)
Theorem health_single_current_probe threshold open_ms n b G1 g1 G2 g2 G3 :
  hreach threshold open_ms n (b, G1 ++ g1 :: G2 ++ g2 :: G3) → n < u64_max →
  hg_id g1 = hg_id g2 →
  ¬ (is_probe g1 = true ∧ is_probe g2 = true ∧ is_current b g1 = true ∧ is_current b g2 = true).
Proof.
  intros Hr Hn Hid (Hp1 & Hp2 & Hc1 & Hc2).
  destruct (preach_pinv _ _ (hreach_project _ _ (hg_id g1) _ _ Hr) Hn) as [_ Hinv].
  unfold project in Hinv. cbn [fst snd] in Hinv.
  rewrite omap_app (omap_cons_Some _ g1 _ (hg_token g1)) in Hinv;
    [|by unfold token_for; rewrite decide_True].
  rewrite omap_app (omap_cons_Some _ g2 _ (hg_token g2)) in Hinv;
    [|by unfold token_for; rewrite decide_True].
  eapply pinv_single; [exact Hinv|by apply is_current_owns|].
  rewrite Hid. by apply is_current_owns.
Qed.

(** No recovery slot leaks: when a half-open endpoint or key refuses traffic,
    some request still holds a current probe attempt for it, so it becomes
    available again as soon as that attempt finishes or is dropped. *)
Theorem health_no_orphan_probe threshold open_ms n b G id now :
  hreach threshold open_ms n (b, G) → n < u64_max →
  hv_state (snapshot b id now) = HalfOpen → hv_available (snapshot b id now) = false →
  ∃ g, g ∈ G ∧ hg_id g = id ∧ is_probe g = true ∧ is_current b g = true.
Proof.
  intros Hr Hn. unfold snapshot. destruct (by_id b !! id) as [s|] eqn:Hs; simpl; [|done].
  intros -> Hav. assert (∃ p, rh_probe_owner s = Some p) as [p Hp].
  { destruct (rh_probe_owner s); [eauto|done]. }
  destruct (preach_pinv _ _ (hreach_project _ _ id _ _ Hr) Hn) as [_ Hinv].
  destruct (pinv_owner_held _ _ _ p Hinv) as (t & Ht & Hown).
  { simpl. by rewrite (health_entry_Some _ _ _ Hs). }
  apply list_elem_of_omap in Ht as (g & Hg & Htok). unfold token_for in Htok.
  case_decide as Hid; [|done]. injection Htok as <-. subst id.
  simpl in Hown. rewrite (health_entry_Some _ _ _ Hs) in Hown.
  exists g. repeat split; [done|unfold is_probe|unfold is_current; rewrite Hs /=];
    unfold owns_probe in Hown; apply andb_true_iff in Hown as [??]; done.
Qed.

(** C38. The book implements the probe protocol, circuit by circuit: it starts in the
    protocol's initial state, each begin, refusal, result, drop, reset and deferral of
    the book is a step of the protocol for the circuit it concerns and for every other,
    and an attempt the book calls current is one the protocol still waits for. *)
Theorem health_book_refines_protocol threshold open_ms id :
  project id (new_health_book threshold open_ms, []) = (view0, [])
  ∧ (∀ s s', hstep s s' → pstep (project id s) (project id s'))
  ∧ (∀ b G g, hg_id g = id → is_current b g = true → view_matches (project id (b, G)).1 (hg_token g) = true).
Proof.
  split; [done|]. split; [apply hstep_project|]. intros b G g <-. unfold is_current. rewrite is_some_and_true.
  intros (s & Hs & Hm). cbn [project fst]. rewrite (health_entry_Some _ _ _ Hs). by rewrite -attempt_token_matches_view.
Qed.

(** ** Well-formedness: every field stays within its Rust type *)
Record health_wf (s : RuntimeHealthState) : Prop := {
  wf_generation : 1 <= rh_generation s <= u64_max;
  wf_next_probe_id : is_u64 (rh_next_probe_id s);
  wf_probe_owner : ∀ p, rh_probe_owner s = Some p → 1 <= p <= u64_max;
  wf_consecutive : is_u32 (rh_consecutive_failures s);
  wf_success : is_u64 (rh_success_count s);
  wf_failure : is_u64 (rh_failure_count s);
  wf_open_until : ∀ u, rh_open_until_ms s = Some u → is_i64 u
}.

Record book_wf (b : RuntimeHealthBook) : Prop := {
  wf_threshold : 1 <= failure_threshold b <= u32_max;
  wf_open_duration : 1 <= open_duration_ms b <= i64_max;
  wf_states : ∀ id s, by_id b !! id = Some s → health_wf s
}.

Lemma wrapping_next_range n : 1 <= wrapping_next n <= u64_max.
Proof. unfold wrapping_next. pose proof (u64_wrap_range (n + 1)). mlia. Qed.

Lemma default_health_wf : health_wf default_health.
Proof. split; simpl; try done; mlia. Qed.

Lemma health_entry_wf b id : book_wf b → health_wf (health_entry b id).
Proof.
  intros [_ _ Hs]. unfold health_entry. destruct (by_id b !! id) eqn:E; simpl; eauto.
  apply default_health_wf.
Qed.

Lemma put_health_wf id s b : book_wf b → health_wf s → book_wf (put_health id s b).
Proof.
  intros [Ht Ho Hs] Hwf. split; simpl; auto. intros id' s'.
  rewrite lookup_insert. case_decide; naive_solver.
Qed.

#[export] Hint Resolve default_health_wf health_entry_wf put_health_wf wrapping_next_range : gate.

(** The setters that leave the checked fields alone, or set them within range. *)
Ltac solve_health_wf :=
  match goal with
  | |- health_wf _ => split; simpl; try done; try mlia; auto with gate
  end.

Lemma release_probe_owner_wf s t : health_wf s → health_wf (release_probe_owner s t).2.
Proof. intros []. destruct (release_probe_owner_cases s t) as [-> | ->]; [by split|solve_health_wf]. Qed.

Lemma advance_generation_wf s : health_wf s → health_wf (advance_generation s).
Proof. intros []. solve_health_wf. Qed.

#[export] Hint Resolve release_probe_owner_wf advance_generation_wf : gate.

Lemma try_begin_attempt_wf b id now : book_wf b → book_wf (try_begin_attempt b id now).2.
Proof.
  intros Hb. unfold try_begin_attempt.
  destruct (state_kind _ _); [| |destruct (is_some _)]; simpl; auto with gate.
  apply put_health_wf; [done|]. destruct (health_entry_wf b id Hb).
  pose proof (wrapping_next_range (rh_next_probe_id (health_entry b id))).
  solve_health_wf. intros p [= <-]. done.
Qed.

Lemma finish_guard_wf b g o now : book_wf b → is_i64 now → book_wf (finish_guard b g o now).
Proof.
  intros Hb Hnow. destruct g as [id t], o as [st lat|st et em|]; simpl.
  - unfold finish_success. set (s1 := match opt_filter _ _ with Some _ => _ | None => _ end).
    assert (health_wf s1) as Hs1.
    { subst s1. destruct (health_entry_wf b id Hb).
      destruct (opt_filter _ _); solve_health_wf. }
    clearbody s1. destruct (negb _); [by apply put_health_wf|].
    apply put_health_wf; [done|]. case_decide; [apply advance_generation_wf|];
      apply release_probe_owner_wf; destruct Hs1; solve_health_wf.
  - unfold finish_failure. destruct (health_entry_wf b id Hb) as [????? Hf ?].
    destruct (negb _); apply put_health_wf; try done; [solve_health_wf|].
    apply advance_generation_wf.
    match goal with |- context [release_probe_owner ?s2 t] => assert (health_wf (release_probe_owner s2 t).2) as Hr end.
    { apply release_probe_owner_wf. solve_health_wf. }
    set (s2 := (release_probe_owner _ t).2) in *. clearbody s2. destruct Hr.
    solve_health_wf. intros u [= <-]. apply i64_sat_add_is_i64.
  - unfold finish_neutral. destruct (by_id b !! id) as [s|] eqn:Hs; [|done].
    pose proof (wf_states _ Hb _ _ Hs) as Hwf.
    destruct (attempt_token_matches s t); [|done].
    pose proof (release_probe_owner_wf s t Hwf) as Hr.
    destruct (release_probe_owner s t) as [[] s']; simpl in Hr; apply put_health_wf; try done.
    destruct Hr; solve_health_wf.
Qed.

(** Every operation of the book keeps every counter, generation, probe id and
    deadline within its Rust type (no arithmetic panic, no lost saturation). *)
Theorem health_operations_preserve_wf b id g o now :
  book_wf b → is_i64 now →
  book_wf (try_begin_attempt b id now).2 ∧ book_wf (finish_guard b g o now)
  ∧ book_wf (reset b id) ∧ book_wf (defer_until b id now).
Proof.
  intros Hb Hnow. split_and!; auto using try_begin_attempt_wf, finish_guard_wf.
  - apply put_health_wf; [done|]. destruct (advance_generation_wf _ (health_entry_wf b id Hb)).
    solve_health_wf.
  - apply put_health_wf; [done|]. apply advance_generation_wf.
    destruct (health_entry_wf b id Hb) as [? ? ? ? ? ? Hu]. solve_health_wf.
    intros u [= <-]. destruct (rh_open_until_ms _) as [v|]; simpl; [specialize (Hu v eq_refl)|]; mlia.
Qed.

(** ** Functional behaviour of results *)
Lemma snapshot_entry b id now :
  hv_state (snapshot b id now) = state_kind (health_entry b id) now
  ∧ hv_available (snapshot b id now) =
      match state_kind (health_entry b id) now with
      | Closed => true | Open => false | HalfOpen => is_none (rh_probe_owner (health_entry b id))
      end.
Proof. unfold snapshot, health_entry. by destruct (by_id b !! id). Qed.

Lemma is_current_entry b g :
  is_current b g = true → attempt_token_matches (health_entry b (hg_id g)) (hg_token g) = true.
Proof.
  unfold is_current. rewrite is_some_and_true. intros (s & Hs & Hm).
  by rewrite (health_entry_Some _ _ _ Hs).
Qed.

Lemma finish_failure_entry b id t st et em now :
  attempt_token_matches (health_entry b id) t = true →
  let n := u32_sat_add (rh_consecutive_failures (health_entry b id)) 1 in
  let configured :=
    if (failure_threshold b <=? n) || bool_decide (state_kind (health_entry b id) now = HalfOpen)
    then open_duration_ms b else 0 in
  let s := health_entry (finish_failure b id t st et em now) id in
  rh_open_until_ms s = Some (i64_sat_add now (cooldown_ms configured n))
  ∧ rh_consecutive_failures s = n ∧ rh_probe_owner s = None
  ∧ rh_generation s = wrapping_next (rh_generation (health_entry b id)).
Proof.
  intros Hm. unfold finish_failure.
  change (attempt_token_matches (set_rh_failure_count _ (health_entry b id)) t)
    with (attempt_token_matches (health_entry b id) t). rewrite Hm. cbv zeta.
  rewrite health_entry_put decide_True //.
  match goal with |- context [release_probe_owner ?s2 t] =>
    destruct (release_probe_owner_cases s2 t) as [-> | ->] end; done.
Qed.

(** A failure reported by a current attempt stops traffic to the endpoint or
    key at once, even below the breaker threshold: for at least the 30 s base
    cooldown the circuit is open and no new attempt begins. *)
Theorem health_failure_opens_at_once b g st et em now t :
  book_wf b → is_current b g = true → is_i64 now →
  t < i64_sat_add now COOLDOWN_BASE_MS →
  let b' := finish_guard b g (Failure st et em) now in
  hv_state (snapshot b' (hg_id g) t) = Open
  ∧ hv_available (snapshot b' (hg_id g) t) = false
  ∧ (try_begin_attempt b' (hg_id g) t).1 = None.
Proof.
  intros Hb Hc Hnow Ht b'. apply is_current_entry in Hc.
  destruct (finish_failure_entry b (hg_id g) (hg_token g) st et em now Hc) as (Hopen & _).
  change (finish_failure b (hg_id g) (hg_token g) st et em now) with b' in Hopen.
  assert (state_kind (health_entry b' (hg_id g)) t = Open) as Hk.
  { unfold state_kind. rewrite Hopen. rewrite (proj2 (Z.ltb_lt _ _)); [done|].
    eapply Z.lt_le_trans; [exact Ht|]. apply i64_sat_add_mono; [lia|].
    apply cooldown_ms_pos; [|destruct (health_entry_wf b (hg_id g) Hb); mlia].
    destruct Hb. destruct (_ || _); mlia. }
  destruct (snapshot_entry b' (hg_id g) t) as [-> ->]. rewrite Hk.
  split_and!; [done..|]. unfold try_begin_attempt. by rewrite Hk.
Qed.

(** A result with a token that does not match touches only the running totals. *)
Lemma finish_stale_entry b g o now s :
  by_id b !! hg_id g = Some s → attempt_token_matches s (hg_token g) = false →
  let s' := health_entry (finish_guard b g o now) (hg_id g) in
  rh_open_until_ms s' = rh_open_until_ms s ∧ rh_probe_owner s' = rh_probe_owner s
  ∧ rh_consecutive_failures s' = rh_consecutive_failures s.
Proof.
  intros Hs Hm. pose proof (health_entry_Some _ _ _ Hs) as He.
  destruct o as [st lat|st et em|]; simpl.
  - unfold finish_success. rewrite He. set (s1 := match opt_filter _ _ with Some _ => _ | None => _ end).
    assert (attempt_token_matches s1 (hg_token g) = false) as Hm1
      by (subst s1; destruct (opt_filter _ _); done).
    rewrite Hm1 /= health_entry_put decide_True //. subst s1. by destruct (opt_filter _ _).
  - unfold finish_failure. rewrite He.
    change (attempt_token_matches (set_rh_failure_count _ s) (hg_token g))
      with (attempt_token_matches s (hg_token g)).
    by rewrite Hm /= health_entry_put decide_True.
  - unfold finish_neutral. by rewrite Hs Hm He.
Qed.

(** A result that arrives for an attempt that is no longer current (its
    circuit opened, was reset or deferred meanwhile) leaves every circuit as it
    was: no state, no availability, no open deadline changes. *)
Theorem health_stale_result_ignored b g o now id t :
  is_Some (by_id b !! hg_id g) → is_current b g = false →
  let b' := finish_guard b g o now in
  hv_state (snapshot b' id t) = hv_state (snapshot b id t)
  ∧ hv_available (snapshot b' id t) = hv_available (snapshot b id t)
  ∧ hv_open_until_ms (snapshot b' id t) = hv_open_until_ms (snapshot b id t)
  ∧ hv_consecutive_failures (snapshot b' id t) = hv_consecutive_failures (snapshot b id t).
Proof.
  intros [s Hs] Hc b'. unfold is_current in Hc. rewrite Hs /= in Hc.
  assert (rh_open_until_ms (health_entry b' id) = rh_open_until_ms (health_entry b id)
    ∧ rh_probe_owner (health_entry b' id) = rh_probe_owner (health_entry b id)
    ∧ rh_consecutive_failures (health_entry b' id) = rh_consecutive_failures (health_entry b id))
    as (Hou & Hpo & Hcf).
  { destruct (decide (hg_id g = id)) as [<-|Hne]; [|by rewrite /b' finish_guard_other].
    rewrite (health_entry_Some _ _ _ Hs). by apply finish_stale_entry. }
  assert (∀ b0, hv_open_until_ms (snapshot b0 id t) =
      match state_kind (health_entry b0 id) t with Open => rh_open_until_ms (health_entry b0 id) | _ => None end
    ∧ hv_consecutive_failures (snapshot b0 id t) = rh_consecutive_failures (health_entry b0 id)) as Hv.
  { intros b0. unfold snapshot, health_entry. by destruct (by_id b0 !! id). }
  destruct (Hv b) as [-> ->], (Hv b') as [-> ->].
  destruct (snapshot_entry b id t) as [-> ->], (snapshot_entry b' id t) as [-> ->].
  unfold state_kind. by rewrite Hou Hpo Hcf.
Qed.

Lemma finish_success_entry b id t st lat now :
  attempt_token_matches (health_entry b id) t = true →
  let s := health_entry (finish_success b id t st lat now) id in
  rh_open_until_ms s = None ∧ rh_consecutive_failures s = 0
  ∧ (state_kind (health_entry b id) now = HalfOpen →
     rh_generation s = wrapping_next (rh_generation (health_entry b id))).
Proof.
  intros Hm. unfold finish_success. set (s1 := match opt_filter _ _ with Some _ => _ | None => _ end).
  assert (attempt_token_matches s1 t = true ∧ state_kind s1 now = state_kind (health_entry b id) now
    ∧ rh_generation s1 = rh_generation (health_entry b id)) as (Hm1 & Hk & Hg)
    by (subst s1; destruct (opt_filter _ _); done).
  clearbody s1. rewrite Hm1. cbv zeta. rewrite health_entry_put decide_True //. cbn [negb].
  match goal with |- context [release_probe_owner ?s2 t] =>
    destruct (release_probe_owner_cases s2 t) as [-> | ->] end;
    rewrite Hk; case_decide; simpl; rewrite ?Hg; split_and!; try done; congruence.
Qed.

Lemma wrapping_next_ne n : 1 <= n <= u64_max → wrapping_next n ≠ n.
Proof.
  intros Hn. destruct (decide (n = u64_max)) as [->|]; [by vm_compute|].
  rewrite wrapping_next_small; mlia.
Qed.

(** The success of a half-open probe closes the circuit for every later time
    and retires every other attempt still in flight on it: their late results can
    no longer change the circuit. *)
Theorem health_probe_success_closes b g g' st lat now t :
  book_wf b → is_current b g = true →
  hv_state (snapshot b (hg_id g) now) = HalfOpen →
  is_current b g' = true → hg_id g' = hg_id g →
  let b' := finish_guard b g (Success st lat) now in
  hv_state (snapshot b' (hg_id g) t) = Closed
  ∧ hv_available (snapshot b' (hg_id g) t) = true
  ∧ hv_consecutive_failures (snapshot b' (hg_id g) t) = 0
  ∧ is_current b' g' = false.
Proof.
  intros Hb Hc Hk Hc' Hid b'. apply is_current_entry in Hc.
  destruct (snapshot_entry b (hg_id g) now) as [Hk' _]. rewrite Hk' in Hk.
  destruct (finish_success_entry b (hg_id g) (hg_token g) st lat now Hc) as (Hou & Hcf & Hgen).
  specialize (Hgen Hk). change (finish_success b (hg_id g) (hg_token g) st lat now) with b' in *.
  destruct (snapshot_entry b' (hg_id g) t) as [-> ->]. unfold state_kind. rewrite Hou.
  split_and!; [done..| |].
  - unfold snapshot, health_entry in *. by destruct (by_id b' !! hg_id g).
  - apply is_current_entry in Hc'. rewrite Hid in Hc'.
    unfold is_current. rewrite Hid. unfold health_entry in Hgen at 1.
    destruct (by_id b' !! hg_id g) as [s'|]; simpl in *; [|done].
    unfold attempt_token_matches in *. rewrite Hgen.
    apply andb_true_iff in Hc' as [<-%Z.eqb_eq _].
    rewrite (proj2 (Z.eqb_neq _ _)); [done|]. apply wrapping_next_ne.
    by destruct (health_entry_wf b (hg_id g) Hb).
Qed.

(** A concrete execution: two attempts start on id 7, one fails and opens the
    circuit, and a later request becomes the recovery probe. *)
Definition wit_b0 : RuntimeHealthBook := new_health_book 3 30000.
Definition wit_plain : RuntimeHealthAttemptGuard := MkHealthGuard 7 (Token 1 None).
Definition wit_probe : RuntimeHealthAttemptGuard := MkHealthGuard 7 (Token 2 (Some 1)).
Definition wit_b1 : RuntimeHealthBook := (try_begin_attempt wit_b0 7 100).2.
Definition wit_b2 : RuntimeHealthBook := (try_begin_attempt wit_b1 7 101).2.
Definition wit_b3 : RuntimeHealthBook :=
  finish_guard wit_b2 wit_plain (Failure (Some 503) None None) 102.
Definition wit_b4 : RuntimeHealthBook := (try_begin_attempt wit_b3 7 30102).2.

Lemma wit_execution : hreach 3 30000 4 (wit_b4, [wit_probe; wit_plain]).
Proof.
  eapply (hreach_S _ _ 3); [|apply (hstep_begin wit_b3 _ 7 30102); vm_compute; reflexivity].
  eapply (hreach_S _ _ 2); [|apply (hstep_finish wit_b2 [] wit_plain [wit_plain])].
  eapply (hreach_S _ _ 1); [|apply (hstep_begin wit_b1 _ 7 101); vm_compute; reflexivity].
  eapply (hreach_S _ _ 0); [apply hreach_0|apply (hstep_begin wit_b0 _ 7 100); vm_compute; reflexivity].
Qed.

Lemma health_single_current_probe_witness :
  is_current wit_b4 wit_probe = true ∧
  ¬ (is_probe wit_probe = true ∧ is_probe wit_plain = true
     ∧ is_current wit_b4 wit_probe = true ∧ is_current wit_b4 wit_plain = true).
Proof.
  split; [vm_compute; reflexivity|].
  apply (health_single_current_probe 3 30000 4 wit_b4 [] wit_probe [] wit_plain []);
    [exact wit_execution|vm_compute; reflexivity|reflexivity].
Defined.

Lemma health_no_orphan_probe_witness :
  ∃ g, g ∈ [wit_probe; wit_plain] ∧ hg_id g = 7 ∧ is_probe g = true ∧ is_current wit_b4 g = true.
Proof.
  apply (health_no_orphan_probe 3 30000 4 wit_b4 [wit_probe; wit_plain] 7 30103 wit_execution);
    vm_compute; reflexivity.
Defined.

Lemma new_health_book_wf threshold open_ms :
  threshold <= u32_max → open_ms <= i64_max → book_wf (new_health_book threshold open_ms).
Proof. intros ??. split; simpl; try mlia. by intros id s. Qed.

Lemma wit_b3_wf : book_wf wit_b3.
Proof.
  apply finish_guard_wf; [|mlia]. do 2 apply try_begin_attempt_wf.
  apply new_health_book_wf; mlia.
Qed.

Lemma health_operations_preserve_wf_witness :
  book_wf (try_begin_attempt wit_b3 7 30102).2
  ∧ book_wf (finish_guard wit_b3 wit_plain Neutral 30102)
  ∧ book_wf (reset wit_b3 7) ∧ book_wf (defer_until wit_b3 7 30102).
Proof. apply health_operations_preserve_wf; [exact wit_b3_wf|mlia]. Defined.

Lemma health_failure_opens_at_once_witness :
  let b' := finish_guard wit_b4 wit_probe (Failure (Some 500) None None) 30105 in
  hv_state (snapshot b' 7 50000) = Open ∧ hv_available (snapshot b' 7 50000) = false
  ∧ (try_begin_attempt b' 7 50000).1 = None.
Proof.
  apply (health_failure_opens_at_once wit_b4 wit_probe).
  - apply try_begin_attempt_wf, wit_b3_wf.
  - vm_compute; reflexivity.
  - mlia.
  - vm_compute; reflexivity.
Defined.

Lemma health_stale_result_ignored_witness :
  let b' := finish_guard wit_b4 wit_plain (Success (Some 200) (Some 12)) 30105 in
  hv_state (snapshot b' 7 30106) = hv_state (snapshot wit_b4 7 30106)
  ∧ hv_available (snapshot b' 7 30106) = hv_available (snapshot wit_b4 7 30106)
  ∧ hv_open_until_ms (snapshot b' 7 30106) = hv_open_until_ms (snapshot wit_b4 7 30106)
  ∧ hv_consecutive_failures (snapshot b' 7 30106) = hv_consecutive_failures (snapshot wit_b4 7 30106).
Proof.
  apply (health_stale_result_ignored wit_b4 wit_plain).
  - eexists. vm_compute. reflexivity.
  - vm_compute; reflexivity.
Defined.

Lemma health_probe_success_closes_witness :
  let b' := finish_guard wit_b4 wit_probe (Success (Some 200) (Some 12)) 30105 in
  hv_state (snapshot b' 7 30106) = Closed ∧ hv_available (snapshot b' 7 30106) = true
  ∧ hv_consecutive_failures (snapshot b' 7 30106) = 0 ∧ is_current b' wit_probe = false.
Proof.
  apply (health_probe_success_closes wit_b4 wit_probe wit_probe).
  - apply try_begin_attempt_wf, wit_b3_wf.
  - vm_compute; reflexivity.
  - vm_compute; reflexivity.
  - vm_compute; reflexivity.
  - reflexivity.
Defined.
