(* ===== verification/Json.v ===== *)
(** * Json: [serde_json::Value] as the source matches on it

    Objects are [BTreeMap]s: association lists with strictly increasing keys. A
    number keeps its text (the crate is built with [arbitrary_precision]).
    Parsing and printing bytes belong to the crate and are parameters where used. *)
From Stdlib Require Import Ascii String.
From S2P Require Import Prelude Float64 Text.

Inductive Value :=
  | Null
  | Bool (b : bool)
  | Number (text : string)
  | String (s : string)
  | Array (items : list Value)
  | Object (fields : list (string * Value)).

(** [Map::get] *)
Fixpoint assoc {V} (key : string) (l : list (string * V)) : option V :=
  match l with
  | [] => None
  | (k, v) :: l' => if String.eqb k key then Some v else assoc key l'
  end.

(** Byte-wise order of strings, the order of [BTreeMap<String, _>]. *)
Definition str_leb (a b : string) : bool :=
  match String.compare a b with Gt => false | _ => true end.

(** [Map::insert]: replaces the value of an existing key. *)
Fixpoint assoc_insert {V} (key : string) (v : V) (l : list (string * V)) : list (string * V) :=
  match l with
  | [] => [(key, v)]
  | (k, w) :: l' =>
      if String.eqb k key then (key, v) :: l'
      else if str_leb key k then (key, v) :: l
      else (k, w) :: assoc_insert key v l'
  end.

(** [Map::remove] (a map has one entry per key). *)
Fixpoint assoc_remove {V} (key : string) (l : list (string * V)) : list (string * V) :=
  match l with
  | [] => []
  | (k, w) :: l' => if String.eqb k key then assoc_remove key l' else (k, w) :: assoc_remove key l'
  end.

(** [Value::get] with a string index. *)
Definition get (key : string) (v : Value) : option Value :=
  match v with Object fields => assoc key fields | _ => None end.
Definition as_str (v : Value) : option string :=
  match v with String s => Some s | _ => None end.
Definition as_array (v : Value) : option (list Value) :=
  match v with Array l => Some l | _ => None end.
Definition as_object (v : Value) : option (list (string * Value)) :=
  match v with Object l => Some l | _ => None end.
Definition as_i64 (v : Value) : option Z :=
  match v with Number t => parse_i64 t | _ => None end.
Definition as_u64 (v : Value) : option Z :=
  match v with Number t => parse_u64 t | _ => None end.
Definition is_null (v : Value) : bool := match v with Null => true | _ => false end.

(** [Value::pointer] along object keys. *)
Fixpoint pointer (path : list string) (v : Value) : option Value :=
  match path with
  | [] => Some v
  | k :: path' => match get k v with Some v' => pointer path' v' | None => None end
  end.

Lemma str_leb_antisym a b : str_leb a b → str_leb b a → a = b.
Proof.
  unfold str_leb. rewrite (String.compare_antisym b a). intros Ha Hb. apply String.compare_eq_iff.
  destruct (String.compare a b); cbn in *; by try destruct Ha; try destruct Hb.
Qed.

Lemma ascii_compare_N a b : Ascii.compare a b = N.compare (N_of_ascii a) (N_of_ascii b).
Proof. done. Qed.

Lemma str_leb_trans a b c : str_leb a b → str_leb b c → str_leb a c.
Proof.
  unfold str_leb. revert b c. induction a as [|x a IH]; intros [|y b] [|z c]; cbn [String.compare]; try done.
  rewrite !ascii_compare_N.
  destruct (N.compare_spec (N_of_ascii x) (N_of_ascii y)), (N.compare_spec (N_of_ascii y) (N_of_ascii z)),
    (N.compare_spec (N_of_ascii x) (N_of_ascii z)); try done; try lia. apply IH.
Qed.

Lemma assoc_insert_eq {V} k (v : V) l : assoc k (assoc_insert k v l) = Some v.
Proof.
  induction l as [|[k' w] l IH]; simpl; [by rewrite String.eqb_refl|].
  destruct (String.eqb k' k) eqn:E; simpl; [by rewrite String.eqb_refl|].
  destruct (str_leb k k'); simpl; [by rewrite String.eqb_refl|]. by rewrite E.
Qed.

Lemma assoc_insert_ne {V} k k' (v : V) l :
  k ≠ k' → assoc k' (assoc_insert k v l) = assoc k' l.
Proof.
  intros Hne. assert (String.eqb k k' = false) as Hk by by apply String.eqb_neq.
  induction l as [|[k2 w] l IH]; simpl; [by rewrite Hk|].
  destruct (String.eqb_spec k2 k) as [->|]; simpl; [by rewrite Hk|].
  destruct (str_leb k k2); simpl; [by rewrite Hk|].
  by destruct (String.eqb k2 k').
Qed.

Lemma assoc_remove_eq {V} k (l : list (string * V)) : assoc k (assoc_remove k l) = None.
Proof.
  induction l as [|[k' w] l IH]; simpl; [done|]. destruct (String.eqb k' k) eqn:E; [done|]. simpl. by rewrite E.
Qed.

Lemma assoc_remove_ne {V} k k' (l : list (string * V)) :
  k ≠ k' → assoc k' (assoc_remove k l) = assoc k' l.
Proof.
  intros Hne. induction l as [|[k2 w] l IH]; simpl; [done|].
  destruct (String.eqb_spec k2 k) as [->|]; simpl.
  - by rewrite (proj2 (String.eqb_neq k k')).
  - by destruct (String.eqb k2 k').
Qed.

Definition as_bool (v : Value) : option bool := match v with Bool b => Some b | _ => None end.
Definition is_string (v : Value) : bool := match v with String _ => true | _ => false end.
Definition contains_key {V} (key : string) (l : list (string * V)) : bool := is_some (assoc key l).

(** [json!({ ... })]: the fields are inserted in the order they are written. *)
Definition json_fields (l : list (string * Value)) : list (string * Value) :=
  foldl (λ m '(k, v), assoc_insert k v m) [] l.
Definition json_obj (l : list (string * Value)) : Value := Object (json_fields l).
Definition json_i64 (z : Z) : Value := Number (show_Z z).
Definition json_opt (o : option Value) : Value := unwrap_or o Null.

(** The last of the fields written under a name is the one read. *)
Lemma get_json_fields key (l m : list (string * Value)) :
  assoc key (foldl (λ m '(k, v), assoc_insert k v m) m l) =
    match assoc key (reverse l) with Some v => Some v | None => assoc key m end.
Proof.
  induction l as [|[k v] l IH] using rev_ind; [done|]. rewrite foldl_app reverse_app /=.
  destruct (String.eqb_spec k key) as [->|Hne]; [by rewrite assoc_insert_eq|]. by rewrite assoc_insert_ne.
Qed.

Lemma get_json_obj key l : get key (json_obj l) = assoc key (reverse l).
Proof. unfold json_obj, get, json_fields. rewrite get_json_fields. by destruct (assoc key (reverse l)). Qed.

Lemma as_i64_json z : is_i64 z → as_i64 (json_i64 z) = Some z.
Proof. apply parse_i64_show. Qed.

(** ** Ordered association lists: [BTreeMap<String, _>] *)
Section Ordered.
Context {V : Type}.
Implicit Types l : list (string * V).

Definition key_before (a b : string * V) : Prop := str_leb a.1 b.1 ∧ a.1 ≠ b.1.
Definition ordered l : Prop := StronglySorted key_before l.

Lemma str_leb_total a b : str_leb a b = false → str_leb b a.
Proof. unfold str_leb. rewrite (String.compare_antisym a b). by destruct (String.compare b a). Qed.

Lemma key_before_trans a b c : key_before a b → key_before b c → key_before a c.
Proof.
  intros [H1 N1] [H2 N2]. split; [by eapply str_leb_trans|]. intros E. rewrite E in H1.
  by apply N2, str_leb_antisym.
Qed.

Lemma elem_of_assoc_insert k v l x : x ∈ assoc_insert k v l → x = (k, v) ∨ x ∈ l.
Proof.
  induction l as [|[k' w] l IH]; simpl; [set_solver|].
  destruct (String.eqb k' k); [set_solver|]. destruct (str_leb k k'); set_solver.
Qed.

Lemma assoc_insert_ordered k v l : ordered l → ordered (assoc_insert k v l).
Proof.
  induction l as [|[k' w] l IH]; intros Ho; simpl; [by repeat constructor|].
  apply StronglySorted_cons in Ho as [Hall Hl]. rewrite Forall_forall in Hall.
  destruct (String.eqb_spec k' k) as [->|Hne]; [|destruct (str_leb k k') eqn:El].
  - apply StronglySorted_cons. split; [|done]. by apply Forall_forall.
  - assert (key_before (k, v) (k', w)) as Hk by (split; simpl; [by rewrite El|by intros ->]).
    apply StronglySorted_cons. split; [|by apply StronglySorted_cons; split; [apply Forall_forall|]].
    apply Forall_forall. intros x [->|Hx]%elem_of_cons; [done|]. eapply key_before_trans; [exact Hk|by apply Hall].
  - apply StronglySorted_cons. split; [|by apply IH]. apply Forall_forall.
    intros x [->|Hx]%elem_of_assoc_insert; [|by apply Hall]. split; simpl; [by apply str_leb_total|done].
Qed.

Lemma ordered_NoDup l : ordered l → NoDup l.*1.
Proof.
  induction l as [|[k v] l IH]; [constructor|]. intros [Hall Hl]%StronglySorted_cons.
  rewrite fmap_cons. constructor; [|by apply IH]. intros ([k' w] & E & Hx)%list_elem_of_fmap. simpl in E. subst k'.
  rewrite Forall_forall in Hall. by destruct (Hall _ Hx) as [_ []].
Qed.

Lemma assoc_Some_elem k v l : assoc k l = Some v → (k, v) ∈ l.
Proof.
  induction l as [|[k' w] l IH]; simpl; [done|]. destruct (String.eqb_spec k' k) as [->|]; [|set_solver].
  intros [= ->]. set_solver.
Qed.

Lemma assoc_elem k v l : NoDup l.*1 → (k, v) ∈ l → assoc k l = Some v.
Proof.
  induction l as [|[k' w] l IH]; simpl; [set_solver|]. intros [Hn Hd]%NoDup_cons [E|Hx]%elem_of_cons.
  - injection E as -> ->. by rewrite String.eqb_refl.
  - destruct (String.eqb_spec k' k) as [->|]; [|by apply IH]. exfalso. apply Hn, list_elem_of_fmap. by exists (k, v).
Qed.

Lemma assoc_None_elem k l : assoc k l = None ↔ k ∉ l.*1.
Proof.
  induction l as [|[k' w] l IH]; simpl; [set_solver|]. destruct (String.eqb_spec k' k) as [->|Hne]; set_solver.
Qed.
End Ordered.

(** [value[key]]: [Null] where there is nothing. *)
Definition index (key : string) (v : Value) : Value := unwrap_or (get key v) Null.
Definition is_text (s : string) (v : Value) : bool := is_some_and (as_str v) (String.eqb s).

(** Equality of values ([PartialEq]); numbers are equal when their texts are. *)
Fixpoint value_eqb (a b : Value) : bool :=
  match a, b with
  | Null, Null => true
  | Bool x, Bool y => Bool.eqb x y
  | Number x, Number y => String.eqb x y
  | String x, String y => String.eqb x y
  | Array l, Array m =>
      (fix go (l m : list Value) : bool :=
         match l, m with
         | [], [] => true
         | x :: l, y :: m => value_eqb x y && go l m
         | _, _ => false
         end) l m
  | Object l, Object m =>
      (fix go (l m : list (string * Value)) : bool :=
         match l, m with
         | [], [] => true
         | (k, x) :: l, (k', y) :: m => String.eqb k k' && value_eqb x y && go l m
         | _, _ => false
         end) l m
  | _, _ => false
  end.

Lemma value_eqb_spec : ∀ a b : Value, value_eqb a b = true ↔ a = b.
Proof.
  fix spec 1. intros a b. destruct a as [|x|x|x|l|l], b as [|y|y|y|m|m]; cbn; try (split; [done|congruence]); try done.
  - rewrite Bool.eqb_true_iff. split; [by intros ->|congruence].
  - rewrite String.eqb_eq. split; [by intros ->|congruence].
  - rewrite String.eqb_eq. split; [by intros ->|congruence].
  - revert m. induction l as [|x l IH]; intros [|y m]; try (split; [done|congruence]).
    rewrite andb_true_iff spec IH. split; [intros [-> E]; congruence|intros [= -> ->]; done].
  - revert m. induction l as [|[k x] l IH]; intros [|[k' y] m]; try (split; [done|congruence]).
    rewrite !andb_true_iff spec IH String.eqb_eq.
    split; [intros [[-> ->] E]; congruence|intros [= -> -> ->]; done].
Qed.
