(* ===== verification/Types.v ===== *)
(** * Types: the configuration records shared by the components

    Models [types.rs], the override rules of [request_overrides.rs] and the route
    policies of [db/upstream_config.rs], field by field. *)
From Stdlib Require Import String.
From S2P Require Import Prelude Json.

(** ** request_overrides.rs *)
Inductive RequestOverrideScope := ScopeAll | ScopeChatCompletions | ScopeResponses.
Inductive RequestOverrideOperation := OverrideSet | OverrideRemove.

Record RequestHeaderOverride := MkHeaderOverride {
  ho_scope : RequestOverrideScope;
  ho_operation : RequestOverrideOperation;
  ho_name : string;
  ho_value : string
}.

Record RequestBodyOverride := MkBodyOverride {
  bo_scope : RequestOverrideScope;
  bo_operation : RequestOverrideOperation;
  bo_path : string;
  bo_value : Value
}.

Record RequestOverrides := MkOverrides {
  ov_headers : list RequestHeaderOverride;
  ov_body : list RequestBodyOverride
}.

(** ** types.rs *)
Record ProviderGroupRef := MkGroupRef { gr_id : Z; gr_name : string }.

Record ApiKeyAuth := MkApiKeyAuth {
  ak_id : Z;
  ak_enabled : bool;
  ak_expires_at_ms : option Z;
  ak_log_enabled : bool;
  ak_name : string;
  ak_provider_groups : list ProviderGroupRef;
  ak_allowed_provider_ids : list Z
}.

Record UpstreamProvider := MkProvider {
  up_request_timeout_ms : option Z;
  up_endpoint_failover : bool;
  up_id : Z;
  up_name : string;
  up_provider_type : string;
  up_enabled : bool;
  up_priority : Z;
  up_weight : Z;
  up_supports_include_usage : bool;
  up_websocket_enabled : bool;
  up_beta_features : list string;
  up_request_overrides : RequestOverrides;
  up_key_selection_strategy : string;
  up_max_attempts : Z;
  up_max_concurrency : option Z;
  up_circuit_breaker_enabled : bool;
  up_circuit_breaker_failure_threshold : Z;
  up_circuit_breaker_open_ms : Z;
  up_circuit_breaker_half_open_success_threshold : Z
}.

Record ProviderGroupMembership := MkMembership {
  gm_group_id : Z;
  gm_group_name : string;
  gm_priority_override : option Z
}.

Record UpstreamKey := MkKey {
  uk_id : Z;
  uk_provider_id : Z;
  uk_name : string;
  uk_secret : string;
  uk_enabled : bool;
  uk_priority : Z;
  uk_weight : Z
}.

Record UpstreamKeyModel := MkKeyModel {
  km_id : Z;
  km_upstream_key_id : Z;
  km_model_name : string;
  km_enabled : bool;
  km_created_at_ms : Z;
  km_updated_at_ms : Z
}.

Record UpstreamEndpoint := MkEndpoint {
  ue_id : Z;
  ue_provider_id : Z;
  ue_name : string;
  ue_base_url : string;
  ue_enabled : bool;
  ue_priority : Z;
  ue_weight : Z
}.

Record ProviderModel := MkProviderModel {
  pm_id : Z;
  pm_provider_id : Z;
  pm_upstream_model : string;
  pm_alias : option string;
  pm_enabled : bool;
  pm_available : bool;
  pm_responses_via_chat_enabled : bool;
  pm_created_at_ms : Z;
  pm_updated_at_ms : Z
}.

Record GatewayModelPolicy := MkModelPolicy {
  mp_model_name : string;
  mp_enabled : bool;
  mp_created_at_ms : Z;
  mp_updated_at_ms : Z
}.

Record ModelRoute := MkModelRoute {
  mr_id : Z;
  mr_model_name : string;
  mr_enabled : bool;
  mr_provider_ids : list Z
}.

Record ModelAlias := MkModelAlias {
  ma_id : Z;
  ma_name : string;
  ma_enabled : bool;
  ma_mode : string;
  ma_created_at_ms : Z;
  ma_updated_at_ms : Z
}.

Record ModelAliasTarget := MkAliasTarget {
  at_id : Z;
  at_alias_id : Z;
  at_provider_id : Z;
  at_upstream_model : string;
  at_enabled : bool;
  at_priority : Z;
  at_weight : Z;
  at_created_at_ms : Z;
  at_updated_at_ms : Z
}.

Record Usage := MkUsage {
  us_input_tokens : Z;
  us_output_tokens : Z;
  us_cache_read_input_tokens : Z;
  us_cache_creation_input_tokens : Z;
  us_reasoning_output_tokens : Z
}.

Inductive ApiFormat := ChatCompletions | Responses.

#[export] Instance ApiFormat_eq_dec : EqDecision ApiFormat.
Proof. solve_decision. Defined.

(** ** db/upstream_config.rs *)
Record RouteTarget := MkRouteTarget {
  rt_provider_id : Z;
  rt_priority : Z;
  rt_weight : Z
}.

Record RoutePolicy := MkRoutePolicy {
  rp_model_name : string;
  rp_mode : string;
  rp_sticky : bool;
  rp_failover : bool;
  rp_targets : list RouteTarget
}.
