(* ===== verification/HealthSummary.v ===== *)
(** * HealthSummary: the health of a provider from its endpoints and keys

    Models [summarize_provider_health] and [summarize_children] of [health.rs],
    over the books of [RuntimeHealth]. *)
From Stdlib Require Import String.
From S2P Require Import Prelude Float64 RuntimeHealth Types.

Record HealthCounts := MkCounts {
  hc_total : Z;
  hc_disabled : Z;
  hc_closed : Z;
  hc_half_open : Z;
  hc_open : Z;
  hc_available : Z
}.

Definition default_counts : HealthCounts := MkCounts 0 0 0 0 0 0.

Definition set_hc_total (v : Z) (c : HealthCounts) :=
  MkCounts v (hc_disabled c) (hc_closed c) (hc_half_open c) (hc_open c) (hc_available c).
Definition set_hc_disabled (v : Z) (c : HealthCounts) :=
  MkCounts (hc_total c) v (hc_closed c) (hc_half_open c) (hc_open c) (hc_available c).
Definition set_hc_closed (v : Z) (c : HealthCounts) :=
  MkCounts (hc_total c) (hc_disabled c) v (hc_half_open c) (hc_open c) (hc_available c).
Definition set_hc_half_open (v : Z) (c : HealthCounts) :=
  MkCounts (hc_total c) (hc_disabled c) (hc_closed c) v (hc_open c) (hc_available c).
Definition set_hc_open (v : Z) (c : HealthCounts) :=
  MkCounts (hc_total c) (hc_disabled c) (hc_closed c) (hc_half_open c) v (hc_available c).
Definition set_hc_available (v : Z) (c : HealthCounts) :=
  MkCounts (hc_total c) (hc_disabled c) (hc_closed c) (hc_half_open c) (hc_open c) v.

Record ProviderHealthView := MkProviderHealth {
  ph_state : CircuitState;
  ph_available : bool;
  ph_consecutive_failures : Z;
  ph_success_count : Z;
  ph_failure_count : Z;
  ph_last_status : option Z;
  ph_last_error_type : option string;
  ph_last_error_message : option string;
  ph_latency_ewma_ms : option Z;
  ph_open_until_ms : option Z;
  ph_last_success_at_ms : option Z;
  ph_last_failure_at_ms : option Z;
  ph_updated_at_ms : option Z;
  ph_endpoint_counts : HealthCounts;
  ph_key_counts : HealthCounts
}.

Definition default_provider_health : ProviderHealthView :=
  MkProviderHealth Closed false 0 0 0 None None None None None None None None default_counts default_counts.

Section Children.
Context {T : Type} (id : T → Z) (enabled : T → bool) (book : RuntimeHealthBook) (now_ms : Z).

(** One iteration of the loop of [summarize_children]. *)
Definition count_child (acc : HealthCounts * list RuntimeHealthView) (item : T)
    : HealthCounts * list RuntimeHealthView :=
  let '(counts, views) := acc in
  let counts := set_hc_total (u32_sat_add (hc_total counts) 1) counts in
  if negb (enabled item) then (set_hc_disabled (u32_sat_add (hc_disabled counts) 1) counts, views)
  else
    let view := snapshot book (id item) now_ms in
    let counts := if hv_available view
                  then set_hc_available (u32_sat_add (hc_available counts) 1) counts else counts in
    let counts := match hv_state view with
                  | Closed => set_hc_closed (u32_sat_add (hc_closed counts) 1) counts
                  | HalfOpen => set_hc_half_open (u32_sat_add (hc_half_open counts) 1) counts
                  | Open => set_hc_open (u32_sat_add (hc_open counts) 1) counts
                  end in
    (counts, views ++ [view]).

Definition summarize_children (items : list T) : HealthCounts * list RuntimeHealthView :=
  foldl count_child (default_counts, []) items.

(** The enabled items with a view satisfying [f]. *)
Definition count_if (f : RuntimeHealthView → bool) (items : list T) : Z :=
  Z.of_nat (length (List.filter (λ i, enabled i && f (snapshot book (id i) now_ms)) items)).

Definition in_state (k : CircuitState) (v : RuntimeHealthView) : bool :=
  bool_decide (hv_state v = k).

Lemma count_if_nonneg f items : 0 <= count_if f items.
Proof. unfold count_if. lia. Qed.

Lemma count_if_app f l i :
  count_if f (l ++ [i]) =
    count_if f l + (if enabled i && f (snapshot book (id i) now_ms) then 1 else 0).
Proof.
  unfold count_if. rewrite List.filter_app length_app /=.
  destruct (enabled i && _); simpl; lia.
Qed.

(** The counters are what they are called, for any realistic number of children. *)
Lemma summarize_children_spec items :
  Z.of_nat (length items) <= u32_max →
  let '(c, views) := summarize_children items in
  hc_total c = Z.of_nat (length items)
  ∧ hc_disabled c = hc_total c - count_if (λ _, true) items
  ∧ hc_closed c = count_if (in_state Closed) items
  ∧ hc_half_open c = count_if (in_state HalfOpen) items
  ∧ hc_open c = count_if (in_state Open) items
  ∧ hc_available c = count_if hv_available items
  ∧ views = map (λ i, snapshot book (id i) now_ms) (List.filter enabled items).
Proof.
  unfold summarize_children. induction items as [|i items IH] using rev_ind; intros Hlen; [done|].
  rewrite foldl_app length_app /= in Hlen |- *.
  assert (∀ f, count_if f items <= Z.of_nat (length items)) as Hle.
  { intros f. unfold count_if. pose proof (List.filter_length_le (λ i, enabled i && f (snapshot book (id i) now_ms)) items). lia. }
  destruct (foldl count_child (default_counts, []) items) as [c views].
  destruct IH as (Ht & Hd & Hc & Hh & Ho & Ha & Hv); [lia|]. unfold count_child.
  rewrite !count_if_app List.filter_app map_app /=.
  pose proof (Hle (λ _, true)). pose proof (Hle (in_state Closed)).
  pose proof (Hle (in_state HalfOpen)). pose proof (Hle (in_state Open)). pose proof (Hle hv_available).
  pose proof (count_if_nonneg (λ _, true) items).
  destruct (enabled i); simpl.
  - unfold in_state at 2 4 6. destruct (hv_available _), (hv_state _); simpl;
      rewrite ?bool_decide_true ?bool_decide_false // Ht Hd Hc Hh Ho Ha Hv;
      split_and!; try done; unfold u32_sat_add; mlia.
  - rewrite Ht Hd Hc Hh Ho Ha Hv app_nil_r. split_and!; try done; unfold u32_sat_add; mlia.
Qed.

Lemma count_if_pos f items :
  0 < count_if f items ↔ ∃ i, i ∈ items ∧ enabled i = true ∧ f (snapshot book (id i) now_ms) = true.
Proof.
  unfold count_if. split.
  - intros H. destruct (List.filter _ items) as [|i l] eqn:E; [done|].
    assert (In i (List.filter (λ i, enabled i && f (snapshot book (id i) now_ms)) items)) as Hin
      by (rewrite E; by left).
    apply List.filter_In in Hin as [Hin [? ?]%andb_true_iff]. exists i.
    by rewrite list_elem_of_In.
  - intros (i & Hin & He & Hf). apply list_elem_of_In in Hin.
    assert (In i (List.filter (λ i, enabled i && f (snapshot book (id i) now_ms)) items)) as Hin'
      by (apply List.filter_In; by rewrite He Hf).
    destruct (List.filter _ items); [done|simpl; lia].
Qed.
End Children.

(** ** The provider's summary *)
Definition sum_u64 (l : list Z) : Z := u64_wrap (sum_Z l).

Definition summarize_provider_health (endpoints : list UpstreamEndpoint) (keys : list UpstreamKey)
    (endpoint_health key_health : RuntimeHealthBook) (now_ms : Z) : ProviderHealthView :=
  let '(endpoint_counts, endpoint_views) :=
    summarize_children ue_id ue_enabled endpoint_health now_ms endpoints in
  let '(key_counts, key_views) := summarize_children uk_id uk_enabled key_health now_ms keys in
  let available := (0 <? hc_available endpoint_counts) && (0 <? hc_available key_counts) in
  let state := if negb available then Open
               else if (0 <? hc_closed endpoint_counts) && (0 <? hc_closed key_counts) then Closed
               else HalfOpen in
  let views := endpoint_views ++ key_views in
  let latest := max_by_key (λ v, unwrap_or (hv_updated_at_ms v) 0)
                  (List.filter (λ v, is_some (hv_updated_at_ms v)) views) in
  {| ph_state := state;
     ph_available := available;
     ph_consecutive_failures := unwrap_or (max_opt (map hv_consecutive_failures views)) 0;
     ph_success_count := sum_u64 (map hv_success_count views);
     ph_failure_count := sum_u64 (map hv_failure_count views);
     ph_last_status := match latest with Some v => hv_last_status v | None => None end;
     ph_last_error_type := match latest with Some v => hv_last_error_type v | None => None end;
     ph_last_error_message := match latest with Some v => hv_last_error_message v | None => None end;
     ph_latency_ewma_ms := min_opt (omap hv_latency_ewma_ms endpoint_views);
     ph_open_until_ms := max_opt (omap hv_open_until_ms views);
     ph_last_success_at_ms := max_opt (omap hv_last_success_at_ms views);
     ph_last_failure_at_ms := max_opt (omap hv_last_failure_at_ms views);
     ph_updated_at_ms := max_opt (omap hv_updated_at_ms views);
     ph_endpoint_counts := endpoint_counts;
     ph_key_counts := key_counts |}.

(** A provider is summarised as available exactly when some enabled endpoint
    and some enabled key are available, as open exactly when it is not, and as
    closed only when one of each has a closed circuit. *)
Theorem provider_health_summary endpoints keys eb kb now :
  Z.of_nat (length endpoints) <= u32_max → Z.of_nat (length keys) <= u32_max →
  let v := summarize_provider_health endpoints keys eb kb now in
  (ph_available v = true ↔
    (∃ e, e ∈ endpoints ∧ ue_enabled e = true ∧ hv_available (snapshot eb (ue_id e) now) = true)
    ∧ (∃ k, k ∈ keys ∧ uk_enabled k = true ∧ hv_available (snapshot kb (uk_id k) now) = true))
  ∧ (ph_state v = Open ↔ ph_available v = false)
  ∧ (ph_state v = Closed →
    (∃ e, e ∈ endpoints ∧ ue_enabled e = true ∧ hv_state (snapshot eb (ue_id e) now) = Closed)
    ∧ (∃ k, k ∈ keys ∧ uk_enabled k = true ∧ hv_state (snapshot kb (uk_id k) now) = Closed)).
Proof.
  intros He Hk. unfold summarize_provider_health.
  pose proof (summarize_children_spec ue_id ue_enabled eb now endpoints He) as Hes.
  pose proof (summarize_children_spec uk_id uk_enabled kb now keys Hk) as Hks.
  destruct (summarize_children ue_id _ _ _ _) as [ec ev].
  destruct (summarize_children uk_id _ _ _ _) as [kc kv]. cbn [ph_available ph_state].
  destruct Hes as (_ & _ & Hec & _ & _ & Hea & _), Hks as (_ & _ & Hkc & _ & _ & Hka & _).
  split_and!.
  - by rewrite andb_true_iff !Z.ltb_lt Hea Hka !count_if_pos.
  - destruct (_ && _); simpl; [destruct (_ && _)|]; done.
  - destruct (_ && _); simpl; [|done].
    destruct ((0 <? hc_closed ec) && (0 <? hc_closed kc)) eqn:E; [|done]. intros _.
    apply andb_true_iff in E as [E1%Z.ltb_lt E2%Z.ltb_lt].
    rewrite Hec in E1. rewrite Hkc in E2.
    apply count_if_pos in E1 as (e & ? & ? & Hs%bool_decide_eq_true).
    apply count_if_pos in E2 as (k & ? & ? & Hs'%bool_decide_eq_true). eauto 10.
Qed.

(** Endpoint 7 waits for its probe (half-open), key 9 was never used. *)
Lemma provider_health_summary_witness :
  let v := summarize_provider_health [MkEndpoint 7 1 "a" "https://a" true 100 1]
             [MkKey 9 1 "k" "s" true 100 1] wit_b3 wit_b3 40000 in
  ph_state v = HalfOpen ∧ (ph_state v = Open ↔ ph_available v = false).
Proof.
  split; [vm_compute; reflexivity|].
  apply (provider_health_summary [MkEndpoint 7 1 "a" "https://a" true 100 1]
           [MkKey 9 1 "k" "s" true 100 1] wit_b3 wit_b3 40000); vm_compute; discriminate.
Defined.
