(* ===== verification/ProviderRuntime.v ===== *)
(** * ProviderRuntime: concurrency, circuit breaker and error timeline of a provider

    Models the first half of [provider_runtime.rs] (lines 14-487). Both maps of the
    book are behind locks that every operation holds throughout, so an execution is
    a sequence of operations in any order. A guard keeps the provider's
    configuration of the time it began, as the code does. *)
From Stdlib Require Import String.
From stdpp Require Import pretty.
From S2P Require Import Prelude Float64 ProbeProtocol Resilience RuntimeHealth Json Types.

(** ** State *)
Record ProviderRuntimeState := MkRuntime {
  pr_in_flight : Z;
  pr_generation : Z;
  pr_next_probe_id : Z;
  pr_probe_owner : option Z;
  pr_consecutive_failures : Z;
  pr_success_count : Z;
  pr_failure_count : Z;
  pr_half_open_successes : Z;
  pr_latency_ewma_ms : option f64;
  pr_open_until_ms : option Z;
  pr_last_status : option Z;
  pr_last_error_type : option string;
  pr_last_error_message : option string;
  pr_last_success_at_ms : option Z;
  pr_last_failure_at_ms : option Z
}.

Definition set_pr_in_flight (v : Z) (s : ProviderRuntimeState) : ProviderRuntimeState :=
  MkRuntime v (pr_generation s) (pr_next_probe_id s) (pr_probe_owner s) (pr_consecutive_failures s) (pr_success_count s) (pr_failure_count s) (pr_half_open_successes s) (pr_latency_ewma_ms s) (pr_open_until_ms s) (pr_last_status s) (pr_last_error_type s) (pr_last_error_message s) (pr_last_success_at_ms s) (pr_last_failure_at_ms s).
Definition set_pr_generation (v : Z) (s : ProviderRuntimeState) : ProviderRuntimeState :=
  MkRuntime (pr_in_flight s) v (pr_next_probe_id s) (pr_probe_owner s) (pr_consecutive_failures s) (pr_success_count s) (pr_failure_count s) (pr_half_open_successes s) (pr_latency_ewma_ms s) (pr_open_until_ms s) (pr_last_status s) (pr_last_error_type s) (pr_last_error_message s) (pr_last_success_at_ms s) (pr_last_failure_at_ms s).
Definition set_pr_next_probe_id (v : Z) (s : ProviderRuntimeState) : ProviderRuntimeState :=
  MkRuntime (pr_in_flight s) (pr_generation s) v (pr_probe_owner s) (pr_consecutive_failures s) (pr_success_count s) (pr_failure_count s) (pr_half_open_successes s) (pr_latency_ewma_ms s) (pr_open_until_ms s) (pr_last_status s) (pr_last_error_type s) (pr_last_error_message s) (pr_last_success_at_ms s) (pr_last_failure_at_ms s).
Definition set_pr_probe_owner (v : option Z) (s : ProviderRuntimeState) : ProviderRuntimeState :=
  MkRuntime (pr_in_flight s) (pr_generation s) (pr_next_probe_id s) v (pr_consecutive_failures s) (pr_success_count s) (pr_failure_count s) (pr_half_open_successes s) (pr_latency_ewma_ms s) (pr_open_until_ms s) (pr_last_status s) (pr_last_error_type s) (pr_last_error_message s) (pr_last_success_at_ms s) (pr_last_failure_at_ms s).
Definition set_pr_consecutive_failures (v : Z) (s : ProviderRuntimeState) : ProviderRuntimeState :=
  MkRuntime (pr_in_flight s) (pr_generation s) (pr_next_probe_id s) (pr_probe_owner s) v (pr_success_count s) (pr_failure_count s) (pr_half_open_successes s) (pr_latency_ewma_ms s) (pr_open_until_ms s) (pr_last_status s) (pr_last_error_type s) (pr_last_error_message s) (pr_last_success_at_ms s) (pr_last_failure_at_ms s).
Definition set_pr_success_count (v : Z) (s : ProviderRuntimeState) : ProviderRuntimeState :=
  MkRuntime (pr_in_flight s) (pr_generation s) (pr_next_probe_id s) (pr_probe_owner s) (pr_consecutive_failures s) v (pr_failure_count s) (pr_half_open_successes s) (pr_latency_ewma_ms s) (pr_open_until_ms s) (pr_last_status s) (pr_last_error_type s) (pr_last_error_message s) (pr_last_success_at_ms s) (pr_last_failure_at_ms s).
Definition set_pr_failure_count (v : Z) (s : ProviderRuntimeState) : ProviderRuntimeState :=
  MkRuntime (pr_in_flight s) (pr_generation s) (pr_next_probe_id s) (pr_probe_owner s) (pr_consecutive_failures s) (pr_success_count s) v (pr_half_open_successes s) (pr_latency_ewma_ms s) (pr_open_until_ms s) (pr_last_status s) (pr_last_error_type s) (pr_last_error_message s) (pr_last_success_at_ms s) (pr_last_failure_at_ms s).
Definition set_pr_half_open_successes (v : Z) (s : ProviderRuntimeState) : ProviderRuntimeState :=
  MkRuntime (pr_in_flight s) (pr_generation s) (pr_next_probe_id s) (pr_probe_owner s) (pr_consecutive_failures s) (pr_success_count s) (pr_failure_count s) v (pr_latency_ewma_ms s) (pr_open_until_ms s) (pr_last_status s) (pr_last_error_type s) (pr_last_error_message s) (pr_last_success_at_ms s) (pr_last_failure_at_ms s).
Definition set_pr_latency_ewma_ms (v : option f64) (s : ProviderRuntimeState) : ProviderRuntimeState :=
  MkRuntime (pr_in_flight s) (pr_generation s) (pr_next_probe_id s) (pr_probe_owner s) (pr_consecutive_failures s) (pr_success_count s) (pr_failure_count s) (pr_half_open_successes s) v (pr_open_until_ms s) (pr_last_status s) (pr_last_error_type s) (pr_last_error_message s) (pr_last_success_at_ms s) (pr_last_failure_at_ms s).
Definition set_pr_open_until_ms (v : option Z) (s : ProviderRuntimeState) : ProviderRuntimeState :=
  MkRuntime (pr_in_flight s) (pr_generation s) (pr_next_probe_id s) (pr_probe_owner s) (pr_consecutive_failures s) (pr_success_count s) (pr_failure_count s) (pr_half_open_successes s) (pr_latency_ewma_ms s) v (pr_last_status s) (pr_last_error_type s) (pr_last_error_message s) (pr_last_success_at_ms s) (pr_last_failure_at_ms s).
Definition set_pr_last_status (v : option Z) (s : ProviderRuntimeState) : ProviderRuntimeState :=
  MkRuntime (pr_in_flight s) (pr_generation s) (pr_next_probe_id s) (pr_probe_owner s) (pr_consecutive_failures s) (pr_success_count s) (pr_failure_count s) (pr_half_open_successes s) (pr_latency_ewma_ms s) (pr_open_until_ms s) v (pr_last_error_type s) (pr_last_error_message s) (pr_last_success_at_ms s) (pr_last_failure_at_ms s).
Definition set_pr_last_error_type (v : option string) (s : ProviderRuntimeState) : ProviderRuntimeState :=
  MkRuntime (pr_in_flight s) (pr_generation s) (pr_next_probe_id s) (pr_probe_owner s) (pr_consecutive_failures s) (pr_success_count s) (pr_failure_count s) (pr_half_open_successes s) (pr_latency_ewma_ms s) (pr_open_until_ms s) (pr_last_status s) v (pr_last_error_message s) (pr_last_success_at_ms s) (pr_last_failure_at_ms s).
Definition set_pr_last_error_message (v : option string) (s : ProviderRuntimeState) : ProviderRuntimeState :=
  MkRuntime (pr_in_flight s) (pr_generation s) (pr_next_probe_id s) (pr_probe_owner s) (pr_consecutive_failures s) (pr_success_count s) (pr_failure_count s) (pr_half_open_successes s) (pr_latency_ewma_ms s) (pr_open_until_ms s) (pr_last_status s) (pr_last_error_type s) v (pr_last_success_at_ms s) (pr_last_failure_at_ms s).
Definition set_pr_last_success_at_ms (v : option Z) (s : ProviderRuntimeState) : ProviderRuntimeState :=
  MkRuntime (pr_in_flight s) (pr_generation s) (pr_next_probe_id s) (pr_probe_owner s) (pr_consecutive_failures s) (pr_success_count s) (pr_failure_count s) (pr_half_open_successes s) (pr_latency_ewma_ms s) (pr_open_until_ms s) (pr_last_status s) (pr_last_error_type s) (pr_last_error_message s) v (pr_last_failure_at_ms s).
Definition set_pr_last_failure_at_ms (v : option Z) (s : ProviderRuntimeState) : ProviderRuntimeState :=
  MkRuntime (pr_in_flight s) (pr_generation s) (pr_next_probe_id s) (pr_probe_owner s) (pr_consecutive_failures s) (pr_success_count s) (pr_failure_count s) (pr_half_open_successes s) (pr_latency_ewma_ms s) (pr_open_until_ms s) (pr_last_status s) (pr_last_error_type s) (pr_last_error_message s) (pr_last_success_at_ms s) v.

Definition default_runtime : ProviderRuntimeState :=
  MkRuntime 0 1 0 None 0 0 0 0 None None None None None None None.

Record ProviderRuntimeView := MkRuntimeView {
  pv_state : CircuitState;
  pv_available : bool;
  pv_in_flight : Z;
  pv_max_concurrency : option Z;
  pv_consecutive_failures : Z;
  pv_success_count : Z;
  pv_failure_count : Z;
  pv_half_open_successes : Z;
  pv_latency_ewma_ms : option Z;
  pv_open_until_ms : option Z;
  pv_last_status : option Z;
  pv_last_error_type : option string;
  pv_last_error_message : option string;
  pv_last_success_at_ms : option Z;
  pv_last_failure_at_ms : option Z
}.

Inductive BreakerTransition := Unchanged | Opened.

Record ProviderRuntimeBook := MkRuntimeBook {
  errors : gmap Z (list Value);
  pr_ewma_alpha : f64;
  by_provider : gmap Z ProviderRuntimeState
}.

Definition set_errors (e : gmap Z (list Value)) (b : ProviderRuntimeBook) : ProviderRuntimeBook :=
  MkRuntimeBook e (pr_ewma_alpha b) (by_provider b).
Definition set_by_provider (m : gmap Z ProviderRuntimeState) (b : ProviderRuntimeBook) : ProviderRuntimeBook :=
  MkRuntimeBook (errors b) (pr_ewma_alpha b) m.

Definition new_runtime_book : ProviderRuntimeBook := MkRuntimeBook ∅ f64_0_2 ∅.

(** [guard.entry(id).or_default()] *)
Definition runtime_entry (b : ProviderRuntimeBook) (id : Z) : ProviderRuntimeState :=
  unwrap_or (by_provider b !! id) default_runtime.
Definition put_runtime (id : Z) (s : ProviderRuntimeState) (b : ProviderRuntimeBook) : ProviderRuntimeBook :=
  set_by_provider (<[id := s]> (by_provider b)) b.

#[export] Instance runtime_probed : Probed ProviderRuntimeState :=
  λ s, View (pr_generation s) (pr_next_probe_id s) (pr_probe_owner s).

(** ** The error timeline *)
Definition num (z : Z) : Value := Number (pretty z).
Definition opt_num (o : option Z) : Value := match o with Some z => num z | None => Null end.

(** The JSON object [record_error] retains: no remote body, no credential. *)
Definition error_entry (time_ms endpoint key : Z) (category : string) (status : option Z) : Value :=
  Object [("category", String category); ("endpoint_id", num endpoint); ("key_id", num key);
          ("status", opt_num status); ("summary", String "Upstream attempt failed");
          ("time_ms", num time_ms)]%string.

Definition record_error (b : ProviderRuntimeBook) (id endpoint key : Z) (category : string)
    (status : option Z) (now_ms : Z) : ProviderRuntimeBook :=
  let entries := unwrap_or (errors b !! id) [] in
  let entries := if (length entries =? 50)%nat then tail entries else entries in
  set_errors (<[id := entries ++ [error_entry now_ms endpoint key category status]]> (errors b)) b.

Definition recent_errors (b : ProviderRuntimeBook) (id : Z) : list Value :=
  unwrap_or (option_map reverse (errors b !! id)) [].

(** ** Token and breaker helpers *)
Definition attempt_token_matches (s : ProviderRuntimeState) (t : token) : bool :=
  (pr_generation s =? tok_generation t)
  && is_none_or (tok_probe_id t) (λ probe_id, opt_eqb (pr_probe_owner s) (Some probe_id)).

Definition release_probe_owner (s : ProviderRuntimeState) (t : token) : ProviderRuntimeState :=
  if is_some_and (tok_probe_id t) (λ probe_id, opt_eqb (pr_probe_owner s) (Some probe_id))
  then set_pr_probe_owner None s else s.

Definition advance_generation (s : ProviderRuntimeState) : ProviderRuntimeState :=
  s |> set_pr_generation (wrapping_next (pr_generation s)) |> set_pr_probe_owner None.

Definition clear_breaker_state (s : ProviderRuntimeState) : ProviderRuntimeState :=
  s |> set_pr_consecutive_failures 0 |> set_pr_open_until_ms None
    |> set_pr_half_open_successes 0 |> set_pr_probe_owner None.

Definition circuit_state (p : UpstreamProvider) (s : ProviderRuntimeState) (now_ms : Z) : CircuitState :=
  if negb (up_circuit_breaker_enabled p) then Closed
  else match pr_open_until_ms s with
       | Some until_ms => if now_ms <? until_ms then Open else HalfOpen
       | None => Closed
       end.

(** [limit.max(0) as u32] *)
Definition limit_u32 (limit : Z) : Z := as_u32 (Z.max limit 0).

Definition to_view (p : UpstreamProvider) (s : ProviderRuntimeState) (now_ms : Z) : ProviderRuntimeView :=
  let kind := circuit_state p s now_ms in
  let capacity_available := is_none_or (up_max_concurrency p) (λ limit, pr_in_flight s <? limit_u32 limit) in
  {| pv_state := kind;
     pv_available := up_enabled p && capacity_available &&
       match kind with
       | Closed => true
       | Open => false
       | HalfOpen => is_none (pr_probe_owner s)
       end;
     pv_in_flight := pr_in_flight s;
     pv_max_concurrency := up_max_concurrency p;
     pv_consecutive_failures := pr_consecutive_failures s;
     pv_success_count := pr_success_count s;
     pv_failure_count := pr_failure_count s;
     pv_half_open_successes := pr_half_open_successes s;
     pv_latency_ewma_ms := option_map f64_round_i64 (pr_latency_ewma_ms s);
     pv_open_until_ms := match kind with Open => pr_open_until_ms s | _ => None end;
     pv_last_status := pr_last_status s;
     pv_last_error_type := pr_last_error_type s;
     pv_last_error_message := pr_last_error_message s;
     pv_last_success_at_ms := pr_last_success_at_ms s;
     pv_last_failure_at_ms := pr_last_failure_at_ms s |}.

Definition snapshot (b : ProviderRuntimeBook) (p : UpstreamProvider) (now_ms : Z) : ProviderRuntimeView :=
  match by_provider b !! up_id p with
  | None => MkRuntimeView Closed (up_enabled p) 0 (up_max_concurrency p) 0 0 0 0
              None None None None None None None
  | Some s => to_view p s now_ms
  end.

(** ** Capacity *)

(** A permit that was not dropped yet; [None] stands for a refusal. *)
Record ProviderCapacityPermit := MkPermit { cp_provider_id : Z }.

Definition try_acquire_capacity (b : ProviderRuntimeBook) (p : UpstreamProvider)
    : option ProviderCapacityPermit * ProviderRuntimeBook :=
  let s := runtime_entry b (up_id p) in
  if is_some_and (up_max_concurrency p) (λ limit, limit_u32 limit <=? pr_in_flight s)
  then (None, put_runtime (up_id p) s b)
  else (Some (MkPermit (up_id p)),
        put_runtime (up_id p) (set_pr_in_flight (u32_sat_add (pr_in_flight s) 1) s) b).

Definition release_capacity (b : ProviderRuntimeBook) (provider_id : Z) : ProviderRuntimeBook :=
  match by_provider b !! provider_id with
  | None => b
  | Some s => put_runtime provider_id (set_pr_in_flight (u32_sat_sub (pr_in_flight s) 1) s) b
  end.

(** [Drop for ProviderCapacityPermit] *)
Definition drop_permit (b : ProviderRuntimeBook) (c : ProviderCapacityPermit) : ProviderRuntimeBook :=
  release_capacity b (cp_provider_id c).

(** ** Attempts *)
Record ProviderAttemptGuard := MkGuard { pg_provider : UpstreamProvider; pg_token : token }.

Definition try_begin_attempt (b : ProviderRuntimeBook) (p : UpstreamProvider) (now_ms : Z)
    : option ProviderAttemptGuard * ProviderRuntimeBook :=
  let s := runtime_entry b (up_id p) in
  match circuit_state p s now_ms with
  | Closed => (Some (MkGuard p (Token (pr_generation s) None)), put_runtime (up_id p) s b)
  | Open => (None, put_runtime (up_id p) s b)
  | HalfOpen =>
      if is_some (pr_probe_owner s) then (None, put_runtime (up_id p) s b)
      else
        let n := wrapping_next (pr_next_probe_id s) in
        let s := s |> set_pr_next_probe_id n |> set_pr_probe_owner (Some n) in
        (Some (MkGuard p (Token (pr_generation s) (Some n))), put_runtime (up_id p) s b)
  end.

(** What a success does to the breaker once the probe slot is released. *)
Definition settle_success (p : UpstreamProvider) (previous_state : CircuitState)
    (s : ProviderRuntimeState) : ProviderRuntimeState :=
  if negb (up_circuit_breaker_enabled p) then clear_breaker_state s
  else match previous_state with
       | HalfOpen =>
           let s := set_pr_half_open_successes (u32_sat_add (pr_half_open_successes s) 1) s in
           if as_u32 (Z.max (up_circuit_breaker_half_open_success_threshold p) 1)
                <=? pr_half_open_successes s
           then clear_breaker_state (advance_generation s) else s
       | _ => s |> set_pr_consecutive_failures 0 |> set_pr_open_until_ms None
                |> set_pr_half_open_successes 0
       end.

(** The totals a success updates whether or not its attempt is still current. *)
Definition count_success (alpha : f64) (latency_ms : option Z) (s : ProviderRuntimeState) : ProviderRuntimeState :=
  let s := set_pr_success_count (u64_sat_add (pr_success_count s) 1) s in
  match opt_filter (λ v, 0 <=? v) latency_ms with
  | Some latency => set_pr_latency_ewma_ms (Some (ewma alpha (pr_latency_ewma_ms s) latency)) s
  | None => s
  end.

Definition note_success (status : option Z) (now_ms : Z) (s : ProviderRuntimeState) : ProviderRuntimeState :=
  s |> set_pr_last_status status |> set_pr_last_error_type None
    |> set_pr_last_error_message None |> set_pr_last_success_at_ms (Some now_ms).

Definition finish_success (b : ProviderRuntimeBook) (p : UpstreamProvider) (t : token)
    (status latency_ms : option Z) (now_ms : Z) : ProviderRuntimeBook :=
  let s := count_success (pr_ewma_alpha b) latency_ms (runtime_entry b (up_id p)) in
  if negb (attempt_token_matches s t) then put_runtime (up_id p) s b
  else
    let previous_state := circuit_state p s now_ms in
    let s := release_probe_owner (note_success status now_ms s) t in
    put_runtime (up_id p) (settle_success p previous_state s) b.

(** [circuit_breaker_failure_threshold.max(1) as u32] *)
Definition failure_threshold_u32 (p : UpstreamProvider) : Z :=
  as_u32 (Z.max (up_circuit_breaker_failure_threshold p) 1).

(** What a failure does to the breaker once the probe slot is released. *)
Definition settle_failure (p : UpstreamProvider) (previous_state : CircuitState) (now_ms : Z)
    (s : ProviderRuntimeState) : BreakerTransition * ProviderRuntimeState :=
  if negb (up_circuit_breaker_enabled p) then
    (Unchanged, s |> set_pr_consecutive_failures (u32_sat_add (pr_consecutive_failures s) 1)
                  |> set_pr_open_until_ms None |> set_pr_half_open_successes 0)
  else
    let s := set_pr_consecutive_failures (u32_sat_add (pr_consecutive_failures s) 1) s in
    let s := if decide (previous_state = HalfOpen)
             then set_pr_consecutive_failures
                    (Z.max (pr_consecutive_failures s) (failure_threshold_u32 p)) s
             else s in
    if failure_threshold_u32 p <=? pr_consecutive_failures s then
      let reopen_count := as_u32 (u32_sat_sub (pr_consecutive_failures s) (failure_threshold_u32 p) + 1) in
      (Opened, advance_generation
        (s |> set_pr_open_until_ms (Some (i64_sat_add now_ms
                (cooldown_ms (up_circuit_breaker_open_ms p) reopen_count)))
           |> set_pr_half_open_successes 0))
    else (Unchanged, s).

Definition note_failure (status : option Z) (error_type error_message : string) (now_ms : Z)
    (s : ProviderRuntimeState) : ProviderRuntimeState :=
  s |> set_pr_last_status status |> set_pr_last_error_type (Some error_type)
    |> set_pr_last_error_message (Some error_message) |> set_pr_last_failure_at_ms (Some now_ms).

Definition finish_failure (b : ProviderRuntimeBook) (p : UpstreamProvider) (t : token)
    (status : option Z) (error_type error_message : string) (now_ms : Z)
    : BreakerTransition * ProviderRuntimeBook :=
  let s := runtime_entry b (up_id p) in
  let s := set_pr_failure_count (u64_sat_add (pr_failure_count s) 1) s in
  if negb (attempt_token_matches s t) then (Unchanged, put_runtime (up_id p) s b)
  else
    let previous_state := circuit_state p s now_ms in
    let s := release_probe_owner (note_failure status error_type error_message now_ms s) t in
    let '(transition, s) := settle_failure p previous_state now_ms s in
    (transition, put_runtime (up_id p) s b).

Definition finish_neutral (b : ProviderRuntimeBook) (provider_id : Z) (t : token) : ProviderRuntimeBook :=
  match by_provider b !! provider_id with
  | None => b
  | Some s => if attempt_token_matches s t then put_runtime provider_id (release_probe_owner s t) b else b
  end.

Definition reset (b : ProviderRuntimeBook) (provider_id : Z) : ProviderRuntimeBook :=
  let s := advance_generation (runtime_entry b provider_id) in
  put_runtime provider_id
    (s |> set_pr_consecutive_failures 0 |> set_pr_half_open_successes 0 |> set_pr_probe_owner None
       |> set_pr_open_until_ms None |> set_pr_last_status None |> set_pr_last_error_type None
       |> set_pr_last_error_message None |> set_pr_last_failure_at_ms None) b.

Definition purge_provider (b : ProviderRuntimeBook) (provider_id : Z) : ProviderRuntimeBook :=
  MkRuntimeBook (delete provider_id (errors b)) (pr_ewma_alpha b) (delete provider_id (by_provider b)).

Definition is_current (b : ProviderRuntimeBook) (g : ProviderAttemptGuard) : bool :=
  is_some_and (by_provider b !! up_id (pg_provider g)) (λ s, attempt_token_matches s (pg_token g)).

Definition is_half_open_probe (g : ProviderAttemptGuard) : bool := is_some (tok_probe_id (pg_token g)).

(** Consuming or dropping a guard. *)
Inductive attempt_result :=
  | GuardSuccess (status latency_ms : option Z)
  | GuardFailure (status : option Z) (error_type error_message : string)
  | GuardNeutral.

Definition finish_guard (b : ProviderRuntimeBook) (g : ProviderAttemptGuard) (r : attempt_result)
    (now_ms : Z) : BreakerTransition * ProviderRuntimeBook :=
  match r with
  | GuardSuccess st lat => (Unchanged, finish_success b (pg_provider g) (pg_token g) st lat now_ms)
  | GuardFailure st et em => finish_failure b (pg_provider g) (pg_token g) st et em now_ms
  | GuardNeutral => (Unchanged, finish_neutral b (up_id (pg_provider g)) (pg_token g))
  end.

(** ** Entry lemmas *)
Lemma runtime_entry_put id s b id' :
  runtime_entry (put_runtime id s b) id' = if decide (id = id') then s else runtime_entry b id'.
Proof. unfold runtime_entry, put_runtime; simpl. rewrite lookup_insert. by case_decide. Qed.

Lemma runtime_entry_Some b id s : by_provider b !! id = Some s → runtime_entry b id = s.
Proof. unfold runtime_entry. by intros ->. Qed.

Lemma matches_view s t : attempt_token_matches s t = view_matches (probe_view s) t.
Proof. done. Qed.

Lemma provider_release_probe_owner_cases s t :
  release_probe_owner s t = s ∨ release_probe_owner s t = set_pr_probe_owner None s.
Proof. unfold release_probe_owner. destruct (is_some_and _ _); auto. Qed.

Lemma provider_release_probe_owner_view s t :
  attempt_token_matches s t = true →
  finish_effect (probe_view s) (probe_view (release_probe_owner s t)) t.
Proof.
  rewrite /attempt_token_matches /release_probe_owner /finish_effect /owns_probe /view_matches.
  destruct (tok_probe_id t) as [p|]; simpl; [|left; by rewrite andb_false_r].
  rewrite andb_true_iff. intros [-> ->]. right. by left.
Qed.

Lemma provider_owns_probe_unmatched s t :
  attempt_token_matches s t = false → owns_probe (probe_view s) t = false.
Proof. rewrite matches_view /owns_probe. by intros ->. Qed.

Lemma probe_view_count_success alpha lat s : probe_view (count_success alpha lat s) = probe_view s.
Proof. unfold count_success. by destruct (opt_filter _ _). Qed.

(** Settling a released slot leaves the view, clears the owner, or advances. *)
Definition settled (v v' : view) : Prop := v' = v ∨ v' = v_release v ∨ v' = v_advance v.

Lemma settle_success_view p k s : settled (probe_view s) (probe_view (settle_success p k s)).
Proof.
  unfold settle_success, settled. destruct (negb _); [by right; left|].
  destruct k; [by left|by left|]. cbv zeta. destruct (_ <=? _); [by right; right|by left].
Qed.

Lemma settle_failure_view p k now s : settled (probe_view s) (probe_view (settle_failure p k now s).2).
Proof.
  unfold settle_failure, settled. destruct (negb _); [by left|]. cbv zeta.
  case_decide; destruct (_ <=? _); [by right; right|by left|by right; right|by left].
Qed.

Lemma settled_release_effect s t s' :
  attempt_token_matches s t = true →
  settled (probe_view (release_probe_owner s t)) (probe_view s') →
  finish_effect (probe_view s) (probe_view s') t.
Proof.
  intros Hm Hs. pose proof (provider_release_probe_owner_view s t Hm) as He.
  unfold settled in Hs. destruct Hs as [-> | Hs]; [done|].
  destruct (provider_release_probe_owner_cases s t) as [E|E]; rewrite E in Hs; by right.
Qed.

Lemma finish_guard_entry_effect b g r now :
  finish_effect (probe_view (runtime_entry b (up_id (pg_provider g))))
    (probe_view (runtime_entry (finish_guard b g r now).2 (up_id (pg_provider g)))) (pg_token g).
Proof.
  destruct g as [p t]; simpl. set (s := runtime_entry b (up_id p)).
  destruct r as [st lat|st et em|]; cbn [finish_guard snd pg_provider pg_token].
  - unfold finish_success. fold s. cbv zeta.
    rewrite -(probe_view_count_success (pr_ewma_alpha b) lat s).
    set (s1 := count_success _ _ _). clearbody s1.
    destruct (attempt_token_matches s1 t) eqn:Hm; cbn [negb]; rewrite runtime_entry_put decide_True //.
    + eapply (settled_release_effect (note_success st now s1)); [exact Hm|]. apply settle_success_view.
    + left. split; [done|]. by apply provider_owns_probe_unmatched.
  - unfold finish_failure. fold s. cbv zeta. set (s1 := set_pr_failure_count _ s).
    change (probe_view s) with (probe_view s1). clearbody s1.
    destruct (attempt_token_matches s1 t) eqn:Hm; cbn [negb].
    + pose proof (settle_failure_view p (circuit_state p s1 now) now
        (release_probe_owner (note_failure st et em now s1) t)) as Hset.
      destruct (settle_failure _ _ _ _) as [tr s2]. cbn [snd] in *. rewrite runtime_entry_put decide_True //.
      eapply (settled_release_effect (note_failure st et em now s1)); [exact Hm|exact Hset].
    + cbn [snd]. rewrite runtime_entry_put decide_True //. left. split; [done|].
      by apply provider_owns_probe_unmatched.
  - unfold finish_neutral. destruct (by_provider b !! up_id p) as [s'|] eqn:Hs.
    + assert (s = s') as -> by by apply runtime_entry_Some.
      destruct (attempt_token_matches s' t) eqn:Hm.
      * rewrite runtime_entry_put decide_True //. by apply provider_release_probe_owner_view.
      * rewrite (runtime_entry_Some _ _ _ Hs). left. split; [done|]. by apply provider_owns_probe_unmatched.
    + left. split; [done|]. unfold s, runtime_entry. rewrite Hs.
      unfold owns_probe, view_matches; simpl. destruct (tok_probe_id t); simpl; by rewrite !andb_false_r.
Qed.

Lemma provider_finish_guard_other b g r now id :
  up_id (pg_provider g) ≠ id → runtime_entry (finish_guard b g r now).2 id = runtime_entry b id.
Proof.
  intros Hne. destruct g as [p t], r as [st lat|st et em|]; cbn [finish_guard snd pg_provider pg_token] in *.
  - unfold finish_success. cbv zeta. destruct (negb _); by rewrite runtime_entry_put decide_False.
  - unfold finish_failure. cbv zeta. destruct (negb _); [by rewrite runtime_entry_put decide_False|].
    destruct (settle_failure _ _ _ _). cbn [snd]. by rewrite runtime_entry_put decide_False.
  - unfold finish_neutral. destruct (by_provider b !! up_id p); [|done].
    destruct (attempt_token_matches _ _); [|done]. by rewrite runtime_entry_put decide_False.
Qed.

Lemma provider_try_begin_attempt_effect b p now :
  let '(r, b') := try_begin_attempt b p now in
  let v := probe_view (runtime_entry b (up_id p)) in
  let v' := probe_view (runtime_entry b' (up_id p)) in
  match r with
  | None => v' = v
  | Some g => pg_provider g = p ∧
      ((v' = v ∧ pg_token g = Token (v_generation v) None)
       ∨ (v_probe_owner v = None ∧ v' = v_issue v
          ∧ pg_token g = Token (v_generation v) (Some (wrapping_next (v_next_probe_id v)))))
  end.
Proof.
  unfold try_begin_attempt. destruct (circuit_state _ _ _); [| |destruct (is_some _) eqn:Ho];
    rewrite runtime_entry_put decide_True //=; [auto|].
  split; [done|]. right. by destruct (pr_probe_owner _).
Qed.

Lemma try_begin_attempt_entry b p now id :
  runtime_entry (try_begin_attempt b p now).2 id = runtime_entry b id
  ∨ id = up_id p ∧ pr_in_flight (runtime_entry (try_begin_attempt b p now).2 id)
                    = pr_in_flight (runtime_entry b id).
Proof.
  unfold try_begin_attempt. destruct (circuit_state _ _ _); [| |destruct (is_some _)];
    cbn [snd]; rewrite runtime_entry_put; case_decide; subst; auto.
Qed.

Lemma release_probe_owner_in_flight s t : pr_in_flight (release_probe_owner s t) = pr_in_flight s.
Proof. by destruct (provider_release_probe_owner_cases s t) as [-> | ->]. Qed.

Lemma settle_success_in_flight p k s : pr_in_flight (settle_success p k s) = pr_in_flight s.
Proof. unfold settle_success. destruct (negb _); [done|]. destruct k; [done..|]. cbv zeta. by destruct (_ <=? _). Qed.

Lemma settle_failure_in_flight p k now s : pr_in_flight (settle_failure p k now s).2 = pr_in_flight s.
Proof.
  unfold settle_failure. destruct (negb _); [done|]. cbv zeta.
  case_decide; by destruct (_ <=? _).
Qed.

(** Results and drops of attempts do not touch the concurrency count. *)
Lemma finish_guard_in_flight b g r now id :
  pr_in_flight (runtime_entry (finish_guard b g r now).2 id) = pr_in_flight (runtime_entry b id).
Proof.
  destruct (decide (up_id (pg_provider g) = id)) as [<-|Hne]; [|by rewrite provider_finish_guard_other].
  destruct g as [p t], r as [st lat|st et em|]; cbn [finish_guard snd pg_provider pg_token] in *.
  - unfold finish_success. cbv zeta. assert (∀ a l s, pr_in_flight (count_success a l s) = pr_in_flight s) as Hc.
    { intros a l s. unfold count_success. by destruct (opt_filter _ _). }
    destruct (negb _); rewrite runtime_entry_put decide_True //.
    by rewrite settle_success_in_flight release_probe_owner_in_flight /= Hc.
  - unfold finish_failure. cbv zeta. destruct (negb _); [by rewrite runtime_entry_put decide_True|].
    match goal with |- context [settle_failure ?p ?k ?n ?s] =>
      pose proof (settle_failure_in_flight p k n s) as Hf; destruct (settle_failure p k n s) end.
    cbn [snd] in *. rewrite runtime_entry_put decide_True // Hf release_probe_owner_in_flight. done.
  - unfold finish_neutral. destruct (by_provider b !! up_id p) as [s|] eqn:Hs; [|done].
    destruct (attempt_token_matches _ _); [|done]. rewrite runtime_entry_put decide_True //.
    by rewrite release_probe_owner_in_flight (runtime_entry_Some _ _ _ Hs).
Qed.

(** ** Executions

    The state is the book with the guards and the permits that requests still hold.
    [purge_provider], which forgets the probes and permits of running requests
    ([purge_forgets_running_requests]), is a step of [all_reach] below. *)
Record rconf := RConf {
  rc_book : ProviderRuntimeBook;
  rc_guards : list ProviderAttemptGuard;
  rc_permits : list ProviderCapacityPermit
}.

Inductive rstep : rconf → rconf → Prop :=
  | rstep_begin b G P p now r b' :
      try_begin_attempt b p now = (r, b') →
      rstep (RConf b G P) (RConf b' (from_option (λ g, g :: G) G r) P)
  | rstep_finish b G1 g G2 P r now :
      rstep (RConf b (G1 ++ g :: G2) P) (RConf (finish_guard b g r now).2 (G1 ++ G2) P)
  | rstep_acquire b G P p r b' :
      try_acquire_capacity b p = (r, b') →
      rstep (RConf b G P) (RConf b' G (from_option (λ c, c :: P) P r))
  | rstep_drop b G P1 c P2 :
      rstep (RConf b G (P1 ++ c :: P2)) (RConf (drop_permit b c) G (P1 ++ P2))
  | rstep_reset b G P id : rstep (RConf b G P) (RConf (reset b id) G P)
  | rstep_record b G P id e k c st now :
      rstep (RConf b G P) (RConf (record_error b id e k c st now) G P).

Inductive rreach : Z → rconf → Prop :=
  | rreach_0 : rreach 0 (RConf new_runtime_book [] [])
  | rreach_S n s s' : rreach n s → rstep s s' → rreach (n + 1) s'.

Definition guard_token (id : Z) (g : ProviderAttemptGuard) : option token :=
  if decide (up_id (pg_provider g) = id) then Some (pg_token g) else None.

Definition rproject (id : Z) (s : rconf) : view * list token :=
  (probe_view (runtime_entry (rc_book s) id), omap (guard_token id) (rc_guards s)).

Lemma try_acquire_capacity_view b p id :
  probe_view (runtime_entry (try_acquire_capacity b p).2 id) = probe_view (runtime_entry b id).
Proof.
  unfold try_acquire_capacity. destruct (is_some_and _ _); cbn [snd];
    rewrite runtime_entry_put; case_decide; by subst.
Qed.

Lemma release_capacity_view b i id :
  probe_view (runtime_entry (release_capacity b i) id) = probe_view (runtime_entry b id).
Proof.
  unfold release_capacity. destruct (by_provider b !! i) as [s|] eqn:Hs; [|done].
  rewrite runtime_entry_put; case_decide; [|done]. subst. by rewrite (runtime_entry_Some _ _ _ Hs).
Qed.

(** The book refines the abstract probe protocol, provider by provider. *)
Lemma rstep_project id s s' : rstep s s' → pstep (rproject id s) (rproject id s').
Proof.
  unfold rproject. intros [b G P p now r b' Hb|b G1 g G2 P r now|b G P p r b' Hb|b G P1 c P2|b G P i|b G P i e k c st now]; simpl.
  - pose proof (provider_try_begin_attempt_effect b p now) as He. rewrite Hb in He.
    destruct (decide (up_id p = id)) as [<-|Hne].
    + destruct r as [g|]; simpl; [|rewrite He; constructor].
      destruct He as [<- He]. unfold guard_token at 2. rewrite decide_True //.
      destruct He as [(-> & ->)|(Ho & -> & ->)]; by constructor.
    + destruct (try_begin_attempt_entry b p now id) as [Hent|[? _]]; [|congruence].
      rewrite Hb /= in Hent. rewrite Hent. destruct r as [g|]; simpl; [|constructor].
      destruct He as [<- _]. unfold guard_token at 2. rewrite decide_False //. constructor.
  - rewrite !omap_app. destruct (decide (up_id (pg_provider g) = id)) as [<-|Hi].
    + rewrite (omap_cons_Some _ g G2 (pg_token g)); [|by unfold guard_token; rewrite decide_True].
      apply finish_effect_pstep, finish_guard_entry_effect.
    + rewrite (omap_cons_None _ g G2); [|by unfold guard_token; rewrite decide_False].
      rewrite provider_finish_guard_other //. constructor.
  - pose proof (try_acquire_capacity_view b p id) as Hv. rewrite Hb /= in Hv. rewrite Hv. constructor.
  - rewrite release_capacity_view. constructor.
  - unfold reset. cbv zeta. rewrite runtime_entry_put. case_decide; subst; [|constructor].
    match goal with |- pstep (?v, ?T) _ => change (pstep (v, T) (v_advance v, T)) end. constructor.
  - constructor.
Qed.

Lemma rreach_project id n s : rreach n s → preach n (rproject id s).
Proof.
  induction 1 as [|n s s' _ IH Hs]; [apply preach_0|].
  eapply preach_S; [exact IH|]. by apply rstep_project.
Qed.

Lemma provider_is_current_owns b g :
  is_current b g = true → is_half_open_probe g = true →
  owns_probe (probe_view (runtime_entry b (up_id (pg_provider g)))) (pg_token g) = true.
Proof.
  unfold is_current, is_half_open_probe, owns_probe. rewrite is_some_and_true.
  intros (s & Hs & Hm) ->. rewrite (runtime_entry_Some _ _ _ Hs).
  rewrite matches_view in Hm. by rewrite Hm.
Qed.

(** A provider admits one recovery probe at a time: in every execution of the
    book's operations other than a purge, in any interleaving and shorter than
    2^64 - 1 steps, two outstanding attempts on a provider are never both current
    half-open probes, whatever configuration each of them began with. *)
Theorem provider_single_current_probe n s G1 g1 G2 g2 G3 :
  rreach n s → n < u64_max → rc_guards s = G1 ++ g1 :: G2 ++ g2 :: G3 →
  up_id (pg_provider g1) = up_id (pg_provider g2) →
  ¬ (is_half_open_probe g1 = true ∧ is_half_open_probe g2 = true
     ∧ is_current (rc_book s) g1 = true ∧ is_current (rc_book s) g2 = true).
Proof.
  intros Hr Hn HG Hid (Hp1 & Hp2 & Hc1 & Hc2).
  destruct (preach_pinv _ _ (rreach_project (up_id (pg_provider g1)) _ _ Hr) Hn) as [_ Hinv].
  unfold rproject in Hinv. rewrite HG in Hinv.
  rewrite omap_app (omap_cons_Some _ g1 _ (pg_token g1)) in Hinv;
    [|by unfold guard_token; rewrite decide_True].
  rewrite omap_app (omap_cons_Some _ g2 _ (pg_token g2)) in Hinv;
    [|by unfold guard_token; rewrite decide_True].
  eapply pinv_single; [exact Hinv|by apply provider_is_current_owns|].
  rewrite Hid. by apply provider_is_current_owns.
Qed.

(** ** Concurrency limits *)

(** Outstanding permits of a provider. *)
Definition held (id : Z) (P : list ProviderCapacityPermit) : Z :=
  Z.of_nat (length (List.filter (λ c, cp_provider_id c =? id) P)).

Lemma held_cons id c P : held id (c :: P) = (if cp_provider_id c =? id then 1 else 0) + held id P.
Proof. unfold held. simpl. destruct (_ =? _); cbn [length]; lia. Qed.

Lemma held_middle id P1 c P2 :
  held id (P1 ++ c :: P2) = (if cp_provider_id c =? id then 1 else 0) + held id (P1 ++ P2).
Proof.
  unfold held. rewrite !List.filter_app. cbn [List.filter].
  destruct (_ =? _); rewrite !length_app; cbn [length]; lia.
Qed.

Lemma held_nonneg id P : 0 <= held id P.
Proof. unfold held. lia. Qed.

Lemma try_acquire_capacity_in_flight b p id :
  pr_in_flight (runtime_entry (try_acquire_capacity b p).2 id) =
    if is_some (try_acquire_capacity b p).1 && (up_id p =? id)
    then u32_sat_add (pr_in_flight (runtime_entry b id)) 1
    else pr_in_flight (runtime_entry b id).
Proof.
  unfold try_acquire_capacity. destruct (is_some_and _ _); cbn [fst snd is_some];
    rewrite runtime_entry_put; case_decide; subst; rewrite ?Z.eqb_refl //=.
  by rewrite (proj2 (Z.eqb_neq _ _)).
Qed.

Lemma release_capacity_in_flight b i id :
  0 <= pr_in_flight (runtime_entry b id) →
  pr_in_flight (runtime_entry (release_capacity b i) id) =
    if i =? id then u32_sat_sub (pr_in_flight (runtime_entry b id)) 1
    else pr_in_flight (runtime_entry b id).
Proof.
  intros H. unfold release_capacity. destruct (Z.eqb_spec i id) as [->|Hne].
  - destruct (by_provider b !! id) as [s|] eqn:Hs.
    + by rewrite runtime_entry_put decide_True // (runtime_entry_Some _ _ _ Hs).
    + unfold runtime_entry in *. by rewrite Hs.
  - destruct (by_provider b !! i); [|done]. by rewrite runtime_entry_put decide_False.
Qed.

(** Executions of all operations, purges included. The predicate tells the providers whose count
    was lost: purged while requests still held permits of it, or with 2^32 permits out at once. *)
Inductive all_reach : (Z → Prop) → rconf → Prop :=
  | all_reach_0 : all_reach (λ _, False) (RConf new_runtime_book [] [])
  | all_reach_op L s s' :
      all_reach L s → rstep s s' → all_reach (λ id, L id ∨ u32_max < held id (rc_permits s')) s'
  | all_reach_purge L b G P purged :
      all_reach L (RConf b G P) →
      all_reach (λ id, L id ∨ id = purged ∧ 0 < held id P) (RConf (purge_provider b purged) G P).

(** The count of a provider never exceeds its permits, and is their number unless it was lost. *)
Definition capacity_ok (L : Z → Prop) (s : rconf) : Prop :=
  ∀ id, 0 <= pr_in_flight (runtime_entry (rc_book s) id) <= held id (rc_permits s)
        ∧ (¬ L id → pr_in_flight (runtime_entry (rc_book s) id) = held id (rc_permits s)).

Lemma rstep_capacity L s s' :
  capacity_ok L s → rstep s s' → capacity_ok (λ id, L id ∨ u32_max < held id (rc_permits s')) s'.
Proof.
  intros Hok Hs id. destruct (Hok id) as [Hf He]. pose proof (held_nonneg id (rc_permits s)) as Hp.
  assert (∀ s', rc_permits s' = rc_permits s →
    pr_in_flight (runtime_entry (rc_book s') id) = pr_in_flight (runtime_entry (rc_book s) id) →
    0 <= pr_in_flight (runtime_entry (rc_book s') id) <= held id (rc_permits s')
    ∧ (¬ (L id ∨ u32_max < held id (rc_permits s')) → pr_in_flight (runtime_entry (rc_book s') id) = held id (rc_permits s'))) as Hsame
    by (intros s1 -> ->; split; [lia|naive_solver]).
  destruct Hs as [b G P p now r b' Hb|b G1 g G2 P r now|b G P p r b' Hb|b G P1 c P2|b G P i|b G P i e k c st now];
    cbn [rc_book rc_permits] in *.
  - apply (Hsame (RConf b' [] P)); [done|]. by destruct (try_begin_attempt_entry b p now id) as [E|[_ E]]; rewrite Hb /= in E; rewrite /= E.
  - apply (Hsame (RConf _ [] P)); [done|]. apply finish_guard_in_flight.
  - pose proof (try_acquire_capacity_in_flight b p id) as Ha. rewrite Hb /= in Ha. rewrite Ha.
    destruct r as [c|]; cbn [from_option is_some andb]; [|split; [lia|naive_solver]]. rewrite held_cons.
    assert (cp_provider_id c = up_id p) as ->.
    { unfold try_acquire_capacity in Hb. destruct (is_some_and _ _); [done|]. by injection Hb as <- _. }
    destruct (_ =? _); (split; [mlia|]); intros Hn; (assert (¬ L id) as HL by naive_solver); specialize (He HL); mlia.
  - unfold drop_permit. rewrite held_middle in Hf, He, Hp.
    pose proof (held_nonneg id (P1 ++ P2)). rewrite release_capacity_in_flight; [|lia].
    destruct (_ =? _); (split; [mlia|]); intros Hn; (assert (¬ L id) as HL by naive_solver); specialize (He HL); mlia.
  - apply (Hsame (RConf _ [] P)); [done|]. unfold reset. cbv zeta. cbn [rc_book]. rewrite runtime_entry_put. by case_decide; subst.
  - by apply (Hsame (RConf _ [] P)).
Qed.

Lemma all_reach_capacity L s : all_reach L s → capacity_ok L s.
Proof.
  induction 1 as [|L s s' _ IH Hs|L b G P purged _ IH].
  - intros id. unfold held. by cbn.
  - by eapply rstep_capacity.
  - intros id. destruct (IH id) as [Hf He]. cbn [rc_book rc_permits] in *. unfold purge_provider, runtime_entry in *. cbn [by_provider].
    destruct (decide (id = purged)) as [->|Hne].
    + rewrite lookup_delete_eq. cbn. split; [pose proof (held_nonneg purged P); lia|]. intros Hn.
      destruct (decide (0 < held purged P)); [naive_solver|]. pose proof (held_nonneg purged P). lia.
    + rewrite lookup_delete_ne //. split; [done|]. naive_solver.
Qed.

(** C14. Concurrency limits are enforced: in every execution of the book's operations, purges
    included, a request is never refused while the permits outstanding for its provider are
    below the limit, and the in-flight count shown is never more than their number. As long as
    the provider was not purged while requests held permits of it (and 2^32 permits were not out
    at once) the limit is exact: a permit is granted if and only if the outstanding ones are
    below the limit (any number when it has none), and the count shown is their number. *)
Theorem provider_capacity_exact L s p :
  all_reach L s → (∀ limit, up_max_concurrency p = Some limit → is_i32 limit) →
  let granted := is_some (try_acquire_capacity (rc_book s) p).1 = true in
  let outstanding := held (up_id p) (rc_permits s) in
  let below_limit := ∀ limit, up_max_concurrency p = Some limit → outstanding < limit in
  let shown now := pv_in_flight (snapshot (rc_book s) p now) in
  (below_limit → granted) ∧ (∀ now, 0 <= shown now <= outstanding)
  ∧ (¬ L (up_id p) → (granted ↔ below_limit) ∧ ∀ now, shown now = outstanding).
Proof.
  intros Hr Hl. cbv zeta. destruct (all_reach_capacity L s Hr (up_id p)) as [Hf He].
  assert (∀ now, pv_in_flight (snapshot (rc_book s) p now) = pr_in_flight (runtime_entry (rc_book s) (up_id p))) as Hshown.
  { intros now. unfold snapshot, runtime_entry. by destruct (by_provider (rc_book s) !! up_id p). }
  assert (is_some (try_acquire_capacity (rc_book s) p).1 = true ↔
    ∀ limit, up_max_concurrency p = Some limit → pr_in_flight (runtime_entry (rc_book s) (up_id p)) < limit) as Hg.
  { unfold try_acquire_capacity. destruct (up_max_concurrency p) as [limit|]; simpl; [|naive_solver].
    specialize (Hl limit eq_refl). unfold limit_u32. rewrite as_u32_id; [|mlia].
    destruct (Z.leb_spec (Z.max limit 0) (pr_in_flight (runtime_entry (rc_book s) (up_id p)))); simpl; split; try done.
    - intros Hlt. specialize (Hlt limit eq_refl). lia.
    - intros _ l [= <-]. lia. }
  split_and!.
  - rewrite Hg. intros Hlt limit E. specialize (Hlt limit E). lia.
  - intros now. by rewrite Hshown.
  - intros HL. rewrite Hg (He HL). split; [done|]. intros now. by rewrite Hshown He.
Qed.

(** ** The error timeline *)
Lemma errors_record_error b id e k c st now id' :
  errors (record_error b id e k c st now) !! id' =
    if decide (id = id') then
      let l := unwrap_or (errors b !! id) [] in
      Some ((if (length l =? 50)%nat then tail l else l) ++ [error_entry now e k c st])
    else errors b !! id'.
Proof. unfold record_error. cbv zeta. cbn [errors set_errors]. apply lookup_insert. Qed.

Definition timeline_ok (b : ProviderRuntimeBook) : Prop :=
  ∀ id l, errors b !! id = Some l → (length l <= 50)%nat.

(** The error timeline is a ring of 50: recording an error shows it first and
    drops the oldest one only when 50 were kept, and no other provider's timeline
    changes. *)
Theorem record_error_newest_first b id e k c st now :
  timeline_ok b →
  timeline_ok (record_error b id e k c st now)
  ∧ recent_errors (record_error b id e k c st now) id
    = take 50 (error_entry now e k c st :: recent_errors b id)
  ∧ ∀ id', id' ≠ id → recent_errors (record_error b id e k c st now) id' = recent_errors b id'.
Proof.
  intros Hok. set (l := unwrap_or (errors b !! id) []).
  assert (length l <= 50)%nat as Hl.
  { subst l. destruct (errors b !! id) as [l|] eqn:E; simpl; [by eapply Hok|lia]. }
  assert (recent_errors b id = reverse l) as Hrec.
  { unfold recent_errors. subst l. by destruct (errors b !! id). }
  split_and!.
  - intros id' l'. rewrite errors_record_error. case_decide; [|by apply Hok].
    cbv zeta. fold l. intros [= <-]. rewrite length_app /=.
    destruct (Nat.eqb_spec (length l) 50); [|lia]. destruct l; simpl in *; lia.
  - rewrite Hrec. unfold recent_errors. rewrite errors_record_error decide_True //.
    cbv zeta. fold l. cbn [option_map unwrap_or]. rewrite reverse_app /=. f_equal.
    destruct (Nat.eqb_spec (length l) 50) as [E|E].
    + destruct l as [|x l']; [done|]. simpl in *. rewrite reverse_cons.
      rewrite take_app_length' //. rewrite length_reverse. lia.
    + rewrite take_ge //. rewrite length_reverse. lia.
  - intros id' Hne. unfold recent_errors. by rewrite errors_record_error decide_False.
Qed.

(** A purge forgets the requests still running: with a limit of one, after an
    acquire, a purge (disabling the provider), and a re-enabled provider's new
    acquire, dropping the first permit frees the second request's slot, so two
    requests run at once. *)
Theorem purge_forgets_running_requests p b0 :
  up_max_concurrency p = Some 1 → pr_in_flight (runtime_entry b0 (up_id p)) = 0 →
  let '(first, b1) := try_acquire_capacity b0 p in
  let b2 := purge_provider b1 (up_id p) in
  let '(second, b3) := try_acquire_capacity b2 p in
  let b4 := release_capacity b3 (up_id p) in
  let '(third, _) := try_acquire_capacity b4 p in
  first = Some (MkPermit (up_id p)) ∧ second = Some (MkPermit (up_id p))
  ∧ third = Some (MkPermit (up_id p)).
Proof.
  intros Hlim H0. unfold try_acquire_capacity. rewrite Hlim. cbn [is_some_and]. rewrite H0.
  change (limit_u32 1 <=? 0) with false. cbv iota.
  unfold runtime_entry at 1, purge_provider at 1. cbn [by_provider]. rewrite lookup_delete_eq.
  change (limit_u32 1 <=? pr_in_flight (unwrap_or None default_runtime)) with false. cbv iota.
  set (b4 := release_capacity _ _).
  assert (pr_in_flight (runtime_entry b4 (up_id p)) = 0) as ->; [|done].
  unfold b4, release_capacity, put_runtime. cbn [by_provider set_by_provider purge_provider].
  rewrite lookup_insert decide_True //. unfold runtime_entry, put_runtime. cbn [by_provider set_by_provider].
  rewrite !lookup_insert !decide_True //. cbn [unwrap_or]. by rewrite !lookup_delete_eq.
Qed.

(** ** Breaker behaviour *)

(** One request: begin, and report the result at once; nothing when refused. *)
Definition request_round (p : UpstreamProvider) (b : ProviderRuntimeBook) (r : attempt_result * Z)
    : ProviderRuntimeBook :=
  match try_begin_attempt b p r.2 with
  | (Some g, b') => (finish_guard b' g r.1 r.2).2
  | (None, b') => b'
  end.

Definition is_failure (r : attempt_result * Z) : Prop :=
  match r.1 with GuardFailure _ _ _ => True | _ => False end.
Definition is_success (r : attempt_result * Z) : Prop :=
  match r.1 with GuardSuccess _ _ => True | _ => False end.

(** The fields a breaker's behaviour depends on. *)
Definition breaker_is (s : ProviderRuntimeState) (open_until : option Z) (failures successes : Z) : Prop :=
  pr_open_until_ms s = open_until ∧ pr_consecutive_failures s = failures
  ∧ pr_half_open_successes s = successes ∧ pr_probe_owner s = None.

Lemma breaker_is_count_success a l s o f h :
  breaker_is (count_success a l s) o f h ↔ breaker_is s o f h.
Proof. unfold count_success. by destruct (opt_filter _ _). Qed.

Lemma release_matching s t o f h :
  breaker_is s o f h → breaker_is (release_probe_owner s t) o f h.
Proof. intros (?&?&?&?). by destruct (provider_release_probe_owner_cases s t) as [-> | ->]. Qed.

(** The state after a begun and finished request, on a breaker that admits it. *)
Lemma request_round_entry p b r now o f h :
  let s := runtime_entry b (up_id p) in
  breaker_is s o f h → circuit_state p s now ≠ Open →
  ∃ s1, breaker_is s1 o f h ∧
    runtime_entry (request_round p b (r, now)) (up_id p) =
      match r with
      | GuardSuccess _ _ => settle_success p (circuit_state p s now) s1
      | GuardFailure _ _ _ => (settle_failure p (circuit_state p s now) now s1).2
      | GuardNeutral => s1
      end.
Proof.
  cbv zeta. set (s := runtime_entry b (up_id p)). intros (Ho & Hf & Hh & Hown) Hk.
  assert (∃ t s', try_begin_attempt b p now = (Some (MkGuard p t), put_runtime (up_id p) s' b)
    ∧ attempt_token_matches s' t = true ∧ pr_open_until_ms s' = o
    ∧ breaker_is (release_probe_owner s' t) o f h ∧ circuit_state p s' now = circuit_state p s now) as
    (t & s' & Hb & Hm & Ho' & Hr & Hk').
  { unfold try_begin_attempt. fold s. rewrite Hown. destruct (circuit_state p s now) eqn:E; [|done|].
    - eexists _, _. split; [done|]. rewrite /attempt_token_matches /= Z.eqb_refl. done.
    - eexists _, _. split; [done|].
      rewrite /attempt_token_matches /release_probe_owner /= !Z.eqb_refl /=. rewrite -E. done. }
  unfold request_round. cbn [fst snd]. rewrite Hb.
  destruct r as [st lat|st et em|]; cbn [finish_guard snd pg_provider pg_token].
  - unfold finish_success. cbv zeta. rewrite runtime_entry_put decide_True //.
    set (s2 := count_success _ lat s').
    assert (attempt_token_matches s2 t = true ∧ circuit_state p s2 now = circuit_state p s now
      ∧ pr_open_until_ms s2 = o ∧ breaker_is (release_probe_owner s2 t) o f h) as (Hm2 & Hk2 & Ho2 & Hr2).
    { subst s2. unfold count_success. rewrite /breaker_is /release_probe_owner in Hr |- *.
      destruct (opt_filter _ _); cbv zeta; destruct (is_some_and (tok_probe_id t) _) eqn:E in *;
        (split_and!; [exact Hm|exact Hk'|exact Ho'|..]; unfold set_pr_success_count, set_pr_latency_ewma_ms in *; cbn in *; rewrite ?E; naive_solver). }
    clearbody s2. rewrite Hm2 /= runtime_entry_put decide_True // Hk2.
    eexists; split; [|done]. revert Hr2. unfold breaker_is, release_probe_owner.
    cbn. by destruct (is_some_and _ _).
  - unfold finish_failure. cbv zeta. rewrite runtime_entry_put decide_True //.
    change (attempt_token_matches (set_pr_failure_count _ s') t) with (attempt_token_matches s' t).
    rewrite Hm. cbn [negb].
    change (circuit_state p (set_pr_failure_count _ s') now) with (circuit_state p s' now). rewrite Hk'.
    exists (release_probe_owner (note_failure st et em now (set_pr_failure_count (u64_sat_add (pr_failure_count s') 1) s')) t).
    split.
    + revert Hr. unfold breaker_is, release_probe_owner. cbn. by destruct (is_some_and _ _).
    + destruct (settle_failure _ _ _ _). cbn [snd]. by rewrite runtime_entry_put decide_True.
  - unfold finish_neutral, put_runtime at 1. cbn [by_provider set_by_provider].
    rewrite lookup_insert decide_True // Hm runtime_entry_put decide_True //. eauto.
Qed.

Definition rounds (p : UpstreamProvider) (b : ProviderRuntimeBook) (l : list (attempt_result * Z)) :=
  foldl (request_round p) b l.

Record breaker_config (p : UpstreamProvider) : Prop := {
  bc_enabled : up_circuit_breaker_enabled p = true;
  bc_failure : 1 <= up_circuit_breaker_failure_threshold p <= i32_max;
  bc_success : 1 <= up_circuit_breaker_half_open_success_threshold p <= i32_max;
  bc_open : is_i64 (up_circuit_breaker_open_ms p)
}.

Lemma failure_threshold_u32_eq p :
  breaker_config p → failure_threshold_u32 p = up_circuit_breaker_failure_threshold p.
Proof. intros [_ ? _ _]. unfold failure_threshold_u32. rewrite as_u32_id; mlia. Qed.

(** One more failure on a closed breaker. *)
Lemma settle_failure_closed p now s c :
  breaker_config p → breaker_is s None c 0 → 0 <= c < up_circuit_breaker_failure_threshold p →
  let s' := (settle_failure p Closed now s).2 in
  if c + 1 <? up_circuit_breaker_failure_threshold p then breaker_is s' None (c + 1) 0
  else breaker_is s' (Some (i64_sat_add now (cooldown_ms (up_circuit_breaker_open_ms p) 1))) (c + 1) 0.
Proof.
  intros Hp (Ho & Hf & Hh & Hown) Hc. pose proof (bc_failure p Hp). cbv zeta.
  unfold settle_failure. rewrite (bc_enabled p Hp) failure_threshold_u32_eq //. cbn [negb]. cbv zeta.
  destruct (decide (Closed = HalfOpen)) as [?|_]; [done|].
  cbn [pr_consecutive_failures set_pr_consecutive_failures]. rewrite Hf.
  assert (u32_sat_add c 1 = c + 1) as -> by mlia.
  destruct (Z.ltb_spec (c + 1) (up_circuit_breaker_failure_threshold p)).
  - by rewrite (proj2 (Z.leb_gt _ _)).
  - rewrite (proj2 (Z.leb_le _ _)) //. cbn [snd].
    assert (c + 1 = up_circuit_breaker_failure_threshold p) as E by lia. rewrite -E.
    assert (as_u32 (u32_sat_sub (c + 1) (c + 1) + 1) = 1) as ->; [|done].
    unfold u32_sat_sub. rewrite Z.sub_diag. reflexivity.
Qed.

Lemma rounds_failures p l b c :
  breaker_config p → breaker_is (runtime_entry b (up_id p)) None c 0 →
  0 <= c → c + Z.of_nat (length l) < up_circuit_breaker_failure_threshold p →
  Forall is_failure l →
  breaker_is (runtime_entry (rounds p b l) (up_id p)) None (c + Z.of_nat (length l)) 0.
Proof.
  intros Hp. revert b c. induction l as [|[r now] l IH]; intros b c Hb Hc Hlen Hl; simpl in *.
  { by rewrite Z.add_0_r. }
  inversion Hl as [|? ? Hr Hl']; subst. destruct r as [|st et em|]; try done.
  assert (circuit_state p (runtime_entry b (up_id p)) now = Closed) as Hk.
  { unfold circuit_state. destruct Hb as (-> & _). by destruct (negb _). }
  destruct (request_round_entry p b (GuardFailure st et em) now None c 0 Hb) as (s1 & Hs1 & He);
    [by rewrite Hk|]. rewrite Hk in He.
  pose proof (settle_failure_closed p now s1 c Hp Hs1) as Hset. cbv zeta in Hset.
  rewrite -He in Hset. rewrite (proj2 (Z.ltb_lt _ _)) in Hset; [|lia].
  replace (c + Z.of_nat (S (length l))) with (c + 1 + Z.of_nat (length l)) by lia.
  apply IH; [apply Hset; lia|lia|lia|done].
Qed.

(** A provider's breaker tolerates exactly its threshold: starting from a
    closed breaker without failures, fewer consecutive failed requests leave it
    closed, and the request that reaches the threshold opens it, so that no attempt
    begins for at least the 30 s base cooldown. *)
Theorem provider_breaker_opens_at_threshold p b l st et em now t :
  breaker_config p → breaker_is (runtime_entry b (up_id p)) None 0 0 →
  Forall is_failure l → Z.of_nat (length l) + 1 = up_circuit_breaker_failure_threshold p →
  is_i64 now → t < i64_sat_add now COOLDOWN_BASE_MS →
  let b1 := rounds p b l in
  let b2 := rounds p b (l ++ [(GuardFailure st et em, now)]) in
  circuit_state p (runtime_entry b1 (up_id p)) t = Closed
  ∧ circuit_state p (runtime_entry b2 (up_id p)) t = Open
  ∧ (try_begin_attempt b2 p t).1 = None.
Proof.
  intros Hp Hb Hl Hlen Hnow Ht b1 b2.
  pose proof (rounds_failures p l b 0 Hp Hb) as Hb1. fold b1 in Hb1.
  specialize (Hb1 ltac:(lia) ltac:(lia) Hl).
  assert (∀ u, circuit_state p (runtime_entry b1 (up_id p)) u = Closed) as Hk.
  { intros u. unfold circuit_state. destruct Hb1 as (-> & _). by destruct (negb _). }
  assert (b2 = request_round p b1 (GuardFailure st et em, now)) as Hb2.
  { unfold b2, b1, rounds. by rewrite foldl_app. }
  destruct (request_round_entry p b1 (GuardFailure st et em) now _ _ _ Hb1) as (s1 & Hs1 & He);
    [by rewrite Hk|]. rewrite -Hb2 Hk in He.
  pose proof (settle_failure_closed p now s1 _ Hp Hs1 ltac:(lia)) as Hset. cbv zeta in Hset.
  rewrite -He (proj2 (Z.ltb_ge _ _)) in Hset; [|lia].
  assert (circuit_state p (runtime_entry b2 (up_id p)) t = Open) as Hopen.
  { unfold circuit_state. destruct Hset as (-> & _). rewrite (bc_enabled p Hp) /=.
    rewrite (proj2 (Z.ltb_lt _ _)); [done|]. eapply Z.lt_le_trans; [exact Ht|].
    apply i64_sat_add_mono; [lia|]. apply cooldown_ms_pos; [apply Hp|lia]. }
  split_and!; [apply Hk|done|]. unfold try_begin_attempt. by rewrite Hopen.
Qed.

(** One more success on a half-open breaker. *)
Lemma settle_success_half_open p s u f h :
  breaker_config p → breaker_is s (Some u) f h →
  0 <= h < up_circuit_breaker_half_open_success_threshold p →
  let s' := settle_success p HalfOpen s in
  if h + 1 <? up_circuit_breaker_half_open_success_threshold p then breaker_is s' (Some u) f (h + 1)
  else breaker_is s' None 0 0.
Proof.
  intros Hp (Ho & Hf & Hh & Hown) Hc. pose proof (bc_success p Hp). cbv zeta.
  unfold settle_success. rewrite (bc_enabled p Hp). cbn [negb]. cbv zeta.
  cbn [pr_half_open_successes set_pr_half_open_successes]. rewrite Hh.
  assert (u32_sat_add h 1 = h + 1) as -> by mlia. rewrite as_u32_id; [|mlia].
  rewrite Z.max_l; [|lia].
  destruct (Z.ltb_spec (h + 1) (up_circuit_breaker_half_open_success_threshold p)).
  - by rewrite (proj2 (Z.leb_gt _ _)).
  - by rewrite (proj2 (Z.leb_le _ _)).
Qed.

Lemma circuit_state_half_open p s u f h now :
  breaker_config p → breaker_is s (Some u) f h → u <= now → circuit_state p s now = HalfOpen.
Proof.
  intros Hp (Ho & _) Hu. unfold circuit_state. rewrite Ho (bc_enabled p Hp) /=.
  by rewrite (proj2 (Z.ltb_ge _ _)).
Qed.

Lemma rounds_successes p l b u f h :
  breaker_config p → breaker_is (runtime_entry b (up_id p)) (Some u) f h →
  0 <= h → h + Z.of_nat (length l) < up_circuit_breaker_half_open_success_threshold p →
  Forall is_success l → Forall (λ r, u <= r.2) l →
  breaker_is (runtime_entry (rounds p b l) (up_id p)) (Some u) f (h + Z.of_nat (length l)).
Proof.
  intros Hp. revert b h. induction l as [|[r now] l IH]; intros b h Hb Hh Hlen Hl Hu; simpl in *.
  { by rewrite Z.add_0_r. }
  inversion Hl as [|? ? Hr Hl']; subst. inversion Hu as [|? ? Hnow Hu']; subst.
  destruct r as [st lat| |]; try done. simpl in Hnow.
  pose proof (circuit_state_half_open p _ u f h now Hp Hb Hnow) as Hk.
  destruct (request_round_entry p b (GuardSuccess st lat) now _ _ _ Hb) as (s1 & Hs1 & He);
    [by rewrite Hk|]. rewrite Hk in He.
  pose proof (settle_success_half_open p s1 u f h Hp Hs1) as Hset. cbv zeta in Hset.
  rewrite -He (proj2 (Z.ltb_lt _ _)) in Hset; [|lia].
  replace (h + Z.of_nat (S (length l))) with (h + 1 + Z.of_nat (length l)) by lia.
  apply IH; [apply Hset; lia|lia|lia|done|done].
Qed.

(** Recovery takes exactly the configured number of successful probes: from a
    breaker whose cooldown has passed, that many consecutive probe successes close
    it, with the failure count cleared, and after fewer it is still half-open. *)
Theorem provider_breaker_recovers p b l st lat now u f t :
  breaker_config p → breaker_is (runtime_entry b (up_id p)) (Some u) f 0 →
  Forall is_success l → Forall (λ r, u <= r.2) l → u <= now → u <= t →
  Z.of_nat (length l) + 1 = up_circuit_breaker_half_open_success_threshold p →
  let b1 := rounds p b l in
  let b2 := rounds p b (l ++ [(GuardSuccess st lat, now)]) in
  circuit_state p (runtime_entry b1 (up_id p)) t = HalfOpen
  ∧ circuit_state p (runtime_entry b2 (up_id p)) t = Closed
  ∧ pr_consecutive_failures (runtime_entry b2 (up_id p)) = 0.
Proof.
  intros Hp Hb Hl Hu Hnow Ht Hlen b1 b2.
  pose proof (rounds_successes p l b u f 0 Hp Hb ltac:(lia) ltac:(lia) Hl Hu) as Hb1. fold b1 in Hb1.
  assert (b2 = request_round p b1 (GuardSuccess st lat, now)) as Hb2.
  { unfold b2, b1, rounds. by rewrite foldl_app. }
  destruct (request_round_entry p b1 (GuardSuccess st lat) now _ _ _ Hb1) as (s1 & Hs1 & He);
    [by rewrite (circuit_state_half_open _ _ _ _ _ now Hp Hb1)|].
  rewrite -Hb2 (circuit_state_half_open _ _ _ _ _ now Hp Hb1 Hnow) in He.
  pose proof (settle_success_half_open p s1 u f _ Hp Hs1 ltac:(lia)) as Hset. cbv zeta in Hset.
  rewrite -He (proj2 (Z.ltb_ge _ _)) in Hset; [|lia]. destruct Hset as (Ho & Hf & _).
  split_and!; [by eapply circuit_state_half_open| |done].
  unfold circuit_state. rewrite Ho. by destruct (negb _).
Qed.

(** ** Concrete executions *)
Definition wp_provider : UpstreamProvider :=
  MkProvider None true 7 "provider-a" "openai" true 100 1 true false []
    (MkOverrides [] []) "round_robin" 2 (Some 1) true 2 30000 2.

Definition wp_plain : ProviderAttemptGuard := MkGuard wp_provider (Token 1 None).
Definition wp_probe : ProviderAttemptGuard := MkGuard wp_provider (Token 2 (Some 1)).
Definition wp_fail : attempt_result := GuardFailure (Some 503) "http" "unavailable".

(** Three plain attempts begin, two fail and open the breaker, a probe begins. *)
Definition wp_b1 : ProviderRuntimeBook := (try_begin_attempt new_runtime_book wp_provider 100).2.
Definition wp_b2 : ProviderRuntimeBook := (try_begin_attempt wp_b1 wp_provider 101).2.
Definition wp_b3 : ProviderRuntimeBook := (try_begin_attempt wp_b2 wp_provider 102).2.
Definition wp_b4 : ProviderRuntimeBook := (finish_guard wp_b3 wp_plain wp_fail 103).2.
Definition wp_b5 : ProviderRuntimeBook := (finish_guard wp_b4 wp_plain wp_fail 104).2.
Definition wp_b6 : ProviderRuntimeBook := (try_begin_attempt wp_b5 wp_provider 30104).2.
Definition wp_conf : rconf := RConf wp_b6 [wp_probe; wp_plain] [].

Lemma wp_execution : rreach 6 wp_conf.
Proof.
  eapply (rreach_S 5); [|apply (rstep_begin wp_b5 [wp_plain] [] wp_provider 30104 (Some wp_probe)); vm_compute; reflexivity].
  eapply (rreach_S 4); [|apply (rstep_finish wp_b4 [] wp_plain [wp_plain] [] wp_fail 104)].
  eapply (rreach_S 3); [|apply (rstep_finish wp_b3 [] wp_plain [wp_plain; wp_plain] [] wp_fail 103)].
  eapply (rreach_S 2); [|apply (rstep_begin wp_b2 [wp_plain; wp_plain] [] wp_provider 102 (Some wp_plain)); vm_compute; reflexivity].
  eapply (rreach_S 1); [|apply (rstep_begin wp_b1 [wp_plain] [] wp_provider 101 (Some wp_plain)); vm_compute; reflexivity].
  eapply (rreach_S 0); [apply rreach_0|apply (rstep_begin new_runtime_book [] [] wp_provider 100 (Some wp_plain)); vm_compute; reflexivity].
Qed.

Lemma provider_single_current_probe_witness :
  is_current (rc_book wp_conf) wp_probe = true ∧
  ¬ (is_half_open_probe wp_probe = true ∧ is_half_open_probe wp_plain = true
     ∧ is_current (rc_book wp_conf) wp_probe = true ∧ is_current (rc_book wp_conf) wp_plain = true).
Proof.
  split; [vm_compute; reflexivity|].
  refine (provider_single_current_probe 6 wp_conf [] wp_probe [] wp_plain [] wp_execution _ _ _);
    [vm_compute; reflexivity|reflexivity|reflexivity].
Defined.

Definition wp_full : rconf :=
  RConf (try_acquire_capacity new_runtime_book wp_provider).2 [] [MkPermit 7].

(** The only permit of a provider with room for one request is out: the next request is refused.
    Once the provider is purged, it is let in. *)
Lemma wp_full_execution : all_reach (λ id, False ∨ u32_max < held id [MkPermit 7]) wp_full.
Proof.
  apply (all_reach_op (λ _, False) (RConf new_runtime_book [] []) wp_full all_reach_0).
  apply (rstep_acquire new_runtime_book [] [] wp_provider (Some (MkPermit 7))). vm_compute. reflexivity.
Qed.

Lemma provider_capacity_exact_witness :
  is_some (try_acquire_capacity (rc_book wp_full) wp_provider).1 = false
  ∧ (is_some (try_acquire_capacity (rc_book wp_full) wp_provider).1 = true ↔
     ∀ limit, Some 1 = Some limit → held 7 [MkPermit 7] < limit)
  ∧ is_some (try_acquire_capacity (purge_provider (rc_book wp_full) 7) wp_provider).1 = true.
Proof.
  split; [by vm_compute|]. split; [|by vm_compute].
  refine (proj1 (proj2 (proj2 (provider_capacity_exact _ wp_full wp_provider wp_full_execution _)) _)).
  - intros limit [= <-]. mlia.
  - intros [[]|H]. vm_compute in H. discriminate H.
Defined.

Lemma record_error_newest_first_witness :
  recent_errors (record_error new_runtime_book 7 3 4 "endpoint" (Some 503) 100) 7
  = take 50 (error_entry 100 3 4 "endpoint" (Some 503) :: recent_errors new_runtime_book 7).
Proof.
  apply (record_error_newest_first new_runtime_book 7 3 4 "endpoint" (Some 503) 100). by intros id l.
Defined.

Lemma purge_forgets_running_requests_witness :
  pr_in_flight (runtime_entry new_runtime_book 7) = 0 ∧
  let '(first, b1) := try_acquire_capacity new_runtime_book wp_provider in
  let b2 := purge_provider b1 7 in
  let '(second, b3) := try_acquire_capacity b2 wp_provider in
  let b4 := release_capacity b3 7 in
  let '(third, _) := try_acquire_capacity b4 wp_provider in
  first = Some (MkPermit 7) ∧ second = Some (MkPermit 7) ∧ third = Some (MkPermit 7).
Proof.
  split; [vm_compute; reflexivity|].
  apply (purge_forgets_running_requests wp_provider new_runtime_book); vm_compute; reflexivity.
Defined.

Lemma wp_config : breaker_config wp_provider.
Proof. by split; vm_compute. Qed.

Lemma provider_breaker_opens_at_threshold_witness :
  let b1 := rounds wp_provider new_runtime_book [(wp_fail, 100)] in
  let b2 := rounds wp_provider new_runtime_book ([(wp_fail, 100)] ++ [(wp_fail, 200)]) in
  circuit_state wp_provider (runtime_entry b1 7) 300 = Closed
  ∧ circuit_state wp_provider (runtime_entry b2 7) 300 = Open
  ∧ (try_begin_attempt b2 wp_provider 300).1 = None.
Proof.
  apply (provider_breaker_opens_at_threshold wp_provider new_runtime_book [(wp_fail, 100)]
           (Some 503) "http" "unavailable" 200 300 wp_config).
  - by vm_compute.
  - by repeat constructor.
  - reflexivity.
  - mlia.
  - vm_compute; reflexivity.
Defined.

Lemma provider_breaker_recovers_witness :
  let b1 := rounds wp_provider wp_b5 [(GuardSuccess (Some 200) (Some 12), 30200)] in
  let b2 := rounds wp_provider wp_b5 ([(GuardSuccess (Some 200) (Some 12), 30200)]
              ++ [(GuardSuccess (Some 200) None, 30300)]) in
  circuit_state wp_provider (runtime_entry b1 7) 30400 = HalfOpen
  ∧ circuit_state wp_provider (runtime_entry b2 7) 30400 = Closed
  ∧ pr_consecutive_failures (runtime_entry b2 7) = 0.
Proof.
  apply (provider_breaker_recovers wp_provider wp_b5 [(GuardSuccess (Some 200) (Some 12), 30200)]
           (Some 200) None 30300 30104 2 30400 wp_config).
  - vm_compute; auto.
  - by repeat constructor.
  - by repeat constructor.
  - lia.
  - lia.
  - reflexivity.
Defined.
