(* ===== verification/Quota.v ===== *)
(** * Quota: rate limits of upstream keys

    Models the second half of [provider_runtime.rs] (lines 489-741): the quota book,
    what it learns from response headers, and the cooldown it enforces. Reading
    expires stale fields, so readers return the book too. HTTP dates and RFC 3339
    timestamps are parsed by crates: nanoseconds since the epoch, as parameters. *)
From Stdlib Require Import SpecFloat String.
From S2P Require Import Prelude Float64 Text Resilience.

(** ** State *)
Record QuotaState := MkQuota {
  qs_remaining_requests : option Z;
  qs_remaining_tokens : option Z;
  qs_reset_at_ms : option Z;
  qs_cooldown_until_ms : option Z;
  qs_consecutive_rate_limits : Z;
  qs_updated_at_ms : option Z
}.

Definition default_quota : QuotaState := MkQuota None None None None 0 None.

Definition set_qs_remaining_requests (v : option Z) (s : QuotaState) : QuotaState :=
  MkQuota v (qs_remaining_tokens s) (qs_reset_at_ms s) (qs_cooldown_until_ms s) (qs_consecutive_rate_limits s) (qs_updated_at_ms s).
Definition set_qs_remaining_tokens (v : option Z) (s : QuotaState) : QuotaState :=
  MkQuota (qs_remaining_requests s) v (qs_reset_at_ms s) (qs_cooldown_until_ms s) (qs_consecutive_rate_limits s) (qs_updated_at_ms s).
Definition set_qs_reset_at_ms (v : option Z) (s : QuotaState) : QuotaState :=
  MkQuota (qs_remaining_requests s) (qs_remaining_tokens s) v (qs_cooldown_until_ms s) (qs_consecutive_rate_limits s) (qs_updated_at_ms s).
Definition set_qs_cooldown_until_ms (v : option Z) (s : QuotaState) : QuotaState :=
  MkQuota (qs_remaining_requests s) (qs_remaining_tokens s) (qs_reset_at_ms s) v (qs_consecutive_rate_limits s) (qs_updated_at_ms s).
Definition set_qs_consecutive_rate_limits (v : Z) (s : QuotaState) : QuotaState :=
  MkQuota (qs_remaining_requests s) (qs_remaining_tokens s) (qs_reset_at_ms s) (qs_cooldown_until_ms s) v (qs_updated_at_ms s).
Definition set_qs_updated_at_ms (v : option Z) (s : QuotaState) : QuotaState :=
  MkQuota (qs_remaining_requests s) (qs_remaining_tokens s) (qs_reset_at_ms s) (qs_cooldown_until_ms s) (qs_consecutive_rate_limits s) v.

(** The view has the fields of the state. *)
Record QuotaRuntimeView := MkQuotaView {
  qv_remaining_requests : option Z;
  qv_remaining_tokens : option Z;
  qv_reset_at_ms : option Z;
  qv_cooldown_until_ms : option Z;
  qv_consecutive_rate_limits : Z;
  qv_updated_at_ms : option Z
}.

Definition default_quota_view : QuotaRuntimeView := MkQuotaView None None None None 0 None.

Definition exhausted (requests tokens : option Z) : bool :=
  is_some_and requests (λ n, n <=? 0) || is_some_and tokens (λ n, n <=? 0).

Definition blocked_until_ms (v : QuotaRuntimeView) : option Z :=
  if exhausted (qv_remaining_requests v) (qv_remaining_tokens v) then qv_reset_at_ms v else None.

Record QuotaBook := MkQuotaBook { by_key : gmap Z QuotaState }.

Definition new_quota_book : QuotaBook := MkQuotaBook ∅.

Definition quota_entry (b : QuotaBook) (key_id : Z) : QuotaState :=
  unwrap_or (by_key b !! key_id) default_quota.
Definition put_quota (key_id : Z) (s : QuotaState) (b : QuotaBook) : QuotaBook :=
  MkQuotaBook (<[key_id := s]> (by_key b)).

(** ** Operations *)
Definition expire_quota_state (s : QuotaState) (now_ms : Z) : QuotaState :=
  let s := if is_some_and (qs_reset_at_ms s) (λ reset_at, reset_at <=? now_ms)
           then s |> set_qs_remaining_requests None |> set_qs_remaining_tokens None
                  |> set_qs_reset_at_ms None
           else s in
  if is_some_and (qs_cooldown_until_ms s) (λ until, until <=? now_ms)
  then set_qs_cooldown_until_ms None s else s.

(** The condition of both [is_available] and [reserve_request]. *)
Definition state_available (s : QuotaState) (now_ms : Z) : bool :=
  is_none_or (qs_cooldown_until_ms s) (λ until_ms, until_ms <=? now_ms)
  && negb (match qs_reset_at_ms s with
           | Some reset_at =>
               (now_ms <? reset_at) && exhausted (qs_remaining_requests s) (qs_remaining_tokens s)
           | None => false
           end).

Definition is_available (b : QuotaBook) (key_id now_ms : Z) : bool * QuotaBook :=
  match by_key b !! key_id with
  | None => (true, b)
  | Some s =>
      let s := expire_quota_state s now_ms in
      (state_available s now_ms, put_quota key_id s b)
  end.

Definition reserve_request (b : QuotaBook) (key_id now_ms : Z) : bool * QuotaBook :=
  let s := expire_quota_state (quota_entry b key_id) now_ms in
  if negb (state_available s now_ms) then (false, put_quota key_id s b)
  else (true, put_quota key_id
          (set_qs_remaining_requests (option_map (λ n, i64_sat_sub n 1) (qs_remaining_requests s)) s) b).

Definition quota_snapshot (b : QuotaBook) (key_id now_ms : Z) : QuotaRuntimeView * QuotaBook :=
  match by_key b !! key_id with
  | None => (default_quota_view, b)
  | Some s =>
      let s := expire_quota_state s now_ms in
      (MkQuotaView (qs_remaining_requests s) (qs_remaining_tokens s) (qs_reset_at_ms s)
         (qs_cooldown_until_ms s) (qs_consecutive_rate_limits s) (qs_updated_at_ms s),
       put_quota key_id s b)
  end.

Definition set_cooldown_until (b : QuotaBook) (key_id until_ms now_ms : Z) : QuotaBook :=
  let s := expire_quota_state (quota_entry b key_id) now_ms in
  let s := if now_ms <? until_ms then
             s |> set_qs_cooldown_until_ms (Some (Z.max (unwrap_or (qs_cooldown_until_ms s) 0) until_ms))
               |> set_qs_reset_at_ms (Some (Z.max (unwrap_or (qs_reset_at_ms s) 0) until_ms))
               |> set_qs_remaining_requests (Some 0)
           else s in
  put_quota key_id (set_qs_updated_at_ms (Some now_ms) s) b.

Definition clear_cooldown (b : QuotaBook) (key_id now_ms : Z) : QuotaBook :=
  put_quota key_id
    (quota_entry b key_id |> set_qs_cooldown_until_ms None |> set_qs_reset_at_ms None
       |> set_qs_remaining_requests None |> set_qs_remaining_tokens None
       |> set_qs_updated_at_ms (Some now_ms)) b.

Definition purge_key (b : QuotaBook) (key_id : Z) : QuotaBook := MkQuotaBook (delete key_id (by_key b)).

(** ** Response headers *)

(** [Iterator::find_map] *)
Fixpoint find_map {A B} (f : A → option B) (l : list A) : option B :=
  match l with
  | [] => None
  | x :: l' => match f x with Some y => Some y | None => find_map f l' end
  end.

Definition first_i64_header (headers : string → option string) (names : list string) : option Z :=
  find_map (λ name, match headers name with Some v => parse_i64 (trim v) | None => None end) names.

(** [i64::MAX as f64], that is 2^63. *)
Definition i64_max_f64 : f64 := f64_of_Z i64_max.

Definition parse_relative_duration_ms (value : string) : option Z :=
  let units := [("ms", 1); ("s", 1000); ("m", 60000); ("h", 3600000)]%string in
  match find_map (λ '(unit, multiplier), option_map (λ number, (number, multiplier)) (strip_suffix unit value)) units with
  | None => None
  | Some (number, multiplier) =>
      match parse_f64 (trim number) with
      | None => None
      | Some parsed =>
          if negb (f64_is_finite parsed) || f64_negative parsed then None
          else
            let product := f64_mul parsed (f64_of_Z multiplier) in
            match f64_round_Z product with
            | None => None
            | Some _ => if SFltb i64_max_f64 product then None else Some (f64_round_i64 product)
            end
      end
  end.

Section Headers.
Context (parse_http_date parse_rfc3339 : string → option Z).

(** One header of [first_reset_header_ms]: seconds or milliseconds since the
    epoch, a timestamp, or a duration from now. *)
Definition reset_header_ms (headers : string → option string) (now_ms : Z) (name : string) : option Z :=
  match headers name with
  | None => None
  | Some raw =>
      let value := trim raw in
      match parse_i64 value with
      | Some timestamp =>
          if timestamp <? 0 then None
          else if 10000000000 <? timestamp then Some timestamp
          else i64_checked (timestamp * 1000)
      | None =>
          match parse_rfc3339 value with
          | Some nanos => opt_filter (λ v, 0 <=? v) (i64_checked (Z.quot nanos 1000000))
          | None =>
              match parse_relative_duration_ms value with
              | Some duration => i64_checked (now_ms + duration)
              | None => None
              end
          end
      end
  end.

Definition first_reset_header_ms (headers : string → option string) (names : list string)
    (now_ms : Z) : option Z :=
  max_opt (omap (reset_header_ms headers now_ms) names).

Definition REQUEST_HEADERS : list string :=
  ["x-ratelimit-remaining-requests"; "anthropic-ratelimit-requests-remaining"]%string.
Definition TOKEN_HEADERS : list string :=
  ["x-ratelimit-remaining-tokens"; "anthropic-ratelimit-tokens-remaining"]%string.
Definition RESET_HEADERS : list string :=
  ["x-ratelimit-reset-requests"; "anthropic-ratelimit-requests-reset";
   "x-ratelimit-reset-tokens"; "anthropic-ratelimit-tokens-reset"]%string.

(** What the headers say, [or] what was known. *)
Definition learn_limits (headers : string → option string) (now_ms : Z) (s : QuotaState) : QuotaState :=
  s |> set_qs_remaining_requests (opt_or (first_i64_header headers REQUEST_HEADERS) (qs_remaining_requests s))
    |> set_qs_remaining_tokens (opt_or (first_i64_header headers TOKEN_HEADERS) (qs_remaining_tokens s))
    |> set_qs_reset_at_ms (opt_or (first_reset_header_ms headers RESET_HEADERS now_ms) (qs_reset_at_ms s))
    |> set_qs_updated_at_ms (Some now_ms).

(** How long a rate-limited key rests, in milliseconds. *)
Definition rest_ms (headers : string → option string) (now_ms : Z) (fallback_ns : Z) (s : QuotaState) : Z :=
  let hints := option_list (retry_after_ms parse_http_date headers now_ms)
               ++ option_list (option_map (λ reset, i64_sat_sub reset now_ms) (qs_reset_at_ms s)) in
  Z.max 1000 (unwrap_or (opt_filter (λ v, 0 <? v) (max_opt hints))
                (cooldown_ms (Z.min (fallback_ns / 1000000) i64_max) (qs_consecutive_rate_limits s))).

Definition observe_response (b : QuotaBook) (key_id status : Z) (headers : string → option string)
    (now_ms fallback_ns : Z) : QuotaBook :=
  let s := learn_limits headers now_ms (quota_entry b key_id) in
  let s :=
    if (status =? 402) || (status =? 429) then
      let s := set_qs_consecutive_rate_limits (u32_sat_add (qs_consecutive_rate_limits s) 1) s in
      set_qs_cooldown_until_ms
        (Some (Z.max (unwrap_or (qs_cooldown_until_ms s) 0)
                 (i64_sat_add now_ms (rest_ms headers now_ms fallback_ns s)))) s
    else if (status <? 400) && is_none_or (qs_cooldown_until_ms s) (λ until, until <=? now_ms) then
      s |> set_qs_consecutive_rate_limits 0 |> set_qs_cooldown_until_ms None
    else s in
  put_quota key_id s b.

End Headers.

Example relative_durations :
  map parse_relative_duration_ms ["6m"; "1.5s"; "20ms"; "2h"; "-1s"; "nans"; "1e300h"; "12"]%string
  = [Some 360000; Some 1500; Some 20; Some 7200000; None; None; None; None].
Proof. vm_compute. reflexivity. Qed.

(** ** Entry lemmas *)
Lemma quota_entry_put k s b k' :
  quota_entry (put_quota k s b) k' = if decide (k = k') then s else quota_entry b k'.
Proof. unfold quota_entry, put_quota. simpl. rewrite lookup_insert. by case_decide. Qed.

Lemma quota_entry_Some b k s : by_key b !! k = Some s → quota_entry b k = s.
Proof. unfold quota_entry. by intros ->. Qed.

(** An unknown key reads like the default state. *)
Lemma is_available_entry b k now :
  (is_available b k now).1 = state_available (expire_quota_state (quota_entry b k) now) now.
Proof. unfold is_available, quota_entry. by destruct (by_key b !! k). Qed.

Lemma is_available_reads b k now k' :
  quota_entry (is_available b k now).2 k' =
    if decide (k = k') then expire_quota_state (quota_entry b k') now else quota_entry b k'.
Proof.
  unfold is_available. destruct (by_key b !! k) as [s|] eqn:E; cbn [snd].
  - rewrite quota_entry_put. case_decide; subst; [by rewrite (quota_entry_Some _ _ _ E)|done].
  - case_decide; subst; [|done]. unfold quota_entry. by rewrite E.
Qed.

Lemma snapshot_reads b k now k' :
  quota_entry (quota_snapshot b k now).2 k' =
    if decide (k = k') then expire_quota_state (quota_entry b k') now else quota_entry b k'.
Proof.
  unfold quota_snapshot. destruct (by_key b !! k) as [s|] eqn:E; cbn [snd].
  - rewrite quota_entry_put. case_decide; subst; [by rewrite (quota_entry_Some _ _ _ E)|done].
  - case_decide; subst; [|done]. unfold quota_entry. by rewrite E.
Qed.

(** ** Cooldowns *)

(** A cooldown in force at [now] until at least [u]. *)
Definition resting (s : QuotaState) (u : Z) : Prop :=
  ∃ c, qs_cooldown_until_ms s = Some c ∧ u <= c.

Lemma expire_cooldown s now :
  qs_cooldown_until_ms (expire_quota_state s now) =
    opt_filter (λ c, now <? c) (qs_cooldown_until_ms s).
Proof.
  unfold expire_quota_state. set (s1 := if is_some_and (qs_reset_at_ms s) _ then _ else s).
  assert (qs_cooldown_until_ms s1 = qs_cooldown_until_ms s) as Hc by (subst s1; by destruct (is_some_and _ _)).
  rewrite Hc. destruct (qs_cooldown_until_ms s) as [c|]; simpl; [|done].
  destruct (Z.leb_spec c now), (Z.ltb_spec now c); try lia; by rewrite ?Hc.
Qed.

Lemma expire_resting s u now : resting s u → now < u → resting (expire_quota_state s now) u.
Proof.
  intros (c & Hc & Hle) Hn. exists c. rewrite expire_cooldown Hc /=.
  by rewrite (proj2 (Z.ltb_lt _ _)); [|lia].
Qed.

Lemma resting_unavailable s u now : resting s u → now < u → state_available s now = false.
Proof.
  intros (c & Hc & Hle) Hn. unfold state_available. rewrite Hc /=.
  by rewrite (proj2 (Z.leb_gt _ _)); [|lia].
Qed.

Section Cooldown.
Context (parse_http_date parse_rfc3339 : string → option Z).

Abbreviation observe := (observe_response parse_http_date parse_rfc3339).
Abbreviation learn := (learn_limits parse_rfc3339).

(** The operations of requests and of the quota view (not an operator's
    [clear_cooldown], nor [purge_key]). *)
Inductive quota_op :=
  | QAvailable (key : Z)
  | QReserve (key : Z)
  | QSnapshot (key : Z)
  | QObserve (key status : Z) (headers : string → option string) (fallback_ns : Z)
  | QSetCooldown (key until_ms : Z).

Definition run_quota_op (b : QuotaBook) (o : quota_op * Z) : QuotaBook :=
  match o with
  | (QAvailable k, now) => (is_available b k now).2
  | (QReserve k, now) => (reserve_request b k now).2
  | (QSnapshot k, now) => (quota_snapshot b k now).2
  | (QObserve k st h fb, now) => observe b k st h now fb
  | (QSetCooldown k u, now) => set_cooldown_until b k u now
  end.

Lemma learn_cooldown h now s : qs_cooldown_until_ms (learn h now s) = qs_cooldown_until_ms s.
Proof. done. Qed.

Lemma observe_resting b k st h now fb k' u :
  resting (quota_entry b k') u → now < u → resting (quota_entry (observe b k st h now fb) k') u.
Proof.
  intros Hr Hn. unfold observe_response. cbv zeta. rewrite quota_entry_put.
  case_decide; [subst k'|done]. set (s := learn h now (quota_entry b k)).
  assert (resting s u) as Hs by done. clearbody s. destruct Hs as (c & Hc & Hle).
  destruct (_ || _).
  - unfold set_qs_cooldown_until_ms at 1. eexists. split; [done|].
    unfold set_qs_consecutive_rate_limits. simpl. rewrite Hc /=. lia.
  - rewrite Hc /= (proj2 (Z.leb_gt _ _)); [|lia]. rewrite andb_false_r. by exists c.
Qed.

Lemma run_quota_op_resting b o k u :
  resting (quota_entry b k) u → o.2 < u → resting (quota_entry (run_quota_op b o) k) u.
Proof.
  destruct o as [o now]; simpl. intros Hr Hn. destruct o as [k'|k'|k'|k' st h fb|k' until]; simpl.
  - rewrite is_available_reads. case_decide; [by apply expire_resting|done].
  - unfold reserve_request. cbv zeta. destruct (negb _); cbn [snd]; rewrite quota_entry_put;
      case_decide; try done; subst; by apply expire_resting.
  - rewrite snapshot_reads. case_decide; [by apply expire_resting|done].
  - by apply observe_resting.
  - unfold set_cooldown_until. cbv zeta. rewrite quota_entry_put. case_decide; [subst k'|done].
    pose proof (expire_resting _ _ _ Hr Hn) as (c & Hc & Hle). destruct (now <? until).
    + eexists. split; [done|]. rewrite Hc /=. lia.
    + by exists c.
Qed.

(** A cooldown is never cut short by traffic: whatever requests, responses,
    reads and error hints follow, in any order and on any keys, a key resting until
    some time refuses every reservation before that time. *)
Theorem quota_cooldown_honoured b key u ops now :
  resting (quota_entry b key) u → Forall (λ o, o.2 < u) ops → now < u →
  let b' := foldl run_quota_op b ops in
  (is_available b' key now).1 = false ∧ (reserve_request b' key now).1 = false.
Proof.
  intros Hr Hops Hn b'.
  assert (resting (quota_entry b' key) u) as Hr'.
  { subst b'. revert b Hr. induction Hops as [|o ops Ho _ IH]; intros b Hr; simpl; [done|].
    apply IH. by apply run_quota_op_resting. }
  rewrite is_available_entry. unfold reserve_request. cbv zeta.
  rewrite (resting_unavailable _ u); [done|by apply expire_resting|done].
Qed.

Lemma rest_ms_ge h now fb s :
  1000 <= rest_ms parse_http_date h now fb s
  ∧ (∀ r, retry_after_ms parse_http_date h now = Some r → r <= rest_ms parse_http_date h now fb s).
Proof.
  unfold rest_ms. split; [lia|]. intros r Hr. pose proof (retry_after_ms_nonneg _ _ _ _ Hr).
  rewrite Hr. simpl option_list. destruct (max_opt _) as [m|] eqn:Hm; [|done].
  apply max_opt_Some in Hm as [_ Hm]. specialize (Hm r ltac:(set_solver)).
  simpl. destruct (Z.ltb_spec 0 m); simpl; lia.
Qed.

(** A rate-limit answer (402 or 429) puts its key to rest for at least one
    second and at least as long as Retry-After asks, without shortening a rest
    already in force; until then the key takes no reservation. *)
Theorem quota_rate_limit_rests b key status h now fb t :
  status = 402 ∨ status = 429 → is_i64 now →
  (∃ rest, (rest = 1000 ∨ retry_after_ms parse_http_date h now = Some rest
            ∨ ∃ c, qs_cooldown_until_ms (quota_entry b key) = Some c ∧ now + rest = c)
   ∧ t < i64_sat_add now rest) →
  let b' := observe b key status h now fb in
  (is_available b' key t).1 = false ∧ (reserve_request b' key t).1 = false.
Proof.
  intros Hst Hnow (rest & Hrest & Ht) b'.
  assert (resting (quota_entry b' key) (i64_sat_add now rest)) as Hr.
  { subst b'. unfold observe_response. cbv zeta. rewrite quota_entry_put decide_True //.
    assert ((status =? 402) || (status =? 429) = true) as -> by (destruct Hst as [-> | ->]; done).
    eexists. split; [done|]. unfold set_qs_consecutive_rate_limits at 1.
    cbn [qs_cooldown_until_ms]. rewrite learn_cooldown.
    match goal with |- context [rest_ms parse_http_date h now fb ?s] =>
      destruct (rest_ms_ge h now fb s) as [H1 H2]; set (r := rest_ms _ h now fb s) in * end.
    destruct Hrest as [-> | [Hra | (c & Hc & Hsum)]].
    - pose proof (i64_sat_add_mono now 1000 now r). lia.
    - specialize (H2 _ Hra). pose proof (i64_sat_add_mono now rest now r). lia.
    - rewrite Hc /=. mlia. }
  rewrite is_available_entry. unfold reserve_request. cbv zeta.
  by rewrite (resting_unavailable _ _ _ (expire_resting _ _ _ Hr Ht) Ht).
Qed.

End Cooldown.

(** ** Reservations *)

(** Reservations granted along a sequence of requests for one key. *)
Fixpoint reservations (b : QuotaBook) (key : Z) (times : list Z) : Z :=
  match times with
  | [] => 0
  | now :: times' =>
      (if (reserve_request b key now).1 then 1 else 0)
      + reservations (reserve_request b key now).2 key times'
  end.

Lemma expire_unreset s now r :
  qs_reset_at_ms s = Some r → now < r →
  qs_reset_at_ms (expire_quota_state s now) = Some r
  ∧ qs_remaining_requests (expire_quota_state s now) = qs_remaining_requests s
  ∧ qs_remaining_tokens (expire_quota_state s now) = qs_remaining_tokens s.
Proof.
  intros Hr Hn. unfold expire_quota_state. rewrite Hr /= (proj2 (Z.leb_gt _ _)) //.
  by destruct (is_some_and (qs_cooldown_until_ms s) _).
Qed.

(** One reservation before the reset, when [k] requests remain. *)
Lemma reserve_remaining b key now k r :
  qs_remaining_requests (quota_entry b key) = Some k → qs_reset_at_ms (quota_entry b key) = Some r →
  is_i64 k → now < r →
  let '(ok, b') := reserve_request b key now in
  qs_reset_at_ms (quota_entry b' key) = Some r
  ∧ qs_remaining_requests (quota_entry b' key) = Some (if ok then k - 1 else k)
  ∧ (ok = true → 0 < k).
Proof.
  intros Hk Hr Hi Hn. unfold reserve_request. cbv zeta.
  destruct (expire_unreset _ now r Hr Hn) as (Hr' & Hk' & Ht').
  set (s := expire_quota_state _ now) in *. clearbody s.
  destruct (state_available s now) eqn:E; simpl; rewrite quota_entry_put decide_True //;
    [|by rewrite Hk' Hk].
  assert (0 < k) as Hpos.
  { revert E. unfold state_available. rewrite Hr' Hk' Hk andb_true_iff negb_true_iff.
    intros [_ E]. rewrite (proj2 (Z.ltb_lt _ _)) in E; [|done]. unfold exhausted in E. simpl in E.
    apply orb_false_iff in E as [?%Z.leb_gt _]. lia. }
  split_and!; [done| |done]. rewrite /= Hk' Hk /=. f_equal. mlia.
Qed.

(** A key is never overbooked: while the provider's window has not reset, the
    reservations granted do not exceed the remaining requests it announced. *)
Theorem quota_never_overbooked b key k r times :
  qs_remaining_requests (quota_entry b key) = Some k → qs_reset_at_ms (quota_entry b key) = Some r →
  is_i64 k → Forall (λ now, now < r) times →
  reservations b key times <= Z.max 0 k.
Proof.
  intros Hk Hr Hi Ht. revert b k Hk Hr Hi.
  induction Ht as [|now times Hn _ IH]; intros b k Hk Hr Hi; simpl; [lia|].
  pose proof (reserve_remaining b key now k r Hk Hr Hi Hn) as H.
  destruct (reserve_request b key now) as [ok b']. destruct H as (Hr' & Hk' & Hpos). cbn [fst snd].
  specialize (IH b' _ Hk' Hr'). destruct ok.
  - specialize (Hpos eq_refl). assert (is_i64 (k - 1)) as Hi' by mlia. specialize (IH Hi'). lia.
  - specialize (IH Hi). lia.
Qed.

(** Reserving and asking agree: a reservation succeeds exactly when the key is
    reported available at that time, and it takes exactly one of the remaining
    requests. *)
Theorem quota_reserve_iff_available b key now :
  (reserve_request b key now).1 = (is_available b key now).1
  ∧ qs_remaining_requests (quota_entry (reserve_request b key now).2 key) =
      (if (reserve_request b key now).1
       then option_map (λ n, i64_sat_sub n 1)
              (qs_remaining_requests (expire_quota_state (quota_entry b key) now))
       else qs_remaining_requests (expire_quota_state (quota_entry b key) now)).
Proof.
  rewrite is_available_entry. unfold reserve_request. cbv zeta.
  destruct (state_available _ _); cbn [negb fst snd]; by rewrite quota_entry_put decide_True.
Qed.

(** ** Concrete runs *)
Definition no_date : string → option Z := λ _, None.
Definition wq_headers : string → option string :=
  λ n, if String.eqb n "retry-after" then Some "3"%string else None.
Definition wq_book : QuotaBook := observe_response no_date no_date new_quota_book 5 429 wq_headers 1000 0.

Lemma quota_cooldown_honoured_witness :
  let b' := foldl (run_quota_op no_date no_date) wq_book
              [(QReserve 5, 1500); (QObserve 5 200 (λ _, None) 0, 2000)] in
  (is_available b' 5 3999).1 = false ∧ (reserve_request b' 5 3999).1 = false.
Proof.
  apply (quota_cooldown_honoured no_date no_date wq_book 5 4000).
  - exists 4000. split; [vm_compute; reflexivity|lia].
  - repeat constructor; simpl; lia.
  - lia.
Defined.

Lemma quota_rate_limit_rests_witness :
  let b' := observe_response no_date no_date new_quota_book 5 429 wq_headers 1000 0 in
  (is_available b' 5 3999).1 = false ∧ (reserve_request b' 5 3999).1 = false.
Proof.
  apply (quota_rate_limit_rests no_date no_date new_quota_book 5 429 wq_headers 1000 0 3999).
  - by right.
  - mlia.
  - exists 3000. split; [right; left; vm_compute; reflexivity|vm_compute; reflexivity].
Defined.

Lemma quota_never_overbooked_witness :
  let b := put_quota 5 (MkQuota (Some 2) None (Some 9000) None 0 None) new_quota_book in
  reservations b 5 [10; 20; 30] <= Z.max 0 2.
Proof.
  apply (quota_never_overbooked
           (put_quota 5 (MkQuota (Some 2) None (Some 9000) None 0 None) new_quota_book) 5 2 9000).
  - vm_compute; reflexivity.
  - vm_compute; reflexivity.
  - mlia.
  - repeat constructor; lia.
Defined.
