(* ===== verification/KeyRotation.v ===== *)
(** * KeyRotation: round-robin over a provider's keys

    Models [key_rotation.rs]. [usize] is 64 bits wide. *)
From S2P Require Import Prelude.

Record KeyRotationBook := MkRotation { offsets : gmap Z Z }.

Definition new_rotation : KeyRotationBook := MkRotation ∅.

Definition rotate_provider {T} (b : KeyRotationBook) (provider_id : Z) (keys : list T)
    : list T * KeyRotationBook :=
  let len := Z.of_nat (length keys) in
  if len <=? 1 then (keys, b)
  else
    let offset := unwrap_or (offsets b !! provider_id) 0 in
    let start := Z.to_nat (offset mod len) in
    (drop start keys ++ take start keys,
     MkRotation (<[provider_id := u64_wrap (offset + 1) mod len]> (offsets b))).

(** The first choices of [n] successive calls. *)
Fixpoint first_choices {T} (n : nat) (b : KeyRotationBook) (provider_id : Z) (keys : list T) : list T :=
  match n with
  | O => []
  | S n' =>
      let '(order, b') := rotate_provider b provider_id keys in
      option_list (head order) ++ first_choices n' b' provider_id keys
  end.

Lemma rotate_provider_perm {T} b p (keys : list T) : (rotate_provider b p keys).1 ≡ₚ keys.
Proof.
  unfold rotate_provider. destruct (_ <=? 1); [done|]. cbn [fst].
  by rewrite Permutation_app_comm take_drop.
Qed.

Lemma head_drop {T} (l : list T) i : head (drop i l) = l !! i.
Proof. revert i. induction l as [|x l IH]; intros [|i]; simpl; done. Qed.

(** The offset of a book as an index among [len] keys. *)
Definition start_of (b : KeyRotationBook) (p : Z) (len : Z) : Z :=
  unwrap_or (offsets b !! p) 0 mod len.

Lemma rotate_provider_step {T} b p (keys : list T) :
  let len := Z.of_nat (length keys) in
  1 < len <= u64_max →
  0 <= unwrap_or (offsets b !! p) 0 < u64_max →
  let '(order, b') := rotate_provider b p keys in
  head order = keys !! Z.to_nat (start_of b p len)
  ∧ start_of b' p len = (start_of b p len + 1) mod len
  ∧ 0 <= unwrap_or (offsets b' !! p) 0 < u64_max.
Proof.
  cbv zeta. intros Hlen Hoff. unfold rotate_provider. cbv zeta.
  rewrite (proj2 (Z.leb_gt _ _)); [|lia].
  set (len := Z.of_nat (length keys)) in *. set (o := unwrap_or (offsets b !! p) 0) in *.
  pose proof (Z.mod_pos_bound o len ltac:(lia)) as Hb.
  cbn [offsets]. unfold start_of. fold o. rewrite lookup_insert decide_True //=. split_and!.
  - rewrite -head_drop. destruct (drop _ keys) eqn:E; [|done].
    apply (f_equal length) in E. rewrite length_drop /= in E. lia.
  - rewrite u64_wrap_id; [|mlia]. by rewrite Zmod_mod Zplus_mod_idemp_l.
  - pose proof (Z.mod_pos_bound (u64_wrap (o + 1)) len). lia.
  - pose proof (Z.mod_pos_bound (u64_wrap (o + 1)) len). lia.
Qed.

(** [n] calls read [n] consecutive positions, cyclically. *)
Lemma first_choices_lookup {T} n b p (keys : list T) :
  let len := Z.of_nat (length keys) in
  1 < len <= u64_max →
  0 <= unwrap_or (offsets b !! p) 0 < u64_max →
  first_choices n b p keys =
    omap (λ i : nat, keys !! Z.to_nat ((start_of b p len + Z.of_nat i) mod len)) (seq 0 n).
Proof.
  cbv zeta. intros Hlen. revert b. induction n as [|n IH]; intros b Hoff; [done|].
  simpl first_choices.
  pose proof (rotate_provider_step b p keys Hlen Hoff) as Hstep.
  destruct (rotate_provider b p keys) as [order b']. destruct Hstep as (Hh & Hs & Hoff').
  rewrite Hh IH // Hs. set (len := Z.of_nat (length keys)) in *.
  assert (∀ i : nat, keys !! Z.to_nat (((start_of b p len + 1) mod len + Z.of_nat i) mod len)
    = keys !! Z.to_nat ((start_of b p len + Z.of_nat (S i)) mod len)) as Hi.
  { intros i. rewrite Zplus_mod_idemp_l. do 3 f_equal. lia. }
  rewrite (omap_ext_in _ _ (seq 0 n) (λ i _, Hi i)).
  rewrite -(omap_list_fmap S (λ i : nat, keys !! Z.to_nat ((start_of b p len + Z.of_nat i) mod len))).
  rewrite fmap_S_seq. cbn [seq].
  assert (keys !! Z.to_nat (start_of b p len) = keys !! Z.to_nat ((start_of b p len + Z.of_nat 0) mod len)) as ->.
  { rewrite Z.add_0_r. unfold start_of. by rewrite Zmod_mod. }
  destruct (keys !! Z.to_nat ((start_of b p len + Z.of_nat 0) mod len)) as [x|] eqn:E.
  - by rewrite (omap_cons_Some _ _ _ x).
  - by rewrite omap_cons_None.
Qed.

(** Key rotation is fair: as many successive calls as a provider has keys put
    every key first exactly once, starting anywhere in the cycle, and each call
    returns a reordering of all the keys. *)
Theorem rotation_fair {T} b p (keys : list T) :
  1 < Z.of_nat (length keys) <= u64_max →
  0 <= unwrap_or (offsets b !! p) 0 < u64_max →
  first_choices (length keys) b p keys ≡ₚ keys ∧ (rotate_provider b p keys).1 ≡ₚ keys.
Proof.
  intros Hlen Hoff. split; [|apply rotate_provider_perm].
  rewrite first_choices_lookup //. set (len := Z.of_nat (length keys)) in *.
  set (s := start_of b p len).
  assert (0 <= s < len) as Hs by (apply Z.mod_pos_bound; lia).
  set (k := Z.to_nat (len - s)).
  assert (length keys = k + Z.to_nat s)%nat as Hsplit by lia.
  rewrite Hsplit seq_app omap_app.
  rewrite (omap_ext_in _ (λ i : nat, keys !! (Z.to_nat s + i)%nat) (seq 0 k)); last first.
  { intros i [_ Hi]%elem_of_seq. rewrite Z.mod_small; [|lia]. f_equal. lia. }
  rewrite (omap_ext_in _ (λ i : nat, keys !! (i - k)%nat) (seq (0 + k) (Z.to_nat s))); last first.
  { intros i [Hi1 Hi2]%elem_of_seq. rewrite -(Z_mod_plus_full _ (-1)) Z.mod_small; [|lia]. f_equal. lia. }
  rewrite -{3}(take_drop (Z.to_nat s) keys) Permutation_app_comm. apply Permutation_app.
  - rewrite -(omap_lookup_seq (take (Z.to_nat s) keys)) length_take Nat.min_l; [|lia].
    rewrite (Nat.add_comm 0 k) -fmap_add_seq omap_list_fmap.
    match goal with |- ?a ≡ₚ ?b => enough (a = b) as -> by done end. apply omap_ext_in. intros i [_ Hi]%elem_of_seq.
    rewrite lookup_take_lt; [|lia]. f_equal. lia.
  - rewrite -(omap_lookup_seq (drop (Z.to_nat s) keys)) length_drop.
    assert (length keys - Z.to_nat s = k)%nat as -> by lia.
    match goal with |- ?a ≡ₚ ?b => enough (a = b) as -> by done end. apply omap_ext_in. intros i _. by rewrite lookup_drop.
Qed.

Lemma rotation_fair_witness :
  first_choices 3 (MkRotation {[ 7 := 2 ]}) 7 [10; 20; 30] ≡ₚ [10; 20; 30].
Proof.
  apply (rotation_fair (MkRotation {[ 7 := 2 ]}) 7 [10; 20; 30]); vm_compute; intuition congruence.
Defined.

Example rotation_order :
  first_choices 4 new_rotation 7 [10; 20; 30] = [10; 20; 30; 10].
Proof. by vm_compute. Qed.
