(* ===== verification/Weighted.v ===== *)
(** * Weighted: picking an index in proportion to weights

    The loop shared by [weighted_order_pairs] of [selector.rs] and
    [weighted_sample_provider] of [proxy.rs]: negative weights count as zero. *)
From S2P Require Import Prelude.

(** The index whose weight interval holds [offset]; [None] when the loop runs out. *)
Fixpoint pick_index (weights : list Z) (offset : Z) : option nat :=
  match weights with
  | [] => None
  | w :: ws =>
      let weight := Z.max w 0 in
      if offset <? weight then Some O else option_map S (pick_index ws (offset - weight))
  end.

Definition total_weight (weights : list Z) : Z := sum_Z (map (λ w, Z.max w 0) weights).

Lemma total_weight_nonneg ws : 0 <= total_weight ws.
Proof. unfold total_weight. induction ws as [|w ws IH]; simpl; lia. Qed.

Lemma total_weight_take ws i w :
  ws !! i = Some w → total_weight (take i ws) + Z.max w 0 <= total_weight ws.
Proof.
  unfold total_weight. revert i. induction ws as [|v ws IH]; intros [|i] Hi; simpl in *; try done.
  - injection Hi as ->. pose proof (total_weight_nonneg ws). unfold total_weight in *. lia.
  - specialize (IH i Hi). lia.
Qed.

(** Index [i] is picked exactly for the offsets of an interval as long as its weight. *)
Lemma pick_index_spec ws offset i w :
  0 <= offset → ws !! i = Some w →
  pick_index ws offset = Some i ↔
    total_weight (take i ws) <= offset < total_weight (take i ws) + Z.max w 0.
Proof.
  unfold total_weight. revert offset i. induction ws as [|v ws IH]; intros offset i Ho Hi; [done|].
  cbn [pick_index]. cbv zeta. destruct i as [|i]; simpl in Hi |- *.
  - injection Hi as ->. destruct (Z.ltb_spec offset (Z.max w 0)); [naive_solver lia|].
    destruct (pick_index ws _); simpl; split; (congruence || lia).
  - pose proof (total_weight_nonneg (take i ws)) as Hn. unfold total_weight in Hn.
    destruct (Z.ltb_spec offset (Z.max v 0)).
    + split; [done|lia].
    + specialize (IH (offset - Z.max v 0) i ltac:(lia) Hi).
      destruct (pick_index ws (offset - Z.max v 0)) as [j|]; simpl.
      * split; intros H'; [injection H' as ->|f_equal].
        -- destruct IH as [IH _]. specialize (IH eq_refl). lia.
        -- destruct IH as [_ IH]. specialize (IH ltac:(lia)). congruence.
      * split; [done|]. intros H'. destruct IH as [_ IH]. specialize (IH ltac:(lia)). done.
Qed.

(** An offset below the total always picks some index, of positive weight. *)
Lemma pick_index_total ws offset :
  0 <= offset < total_weight ws →
  ∃ i w, pick_index ws offset = Some i ∧ ws !! i = Some w ∧ 0 < w.
Proof.
  unfold total_weight. revert offset. induction ws as [|w ws IH]; intros offset Ho; simpl in Ho; [lia|].
  cbn [pick_index]. cbv zeta. destruct (Z.ltb_spec offset (Z.max w 0)).
  - exists O, w. split_and!; [done|done|lia].
  - destruct (IH (offset - Z.max w 0)) as (i & v & -> & ? & ?); [lia|].
    by exists (S i), v.
Qed.
