(* ===== verification/Selector.v ===== *)
(** * Selector: ranking keys and endpoints by priority and health

    Models [selector.rs]. The generator's state is threaded through every draw. *)
From Stdlib Require Import Ascii String.
From S2P Require Import Prelude Text Weighted RuntimeHealth Types.

Inductive EndpointSelectorStrategy := Weighted | Latency.

Definition parse_strategy (raw : string) : option EndpointSelectorStrategy :=
  let s := to_ascii_lowercase (trim raw) in
  if existsb (String.eqb s) ["weighted"; "weight"; "random"]%string then Some Weighted
  else if existsb (String.eqb s) ["latency"; "lowest_latency"; "least_latency"]%string then Some Latency
  else None.

Section Order.
Context {R : Type} `{FastRand R}.

(** [.map(|(_, weight)| weight.max(0)).sum::<i32>()]: wraps in a release build. *)
Definition total_weight_i32 (weights : list Z) : Z :=
  foldl (λ acc w, i32_wrap (acc + Z.max w 0)) 0 weights.

(** The index drawn for one round of [weighted_order_pairs]. *)
Definition draw_index {T} (items : list (T * Z)) (r : R) : nat * R :=
  let weights := map snd items in
  let total := total_weight_i32 weights in
  if total <=? 0 then
    let '(index, r) := rand_below (Z.of_nat (length items)) r in (Z.to_nat index, r)
  else
    let '(offset, r) := rand_below total r in (unwrap_or (pick_index weights offset) O, r).

(** Every round removes an item: the number of items is enough fuel. *)
Fixpoint weighted_order_fuel {T} (fuel : nat) (items : list (T * Z)) (r : R) : list T * R :=
  match fuel, items with
  | O, _ | _, [] => ([], r)
  | S fuel', _ =>
      let '(index, r) := draw_index items r in
      match items !! index with
      | None => ([], r)
      | Some (item, _) =>
          let '(out, r) := weighted_order_fuel fuel' (swap_remove index items) r in
          (item :: out, r)
      end
  end.

Definition weighted_order_pairs {T} (items : list (T * Z)) (r : R) : list T * R :=
  weighted_order_fuel (length items) items r.

Section Describe.
Context {T : Type} (describe : T → bool * Z * Z * CircuitState * bool).

Definition d_enabled (x : T) : bool := (describe x).1.1.1.1.
Definition d_priority (x : T) : Z := (describe x).1.1.1.2.
Definition d_weight (x : T) : Z := (describe x).1.1.2.
Definition d_state (x : T) : CircuitState := (describe x).1.2.
Definition d_available (x : T) : bool := (describe x).2.

(** The loop of [order_by_priority_weight_refs]: the best priority first. *)
Fixpoint order_groups (fuel : nat) (enabled : list T) (r : R) : list T * R :=
  match fuel, enabled with
  | O, _ | _, [] => ([], r)
  | S fuel', _ =>
      let best := unwrap_or (min_opt (map d_priority enabled)) 0 in
      let group := List.filter (λ x, d_priority x =? best) enabled in
      let next := List.filter (λ x, negb (d_priority x =? best)) enabled in
      let '(out, r) := weighted_order_pairs (map (λ x, (x, d_weight x)) group) r in
      let '(rest, r) := order_groups fuel' next r in
      (out ++ rest, r)
  end.

Definition order_by_priority_weight_refs (items : list T) (r : R) : list T * R :=
  let enabled := List.filter d_enabled items in order_groups (length enabled) enabled r.

(** The longest prefix of the given priority, and the rest. *)
Fixpoint take_run (priority : Z) (l : list T) : list T * list T :=
  match l with
  | [] => ([], [])
  | x :: l' =>
      if d_priority x =? priority then
        let '(run, rest) := take_run priority l' in (x :: run, rest)
      else ([], l)
  end.

(** The members of a run in one circuit state, those available. *)
Definition in_circuit (k : CircuitState) (run : list T) : list (T * Z) :=
  map (λ x, (x, d_weight x))
    (List.filter (λ x, d_available x && bool_decide (d_state x = k)) run).

Fixpoint rank_runs (fuel : nat) (l : list T) (r : R) : list T * R :=
  match fuel, l with
  | O, _ | _, [] => ([], r)
  | S fuel', x :: _ =>
      let '(run, rest) := take_run (d_priority x) l in
      let '(closed, r) := weighted_order_pairs (in_circuit Closed run) r in
      let '(half_open, r) := weighted_order_pairs (in_circuit HalfOpen run) r in
      let '(out, r) := rank_runs fuel' rest r in
      (closed ++ half_open ++ out, r)
  end.

Definition rank_by_priority_and_health (items : list T) (r : R) : list T * R :=
  let '(prioritized, r) := order_by_priority_weight_refs items r in
  rank_runs (length prioritized) prioritized r.
End Describe.

Definition rank_key_refs_with_health (items : list UpstreamKey) (health : RuntimeHealthBook)
    (now_ms : Z) (r : R) : list UpstreamKey * R :=
  rank_by_priority_and_health (λ key,
    let v := snapshot health (uk_id key) now_ms in
    (uk_enabled key, uk_priority key, uk_weight key, hv_state v, hv_available v)) items r.
End Order.

Definition rank_endpoint_refs_with_health (items : list UpstreamEndpoint) (health : RuntimeHealthBook)
    (strategy : EndpointSelectorStrategy) (now_ms : Z) : list UpstreamEndpoint :=
  sort_by_key2 (λ e, (ue_priority e, ue_id e))
    (List.filter (λ e, ue_enabled e && hv_available (snapshot health (ue_id e) now_ms)) items).

(** ** Permutation and order *)
Section Facts.
Context {R : Type} `{FastRandOk R}.

Lemma pick_index_lt ws offset i : pick_index ws offset = Some i → (i < length ws)%nat.
Proof.
  revert offset i. induction ws as [|w ws IH]; intros offset i; simpl; [done|].
  destruct (_ <? _); [intros [= <-]; lia|].
  destruct (pick_index ws _) eqn:E; simpl; [|done]. intros [= <-]. specialize (IH _ _ E). lia.
Qed.

Lemma draw_index_lt {T} (items : list (T * Z)) (r : R) :
  items ≠ [] → ((draw_index items r).1 < length items)%nat.
Proof.
  intros Hne. assert (0 < length items)%nat as Hpos by (destruct items; simpl; [done|lia]).
  unfold draw_index. cbv zeta. destruct (Z.leb_spec (total_weight_i32 (map snd items)) 0).
  - pose proof (rand_below_range (Z.of_nat (length items)) r ltac:(lia)).
    destruct (rand_below _ r) as [i r']. cbn [fst] in *. lia.
  - destruct (rand_below _ r) as [o r']. cbn [fst].
    destruct (pick_index _ o) eqn:E; simpl; [|done].
    apply pick_index_lt in E. by rewrite length_map in E.
Qed.

Lemma weighted_order_fuel_perm {T} fuel (items : list (T * Z)) (r : R) :
  (length items <= fuel)%nat → (weighted_order_fuel fuel items r).1 ≡ₚ map fst items.
Proof.
  revert items r. induction fuel as [|fuel IH]; intros items r Hf.
  { by destruct items; [|simpl in Hf; lia]. }
  destruct (decide (items = [])) as [->|Hne]; [done|].
  pose proof (draw_index_lt items r Hne) as Hlt.
  assert (weighted_order_fuel (S fuel) items r =
    let '(index, r) := draw_index items r in
      match items !! index with
      | None => ([], r)
      | Some (item, _) =>
          let '(out, r) := weighted_order_fuel fuel (swap_remove index items) r in
          (item :: out, r)
      end) as -> by by destruct items.
  destruct (draw_index items r) as [i r']. cbn [fst] in Hlt.
  destruct (lookup_lt_is_Some_2 items i Hlt) as [[x w] Hx]. rewrite Hx.
  pose proof (swap_remove_length items i Hlt) as Hlen.
  specialize (IH (swap_remove i items) r' ltac:(lia)).
  destruct (weighted_order_fuel fuel _ r') as [out r'']. cbn [fst] in *.
  rewrite IH. by rewrite {2}(swap_remove_perm _ _ _ Hx).
Qed.

Lemma weighted_order_pairs_perm {T} (items : list (T * Z)) (r : R) :
  (weighted_order_pairs items r).1 ≡ₚ map fst items.
Proof. by apply weighted_order_fuel_perm. Qed.

Context {T : Type} (describe : T → bool * Z * Z * CircuitState * bool).
Abbreviation priority := (d_priority describe).
Abbreviation weight := (d_weight describe).

Lemma map_fst_weight (l : list T) : map fst (map (λ x, (x, weight x)) l) = l.
Proof. rewrite map_map. apply map_id. Qed.

Lemma filter_split_perm (f : T → bool) l :
  List.filter f l ++ List.filter (λ x, negb (f x)) l ≡ₚ l.
Proof.
  induction l as [|x l IH]; simpl; [done|].
  destruct (f x); simpl; [by rewrite IH|]. by rewrite -Permutation_middle IH.
Qed.

Lemma order_groups_spec fuel l (r : R) :
  (length l <= fuel)%nat →
  (order_groups describe fuel l r).1 ≡ₚ l
  ∧ StronglySorted (λ x y, priority x <= priority y) (order_groups describe fuel l r).1.
Proof.
  revert l r. induction fuel as [|fuel IH]; intros l r Hf.
  { destruct l; [|simpl in Hf; lia]. split; [done|constructor]. }
  destruct l as [|x l]; [split; [done|constructor]|].
  cbn [order_groups]. cbv zeta. set (L := x :: l) in *.
  destruct (min_opt (map priority L)) as [best|] eqn:Hb; [|done]. cbn [unwrap_or].
  apply min_opt_Some in Hb as [Hin Hmin].
  set (group := List.filter (λ y, priority y =? best) L).
  set (next := List.filter (λ y, negb (priority y =? best)) L).
  assert (group ++ next ≡ₚ L) as Hsplit by apply filter_split_perm.
  assert (length next <= fuel)%nat as Hnext.
  { apply Permutation_length in Hsplit. rewrite length_app in Hsplit.
    assert (0 < length group)%nat; [|lia].
    apply list_elem_of_In, in_map_iff in Hin as (y & Hy & Hyin).
    assert (In y group) as Hg by (apply filter_In; split; [done|by apply Z.eqb_eq]).
    destruct group; [done|simpl; lia]. }
  pose proof (weighted_order_pairs_perm (map (λ x, (x, weight x)) group) r) as Hg.
  rewrite map_fst_weight in Hg.
  destruct (weighted_order_pairs _ r) as [out r1]. cbn [fst] in Hg.
  destruct (IH next r1 Hnext) as [Hp Hs]. destruct (order_groups describe fuel next r1) as [rest r2].
  cbn [fst] in *. split; [by rewrite Hg Hp|].
  assert (∀ y, y ∈ out → priority y = best) as Hout.
  { intros y Hy. rewrite Hg in Hy. apply list_elem_of_In, filter_In in Hy as [_ Hy]. by apply Z.eqb_eq. }
  apply StronglySorted_app_2; [intros y z Hy Hz| |done].
  - rewrite (Hout y Hy). apply Hmin. rewrite Hp in Hz.
    apply list_elem_of_In, filter_In in Hz as [Hz _]. apply list_elem_of_In.
    by apply (in_map priority).
  - clear Hg Hs Hp Hsplit. induction out as [|y out IHo]; [constructor|].
    constructor; [apply IHo; intros; apply Hout; set_solver|].
    apply Forall_forall. intros z Hz. rewrite (Hout y) ?(Hout z); set_solver by lia.
Qed.

Lemma order_by_priority_spec l (r : R) :
  (order_by_priority_weight_refs describe l r).1 ≡ₚ List.filter (d_enabled describe) l
  ∧ StronglySorted (λ x y, priority x <= priority y) (order_by_priority_weight_refs describe l r).1.
Proof. unfold order_by_priority_weight_refs. by apply order_groups_spec. Qed.

Lemma take_run_spec p l :
  let '(run, rest) := take_run describe p l in
  l = run ++ rest ∧ (∀ x, x ∈ run → priority x = p)
  ∧ (StronglySorted (λ x y, priority x <= priority y) l → (∀ x, x ∈ l → p <= priority x) →
     ∀ y, y ∈ rest → p < priority y).
Proof.
  induction l as [|x l IH]; simpl.
  { split_and!; [done|set_solver|set_solver]. }
  destruct (Z.eqb_spec (priority x) p) as [E|E].
  - destruct (take_run describe p l) as [run rest]. destruct IH as (-> & Hrun & Hrest).
    split_and!; [done| |].
    + intros y [->|Hy]%elem_of_cons; auto.
    + intros [_ Hs]%StronglySorted_cons Hmin. apply Hrest; [done|]. set_solver.
  - split_and!; [done|set_solver|]. intros [Hall _]%StronglySorted_cons Hmin y Hy.
    assert (p <= priority x) as Hx by (apply Hmin; set_solver).
    apply elem_of_cons in Hy as [->|Hy]; [lia|].
    rewrite Forall_forall in Hall. specialize (Hall y Hy). lia.
Qed.

(** Position of a circuit state in the ranking. *)
Definition circuit_rank (k : CircuitState) : Z := match k with Closed => 0 | _ => 1 end.

Definition rankable (x : T) : bool :=
  d_available describe x && negb (bool_decide (d_state describe x = Open)).

Definition rank_le (x y : T) : Prop :=
  lex_leb (priority x, circuit_rank (d_state describe x))
          (priority y, circuit_rank (d_state describe y)) = true.

Lemma in_circuit_members k run :
  map fst (in_circuit describe k run) =
    List.filter (λ x, d_available describe x && bool_decide (d_state describe x = k)) run.
Proof. apply map_fst_weight. Qed.

Lemma rankable_split run :
  List.filter (λ x, d_available describe x && bool_decide (d_state describe x = Closed)) run
  ++ List.filter (λ x, d_available describe x && bool_decide (d_state describe x = HalfOpen)) run
  ≡ₚ List.filter rankable run.
Proof.
  unfold rankable. induction run as [|x run IH]; simpl; [done|].
  destruct (d_available describe x); simpl; [|exact IH].
  destruct (d_state describe x); simpl; rewrite ?bool_decide_true ?bool_decide_false //=.
  - by rewrite IH.
  - by rewrite -Permutation_middle IH.
Qed.

Lemma constant_sorted l p k :
  (∀ x, x ∈ l → priority x = p ∧ circuit_rank (d_state describe x) = k) → StronglySorted rank_le l.
Proof.
  induction l as [|x l IH]; intros Hl; [constructor|]. apply StronglySorted_cons. split.
  - apply Forall_forall. intros y Hy. unfold rank_le. apply lex_leb_true. simpl.
    destruct (Hl x ltac:(set_solver)), (Hl y ltac:(set_solver)). lia.
  - apply IH. intros y Hy. apply Hl. set_solver.
Qed.

(** The members of a run, closed circuits first. *)
Lemma run_sorted p closed half run :
  (∀ x, x ∈ run → priority x = p) →
  closed ≡ₚ map fst (in_circuit describe Closed run) →
  half ≡ₚ map fst (in_circuit describe HalfOpen run) →
  closed ++ half ≡ₚ List.filter rankable run
  ∧ (∀ x, x ∈ closed ++ half → priority x = p) ∧ StronglySorted rank_le (closed ++ half).
Proof.
  intros Hrun Hc Hh. rewrite in_circuit_members in Hc. rewrite in_circuit_members in Hh.
  assert (∀ k l x, l ≡ₚ List.filter (λ x, d_available describe x && bool_decide (d_state describe x = k)) run →
    x ∈ l → priority x = p ∧ d_state describe x = k) as Hmem.
  { intros k l x Hl Hx. rewrite Hl in Hx. apply list_elem_of_In, filter_In in Hx as [Hx Hk].
    apply andb_true_iff in Hk as [_ Hk%bool_decide_eq_true]. split; [|done].
    apply Hrun. by apply list_elem_of_In. }
  assert (∀ x, x ∈ closed → priority x = p ∧ circuit_rank (d_state describe x) = 0) as Hc'.
  { intros x Hx. destruct (Hmem _ _ _ Hc Hx) as [? ->]. done. }
  assert (∀ x, x ∈ half → priority x = p ∧ circuit_rank (d_state describe x) = 1) as Hh'.
  { intros x Hx. destruct (Hmem _ _ _ Hh Hx) as [? ->]. done. }
  split_and!.
  - rewrite Hc Hh. apply rankable_split.
  - intros x [Hx|Hx]%elem_of_app; [apply (Hc' x Hx)|apply (Hh' x Hx)].
  - apply StronglySorted_app_2; [|by eapply constant_sorted|by eapply constant_sorted].
    intros x y Hx Hy. destruct (Hc' x Hx), (Hh' y Hy). unfold rank_le. apply lex_leb_true. simpl. lia.
Qed.

Lemma rank_runs_spec fuel l (r : R) :
  (length l <= fuel)%nat → StronglySorted (λ x y, priority x <= priority y) l →
  (rank_runs describe fuel l r).1 ≡ₚ List.filter rankable l
  ∧ StronglySorted rank_le (rank_runs describe fuel l r).1.
Proof.
  revert l r. induction fuel as [|fuel IH]; intros l r Hf Hs.
  { destruct l; [|simpl in Hf; lia]. split; [done|constructor]. }
  destruct l as [|x l]; [split; [done|constructor]|].
  cbn [rank_runs]. pose proof (take_run_spec (priority x) (x :: l)) as Hrun.
  assert (∃ run', (take_run describe (priority x) (x :: l)).1 = x :: run') as [run' Hx].
  { simpl. rewrite Z.eqb_refl. destruct (take_run _ _ l). by eexists. }
  destruct (take_run describe (priority x) (x :: l)) as [run rest]. cbn [fst] in Hx.
  destruct Hrun as (Hl & Hp & Hrest).
  assert (∀ y, y ∈ rest → priority x < priority y) as Hrest'.
  { apply Hrest; [done|]. intros y [->|Hy]%elem_of_cons; [done|].
    apply StronglySorted_cons in Hs as [Hall _]. rewrite Forall_forall in Hall. by apply Hall. }
  pose proof (weighted_order_pairs_perm (in_circuit describe Closed run) r) as Hc.
  destruct (weighted_order_pairs (in_circuit describe Closed run) r) as [closed r1]. cbn [fst] in Hc.
  pose proof (weighted_order_pairs_perm (in_circuit describe HalfOpen run) r1) as Hh.
  destruct (weighted_order_pairs (in_circuit describe HalfOpen run) r1) as [half r2]. cbn [fst] in Hh.
  destruct (run_sorted (priority x) closed half run Hp Hc Hh) as (Hperm & Hmem & Hsort).
  assert (length rest <= fuel)%nat as Hlen.
  { apply (f_equal length) in Hl. rewrite length_app Hx /= in Hl. simpl in Hf. lia. }
  assert (StronglySorted (λ x y, priority x <= priority y) rest) as Hsr.
  { rewrite Hl in Hs. by apply StronglySorted_app_1_r in Hs. }
  destruct (IH rest r2 Hlen Hsr) as [Hperm' Hsort'].
  destruct (rank_runs describe fuel rest r2) as [out r3]. cbn [fst] in *.
  rewrite app_assoc Hl List.filter_app. split; [by rewrite Hperm Hperm'|].
  apply StronglySorted_app_2; [|done|done]. intros y z Hy Hz.
  unfold rank_le. apply lex_leb_true. simpl. left. rewrite (Hmem y Hy). apply Hrest'.
  rewrite Hperm' in Hz. apply list_elem_of_In, filter_In in Hz as [Hz _]. by apply list_elem_of_In.
Qed.
End Facts.

Lemma rank_keys_spec {R} `{FastRandOk R} items health now (r : R) :
  let out := (rank_key_refs_with_health items health now r).1 in
  out ≡ₚ List.filter (λ k, uk_enabled k && hv_available (snapshot health (uk_id k) now)) items
  ∧ StronglySorted (λ a b,
      lex_leb (uk_priority a, circuit_rank (hv_state (snapshot health (uk_id a) now)))
              (uk_priority b, circuit_rank (hv_state (snapshot health (uk_id b) now))) = true) out.
Proof.
  cbv zeta. unfold rank_key_refs_with_health, rank_by_priority_and_health.
  set (describe := λ key : UpstreamKey, _).
  destruct (order_by_priority_spec describe items r) as [Hp Hs].
  destruct (order_by_priority_weight_refs describe items r) as [l r1]. cbn [fst] in Hp, Hs.
  destruct (rank_runs_spec describe (length l) l r1 (Nat.le_refl _) Hs) as [Hp' Hs'].
  split; [|exact Hs']. rewrite Hp'.
  assert (∀ f (l1 l2 : list UpstreamKey), l1 ≡ₚ l2 → List.filter f l1 ≡ₚ List.filter f l2) as Hfilter.
  { intros f l1 l2. induction 1; simpl; repeat destruct (f _);
      eauto using perm_skip, perm_swap, perm_trans. }
  rewrite (Hfilter _ _ _ Hp). unfold rankable. clear Hp' Hs' Hp Hs.
  induction items as [|k items IH]; simpl; [done|].
  assert (d_enabled describe k = uk_enabled k) as -> by done.
  destruct (uk_enabled k); simpl; [|exact IH].
  change (d_available describe k) with (hv_available (snapshot health (uk_id k) now)).
  change (d_state describe k) with (hv_state (snapshot health (uk_id k) now)).
  destruct (snapshot_entry health (uk_id k) now) as [Hk Ha].
  destruct (hv_available (snapshot health (uk_id k) now)) eqn:E; simpl; [|exact IH].
  rewrite bool_decide_false /=; [by rewrite IH|]. rewrite Hk. intros Ho. by rewrite Ho in Ha.
Qed.

(** Key ranking loses and invents nothing and respects the order: the result
    is a permutation of the enabled keys whose circuit admits traffic, sorted by
    priority and, within a priority, closed circuits before half-open ones,
    whatever the weights and the random draws. *)
Theorem key_ranking_correct {R} `{FastRandOk R} items health now (r : R) :
  let out := (rank_key_refs_with_health items health now r).1 in
  out ≡ₚ List.filter (λ k, uk_enabled k && hv_available (snapshot health (uk_id k) now)) items
  ∧ StronglySorted (λ a b,
      lex_leb (uk_priority a, circuit_rank (hv_state (snapshot health (uk_id a) now)))
              (uk_priority b, circuit_rank (hv_state (snapshot health (uk_id b) now))) = true) out.
Proof. apply rank_keys_spec. Qed.

Lemma key_ranking_correct_witness :
  (rank_key_refs_with_health
     [MkKey 9 1 "b" "s" true 200 1; MkKey 8 1 "a" "s" true 100 1; MkKey 7 1 "p" "s" true 100 5]
     wit_b3 40000 (3 : Z)).1
  ≡ₚ [MkKey 8 1 "a" "s" true 100 1; MkKey 7 1 "p" "s" true 100 5; MkKey 9 1 "b" "s" true 200 1].
Proof.
  etransitivity; [apply (key_ranking_correct (R := Z))|].
  match goal with |- ?a ≡ₚ _ => assert (a = [MkKey 9 1 "b" "s" true 200 1; MkKey 8 1 "a" "s" true 100 1;
    MkKey 7 1 "p" "s" true 100 5]) as -> by (vm_compute; reflexivity) end.
  apply Permutation_cons_append.
Defined.

(** Weights are summed in 32 bits: two keys whose weights add up past 2^31 - 1
    are drawn uniformly, so a key of weight 1 comes first for half of the draws
    although the other one weighs two thousand million times more. *)
Theorem weighted_order_overflow {R} `{FastRand R} {T} (a b : T) (r : R) :
  draw_index [(a, 2147483647); (b, 1)] r =
    (Z.to_nat (rand_below 2 r).1, (rand_below 2 r).2).
Proof.
  unfold draw_index. cbn [map snd length Z.of_nat Pos.of_succ_nat Pos.succ].
  assert (total_weight_i32 [2147483647; 1] = -2147483648) as -> by by vm_compute.
  cbv beta iota zeta. change (-2147483648 <=? 0) with true. cbv iota. change (Z.of_nat 2) with 2. by destruct (rand_below 2 r).
Qed.

(** Endpoint ranking: the enabled endpoints whose circuit admits traffic, by
    priority and then by id. *)
Theorem endpoint_ranking_correct items health strategy now :
  let out := rank_endpoint_refs_with_health items health strategy now in
  out ≡ₚ List.filter (λ e, ue_enabled e && hv_available (snapshot health (ue_id e) now)) items
  ∧ StronglySorted (λ a b, lex_leb (ue_priority a, ue_id a) (ue_priority b, ue_id b) = true) out.
Proof.
  cbv zeta. unfold rank_endpoint_refs_with_health. split; [apply sort_by_key2_perm|].
  apply (sort_by_key2_sorted (λ e, (ue_priority e, ue_id e))).
Qed.
