(* ===== verification/Affinity.v ===== *)
(** * Affinity: sessions bound to providers

    Models [affinity.rs]. The book's state is behind one lock, held for the whole of
    each operation. Evicting the least recently seen entry breaks ties by the
    iteration order of the hash map, a parameter ([HashOrder]); the digest BLAKE3
    and the JSON parser belong to crates and are parameters too. *)
From Stdlib Require Import Ascii String.
From S2P Require Import Prelude Text Json.

Inductive AffinitySource :=
  | SessionId | SessionIdUnderscore | XSessionId | ThreadId
  | PromptCacheKey | MetadataSessionId | MetadataUserId.

(** A digest, as its bytes. *)
Definition AffinityKey : Type := list Z.

#[export] Instance AffinityKey_eq_dec : EqDecision AffinityKey := list_eq_dec.
#[export] Instance AffinityKey_countable : Countable AffinityKey := list_countable.

Record AffinityIdentity := MkIdentity {
  ai_key : AffinityKey;
  ai_routing_key : AffinityKey;
  ai_source : AffinitySource;
  ai_log_hash : string
}.

Record AffinityBinding := MkBinding {
  ab_provider_id : Z;
  ab_upstream_key_id : option Z;
  ab_endpoint_id : option Z;
  ab_generation : Z;
  ab_confirmed : bool
}.

Record AffinityEntry := MkEntry {
  ae_provider_id : Z;
  ae_upstream_key_id : option Z;
  ae_endpoint_id : option Z;
  ae_generation : Z;
  ae_confirmed : bool;
  ae_expires_at_ms : Z;
  ae_last_seen_ms : Z
}.

Record AvoidEntry := MkAvoid { av_provider_id : Z; av_until_ms : Z; av_last_seen_ms : Z }.

Record AffinityState := MkAffinity {
  entries : gmap AffinityKey AffinityEntry;
  avoided : gmap AffinityKey AvoidEntry;
  next_generation : Z
}.

Definition default_affinity : AffinityState := MkAffinity ∅ ∅ 0.

Record AffinityBook := MkAffinityBook { ttl_ms : Z; max_entries : Z; af_state : AffinityState }.

(** [Duration::as_millis().min(i64::MAX)] *)
Definition millis_i64 (ns : Z) : Z := Z.min (ns / 1000000) i64_max.

Definition new_affinity_book (ttl_ns max : Z) : AffinityBook :=
  MkAffinityBook (millis_i64 ttl_ns) (Z.max max 1) default_affinity.

Definition set_state (s : AffinityState) (b : AffinityBook) : AffinityBook :=
  MkAffinityBook (ttl_ms b) (max_entries b) s.
Definition set_entries (m : gmap AffinityKey AffinityEntry) (s : AffinityState) : AffinityState :=
  MkAffinity m (avoided s) (next_generation s).
Definition set_avoided (m : gmap AffinityKey AvoidEntry) (s : AffinityState) : AffinityState :=
  MkAffinity (entries s) m (next_generation s).
Definition set_next_generation (g : Z) (s : AffinityState) : AffinityState :=
  MkAffinity (entries s) (avoided s) g.

Definition clear (b : AffinityBook) : AffinityBook := set_state default_affinity b.

(** The entry seen now: its life starts again. *)
Definition touch (ttl now_ms : Z) (e : AffinityEntry) : AffinityEntry :=
  MkEntry (ae_provider_id e) (ae_upstream_key_id e) (ae_endpoint_id e) (ae_generation e)
    (ae_confirmed e) (i64_sat_add now_ms ttl) now_ms.
Definition confirm_entry (e : AffinityEntry) : AffinityEntry :=
  MkEntry (ae_provider_id e) (ae_upstream_key_id e) (ae_endpoint_id e) (ae_generation e)
    true (ae_expires_at_ms e) (ae_last_seen_ms e).
Definition binding_of (e : AffinityEntry) : AffinityBinding :=
  MkBinding (ae_provider_id e) (ae_upstream_key_id e) (ae_endpoint_id e) (ae_generation e) (ae_confirmed e).

Definition expired (now_ms : Z) (e : AffinityEntry) : bool := ae_expires_at_ms e <=? now_ms.

(** [x.wrapping_add(1).max(1)] *)
Definition bump (g : Z) : Z := Z.max (u64_wrap (g + 1)) 1.

Definition remove_expired (now_ms : Z) (s : AffinityState) : AffinityState :=
  s |> set_entries (retain (λ e, now_ms <? ae_expires_at_ms e) (entries s))
    |> set_avoided (retain (λ e, now_ms <? av_until_ms e) (avoided s)).

Section Book.
Context {EntryOrder : HashOrder AffinityKey AffinityEntry}.
Context {AvoidOrder : HashOrder AffinityKey AvoidEntry}.

(** The loop evicts an entry per round: the map's size is enough fuel. *)
Fixpoint evict_entries (fuel : nat) (max : Z) (s : AffinityState) : AffinityState :=
  match fuel with
  | O => s
  | S fuel' =>
      if Z.of_nat (size (entries s)) <? max then s
      else match min_by_key (λ kv, ae_last_seen_ms kv.2) (hash_entries (entries s)) with
           | None => s
           | Some (oldest, _) =>
               evict_entries fuel' max
                 (s |> set_entries (delete oldest (entries s)) |> set_avoided (delete oldest (avoided s)))
           end
  end.

Definition ensure_entry_capacity (max now_ms : Z) (s : AffinityState) : AffinityState :=
  if Z.of_nat (size (entries s)) <? max then s
  else
    let s := set_entries (retain (λ e, now_ms <? ae_expires_at_ms e) (entries s)) s in
    evict_entries (size (entries s)) max s.

Fixpoint evict_avoided (fuel : nat) (max : Z) (s : AffinityState) : AffinityState :=
  match fuel with
  | O => s
  | S fuel' =>
      if Z.of_nat (size (avoided s)) <? max then s
      else match min_by_key (λ kv, av_last_seen_ms kv.2) (hash_entries (avoided s)) with
           | None => s
           | Some (oldest, _) => evict_avoided fuel' max (set_avoided (delete oldest (avoided s)) s)
           end
  end.

Definition ensure_avoid_capacity (max now_ms : Z) (s : AffinityState) : AffinityState :=
  if Z.of_nat (size (avoided s)) <? max then s
  else
    let s := set_avoided (retain (λ e, now_ms <? av_until_ms e) (avoided s)) s in
    evict_avoided (size (avoided s)) max s.

(** ** Operations *)

(** An expired entry is dropped before it is read. *)
Definition drop_expired (k : AffinityKey) (now_ms : Z) (s : AffinityState) : AffinityState :=
  if is_some_and (entries s !! k) (expired now_ms) then set_entries (delete k (entries s)) s else s.

Definition lookup (b : AffinityBook) (i : AffinityIdentity) (now_ms : Z)
    : option AffinityBinding * AffinityBook :=
  let k := ai_routing_key i in
  let s := drop_expired k now_ms (af_state b) in
  match entries s !! k with
  | None => (None, set_state s b)
  | Some e =>
      let e := touch (ttl_ms b) now_ms e in
      (Some (binding_of e), set_state (set_entries (<[k := e]> (entries s)) s) b)
  end.

(** A new entry with the next generation. *)
Definition install (b : AffinityBook) (k : AffinityKey) (provider_id : Z)
    (upstream_key_id endpoint_id : option Z) (confirmed : bool) (now_ms : Z) (s : AffinityState)
    : AffinityEntry * AffinityState :=
  let s := set_next_generation (bump (next_generation s)) s in
  let e := MkEntry provider_id upstream_key_id endpoint_id (next_generation s) confirmed
             (i64_sat_add now_ms (ttl_ms b)) now_ms in
  (e, set_entries (<[k := e]> (entries s)) s).

Definition claim_target (b : AffinityBook) (i : AffinityIdentity) (provider_id : Z)
    (upstream_key_id endpoint_id : option Z) (now_ms : Z) : AffinityBinding * AffinityBook :=
  let k := ai_routing_key i in
  let s := drop_expired k now_ms (af_state b) in
  match entries s !! k with
  | Some e =>
      let e := touch (ttl_ms b) now_ms e in
      (binding_of e, set_state (set_entries (<[k := e]> (entries s)) s) b)
  | None =>
      let s := ensure_entry_capacity (max_entries b) now_ms s in
      let '(e, s) := install b k provider_id upstream_key_id endpoint_id false now_ms s in
      (binding_of e, set_state s b)
  end.

Definition claim (b : AffinityBook) (i : AffinityIdentity) (provider_id now_ms : Z) :=
  claim_target b i provider_id None None now_ms.

Definition confirm (b : AffinityBook) (i : AffinityIdentity) (binding : AffinityBinding) (now_ms : Z)
    : bool * AffinityBook :=
  let k := ai_routing_key i in
  let s := af_state b in
  match entries s !! k with
  | None => (false, b)
  | Some e =>
      if negb (ae_provider_id e =? ab_provider_id binding)
         || negb (ae_generation e =? ab_generation binding) then (false, b)
      else (true, set_state (s |> set_entries (<[k := touch (ttl_ms b) now_ms (confirm_entry e)]> (entries s))
                                |> set_avoided (delete k (avoided s))) b)
  end.

Definition migrate_target (b : AffinityBook) (i : AffinityIdentity) (provider_id : Z)
    (upstream_key_id endpoint_id : option Z) (now_ms : Z) : AffinityBinding * AffinityBook :=
  let k := ai_routing_key i in
  let s := af_state b in
  let s := if is_some (entries s !! k) then s else ensure_entry_capacity (max_entries b) now_ms s in
  let '(e, s) := install b k provider_id upstream_key_id endpoint_id true now_ms s in
  (binding_of e, set_state (set_avoided (delete k (avoided s)) s) b).

Definition migrate (b : AffinityBook) (i : AffinityIdentity) (provider_id now_ms : Z) :=
  migrate_target b i provider_id None None now_ms.

Definition refresh_if_provider (b : AffinityBook) (i : AffinityIdentity) (provider_id now_ms : Z)
    : bool * AffinityBook :=
  let k := ai_routing_key i in
  let s := af_state b in
  match entries s !! k with
  | None => (false, b)
  | Some e =>
      if negb (ae_provider_id e =? provider_id) then (false, b)
      else (true, set_state (set_entries (<[k := touch (ttl_ms b) now_ms (confirm_entry e)]> (entries s)) s) b)
  end.

Definition refresh_if_target (b : AffinityBook) (i : AffinityIdentity) (binding : AffinityBinding)
    (now_ms : Z) : bool * AffinityBook :=
  let k := ai_routing_key i in
  let s := af_state b in
  match entries s !! k with
  | None => (false, b)
  | Some e =>
      if negb (ae_provider_id e =? ab_provider_id binding)
         || negb (opt_eqb (ae_upstream_key_id e) (ab_upstream_key_id binding))
         || negb (opt_eqb (ae_endpoint_id e) (ab_endpoint_id binding))
         || negb (ae_generation e =? ab_generation binding) then (false, b)
      else (true, set_state (set_entries (<[k := touch (ttl_ms b) now_ms (confirm_entry e)]> (entries s)) s) b)
  end.

Definition clear_if_provider (b : AffinityBook) (i : AffinityIdentity) (provider_id : Z) : bool * AffinityBook :=
  let k := ai_routing_key i in
  let s := af_state b in
  let matches := is_some_and (entries s !! k) (λ e, ae_provider_id e =? provider_id) in
  (matches, if matches then set_state (set_entries (delete k (entries s)) s) b else b).

Definition mark_provider_failed (b : AffinityBook) (i : AffinityIdentity) (provider_id now_ms avoid_ns : Z)
    : AffinityBook :=
  let avoid_ms := millis_i64 avoid_ns in
  let k := ai_routing_key i in
  let s := af_state b in
  let s := if is_some_and (entries s !! k) (λ e, ae_provider_id e =? provider_id)
           then set_entries (delete k (entries s)) s else s in
  let s := if is_some (avoided s !! k) then s else ensure_avoid_capacity (max_entries b) now_ms s in
  set_state (set_avoided (<[k := MkAvoid provider_id (i64_sat_add now_ms avoid_ms) now_ms]> (avoided s)) s) b.

Definition is_provider_avoided (b : AffinityBook) (i : AffinityIdentity) (provider_id now_ms : Z)
    : bool * AffinityBook :=
  let k := ai_routing_key i in
  let s := af_state b in
  match avoided s !! k with
  | None => (false, b)
  | Some e =>
      if av_until_ms e <=? now_ms then (false, set_state (set_avoided (delete k (avoided s)) s) b)
      else (av_provider_id e =? provider_id,
            set_state (set_avoided (<[k := MkAvoid (av_provider_id e) (av_until_ms e) now_ms]> (avoided s)) s) b)
  end.

Definition affinity_purge_provider (b : AffinityBook) (provider_id : Z) : AffinityBook :=
  let s := af_state b in
  set_state (s |> set_entries (retain (λ e, negb (ae_provider_id e =? provider_id)) (entries s))
               |> set_avoided (retain (λ e, negb (av_provider_id e =? provider_id)) (avoided s))) b.

Definition purge_upstream_key (b : AffinityBook) (upstream_key_id : Z) : AffinityBook :=
  let s := af_state b in
  set_state (set_entries (retain (λ e, negb (opt_eqb (ae_upstream_key_id e) (Some upstream_key_id))) (entries s)) s) b.

Definition purge_endpoint (b : AffinityBook) (endpoint_id : Z) : AffinityBook :=
  let s := af_state b in
  set_state (set_entries (retain (λ e, negb (opt_eqb (ae_endpoint_id e) (Some endpoint_id))) (entries s)) s) b.

(** One more confirmed session of the entry's provider. *)
Definition count_binding (counts : gmap Z Z) (kv : AffinityKey * AffinityEntry) : gmap Z Z :=
  if ae_confirmed kv.2 then
    <[ae_provider_id kv.2 := unwrap_or (counts !! ae_provider_id kv.2) 0 + 1]> counts
  else counts.

Definition binding_counts_by_provider (b : AffinityBook) (now_ms : Z) : gmap Z Z * AffinityBook :=
  let s := remove_expired now_ms (af_state b) in
  (foldl count_binding ∅ (hash_entries (entries s)), set_state s b).
End Book.

(** ** Identities *)

(** [i64::to_le_bytes] *)
Definition le_bytes (z : Z) : list Z :=
  map (λ i : nat, (u64_wrap z / 256 ^ Z.of_nat i) mod 256) (seq 0 8).

Definition as_bytes (s : string) : list Z := map code (chars s).

Definition normalize_session_id (value : string) : option string :=
  let value := trim value in
  if (str_len value =? 0) || (256 <? str_len value) || has_control (chars value) then None
  else Some value.

Section Identity.
Context (blake3 : list Z → list Z) (from_str : string → option Value).

(** What is hashed for a session of an API key. *)
Definition identity_input (api_key_id : Z) (session_id : string) : list Z :=
  le_bytes api_key_id ++ [0] ++ as_bytes session_id.

Definition build_identity (api_key_id : Z) (session_id : string) (source : AffinitySource) : AffinityIdentity :=
  let hash := blake3 (identity_input api_key_id session_id) in
  MkIdentity hash hash source (hex_encode (take 6 hash)).

Definition model_input (key : AffinityKey) (model : string) : list Z := key ++ [0] ++ as_bytes model.

Definition for_model (i : AffinityIdentity) (model : string) : AffinityIdentity :=
  MkIdentity (ai_key i) (blake3 (model_input (ai_key i) model)) (ai_source i) (ai_log_hash i).

Definition derived_prompt_cache_key (i : AffinityIdentity) : string :=
  ("lg_" ++ hex_encode (ai_key i))%string.

Definition header_candidates : list (string * AffinitySource) :=
  [("session-id", SessionId); ("session_id", SessionIdUnderscore);
   ("x-session-id", XSessionId); ("thread-id", ThreadId)]%string.

(** The first candidate header with a usable value. *)
Fixpoint header_session (headers : string → option string)
    (candidates : list (string * AffinitySource)) : option (string * AffinitySource) :=
  match candidates with
  | [] => None
  | (name, source) :: rest =>
      match headers name with
      | Some v => match normalize_session_id v with
                  | Some session => Some (session, source)
                  | None => header_session headers rest
                  end
      | None => header_session headers rest
      end
  end.

(** [value.get(name).and_then(as_str).and_then(normalize_session_id)] *)
Definition session_field (name : string) (v : Value) : option string :=
  match get name v with
  | Some f => match as_str f with Some s => normalize_session_id s | None => None end
  | None => None
  end.

(** The session inside a [user_id]: a JSON object's, or what follows [_session_]. *)
Definition user_session (user_id : string) : option string :=
  match match from_str user_id with Some v => session_field "session_id" v | None => None end with
  | Some s => Some s
  | None => match rsplit_once "_session_" user_id with
            | Some (_, session) => normalize_session_id session
            | None => None
            end
  end.

Definition body_session (root : Value) : option (string * AffinitySource) :=
  match session_field "prompt_cache_key" root with
  | Some s => Some (s, PromptCacheKey)
  | None =>
      match get "metadata" root with
      | Some (Object _ as metadata) =>
          match session_field "session_id" metadata with
          | Some s => Some (s, MetadataSessionId)
          | None =>
              match get "user_id" metadata with
              | Some (String user_id) => option_map (λ s, (s, MetadataUserId)) (user_session user_id)
              | _ => None
              end
          end
      | _ => None
      end
  end.

Definition extract_affinity_identity (headers : string → option string) (body : string)
    (api_key_id : Z) : option AffinityIdentity :=
  match header_session headers header_candidates with
  | Some (session, source) => Some (build_identity api_key_id session source)
  | None =>
      match from_str body with
      | None => None
      | Some root => option_map (λ '(session, source), build_identity api_key_id session source)
                       (body_session root)
      end
  end.
End Identity.

(** ** Capacity *)
Section Facts.
Context {EntryOrder : HashOrder AffinityKey AffinityEntry} {EntryOk : HashOrderOk AffinityKey AffinityEntry}.
Context {AvoidOrder : HashOrder AffinityKey AvoidEntry} {AvoidOk : HashOrderOk AffinityKey AvoidEntry}.

Lemma hash_entries_nil_size {V} {Ord : HashOrder AffinityKey V} {OrdOk : HashOrderOk AffinityKey V}
    (m : gmap AffinityKey V) : hash_entries m = [] → size m = O%nat.
Proof.
  intros E. pose proof (hash_entries_perm m) as Hp. rewrite E in Hp.
  apply Permutation_nil_l in Hp. symmetry in Hp. apply map_to_list_empty_iff in Hp. by rewrite Hp.
Qed.

Lemma size_delete_le {V} (m : gmap AffinityKey V) k : (size (delete k m) <= size m)%nat.
Proof. apply map_subseteq_size, delete_subseteq. Qed.

Lemma evict_entries_size fuel max s :
  (size (entries s) <= fuel)%nat → 1 <= max →
  Z.of_nat (size (entries (evict_entries fuel max s))) < max
  ∧ (size (avoided (evict_entries fuel max s)) <= size (avoided s))%nat
  ∧ next_generation (evict_entries fuel max s) = next_generation s.
Proof.
  revert s. induction fuel as [|fuel IH]; intros s Hf Hm; simpl; [split; [lia|done]|].
  destruct (Z.ltb_spec (Z.of_nat (size (entries s))) max); [done|].
  destruct (min_by_key _ _) as [[k e]|] eqn:E.
  - apply min_by_key_Some in E as [Hin _]. apply elem_of_hash_entries in Hin.
    assert (is_Some (entries s !! k)) as Hk by eauto.
    pose proof (map_size_delete_Some _ _ Hk) as Hd.
    assert (size (entries s) ≠ O)%nat by (intros E0%map_size_empty_iff; by rewrite E0 in Hin).
    destruct (IH (s |> set_entries (delete k (entries s)) |> set_avoided (delete k (avoided s)))) as (H1 & H2 & H3);
      [simpl; lia|done|]. split_and!; [done| |done]. simpl in H2.
    pose proof (size_delete_le (avoided s) k). lia.
  - apply min_by_key_None, hash_entries_nil_size in E. lia.
Qed.

Lemma evict_avoided_size fuel max s :
  (size (avoided s) <= fuel)%nat → 1 <= max →
  Z.of_nat (size (avoided (evict_avoided fuel max s))) < max
  ∧ entries (evict_avoided fuel max s) = entries s
  ∧ next_generation (evict_avoided fuel max s) = next_generation s.
Proof.
  revert s. induction fuel as [|fuel IH]; intros s Hf Hm; simpl; [split; [lia|done]|].
  destruct (Z.ltb_spec (Z.of_nat (size (avoided s))) max); [done|].
  destruct (min_by_key _ _) as [[k e]|] eqn:E.
  - apply min_by_key_Some in E as [Hin _]. apply elem_of_hash_entries in Hin.
    assert (is_Some (avoided s !! k)) as Hk by eauto.
    pose proof (map_size_delete_Some _ _ Hk) as Hd.
    assert (size (avoided s) ≠ O)%nat by (intros E0%map_size_empty_iff; by rewrite E0 in Hin).
    destruct (IH (set_avoided (delete k (avoided s)) s)) as (H1 & H2 & H3); [simpl; lia|done|].
    done.
  - apply min_by_key_None, hash_entries_nil_size in E. lia.
Qed.

Lemma ensure_entry_capacity_size max now s :
  1 <= max →
  Z.of_nat (size (entries (ensure_entry_capacity max now s))) < max
  ∧ (size (avoided (ensure_entry_capacity max now s)) <= size (avoided s))%nat
  ∧ next_generation (ensure_entry_capacity max now s) = next_generation s.
Proof.
  intros Hm. unfold ensure_entry_capacity.
  destruct (Z.ltb_spec (Z.of_nat (size (entries s))) max); [done|]. cbv zeta.
  set (s1 := set_entries _ s). by destruct (evict_entries_size (size (entries s1)) max s1).
Qed.

Lemma ensure_avoid_capacity_size max now s :
  1 <= max →
  Z.of_nat (size (avoided (ensure_avoid_capacity max now s))) < max
  ∧ entries (ensure_avoid_capacity max now s) = entries s
  ∧ next_generation (ensure_avoid_capacity max now s) = next_generation s.
Proof.
  intros Hm. unfold ensure_avoid_capacity.
  destruct (Z.ltb_spec (Z.of_nat (size (avoided s))) max); [done|]. cbv zeta.
  set (s1 := set_avoided _ s). by destruct (evict_avoided_size (size (avoided s1)) max s1).
Qed.

(** Sizes within the limit, and every generation issued so far at most the counter. *)
Record affinity_inv (n : Z) (max : Z) (s : AffinityState) : Prop := {
  af_entries : Z.of_nat (size (entries s)) <= max;
  af_avoided : Z.of_nat (size (avoided s)) <= max;
  af_generation : 0 <= next_generation s <= n;
  af_issued : ∀ k e, entries s !! k = Some e → ae_generation e <= next_generation s
}.

Lemma size_insert_le {V} (m : gmap AffinityKey V) k v :
  (size (<[k := v]> m) <= size m + (if is_some (m !! k) then 0 else 1))%nat.
Proof.
  rewrite map_size_insert. destruct (m !! k); simpl; lia.
Qed.

Lemma drop_expired_inv n max k now s :
  affinity_inv n max s → affinity_inv n max (drop_expired k now s).
Proof.
  intros [He Ha Hg Hi]. unfold drop_expired. destruct (is_some_and _ _); [|done].
  pose proof (size_delete_le (entries s) k). split; simpl; [lia|done|done|].
  intros k' e [_ He']%lookup_delete_Some. eauto.
Qed.

(** Replacing an entry by one of the same generation. *)
Lemma update_entry_inv n max k e e' s :
  affinity_inv n max s → entries s !! k = Some e → ae_generation e' = ae_generation e →
  affinity_inv n max (set_entries (<[k := e']> (entries s)) s).
Proof.
  intros [He Ha Hg Hi] Hk Hgen. pose proof (size_insert_le (entries s) k e') as Hs.
  rewrite Hk /= in Hs. split; simpl; [lia|done|done|].
  intros k' e2. rewrite lookup_insert. case_decide; [|by apply Hi].
  intros [= <-]. rewrite Hgen. eauto.
Qed.

Lemma retain_inv n max f g s :
  affinity_inv n max s →
  affinity_inv n max (s |> set_entries (retain f (entries s)) |> set_avoided (retain g (avoided s))).
Proof.
  intros [He Ha Hg Hi]. pose proof (size_retain_le f (entries s)).
  pose proof (size_retain_le g (avoided s)). split; simpl; [lia|lia|done|].
  intros k e. rewrite lookup_retain. destruct (entries s !! k) as [e'|] eqn:E; simpl; [|done].
  destruct (f e'); [|done]. intros [= <-]. eauto.
Qed.

Lemma delete_avoided_inv n max k s :
  affinity_inv n max s → affinity_inv n max (set_avoided (delete k (avoided s)) s).
Proof. intros [He Ha Hg Hi]. pose proof (size_delete_le (avoided s) k). split; simpl; [done|lia|done|done]. Qed.

Lemma bump_small g : 0 <= g < u64_max → bump g = g + 1.
Proof. intros ?. unfold bump. rewrite u64_wrap_id; mlia. Qed.

(** Evictions take entries away and change none. *)
Lemma evict_entries_sub fuel max s k e :
  entries (evict_entries fuel max s) !! k = Some e → entries s !! k = Some e.
Proof.
  revert s. induction fuel as [|fuel IH]; intros s; simpl; [done|].
  destruct (_ <? max); [done|]. destruct (min_by_key _ _) as [[k' e']|]; [|done].
  intros H%IH. simpl in H. by apply lookup_delete_Some in H as [_ H].
Qed.

Lemma ensure_entry_capacity_sub max now s k e :
  entries (ensure_entry_capacity max now s) !! k = Some e → entries s !! k = Some e.
Proof.
  unfold ensure_entry_capacity. destruct (_ <? max); [done|]. cbv zeta.
  intros H%evict_entries_sub. simpl in H. rewrite lookup_retain in H.
  destruct (entries s !! k) as [e'|]; simpl in H; [|done]. by destruct (_ <? _).
Qed.

Lemma install_inv n max b k p uk ep c now s :
  Z.of_nat (size (avoided s)) <= max → 0 <= next_generation s <= n → n < u64_max →
  (∀ k e, entries s !! k = Some e → ae_generation e <= next_generation s) →
  (is_some (entries s !! k) = true ∧ Z.of_nat (size (entries s)) <= max
   ∨ Z.of_nat (size (entries s)) < max) →
  let '(e, s') := install b k p uk ep c now s in
  affinity_inv (n + 1) max s' ∧ ae_generation e = next_generation s + 1
  ∧ next_generation s' = next_generation s + 1.
Proof.
  intros Ha Hg Hn Hi Hsize. unfold install. cbv zeta. simpl. rewrite bump_small; [|lia].
  split_and!; [|done|done]. split; simpl; [|done|lia|].
  - pose proof (size_insert_le (entries s) k (MkEntry p uk ep (next_generation s + 1) c (i64_sat_add now (ttl_ms b)) now)) as Hs.
    destruct Hsize as [[Hk ?]|?]; [rewrite Hk in Hs; lia|].
    destruct (is_some (entries s !! k)); lia.
  - intros k' e. rewrite lookup_insert. case_decide; [intros [= <-]; simpl; lia|].
    intros H'%Hi. lia.
Qed.

(** ** Executions *)
Inductive affinity_op :=
  | ALookup (i : AffinityIdentity) (now_ms : Z)
  | AClaim (i : AffinityIdentity) (provider : Z) (key endpoint : option Z) (now_ms : Z)
  | AConfirm (i : AffinityIdentity) (b : AffinityBinding) (now_ms : Z)
  | AMigrate (i : AffinityIdentity) (provider : Z) (key endpoint : option Z) (now_ms : Z)
  | ARefreshProvider (i : AffinityIdentity) (provider now_ms : Z)
  | ARefreshTarget (i : AffinityIdentity) (b : AffinityBinding) (now_ms : Z)
  | AClearProvider (i : AffinityIdentity) (provider : Z)
  | AFailed (i : AffinityIdentity) (provider now_ms avoid_ns : Z)
  | AAvoided (i : AffinityIdentity) (provider now_ms : Z)
  | APurgeProvider (provider : Z)
  | APurgeKey (key : Z)
  | APurgeEndpoint (endpoint : Z)
  | ACounts (now_ms : Z).

(** The binding an operation hands out, if any, and the book after it. *)
Definition run_affinity (b : AffinityBook) (o : affinity_op) : option AffinityBinding * AffinityBook :=
  match o with
  | ALookup i now => lookup b i now
  | AClaim i p k e now => let '(x, b) := claim_target b i p k e now in (Some x, b)
  | AConfirm i x now => (None, (confirm b i x now).2)
  | AMigrate i p k e now => let '(x, b) := migrate_target b i p k e now in (Some x, b)
  | ARefreshProvider i p now => (None, (refresh_if_provider b i p now).2)
  | ARefreshTarget i x now => (None, (refresh_if_target b i x now).2)
  | AClearProvider i p => (None, (clear_if_provider b i p).2)
  | AFailed i p now d => (None, mark_provider_failed b i p now d)
  | AAvoided i p now => (None, (is_provider_avoided b i p now).2)
  | APurgeProvider p => (None, affinity_purge_provider b p)
  | APurgeKey k => (None, purge_upstream_key b k)
  | APurgeEndpoint e => (None, purge_endpoint b e)
  | ACounts now => (None, (binding_counts_by_provider b now).2)
  end.

Definition binv (n : Z) (b : AffinityBook) : Prop :=
  1 <= max_entries b ∧ affinity_inv n (max_entries b) (af_state b).

(** What an operation guarantees: the invariant, and that a binding it hands out
    was issued. *)
Definition keeps (n : Z) (r : option AffinityBinding * AffinityBook) (b : AffinityBook) : Prop :=
  binv (n + 1) r.2 ∧ next_generation (af_state b) <= next_generation (af_state r.2)
  ∧ ∀ x, r.1 = Some x → ab_generation x <= next_generation (af_state r.2).

Lemma affinity_inv_mono n m max s : affinity_inv n max s → n <= m → affinity_inv m max s.
Proof. intros [] ?. split; auto; lia. Qed.

(** An operation that hands out no binding and keeps the counter. *)
Lemma keeps_quiet n b s :
  binv n b → affinity_inv n (max_entries b) s → next_generation s = next_generation (af_state b) →
  keeps n (None, set_state s b) b.
Proof.
  intros [Hm _] Hs Hg. split_and!; simpl; [split; [done|]|lia|done].
  eapply affinity_inv_mono; [exact Hs|lia].
Qed.

Lemma keeps_same n b : binv n b → keeps n (None, b) b.
Proof.
  intros [Hm Hs]. split_and!; simpl; [split; [done|]|lia|done].
  eapply affinity_inv_mono; [exact Hs|lia].
Qed.

Lemma drop_expired_generation k now s : next_generation (drop_expired k now s) = next_generation s.
Proof. unfold drop_expired. by destruct (is_some_and _ _). Qed.

Lemma lookup_keeps n b i now : binv n b → keeps n (lookup b i now) b.
Proof.
  intros Hb. pose proof Hb as [Hm Hs]. unfold lookup. cbv zeta.
  pose proof (drop_expired_inv n _ (ai_routing_key i) now _ Hs) as Hd.
  pose proof (drop_expired_generation (ai_routing_key i) now (af_state b)) as Hg.
  set (s := drop_expired _ _ _) in *. clearbody s.
  destruct (entries s !! ai_routing_key i) as [e|] eqn:E; [|by apply keeps_quiet].
  split_and!; simpl; [split; [done|]|lia|].
  - eapply affinity_inv_mono; [by eapply update_entry_inv|lia].
  - intros x [= <-]. simpl. by eapply af_issued.
Qed.

Lemma claim_keeps n b i p k e now :
  binv n b → n < u64_max →
  keeps n (let '(x, b) := claim_target b i p k e now in (Some x, b)) b.
Proof.
  intros Hb Hn. pose proof Hb as [Hm Hs]. unfold claim_target. cbv zeta.
  pose proof (drop_expired_inv n _ (ai_routing_key i) now _ Hs) as Hd.
  pose proof (drop_expired_generation (ai_routing_key i) now (af_state b)) as Hg.
  set (s := drop_expired _ _ _) in *. clearbody s.
  destruct (entries s !! ai_routing_key i) as [e'|] eqn:E.
  - split_and!; simpl; [split; [done|]|lia|].
    + eapply affinity_inv_mono; [by eapply update_entry_inv|lia].
    + intros x [= <-]. simpl. by eapply af_issued.
  - destruct (ensure_entry_capacity_size (max_entries b) now s Hm) as (Hsz & Hav & Hgen).
    pose proof (install_inv n (max_entries b) b (ai_routing_key i) p k e false now
      (ensure_entry_capacity (max_entries b) now s)) as Hinst.
    destruct (install _ _ _ _ _ _ _ _) as [e2 s2].
    destruct Hd as [He Ha Hgn Hi]. destruct Hinst as (Hinv & Hge & Hgs).
    + lia.
    + rewrite Hgen. lia.
    + done.
    + intros k' e'. rewrite Hgen. intros H%ensure_entry_capacity_sub. eauto.
    + by right.
    + split_and!; simpl; [by split|lia|]. intros x [= <-]. simpl. lia.
Qed.

Lemma migrate_keeps n b i p k e now :
  binv n b → n < u64_max →
  keeps n (let '(x, b) := migrate_target b i p k e now in (Some x, b)) b
  ∧ ab_generation (migrate_target b i p k e now).1 = next_generation (af_state b) + 1
  ∧ entries (af_state (migrate_target b i p k e now).2) !! ai_routing_key i =
      Some (MkEntry p k e (next_generation (af_state b) + 1) true (i64_sat_add now (ttl_ms b)) now).
Proof.
  intros [Hm Hs] Hn. unfold migrate_target. cbv zeta.
  set (s := if is_some _ then _ else _).
  assert (Z.of_nat (size (avoided s)) <= max_entries b ∧ next_generation s = next_generation (af_state b)
    ∧ (∀ k e, entries s !! k = Some e → ae_generation e <= next_generation s)
    ∧ (is_some (entries s !! ai_routing_key i) = true ∧ Z.of_nat (size (entries s)) <= max_entries b
       ∨ Z.of_nat (size (entries s)) < max_entries b)) as (Ha & Hg & Hi & Hsize).
  { subst s. destruct Hs as [He Ha Hgn Hi]. destruct (is_some (entries (af_state b) !! ai_routing_key i)) eqn:E.
    - split_and!; [done|done|exact Hi|by left].
    - destruct (ensure_entry_capacity_size (max_entries b) now (af_state b) Hm) as (Hsz & Hav & Hgen).
      split_and!; [lia|done| |by right].
      intros k' e'. rewrite Hgen. intros H%ensure_entry_capacity_sub. eauto. }
  clearbody s. pose proof (af_generation _ _ _ Hs) as Hgn. rewrite -Hg in Hgn |- *.
  pose proof (install_inv n (max_entries b) b (ai_routing_key i) p k e true now s Ha Hgn Hn Hi Hsize) as Hinst.
  assert ((install b (ai_routing_key i) p k e true now s).1 =
    MkEntry p k e (next_generation s + 1) true (i64_sat_add now (ttl_ms b)) now) as He1.
  { unfold install. cbv zeta. simpl. by rewrite bump_small; [|lia]. }
  assert (entries (install b (ai_routing_key i) p k e true now s).2 !! ai_routing_key i =
    Some (install b (ai_routing_key i) p k e true now s).1) as He2.
  { unfold install. cbv zeta. simpl. by rewrite lookup_insert decide_True. }
  destruct (install _ _ _ _ _ _ _ _) as [e2 s2]. cbn [fst snd] in *.
  destruct Hinst as (Hinv & Hge & Hgs). rewrite He1 in He2. split; [|done]. split_and!; simpl; [split; [done|]|lia|].
  - by apply delete_avoided_inv.
  - intros x [= <-]. simpl. lia.
Qed.

Lemma mark_failed_keeps n b i p now d : binv n b → keeps n (None, mark_provider_failed b i p now d) b.
Proof.
  intros Hb. pose proof Hb as [Hm Hs]. unfold mark_provider_failed. cbv zeta.
  set (s := if is_some_and _ _ then _ else _).
  assert (affinity_inv n (max_entries b) s ∧ next_generation s = next_generation (af_state b)) as [Hs1 Hg].
  { subst s. destruct (is_some_and _ _); [|done]. split; [|done]. destruct Hs as [He Ha Hgn Hi].
    pose proof (size_delete_le (entries (af_state b)) (ai_routing_key i)).
    split; simpl; [lia|done|done|]. intros k' e' [_ H']%lookup_delete_Some. eauto. }
  clearbody s. destruct Hs1 as [He Ha Hgn Hi]. apply keeps_quiet; [done| |].
  - destruct (is_some (avoided s !! ai_routing_key i)) eqn:E.
    + pose proof (size_insert_le (avoided s) (ai_routing_key i) (MkAvoid p (i64_sat_add now (millis_i64 d)) now)) as Hsz.
      rewrite E in Hsz. split; simpl; [done|lia|done|done].
    + destruct (ensure_avoid_capacity_size (max_entries b) now s Hm) as (Hsz & Hent & Hgen).
      pose proof (size_insert_le (avoided (ensure_avoid_capacity (max_entries b) now s)) (ai_routing_key i)
        (MkAvoid p (i64_sat_add now (millis_i64 d)) now)) as Hins.
      split; simpl; rewrite ?Hent ?Hgen; [done| |done|exact Hi].
      destruct (is_some (avoided (ensure_avoid_capacity _ _ _) !! _)); lia.
  - simpl. destruct (is_some _); [done|].
    destruct (ensure_avoid_capacity_size (max_entries b) now s Hm) as (_ & _ & ->). done.
Qed.

Lemma run_affinity_keeps n b o : binv n b → n < u64_max → keeps n (run_affinity b o) b.
Proof.
  intros Hb Hn. pose proof Hb as [Hm Hs].
  destruct o as [i now|i p k e now|i x now|i p k e now|i p now|i x now|i p|i p now d|i p now|p|k|e|now]; simpl.
  - by apply lookup_keeps.
  - by apply claim_keeps.
  - unfold confirm. cbv zeta. destruct (entries (af_state b) !! _) as [e|] eqn:E; [|by apply keeps_same].
    destruct (_ || _); [by apply keeps_same|]. cbn [snd]. apply keeps_quiet; [done| |done].
    apply (delete_avoided_inv _ _ _ (set_entries _ _)). by eapply update_entry_inv.
  - by apply migrate_keeps.
  - unfold refresh_if_provider. cbv zeta. destruct (entries (af_state b) !! _) as [e|] eqn:E; [|by apply keeps_same].
    destruct (negb _); [by apply keeps_same|]. cbn [snd]. apply keeps_quiet; [done| |done].
    by eapply update_entry_inv.
  - unfold refresh_if_target. cbv zeta. destruct (entries (af_state b) !! _) as [e|] eqn:E; [|by apply keeps_same].
    destruct (_ || _); [by apply keeps_same|]. cbn [snd]. apply keeps_quiet; [done| |done].
    by eapply update_entry_inv.
  - unfold clear_if_provider. cbv zeta. cbn [snd]. destruct (is_some_and _ _); [|by apply keeps_same].
    apply keeps_quiet; [done| |done]. destruct Hs as [He Ha Hgn Hi].
    pose proof (size_delete_le (entries (af_state b)) (ai_routing_key i)).
    split; simpl; [lia|done|done|]. intros k' e' [_ H']%lookup_delete_Some. eauto.
  - by apply mark_failed_keeps.
  - unfold is_provider_avoided. cbv zeta. destruct (avoided (af_state b) !! _) as [e|] eqn:E; [|by apply keeps_same].
    destruct (_ <=? _); cbn [snd]; (apply keeps_quiet; [done| |done]).
    + by apply delete_avoided_inv.
    + destruct Hs as [He Ha Hgn Hi].
      pose proof (size_insert_le (avoided (af_state b)) (ai_routing_key i) (MkAvoid (av_provider_id e) (av_until_ms e) now)) as Hsz.
      rewrite E /= in Hsz. split; simpl; [done|lia|done|done].
  - apply keeps_quiet; [done| |done]. by apply retain_inv.
  - apply keeps_quiet; [done| |done]. destruct Hs as [He Ha Hgn Hi].
    match goal with |- context [retain ?f ?m] => pose proof (size_retain_le f m) end.
    split; simpl; [lia|done|done|]. intros k' e'. rewrite lookup_retain.
    destruct (entries (af_state b) !! k') as [e2|] eqn:E; simpl; [|done].
    destruct (negb _); [|done]. intros [= <-]. eauto.
  - apply keeps_quiet; [done| |done]. destruct Hs as [He Ha Hgn Hi].
    match goal with |- context [retain ?f ?m] => pose proof (size_retain_le f m) end.
    split; simpl; [lia|done|done|]. intros k' e'. rewrite lookup_retain.
    destruct (entries (af_state b) !! k') as [e2|] eqn:E; simpl; [|done].
    destruct (negb _); [|done]. intros [= <-]. eauto.
  - unfold binding_counts_by_provider. cbn [snd]. apply keeps_quiet; [done| |done].
    by apply retain_inv.
Qed.

(** The book after a sequence of operations, and the bindings handed out. *)
Fixpoint run_all (b : AffinityBook) (ops : list affinity_op) : list AffinityBinding * AffinityBook :=
  match ops with
  | [] => ([], b)
  | o :: ops' =>
      let '(x, b1) := run_affinity b o in
      let '(issued, b2) := run_all b1 ops' in
      (option_list x ++ issued, b2)
  end.

Lemma run_all_keeps ops n b :
  binv n b → n + Z.of_nat (length ops) <= u64_max →
  let '(issued, b') := run_all b ops in
  binv (n + Z.of_nat (length ops)) b'
  ∧ next_generation (af_state b) <= next_generation (af_state b')
  ∧ ∀ x, x ∈ issued → ab_generation x <= next_generation (af_state b').
Proof.
  revert n b. induction ops as [|o ops IH]; intros n b Hb Hn; simpl in *.
  { rewrite Z.add_0_r. split_and!; [done|lia|set_solver]. }
  destruct (run_affinity_keeps n b o Hb ltac:(lia)) as (Hb1 & Hg1 & Hx1).
  destruct (run_affinity b o) as [x b1]. cbn [fst snd] in *.
  specialize (IH (n + 1) b1 Hb1 ltac:(lia)). destruct (run_all b1 ops) as [issued b2].
  destruct IH as (Hb2 & Hg2 & Hx2). split_and!.
  - by replace (n + Z.of_nat (S (length ops))) with (n + 1 + Z.of_nat (length ops)) by lia.
  - lia.
  - intros y [Hy|Hy]%elem_of_app; [|by apply Hx2].
    destruct x as [x|]; simpl in Hy; [|set_solver].
    apply list_elem_of_singleton in Hy as ->. specialize (Hx1 x eq_refl). lia.
Qed.

Lemma new_affinity_binv ttl max : binv 0 (new_affinity_book ttl max).
Proof.
  split; simpl; [lia|]. split; simpl; [rewrite map_size_empty; lia|rewrite map_size_empty; lia|lia|].
  intros k e. by rewrite lookup_empty.
Qed.

(** The affinity book is bounded: after any sequence of fewer than 2^64
    operations it holds at most the configured number of bindings and of avoided
    providers, whatever order the hash map evicts in. *)
Theorem affinity_bounded ttl max ops :
  Z.of_nat (length ops) <= u64_max →
  let b := (run_all (new_affinity_book ttl max) ops).2 in
  Z.of_nat (size (entries (af_state b))) <= Z.max max 1
  ∧ Z.of_nat (size (avoided (af_state b))) <= Z.max max 1.
Proof.
  intros Hn b. pose proof (run_all_keeps ops 0 _ (new_affinity_binv ttl max) Hn) as H.
  assert (max_entries b = Z.max max 1) as Hmax.
  { assert (∀ ops b, max_entries (run_all b ops).2 = max_entries b) as Hall; [|by rewrite Hall].
    clear. induction ops as [|o ops IH]; intros b; simpl; [done|].
    assert (max_entries (run_affinity b o).2 = max_entries b) as Ho.
    { destruct o; simpl; unfold lookup, claim_target, confirm, migrate_target, refresh_if_provider,
        refresh_if_target, clear_if_provider, is_provider_avoided, install; cbv zeta; simpl;
        repeat (case_match; simplify_eq/=); done. }
    destruct (run_affinity b o) as [x b1]. specialize (IH b1). destruct (run_all b1 ops).
    simpl in *. congruence. }
  unfold b in *. destruct (run_all _ ops) as [issued b']. destruct H as ([_ [He Ha _ _]] & _).
  simpl in *. by rewrite -Hmax.
Qed.

(** Moving a session retires every binding it had: after any sequence of
    operations, once the session migrates, the bindings handed out before can
    neither confirm nor refresh it, and it is bound, confirmed, to its new target. *)
Theorem affinity_migration_retires ttl max ops i p k e now x :
  let '(issued, b) := run_all (new_affinity_book ttl max) ops in
  Z.of_nat (length ops) < u64_max → x ∈ issued →
  let '(_, b') := migrate_target b i p k e now in
  confirm b' i x now = (false, b') ∧ refresh_if_target b' i x now = (false, b')
  ∧ ∀ t, t < i64_sat_add now (ttl_ms b') →
      ∃ y, (lookup b' i t).1 = Some y ∧ ab_provider_id y = p ∧ ab_upstream_key_id y = k
           ∧ ab_endpoint_id y = e ∧ ab_confirmed y = true.
Proof.
  pose proof (run_all_keeps ops 0 (new_affinity_book ttl max) (new_affinity_binv ttl max)) as H.
  destruct (run_all _ ops) as [issued b]. intros Hn Hx.
  destruct H as (Hb & _ & Hissued); [lia|]. specialize (Hissued x Hx).
  destruct (migrate_keeps _ b i p k e now Hb ltac:(lia)) as (_ & _ & Hent).
  assert (ttl_ms (migrate_target b i p k e now).2 = ttl_ms b) as Httl.
  { unfold migrate_target. cbv zeta. by destruct (install _ _ _ _ _ _ _ _). }
  destruct (migrate_target b i p k e now) as [y b']. cbn [fst snd] in *.
  unfold confirm, refresh_if_target, lookup, drop_expired. cbv zeta. rewrite Hent Httl. simpl.
  rewrite (proj2 (Z.eqb_neq (next_generation (af_state b) + 1) (ab_generation x))); [|lia].
  rewrite !orb_true_r. split_and!; [done|done|].
  intros t Ht. unfold expired. simpl. rewrite (proj2 (Z.leb_gt _ _)) // Hent. eauto 10.
Qed.

(** The first claim wins: a session claimed for one target stays on it, for
    every later claim or lookup before its time to live runs out, whatever target
    they would prefer. *)
Theorem affinity_first_claim_wins b i p k e now p' k' e' t :
  t < i64_sat_add now (ttl_ms b) →
  let '(x, b') := claim_target b i p k e now in
  (claim_target b' i p' k' e' t).1 = x ∧ (lookup b' i t).1 = Some x.
Proof.
  intros Ht.
  assert (∃ en, entries (af_state (claim_target b i p k e now).2) !! ai_routing_key i = Some en
    ∧ binding_of en = (claim_target b i p k e now).1
    ∧ ae_expires_at_ms en = i64_sat_add now (ttl_ms b)) as (en & Hent & Hbind & Hexp).
  { unfold claim_target. cbv zeta. destruct (entries (drop_expired _ _ _) !! _) as [e0|] eqn:E; simpl.
    - eexists. rewrite lookup_insert decide_True //.
    - eexists. rewrite lookup_insert decide_True //. }
  destruct (claim_target b i p k e now) as [x b']. cbn [fst snd] in *.
  unfold claim_target, lookup, drop_expired. cbv zeta. rewrite Hent. simpl. unfold expired.
  rewrite Hexp (proj2 (Z.leb_gt _ _)) // Hent. simpl. unfold touch, binding_of in *. simpl. by rewrite -Hbind.
Qed.

(** A failed provider is left and avoided: after [mark_provider_failed] the
    session is not bound to that provider any more, and the provider is reported as
    avoided for it until the avoidance expires, and not after. *)
Theorem affinity_failed_provider_avoided b i p now d t :
  let b' := mark_provider_failed b i p now d in
  (∀ x, (lookup b' i t).1 = Some x → ab_provider_id x ≠ p)
  ∧ ((is_provider_avoided b' i p t).1 = true ↔ t < i64_sat_add now (millis_i64 d)).
Proof.
  cbv zeta. set (b' := mark_provider_failed b i p now d).
  assert (avoided (af_state b') !! ai_routing_key i = Some (MkAvoid p (i64_sat_add now (millis_i64 d)) now)
    ∧ ∀ en, entries (af_state b') !! ai_routing_key i = Some en → ae_provider_id en ≠ p) as [Ha He].
  { unfold b', mark_provider_failed. cbv zeta. simpl. split; [by rewrite lookup_insert decide_True|].
    intros en. set (s := if is_some_and _ _ then _ else _).
    assert (∀ en, entries s !! ai_routing_key i = Some en → ae_provider_id en ≠ p) as Hs.
    { subst s. intros en'. destruct (is_some_and _ _) eqn:E; simpl.
      - by rewrite lookup_delete_eq.
      - intros Hen. rewrite Hen /= in E. by apply Z.eqb_neq. }
    clearbody s. destruct (is_some _); [apply Hs|].
    unfold ensure_avoid_capacity. destruct (_ <? _); [apply Hs|]. cbv zeta.
    assert (∀ fuel s0, entries (evict_avoided fuel (max_entries b) s0) = entries s0) as Hev.
    { induction fuel as [|fuel IH]; intros s0; simpl; [done|]. destruct (_ <? _); [done|].
      destruct (min_by_key _ _) as [[k0 v0]|]; [|done]. by rewrite IH. }
    rewrite Hev. apply Hs. }
  clearbody b'. split.
  - intros x. unfold lookup. cbv zeta. unfold drop_expired.
    destruct (is_some_and _ _); simpl; [by rewrite lookup_delete_eq|].
    destruct (entries (af_state b') !! ai_routing_key i) as [en|] eqn:E; simpl; [|done].
    intros [= <-]. exact (He en eq_refl).
  - unfold is_provider_avoided. cbv zeta. rewrite Ha. simpl.
    destruct (Z.leb_spec (i64_sat_add now (millis_i64 d)) t); simpl; [split; [done|lia]|].
    rewrite Z.eqb_refl. split; [lia|done].
Qed.
End Facts.

(** ** Sessions of different API keys never share an identity input *)
Lemma le_bytes_length z : length (le_bytes z) = 8%nat.
Proof. done. Qed.

(** The base-256 digits determine a number. *)
Lemma digits_inj (n : nat) x y :
  0 <= x < 256 ^ Z.of_nat n → 0 <= y < 256 ^ Z.of_nat n →
  (∀ i : nat, (i < n)%nat → (x / 256 ^ Z.of_nat i) mod 256 = (y / 256 ^ Z.of_nat i) mod 256) →
  x = y.
Proof.
  revert x y. induction n as [|n IH]; intros x y Hx Hy Hd.
  { change (256 ^ Z.of_nat 0) with 1 in *. lia. }
  assert (256 ^ Z.of_nat (S n) = 256 * 256 ^ Z.of_nat n) as Hp
    by (rewrite Nat2Z.inj_succ Z.pow_succ_r; lia).
  rewrite Hp in Hx, Hy.
  assert (x / 256 = y / 256) as Hq.
  { apply IH.
    { split; [apply Z.div_pos; lia|apply Z.div_lt_upper_bound; lia]. }
    { split; [apply Z.div_pos; lia|apply Z.div_lt_upper_bound; lia]. }
    intros i Hi. specialize (Hd (S i) ltac:(lia)).
    rewrite Nat2Z.inj_succ Z.pow_succ_r in Hd; [|lia].
    rewrite -!Z.div_div in Hd; lia. }
  specialize (Hd O ltac:(lia)). change (256 ^ Z.of_nat 0) with 1 in Hd. rewrite !Z.div_1_r in Hd.
  pose proof (Z.div_mod x 256). pose proof (Z.div_mod y 256). lia.
Qed.

Lemma le_bytes_inj a b : is_i64 a → is_i64 b → le_bytes a = le_bytes b → a = b.
Proof.
  intros Ha Hb H.
  assert (u64_wrap a = u64_wrap b) as Hu.
  { apply (digits_inj 8); [pose proof (u64_wrap_range a); mlia|pose proof (u64_wrap_range b); mlia|].
    intros i Hi. apply (f_equal (λ l, l !! i)) in H.
    assert (∀ z, le_bytes z = (λ j : nat, (u64_wrap z / 256 ^ Z.of_nat j) mod 256) <$> seq 0 8) as Hle by done.
    rewrite !Hle !list_lookup_fmap !lookup_seq_lt in H; [|lia..]. by injection H. }
  unfold u64_wrap in Hu. unfold_mint. clear H. Z.div_mod_to_equations. lia.
Qed.

Lemma code_inj a b : code a = code b → a = b.
Proof.
  unfold code. intros H%Nat2Z.inj. rewrite -(ascii_nat_embedding a) -(ascii_nat_embedding b).
  by rewrite H.
Qed.

Lemma as_bytes_inj s t : as_bytes s = as_bytes t → s = t.
Proof.
  unfold as_bytes. intros H. apply (list_fmap_eq_inj code code_inj) in H.
  by rewrite -(of_chars_chars s) -(of_chars_chars t) H.
Qed.

(** Sessions are separated by API key: what is hashed into an identity
    determines both the API key and the session, so two clients never share an
    affinity by choosing the same session id. *)
Theorem affinity_identity_separates k1 s1 k2 s2 :
  is_i64 k1 → is_i64 k2 → identity_input k1 s1 = identity_input k2 s2 → k1 = k2 ∧ s1 = s2.
Proof.
  intros H1 H2. unfold identity_input. intros H.
  apply app_inj_1 in H as [Hk Hs]; [|done]. injection Hs as Hs.
  split; [by apply le_bytes_inj|by apply as_bytes_inj].
Qed.

(** ** Concrete runs *)
Definition wa_identity : AffinityIdentity := build_identity (λ l, l) 1 "session-a" SessionId.
#[local] Instance wa_entries : HashOrder AffinityKey AffinityEntry := canonical_order.
#[local] Instance wa_entries_ok : HashOrderOk AffinityKey AffinityEntry := canonical_order_ok.
#[local] Instance wa_avoided : HashOrder AffinityKey AvoidEntry := canonical_order.
#[local] Instance wa_avoided_ok : HashOrderOk AffinityKey AvoidEntry := canonical_order_ok.

Lemma affinity_bounded_witness :
  let b := (run_all (new_affinity_book 1000000000 1)
              [AClaim wa_identity 1 None None 5; AFailed wa_identity 1 6 1000000]).2 in
  Z.of_nat (size (entries (af_state b))) <= 1 ∧ Z.of_nat (size (avoided (af_state b))) <= 1.
Proof.
  apply (affinity_bounded 1000000000 1 [AClaim wa_identity 1 None None 5; AFailed wa_identity 1 6 1000000]).
  vm_compute. discriminate.
Defined.

Lemma affinity_migration_retires_witness :
  let b := (run_all (new_affinity_book 1000000000 10) [AClaim wa_identity 1 None None 5]).2 in
  let b' := (migrate_target b wa_identity 2 None None 9).2 in
  confirm b' wa_identity (MkBinding 1 None None 1 false) 9 = (false, b').
Proof.
  pose proof (affinity_migration_retires 1000000000 10 [AClaim wa_identity 1 None None 5]
                wa_identity 2 None None 9 (MkBinding 1 None None 1 false)) as H.
  destruct (run_all _ _) as [issued b] eqn:E.
  assert (issued = [MkBinding 1 None None 1 false]) as ->.
  { assert (issued = (issued, b).1) as -> by done. rewrite -E. vm_compute. reflexivity. }
  specialize (H ltac:(vm_compute; reflexivity) ltac:(set_solver)). cbv zeta. cbn [snd].
  destruct (migrate_target b wa_identity 2 None None 9) as [y b']. exact (proj1 H).
Defined.

Lemma affinity_first_claim_wins_witness :
  let b' := (claim_target (new_affinity_book 1000000000 10) wa_identity 1 None None 5).2 in
  (claim_target b' wa_identity 2 None None 900).1
  = (claim_target (new_affinity_book 1000000000 10) wa_identity 1 None None 5).1.
Proof.
  pose proof (affinity_first_claim_wins (new_affinity_book 1000000000 10) wa_identity 1 None None 5
                2 None None 900 ltac:(vm_compute; reflexivity)) as H.
  cbv zeta. destruct (claim_target _ wa_identity 1 None None 5) as [x b']. exact (proj1 H).
Defined.

Lemma affinity_identity_separates_witness : 1 = 1 ∧ "a"%string = "a"%string.
Proof. apply (affinity_identity_separates 1 "a" 1 "a"); [mlia|mlia|reflexivity]. Defined.
