(* ===== verification/ResponseEvents.v ===== *)
(** * ResponseEvents: framing and metering of streamed responses

    Models [response_events.rs] (and the error test of [encrypted_content.rs] that it
    calls). The decoder's lines are bytes; parsing the JSON of one event is
    [serde_json::from_slice], a parameter. *)
From Stdlib Require Import Ascii String.
From S2P Require Import Prelude Text Json Types.

Local Open Scope string_scope.
Local Open Scope list_scope.
Local Open Scope Z_scope.

(** ** Field access *)
(** [value.get(name).and_then(Value::as_str)] *)
Definition get_str (name : string) (v : Value) : option string := opt_bind (get name v) as_str.
(** [value.get("response").unwrap_or(value)] *)
Definition response_or_self (v : Value) : Value := unwrap_or (get "response" v) v.
Definition str_is (o : option string) (l : list string) : bool := is_some_and o (λ s, is_one_of s l).

Definition reasoning_effort (v : Value) : option string :=
  opt_filter (λ s, negb (String.eqb s "") && (str_len s <=? 64))
    (option_map trim
      (opt_bind (opt_or (pointer ["reasoning"; "effort"] v) (get "reasoning_effort" v)) as_str)).

Definition nonempty_string (v : Value) (field : string) : bool :=
  is_some_and (get_str field v) (λ s, negb (String.eqb s "")).

Definition output_part (v : Value) : bool := nonempty_string v "text" || nonempty_string v "refusal".

Definition output_item (v : Value) : bool :=
  match get_str "type" v with
  | Some kind =>
      if is_one_of kind ["message"; "reasoning"] then
        existsb (λ field, is_some_and (opt_bind (get field v) as_array) (existsb output_part))
          ["content"; "summary"]
      else if is_one_of kind ["function_call"; "mcp_call"] then nonempty_string v "arguments"
      else if String.eqb kind "custom_tool_call" then nonempty_string v "input"
      else if String.eqb kind "code_interpreter_call" then nonempty_string v "code"
      else if String.eqb kind "image_generation_call" then nonempty_string v "result"
      else false
  | None => false
  end.

(** Whether an event of a kind carries output, and how it shows it. *)
Definition kind_output (kind : string) (v : Value) : bool * string :=
  if String.eqb kind "response.audio.delta" then (nonempty_string v "data", "delta")
  else if String.eqb kind "response.image_generation_call.partial_image" then
    (nonempty_string v "partial_image_b64", "delta")
  else if is_one_of kind ["response.shell_call_command.added"; "response.shell_call_command.done"] then
    (nonempty_string v "command", "output_done")
  else if is_one_of kind ["response.output_text.done"; "response.reasoning_text.done";
                          "response.reasoning_summary_text.done"] then
    (nonempty_string v "text", "output_done")
  else if String.eqb kind "response.refusal.done" then (nonempty_string v "refusal", "output_done")
  else if is_one_of kind ["response.function_call_arguments.done"; "response.mcp_call_arguments.done"] then
    (nonempty_string v "arguments", "output_done")
  else if String.eqb kind "response.custom_tool_call_input.done" then
    (nonempty_string v "input", "output_done")
  else if String.eqb kind "response.code_interpreter_call_code.done" then
    (nonempty_string v "code", "output_done")
  else if is_one_of kind ["response.content_part.done"; "response.reasoning_summary_part.done"] then
    (is_some_and (get "part" v) output_part, "output_done")
  else if String.eqb kind "response.output_item.done" then
    (is_some_and (get "item" v) output_item, "output_done")
  else if is_one_of kind ["response.completed"; "response.done"; "response.incomplete"] then
    (is_some_and (opt_bind (pointer ["response"; "output"] v) as_array) (existsb output_item),
     "response_done")
  else (false, "delta").

Definition output_event_kind (v : Value) : option string :=
  match get_str "type" v with
  | None => None
  | Some kind =>
      if starts_with "response." kind && ends_with ".delta" kind && nonempty_string v "delta"
      then Some "delta"
      else let '(has_output, source) := kind_output kind v in
           if has_output then Some source else None
  end.

(** ** The SSE decoder *)
Definition MAX_EVENT_BYTES : Z := 4 * 1024 * 1024.

Record SseDecoder := MkSse {
  sse_line : list ascii;
  sse_data : list ascii;
  sse_event : option string;
  sse_frame_bytes : Z;
  sse_discarding : bool;
  sse_error : option string
}.

Definition new_sse : SseDecoder := MkSse [] [] None 0 false None.

Definition nl : ascii := ascii_of_nat 10.
Definition cr : ascii := ascii_of_nat 13.

(** [line.last() == Some(b'\r')] and [pop] *)
Definition strip_cr (line : list ascii) : list ascii :=
  match last line with
  | Some c => if Ascii.eqb c cr then removelast line else line
  | None => line
  end.

(** [usize::saturating_add] *)
Definition count_byte (n : Z) : Z := Z.min u64_max (n + 1).

Section Decoder.
Context (from_slice : list ascii → option Value).

Definition take_event (d : SseDecoder) : option Value * SseDecoder :=
  let data := sse_data d in
  let kind := sse_event d in
  let d := MkSse (sse_line d) [] None (sse_frame_bytes d) (sse_discarding d) (sse_error d) in
  if is_empty data || String.eqb (of_chars data) "[DONE]" then (None, d)
  else
    match from_slice data with
    | None => (None, MkSse (sse_line d) (sse_data d) (sse_event d) (sse_frame_bytes d)
                       (sse_discarding d) (Some "SSE data is not valid JSON"))
    | Some v =>
        (Some (match get_str "type" v, kind, v with
               | None, Some k, Object fields => Object (assoc_insert "type" (String k) fields)
               | _, _, _ => v
               end), d)
    end.

(** A data line adds a line break when it is not the first. *)
Definition add_data (data value : list ascii) : list ascii :=
  (if is_empty data then data else data ++ [nl])
  ++ unwrap_or (strip_prefix_chars (chars " ") value) value.

Definition complete_line (d : SseDecoder) : option Value * SseDecoder :=
  let line := strip_cr (sse_line d) in
  let d := MkSse [] (sse_data d) (sse_event d) (sse_frame_bytes d) (sse_discarding d) (sse_error d) in
  if is_empty line then
    let '(event, d) := if sse_discarding d then (None, d) else take_event d in
    (event, MkSse (sse_line d) (sse_data d) (sse_event d) 0 false (sse_error d))
  else if sse_discarding d then (None, d)
  else
    match strip_prefix_chars (chars "event:") line with
    | Some value =>
        (None, MkSse (sse_line d) (sse_data d) (Some (trim (from_utf8_lossy value)))
                 (sse_frame_bytes d) (sse_discarding d) (sse_error d))
    | None =>
        match strip_prefix_chars (chars "data:") line with
        | Some value =>
            (None, MkSse (sse_line d) (add_data (sse_data d) value) (sse_event d)
                     (sse_frame_bytes d) (sse_discarding d) (sse_error d))
        | None => (None, d)
        end
    end.

(** One byte of the loop of [push_bytes]. *)
Definition push_byte (d : SseDecoder) (byte : ascii) : option Value * SseDecoder :=
  if Ascii.eqb byte nl then complete_line d
  else
    let n := count_byte (sse_frame_bytes d) in
    let d := MkSse (sse_line d) (sse_data d) (sse_event d) n (sse_discarding d) (sse_error d) in
    let d := if (MAX_EVENT_BYTES <? n) && negb (sse_discarding d)
             then MkSse [] [] None n true (Some "SSE frame exceeds 4 MiB parsing limit") else d in
    (None, if negb (sse_discarding d) || (length (sse_line d) <? 2)%nat
           then MkSse (sse_line d ++ [byte]) (sse_data d) (sse_event d) n (sse_discarding d) (sse_error d)
           else d).

Fixpoint push_bytes (d : SseDecoder) (bytes : list ascii) : list Value * SseDecoder :=
  match bytes with
  | [] => ([], d)
  | byte :: rest =>
      let '(event, d) := push_byte d byte in
      let '(events, d) := push_bytes d rest in
      (option_list event ++ events, d)
  end.

(** A body read chunk by chunk. *)
Fixpoint push_chunks (d : SseDecoder) (chunks : list (list ascii)) : list Value * SseDecoder :=
  match chunks with
  | [] => ([], d)
  | chunk :: rest =>
      let '(events, d) := push_bytes d chunk in
      let '(more, d) := push_chunks d rest in
      (events ++ more, d)
  end.

Definition finish (d : SseDecoder) : list Value * SseDecoder :=
  let '(first, d) := if is_empty (sse_line d) then (None, d) else complete_line d in
  let '(second, d) := if sse_discarding d then (None, d) else take_event d in
  (option_list first ++ option_list second,
   MkSse (sse_line d) (sse_data d) (sse_event d) 0 (sse_discarding d) (sse_error d)).
End Decoder.

(** ** Terminal events, tiers and usage *)
Definition is_terminal_response_event (v : Value) : bool :=
  str_is (get_str "status" (response_or_self v))
    ["completed"; "failed"; "incomplete"; "cancelled"; "canceled"]
  || str_is (get_str "type" v)
    ["response.completed"; "response.done"; "response.failed"; "response.incomplete";
     "response.cancelled"; "response.canceled"; "error"].

Definition service_tier (v : Value) : option string :=
  opt_bind (opt_or (opt_bind (get "response" v) (get "service_tier")) (get "service_tier" v)) as_str.

(** The first of the named fields that is an integer, when it is not negative. *)
Fixpoint first_i64 (names : list (list string)) (v : Value) : option Z :=
  match names with
  | [] => None
  | name :: rest =>
      match opt_bind (pointer name v) as_i64 with
      | Some n => Some n
      | None => first_i64 rest v
      end
  end.
Definition number (names : list (list string)) (v : Value) : option Z :=
  opt_filter (λ n, 0 <=? n) (first_i64 names v).

Definition parse_usage (v : Value) : option Usage :=
  match number [["input_tokens"]; ["prompt_tokens"]] v with
  | None => None
  | Some input =>
      match number [["output_tokens"]; ["completion_tokens"]] v with
      | None => None
      | Some output =>
          let cached := unwrap_or (number
            [["input_tokens_details"; "cached_tokens"]; ["prompt_tokens_details"; "cached_tokens"];
             ["cached_tokens"]; ["cache_read_input_tokens"]] v) 0 in
          let created := unwrap_or (number
            [["input_tokens_details"; "cache_creation_tokens"]; ["input_tokens_details"; "cache_write_tokens"];
             ["prompt_tokens_details"; "cache_creation_tokens"]; ["prompt_tokens_details"; "cache_write_tokens"];
             ["cache_creation_tokens"]; ["cache_creation_input_tokens"];
             ["cached_creation_tokens"]; ["cache_write_tokens"]] v) 0 in
          let reasoning := unwrap_or (number
            [["output_tokens_details"; "reasoning_tokens"]; ["completion_tokens_details"; "reasoning_tokens"];
             ["reasoning_tokens"]] v) 0 in
          Some (MkUsage (Z.max (i64_sat_sub (i64_sat_sub input cached) created) 0) output cached created reasoning)
      end
  end.

Definition event_usage (v : Value) : option Usage :=
  opt_or (opt_bind (opt_bind (get "response" v) (get "usage")) parse_usage)
         (opt_bind (get "usage" v) parse_usage).

Record Observation := MkObservation {
  ob_first_output_kind : option string;
  ob_usage : option Usage;
  ob_service_tier : option string;
  ob_terminal : bool;
  ob_terminal_usage : bool
}.

Definition default_observation : Observation := MkObservation None None None false false.

Definition observe (o : Observation) (v : Value) : Observation :=
  let first := match ob_first_output_kind o with None => output_event_kind v | some => some end in
  let terminal := is_terminal_response_event v in
  let '(usage, terminal_usage) :=
    match event_usage v with
    | Some usage =>
        if terminal || negb (ob_terminal_usage o) then (Some usage, ob_terminal_usage o || terminal)
        else (ob_usage o, ob_terminal_usage o)
    | None => (ob_usage o, ob_terminal_usage o)
    end in
  let tier := match service_tier v with Some t => Some t | None => ob_service_tier o end in
  MkObservation first usage tier (ob_terminal o || terminal) terminal_usage.

(** ** Statuses *)

(** encrypted_content.rs *)
Definition is_invalid_encrypted_content (v : Value) : bool :=
  existsb (λ error, is_some_and (get_str "code" error) (String.eqb "invalid_encrypted_content"))
    (option_list (get "error" v) ++ option_list (pointer ["response"; "error"] v)).

(** [StatusCode::from_u16(status as u16)]: the cast keeps 16 bits, three digits are valid. *)
Definition status_code (status : Z) : option Z :=
  let s := status mod 65536 in if (100 <=? s) && (s <=? 999) then Some s else None.

Definition status_from_value (o : option Value) : option Z :=
  match o with
  | None => None
  | Some v =>
      match opt_or (get "status" v) (get "status_code" v) with
      | None => None
      | Some status =>
          opt_bind (opt_or (as_u64 status) (opt_bind (as_str status) parse_u64)) status_code
      end
  end.

Definition error_fields (error : option Value) (fallback_code fallback_message : string) : string * string :=
  let code := opt_bind error (λ e, opt_or (get "code" e) (get "type" e)) in
  let text o fallback := unwrap_or (opt_filter (λ s, negb (String.eqb s "")) (opt_bind o as_str)) fallback in
  (text code fallback_code, text (opt_bind error (get "message")) fallback_message).

Definition Status : Type := Z * option string * option string.

(** The error of the response, or of the event itself. *)
Definition error_of (v : Value) : option Value :=
  opt_or (opt_bind (get "response" v) (get "error")) (get "error" v).

Definition response_failure_status (v : Value) (fallback_code fallback_message : string) : Status :=
  let response := get "response" v in
  let error := error_of v in
  let status := unwrap_or (opt_or (status_from_value response)
                  (opt_or (status_from_value error) (status_from_value (Some v)))) 502 in
  let '(code, message) := error_fields error fallback_code fallback_message in
  (status, Some code, Some message).

Definition response_incomplete_status (v : Value) : Status :=
  let response := get "response" v in
  if is_some (error_of v) then response_failure_status v "response_incomplete" "response incomplete"
  else
    let details := opt_bind response (get "incomplete_details") in
    let reason := unwrap_or (opt_or (opt_bind details (get_str "reason"))
                               (opt_bind response (get_str "status"))) "response incomplete" in
    let status := unwrap_or (opt_or (status_from_value response) (status_from_value (Some v))) 200 in
    (status, Some "response_incomplete", Some reason).

Definition response_cancelled_status (v : Value) : Status :=
  let response := get "response" v in
  if is_some (error_of v) then response_failure_status v "response_cancelled" "response cancelled"
  else
    let status := unwrap_or (opt_or (status_from_value response) (status_from_value (Some v))) 200 in
    (status, Some "response_cancelled", Some "response cancelled").

(** The kind a terminal event is handled as. *)
Definition terminal_kind (v : Value) : option string :=
  match get_str "status" (response_or_self v) with
  | Some s =>
      if String.eqb s "completed" then Some "response.completed"
      else if String.eqb s "failed" then Some "response.failed"
      else if String.eqb s "incomplete" then Some "response.incomplete"
      else if is_one_of s ["cancelled"; "canceled"] then Some "response.cancelled"
      else get_str "type" v
  | None => get_str "type" v
  end.

Definition other_status (v : Value) : Status :=
  let error := get "error" v in
  let status := unwrap_or (opt_or (status_from_value (Some v)) (status_from_value error)) 502 in
  let code := unwrap_or (opt_bind (opt_bind error (λ e, opt_or (get "code" e) (get "type" e))) as_str)
                "upstream_error" in
  let message := unwrap_or (opt_bind error (get_str "message")) "upstream websocket returned an error" in
  (status, Some code, Some message).

Definition terminal_status (v : Value) : Status :=
  if is_invalid_encrypted_content v then
    let error := opt_or (get "error" v) (pointer ["response"; "error"] v) in
    let '(code, message) := error_fields error "invalid_encrypted_content"
                              "encrypted content could not be verified" in
    (400, Some code, Some message)
  else
    let kind := terminal_kind v in
    if str_is kind ["response.completed"; "response.done"] then (200, None, None)
    else if str_is kind ["response.failed"] then response_failure_status v "response_failed" "response failed"
    else if str_is kind ["response.incomplete"] then response_incomplete_status v
    else if str_is kind ["response.cancelled"; "response.canceled"] then response_cancelled_status v
    else other_status v.

(** ** The decoder *)
Section DecoderFacts.
Context (from_slice : list ascii → option Value).
Abbreviation push := (push_bytes from_slice).

Lemma push_app d a b :
  push d (a ++ b) =
    ((push d a).1 ++ (push (push d a).2 b).1, (push (push d a).2 b).2).
Proof.
  revert d. induction a as [|x a IH]; intros d; simpl; [by destruct (push d b)|].
  destruct (push_byte from_slice d x) as [e d1]. rewrite IH.
  destruct (push d1 a) as [es d2]. simpl. by rewrite app_assoc.
Qed.

(** A body read chunk by chunk is decoded as the bytes of the chunks. *)
Lemma push_chunks_concat d chunks : push_chunks from_slice d chunks = push d (concat chunks).
Proof.
  revert d. induction chunks as [|c chunks IH]; intros d; simpl; [done|].
  rewrite push_app -IH. destruct (push d c) as [es d1]. simpl. by destruct (push_chunks _ d1 chunks).
Qed.

(** ** Bounded memory *)
Definition sse_inv (d : SseDecoder) : Prop :=
  if sse_discarding d then sse_data d = [] ∧ sse_event d = None ∧ (length (sse_line d) <= 2)%nat
  else 0 <= Z.of_nat (length (sse_line d)) + Z.of_nat (length (sse_data d)) <= sse_frame_bytes d
       ∧ sse_frame_bytes d <= MAX_EVENT_BYTES.

(** Between two frames. *)
Definition clean (d : SseDecoder) : Prop :=
  sse_line d = [] ∧ sse_data d = [] ∧ sse_event d = None ∧ sse_frame_bytes d = 0
  ∧ sse_discarding d = false.

Lemma clean_inv d : clean d → sse_inv d.
Proof. intros (Hl & Hd & _ & Hf & Hx). unfold sse_inv. rewrite Hx Hl Hd Hf /=. unfold MAX_EVENT_BYTES. lia. Qed.

Lemma strip_cr_length l : (length (strip_cr l) <= length l)%nat.
Proof.
  unfold strip_cr. destruct (last l) as [c|] eqn:E; [|done]. destruct (Ascii.eqb c cr); [|done].
  apply last_Some in E as [l' ->]. rewrite removelast_last length_app /=. lia.
Qed.

Lemma strip_prefix_chars_length p l rest :
  strip_prefix_chars p l = Some rest → length l = (length p + length rest)%nat.
Proof.
  revert l. induction p as [|a p IH]; intros [|c l]; simpl; try done; try (intros [= <-]; done).
  destruct (Ascii.eqb a c); [|done]. intros H%IH. by rewrite H.
Qed.

Lemma add_data_length data value :
  (length (add_data data value) <= length data + 1 + length value)%nat.
Proof.
  unfold add_data. rewrite length_app.
  assert (length (unwrap_or (strip_prefix_chars (chars " ") value) value) <= length value)%nat.
  { destruct (strip_prefix_chars _ value) as [r|] eqn:E; simpl; [|done].
    apply strip_prefix_chars_length in E. simpl in E. lia. }
  set (n := length (unwrap_or _ value)) in *. destruct (is_empty data); [|rewrite length_app; cbn [length]]; lia.
Qed.

(** A blank line ends the frame, whatever came before. *)
Lemma complete_blank d :
  sse_inv d → strip_cr (sse_line d) = [] → clean (complete_line from_slice d).2.
Proof.
  intros Hi He. unfold complete_line. rewrite He. cbn [is_empty].
  unfold sse_inv in Hi. unfold take_event. cbn [sse_discarding sse_data sse_event].
  destruct (sse_discarding d) eqn:Ed.
  - destruct Hi as (Hd & Hev & _). done.
  - destruct (is_empty (sse_data d) || _); [done|]. by destruct (from_slice _).
Qed.

Lemma complete_other d :
  sse_inv d → strip_cr (sse_line d) ≠ [] →
  sse_inv (complete_line from_slice d).2 ∧ sse_line (complete_line from_slice d).2 = [].
Proof.
  intros Hi He. unfold complete_line. cbv zeta. pose proof (strip_cr_length (sse_line d)) as Hlen.
  destruct (strip_cr (sse_line d)) as [|c line] eqn:El; [done|]. cbn [is_empty].
  set (L := c :: line) in *. unfold sse_inv in Hi |- *. cbn [sse_discarding].
  destruct (sse_discarding d) eqn:Ed; cbn [snd sse_line sse_data sse_event sse_discarding sse_frame_bytes].
  - destruct Hi as (-> & -> & _). simpl. split; [|done]. split_and!; [done..|lia].
  - destruct (strip_prefix_chars (chars "event:") L) eqn:E1; [|destruct (strip_prefix_chars (chars "data:") L) as [v|] eqn:E2];
      cbn [snd sse_line sse_data sse_event sse_discarding sse_frame_bytes]; rewrite ?Ed; (split; [|done]).
    + cbn [length]. lia.
    + pose proof (add_data_length (sse_data d) v). apply strip_prefix_chars_length in E2.
      change (length (chars "data:")) with 5%nat in E2. cbn [length]. lia.
    + cbn [length]. lia.
Qed.

Lemma push_byte_inv d x : sse_inv d → sse_inv (push_byte from_slice d x).2.
Proof.
  intros Hi. unfold push_byte. destruct (Ascii.eqb x nl).
  - destruct (decide (strip_cr (sse_line d) = [])) as [He|He].
    + by apply clean_inv, complete_blank.
    + by apply complete_other.
  - cbv zeta. cbn [snd sse_discarding sse_line sse_data sse_event sse_frame_bytes].
    unfold sse_inv in *. destruct (sse_discarding d) eqn:Ed.
    + rewrite andb_false_r. cbn [sse_discarding sse_line negb orb]. rewrite ?Ed. cbn [negb orb].
      destruct Hi as (Hd & Hev & Hl).
      destruct (Nat.ltb_spec (length (sse_line d)) 2); cbn [sse_discarding sse_data sse_event sse_line];
        rewrite ?Ed ?length_app /=; split_and!; try done; lia.
    + rewrite andb_true_r. destruct (Z.ltb_spec MAX_EVENT_BYTES (count_byte (sse_frame_bytes d))) as [Hb|Hb];
        cbn [sse_discarding sse_line negb orb length Nat.ltb Nat.leb];
        rewrite ?Ed; cbn [negb orb sse_discarding sse_data sse_event sse_line sse_frame_bytes]; rewrite ?Ed.
      * simpl. split_and!; try done. lia.
      * rewrite length_app /=. unfold count_byte, u64_max, MAX_EVENT_BYTES in *. lia.
Qed.

Lemma push_inv d bytes : sse_inv d → sse_inv (push d bytes).2.
Proof.
  revert d. induction bytes as [|x bytes IH]; intros d Hi; simpl; [done|].
  pose proof (push_byte_inv d x Hi) as H1. destruct (push_byte from_slice d x) as [e d1].
  specialize (IH d1 H1). by destruct (push d1 bytes).
Qed.

Lemma new_sse_inv : sse_inv new_sse.
Proof. by apply clean_inv. Qed.

(** The decoder's memory is bounded: whatever bytes arrive, the line and the
    event it buffers never exceed the 4 MiB limit together. *)
Theorem sse_memory_bounded bytes :
  let d := (push new_sse bytes).2 in
  Z.of_nat (length (sse_line d)) + Z.of_nat (length (sse_data d)) <= MAX_EVENT_BYTES.
Proof.
  pose proof (push_inv new_sse bytes new_sse_inv) as H. cbv zeta. unfold sse_inv in H.
  destruct (sse_discarding _).
  - destruct H as (-> & _ & ?). unfold MAX_EVENT_BYTES. simpl. lia.
  - lia.
Qed.

(** ** Frames *)

(** The bytes of one event with a one-line payload. *)
Definition frame (payload : list ascii) : list ascii := chars "data: " ++ payload ++ [nl; nl].

Record payload_ok (p : list ascii) : Prop := {
  pl_line : nl ∉ p;
  pl_end : last p ≠ Some cr;
  pl_nonempty : p ≠ [];
  pl_done : String.eqb (of_chars p) "[DONE]" = false;
  pl_size : Z.of_nat (length p) + 6 <= MAX_EVENT_BYTES
}.

(** Bytes of a line, within the limit, are buffered. *)
Lemma push_line d l :
  sse_discarding d = false → nl ∉ l → 0 <= sse_frame_bytes d →
  sse_frame_bytes d + Z.of_nat (length l) <= MAX_EVENT_BYTES →
  push d l = ([], MkSse (sse_line d ++ l) (sse_data d) (sse_event d)
                    (sse_frame_bytes d + Z.of_nat (length l)) false (sse_error d)).
Proof.
  revert d. induction l as [|x l IH]; intros d Hd Hn Hz Hf; simpl.
  { destruct d; simpl in *. by rewrite app_nil_r Z.add_0_r Hd. }
  simpl length in Hf.
  assert (Ascii.eqb x nl = false) as Hx by (apply Ascii.eqb_neq; set_solver).
  unfold push_byte. rewrite Hx. cbv zeta. cbn [sse_discarding]. rewrite Hd.
  assert (count_byte (sse_frame_bytes d) = sse_frame_bytes d + 1) as ->
    by (unfold count_byte, u64_max, MAX_EVENT_BYTES in *; lia).
  rewrite (proj2 (Z.ltb_ge MAX_EVENT_BYTES _)); [|lia]. cbn [andb sse_discarding negb orb]. rewrite ?Hd.
  cbn [negb orb]. rewrite IH; cbn [sse_discarding sse_frame_bytes sse_line sse_data sse_event sse_error]; [|done|set_solver|lia|lia].
  simpl. f_equal. f_equal; [by rewrite -app_assoc|lia].
Qed.

Lemma chars_app_data p : strip_prefix_chars (chars "event:") (chars "data: " ++ p) = None
  ∧ strip_prefix_chars (chars "data:") (chars "data: " ++ p) = Some (chars " " ++ p).
Proof. done. Qed.

Lemma data_prefix_no_nl : nl ∉ chars "data: ".
Proof. apply (bool_decide_unpack _). vm_compute. exact I. Qed.

Lemma complete_data_line n err p :
  p ≠ [] → last p ≠ Some cr →
  complete_line from_slice (MkSse (chars "data: " ++ p) [] None n false err)
  = (None, MkSse [] p None n false err).
Proof.
  intros Hne He. unfold complete_line. cbn [sse_line].
  assert (strip_cr (chars "data: " ++ p) = chars "data: " ++ p) as ->.
  { unfold strip_cr. rewrite last_app. destruct (last p) as [c|] eqn:E; [|by apply last_None in E].
    rewrite (proj2 (Ascii.eqb_neq c cr)); [done|congruence]. }
  by destruct (chars_app_data p) as [-> ->].
Qed.

Lemma complete_event n err p v :
  payload_ok p → from_slice p = Some v →
  complete_line from_slice (MkSse [] p None n false err) = (Some v, MkSse [] [] None 0 false err).
Proof.
  intros [_ _ Hne Hdone _] Hv. unfold complete_line. cbn [sse_line strip_cr last is_empty sse_discarding].
  unfold take_event. cbn [sse_data sse_event sse_line sse_frame_bytes sse_discarding sse_error].
  assert (is_empty p = false) as -> by by destruct p. rewrite Hdone Hv. cbn [orb].
  by destruct (get_str "type" v).
Qed.

Lemma push_two_lines d :
  push d [nl; nl] =
    let '(e1, d1) := complete_line from_slice d in
    let '(e2, d2) := complete_line from_slice d1 in
    (option_list e1 ++ option_list e2 ++ [], d2).
Proof.
  cbn [push_bytes]. unfold push_byte. change (Ascii.eqb nl nl) with true. cbv iota.
  destruct (complete_line from_slice d) as [e1 d1]. by destruct (complete_line from_slice d1).
Qed.

Lemma push_frame d p v :
  clean d → payload_ok p → from_slice p = Some v →
  (push d (frame p)).1 = [v] ∧ clean (push d (frame p)).2.
Proof.
  intros Hc Hp Hv. pose proof Hp as [Hn He Hne Hdone Hsz]. destruct d as [line data event fb disc err].
  destruct Hc as (Hl & Hd & Hev & Hf & Hx). cbn in Hl, Hd, Hev, Hf, Hx. subst.
  unfold frame. rewrite app_assoc push_app.
  rewrite push_line; cbn [sse_discarding sse_frame_bytes sse_line sse_data sse_event sse_error]; [|done| |lia|].
  2: { intros [Hin|Hin]%elem_of_app; [|done]. by apply data_prefix_no_nl in Hin. }
  2: { rewrite length_app. simpl. lia. }
  cbn [fst snd]. rewrite app_nil_l push_two_lines.
  rewrite complete_data_line; [|done|done]. rewrite (complete_event _ _ _ v); [|done|done].
  split; [reflexivity|by repeat split].
Qed.

(** Framing round-trips: for a stream of events with one-line JSON payloads the
    decoder yields exactly their parsed values, in order, from any point between
    two frames. *)
Theorem sse_round_trip d payloads values :
  clean d → Forall payload_ok payloads → Forall2 (λ p v, from_slice p = Some v) payloads values →
  (push d (concat (map frame payloads))).1 = values
  ∧ clean (push d (concat (map frame payloads))).2.
Proof.
  intros Hc Hp Hv. revert d Hc Hp. induction Hv as [|p v ps vs Hv _ IH]; intros d Hc Hp; cbn [map concat]; [done|].
  inversion Hp as [|? ? Hp1 Hp2]; subst. rewrite push_app. cbn [fst snd].
  destruct (push_frame d p v Hc Hp1 Hv) as [-> Hc']. destruct (IH _ Hc' Hp2) as [-> Hc2]. done.
Qed.

Lemma push_blank_lines d : sse_inv d → clean (push d [nl; nl]).2.
Proof.
  intros Hi. rewrite push_two_lines.
  assert (sse_inv (complete_line from_slice d).2 ∧ strip_cr (sse_line (complete_line from_slice d).2) = []) as [Hi' Hl].
  { destruct (decide (strip_cr (sse_line d) = [])) as [He|He].
    - pose proof (complete_blank d Hi He) as Hc. split; [by apply clean_inv|]. by destruct Hc as (-> & _).
    - destruct (complete_other d Hi He) as [? ->]. done. }
  destruct (complete_line from_slice d) as [e1 d1]. pose proof (complete_blank d1 Hi' Hl) as Hc.
  by destruct (complete_line from_slice d1).
Qed.

(** The decoder resynchronises at the next frame boundary: after any bytes at
    all, an oversized frame included, a blank line makes it decode the frames that
    follow as if the stream started there. *)
Theorem sse_resynchronises garbage payloads values :
  Forall payload_ok payloads → Forall2 (λ p v, from_slice p = Some v) payloads values →
  ∃ before, (push new_sse (garbage ++ [nl; nl] ++ concat (map frame payloads))).1 = before ++ values.
Proof.
  intros Hp Hv. rewrite app_assoc push_app. cbn [fst].
  set (d := (push new_sse (garbage ++ [nl; nl])).2).
  assert (clean d) as Hc.
  { subst d. rewrite push_app. cbn [snd]. apply push_blank_lines, push_inv, new_sse_inv. }
  exists (push new_sse (garbage ++ [nl; nl])).1. f_equal. clearbody d. clear garbage.
  revert d Hc Hp. induction Hv as [|p v ps vs Hv _ IH]; intros d Hc Hp; cbn [map concat]; [done|].
  inversion Hp as [|? ? Hp1 Hp2]; subst. rewrite push_app. cbn [fst].
  destruct (push_frame d p v Hc Hp1 Hv) as [-> Hc']. by rewrite (IH _ Hc' Hp2).
Qed.
(** ** Streams as the format has them

    A frame is a list of lines and a blank line; each line ends with LF or CRLF. *)
Inductive SseLine :=
  | EventLine (value : list ascii)
  | DataLine (value : list ascii)
  | OtherLine (line : list ascii).

Record SseFrame := MkFrame { fr_lines : list (SseLine * bool); fr_blank : bool }.

Definition line_bytes (l : SseLine) : list ascii :=
  match l with EventLine v => chars "event:" ++ v | DataLine v => chars "data:" ++ v | OtherLine l => l end.
Definition line_end (crlf : bool) : list ascii := if crlf then [cr; nl] else [nl].
Definition encode_line (l : SseLine * bool) : list ascii := line_bytes l.1 ++ line_end l.2.
Definition encode_frame (f : SseFrame) : list ascii := concat (map encode_line (fr_lines f)) ++ line_end (fr_blank f).

(** A line is one line, and a comment or a field nobody reads is neither empty nor one of the two. *)
Definition line_ok (l : SseLine) : Prop :=
  nl ∉ line_bytes l ∧ last (line_bytes l) ≠ Some cr
  ∧ match l with
    | OtherLine o => o ≠ [] ∧ strip_prefix_chars (chars "event:") o = None ∧ strip_prefix_chars (chars "data:") o = None
    | _ => True
    end.
Definition frame_ok (f : SseFrame) : Prop :=
  Forall (λ l, line_ok l.1) (fr_lines f) ∧ Z.of_nat (length (encode_frame f)) <= MAX_EVENT_BYTES.

(** What the lines say: the data lines joined, but for empty ones at the start; the last name. *)
Fixpoint join_lines (l : list (list ascii)) : list ascii :=
  match l with
  | [] => []
  | [v] => v
  | v :: rest => v ++ nl :: join_lines rest
  end.
Fixpoint skip_empty (l : list (list ascii)) : list (list ascii) :=
  match l with [] :: rest => skip_empty rest | _ => l end.
Definition field_value (v : list ascii) : list ascii :=
  match v with c :: rest => if Ascii.eqb c " " then rest else v | [] => [] end.
Definition data_values (lines : list (SseLine * bool)) : list (list ascii) :=
  omap (λ l : SseLine * bool, match l.1 with DataLine v => Some (field_value v) | _ => None end) lines.
Definition frame_data (f : SseFrame) : list ascii := join_lines (skip_empty (data_values (fr_lines f))).
Definition event_names (lines : list (SseLine * bool)) : list string :=
  omap (λ l : SseLine * bool, match l.1 with EventLine v => Some (trim (from_utf8_lossy v)) | _ => None end) lines.

Definition carries_data (f : SseFrame) : bool := negb (is_empty (frame_data f) || String.eqb (of_chars (frame_data f)) "[DONE]").
Definition frame_broken (f : SseFrame) : bool := carries_data f && is_none (from_slice (frame_data f)).
(** The event of a frame: its data as JSON, named by the frame when it does not name itself. *)
Definition frame_event (f : SseFrame) : option Value :=
  if carries_data f then
    option_map (λ v, match get_str "type" v, last (event_names (fr_lines f)), v with
                     | None, Some name, Object fields => Object (assoc_insert "type" (String name) fields)
                     | _, _, _ => v
                     end) (from_slice (frame_data f))
  else None.

Lemma field_value_strip v : unwrap_or (strip_prefix_chars (chars " ") v) v = field_value v.
Proof. destruct v as [|c v]; [done|]. cbn -[Ascii.eqb]. rewrite Ascii.eqb_sym. by destruct (Ascii.eqb c " "). Qed.

Lemma join_app l v : l ≠ [] → join_lines (l ++ [v]) = join_lines l ++ nl :: v.
Proof.
  induction l as [|x [|y l] IH]; [done|done|]. intros _. specialize (IH ltac:(done)). cbn [app join_lines] in *.
  by rewrite IH -app_assoc.
Qed.

Lemma join_empty l : is_empty (join_lines (skip_empty l)) = is_empty (skip_empty l).
Proof. induction l as [|[|c x] l IH]; [done|exact IH|]. cbn. by destruct l. Qed.

Lemma join_snoc l v :
  join_lines (skip_empty (l ++ [v])) = (let data := join_lines (skip_empty l) in if is_empty data then v else data ++ nl :: v).
Proof.
  cbv zeta. rewrite join_empty. induction l as [|[|c x] l IH]; [by destruct v|exact IH|].
  cbn [app skip_empty is_empty]. apply (join_app ((c :: x) :: l)). done.
Qed.

Lemma strip_cr_line l (crlf : bool) : last l ≠ Some cr → strip_cr (l ++ (if crlf then [cr] else [])) = l.
Proof.
  intros Hl. unfold strip_cr. destruct crlf.
  - by rewrite last_snoc Ascii.eqb_refl removelast_last.
  - rewrite app_nil_r. destruct (last l) as [c|]; [|done]. rewrite (proj2 (Ascii.eqb_neq c cr)); [done|congruence].
Qed.

(** The bytes of a line and its end. *)
Lemma push_ended d l crlf :
  sse_discarding d = false → sse_line d = [] → nl ∉ l → last l ≠ Some cr → 0 <= sse_frame_bytes d →
  sse_frame_bytes d + Z.of_nat (length (l ++ line_end crlf)) <= MAX_EVENT_BYTES + 1 →
  ∃ n ended, sse_frame_bytes d <= n <= sse_frame_bytes d + Z.of_nat (length (l ++ line_end crlf)) - 1
    ∧ strip_cr ended = l
    ∧ push d (l ++ line_end crlf) =
      let '(e, d) := complete_line from_slice (MkSse ended (sse_data d) (sse_event d) n false (sse_error d)) in (option_list e, d).
Proof.
  intros Hd Hline Hn Hl Hz Hsz. exists (sse_frame_bytes d + Z.of_nat (length (l ++ (if crlf then [cr] else [])))), (l ++ (if crlf then [cr] else [])).
  assert (l ++ line_end crlf = (l ++ (if crlf then [cr] else [])) ++ [nl]) as Heq by (rewrite -app_assoc; by destruct crlf).
  rewrite Heq in Hsz |- *. rewrite length_app in Hsz |- *. cbn [length] in Hsz |- *. split_and!; [lia..|by apply strip_cr_line|].
  rewrite push_app push_line; [|done| |done|lia].
  - cbn [fst snd push_bytes]. unfold push_byte. change (Ascii.eqb nl nl) with true. cbv iota. rewrite Hline. cbn [app].
    destruct (complete_line _ _) as [e d']. cbn [fst snd]. by rewrite app_nil_r.
  - intros [Hx|Hx]%elem_of_app; [done|]. destruct crlf; [|by apply not_elem_of_nil in Hx].
    apply list_elem_of_singleton in Hx. discriminate Hx.
Qed.

Definition step_data (data : list ascii) (l : SseLine) : list ascii :=
  match l with DataLine v => if is_empty data then field_value v else data ++ nl :: field_value v | _ => data end.
Definition step_name (name : option string) (l : SseLine) : option string :=
  match l with EventLine v => Some (trim (from_utf8_lossy v)) | _ => name end.

Lemma complete_line_of l ended data event n err :
  line_ok l → strip_cr ended = line_bytes l →
  complete_line from_slice (MkSse ended data event n false err)
  = (None, MkSse [] (step_data data l) (step_name event l) n false err).
Proof.
  intros (_ & _ & Ho) Hs. unfold complete_line. cbn [sse_line sse_discarding]. rewrite Hs.
  destruct l as [v|v|o]; [done| |].
  - change (line_bytes (DataLine v)) with (chars "data:" ++ v).
    change (is_empty (chars "data:" ++ v)) with false. cbv iota.
    change (strip_prefix_chars (chars "event:") (chars "data:" ++ v)) with (@None (list ascii)).
    change (strip_prefix_chars (chars "data:") (chars "data:" ++ v)) with (Some v). cbv iota zeta.
    unfold add_data. rewrite field_value_strip. cbn [sse_data step_data]. destruct (is_empty data) eqn:E; [|by rewrite -app_assoc].
    by destruct data.
  - destruct Ho as (Hne & He & Hd). cbn [line_bytes]. destruct o; [done|]. cbn [is_empty]. by rewrite He Hd.
Qed.

Lemma frame_data_snoc lines l : join_lines (skip_empty (data_values (lines ++ [l]))) = step_data (join_lines (skip_empty (data_values lines))) l.1.
Proof.
  unfold data_values. rewrite omap_app. destruct l as [[v|v|o] crlf]; cbn [omap list_omap fst step_data]; rewrite ?app_nil_r //.
  by rewrite join_snoc.
Qed.

Lemma event_names_snoc lines l : last (event_names (lines ++ [l])) = step_name (last (event_names lines)) l.1.
Proof.
  unfold event_names. rewrite omap_app. destruct l as [[v|v|o] crlf]; cbn [omap list_omap fst step_name]; rewrite ?app_nil_r //.
  by rewrite last_snoc.
Qed.

(** The lines of a frame, from between two frames. *)
Lemma push_frame_lines d lines :
  clean d → Forall (λ l, line_ok l.1) lines → Z.of_nat (length (concat (map encode_line lines))) <= MAX_EVENT_BYTES →
  ∃ n, 0 <= n <= Z.of_nat (length (concat (map encode_line lines)))
    ∧ push d (concat (map encode_line lines)) =
      ([], MkSse [] (join_lines (skip_empty (data_values lines))) (last (event_names lines)) n false (sse_error d)).
Proof.
  intros Hc. induction lines as [|l lines IH] using rev_ind.
  - intros _ _. exists 0. split; [done|]. destruct d, Hc as (Hl & Hd & He & Hf & Hx). cbn in *. by subst.
  - intros [Hok [Hl _]%Forall_cons]%Forall_app. rewrite map_app concat_app length_app. cbn [map concat]. rewrite app_nil_r. intros Hsz.
    destruct IH as (n & Hn & E); [done|lia|]. rewrite push_app E. cbn [fst snd]. destruct l as [l crlf]. unfold encode_line in *. cbn [fst snd] in *.
    destruct (push_ended (MkSse [] (join_lines (skip_empty (data_values lines))) (last (event_names lines)) n false (sse_error d)) (line_bytes l) crlf)
      as (n' & ended & Hn' & Hs & ->); cbn [sse_frame_bytes sse_data sse_event sse_error] in *; try done; try apply Hl; try lia.
    rewrite (complete_line_of l) // frame_data_snoc event_names_snoc. exists n'. split; [lia|done].
Qed.

Lemma push_sse_frame d f :
  clean d → frame_ok f →
  (push d (encode_frame f)).1 = option_list (frame_event f) ∧ clean (push d (encode_frame f)).2
  ∧ sse_error (push d (encode_frame f)).2 = (if frame_broken f then Some "SSE data is not valid JSON" else sse_error d).
Proof.
  intros Hc [Hok Hsz]. unfold encode_frame in *. rewrite length_app in Hsz.
  destruct (push_frame_lines d (fr_lines f) Hc Hok) as (n & Hn & E); [lia|]. rewrite push_app E. cbn [fst snd app]. clear E.
  fold (frame_data f).
  destruct (push_ended (MkSse [] (frame_data f) (last (event_names (fr_lines f))) n false (sse_error d)) [] (fr_blank f))
    as (n' & ended & Hn' & Hs & E); cbn [sse_frame_bytes sse_data sse_event sse_error app] in *; try done; try lia; [apply not_elem_of_nil|].
  rewrite E. clear E. unfold complete_line. cbn [sse_line sse_discarding]. rewrite Hs. cbn [is_empty].
  unfold take_event, frame_event, frame_broken, carries_data. cbn [sse_data sse_event sse_line sse_frame_bytes sse_discarding sse_error].
  destruct (is_empty (frame_data f) || String.eqb (of_chars (frame_data f)) "[DONE]"); cbn [negb andb]; [by split_and!|].
  by destruct (from_slice (frame_data f)).
Qed.

Lemma push_sse_frames d frames :
  clean d → Forall frame_ok frames →
  (push d (concat (map encode_frame frames))).1 = omap frame_event frames
  ∧ clean (push d (concat (map encode_frame frames))).2
  ∧ sse_error (push d (concat (map encode_frame frames))).2
    = (if existsb frame_broken frames then Some "SSE data is not valid JSON" else sse_error d).
Proof.
  intros Hc Hf. revert d Hc. induction Hf as [|f frames Hf _ IH]; intros d Hc; [done|]. cbn [map concat]. rewrite push_app. cbn [fst snd].
  destruct (push_sse_frame d f Hc Hf) as (-> & Hc' & He). destruct (IH _ Hc') as (-> & Hc2 & ->). rewrite He. split_and!; [|done|].
  - cbn [omap list_omap]. by destruct (frame_event f).
  - cbn [existsb]. destruct (frame_broken f), (existsb frame_broken frames); done.
Qed.
(** C36. The decoder reads a stream as the format has it, however the network cuts it: from its
    start, or after any bytes at all and a blank line, each frame - lines of data, names and
    anything else, ended by LF or CRLF, within the limit of 4 MiB - yields one event: its data
    lines joined and read as JSON, named by the frame unless it names itself. Frames without
    data and [DONE] yield none, nor do frames that are not JSON, which are kept as an error;
    nothing is left for the end of the body. *)
Theorem sse_decodes_frames garbage frames chunks :
  garbage = [] ∨ (∃ g, garbage = g ++ [nl; nl]) → Forall frame_ok frames →
  concat chunks = garbage ++ concat (map encode_frame frames) →
  let before := push new_sse garbage in
  let r := push_chunks from_slice new_sse chunks in
  r.1 = before.1 ++ omap frame_event frames
  ∧ (finish from_slice r.2).1 = []
  ∧ sse_error r.2 = (if existsb frame_broken frames then Some "SSE data is not valid JSON" else sse_error before.2).
Proof.
  intros Hg Hf E. cbv zeta. rewrite push_chunks_concat E push_app. cbn [fst snd].
  assert (clean (push new_sse garbage).2) as Hc.
  { destruct Hg as [->|(g & ->)]; [by repeat split|]. rewrite push_app. cbn [snd]. apply push_blank_lines, push_inv, new_sse_inv. }
  destruct (push_sse_frames _ frames Hc Hf) as (-> & Hc' & He). split_and!; [done| |done].
  destruct (push _ (concat _)).2 as [line data event n disc err], Hc' as (Hl & Hd & Hev & Hn & Hx). cbn in *. by subst.
Qed.
End DecoderFacts.

(** ** Usage *)
Lemma first_i64_range names v n : first_i64 names v = Some n → is_i64 n.
Proof.
  induction names as [|name names IH]; simpl; [done|].
  destruct (opt_bind (pointer name v) as_i64) as [m|] eqn:E; [|exact IH]. intros [= <-].
  unfold opt_bind in E. destruct (pointer name v) as [w|]; [|done].
  unfold as_i64 in E. destruct w; try done. by eapply parse_i64_range.
Qed.

Lemma number_range names v n : number names v = Some n → 0 <= n <= i64_max.
Proof.
  unfold number. destruct (first_i64 names v) as [m|] eqn:E; simpl; [|done].
  apply first_i64_range in E. destruct (Z.leb_spec 0 m); [|done]. intros [= <-]. mlia.
Qed.

Lemma number_default_range names v : 0 <= unwrap_or (number names v) 0 <= i64_max.
Proof. destruct (number names v) eqn:E; simpl; [by eapply number_range|mlia]. Qed.

(** Metered usage is never negative nor counted twice: every count is within
    [0, 2^63), and plain, cached and cache-creating input tokens add up to the
    reported input whenever the upstream's details fit in it. *)
Theorem usage_partitions_input v u :
  parse_usage v = Some u →
  ∃ input, number [["input_tokens"]; ["prompt_tokens"]] v = Some input
  ∧ 0 <= us_input_tokens u <= input ∧ 0 <= us_output_tokens u <= i64_max
  ∧ 0 <= us_cache_read_input_tokens u <= i64_max ∧ 0 <= us_cache_creation_input_tokens u <= i64_max
  ∧ 0 <= us_reasoning_output_tokens u <= i64_max
  ∧ (us_cache_read_input_tokens u + us_cache_creation_input_tokens u <= input →
     us_input_tokens u + us_cache_read_input_tokens u + us_cache_creation_input_tokens u = input).
Proof.
  unfold parse_usage. destruct (number [["input_tokens"]; ["prompt_tokens"]] v) as [input|] eqn:Ei; [|done].
  destruct (number [["output_tokens"]; ["completion_tokens"]] v) as [output|] eqn:Eo; [|done].
  cbv zeta. intros [= <-]. exists input. apply number_range in Ei, Eo.
  cbn [us_input_tokens us_output_tokens us_cache_read_input_tokens us_cache_creation_input_tokens us_reasoning_output_tokens].
  match goal with |- context [i64_sat_sub (i64_sat_sub input ?a) ?b] =>
    pose proof (eq_refl : a = a); pose proof (eq_refl : b = b);
    assert (0 <= a <= i64_max) by apply number_default_range;
    assert (0 <= b <= i64_max) by apply number_default_range;
    set (cached := a) in *; set (created := b) in * end.
  clearbody cached created. split; [done|]. pose proof (number_default_range
    [["output_tokens_details"; "reasoning_tokens"]; ["completion_tokens_details"; "reasoning_tokens"];
     ["reasoning_tokens"]] v).
  split_and!; try done; try (apply Ei || apply Eo); mlia.
Qed.

(** ** Observation *)
Lemma observe_usage o v :
  (ob_usage (observe o v), ob_terminal_usage (observe o v)) =
    match event_usage v with
    | Some u => if is_terminal_response_event v || negb (ob_terminal_usage o)
                then (Some u, ob_terminal_usage o || is_terminal_response_event v)
                else (ob_usage o, ob_terminal_usage o)
    | None => (ob_usage o, ob_terminal_usage o)
    end.
Proof. unfold observe. destruct (event_usage v); [destruct (_ || _)|]; done. Qed.

(** The usages of the terminal events, and of all events, in order. *)
Definition terminal_usages (events : list Value) : list Usage :=
  omap event_usage (List.filter is_terminal_response_event events).
Definition all_usages (events : list Value) : list Usage := omap event_usage events.

(** The usage charged for a stream is the last one a terminal event reports,
    and only when no terminal event reports any, the last one seen at all: no
    later progress event overwrites the final count. *)
Theorem observed_usage_is_final events :
  let o := foldl observe default_observation events in
  ob_usage o = (if is_empty (terminal_usages events) then last (all_usages events)
                else last (terminal_usages events))
  ∧ ob_terminal o = existsb is_terminal_response_event events.
Proof.
  cbv zeta.
  assert (ob_usage (foldl observe default_observation events)
    = (if is_empty (terminal_usages events) then last (all_usages events)
       else last (terminal_usages events))
    ∧ ob_terminal_usage (foldl observe default_observation events) = negb (is_empty (terminal_usages events))
    ∧ ob_terminal (foldl observe default_observation events) = existsb is_terminal_response_event events)
    as (H1 & _ & H2); [|done].
  induction events as [|v events IH] using rev_ind; [done|].
  rewrite foldl_app. cbn [foldl]. set (o := foldl observe _ events) in *.
  destruct IH as (Hu & Ht & Htm). pose proof (observe_usage o v) as Ho.
  unfold terminal_usages, all_usages in *. rewrite List.filter_app !omap_app existsb_app.
  assert (ob_terminal (observe o v) = ob_terminal o || is_terminal_response_event v) as ->.
  { unfold observe. destruct (event_usage v); [destruct (_ || _)|]; done. }
  cbn [List.filter existsb]. rewrite Htm orb_false_r.
  assert (∀ (l : list Usage) u, last (l ++ [u]) = Some u) as Hlast by (intros; apply last_snoc).
  assert (∀ l (u : Usage), is_empty (l ++ [u]) = false) as Hne by (intros [|]; done).
  rewrite Ht negb_involutive in Ho.
  set (T := omap event_usage (List.filter is_terminal_response_event events)) in *.
  destruct (event_usage v) as [u|] eqn:Eu.
  - destruct (is_terminal_response_event v) eqn:Et; cbn [orb omap list_omap] in *; rewrite ?Eu.
    + injection Ho as -> ->. rewrite Hne Hlast. split_and!; [done|by rewrite orb_true_r|done].
    + rewrite app_nil_r. destruct (is_empty T) eqn:ET; injection Ho as -> ->.
      * rewrite Hlast. split_and!; [done|done|done].
      * done.
  - injection Ho as -> ->. destruct (is_terminal_response_event v); cbn [omap list_omap];
      rewrite ?Eu !app_nil_r; done.
Qed.

(** ** Statuses *)
Lemma status_from_value_range o s : status_from_value o = Some s → 100 <= s <= 999.
Proof.
  unfold status_from_value. destruct o as [v|]; [|done]. destruct (opt_or _ _) as [st|]; [|done].
  unfold opt_bind at 1. destruct (opt_or (as_u64 st) _) as [n|]; [|done]. unfold status_code.
  destruct ((100 <=? n mod 65536) && (n mod 65536 <=? 999)) eqn:E; [|done]. intros [= <-].
  apply andb_true_iff in E as [?%Z.leb_le ?%Z.leb_le]. done.
Qed.

Lemma status_or_range o d : 100 <= d <= 999 →
  (∀ s, o = Some s → 100 <= s <= 999) → 100 <= unwrap_or o d <= 999.
Proof. destruct o; simpl; naive_solver. Qed.

Lemma opt_or_range (a b : option Z) :
  (∀ s, a = Some s → 100 <= s <= 999) → (∀ s, b = Some s → 100 <= s <= 999) →
  ∀ s, opt_or a b = Some s → 100 <= s <= 999.
Proof. destruct a; simpl; naive_solver. Qed.

Ltac solve_status :=
  apply status_or_range; [lia|]; repeat (apply opt_or_range); try apply status_from_value_range.

(** A valid HTTP code with an error code and a message. *)
Definition failure_like (s : Status) : Prop :=
  100 <= s.1.1 <= 999 ∧ is_some s.1.2 = true ∧ is_some s.2 = true.

Lemma failure_status_like v c m : failure_like (response_failure_status v c m).
Proof.
  unfold response_failure_status. cbv zeta. destruct (error_fields _ _ _).
  split; [cbn [fst]; solve_status|split; reflexivity].
Qed.

Lemma incomplete_status_like v : failure_like (response_incomplete_status v).
Proof.
  unfold response_incomplete_status. cbv zeta. destruct (is_some (error_of v)); [apply failure_status_like|].
  split; [cbn [fst]; solve_status|split; reflexivity].
Qed.

Lemma cancelled_status_like v : failure_like (response_cancelled_status v).
Proof.
  unfold response_cancelled_status. cbv zeta. destruct (is_some (error_of v)); [apply failure_status_like|].
  split; [cbn [fst]; solve_status|split; reflexivity].
Qed.

Lemma other_status_like v : failure_like (other_status v).
Proof. unfold other_status. cbv zeta. split; [cbn [fst]; solve_status|split; reflexivity]. Qed.

(** The outcome of a stream is classified soundly: the status is always a valid
    HTTP code; an invalid encrypted content error is a client error (400), never a
    failover; a completed response is 200 without error; and every other outcome
    carries an error code and message. *)
Theorem terminal_status_sound v :
  let '(status, code, message) := terminal_status v in
  100 <= status <= 999
  ∧ (is_invalid_encrypted_content v = true → status = 400)
  ∧ (is_invalid_encrypted_content v = false →
     str_is (terminal_kind v) ["response.completed"; "response.done"] = true →
     status = 200 ∧ code = None ∧ message = None)
  ∧ (str_is (terminal_kind v) ["response.completed"; "response.done"] = false →
     is_some code = true ∧ is_some message = true).
Proof.
  unfold terminal_status. destruct (is_invalid_encrypted_content v) eqn:Ei.
  { cbv zeta. destruct (error_fields _ _ _). split_and!; try done; lia. }
  cbv zeta. destruct (str_is (terminal_kind v) ["response.completed"; "response.done"]) eqn:Ek.
  { split_and!; try done; lia. }
  match goal with |- let '(_, _) := ?s in _ => assert (failure_like s) as Hl end.
  { destruct (str_is _ ["response.failed"]); [apply failure_status_like|].
    destruct (str_is _ ["response.incomplete"]); [apply incomplete_status_like|].
    destruct (str_is _ ["response.cancelled"; "response.canceled"]);
      [apply cancelled_status_like|apply other_status_like]. }
  revert Hl. match goal with |- failure_like ?s → _ => generalize s end.
  intros [[status code] message] (H1 & H2 & H3). cbn [fst snd] in *.
  split; [exact H1|]. split; [discriminate|]. split; [discriminate|]. by split.
Qed.

(** A response that carries [error: null] is read as a failure: an incomplete
    response whose error field is present but null is reported as 502 and its
    reason is dropped, where the same response without the field is 200 with it. *)
Theorem null_error_is_failure v r reason details :
  get "error" v = None → get "status" v = None → get "status_code" v = None →
  get "response" v = Some r → get_str "status" r = Some "incomplete" →
  get "incomplete_details" r = Some details → get_str "reason" details = Some reason →
  (get "error" r = Some Null →
   terminal_status v = (502, Some "response_incomplete", Some "response incomplete"))
  ∧ (get "error" r = None →
     terminal_status v = (200, Some "response_incomplete", Some reason)).
Proof.
  intros Hve Hvs Hvc Hr Hs Hd Hreason.
  assert (get "status" r = Some (String "incomplete")) as Hst.
  { unfold get_str, opt_bind in Hs. destruct (get "status" r) as [[]|]; naive_solver. }
  assert (terminal_kind v = Some "response.incomplete") as Hk.
  { unfold terminal_kind, response_or_self. rewrite Hr. cbn [unwrap_or]. by rewrite Hs. }
  assert (status_from_value (Some r) = None) as Hsr.
  { unfold status_from_value. rewrite Hst. vm_compute. reflexivity. }
  assert (status_from_value (Some v) = None) as Hsv.
  { unfold status_from_value. by rewrite Hvs Hvc. }
  assert (∀ e, get "error" r = e → is_some_and e (λ e, is_some (get_str "code" e)) = false →
          is_invalid_encrypted_content v = false) as Hinv.
  { intros e He Hc. unfold is_invalid_encrypted_content.
    change (pointer ["response"; "error"] v) with (opt_bind (get "response" v) (pointer ["error"])).
    rewrite Hve Hr. cbn [opt_bind]. change (pointer ["error"] r) with (opt_bind (get "error" r) (pointer [])).
    rewrite He. destruct e as [e|]; [|done]. cbn. unfold is_some in Hc. cbn in Hc.
    by destruct (get_str "code" e). }
  split; intros He; unfold terminal_status; rewrite (Hinv _ He) //; cbv zeta; rewrite Hk;
    cbn [str_is is_some_and]; unfold response_incomplete_status, error_of; rewrite Hr; cbn [opt_bind];
    rewrite He ?Hve; cbn [opt_or is_some].
  - change (is_one_of "response.incomplete" ["response.completed"; "response.done"]) with false.
    change (is_one_of "response.incomplete" ["response.failed"]) with false.
    change (is_one_of "response.incomplete" ["response.incomplete"]) with true. cbv iota.
    unfold response_failure_status, error_of. rewrite Hr. cbn [opt_bind]. rewrite He. cbn [opt_or].
    rewrite Hsr Hsv. reflexivity.
  - change (is_one_of "response.incomplete" ["response.completed"; "response.done"]) with false.
    change (is_one_of "response.incomplete" ["response.failed"]) with false.
    change (is_one_of "response.incomplete" ["response.incomplete"]) with true. cbv iota.
    rewrite Hd. cbn [opt_bind]. rewrite Hreason Hsr Hsv. reflexivity.
Qed.

(** A status number is cut to 16 bits before it is validated. *)
Example status_wraps : status_from_value (Some (Object [("status", Number "65936")])) = Some 400.
Proof. vm_compute. reflexivity. Qed.

(** ** Concrete streams *)

(** A toy parser: a payload is the string of its bytes. *)
Definition toy_parse (l : list ascii) : option Value := Some (String (of_chars l)).

Lemma toy_payload_ok : payload_ok (chars "hello").
Proof.
  split; [|done|done|done|vm_compute; discriminate].
  apply (bool_decide_unpack _). vm_compute. exact I.
Qed.

Lemma sse_round_trip_witness :
  (push_bytes toy_parse new_sse (concat (map frame [chars "hello"; chars "hello"]))).1
  = [String "hello"; String "hello"].
Proof.
  apply (sse_round_trip toy_parse new_sse [chars "hello"; chars "hello"]).
  - by repeat split.
  - repeat constructor; apply toy_payload_ok.
  - repeat constructor.
Defined.

(** A stream cut within a line: a comment, a named event of two lines, the end. *)
Definition example_frames : list SseFrame :=
  [MkFrame [(OtherLine (chars ": hello"), false); (EventLine (chars " greet"), true);
            (DataLine (chars " a"), true); (DataLine (chars "b"), false)] false;
   MkFrame [(DataLine (chars " [DONE]"), false)] true].

Lemma sse_decodes_frames_witness :
  (push_chunks toy_parse new_sse
     [chars "x" ++ [nl; nl]; chars ": hello" ++ [nl] ++ chars "event: gr"; chars "eet" ++ [cr; nl] ++ chars "data: a" ++ [cr];
      [nl] ++ chars "data:b" ++ [nl; nl]; chars "data: [DONE]" ++ [nl; cr; nl]]).1
  = [String (of_chars (chars "a" ++ [nl] ++ chars "b"))].
Proof.
  refine (proj1 (sse_decodes_frames toy_parse (chars "x" ++ [nl; nl]) example_frames _ _ _ _)).
  - right. by exists (chars "x").
  - assert (∀ l, bool_decide (nl ∉ line_bytes l ∧ last (line_bytes l) ≠ Some cr) = true →
      match l with OtherLine o => o ≠ [] ∧ strip_prefix_chars (chars "event:") o = None ∧ strip_prefix_chars (chars "data:") o = None | _ => True end →
      line_ok l) as Hok by (intros l [Hn Hl]%bool_decide_eq_true Ho; by split_and!).
    repeat constructor; cbn [fst]; try (apply Hok; [by vm_compute|by try split_and!]); by vm_compute.
  - by vm_compute.
Defined.

Lemma sse_resynchronises_witness :
  ∃ before, (push_bytes toy_parse new_sse
    (chars "id: 1" ++ [nl; nl] ++ concat (map frame [chars "hello"]))).1 = before ++ [String "hello"].
Proof.
  apply (sse_resynchronises toy_parse (chars "id: 1") [chars "hello"] [String "hello"]).
  - repeat constructor; apply toy_payload_ok.
  - repeat constructor.
Defined.

Definition wu_usage : Value :=
  Object [("input_tokens", Number "100"); ("input_tokens_details", Object [("cached_tokens", Number "30")]);
          ("output_tokens", Number "7")].

Lemma usage_partitions_input_witness :
  parse_usage wu_usage = Some (MkUsage 70 7 30 0 0) ∧
  ∃ input, number [["input_tokens"]; ["prompt_tokens"]] wu_usage = Some input ∧ 70 + 30 + 0 = input.
Proof.
  assert (parse_usage wu_usage = Some (MkUsage 70 7 30 0 0)) as E by (vm_compute; reflexivity).
  split; [exact E|].
  destruct (usage_partitions_input wu_usage (MkUsage 70 7 30 0 0) E) as (input & Hi & _ & _ & _ & _ & _ & Hsum).
  exists input. split; [exact Hi|]. apply Hsum.
  assert (number [["input_tokens"]; ["prompt_tokens"]] wu_usage = Some 100) as E2 by (vm_compute; reflexivity).
  rewrite E2 in Hi. injection Hi as <-. simpl. lia.
Defined.

Definition wn_event (error : list (string * Value)) : Value :=
  Object [("type", String "response.incomplete");
          ("response", Object (error ++ [("status", String "incomplete");
             ("incomplete_details", Object [("reason", String "max_output_tokens")])]))].

Lemma null_error_is_failure_witness :
  terminal_status (wn_event [("error", Null)]) = (502, Some "response_incomplete", Some "response incomplete")
  ∧ terminal_status (wn_event []) = (200, Some "response_incomplete", Some "max_output_tokens").
Proof.
  split.
  - by refine (proj1 (null_error_is_failure (wn_event [("error", Null)]) _ "max_output_tokens" _ _ _ _ _ _ _ _) _).
  - by refine (proj2 (null_error_is_failure (wn_event []) _ "max_output_tokens" _ _ _ _ _ _ _ _) _).
Defined.
