(* ===== verification/Recovery.v ===== *)
(** * Recovery: Responses histories with encrypted content the upstream rejects

    Models [encrypted_content.rs]. SHA-256, JSON parsing and printing belong to
    crates and are parameters, as is the iteration order of a hash set. *)
From Stdlib Require Import Ascii String.
From S2P Require Import Prelude Text Json Types ResponseEvents.

Local Open Scope string_scope.
Local Open Scope list_scope.
Local Open Scope Z_scope.

Definition Digest : Type := list Z.
#[export] Instance Digest_eq_dec : EqDecision Digest := list_eq_dec.
#[export] Instance Digest_countable : Countable Digest := list_countable.

Definition MAX_DIGESTS_PER_SESSION : Z := 512.
Definition MAX_SESSIONS : Z := 1024.

Record Session := MkSession { se_digests : list Digest; se_last_seen_ms : Z }.

Record RecoveryBook := MkRecoveryBook {
  rb_sessions : gmap string Session;
  rb_ttl_ms : Z;
  rb_max_sessions : Z
}.

(** [ttl] in nanoseconds. *)
Definition new_recovery_book (ttl_ns max_sessions : Z) : RecoveryBook :=
  MkRecoveryBook ∅ (Z.min (ttl_ns / 1000000) i64_max) (Z.max 1 (Z.min MAX_SESSIONS max_sessions)).

Definition set_rb_sessions (m : gmap string Session) (b : RecoveryBook) : RecoveryBook :=
  MkRecoveryBook m (rb_ttl_ms b) (rb_max_sessions b).

Definition fresh (ttl_ms now_ms : Z) (s : Session) : bool :=
  i64_sat_sub now_ms (se_last_seen_ms s) <? ttl_ms.

Definition recovery_lookup (b : RecoveryBook) (key : string) (now_ms : Z) : gset Digest * RecoveryBook :=
  let sessions := rb_sessions b in
  let sessions := if is_some_and (sessions !! key) (λ s, negb (fresh (rb_ttl_ms b) now_ms s))
                  then delete key sessions else sessions in
  match sessions !! key with
  | None => (∅, set_rb_sessions sessions b)
  | Some s => (list_to_set (se_digests s),
               set_rb_sessions (<[key := MkSession (se_digests s) now_ms]> sessions) b)
  end.

(** One digest of the loop of [remember]. *)
Definition remember_digest (digests : list Digest) (d : Digest) : list Digest :=
  if bool_decide (d ∈ digests) then digests
  else (if MAX_DIGESTS_PER_SESSION <=? Z.of_nat (length digests) then tail digests else digests) ++ [d].

Section Book.
Context {SessionOrder : HashOrder string Session}.
Context (set_order : gset Digest → list Digest).

Definition remember (b : RecoveryBook) (key : string) (digests : gset Digest) (now_ms : Z) : RecoveryBook :=
  if (size digests =? 0)%nat then b
  else
    let sessions := retain (fresh (rb_ttl_ms b) now_ms) (rb_sessions b) in
    let sessions :=
      if is_none (sessions !! key) && (rb_max_sessions b <=? Z.of_nat (size sessions)) then
        match min_by_key (λ kv, se_last_seen_ms kv.2) (hash_entries sessions) with
        | Some (oldest, _) => delete oldest sessions
        | None => sessions
        end
      else sessions in
    let old := match sessions !! key with Some s => se_digests s | None => [] end in
    set_rb_sessions (<[key := MkSession (foldl remember_digest old (set_order digests)) now_ms]> sessions) b.

(** ** Cleaning a request *)
Definition supported_item (item : Value) : bool :=
  str_is (get_str "type" item) ["reasoning"; "compaction"; "compaction_summary"].

Context (sha256 : string → Digest).

Definition encrypted_digest (item : Value) : option Digest :=
  match get_str "encrypted_content" item with
  | Some encrypted => if String.eqb encrypted "" then None else Some (sha256 encrypted)
  | None => None
  end.

(** The items [visit_input] visits. *)
Definition input_items (v : Value) : list Value :=
  match get "input" v with
  | Some (Array items) => items
  | Some (Object _ as item) => [item]
  | _ => []
  end.

(** The closure [clean]: whether the item stays, the item, and whether it counts. *)
Definition clean_item (invalid : option (gset Digest)) (item : Value) : bool * Value * bool :=
  if negb (supported_item item) || is_none (get "encrypted_content" item) then (true, item, false)
  else if match invalid with
          | Some invalid => negb (is_some_and (encrypted_digest item) (λ d, bool_decide (d ∈ invalid)))
          | None => false
          end then (true, item, false)
  else if negb (str_is (get_str "type" item) ["reasoning"]) then (false, item, true)
  else
    match item with
    | Object fields =>
        let fields := assoc_remove "encrypted_content" fields in
        let fields := match assoc "content" fields with
                      | Some Null => assoc_remove "content" fields
                      | _ => fields
                      end in
        ((1 <? length fields)%nat, Object fields, true)
    | _ => (true, item, true)
    end.

(** [retain_mut(clean)] *)
Fixpoint clean_items (invalid : option (gset Digest)) (items : list Value) : list Value * Z :=
  match items with
  | [] => ([], 0)
  | item :: rest =>
      let '(keep, item, counted) := clean_item invalid item in
      let '(rest, n) := clean_items invalid rest in
      (if keep then item :: rest else rest, (if counted then 1 else 0) + n)
  end.

(** [sanitize] between parsing and printing. *)
Definition sanitize_value (v : Value) (invalid : option (gset Digest)) (websocket : bool)
    : option (Value * Z) :=
  match v with
  | Object root =>
      let cleaned :=
        match assoc "input" root with
        | Some (Array items) =>
            let '(items, n) := clean_items invalid items in Some (Array items, n)
        | Some (Object _ as item) =>
            let '(keep, item, counted) := clean_item invalid item in
            Some (if keep then item else Array [], if counted then 1 else 0)
        | _ => None
        end in
      match cleaned with
      | None => None
      | Some (input, n) =>
          if n =? 0 then None
          else
            let root := assoc_insert "input" input root in
            let has_tool_output :=
              existsb (λ item, str_is (get_str "type" item) ["function_call_output"])
                (input_items (Object root)) in
            let root := if websocket && negb has_tool_output
                        then assoc_remove "previous_response_id" root else root in
            Some (Object root, n)
      end
  | _ => None
  end.

Context (from_slice : string → option Value) (to_vec : Value → option string).

Definition sanitize (body : string) (invalid : option (gset Digest)) (websocket : bool)
    : option (string * Z) :=
  match from_slice body with
  | None => None
  | Some v =>
      match sanitize_value v invalid websocket with
      | None => None
      | Some (v', n) => option_map (λ body, (body, n)) (to_vec v')
      end
  end.

(** ** The recovery of one request *)
Record RecoveryTrace := MkTrace { tr_filtered_items : Z; tr_stripped_items : Z; tr_retries : Z }.

Record RequestRecovery := MkRecovery {
  rr_enabled : bool;
  rr_session_key : option string;
  rr_invalid : gset Digest;
  rr_trace : RecoveryTrace
}.

Definition new_recovery (enabled : bool) (session_key : option string) : RequestRecovery :=
  MkRecovery enabled session_key ∅ (MkTrace 0 0 0).

Definition filter_known (r : RequestRecovery) (b : RecoveryBook) (body : string) (now_ms : Z)
    : string * RequestRecovery * RecoveryBook :=
  if negb (rr_enabled r) then (body, r, b)
  else
    let '(known, b) := match rr_session_key r with
                       | Some key => recovery_lookup b key now_ms
                       | None => (∅, b)
                       end in
    let invalid := rr_invalid r ∪ known in
    if (size invalid =? 0)%nat then (body, r, b)
    else match sanitize body (Some invalid) false with
         | None => (body, r, b)
         | Some (cleaned, count) =>
             (cleaned,
              MkRecovery (rr_enabled r) (rr_session_key r) (rr_invalid r)
                (MkTrace (tr_filtered_items (rr_trace r) + count) (tr_stripped_items (rr_trace r))
                   (tr_retries (rr_trace r))), b)
         end.

(** The digests of the items of a rejected body. *)
Definition failed_digests (v : Value) : list Digest :=
  omap encrypted_digest (List.filter supported_item (input_items v)).

Definition record_failure (r : RequestRecovery) (b : RecoveryBook) (body : string) (now_ms : Z)
    : RequestRecovery * RecoveryBook :=
  if negb (rr_enabled r) then (r, b)
  else
    let invalid := match from_slice body with
                   | Some v => rr_invalid r ∪ list_to_set (failed_digests v)
                   | None => rr_invalid r
                   end in
    (MkRecovery (rr_enabled r) (rr_session_key r) invalid (rr_trace r),
     match rr_session_key r with
     | Some key => remember b key invalid now_ms
     | None => b
     end).

Definition can_retry (r : RequestRecovery) : bool := rr_enabled r && (tr_retries (rr_trace r) =? 0).

Definition prepare_retry (r : RequestRecovery) (body : string) (websocket : bool)
    : option string * RequestRecovery :=
  if negb (can_retry r) then (None, r)
  else match sanitize body None websocket with
       | None => (None, r)
       | Some (body, count) =>
           (Some body,
            MkRecovery (rr_enabled r) (rr_session_key r) (rr_invalid r)
              (MkTrace (tr_filtered_items (rr_trace r)) (tr_stripped_items (rr_trace r) + count)
                 (tr_retries (rr_trace r) + 1)))
       end.

(** ** Rejections *)
Definition no_items (o : option Value) : bool :=
  is_none_or (opt_bind o as_array) is_empty.

Definition rejection_without_output (v : Value) : bool :=
  is_invalid_encrypted_content v && is_none (event_usage v)
  && no_items (get "output" v) && no_items (pointer ["response"; "output"] v).

End Book.

(** ** The book *)
Record recovery_inv (b : RecoveryBook) : Prop := {
  ri_max : 1 <= rb_max_sessions b <= MAX_SESSIONS;
  ri_sessions : Z.of_nat (size (rb_sessions b)) <= rb_max_sessions b;
  ri_digests : ∀ k s, rb_sessions b !! k = Some s →
    Z.of_nat (length (se_digests s)) <= MAX_DIGESTS_PER_SESSION ∧ NoDup (se_digests s)
}.

Lemma remember_digest_ok l d :
  Z.of_nat (length l) <= MAX_DIGESTS_PER_SESSION → NoDup l →
  Z.of_nat (length (remember_digest l d)) <= MAX_DIGESTS_PER_SESSION ∧ NoDup (remember_digest l d)
  ∧ d ∈ remember_digest l d.
Proof.
  unfold MAX_DIGESTS_PER_SESSION. intros Hlen Hnd. unfold remember_digest.
  case_bool_decide as Hin; [done|]. unfold MAX_DIGESTS_PER_SESSION.
  set (l' := if 512 <=? Z.of_nat (length l) then tail l else l).
  assert (Z.of_nat (length l') <= 511 ∧ NoDup l' ∧ d ∉ l') as (H1 & H2 & H3).
  { subst l'. destruct (Z.leb_spec 512 (Z.of_nat (length l))).
    - destruct l as [|x l]; [simpl in *; lia|]. simpl in *. apply NoDup_cons in Hnd as [_ Hnd].
      split_and!; [lia|done|set_solver].
    - split_and!; [lia|done|done]. }
  rewrite length_app /=. split_and!; [lia| |set_solver].
  apply NoDup_app. split_and!; [done| |apply NoDup_singleton].
  intros x Hx ->%list_elem_of_singleton. done.
Qed.

Lemma remember_digests_ok ds l :
  Z.of_nat (length l) <= MAX_DIGESTS_PER_SESSION → NoDup l →
  Z.of_nat (length (foldl remember_digest l ds)) <= MAX_DIGESTS_PER_SESSION
  ∧ NoDup (foldl remember_digest l ds).
Proof.
  revert l. induction ds as [|d ds IH]; intros l Hlen Hnd; simpl; [done|].
  destruct (remember_digest_ok l d Hlen Hnd) as (H1 & H2 & _). by apply IH.
Qed.

(** With room for all of them, every digest is kept. *)
Lemma remember_digests_all ds l :
  Z.of_nat (length l) + Z.of_nat (length ds) <= MAX_DIGESTS_PER_SESSION →
  ∀ d, d ∈ l ∨ d ∈ ds → d ∈ foldl remember_digest l ds.
Proof.
  revert l. induction ds as [|x ds IH]; intros l Hlen d Hd; simpl in *; [set_solver|].
  apply IH.
  - unfold remember_digest. case_bool_decide; [lia|].
    destruct (Z.leb_spec MAX_DIGESTS_PER_SESSION (Z.of_nat (length l))); [lia|].
    rewrite length_app /=. lia.
  - unfold remember_digest. case_bool_decide as Hx; [set_solver|].
    destruct (Z.leb_spec MAX_DIGESTS_PER_SESSION (Z.of_nat (length l))); [lia|]. set_solver.
Qed.

Section Facts.
Context {SessionOrder : HashOrder string Session} {SessionOk : HashOrderOk string Session}.
Context (set_order : gset Digest → list Digest) (set_order_ok : ∀ s : gset Digest, set_order s ≡ₚ elements s).

Lemma recovery_lookup_inv b key now : recovery_inv b → recovery_inv (recovery_lookup b key now).2.
Proof.
  intros [Hm Hs Hd]. unfold recovery_lookup. cbv zeta.
  set (m := if is_some_and _ _ then delete key (rb_sessions b) else rb_sessions b).
  assert ((size m <= size (rb_sessions b))%nat ∧ ∀ k s, m !! k = Some s → rb_sessions b !! k = Some s) as [Hsz Hsub].
  { subst m. destruct (is_some_and _ _); [|done]. split; [apply map_subseteq_size, delete_subseteq|].
    by intros k s [_ H]%lookup_delete_Some. }
  clearbody m. destruct (m !! key) as [s|] eqn:E; split; simpl; try done; try lia.
  - rewrite map_size_insert_Some; [lia|by eauto].
  - intros k s'. rewrite lookup_insert. case_decide; [intros [= <-]; simpl; eauto|eauto].
  - eauto.
Qed.

Lemma remember_inv b key digests now : recovery_inv b → recovery_inv (remember set_order b key digests now).
Proof.
  intros [Hm Hs Hd]. unfold remember. destruct (size digests =? 0)%nat; [done|]. cbv zeta.
  set (m := retain _ (rb_sessions b)). set (m' := if is_none (m !! key) && _ then _ else m).
  assert (∀ k s, m' !! k = Some s → rb_sessions b !! k = Some s) as Hsub.
  { assert (∀ k s, m !! k = Some s → rb_sessions b !! k = Some s) as Hm'.
    { subst m. intros k s. rewrite lookup_retain. destruct (rb_sessions b !! k); simpl; [|done].
      by destruct (fresh _ _ _). }
    subst m'. destruct (_ && _); [|done]. destruct (min_by_key _ _) as [[k0 s0]|]; [|done].
    intros k s [_ H]%lookup_delete_Some. by apply Hm'. }
  assert (Z.of_nat (size (<[key := MkSession (foldl remember_digest
      match m' !! key with Some s => se_digests s | None => [] end (set_order digests)) now]> m'))
    <= rb_max_sessions b) as Hsz.
  { pose proof (size_retain_le (fresh (rb_ttl_ms b) now) (rb_sessions b)) as Hr. fold m in Hr.
    rewrite map_size_insert. subst m'. destruct (m !! key) as [s|] eqn:E.
    - cbn [is_none is_some negb andb]. rewrite E. cbn. lia.
    - cbn [is_none is_some negb andb]. destruct (Z.leb_spec (rb_max_sessions b) (Z.of_nat (size m))).
      + destruct (min_by_key _ _) as [[k0 s0]|] eqn:Emin.
        * apply min_by_key_Some in Emin as [Hin _]. apply elem_of_hash_entries in Hin.
          rewrite map_size_delete_Some; [|by eauto].
          destruct (delete k0 m !! key); cbn; lia.
        * apply min_by_key_None in Emin. pose proof (hash_entries_perm m) as Hp. rewrite Emin in Hp.
          apply Permutation_nil_l in Hp. symmetry in Hp. apply map_to_list_empty_iff in Hp. rewrite Hp in H |- *.
          rewrite map_size_empty in H. lia.
      + rewrite E. cbn. lia. }
  split; simpl; [done|done|]. intros k s. rewrite lookup_insert. case_decide; [|eauto].
  intros [= <-]. simpl. destruct (m' !! key) as [s|] eqn:E; [|apply remember_digests_ok; [vm_compute; discriminate|constructor]].
  destruct (Hd key s (Hsub _ _ E)). by apply remember_digests_ok.
Qed.

(** What a session remembers is bounded: lookups and failures keep at most the
    configured number of sessions (never more than 1024), each with at most 512
    distinct digests. *)
Theorem recovery_book_bounded b key digests now :
  recovery_inv b →
  recovery_inv (recovery_lookup b key now).2 ∧ recovery_inv (remember set_order b key digests now).
Proof. intros Hb. split; [by apply recovery_lookup_inv|by apply remember_inv]. Qed.

(** A rejected digest is remembered: until the session's time to live runs
    out, a session that had room for them finds every digest of its last failure. *)
Theorem recovery_remembers b key digests now t d :
  rb_sessions b !! key = None → Z.of_nat (size digests) <= MAX_DIGESTS_PER_SESSION →
  d ∈ digests → i64_sat_sub t now < rb_ttl_ms b →
  d ∈ (recovery_lookup (remember set_order b key digests now) key t).1.
Proof.
  intros Hnew Hsz Hd Ht. unfold remember.
  assert (size digests ≠ 0)%nat as Hne by (intros H%size_empty_iff; set_solver).
  rewrite (proj2 (Nat.eqb_neq _ _)) //. cbv zeta.
  set (m0 := retain _ (rb_sessions b)). set (m := if is_none (m0 !! key) && _ then _ else m0).
  assert (m !! key = None) as Hm.
  { subst m. assert (retain (fresh (rb_ttl_ms b) now) (rb_sessions b) !! key = None) as Hr
      by by rewrite lookup_retain Hnew.
    destruct (_ && _); [|done]. destruct (min_by_key _ _) as [[k0 s0]|]; [|done].
    destruct (decide (k0 = key)) as [->|]; [by rewrite lookup_delete_eq|by rewrite lookup_delete_ne]. }
  clearbody m. rewrite Hm. unfold recovery_lookup. cbv zeta.
  cbn [rb_sessions rb_ttl_ms set_rb_sessions]. rewrite !lookup_insert !decide_True //.
  cbn [is_some_and]. unfold fresh. cbn [se_last_seen_ms].
  rewrite (proj2 (Z.ltb_lt _ _)) //. cbn [negb]. rewrite lookup_insert decide_True //. cbn [fst se_digests].
  apply elem_of_list_to_set. apply remember_digests_all; [|right].
  - rewrite (Permutation_length (set_order_ok digests)). simpl.
    replace (length (elements digests)) with (size digests) by done. lia.
  - rewrite set_order_ok. by apply elem_of_elements.
Qed.
End Facts.

(** ** Cleaning *)
Section Clean.
Context (sha256 : string → Digest).

(** What cleaning everything leaves of an item: nothing of a compaction, a
    reasoning item without its encrypted content, any other item as it is. *)
Definition encrypted (item : Value) : bool :=
  supported_item item && is_some (get "encrypted_content" item).

Lemma clean_item_untouched invalid item :
  encrypted item = false → clean_item sha256 invalid item = (true, item, false).
Proof.
  unfold encrypted, clean_item. intros H. unfold is_none.
  destruct (supported_item item); simpl in *; [by rewrite H|done].
Qed.

Lemma clean_item_all item :
  let '(keep, item', counted) := clean_item sha256 None item in
  counted = encrypted item ∧ (keep = true → encrypted item' = false).
Proof.
  destruct (encrypted item) eqn:E; [|by rewrite clean_item_untouched].
  unfold encrypted in E. apply andb_true_iff in E as [E1 E2].
  unfold clean_item. rewrite E1. unfold is_none. rewrite E2. cbn [negb orb].
  destruct (str_is (get_str "type" item) ["reasoning"]) eqn:Et; cbn [negb]; [|done].
  destruct item as [| | | | |fields]; try done.
  cbv zeta. split; [done|]. intros _. unfold encrypted.
  assert (get "encrypted_content" (Object match assoc "content" (assoc_remove "encrypted_content" fields) with
    | Some Null => assoc_remove "content" (assoc_remove "encrypted_content" fields)
    | _ => assoc_remove "encrypted_content" fields end) = None) as ->; [|by rewrite andb_false_r].
  assert (assoc "encrypted_content" (assoc_remove "encrypted_content" fields) = None) as Hn by apply assoc_remove_eq.
  cbn [get]. destruct (assoc "content" _) as [[]|]; try done. by rewrite assoc_remove_ne.
Qed.

Lemma clean_items_all items :
  let '(items', n) := clean_items sha256 None items in
  n = Z.of_nat (length (List.filter encrypted items))
  ∧ Forall (λ item, encrypted item = false) items'
  ∧ List.filter (λ item, negb (supported_item item)) items'
    = List.filter (λ item, negb (supported_item item)) items.
Proof.
  induction items as [|item items IH]; [done|]. cbn [clean_items].
  pose proof (clean_item_all item) as Hi.
  destruct (clean_item sha256 None item) as [[keep item'] counted] eqn:Ec.
  destruct (clean_items sha256 None items) as [items' n]. destruct Hi as [Hcnt Hk], IH as (Hn & Hf & Hu).
  assert (List.filter (λ x, negb (supported_item x)) (if keep then item' :: items' else items')
    = List.filter (λ x, negb (supported_item x)) (item :: items)) as Hu'.
  { cbn [List.filter]. destruct (supported_item item) eqn:Es; cbn [negb].
    - destruct keep; [|done]. cbn [List.filter].
      assert (supported_item item' = true) as ->; [|done].
      revert Ec. unfold clean_item. rewrite Es. destruct (is_none _); [intros [= <- <-]; done|].
      cbn [negb orb]. destruct (str_is (get_str "type" item) ["reasoning"]) eqn:Et; cbn [negb]; [|done].
      destruct item as [| | | | |fields]; intros Ec; try (by injection Ec as <- <-).
      injection Ec as _ <- <-. unfold supported_item. unfold get_str in *. cbn [get] in *.
      assert (assoc "type" (assoc_remove "encrypted_content" fields) = assoc "type" fields) as Hty by by apply assoc_remove_ne.
      destruct (assoc "content" _) as [[]|]; rewrite ?(assoc_remove_ne "content" "type") // Hty //.
    - assert (encrypted item = false) as Hne by (unfold encrypted; by rewrite Es).
      rewrite (clean_item_untouched None item Hne) in Ec. injection Ec as <- <- <-. cbn [List.filter].
      rewrite Es. cbn [negb]. by rewrite Hu. }
  split_and!; [|destruct keep; [constructor; auto|done]|done].
  rewrite Hcnt Hn. cbn [List.filter]. destruct (encrypted item); cbn [length]; lia.
Qed.

Lemma items_of_assoc root input :
  input_items (Object (assoc_insert "input" input root)) =
    match input with Array items => items | Object _ => [input] | _ => [] end.
Proof. unfold input_items. cbn [get]. rewrite assoc_insert_eq. by destruct input. Qed.

(** A retry carries no encrypted content: stripping a rejected request removes
    every encrypted item of the supported kinds, counts them all (and changes
    nothing when there is none), keeps every other input item in order, and leaves
    nothing for a second stripping to remove. *)
Theorem retry_strips_encrypted v websocket v' n :
  sanitize_value sha256 v None websocket = Some (v', n) →
  n = Z.of_nat (length (List.filter encrypted (input_items v))) ∧ 0 < n
  ∧ Forall (λ item, encrypted item = false) (input_items v')
  ∧ List.filter (λ item, negb (supported_item item)) (input_items v')
    = List.filter (λ item, negb (supported_item item)) (input_items v)
  ∧ sanitize_value sha256 v' None websocket = None.
Proof.
  unfold sanitize_value at 1. destruct v as [| | | | |root]; try done.
  assert (∀ input cnt (root' : list (string * Value)), cnt ≠ 0 →
    Forall (λ item, encrypted item = false) (input_items (Object (assoc_insert "input" input root))) →
    root' = (if websocket && negb (existsb (λ item, str_is (get_str "type" item) ["function_call_output"])
                        (input_items (Object (assoc_insert "input" input root))))
             then assoc_remove "previous_response_id" (assoc_insert "input" input root)
             else assoc_insert "input" input root) →
    input_items (Object root') = input_items (Object (assoc_insert "input" input root))
    ∧ sanitize_value sha256 (Object root') None websocket = None) as Hroot.
  { intros input cnt root' _ Hf ->. set (r := if websocket && _ then _ else _).
    assert (assoc "input" r = Some input) as Hr.
    { subst r. destruct (websocket && _); [rewrite assoc_remove_ne //|]; apply assoc_insert_eq. }
    rewrite items_of_assoc in Hf |- *. unfold input_items at 1, sanitize_value. cbn [get]. rewrite Hr.
    destruct input as [| | | |items|fields]; try done; (split; [done|]).
    - pose proof (clean_items_all items) as Hc. destruct (clean_items sha256 None items) as [items' m].
      destruct Hc as (-> & _). assert (List.filter encrypted items = []) as ->; [|done].
      clear -Hf. induction Hf as [|x l Hx _ IH]; [done|]. cbn [List.filter]. by rewrite Hx.
    - apply Forall_cons_1 in Hf as [Hf _]. by rewrite clean_item_untouched. }
  destruct (assoc "input" root) as [input|] eqn:Ei; [|done].
  destruct input as [| | | |items|fields]; try done.
  - pose proof (clean_items_all items) as Hc. destruct (clean_items sha256 None items) as [items' m].
    destruct Hc as (Hn & Hf & Hu). destruct (Z.eqb_spec m 0); [done|]. cbv zeta. intros [= <- <-].
    destruct (Hroot (Array items') m _ ltac:(done) ltac:(by rewrite items_of_assoc) eq_refl) as [Hitems Hnone].
    rewrite Hitems !items_of_assoc. rewrite !items_of_assoc in Hnone.
    assert (input_items (Object root) = items) as -> by (unfold input_items; cbn [get]; by rewrite Ei).
    split_and!; [done|lia|done|done|exact Hnone].
  - pose proof (clean_items_all [Object fields]) as Hc. cbn [clean_items] in Hc.
    destruct (clean_item sha256 None (Object fields)) as [[keep item'] counted] eqn:Ec.
    destruct Hc as (Hn & Hf & Hu). destruct counted; [|done]. cbv zeta. rewrite Z.add_0_r in Hn.
    change (1 =? 0) with false. cbv iota. intros [= <- <-].
    assert (input_items (Object root) = [Object fields]) as Hold by (unfold input_items; cbn [get]; by rewrite Ei).
    assert (keep = true → ∃ fields', item' = Object fields') as Hobj.
    { revert Ec. unfold clean_item. destruct (_ || _); [intros [= <- <- _]; eauto|].
      destruct (negb _); [by intros [= <- <-]|]. intros [= <- <-]. eauto. }
    assert (input_items (Object (assoc_insert "input" (if keep then item' else Array []) root))
      = if keep then [item'] else []) as Hnew.
    { rewrite items_of_assoc. destruct keep; [|done]. by destruct (Hobj eq_refl) as [fields' ->]. }
    destruct (Hroot (if keep then item' else Array []) 1 _ ltac:(done) ltac:(by rewrite Hnew) eq_refl) as [Hitems Hnone].
    rewrite Hitems Hnew Hold. rewrite Hnew in Hnone. split_and!; [done|lia|done|done|exact Hnone].
Qed.
End Clean.

(** A request is retried without its encrypted content at most once: after a
    retry was prepared, no further one is. *)
Theorem retry_at_most_once sha256 from_slice to_vec r body websocket body' r' body2 websocket2 :
  0 <= tr_retries (rr_trace r) →
  prepare_retry sha256 from_slice to_vec r body websocket = (Some body', r') →
  prepare_retry sha256 from_slice to_vec r' body2 websocket2 = (None, r') ∧ can_retry r' = false.
Proof.
  intros Hr. unfold prepare_retry at 1. destruct (can_retry r) eqn:E; simpl; [|done].
  destruct (sanitize _ _ _ _ _ _) as [[b n]|]; [|done]. intros [= <- <-].
  assert (∀ r2, 0 < tr_retries (rr_trace r2) → can_retry r2 = false) as Hno.
  { intros r2 Hr2. unfold can_retry. rewrite (proj2 (Z.eqb_neq _ _)); [by rewrite andb_false_r|lia]. }
  unfold prepare_retry. rewrite Hno; [done|]. simpl. lia.
Qed.

(** ** Concrete runs *)
Definition wr_item : Value :=
  Object [("encrypted_content", String "gAAA"); ("id", String "rs_1"); ("summary", Array []); ("type", String "reasoning")].
Definition wr_text : Value := Object [("content", String "hi"); ("type", String "message")].
Definition wr_body : Value :=
  Object [("input", Array [wr_text; wr_item]); ("previous_response_id", String "resp_1")].
Definition toy_sha (s : string) : Digest := map code (chars s).

Lemma retry_strips_encrypted_witness :
  sanitize_value toy_sha wr_body None true =
    Some (Object [("input", Array [wr_text;
      Object [("id", String "rs_1"); ("summary", Array []); ("type", String "reasoning")]])], 1)
  ∧ 0 < 1.
Proof.
  assert (sanitize_value toy_sha wr_body None true =
    Some (Object [("input", Array [wr_text;
      Object [("id", String "rs_1"); ("summary", Array []); ("type", String "reasoning")]])], 1)) as E
    by (vm_compute; reflexivity).
  split; [exact E|]. apply (retry_strips_encrypted toy_sha _ _ _ _ E).
Defined.

#[local] Instance wr_order : HashOrder string Session := canonical_order.
#[local] Instance wr_order_ok : HashOrderOk string Session := canonical_order_ok.

Lemma recovery_book_bounded_witness :
  recovery_inv (remember elements (new_recovery_book 1000000000 10) "s" {[ [1] ]} 5).
Proof.
  apply (recovery_book_bounded elements (new_recovery_book 1000000000 10) "s" {[ [1] ]} 5).
  split; [vm_compute; intuition congruence|vm_compute; discriminate|].
  intros k s. simpl. by rewrite lookup_empty.
Defined.

Lemma recovery_remembers_witness :
  [1] ∈ (recovery_lookup (remember elements (new_recovery_book 1000000000 10) "s" {[ [1] ]} 5) "s" 900).1.
Proof.
  apply (recovery_remembers elements (λ s, reflexivity _) (new_recovery_book 1000000000 10) "s" {[ [1] ]} 5).
  - apply lookup_empty.
  - by rewrite size_singleton.
  - set_solver.
  - vm_compute. reflexivity.
Defined.

Lemma retry_at_most_once_witness :
  let from_slice := λ _ : string, Some wr_body in
  let to_vec := λ _ : Value, Some "{}" in
  let r := new_recovery true (Some "s") in
  let r' := (prepare_retry toy_sha from_slice to_vec r "{}" false).2 in
  prepare_retry toy_sha from_slice to_vec r' "{}" false = (None, r').
Proof.
  intros from_slice to_vec r r'.
  assert (prepare_retry toy_sha from_slice to_vec r "{}" false = (Some "{}", r')) as E
    by (vm_compute; reflexivity).
  refine (proj1 (retry_at_most_once toy_sha from_slice to_vec r "{}" false "{}" r' "{}" false _ E)).
  vm_compute. discriminate.
Defined.
