(* ===== verification/Caches.v ===== *)
(** * Caches: API keys, transport capabilities and the configuration snapshot

    Models [cache/policy.rs], [cache/api_key_cache.rs], [cache/transport_capability.rs]
    and the holder [UpstreamCache] of [cache/upstream_cache.rs]. Instants and
    durations are nanoseconds. An operation that awaits the database between two
    critical sections is modelled as its sections, so that other operations can
    run in between. *)
From Stdlib Require Import Ascii String.
From S2P Require Import Prelude Text Affinity Types.

(** ** Policies *)
Record ApiKeyCachePolicy := MkApiKeyPolicy { kp_ttl : Z; kp_max_entries : Z }.
Definition new_api_key_policy (ttl max_entries : Z) : ApiKeyCachePolicy :=
  MkApiKeyPolicy ttl (Z.max max_entries 1).

Record UpstreamCachePolicy := MkUpstreamPolicy { cp_ttl : Z; cp_stale_grace : Z }.
Definition new_upstream_policy (ttl stale_grace : Z) : UpstreamCachePolicy :=
  MkUpstreamPolicy ttl stale_grace.

(** [Instant::elapsed] *)
Definition elapsed (since now : Z) : Z := Z.max 0 (now - since).

(** ** API keys *)

(** crypto.rs: the digest API keys are stored and looked up by. *)
Definition hash_input (master_key plaintext : string) : list Z :=
  as_bytes master_key ++ [0] ++ as_bytes plaintext.
Definition hash_api_key (blake3 : list Z → list Z) (master_key plaintext : string) : string :=
  hex_encode (blake3 (hash_input master_key plaintext)).

Record ApiKeyEntry := MkApiKeyEntry { ke_value : ApiKeyAuth; ke_loaded_at : Z }.

Record ApiKeyCache := MkApiKeyCache { kc_policy : ApiKeyCachePolicy; kc_by_hash : gmap string ApiKeyEntry }.

Definition new_api_key_cache (p : ApiKeyCachePolicy) : ApiKeyCache := MkApiKeyCache p ∅.

Definition key_get_fresh (c : ApiKeyCache) (key_hash : string) (now : Z) : option ApiKeyAuth :=
  match kc_by_hash c !! key_hash with
  | None => None
  | Some hit => if kp_ttl (kc_policy c) <? elapsed (ke_loaded_at hit) now then None else Some (ke_value hit)
  end.

Definition set_ak_enabled (b : bool) (k : ApiKeyAuth) : ApiKeyAuth :=
  MkApiKeyAuth (ak_id k) b (ak_expires_at_ms k) (ak_log_enabled k) (ak_name k)
    (ak_provider_groups k) (ak_allowed_provider_ids k).

Definition check_live (k : ApiKeyAuth) (now_ms : Z) : option ApiKeyAuth :=
  if negb (ak_enabled k) then None
  else if is_some_and (ak_expires_at_ms k) (λ expires_at, expires_at <=? now_ms) then None
  else Some (set_ak_enabled true k).

Definition key_invalidate_all (c : ApiKeyCache) : ApiKeyCache := MkApiKeyCache (kc_policy c) ∅.

Section ApiKeys.
Context {EntryOrder : HashOrder string ApiKeyEntry}.

Definition trim_to_budget (max_entries : Z) (cache : gmap string ApiKeyEntry) : gmap string ApiKeyEntry :=
  if Z.of_nat (size cache) <=? max_entries then cache
  else
    let overflow := Z.to_nat (Z.of_nat (size cache) - max_entries) in
    let victims := sort_by_key1 (λ kv, ke_loaded_at kv.2) (hash_entries cache) in
    foldl (λ m kv, delete kv.1 m) cache (take overflow victims).

(** The write after a row was found. *)
Definition key_store (c : ApiKeyCache) (key_hash : string) (row : ApiKeyAuth) (now : Z) : ApiKeyCache :=
  MkApiKeyCache (kc_policy c)
    (trim_to_budget (kp_max_entries (kc_policy c))
       (<[key_hash := MkApiKeyEntry row now]> (kc_by_hash c))).

(** [validate] when nothing runs in between: [find] is the database's answer, [t1]
    and [t2] the clock at the lookup and at the insertion. *)
Definition validate (c : ApiKeyCache) (key_hash : string) (find : option ApiKeyAuth + string)
    (t1 t2 now_ms : Z) : (option ApiKeyAuth + string) * ApiKeyCache :=
  match key_get_fresh c key_hash t1 with
  | Some hit => (inl (check_live hit now_ms), c)
  | None =>
      match find with
      | inr e => (inr e, c)
      | inl None => (inl None, c)
      | inl (Some row) => (inl (check_live row now_ms), key_store c key_hash row t2)
      end
  end.
End ApiKeys.

(** ** WebSocket capabilities *)
Definition WS_CAPABILITY_TTL_BASE_MS : Z := 600000.
Definition WS_CAPABILITY_TTL_JITTER_MIN_MS : Z := 480000.
Definition WS_CAPABILITY_TTL_JITTER_MAX_MS : Z := 720001.

Record TransportCapabilityKey := MkCapKey { tk_provider_id : Z; tk_endpoint_id : Z }.
#[export] Instance TransportCapabilityKey_eq_dec : EqDecision TransportCapabilityKey.
Proof. solve_decision. Defined.
#[export] Program Instance TransportCapabilityKey_countable : Countable TransportCapabilityKey :=
  inj_countable' (λ k, (tk_provider_id k, tk_endpoint_id k)) (λ p, MkCapKey p.1 p.2) _.
Next Obligation. by intros []. Qed.

Inductive WsCapability := NativeSupported | NativeUnsupported.

Record CapabilityEntry := MkCapEntry { ce_capability : WsCapability; ce_expires_at_ms : Z }.

(** The probe locks are identified by the key they belong to: one per key. *)
Record TransportCapabilityCache := MkCapCache {
  tc_entries : gmap TransportCapabilityKey CapabilityEntry;
  tc_probe_locks : gset TransportCapabilityKey
}.

Definition new_capability_cache : TransportCapabilityCache := MkCapCache ∅ ∅.

Definition capability_get (c : TransportCapabilityCache) (k : TransportCapabilityKey) (now_ms : Z)
    : option WsCapability :=
  match tc_entries c !! k with
  | None => None
  | Some e => if ce_expires_at_ms e <=? now_ms then None else Some (ce_capability e)
  end.

Section Capabilities.
Context {R : Type} `{FastRand R}.

(** [fastrand::usize(min..max)] *)
Definition jittered_ttl_ms (r : R) : Z * R :=
  let '(d, r) := rand_below (WS_CAPABILITY_TTL_JITTER_MAX_MS - WS_CAPABILITY_TTL_JITTER_MIN_MS) r in
  (Z.max (WS_CAPABILITY_TTL_JITTER_MIN_MS + d) (WS_CAPABILITY_TTL_BASE_MS / 2), r).

Definition capability_set (c : TransportCapabilityCache) (k : TransportCapabilityKey)
    (capability : WsCapability) (now_ms : Z) (r : R) : TransportCapabilityCache * R :=
  let '(ttl, r) := jittered_ttl_ms r in
  (MkCapCache (<[k := MkCapEntry capability (i64_sat_add now_ms ttl)]> (tc_entries c)) (tc_probe_locks c), r).

Definition mark_native_supported (c : TransportCapabilityCache) k now_ms (r : R) :=
  capability_set c k NativeSupported now_ms r.
Definition mark_native_unsupported (c : TransportCapabilityCache) k now_ms (r : R) :=
  capability_set c k NativeUnsupported now_ms r.
End Capabilities.

(** The lock of a key, created on first use. *)
Definition probe_lock (c : TransportCapabilityCache) (k : TransportCapabilityKey)
    : TransportCapabilityKey * TransportCapabilityCache :=
  if bool_decide (k ∈ tc_probe_locks c) then (k, c)
  else (k, MkCapCache (tc_entries c) ({[ k ]} ∪ tc_probe_locks c)).

(** ** The snapshot holder *)
Section Upstream.
Context {Snapshot : Type}.

Record UpstreamCached := MkCached { uc_value : Snapshot; uc_loaded_at : Z }.
Record UpstreamCache := MkUpstreamCache { us_policy : UpstreamCachePolicy; us_state : option UpstreamCached }.

Definition new_upstream_cache (p : UpstreamCachePolicy) : UpstreamCache := MkUpstreamCache p None.

Definition get_fresh (c : UpstreamCache) (now : Z) : option Snapshot :=
  match us_state c with
  | None => None
  | Some hit => if cp_ttl (us_policy c) <? elapsed (uc_loaded_at hit) now then None else Some (uc_value hit)
  end.

(** [Duration::saturating_add]: far above any reading of the clock. *)
Definition duration_max : Z := 18446744073709551615 * 1000000000 + 999999999.

Definition get_stale_within_grace (c : UpstreamCache) (now : Z) : option Snapshot :=
  match us_state c with
  | None => None
  | Some hit =>
      if Z.min duration_max (cp_ttl (us_policy c) + cp_stale_grace (us_policy c))
           <? elapsed (uc_loaded_at hit) now
      then None else Some (uc_value hit)
  end.

Definition set_snapshot (c : UpstreamCache) (s : Snapshot) (now : Z) : UpstreamCache :=
  MkUpstreamCache (us_policy c) (Some (MkCached s now)).

Definition invalidate (c : UpstreamCache) : UpstreamCache := MkUpstreamCache (us_policy c) None.

(** The part of [get] before the refresh lock: an answer, or the stale fallback it
    will keep. *)
Definition get_begin (c : UpstreamCache) (t1 t2 : Z) : Snapshot + option Snapshot :=
  match get_fresh c t1 with
  | Some hit => inl hit
  | None => inr (get_stale_within_grace c t2)
  end.

(** After taking the lock: an answer another request loaded meanwhile, if any. *)
Definition get_recheck (c : UpstreamCache) (t3 : Z) : option Snapshot := get_fresh c t3.

(** When the load ends, with the rows or an error. *)
Definition get_end (c : UpstreamCache) (stale : option Snapshot) (load : Snapshot + string) (t4 : Z)
    : (Snapshot + string) * UpstreamCache :=
  match load with
  | inl s => (inl s, set_snapshot c s t4)
  | inr e => (match stale with Some s => inl s | None => inr e end, c)
  end.

(** [get] when no other operation runs in between. *)
Definition upstream_get (c : UpstreamCache) (load : Snapshot + string) (t1 t2 t3 t4 : Z)
    : (Snapshot + string) * UpstreamCache :=
  match get_begin c t1 t2 with
  | inl hit => (inl hit, c)
  | inr stale =>
      match get_recheck c t3 with
      | Some hit => (inl hit, c)
      | None => get_end c stale load t4
      end
  end.
End Upstream.
Arguments UpstreamCached : clear implicits.
Arguments UpstreamCache : clear implicits.

(** ** API keys: budget and liveness *)
Section ApiKeyFacts.
Context {EntryOrder : HashOrder string ApiKeyEntry} {EntryOk : HashOrderOk string ApiKeyEntry}.

Lemma size_delete_list (l : list (string * ApiKeyEntry)) (m : gmap string ApiKeyEntry) :
  NoDup l.*1 → (∀ k v, (k, v) ∈ l → m !! k = Some v) →
  (size (foldl (λ m kv, delete kv.1 m) m l) + length l = size m)%nat.
Proof.
  revert m. induction l as [|[k v] l IH]; intros m Hnd Hin; simpl; [lia|].
  inversion Hnd as [|? ? Hni Hnd']; subst.
  assert (is_Some (m !! k)) as Hk by (exists v; apply Hin; set_solver).
  pose proof (map_size_delete_Some _ _ Hk) as Hd. assert (size m ≠ O) as Hsz.
  { intros E%map_size_empty_iff. rewrite E lookup_empty in Hk. by destruct Hk. }
  specialize (IH (delete k m) Hnd'). rewrite Nat.add_succ_r IH; [lia|].
  intros k' v' H'. rewrite lookup_delete_ne; [apply Hin; set_solver|].
  intros ->. apply Hni. by apply (list_elem_of_fmap_2 fst _ (k', v')).
Qed.

Lemma trim_to_budget_size max m :
  0 <= max → Z.of_nat (size (trim_to_budget max m)) <= max
  ∧ ∀ k e, trim_to_budget max m !! k = Some e → m !! k = Some e.
Proof.
  intros Hm. unfold trim_to_budget. destruct (Z.leb_spec (Z.of_nat (size m)) max); [done|].
  cbv zeta. set (victims := sort_by_key1 _ _). set (n := Z.to_nat _).
  assert (victims ≡ₚ map_to_list m) as Hp.
  { unfold victims. by rewrite sort_by_key1_perm hash_entries_perm. }
  assert (length victims = size m) as Hlen.
  { by rewrite (Permutation_length Hp) -(length_map_to_list m). }
  split.
  - pose proof (size_delete_list (take n victims) m) as Hd.
    assert (NoDup (take n victims).*1) as Hnd.
    { rewrite fmap_take. eapply sublist_NoDup; [|apply sublist_take].
      rewrite Hp. apply NoDup_fst_map_to_list. }
    specialize (Hd Hnd). rewrite length_take in Hd.
    assert (∀ k v, (k, v) ∈ take n victims → m !! k = Some v) as Hin.
    { intros k v Hkv. apply elem_of_map_to_list. rewrite -Hp.
      apply elem_of_take in Hkv as (i & Hi & _). by eapply list_elem_of_lookup_2. }
    specialize (Hd Hin). lia.
  - generalize (take n victims) as l. clear. intros l. revert m.
    induction l as [|kv l IH]; intros m k e; simpl; [done|].
    intros H%IH. by apply lookup_delete_Some in H as [_ H].
Qed.

Lemma check_live_Some k now k' :
  check_live k now = Some k' →
  k' = k ∧ ak_enabled k = true ∧ ∀ e, ak_expires_at_ms k = Some e → now < e.
Proof.
  unfold check_live. destruct (ak_enabled k) eqn:E; simpl; [|done].
  destruct (is_some_and _ _) eqn:Ex; [done|]. intros [= <-].
  split_and!; [destruct k; simpl in *; by subst|done|].
  intros e He. rewrite He /= in Ex. by apply Z.leb_gt.
Qed.

(** Only live API keys pass: a key is accepted only when it is enabled and not
    expired at that moment, and it is either what the database just answered or a
    cached answer no older than the cache's time to live; the cache stays within
    its budget. *)
Theorem validate_accepts_only_live c key_hash find t1 t2 now_ms k :
  0 <= kp_max_entries (kc_policy c) → Z.of_nat (size (kc_by_hash c)) <= kp_max_entries (kc_policy c) →
  (validate c key_hash find t1 t2 now_ms).1 = inl (Some k) →
  ak_enabled k = true ∧ (∀ e, ak_expires_at_ms k = Some e → now_ms < e)
  ∧ (find = inl (Some k) ∨
     ∃ entry, kc_by_hash c !! key_hash = Some entry ∧ ke_value entry = k
              ∧ t1 - ke_loaded_at entry <= kp_ttl (kc_policy c))
  ∧ Z.of_nat (size (kc_by_hash (validate c key_hash find t1 t2 now_ms).2)) <= kp_max_entries (kc_policy c).
Proof.
  intros Hm Hsz. unfold validate. destruct (key_get_fresh c key_hash t1) as [hit|] eqn:Ef.
  - cbn [fst snd]. intros [= Hl]. apply check_live_Some in Hl as (-> & He & Hx).
    split_and!; [done|done| |done]. right. unfold key_get_fresh in Ef.
    destruct (kc_by_hash c !! key_hash) as [entry|]; [|done].
    destruct (Z.ltb_spec (kp_ttl (kc_policy c)) (elapsed (ke_loaded_at entry) t1)); [done|].
    injection Ef as <-. exists entry. split_and!; [done|done|]. unfold elapsed in *. lia.
  - destruct find as [[row|]|e]; cbn [fst snd]; [|done|done].
    intros [= Hl]. apply check_live_Some in Hl as (-> & He & Hx).
    split_and!; [done|done|by left|]. by apply trim_to_budget_size.
Qed.
End ApiKeyFacts.

(** A revocation can be overtaken: when a request read its key's row before the
    key was revoked and stores it after the cache was invalidated, the revoked key
    is accepted again, without asking the database, until the time to live ends. *)
Theorem revocation_overtaken {EntryOrder : HashOrder string ApiKeyEntry} c key_hash row t t' now_ms k e :
  0 < kp_max_entries (kc_policy c) → check_live row now_ms = Some k →
  elapsed t t' <= kp_ttl (kc_policy c) →
  (validate (key_store (key_invalidate_all c) key_hash row t) key_hash (inr e) t' t' now_ms).1
  = inl (Some k).
Proof.
  intros Hm Hl Ht. unfold validate, key_get_fresh, key_store, trim_to_budget. cbn [kc_by_hash kc_policy key_invalidate_all].
  rewrite map_size_insert lookup_empty map_size_empty. change (Z.of_nat 1) with 1.
  rewrite (proj2 (Z.leb_le 1 _)); [|lia]. rewrite lookup_insert decide_True //.
  cbn [ke_loaded_at ke_value]. by rewrite (proj2 (Z.ltb_ge _ _)) //= Hl.
Qed.

(** ** WebSocket capabilities *)

(** A learnt capability lasts between eight and twelve minutes: what was marked
    is reported for at least 480 s and forgotten after 720 s, whatever the jitter. *)
Theorem capability_lifetime {R} `{FastRandOk R} c k capability now r t :
  is_i64 now → is_i64 (now + 720000) →
  let c' := (capability_set c k capability now r).1 in
  (now <= t < now + 480000 → capability_get c' k t = Some capability)
  ∧ (now + 720000 <= t → capability_get c' k t = None).
Proof.
  intros Hn Hn'. unfold capability_set, jittered_ttl_ms.
  pose proof (rand_below_range (WS_CAPABILITY_TTL_JITTER_MAX_MS - WS_CAPABILITY_TTL_JITTER_MIN_MS) r) as Hr.
  unfold WS_CAPABILITY_TTL_JITTER_MAX_MS, WS_CAPABILITY_TTL_JITTER_MIN_MS, WS_CAPABILITY_TTL_BASE_MS in *.
  destruct (rand_below _ r) as [d r']. cbn [fst] in *. specialize (Hr ltac:(lia)).
  unfold capability_get. cbn [tc_entries]. rewrite lookup_insert decide_True //. cbn [ce_expires_at_ms ce_capability].
  change (600000 / 2) with 300000. rewrite Z.max_l; [|lia]. rewrite i64_sat_add_exact; [|mlia].
  destruct (Z.leb_spec (now + (480000 + d)) t); split; intros; try done; lia.
Qed.

(** ** The snapshot holder *)

(** Configuration is never older than it may be: a request answered from the
    cache gets a snapshot loaded at most [ttl] before, a request whose load fails
    gets one at most [ttl + stale_grace] old or the load's error, and any other
    request gets what it just loaded. *)
Theorem snapshot_age_bounded {S} (c : UpstreamCache S) load t1 t2 t3 t4 s :
  0 <= cp_ttl (us_policy c) → 0 <= cp_stale_grace (us_policy c) → t1 <= t2 <= t3 →
  (upstream_get c load t1 t2 t3 t4).1 = inl s →
  load = inl s ∨
  ∃ hit, us_state c = Some hit ∧ uc_value hit = s
    ∧ (t1 - uc_loaded_at hit <= cp_ttl (us_policy c)
       ∨ (∃ e, load = inr e) ∧ t2 - uc_loaded_at hit <= cp_ttl (us_policy c) + cp_stale_grace (us_policy c)).
Proof.
  intros Httl Hgr Ht. unfold upstream_get, get_begin, get_recheck, get_fresh, get_stale_within_grace, get_end.
  destruct (us_state c) as [hit|]; [|by destruct load; simpl; [intros [= ->]; left|]].
  destruct (Z.ltb_spec (cp_ttl (us_policy c)) (elapsed (uc_loaded_at hit) t1)) as [H1|H1].
  - rewrite (proj2 (Z.ltb_lt _ (elapsed (uc_loaded_at hit) t3))); [|unfold elapsed in *; lia].
    destruct load as [s'|e]; simpl; [intros [= ->]; by left|].
    destruct (Z.ltb_spec (Z.min duration_max (cp_ttl (us_policy c) + cp_stale_grace (us_policy c)))
                (elapsed (uc_loaded_at hit) t2)) as [H2|H2]; simpl; [done|].
    intros [= <-]. right. exists hit. split_and!; [done|done|]. right. split; [by eexists|].
    unfold elapsed in *. lia.
  - simpl. intros [= <-]. right. exists hit. split_and!; [done|done|]. left. unfold elapsed in *. lia.
Qed.

(** An invalidation during a load is lost: a snapshot read before a change and
    stored after the change invalidated the cache is served as fresh until its time
    to live ends. *)
Theorem invalidation_overtaken {S} (c : UpstreamCache S) old stale t t' :
  elapsed t t' <= cp_ttl (us_policy c) →
  let c' := (get_end (invalidate c) stale (inl old) t).2 in
  ∀ load t2 t3 t4, (upstream_get c' load t' t2 t3 t4).1 = inl old.
Proof.
  intros Ht c' load t2 t3 t4. unfold upstream_get, get_begin, get_fresh. simpl.
  by rewrite (proj2 (Z.ltb_ge _ _)).
Qed.

(** ** Concrete runs *)
Definition wc_key : ApiKeyAuth := MkApiKeyAuth 1 true None true "client" [] [].
Definition wc_cache : ApiKeyCache := new_api_key_cache (new_api_key_policy 60000000000 100).
#[local] Instance wc_order : HashOrder string ApiKeyEntry := canonical_order.
#[local] Instance wc_order_ok : HashOrderOk string ApiKeyEntry := canonical_order_ok.

Lemma validate_accepts_only_live_witness :
  ak_enabled wc_key = true ∧ (∀ e, ak_expires_at_ms wc_key = Some e → 5 < e).
Proof.
  destruct (validate_accepts_only_live wc_cache "h" (inl (Some wc_key)) 1 2 5 wc_key) as (H1 & H2 & _);
    [vm_compute; discriminate|vm_compute; discriminate|vm_compute; reflexivity|].
  split; [exact H1|exact H2].
Defined.

Lemma revocation_overtaken_witness :
  (validate (key_store (key_invalidate_all wc_cache) "h" wc_key 10) "h" (inr "revoked"%string) 20 20 5).1
  = inl (Some wc_key).
Proof.
  apply (revocation_overtaken wc_cache "h" wc_key 10 20 5 wc_key "revoked");
    vm_compute; solve [reflexivity|discriminate].
Defined.

Lemma capability_lifetime_witness :
  let c' := (capability_set new_capability_cache (MkCapKey 1 2) NativeUnsupported 1000 (7 : Z)).1 in
  capability_get c' (MkCapKey 1 2) 480999 = Some NativeUnsupported.
Proof.
  apply (capability_lifetime (R := Z) new_capability_cache (MkCapKey 1 2) NativeUnsupported 1000 7 480999);
    [mlia|mlia|lia].
Defined.

Lemma snapshot_age_bounded_witness :
  let c := MkUpstreamCache (new_upstream_policy 10 90) (Some (MkCached 42 0)) in
  (upstream_get c (inr "db down"%string) 50 51 52 53).1 = inl 42 ∧
  (@inr Z string "db down" = inl 42 ∨ ∃ hit : UpstreamCached Z, us_state c = Some hit ∧ uc_value hit = 42
    ∧ (50 - uc_loaded_at hit <= 10 ∨ (∃ e : string, @inr Z string "db down" = inr e) ∧ 51 - uc_loaded_at hit <= 10 + 90)).
Proof.
  intros c. assert ((upstream_get c (inr "db down"%string) 50 51 52 53).1 = inl 42) as E by (vm_compute; reflexivity).
  split; [exact E|].
  apply (snapshot_age_bounded c (inr "db down"%string) 50 51 52 53 42); [simpl; lia|simpl; lia|lia|exact E].
Defined.

Lemma invalidation_overtaken_witness :
  let c := new_upstream_cache (Snapshot := Z) (new_upstream_policy 10 90) in
  ∀ load t2 t3 t4, (upstream_get (get_end (invalidate c) None (inl 42) 5).2 load 9 t2 t3 t4).1 = inl 42.
Proof. intros c. apply (invalidation_overtaken c 42 None 5 9). vm_compute. discriminate. Defined.
