(* ===== verification/Pricing.v ===== *)
(** * Pricing: price cards and the cost of a request

    Models [pricing.rs]. [rust_decimal::Decimal] is a third-party type: a class of
    operations, where an arithmetic operation that panics on overflow is [None];
    what the theorems rely on is that printing and parsing agree and that zero and
    normalised rates are not negative. *)
From Stdlib Require Import Ascii String.
From S2P Require Import Prelude Text Json Types.

Local Open Scope string_scope.
Local Open Scope list_scope.
Local Open Scope Z_scope.

Class Decimal (D : Type) := {
  dec_zero : D;
  dec_of_i64 : Z → D;
  dec_mul : D → D → option D;
  dec_div : D → D → option D;
  dec_add : D → D → option D;
  dec_from_str : string → option D;
  dec_negative : D → bool;
  dec_normalize : D → D;
  dec_to_string : D → string
}.

Class DecimalOk (D : Type) `{Decimal D} : Prop := {
  dec_print_parse : ∀ d, dec_from_str (dec_to_string (dec_normalize d)) = Some (dec_normalize d);
  dec_normalize_sign : ∀ d, dec_negative d = false → dec_negative (dec_normalize d) = false
}.

Definition TOKENS_PER_MILLION : Z := 1000000.
Definition PRICE_SCHEMA_VERSION : Z := 2.
Definition PRICE_UNIT : string := "usd_per_million_tokens".

Section Data.
Context (D : Type).

Record PriceRates := MkRates {
  pr_input : option D;
  pr_output : option D;
  pr_cache_read : option D;
  pr_cache_write : option D
}.

Record ContextPriceTier := MkTier { ct_over_total_input_tokens : Z; ct_rates : PriceRates }.

Record PriceCard := MkCard { pc_base : PriceRates; pc_tiers : list ContextPriceTier }.

Record PriceVersion := MkPrice { pv_id : Z; pv_card : PriceCard }.

Record PricedCost := MkCost { co_input_usd : D; co_output_usd : D }.

Inductive PricingStatus := Priced | Unpriced | UsageMissing.

Record PricingEvaluation := MkEvaluation {
  pe_tier_index : option Z;
  pe_cost : option PricedCost;
  pe_status : PricingStatus
}.
End Data.
Arguments MkRates {D}. Arguments pr_input {D}. Arguments pr_output {D}.
Arguments pr_cache_read {D}. Arguments pr_cache_write {D}.
Arguments MkTier {D}. Arguments ct_over_total_input_tokens {D}. Arguments ct_rates {D}.
Arguments MkCard {D}. Arguments pc_base {D}. Arguments pc_tiers {D}.
Arguments MkPrice {D}. Arguments pv_id {D}. Arguments pv_card {D}.
Arguments MkCost {D}. Arguments co_input_usd {D}. Arguments co_output_usd {D}.
Arguments MkEvaluation {D}. Arguments pe_tier_index {D}. Arguments pe_cost {D}. Arguments pe_status {D}.

Section Operations.
Context {D : Type} `{Decimal D}.

(** ** Reading a card *)
Definition parse_optional_rate (value : option Value) (path : string) : option D + string :=
  match value with
  | None | Some Null => inl None
  | Some v =>
      let? parsed :=
        match v with
        | String s => ok_or (dec_from_str s) (path +:+ " must be a valid decimal")
        | Number s => ok_or (dec_from_str s) (path +:+ " must be a valid decimal")
        | _ => inr (path +:+ " must be a decimal string, number, or null")
        end in
      if dec_negative parsed then inr (path +:+ " must be greater than or equal to 0")
      else inl (Some parsed)
  end.

Definition parse_required_rate (object : list (string * Value)) (key path : string) : option D + string :=
  let? value := ok_or (assoc key object) (path +:+ "." +:+ key +:+ " is required") in
  parse_optional_rate (Some value) (path +:+ "." +:+ key).

Definition parse_complete_rates (value : Value) (path : string) : PriceRates D + string :=
  let? object := ok_or (as_object value) (path +:+ " must be an object") in
  let? input := parse_required_rate object "input" path in
  let? output := parse_required_rate object "output" path in
  let? cache_read := parse_required_rate object "cache_read" path in
  let? cache_write := parse_required_rate object "cache_write" path in
  inl (MkRates input output cache_read cache_write).

Definition tier_path (index : nat) : string := "tiers[" +:+ show_Z (Z.of_nat index) +:+ "]".

(** One tier, given the threshold of the one before. *)
Definition parse_tier (index : nat) (previous_threshold : Z) (tier_value : Value)
    : ContextPriceTier D + string :=
  let? tier := ok_or (as_object tier_value) (tier_path index +:+ " must be an object") in
  let? threshold := ok_or (opt_bind (assoc "over_total_input_tokens" tier) as_i64)
    (tier_path index +:+ ".over_total_input_tokens must be an integer") in
  if threshold <=? 0 then
    inr (tier_path index +:+ ".over_total_input_tokens must be greater than 0")
  else if threshold <=? previous_threshold then
    inr "tier thresholds must be unique and strictly increasing"
  else
    let? rates_value := ok_or (assoc "rates" tier) (tier_path index +:+ ".rates is required") in
    let? rates := parse_complete_rates rates_value (tier_path index +:+ ".rates") in
    inl (MkTier threshold rates).

Fixpoint parse_tiers (index : nat) (previous_threshold : Z) (l : list Value)
    : list (ContextPriceTier D) + string :=
  match l with
  | [] => inl []
  | v :: l' =>
      let? tier := parse_tier index previous_threshold v in
      let? tiers := parse_tiers (S index) (ct_over_total_input_tokens tier) l' in
      inl (tier :: tiers)
  end.

Definition from_v2_json (value : Value) : PriceCard D + string :=
  let? object := ok_or (as_object value) "price_data must be an object" in
  let? schema_version := ok_or (opt_bind (assoc "schema_version" object) as_u64)
    "schema_version must be 2" in
  if negb (schema_version =? PRICE_SCHEMA_VERSION) then
    inr ("unsupported price schema_version: " +:+ show_Z schema_version)
  else if negb (bool_decide (opt_bind (assoc "unit" object) as_str = Some PRICE_UNIT)) then
    inr ("unit must be " +:+ PRICE_UNIT)
  else
    let? base_value := ok_or (assoc "base" object) "base is required" in
    let? base := parse_complete_rates base_value "base" in
    let? tiers_value := ok_or (assoc "tiers" object) "tiers is required" in
    let? tier_values := ok_or (as_array tiers_value) "tiers must be an array" in
    let? tiers := parse_tiers 0 0 tier_values in
    inl (MkCard base tiers).

Definition no_rates (r : PriceRates D) : bool :=
  is_none (pr_input r) && is_none (pr_output r) && is_none (pr_cache_read r) && is_none (pr_cache_write r).

Definition from_legacy_json (value : Value) : PriceCard D + string :=
  let? object := ok_or (as_object value) "price_data must be an object" in
  let? cache_write :=
    if is_some (assoc "cache_creation_input_token_cost" object) then
      parse_optional_rate (assoc "cache_creation_input_token_cost" object) "cache_creation_input_token_cost"
    else
      parse_optional_rate (assoc "cache_creation_input_token_cost_above_1hr" object)
        "cache_creation_input_token_cost_above_1hr" in
  let? input := parse_optional_rate (assoc "input_cost_per_token" object) "input_cost_per_token" in
  let? output := parse_optional_rate (assoc "output_cost_per_token" object) "output_cost_per_token" in
  let? cache_read := parse_optional_rate (assoc "cache_read_input_token_cost" object)
    "cache_read_input_token_cost" in
  let base := MkRates input output cache_read cache_write in
  if no_rates base then inr "price_data must contain at least one price rate"
  else inl (MkCard base []).

Definition from_json (value : Value) : PriceCard D + string :=
  if is_some (get "schema_version" value) || is_some (get "base" value)
  then from_v2_json value else from_legacy_json value.

(** ** Writing a card *)
Definition rate_to_json (rate : option D) : Value :=
  match rate with Some value => String (dec_to_string (dec_normalize value)) | None => Null end.

Definition rates_to_json (r : PriceRates D) : Value :=
  Object [("cache_read", rate_to_json (pr_cache_read r)); ("cache_write", rate_to_json (pr_cache_write r));
          ("input", rate_to_json (pr_input r)); ("output", rate_to_json (pr_output r))].

Definition tier_to_json (t : ContextPriceTier D) : Value :=
  Object [("over_total_input_tokens", Number (show_Z (ct_over_total_input_tokens t)));
          ("rates", rates_to_json (ct_rates t))].

Definition to_json (c : PriceCard D) : Value :=
  Object [("base", rates_to_json (pc_base c));
          ("schema_version", Number (show_Z PRICE_SCHEMA_VERSION));
          ("tiers", Array (map tier_to_json (pc_tiers c)));
          ("unit", String PRICE_UNIT)].

(** ** Pricing a request *)
Definition total_input_tokens (u : Usage) : Z :=
  i64_sat_add (i64_sat_add (Z.max (us_input_tokens u) 0) (Z.max (us_cache_read_input_tokens u) 0))
    (Z.max (us_cache_creation_input_tokens u) 0).

(** The cast to [i32] is exact: a card has far fewer tiers. *)
Definition tier_index_for_usage (c : PriceCard D) (u : Usage) : Z :=
  match rposition (λ t, ct_over_total_input_tokens t <? total_input_tokens u) (pc_tiers c) with
  | Some index => i32_wrap (i32_wrap (Z.of_nat index) + 1)
  | None => 0
  end.

Definition rates_for_tier (c : PriceCard D) (tier_index : Z) : option (PriceRates D) :=
  if tier_index =? 0 then Some (pc_base c)
  else if 0 <? tier_index then
    option_map ct_rates (pc_tiers c !! Z.to_nat (tier_index - 1))
  else None.

(** [None] is a panic of the decimal arithmetic, [Some None] a missing rate. *)
Definition component_cost (tokens : Z) (rate : option D) : option (option D) :=
  let tokens := Z.max tokens 0 in
  if tokens =? 0 then Some (Some dec_zero)
  else match rate with
       | None => Some None
       | Some value =>
           let! product := dec_mul (dec_of_i64 tokens) value in
           let! cost := dec_div product (dec_of_i64 TOKENS_PER_MILLION) in
           Some (Some cost)
       end.

(** The [?] on a component inside a function that may panic. *)
Definition and_then {A B} (o : option (option A)) (k : A → option (option B)) : option (option B) :=
  let! r := o in match r with Some x => k x | None => Some None end.

Definition cost_for_usage (c : PriceCard D) (u : Usage) (tier_index : Z) : option (option (PricedCost D)) :=
  match rates_for_tier c tier_index with
  | None => Some None
  | Some rates =>
      and_then (component_cost (us_input_tokens u) (pr_input rates)) (λ input,
      and_then (component_cost (us_cache_read_input_tokens u) (pr_cache_read rates)) (λ cache_read,
      let! sum := dec_add input cache_read in
      and_then (component_cost (us_cache_creation_input_tokens u) (pr_cache_write rates)) (λ cache_write,
      let! input_usd := dec_add sum cache_write in
      and_then (component_cost (us_output_tokens u) (pr_output rates)) (λ output_usd,
      Some (Some (MkCost input_usd output_usd))))))
  end.

Definition usage_missing : PricingEvaluation D := MkEvaluation None None UsageMissing.

Definition evaluate_price (u : Usage) (usage_observed : bool) (price : option (PriceVersion D))
    : option (PricingEvaluation D) :=
  if negb usage_observed then Some usage_missing
  else match price with
       | None => Some (MkEvaluation None None Unpriced)
       | Some price =>
           let tier_index := tier_index_for_usage (pv_card price) u in
           let! cost := cost_for_usage (pv_card price) u tier_index in
           Some (MkEvaluation (Some tier_index) cost (if is_some cost then Priced else Unpriced))
       end.

(** ** Completeness *)
Definition missing_rate (path name : string) : string :=
  path +:+ "." +:+ name +:+ " must have a price; use 0 when that token category is free".

Definition validate_complete_rates (r : PriceRates D) (path : string) : unit + string :=
  match List.filter (λ nv, is_none nv.2)
          [("input", pr_input r); ("output", pr_output r);
           ("cache_read", pr_cache_read r); ("cache_write", pr_cache_write r)] with
  | [] => inl tt
  | (name, _) :: _ => inr (missing_rate path name)
  end.

Fixpoint validate_tiers (index : nat) (l : list (ContextPriceTier D)) : unit + string :=
  match l with
  | [] => inl tt
  | t :: l' =>
      let? _ok := validate_complete_rates (ct_rates t) (tier_path index +:+ ".rates") in
      validate_tiers (S index) l'
  end.

Definition validate_complete (c : PriceCard D) : unit + string :=
  let? _ok := validate_complete_rates (pc_base c) "base" in
  validate_tiers 0 (pc_tiers c).
End Operations.

(** ** What a card read from JSON satisfies *)
Section Facts.
Context {D : Type} `{DecimalOk D}.

Definition rate_ok (r : option D) : Prop := ∀ d, r = Some d → dec_negative d = false.

Definition rates_ok (r : PriceRates D) : Prop :=
  rate_ok (pr_input r) ∧ rate_ok (pr_output r) ∧ rate_ok (pr_cache_read r) ∧ rate_ok (pr_cache_write r).

(** Thresholds above [low], strictly increasing. *)
Fixpoint tiers_ok (low : Z) (l : list (ContextPriceTier D)) : Prop :=
  match l with
  | [] => True
  | t :: l' => low < ct_over_total_input_tokens t <= i64_max ∧ rates_ok (ct_rates t)
               ∧ tiers_ok (ct_over_total_input_tokens t) l'
  end.

Definition card_ok (c : PriceCard D) : Prop := rates_ok (pc_base c) ∧ tiers_ok 0 (pc_tiers c).

Lemma parse_optional_rate_ok v path r : parse_optional_rate v path = inl r → rate_ok r.
Proof.
  unfold parse_optional_rate. intros Hr d ->. destruct v as [v|]; [|done].
  destruct v; try done; simpl in Hr; destruct (dec_from_str _) as [p|]; simpl in Hr; try done;
    destruct (dec_negative p) eqn:E; try done; by injection Hr as <-.
Qed.

Lemma parse_required_rate_ok o key path r : parse_required_rate o key path = inl r → rate_ok r.
Proof. intros (v & _ & Hr)%res_bind_inl. by eapply parse_optional_rate_ok. Qed.

Lemma parse_complete_rates_ok v path r : parse_complete_rates v path = inl r → rates_ok r.
Proof.
  unfold parse_complete_rates. intros (o & _ & Hr)%res_bind_inl.
  apply res_bind_inl in Hr as (r1 & H1 & Hr). apply res_bind_inl in Hr as (r2 & H2 & Hr).
  apply res_bind_inl in Hr as (r3 & H3 & Hr). apply res_bind_inl in Hr as (r4 & H4 & Hr).
  injection Hr as <-. repeat split; by eapply parse_required_rate_ok.
Qed.

Lemma parse_tier_ok i prev v t :
  0 <= prev → parse_tier i prev v = inl t →
  prev < ct_over_total_input_tokens t <= i64_max ∧ rates_ok (ct_rates t).
Proof.
  unfold parse_tier. intros Hp (o & _ & Ht)%res_bind_inl.
  apply res_bind_inl in Ht as (th & Hth & Ht). apply ok_or_inl, opt_bind_Some in Hth as (n & _ & Hn).
  destruct (Z.leb_spec th 0); [done|]. destruct (Z.leb_spec th prev); [done|].
  apply res_bind_inl in Ht as (rv & _ & Ht). apply res_bind_inl in Ht as (r & Hr & Ht).
  injection Ht as <-. simpl. split; [|by eapply parse_complete_rates_ok].
  destruct n; try done. apply parse_i64_range in Hn. mlia.
Qed.

Lemma parse_tiers_ok l : ∀ i prev ts, 0 <= prev → parse_tiers i prev l = inl ts → tiers_ok prev ts.
Proof.
  induction l as [|v l IH]; intros i prev ts Hp; simpl; [by intros [= <-]|].
  intros (t & Ht & Hts)%res_bind_inl. apply res_bind_inl in Hts as (ts' & Hts' & E). injection E as <-.
  destruct (parse_tier_ok _ _ _ _ Hp Ht) as [H1 H2]. simpl. split_and!; [lia|lia|done|].
  eapply IH; [|exact Hts']. lia.
Qed.

(** A price card that is accepted is well formed: no rate is negative and the
    thresholds of its tiers are positive and strictly increasing. *)
Theorem accepted_card_ok v c : from_json v = inl c → card_ok c.
Proof.
  unfold from_json. destruct (_ || _).
  - unfold from_v2_json. intros (o & _ & Hc)%res_bind_inl. apply res_bind_inl in Hc as (sv & _ & Hc).
    destruct (negb _); [done|]. destruct (negb _); [done|].
    apply res_bind_inl in Hc as (bv & _ & Hc). apply res_bind_inl in Hc as (b & Hb & Hc).
    apply res_bind_inl in Hc as (tv & _ & Hc). apply res_bind_inl in Hc as (tvs & _ & Hc).
    apply res_bind_inl in Hc as (ts & Hts & Hc). injection Hc as <-.
    split; [by eapply parse_complete_rates_ok|by eapply parse_tiers_ok].
  - unfold from_legacy_json. intros (o & _ & Hc)%res_bind_inl. apply res_bind_inl in Hc as (w & Hw & Hc).
    apply res_bind_inl in Hc as (i & Hi & Hc). apply res_bind_inl in Hc as (ou & Ho & Hc).
    apply res_bind_inl in Hc as (r & Hr & Hc). destruct (no_rates _); [done|]. injection Hc as <-.
    split; [|done]. repeat split; simpl; try by eapply parse_optional_rate_ok.
    destruct (is_some _); by eapply parse_optional_rate_ok.
Qed.

(** ** Round trip *)
Definition normalize_rates (r : PriceRates D) : PriceRates D :=
  MkRates (option_map dec_normalize (pr_input r)) (option_map dec_normalize (pr_output r))
    (option_map dec_normalize (pr_cache_read r)) (option_map dec_normalize (pr_cache_write r)).

Definition normalize_card (c : PriceCard D) : PriceCard D :=
  MkCard (normalize_rates (pc_base c))
    (map (λ t, MkTier (ct_over_total_input_tokens t) (normalize_rates (ct_rates t))) (pc_tiers c)).

Lemma rate_round_trip r path :
  rate_ok r → parse_optional_rate (Some (rate_to_json r)) path = inl (option_map dec_normalize r).
Proof.
  intros Hr. destruct r as [d|]; simpl; [|done]. rewrite dec_print_parse /=.
  by rewrite dec_normalize_sign; [|apply Hr].
Qed.

Lemma rates_round_trip r path :
  rates_ok r → parse_complete_rates (rates_to_json r) path = inl (normalize_rates r).
Proof.
  intros (H1 & H2 & H3 & H4). unfold parse_complete_rates, rates_to_json, parse_required_rate.
  cbn [as_object ok_or res_bind assoc String.eqb Ascii.eqb Bool.eqb]. by rewrite !rate_round_trip.
Qed.

Lemma tiers_round_trip l : ∀ i prev, 0 <= prev → tiers_ok prev l →
  parse_tiers i prev (map tier_to_json l)
  = inl (map (λ t, MkTier (ct_over_total_input_tokens t) (normalize_rates (ct_rates t))) l).
Proof.
  induction l as [|t l IH]; intros i prev Hp; [done|]. intros (Ht & Hr & Hl). cbn [map parse_tiers].
  assert (parse_tier i prev (tier_to_json t)
    = inl (MkTier (ct_over_total_input_tokens t) (normalize_rates (ct_rates t)))) as ->.
  { unfold parse_tier, tier_to_json.
    cbn [as_object ok_or res_bind opt_bind assoc String.eqb Ascii.eqb Bool.eqb as_i64].
    rewrite parse_i64_show; [|mlia]. cbn [ok_or res_bind].
    rewrite (proj2 (Z.leb_gt _ 0)); [|lia]. rewrite (proj2 (Z.leb_gt _ prev)); [|lia].
    by rewrite rates_round_trip. }
  cbn [res_bind ct_over_total_input_tokens]. by rewrite IH; [|lia|].
Qed.

Lemma card_read_back c : card_ok c → from_json (to_json c) = inl (normalize_card c).
Proof.
  intros [Hb Ht]. unfold from_json, to_json.
  cbn [get assoc String.eqb Ascii.eqb Bool.eqb is_some orb]. unfold from_v2_json.
  cbn [as_object ok_or res_bind opt_bind assoc String.eqb Ascii.eqb Bool.eqb].
  change (as_u64 (Number (show_Z PRICE_SCHEMA_VERSION))) with (Some 2). cbn [ok_or res_bind].
  change (negb (2 =? PRICE_SCHEMA_VERSION)) with false. cbv iota.
  rewrite bool_decide_eq_true_2; [|done]. cbn [negb]. rewrite rates_round_trip //.
  cbn [as_array ok_or res_bind]. by rewrite tiers_round_trip.
Qed.

(** Writing a well-formed card and reading it back gives the same card with its
    rates normalised. *)
Theorem card_round_trip c : card_ok c → from_json (to_json c) = inl (normalize_card c).
Proof. apply card_read_back. Qed.

(** ** Tiers *)
Lemma tiers_ok_above low l t : tiers_ok low l → t ∈ l → low < ct_over_total_input_tokens t.
Proof.
  revert low. induction l as [|x l IH]; intros low; simpl; [set_solver|].
  intros (H1 & _ & Hl) [->|Ht]%elem_of_cons; [lia|]. specialize (IH _ Hl Ht). lia.
Qed.

Lemma tiers_ok_increasing low l i j a b :
  tiers_ok low l → (i < j)%nat → l !! i = Some a → l !! j = Some b →
  ct_over_total_input_tokens a < ct_over_total_input_tokens b.
Proof.
  revert low i j. induction l as [|x l IH]; intros low i j; [done|]. intros (_ & _ & Hl) Hij Ha Hb.
  destruct j as [|j]; [lia|]. destruct i as [|i]; simpl in *.
  - injection Ha as ->. eapply tiers_ok_above; [exact Hl|]. by eapply list_elem_of_lookup_2.
  - eapply (IH _ i j); [exact Hl|lia|done|done].
Qed.

Lemma rposition_Some {A} (f : A → bool) l i :
  rposition f l = Some i → ∃ x, l !! i = Some x ∧ f x = true ∧ ∀ j y, (i < j)%nat → l !! j = Some y → f y = false.
Proof.
  revert i. induction l as [|x l IH]; intros i; simpl; [done|].
  destruct (rposition f l) as [k|] eqn:E.
  - intros [= <-]. destruct (IH k eq_refl) as (y & Hy & Hf & Hn). exists y. split_and!; [done|done|].
    intros j z Hj Hz. destruct j as [|j]; [lia|]. apply (Hn j z); [lia|done].
  - destruct (f x) eqn:Ef; [|done]. intros [= <-]. exists x. split_and!; [done|done|].
    intros [|j] z Hj Hz; [lia|]. simpl in Hz. clear IH Hj. revert j Hz. induction l as [|w l IHl]; [done|].
    simpl in E. destruct (rposition f l) eqn:E2; [done|]. destruct (f w) eqn:Ew; [done|].
    intros [|j] Hz; [by injection Hz as <-|]. by apply (IHl eq_refl j).
Qed.

Lemma tier_selected c u :
  card_ok c → Z.of_nat (length (pc_tiers c)) <= i32_max →
  let over t := ct_over_total_input_tokens t <? total_input_tokens u in
  let i := tier_index_for_usage c u in
  i = Z.of_nat (length (List.filter over (pc_tiers c)))
  ∧ (i = 0 → rates_for_tier c i = Some (pc_base c))
  ∧ (0 < i → ∃ t, t ∈ pc_tiers c ∧ rates_for_tier c i = Some (ct_rates t) ∧ over t = true
       ∧ ∀ t', t' ∈ pc_tiers c → over t' = true →
           ct_over_total_input_tokens t' <= ct_over_total_input_tokens t).
Proof.
  intros [_ Hok] Hlen over i. unfold i, tier_index_for_usage. fold over. clear i.
  assert (∀ k, (k < length (pc_tiers c))%nat → i32_wrap (i32_wrap (Z.of_nat k) + 1) = Z.of_nat k + 1) as Hw.
  { intros k Hk. rewrite !i32_wrap_id //; rewrite ?i32_wrap_id; unfold is_i32, i32_min, i32_max in *; lia. }
  pose proof (rposition_prefix over (pc_tiers c)) as Hp.
  destruct (rposition over (pc_tiers c)) as [k|] eqn:E.
  - destruct (rposition_Some _ _ _ E) as (t & Ht & Ho & Hn).
    assert (k < length (pc_tiers c))%nat as Hk by by eapply lookup_lt_Some.
    rewrite Hw //. split_and!.
    + rewrite -Hp; [lia|]. intros i j x y Hij Hx Hy. unfold over.
      pose proof (tiers_ok_increasing _ _ _ _ _ _ Hok Hij Hx Hy). rewrite !Z.ltb_lt. lia.
    + lia.
    + intros _. exists t. split_and!; [by eapply list_elem_of_lookup_2| |done|].
      * unfold rates_for_tier. rewrite (proj2 (Z.eqb_neq _ 0)); [|lia]. rewrite (proj2 (Z.ltb_lt 0 _)); [|lia].
        rewrite (_ : Z.to_nat (Z.of_nat k + 1 - 1) = k); [|lia]. by rewrite Ht.
      * intros t' (j & Hj)%list_elem_of_lookup_1 Ho'. destruct (Nat.lt_trichotomy j k) as [Hjk|[->|Hjk]].
        -- pose proof (tiers_ok_increasing _ _ _ _ _ _ Hok Hjk Hj Ht). lia.
        -- rewrite Ht in Hj. by injection Hj as <-.
        -- by rewrite (Hn j t' Hjk Hj) in Ho'.
  - split_and!; [|done|lia]. rewrite -Hp; [done|]. intros i j x y Hij Hx Hy. unfold over.
    pose proof (tiers_ok_increasing _ _ _ _ _ _ Hok Hij Hx Hy). rewrite !Z.ltb_lt. lia.
Qed.

(** A request is charged by the tier of its size: the index selected is the
    number of thresholds its total input exceeds, always one of the card, and its
    rates are the base rates below every threshold and otherwise those of the
    highest threshold exceeded. *)
Theorem tier_of_request c u :
  card_ok c → Z.of_nat (length (pc_tiers c)) <= i32_max →
  let over t := ct_over_total_input_tokens t <? total_input_tokens u in
  let i := tier_index_for_usage c u in
  i = Z.of_nat (length (List.filter over (pc_tiers c)))
  ∧ (i = 0 → rates_for_tier c i = Some (pc_base c))
  ∧ (0 < i → ∃ t, t ∈ pc_tiers c ∧ rates_for_tier c i = Some (ct_rates t) ∧ over t = true
       ∧ ∀ t', t' ∈ pc_tiers c → over t' = true →
           ct_over_total_input_tokens t' <= ct_over_total_input_tokens t).
Proof. apply tier_selected. Qed.

(** ** Status *)

(** Every kind of token the request used has a rate. *)
Definition covers (r : PriceRates D) (u : Usage) : bool :=
  ((us_input_tokens u <=? 0) || is_some (pr_input r))
  && ((us_cache_read_input_tokens u <=? 0) || is_some (pr_cache_read r))
  && ((us_cache_creation_input_tokens u <=? 0) || is_some (pr_cache_write r))
  && ((us_output_tokens u <=? 0) || is_some (pr_output r)).

Lemma component_cost_covered tokens rate r :
  component_cost tokens rate = Some r → is_some r = (tokens <=? 0) || is_some rate.
Proof.
  unfold component_cost. destruct (Z.eqb_spec (Z.max tokens 0) 0) as [Hz|Hz].
  - intros [= <-]. rewrite (proj2 (Z.leb_le tokens 0)); [done|lia].
  - rewrite (proj2 (Z.leb_gt tokens 0)); [|lia]. destruct rate as [d|]; simpl; [|by intros [= <-]].
    intros (p & _ & Hp)%opt_bind_Some. apply opt_bind_Some in Hp as (q & _ & Hq). by injection Hq as <-.
Qed.

Lemma and_then_Some {A B} (o : option (option A)) (k : A → option (option B)) r :
  and_then o k = Some r → (o = Some None ∧ r = None) ∨ ∃ x, o = Some (Some x) ∧ k x = Some r.
Proof. unfold and_then. destruct o as [[x|]|]; simpl; naive_solver. Qed.

Lemma cost_covered c u i r rates :
  rates_for_tier c i = Some rates → cost_for_usage c u i = Some r → is_some r = covers rates u.
Proof.
  unfold cost_for_usage, covers. intros -> Hr.
  apply and_then_Some in Hr as [[H1 ->]|(a & H1 & Hr)]; apply component_cost_covered in H1; rewrite -H1; [done|].
  apply and_then_Some in Hr as [[H2 ->]|(b & H2 & Hr)]; apply component_cost_covered in H2; rewrite -H2; [done|].
  apply opt_bind_Some in Hr as (sm & _ & Hr).
  apply and_then_Some in Hr as [[H3 ->]|(d & H3 & Hr)]; apply component_cost_covered in H3; rewrite -H3; [done|].
  apply opt_bind_Some in Hr as (iu & _ & Hr).
  apply and_then_Some in Hr as [[H4 ->]|(e & H4 & Hr)]; apply component_cost_covered in H4; rewrite -H4; [done|].
  by injection Hr as <-.
Qed.

Lemma complete_covers r path u : validate_complete_rates r path = inl tt → covers r u = true.
Proof.
  unfold validate_complete_rates, covers. destruct r as [[] [] [] []]; simpl; try done. by rewrite !orb_true_r.
Qed.

Lemma validate_tiers_in i l t u :
  validate_tiers i l = inl tt → t ∈ l → covers (ct_rates t) u = true.
Proof.
  revert i. induction l as [|x l IH]; intros i; simpl; [set_solver|].
  intros ([] & Hx & Hl)%res_bind_inl [->|Ht]%elem_of_cons; [by eapply complete_covers|by eapply IH].
Qed.

(** A request is priced exactly when it can be: its usage was observed, its model
    has a price and every kind of token it used has a rate in its tier; a card that
    passes validation prices every request. *)
Theorem priced_iff_covered u observed price e :
  match price with Some p => card_ok (pv_card p) ∧ Z.of_nat (length (pc_tiers (pv_card p))) <= i32_max
                 | None => True end →
  evaluate_price u observed price = Some e →
  (pe_status e = UsageMissing ↔ observed = false)
  ∧ (pe_status e = Priced ↔ is_some (pe_cost e) = true)
  ∧ (pe_status e = Priced ↔ observed = true ∧ ∃ p rates, price = Some p
       ∧ rates_for_tier (pv_card p) (tier_index_for_usage (pv_card p) u) = Some rates
       ∧ covers rates u = true)
  ∧ (∀ p, observed = true → price = Some p → validate_complete (pv_card p) = inl tt → pe_status e = Priced).
Proof.
  intros Hp. unfold evaluate_price. destruct observed; simpl; [|intros [= <-]; simpl; naive_solver].
  destruct price as [p|]; [|intros [= <-]; simpl; naive_solver].
  destruct Hp as [Hok Hlen]. destruct (tier_selected (pv_card p) u Hok Hlen) as (_ & Hbase & Htier).
  assert (∃ rates, rates_for_tier (pv_card p) (tier_index_for_usage (pv_card p) u) = Some rates
    ∧ (validate_complete (pv_card p) = inl tt → covers rates u = true)) as (rates & Hr & Hc).
  { unfold validate_complete. set (i := tier_index_for_usage _ _) in *.
    assert (i = 0 ∨ 0 < i) as [Hi|Hi].
    { unfold i, tier_index_for_usage. destruct (tier_selected (pv_card p) u Hok Hlen) as (E & _ & _).
      unfold tier_index_for_usage in E. rewrite E. lia. }
    - exists (pc_base (pv_card p)). split; [by apply Hbase|]. intros ([] & Hb & _)%res_bind_inl.
      by eapply complete_covers.
    - destruct (Htier Hi) as (t & Ht & Hrt & _). exists (ct_rates t). split; [done|].
      intros ([] & _ & Hts)%res_bind_inl. by eapply validate_tiers_in. }
  intros (cost & Hcost & E)%opt_bind_Some. injection E as <-. cbn [pe_status pe_cost].
  rewrite -(cost_covered _ _ _ _ _ Hr Hcost) in Hc.
  pose proof (cost_covered _ _ _ _ _ Hr Hcost) as Hcc.
  destruct cost as [cost|]; simpl in *.
  - split_and!; try done. split; [|done]. intros _. split; [done|]. by exists p, rates.
  - split_and!; try done.
    + split; [done|]. intros (_ & p' & rates' & E' & Hr' & Hc'). injection E' as <-.
      rewrite Hr in Hr'. injection Hr' as <-. congruence.
    + intros p' _ E' Hv. injection E' as <-. by specialize (Hc Hv).
Qed.
End Facts.

(** ** A concrete card, with whole numbers for decimals *)
#[local] Instance whole : Decimal Z := {
  dec_zero := 0; dec_of_i64 := λ z, z; dec_mul := λ a b, Some (a * b);
  dec_div := λ a b, if b =? 0 then None else Some (a / b); dec_add := λ a b, Some (a + b);
  dec_from_str := parse_int; dec_negative := λ d, d <? 0;
  dec_normalize := λ d, d; dec_to_string := show_Z }.

#[local] Instance whole_ok : DecimalOk Z.
Proof. split; [apply parse_int_show|done]. Qed.

Definition wp_rates (n : Z) : PriceRates Z := MkRates (Some n) (Some n) (Some n) (Some n).
Definition wp_card : PriceCard Z := MkCard (wp_rates 2) [MkTier 1000 (wp_rates 4); MkTier 2000 (wp_rates 6)].
Definition wp_usage : Usage := MkUsage 1500000 2000000 500000 0 0.

Lemma wp_card_ok : card_ok wp_card.
Proof.
  assert (∀ n, 0 <= n → rates_ok (wp_rates n)) as Hr.
  { intros n Hn. repeat split; intros d [= <-]; simpl; by apply Z.ltb_ge. }
  split; [by apply Hr|]. simpl. split_and!; try done; try mlia; by apply Hr.
Qed.

Lemma accepted_card_ok_witness : card_ok wp_card.
Proof. apply (accepted_card_ok (to_json wp_card)). vm_compute. reflexivity. Defined.

Lemma card_round_trip_witness : from_json (to_json wp_card) = inl wp_card.
Proof. exact (card_round_trip wp_card wp_card_ok). Defined.

Lemma tier_of_request_witness : tier_index_for_usage wp_card wp_usage = 2.
Proof.
  destruct (tier_of_request wp_card wp_usage wp_card_ok) as (E & _); [vm_compute; discriminate|].
  rewrite E. vm_compute. reflexivity.
Defined.

Lemma priced_iff_covered_witness : ∃ e,
  evaluate_price wp_usage true (Some (MkPrice 1 wp_card)) = Some e
  ∧ pe_status e = Priced ∧ pe_cost e = Some (MkCost 12 12).
Proof.
  eexists. split; [vm_compute; reflexivity|]. split; [|reflexivity].
  refine (proj2 (proj2 (proj2 (priced_iff_covered wp_usage true (Some (MkPrice 1 wp_card)) _ _ _)))
            (MkPrice 1 wp_card) eq_refl eq_refl _).
  - split; [exact wp_card_ok|vm_compute; discriminate].
  - vm_compute. reflexivity.
  - vm_compute. reflexivity.
Defined.
