(* ===== verification/Snapshot.v ===== *)
(** * Snapshot: the configuration a request is routed with

    Models [UpstreamSnapshot] of [cache/upstream_cache.rs] (its construction from the
    database's rows, price lookup and the model registry) and the routing rules of
    an OAuth account, [CodexQuotaSnapshot] of [codex_oauth.rs]. *)
From Stdlib Require Import SpecFloat Ascii String.
From S2P Require Import Prelude Float64 Text Json Types Pricing.

Local Open Scope string_scope.
Local Open Scope list_scope.
Local Open Scope Z_scope.

(** ** OAuth accounts *)
Definition AUTH_STATUS_ACTIVE : string := "active".
Definition AUTH_STATUS_REAUTH_REQUIRED : string := "reauth_required".
Definition AUTH_STATUS_FORBIDDEN : string := "forbidden".
Definition OAUTH_PROVIDER_TYPE : string := "openai_codex_oauth".

Record CodexQuotaWindow := MkWindow {
  qw_used_percent : f64;
  qw_remaining_percent : f64;
  qw_window_seconds : option Z;
  qw_reset_at_ms : option Z
}.

Record CodexQuotaCredits := MkCredits {
  qc_has_credits : bool;
  qc_unlimited : bool;
  qc_balance : option f64;
  qc_reset_credits : option f64;
  qc_subscription_end_at_ms : option Z
}.

Record CodexQuotaSnapshot := MkQuota {
  cq_plan_type : option string;
  cq_allowed : option bool;
  cq_primary_window : option CodexQuotaWindow;
  cq_secondary_window : option CodexQuotaWindow;
  cq_code_review_window : option CodexQuotaWindow;
  cq_credits : CodexQuotaCredits
}.

Definition quota_windows (q : CodexQuotaSnapshot) : list CodexQuotaWindow :=
  option_list (cq_primary_window q) ++ option_list (cq_secondary_window q)
  ++ option_list (cq_code_review_window q).

(** [window.remaining_percent <= 0.0] *)
Definition exhausted (w : CodexQuotaWindow) : bool := SFleb (qw_remaining_percent w) f64_zero.

Definition blocked_until_ms (q : CodexQuotaSnapshot) (now_ms : Z) : option Z :=
  max_opt (List.filter (λ reset, now_ms <? reset)
    (omap qw_reset_at_ms (List.filter exhausted (quota_windows q)))).

Definition is_exhausted_without_reset (q : CodexQuotaSnapshot) : bool :=
  bool_decide (cq_allowed q = Some false)
  && forallb (λ w, is_none (qw_reset_at_ms w)) (quota_windows q).

Record CodexOAuthRoutingAccount := MkRoutingAccount {
  ra_auth_status : string;
  ra_quota : option CodexQuotaSnapshot
}.

Definition is_routable (a : CodexOAuthRoutingAccount) (now_ms : Z) : bool :=
  if negb (String.eqb (ra_auth_status a) AUTH_STATUS_ACTIVE) then false
  else match ra_quota a with
       | None => true
       | Some q => is_none (blocked_until_ms q now_ms) && negb (is_exhausted_without_reset q)
       end.

(** ** The snapshot *)
Record ProviderModelState := MkModelState {
  ms_enabled : bool;
  ms_available : bool;
  ms_responses_via_chat_enabled : bool
}.
Definition is_active (s : ProviderModelState) : bool := ms_enabled s && ms_available s.

Record ProviderModelAliasTarget := MkModelAliasTarget {
  pa_provider_id : Z;
  pa_upstream_model : string;
  pa_enabled : bool
}.

Section Snapshot.
Context {D : Type}.

Record UpstreamSnapshot := MkSnapshot {
  sn_providers : list UpstreamProvider;
  sn_route_policies : gmap string RoutePolicy;
  sn_keys_by_provider : gmap Z (list UpstreamKey);
  sn_endpoints_by_provider : gmap Z (list UpstreamEndpoint);
  sn_groups_by_provider : gmap Z (list ProviderGroupMembership);
  sn_routes_by_model : gmap string ModelRoute;
  sn_provider_models_by_provider : gmap Z (gmap string ProviderModelState);
  sn_alias_to_provider_model : gmap string ProviderModelAliasTarget;
  sn_model_aliases_by_name : gmap string ModelAlias;
  sn_alias_targets_by_alias : gmap Z (list ModelAliasTarget);
  sn_key_models_by_key : gmap Z (gmap string bool);
  sn_globally_disabled_models : gset string;
  sn_codex_oauth_by_key : gmap Z CodexOAuthRoutingAccount;
  sn_model_registry_ids : list string;
  sn_provider_prices_by_model : gmap Z (gmap string (PriceVersion D));
  sn_global_prices_by_model : gmap string (PriceVersion D)
}.

Definition default_snapshot : UpstreamSnapshot :=
  MkSnapshot [] ∅ ∅ ∅ ∅ ∅ ∅ ∅ ∅ ∅ ∅ ∅ ∅ [] ∅ ∅.

Implicit Types s : UpstreamSnapshot.

(** ** Prices *)
Definition find_price s (provider_id : Z) (model_name : string) : option (PriceVersion D) :=
  opt_or (let! items := sn_provider_prices_by_model s !! provider_id in items !! model_name)
    (sn_global_prices_by_model s !! model_name).

Definition find_price_for_request s (provider_id : Z) (requested_model upstream_model : string)
    : option (PriceVersion D) :=
  opt_or (find_price s provider_id upstream_model)
    (if String.eqb requested_model upstream_model then None else find_price s provider_id requested_model).

(** [BTreeSet<String>]: a strictly increasing list. *)
Fixpoint btree_insert (x : string) (l : list string) : list string :=
  match l with
  | [] => [x]
  | y :: l' => if String.eqb y x then l
               else if str_leb x y then x :: l else y :: btree_insert x l'
  end.

(** The upstream models a request of the past may have gone to. *)
Definition historical_models s (provider_id : Z) (requested_model : string) : list string :=
  let models :=
    match sn_alias_to_provider_model s !! requested_model with
    | Some target =>
        if (pa_provider_id target =? provider_id) && pa_enabled target
        then btree_insert (pa_upstream_model target) [] else []
    | None => []
    end in
  let models :=
    match sn_model_aliases_by_name s !! requested_model with
    | Some alias =>
        if ma_enabled alias then
          foldl (λ models target, btree_insert (at_upstream_model target) models) models
            (List.filter (λ target, (at_provider_id target =? provider_id) && at_enabled target)
               (unwrap_or (sn_alias_targets_by_alias s !! ma_id alias) []))
        else models
    | None => models
    end in
  if is_empty models then [requested_model] else models.

Definition price_id (p : option (PriceVersion D)) : option Z := option_map pv_id p.

(** The loop over the candidates: [None] when two of them are priced differently. *)
Fixpoint common_price (effective : string → option (PriceVersion D)) (models : list string)
    (common : option (option (PriceVersion D))) : option (option (option (PriceVersion D))) :=
  match models with
  | [] => Some common
  | m :: models' =>
      match common with
      | Some existing =>
          if bool_decide (price_id existing = price_id (effective m))
          then common_price effective models' common else None
      | None => common_price effective models' (Some (effective m))
      end
  end.

Definition find_price_for_historical_request s (provider_id : Z) (requested_model : string)
    : option (PriceVersion D) :=
  let requested_price := find_price s provider_id requested_model in
  let effective m := opt_or (find_price s provider_id m) requested_price in
  let! common := common_price effective (historical_models s provider_id requested_model) None in
  opt_or (unwrap_or common None) requested_price.

(** ** Models *)
Definition is_model_globally_enabled s (model_name : string) : bool :=
  negb (bool_decide (model_name ∈ sn_globally_disabled_models s)).

Definition provider_model_state s (provider_id : Z) (upstream_model : string) : option ProviderModelState :=
  let! models := sn_provider_models_by_provider s !! provider_id in models !! upstream_model.

Definition key_allows_model s (key_id : Z) (upstream_model : string) : bool :=
  match sn_key_models_by_key s !! key_id with
  | Some models =>
      if negb (size models =? 0)%nat then unwrap_or (models !! upstream_model) false else true
  | None => true
  end.

(** A key that can serve a model of its provider. *)
Definition key_serves s (provider : UpstreamProvider) (upstream_model : string) (now_ms : Z)
    (key : UpstreamKey) : bool :=
  uk_enabled key && key_allows_model s (uk_id key) upstream_model
  && (negb (String.eqb (up_provider_type provider) OAUTH_PROVIDER_TYPE)
      || is_some_and (sn_codex_oauth_by_key s !! uk_id key) (λ account, is_routable account now_ms)).

(** One provider of the loop of [rebuild_model_registry_ids]: its active models. The
    order in which the map's models are visited does not matter, they go into a set. *)
Definition active_models s (now_ms : Z) (provider : UpstreamProvider) : list string :=
  match sn_provider_models_by_provider s !! up_id provider, sn_keys_by_provider s !! up_id provider with
  | Some models, Some keys =>
      map fst (List.filter (λ ms,
        (is_active ms.2 && is_model_globally_enabled s ms.1)
        && existsb (key_serves s provider ms.1 now_ms) keys) (map_to_list models))
  | _, _ => []
  end.

(** The pairs (provider, model) of [active_targets]. *)
Definition active_targets s (now_ms : Z) : gset (Z * string) :=
  list_to_set (flat_map (λ p, map (pair (up_id p)) (active_models s now_ms p))
    (List.filter up_enabled (sn_providers s))).

Definition alias_listed s (targets : gset (Z * string)) (alias : ModelAlias) : bool :=
  ma_enabled alias && is_model_globally_enabled s (ma_name alias)
  && is_some_and (sn_alias_targets_by_alias s !! ma_id alias) (existsb (λ target,
       at_enabled target && is_model_globally_enabled s (at_upstream_model target)
       && bool_decide ((at_provider_id target, at_upstream_model target) ∈ targets))).

Definition alias_target_listed s (targets : gset (Z * string)) (alias : string)
    (target : ProviderModelAliasTarget) : bool :=
  pa_enabled target && is_model_globally_enabled s alias
  && is_model_globally_enabled s (pa_upstream_model target)
  && bool_decide ((pa_provider_id target, pa_upstream_model target) ∈ targets).

Definition set_registry (ids : list string) s : UpstreamSnapshot :=
  MkSnapshot (sn_providers s) (sn_route_policies s) (sn_keys_by_provider s) (sn_endpoints_by_provider s)
    (sn_groups_by_provider s) (sn_routes_by_model s) (sn_provider_models_by_provider s)
    (sn_alias_to_provider_model s) (sn_model_aliases_by_name s) (sn_alias_targets_by_alias s)
    (sn_key_models_by_key s) (sn_globally_disabled_models s) (sn_codex_oauth_by_key s) ids
    (sn_provider_prices_by_model s) (sn_global_prices_by_model s).

(** The names listed, in the order of the loops. *)
Definition registry_names s (now_ms : Z) : list string :=
  let targets := active_targets s now_ms in
  flat_map (active_models s now_ms) (List.filter up_enabled (sn_providers s))
  ++ map (λ na, ma_name na.2)
       (List.filter (λ na, alias_listed s targets na.2) (map_to_list (sn_model_aliases_by_name s)))
  ++ map fst
       (List.filter (λ at_, alias_target_listed s targets at_.1 at_.2)
          (map_to_list (sn_alias_to_provider_model s))).

Definition rebuild_model_registry_ids s (now_ms : Z) : UpstreamSnapshot :=
  set_registry (foldl (λ ids x, btree_insert x ids) [] (registry_names s now_ms)) s.

(** ** Loading *)
Record ModelPrice := MkModelPrice {
  mp_id : Z;
  mp_provider_id : option Z;
  mp_price_model_name : string;
  mp_price : PriceCard D;
  mp_price_created_at_ms : Z;
  mp_price_updated_at_ms : Z
}.

(** What the queries of [load_snapshot] return, in the order of the queries. *)
Record Rows := MkRows {
  ro_providers : list UpstreamProvider;
  ro_groups_by_provider : gmap Z (list ProviderGroupMembership);
  ro_upstream_keys : list UpstreamKey;
  ro_codex_accounts : list (Z * CodexOAuthRoutingAccount);
  ro_endpoints : list UpstreamEndpoint;
  ro_routes : list ModelRoute;
  ro_provider_models : list ProviderModel;
  ro_model_aliases : list ModelAlias;
  ro_model_alias_targets : list ModelAliasTarget;
  ro_gateway_model_policies : list GatewayModelPolicy;
  ro_key_models : list UpstreamKeyModel;
  ro_prices : list ModelPrice;
  ro_route_policies : gmap string RoutePolicy;
  ro_request_options : gmap Z (option Z * bool)
}.
End Snapshot.
Arguments UpstreamSnapshot : clear implicits.
Arguments ModelPrice : clear implicits.
Arguments Rows : clear implicits.

(** [map.entry(k).or_default().push(v)] *)
Definition push_entry {K V} `{Countable K} (k : K) (v : V) (m : gmap K (list V)) : gmap K (list V) :=
  <[k := unwrap_or (m !! k) [] ++ [v]]> m.
Definition group_by_key {K V} `{Countable K} (key : V → K) (rows : list V) : gmap K (list V) :=
  foldl (λ m row, push_entry (key row) row m) ∅ rows.

(** [map.insert(k, v)] for every row: the last one wins. *)
Definition index_by {K A V} `{Countable K} (key : A → K) (value : A → V) (rows : list A) : gmap K V :=
  foldl (λ m row, <[key row := value row]> m) ∅ rows.

(** [map.entry(k).or_default().insert(k2, v)] for every row. *)
Definition index_by2 {K A V} `{Countable K} (key : A → K) (key2 : A → string) (value : A → V)
    (rows : list A) : gmap K (gmap string V) :=
  foldl (λ m row, <[key row := <[key2 row := value row]> (unwrap_or (m !! key row) ∅)]> m) ∅ rows.

Definition model_state (m : ProviderModel) : ProviderModelState :=
  MkModelState (pm_enabled m) (pm_available m) (pm_responses_via_chat_enabled m).

(** The alias of a provider model, if it has one. *)
Definition model_alias (m : ProviderModel) : option string :=
  opt_filter (λ a, negb (String.eqb a "")) (option_map trim (pm_alias m)).

Definition alias_index (rows : list ProviderModel) : gmap string ProviderModelAliasTarget :=
  foldl (λ m row,
    match model_alias row with
    | Some alias =>
        <[alias := MkModelAliasTarget (pm_provider_id row) (pm_upstream_model row)
                     (pm_enabled row && pm_available row)]> m
    | None => m
    end) ∅ rows.

(** The order of the targets of an alias: priority, then weight descending, then id. *)
Definition target_leb (a b : ModelAliasTarget) : bool :=
  (at_priority a <? at_priority b)
  || ((at_priority a =? at_priority b) && lex_leb (- at_weight a, at_id a) (- at_weight b, at_id b)).

Section Load.
Context {D : Type}.

Definition price_version (row : ModelPrice D) : PriceVersion D := MkPrice (mp_id row) (mp_price row).

(** A provider with the request options stored for it. *)
Definition with_options (options : gmap Z (option Z * bool)) (p : UpstreamProvider) : UpstreamProvider :=
  match options !! up_id p with
  | None => p
  | Some (timeout, failover) =>
      MkProvider timeout failover (up_id p) (up_name p) (up_provider_type p) (up_enabled p)
        (up_priority p) (up_weight p) (up_supports_include_usage p) (up_websocket_enabled p)
        (up_beta_features p) (up_request_overrides p) (up_key_selection_strategy p) (up_max_attempts p)
        (up_max_concurrency p) (up_circuit_breaker_enabled p) (up_circuit_breaker_failure_threshold p)
        (up_circuit_breaker_open_ms p) (up_circuit_breaker_half_open_success_threshold p)
  end.

(** [load_snapshot] once the rows are read. *)
Definition build_snapshot (r : Rows D) (now_ms : Z) : UpstreamSnapshot D :=
  let prices := ro_prices r in
  rebuild_model_registry_ids
    (MkSnapshot (map (with_options (ro_request_options r)) (ro_providers r))
       (ro_route_policies r)
       (group_by_key uk_provider_id (ro_upstream_keys r))
       (group_by_key ue_provider_id (ro_endpoints r))
       (ro_groups_by_provider r)
       (index_by mr_model_name id (ro_routes r))
       (index_by2 pm_provider_id pm_upstream_model model_state (ro_provider_models r))
       (alias_index (ro_provider_models r))
       (index_by ma_name id (ro_model_aliases r))
       (sort_by target_leb <$> group_by_key at_alias_id (ro_model_alias_targets r))
       (index_by2 km_upstream_key_id km_model_name km_enabled (ro_key_models r))
       (list_to_set (map mp_model_name (List.filter (λ p, negb (mp_enabled p)) (ro_gateway_model_policies r))))
       (index_by fst snd (ro_codex_accounts r))
       []
       (index_by2 (λ row, unwrap_or (mp_provider_id row) 0) mp_price_model_name price_version
          (List.filter (λ row, is_some (mp_provider_id row)) prices))
       (index_by mp_price_model_name price_version
          (List.filter (λ row, is_none (mp_provider_id row)) prices)))
    now_ms.
End Load.

(** ** Rows and maps *)
Section Maps.
Context {K : Type} `{Countable K}.

Definition with_key {V} (key : V → K) (k : K) : list V → list V :=
  List.filter (λ row, bool_decide (key row = k)).

Lemma filter_snoc {A} (f : A → bool) l x :
  List.filter f (l ++ [x]) = List.filter f l ++ (if f x then [x] else []).
Proof. rewrite List.filter_app /=. by destruct (f x). Qed.

Lemma with_key_snoc {V} (key : V → K) k rows row :
  with_key key k (rows ++ [row]) = with_key key k rows ++ (if decide (key row = k) then [row] else []).
Proof.
  unfold with_key. rewrite filter_snoc. f_equal. case_decide as E.
  - by rewrite bool_decide_eq_true_2.
  - by rewrite bool_decide_eq_false_2.
Qed.

Lemma group_by_key_lookup {V} (key : V → K) rows k :
  unwrap_or (group_by_key key rows !! k) [] = with_key key k rows.
Proof.
  unfold group_by_key. induction rows as [|row rows IH] using rev_ind; [by rewrite lookup_empty|].
  rewrite foldl_app with_key_snoc /= /push_entry lookup_insert. destruct (decide (key row = k)) as [->|Hne]; [by rewrite -IH|].
  by rewrite app_nil_r -IH.
Qed.

Lemma index_by_lookup {A V} (key : A → K) (value : A → V) rows k :
  index_by key value rows !! k = option_map value (last (with_key key k rows)).
Proof.
  unfold index_by. induction rows as [|row rows IH] using rev_ind; [by rewrite lookup_empty|].
  rewrite foldl_app with_key_snoc /= lookup_insert.
  destruct (decide (key row = k)); [by rewrite last_snoc|]. by rewrite app_nil_r -IH.
Qed.

Lemma index_by2_lookup {A V} (key : A → K) (key2 : A → string) (value : A → V) rows k k2 :
  (let! m := index_by2 key key2 value rows !! k in m !! k2)
  = option_map value (last (List.filter (λ row, bool_decide (key row = k) && bool_decide (key2 row = k2)) rows)).
Proof.
  unfold index_by2. induction rows as [|row rows IH] using rev_ind; [by rewrite lookup_empty|].
  rewrite foldl_app /= filter_snoc lookup_insert.
  set (m := foldl _ _ rows) in *. clearbody m.
  rewrite (_ : bool_decide (key row = k) = if decide (key row = k) then true else false); [|done].
  rewrite (_ : bool_decide (key2 row = k2) = if decide (key2 row = k2) then true else false); [|done].
  destruct (decide (key row = k)) as [Hk|Hne]; simpl; [|by rewrite app_nil_r -IH].
  rewrite lookup_insert. destruct (decide (key2 row = k2)); [by rewrite last_snoc|].
  rewrite Hk app_nil_r -IH. destruct (m !! k); simpl; [done|]. by rewrite lookup_empty.
Qed.
End Maps.

Lemma target_leb_true a b : target_leb a b = true ↔
  at_priority a < at_priority b ∨ at_priority a = at_priority b ∧
    (at_weight b < at_weight a ∨ at_weight a = at_weight b ∧ at_id a <= at_id b).
Proof.
  unfold target_leb. rewrite orb_true_iff andb_true_iff Z.ltb_lt Z.eqb_eq lex_leb_true /=. lia.
Qed.

Lemma target_leb_total a b : target_leb a b = false → target_leb b a = true.
Proof. intros E. apply target_leb_true. pose proof (target_leb_true a b) as Hb. rewrite E in Hb. lia. Qed.

Lemma target_leb_trans a b c : target_leb a b = true → target_leb b c = true → target_leb a c = true.
Proof. rewrite !target_leb_true. lia. Qed.

(** ** Sets as sorted lists *)
Lemma btree_insert_elem x y l : y ∈ btree_insert x l ↔ y = x ∨ y ∈ l.
Proof.
  induction l as [|z l IH]; simpl; [set_solver|].
  destruct (String.eqb_spec z x) as [->|]; [set_solver|]. destruct (str_leb x z); set_solver.
Qed.

Lemma foldl_btree_elem xs acc y : y ∈ foldl (λ ids x, btree_insert x ids) acc xs ↔ y ∈ xs ∨ y ∈ acc.
Proof.
  revert acc. induction xs as [|x xs IH]; intros acc; simpl; [set_solver|].
  rewrite IH btree_insert_elem. set_solver.
Qed.

Lemma btree_insert_ne x l : btree_insert x l ≠ [].
Proof. destruct l as [|y l]; simpl; [done|]. by destruct (String.eqb y x), (str_leb x y). Qed.

Lemma str_compare_trans a b c :
  String.compare a b = Lt → String.compare b c = Lt → String.compare a c = Lt.
Proof.
  revert b c. induction a as [|x a IH]; intros [|y b] [|z c]; simpl; try done.
  unfold Ascii.compare. destruct (N.compare_spec (N_of_ascii x) (N_of_ascii y)) as [E1|E1|E1]; try done;
    destruct (N.compare_spec (N_of_ascii y) (N_of_ascii z)) as [E2|E2|E2]; try done; intros H1 H2.
  - rewrite E1 E2 N.compare_refl. by eapply IH.
  - by rewrite (proj2 (N.compare_lt_iff _ _)); [|lia].
  - by rewrite (proj2 (N.compare_lt_iff _ _)); [|lia].
  - by rewrite (proj2 (N.compare_lt_iff _ _)); [|lia].
Qed.

(** Strictly increasing. *)
Abbreviation str_sorted := (StronglySorted (λ a b, String.compare a b = Lt)).

Lemma btree_insert_sorted x l : str_sorted l → str_sorted (btree_insert x l).
Proof.
  induction 1 as [|y l Hs IH Hall]; simpl; [by repeat constructor|].
  destruct (String.eqb_spec y x) as [->|Hne]; [by constructor|].
  destruct (str_leb x y) eqn:E.
  - assert (String.compare x y = Lt) as Hxy.
    { unfold str_leb in E. destruct (String.compare x y) eqn:Ec; try done.
      by apply String.compare_eq_iff in Ec as ->. }
    constructor; [by constructor|]. constructor; [done|].
    eapply Forall_impl; [exact Hall|]. intros z Hz. by eapply str_compare_trans.
  - constructor; [done|]. apply Forall_forall. intros z Hz. apply btree_insert_elem in Hz as [->|Hz].
    + apply str_leb_total in E. unfold str_leb in E. destruct (String.compare y x) eqn:Ec; try done.
      by apply String.compare_eq_iff in Ec.
    + by eapply Forall_forall in Hall.
Qed.

Lemma foldl_btree_sorted xs acc : str_sorted acc → str_sorted (foldl (λ ids x, btree_insert x ids) acc xs).
Proof. revert acc. induction xs as [|x xs IH]; intros acc Hs; simpl; [done|]. by apply IH, btree_insert_sorted. Qed.

(** ** What the snapshot holds *)
Lemma filter_filter_andb {A} (f g : A → bool) l :
  List.filter f (List.filter g l) = List.filter (λ x, g x && f x) l.
Proof. induction l as [|x l IH]; simpl; [done|]. destruct (g x); simpl; [by rewrite IH|done]. Qed.

Lemma filter_ext_bool {A} (f g : A → bool) l : (∀ x, f x = g x) → List.filter f l = List.filter g l.
Proof. intros E. induction l as [|x l IH]; simpl; [done|]. by rewrite E IH. Qed.

Section SnapshotFacts.
Context {D : Type}.
Implicit Types s : UpstreamSnapshot D.

Definition price_row (provider : option Z) (model : string) (row : ModelPrice D) : bool :=
  bool_decide (mp_provider_id row = provider) && bool_decide (mp_price_model_name row = model).

Lemma provider_price_rows p m (rows : list (ModelPrice D)) :
  List.filter (λ row, bool_decide (unwrap_or (mp_provider_id row) 0 = p) && bool_decide (mp_price_model_name row = m))
    (List.filter (λ row, is_some (mp_provider_id row)) rows) = List.filter (price_row (Some p) m) rows.
Proof.
  rewrite filter_filter_andb. apply filter_ext_bool. intros row. unfold price_row.
  destruct (mp_provider_id row) as [q|]; cbn [is_some unwrap_or andb];
    [|by rewrite (bool_decide_eq_false_2 (None = Some p))].
  f_equal. apply bool_decide_ext. naive_solver.
Qed.

Lemma global_price_rows m (rows : list (ModelPrice D)) :
  with_key mp_price_model_name m (List.filter (λ row, is_none (mp_provider_id row)) rows)
  = List.filter (price_row None m) rows.
Proof.
  unfold with_key. rewrite filter_filter_andb. apply filter_ext_bool. intros row. unfold price_row, is_none.
  by destruct (mp_provider_id row).
Qed.

(** The snapshot is the rows, regrouped: a provider's keys and endpoints are its
    rows in their order, an alias's targets are its rows by priority, weight and id,
    the state of a model and a price are those of the last matching row (a
    provider's own price before the global one), and a model is disabled globally
    exactly when a policy row says so. *)
Theorem snapshot_of_rows (r : Rows D) now :
  let s := build_snapshot r now in
  (∀ p, unwrap_or (sn_keys_by_provider s !! p) [] = with_key uk_provider_id p (ro_upstream_keys r))
  ∧ (∀ p, unwrap_or (sn_endpoints_by_provider s !! p) [] = with_key ue_provider_id p (ro_endpoints r))
  ∧ (∀ a, let targets := unwrap_or (sn_alias_targets_by_alias s !! a) [] in
       targets ≡ₚ with_key at_alias_id a (ro_model_alias_targets r)
       ∧ StronglySorted (λ x y, target_leb x y = true) targets)
  ∧ (∀ p m, provider_model_state s p m = option_map model_state (last (List.filter
       (λ row, bool_decide (pm_provider_id row = p) && bool_decide (pm_upstream_model row = m))
       (ro_provider_models r))))
  ∧ (∀ p m, find_price s p m = option_map price_version
       (opt_or (last (List.filter (price_row (Some p) m) (ro_prices r)))
               (last (List.filter (price_row None m) (ro_prices r)))))
  ∧ (∀ m, is_model_globally_enabled s m = false ↔
       ∃ policy, policy ∈ ro_gateway_model_policies r ∧ mp_model_name policy = m ∧ mp_enabled policy = false).
Proof.
  intros s. split_and!.
  - intros p. apply group_by_key_lookup.
  - intros p. apply group_by_key_lookup.
  - intros a. cbv zeta. change (sn_alias_targets_by_alias s)
      with (sort_by target_leb <$> group_by_key at_alias_id (ro_model_alias_targets r)).
    rewrite lookup_fmap -(group_by_key_lookup at_alias_id).
    destruct (group_by_key at_alias_id _ !! a) as [l|]; simpl; [|split; [done|constructor]].
    split; [apply sort_by_perm|]. apply sort_by_sorted; [apply target_leb_total|apply target_leb_trans].
  - intros p m. apply (index_by2_lookup pm_provider_id pm_upstream_model).
  - intros p m. unfold find_price.
    change (sn_provider_prices_by_model s) with (index_by2 (λ row, unwrap_or (mp_provider_id row) 0)
      mp_price_model_name price_version (List.filter (λ row, is_some (mp_provider_id row)) (ro_prices r))).
    change (sn_global_prices_by_model s) with (index_by mp_price_model_name price_version
      (List.filter (λ row, is_none (mp_provider_id row)) (ro_prices r))).
    rewrite index_by2_lookup index_by_lookup provider_price_rows global_price_rows.
    by destruct (last (List.filter (price_row (Some p) m) _)).
  - intros m. unfold is_model_globally_enabled. rewrite negb_false_iff bool_decide_eq_true.
    change (sn_globally_disabled_models s) with (list_to_set (C := gset string) (map mp_model_name
      (List.filter (λ p, negb (mp_enabled p)) (ro_gateway_model_policies r)))).
    rewrite elem_of_list_to_set list_elem_of_In in_map_iff. setoid_rewrite List.filter_In.
    setoid_rewrite negb_true_iff. setoid_rewrite list_elem_of_In. naive_solver.
Qed.

(** ** Prices of past requests *)
Lemma common_price_spec eff models common r :
  common_price (D := D) eff models common = Some r →
  (∀ existing, common = Some existing → r = Some existing
     ∧ ∀ m, m ∈ models → price_id (eff m) = price_id existing)
  ∧ (common = None → match models with
       | [] => r = None
       | m0 :: _ => r = Some (eff m0) ∧ ∀ m, m ∈ models → price_id (eff m) = price_id (eff m0)
       end).
Proof.
  revert common. induction models as [|m0 models IH]; intros common; simpl.
  { intros [= ->]. split; [|done]. intros existing ->. split; [done|]. set_solver. }
  destruct common as [existing|].
  - case_bool_decide as Hid; [|done]. intros Hr. destruct (IH _ Hr) as [H1 _]. split; [|done].
    intros ex [= <-]. destruct (H1 existing eq_refl) as [-> H2]. split; [done|].
    intros m [->|Hm]%elem_of_cons; [done|by apply H2].
  - intros Hr. destruct (IH _ Hr) as [H1 _]. split; [done|]. intros _.
    destruct (H1 _ eq_refl) as [-> H2]. split; [done|]. intros m [->|Hm]%elem_of_cons; [done|by apply H2].
Qed.

Lemma common_price_None eff models common :
  common_price (D := D) eff models common = None →
  ∃ m m', (m ∈ models ∨ common = Some (eff m) ∨ ∃ e, common = Some e ∧ price_id e ≠ price_id (eff m'))
          ∧ m' ∈ models ∧ (price_id (eff m) ≠ price_id (eff m') ∨ ∃ e, common = Some e ∧ price_id e ≠ price_id (eff m')).
Proof.
  revert common. induction models as [|m0 models IH]; intros common; simpl; [done|].
  destruct common as [existing|].
  - case_bool_decide as Hid.
    + intros Hr. destruct (IH _ Hr) as (m & m' & H1 & H2 & H3). exists m, m'. set_solver.
    + intros _. exists m0, m0. split; [by left; left|]. split; [by left|]. right. eauto.
  - intros Hr. destruct (IH _ Hr) as (m & m' & H1 & H2 & H3).
    destruct H3 as [H3|(e & [= <-] & H3)].
    + destruct H1 as [H1|[[= E]|(e & [= <-] & H1)]].
      * exists m, m'. set_solver.
      * exists m0, m'. split; [by left; left|]. split; [by right|]. left. by rewrite E.
      * exists m0, m'. split; [by left; left|]. split; [by right|]. by left.
    + exists m0, m'. split; [by left; left|]. split; [by right|]. by left.
Qed.

Lemma historical_models_nonempty s p m : historical_models s p m ≠ [].
Proof. unfold historical_models. cbv zeta. by destruct (is_empty _) eqn:E; [|intros E'; rewrite E' in E]. Qed.

(** A past request is charged only when its price is certain: the price found is
    the effective price of every upstream model its name may have stood for, and no
    price is returned only when two of them are priced differently or none is
    priced. *)
Theorem historical_price_certain s p m :
  let effective x := opt_or (find_price s p x) (find_price s p m) in
  match find_price_for_historical_request s p m with
  | Some price => ∀ x, x ∈ historical_models s p m → price_id (effective x) = Some (pv_id price)
  | None => (∃ x y, x ∈ historical_models s p m ∧ y ∈ historical_models s p m
               ∧ price_id (effective x) ≠ price_id (effective y))
            ∨ ∀ x, x ∈ historical_models s p m → effective x = None
  end.
Proof.
  intros effective. unfold find_price_for_historical_request. fold effective.
  pose proof (historical_models_nonempty s p m) as Hne.
  destruct (common_price effective (historical_models s p m) None) as [common|] eqn:E; cbn [opt_bind].
  - destruct (common_price_spec _ _ _ _ E) as [_ Hs]. specialize (Hs eq_refl).
    destruct (historical_models s p m) as [|m0 l]; [done|]. destruct Hs as [-> Hs]. cbn [unwrap_or].
    destruct (effective m0) as [price|] eqn:Em; cbn [opt_or].
    + intros x Hx. by rewrite Hs.
    + assert (find_price s p m = None) as Hn.
      { unfold effective in Em. destruct (find_price s p m0); [done|exact Em]. }
      rewrite Hn. right. intros x Hx. specialize (Hs x Hx).
      rewrite /= in Hs. destruct (effective x); [done|done].
  - left. destruct (common_price_None _ _ _ E) as (x & y & Hx & Hy & Hxy).
    exists x, y. naive_solver.
Qed.

(** ** The model registry *)

(** An enabled provider can serve a model: active, enabled globally, with a key that
    may use it. *)
Definition serves s (now : Z) (p : UpstreamProvider) (m : string) : Prop :=
  p ∈ sn_providers s ∧ up_enabled p = true
  ∧ (∃ st, provider_model_state s (up_id p) m = Some st ∧ is_active st = true)
  ∧ is_model_globally_enabled s m = true
  ∧ ∃ keys key, sn_keys_by_provider s !! up_id p = Some keys ∧ key ∈ keys ∧ key_serves s p m now key = true.

Definition served_by_id s (now : Z) (provider_id : Z) (m : string) : Prop :=
  ∃ p, up_id p = provider_id ∧ serves s now p m.

Definition listed s (now : Z) (x : string) : Prop :=
  (∃ p, serves s now p x)
  ∨ (∃ n alias targets target, sn_model_aliases_by_name s !! n = Some alias ∧ ma_name alias = x
       ∧ ma_enabled alias = true ∧ is_model_globally_enabled s x = true
       ∧ sn_alias_targets_by_alias s !! ma_id alias = Some targets ∧ target ∈ targets
       ∧ at_enabled target = true ∧ is_model_globally_enabled s (at_upstream_model target) = true
       ∧ served_by_id s now (at_provider_id target) (at_upstream_model target))
  ∨ (∃ target, sn_alias_to_provider_model s !! x = Some target
       ∧ pa_enabled target = true ∧ is_model_globally_enabled s x = true
       ∧ is_model_globally_enabled s (pa_upstream_model target) = true
       ∧ served_by_id s now (pa_provider_id target) (pa_upstream_model target)).

Lemma existsb_elem {A} (f : A → bool) l : existsb f l = true ↔ ∃ x, x ∈ l ∧ f x = true.
Proof. rewrite existsb_exists. by setoid_rewrite list_elem_of_In. Qed.

#[local] Opaque is_active key_serves is_model_globally_enabled.

Lemma active_models_spec s now p m :
  p ∈ List.filter up_enabled (sn_providers s) → m ∈ active_models s now p ↔ serves s now p m.
Proof.
  intros [Hp He]%list_elem_of_In%List.filter_In%(conj I)%proj2. apply list_elem_of_In in Hp.
  unfold serves, active_models, provider_model_state.
  destruct (sn_provider_models_by_provider s !! up_id p) as [models|] eqn:Em; cbn [opt_bind];
    [|by split; [intros ?%elem_of_nil|intros (_ & _ & (? & ? & _) & _)]].
  destruct (sn_keys_by_provider s !! up_id p) as [keys|] eqn:Ek;
    [|by split; [intros ?%elem_of_nil|intros (_ & _ & _ & _ & ? & ? & ? & _)]].
  rewrite list_elem_of_In in_map_iff. setoid_rewrite List.filter_In. setoid_rewrite <- list_elem_of_In.
  setoid_rewrite andb_true_iff. setoid_rewrite andb_true_iff. setoid_rewrite existsb_elem. split.
  - intros ([m' st] & <- & Hin & [Ha Hg] & key & Hk & Hs). apply elem_of_map_to_list in Hin. cbn [fst snd] in *.
    split_and!; [done|done|by exists st|done|by exists keys, key].
  - intros (_ & _ & (st & Hst & Ha) & Hg & keys' & key & [= <-] & Hk & Hs).
    exists (m, st). split; [done|]. split; [by apply elem_of_map_to_list|]. split; [done|by exists key].
Qed.

Lemma active_targets_spec s now pid m : (pid, m) ∈ active_targets s now ↔ served_by_id s now pid m.
Proof.
  unfold active_targets, served_by_id. rewrite elem_of_list_to_set list_elem_of_In in_flat_map.
  setoid_rewrite in_map_iff. split.
  - intros (p & Hp & m' & [= <- <-] & Hm). exists p. split; [done|].
    apply list_elem_of_In in Hp, Hm. by apply active_models_spec in Hm.
  - intros (p & <- & Hs). assert (p ∈ List.filter up_enabled (sn_providers s)) as Hp.
    { apply list_elem_of_In, List.filter_In. rewrite -list_elem_of_In. split; apply Hs. }
    exists p. split; [by apply list_elem_of_In|]. exists m. split; [done|].
    by apply list_elem_of_In, active_models_spec.
Qed.

Lemma alias_listed_spec s now alias :
  alias_listed s (active_targets s now) alias = true ↔
  ma_enabled alias = true ∧ is_model_globally_enabled s (ma_name alias) = true ∧
  ∃ targets target, sn_alias_targets_by_alias s !! ma_id alias = Some targets ∧ target ∈ targets
    ∧ at_enabled target = true ∧ is_model_globally_enabled s (at_upstream_model target) = true
    ∧ served_by_id s now (at_provider_id target) (at_upstream_model target).
Proof.
  unfold alias_listed. rewrite !andb_true_iff is_some_and_true. setoid_rewrite existsb_elem.
  setoid_rewrite andb_true_iff. setoid_rewrite andb_true_iff. setoid_rewrite bool_decide_eq_true.
  setoid_rewrite active_targets_spec. naive_solver.
Qed.

Lemma alias_target_listed_spec s now alias target :
  alias_target_listed s (active_targets s now) alias target = true ↔
  pa_enabled target = true ∧ is_model_globally_enabled s alias = true
  ∧ is_model_globally_enabled s (pa_upstream_model target) = true
  ∧ served_by_id s now (pa_provider_id target) (pa_upstream_model target).
Proof.
  unfold alias_target_listed. rewrite !andb_true_iff bool_decide_eq_true active_targets_spec. naive_solver.
Qed.

Lemma elem_of_map_filter {A B} (f : A → B) (g : A → bool) l y :
  y ∈ map f (List.filter g l) ↔ ∃ x, f x = y ∧ x ∈ l ∧ g x = true.
Proof.
  rewrite list_elem_of_In in_map_iff. setoid_rewrite List.filter_In. by setoid_rewrite <- list_elem_of_In.
Qed.

Lemma served_models_spec s now x :
  x ∈ flat_map (active_models s now) (List.filter up_enabled (sn_providers s)) ↔ ∃ p, serves s now p x.
Proof.
  rewrite list_elem_of_In in_flat_map. setoid_rewrite <- list_elem_of_In. split.
  - intros (p & Hp & Hm). exists p. by apply active_models_spec in Hm.
  - intros (p & Hs). assert (p ∈ List.filter up_enabled (sn_providers s)) as Hp.
    { apply list_elem_of_In, List.filter_In. rewrite -list_elem_of_In. split; apply Hs. }
    exists p. split; [done|]. by apply active_models_spec.
Qed.

(** The model list is exact: it is sorted without duplicates and contains a name
    exactly when an enabled provider can serve it now, directly or through an
    enabled alias, and neither the name nor the model behind it is disabled
    globally. *)
Theorem registry_lists_servable s now :
  let ids := sn_model_registry_ids (rebuild_model_registry_ids s now) in
  StronglySorted (λ a b, String.compare a b = Lt) ids ∧ ∀ x, x ∈ ids ↔ listed s now x.
Proof.
  split; [apply foldl_btree_sorted; constructor|]. intros x. simpl.
  rewrite foldl_btree_elem elem_of_nil right_id. unfold registry_names, listed. cbv zeta.
  rewrite !elem_of_app served_models_spec !elem_of_map_filter. split.
  - intros [H|[([n alias] & <- & Hin & Hl)|([n target] & <- & Hin & Hl)]]; [by left| |];
      apply elem_of_map_to_list in Hin; right.
    + left. apply alias_listed_spec in Hl as (H1 & H2 & targets & target & H3).
      by exists n, alias, targets, target.
    + right. apply alias_target_listed_spec in Hl. by exists target.
  - intros [H|[(n & alias & targets & target & Hin & <- & H1 & H2 & H3)|(target & Hin & H)]]; [by left| |]; right.
    + left. exists (n, alias). split; [done|]. split; [by apply elem_of_map_to_list|].
      apply alias_listed_spec. split_and!; [done|done|by exists targets, target].
    + right. exists (x, target). split; [done|]. split; [by apply elem_of_map_to_list|].
      by apply alias_target_listed_spec.
Qed.
End SnapshotFacts.

(** ** OAuth accounts *)

Lemma blocked_until_Some q now u :
  blocked_until_ms q now = Some u →
  now < u ∧ (∀ t, t < u → is_some (blocked_until_ms q t) = true)
  ∧ (∀ t, now <= t → u <= t → blocked_until_ms q t = None).
Proof.
  unfold blocked_until_ms. set (resets := omap _ _). clearbody resets. intros Hu.
  apply max_opt_Some in Hu as [Hin Hmax].
  apply list_elem_of_In, List.filter_In in Hin as [Hin Hlt]. apply Z.ltb_lt in Hlt.
  split_and!; [done| |].
  - intros t Ht. destruct (max_opt (List.filter (λ reset, t <? reset) resets)) eqn:E; [done|].
    assert (u ∈ List.filter (λ reset, t <? reset) resets) as H.
    { apply list_elem_of_In, List.filter_In. split; [done|]. apply Z.ltb_lt. lia. }
    destruct (List.filter (λ reset, t <? reset) resets); [by apply elem_of_nil in H|done].
  - intros t Hnt Ht. assert (List.filter (λ reset, t <? reset) resets = []) as ->; [|done].
    destruct (List.filter (λ reset, t <? reset) resets) as [|r l] eqn:E; [done|]. exfalso.
    assert (r ∈ List.filter (λ reset, t <? reset) resets) as Hr by (rewrite E; by left).
    apply list_elem_of_In, List.filter_In in Hr as [Hr Htr]. apply Z.ltb_lt in Htr.
    assert (r <= u); [|lia]. apply Hmax. apply list_elem_of_In, List.filter_In. split; [done|]. apply Z.ltb_lt. lia.
Qed.

(** An OAuth account rests exactly until its quota resets: while an exhausted
    window has its reset ahead the account takes no requests, up to the last of
    those resets; from then on it does, unless it is refused without a reset. *)
Theorem oauth_quota_recovers a q u now t :
  ra_quota a = Some q → ra_auth_status a = AUTH_STATUS_ACTIVE → blocked_until_ms q now = Some u →
  now < u
  ∧ (now <= t < u → is_routable a t = false)
  ∧ (u <= t → is_routable a t = negb (is_exhausted_without_reset q)).
Proof.
  intros Hq Ha Hu. unfold is_routable. rewrite Hq Ha String.eqb_refl. cbn [negb].
  destruct (blocked_until_Some _ _ _ Hu) as (H1 & H2 & H3). split_and!; [done| |]; intros Ht.
  - unfold is_none. by rewrite H2; [|lia].
  - by rewrite H3; [|lia|lia].
Qed.

Definition wq_window (reset : Z) : CodexQuotaWindow :=
  MkWindow (f64_of_Z 100) (f64_of_Z 0) (Some 18000) (Some reset).
Definition wq_account : CodexOAuthRoutingAccount :=
  MkRoutingAccount AUTH_STATUS_ACTIVE (Some (MkQuota (Some "plus") (Some false) (Some (wq_window 5000))
    (Some (wq_window 9000)) None (MkCredits false false None None None))).

Lemma oauth_quota_recovers_witness :
  is_routable wq_account 8999 = false ∧ is_routable wq_account 9000 = true.
Proof.
  destruct wq_account as [st [q|]] eqn:E; [|discriminate E].
  pose proof (oauth_quota_recovers wq_account q 9000 1000) as H. injection E as <- <-.
  split.
  - refine (proj1 (proj2 (H 8999 eq_refl eq_refl _)) _); [vm_compute; reflexivity|lia].
  - exact (proj2 (proj2 (H 9000 eq_refl eq_refl ltac:(vm_compute; reflexivity))) ltac:(lia)).
Defined.
