(* ===== verification/RoutingAvailability.v ===== *)
(** * RoutingAvailability: can an account take requests now, and if not, when

    Models [routing_availability.rs] over the shared state of [state.rs]: the books
    of the components a decision reads. Reading a quota drops what has expired, so
    [account] returns the state. *)
From Stdlib Require Import Ascii String.
From S2P Require Import Prelude Text Json ProbeProtocol Types RuntimeHealth ProviderRuntime Quota KeyRotation Affinity Pricing Snapshot.

Local Open Scope string_scope.
Local Open Scope list_scope.
Local Open Scope Z_scope.

Record SharedState := MkShared {
  ss_quota : QuotaBook;
  ss_provider_runtime : ProviderRuntimeBook;
  ss_endpoint_health : RuntimeHealthBook;
  ss_upstream_key_health : RuntimeHealthBook;
  ss_key_rotation : KeyRotationBook;
  ss_affinity : AffinityBook
}.

Definition set_ss_quota (q : QuotaBook) (s : SharedState) : SharedState :=
  MkShared q (ss_provider_runtime s) (ss_endpoint_health s) (ss_upstream_key_health s)
    (ss_key_rotation s) (ss_affinity s).
Definition set_ss_provider_runtime (r : ProviderRuntimeBook) (s : SharedState) : SharedState :=
  MkShared (ss_quota s) r (ss_endpoint_health s) (ss_upstream_key_health s)
    (ss_key_rotation s) (ss_affinity s).
Definition set_ss_endpoint_health (h : RuntimeHealthBook) (s : SharedState) : SharedState :=
  MkShared (ss_quota s) (ss_provider_runtime s) h (ss_upstream_key_health s)
    (ss_key_rotation s) (ss_affinity s).
Definition set_ss_upstream_key_health (h : RuntimeHealthBook) (s : SharedState) : SharedState :=
  MkShared (ss_quota s) (ss_provider_runtime s) (ss_endpoint_health s) h
    (ss_key_rotation s) (ss_affinity s).
Definition set_ss_key_rotation (k : KeyRotationBook) (s : SharedState) : SharedState :=
  MkShared (ss_quota s) (ss_provider_runtime s) (ss_endpoint_health s) (ss_upstream_key_health s)
    k (ss_affinity s).
Definition set_ss_affinity (a : AffinityBook) (s : SharedState) : SharedState :=
  MkShared (ss_quota s) (ss_provider_runtime s) (ss_endpoint_health s) (ss_upstream_key_health s)
    (ss_key_rotation s) a.

Record RoutingAvailability := MkAvailability {
  av_available : bool;
  av_reason : option string;
  av_retry_at_ms : option Z
}.

Definition unavailable (reason : string) : RoutingAvailability := MkAvailability false (Some reason) None.
Definition available : RoutingAvailability := MkAvailability true None None.

Section Availability.
Context {D : Type}.
Implicit Types snap : UpstreamSnapshot D.
Implicit Types s : SharedState.

(** The closure [allows] of [account]. *)
Definition account_allows snap (provider : UpstreamProvider) (key : UpstreamKey) (name : string) : bool :=
  key_allows_model snap (uk_id key) name
  && is_model_globally_enabled snap name
  && is_none_or (sn_provider_models_by_provider snap !! up_id provider)
       (λ models, is_some_and (models !! name) is_active)
  && is_none_or (sn_routes_by_model snap !! name) (λ route,
       negb (mr_enabled route) || is_empty (mr_provider_ids route)
       || existsb (Z.eqb (up_id provider)) (mr_provider_ids route)).

Definition model_available snap (provider : UpstreamProvider) (key : UpstreamKey) (model : option string) : bool :=
  match model with
  | Some name => account_allows snap provider key name
  | None =>
      match sn_provider_models_by_provider snap !! up_id provider with
      | Some models => existsb (λ nm, account_allows snap provider key nm.1) (map_to_list models)
      | None =>
          is_none_or (sn_key_models_by_key snap !! uk_id key) (λ models,
            (size models =? 0)%nat || existsb (λ nm, account_allows snap provider key nm.1) (map_to_list models))
      end
  end.

(** The tests of an OAuth account that precede the quota. *)
Definition oauth_refusal snap (provider : UpstreamProvider) (key : UpstreamKey) (now : Z) : option string :=
  if String.eqb (up_provider_type provider) OAUTH_PROVIDER_TYPE then
    match sn_codex_oauth_by_key snap !! uk_id key with
    | None => Some "reauth_required"
    | Some account =>
        if negb (String.eqb (ra_auth_status account) AUTH_STATUS_ACTIVE) then
          Some (if String.eqb (ra_auth_status account) AUTH_STATUS_FORBIDDEN
                then "account_forbidden" else "reauth_required")
        else if negb (is_routable account now) then Some "quota_unavailable"
        else None
    end
  else None.

(** The tests after the quota. *)
Definition path_refusal s snap (provider : UpstreamProvider) (key : UpstreamKey) (model : option string)
    (owns_capacity : bool) (now : Z) : option string :=
  if negb (model_available snap provider key model) then Some "no_allowed_models"
  else
    let runtime := ProviderRuntime.snapshot (ss_provider_runtime s) provider now in
    if bool_decide (pv_state runtime = Open) then Some "provider_circuit_open"
    else if negb owns_capacity && negb (pv_available runtime) then
      Some (if bool_decide (pv_state runtime = HalfOpen)
            then "recovery_probe_in_progress" else "provider_capacity_exhausted")
    else if negb (hv_available (RuntimeHealth.snapshot (ss_upstream_key_health s) (uk_id key) now)) then
      Some "account_unhealthy"
    else if negb (is_some_and (sn_endpoints_by_provider snap !! up_id provider) (existsb (λ endpoint,
              ue_enabled endpoint
              && hv_available (RuntimeHealth.snapshot (ss_endpoint_health s) (ue_id endpoint) now)))) then
      Some "no_available_endpoint"
    else None.

Definition account s snap (provider : UpstreamProvider) (key : UpstreamKey) (model : option string)
    (owns_capacity : bool) (now : Z) : RoutingAvailability * SharedState :=
  if negb (up_enabled provider) then (unavailable "provider_disabled", s)
  else if negb (uk_enabled key) then (unavailable "account_disabled", s)
  else match oauth_refusal snap provider key now with
       | Some reason => (unavailable reason, s)
       | None =>
           let '(quota_ok, quota) := is_available (ss_quota s) (uk_id key) now in
           let s := set_ss_quota quota s in
           if negb quota_ok then (unavailable "quota_unavailable", s)
           else match path_refusal s snap provider key model owns_capacity now with
                | Some reason => (unavailable reason, s)
                | None => (available, s)
                end
       end.

(** The instant until which the keys' path through a provider is blocked. *)
Definition key_blocked_until s snap (provider : UpstreamProvider) (endpoint_at now : Z) (key : UpstreamKey)
    : option Z * SharedState :=
  let runtime := ProviderRuntime.snapshot (ss_provider_runtime s) provider now in
  let health := RuntimeHealth.snapshot (ss_upstream_key_health s) (uk_id key) now in
  let '(quota, book) := quota_snapshot (ss_quota s) (uk_id key) now in
  (max_opt (option_list (pv_open_until_ms runtime) ++ option_list (hv_open_until_ms health)
     ++ option_list (qv_cooldown_until_ms quota) ++ option_list (Quota.blocked_until_ms quota)
     ++ option_list (let! account := sn_codex_oauth_by_key snap !! uk_id key in
                     let! quota := ra_quota account in Snapshot.blocked_until_ms quota now)
     ++ [endpoint_at]),
   set_ss_quota book s).

Fixpoint keys_blocked_until s snap (provider : UpstreamProvider) (endpoint_at now : Z) (keys : list UpstreamKey)
    : list Z * SharedState :=
  match keys with
  | [] => ([], s)
  | key :: keys' =>
      let '(until, s) := key_blocked_until s snap provider endpoint_at now key in
      let '(rest, s) := keys_blocked_until s snap provider endpoint_at now keys' in
      (option_list until ++ rest, s)
  end.

(** When the first enabled endpoint is open again: now, unless its circuit is open. *)
Definition endpoint_open_at s (now : Z) (endpoint : UpstreamEndpoint) : Z :=
  unwrap_or (hv_open_until_ms (RuntimeHealth.snapshot (ss_endpoint_health s) (ue_id endpoint) now)) now.

Definition retry_keys snap (model : option string) (keys : list UpstreamKey) : list UpstreamKey :=
  List.filter (λ key, uk_enabled key && is_none_or model (λ name, key_allows_model snap (uk_id key) name)) keys.

Definition provider_retry_at s snap (provider : UpstreamProvider) (model : option string) (now : Z)
    : option Z * SharedState :=
  match sn_endpoints_by_provider snap !! up_id provider with
  | None => (None, s)
  | Some endpoints =>
      match min_opt (map (endpoint_open_at s now) (List.filter ue_enabled endpoints)) with
      | None => (None, s)
      | Some endpoint_at =>
          match sn_keys_by_provider snap !! up_id provider with
          | None => (None, s)
          | Some keys =>
              let '(untils, s) := keys_blocked_until s snap provider endpoint_at now (retry_keys snap model keys) in
              (opt_filter (λ until, now <? until) (min_opt untils), s)
          end
      end
  end.

(** The keys of [provider] in turn: the first available one, or the refusals. *)
Fixpoint try_accounts s snap (provider : UpstreamProvider) (clock : UpstreamKey → Z) (keys : list UpstreamKey)
    (failures : list RoutingAvailability) : (RoutingAvailability + list RoutingAvailability) * SharedState :=
  match keys with
  | [] => (inr failures, s)
  | key :: keys' =>
      let '(status, s) := account s snap provider key None false (clock key) in
      if av_available status then (inl status, s)
      else try_accounts s snap provider clock keys' (if uk_enabled key then failures ++ [status] else failures)
  end.

(** [provider]; the clock is read for every key and again for the retry time. *)
Definition provider_availability s snap (p : UpstreamProvider) (clock : UpstreamKey → Z) (now : Z)
    : RoutingAvailability * SharedState :=
  if negb (up_enabled p) then (unavailable "provider_disabled", s)
  else
    let '(found, s) := try_accounts s snap p clock (unwrap_or (sn_keys_by_provider snap !! up_id p) []) [] in
    match found with
    | inl status => (status, s)
    | inr failures =>
        let result := unwrap_or (head failures) (unavailable "no_available_accounts") in
        let '(retry, s) := provider_retry_at s snap p None now in
        (MkAvailability (av_available result) (av_reason result) retry, s)
    end.

(** One provider of [health_counts]: healthy, degraded, unavailable. *)
Definition count_provider s snap (clock : UpstreamKey → Z) (now : Z) (counts : Z * Z * Z) (item : UpstreamProvider)
    : (Z * Z * Z) * SharedState :=
  let '(healthy, degraded, down) := counts in
  let '(status, s) := provider_availability s snap item clock now in
  (if av_available status then
     if bool_decide (pv_state (ProviderRuntime.snapshot (ss_provider_runtime s) item now) = HalfOpen)
     then (healthy, degraded + 1, down) else (healthy + 1, degraded, down)
   else if is_some_and (av_reason status) (λ r, is_one_of r ["provider_capacity_exhausted"; "recovery_probe_in_progress"])
   then (healthy, degraded + 1, down)
   else (healthy, degraded, down + 1), s).

Definition health_counts s snap (clock : UpstreamKey → Z) (now : Z) : (Z * Z * Z) * SharedState :=
  foldl (λ '(counts, s) item, count_provider s snap clock now counts item) (0, 0, 0, s)
    (List.filter up_enabled (sn_providers snap)).
End Availability.

(** ** When an account is available *)
Section AvailabilityFacts.
Context {D : Type}.
Implicit Types snap : UpstreamSnapshot D.
Implicit Types s : SharedState.

Lemma account_available_iff' s snap p key model owns now :
  av_available (account s snap p key model owns now).1 = true ↔
  up_enabled p = true ∧ uk_enabled key = true
  ∧ (up_provider_type p = OAUTH_PROVIDER_TYPE →
       ∃ a, sn_codex_oauth_by_key snap !! uk_id key = Some a ∧ is_routable a now = true)
  ∧ (is_available (ss_quota s) (uk_id key) now).1 = true
  ∧ model_available snap p key model = true
  ∧ pv_state (ProviderRuntime.snapshot (ss_provider_runtime s) p now) ≠ Open
  ∧ (owns = true ∨ pv_available (ProviderRuntime.snapshot (ss_provider_runtime s) p now) = true)
  ∧ hv_available (RuntimeHealth.snapshot (ss_upstream_key_health s) (uk_id key) now) = true
  ∧ ∃ endpoints e, sn_endpoints_by_provider snap !! up_id p = Some endpoints ∧ e ∈ endpoints
      ∧ ue_enabled e = true ∧ hv_available (RuntimeHealth.snapshot (ss_endpoint_health s) (ue_id e) now) = true.
Proof.
  assert (oauth_refusal snap p key now = None ↔ (up_provider_type p = OAUTH_PROVIDER_TYPE →
    ∃ a, sn_codex_oauth_by_key snap !! uk_id key = Some a ∧ is_routable a now = true)) as Ho.
  { unfold oauth_refusal. destruct (String.eqb_spec (up_provider_type p) OAUTH_PROVIDER_TYPE) as [E|E]; [|by split].
    destruct (sn_codex_oauth_by_key snap !! uk_id key) as [a|]; [|split; [done|intros H; by destruct (H E) as (? & ? & _)]].
    destruct (is_routable a now) eqn:Er.
    - destruct (negb (String.eqb (ra_auth_status a) AUTH_STATUS_ACTIVE)) eqn:Ea.
      + unfold is_routable in Er. by rewrite Ea in Er.
      + cbn [negb]. split; [intros _ _; by exists a|done].
    - destruct (negb _); cbn [negb]; (split; [done|intros H; destruct (H E) as (a' & [= <-] & Hr); by rewrite Hr in Er]). }
  unfold account. destruct (up_enabled p); cbn [negb]; [|by split; [|intros []]].
  destruct (uk_enabled key); cbn [negb]; [|by split; [|intros (_ & ? & _)]].
  destruct (oauth_refusal snap p key now) as [r|].
  { split; [done|]. intros (_ & _ & H & _). by apply Ho in H. }
  destruct (is_available (ss_quota s) (uk_id key) now) as [ok q]. cbn [fst].
  destruct ok; cbn [negb]; [|by split; [|intros (_ & _ & _ & ? & _)]].
  unfold path_refusal. cbn [ss_provider_runtime ss_upstream_key_health ss_endpoint_health set_ss_quota].
  destruct (model_available snap p key model); cbn [negb]; [|by split; [|intros (_ & _ & _ & _ & ? & _)]].
  set (v := ProviderRuntime.snapshot _ p now). case_bool_decide as Hs.
  { split; [done|]. by intros (_ & _ & _ & _ & _ & ? & _). }
  destruct (negb owns && negb (pv_available v)) eqn:Ec.
  { split; [done|]. apply andb_true_iff in Ec as [->%negb_true_iff Ec%negb_true_iff].
    intros (_ & _ & _ & _ & _ & _ & [?|Hv] & _); [done|]. by rewrite Hv in Ec. }
  assert (owns = true ∨ pv_available v = true) as Hc.
  { apply andb_false_iff in Ec as [E%negb_false_iff|E%negb_false_iff]; auto. }
  destruct (hv_available (RuntimeHealth.snapshot (ss_upstream_key_health s) (uk_id key) now)); cbn [negb];
    [|by split; [|intros (_ & _ & _ & _ & _ & _ & _ & ? & _)]].
  destruct (is_some_and _ _) eqn:Ee; cbn [negb fst av_available available unavailable].
  - split; [|done]. intros _. apply is_some_and_true in Ee as (l & Hl & Ee).
    apply existsb_elem in Ee as (e & He & [H1 H2]%andb_true_iff).
    split_and!; try done; [by apply Ho|]. by exists l, e.
  - split; [done|]. intros (_ & _ & _ & _ & _ & _ & _ & _ & l & e & Hl & He & H1 & H2).
    rewrite Hl in Ee. cbn [is_some_and] in Ee. rewrite (proj2 (existsb_elem _ _)) in Ee; [done|].
    exists e. by rewrite H1 H2.
Qed.

(** An account is available exactly when nothing on its path objects: provider
    and key enabled, the OAuth account routable, the quota free, a model to serve,
    the provider's circuit not open and capacity left (or owned), the key healthy
    and some enabled endpoint available. *)
Theorem account_available_iff s snap p key model owns now :
  av_available (account s snap p key model owns now).1 = true ↔
  up_enabled p = true ∧ uk_enabled key = true
  ∧ (up_provider_type p = OAUTH_PROVIDER_TYPE →
       ∃ a, sn_codex_oauth_by_key snap !! uk_id key = Some a ∧ is_routable a now = true)
  ∧ (is_available (ss_quota s) (uk_id key) now).1 = true
  ∧ model_available snap p key model = true
  ∧ pv_state (ProviderRuntime.snapshot (ss_provider_runtime s) p now) ≠ Open
  ∧ (owns = true ∨ pv_available (ProviderRuntime.snapshot (ss_provider_runtime s) p now) = true)
  ∧ hv_available (RuntimeHealth.snapshot (ss_upstream_key_health s) (uk_id key) now) = true
  ∧ ∃ endpoints e, sn_endpoints_by_provider snap !! up_id p = Some endpoints ∧ e ∈ endpoints
      ∧ ue_enabled e = true ∧ hv_available (RuntimeHealth.snapshot (ss_endpoint_health s) (ue_id e) now) = true.
Proof. apply account_available_iff'. Qed.
End AvailabilityFacts.

(** ** When a provider may be tried again *)
Lemma runtime_open_until b p now u :
  pv_open_until_ms (ProviderRuntime.snapshot b p now) = Some u →
  ∀ t, t < u → pv_state (ProviderRuntime.snapshot b p t) = Open.
Proof.
  unfold ProviderRuntime.snapshot. destruct (by_provider b !! up_id p) as [st|]; [|done].
  unfold ProviderRuntime.to_view, circuit_state. cbn [pv_open_until_ms pv_state].
  destruct (negb (up_circuit_breaker_enabled p)); [done|].
  destruct (pr_open_until_ms st) as [v|]; [|done]. destruct (now <? v); [|done].
  intros [= ->] t Ht. by rewrite (proj2 (Z.ltb_lt t u)).
Qed.

Lemma health_open_until b id now u :
  hv_open_until_ms (RuntimeHealth.snapshot b id now) = Some u →
  ∀ t, t < u → hv_available (RuntimeHealth.snapshot b id t) = false.
Proof.
  unfold RuntimeHealth.snapshot. destruct (by_id b !! id) as [st|]; [|done].
  unfold RuntimeHealth.to_view, state_kind. cbn [hv_open_until_ms hv_available].
  destruct (rh_open_until_ms st) as [v|]; [|done]. destruct (now <? v); [|done].
  intros [= ->] t Ht. by rewrite (proj2 (Z.ltb_lt t u)).
Qed.

Lemma expire_reset st now :
  qs_cooldown_until_ms (expire_quota_state st now) = opt_filter (λ u, now <? u) (qs_cooldown_until_ms st)
  ∧ (qs_reset_at_ms (expire_quota_state st now) = opt_filter (λ u, now <? u) (qs_reset_at_ms st))
  ∧ (is_some (qs_reset_at_ms (expire_quota_state st now)) = true →
     qs_remaining_requests (expire_quota_state st now) = qs_remaining_requests st
     ∧ qs_remaining_tokens (expire_quota_state st now) = qs_remaining_tokens st).
Proof.
  destruct st as [rr rt re co cl up].
  unfold expire_quota_state, set_qs_remaining_requests, set_qs_remaining_tokens, set_qs_reset_at_ms,
    set_qs_cooldown_until_ms.
  destruct re as [re|], co as [co|]; cbn; rewrite ?Z.leb_antisym;
    try destruct (now <? re); cbn; try destruct (now <? co) eqn:E; cbn; rewrite ?Z.leb_antisym ?E; done.
Qed.

Lemma quota_cooldown_blocks q k now u :
  qv_cooldown_until_ms (quota_snapshot q k now).1 = Some u →
  ∀ t, t < u → (is_available q k t).1 = false.
Proof.
  unfold quota_snapshot, is_available. destruct (by_key q !! k) as [st|]; [|done]. cbn [fst qv_cooldown_until_ms].
  destruct (expire_reset st now) as (-> & _ & _). intros Hu t Ht.
  unfold state_available. destruct (expire_reset st t) as (-> & _ & _).
  destruct (qs_cooldown_until_ms st) as [c|]; [|done]. cbn [opt_filter] in *.
  destruct (now <? c); [|done]. injection Hu as ->. rewrite (proj2 (Z.ltb_lt t u)) //. cbn [is_none_or].
  by rewrite (proj2 (Z.leb_gt u t)).
Qed.

Lemma quota_exhausted_blocks q k now u :
  Quota.blocked_until_ms (quota_snapshot q k now).1 = Some u →
  ∀ t, t < u → (is_available q k t).1 = false.
Proof.
  unfold quota_snapshot, is_available. destruct (by_key q !! k) as [st|]; [|done]. cbn [fst].
  unfold Quota.blocked_until_ms. cbn [qv_remaining_requests qv_remaining_tokens qv_reset_at_ms].
  destruct (expire_reset st now) as (_ & H1 & H2).
  destruct (Quota.exhausted _ _) eqn:Ee; [|done]. intros Hu t Ht. rewrite Hu in H2. destruct (H2 eq_refl) as [Hr Ht'].
  rewrite Hr Ht' in Ee. rewrite Hu in H1. destruct (qs_reset_at_ms st) as [r|] eqn:Er; [|done].
  cbn [opt_filter] in H1. destruct (now <? r); [|done]. injection H1 as <-.
  unfold state_available. destruct (expire_reset st t) as (_ & H3 & H4). rewrite Er in H3. cbn [opt_filter] in H3.
  rewrite (proj2 (Z.ltb_lt t u)) // in H3. rewrite H3 in H4 |- *. destruct (H4 eq_refl) as [-> ->].
  rewrite Ee (proj2 (Z.ltb_lt t u)) //. apply andb_false_r.
Qed.

Lemma expire_idem st now :
  expire_quota_state (expire_quota_state st now) now = expire_quota_state st now.
Proof.
  assert (∀ rr rt re co cl up, is_some_and re (λ t, t <=? now) = false → is_some_and co (λ t, t <=? now) = false →
    expire_quota_state (Quota.MkQuota rr rt re co cl up) now = Quota.MkQuota rr rt re co cl up) as Hid.
  { intros rr rt re co cl up H1 H2. unfold expire_quota_state. cbn [qs_reset_at_ms]. rewrite H1.
    cbn [qs_cooldown_until_ms]. by rewrite H2. }
  destruct st as [rr rt re co cl up]. unfold expire_quota_state at 2 3. cbn [qs_reset_at_ms].
  destruct (is_some_and re (λ t, t <=? now)) eqn:E1;
    unfold set_qs_remaining_requests, set_qs_remaining_tokens, set_qs_reset_at_ms; cbn [qs_cooldown_until_ms
      qs_remaining_requests qs_remaining_tokens qs_reset_at_ms qs_consecutive_rate_limits qs_updated_at_ms];
    destruct (is_some_and co (λ t, t <=? now)) eqn:E2;
    unfold set_qs_cooldown_until_ms; cbn [qs_cooldown_until_ms
      qs_remaining_requests qs_remaining_tokens qs_reset_at_ms qs_consecutive_rate_limits qs_updated_at_ms];
    by rewrite Hid.
Qed.

(** Reading one key's quota does not change what is read of any key at that time. *)
Lemma quota_snapshot_stable q k k' now :
  (quota_snapshot (quota_snapshot q k now).2 k' now).1 = (quota_snapshot q k' now).1.
Proof.
  unfold quota_snapshot at 2. destruct (by_key q !! k) as [st|] eqn:Ek; [|done]. cbn [snd].
  unfold quota_snapshot, put_quota. cbn [Quota.by_key]. rewrite lookup_insert.
  destruct (decide (k = k')) as [<-|]; [|by destruct (by_key q !! k')]. rewrite Ek. cbn [fst].
  by rewrite expire_idem.
Qed.

Section Retry.
Context {D : Type}.
Implicit Types snap : UpstreamSnapshot D.
Implicit Types s : SharedState.

Lemma keys_blocked_spec s snap p endpoint_at now keys :
  (keys_blocked_until s snap p endpoint_at now keys).1
  = omap (λ key, (key_blocked_until s snap p endpoint_at now key).1) keys.
Proof.
  assert (∀ s', (∀ k, (quota_snapshot (ss_quota s') k now).1 = (quota_snapshot (ss_quota s) k now).1) →
    ss_provider_runtime s' = ss_provider_runtime s → ss_upstream_key_health s' = ss_upstream_key_health s →
    (keys_blocked_until s' snap p endpoint_at now keys).1
    = omap (λ key, (key_blocked_until s snap p endpoint_at now key).1) keys) as H; [|by apply H].
  induction keys as [|key keys IH]; intros s' Hq Hr Hh; [done|].
  cbn [keys_blocked_until].
  assert ((key_blocked_until s' snap p endpoint_at now key).1 = (key_blocked_until s snap p endpoint_at now key).1) as Hk.
  { unfold key_blocked_until. specialize (Hq (uk_id key)). rewrite Hr Hh.
    destruct (quota_snapshot (ss_quota s') _ _), (quota_snapshot (ss_quota s) _ _). cbn [fst] in *. by rewrite Hq. }
  assert ((key_blocked_until s' snap p endpoint_at now key).2
    = set_ss_quota (quota_snapshot (ss_quota s') (uk_id key) now).2 s') as Hs.
  { unfold key_blocked_until. by destruct (quota_snapshot _ _ _). }
  destruct (key_blocked_until s' snap p endpoint_at now key) as [until s2]. cbn [fst snd] in Hk, Hs. subst s2.
  specialize (IH (set_ss_quota (quota_snapshot (ss_quota s') (uk_id key) now).2 s')).
  destruct (keys_blocked_until (set_ss_quota _ s') snap p endpoint_at now keys) as [rest s3]. cbn [fst] in *.
  rewrite IH; [|intros k; cbn [ss_quota set_ss_quota]; by rewrite quota_snapshot_stable|done|done].
  cbn. rewrite -Hk. by destruct until.
Qed.

Lemma max_opt_app_singleton l x : ∃ m, max_opt (l ++ [x]) = Some m ∧ (m = x ∨ m ∈ l).
Proof.
  destruct (max_opt (l ++ [x])) as [m|] eqn:E; [|by destruct l].
  exists m. split; [done|]. apply max_opt_Some in E as [Hin _].
  apply elem_of_app in Hin as [?|Hx%list_elem_of_singleton]; auto.
Qed.

(** The retry time promised for a provider is never too early: before it, no key
    that may serve the model is available, whatever its other conditions, because
    some layer of its path (provider circuit, key circuit, quota, OAuth quota, every
    endpoint) is still blocked. *)
Theorem retry_at_not_early s snap p model owns now t t' keys key :
  (provider_retry_at s snap p model now).1 = Some t →
  sn_keys_by_provider snap !! up_id p = Some keys → key ∈ keys → now <= t' < t →
  (is_some (sn_codex_oauth_by_key snap !! uk_id key) = true → up_provider_type p = OAUTH_PROVIDER_TYPE) →
  now < t ∧ av_available (account s snap p key model owns t').1 = false.
Proof.
  intros Ht Hk Hin Ht' Hoauth. split; [lia|].
  destruct (av_available (account s snap p key model owns t').1) eqn:Ea; [|done]. exfalso.
  apply account_available_iff' in Ea as (H1 & H2 & H3 & H4 & H5 & H6 & _ & H7 & es & e & He & Hein & Hen & Heh).
  unfold provider_retry_at in Ht. rewrite He Hk in Ht.
  destruct (min_opt _) as [at_|] eqn:Emin; [|done].
  destruct (keys_blocked_until s snap p at_ now (retry_keys snap model keys)) as [untils s'] eqn:Eu.
  cbn [fst] in Ht. pose proof (keys_blocked_spec s snap p at_ now (retry_keys snap model keys)) as Hspec.
  rewrite Eu in Hspec. cbn [fst] in Hspec.
  destruct (min_opt untils) as [m|] eqn:Em; [|done]. cbn [opt_filter] in Ht.
  destruct (now <? m) eqn:Enm; [|done]. injection Ht as ->.
  assert (key ∈ retry_keys snap model keys) as Hrk.
  { apply list_elem_of_In, List.filter_In. split; [by apply list_elem_of_In|]. rewrite H2 /=.
    destruct model as [name|]; [|done]. cbn [is_none_or]. unfold model_available, account_allows in H5.
    by destruct (key_allows_model snap (uk_id key) name). }
  destruct (max_opt_app_singleton
    (option_list (pv_open_until_ms (ProviderRuntime.snapshot (ss_provider_runtime s) p now))
     ++ option_list (hv_open_until_ms (RuntimeHealth.snapshot (ss_upstream_key_health s) (uk_id key) now))
     ++ option_list (qv_cooldown_until_ms (quota_snapshot (ss_quota s) (uk_id key) now).1)
     ++ option_list (Quota.blocked_until_ms (quota_snapshot (ss_quota s) (uk_id key) now).1)
     ++ option_list (let! account := sn_codex_oauth_by_key snap !! uk_id key in
                     let! quota := ra_quota account in Snapshot.blocked_until_ms quota now)) at_)
    as (u & Hu & Hcase).
  assert (t <= u) as Htu.
  { apply min_opt_Some in Em as [_ Em]. apply Em. rewrite Hspec. apply list_elem_of_omap. exists key. split; [done|].
    unfold key_blocked_until. destruct (quota_snapshot (ss_quota s) (uk_id key) now) as [view book] eqn:Eq.
    cbn [fst] in *. rewrite -Hu. by rewrite -!app_assoc. }
  destruct Hcase as [->|Hcase].
  { (* every enabled endpoint is open past [t'] *)
    apply min_opt_Some in Emin as [_ Emin]. assert (at_ <= endpoint_open_at s now e) as Hle.
    { apply Emin. apply list_elem_of_In, in_map, List.filter_In. split; [by apply list_elem_of_In|done]. }
    unfold endpoint_open_at in Hle.
    destruct (hv_open_until_ms (RuntimeHealth.snapshot (ss_endpoint_health s) (ue_id e) now)) as [v|] eqn:Ev;
      cbn [unwrap_or] in Hle; [|lia].
    rewrite (health_open_until _ _ _ _ Ev t') in Heh; [done|lia]. }
  apply elem_of_app in Hcase as [Hc|Hc].
  { destruct (pv_open_until_ms _) as [v|] eqn:Ev; [|by apply elem_of_nil in Hc].
    apply list_elem_of_singleton in Hc as ->. apply H6. eapply runtime_open_until; [exact Ev|lia]. }
  apply elem_of_app in Hc as [Hc|Hc].
  { destruct (hv_open_until_ms _) as [v|] eqn:Ev; [|by apply elem_of_nil in Hc].
    apply list_elem_of_singleton in Hc as ->. rewrite (health_open_until _ _ _ _ Ev t') in H7; [done|lia]. }
  apply elem_of_app in Hc as [Hc|Hc].
  { destruct (qv_cooldown_until_ms _) as [v|] eqn:Ev; [|by apply elem_of_nil in Hc].
    apply list_elem_of_singleton in Hc as ->. rewrite (quota_cooldown_blocks _ _ _ _ Ev t') in H4; [done|lia]. }
  apply elem_of_app in Hc as [Hc|Hc].
  { destruct (Quota.blocked_until_ms _) as [v|] eqn:Ev; [|by apply elem_of_nil in Hc].
    apply list_elem_of_singleton in Hc as ->. rewrite (quota_exhausted_blocks _ _ _ _ Ev t') in H4; [done|lia]. }
  destruct (sn_codex_oauth_by_key snap !! uk_id key) as [a|] eqn:Eca; cbn [opt_bind] in Hc; [|by apply elem_of_nil in Hc].
  destruct (ra_quota a) as [q|] eqn:Eqa; cbn [opt_bind] in Hc; [|by apply elem_of_nil in Hc].
  destruct (Snapshot.blocked_until_ms q now) as [v|] eqn:Ev; [|by apply elem_of_nil in Hc].
  apply list_elem_of_singleton in Hc as ->.
  destruct (H3 (Hoauth eq_refl)) as (a' & [= <-] & Hr). destruct (blocked_until_Some _ _ _ Ev) as (_ & Hb & _).
  unfold is_routable in Hr. destruct (negb _); [done|]. rewrite Eqa in Hr. unfold is_none in Hr.
  by rewrite Hb in Hr; [|lia].
Qed.
End Retry.

(** ** A concrete state: a key resting until its quota resets *)
Definition wa_provider : UpstreamProvider :=
  MkProvider None true 1 "p" "openai" true 0 1 true false [] (MkOverrides [] []) "weighted" 2 None true 3 1000 1.
Definition wa_key : UpstreamKey := MkKey 5 1 "k" "secret" true 0 1.
Definition wa_endpoint : UpstreamEndpoint := MkEndpoint 9 1 "e" "https://upstream" true 0 1.
Definition wa_snapshot : UpstreamSnapshot Z :=
  MkSnapshot [wa_provider] ∅ {[1 := [wa_key]]} {[1 := [wa_endpoint]]} ∅ ∅ ∅ ∅ ∅ ∅ ∅ ∅ ∅ [] ∅ ∅.
Definition wa_state : SharedState :=
  MkShared (set_cooldown_until new_quota_book 5 5000 1000) new_runtime_book (new_health_book 1 30000)
    (new_health_book 1 30000) new_rotation (new_affinity_book 1000000000 10).

Lemma retry_at_not_early_witness :
  (provider_retry_at wa_state wa_snapshot wa_provider (Some "m") 1000).1 = Some 5000
  ∧ av_available (account wa_state wa_snapshot wa_provider wa_key (Some "m") false 4999).1 = false.
Proof.
  assert ((provider_retry_at wa_state wa_snapshot wa_provider (Some "m") 1000).1 = Some 5000) as E
    by (vm_compute; reflexivity).
  split; [exact E|].
  refine (proj2 (retry_at_not_early wa_state wa_snapshot wa_provider (Some "m") false 1000 5000 4999
                   [wa_key] wa_key E _ _ _ _)).
  - vm_compute. reflexivity.
  - by left.
  - lia.
  - intros H. vm_compute in H. discriminate H.
Defined.
