(* ===== verification/Routing.v ===== *)
(** * Routing: which providers may serve a model

    Models the route collection of [proxy.rs]: the protocol a provider is spoken to
    in, the diagnostics kept for rejected candidates, [collect_provider_routes] and
    the errors it ends with. *)
From Stdlib Require Import Ascii String.
From S2P Require Import Prelude Text Json Types Snapshot.

Local Open Scope string_scope.
Local Open Scope list_scope.
Local Open Scope Z_scope.

(** ** Protocols *)
Inductive ConversionMode := ResponsesViaChat.

Definition conversion_as_str (m : ConversionMode) : string :=
  match m with ResponsesViaChat => "responses_via_chat" end.

Record ProtocolPlan := MkProtocol {
  pp_client_api_format : ApiFormat;
  pp_upstream_api_format : ApiFormat;
  pp_conversion : option ConversionMode
}.

Definition native (api_format : ApiFormat) : ProtocolPlan := MkProtocol api_format api_format None.
Definition responses_via_chat : ProtocolPlan := MkProtocol Responses ChatCompletions (Some ResponsesViaChat).
Definition is_responses_via_chat (p : ProtocolPlan) : bool :=
  match pp_conversion p with Some ResponsesViaChat => true | None => false end.
Definition conversion_name (p : ProtocolPlan) : option string := option_map conversion_as_str (pp_conversion p).

Definition api_format_name (f : ApiFormat) : string :=
  match f with ChatCompletions => "chat_completions" | Responses => "responses" end.

(** ** Diagnostics *)
Record RouteCandidateTrace := MkCandidate {
  rc_provider_id : Z;
  rc_upstream_model : string;
  rc_priority : Z;
  rc_weight : Z;
  rc_attempt_budget : Z;
  rc_upstream_api_format : string;
  rc_conversion_mode : option string
}.

Record RouteRejection := MkRejection {
  rj_provider_id : option Z;
  rj_upstream_model : string;
  rj_stage : string;
  rj_code : string;
  rj_message : string
}.

Record RouteDiagnostics := MkDiagnostics {
  rd_candidates : list RouteCandidateTrace;
  rd_rejections : list RouteRejection
}.

Definition default_diagnostics : RouteDiagnostics := MkDiagnostics [] [].

(** The rejections kept: those that come after the hundredth are dropped. *)
Definition MAX_REJECTIONS : Z := 100.

Definition reject (d : RouteDiagnostics) (provider_id : option Z)
    (upstream_model stage code message : string) : RouteDiagnostics :=
  if MAX_REJECTIONS <=? Z.of_nat (length (rd_rejections d)) then d
  else MkDiagnostics (rd_candidates d)
         (rd_rejections d ++ [MkRejection provider_id upstream_model stage code message]).

Definition is_decisive (resolution_code : string) (r : RouteRejection) : bool :=
  if String.eqb resolution_code "model_disabled" then String.eqb (rj_stage r) "model_policy"
  else if String.eqb resolution_code "model_protocol_unsupported" then String.eqb (rj_stage r) "protocol"
  else if String.eqb resolution_code "model_not_authorized" then String.eqb (rj_stage r) "authorization"
  else if String.eqb resolution_code "model_route_unavailable" then String.eqb (rj_stage r) "model_route"
  else if is_one_of resolution_code ["model_not_found"; "model_not_available"] then
    String.eqb (rj_stage r) "model_inventory"
  else if String.eqb resolution_code "no_enabled_upstream_provider" then
    String.eqb (rj_code r) "provider_disabled"
  else if String.eqb resolution_code "no_upstream_key_for_model" then
    is_one_of (rj_code r) ["no_upstream_key_for_model"; "no_enabled_upstream_key"]
  else if String.eqb resolution_code "no_enabled_upstream_endpoint" then
    String.eqb (rj_code r) "no_enabled_upstream_endpoint"
  else if String.eqb resolution_code "all_upstreams_temporarily_unavailable" then
    String.eqb (rj_stage r) "runtime"
  else String.eqb (rj_code r) resolution_code.

(** [*counts.entry(code).or_default() += 1] *)
Definition count_code (counts : list (string * Z)) (code : string) : list (string * Z) :=
  assoc_insert code (unwrap_or (assoc code counts) 0 + 1) counts.

Definition public_reason_counts (d : RouteDiagnostics) (resolution_code : string) : list Value :=
  let counts := foldl (λ counts r,
    if is_decisive resolution_code r then count_code counts (rj_code r) else counts) [] (rd_rejections d) in
  let counts := if is_empty counts then [(resolution_code, 1)] else counts in
  map (λ cc, Object [("code", String cc.1); ("count", Number (show_Z cc.2))]) counts.

(** ** Resolution errors: [status] is the HTTP status code *)
Record RouteResolutionError := MkResolutionError {
  re_status : Z;
  re_error_type : string;
  re_code : string;
  re_message : string;
  re_diagnostics : RouteDiagnostics;
  re_retry_at_ms : option Z
}.

Definition resolution_error (status : Z) (error_type code message : string) (d : RouteDiagnostics)
    : RouteResolutionError := MkResolutionError status error_type code message d None.

(** A name between double quotes, as the messages show it. *)
Definition quoted (name : string) : string :=
  let q := of_chars [ascii_of_nat 34] in q +:+ name +:+ q.

Definition disabled_error (requested_model : string) (d : RouteDiagnostics) : RouteResolutionError :=
  resolution_error 403 "permission_error" "model_disabled"
    ("Model " +:+ quoted requested_model +:+ " is disabled") d.

(** ** Routes *)
Record ProviderRoute := MkRoute {
  ro_provider : UpstreamProvider;
  ro_upstream_model : string;
  ro_route_priority : option Z;
  ro_route_weight : option Z;
  ro_protocol : ProtocolPlan
}.

Section Collect.
Context {D : Type}.
Implicit Types snap : UpstreamSnapshot D.

Definition provider_protocol_plan snap (provider : UpstreamProvider) (client_api_format : ApiFormat)
    (upstream_model : string) (allow_responses_via_chat : bool) : option ProtocolPlan :=
  let t := up_provider_type provider in
  if String.eqb t "openai" then Some (native client_api_format)
  else if String.eqb t "openai_compatible" then
    match client_api_format with
    | ChatCompletions => Some (native ChatCompletions)
    | Responses =>
        if allow_responses_via_chat
           && unwrap_or (option_map (λ state, is_active state && ms_responses_via_chat_enabled state)
                (provider_model_state snap (up_id provider) upstream_model)) false
        then Some responses_via_chat else None
    end
  else if String.eqb t "openai_compatible_responses" || String.eqb t OAUTH_PROVIDER_TYPE then
    match client_api_format with
    | Responses => Some (native Responses)
    | ChatCompletions => None
    end
  else None.

Definition provider_model_rejection snap (provider_id : Z) (upstream_model : string)
    : option (string * string) :=
  let! models := sn_provider_models_by_provider snap !! provider_id in
  match models !! upstream_model with
  | None => Some ("provider_model_not_registered", "provider model inventory does not contain this model")
  | Some state =>
      if negb (ms_enabled state) then Some ("provider_model_disabled", "provider model is disabled")
      else if negb (ms_available state) then
        Some ("provider_model_unavailable", "provider model is not present in the latest synchronized inventory")
      else None
  end.

Definition protocol_rejection snap (provider : UpstreamProvider) (api_format : ApiFormat)
    (upstream_model : string) (allow_responses_via_chat : bool) : string * string :=
  let unsupported := ("provider_protocol_unsupported",
                      "provider does not support the requested client API format") in
  if String.eqb (up_provider_type provider) "openai_compatible" && bool_decide (api_format = Responses) then
    if negb allow_responses_via_chat then
      ("provider_protocol_unsupported", "this transport requires a native Responses upstream")
    else if is_some_and (provider_model_state snap (up_id provider) upstream_model)
              (λ state, negb (ms_responses_via_chat_enabled state)) then
      ("responses_via_chat_disabled", "Responses-to-Chat conversion is disabled for this provider model")
    else unsupported
  else unsupported.

Definition route_allows_provider_for_model snap (upstream_model : string) (provider_id : Z) : bool :=
  match sn_route_policies snap !! upstream_model with
  | Some policy => existsb (λ t, rt_provider_id t =? provider_id) (rp_targets policy)
  | None =>
      if is_some (sn_route_policies snap !! "*") then true
      else match sn_routes_by_model snap !! upstream_model with
           | None => true
           | Some route =>
               if negb (mr_enabled route) || is_empty (mr_provider_ids route) then true
               else existsb (Z.eqb provider_id) (mr_provider_ids route)
           end
  end.

Definition known_but_inactive (d : RouteDiagnostics) : bool :=
  existsb (λ r, is_one_of (rj_code r)
    ["provider_model_disabled"; "provider_model_unavailable"; "alias_target_disabled"]) (rd_rejections d).

Definition finish_route_collection (requested_model : string) (routes : list ProviderRoute)
    (d : RouteDiagnostics) (inventory_candidates route_candidates : Z)
    : list ProviderRoute * RouteDiagnostics + RouteResolutionError :=
  if negb (is_empty routes) then inl (routes, d)
  else if 0 <? route_candidates then
    inr (resolution_error 400 "invalid_request_error" "model_protocol_unsupported"
      ("Model " +:+ quoted requested_model +:+
       " is registered, but no matching provider supports the requested API format or conversion") d)
  else if 0 <? inventory_candidates then
    inr (resolution_error 503 "upstream_configuration_error" "model_route_unavailable"
      ("Model " +:+ quoted requested_model +:+
       " is registered, but its gateway route excludes all matching providers") d)
  else if known_but_inactive d then
    inr (resolution_error 503 "upstream_configuration_error" "model_not_available"
      ("Model " +:+ quoted requested_model +:+
       " exists in synchronized inventory but is disabled or unavailable") d)
  else
    inr (resolution_error 404 "invalid_request_error" "model_not_found"
      ("Model " +:+ quoted requested_model +:+ " is not registered by any provider") d).

(** The variables of the loops. *)
Record Collection := MkCollection {
  cl_routes : list ProviderRoute;
  cl_diagnostics : RouteDiagnostics;
  cl_inventory_candidates : Z;
  cl_route_candidates : Z;
  cl_seen : gset Z
}.
Definition empty_collection : Collection := MkCollection [] default_diagnostics 0 0 ∅.

Definition refuse (c : Collection) (provider_id : option Z) (upstream_model stage code message : string)
    : Collection :=
  MkCollection (cl_routes c) (reject (cl_diagnostics c) provider_id upstream_model stage code message)
    (cl_inventory_candidates c) (cl_route_candidates c) (cl_seen c).

Definition count_inventory (c : Collection) : Collection :=
  MkCollection (cl_routes c) (cl_diagnostics c) (cl_inventory_candidates c + 1) (cl_route_candidates c) (cl_seen c).
Definition count_route (c : Collection) : Collection :=
  MkCollection (cl_routes c) (cl_diagnostics c) (cl_inventory_candidates c) (cl_route_candidates c + 1) (cl_seen c).

(** What both loops do with a provider found for a model: the inventory, the route
    and the protocol are tested in turn, then [push] adds the route. *)
Definition consider snap (api_format : ApiFormat) (allow_responses_via_chat : bool)
    (provider : UpstreamProvider) (upstream_model : string) (excluded : bool)
    (push : ProtocolPlan → Collection → Collection) (c : Collection) : Collection :=
  match provider_model_rejection snap (up_id provider) upstream_model with
  | Some (code, message) => refuse c (Some (up_id provider)) upstream_model "model_inventory" code message
  | None =>
      let c := count_inventory c in
      if excluded then
        refuse c (Some (up_id provider)) upstream_model "model_route" "model_route_excluded"
          "gateway model route excludes this provider"
      else
        let c := count_route c in
        match provider_protocol_plan snap provider api_format upstream_model allow_responses_via_chat with
        | None =>
            let '(code, message) :=
              protocol_rejection snap provider api_format upstream_model allow_responses_via_chat in
            refuse c (Some (up_id provider)) upstream_model "protocol" code message
        | Some protocol => push protocol c
        end
  end.

(** Adding the route of an alias target: the first of each provider. *)
Definition push_target (alias : ModelAlias) (target : ModelAliasTarget) (provider : UpstreamProvider)
    (protocol : ProtocolPlan) (c : Collection) : Collection :=
  if bool_decide (at_provider_id target ∈ cl_seen c) then c
  else MkCollection
         (cl_routes c ++ [MkRoute provider (at_upstream_model target) (Some (at_priority target))
            (if String.eqb (ma_mode alias) "weighted" then Some (at_weight target) else None) protocol])
         (cl_diagnostics c) (cl_inventory_candidates c) (cl_route_candidates c)
         ({[ at_provider_id target ]} ∪ cl_seen c).

Definition find_provider snap (id : Z) : option UpstreamProvider :=
  List.find (λ p, up_id p =? id) (sn_providers snap).

Definition target_step snap (api_format : ApiFormat) (allow_responses_via_chat : bool)
    (alias : ModelAlias) (c : Collection) (target : ModelAliasTarget) : Collection :=
  if negb (at_enabled target) then
    refuse c (Some (at_provider_id target)) (at_upstream_model target) "model_inventory"
      "alias_target_disabled" "model alias target is disabled"
  else match find_provider snap (at_provider_id target) with
       | None =>
           refuse c (Some (at_provider_id target)) (at_upstream_model target) "model_inventory"
             "provider_not_found" "model alias target references a missing provider"
       | Some provider =>
           consider snap api_format allow_responses_via_chat provider (at_upstream_model target)
             (negb (is_model_globally_enabled snap (at_upstream_model target))
              || negb (route_allows_provider_for_model snap (at_upstream_model target) (at_provider_id target)))
             (push_target alias target provider) c
       end.

Definition push_direct (provider : UpstreamProvider) (upstream_model : string) (protocol : ProtocolPlan)
    (c : Collection) : Collection :=
  MkCollection (cl_routes c ++ [MkRoute provider upstream_model None None protocol])
    (cl_diagnostics c) (cl_inventory_candidates c) (cl_route_candidates c) (cl_seen c).

Definition provider_step snap (api_format : ApiFormat) (allow_responses_via_chat : bool)
    (upstream_model : string) (forced_provider_id : option Z) (c : Collection) (provider : UpstreamProvider)
    : Collection :=
  if is_some_and forced_provider_id (λ id, negb (id =? up_id provider)) then c
  else consider snap api_format allow_responses_via_chat provider upstream_model
         (negb (route_allows_provider_for_model snap upstream_model (up_id provider)))
         (push_direct provider upstream_model) c.

Definition finish_collection (requested_model : string) (c : Collection)
    : list ProviderRoute * RouteDiagnostics + RouteResolutionError :=
  finish_route_collection requested_model (cl_routes c) (cl_diagnostics c)
    (cl_inventory_candidates c) (cl_route_candidates c).

(** The part for a model alias with its targets. *)
Definition collect_alias snap (api_format : ApiFormat) (requested_model : string)
    (allow_responses_via_chat : bool) (alias : ModelAlias)
    : list ProviderRoute * RouteDiagnostics + RouteResolutionError :=
  if negb (ma_enabled alias) then
    inr (disabled_error requested_model (reject default_diagnostics None requested_model "model_policy"
      "model_disabled" "model alias is disabled"))
  else match sn_alias_targets_by_alias snap !! ma_id alias with
       | None =>
           inr (resolution_error 404 "invalid_request_error" "model_not_found"
             ("Model " +:+ quoted requested_model +:+ " has no registered alias targets") default_diagnostics)
       | Some targets =>
           finish_collection requested_model
             (foldl (target_step snap api_format allow_responses_via_chat alias) empty_collection targets)
       end.

(** The part for a model of the providers' inventories, or a provider's own alias. *)
Definition collect_direct snap (api_format : ApiFormat) (requested_model : string)
    (allow_responses_via_chat : bool) (upstream_model : string) (forced_provider_id : option Z)
    : list ProviderRoute * RouteDiagnostics + RouteResolutionError :=
  if negb (is_model_globally_enabled snap upstream_model) then
    inr (disabled_error requested_model (reject default_diagnostics forced_provider_id upstream_model
      "model_policy" "model_disabled" "upstream model is disabled by the gateway policy"))
  else
    finish_collection requested_model
      (foldl (provider_step snap api_format allow_responses_via_chat upstream_model forced_provider_id)
         empty_collection (sn_providers snap)).

Definition collect_provider_routes_inner snap (api_format : ApiFormat) (requested_model : string)
    (allow_responses_via_chat : bool)
    : list ProviderRoute * RouteDiagnostics + RouteResolutionError :=
  if negb (is_model_globally_enabled snap requested_model) then
    inr (disabled_error requested_model (reject default_diagnostics None requested_model "model_policy"
      "model_disabled" "model is disabled by the gateway policy"))
  else match sn_model_aliases_by_name snap !! requested_model with
       | Some alias => collect_alias snap api_format requested_model allow_responses_via_chat alias
       | None =>
           match sn_alias_to_provider_model snap !! requested_model with
           | Some target =>
               if negb (pa_enabled target) then
                 inr (disabled_error requested_model (reject default_diagnostics
                   (Some (pa_provider_id target)) (pa_upstream_model target) "model_policy"
                   "model_disabled" "legacy model alias is disabled"))
               else collect_direct snap api_format requested_model allow_responses_via_chat
                      (pa_upstream_model target) (Some (pa_provider_id target))
           | None =>
               collect_direct snap api_format requested_model allow_responses_via_chat requested_model None
           end
       end.

Definition route_policy snap (requested_model : string) : option RoutePolicy :=
  opt_or (sn_route_policies snap !! requested_model) (sn_route_policies snap !! "*").

Definition policy_allows (policy : RoutePolicy) (provider_id : Z) : bool :=
  existsb (λ t, rt_provider_id t =? provider_id) (rp_targets policy).

(** [routes.retain(..)] with the rejection of every excluded route. *)
Fixpoint retain_targets (policy : RoutePolicy) (routes : list ProviderRoute) (d : RouteDiagnostics)
    : list ProviderRoute * RouteDiagnostics :=
  match routes with
  | [] => ([], d)
  | route :: routes' =>
      if policy_allows policy (up_id (ro_provider route)) then
        let '(kept, d) := retain_targets policy routes' d in (route :: kept, d)
      else
        retain_targets policy routes' (reject d (Some (up_id (ro_provider route))) (ro_upstream_model route)
          "model_route" "model_route_excluded" "model route excludes this upstream")
  end.

Definition collect_provider_routes snap (api_format : ApiFormat) (requested_model : string)
    (allow_responses_via_chat : bool)
    : list ProviderRoute * RouteDiagnostics + RouteResolutionError :=
  let? found := collect_provider_routes_inner snap api_format requested_model allow_responses_via_chat in
  match route_policy snap requested_model with
  | None => inl found
  | Some policy =>
      let '(routes, d) := retain_targets policy found.1 found.2 in
      if is_empty routes then
        inr (resolution_error 503 "upstream_configuration_error" "model_route_unavailable"
          "model route has no eligible targets" d)
      else inl (routes, d)
  end.
End Collect.

(** ** Soundness *)
Section RoutingFacts.
Context {D : Type}.
Implicit Types snap : UpstreamSnapshot D.

(** What makes a route legitimate. *)
Record route_ok snap (api_format : ApiFormat) (allow : bool) (r : ProviderRoute) : Prop := {
  rk_provider : ro_provider r ∈ sn_providers snap;
  rk_inventory : provider_model_rejection snap (up_id (ro_provider r)) (ro_upstream_model r) = None;
  rk_enabled : is_model_globally_enabled snap (ro_upstream_model r) = true;
  rk_allowed : route_allows_provider_for_model snap (ro_upstream_model r) (up_id (ro_provider r)) = true;
  rk_protocol : provider_protocol_plan snap (ro_provider r) api_format (ro_upstream_model r) allow
                = Some (ro_protocol r)
}.

Lemma refuse_routes c p m st co me : cl_routes (refuse c p m st co me) = cl_routes c.
Proof. done. Qed.

Lemma consider_cases snap f allow p m excluded push c :
  cl_routes (consider snap f allow p m excluded push c) = cl_routes c
  ∨ ∃ protocol, provider_model_rejection snap (up_id p) m = None ∧ excluded = false
      ∧ provider_protocol_plan snap p f m allow = Some protocol
      ∧ consider snap f allow p m excluded push c = push protocol (count_route (count_inventory c)).
Proof.
  unfold consider. destruct (provider_model_rejection snap (up_id p) m) as [[code message]|]; [by left|].
  destruct excluded; [by left|]. destruct (provider_protocol_plan snap p f m allow) as [pr|].
  - right. by exists pr.
  - destruct (protocol_rejection _ _ _ _ _). by left.
Qed.

Lemma find_provider_Some snap id p :
  find_provider snap id = Some p → p ∈ sn_providers snap ∧ up_id p = id.
Proof. intros [Hin Hid]%find_some. split; [by apply list_elem_of_In|by apply Z.eqb_eq]. Qed.

(** Routes already collected satisfy [P]; one more step keeps it. *)
Lemma foldl_collection {A} (step : Collection → A → Collection) (P : list ProviderRoute → gset Z → Prop) l c :
  (∀ c a, a ∈ l → P (cl_routes c) (cl_seen c) → P (cl_routes (step c a)) (cl_seen (step c a))) →
  P (cl_routes c) (cl_seen c) → P (cl_routes (foldl step c l)) (cl_seen (foldl step c l)).
Proof.
  revert c. induction l as [|a l IH]; intros c Hstep Hc; simpl; [done|].
  apply IH; [|apply Hstep; [by left|done]]. intros c' a' Ha'. apply Hstep. by right.
Qed.

Lemma consider_seen snap f allow p m excluded push c :
  (∀ pr c, cl_seen (push pr c) = cl_seen c) → cl_seen (consider snap f allow p m excluded push c) = cl_seen c.
Proof.
  intros Hp. unfold consider. destruct (provider_model_rejection _ _ _) as [[]|]; [done|].
  destruct excluded; [done|]. destruct (provider_protocol_plan _ _ _ _ _); [by rewrite Hp|].
  by destruct (protocol_rejection _ _ _ _ _).
Qed.

Lemma Forall_snoc {A} (P : A → Prop) l x : Forall P l → P x → Forall P (l ++ [x]).
Proof. intros Hl Hx. apply Forall_app_2; [done|by constructor]. Qed.

Lemma collect_direct_sound snap f req allow m forced routes d :
  collect_direct snap f req allow m forced = inl (routes, d) → Forall (route_ok snap f allow) routes.
Proof.
  unfold collect_direct, finish_collection, finish_route_collection.
  destruct (is_model_globally_enabled snap m) eqn:Eg; [|done]. cbn [negb].
  set (c := foldl _ _ _).
  assert (Forall (route_ok snap f allow) (cl_routes c)) as Hc.
  { unfold c. apply (foldl_collection _ (λ routes _, Forall (route_ok snap f allow) routes)); [|constructor].
    clear c. intros c p Hp Hc. unfold provider_step. destruct (is_some_and _ _); [done|].
    destruct (consider_cases snap f allow p m (negb (route_allows_provider_for_model snap m (up_id p)))
      (push_direct p m) c) as [->|(pr & Hi & He & Hpr & ->)]; [done|].
    apply Forall_snoc; [done|]. apply negb_false_iff in He. by split. }
  destruct (is_empty (cl_routes c)); cbn [negb]; [|by intros [= <- <-]].
  destruct (0 <? _); [done|]. destruct (0 <? _); [done|]. by destruct (known_but_inactive _).
Qed.

Lemma collect_alias_sound snap f req allow alias routes d :
  collect_alias snap f req allow alias = inl (routes, d) →
  Forall (route_ok snap f allow) routes ∧ NoDup (map (λ r, up_id (ro_provider r)) routes).
Proof.
  unfold collect_alias, finish_collection, finish_route_collection.
  destruct (ma_enabled alias); [|done]. cbn [negb].
  destruct (sn_alias_targets_by_alias snap !! ma_id alias) as [targets|]; [|done].
  set (c := foldl _ _ _).
  assert (Forall (route_ok snap f allow) (cl_routes c) ∧ NoDup (map (λ r, up_id (ro_provider r)) (cl_routes c))
          ∧ ∀ r, r ∈ cl_routes c → up_id (ro_provider r) ∈ cl_seen c) as (Hc & Hnd & _).
  { unfold c. apply (foldl_collection _ (λ routes seen, Forall (route_ok snap f allow) routes
      ∧ NoDup (map (λ r, up_id (ro_provider r)) routes) ∧ ∀ r, r ∈ routes → up_id (ro_provider r) ∈ seen));
      [|split_and!; [constructor|constructor|set_solver]].
    clear c. intros c t Ht Hc. unfold target_step. destruct (negb (at_enabled t)); [done|].
    destruct (find_provider snap (at_provider_id t)) as [p|] eqn:Ep; [|done].
    apply find_provider_Some in Ep as [Hp Hid]. unfold consider.
    destruct (provider_model_rejection snap (up_id p) (at_upstream_model t)) as [[]|] eqn:Ei; [done|].
    set (excluded := negb _ || negb _). destruct excluded eqn:Ee; [done|].
    apply orb_false_iff in Ee as [E1%negb_false_iff E2%negb_false_iff].
    destruct (provider_protocol_plan _ _ _ _ _) as [pr|] eqn:Epr; [|by destruct (protocol_rejection _ _ _ _ _)].
    unfold push_target. cbn [cl_seen count_route count_inventory].
    case_bool_decide as Hs; [done|]. destruct Hc as (H1 & H2 & H3). cbn [cl_routes cl_seen].
    split_and!.
    - apply Forall_snoc; [done|]. split; simpl; [done|done|done|by rewrite Hid|done].
    - rewrite map_app. apply NoDup_app. split_and!; [done| |by apply NoDup_singleton].
      simpl. intros x Hx ->%list_elem_of_singleton. apply Hs.
      apply list_elem_of_In, in_map_iff in Hx as (r & E & Hr). rewrite Hid in E. rewrite -E.
      by apply H3, list_elem_of_In.
    - intros r Hr. apply elem_of_app in Hr as [Hr|Hr]; [|apply list_elem_of_singleton in Hr as ->; set_solver].
      apply elem_of_union_r. by apply H3. }
  destruct (is_empty (cl_routes c)); cbn [negb]; [|by intros [= <- <-]].
  destruct (0 <? _); [done|]. destruct (0 <? _); [done|]. by destruct (known_but_inactive _).
Qed.

Lemma retain_targets_spec policy routes d :
  (retain_targets policy routes d).1 = List.filter (λ r, policy_allows policy (up_id (ro_provider r))) routes.
Proof.
  revert d. induction routes as [|r routes IH]; intros d; simpl; [done|].
  destruct (policy_allows policy (up_id (ro_provider r))); [|apply IH].
  specialize (IH d). destruct (retain_targets policy routes d). simpl in *. by rewrite IH.
Qed.

Lemma collected_routes_ok snap f requested allow routes d :
  collect_provider_routes snap f requested allow = inl (routes, d) →
  is_model_globally_enabled snap requested = true ∧ routes ≠ []
  ∧ Forall (route_ok snap f allow) routes
  ∧ ∀ policy r, route_policy snap requested = Some policy → r ∈ routes →
      policy_allows policy (up_id (ro_provider r)) = true.
Proof.
  unfold collect_provider_routes. intros ([found d0] & Hf & Hr)%res_bind_inl.
  assert (is_model_globally_enabled snap requested = true ∧ found ≠ [] ∧ Forall (route_ok snap f allow) found)
    as (Hg & Hne & Hok).
  { unfold collect_provider_routes_inner in Hf.
    destruct (is_model_globally_enabled snap requested) eqn:Eg; [|done]. cbn [negb] in Hf.
    assert (∀ c r0 d1, finish_collection requested c = inl (r0, d1) → r0 ≠ []) as Hfin.
    { intros c r0 d1. unfold finish_collection, finish_route_collection.
      destruct (cl_routes c) eqn:E; cbn [is_empty negb].
      - destruct (0 <? _); [done|]. destruct (0 <? _); [done|]. by destruct (known_but_inactive _).
      - by intros [= <- <-]. }
    destruct (sn_model_aliases_by_name snap !! requested) as [alias|].
    - split_and!; [done| |by eapply collect_alias_sound].
      unfold collect_alias in Hf. destruct (negb _); [done|].
      destruct (sn_alias_targets_by_alias snap !! ma_id alias); [|done]. by eapply Hfin.
    - assert (∀ m forced, collect_direct snap f requested allow m forced = inl (found, d0) →
        true = true ∧ found ≠ [] ∧ Forall (route_ok snap f allow) found) as Hd.
      { intros m forced Hc. split_and!; [done| |by eapply collect_direct_sound].
        unfold collect_direct in Hc. destruct (negb _); [done|]. by eapply Hfin. }
      destruct (sn_alias_to_provider_model snap !! requested) as [t|]; [|by eapply Hd].
      destruct (negb (pa_enabled t)); [done|]. by eapply Hd. }
  destruct (route_policy snap requested) as [policy|] eqn:Epol; cbn [fst snd] in Hr.
  - pose proof (retain_targets_spec policy found d0) as Hk. destruct (retain_targets policy found d0) as [kept d1].
    cbn [fst] in Hk. destruct kept as [|k kept]; [done|]. cbn [is_empty] in Hr. injection Hr as <- <-.
    split_and!; [done|done| |].
    + rewrite Hk. apply Forall_forall. intros r Hr. apply list_elem_of_In, List.filter_In in Hr as [Hr _].
      apply list_elem_of_In in Hr. by eapply Forall_forall in Hok.
    + intros policy' r [= <-] Hr. rewrite Hk in Hr. by apply list_elem_of_In, List.filter_In in Hr as [_ Hr].
  - injection Hr as <- <-. split_and!; [done|done|done|done].
Qed.

(** Routes are legitimate: a request is only ever routed to a provider of the
    configuration whose inventory has the model active, for a model (requested and
    upstream) that is enabled globally, that the model's route and the route policy
    allow, and that can be spoken to in the client's protocol. *)
Theorem routes_sound snap f requested allow routes d :
  collect_provider_routes snap f requested allow = inl (routes, d) →
  is_model_globally_enabled snap requested = true ∧ routes ≠ []
  ∧ Forall (route_ok snap f allow) routes
  ∧ ∀ policy r, route_policy snap requested = Some policy → r ∈ routes →
      policy_allows policy (up_id (ro_provider r)) = true.
Proof. apply collected_routes_ok. Qed.
End RoutingFacts.

(** ** Exactness for a model of the inventories *)
Section Exact.
Context {D : Type}.
Implicit Types snap : UpstreamSnapshot D.

(** The upstream model a request without a gateway alias is for, and the provider it
    is bound to when its name is a provider's own alias. *)
Definition direct_target snap (requested : string) : option (string * option Z) :=
  match sn_model_aliases_by_name snap !! requested with
  | Some _ => None
  | None =>
      match sn_alias_to_provider_model snap !! requested with
      | Some t => if pa_enabled t then Some (pa_upstream_model t, Some (pa_provider_id t)) else None
      | None => Some (requested, None)
      end
  end.

Definition bound_to (forced : option Z) (p : UpstreamProvider) : bool :=
  negb (is_some_and forced (λ id, negb (id =? up_id p))).

Definition inventoried snap (m : string) (p : UpstreamProvider) : bool :=
  is_none (provider_model_rejection snap (up_id p) m).
Definition routed snap (m : string) (p : UpstreamProvider) : bool :=
  inventoried snap m p && route_allows_provider_for_model snap m (up_id p).
(** Registered by the provider, but disabled or no longer available. *)
Definition inactive snap (m : string) (p : UpstreamProvider) : bool :=
  is_some_and (provider_model_rejection snap (up_id p) m)
    (λ cm, is_one_of cm.1 ["provider_model_disabled"; "provider_model_unavailable"; "alias_target_disabled"]).

Definition direct_route snap (f : ApiFormat) (allow : bool) (m : string) (p : UpstreamProvider)
    : option ProviderRoute :=
  if routed snap m p then option_map (MkRoute p m None None) (provider_protocol_plan snap p f m allow) else None.

Definition inventory_rejection snap (m : string) (p : UpstreamProvider) : list RouteRejection :=
  match provider_model_rejection snap (up_id p) m with
  | Some (code, message) => [MkRejection (Some (up_id p)) m "model_inventory" code message]
  | None => []
  end.

Lemma reject_take d p m st co me :
  rd_rejections d = take 100 (rd_rejections d) →
  rd_rejections (reject d p m st co me) = take 100 (rd_rejections d ++ [MkRejection p m st co me]).
Proof.
  intros Hd. unfold reject. assert (length (rd_rejections d) <= 100)%nat as Hl by (rewrite Hd length_take; lia).
  unfold MAX_REJECTIONS. destruct (Z.leb_spec 100 (Z.of_nat (length (rd_rejections d)))).
  - rewrite take_app_le; [done|lia].
  - cbn [rd_rejections]. rewrite take_ge; [done|]. rewrite length_app /=. lia.
Qed.

Lemma foldl_provider_step_forced snap f allow m forced l c :
  foldl (provider_step snap f allow m forced) c l
  = foldl (provider_step snap f allow m None) c (List.filter (bound_to forced) l).
Proof.
  revert c. induction l as [|p l IH]; intros c; simpl; [done|]. unfold bound_to at 1.
  destruct (is_some_and forced (λ id, negb (id =? up_id p))) eqn:E; simpl; rewrite IH; f_equal;
    unfold provider_step; by rewrite E.
Qed.

Lemma foldl_provider_step snap f allow m l c :
  let c' := foldl (provider_step snap f allow m None) c l in
  cl_routes c' = cl_routes c ++ omap (direct_route snap f allow m) l
  ∧ cl_inventory_candidates c' = cl_inventory_candidates c + Z.of_nat (length (List.filter (inventoried snap m) l))
  ∧ cl_route_candidates c' = cl_route_candidates c + Z.of_nat (length (List.filter (routed snap m) l)).
Proof.
  revert c. induction l as [|p l IH]; intros c; cbn [foldl].
  { simpl. rewrite app_nil_r. split_and!; [done|lia|lia]. }
  destruct (IH (provider_step snap f allow m None c p)) as (-> & -> & ->). clear IH.
  assert (direct_route snap f allow m p = None ∧ cl_routes (provider_step snap f allow m None c p) = cl_routes c
    ∨ ∃ r, direct_route snap f allow m p = Some r ∧ cl_routes (provider_step snap f allow m None c p) = cl_routes c ++ [r])
    as Hr.
  { unfold provider_step, consider, direct_route, routed, inventoried. cbn [is_some_and].
    destruct (provider_model_rejection snap (up_id p) m) as [[]|]; cbn [is_none is_some negb andb]; [by left|].
    destruct (route_allows_provider_for_model snap m (up_id p)); cbn [negb]; [|by left].
    destruct (provider_protocol_plan snap p f m allow) as [pr|]; cbn [option_map].
    - right. eexists. split; [done|]. done.
    - left. destruct (protocol_rejection _ _ _ _ _). done. }
  assert (cl_inventory_candidates (provider_step snap f allow m None c p)
          = cl_inventory_candidates c + (if inventoried snap m p then 1 else 0)
          ∧ cl_route_candidates (provider_step snap f allow m None c p)
          = cl_route_candidates c + (if routed snap m p then 1 else 0)) as [-> ->].
  { unfold provider_step, consider, routed, inventoried. cbn [is_some_and].
    destruct (provider_model_rejection snap (up_id p) m) as [[]|]; cbn [is_none is_some negb andb];
      [split; simpl; lia|].
    destruct (route_allows_provider_for_model snap m (up_id p)); cbn [negb]; [|split; simpl; lia].
    destruct (provider_protocol_plan snap p f m allow) as [pr|]; [split; simpl; lia|].
    destruct (protocol_rejection _ _ _ _ _). split; simpl; lia. }
  split_and!.
  - destruct Hr as [[E ->]|(r & E & ->)]; [by rewrite omap_cons_None|].
    by rewrite (omap_cons_Some _ _ _ _ E) -app_assoc.
  - cbn [List.filter]. destruct (inventoried snap m p); cbn [length]; lia.
  - cbn [List.filter]. destruct (routed snap m p); cbn [length]; lia.
Qed.

(** When no provider has the model active, the first hundred refusals are kept. *)
Lemma foldl_provider_step_rejections snap f allow m l c :
  existsb (inventoried snap m) l = false → rd_rejections (cl_diagnostics c) = take 100 (rd_rejections (cl_diagnostics c)) →
  rd_rejections (cl_diagnostics (foldl (provider_step snap f allow m None) c l))
  = take 100 (rd_rejections (cl_diagnostics c) ++ flat_map (inventory_rejection snap m) l).
Proof.
  revert c. induction l as [|p l IH]; intros c; cbn [foldl existsb flat_map]; [by rewrite app_nil_r|].
  intros [Hp Hl]%orb_false_iff Hc.
  assert (∃ code message,
    provider_step snap f allow m None c p = refuse c (Some (up_id p)) m "model_inventory" code message
    ∧ inventory_rejection snap m p = [MkRejection (Some (up_id p)) m "model_inventory" code message])
    as (code & message & -> & ->).
  { unfold inventoried in Hp. unfold provider_step, consider, inventory_rejection. cbn [is_some_and].
    destruct (provider_model_rejection snap (up_id p) m) as [[code message]|]; [by exists code, message|done]. }
  rewrite IH; [|done|].
  - cbn [refuse cl_diagnostics]. rewrite reject_take //. rewrite (app_assoc _ [_]).
    set (x := rd_rejections (cl_diagnostics c) ++ [_]). generalize (flat_map (inventory_rejection snap m) l) as y.
    intros y. clear. destruct (decide (length x <= 100)%nat).
    + by rewrite (take_ge x).
    + rewrite (take_app_le x); [|lia]. rewrite take_app_le; [|rewrite length_take; lia].
      rewrite take_take. by rewrite Nat.min_id.
  - cbn [refuse cl_diagnostics]. rewrite reject_take // take_take. by rewrite Nat.min_id.
Qed.

Lemma known_but_inactive_inventory snap m l n d :
  existsb (inventoried snap m) l = false →
  rd_rejections d = take n (flat_map (inventory_rejection snap m) l) →
  known_but_inactive d = existsb (inactive snap m) (take n l).
Proof.
  intros Hl Hd. unfold known_but_inactive. rewrite Hd. clear Hd d. revert n.
  induction l as [|p l IH]; intros n; [by rewrite !take_nil|]. cbn [existsb] in Hl.
  apply orb_false_iff in Hl as [Hp Hl]. cbn [flat_map].
  unfold inventory_rejection at 1. unfold inventoried in Hp.
  destruct n as [|n]; [done|]. cbn [take existsb]. unfold inactive at 1.
  destruct (provider_model_rejection snap (up_id p) m) as [[code message]|]; [|done].
  cbn [app take existsb]. rewrite IH //.
Qed.

Lemma filter_length_0 {A} (g : A → bool) l : (0 <? Z.of_nat (length (List.filter g l))) = existsb g l.
Proof.
  induction l as [|x l IH]; simpl; [done|]. destruct (g x); simpl; [|done]. apply Z.ltb_lt. lia.
Qed.

Lemma is_empty_true {A} (l : list A) : is_empty l = true ↔ l = [].
Proof. by destruct l. Qed.

(** The outcome of a collection over the providers. *)
Definition direct_outcome snap (f : ApiFormat) (allow : bool) (m : string) (ps : list UpstreamProvider)
    (r : list ProviderRoute * RouteDiagnostics + RouteResolutionError) : Prop :=
  match r with
  | inl (routes, _) => routes = omap (direct_route snap f allow m) ps ∧ routes ≠ []
  | inr e =>
      omap (direct_route snap f allow m) ps = []
      ∧ (re_status e, re_code e) =
          if existsb (routed snap m) ps then (400, "model_protocol_unsupported")
          else if existsb (inventoried snap m) ps then (503, "model_route_unavailable")
          else if existsb (inactive snap m) (take 100 ps) then (503, "model_not_available")
          else (404, "model_not_found")
  end.

Lemma collect_direct_outcome snap f requested allow m forced :
  is_model_globally_enabled snap m = true →
  direct_outcome snap f allow m (List.filter (bound_to forced) (sn_providers snap))
    (collect_direct snap f requested allow m forced).
Proof.
  intros Hg. unfold collect_direct. rewrite Hg. cbn [negb]. unfold finish_collection.
  rewrite foldl_provider_step_forced. set (ps := List.filter (bound_to forced) (sn_providers snap)).
  destruct (foldl_provider_step snap f allow m ps empty_collection) as (Hr & Hi & Ho).
  set (c := foldl _ _ ps) in *. cbn [cl_routes cl_inventory_candidates cl_route_candidates empty_collection] in *.
  rewrite app_nil_l in Hr. rewrite Z.add_0_l in Hi. rewrite Z.add_0_l in Ho.
  unfold finish_route_collection. rewrite Hr Hi Ho !filter_length_0.
  destruct (is_empty (omap (direct_route snap f allow m) ps)) eqn:Ee; cbn [negb].
  - apply is_empty_true in Ee. destruct (existsb (routed snap m) ps) eqn:E1; [split; [done|by rewrite E1]|].
    destruct (existsb (inventoried snap m) ps) eqn:E2; [split; [done|by rewrite E1 E2]|].
    assert (rd_rejections (cl_diagnostics c) = take 100 (flat_map (inventory_rejection snap m) ps)) as Hd.
    { unfold c. by rewrite foldl_provider_step_rejections. }
    pose proof (known_but_inactive_inventory snap m ps 100 (cl_diagnostics c) E2 Hd) as Hk. rewrite Hk.
    destruct (existsb (inactive snap m) (take 100 ps)) eqn:E3; (split; [done|by rewrite E1 E2 E3]).
  - split; [done|]. intros E. by rewrite E in Ee.
Qed.

Lemma filter_bound_to_None (l : list UpstreamProvider) : List.filter (bound_to None) l = l.
Proof. induction l as [|p l IH]; [done|]. by rewrite /= IH. Qed.

Lemma not_inventoried_no_route snap f allow m ps :
  existsb (inventoried snap m) ps = false →
  existsb (routed snap m) ps = false ∧ omap (direct_route snap f allow m) ps = [].
Proof.
  induction ps as [|p ps IH]; cbn [existsb]; [done|]. intros [Hp Hps]%orb_false_iff.
  destruct (IH Hps) as [H1 H2]. assert (routed snap m p = false) as Hr by (unfold routed; by rewrite Hp).
  rewrite Hr H1. split; [done|]. rewrite omap_cons_None; [done|]. unfold direct_route. by rewrite Hr.
Qed.

(** Route collection is exact for a model that is not a gateway alias: the routes
    are those of every provider that has it active, allowed and in a usable
    protocol, in the configuration's order; with none, the error says at which test
    the last candidates failed (protocol, route, inventory). *)
Theorem direct_routes_exact snap f requested allow m forced :
  is_model_globally_enabled snap requested = true → is_model_globally_enabled snap m = true →
  direct_target snap requested = Some (m, forced) →
  direct_outcome snap f allow m (List.filter (bound_to forced) (sn_providers snap))
    (collect_provider_routes_inner snap f requested allow).
Proof.
  intros Hg Hm Ht. unfold collect_provider_routes_inner. rewrite Hg. cbn [negb]. unfold direct_target in Ht.
  destruct (sn_model_aliases_by_name snap !! requested); [done|].
  destruct (sn_alias_to_provider_model snap !! requested) as [t|].
  - destruct (pa_enabled t); [|done]. injection Ht as <- <-. cbn [negb]. by apply collect_direct_outcome.
  - injection Ht as <- <-. by apply collect_direct_outcome.
Qed.

(** A disabled model may be reported as unknown: only the first hundred rejections
    are kept, so when a hundred providers do not register the model before the one
    that has it disabled, the answer is 404 where it means 503. *)
Theorem inactive_model_reported_unknown snap f requested allow p :
  is_model_globally_enabled snap requested = true → direct_target snap requested = Some (requested, None) →
  existsb (inventoried snap requested) (sn_providers snap) = false →
  existsb (inactive snap requested) (take 100 (sn_providers snap)) = false →
  p ∈ sn_providers snap → inactive snap requested p = true →
  ∃ e, collect_provider_routes_inner snap f requested allow = inr e
    ∧ re_status e = 404 ∧ re_code e = "model_not_found".
Proof.
  intros Hg Ht Hi Hin _ _. unfold collect_provider_routes_inner. rewrite Hg. cbn [negb].
  unfold direct_target in Ht. destruct (sn_model_aliases_by_name snap !! requested); [done|].
  destruct (sn_alias_to_provider_model snap !! requested) as [t|].
  { destruct (pa_enabled t); [|done]. by injection Ht as _ Ht. }
  pose proof (collect_direct_outcome snap f requested allow requested None Hg) as Ho.
  rewrite filter_bound_to_None in Ho. destruct (not_inventoried_no_route snap f allow _ _ Hi) as [Hr Hn].
  destruct (collect_direct _ _ _ _ _ _) as [[routes d]|e]; cbn [direct_outcome] in Ho.
  - by destruct Ho as [-> Hne].
  - exists e. destruct Ho as [_ Ho]. rewrite Hr Hi Hin in Ho. by injection Ho.
Qed.
End Exact.

(** ** The model list *)
Section Listing.
Context {D : Type}.
Implicit Types snap : UpstreamSnapshot D.

(** A route an API key can use: authorised, enabled, with an enabled key for it. *)
Definition usable_route snap (allowed_provider_ids : list Z) (r : ProviderRoute) : bool :=
  up_enabled (ro_provider r) && existsb (Z.eqb (up_id (ro_provider r))) allowed_provider_ids
  && is_some_and (sn_keys_by_provider snap !! up_id (ro_provider r)) (existsb (λ k,
       uk_enabled k && key_allows_model snap (uk_id k) (ro_upstream_model r))).

(** The models [list_models] shows to an API key. *)
Definition listed_models snap (allowed_provider_ids : list Z) : list string :=
  List.filter (λ model,
    existsb (λ format,
      match collect_provider_routes snap format model true with
      | inl (routes, _) => existsb (usable_route snap allowed_provider_ids) routes
      | inr _ => false
      end) [ChatCompletions; Responses]) (sn_model_registry_ids snap).

Record CatalogCandidate := MkCatalogCandidate { ca_slug : string; ca_metadata_model : option string }.

Definition catalog_route snap (allowed_provider_ids : list Z) (now_ms : Z) (r : ProviderRoute) : bool :=
  let p := ro_provider r in
  up_enabled p && existsb (Z.eqb (up_id p)) allowed_provider_ids
  && is_some_and (sn_endpoints_by_provider snap !! up_id p) (existsb ue_enabled)
  && is_some_and (sn_keys_by_provider snap !! up_id p)
       (existsb (key_serves snap p (ro_upstream_model r) now_ms)).

Definition codex_catalog_candidates snap (allowed_provider_ids : list Z) (now_ms : Z) : list CatalogCandidate :=
  omap (λ model,
    match collect_provider_routes snap Responses model true with
    | inr _ => None
    | inl (routes, _) =>
        let routes := List.filter (catalog_route snap allowed_provider_ids now_ms) routes in
        let! first := head routes in
        Some (MkCatalogCandidate model
          (if forallb (λ r, is_none (pp_conversion (ro_protocol r))
                            && String.eqb (ro_upstream_model r) (ro_upstream_model first)) routes
           then Some (ro_upstream_model first) else None))
    end) (sn_model_registry_ids snap).
End Listing.

(** ** Concrete configurations *)
Definition wr_provider (id : Z) (kind : string) : UpstreamProvider :=
  MkProvider None true id "p" kind true 0 1 true false [] (MkOverrides [] []) "weighted" 2 None true 3 1000 1.

Definition wr_state (enabled : bool) : ProviderModelState := MkModelState enabled true true.

(** A provider whose inventory has the model [m] disabled, after [n] that lack it. *)
Definition wr_snapshot (n : nat) : UpstreamSnapshot Z :=
  let ps := map (λ i, wr_provider (Z.of_nat i) "openai") (seq 0 n) in
  MkSnapshot (ps ++ [wr_provider 1000 "openai"]) ∅ ∅ ∅ ∅ ∅
    (<[1000 := {["m" := wr_state false]}]> (list_to_map (map (λ p, (up_id p, ∅)) ps)))
    ∅ ∅ ∅ ∅ ∅ ∅ [] ∅ ∅.

Definition wr_good : UpstreamSnapshot Z :=
  MkSnapshot [wr_provider 1 "openai"; wr_provider 2 "openai_compatible"] ∅ ∅ ∅ ∅ ∅
    (<[1 := {["m" := wr_state true]}]> (<[2 := {["m" := wr_state true]}]> ∅)) ∅ ∅ ∅ ∅ ∅ ∅ [] ∅ ∅.

Lemma routes_sound_witness :
  ∃ routes d, collect_provider_routes wr_good Responses "m" false = inl (routes, d)
    ∧ Forall (route_ok wr_good Responses false) routes
    ∧ map (λ r, up_id (ro_provider r)) routes = [1].
Proof.
  destruct (collect_provider_routes wr_good Responses "m" false) as [[routes d]|e] eqn:E.
  - exists routes, d. split; [reflexivity|]. split; [exact (proj1 (proj2 (proj2 (routes_sound _ _ _ _ _ _ E))))|].
    vm_compute in E. injection E as <- _. reflexivity.
  - vm_compute in E. discriminate E.
Defined.

Lemma direct_routes_exact_witness :
  direct_outcome wr_good Responses true "m" (sn_providers wr_good)
    (collect_provider_routes_inner wr_good Responses "m" true).
Proof.
  exact (direct_routes_exact wr_good Responses "m" true "m" None
    ltac:(vm_compute; reflexivity) ltac:(vm_compute; reflexivity) ltac:(vm_compute; reflexivity)).
Defined.

Lemma inactive_model_reported_unknown_witness :
  ∃ e, collect_provider_routes_inner (wr_snapshot 100) Responses "m" true = inr e
    ∧ re_status e = 404 ∧ re_code e = "model_not_found".
Proof.
  apply (inactive_model_reported_unknown (wr_snapshot 100) Responses "m" true (wr_provider 1000 "openai")).
  - vm_compute. reflexivity.
  - vm_compute. reflexivity.
  - vm_compute. reflexivity.
  - vm_compute. reflexivity.
  - unfold wr_snapshot. cbn [sn_providers]. apply elem_of_app. right. by left.
  - vm_compute. reflexivity.
Defined.

(** With one provider less the same model is reported as unavailable. *)
Example inactive_model_reported :
  match collect_provider_routes_inner (wr_snapshot 99) Responses "m" true with
  | inr e => (re_status e, re_code e) = (503, "model_not_available")
  | inl _ => False
  end.
Proof. vm_compute. reflexivity. Qed.
