(* ===== verification/Plan.v ===== *)
(** * Plan: the ordered attempts of a request

    Models [build_upstream_plan] of [proxy.rs] and what it is made of: authorisation,
    the tests of every route against the runtime state, the order of providers, keys
    and endpoints, session affinity and the retry time. The clock is read several
    times in one call; its readings are parameters. Metrics are not modelled. *)
From Stdlib Require Import Ascii String.
From S2P Require Import Prelude Text Json ProbeProtocol Resilience Types RuntimeHealth ProviderRuntime.
From S2P Require Import Quota KeyRotation Weighted Selector Affinity Pricing Snapshot RoutingAvailability Routing.

Local Open Scope string_scope.
Local Open Scope list_scope.
Local Open Scope Z_scope.

Definition MAX_PROVIDER_SWITCHES : Z := MAX_ATTEMPTS - 1.
Definition MAX_DISTINCT_PROVIDERS : Z := MAX_PROVIDER_SWITCHES + 1.

Record ResolvedUpstream (D : Type) := MkResolved {
  ru_upstream_model : string;
  ru_provider : UpstreamProvider;
  ru_endpoint : UpstreamEndpoint;
  ru_key : UpstreamKey;
  ru_price : option (PriceVersion D);
  ru_protocol : ProtocolPlan
}.
Arguments MkResolved {D}. Arguments ru_upstream_model {D}. Arguments ru_provider {D}.
Arguments ru_endpoint {D}. Arguments ru_key {D}. Arguments ru_price {D}. Arguments ru_protocol {D}.

Record SchedulableProvider (D : Type) := MkSchedulable {
  sp_route : ProviderRoute;
  sp_effective_priority : Z;
  sp_effective_weight : Z;
  sp_keys : list UpstreamKey;
  sp_endpoints : list UpstreamEndpoint;
  sp_price : option (PriceVersion D)
}.
Arguments MkSchedulable {D}. Arguments sp_route {D}. Arguments sp_effective_priority {D}.
Arguments sp_effective_weight {D}. Arguments sp_keys {D}. Arguments sp_endpoints {D}. Arguments sp_price {D}.

Record UpstreamPlan (D : Type) := MkPlan {
  pl_sticky : bool;
  pl_route_policy : option RoutePolicy;
  pl_attempts : list (ResolvedUpstream D);
  pl_transient_spill_provider_ids : gset Z;
  pl_diagnostics : RouteDiagnostics
}.
Arguments MkPlan {D}. Arguments pl_sticky {D}. Arguments pl_route_policy {D}. Arguments pl_attempts {D}.
Arguments pl_transient_spill_provider_ids {D}. Arguments pl_diagnostics {D}.

Section Order.
Context {D R : Type} `{FastRand R}.
Implicit Types r : R.

(** ** The order of providers *)
Definition provider_id_of (p : SchedulableProvider D) : Z := up_id (ro_provider (sp_route p)).

Definition weighted_sample_provider (providers : list (SchedulableProvider D)) r : nat * R :=
  let weights := map sp_effective_weight providers in
  let total := total_weight weights in
  if total <=? 0 then
    let '(i, r) := rand_below (Z.of_nat (length providers)) r in (Z.to_nat i, r)
  else
    let '(offset, r) := rand_below total r in
    (unwrap_or (pick_index weights offset) (length providers - 1)%nat, r).

(** The loop over the providers of one priority; one provider leaves per turn. *)
Fixpoint order_priority_group (fuel : nat) (group : list (SchedulableProvider D)) r
    : list (SchedulableProvider D) * R :=
  match fuel with
  | O => ([], r)
  | S fuel' =>
      if is_empty group then ([], r)
      else if forallb (λ p, sp_effective_weight p =? 0) group then (sort_by_key1 provider_id_of group, r)
      else
        let '(selected, r) := weighted_sample_provider group r in
        let '(rest, r) := order_priority_group fuel' (swap_remove selected group) r in
        (option_list (group !! selected) ++ rest, r)
  end.

(** The loop over the priorities, lowest first. *)
Fixpoint order_priorities (fuel : nat) (providers : list (SchedulableProvider D)) r
    : list (SchedulableProvider D) * R :=
  match fuel with
  | O => ([], r)
  | S fuel' =>
      if is_empty providers then ([], r)
      else
        let best_priority := unwrap_or (min_opt (map sp_effective_priority providers)) i32_max in
        let group := List.filter (λ p, sp_effective_priority p =? best_priority) providers in
        let remaining := List.filter (λ p, negb (sp_effective_priority p =? best_priority)) providers in
        let '(first, r) := order_priority_group (length group) group r in
        let '(rest, r) := order_priorities fuel' remaining r in
        (first ++ rest, r)
  end.

Fixpoint position {A} (f : A → bool) (l : list A) : option nat :=
  match l with
  | [] => None
  | x :: l' => if f x then Some O else option_map S (position f l')
  end.

Definition order_schedulable_providers (providers : list (SchedulableProvider D))
    (affinity_provider_id : option Z) r : list (SchedulableProvider D) * R :=
  let found := let! id := affinity_provider_id in position (λ p, provider_id_of p =? id) providers in
  let '(first, providers) :=
    match found with
    | Some index => (option_list (providers !! index), swap_remove index providers)
    | None => ([], providers)
    end in
  let '(rest, r) := order_priorities (length providers) providers r in
  (first ++ rest, r).

(** ** Attempts *)
Definition attempts_of (p : SchedulableProvider D) : list (ResolvedUpstream D) :=
  flat_map (λ endpoint,
    map (λ key, MkResolved (ro_upstream_model (sp_route p)) (ro_provider (sp_route p)) endpoint key
                  (sp_price p) (ro_protocol (sp_route p)))
      (take (Z.to_nat MAX_ATTEMPTS) (sp_keys p)))
    (take (Z.to_nat MAX_ATTEMPTS) (sp_endpoints p)).

Definition build_scheduled_attempts (schedulable : list (SchedulableProvider D))
    (affinity_provider_id : option Z) r : list (ResolvedUpstream D) * R :=
  let '(ordered, r) := order_schedulable_providers schedulable affinity_provider_id r in
  (flat_map attempts_of (take (Z.to_nat MAX_DISTINCT_PROVIDERS) ordered), r).
End Order.

(** ** The order of keys *)
Definition order_keys_for_provider (rotation : KeyRotationBook) (provider_id : Z) (strategy : string)
    (ranked_keys : list UpstreamKey) : list UpstreamKey * KeyRotationBook :=
  if String.eqb strategy "round_robin" then
    rotate_provider rotation provider_id (sort_by_key1 uk_id ranked_keys)
  else if String.eqb strategy "ordered" then
    (sort_by_key2 (λ k, (uk_priority k, uk_id k)) ranked_keys, rotation)
  else (ranked_keys, rotation).

(** ** Building the plan *)

(** The readings of the clock in one call: the plan's own, one per provider for its
    retry time, one per key for its availability. *)
Record PlanClock := MkClock {
  pc_now : Z;
  pc_retry : UpstreamProvider → Z;
  pc_account : UpstreamKey → Z
}.

(** Keeps the routes that pass, with a rejection for every other. *)
Fixpoint sift_routes (keep : ProviderRoute → bool) (stage code message : string)
    (routes : list ProviderRoute) (d : RouteDiagnostics) : list ProviderRoute * RouteDiagnostics :=
  match routes with
  | [] => ([], d)
  | route :: routes' =>
      if keep route then
        let '(kept, d) := sift_routes keep stage code message routes' d in (route :: kept, d)
      else
        sift_routes keep stage code message routes'
          (reject d (Some (up_id (ro_provider route))) (ro_upstream_model route) stage code message)
  end.

Section Plan.
Context {D R : Type} `{FastRand R}.
Implicit Types snap : UpstreamSnapshot D.
Implicit Types s : SharedState.

(** The filter of the enabled keys by their availability. *)
Fixpoint available_keys s snap (provider : UpstreamProvider) (upstream_model : string)
    (clock : UpstreamKey → Z) (keys : list UpstreamKey) (d : RouteDiagnostics)
    : list UpstreamKey * RouteDiagnostics * SharedState :=
  match keys with
  | [] => ([], d, s)
  | key :: keys' =>
      let '(availability, s) := account s snap provider key (Some upstream_model) false (clock key) in
      let d := if av_available availability then d
               else reject d (Some (up_id provider)) upstream_model "runtime"
                      (unwrap_or (av_reason availability) "account_unavailable")
                      "upstream account or its connection path is temporarily unavailable" in
      let '(rest, d, s) := available_keys s snap provider upstream_model clock keys' d in
      (if av_available availability then key :: rest else rest, d, s)
  end.

Fixpoint retry_times s snap (clock : UpstreamProvider → Z) (routes : list ProviderRoute)
    : list Z * SharedState :=
  match routes with
  | [] => ([], s)
  | route :: routes' =>
      let '(retry, s) := provider_retry_at s snap (ro_provider route) (Some (ro_upstream_model route))
                           (clock (ro_provider route)) in
      let '(rest, s) := retry_times s snap clock routes' in
      (option_list retry ++ rest, s)
  end.

(** Priority and weight of a route under its policy. *)
Definition policy_target (policy : option RoutePolicy) (provider_id : Z) : option RouteTarget :=
  let! p := policy in List.find (λ t, rt_provider_id t =? provider_id) (rp_targets p).

Definition is_explicit (policy : option RoutePolicy) : bool :=
  is_some_and policy (λ p, negb (String.eqb (rp_model_name p) "*")).

Definition effective_priority (policy : option RoutePolicy) (route : ProviderRoute) : Z :=
  let target := policy_target policy (up_id (ro_provider route)) in
  let of_target := unwrap_or (option_map rt_priority target) 100 in
  if is_explicit policy then of_target else unwrap_or (ro_route_priority route) of_target.

Definition is_weighted snap (policy : option RoutePolicy) (requested_model : string) : bool :=
  if is_explicit policy then is_some_and policy (λ p, String.eqb (rp_mode p) "weighted")
  else match sn_model_aliases_by_name snap !! requested_model with
       | Some alias => String.eqb (ma_mode alias) "weighted"
       | None => is_some_and policy (λ p, String.eqb (rp_mode p) "weighted")
       end.

Definition effective_weight snap (policy : option RoutePolicy) (requested_model : string)
    (route : ProviderRoute) : Z :=
  let target := policy_target policy (up_id (ro_provider route)) in
  let of_target := unwrap_or (option_map rt_weight target) 1 in
  if negb (is_weighted snap policy requested_model) then 0
  else if is_explicit policy then Z.max of_target 1
  else Z.max (unwrap_or (ro_route_weight route) of_target) 1.

(** The variables of the loop over the enabled routes. *)
Record Scheduling := MkScheduling {
  sg_schedulable : list (SchedulableProvider D);
  sg_spill : gset Z;
  sg_key_ready : Z;
  sg_static_ready : Z;
  sg_diagnostics : RouteDiagnostics;
  sg_state : SharedState;
  sg_rand : R
}.

Definition sg_reject (g : Scheduling) (route : ProviderRoute) (stage code message : string) : Scheduling :=
  MkScheduling (sg_schedulable g) (sg_spill g) (sg_key_ready g) (sg_static_ready g)
    (reject (sg_diagnostics g) (Some (up_id (ro_provider route))) (ro_upstream_model route) stage code message)
    (sg_state g) (sg_rand g).
Definition sg_add_spill (g : Scheduling) (id : Z) : Scheduling :=
  MkScheduling (sg_schedulable g) ({[ id ]} ∪ sg_spill g) (sg_key_ready g) (sg_static_ready g)
    (sg_diagnostics g) (sg_state g) (sg_rand g).
Definition sg_count_key_ready (g : Scheduling) : Scheduling :=
  MkScheduling (sg_schedulable g) (sg_spill g) (sg_key_ready g + 1) (sg_static_ready g)
    (sg_diagnostics g) (sg_state g) (sg_rand g).
Definition sg_count_static_ready (g : Scheduling) : Scheduling :=
  MkScheduling (sg_schedulable g) (sg_spill g) (sg_key_ready g) (sg_static_ready g + 1)
    (sg_diagnostics g) (sg_state g) (sg_rand g).
Definition sg_with (g : Scheduling) (d : RouteDiagnostics) s (r : R) : Scheduling :=
  MkScheduling (sg_schedulable g) (sg_spill g) (sg_key_ready g) (sg_static_ready g) d s r.

(** What is fixed during the loop. *)
Record PlanContext := MkPlanContext {
  px_snap : UpstreamSnapshot D;
  px_requested_model : string;
  px_policy : option RoutePolicy;
  px_affinity : option AffinityIdentity;
  px_strategy : EndpointSelectorStrategy;
  px_clock : PlanClock
}.

(** The last part of the loop's body: the route is scheduled. *)
Definition schedule (x : PlanContext) (route : ProviderRoute) (keys : list UpstreamKey)
    (endpoints : list UpstreamEndpoint) (g : Scheduling) : Scheduling :=
  let snap := px_snap x in
  let policy := px_policy x in
  let provider := ro_provider route in
  if is_explicit policy && is_none (policy_target policy (up_id provider)) then g
  else
    let priority := effective_priority policy route in
    let weight := effective_weight snap policy (px_requested_model x) route in
    let price := find_price_for_request snap (up_id provider) (px_requested_model x) (ro_upstream_model route) in
    let candidate := MkCandidate (up_id provider) (ro_upstream_model route) priority weight
      (up_max_attempts provider) (api_format_name (pp_upstream_api_format (ro_protocol route)))
      (conversion_name (ro_protocol route)) in
    MkScheduling (sg_schedulable g ++ [MkSchedulable route priority weight keys endpoints price])
      (sg_spill g) (sg_key_ready g) (sg_static_ready g)
      (MkDiagnostics (rd_candidates (sg_diagnostics g) ++ [candidate]) (rd_rejections (sg_diagnostics g)))
      (sg_state g) (sg_rand g).

(** Ranking the available keys and the enabled endpoints. *)
Definition rank_route (x : PlanContext) (route : ProviderRoute) (keys : list UpstreamKey)
    (endpoints : list UpstreamEndpoint) (g : Scheduling) : Scheduling :=
  let provider := ro_provider route in
  let now := pc_now (px_clock x) in
  let s := sg_state g in
  let '(ranked, r) := rank_key_refs_with_health keys (ss_upstream_key_health s) now (sg_rand g) in
  let '(ranked, rotation) :=
    order_keys_for_provider (ss_key_rotation s) (up_id provider) (up_key_selection_strategy provider) ranked in
  let g := sg_with g (sg_diagnostics g) (set_ss_key_rotation rotation s) r in
  if is_empty ranked then
    sg_reject (sg_add_spill g (up_id provider)) route "runtime" "no_healthy_upstream_key"
      "all model-capable upstream keys are unhealthy or circuit-open"
  else
    let ranked_endpoints :=
      rank_endpoint_refs_with_health endpoints (ss_endpoint_health s) (px_strategy x) now in
    let ranked_endpoints := if up_endpoint_failover provider then ranked_endpoints else take 1 ranked_endpoints in
    if is_empty ranked_endpoints then
      sg_reject g route "runtime" "no_healthy_upstream_endpoint"
        "all enabled upstream endpoints are unhealthy or circuit-open"
    else schedule x route ranked ranked_endpoints g.

(** The tests against the runtime state. *)
Definition admit_route (x : PlanContext) (route : ProviderRoute) (keys : list UpstreamKey)
    (endpoints : list UpstreamEndpoint) (g : Scheduling) : Scheduling :=
  let provider := ro_provider route in
  let now := pc_now (px_clock x) in
  let '(avoided, book) :=
    match px_affinity x with
    | Some identity => is_provider_avoided (ss_affinity (sg_state g)) identity (up_id provider) now
    | None => (false, ss_affinity (sg_state g))
    end in
  let g := sg_with g (sg_diagnostics g) (set_ss_affinity book (sg_state g)) (sg_rand g) in
  if avoided then
    sg_reject g route "runtime" "affinity_provider_avoided"
      "provider is temporarily avoided for this affinity identity"
  else
    let runtime := ProviderRuntime.snapshot (ss_provider_runtime (sg_state g)) provider now in
    if negb (pv_available runtime) then
      match pv_state runtime with
      | Open => sg_reject g route "runtime" "provider_circuit_open" "provider circuit is open"
      | HalfOpen => sg_reject g route "runtime" "recovery_probe_in_progress"
                      "provider recovery probe is already in progress"
      | Closed => sg_reject (sg_add_spill g (up_id provider)) route "runtime" "provider_capacity_exhausted"
                    "provider concurrency capacity is exhausted"
      end
    else
      let '(keys, d, s) := available_keys (sg_state g) (px_snap x) provider (ro_upstream_model route)
                             (pc_account (px_clock x)) keys (sg_diagnostics g) in
      let g := sg_with g d s (sg_rand g) in
      if is_empty keys then sg_add_spill g (up_id provider)
      else rank_route x route keys endpoints g.

(** One enabled route. *)
Definition plan_step (x : PlanContext) (g : Scheduling) (route : ProviderRoute) : Scheduling :=
  let snap := px_snap x in
  let provider := ro_provider route in
  let model_keys := List.filter (λ key, key_allows_model snap (uk_id key) (ro_upstream_model route))
                      (unwrap_or (sn_keys_by_provider snap !! up_id provider) []) in
  if is_empty model_keys then
    sg_reject g route "static_configuration" "no_upstream_key_for_model"
      "provider has no upstream key registered for this model"
  else
    let enabled_keys := List.filter uk_enabled model_keys in
    if is_empty enabled_keys then
      sg_reject g route "static_configuration" "no_enabled_upstream_key"
        "all upstream keys registered for this model are disabled"
    else
      let g := sg_count_key_ready g in
      let endpoints := List.filter ue_enabled (unwrap_or (sn_endpoints_by_provider snap !! up_id provider) []) in
      if is_empty endpoints then
        sg_reject g route "static_configuration" "no_enabled_upstream_endpoint"
          "provider has no enabled upstream endpoint"
      else admit_route x route enabled_keys endpoints (sg_count_static_ready g).

Definition unavailable_error (requested_model : string) (d : RouteDiagnostics) (retry_at_ms : option Z)
    : RouteResolutionError :=
  MkResolutionError 503 "upstream_unavailable" "all_upstreams_temporarily_unavailable"
    ("All upstream targets for model " +:+ quoted requested_model +:+ " are temporarily unavailable")
    d retry_at_ms.

(** The error when no provider could be scheduled. *)
Definition unscheduled_error (requested_model : string) (g : Scheduling) (retry_at_ms : option Z)
    : RouteResolutionError :=
  if sg_key_ready g =? 0 then
    resolution_error 503 "upstream_configuration_error" "no_upstream_key_for_model"
      ("Model " +:+ quoted requested_model +:+ " has no enabled upstream key registered for this model")
      (sg_diagnostics g)
  else if sg_static_ready g =? 0 then
    resolution_error 503 "upstream_configuration_error" "no_enabled_upstream_endpoint"
      ("Model " +:+ quoted requested_model +:+ " has no enabled upstream endpoint") (sg_diagnostics g)
  else unavailable_error requested_model (sg_diagnostics g) retry_at_ms.

(** From the loop to the plan. *)
Definition finish_plan (x : PlanContext) (affinity_provider_id : option Z) (retry_at_ms : option Z)
    (g : Scheduling) : (UpstreamPlan D + RouteResolutionError) * SharedState * R :=
  if is_empty (sg_schedulable g) then
    (inr (unscheduled_error (px_requested_model x) g retry_at_ms), sg_state g, sg_rand g)
  else
    let '(attempts, r) := build_scheduled_attempts (sg_schedulable g) affinity_provider_id (sg_rand g) in
    let attempts :=
      match head attempts with
      | Some first =>
          if is_some_and (px_policy x) (λ p, negb (rp_failover p))
          then List.filter (λ a, up_id (ru_provider a) =? up_id (ru_provider first)) attempts
          else attempts
      | None => attempts
      end in
    if is_empty attempts then
      (inr (unavailable_error (px_requested_model x) (sg_diagnostics g) retry_at_ms), sg_state g, r)
    else
      (inl (MkPlan (is_none_or (px_policy x) rp_sticky) (px_policy x) attempts (sg_spill g)
              (sg_diagnostics g)), sg_state g, r).

(** The routes an API key may use, or the error. *)
Definition authorize (requested_model : string) (allowed_provider_ids : list Z)
    (routes : list ProviderRoute) (d : RouteDiagnostics)
    : list ProviderRoute * RouteDiagnostics + RouteResolutionError :=
  let '(authorized, d) := sift_routes (λ route, existsb (Z.eqb (up_id (ro_provider route))) allowed_provider_ids)
    "authorization" "provider_denied" "API key does not allow this upstream" routes d in
  if is_empty authorized then
    inr (resolution_error 403 "permission_error" "model_not_authorized"
      ("Model " +:+ quoted requested_model +:+
       " is registered, but this API key is not authorized for any matching provider") d)
  else
    let '(enabled, d) := sift_routes (λ route, up_enabled (ro_provider route))
      "static_configuration" "provider_disabled" "provider is disabled" authorized d in
    if is_empty enabled then
      inr (resolution_error 503 "upstream_configuration_error" "no_enabled_upstream_provider"
        ("Model " +:+ quoted requested_model +:+ " has no enabled upstream provider") d)
    else inl (enabled, d).

(** [load] is the cache's answer. *)
Definition build_upstream_plan s (load : UpstreamSnapshot D + string) (strategy : EndpointSelectorStrategy)
    (api_format : ApiFormat) (requested_model : string) (api_key : ApiKeyAuth)
    (affinity : option AffinityIdentity) (allow_responses_via_chat : bool) (clock : PlanClock) (r : R)
    : (UpstreamPlan D + RouteResolutionError) * SharedState * R :=
  match load with
  | inr message =>
      (inr (resolution_error 500 "server_error" "upstream_snapshot_failed" message default_diagnostics), s, r)
  | inl snap =>
      match collect_provider_routes snap api_format requested_model allow_responses_via_chat with
      | inr e => (inr e, s, r)
      | inl (routes, d) =>
          let policy := route_policy snap requested_model in
          let affinity := if is_none_or policy rp_sticky then affinity else None in
          match authorize requested_model (ak_allowed_provider_ids api_key) routes d with
          | inr e => (inr e, s, r)
          | inl (enabled, d) =>
              let '(times, s) := retry_times s snap (pc_retry clock) enabled in
              let '(binding, book) :=
                match affinity with
                | Some identity => Affinity.lookup (ss_affinity s) identity (pc_now clock)
                | None => (None, ss_affinity s)
                end in
              let s := set_ss_affinity book s in
              let x := MkPlanContext snap requested_model policy affinity strategy clock in
              finish_plan x (option_map ab_provider_id binding) (min_opt times)
                (foldl (plan_step x) (MkScheduling [] ∅ 0 0 d s r) enabled)
          end
      end
  end.
End Plan.
Arguments Scheduling : clear implicits.
Arguments PlanContext : clear implicits.

(** ** Affinity *)
Section PlanAffinity.
Context {D : Type}.
Context {EntryOrder : HashOrder AffinityKey AffinityEntry}.

(** A target the binding names. *)
Definition is_exact (binding : AffinityBinding) (a : ResolvedUpstream D) : bool :=
  (up_id (ru_provider a) =? ab_provider_id binding)
  && is_none_or (ab_upstream_key_id binding) (λ key_id, uk_id (ru_key a) =? key_id)
  && is_none_or (ab_endpoint_id binding) (λ endpoint_id, ue_id (ru_endpoint a) =? endpoint_id).

(** The sort key [(!exact, other provider)]: [false < true]. *)
Definition prefer_key (binding : AffinityBinding) (a : ResolvedUpstream D) : Z * Z :=
  (if is_exact binding a then 0 else 1, if up_id (ru_provider a) =? ab_provider_id binding then 0 else 1).

Definition set_attempts (attempts : list (ResolvedUpstream D)) (p : UpstreamPlan D) : UpstreamPlan D :=
  MkPlan (pl_sticky p) (pl_route_policy p) attempts (pl_transient_spill_provider_ids p) (pl_diagnostics p).

Definition prefer_target (p : UpstreamPlan D) (binding : AffinityBinding) : bool * UpstreamPlan D :=
  if existsb (is_exact binding) (pl_attempts p)
  then (true, set_attempts (sort_by_key2 (prefer_key binding) (pl_attempts p)) p)
  else (false, p).

Definition apply_affinity_to_plan (s : SharedState) (identity : option AffinityIdentity)
    (existing : option AffinityBinding) (p : UpstreamPlan D) (now : Z)
    : option AffinityBinding * UpstreamPlan D * SharedState :=
  if negb (pl_sticky p) then (None, p, s)
  else match identity with
       | None => (None, p, s)
       | Some identity =>
           let claim (s : SharedState) :=
             match head (pl_attempts p) with
             | None => (None, p, s)
             | Some first =>
                 let '(binding, book) := claim_target (ss_affinity s) identity (up_id (ru_provider first))
                   (Some (uk_id (ru_key first))) (Some (ue_id (ru_endpoint first))) now in
                 (Some binding, (prefer_target p binding).2, set_ss_affinity book s)
             end in
           match existing with
           | Some binding =>
               let '(preferred, p') := prefer_target p binding in
               if preferred || bool_decide (ab_provider_id binding ∈ pl_transient_spill_provider_ids p)
               then (Some binding, p', s)
               else claim (set_ss_affinity
                      (clear_if_provider (ss_affinity s) identity (ab_provider_id binding)).2 s)
           | None => claim s
           end
       end.
End PlanAffinity.

(** ** When to try again *)
Section PlanRetry.
Context {D : Type}.

Definition target_blocked_until (s : SharedState) (now : Z) (a : ResolvedUpstream D) : Z * SharedState :=
  let '(quota, book) := quota_snapshot (ss_quota s) (uk_id (ru_key a)) now in
  (unwrap_or (max_opt
     (option_list (hv_open_until_ms (RuntimeHealth.snapshot (ss_endpoint_health s) (ue_id (ru_endpoint a)) now))
      ++ option_list (hv_open_until_ms (RuntimeHealth.snapshot (ss_upstream_key_health s) (uk_id (ru_key a)) now))
      ++ option_list (pv_open_until_ms (ProviderRuntime.snapshot (ss_provider_runtime s) (ru_provider a) now))
      ++ option_list (qv_cooldown_until_ms quota) ++ option_list (Quota.blocked_until_ms quota) ++ [now])) now,
   set_ss_quota book s).

Fixpoint targets_blocked_until (s : SharedState) (now : Z) (attempts : list (ResolvedUpstream D))
    : list Z * SharedState :=
  match attempts with
  | [] => ([], s)
  | a :: attempts' =>
      let '(until, s) := target_blocked_until s now a in
      let '(rest, s) := targets_blocked_until s now attempts' in
      (until :: rest, s)
  end.

Definition plan_retry_at (s : SharedState) (p : UpstreamPlan D) (now : Z) : option Z * SharedState :=
  let '(untils, s) := targets_blocked_until s now (pl_attempts p) in
  (opt_filter (λ until, now <? until) (min_opt untils), s).

(** The [Retry-After] header of an error response, in seconds. *)
Definition retry_after_seconds (parse_http_date : string → option Z) (headers : string → option string)
    (retry_at_ms : option Z) (now : Z) : Z :=
  let seconds := Z.max 1 (unwrap_or (option_map (λ until, i64_sat_add (i64_sat_sub until now) 999 ÷ 1000) retry_at_ms) 1) in
  Z.max seconds (i64_sat_add (unwrap_or (retry_after_ms parse_http_date headers now) 0) 999 ÷ 1000).
End PlanRetry.

(** ** Order: facts *)
Section OrderFacts.
Context {D R : Type} `{FastRandOk R}.
Implicit Types g l : list (SchedulableProvider D).

Lemma weighted_sample_lt g (r : R) :
  g ≠ [] → ((weighted_sample_provider g r).1 < length g)%nat.
Proof.
  intros Hne. assert (0 < length g)%nat as Hpos by (destruct g; simpl; [done|lia]).
  unfold weighted_sample_provider. destruct (total_weight _ <=? 0).
  - pose proof (rand_below_range (Z.of_nat (length g)) r ltac:(lia)).
    destruct (rand_below _ r) as [i r']. cbn [fst] in *. lia.
  - destruct (rand_below _ r) as [o r']. cbn [fst].
    destruct (pick_index _ o) eqn:E; simpl; [|lia].
    apply pick_index_lt in E. by rewrite length_map in E.
Qed.

Lemma order_priority_group_perm fuel g (r : R) :
  (length g <= fuel)%nat → (order_priority_group fuel g r).1 ≡ₚ g.
Proof.
  revert g r. induction fuel as [|fuel IH]; intros g r Hf; [by destruct g; [|simpl in Hf; lia]|].
  cbn [order_priority_group]. destruct (is_empty g) eqn:Ee; [by apply is_empty_true in Ee as ->|].
  destruct (forallb _ g); [apply sort_by_key1_perm|].
  assert (g ≠ []) as Hne by (intros ->; done). pose proof (weighted_sample_lt g r Hne) as Hlt.
  destruct (weighted_sample_provider g r) as [i r1]. cbn [fst] in Hlt.
  destruct (lookup_lt_is_Some_2 g i Hlt) as [p Hp]. pose proof (swap_remove_length g i Hlt) as Hlen.
  specialize (IH (swap_remove i g) r1 ltac:(lia)).
  destruct (order_priority_group fuel (swap_remove i g) r1) as [rest r2]. cbn [fst] in *.
  rewrite Hp IH. cbn. by rewrite -swap_remove_perm.
Qed.

Lemma order_priorities_spec fuel l (r : R) :
  (length l <= fuel)%nat →
  (order_priorities fuel l r).1 ≡ₚ l
  ∧ StronglySorted (λ a b, sp_effective_priority a <= sp_effective_priority b) (order_priorities fuel l r).1.
Proof.
  revert l r. induction fuel as [|fuel IH]; intros l r Hf.
  { destruct l; [split; [done|constructor]|simpl in Hf; lia]. }
  cbn [order_priorities]. destruct (is_empty l) eqn:Ee; [apply is_empty_true in Ee as ->; split; [done|constructor]|].
  destruct (min_opt (map sp_effective_priority l)) as [best|] eqn:Eb;
    [|apply min_opt_None in Eb; by destruct l]. cbn [unwrap_or].
  apply min_opt_Some in Eb as [Hin Hmin].
  apply list_elem_of_fmap in Hin as (q & Hq & Hql).
  pose proof (filter_split_perm (λ p, sp_effective_priority p =? best) l) as Hsplit.
  set (group := List.filter (λ p, sp_effective_priority p =? best) l) in *.
  set (remaining := List.filter (λ p, negb (sp_effective_priority p =? best)) l) in *.
  assert (q ∈ group) as Hqg.
  { apply list_elem_of_In, List.filter_In. split; [by apply list_elem_of_In|by apply Z.eqb_eq]. }
  assert (length remaining < length l)%nat as Hlen.
  { apply Permutation_length in Hsplit. rewrite length_app in Hsplit. destruct group; [by apply elem_of_nil in Hqg|].
    simpl in Hsplit. lia. }
  pose proof (order_priority_group_perm (length group) group r (Nat.le_refl _)) as Hg.
  destruct (order_priority_group (length group) group r) as [first r1]. cbn [fst] in Hg.
  destruct (IH remaining r1 ltac:(lia)) as [Hp Hs].
  destruct (order_priorities fuel remaining r1) as [rest r2]. cbn [fst] in *.
  assert (∀ p, p ∈ first → sp_effective_priority p = best) as Hfirst.
  { intros p Hpf. rewrite Hg in Hpf. apply list_elem_of_In, List.filter_In in Hpf as [_ Hpf]. by apply Z.eqb_eq. }
  split; [by rewrite Hg Hp -Hsplit|]. apply StronglySorted_app_2; [| |done].
  - intros a b Ha Hb. rewrite (Hfirst a Ha). apply Hmin.
    rewrite Hp in Hb. apply list_elem_of_In, List.filter_In in Hb as [Hb _]. apply list_elem_of_fmap_2. by apply list_elem_of_In.
  - clear -Hfirst. induction first as [|p first IH]; constructor; [apply IH; intros; apply Hfirst; by right|].
    apply Forall_forall. intros a Ha. rewrite (Hfirst p); [|by left]. rewrite (Hfirst a); [lia|by right].
Qed.

Lemma position_Some {A} (f : A → bool) (xs : list A) i :
  position f xs = Some i → ∃ x, xs !! i = Some x ∧ f x = true.
Proof.
  revert i. induction xs as [|x xs IH]; intros i; simpl; [done|]. destruct (f x) eqn:E; [intros [= <-]; by exists x|].
  destruct (position f xs) as [j|]; [|done]. intros [= <-]. by apply IH.
Qed.

Lemma position_None {A} (f : A → bool) (xs : list A) : position f xs = None ↔ existsb f xs = false.
Proof.
  induction xs as [|x xs IH]; simpl; [done|]. destruct (f x); simpl; [done|].
  rewrite -IH. by destruct (position f xs).
Qed.

Lemma order_providers_perm l affinity (r : R) : (order_schedulable_providers l affinity r).1 ≡ₚ l.
Proof.
  unfold order_schedulable_providers.
  destruct (opt_bind affinity _) as [i|] eqn:E.
  - apply opt_bind_Some in E as (id & _ & Hi). apply position_Some in Hi as (p & Hp & _). rewrite Hp.
    pose proof (order_priorities_spec (length (swap_remove i l)) (swap_remove i l) r (Nat.le_refl _)) as [Ho _].
    destruct (order_priorities _ _ r) as [rest r1]. cbn [fst] in *. rewrite Ho. cbn. by rewrite -swap_remove_perm.
  - pose proof (order_priorities_spec (length l) l r (Nat.le_refl _)) as [Ho _].
    by destruct (order_priorities _ _ r).
Qed.

(** Providers are tried in order: nothing is lost or invented, a provider the
    session is bound to comes first, and the others follow in ascending priority,
    whatever the weights and the draws. *)
Theorem provider_order_correct l affinity (r : R) :
  let out := (order_schedulable_providers l affinity r).1 in
  out ≡ₚ l ∧
  let sorted := StronglySorted (λ a b : SchedulableProvider D, sp_effective_priority a <= sp_effective_priority b) in
  match affinity with
  | Some id =>
      if existsb (λ p, provider_id_of p =? id) l
      then ∃ p rest, out = p :: rest ∧ provider_id_of p = id ∧ sorted rest
      else sorted out
  | None => sorted out
  end.
Proof.
  cbv zeta. split; [apply order_providers_perm|]. unfold order_schedulable_providers.
  destruct affinity as [id|]; cbn [opt_bind].
  - destruct (position (λ p, provider_id_of p =? id) l) as [i|] eqn:Ei.
    + destruct (existsb _ l) eqn:Ee; [|apply position_None in Ee; congruence].
      apply position_Some in Ei as (p & Hp & Hid%Z.eqb_eq). rewrite Hp.
      destruct (order_priorities_spec _ (swap_remove i l) r (Nat.le_refl _)) as [_ Hs].
      destruct (order_priorities _ _ r) as [rest r1]. by exists p, rest.
    + apply position_None in Ei. rewrite Ei.
      destruct (order_priorities_spec _ l r (Nat.le_refl _)) as [_ Hs]. by destruct (order_priorities _ _ r).
  - destruct (order_priorities_spec _ l r (Nat.le_refl _)) as [_ Hs]. by destruct (order_priorities _ _ r).
Qed.
End OrderFacts.

(** ** What reading the quotas changes *)

(** Nothing an observer could see from the instant [t] on. *)
Definition quota_sim (t : Z) (q q' : QuotaBook) : Prop :=
  ∀ k u, t <= u → (is_available q' k u).1 = (is_available q k u).1.

#[export] Instance quota_sim_preorder t : PreOrder (quota_sim t).
Proof. split; [by intros q k u _|]. intros q1 q2 q3 H1 H2 k u Hu. by rewrite H2 // H1. Qed.

Lemma state_available_expire st now u :
  now <= u → state_available (expire_quota_state st now) u = state_available st u.
Proof.
  intros Hu. unfold state_available. destruct (expire_reset st now) as (-> & Hr & Hrem). rewrite Hr in Hrem |- *. f_equal.
  - destruct (qs_cooldown_until_ms st) as [c|]; [|done]. cbn [opt_filter].
    destruct (Z.ltb_spec now c); [done|]. cbn [is_none_or]. symmetry. apply Z.leb_le. lia.
  - destruct (qs_reset_at_ms st) as [r|]; [|done]. cbn [opt_filter] in *.
    destruct (Z.ltb_spec now r); [by destruct (Hrem eq_refl) as [-> ->]|].
    by rewrite (proj2 (Z.ltb_ge u r)); [|lia].
Qed.

Lemma state_available_monotone st now u :
  now <= u → state_available st now = true → state_available st u = true.
Proof.
  unfold state_available. intros Hu [Hc Hr]%andb_true_iff. apply andb_true_iff. split.
  - destruct (qs_cooldown_until_ms st) as [c|]; [|done]. cbn [is_none_or] in *. rewrite Z.leb_le in Hc.
    apply Z.leb_le. lia.
  - destruct (qs_reset_at_ms st) as [r|]; [|done]. destruct (Z.ltb_spec u r); [|done].
    by rewrite (proj2 (Z.ltb_lt now r)) in Hr; [|lia].
Qed.

(** Nobody who was let in is kept out. *)
Definition quota_eases (q q' : QuotaBook) : Prop :=
  ∀ k u, (is_available q k u).1 = true → (is_available q' k u).1 = true.

#[export] Instance quota_eases_preorder : PreOrder quota_eases.
Proof. split; [by intros q k u|]. intros q1 q2 q3 H1 H2 k u Hu. by apply H2, H1. Qed.

Lemma expire_eases st now u : state_available st u = true → state_available (expire_quota_state st now) u = true.
Proof.
  destruct (Z.leb_spec now u) as [Hu|Hu]; [by rewrite state_available_expire|].
  unfold state_available. destruct (expire_reset st now) as (-> & Hr & Hrem). rewrite Hr in Hrem |- *.
  intros [Hc Ha]%andb_true_iff. apply andb_true_iff. split.
  - destruct (qs_cooldown_until_ms st) as [c|]; [|done]. cbn [opt_filter]. by destruct (now <? c).
  - destruct (qs_reset_at_ms st) as [r|]; [|done]. cbn [opt_filter] in *.
    destruct (now <? r); [by destruct (Hrem eq_refl) as [-> ->]|done].
Qed.

Lemma is_available_eases q k now : quota_eases q (is_available q k now).2.
Proof.
  intros k' u Hu. unfold is_available at 2. destruct (by_key q !! k) as [st|] eqn:Ek; [|done]. cbn [snd].
  unfold is_available, put_quota. cbn [Quota.by_key]. rewrite lookup_insert.
  unfold is_available in Hu. destruct (decide (k = k')) as [<-|]; [|by destruct (by_key q !! k')]. cbn [fst]. rewrite Ek /= in Hu.
  rewrite state_available_expire // in Hu. rewrite (state_available_expire _ u) //. by apply expire_eases.
Qed.

Lemma quota_snapshot_eases q k now : quota_eases q (quota_snapshot q k now).2.
Proof.
  pose proof (is_available_eases q k now) as Hs. unfold is_available in Hs. unfold quota_snapshot. by destruct (by_key q !! k).
Qed.

Lemma is_available_sim t q k now : now <= t → quota_sim t q (is_available q k now).2.
Proof.
  intros Hnow k' u Hu. unfold is_available at 2. destruct (by_key q !! k) as [st|] eqn:Ek; [|done]. cbn [snd].
  unfold is_available, put_quota. cbn [Quota.by_key]. rewrite lookup_insert.
  destruct (decide (k = k')) as [<-|]; [|by destruct (by_key q !! k')]. rewrite Ek. cbn [fst].
  rewrite !state_available_expire //; lia.
Qed.

Lemma quota_snapshot_sim t q k now : now <= t → quota_sim t q (quota_snapshot q k now).2.
Proof.
  intros Hnow. pose proof (is_available_sim t q k now Hnow) as Hs. unfold is_available in Hs.
  unfold quota_snapshot. by destruct (by_key q !! k).
Qed.

Lemma is_available_later q k now u :
  now <= u → (is_available q k now).1 = true → (is_available q k u).1 = true.
Proof.
  intros Hu. unfold is_available. destruct (by_key q !! k) as [st|]; [|done]. cbn [fst].
  rewrite !state_available_expire //. by apply state_available_monotone.
Qed.

(** ** The plan is sound *)
Section PlanFacts.
Context {D R : Type} `{FastRandOk R}.
Implicit Types snap : UpstreamSnapshot D.
Implicit Types s : SharedState.

(** What planning leaves alone, and what it may change of the quotas. *)
Record plan_frame (t : Z) s s' : Prop := {
  pf_runtime : ss_provider_runtime s' = ss_provider_runtime s;
  pf_endpoints : ss_endpoint_health s' = ss_endpoint_health s;
  pf_keys : ss_upstream_key_health s' = ss_upstream_key_health s;
  pf_quota : quota_sim t (ss_quota s) (ss_quota s');
  pf_eases : quota_eases (ss_quota s) (ss_quota s')
}.

#[export] Instance plan_frame_preorder t : PreOrder (plan_frame t).
Proof.
  split; [by intros s; split|]. intros s1 s2 s3 [H1 H2 H3 H4 H5] [K1 K2 K3 K4 K5].
  split; [congruence|congruence|congruence|by etransitivity..].
Qed.

Lemma frame_quota t s q : quota_sim t (ss_quota s) q → quota_eases (ss_quota s) q → plan_frame t s (set_ss_quota q s).
Proof. by intros Hq He; split. Qed.
Lemma frame_rotation t s k : plan_frame t s (set_ss_key_rotation k s).
Proof. by split. Qed.
Lemma frame_affinity t s a : plan_frame t s (set_ss_affinity a s).
Proof. by split. Qed.

Lemma account_frame t s snap p key m owns now :
  now <= t → plan_frame t s (account s snap p key m owns now).2.
Proof.
  intros Hnow. unfold account. destruct (negb (up_enabled p)); [done|]. destruct (negb (uk_enabled key)); [done|].
  destruct (oauth_refusal snap p key now); [done|].
  pose proof (frame_quota t s _ (is_available_sim t (ss_quota s) (uk_id key) now Hnow)
    (is_available_eases (ss_quota s) (uk_id key) now)) as Hf.
  destruct (is_available (ss_quota s) (uk_id key) now) as [ok q]. cbn [snd] in Hf.
  destruct (negb ok); [done|]. by destruct (path_refusal _ _ _ _ _ _ _).
Qed.

Lemma available_keys_spec t s0 s snap p m clock keys d :
  (∀ k, clock k <= t) → plan_frame t s0 s →
  let '(kept, _, s') := available_keys s snap p m clock keys d in
  plan_frame t s0 s'
  ∧ ∀ k, k ∈ kept → k ∈ keys ∧ ∃ s1, plan_frame t s0 s1
      ∧ av_available (account s1 snap p k (Some m) false (clock k)).1 = true.
Proof.
  intros Hclock. revert s d. induction keys as [|key keys IH]; intros s d Hs; cbn [available_keys].
  { split; [done|]. by intros k Hk%elem_of_nil. }
  pose proof (account_frame t s snap p key (Some m) false (clock key) (Hclock key)) as Hf.
  destruct (account s snap p key (Some m) false (clock key)) as [av s1] eqn:Ea. cbn [snd] in Hf.
  assert (plan_frame t s0 s1) as Hs1 by by etransitivity.
  set (d1 := if av_available av then d else _). specialize (IH s1 d1 Hs1).
  destruct (available_keys s1 snap p m clock keys d1) as [[rest d2] s2]. destruct IH as [IHf IH].
  split; [done|]. intros k Hk.
  assert (k ∈ rest ∨ k = key ∧ av_available av = true) as [Hr|[-> Hav]].
  { destruct (av_available av); [|by left]. apply elem_of_cons in Hk as [->|Hk]; auto. }
  - destruct (IH k Hr) as [Hin Hx]. split; [by right|done].
  - split; [by left|]. exists s. split; [done|]. by rewrite Ea.
Qed.

Lemma keys_blocked_frame t s snap p at_ now keys :
  now <= t → plan_frame t s (keys_blocked_until s snap p at_ now keys).2.
Proof.
  intros Hnow. revert s. induction keys as [|key keys IH]; intros s; [done|]. cbn [keys_blocked_until].
  assert (plan_frame t s (key_blocked_until s snap p at_ now key).2) as Hf.
  { unfold key_blocked_until. pose proof (quota_snapshot_sim t (ss_quota s) (uk_id key) now Hnow) as Hq.
    pose proof (quota_snapshot_eases (ss_quota s) (uk_id key) now) as He. destruct (quota_snapshot _ _ _). by apply frame_quota. }
  destruct (key_blocked_until s snap p at_ now key) as [u s1]. specialize (IH s1).
  destruct (keys_blocked_until s1 snap p at_ now keys). cbn [snd] in *. by etransitivity.
Qed.

Lemma retry_times_frame t s snap clock routes :
  (∀ p, clock p <= t) → plan_frame t s (retry_times s snap clock routes).2.
Proof.
  intros Hclock. revert s. induction routes as [|r routes IH]; intros s; [done|]. cbn [retry_times].
  assert (plan_frame t s (provider_retry_at s snap (ro_provider r) (Some (ro_upstream_model r)) (clock (ro_provider r))).2) as Hf.
  { unfold provider_retry_at. destruct (sn_endpoints_by_provider snap !! _); [|done].
    destruct (min_opt _) as [at_|]; [|done]. destruct (sn_keys_by_provider snap !! _) as [keys|]; [|done].
    pose proof (keys_blocked_frame t s snap (ro_provider r) at_ (clock (ro_provider r))
      (retry_keys snap (Some (ro_upstream_model r)) keys) (Hclock _)) as Hf.
    by destruct (keys_blocked_until _ _ _ _ _ _). }
  destruct (provider_retry_at _ _ _ _ _) as [u s1]. specialize (IH s1).
  destruct (retry_times s1 snap clock routes). cbn [snd] in *. by etransitivity.
Qed.

(** A key that may serve a route in the state [s]: its circuit admits traffic, and
    the account behind it is usable and allowed to serve the model. [t] is after
    every reading of the clock. *)
Record key_ready s (x : PlanContext D) (t : Z) (route : ProviderRoute) (k : UpstreamKey) : Prop := {
  kr_of_provider : k ∈ unwrap_or (sn_keys_by_provider (px_snap x) !! up_id (ro_provider route)) [];
  kr_enabled : uk_enabled k = true;
  kr_model : key_allows_model (px_snap x) (uk_id k) (ro_upstream_model route) = true;
  kr_allowed : model_available (px_snap x) (ro_provider route) k (Some (ro_upstream_model route)) = true;
  kr_oauth : up_provider_type (ro_provider route) = OAUTH_PROVIDER_TYPE →
    ∃ a, sn_codex_oauth_by_key (px_snap x) !! uk_id k = Some a ∧ is_routable a (pc_account (px_clock x) k) = true;
  kr_quota : (is_available (ss_quota s) (uk_id k) t).1 = true;
  kr_health : hv_available (RuntimeHealth.snapshot (ss_upstream_key_health s) (uk_id k) (pc_now (px_clock x))) = true
}.

Record endpoint_ready s (x : PlanContext D) (route : ProviderRoute) (e : UpstreamEndpoint) : Prop := {
  er_of_provider : e ∈ unwrap_or (sn_endpoints_by_provider (px_snap x) !! up_id (ro_provider route)) [];
  er_enabled : ue_enabled e = true;
  er_health : hv_available (RuntimeHealth.snapshot (ss_endpoint_health s) (ue_id e) (pc_now (px_clock x))) = true
}.

Record scheduled_ok s (x : PlanContext D) (t : Z) (routes : list ProviderRoute) (p : SchedulableProvider D) : Prop := {
  so_route : sp_route p ∈ routes;
  so_runtime : pv_available (ProviderRuntime.snapshot (ss_provider_runtime s) (ro_provider (sp_route p))
                 (pc_now (px_clock x))) = true;
  so_keys : sp_keys p ≠ [] ∧ Forall (key_ready s x t (sp_route p)) (sp_keys p);
  so_endpoints : sp_endpoints p ≠ [] ∧ Forall (endpoint_ready s x (sp_route p)) (sp_endpoints p);
  so_price : sp_price p = find_price_for_request (px_snap x) (provider_id_of p) (px_requested_model x)
                            (ro_upstream_model (sp_route p));
  so_priority : sp_effective_priority p = effective_priority (px_policy x) (sp_route p);
  so_weight : sp_effective_weight p = effective_weight (px_snap x) (px_policy x) (px_requested_model x) (sp_route p);
  so_target : is_explicit (px_policy x) = true → is_some (policy_target (px_policy x) (provider_id_of p)) = true
}.

(** The invariant of the loop over the routes. *)
Definition loop_ok s (x : PlanContext D) (t : Z) (routes : list ProviderRoute) (g : Scheduling D R) : Prop :=
  plan_frame t s (sg_state g) ∧ Forall (scheduled_ok s x t routes) (sg_schedulable g).

Lemma schedule_ok s x t routes route keys endpoints g :
  loop_ok s x t routes g → route ∈ routes →
  pv_available (ProviderRuntime.snapshot (ss_provider_runtime s) (ro_provider route) (pc_now (px_clock x))) = true →
  keys ≠ [] → Forall (key_ready s x t route) keys →
  endpoints ≠ [] → Forall (endpoint_ready s x route) endpoints →
  loop_ok s x t routes (schedule x route keys endpoints g).
Proof.
  intros [Hf Hg] Hr Hrt Hk Hks He Hes. unfold schedule.
  destruct (is_explicit (px_policy x) && is_none _) eqn:E; [by split|]. split; [done|].
  cbn [sg_schedulable]. apply Forall_snoc; [done|]. split; try done.
  unfold provider_id_of. cbn [sp_route]. intros Hx. rewrite Hx /= in E. by apply negb_false_iff in E.
Qed.

Lemma order_keys_perm b p strategy keys : (order_keys_for_provider b p strategy keys).1 ≡ₚ keys.
Proof.
  unfold order_keys_for_provider. destruct (String.eqb strategy "round_robin").
  - by rewrite rotate_provider_perm sort_by_key1_perm.
  - destruct (String.eqb strategy "ordered"); [apply sort_by_key2_perm|done].
Qed.

Lemma ranked_endpoints_ready s x route endpoints strategy (failover : bool) :
  (∀ e, e ∈ endpoints → e ∈ unwrap_or (sn_endpoints_by_provider (px_snap x) !! up_id (ro_provider route)) []) →
  let ranked := rank_endpoint_refs_with_health endpoints (ss_endpoint_health s) strategy (pc_now (px_clock x)) in
  Forall (endpoint_ready s x route) (if failover then ranked else take 1 ranked).
Proof.
  cbv zeta. intros Hin.
  assert (Forall (endpoint_ready s x route)
    (rank_endpoint_refs_with_health endpoints (ss_endpoint_health s) strategy (pc_now (px_clock x)))) as Hall.
  { apply Forall_forall. intros e He. unfold rank_endpoint_refs_with_health in He.
    rewrite sort_by_key2_perm in He. apply list_elem_of_In, List.filter_In in He as [He [H1 H2]%andb_true_iff].
    split; [|done|done]. apply Hin. by apply list_elem_of_In. }
  destruct failover; [done|]. by apply Forall_take.
Qed.

Lemma rank_route_ok s x t routes route keys endpoints g :
  loop_ok s x t routes g → route ∈ routes →
  pv_available (ProviderRuntime.snapshot (ss_provider_runtime s) (ro_provider route) (pc_now (px_clock x))) = true →
  (∀ k, k ∈ keys →
     hv_available (RuntimeHealth.snapshot (ss_upstream_key_health s) (uk_id k) (pc_now (px_clock x))) = true →
     key_ready s x t route k) →
  (∀ e, e ∈ endpoints → e ∈ unwrap_or (sn_endpoints_by_provider (px_snap x) !! up_id (ro_provider route)) []) →
  loop_ok s x t routes (rank_route x route keys endpoints g).
Proof.
  intros [Hf Hg] Hr Hrt Hk He. unfold rank_route. cbv zeta.
  destruct (rank_keys_spec keys (ss_upstream_key_health (sg_state g)) (pc_now (px_clock x)) (sg_rand g)) as [Hp _].
  destruct (rank_key_refs_with_health _ _ _ _) as [ranked r]. cbn [fst] in Hp.
  pose proof (order_keys_perm (ss_key_rotation (sg_state g)) (up_id (ro_provider route))
    (up_key_selection_strategy (ro_provider route)) ranked) as Ho.
  destruct (order_keys_for_provider _ _ _ ranked) as [ordered rotation]. cbn [fst] in Ho.
  assert (plan_frame t s (set_ss_key_rotation rotation (sg_state g))) as Hf' by (etransitivity; [exact Hf|apply frame_rotation]).
  destruct (is_empty ordered) eqn:Ek; [by split|]. cbn [sg_state sg_with ss_endpoint_health set_ss_key_rotation].
  rewrite (pf_endpoints _ _ _ Hf).
  pose proof (ranked_endpoints_ready s x route endpoints (px_strategy x) (up_endpoint_failover (ro_provider route)) He) as Hes.
  destruct (is_empty (if up_endpoint_failover _ then _ else _)) eqn:Ee; [by split|].
  apply schedule_ok; [by split|done|done| | |intros E; by rewrite E in Ee|done].
  - intros E. by rewrite E in Ek.
  - apply Forall_forall. intros k Hin. rewrite Ho Hp in Hin.
    apply list_elem_of_In, List.filter_In in Hin as [Hin [_ Hh]%andb_true_iff].
    apply Hk; [by apply list_elem_of_In|]. by rewrite -(pf_keys _ _ _ Hf).
Qed.

Lemma admit_route_ok s x t routes route keys endpoints g :
  (∀ k, pc_account (px_clock x) k <= t) →
  loop_ok s x t routes g → route ∈ routes →
  (∀ k, k ∈ keys → k ∈ unwrap_or (sn_keys_by_provider (px_snap x) !! up_id (ro_provider route)) []
     ∧ key_allows_model (px_snap x) (uk_id k) (ro_upstream_model route) = true) →
  (∀ e, e ∈ endpoints → e ∈ unwrap_or (sn_endpoints_by_provider (px_snap x) !! up_id (ro_provider route)) []) →
  loop_ok s x t routes (admit_route x route keys endpoints g).
Proof.
  intros Hclock [Hf Hg] Hr Hk He. unfold admit_route. cbv zeta.
  destruct (match px_affinity x with Some i => _ | None => _ end) as [avoided book].
  assert (plan_frame t s (set_ss_affinity book (sg_state g))) as Hf1 by (etransitivity; [exact Hf|apply frame_affinity]).
  destruct avoided; [by split|]. cbn [sg_state sg_with ss_provider_runtime set_ss_affinity sg_diagnostics sg_rand].
  rewrite (pf_runtime _ _ _ Hf).
  destruct (pv_available (ProviderRuntime.snapshot (ss_provider_runtime s) (ro_provider route) (pc_now (px_clock x)))) eqn:Ert;
    cbn [negb]; [|by destruct (pv_state _)].
  pose proof (available_keys_spec t s _ (px_snap x) (ro_provider route) (ro_upstream_model route) (pc_account (px_clock x))
    keys (sg_diagnostics g) Hclock Hf1) as Ha.
  destruct (available_keys _ _ _ _ _ keys _) as [[kept d] s1]. destruct Ha as [Hf2 Ha].
  destruct (is_empty kept); [by split|].
  apply rank_route_ok; [by split|done|done| |done].
  intros k Hin Hh. destruct (Ha k Hin) as (Hkk & s2 & Hs2 & Hav).
  apply account_available_iff' in Hav as (_ & Hen & Hoa & Hq & Hm & _). destruct (Hk k Hkk) as [H1 H2].
  split; try done. rewrite -(pf_quota _ _ _ Hs2); [|lia]. eapply is_available_later; [apply Hclock|exact Hq].
Qed.

Lemma plan_step_ok s x t routes g route :
  (∀ k, pc_account (px_clock x) k <= t) → loop_ok s x t routes g → route ∈ routes →
  loop_ok s x t routes (plan_step x g route).
Proof.
  intros Hclock Hg Hr. unfold plan_step. cbv zeta.
  set (mk := List.filter (λ key, key_allows_model _ _ _) _). set (es := List.filter ue_enabled _).
  destruct (is_empty mk); [exact Hg|]. destruct (is_empty (List.filter uk_enabled mk)); [exact Hg|].
  destruct (is_empty es); [exact Hg|].
  apply admit_route_ok; [done|exact Hg|done| |].
  - intros k Hk. apply list_elem_of_In, List.filter_In in Hk as [Hk _]. apply List.filter_In in Hk as [Hk Hm].
    by rewrite list_elem_of_In.
  - intros e He. apply list_elem_of_In, List.filter_In in He as [He _]. by apply list_elem_of_In.
Qed.

Lemma plan_loop_ok s x t routes g l :
  (∀ k, pc_account (px_clock x) k <= t) → (∀ r, r ∈ l → r ∈ routes) → loop_ok s x t routes g →
  loop_ok s x t routes (foldl (plan_step x) g l).
Proof.
  intros Hclock. revert g. induction l as [|r l IH]; intros g Hl Hg; [done|]. cbn [foldl].
  apply IH; [intros r' Hr'; apply Hl; by right|]. apply plan_step_ok; [done|done|]. apply Hl. by left.
Qed.

(** From the loop to the attempts. *)
Record attempt_ok s (x : PlanContext D) (t : Z) (f : ApiFormat) (allow : bool) (allowed : list Z)
    (route : ProviderRoute) (a : ResolvedUpstream D) : Prop := {
  ao_route : route_ok (px_snap x) f allow route;
  ao_provider : ru_provider a = ro_provider route;
  ao_model : ru_upstream_model a = ro_upstream_model route;
  ao_protocol : ru_protocol a = ro_protocol route;
  ao_authorized : up_id (ro_provider route) ∈ allowed;
  ao_enabled : up_enabled (ro_provider route) = true;
  ao_policy : ∀ policy, px_policy x = Some policy → policy_allows policy (up_id (ro_provider route)) = true;
  ao_runtime : pv_available (ProviderRuntime.snapshot (ss_provider_runtime s) (ro_provider route)
                 (pc_now (px_clock x))) = true;
  ao_key : key_ready s x t route (ru_key a);
  ao_endpoint : endpoint_ready s x route (ru_endpoint a);
  ao_price : ru_price a = find_price_for_request (px_snap x) (up_id (ro_provider route)) (px_requested_model x)
                            (ro_upstream_model route)
}.

Lemma is_empty_elem {A} (a : A) l : a ∈ l → is_empty l = false.
Proof. by destruct l; [intros ?%elem_of_nil|]. Qed.

Lemma elem_of_filter_bool {A} (f : A → bool) (l : list A) a : a ∈ List.filter f l ↔ a ∈ l ∧ f a = true.
Proof. by rewrite list_elem_of_In List.filter_In -list_elem_of_In. Qed.

Lemma sift_routes_spec keep stage code message routes d :
  (sift_routes keep stage code message routes d).1 = List.filter keep routes.
Proof.
  revert d. induction routes as [|r routes IH]; intros d; simpl; [done|].
  destruct (keep r); [|apply IH]. specialize (IH d). destruct (sift_routes _ _ _ _ routes d). simpl in *. by rewrite IH.
Qed.

Lemma authorize_spec m allowed routes d enabled d' :
  authorize m allowed routes d = inl (enabled, d') →
  ∀ r, r ∈ enabled ↔ r ∈ routes ∧ up_id (ro_provider r) ∈ allowed ∧ up_enabled (ro_provider r) = true.
Proof.
  unfold authorize.
  pose proof (sift_routes_spec (λ route, existsb (Z.eqb (up_id (ro_provider route))) allowed)
    "authorization" "provider_denied" "API key does not allow this upstream" routes d) as H1.
  destruct (sift_routes _ _ _ _ routes d) as [auth d1]. cbn [fst] in H1. destruct (is_empty auth); [done|].
  pose proof (sift_routes_spec (λ route, up_enabled (ro_provider route))
    "static_configuration" "provider_disabled" "provider is disabled" auth d1) as H2.
  destruct (sift_routes _ _ _ _ auth d1) as [en d2]. cbn [fst] in H2. destruct (is_empty en); [done|].
  intros [= <- <-] r. rewrite H2 H1. rewrite list_elem_of_In !List.filter_In -list_elem_of_In existsb_elem.
  split.
  - intros [[Hr (i & Hi & ->%Z.eqb_eq)] He]. done.
  - intros (Hr & Hi & He). split; [|done]. split; [done|]. exists (up_id (ro_provider r)). by rewrite Z.eqb_refl.
Qed.

Lemma authorize_found m allowed routes d e route :
  authorize m allowed routes d = inr e → route ∈ routes → up_id (ro_provider route) ∈ allowed →
  up_enabled (ro_provider route) = true → False.
Proof.
  intros Ha Hr Hid Hen. unfold authorize in Ha.
  pose proof (sift_routes_spec (λ route, existsb (Z.eqb (up_id (ro_provider route))) allowed)
    "authorization" "provider_denied" "API key does not allow this upstream" routes d) as H1.
  destruct (sift_routes _ _ _ _ routes d) as [auth d1]. cbn [fst] in H1.
  assert (route ∈ auth) as Hra.
  { rewrite H1. apply elem_of_filter_bool. split; [done|]. apply existsb_elem. eexists. split; [done|]. by rewrite Z.eqb_refl. }
  rewrite (is_empty_elem _ _ Hra) in Ha.
  pose proof (sift_routes_spec (λ route, up_enabled (ro_provider route))
    "static_configuration" "provider_disabled" "provider is disabled" auth d1) as H2.
  destruct (sift_routes _ _ _ _ auth d1) as [en d2]. cbn [fst] in H2.
  assert (route ∈ en) as Hre by (rewrite H2; by apply elem_of_filter_bool).
  by rewrite (is_empty_elem _ _ Hre) in Ha.
Qed.

Lemma attempts_of_elem (p : SchedulableProvider D) a :
  a ∈ attempts_of p → ru_upstream_model a = ro_upstream_model (sp_route p) ∧ ru_provider a = ro_provider (sp_route p)
    ∧ ru_protocol a = ro_protocol (sp_route p) ∧ ru_price a = sp_price p
    ∧ ru_key a ∈ sp_keys p ∧ ru_endpoint a ∈ sp_endpoints p.
Proof.
  unfold attempts_of. rewrite list_elem_of_In in_flat_map. intros (e & He & Ha).
  apply in_map_iff in Ha as (k & <- & Hk). cbn. split_and!; try done.
  - apply list_elem_of_In in Hk. apply elem_of_take in Hk as (i & Hk & _). by eapply list_elem_of_lookup_2.
  - apply list_elem_of_In in He. apply elem_of_take in He as (i & He & _). by eapply list_elem_of_lookup_2.
Qed.

Lemma attempts_of_length (p : SchedulableProvider D) : (length (attempts_of p) <= 9)%nat.
Proof.
  unfold attempts_of. change (Z.to_nat MAX_ATTEMPTS) with 3%nat.
  set (f := λ endpoint, _ : list (ResolvedUpstream D)).
  assert (∀ e, length (f e) <= 3)%nat as Hf by (intros e; unfold f; rewrite length_map length_take; lia).
  assert (length (take 3 (sp_endpoints p)) <= 3)%nat as Hl by (rewrite length_take; lia).
  revert Hl. generalize (take 3 (sp_endpoints p)) as es. intros es Hl.
  assert (length (flat_map f es) <= 3 * length es)%nat; [|lia]. clear Hl.
  induction es as [|e es IH]; [done|]. cbn [flat_map length]. rewrite length_app. specialize (Hf e). lia.
Qed.

Lemma attempts_of_nonempty (p : SchedulableProvider D) :
  sp_keys p ≠ [] → sp_endpoints p ≠ [] → attempts_of p ≠ [].
Proof. intros Hk He. unfold attempts_of. by destruct (sp_endpoints p), (sp_keys p). Qed.

Lemma scheduled_attempts_spec (l : list (SchedulableProvider D)) affinity (r : R) :
  let out : list (ResolvedUpstream D) := (build_scheduled_attempts l affinity r).1 in
  (∀ a, a ∈ out → ∃ p, p ∈ l ∧ a ∈ attempts_of p)
  ∧ (length out <= 27)%nat
  ∧ (size (list_to_set (map (λ a, up_id (ru_provider a)) out) : gset Z) <= 3)%nat
  ∧ (l ≠ [] → (∀ p, p ∈ l → attempts_of p ≠ []) → out ≠ []).
Proof.
  cbv zeta. unfold build_scheduled_attempts. pose proof (order_providers_perm l affinity r) as Hp.
  destruct (order_schedulable_providers l affinity r) as [ordered r1]. cbn [fst] in *.
  change (Z.to_nat MAX_DISTINCT_PROVIDERS) with 3%nat.
  assert (∀ p, p ∈ take 3 ordered → p ∈ l) as Hin.
  { intros p (i & Hi & _)%elem_of_take. rewrite -Hp. by eapply list_elem_of_lookup_2. }
  assert (length (take 3 ordered) <= 3)%nat as Hlen by (rewrite length_take; lia).
  assert (l ≠ [] → take 3 ordered ≠ []) as Hne.
  { intros Hl. destruct ordered as [|q ordered]; [|done]. by apply Permutation_nil in Hp. }
  revert Hin Hlen Hne. generalize (take 3 ordered) as ps. intros ps Hin Hlen Hne. split_and!.
  - intros a Ha%list_elem_of_In. apply in_flat_map in Ha as (p & Hpp%list_elem_of_In & Ha%list_elem_of_In).
    exists p. by split; [apply Hin|].
  - assert (length (flat_map attempts_of ps) <= 9 * length ps)%nat; [|lia]. clear.
    induction ps as [|p ps IH]; [done|]. cbn [flat_map length]. rewrite length_app.
    pose proof (attempts_of_length p). lia.
  - etransitivity; [|exact Hlen]. rewrite -(length_map provider_id_of ps).
    etransitivity; [|apply size_list_to_set_le]. apply subseteq_size. intros id.
    rewrite !elem_of_list_to_set !list_elem_of_fmap. intros (a & -> & Ha%list_elem_of_In).
    apply in_flat_map in Ha as (p & Hpp%list_elem_of_In & Ha%list_elem_of_In). exists p. split; [|done].
    apply attempts_of_elem in Ha as (_ & -> & _). done.
  - intros Hl Ha. specialize (Hne Hl). destruct ps as [|p ps]; [done|]. cbn [flat_map].
    intros [E _]%app_nil. by apply (Ha p); [apply Hin; left|].
Qed.

(** What a plan promises. *)
Definition plan_sound s snap (f : ApiFormat) (allow : bool) (requested : string) (allowed : list Z)
    (x : PlanContext D) (t : Z) (pl : UpstreamPlan D) : Prop :=
  is_model_globally_enabled snap requested = true
  ∧ pl_attempts pl ≠ [] ∧ (length (pl_attempts pl) <= 27)%nat
  ∧ (size (list_to_set (map (λ a, up_id (ru_provider a)) (pl_attempts pl)) : gset Z) <= 3)%nat
  ∧ Forall (λ a, ∃ route, attempt_ok s x t f allow allowed route a) (pl_attempts pl)
  ∧ (∀ policy a b, px_policy x = Some policy → rp_failover policy = false →
       a ∈ pl_attempts pl → b ∈ pl_attempts pl → up_id (ru_provider a) = up_id (ru_provider b)).

Lemma finish_plan_ok s (x : PlanContext D) t routes f allow allowed requested affinity retry_at g pl s' r' :
  loop_ok s x t routes g →
  (∀ route, route ∈ routes →
     route_ok (px_snap x) f allow route ∧ up_id (ro_provider route) ∈ allowed ∧ up_enabled (ro_provider route) = true
     ∧ ∀ policy, px_policy x = Some policy → policy_allows policy (up_id (ro_provider route)) = true) →
  is_model_globally_enabled (px_snap x) requested = true →
  finish_plan x affinity retry_at g = (inl pl, s', r') →
  plan_sound s (px_snap x) f allow requested allowed x t pl.
Proof.
  intros [Hf Hg] Hroutes Hen. unfold finish_plan. destruct (is_empty (sg_schedulable g)) eqn:Ee; [done|].
  destruct (scheduled_attempts_spec (sg_schedulable g) affinity (sg_rand g)) as (Hin & Hlen & Hsize & Hne).
  destruct (build_scheduled_attempts _ affinity _) as [attempts r]. cbn [fst] in *.
  assert (∀ a, a ∈ attempts → ∃ route, attempt_ok s x t f allow allowed route a) as Hok.
  { intros a Ha. destruct (Hin a Ha) as (p & Hp & Hpa). exists (sp_route p).
    apply attempts_of_elem in Hpa as (E1 & E2 & E3 & E4 & Hk & He).
    pose proof (proj1 (Forall_forall _ _) Hg p Hp) as [K1 K2 [_ K3] [_ K4] K5 _ _ _].
    destruct (Hroutes _ K1) as (H1 & H2 & H3 & H4). rewrite Forall_forall in K3. rewrite Forall_forall in K4.
    split; try done; [by apply K3|by apply K4|by rewrite E4]. }
  set (kept := match head attempts with Some first => _ | None => _ end).
  assert (kept = attempts ∨ ∃ first : ResolvedUpstream D, kept = List.filter (λ a : ResolvedUpstream D, up_id (ru_provider a) =? up_id (ru_provider first)) attempts) as Hkept.
  { unfold kept. destruct (head attempts); [|by left]. destruct (is_some_and _ _); [right; eexists; done|by left]. }
  assert (∀ a, a ∈ kept → a ∈ attempts) as Hsub.
  { intros a Ha. destruct Hkept as [->|(first & E)]; [done|]. rewrite E in Ha.
    apply list_elem_of_In, List.filter_In in Ha as [Ha _]. by apply list_elem_of_In. }
  destruct (is_empty kept) eqn:Ek; [done|]. intros [= <- _ _]. split_and!; cbn [pl_attempts].
  - done.
  - intros E. by rewrite E in Ek.
  - destruct Hkept as [->|(first & ->)]; [done|]. etransitivity; [apply List.filter_length_le|done].
  - etransitivity; [|exact Hsize]. apply subseteq_size. intros id. rewrite !elem_of_list_to_set !list_elem_of_fmap.
    intros (a & -> & Ha). exists a. split; [done|by apply Hsub].
  - apply Forall_forall. intros a Ha. by apply Hok, Hsub.
  - intros policy a b Hpol Hfo Ha Hb. unfold kept in Ha, Hb. rewrite Hpol /= Hfo /= in Ha Hb.
    destruct (head attempts) as [first|] eqn:Eh.
    + apply list_elem_of_In, List.filter_In in Ha as [_ Ha%Z.eqb_eq].
      apply list_elem_of_In, List.filter_In in Hb as [_ Hb%Z.eqb_eq]. congruence.
    + apply head_None in Eh. rewrite Eh in Ha. by apply elem_of_nil in Ha.
Qed.

Lemma planned_ok s snap strategy f requested api_key affinity allow clock t (r : R) pl s' r' :
  (∀ p, pc_retry clock p <= t) → (∀ k, pc_account clock k <= t) →
  build_upstream_plan s (inl snap) strategy f requested api_key affinity allow clock r = (inl pl, s', r') →
  plan_sound s snap f allow requested (ak_allowed_provider_ids api_key)
    (MkPlanContext snap requested (route_policy snap requested)
       (if is_none_or (route_policy snap requested) rp_sticky then affinity else None) strategy clock) t pl.
Proof.
  intros Hretry Hclock. unfold build_upstream_plan.
  destruct (collect_provider_routes snap f requested allow) as [[routes d]|e] eqn:Ec; [|done].
  apply collected_routes_ok in Ec as (Hen & _ & Hok & Hpol).
  set (aff := if is_none_or _ _ then affinity else None).
  destruct (authorize requested (ak_allowed_provider_ids api_key) routes d) as [[enabled d1]|e] eqn:Ea; [|done].
  pose proof (authorize_spec _ _ _ _ _ _ Ea) as Hauth.
  pose proof (retry_times_frame t s snap (pc_retry clock) enabled Hretry) as Hf1.
  destruct (retry_times s snap (pc_retry clock) enabled) as [times s1]. cbn [snd] in Hf1.
  destruct (match aff with Some i => _ | None => _ end) as [binding book].
  set (x := MkPlanContext _ _ _ _ _ _).
  set (g := foldl (plan_step x) _ enabled). intros Hplan.
  eapply (finish_plan_ok s x t enabled f allow); [| |exact Hen|exact Hplan].
  - apply plan_loop_ok; [exact Hclock|done|]. split; [|constructor]. cbn [sg_state].
    etransitivity; [exact Hf1|apply frame_affinity].
  - intros route Hr%Hauth. destruct Hr as (Hin & H1 & H2). split_and!; [|done|done|].
    + by apply (proj1 (Forall_forall _ _) Hok).
    + intros policy Hp. by apply Hpol.
Qed.

(** C11. The plan of a request is sound. Every attempt goes to a configured, enabled
    provider the API key may use, along a legitimate route (model active, enabled,
    allowed, protocol convertible) that the route policy contains; the provider's
    circuit and capacity admit a request; the upstream key belongs to the provider,
    is enabled, registered for the model, healthy, with a routable OAuth account and
    quota left; the endpoint belongs to the provider, is enabled and healthy; the
    price is the one in force. There is at least one attempt, there are at most 27
    at three providers, and at one provider when the policy forbids failover. *)
Theorem plan_attempts_sound s snap strategy f requested api_key affinity allow clock t (r : R) pl s' r' :
  (∀ p, pc_retry clock p <= t) → (∀ k, pc_account clock k <= t) →
  build_upstream_plan s (inl snap) strategy f requested api_key affinity allow clock r = (inl pl, s', r') →
  plan_sound s snap f allow requested (ak_allowed_provider_ids api_key)
    (MkPlanContext snap requested (route_policy snap requested)
       (if is_none_or (route_policy snap requested) rp_sticky then affinity else None) strategy clock) t pl.
Proof. apply planned_ok. Qed.

(** ** The plan is found *)
Ltac keeps_none :=
  exists []; rewrite app_nil_r; cbn [sg_schedulable sg_reject sg_add_spill sg_with sg_count_key_ready sg_count_static_ready];
  reflexivity.

Lemma schedule_keeps (x : PlanContext D) route keys endpoints (g : Scheduling D R) :
  ∃ l, sg_schedulable (schedule x route keys endpoints g) = sg_schedulable g ++ l.
Proof.
  unfold schedule. destruct (_ && _); [keeps_none|]. by eexists.
Qed.

Lemma rank_route_keeps (x : PlanContext D) route keys endpoints (g : Scheduling D R) :
  ∃ l, sg_schedulable (rank_route x route keys endpoints g) = sg_schedulable g ++ l.
Proof.
  unfold rank_route. destruct (rank_key_refs_with_health _ _ _ _) as [ranked r].
  destruct (order_keys_for_provider _ _ _ _) as [ordered b].
  destruct (is_empty ordered); [keeps_none|].
  destruct (is_empty _); [keeps_none|].
  match goal with |- context [schedule ?x ?r ?k ?e ?g] => destruct (schedule_keeps x r k e g) as [l ->] end.
  by exists l.
Qed.

Lemma plan_step_keeps (x : PlanContext D) (g : Scheduling D R) route :
  ∃ l, sg_schedulable (plan_step x g route) = sg_schedulable g ++ l.
Proof.
  unfold plan_step. destruct (is_empty _); [keeps_none|].
  destruct (is_empty _); [keeps_none|].
  destruct (is_empty _); [keeps_none|]. unfold admit_route.
  destruct (match px_affinity x with Some i => _ | None => _ end) as [avoided book].
  destruct avoided; [keeps_none|].
  destruct (negb _); [destruct (pv_state _); keeps_none|].
  destruct (available_keys _ _ _ _ _ _ _) as [[kept d] s1].
  destruct (is_empty kept); [keeps_none|].
  match goal with |- context [rank_route ?x ?r ?k ?e ?g] => destruct (rank_route_keeps x r k e g) as [l ->] end.
  by exists l.
Qed.

Lemma plan_loop_keeps (x : PlanContext D) (g : Scheduling D R) l :
  sg_schedulable g ≠ [] → sg_schedulable (foldl (plan_step x) g l) ≠ [].
Proof.
  revert g. induction l as [|r l IH]; intros g Hg; [done|]. cbn [foldl]. apply IH.
  destruct (plan_step_keeps x g r) as [l' ->]. by destruct (sg_schedulable g).
Qed.

Lemma available_keys_complete t s0 s snap p m clock keys d k :
  (∀ k, clock k <= t) → plan_frame t s0 s → k ∈ keys →
  av_available (account s0 snap p k (Some m) false (clock k)).1 = true →
  k ∈ (available_keys s snap p m clock keys d).1.1.
Proof.
  intros Hclock Hs Hk Hav. revert s d Hs. induction keys as [|key keys IH]; intros s d Hs; [by apply elem_of_nil in Hk|].
  cbn [available_keys].
  pose proof (account_frame t s snap p key (Some m) false (clock key) ltac:(apply Hclock)) as Hf.
  destruct (account s snap p key (Some m) false (clock key)) as [av s1] eqn:Ea. cbn [snd] in Hf.
  assert (plan_frame t s0 s1) as Hs1 by by etransitivity.
  set (d1 := if av_available av then d else _).
  apply elem_of_cons in Hk as [->|Hk].
  - assert (av_available av = true) as ->.
    { change av with (av, s1).1. rewrite -Ea.
      apply account_available_iff' in Hav as (H1 & H2 & H3 & H4 & H5 & H6 & H7 & H8 & H9).
      apply account_available_iff'. rewrite (pf_runtime _ _ _ Hs) (pf_keys _ _ _ Hs) (pf_endpoints _ _ _ Hs).
      split_and!; try done. by apply (pf_eases _ _ _ Hs). }
    destruct (available_keys _ _ _ _ _ keys _) as [[rest d2] s2]. by left.
  - specialize (IH Hk s1 d1 Hs1). destruct (available_keys s1 _ _ _ _ keys _) as [[rest d2] s2]. cbn [fst] in *.
    destruct (av_available av); [by right|done].
Qed.

(** A route that can take the request: the provider admits it and is not avoided by its session,
    the account is available when it is looked at, the endpoint is open. *)
Record route_ready s (x : PlanContext D) (route : ProviderRoute) (k : UpstreamKey) (e : UpstreamEndpoint) : Prop := {
  rr_runtime : pv_available (ProviderRuntime.snapshot (ss_provider_runtime s) (ro_provider route)
                 (pc_now (px_clock x))) = true;
  rr_session : ∀ identity, px_affinity x = Some identity →
    (is_provider_avoided (ss_affinity s) identity (up_id (ro_provider route)) (pc_now (px_clock x))).1 = false;
  rr_key : k ∈ unwrap_or (sn_keys_by_provider (px_snap x) !! up_id (ro_provider route)) [];
  rr_model : key_allows_model (px_snap x) (uk_id k) (ro_upstream_model route) = true;
  rr_account : av_available (account s (px_snap x) (ro_provider route) k (Some (ro_upstream_model route)) false
                 (pc_account (px_clock x) k)).1 = true;
  rr_health : hv_available (RuntimeHealth.snapshot (ss_upstream_key_health s) (uk_id k) (pc_now (px_clock x))) = true;
  rr_endpoint : e ∈ unwrap_or (sn_endpoints_by_provider (px_snap x) !! up_id (ro_provider route)) [];
  rr_enabled : ue_enabled e = true;
  rr_open : hv_available (RuntimeHealth.snapshot (ss_endpoint_health s) (ue_id e) (pc_now (px_clock x))) = true
}.

Lemma ready_enabled s x route k e : route_ready s x route k e → up_enabled (ro_provider route) = true ∧ uk_enabled k = true.
Proof. intros Hr. pose proof (rr_account _ _ _ _ _ Hr) as Ha. by apply account_available_iff' in Ha as (? & ? & _). Qed.

(** The session avoids the same providers, as far as the planning of this request can see. *)
Definition avoids_alike (x : PlanContext D) (book book' : AffinityBook) : Prop :=
  ∀ identity id, px_affinity x = Some identity →
    (is_provider_avoided book' identity id (pc_now (px_clock x))).1 = (is_provider_avoided book identity id (pc_now (px_clock x))).1.

#[export] Instance avoids_alike_preorder x : PreOrder (avoids_alike x).
Proof. split; [by intros book i id|]. intros b1 b2 b3 H1 H2 i id Hi. by rewrite (H2 i id Hi) (H1 i id Hi). Qed.

Lemma avoids_alike_asked (x : PlanContext D) identity id book : px_affinity x = Some identity →
  avoids_alike x book (is_provider_avoided book identity id (pc_now (px_clock x))).2.
Proof.
  intros Hx identity' id' Hx'. rewrite Hx in Hx'. injection Hx' as <-. unfold is_provider_avoided at 2. cbv zeta.
  destruct (avoided (af_state book) !! ai_routing_key identity) as [a|] eqn:Ea; [|done].
  unfold is_provider_avoided at 2. cbv zeta. rewrite Ea. destruct (Z.leb_spec (av_until_ms a) (pc_now (px_clock x))); cbn [fst snd].
  - unfold is_provider_avoided. cbn. by rewrite lookup_delete_eq.
  - unfold is_provider_avoided. cbn. rewrite lookup_insert_eq. cbn.
    by rewrite (proj2 (Z.leb_gt _ _)).
Qed.

Lemma avoids_alike_found (x : PlanContext D) identity book :
  avoids_alike x book (Affinity.lookup book identity (pc_now (px_clock x))).2.
Proof.
  intros identity' id _. unfold Affinity.lookup. cbv zeta. set (st := drop_expired _ _ _).
  assert (avoided st = avoided (af_state book)) as E by (unfold st, drop_expired; by destruct (is_some_and _ _)).
  destruct (entries st !! _); unfold is_provider_avoided; cbn; rewrite E; by destruct (avoided (af_state book) !! _) as [old|]; [destruct (_ <=? _)|].
Qed.

Lemma account_affinity s snap p key m owns now : ss_affinity (account s snap p key m owns now).2 = ss_affinity s.
Proof.
  unfold account. destruct (negb (up_enabled p)); [done|]. destruct (negb (uk_enabled key)); [done|].
  destruct (oauth_refusal snap p key now); [done|]. destruct (is_available _ _ _) as [ok q].
  destruct (negb ok); [done|]. by destruct (path_refusal _ _ _ _ _ _ _).
Qed.

Lemma available_keys_affinity s snap p m clock keys d : ss_affinity (available_keys s snap p m clock keys d).2 = ss_affinity s.
Proof.
  revert s d. induction keys as [|key keys IH]; intros s d; [done|]. cbn [available_keys].
  pose proof (account_affinity s snap p key (Some m) false (clock key)) as Ha. destruct (account _ _ _ _ _ _ _) as [av s1].
  cbn [snd] in Ha. rewrite -Ha. specialize (IH s1 (if av_available av then d else
    reject d (Some (up_id p)) m "runtime" (unwrap_or (av_reason av) "account_unavailable")
      "upstream account or its connection path is temporarily unavailable")).
  by destruct (available_keys s1 _ _ _ _ keys _) as [[rest d2] s2].
Qed.

Lemma retry_times_affinity s snap clock routes : ss_affinity (retry_times s snap clock routes).2 = ss_affinity s.
Proof.
  revert s. induction routes as [|r routes IH]; intros s; [done|]. cbn [retry_times].
  assert (∀ p at_ now keys s, ss_affinity (keys_blocked_until s snap p at_ now keys).2 = ss_affinity s) as Hk.
  { intros p at_ now keys. induction keys as [|key keys IHk]; intros s0; [done|]. cbn [keys_blocked_until].
    assert (ss_affinity (key_blocked_until s0 snap p at_ now key).2 = ss_affinity s0) as E
      by (unfold key_blocked_until; by destruct (quota_snapshot _ _ _)).
    destruct (key_blocked_until s0 snap p at_ now key) as [u s1]. specialize (IHk s1).
    destruct (keys_blocked_until s1 snap p at_ now keys). cbn [snd] in *. congruence. }
  assert (ss_affinity (provider_retry_at s snap (ro_provider r) (Some (ro_upstream_model r)) (clock (ro_provider r))).2 = ss_affinity s) as E.
  { unfold provider_retry_at. destruct (sn_endpoints_by_provider snap !! _); [|done].
    destruct (min_opt _) as [at_|]; [|done]. destruct (sn_keys_by_provider snap !! _) as [keys|]; [|done].
    pose proof (Hk (ro_provider r) at_ (clock (ro_provider r)) (retry_keys snap (Some (ro_upstream_model r)) keys) s) as Hk'.
    by destruct (keys_blocked_until _ _ _ _ _ _). }
  destruct (provider_retry_at _ _ _ _ _) as [u s1]. specialize (IH s1).
  destruct (retry_times s1 snap clock routes). cbn [snd] in *. congruence.
Qed.

Lemma rank_route_affinity (x : PlanContext D) route keys endpoints (g : Scheduling D R) :
  ss_affinity (sg_state (rank_route x route keys endpoints g)) = ss_affinity (sg_state g).
Proof.
  unfold rank_route. cbv zeta. destruct (rank_key_refs_with_health _ _ _ _) as [ranked r].
  destruct (order_keys_for_provider _ _ _ _) as [ordered b]. destruct (is_empty ordered); [done|].
  destruct (is_empty _); [done|]. unfold schedule. by destruct (_ && _).
Qed.

Lemma plan_step_avoids (x : PlanContext D) (g : Scheduling D R) route :
  avoids_alike x (ss_affinity (sg_state g)) (ss_affinity (sg_state (plan_step x g route))).
Proof.
  unfold plan_step. cbv zeta. destruct (is_empty _); [done|]. destruct (is_empty _); [done|]. destruct (is_empty _); [done|].
  unfold admit_route. cbv zeta. cbn [sg_state sg_count_static_ready sg_count_key_ready].
  set (asked := match px_affinity x with Some i => _ | None => _ end).
  assert (avoids_alike x (ss_affinity (sg_state g)) asked.2) as Ha.
  { unfold asked. destruct (px_affinity x) as [i|] eqn:Ei; [by apply avoids_alike_asked|done]. }
  destruct asked as [avoided book]. cbn [snd] in Ha. destruct avoided; [exact Ha|].
  destruct (negb _); [by destruct (pv_state _)|].
  match goal with |- context [available_keys ?a ?b ?c ?m ?cl ?ks ?d] =>
    pose proof (available_keys_affinity a b c m cl ks d) as Hk; destruct (available_keys a b c m cl ks d) as [[kept d'] s2] end.
  cbn [snd ss_affinity set_ss_affinity sg_state sg_with] in Hk. destruct (is_empty kept).
  - cbn. by rewrite Hk.
  - rewrite rank_route_affinity. cbn. by rewrite Hk.
Qed.

Lemma plan_loop_avoids (x : PlanContext D) l (g : Scheduling D R) :
  avoids_alike x (ss_affinity (sg_state g)) (ss_affinity (sg_state (foldl (plan_step x) g l))).
Proof.
  revert g. induction l as [|route l IH]; intros g; [done|]. cbn [foldl]. etransitivity; [apply plan_step_avoids|apply IH].
Qed.

Lemma policy_allows_target policy id :
  policy_allows policy id = true → is_some (policy_target (Some policy) id) = true.
Proof.
  unfold policy_allows, policy_target. cbn [opt_bind]. intros (tg & Htg & E)%existsb_elem.
  destruct (List.find _ _) eqn:Ef; [done|]. apply list_elem_of_In in Htg.
  by rewrite (find_none _ _ Ef tg Htg) in E.
Qed.

Lemma rank_route_schedules s x t route k e keys endpoints (g : Scheduling D R) :
  plan_frame t s (sg_state g) → route_ready s x route k e →
  (∀ policy, px_policy x = Some policy → policy_allows policy (up_id (ro_provider route)) = true) →
  k ∈ keys → e ∈ endpoints →
  sg_schedulable (rank_route x route keys endpoints g) ≠ [].
Proof.
  intros Hf Hr Htg Hk He. unfold rank_route. cbv zeta.
  destruct (rank_keys_spec keys (ss_upstream_key_health (sg_state g)) (pc_now (px_clock x)) (sg_rand g)) as [Hp _].
  destruct (rank_key_refs_with_health _ _ _ _) as [ranked r]. cbn [fst] in Hp.
  pose proof (order_keys_perm (ss_key_rotation (sg_state g)) (up_id (ro_provider route))
    (up_key_selection_strategy (ro_provider route)) ranked) as Ho.
  destruct (order_keys_for_provider _ _ _ ranked) as [ordered rotation]. cbn [fst] in Ho.
  assert (k ∈ ordered) as Hko.
  { rewrite Ho Hp. apply elem_of_filter_bool. split; [done|]. rewrite (pf_keys _ _ _ Hf) (rr_health _ _ _ _ _ Hr).
    by destruct (ready_enabled _ _ _ _ _ Hr) as [_ ->]. }
  rewrite (is_empty_elem _ _ Hko). cbn [sg_state sg_with ss_endpoint_health set_ss_key_rotation].
  rewrite (pf_endpoints _ _ _ Hf). set (ranked_e := rank_endpoint_refs_with_health _ _ _ _).
  assert (e ∈ ranked_e) as Her.
  { unfold ranked_e, rank_endpoint_refs_with_health. rewrite sort_by_key2_perm. apply elem_of_filter_bool.
    by rewrite (rr_enabled _ _ _ _ _ Hr) (rr_open _ _ _ _ _ Hr). }
  assert (is_empty (if up_endpoint_failover (ro_provider route) then ranked_e else take 1 ranked_e) = false) as ->.
  { destruct (up_endpoint_failover _); [by eapply is_empty_elem|]. by destruct ranked_e; [apply elem_of_nil in Her|]. }
  unfold schedule.
  assert (is_explicit (px_policy x) && is_none (policy_target (px_policy x) (up_id (ro_provider route))) = false) as ->.
  { destruct (px_policy x) as [policy|] eqn:Ep; [|done]. unfold is_none.
    by rewrite (policy_allows_target _ _ (Htg policy eq_refl)) andb_false_r. }
  cbn [sg_schedulable]. by destruct (sg_schedulable _).
Qed.

Lemma plan_step_schedules s x t route k e (g : Scheduling D R) :
  (∀ k, pc_account (px_clock x) k <= t) → avoids_alike x (ss_affinity s) (ss_affinity (sg_state g)) →
  plan_frame t s (sg_state g) → route_ready s x route k e →
  (∀ policy, px_policy x = Some policy → policy_allows policy (up_id (ro_provider route)) = true) →
  sg_schedulable (plan_step x g route) ≠ [].
Proof.
  intros Hclock Haff Hf Hr Htg. destruct (ready_enabled _ _ _ _ _ Hr) as [_ Hen]. unfold plan_step. cbv zeta.
  set (mk := List.filter (λ key, key_allows_model _ _ _) _). set (es := List.filter ue_enabled _).
  assert (k ∈ mk) as Hmk by (apply elem_of_filter_bool; split; [apply (rr_key _ _ _ _ _ Hr)|apply (rr_model _ _ _ _ _ Hr)]).
  assert (k ∈ List.filter uk_enabled mk) as Hek by by apply elem_of_filter_bool.
  assert (e ∈ es) as Hes by (apply elem_of_filter_bool; split; [apply (rr_endpoint _ _ _ _ _ Hr)|apply (rr_enabled _ _ _ _ _ Hr)]).
  rewrite (is_empty_elem _ _ Hmk) (is_empty_elem _ _ Hek) (is_empty_elem _ _ Hes).
  unfold admit_route. cbv zeta. cbn [sg_state sg_count_static_ready sg_count_key_ready].
  set (asked := match px_affinity x with Some i => _ | None => _ end).
  assert (asked.1 = false) as Hasked.
  { unfold asked. destruct (px_affinity x) as [i|] eqn:Ei; [|done]. by rewrite (Haff i _ Ei) (rr_session _ _ _ _ _ Hr). }
  destruct asked as [avoided book]. cbn [fst] in Hasked. subst avoided. set (s1 := set_ss_affinity _ _).
  assert (plan_frame t s s1) as Hf1 by (etransitivity; [exact Hf|apply frame_affinity]).
  cbn [sg_state sg_with sg_diagnostics sg_rand sg_count_static_ready sg_count_key_ready].
  rewrite (pf_runtime _ _ _ Hf1) (rr_runtime _ _ _ _ _ Hr). cbn [negb].
  match goal with |- context [available_keys ?a ?b ?c ?m ?cl ?ks ?d] =>
    pose proof (available_keys_complete t s a b c m cl ks d k Hclock Hf1 Hek (rr_account _ _ _ _ _ Hr)) as Hkept;
    pose proof (available_keys_spec t s a b c m cl ks d Hclock Hf1) as Hspec;
    destruct (available_keys a b c m cl ks d) as [[kept d'] s2] end.
  cbn [fst] in Hkept. destruct Hspec as [Hf2 _]. rewrite (is_empty_elem _ _ Hkept).
  by eapply rank_route_schedules.
Qed.

Lemma finish_plan_found s (x : PlanContext D) t routes affinity retry_at (g : Scheduling D R) :
  loop_ok s x t routes g → sg_schedulable g ≠ [] →
  ∃ pl s' r', finish_plan x affinity retry_at g = (inl pl, s', r').
Proof.
  intros [_ Hg] Hne. unfold finish_plan. destruct (is_empty (sg_schedulable g)) eqn:Ee; [by apply is_empty_true in Ee|].
  destruct (scheduled_attempts_spec (sg_schedulable g) affinity (sg_rand g)) as (_ & _ & _ & Hout).
  destruct (build_scheduled_attempts _ affinity _) as [attempts r]. cbn [fst] in Hout.
  assert (attempts ≠ []) as Hatt.
  { apply Hout; [done|]. intros p Hp. rewrite Forall_forall in Hg. destruct (Hg p Hp) as [_ _ [Hk _] [He _] _ _ _ _].
    by apply attempts_of_nonempty. }
  destruct attempts as [|a attempts]; [done|]. cbn [head].
  destruct (is_some_and _ _); [|by do 3 eexists]. cbn [List.filter]. rewrite Z.eqb_refl. cbn [is_empty]. by do 3 eexists.
Qed.

(** C25. A request is planned whenever it can be: if among the collected routes one leads to a
    provider the API key may use whose circuit and capacity admit a request and which the
    request's session, if it has one, does not avoid for now, with an account that is available
    for the model when it is looked at and an open endpoint, then the request gets a plan,
    whatever the other routes, the session's binding and the draws. *)
Theorem plan_found_when_ready s snap strategy f requested api_key affinity allow clock t (r : R) routes d route k e :
  collect_provider_routes snap f requested allow = inl (routes, d) → route ∈ routes →
  up_id (ro_provider route) ∈ ak_allowed_provider_ids api_key →
  (∀ p, pc_retry clock p <= t) → (∀ k, pc_account clock k <= t) →
  let policy := route_policy snap requested in
  route_ready s (MkPlanContext snap requested policy (if is_none_or policy rp_sticky then affinity else None) strategy clock) route k e →
  ∃ pl s' r', build_upstream_plan s (inl snap) strategy f requested api_key affinity allow clock r = (inl pl, s', r').
Proof.
  intros Hc Hr Hauth Hretry Hclock policy Hready. unfold build_upstream_plan. rewrite Hc. cbv zeta. fold policy.
  apply collected_routes_ok in Hc as (_ & _ & _ & Hpol). pose proof (proj1 (ready_enabled _ _ _ _ _ Hready)) as Hen.
  set (session := if is_none_or policy rp_sticky then affinity else None) in *.
  destruct (authorize requested (ak_allowed_provider_ids api_key) routes d) as [[enabled d1]|err] eqn:Ea.
  2: { exfalso. by apply (authorize_found _ _ _ _ _ _ Ea Hr Hauth). }
  pose proof (proj2 (authorize_spec _ _ _ _ _ _ Ea route) ltac:(done)) as Hin.
  pose proof (retry_times_frame t s snap (pc_retry clock) enabled Hretry) as Hf1.
  pose proof (retry_times_affinity s snap (pc_retry clock) enabled) as Ha1.
  destruct (retry_times s snap (pc_retry clock) enabled) as [times s1]. cbn [snd] in Hf1, Ha1.
  set (x := MkPlanContext _ _ _ _ _ _) in *. set (found := match session with Some i => _ | None => _ end).
  assert (avoids_alike x (ss_affinity s) found.2) as Ha2.
  { rewrite -Ha1. unfold found. destruct session as [i|]; [apply (avoids_alike_found x)|done]. }
  destruct found as [binding book]. cbn [snd] in Ha2. set (g0 := MkScheduling _ _ _ _ _ _ _).
  assert (loop_ok s x t enabled g0) as Hg0.
  { split; [|constructor]. cbn [sg_state g0]. etransitivity; [exact Hf1|apply frame_affinity]. }
  eapply finish_plan_found; [by apply plan_loop_ok; [| |exact Hg0]|].
  apply list_elem_of_split in Hin as (l1 & l2 & Hl). rewrite Hl foldl_app. cbn [foldl]. apply plan_loop_keeps.
  eapply plan_step_schedules; [exact Hclock| | |exact Hready|by intros p Hp; apply Hpol].
  - etransitivity; [exact Ha2|exact (plan_loop_avoids x l1 g0)].
  - eapply (plan_loop_ok s x t enabled); [done| |done]. intros r' Hr'. rewrite Hl. apply elem_of_app. by left.
Qed.
End PlanFacts.

(** ** Affinity: facts *)
Section AffinityFacts.
Context {D : Type}.
Context {EntryOrder : HashOrder AffinityKey AffinityEntry}.
Implicit Types p : UpstreamPlan D.

Lemma prefer_target_head p b :
  let p' := (prefer_target p b).2 in
  if existsb (is_exact b) (pl_attempts p)
  then ∃ first rest, pl_attempts p' = first :: rest ∧ is_exact b first = true
  else p' = p.
Proof.
  cbv zeta. unfold prefer_target. destruct (existsb (is_exact b) (pl_attempts p)) eqn:E; [|done].
  cbn [snd pl_attempts set_attempts].
  pose proof (sort_by_key2_perm (prefer_key b) (pl_attempts p)) as Hp.
  pose proof (sort_by_key2_sorted (prefer_key b) (pl_attempts p)) as Hs.
  apply existsb_elem in E as (a & Ha & Hex). rewrite -Hp in Ha.
  destruct (sort_by_key2 _ _) as [|first rest]; [by apply elem_of_nil in Ha|]. exists first, rest. split; [done|].
  apply elem_of_cons in Ha as [<-|Ha]; [done|]. apply StronglySorted_inv in Hs as [_ Hs].
  rewrite Forall_forall in Hs. specialize (Hs a Ha). apply lex_leb_true in Hs. unfold prefer_key in Hs. rewrite Hex in Hs.
  by destruct (is_exact b first); [|simpl in Hs; lia].
Qed.

Lemma prefer_target_perm p b : pl_attempts (prefer_target p b).2 ≡ₚ pl_attempts p.
Proof. unfold prefer_target. destruct (existsb _ _); [apply sort_by_key2_perm|done]. Qed.

(** A sorted list whose keys are three is its three groups in turn. *)
Lemma three_groups {A} (key : A → Z * Z) l :
  StronglySorted (λ x y, lex_leb (key x) (key y) = true) l →
  (∀ x, x ∈ l → key x = (0, 0) ∨ key x = (1, 0) ∨ key x = (1, 1)) →
  l = List.filter (λ x, bool_decide (key x = (0, 0))) l ++ List.filter (λ x, bool_decide (key x = (1, 0))) l
      ++ List.filter (λ x, bool_decide (key x = (1, 1))) l.
Proof.
  assert (∀ c (l : list A), (∀ y, y ∈ l → key y ≠ c) → List.filter (λ x, bool_decide (key x = c)) l = []) as Hnone.
  { intros c k. induction k as [|y k IH]; intros Hk; [done|]. cbn [List.filter].
    rewrite bool_decide_false; [|apply Hk; by left]. apply IH. intros z Hz. apply Hk. by right. }
  induction 1 as [|x l Hs IH Hall]; intros Hk; [done|]. specialize (IH (λ y Hy, Hk y ltac:(by right))).
  rewrite Forall_forall in Hall.
  assert (∀ c, lex_leb (key x) c = false → ∀ y, y ∈ l → key y ≠ c) as Hlt.
  { intros c Hc y Hy <-. by rewrite Hall in Hc. }
  cbn [List.filter]. destruct (Hk x ltac:(by left)) as [E|[E|E]]; rewrite E in Hlt |- *; cbn [bool_decide].
  - rewrite (bool_decide_true ((0, 0) = (0, 0))) // !bool_decide_false //. cbn [app]. by rewrite -IH.
  - rewrite (bool_decide_true ((1, 0) = (1, 0))) // !bool_decide_false //.
    rewrite (Hnone _ _ (Hlt (0, 0) eq_refl)) in IH |- *. cbn [app] in *. by rewrite -IH.
  - rewrite (bool_decide_true ((1, 1) = (1, 1))) // !bool_decide_false //.
    rewrite (Hnone _ _ (Hlt (0, 0) eq_refl)) (Hnone _ _ (Hlt (1, 0) eq_refl)) in IH |- *. cbn [app] in *. by rewrite -IH.
Qed.

(** Preferring a session's target only reorders the attempts: the exact target
    first, then its provider's other attempts, then the rest, each group in the
    order it had; with no exact target nothing moves. *)
Theorem prefer_target_correct p b :
  let '(found, p') := prefer_target p b in
  let exact := is_exact b in
  let same := λ a, negb (exact a) && (up_id (ru_provider a) =? ab_provider_id b) in
  let other := λ a, negb (up_id (ru_provider a) =? ab_provider_id b) in
  found = existsb exact (pl_attempts p)
  ∧ pl_attempts p' =
      if found then List.filter exact (pl_attempts p) ++ List.filter same (pl_attempts p)
                    ++ List.filter other (pl_attempts p)
      else pl_attempts p.
Proof.
  unfold prefer_target. destruct (existsb (is_exact b) (pl_attempts p)); [|done]. split; [done|].
  cbn [pl_attempts set_attempts]. generalize (pl_attempts p) as l. intros l.
  rewrite {1}(three_groups (prefer_key b) (sort_by_key2 (prefer_key b) l)).
  - rewrite !sort_by_key2_stable. f_equal; [|f_equal].
    + apply filter_ext_bool. intros a. unfold prefer_key. destruct (is_exact b a) eqn:E.
      * unfold is_exact in E. apply andb_true_iff in E as [[-> _]%andb_true_iff _]. done.
      * by destruct (_ =? _).
    + apply filter_ext_bool. intros a. unfold prefer_key. destruct (is_exact b a); by destruct (_ =? _).
    + apply filter_ext_bool. intros a. unfold prefer_key. destruct (is_exact b a) eqn:E.
      * unfold is_exact in E. apply andb_true_iff in E as [[-> _]%andb_true_iff _]. done.
      * by destruct (_ =? _).
  - apply sort_by_key2_sorted.
  - intros a _. unfold prefer_key. destruct (is_exact b a) eqn:E; [|destruct (_ =? _); auto].
    unfold is_exact in E. apply andb_true_iff in E as [[-> _]%andb_true_iff _]. auto.
Qed.

(** The binding of a session no binding was known for: the first attempt claims it. *)
Definition claim_first (s : SharedState) (identity : AffinityIdentity) (p : UpstreamPlan D) (now : Z)
    : option (AffinityBinding * AffinityBook) :=
  option_map (λ first, claim_target (ss_affinity s) identity (up_id (ru_provider first))
    (Some (uk_id (ru_key first))) (Some (ue_id (ru_endpoint first))) now) (head (pl_attempts p)).

(** A session follows its binding. A request of a session always ends up bound;
    its plan keeps the same attempts, and starts with the bound target when the plan
    has it. A known binding is kept, with nothing written, when its target is in the
    plan or its provider is only momentarily full; otherwise it is cleared and the
    plan's first attempt claims the session. *)
Theorem session_follows_binding s identity existing p now :
  pl_sticky p = true → pl_attempts p ≠ [] →
  let '(out, p', s') := apply_affinity_to_plan s (Some identity) existing p now in
  ∃ b, out = Some b
    ∧ pl_attempts p' ≡ₚ pl_attempts p
    ∧ (if existsb (is_exact b) (pl_attempts p)
       then ∃ first rest, pl_attempts p' = first :: rest ∧ is_exact b first = true
       else p' = p)
    ∧ match existing with
      | Some old =>
          if existsb (is_exact old) (pl_attempts p)
             || bool_decide (ab_provider_id old ∈ pl_transient_spill_provider_ids p)
          then b = old ∧ s' = s
          else claim_first (set_ss_affinity (clear_if_provider (ss_affinity s) identity (ab_provider_id old)).2 s)
                 identity p now = Some (b, ss_affinity s')
      | None => claim_first s identity p now = Some (b, ss_affinity s')
      end.
Proof.
  intros Hst Hne. unfold apply_affinity_to_plan. rewrite Hst. cbn [negb].
  destruct (pl_attempts p) as [|first rest] eqn:Eatt; [done|]. rewrite -Eatt.
  assert (∀ s0, let '(binding, book) := claim_target (ss_affinity s0) identity (up_id (ru_provider first))
      (Some (uk_id (ru_key first))) (Some (ue_id (ru_endpoint first))) now in
      claim_first s0 identity p now = Some (binding, book)) as Hclaim.
  { intros s0. unfold claim_first. rewrite Eatt. cbn [head option_map]. by destruct (claim_target _ _ _ _ _ _). }
  assert (head (pl_attempts p) = Some first) as Hhead by by rewrite Eatt.
  destruct existing as [old|].
  - destruct (prefer_target p old) as [preferred p'] eqn:Ep.
    assert (preferred = existsb (is_exact old) (pl_attempts p)) as ->.
    { unfold prefer_target in Ep. destruct (existsb _ _); by injection Ep. }
    destruct (_ || _) eqn:Ek.
    + exists old. pose proof (prefer_target_perm p old) as Hp. pose proof (prefer_target_head p old) as Hh.
      rewrite Ep in Hp Hh. done.
    + rewrite Hhead. match goal with |- context [claim_target (ss_affinity ?s0) _ _ _ _ _] => specialize (Hclaim s0) end.
      destruct (claim_target _ _ _ _ _ _) as [b book]. exists b. split_and!; try done.
      * apply prefer_target_perm.
      * apply prefer_target_head.
  - rewrite Hhead. specialize (Hclaim s). destruct (claim_target _ _ _ _ _ _) as [b book]. exists b.
    split_and!; try done; [apply prefer_target_perm|apply prefer_target_head].
Qed.

(** A route policy does not reach a provider that an enabled legacy route of the
    same model leaves out: routing lets the policy override the legacy route, but the
    availability test consults the legacy route alone, so no account of that provider
    is ever available for the model and its keys are dropped from every plan. *)
Theorem policy_target_blocked_by_legacy_route (snap : UpstreamSnapshot D) policy legacy m provider :
  sn_route_policies snap !! m = Some policy → policy_allows policy (up_id provider) = true →
  sn_routes_by_model snap !! m = Some legacy → mr_enabled legacy = true → mr_provider_ids legacy ≠ [] →
  up_id provider ∉ mr_provider_ids legacy →
  route_allows_provider_for_model snap m (up_id provider) = true
  ∧ (∀ s key owns now, av_available (account s snap provider key (Some m) owns now).1 = false)
  ∧ (∀ s clock keys d, (available_keys s snap provider m clock keys d).1.1 = []).
Proof.
  intros Hp Ha Hl He Hne Hnin.
  assert (∀ s key owns now, av_available (account s snap provider key (Some m) owns now).1 = false) as Hav.
  { intros s key owns now. destruct (av_available _) eqn:E; [|done]. exfalso.
    apply account_available_iff' in E as (_ & _ & _ & _ & Hm & _).
    unfold model_available, account_allows in Hm. apply andb_true_iff in Hm as [_ Hm]. rewrite Hl in Hm.
    cbn [is_none_or] in Hm. rewrite He in Hm. destruct (mr_provider_ids legacy) as [|i ids]; [done|].
    cbn [negb is_empty orb] in Hm. apply existsb_elem in Hm as (j & Hj & E%Z.eqb_eq). by rewrite E in Hnin. }
  split_and!; [unfold route_allows_provider_for_model; by rewrite Hp|exact Hav|].
  intros s clock keys. revert s. induction keys as [|key keys IH]; intros s d; [done|]. cbn [available_keys].
  specialize (Hav s key false (clock key)). destruct (account _ _ _ _ _ _ _) as [av s1]. cbn [fst] in Hav. rewrite Hav.
  match goal with |- context [available_keys s1 _ _ _ _ keys ?d1] => specialize (IH s1 d1) end.
  by destruct (available_keys s1 _ _ _ _ keys _) as [[rest d2] s2].
Qed.
End AffinityFacts.

(** ** Planning reads the providers' books only *)
Section PlanRuntime.
Context {D R : Type} `{FastRand R}.
Implicit Types snap : UpstreamSnapshot D.
Implicit Types s : SharedState.
Implicit Types g : Scheduling D R.

Lemma account_runtime s snap p key m owns now :
  ss_provider_runtime (account s snap p key m owns now).2 = ss_provider_runtime s.
Proof.
  unfold account. destruct (negb _); [done|]. destruct (negb _); [done|]. destruct (oauth_refusal _ _ _ _); [done|].
  destruct (is_available _ _ _) as [ok q]. destruct (negb ok); [done|]. by destruct (path_refusal _ _ _ _ _ _ _).
Qed.

Lemma available_keys_runtime snap p m clock keys s d :
  ss_provider_runtime (available_keys s snap p m clock keys d).2 = ss_provider_runtime s.
Proof.
  revert s d. induction keys as [|k keys IH]; intros s d; cbn [available_keys]; [done|].
  pose proof (account_runtime s snap p k (Some m) false (clock k)) as Ha. destruct (account _ _ _ _ _ _ _) as [a s1].
  set (d1 := if av_available a then d else _). specialize (IH s1 d1).
  destruct (available_keys s1 _ _ _ _ _ _) as [[rest d2] s2]. cbn [snd] in *. congruence.
Qed.

Lemma keys_blocked_until_runtime snap p at_ now keys s :
  ss_provider_runtime (keys_blocked_until s snap p at_ now keys).2 = ss_provider_runtime s.
Proof.
  revert s. induction keys as [|k keys IH]; intros s; cbn [keys_blocked_until]; [done|].
  unfold key_blocked_until. destruct (quota_snapshot _ _ _) as [q book].
  specialize (IH (set_ss_quota book s)). by destruct (keys_blocked_until (set_ss_quota book s) _ _ _ _ _).
Qed.

Lemma retry_times_runtime snap clock routes s :
  ss_provider_runtime (retry_times s snap clock routes).2 = ss_provider_runtime s.
Proof.
  revert s. induction routes as [|r routes IH]; intros s; cbn [retry_times]; [done|].
  assert (ss_provider_runtime (provider_retry_at s snap (ro_provider r) (Some (ro_upstream_model r)) (clock (ro_provider r))).2
          = ss_provider_runtime s) as Hr.
  { unfold provider_retry_at. destruct (sn_endpoints_by_provider snap !! _); [|done]. destruct (min_opt _); [|done].
    destruct (sn_keys_by_provider snap !! _); [|done].
    match goal with |- context [keys_blocked_until s ?a ?b ?c ?d ?e] =>
      pose proof (keys_blocked_until_runtime a b c d e s) as Hk; by destruct (keys_blocked_until s a b c d e) end. }
  destruct (provider_retry_at _ _ _ _ _) as [t s1]. specialize (IH s1). destruct (retry_times s1 _ _ _).
  cbn [snd] in *. congruence.
Qed.

Lemma plan_step_runtime (x : PlanContext D) g route :
  ss_provider_runtime (sg_state (plan_step x g route)) = ss_provider_runtime (sg_state g).
Proof.
  unfold plan_step. destruct (is_empty _); [done|]. destruct (is_empty _); [done|]. destruct (is_empty _); [done|].
  unfold admit_route. destruct (match px_affinity x with Some _ => _ | None => _ end) as [avoided book].
  destruct avoided; [done|]. destruct (negb _); [by destruct (pv_state _)|].
  match goal with |- context [available_keys ?a ?b ?c ?d ?e ?f ?h] =>
    pose proof (available_keys_runtime b c d e f a h) as Hk; destruct (available_keys a b c d e f h) as [[keys d2] s2] end.
  cbn [snd] in Hk. destruct (is_empty keys); [exact Hk|]. unfold rank_route.
  destruct (rank_key_refs_with_health _ _ _ _) as [ranked r]. destruct (order_keys_for_provider _ _ _ _) as [ranked' rot].
  destruct (is_empty ranked'); [exact Hk|]. destruct (is_empty _); [exact Hk|]. unfold schedule. by destruct (_ && _).
Qed.

Lemma plan_steps_runtime (x : PlanContext D) routes g :
  ss_provider_runtime (sg_state (foldl (plan_step x) g routes)) = ss_provider_runtime (sg_state g).
Proof. revert g. induction routes as [|r routes IH]; intros g; cbn [foldl]; [done|]. by rewrite IH plan_step_runtime. Qed.

Lemma build_upstream_plan_runtime s load strategy f model key affinity allow clock (r : R) :
  ss_provider_runtime (build_upstream_plan (D := D) s load strategy f model key affinity allow clock r).1.2 = ss_provider_runtime s.
Proof.
  unfold build_upstream_plan. destruct load as [snap|]; [|done]. destruct (collect_provider_routes _ _ _ _) as [[routes d]|]; [|done].
  destruct (authorize _ _ _ _) as [[enabled d1]|]; [|done].
  pose proof (retry_times_runtime snap (pc_retry clock) enabled s) as Ht. destruct (retry_times _ _ _ _) as [times s1].
  destruct (match _ with Some _ => _ | None => _ end) as [binding book]. unfold finish_plan.
  match goal with |- context [foldl (plan_step ?x) ?g enabled] => pose proof (plan_steps_runtime x enabled g) as Hg;
    set (g' := foldl (plan_step x) g enabled) in * end.
  cbn [snd] in Ht. cbn in Hg. destruct (is_empty _); [cbn; congruence|].
  destruct (build_scheduled_attempts _ _ _) as [attempts r']. destruct (is_empty _); cbn; congruence.
Qed.
End PlanRuntime.

Lemma apply_affinity_runtime {D} {EntryOrder : HashOrder AffinityKey AffinityEntry} s identity existing (p : UpstreamPlan D) now :
  ss_provider_runtime (apply_affinity_to_plan s identity existing p now).2 = ss_provider_runtime s.
Proof.
  unfold apply_affinity_to_plan. destruct (negb _); [done|]. destruct identity as [i|]; [|done].
  destruct existing as [b|].
  - destruct (prefer_target p b) as [preferred p']. destruct (_ || _); [done|].
    destruct (head _); [|done]. by destruct (claim_target _ _ _ _ _ _).
  - destruct (head _); [|done]. by destruct (claim_target _ _ _ _ _ _).
Qed.

(** ** A concrete plan *)
#[local] Instance wp_entries : HashOrder AffinityKey AffinityEntry := canonical_order.
#[local] Instance wp_avoided : HashOrder AffinityKey AvoidEntry := canonical_order.

Definition wp_provider (id : Z) : UpstreamProvider :=
  MkProvider None true id "p" "openai" true 0 1 true false [] (MkOverrides [] []) "ordered" 2 None true 3 1000 1.
Definition wp_key (id provider : Z) : UpstreamKey := MkKey id provider "k" "secret" true 0 1.
Definition wp_endpoint (id provider : Z) : UpstreamEndpoint := MkEndpoint id provider "e" "https://upstream" true 0 1.

(** Two providers with the model [m]; a policy prefers the second. The first key of
    the second provider rests until 5000. *)
Definition wp_snapshot : UpstreamSnapshot Z :=
  MkSnapshot [wp_provider 1; wp_provider 2]
    {["m" := MkRoutePolicy "m" "priority" true true [MkRouteTarget 1 20 1; MkRouteTarget 2 10 1]]}
    (<[1 := [wp_key 11 1]]> (<[2 := [wp_key 21 2; wp_key 22 2]]> ∅))
    (<[1 := [wp_endpoint 111 1]]> (<[2 := [wp_endpoint 211 2]]> ∅)) ∅ ∅
    (<[1 := {["m" := MkModelState true true true]}]> (<[2 := {["m" := MkModelState true true true]}]> ∅))
    ∅ ∅ ∅ ∅ ∅ ∅ [] ∅ ∅.
Definition wp_state : SharedState :=
  MkShared (set_cooldown_until new_quota_book 21 5000 1000) new_runtime_book (new_health_book 1 30000)
    (new_health_book 1 30000) new_rotation (new_affinity_book 1000000000 10).
Definition wp_clock : PlanClock := MkClock 1000 (λ _, 1000) (λ _, 1000).
Definition wp_api_key : ApiKeyAuth := MkApiKeyAuth 1 true None true "key" [] [1; 2].

Definition wp_plan : (UpstreamPlan Z + RouteResolutionError) * SharedState * Z :=
  build_upstream_plan wp_state (inl wp_snapshot) Weighted Responses "m" wp_api_key None true wp_clock (7 : Z).

Definition wp_targets (r : UpstreamPlan Z + RouteResolutionError) : list (Z * Z * Z) :=
  match r with
  | inl pl => map (λ a, (up_id (ru_provider a), uk_id (ru_key a), ue_id (ru_endpoint a))) (pl_attempts pl)
  | inr _ => []
  end.

Example wp_plan_targets : wp_targets wp_plan.1.1 = [(2, 22, 211); (1, 11, 111)].
Proof. vm_compute. reflexivity. Qed.

Lemma plan_attempts_sound_witness :
  match wp_plan.1.1 with
  | inl pl => (length (pl_attempts pl) <= 27)%nat
      ∧ Forall (λ a, ∃ route, attempt_ok wp_state
          (MkPlanContext wp_snapshot "m" (route_policy wp_snapshot "m") None Weighted wp_clock)
          1000 Responses true [1; 2] route a) (pl_attempts pl)
  | inr _ => False
  end.
Proof.
  destruct wp_plan as [[[pl|e] s'] r'] eqn:E.
  - assert (∀ p, pc_retry wp_clock p <= 1000) as H1 by (intros p; reflexivity).
    assert (∀ k, pc_account wp_clock k <= 1000) as H2 by (intros k; reflexivity).
    destruct (plan_attempts_sound wp_state wp_snapshot Weighted Responses "m" wp_api_key None true wp_clock 1000
                (7 : Z) pl s' r' H1 H2 E) as (_ & _ & Hlen & _ & Hok & _).
    split; [exact Hlen|exact Hok].
  - vm_compute in E. discriminate E.
Defined.

Definition wp_route (id : Z) : ProviderRoute :=
  MkRoute (wp_provider id) "m" None None (native Responses).

Definition wp_identity : AffinityIdentity := build_identity (λ l, l) 1 "session-a" SessionId.

Lemma plan_found_when_ready_witness :
  ∃ pl s' r', build_upstream_plan wp_state (inl wp_snapshot) Weighted Responses "m" wp_api_key (Some wp_identity) true
                wp_clock (7 : Z) = (inl pl, s', r').
Proof.
  destruct (collect_provider_routes wp_snapshot Responses "m" true) as [[routes d]|e] eqn:E.
  - apply (plan_found_when_ready wp_state wp_snapshot Weighted Responses "m" wp_api_key (Some wp_identity) true wp_clock 1000 7
      routes d (wp_route 1) (wp_key 11 1) (wp_endpoint 111 1) E).
    + vm_compute in E. injection E as <- _. by left.
    + by left.
    + intros p. reflexivity.
    + intros k. reflexivity.
    + split.
      * vm_compute. reflexivity.
      * intros identity [= <-]. vm_compute. reflexivity.
      * by left.
      * vm_compute. reflexivity.
      * vm_compute. reflexivity.
      * vm_compute. reflexivity.
      * by left.
      * reflexivity.
      * vm_compute. reflexivity.
  - vm_compute in E. discriminate E.
Defined.

Definition wp_attempt (id : Z) : ResolvedUpstream Z :=
  MkResolved "m" (wp_provider id) (wp_endpoint (id * 100) id) (wp_key (id * 10) id) None (native Responses).
Definition wp_two : UpstreamPlan Z := MkPlan true None [wp_attempt 1; wp_attempt 2] ∅ default_diagnostics.

Lemma session_follows_binding_witness :
  let '(out, p', s') := apply_affinity_to_plan wp_state (Some wp_identity)
      (Some (MkBinding 2 None None 1 true)) wp_two 1000 in
  ∃ b, out = Some b ∧ pl_attempts p' ≡ₚ [wp_attempt 1; wp_attempt 2].
Proof.
  pose proof (session_follows_binding wp_state wp_identity (Some (MkBinding 2 None None 1 true)) wp_two 1000
    eq_refl ltac:(discriminate)) as Hs.
  destruct (apply_affinity_to_plan _ _ _ _ _) as [[out p'] s'].
  destruct Hs as (b & Hb & Hp & _). exists b. split; [exact Hb|exact Hp].
Defined.

(** The legacy route of [m] names provider 1 only; the policy adds provider 2. *)
Definition wp_legacy : UpstreamSnapshot Z :=
  MkSnapshot [wp_provider 1; wp_provider 2] (sn_route_policies wp_snapshot) (sn_keys_by_provider wp_snapshot)
    (sn_endpoints_by_provider wp_snapshot) ∅ {["m" := MkModelRoute 1 "m" true [1]]}
    (sn_provider_models_by_provider wp_snapshot) ∅ ∅ ∅ ∅ ∅ ∅ [] ∅ ∅.

Lemma policy_target_blocked_by_legacy_route_witness :
  route_allows_provider_for_model wp_legacy "m" 2 = true
  ∧ av_available (account wp_state wp_legacy (wp_provider 2) (wp_key 22 2) (Some "m") false 1000).1 = false.
Proof.
  destruct (policy_target_blocked_by_legacy_route wp_legacy
    (MkRoutePolicy "m" "priority" true true [MkRouteTarget 1 20 1; MkRouteTarget 2 10 1])
    (MkModelRoute 1 "m" true [1]) "m" (wp_provider 2)) as (H1 & H2 & _).
  - vm_compute. reflexivity.
  - reflexivity.
  - vm_compute. reflexivity.
  - reflexivity.
  - discriminate.
  - intros H%list_elem_of_singleton. discriminate H.
  - split; [exact H1|apply H2].
Defined.

Example wp_legacy_plan :
  wp_targets (build_upstream_plan wp_state (inl wp_legacy) Weighted Responses "m" wp_api_key None true
                wp_clock (7 : Z)).1.1 = [(1, 11, 111)].
Proof. vm_compute. reflexivity. Qed.

Definition wp_schedulable (id priority weight : Z) : SchedulableProvider Z :=
  MkSchedulable (wp_route id) priority weight [] [] None.

Lemma provider_order_correct_witness :
  (order_schedulable_providers [wp_schedulable 1 20 0; wp_schedulable 2 10 3; wp_schedulable 3 10 1] (Some 1) (5 : Z)).1
  ≡ₚ [wp_schedulable 1 20 0; wp_schedulable 2 10 3; wp_schedulable 3 10 1].
Proof.
  exact (proj1 (provider_order_correct (R := Z)
    [wp_schedulable 1 20 0; wp_schedulable 2 10 3; wp_schedulable 3 10 1] (Some 1) 5)).
Defined.
