(* ===== verification/Reservation.v ===== *)
(** * Reservation: taking a target and settling what came of it

    Models the reservations of [proxy.rs]: what one attempt holds (a concurrency
    permit, an attempt of the provider's breaker, of the endpoint's and of the key's
    circuit, one request of the key's quota), what its outcome does to each of them
    by the scope of the failure, and the targets a request excludes after a failure.
    Dropping a reservation gives back what it still holds, as [Drop] does. *)
From Stdlib Require Import Ascii String.
From S2P Require Import Prelude Text Json ProbeProtocol Resilience Types RuntimeHealth ProviderRuntime.
From S2P Require Import Quota KeyRotation Selector Affinity Pricing Snapshot RoutingAvailability Routing Plan.

Local Open Scope string_scope.
Local Open Scope list_scope.
Local Open Scope Z_scope.

(** ** Scopes *)
Inductive FailureScope := ScopeSuccess | ScopeKey | ScopeQuota | ScopeModel | ScopeProvider | ScopeClient.

#[export] Instance FailureScope_eq_dec : EqDecision FailureScope.
Proof. solve_decision. Defined.

(** [format!("{scope:?}")] *)
Definition scope_name (scope : FailureScope) : string :=
  match scope with
  | ScopeSuccess => "Success" | ScopeKey => "Key" | ScopeQuota => "Quota"
  | ScopeModel => "Model" | ScopeProvider => "Provider" | ScopeClient => "Client"
  end.

Definition is_retryable (scope : FailureScope) : bool :=
  match scope with ScopeKey | ScopeQuota | ScopeModel | ScopeProvider => true | _ => false end.

Definition should_migrate_affinity (scope : FailureScope) : bool :=
  match scope with ScopeKey | ScopeModel | ScopeProvider => true | _ => false end.

Definition should_avoid_affinity_immediately (scope : FailureScope) : bool :=
  match scope with ScopeModel | ScopeProvider => true | _ => false end.

Inductive OutcomeOrigin := UpstreamResponse | UpstreamEvent | LocalTransport | Gateway.

#[export] Instance OutcomeOrigin_eq_dec : EqDecision OutcomeOrigin.
Proof. solve_decision. Defined.

Definition classify_failure_scope (status : option Z) (origin : OutcomeOrigin) : FailureScope :=
  if bool_decide (origin = LocalTransport) then ScopeProvider
  else match status with
       | None => ScopeProvider
       | Some code =>
           if (200 <=? code) && (code <=? 399) then ScopeSuccess
           else if (code =? 401) || (code =? 403) then ScopeKey
           else if (code =? 402) || (code =? 429) then ScopeQuota
           else if code =? 404 then ScopeModel
           else if (code =? 408) || (code =? 409) || (code =? 425) then ScopeProvider
           else if 500 <=? code then ScopeProvider
           else if (400 <=? code) && (code <=? 499) then ScopeClient
           else ScopeProvider
       end.

Definition should_retry_response_status (status : Z) : bool :=
  existsb (Z.eqb status) [401; 402; 403; 404; 408; 409; 425; 429] || (500 <=? status).

Record AttemptOutcome := MkOutcome {
  oc_status : option Z;
  oc_origin : OutcomeOrigin;
  oc_error_type : option string;
  oc_error_message : option string;
  oc_observed_latency_ms : option Z
}.

Definition upstream_response (status : Z) (error_type error_message : option string)
    (observed_latency_ms : option Z) : AttemptOutcome :=
  MkOutcome (Some status) UpstreamResponse error_type error_message observed_latency_ms.

Definition local_provider (status : option Z) (error_type error_message : string)
    (observed_latency_ms : option Z) : AttemptOutcome :=
  MkOutcome status LocalTransport (Some error_type) (Some error_message) observed_latency_ms.

(** ** Reservations *)
Inductive AttemptReservationError := ReservationProvider | ReservationKey | ReservationEndpoint | ReservationQuota.

(** What an attempt holds; a part that was consumed is [None]. [rv_error_book] are the
    provider, endpoint and key of the error timeline. *)
Record UpstreamAttemptReservation := MkReservation {
  rv_error_book : option (Z * Z * Z);
  rv_capacity : option ProviderCapacityPermit;
  rv_provider : option ProviderAttemptGuard;
  rv_endpoint : option RuntimeHealthAttemptGuard;
  rv_key : option RuntimeHealthAttemptGuard
}.

Definition reservation_current (s : SharedState) (r : UpstreamAttemptReservation) : bool :=
  is_none_or (rv_provider r) (ProviderRuntime.is_current (ss_provider_runtime s))
  && is_none_or (rv_endpoint r) (RuntimeHealth.is_current (ss_endpoint_health s))
  && is_none_or (rv_key r) (RuntimeHealth.is_current (ss_upstream_key_health s)).

(** Consuming one part of a reservation. *)
Definition settle_endpoint (g : option RuntimeHealthAttemptGuard) (o : RuntimeHealth.outcome) (now_ms : Z)
    (s : SharedState) : SharedState :=
  match g with
  | Some g => set_ss_endpoint_health (RuntimeHealth.finish_guard (ss_endpoint_health s) g o now_ms) s
  | None => s
  end.

Definition settle_key (g : option RuntimeHealthAttemptGuard) (o : RuntimeHealth.outcome) (now_ms : Z)
    (s : SharedState) : SharedState :=
  match g with
  | Some g => set_ss_upstream_key_health (RuntimeHealth.finish_guard (ss_upstream_key_health s) g o now_ms) s
  | None => s
  end.

Definition settle_provider (g : option ProviderAttemptGuard) (r : attempt_result) (now_ms : Z)
    (s : SharedState) : SharedState :=
  match g with
  | Some g => set_ss_provider_runtime (ProviderRuntime.finish_guard (ss_provider_runtime s) g r now_ms).2 s
  | None => s
  end.

Definition drop_capacity (c : option ProviderCapacityPermit) (s : SharedState) : SharedState :=
  match c with
  | Some c => set_ss_provider_runtime (drop_permit (ss_provider_runtime s) c) s
  | None => s
  end.

(** What is left once the guards are taken. *)
Definition only_capacity (r : UpstreamAttemptReservation) : UpstreamAttemptReservation :=
  MkReservation (rv_error_book r) (rv_capacity r) None None None.

(** The entry of the error timeline; [record_error] reads the clock itself. *)
Definition note_error (r : UpstreamAttemptReservation) (scope : FailureScope) (status : option Z) (time_ms : Z)
    (s : SharedState) : SharedState :=
  match rv_error_book r with
  | Some (provider, endpoint, key) =>
      if bool_decide (scope = ScopeSuccess) then s
      else set_ss_provider_runtime
             (record_error (ss_provider_runtime s) provider endpoint key (scope_name scope) status time_ms) s
  | None => s
  end.

Definition finish_with_scope (s : SharedState) (r : UpstreamAttemptReservation) (o : AttemptOutcome)
    (scope : FailureScope) (time_ms now_ms : Z) : UpstreamAttemptReservation * SharedState :=
  let s := note_error r scope (oc_status o) time_ms s in
  let error_type := unwrap_or (oc_error_type o) "upstream_error" in
  let error_message := unwrap_or (oc_error_message o) "upstream attempt failed" in
  let success := RuntimeHealth.Success (oc_status o) (oc_observed_latency_ms o) in
  let failure := RuntimeHealth.Failure (oc_status o) (oc_error_type o) (oc_error_message o) in
  (only_capacity r,
   match scope with
   | ScopeSuccess =>
       s |> settle_endpoint (rv_endpoint r) success now_ms |> settle_key (rv_key r) success now_ms
         |> settle_provider (rv_provider r) (GuardSuccess (oc_status o) (oc_observed_latency_ms o)) now_ms
   | ScopeKey =>
       s |> settle_endpoint (rv_endpoint r) success now_ms |> settle_key (rv_key r) failure now_ms
         |> settle_provider (rv_provider r) GuardNeutral now_ms
   | ScopeModel | ScopeClient =>
       s |> settle_endpoint (rv_endpoint r) success now_ms |> settle_key (rv_key r) success now_ms
         |> settle_provider (rv_provider r) GuardNeutral now_ms
   | ScopeQuota =>
       s |> settle_endpoint (rv_endpoint r) Neutral now_ms |> settle_key (rv_key r) Neutral now_ms
         |> settle_provider (rv_provider r) GuardNeutral now_ms
   | ScopeProvider =>
       s |> settle_endpoint (rv_endpoint r) failure now_ms |> settle_key (rv_key r) Neutral now_ms
         |> settle_provider (rv_provider r) (GuardFailure (oc_status o) error_type error_message) now_ms
   end).

(** [neutral] consumes the reservation; its capacity is dropped with it. *)
Definition neutral (s : SharedState) (r : UpstreamAttemptReservation) (now_ms : Z) : SharedState :=
  s |> settle_endpoint (rv_endpoint r) Neutral now_ms |> settle_key (rv_key r) Neutral now_ms
    |> settle_provider (rv_provider r) GuardNeutral now_ms |> drop_capacity (rv_capacity r).

(** [finish] consumes the reservation too. *)
Definition finish (s : SharedState) (r : UpstreamAttemptReservation) (o : AttemptOutcome) (time_ms now_ms : Z)
    : SharedState :=
  let '(r, s) := finish_with_scope s r o (classify_failure_scope (oc_status o) (oc_origin o)) time_ms now_ms in
  drop_capacity (rv_capacity r) s.

(** The connection of a WebSocket keeps the capacity for its turns. *)
Definition into_capacity (s : SharedState) (r : UpstreamAttemptReservation) (now_ms : Z)
    : option ProviderCapacityPermit * SharedState :=
  (rv_capacity r,
   s |> settle_endpoint (rv_endpoint r) Neutral now_ms |> settle_key (rv_key r) Neutral now_ms
     |> settle_provider (rv_provider r) GuardNeutral now_ms).

(** Dropping a reservation: its fields in their order of declaration. *)
Definition drop_reservation (s : SharedState) (r : UpstreamAttemptReservation) (drop_ms : Z) : SharedState :=
  s |> drop_capacity (rv_capacity r) |> settle_provider (rv_provider r) GuardNeutral drop_ms
    |> settle_endpoint (rv_endpoint r) Neutral drop_ms |> settle_key (rv_key r) Neutral drop_ms.

(** ** Taking a reservation *)
Section Reserve.
Context {D : Type}.

(** The capacity is taken only when [acquire_capacity]. *)
Definition take_capacity (s : SharedState) (provider : UpstreamProvider) (acquire_capacity : bool)
    : (option ProviderCapacityPermit + AttemptReservationError) * SharedState :=
  if acquire_capacity then
    let '(permit, book) := try_acquire_capacity (ss_provider_runtime s) provider in
    (match permit with Some c => inl (Some c) | None => inr ReservationProvider end,
     set_ss_provider_runtime book s)
  else (inl None, s).

(** A refusal drops what was taken before it, the last first; [drop_ms] is the clock
    reading of those drops. *)
Definition reserve_attempt_inner (s : SharedState) (resolved : ResolvedUpstream D) (now_ms drop_ms : Z)
    (acquire_capacity reserve_quota : bool)
    : (UpstreamAttemptReservation + AttemptReservationError) * SharedState :=
  let '(capacity, s) := take_capacity s (ru_provider resolved) acquire_capacity in
  match capacity with
  | inr e => (inr e, s)
  | inl capacity =>
      let '(provider, book) := ProviderRuntime.try_begin_attempt (ss_provider_runtime s) (ru_provider resolved) now_ms in
      let s := set_ss_provider_runtime book s in
      match provider with
      | None => (inr ReservationProvider, drop_capacity capacity s)
      | Some provider =>
          let give_back_provider s :=
            drop_capacity capacity (settle_provider (Some provider) GuardNeutral drop_ms s) in
          let '(key, book) := RuntimeHealth.try_begin_attempt (ss_upstream_key_health s) (uk_id (ru_key resolved)) now_ms in
          let s := set_ss_upstream_key_health book s in
          match key with
          | None => (inr ReservationKey, give_back_provider s)
          | Some key =>
              let give_back_key s := give_back_provider (settle_key (Some key) Neutral drop_ms s) in
              let '(endpoint, book) :=
                RuntimeHealth.try_begin_attempt (ss_endpoint_health s) (ue_id (ru_endpoint resolved)) now_ms in
              let s := set_ss_endpoint_health book s in
              match endpoint with
              | None => (inr ReservationEndpoint, give_back_key s)
              | Some endpoint =>
                  let '(granted, quota) :=
                    if reserve_quota then reserve_request (ss_quota s) (uk_id (ru_key resolved)) now_ms
                    else (true, ss_quota s) in
                  let s := set_ss_quota quota s in
                  if granted then
                    (inl (MkReservation
                       (Some (up_id (ru_provider resolved), ue_id (ru_endpoint resolved), uk_id (ru_key resolved)))
                       capacity (Some provider) (Some endpoint) (Some key)), s)
                  else (inr ReservationQuota,
                        give_back_key (settle_endpoint (Some endpoint) Neutral drop_ms s))
              end
          end
      end
  end.

Definition reserve_attempt s (resolved : ResolvedUpstream D) (now_ms drop_ms : Z) :=
  reserve_attempt_inner s resolved now_ms drop_ms true true.
Definition reserve_ws_connection s (resolved : ResolvedUpstream D) (now_ms drop_ms : Z) :=
  reserve_attempt_inner s resolved now_ms drop_ms true false.
Definition reserve_ws_turn s (resolved : ResolvedUpstream D) (now_ms drop_ms : Z) :=
  reserve_attempt_inner s resolved now_ms drop_ms false true.

(** ** Exclusions *)
Record AttemptExclusions := MkExclusions {
  ex_attempted_pairs : gset (Z * Z);
  ex_provider_ids : gset Z;
  ex_endpoint_ids : gset Z;
  ex_key_ids : gset Z
}.

Definition default_exclusions : AttemptExclusions := MkExclusions ∅ ∅ ∅ ∅.

Definition should_skip (x : AttemptExclusions) (resolved : ResolvedUpstream D) : bool :=
  bool_decide (up_id (ru_provider resolved) ∈ ex_provider_ids x)
  || bool_decide (ue_id (ru_endpoint resolved) ∈ ex_endpoint_ids x)
  || bool_decide (uk_id (ru_key resolved) ∈ ex_key_ids x)
  || bool_decide ((uk_id (ru_key resolved), ue_id (ru_endpoint resolved)) ∈ ex_attempted_pairs x).

Definition note_attempt (x : AttemptExclusions) (resolved : ResolvedUpstream D) : AttemptExclusions :=
  MkExclusions ({[ (uk_id (ru_key resolved), ue_id (ru_endpoint resolved)) ]} ∪ ex_attempted_pairs x)
    (ex_provider_ids x) (ex_endpoint_ids x) (ex_key_ids x).
Definition avoid_endpoint (x : AttemptExclusions) (endpoint_id : Z) : AttemptExclusions :=
  MkExclusions (ex_attempted_pairs x) (ex_provider_ids x) ({[ endpoint_id ]} ∪ ex_endpoint_ids x) (ex_key_ids x).
Definition avoid_provider (x : AttemptExclusions) (provider_id : Z) : AttemptExclusions :=
  MkExclusions (ex_attempted_pairs x) ({[ provider_id ]} ∪ ex_provider_ids x) (ex_endpoint_ids x) (ex_key_ids x).
Definition avoid_key (x : AttemptExclusions) (key_id : Z) : AttemptExclusions :=
  MkExclusions (ex_attempted_pairs x) (ex_provider_ids x) (ex_endpoint_ids x) ({[ key_id ]} ∪ ex_key_ids x).

(** [attempts] is the plan after the current index. *)
Definition has_remaining_candidate (attempts : list (ResolvedUpstream D)) (x : AttemptExclusions) : bool :=
  existsb (λ resolved, negb (should_skip x resolved)) attempts.

Definition has_remaining_provider_candidate (attempts : list (ResolvedUpstream D)) (x : AttemptExclusions)
    (provider_id : Z) : bool :=
  existsb (λ resolved, (up_id (ru_provider resolved) =? provider_id) && negb (should_skip x resolved)) attempts.

Context {AvoidOrder : HashOrder AffinityKey AvoidEntry}.

(** [Duration::from_millis(ms.max(1) as u64)] *)
Definition avoid_ns (provider : UpstreamProvider) : Z :=
  Z.max (up_circuit_breaker_open_ms provider) 1 * 1000000.

Definition note_affinity_failure (s : SharedState) (resolved : ResolvedUpstream D) (scope : FailureScope)
    (affinity_identity : option AffinityIdentity) (faulted_providers : gset Z) (now_ms : Z)
    : gset Z * SharedState :=
  if negb (should_migrate_affinity scope) then (faulted_providers, s)
  else
    let faulted := {[ up_id (ru_provider resolved) ]} ∪ faulted_providers in
    (faulted,
     match affinity_identity with
     | Some identity =>
         if should_avoid_affinity_immediately scope then
           set_ss_affinity (mark_provider_failed (ss_affinity s) identity (up_id (ru_provider resolved)) now_ms
                              (avoid_ns (ru_provider resolved))) s
         else s
     | None => s
     end).
End Reserve.

(** ** Giving back what was taken *)

(** The books differ in probe counters (and update times) only. *)
Definition health_untouched (b b' : RuntimeHealthBook) : Prop :=
  (∀ id, ∃ n u, health_entry b' id = (health_entry b id |> set_rh_next_probe_id n |> set_rh_updated_at_ms u))
  ∧ ∀ id, is_Some (by_id b !! id) → is_Some (by_id b' !! id).

Definition runtime_untouched (b b' : ProviderRuntimeBook) : Prop :=
  (∀ id, ∃ n, runtime_entry b' id = set_pr_next_probe_id n (runtime_entry b id))
  ∧ (∀ id, is_Some (by_provider b !! id) → is_Some (by_provider b' !! id))
  ∧ errors b' = errors b.

#[export] Instance health_untouched_preorder : PreOrder health_untouched.
Proof.
  split.
  - intros b. split; [|done]. intros id. exists (rh_next_probe_id (health_entry b id)), (rh_updated_at_ms (health_entry b id)).
    by destruct (health_entry b id).
  - intros b1 b2 b3 [H1 K1] [H2 K2]. split; [|auto]. intros id. destruct (H1 id) as (n1 & u1 & E1), (H2 id) as (n2 & u2 & E2).
    exists n2, u2. by rewrite E2 E1.
Qed.

#[export] Instance runtime_untouched_preorder : PreOrder runtime_untouched.
Proof.
  split.
  - intros b. split_and!; [|done|done]. intros id. exists (pr_next_probe_id (runtime_entry b id)). by destruct (runtime_entry b id).
  - intros b1 b2 b3 (H1 & K1 & L1) (H2 & K2 & L2). split_and!; [|auto|congruence].
    intros id. destruct (H1 id) as (n1 & E1), (H2 id) as (n2 & E2). exists n2. by rewrite E2 E1.
Qed.

Lemma health_entry_present b id : is_Some (by_id b !! id) → by_id b !! id = Some (health_entry b id).
Proof. unfold health_entry. by intros [s ->]. Qed.
Lemma runtime_entry_present b id : is_Some (by_provider b !! id) → by_provider b !! id = Some (runtime_entry b id).
Proof. unfold runtime_entry. by intros [s ->]. Qed.

Lemma put_health_untouched b id n u :
  health_untouched b (put_health id (health_entry b id |> set_rh_next_probe_id n |> set_rh_updated_at_ms u) b).
Proof.
  split.
  - intros id'. rewrite health_entry_put. case_decide as E; [subst; by exists n, u|].
    exists (rh_next_probe_id (health_entry b id')), (rh_updated_at_ms (health_entry b id')). by destruct (health_entry b id').
  - intros id' Hid. unfold put_health, set_by_id. cbn [by_id]. rewrite lookup_insert. case_decide; [by eexists|done].
Qed.

Lemma put_runtime_untouched b id n :
  runtime_untouched b (put_runtime id (set_pr_next_probe_id n (runtime_entry b id)) b).
Proof.
  split_and!; [| |done].
  - intros id'. rewrite runtime_entry_put. case_decide as E; [subst; by exists n|].
    exists (pr_next_probe_id (runtime_entry b id')). by destruct (runtime_entry b id').
  - intros id' Hid. unfold put_runtime, set_by_provider. cbn [by_provider]. rewrite lookup_insert. case_decide; [by eexists|done].
Qed.

(** Beginning an attempt and giving it back leaves no trace. *)
Lemma health_begin_neutral b id now drop_ms :
  let '(g, b') := RuntimeHealth.try_begin_attempt b id now in
  match g with
  | Some g => health_untouched b (RuntimeHealth.finish_guard b' g Neutral drop_ms)
  | None => health_untouched b b'
  end.
Proof.
  assert (health_untouched b (put_health id (health_entry b id) b)) as Hsame.
  { pose proof (put_health_untouched b id (rh_next_probe_id (health_entry b id)) (rh_updated_at_ms (health_entry b id))) as H.
    by destruct (health_entry b id). }
  unfold RuntimeHealth.try_begin_attempt. destruct (state_kind (health_entry b id) now).
  - (* closed *) cbn [RuntimeHealth.finish_guard hg_id hg_token]. unfold RuntimeHealth.finish_neutral, put_health at 1, set_by_id at 1.
    cbn [by_id]. rewrite lookup_insert_eq. unfold RuntimeHealth.attempt_token_matches. cbn [tok_generation tok_probe_id is_none_or].
    rewrite Z.eqb_refl. cbn [andb RuntimeHealth.release_probe_owner tok_probe_id is_some_and].
    etransitivity; [exact Hsame|]. set (b1 := put_health id (health_entry b id) b).
    assert (health_entry b id = health_entry b1 id) as -> by (unfold b1; by rewrite health_entry_put decide_True).
    pose proof (put_health_untouched b1 id (rh_next_probe_id (health_entry b1 id)) (rh_updated_at_ms (health_entry b1 id))) as H.
    by destruct (health_entry b1 id).
  - exact Hsame.
  - destruct (rh_probe_owner (health_entry b id)) as [o|] eqn:Eo; cbn [is_some]; [exact Hsame|].
    set (p := wrapping_next _). set (s1 := set_rh_updated_at_ms (Some now) _).
    cbn [RuntimeHealth.finish_guard hg_id hg_token]. unfold RuntimeHealth.finish_neutral. unfold put_health at 1, set_by_id at 1.
    cbn [by_id]. rewrite lookup_insert_eq. unfold RuntimeHealth.attempt_token_matches. cbn [tok_generation tok_probe_id is_none_or].
    assert (opt_eqb (rh_probe_owner s1) (Some p) = true) as Ho by (unfold s1; cbn; apply Z.eqb_refl).
    rewrite Z.eqb_refl Ho. cbn [andb]. unfold RuntimeHealth.release_probe_owner. cbn [tok_probe_id is_some_and]. rewrite Ho.
    set (s2 := set_rh_updated_at_ms (Some drop_ms) (set_rh_probe_owner None s1)).
    assert (put_health id s2 (put_health id s1 b) = put_health id s2 b) as ->.
    { unfold put_health, set_by_id. cbn [failure_threshold open_duration_ms ewma_alpha by_id]. by rewrite insert_insert_eq. }
    assert (s2 = (health_entry b id |> set_rh_next_probe_id p |> set_rh_updated_at_ms (Some drop_ms))) as ->.
    { unfold s2, s1. destruct (health_entry b id). cbn in *. by subst. }
    apply put_health_untouched.
Qed.

Lemma put_runtime_put id s s' b : put_runtime id s' (put_runtime id s b) = put_runtime id s' b.
Proof. unfold put_runtime, set_by_provider. cbn. by rewrite insert_insert_eq. Qed.

Lemma put_runtime_same b id : runtime_untouched b (put_runtime id (runtime_entry b id) b).
Proof.
  pose proof (put_runtime_untouched b id (pr_next_probe_id (runtime_entry b id))) as H. by destruct (runtime_entry b id).
Qed.

Lemma provider_begin_neutral b p now drop_ms :
  let '(g, b') := ProviderRuntime.try_begin_attempt b p now in
  match g with
  | Some g => runtime_untouched b (ProviderRuntime.finish_guard b' g GuardNeutral drop_ms).2
  | None => runtime_untouched b b'
  end.
Proof.
  unfold ProviderRuntime.try_begin_attempt. destruct (circuit_state p (runtime_entry b (up_id p)) now).
  - cbn [ProviderRuntime.finish_guard snd pg_provider pg_token]. unfold ProviderRuntime.finish_neutral.
    unfold put_runtime at 1, set_by_provider at 1. cbn [by_provider]. rewrite lookup_insert_eq.
    unfold ProviderRuntime.attempt_token_matches. cbn [tok_generation tok_probe_id is_none_or].
    rewrite Z.eqb_refl. cbn [andb]. unfold ProviderRuntime.release_probe_owner. cbn [tok_probe_id is_some_and].
    rewrite put_runtime_put. apply put_runtime_same.
  - apply put_runtime_same.
  - destruct (pr_probe_owner (runtime_entry b (up_id p))) as [o|] eqn:Eo; cbn [is_some]; [apply put_runtime_same|].
    set (n := wrapping_next _). set (s1 := set_pr_probe_owner (Some n) _).
    cbn [ProviderRuntime.finish_guard snd pg_provider pg_token]. unfold ProviderRuntime.finish_neutral.
    unfold put_runtime at 1, set_by_provider at 1. cbn [by_provider]. rewrite lookup_insert_eq.
    unfold ProviderRuntime.attempt_token_matches. cbn [tok_generation tok_probe_id is_none_or].
    assert (opt_eqb (pr_probe_owner s1) (Some n) = true) as Ho by (unfold s1; cbn; apply Z.eqb_refl).
    rewrite Z.eqb_refl Ho. cbn [andb]. unfold ProviderRuntime.release_probe_owner. cbn [tok_probe_id is_some_and].
    rewrite Ho put_runtime_put.
    assert (set_pr_probe_owner None s1 = set_pr_next_probe_id n (runtime_entry b (up_id p))) as ->.
    { unfold s1. destruct (runtime_entry b (up_id p)). cbn in *. by subst. }
    apply put_runtime_untouched.
Qed.

(** Acquiring a permit and dropping it, around operations that leave no trace. *)
Lemma acquire_release b p c b1 b2 :
  0 <= pr_in_flight (runtime_entry b (up_id p)) < u32_max →
  try_acquire_capacity b p = (Some c, b1) → runtime_untouched b1 b2 →
  runtime_untouched b (drop_permit b2 c).
Proof.
  intros Hn Ha (H1 & K1 & L1). unfold try_acquire_capacity in Ha.
  destruct (is_some_and _ _); [done|]. injection Ha as <- <-. unfold drop_permit. cbn [cp_provider_id].
  set (e := runtime_entry b (up_id p)) in *. set (b1 := put_runtime (up_id p) _ b) in *.
  assert (is_Some (by_provider b1 !! up_id p)) as Hp.
  { unfold b1, put_runtime, set_by_provider. cbn. rewrite lookup_insert_eq. by eexists. }
  unfold release_capacity. rewrite (runtime_entry_present _ _ (K1 _ Hp)).
  destruct (H1 (up_id p)) as (n & En). rewrite En. unfold b1 at 1. rewrite runtime_entry_put decide_True //.
  split_and!.
  - intros id. rewrite runtime_entry_put. case_decide as E; [subst id; exists n; fold e|].
    + cbn. assert (u32_sat_sub (u32_sat_add (pr_in_flight e) 1) 1 = pr_in_flight e) as Hback.
      { unfold u32_sat_sub, u32_sat_add. lia. }
      rewrite Hback. by destruct e.
    + destruct (H1 id) as (m & ->). exists m. unfold b1. by rewrite runtime_entry_put decide_False.
  - intros id Hid. unfold put_runtime, set_by_provider. cbn. rewrite lookup_insert. case_decide; [by eexists|].
    apply K1. unfold b1, put_runtime, set_by_provider. cbn. rewrite lookup_insert. by case_decide; [eexists|].
  - cbn. exact L1.
Qed.

Lemma acquire_refused b p b1 : try_acquire_capacity b p = (None, b1) → runtime_untouched b b1.
Proof.
  unfold try_acquire_capacity. destruct (is_some_and _ _); [|done]. intros [= <-]. apply put_runtime_same.
Qed.

(** The quota book after a refusal or a grant. *)
Lemma reserve_refused_sim q k now q' : reserve_request q k now = (false, q') → quota_sim now q q'.
Proof.
  unfold reserve_request. destruct (negb (state_available _ _)) eqn:Ea; [|done]. intros [= <-] k' u Hu.
  unfold is_available, put_quota. cbn [Quota.by_key]. rewrite lookup_insert. unfold quota_entry in *.
  case_decide as E; [subst k'|by destruct (by_key q !! k')].
  destruct (by_key q !! k) as [st|]; cbn [unwrap_or] in *; [|done].
  cbn [fst]. by rewrite !state_available_expire; [|lia..].
Qed.

(** ** A refusal leaves no trace *)
Record no_trace (now : Z) (s s' : SharedState) : Prop := {
  nt_runtime : runtime_untouched (ss_provider_runtime s) (ss_provider_runtime s');
  nt_endpoints : health_untouched (ss_endpoint_health s) (ss_endpoint_health s');
  nt_keys : health_untouched (ss_upstream_key_health s) (ss_upstream_key_health s');
  nt_quota : quota_sim now (ss_quota s) (ss_quota s');
  nt_rotation : ss_key_rotation s' = ss_key_rotation s;
  nt_affinity : ss_affinity s' = ss_affinity s
}.

#[export] Instance no_trace_preorder now : PreOrder (no_trace now).
Proof.
  split; [intros s; by split|]. intros s1 s2 s3 [H1 H2 H3 H4 H5 H6] [K1 K2 K3 K4 K5 K6].
  split; [by etransitivity|by etransitivity|by etransitivity|by etransitivity|congruence|congruence].
Qed.

Section ReserveFacts.
Context {D : Type}.
Implicit Types a : ResolvedUpstream D.

(** What a taken capacity is worth when it is given back. *)
Lemma take_capacity_spec s p acquire :
  0 <= pr_in_flight (runtime_entry (ss_provider_runtime s) (up_id p)) < u32_max →
  let '(c, s1) := take_capacity s p acquire in
  s1 = set_ss_provider_runtime (ss_provider_runtime s1) s
  ∧ match c with
    | inl c => ∀ b, runtime_untouched (ss_provider_runtime s1) b →
        runtime_untouched (ss_provider_runtime s)
          (ss_provider_runtime (drop_capacity c (set_ss_provider_runtime b s)))
    | inr _ => runtime_untouched (ss_provider_runtime s) (ss_provider_runtime s1)
    end.
Proof.
  intros Hn. unfold take_capacity. destruct acquire.
  - destruct (try_acquire_capacity (ss_provider_runtime s) p) as [[c|] b1] eqn:Ea; (split; [done|]).
    + intros b Hb. cbn. by eapply acquire_release.
    + cbn. by eapply acquire_refused.
  - split; [by destruct s|]. intros b Hb. done.
Qed.

Lemma drop_capacity_runtime c s :
  drop_capacity c s = set_ss_provider_runtime (ss_provider_runtime (drop_capacity c s)) s
  ∧ ∀ s', ss_provider_runtime s' = ss_provider_runtime s →
      ss_provider_runtime (drop_capacity c s') = ss_provider_runtime (drop_capacity c s).
Proof. destruct c as [c|]; (split; [by destruct s|]); intros s' E; cbn; by rewrite E. Qed.

(** A refused reservation leaves no trace: the concurrency permit, the probes of
    the breakers and the request of the quota taken before the refusal are given
    back, so that every breaker, count, deadline and remaining quota is as before;
    only probe counters and update times may differ. *)
Theorem refused_reservation_leaves_no_trace s a now drop_ms acquire quota e s' :
  0 <= pr_in_flight (runtime_entry (ss_provider_runtime s) (up_id (ru_provider a))) < u32_max →
  reserve_attempt_inner s a now drop_ms acquire quota = (inr e, s') → no_trace now s s'.
Proof.
  intros Hn. unfold reserve_attempt_inner.
  pose proof (take_capacity_spec s (ru_provider a) acquire Hn) as Hc.
  destruct (take_capacity s (ru_provider a) acquire) as [[c|e0] s1]; destruct Hc as [Hs1 Hc].
  2: { intros [= <- <-]. rewrite Hs1. by split. }
  pose proof (provider_begin_neutral (ss_provider_runtime s1) (ru_provider a) now drop_ms) as Hp.
  destruct (ProviderRuntime.try_begin_attempt _ _ now) as [[gp|] b1].
  2: { intros [= <- <-]. rewrite Hs1. specialize (Hc _ Hp). by destruct c; split. }
  specialize (Hc _ Hp). rewrite Hs1. cbn [ss_upstream_key_health set_ss_provider_runtime].
  pose proof (health_begin_neutral (ss_upstream_key_health s) (uk_id (ru_key a)) now drop_ms) as Hk.
  destruct (RuntimeHealth.try_begin_attempt (ss_upstream_key_health s) _ now) as [[gk|] b2].
  2: { intros [= <- <-]. destruct c; split; done. }
  cbn [ss_endpoint_health set_ss_upstream_key_health set_ss_provider_runtime].
  pose proof (health_begin_neutral (ss_endpoint_health s) (ue_id (ru_endpoint a)) now drop_ms) as He.
  destruct (RuntimeHealth.try_begin_attempt (ss_endpoint_health s) _ now) as [[ge|] b3].
  2: { intros [= <- <-]. destruct c; split; done. }
  cbn [ss_quota set_ss_endpoint_health set_ss_upstream_key_health set_ss_provider_runtime].
  destruct quota; [|done].
  destruct (reserve_request (ss_quota s) (uk_id (ru_key a)) now) as [[|] q] eqn:Eq; [done|].
  apply reserve_refused_sim in Eq. intros [= <- <-]. destruct c; split; done.
Qed.

(** ** A reservation succeeds exactly when the target is available *)
Definition limit_positive (p : UpstreamProvider) : Prop :=
  ∀ limit, up_max_concurrency p = Some limit → 1 <= limit <= i32_max.

Lemma snapshot_runtime_entry b p now :
  limit_positive p →
  pv_available (ProviderRuntime.snapshot b p now) =
    up_enabled p && is_none_or (up_max_concurrency p) (λ limit, pr_in_flight (runtime_entry b (up_id p)) <? limit_u32 limit)
    && match circuit_state p (runtime_entry b (up_id p)) now with
       | Closed => true | Open => false | HalfOpen => is_none (pr_probe_owner (runtime_entry b (up_id p)))
       end.
Proof.
  intros Hl. unfold ProviderRuntime.snapshot, runtime_entry. destruct (by_provider b !! up_id p) as [st|]; [done|].
  cbn [unwrap_or pv_available]. unfold circuit_state. cbn [pr_open_until_ms default_runtime pr_in_flight].
  assert (is_none_or (up_max_concurrency p) (λ limit, 0 <? limit_u32 limit) = true) as ->.
  { destruct (up_max_concurrency p) as [l|] eqn:E; [|done]. cbn. specialize (Hl l E). unfold limit_u32.
    rewrite as_u32_id; [apply Z.ltb_lt; lia|mlia]. }
  destruct (negb (up_circuit_breaker_enabled p)); by rewrite !andb_true_r.
Qed.

Lemma begin_health_iff b id now :
  is_some (RuntimeHealth.try_begin_attempt b id now).1 = hv_available (RuntimeHealth.snapshot b id now).
Proof.
  destruct (snapshot_entry b id now) as [_ ->]. unfold RuntimeHealth.try_begin_attempt.
  destruct (state_kind _ _); [done|done|]. unfold is_none. by destruct (rh_probe_owner _).
Qed.

(** The permit and the breaker's attempt are granted exactly when the view says so. *)
Lemma provider_grant_iff s p now :
  limit_positive p → up_enabled p = true →
  pv_available (ProviderRuntime.snapshot (ss_provider_runtime s) p now) =
    match take_capacity s p true with
    | (inl _, s1) => is_some (ProviderRuntime.try_begin_attempt (ss_provider_runtime s1) p now).1
    | (inr _, _) => false
    end.
Proof.
  intros Hl Hen. rewrite snapshot_runtime_entry // Hen. unfold take_capacity, try_acquire_capacity. cbn [andb].
  set (e := runtime_entry _ _).
  assert (is_none_or (up_max_concurrency p) (λ limit, pr_in_flight e <? limit_u32 limit)
          = negb (is_some_and (up_max_concurrency p) (λ limit, limit_u32 limit <=? pr_in_flight e))) as ->.
  { destruct (up_max_concurrency p); [|done]. cbn. by rewrite Z.leb_antisym negb_involutive. }
  destruct (is_some_and _ _); [done|]. cbn [negb andb set_ss_provider_runtime ss_provider_runtime].
  unfold ProviderRuntime.try_begin_attempt. rewrite runtime_entry_put decide_True //.
  change (circuit_state p (set_pr_in_flight _ e) now) with (circuit_state p e now).
  destruct (circuit_state p e now); [done|done|]. cbn [set_pr_in_flight pr_probe_owner]. unfold is_none.
  by destruct (pr_probe_owner e).
Qed.

Lemma take_capacity_runtime_only s p acquire :
  (take_capacity s p acquire).2 = set_ss_provider_runtime (ss_provider_runtime (take_capacity s p acquire).2) s.
Proof. unfold take_capacity. destruct acquire; [|by destruct s]. by destruct (try_acquire_capacity _ _). Qed.

Lemma reserve_granted_iff s a now drop_ms :
  limit_positive (ru_provider a) → up_enabled (ru_provider a) = true →
  is_ok (reserve_attempt s a now drop_ms).1 =
    pv_available (ProviderRuntime.snapshot (ss_provider_runtime s) (ru_provider a) now)
    && hv_available (RuntimeHealth.snapshot (ss_upstream_key_health s) (uk_id (ru_key a)) now)
    && hv_available (RuntimeHealth.snapshot (ss_endpoint_health s) (ue_id (ru_endpoint a)) now)
    && (is_available (ss_quota s) (uk_id (ru_key a)) now).1.
Proof.
  intros Hl Hen. rewrite (provider_grant_iff s _ now Hl Hen). rewrite -!begin_health_iff.
  unfold reserve_attempt, reserve_attempt_inner.
  pose proof (take_capacity_runtime_only s (ru_provider a) true) as Hs1.
  destruct (take_capacity s (ru_provider a) true) as [[c|e0] s1]; cbn [snd] in Hs1; [|done].
  destruct (ProviderRuntime.try_begin_attempt (ss_provider_runtime s1) _ now) as [[gp|] b1]; [|done].
  rewrite Hs1. cbn [fst is_some andb ss_upstream_key_health set_ss_provider_runtime].
  destruct (RuntimeHealth.try_begin_attempt (ss_upstream_key_health s) _ now) as [[gk|] b2]; [|done].
  cbn [fst is_some andb ss_endpoint_health set_ss_upstream_key_health set_ss_provider_runtime].
  destruct (RuntimeHealth.try_begin_attempt (ss_endpoint_health s) _ now) as [[ge|] b3]; [|done].
  cbn [fst is_some andb ss_quota set_ss_endpoint_health set_ss_upstream_key_health set_ss_provider_runtime].
  unfold reserve_request, is_available, quota_entry.
  destruct (by_key (ss_quota s) !! uk_id (ru_key a)) as [st|]; cbn [unwrap_or fst].
  - destruct (state_available _ _); done.
  - assert (state_available (expire_quota_state default_quota now) now = true) as -> by done. done.
Qed.

(** What the eligibility tests read and what a reservation takes agree: for an
    enabled provider, a reservation is granted exactly when at that instant the
    provider's circuit and capacity, the key's and the endpoint's circuits and the
    key's quota are all reported available. *)
Theorem reserve_iff_available s a now drop_ms :
  limit_positive (ru_provider a) → up_enabled (ru_provider a) = true →
  (∃ r s', reserve_attempt s a now drop_ms = (inl r, s')) ↔
    pv_available (ProviderRuntime.snapshot (ss_provider_runtime s) (ru_provider a) now) = true
    ∧ hv_available (RuntimeHealth.snapshot (ss_upstream_key_health s) (uk_id (ru_key a)) now) = true
    ∧ hv_available (RuntimeHealth.snapshot (ss_endpoint_health s) (ue_id (ru_endpoint a)) now) = true
    ∧ (is_available (ss_quota s) (uk_id (ru_key a)) now).1 = true.
Proof.
  intros Hl Hen. rewrite !and_assoc. rewrite -!andb_true_iff. rewrite -(reserve_granted_iff s a now drop_ms Hl Hen).
  destruct (reserve_attempt s a now drop_ms) as [[r|e] s']; cbn; split; try done; [by eexists _, _|by intros (? & ? & ?)].
Qed.

Context {R : Type} `{FastRandOk R}.

(** A fresh plan can be acted on: when the readings of the clock are one and the
    same instant, every attempt of the plan could be reserved at that instant. *)
Theorem planned_attempts_reservable s snap strategy f requested api_key affinity allow now drop_ms (r : R) pl s' r' a :
  let clock := MkClock now (λ _, now) (λ _, now) in
  build_upstream_plan s (inl snap) strategy f requested api_key affinity allow clock r = (inl pl, s', r') →
  a ∈ pl_attempts pl → limit_positive (ru_provider a) →
  ∃ reservation s2, reserve_attempt s a now drop_ms = (inl reservation, s2).
Proof.
  intros clock Hplan Ha Hl.
  pose proof (planned_ok s snap strategy f requested api_key affinity allow clock now r pl s' r'
    ltac:(intros p; reflexivity) ltac:(intros k; reflexivity) Hplan) as (_ & _ & _ & _ & Hok & _).
  rewrite Forall_forall in Hok. destruct (Hok a Ha) as (route & [_ Hp Hm _ _ Hen _ Hrt Hk He _]).
  cbn [px_clock pc_now clock] in *.
  destruct (reserve_attempt s a now drop_ms) as [[reservation|e] s2] eqn:E; [by eexists _, _|]. exfalso.
  assert (is_ok (reserve_attempt s a now drop_ms).1 = false) as Hf by by rewrite E.
  rewrite reserve_granted_iff // in Hf; [|by rewrite Hp]. rewrite Hp Hrt in Hf.
  rewrite (kr_health _ _ _ _ _ Hk) (er_health _ _ _ _ He) (kr_quota _ _ _ _ _ Hk) in Hf. done.
Qed.
End ReserveFacts.

(** ** What a granted reservation holds *)
Section Granted.
Context {D : Type}.
Implicit Types a : ResolvedUpstream D.

Lemma health_begin_current b id now g b' :
  RuntimeHealth.try_begin_attempt b id now = (Some g, b') → hg_id g = id ∧ RuntimeHealth.is_current b' g = true.
Proof.
  intros E. pose proof (RuntimeHealth.try_begin_attempt_effect b id now) as He. rewrite E in He. destruct He as [Hid He].
  split; [done|]. assert (is_Some (by_id b' !! id)) as Hp.
  { unfold RuntimeHealth.try_begin_attempt in E. destruct (state_kind _ _); [|done|destruct (is_some _); [done|]];
      injection E as _ <-; unfold put_health, set_by_id; cbn; rewrite lookup_insert_eq; by eexists. }
  unfold RuntimeHealth.is_current. rewrite Hid (health_entry_present _ _ Hp). cbn [is_some_and].
  rewrite RuntimeHealth.attempt_token_matches_view. destruct He as [(-> & ->)|(_ & -> & ->)].
  - unfold view_matches. cbn. by rewrite Z.eqb_refl.
  - unfold view_matches, v_issue. cbn. by rewrite !Z.eqb_refl.
Qed.

Lemma provider_begin_current b p now g b' :
  ProviderRuntime.try_begin_attempt b p now = (Some g, b') →
  pg_provider g = p ∧ ProviderRuntime.is_current b' g = true
  ∧ pr_in_flight (runtime_entry b' (up_id p)) = pr_in_flight (runtime_entry b (up_id p)).
Proof.
  intros E. pose proof (provider_try_begin_attempt_effect b p now) as He. rewrite E in He. destruct He as [Hid He].
  split; [done|]. assert (is_Some (by_provider b' !! up_id p)) as Hp.
  { unfold ProviderRuntime.try_begin_attempt in E. destruct (circuit_state _ _ _); [|done|destruct (is_some _); [done|]];
      injection E as _ <-; unfold put_runtime, set_by_provider; cbn; rewrite lookup_insert_eq; by eexists. }
  split.
  - unfold ProviderRuntime.is_current. rewrite Hid (runtime_entry_present _ _ Hp). cbn [is_some_and].
    rewrite ProviderRuntime.matches_view. destruct He as [(-> & ->)|(_ & -> & ->)].
    + unfold view_matches. cbn. by rewrite Z.eqb_refl.
    + unfold view_matches, v_issue. cbn. by rewrite !Z.eqb_refl.
  - pose proof (try_begin_attempt_entry b p now (up_id p)) as Ht. rewrite E in Ht. cbn [snd] in Ht.
    by destruct Ht as [->|[_ ->]].
Qed.

(** The parts of a reservation of [a]. *)
Record holds a (r : UpstreamAttemptReservation) (c : ProviderCapacityPermit) (gp : ProviderAttemptGuard)
    (ge gk : RuntimeHealthAttemptGuard) : Prop := {
  ho_reservation : r = MkReservation (Some (up_id (ru_provider a), ue_id (ru_endpoint a), uk_id (ru_key a)))
                         (Some c) (Some gp) (Some ge) (Some gk);
  ho_permit : cp_provider_id c = up_id (ru_provider a);
  ho_provider : pg_provider gp = ru_provider a;
  ho_endpoint : hg_id ge = ue_id (ru_endpoint a);
  ho_key : hg_id gk = uk_id (ru_key a)
}.

(** C34. A granted reservation holds what it took, and only that: all three attempts
    are current, the provider's count of running requests is one higher, one
    request of the key's quota is gone; settled as neutral before anything is sent,
    it gives back all but the quota. *)
Theorem granted_reservation_holds s a now drop_ms r s' t :
  0 <= pr_in_flight (runtime_entry (ss_provider_runtime s) (up_id (ru_provider a))) < u32_max →
  reserve_attempt s a now drop_ms = (inl r, s') →
  (∃ c gp ge gk, holds a r c gp ge gk)
  ∧ reservation_current s' r = true
  ∧ pr_in_flight (runtime_entry (ss_provider_runtime s') (up_id (ru_provider a)))
    = pr_in_flight (runtime_entry (ss_provider_runtime s) (up_id (ru_provider a))) + 1
  ∧ reserve_request (ss_quota s) (uk_id (ru_key a)) now = (true, ss_quota s')
  ∧ runtime_untouched (ss_provider_runtime s) (ss_provider_runtime (neutral s' r t))
  ∧ health_untouched (ss_endpoint_health s) (ss_endpoint_health (neutral s' r t))
  ∧ health_untouched (ss_upstream_key_health s) (ss_upstream_key_health (neutral s' r t)).
Proof.
  intros Hn. unfold reserve_attempt, reserve_attempt_inner.
  pose proof (take_capacity_spec s (ru_provider a) true Hn) as Hc.
  assert (match take_capacity s (ru_provider a) true with
    | (inl (Some c), s1) => cp_provider_id c = up_id (ru_provider a)
        ∧ pr_in_flight (runtime_entry (ss_provider_runtime s1) (up_id (ru_provider a)))
          = pr_in_flight (runtime_entry (ss_provider_runtime s) (up_id (ru_provider a))) + 1
    | (inl None, _) => False | (inr _, _) => True end) as Hcap.
  { unfold take_capacity, try_acquire_capacity. destruct (is_some_and _ _); [done|]. split; [done|].
    cbn [set_ss_provider_runtime ss_provider_runtime]. rewrite runtime_entry_put decide_True //. cbn. unfold u32_sat_add. lia. }
  destruct (take_capacity s (ru_provider a) true) as [[[c|]|e0] s1]; [|done|done].
  destruct Hc as [Hs1 Hc]. destruct Hcap as [Hcid Hcap].
  pose proof (provider_begin_neutral (ss_provider_runtime s1) (ru_provider a) now t) as Hp.
  destruct (ProviderRuntime.try_begin_attempt (ss_provider_runtime s1) _ now) as [[gp|] b1] eqn:Ep; [|done].
  apply provider_begin_current in Ep as (Hgp & Hgpc & Hfl). specialize (Hc _ Hp). rewrite Hs1.
  cbn [ss_upstream_key_health set_ss_provider_runtime].
  pose proof (health_begin_neutral (ss_upstream_key_health s) (uk_id (ru_key a)) now t) as Hk.
  destruct (RuntimeHealth.try_begin_attempt (ss_upstream_key_health s) _ now) as [[gk|] b2] eqn:Ek; [|done].
  apply health_begin_current in Ek as (Hgk & Hgkc).
  cbn [ss_endpoint_health set_ss_upstream_key_health set_ss_provider_runtime].
  pose proof (health_begin_neutral (ss_endpoint_health s) (ue_id (ru_endpoint a)) now t) as He.
  destruct (RuntimeHealth.try_begin_attempt (ss_endpoint_health s) _ now) as [[ge|] b3] eqn:Ee; [|done].
  apply health_begin_current in Ee as (Hge & Hgec).
  cbn [ss_quota set_ss_endpoint_health set_ss_upstream_key_health set_ss_provider_runtime].
  destruct (reserve_request (ss_quota s) (uk_id (ru_key a)) now) as [[|] q] eqn:Eq; [|done].
  intros [= <- <-]. split_and!.
  - by exists c, gp, ge, gk.
  - unfold reservation_current. cbn. by rewrite Hgpc Hgec Hgkc.
  - cbn. by rewrite Hfl Hcap.
  - done.
  - exact Hc.
  - exact He.
  - exact Hk.
Qed.
End Granted.

(** ** Blame *)
Section Blame.
Context {D : Type}.
Implicit Types a : ResolvedUpstream D.

Lemma health_success_closes b g st lat now t :
  RuntimeHealth.is_current b g = true →
  hv_state (RuntimeHealth.snapshot (RuntimeHealth.finish_guard b g (RuntimeHealth.Success st lat) now) (hg_id g) t) = Closed.
Proof.
  intros Hc%RuntimeHealth.is_current_entry.
  destruct (RuntimeHealth.finish_success_entry b (hg_id g) (hg_token g) st lat now Hc) as (Ho & _).
  destruct (snapshot_entry (RuntimeHealth.finish_guard b g (RuntimeHealth.Success st lat) now) (hg_id g) t) as [-> _].
  unfold state_kind. cbn [RuntimeHealth.finish_guard]. by rewrite Ho.
Qed.

Lemma health_failure_opens b g st et em now :
  RuntimeHealth.book_wf b → is_i64 now → now < i64_max → RuntimeHealth.is_current b g = true →
  hv_state (RuntimeHealth.snapshot (RuntimeHealth.finish_guard b g (RuntimeHealth.Failure st et em) now) (hg_id g) now) = Open.
Proof.
  intros Hb Hnow Hlt Hc%RuntimeHealth.is_current_entry.
  destruct (RuntimeHealth.finish_failure_entry b (hg_id g) (hg_token g) st et em now Hc) as (Ho & _).
  destruct (snapshot_entry (RuntimeHealth.finish_guard b g (RuntimeHealth.Failure st et em) now) (hg_id g) now) as [-> _].
  unfold state_kind. cbn [RuntimeHealth.finish_guard]. rewrite Ho.
  assert (COOLDOWN_BASE_MS <= cooldown_ms (if (failure_threshold b <=? u32_sat_add (rh_consecutive_failures (health_entry b (hg_id g))) 1)
      || bool_decide (state_kind (health_entry b (hg_id g)) now = HalfOpen) then open_duration_ms b else 0)
      (u32_sat_add (rh_consecutive_failures (health_entry b (hg_id g))) 1)) as Hcd.
  { apply cooldown_ms_pos; [|destruct (RuntimeHealth.health_entry_wf b (hg_id g) Hb); mlia]. destruct Hb. destruct (_ || _); mlia. }
  rewrite (proj2 (Z.ltb_lt _ _)); [done|]. unfold i64_sat_add, sat_i64, COOLDOWN_BASE_MS in *.
  set (c := cooldown_ms _ _) in *. clearbody c. mlia.
Qed.

Lemma health_neutral_state b g now id t :
  hv_state (RuntimeHealth.snapshot (RuntimeHealth.finish_guard b g Neutral now) id t) = hv_state (RuntimeHealth.snapshot b id t).
Proof.
  destruct (snapshot_entry (RuntimeHealth.finish_guard b g Neutral now) id t) as [-> _], (snapshot_entry b id t) as [-> _].
  destruct (decide (hg_id g = id)) as [<-|Hne]; [|by rewrite RuntimeHealth.finish_guard_other].
  cbn [RuntimeHealth.finish_guard]. unfold RuntimeHealth.finish_neutral.
  destruct (by_id b !! hg_id g) as [st|] eqn:E; [|done]. destruct (RuntimeHealth.attempt_token_matches st (hg_token g)); [|done].
  pose proof (RuntimeHealth.release_probe_owner_cases st (hg_token g)) as Hr.
  destruct (RuntimeHealth.release_probe_owner st (hg_token g)) as [released st']. cbn [snd] in Hr.
  rewrite health_entry_put decide_True // (RuntimeHealth.health_entry_Some _ _ _ E).
  by destruct Hr as [-> | ->]; destruct released.
Qed.

Lemma health_other_snapshot b g o now id t :
  hg_id g ≠ id → hv_state (RuntimeHealth.snapshot (RuntimeHealth.finish_guard b g o now) id t) = hv_state (RuntimeHealth.snapshot b id t).
Proof.
  intros Hne. destruct (snapshot_entry (RuntimeHealth.finish_guard b g o now) id t) as [-> _], (snapshot_entry b id t) as [-> _].
  by rewrite RuntimeHealth.finish_guard_other.
Qed.

(** The failures a provider's breaker counts. *)
Definition provider_failures (s : SharedState) (id : Z) : Z :=
  pr_consecutive_failures (runtime_entry (ss_provider_runtime s) id).

Lemma release_failures st t : pr_consecutive_failures (ProviderRuntime.release_probe_owner st t) = pr_consecutive_failures st.
Proof. by destruct (provider_release_probe_owner_cases st t) as [-> | ->]. Qed.

Lemma provider_neutral_failures b g now id :
  pr_consecutive_failures (runtime_entry (ProviderRuntime.finish_guard b g GuardNeutral now).2 id)
  = pr_consecutive_failures (runtime_entry b id).
Proof.
  destruct (decide (up_id (pg_provider g) = id)) as [<-|Hne]; [|by rewrite provider_finish_guard_other].
  cbn [ProviderRuntime.finish_guard snd]. unfold ProviderRuntime.finish_neutral.
  destruct (by_provider b !! up_id (pg_provider g)) as [st|] eqn:E; [|done].
  destruct (ProviderRuntime.attempt_token_matches _ _); [|done].
  by rewrite runtime_entry_put decide_True // release_failures (runtime_entry_Some _ _ _ E).
Qed.

Lemma provider_success_failures b g st lat now id :
  0 <= pr_consecutive_failures (runtime_entry b id) →
  pr_consecutive_failures (runtime_entry (ProviderRuntime.finish_guard b g (GuardSuccess st lat) now).2 id)
  <= pr_consecutive_failures (runtime_entry b id).
Proof.
  intros Hn. destruct (decide (up_id (pg_provider g) = id)) as [<-|Hne]; [|by rewrite provider_finish_guard_other].
  cbn [ProviderRuntime.finish_guard snd]. unfold ProviderRuntime.finish_success. cbv zeta.
  assert (∀ al l e, pr_consecutive_failures (count_success al l e) = pr_consecutive_failures e) as Hc.
  { intros al l e. unfold count_success. by destruct (opt_filter _ _). }
  set (e := runtime_entry b _) in *. destruct (negb _); rewrite runtime_entry_put decide_True //; [by rewrite Hc|].
  unfold settle_success. set (e1 := ProviderRuntime.release_probe_owner _ _).
  assert (pr_consecutive_failures e1 = pr_consecutive_failures e) as He by (unfold e1; rewrite release_failures; cbn; by rewrite Hc).
  destruct (negb _); [done|]. destruct (circuit_state _ _ _); [done|done|]. cbv zeta. destruct (_ <=? _); [done|]. cbn. lia.
Qed.

Lemma provider_failure_failures b g st et em now :
  ProviderRuntime.is_current b g = true →
  let id := up_id (pg_provider g) in
  Z.min u32_max (pr_consecutive_failures (runtime_entry b id) + 1)
  <= pr_consecutive_failures (runtime_entry (ProviderRuntime.finish_guard b g (GuardFailure st et em) now).2 id).
Proof.
  intros Hc id. unfold ProviderRuntime.is_current in Hc. apply is_some_and_true in Hc as (e & He & Hm).
  cbn [ProviderRuntime.finish_guard snd]. unfold ProviderRuntime.finish_failure. cbv zeta.
  fold id. fold id in He. rewrite (runtime_entry_Some _ _ _ He).
  change (ProviderRuntime.attempt_token_matches (set_pr_failure_count _ e) (pg_token g)) with
    (ProviderRuntime.attempt_token_matches e (pg_token g)). rewrite Hm. cbn [negb].
  set (e1 := ProviderRuntime.release_probe_owner _ _).
  assert (pr_consecutive_failures e1 = pr_consecutive_failures e) as He1 by (unfold e1; by rewrite release_failures).
  unfold settle_failure. destruct (negb (up_circuit_breaker_enabled (pg_provider g))).
  - cbn [snd]. rewrite runtime_entry_put decide_True //. cbn. unfold u32_sat_add. rewrite He1. lia.
  - cbv zeta. set (k := circuit_state _ _ _).
    set (e2 := if decide (k = HalfOpen) then _ else _).
    assert (Z.min u32_max (pr_consecutive_failures e + 1) <= pr_consecutive_failures e2) as He2.
    { unfold e2. case_decide; cbn; unfold u32_sat_add; rewrite He1; lia. }
    destruct (_ <=? _); cbn [snd]; rewrite runtime_entry_put decide_True //.
Qed.

Lemma note_error_state r scope st tm s :
  ss_endpoint_health (note_error r scope st tm s) = ss_endpoint_health s
  ∧ ss_upstream_key_health (note_error r scope st tm s) = ss_upstream_key_health s
  ∧ by_provider (ss_provider_runtime (note_error r scope st tm s)) = by_provider (ss_provider_runtime s).
Proof. unfold note_error. destruct (rv_error_book r) as [[[p e] k]|]; [|done]. by case_bool_decide. Qed.

(** A failure is charged to what its scope names. A refusal of the key opens the
    key's circuit and clears the endpoint's; a failure of the transport or of the
    server opens the endpoint's and counts against the provider's breaker, leaving
    the key alone; a rate limit moves no circuit; an unknown model or a client's
    error counts as the endpoint and the key working. No other endpoint or key is
    touched, and the capacity stays held. *)
Theorem failure_blames_its_scope s a r c gp ge gk o scope tm now :
  holds a r c gp ge gk → reservation_current s r = true →
  RuntimeHealth.book_wf (ss_endpoint_health s) → RuntimeHealth.book_wf (ss_upstream_key_health s) →
  0 <= provider_failures s (up_id (ru_provider a)) → is_i64 now → now < i64_max →
  let s' := (finish_with_scope s r o scope tm now).2 in
  let endpoint s t := hv_state (RuntimeHealth.snapshot (ss_endpoint_health s) (ue_id (ru_endpoint a)) t) in
  let key s t := hv_state (RuntimeHealth.snapshot (ss_upstream_key_health s) (uk_id (ru_key a)) t) in
  let failures s := provider_failures s (up_id (ru_provider a)) in
  match scope with
  | ScopeProvider => endpoint s' now = Open ∧ (∀ t, key s' t = key s t)
      ∧ Z.min u32_max (failures s + 1) <= failures s'
  | ScopeKey => (∀ t, endpoint s' t = Closed) ∧ key s' now = Open ∧ failures s' = failures s
  | ScopeQuota => (∀ t, endpoint s' t = endpoint s t) ∧ (∀ t, key s' t = key s t) ∧ failures s' = failures s
  | ScopeModel | ScopeClient => (∀ t, endpoint s' t = Closed) ∧ (∀ t, key s' t = Closed) ∧ failures s' = failures s
  | ScopeSuccess => (∀ t, endpoint s' t = Closed) ∧ (∀ t, key s' t = Closed) ∧ failures s' <= failures s
  end
  ∧ (∀ id t, id ≠ ue_id (ru_endpoint a) → hv_state (RuntimeHealth.snapshot (ss_endpoint_health s') id t)
       = hv_state (RuntimeHealth.snapshot (ss_endpoint_health s) id t))
  ∧ (∀ id t, id ≠ uk_id (ru_key a) → hv_state (RuntimeHealth.snapshot (ss_upstream_key_health s') id t)
       = hv_state (RuntimeHealth.snapshot (ss_upstream_key_health s) id t))
  ∧ (∀ id, pr_in_flight (runtime_entry (ss_provider_runtime s') id) = pr_in_flight (runtime_entry (ss_provider_runtime s) id)).
Proof.
  intros [-> Hc Hp He Hk] Hcur Hwe Hwk Hf Hnow Hlt. unfold reservation_current in Hcur. cbn in Hcur.
  apply andb_true_iff in Hcur as [[Hcp Hce]%andb_true_iff Hck].
  set (r := MkReservation _ _ _ _ _). cbv zeta. unfold finish_with_scope.
  destruct (note_error_state r scope (oc_status o) tm s) as (N1 & N2 & N3).
  set (s0 := note_error r scope (oc_status o) tm s) in *.
  assert (∀ id, runtime_entry (ss_provider_runtime s0) id = runtime_entry (ss_provider_runtime s) id) as N4
    by (intros id; unfold runtime_entry; by rewrite N3).
  assert (ProviderRuntime.is_current (ss_provider_runtime s0) gp = true) as Hcp0
    by (unfold ProviderRuntime.is_current in *; by rewrite N3).
  clearbody s0. unfold provider_failures in *. cbn [rv_endpoint rv_key rv_provider r snd].
  split; [|split_and!].
  - rewrite -He -Hk -Hp. rewrite -Hp in Hf.
    destruct scope; cbn [settle_endpoint settle_key settle_provider set_ss_provider_runtime
      set_ss_upstream_key_health set_ss_endpoint_health ss_provider_runtime ss_endpoint_health ss_upstream_key_health];
      rewrite ?N1 ?N2 -?N4; split_and!.
    all: try (intros t; first [by apply health_success_closes|by apply health_neutral_state]).
    all: try by apply provider_neutral_failures.
    all: try by apply health_failure_opens.
    + apply provider_success_failures. by rewrite N4.
    + by apply provider_failure_failures.
  - intros id t Hid. destruct scope; cbn [settle_endpoint settle_key settle_provider set_ss_provider_runtime
      set_ss_upstream_key_health set_ss_endpoint_health ss_provider_runtime ss_endpoint_health ss_upstream_key_health]; rewrite N1; apply health_other_snapshot; congruence.
  - intros id t Hid. destruct scope; cbn [settle_endpoint settle_key settle_provider set_ss_provider_runtime
      set_ss_upstream_key_health set_ss_endpoint_health ss_provider_runtime ss_endpoint_health ss_upstream_key_health]; rewrite N2; apply health_other_snapshot; congruence.
  - intros id. destruct scope; cbn [settle_endpoint settle_key settle_provider set_ss_provider_runtime
      set_ss_upstream_key_health set_ss_endpoint_health ss_provider_runtime]; by rewrite finish_guard_in_flight N4.
Qed.

(** A response is retried exactly when its scope allows it: for every final
    status the loop's test and the scope of the failure agree. *)
Theorem retry_status_iff_retryable status :
  200 <= status →
  should_retry_response_status status = is_retryable (classify_failure_scope (Some status) UpstreamResponse).
Proof.
  intros Hs. unfold should_retry_response_status, classify_failure_scope. rewrite bool_decide_false //. cbn [existsb].
  repeat match goal with
  | |- context [status =? ?n] => destruct (Z.eqb_spec status n); [by subst|]
  end. cbn [orb].
  rewrite (proj2 (Z.leb_le 200 status)) //. cbn [andb].
  destruct (Z.leb_spec status 399); [by rewrite (proj2 (Z.leb_gt 500 status)); [|lia]|].
  destruct (Z.leb_spec 500 status); [done|].
  by rewrite (proj2 (Z.leb_le 400 status)) ?(proj2 (Z.leb_le status 499)); [|lia..].
Qed.
End Blame.

(** ** Concrete reservations *)
Definition wv_fresh : SharedState :=
  MkShared new_quota_book new_runtime_book (new_health_book 3 30000) (new_health_book 3 30000) new_rotation
    (new_affinity_book 1000000000 10).
(** The key 10 rests until 5000. *)
Definition wv_resting : SharedState := set_ss_quota (set_cooldown_until new_quota_book 10 5000 1000) wv_fresh.

Lemma wv_limit : limit_positive (ru_provider (wp_attempt 1)).
Proof. intros limit E. discriminate E. Qed.

Lemma refused_reservation_leaves_no_trace_witness :
  ∃ s', reserve_attempt_inner wv_resting (wp_attempt 1) 1000 1001 true true = (inr ReservationQuota, s')
    ∧ no_trace 1000 wv_resting s'.
Proof.
  destruct (reserve_attempt_inner wv_resting (wp_attempt 1) 1000 1001 true true) as [[r|e] s'] eqn:E.
  - vm_compute in E. discriminate E.
  - exists s'. assert (e = ReservationQuota) as -> by (vm_compute in E; by injection E as <- _).
    split; [reflexivity|].
    refine (refused_reservation_leaves_no_trace wv_resting (wp_attempt 1) 1000 1001 true true _ s' _ E).
    vm_compute. split; [discriminate|reflexivity].
Defined.

Lemma reserve_iff_available_witness :
  ∃ r s', reserve_attempt wv_fresh (wp_attempt 1) 1000 1001 = (inl r, s').
Proof.
  apply (reserve_iff_available wv_fresh (wp_attempt 1) 1000 1001 wv_limit eq_refl).
  split_and!; vm_compute; reflexivity.
Defined.

Lemma planned_attempts_reservable_witness :
  match wp_plan with
  | (inl pl, _, _) => ∀ a, head (pl_attempts pl) = Some a →
      ∃ r s2, reserve_attempt wp_state a 1000 1001 = (inl r, s2)
  | _ => False
  end.
Proof.
  destruct wp_plan as [[[pl|e] s'] r'] eqn:E; [|vm_compute in E; discriminate E].
  intros a Ha. refine (planned_attempts_reservable wp_state wp_snapshot Weighted Responses "m" wp_api_key None true
    1000 1001 (7 : Z) pl s' r' a E _ _).
  - destruct (pl_attempts pl) as [|b l]; [discriminate Ha|]. injection Ha as <-. by left.
  - vm_compute in E. injection E as <- _ _. injection Ha as <-. intros limit Hl. discriminate Hl.
Defined.

Lemma granted_reservation_holds_witness :
  ∃ r s', reserve_attempt wv_fresh (wp_attempt 1) 1000 1001 = (inl r, s') ∧ reservation_current s' r = true.
Proof.
  destruct (reserve_attempt wv_fresh (wp_attempt 1) 1000 1001) as [[r|e] s'] eqn:E; [|vm_compute in E; discriminate E].
  exists r, s'. split; [reflexivity|].
  refine (proj1 (proj2 (granted_reservation_holds wv_fresh (wp_attempt 1) 1000 1001 r s' 1002 _ E))).
  vm_compute. split; [discriminate|reflexivity].
Defined.

(** The first attempt, as [reserve_attempt wv_fresh] grants it. *)
Definition wv_held : SharedState :=
  MkShared new_quota_book (put_runtime 1 (set_pr_in_flight 1 default_runtime) new_runtime_book)
    (put_health 100 default_health (new_health_book 3 30000)) (put_health 10 default_health (new_health_book 3 30000))
    new_rotation (new_affinity_book 1000000000 10).
Definition wv_reservation : UpstreamAttemptReservation :=
  MkReservation (Some (1, 100, 10)) (Some (MkPermit 1)) (Some (MkGuard (wp_provider 1) (Token 1 None)))
    (Some (MkHealthGuard 100 (Token 1 None))) (Some (MkHealthGuard 10 (Token 1 None))).

Lemma wv_new_book : RuntimeHealth.book_wf (new_health_book 3 30000).
Proof. split; [cbn; mlia|cbn; mlia|]. intros id st Hst. cbn in Hst. by rewrite lookup_empty in Hst. Qed.

Lemma failure_blames_its_scope_witness :
  hv_state (RuntimeHealth.snapshot (ss_upstream_key_health
    (finish_with_scope wv_held wv_reservation (upstream_response 401 None None None) ScopeKey 2000 2000).2) 10 2000) = Open.
Proof.
  refine (proj1 (proj2 (proj1 (failure_blames_its_scope wv_held (wp_attempt 1) wv_reservation (MkPermit 1)
    (MkGuard (wp_provider 1) (Token 1 None)) (MkHealthGuard 100 (Token 1 None)) (MkHealthGuard 10 (Token 1 None))
    (upstream_response 401 None None None) ScopeKey 2000 2000 _ _ _ _ _ _ _)))).
  - split; reflexivity.
  - vm_compute. reflexivity.
  - apply put_health_wf; [apply wv_new_book|apply RuntimeHealth.default_health_wf].
  - apply put_health_wf; [apply wv_new_book|apply RuntimeHealth.default_health_wf].
  - vm_compute. discriminate.
  - mlia.
  - mlia.
Defined.

Lemma retry_status_iff_retryable_witness : should_retry_response_status 503 = true.
Proof. rewrite (retry_status_iff_retryable 503); [reflexivity|lia]. Defined.
