(* ===== verification/Slots.v ===== *)
(** * Slots: the concurrency slots reservations hold

    How many requests of a provider are in flight while its permits are taken, kept and
    given back by the operations of [Reservation]. *)
From S2P Require Import Prelude ProbeProtocol Types RuntimeHealth ProviderRuntime Quota Affinity Pricing Snapshot RoutingAvailability Routing Plan Reservation.

(** The requests a provider is serving. *)
Definition in_flight (s : SharedState) (id : Z) : Z := pr_in_flight (runtime_entry (ss_provider_runtime s) id).

(** Settling the guards moves no permit. *)
Lemma settle_in_flight s id :
  (∀ g o now, in_flight (settle_endpoint g o now s) id = in_flight s id)
  ∧ (∀ g o now, in_flight (settle_key g o now s) id = in_flight s id)
  ∧ (∀ g o now, in_flight (settle_provider g o now s) id = in_flight s id)
  ∧ (∀ r scope status tm, in_flight (note_error r scope status tm s) id = in_flight s id).
Proof.
  split_and!; try by intros [g|].
  - intros [g|] o now; [|done]. apply finish_guard_in_flight.
  - intros r scope status tm. unfold note_error. destruct (rv_error_book r) as [[[p e] k]|]; [|done]. by case_bool_decide.
Qed.

Lemma settle_endpoint_in_flight s id g o now : in_flight (settle_endpoint g o now s) id = in_flight s id.
Proof. apply settle_in_flight. Qed.
Lemma settle_key_in_flight s id g o now : in_flight (settle_key g o now s) id = in_flight s id.
Proof. apply settle_in_flight. Qed.
Lemma settle_provider_in_flight s id g o now : in_flight (settle_provider g o now s) id = in_flight s id.
Proof. apply settle_in_flight. Qed.
Lemma note_error_in_flight s id r scope status tm : in_flight (note_error r scope status tm s) id = in_flight s id.
Proof. apply settle_in_flight. Qed.

Create HintDb slots.
#[export] Hint Rewrite settle_endpoint_in_flight settle_key_in_flight settle_provider_in_flight note_error_in_flight : slots.

(** What a reservation holds of a provider's slots. *)
Definition slots_of (r : UpstreamAttemptReservation) (id : Z) : Z :=
  match rv_capacity r with Some c => if cp_provider_id c =? id then 1 else 0 | None => 0 end.

Lemma drop_capacity_in_flight r s id :
  (∀ id, slots_of r id <= in_flight s id <= u32_max) →
  in_flight (drop_capacity (rv_capacity r) s) id = in_flight s id - slots_of r id.
Proof.
  intros Hs. unfold slots_of in *. destruct (rv_capacity r) as [c|]; [|by rewrite Z.sub_0_r].
  cbn [drop_capacity]. unfold in_flight, drop_permit. cbn [ss_provider_runtime set_ss_provider_runtime].
  pose proof (Hs id) as Hi. pose proof (Hs (cp_provider_id c)) as Hc. unfold in_flight in *.
  rewrite release_capacity_in_flight; [|destruct (_ =? id); lia].
  destruct (Z.eqb_spec (cp_provider_id c) id) as [<-|]; [|lia]. rewrite Z.eqb_refl in Hc.
  unfold u32_sat_sub. lia.
Qed.

Lemma neutral_in_flight s r now id :
  (∀ id, slots_of r id <= in_flight s id <= u32_max) →
  in_flight (neutral s r now) id = in_flight s id - slots_of r id.
Proof.
  intros Hs. unfold neutral. rewrite drop_capacity_in_flight; autorewrite with slots; [done|].
  intros id'. by autorewrite with slots.
Qed.

Lemma drop_reservation_in_flight s r now id :
  (∀ id, slots_of r id <= in_flight s id <= u32_max) →
  in_flight (drop_reservation s r now) id = in_flight s id - slots_of r id.
Proof. intros Hs. unfold drop_reservation. autorewrite with slots. by apply drop_capacity_in_flight. Qed.

Lemma finish_with_scope_in_flight s r o scope tm now id :
  in_flight (finish_with_scope s r o scope tm now).2 id = in_flight s id
  ∧ rv_capacity (finish_with_scope s r o scope tm now).1 = rv_capacity r.
Proof. unfold finish_with_scope. split; [|done]. destruct scope; cbn [snd]; by autorewrite with slots. Qed.

Lemma slots_le r id : 0 <= slots_of r id <= 1.
Proof. unfold slots_of. destruct (rv_capacity r) as [c|]; [|lia]. destruct (_ =? _); lia. Qed.

Lemma finish_in_flight s r o tm now id :
  (∀ id, slots_of r id <= in_flight s id <= u32_max) →
  in_flight (Reservation.finish s r o tm now) id = in_flight s id - slots_of r id.
Proof.
  intros Hr. unfold Reservation.finish.
  pose proof (λ id, finish_with_scope_in_flight s r o (classify_failure_scope (oc_status o) (oc_origin o)) tm now id) as Hf.
  destruct (finish_with_scope _ _ _ _ _ _) as [r' s']. cbn [fst snd] in Hf.
  assert (∀ id, slots_of r' id = slots_of r id) as Hs by (intros id'; unfold slots_of; by rewrite (proj2 (Hf id'))).
  rewrite (drop_capacity_in_flight r'); [by rewrite Hs (proj1 (Hf id))|].
  intros id'. rewrite Hs (proj1 (Hf id')). apply Hr.
Qed.

Lemma into_capacity_in_flight s r now id : in_flight (into_capacity s r now).2 id = in_flight s id.
Proof. unfold into_capacity. cbn [snd]. by autorewrite with slots. Qed.

(** ** Taking slots *)
Section Reserve.
Context {D : Type}.
Implicit Types a : ResolvedUpstream D.

Definition taken (c : option ProviderCapacityPermit + AttemptReservationError) (id : Z) : Z :=
  match c with inl c => slots_of (MkReservation None c None None None) id | inr _ => 0 end.

Lemma take_capacity_in_flight s p acquire id :
  (∀ id, 0 <= in_flight s id < u32_max) →
  in_flight (take_capacity s p acquire).2 id = in_flight s id + taken (take_capacity s p acquire).1 id.
Proof.
  intros Hs. unfold take_capacity. destruct acquire; [|cbn; lia].
  pose proof (try_acquire_capacity_in_flight (ss_provider_runtime s) p id) as Ha.
  specialize (Hs id). unfold in_flight in *. unfold try_acquire_capacity in *.
  destruct (is_some_and _ _); cbn in *; rewrite Ha; [lia|]. unfold slots_of. cbn. destruct (_ =? _); [|lia].
  unfold u32_sat_add. lia.
Qed.

Lemma begin_provider_in_flight s p now id :
  in_flight (set_ss_provider_runtime (ProviderRuntime.try_begin_attempt (ss_provider_runtime s) p now).2 s) id = in_flight s id.
Proof.
  unfold in_flight. cbn. by destruct (try_begin_attempt_entry (ss_provider_runtime s) p now id) as [->|[-> ->]].
Qed.

(** A reservation has taken the slots it holds; a refusal has taken none. *)
Lemma reserve_in_flight s a now drop_ms acquire quota id :
  (∀ id, 0 <= in_flight s id < u32_max) →
  in_flight (reserve_attempt_inner s a now drop_ms acquire quota).2 id =
    in_flight s id + match (reserve_attempt_inner s a now drop_ms acquire quota).1 with
                     | inl r => slots_of r id | inr _ => 0 end.
Proof.
  intros Hs. unfold reserve_attempt_inner.
  pose proof (λ id, take_capacity_in_flight s (ru_provider a) acquire id Hs) as Hc.
  destruct (take_capacity s (ru_provider a) acquire) as [[capacity|e] s1]; cbn [fst snd taken] in *; [|by rewrite Hc].
  set (r0 := MkReservation None capacity None None None) in *.
  assert (∀ s', (∀ id, in_flight s' id = in_flight s1 id) → in_flight (drop_capacity capacity s') id = in_flight s id + 0) as Hdrop.
  { intros s' Hs'. change capacity with (rv_capacity r0). rewrite drop_capacity_in_flight; [rewrite Hs' Hc; lia|].
    intros id'. rewrite Hs' Hc. pose proof (slots_le r0 id'). specialize (Hs id'). lia. }
  pose proof (λ id, begin_provider_in_flight s1 (ru_provider a) now id) as Hp.
  destruct (ProviderRuntime.try_begin_attempt _ _ _) as [[provider|] book]; cbn [fst snd] in *; [|by apply Hdrop].
  set (s2 := set_ss_provider_runtime book s1) in *.
  destruct (RuntimeHealth.try_begin_attempt _ _ _) as [[key|] keys]; cbn [fst snd].
  2: { apply Hdrop. intros id'. autorewrite with slots. apply Hp. }
  destruct (RuntimeHealth.try_begin_attempt _ _ _) as [[endpoint|] endpoints]; cbn [fst snd].
  2: { apply Hdrop. intros id'. autorewrite with slots. apply Hp. }
  destruct (if quota then _ else _) as [[] quota']; cbn [fst snd].
  - change (in_flight s2 id = in_flight s id + slots_of r0 id). by rewrite Hp Hc.
  - apply Hdrop. intros id'. autorewrite with slots. apply Hp.
Qed.
End Reserve.
