(* ===== verification/OpenAi.v ===== *)
(** * OpenAi: reading a request and asking for its usage

    Models [openai.rs] (the fields of a request the gateway reads, and the edit of
    the request text that asks a streamed chat completion to report its usage),
    [responses_lite.rs] and the two small rewrites of [proxy.rs]. The edit works on
    the bytes: the scanner below is the code's, byte for byte; [JsonText] is the
    grammar of the texts it is proved correct for. *)
From Stdlib Require Import Ascii String.
From S2P Require Import Prelude Float64 Text Json Types.

Local Open Scope list_scope.

(** ** The fields of a request *)
Record OpenAiRequestInfo := MkInfo {
  ri_model : option string;
  ri_stream : bool;
  ri_include_usage : option bool
}.

Record StreamOptions := MkStreamOptions { so_include_usage : option bool }.

Record OpenAiHeader := MkHeader {
  oh_model : option string;
  oh_stream : option bool;
  oh_stream_options : option StreamOptions
}.

(** [parsed] is [serde_json::from_slice::<OpenAiHeader>(body).ok()]. *)
Definition parse_request_info (parsed : option OpenAiHeader) : OpenAiRequestInfo :=
  match parsed with
  | Some v => MkInfo (oh_model v) (unwrap_or (oh_stream v) false)
                (opt_bind (oh_stream_options v) so_include_usage)
  | None => MkInfo None false None
  end.

Definition should_inject_include_usage (api_format : ApiFormat) (info : OpenAiRequestInfo)
    (provider_supports inject_enabled : bool) : bool :=
  if negb inject_enabled || negb provider_supports then false
  else match api_format with
       | ChatCompletions => ri_stream info
       | Responses => false
       end.

(** ** The scanner

    A position is the rest of the input together with its index. *)
Definition bslash : ascii := ascii_of_nat 92.
Definition quote : ascii := ascii_of_nat 34.
Definition lbrace : ascii := ascii_of_nat 123.
Definition rbrace : ascii := ascii_of_nat 125.
Definition lbracket : ascii := ascii_of_nat 91.
Definition rbracket : ascii := ascii_of_nat 93.
Definition colon : ascii := ascii_of_nat 58.
Definition comma : ascii := ascii_of_nat 44.

(** [u8::is_ascii_whitespace]: space, tab, line feed, form feed, carriage return. *)
Definition is_ws (c : ascii) : bool := existsb (Z.eqb (code c)) [32; 9; 10; 12; 13].
#[global] Arguments is_ws : simpl never.

Fixpoint skip_ws (rest : list ascii) (i : nat) : list ascii * nat :=
  match rest with
  | c :: rest' => if is_ws c then skip_ws rest' (S i) else (rest, i)
  | [] => ([], i)
  end.

(** The inner loop over a key: its bytes, and the position after the closing quote. *)
Fixpoint read_key (rest : list ascii) (i : nat) (escape : bool) : option (list ascii * (list ascii * nat)) :=
  match rest with
  | [] => None
  | c :: rest' =>
      let more escape := option_map (λ '(k, p), (c :: k, p)) (read_key rest' (S i) escape) in
      if escape then more false
      else if Ascii.eqb c bslash then more true
      else if Ascii.eqb c quote then Some ([], (rest', S i))
      else more false
  end.

(** The three forms of [scan_json_value_end]. *)
Fixpoint scan_nested (open close : ascii) (rest : list ascii) (i : nat) (depth : Z) (in_string escape : bool)
    : option nat :=
  match rest with
  | [] => None
  | c :: rest' =>
      if in_string then
        if escape then scan_nested open close rest' (S i) depth true false
        else if Ascii.eqb c bslash then scan_nested open close rest' (S i) depth true true
        else if Ascii.eqb c quote then scan_nested open close rest' (S i) depth false false
        else scan_nested open close rest' (S i) depth true false
      else if Ascii.eqb c quote then scan_nested open close rest' (S i) depth true false
      else if Ascii.eqb c open then scan_nested open close rest' (S i) (depth + 1) false escape
      else if Ascii.eqb c close then
        if depth - 1 =? 0 then Some (S i) else scan_nested open close rest' (S i) (depth - 1) false escape
      else scan_nested open close rest' (S i) depth false escape
  end.

Fixpoint scan_string (rest : list ascii) (i : nat) (escape : bool) : option nat :=
  match rest with
  | [] => None
  | c :: rest' =>
      if escape then scan_string rest' (S i) false
      else if Ascii.eqb c bslash then scan_string rest' (S i) true
      else if Ascii.eqb c quote then Some (S i)
      else scan_string rest' (S i) false
  end.

Definition ends_primitive (c : ascii) : bool :=
  Ascii.eqb c comma || Ascii.eqb c rbrace || Ascii.eqb c rbracket || is_ws c.

Fixpoint scan_primitive (rest : list ascii) (i : nat) : nat :=
  match rest with
  | c :: rest' => if ends_primitive c then i else scan_primitive rest' (S i)
  | [] => i
  end.

Definition scan_json_value_end (rest : list ascii) (start : nat) : option nat :=
  match rest with
  | [] => None
  | b :: rest' =>
      if Ascii.eqb b lbrace then scan_nested lbrace rbrace rest start 0 false false
      else if Ascii.eqb b lbracket then scan_nested lbracket rbracket rest start 0 false false
      else if Ascii.eqb b quote then scan_string rest' (S start) false
      else Some (scan_primitive rest start)
  end.

(** The main loop of [find_root_key_value_span], which is also the one of
    [find_object_key_value_span]. Every round consumes a byte. *)
Fixpoint span_loop (fuel : nat) (key : list ascii) (rest : list ascii) (i : nat) (depth : Z)
    (in_string escape : bool) : option (nat * nat) :=
  match fuel, rest with
  | S fuel', b :: rest' =>
      let continue := span_loop fuel' key in
      if in_string then
        if escape then continue rest' (S i) depth true false
        else if Ascii.eqb b bslash then continue rest' (S i) depth true true
        else if Ascii.eqb b quote then continue rest' (S i) depth false false
        else continue rest' (S i) depth true false
      else if Ascii.eqb b quote then
        if negb (depth =? 1) then continue rest' (S i) depth true false
        else match read_key rest' (S i) false with
             | None => None
             | Some (found, (after, j)) =>
                 if negb (bool_decide (found = key)) then continue after j depth false false
                 else
                   let '(after, j) := skip_ws after j in
                   match after with
                   | c :: after' =>
                       if Ascii.eqb c colon then
                         let '(after, j) := skip_ws after' (S j) in
                         option_map (λ e, (j, e)) (scan_json_value_end after j)
                       else continue after j depth false false
                   | [] => continue after j depth false false
                   end
             end
      else if Ascii.eqb b lbrace || Ascii.eqb b lbracket then continue rest' (S i) (depth + 1) false escape
      else if Ascii.eqb b rbrace || Ascii.eqb b rbracket then continue rest' (S i) (depth - 1) false escape
      else continue rest' (S i) depth false escape
  | _, _ => None
  end.

Definition find_root_key_value_span (input key : list ascii) : option (nat * nat) :=
  let '(rest, i) := skip_ws input 0 in
  match rest with
  | c :: _ => if Ascii.eqb c lbrace then span_loop (length rest) key rest i 0 false false else None
  | [] => None
  end.

Definition find_object_key_value_span (input key : list ascii) : option (nat * nat) :=
  find_root_key_value_span input key.

(** The index of the final brace. *)
Definition trim_end (l : list ascii) : list ascii := reverse (skip_ws (reverse l) 0).1.

Definition find_root_object_end (input : list ascii) : option nat :=
  match last (trim_end input) with
  | Some c => if Ascii.eqb c rbrace then Some (length (trim_end input) - 1)%nat else None
  | None => None
  end.

Definition text (s : string) : list ascii := chars s.
Definition quoted (s : string) : list ascii := quote :: chars s ++ [quote].

(** The bytes the edits insert. *)
Definition include_usage_true : list ascii := quoted "include_usage" ++ [colon] ++ text "true".
Definition stream_options_usage : list ascii :=
  quoted "stream_options" ++ [colon; lbrace] ++ include_usage_true ++ [rbrace].

Definition inject_include_usage_into_object (obj : list ascii) : list ascii + string :=
  let '(rest, i) := skip_ws obj 0 in
  match rest with
  | c :: _ =>
      if negb (Ascii.eqb c lbrace) then inr "stream_options is not an object"%string
      else
        let body := trim_end obj in
        match last body with
        | Some d =>
            if negb (Ascii.eqb d rbrace) then inr "stream_options object not terminated"%string
            else
              let inner := drop (i + 1) (take (length body - 1) obj) in
              inl (take (i + 1) obj
                   ++ (if forallb is_ws inner then include_usage_true else include_usage_true ++ [comma])
                   ++ drop (i + 1) obj)
        | None => inr "stream_options object not terminated"%string
        end
  | [] => inr "stream_options is not an object"%string
  end.

(** [&body[a..b]] *)
Definition slice (a b : nat) (l : list ascii) : list ascii := drop a (take b l).

Definition ensure_include_usage (parsed : option OpenAiHeader) (body : list ascii) : list ascii + string :=
  let info := parse_request_info parsed in
  if negb (ri_stream info) then inl body
  else if bool_decide (ri_include_usage info = Some true) then inl body
  else
    match find_root_object_end body with
    | None => inl body
    | Some root_end =>
        match find_root_key_value_span body (text "stream_options") with
        | Some (so_val_start, so_val_end) =>
            let so_bytes := slice so_val_start so_val_end body in
            match find_object_key_value_span so_bytes (text "include_usage") with
            | None =>
                match inject_include_usage_into_object so_bytes with
                | inl injected => inl (take so_val_start body ++ injected ++ drop so_val_end body)
                | inr e => inr e
                end
            | Some (iu_val_start_rel, iu_val_end_rel) =>
                inl (take (so_val_start + iu_val_start_rel) body ++ text "true"
                     ++ drop (so_val_start + iu_val_end_rel) body)
            end
        | None =>
            let before := take root_end body in
            let needs_comma := match last (trim_end before) with
                               | Some c => negb (Ascii.eqb c lbrace)
                               | None => false
                               end in
            inl (before ++ (if needs_comma then [comma] else []) ++ stream_options_usage ++ drop root_end body)
        end
    end.

(** ** The small rewrites *)
Section Rewrites.
(** The JSON reader and printer of the crate. *)
Context (from_slice : string → option Value) (to_vec : Value → option string).

(** [rewrite_model_name]; the error texts carry the reader's message. *)
Definition rewrite_model_name (body new_model : string) : string + string :=
  match from_slice body with
  | None => inr "invalid json"%string
  | Some (Object root) =>
      match to_vec (Object (assoc_insert "model" (String new_model) root)) with
      | Some body => inl body
      | None => inr "json encode failed"%string
      end
  | Some _ => inr "invalid json object"%string
  end.
End Rewrites.

(** [responses_lite::enabled]: [values] are the values of the header that are text. *)
Definition lite_enabled (values : list string) : bool :=
  existsb (λ value, String.eqb (to_ascii_lowercase (trim value)) "true") values.

(** Lite requires an explicit false. *)
Definition normalize_object (root : list (string * Value)) : list (string * Value) :=
  assoc_insert "parallel_tool_calls" (Bool false) root.

(** ** The grammar of JSON texts

    A text is JSON as far as brackets, quotes, commas and white space go: a string is
    its bytes as written, a primitive any bytes that end where a primitive ends. Keys
    are compared as written, as the scanner does. *)
Inductive Raw :=
  | RPrim (token : list ascii)
  | RStr (body : list ascii)
  | RArr (items : list Raw)
  | RObj (members : list (list ascii * Raw)).

Fixpoint body_ok (l : list ascii) (escape : bool) : bool :=
  match l with
  | [] => negb escape
  | c :: l' =>
      if escape then body_ok l' false
      else if Ascii.eqb c bslash then body_ok l' true
      else if Ascii.eqb c quote then false
      else body_ok l' false
  end.

Definition plain (c : ascii) : bool :=
  negb (Ascii.eqb c quote || Ascii.eqb c lbrace || Ascii.eqb c lbracket || Ascii.eqb c rbrace || Ascii.eqb c rbracket).
Definition prim_ok (t : list ascii) : bool :=
  negb (is_empty t) && forallb (λ c, plain c && negb (ends_primitive c)) t.
Definition all_ws (l : list ascii) : bool := forallb is_ws l.

Inductive value_text : Raw → list ascii → Prop :=
  | prim_text t : prim_ok t = true → value_text (RPrim t) t
  | str_text b : body_ok b false = true → value_text (RStr b) (quote :: b ++ [quote])
  | arr_text items l : items_text items l → value_text (RArr items) (lbracket :: l ++ [rbracket])
  | obj_text ms l : members_text ms l → value_text (RObj ms) (lbrace :: l ++ [rbrace])
with items_text : list Raw → list ascii → Prop :=
  | no_items w : all_ws w = true → items_text [] w
  | last_item w1 v l w2 : all_ws w1 = true → value_text v l → all_ws w2 = true → items_text [v] (w1 ++ l ++ w2)
  | more_items w1 v l w2 v' vs r :
      all_ws w1 = true → value_text v l → all_ws w2 = true → items_text (v' :: vs) r →
      items_text (v :: v' :: vs) (w1 ++ l ++ w2 ++ comma :: r)
with members_text : list (list ascii * Raw) → list ascii → Prop :=
  | no_members w : all_ws w = true → members_text [] w
  | last_member w1 k w2 w3 v l w4 :
      all_ws w1 = true → body_ok k false = true → all_ws w2 = true → all_ws w3 = true → value_text v l →
      all_ws w4 = true →
      members_text [(k, v)] (w1 ++ quote :: k ++ quote :: w2 ++ colon :: w3 ++ l ++ w4)
  | more_members w1 k w2 w3 v l w4 m ms r :
      all_ws w1 = true → body_ok k false = true → all_ws w2 = true → all_ws w3 = true → value_text v l →
      all_ws w4 = true → members_text (m :: ms) r →
      members_text ((k, v) :: m :: ms) (w1 ++ quote :: k ++ quote :: w2 ++ colon :: w3 ++ l ++ w4 ++ comma :: r).

Scheme value_text_mind := Minimality for value_text Sort Prop
  with items_text_mind := Minimality for items_text Sort Prop
  with members_text_mind := Minimality for members_text Sort Prop.
Combined Scheme texts_ind from value_text_mind, items_text_mind, members_text_mind.

(** ** Walking over a text *)
Lemma ws_plain c : is_ws c = true → plain c = true ∧ ends_primitive c = true ∧ Ascii.eqb c quote = false
  ∧ Ascii.eqb c lbrace = false ∧ Ascii.eqb c rbrace = false ∧ Ascii.eqb c colon = false.
Proof. revert c. by intros [[] [] [] [] [] [] [] []]; vm_compute. Qed.

Lemma plain_not c : plain c = true →
  Ascii.eqb c quote = false ∧ Ascii.eqb c lbrace = false ∧ Ascii.eqb c lbracket = false
  ∧ Ascii.eqb c rbrace = false ∧ Ascii.eqb c rbracket = false.
Proof. unfold plain. intros H. by repeat match goal with |- context [Ascii.eqb c ?x] => destruct (Ascii.eqb c x) end. Qed.

(** Positions: lengths of concatenations. *)
Ltac len :=
  repeat (progress (rewrite ?length_app; cbn [length]));
  first [lia | f_equal; lia | do 2 f_equal; lia | do 3 f_equal; lia].

(** A walker that steps over plain bytes and strings and counts brackets passes over
    every value at depth [low] and deeper. *)
Section Walk.
Context {X : Type} (F : list ascii → nat → Z → X) (low db dk : Z).
Hypothesis walk_plain : ∀ c r i d, low <= d → plain c = true → F (c :: r) i d = F r (S i) d.
Hypothesis walk_str : ∀ b r i d, low <= d → body_ok b false = true →
  F (quote :: b ++ quote :: r) i d = F r (i + length b + 2)%nat d.
Hypothesis (db_pos : 0 <= db) (dk_pos : 0 <= dk).
Hypothesis walk_lbrace : ∀ r i d, low <= d → F (lbrace :: r) i d = F r (S i) (d + db).
Hypothesis walk_rbrace : ∀ r i d, low <= d → F (rbrace :: r) i (d + db) = F r (S i) d.
Hypothesis walk_lbracket : ∀ r i d, low <= d → F (lbracket :: r) i d = F r (S i) (d + dk).
Hypothesis walk_rbracket : ∀ r i d, low <= d → F (rbracket :: r) i (d + dk) = F r (S i) d.

Lemma walk_plains l r i d : low <= d → forallb plain l = true → F (l ++ r) i d = F r (i + length l)%nat d.
Proof.
  intros Hd. revert i. induction l as [|c l IH]; intros i; cbn; [by rewrite Nat.add_0_r|].
  intros [Hc Hl]%andb_true_iff. rewrite walk_plain // IH //. f_equal. lia.
Qed.

Lemma ws_plains l : all_ws l = true → forallb plain l = true.
Proof. rewrite !forallb_forall. intros H c Hc. by apply ws_plain, H. Qed.

Definition walked (l : list ascii) : Prop :=
  ∀ r i d, low <= d → F (l ++ r) i d = F r (i + length l)%nat d.

Lemma walk_texts :
  (∀ v l, value_text v l → walked l) ∧ (∀ items l, items_text items l → walked l)
  ∧ (∀ ms l, members_text ms l → walked l).
Proof.
  apply texts_ind; unfold walked; intros; repeat (rewrite -?app_assoc; cbn [app]);
    repeat match goal with H : all_ws _ = true |- _ => apply ws_plains in H end.
  - rewrite walk_plains //. unfold prim_ok in *. apply andb_true_iff in H as [_ H].
    rewrite forallb_forall in H. apply forallb_forall. intros c Hc. by apply H in Hc as [? _]%andb_true_iff.
  - rewrite walk_str //. len.
  - rewrite walk_lbracket // H0; [|lia]. cbn [app]. rewrite walk_rbracket //. len.
  - rewrite walk_lbrace // H0; [|lia]. cbn [app]. rewrite walk_rbrace //. len.
  - by apply walk_plains.
  - rewrite walk_plains // H1 // walk_plains //. len.
  - rewrite walk_plains // H1 // walk_plains // walk_plain // H4 //. len.
  - by apply walk_plains.
  - rewrite walk_plains // walk_str // walk_plains // walk_plain // walk_plains // H4 // walk_plains //. len.
  - rewrite walk_plains // walk_str // walk_plains // walk_plain // walk_plains // H4 // walk_plains //.
    rewrite walk_plain // H7 //. len.
Qed.
End Walk.

(** ** The scanner on texts *)
Lemma read_key_ok b r i e :
  body_ok b e = true → read_key (b ++ quote :: r) i e = Some (b, (r, (i + length b + 1)%nat)).
Proof.
  revert i e. induction b as [|c b IH]; intros i e H; cbn in H |- *.
  - destruct e; [done|]. change (Ascii.eqb quote bslash) with false. rewrite Ascii.eqb_refl. by len.
  - destruct e; [rewrite IH //; cbn; by len|]. destruct (Ascii.eqb c bslash); [rewrite IH //; cbn; by len|].
    destruct (Ascii.eqb c quote); [done|]. rewrite IH //. cbn. by len.
Qed.

Lemma scan_string_ok b r i e :
  body_ok b e = true → scan_string (b ++ quote :: r) i e = Some (i + length b + 1)%nat.
Proof.
  revert i e. induction b as [|c b IH]; intros i e H; cbn in H |- *.
  - destruct e; [done|]. change (Ascii.eqb quote bslash) with false. rewrite Ascii.eqb_refl. by len.
  - destruct e; [rewrite IH //; by len|]. destruct (Ascii.eqb c bslash); [rewrite IH //; by len|].
    destruct (Ascii.eqb c quote); [done|]. rewrite IH //. by len.
Qed.

Lemma scan_nested_string o cl b r i d e :
  body_ok b e = true →
  scan_nested o cl (b ++ quote :: r) i d true e = scan_nested o cl r (i + length b + 1)%nat d false false.
Proof.
  revert i e. induction b as [|c b IH]; intros i e H; cbn in H |- *.
  - destruct e; [done|]. change (Ascii.eqb quote bslash) with false. rewrite Ascii.eqb_refl. by len.
  - destruct e; [rewrite IH //; by len|]. destruct (Ascii.eqb c bslash); [rewrite IH //; by len|].
    destruct (Ascii.eqb c quote); [done|]. rewrite IH //. by len.
Qed.

Lemma skip_ws_ws w r i : all_ws w = true → skip_ws (w ++ r) i = skip_ws r (i + length w)%nat.
Proof.
  revert i. induction w as [|c w IH]; intros i; cbn; [by rewrite Nat.add_0_r|]. intros [-> Hw]%andb_true_iff.
  rewrite IH //. by len.
Qed.

Lemma skip_ws_stop c r i : is_ws c = false → skip_ws (c :: r) i = (c :: r, i).
Proof. cbn. by intros ->. Qed.

Lemma skip_ws_le r i : (length (skip_ws r i).1 <= length r)%nat.
Proof. revert i. induction r as [|c r IH]; intros i; cbn; [done|]. destruct (is_ws c); cbn; [|lia]. specialize (IH (S i)). lia. Qed.

Lemma read_key_le r i e k r' j : read_key r i e = Some (k, (r', j)) → (length r' < length r)%nat.
Proof.
  revert i e k r' j. induction r as [|c r IH]; intros i e k r' j; cbn; [done|].
  assert (∀ e', option_map (λ '(k, p), (c :: k, p)) (read_key r (S i) e') = Some (k, (r', j)) → (length r' < S (length r))%nat) as Hmore.
  { intros e'. destruct (read_key r (S i) e') as [[k0 [r0 j0]]|] eqn:E; cbn; [|done]. intros [= _ <- _].
    pose proof (IH _ _ _ _ _ E). lia. }
  destruct e; [apply Hmore|]. destruct (Ascii.eqb c bslash); [apply Hmore|].
  destruct (Ascii.eqb c quote); [|apply Hmore]. intros [= _ <- _]. lia.
Qed.

(** Fuel beyond the length of the input changes nothing. *)
Definition span (key rest : list ascii) (i : nat) (d : Z) : option (nat * nat) :=
  span_loop (length rest) key rest i d false false.

Lemma span_fuel f f' key r i d s e :
  (length r <= f)%nat → (length r <= f')%nat → span_loop f key r i d s e = span_loop f' key r i d s e.
Proof.
  revert f' r i d s e. induction f as [|f IH]; intros [|f'] r i d s e Hf Hf'; destruct r as [|c r]; cbn in Hf, Hf' |- *; try lia; try done.
  assert (∀ r' i d s e, (length r' <= length r)%nat → span_loop f key r' i d s e = span_loop f' key r' i d s e) as Hrec
    by (intros; apply IH; lia).
  rewrite !Hrec; try lia.
  destruct (read_key r (S i) false) as [[k [r' j]]|] eqn:Ek; [|done].
  pose proof (read_key_le _ _ _ _ _ _ Ek). rewrite Hrec; [|lia].
  pose proof (skip_ws_le r' j) as Hws. destruct (skip_ws r' j) as [[|c' r''] j']; cbn in Hws.
  - rewrite Hrec; [done|cbn; lia].
  - rewrite Hrec; [done|cbn; lia].
Qed.

Lemma span_loop_span f key r i d : (length r <= f)%nat → span_loop f key r i d false false = span key r i d.
Proof. intros H. by apply span_fuel. Qed.

Lemma span_string f key b r i d e :
  (length b + length r + 1 <= f)%nat → body_ok b e = true →
  span_loop f key (b ++ quote :: r) i d true e = span key r (i + length b + 1)%nat d.
Proof.
  revert f i e. induction b as [|c b IH]; intros [|f] i e Hf H; cbn in H, Hf |- *; try lia.
  - destruct e; [done|]. change (Ascii.eqb quote bslash) with false. rewrite Ascii.eqb_refl.
    rewrite span_loop_span; [by len|lia].
  - destruct e; [rewrite IH //; [by len|lia]|]. destruct (Ascii.eqb c bslash); [rewrite IH //; [by len|lia]|].
    destruct (Ascii.eqb c quote); [done|]. rewrite IH //; [by len|lia].
Qed.

Lemma span_plain key c r i d : plain c = true → span key (c :: r) i d = span key r (S i) d.
Proof. intros H. apply plain_not in H as (H1 & H2 & H3 & H4 & H5). unfold span. cbn. by rewrite H1 H2 H3 H4 H5. Qed.

Lemma span_open key c r i d : c = lbrace ∨ c = lbracket → span key (c :: r) i d = span key r (S i) (d + 1).
Proof. by intros [-> | ->]. Qed.

Lemma span_close key c r i d : c = rbrace ∨ c = rbracket → span key (c :: r) i d = span key r (S i) (d - 1).
Proof. by intros [-> | ->]. Qed.

Lemma span_deep_string key b r i d :
  d ≠ 1 → body_ok b false = true → span key (quote :: b ++ quote :: r) i d = span key r (i + length b + 2)%nat d.
Proof.
  intros Hd Hb. unfold span at 1. cbn [length span_loop]. rewrite Ascii.eqb_refl (proj2 (Z.eqb_neq d 1)) //. cbn [negb].
  rewrite span_string //; [by len|]. rewrite length_app /=. lia.
Qed.

Lemma span_walks key :
  (∀ v l, value_text v l → walked (span key) 2 l) ∧ (∀ items l, items_text items l → walked (span key) 2 l)
  ∧ (∀ ms l, members_text ms l → walked (span key) 2 l).
Proof.
  apply (walk_texts (span key) 2 1 1); try lia.
  - intros; by apply span_plain.
  - intros; apply span_deep_string; [lia|done].
  - intros; apply span_open; auto.
  - intros; rewrite span_close; [|by auto]. f_equal. lia.
  - intros; apply span_open; auto.
  - intros; rewrite span_close; [|by auto]. f_equal. lia.
Qed.

Lemma span_ws key w r i d : all_ws w = true → span key (w ++ r) i d = span key r (i + length w)%nat d.
Proof.
  revert i. induction w as [|c w IH]; intros i; cbn [all_ws forallb app]; [intros _; by len|]. intros [Hc Hw]%andb_true_iff.
  rewrite span_plain; [|by apply ws_plain]. rewrite IH //. by len.
Qed.

(** A string at depth 1 that is not a key followed by a colon. *)
Lemma span_shallow_string key b w c r i :
  body_ok b false = true → all_ws w = true → is_ws c = false → (b = key → Ascii.eqb c colon = false) →
  span key (quote :: b ++ quote :: w ++ c :: r) i 1 = span key (c :: r) (i + length b + 2 + length w)%nat 1.
Proof.
  intros Hb Hw Hc Hk. unfold span at 1. cbn [length span_loop]. rewrite Ascii.eqb_refl. cbn [negb Z.eqb Pos.eqb].
  rewrite read_key_ok //. case_bool_decide as E; cbn [negb].
  - rewrite skip_ws_ws // skip_ws_stop // Hk // span_loop_span; len.
  - rewrite span_loop_span; [rewrite span_ws //|]; len.
Qed.

Lemma span_shallow key v l w c r i :
  value_text v l → all_ws w = true → c = comma ∨ c = rbrace →
  span key (l ++ w ++ c :: r) i 1 = span key (c :: r) (i + length l + length w)%nat 1.
Proof.
  intros Hv Hw Hc. assert (is_ws c = false ∧ Ascii.eqb c colon = false) as [Hcw Hcc] by by destruct Hc as [-> | ->].
  inversion Hv as [t Ht|b Hb|items l' Hi|ms l' Hm]; subst.
  - rewrite (walk_plains (span key) 0) //; [by rewrite span_ws| |].
    + intros; by apply span_plain.
    + unfold prim_ok in Ht. apply andb_true_iff in Ht as [_ Ht]. rewrite forallb_forall in Ht. apply forallb_forall.
      intros x Hx. by apply Ht in Hx as [? _]%andb_true_iff.
  - cbn [app]. rewrite -app_assoc. cbn [app]. rewrite span_shallow_string //. by len.
  - cbn [app]. rewrite -app_assoc span_open; [|by auto]. rewrite (proj1 (proj2 (span_walks key)) _ _ Hi) //.
    cbn [app]. rewrite span_close; [|by auto]. rewrite span_ws //. len.
  - cbn [app]. rewrite -app_assoc span_open; [|by auto]. rewrite (proj2 (proj2 (span_walks key)) _ _ Hm) //.
    cbn [app]. rewrite span_close; [|by auto]. rewrite span_ws //. len.
Qed.

Lemma scan_nested_walks o cl db dk :
  (o, cl, db, dk) = (lbrace, rbrace, 1, 0) ∨ (o, cl, db, dk) = (lbracket, rbracket, 0, 1) →
  let F r i d := scan_nested o cl r i d false false in
  (∀ v l, value_text v l → walked F 1 l) ∧ (∀ items l, items_text items l → walked F 1 l)
  ∧ (∀ ms l, members_text ms l → walked F 1 l).
Proof.
  intros E F. apply (walk_texts F 1 db dk).
  - intros c r i d _ H. apply plain_not in H as (H1 & H2 & H3 & H4 & H5). unfold F. cbn. rewrite H1.
    destruct E as [[= -> -> _ _]|[= -> -> _ _]]; by rewrite ?H2 ?H3 ?H4 ?H5.
  - intros b r i d _ Hb. unfold F. cbn [scan_nested]. rewrite Ascii.eqb_refl scan_nested_string //. len.
  - by destruct E as [[= _ _ -> _]|[= _ _ -> _]].
  - by destruct E as [[= _ _ _ ->]|[= _ _ _ ->]].
  - intros r i d _. by destruct E as [[= -> -> -> ->]|[= -> -> -> ->]]; rewrite ?Z.add_0_r.
  - intros r i d Hd. unfold F. destruct E as [[= -> -> -> ->]|[= -> -> -> ->]]; rewrite ?Z.add_0_r //. cbn.
    rewrite Z.add_simpl_r (proj2 (Z.eqb_neq d 0)) //; lia.
  - intros r i d _. by destruct E as [[= -> -> -> ->]|[= -> -> -> ->]]; rewrite ?Z.add_0_r.
  - intros r i d Hd. unfold F. destruct E as [[= -> -> -> ->]|[= -> -> -> ->]]; rewrite ?Z.add_0_r //. cbn.
    rewrite Z.add_simpl_r (proj2 (Z.eqb_neq d 0)) //; lia.
Qed.

Lemma scan_primitive_ok t c r i :
  forallb (λ c, plain c && negb (ends_primitive c)) t = true → ends_primitive c = true →
  scan_primitive (t ++ c :: r) i = (i + length t)%nat.
Proof.
  intros Ht Hc. revert i. induction t as [|x t IH]; intros i; cbn in Ht |- *; [rewrite Hc; len|].
  apply andb_true_iff in Ht as [[_ Hx]%andb_true_iff Ht]. apply negb_true_iff in Hx. rewrite Hx IH //. len.
Qed.

Lemma ends_plain_head c : plain c = true → Ascii.eqb c lbrace = false ∧ Ascii.eqb c lbracket = false ∧ Ascii.eqb c quote = false.
Proof. intros H. by apply plain_not in H as (? & ? & ? & ? & ?). Qed.

(** The end of a value is found exactly. *)
Lemma scan_value_ok v l c r i :
  value_text v l → ends_primitive c = true → scan_json_value_end (l ++ c :: r) i = Some (i + length l)%nat.
Proof.
  intros Hv Hc. inversion Hv as [t Ht|b Hb|items l' Hi|ms l' Hm]; subst; cbn [app]; rewrite -?app_assoc; cbn [app].
  - apply andb_true_iff in Ht as [Hne Ht]. destruct l as [|x t]; [done|]. cbn [app scan_json_value_end].
    assert (plain x = true) as Hx by (cbn in Ht; by apply andb_true_iff in Ht as [[? _]%andb_true_iff _]).
    apply ends_plain_head in Hx as (-> & -> & ->). by rewrite (scan_primitive_ok (x :: t)).
  - cbn. rewrite scan_string_ok //. len.
  - cbn. destruct (scan_nested_walks lbracket rbracket 0 1) as (_ & H & _); [by right|]. specialize (H _ _ Hi).
    unfold walked in H. rewrite H //. cbn. len.
  - cbn. destruct (scan_nested_walks lbrace rbrace 1 0) as (_ & _ & H); [by left|]. specialize (H _ _ Hm).
    unfold walked in H. rewrite H //. cbn. len.
Qed.

Lemma value_head v l : value_text v l → ∃ h t, l = h :: t ∧ is_ws h = false.
Proof.
  intros Hv. inversion Hv as [t Ht|b Hb|items l' Hi|ms l' Hm]; subst; try (eexists _, _; split; [reflexivity|by vm_compute]).
  destruct l as [|h t]; [done|]. exists h, t. split; [done|]. unfold prim_ok in Ht. cbn in Ht.
  apply andb_true_iff in Ht as [[_ Hh]%andb_true_iff _]. unfold ends_primitive in Hh. apply negb_true_iff in Hh.
  by apply orb_false_iff in Hh as [_ ?].
Qed.

(** A key followed by its value. *)
Lemma span_hit key w2 w3 v l c r i :
  body_ok key false = true → all_ws w2 = true → all_ws w3 = true → value_text v l → ends_primitive c = true →
  let start := (i + length key + 2 + length w2 + 1 + length w3)%nat in
  span key (quote :: key ++ quote :: w2 ++ colon :: w3 ++ l ++ c :: r) i 1 = Some (start, (start + length l)%nat).
Proof.
  intros Hk Hw2 Hw3 Hv Hc start. unfold span. cbn [length span_loop]. rewrite Ascii.eqb_refl. cbn [negb Z.eqb Pos.eqb].
  rewrite read_key_ok // bool_decide_true //. cbn [negb]. rewrite skip_ws_ws // skip_ws_stop //.
  rewrite Ascii.eqb_refl skip_ws_ws //. destruct (value_head v l Hv) as (h & t & El & Hh). rewrite El. cbn [app].
  rewrite skip_ws_stop // (_ : h :: t ++ c :: r = l ++ c :: r); [|by rewrite El].
  rewrite (scan_value_ok v) //. cbn [option_map]. unfold start. f_equal. rewrite El. cbn [length]. f_equal; lia.
Qed.

(** ** Members *)
Fixpoint raw_get (key : list ascii) (ms : list (list ascii * Raw)) : option Raw :=
  match ms with
  | [] => None
  | (k, v) :: ms => if bool_decide (k = key) then Some v else raw_get key ms
  end.

(** The first member of that key gets the value. *)
Fixpoint raw_set (key : list ascii) (v : Raw) (ms : list (list ascii * Raw)) : list (list ascii * Raw) :=
  match ms with
  | [] => []
  | (k, w) :: ms => if bool_decide (k = key) then (k, v) :: ms else (k, w) :: raw_set key v ms
  end.

Lemma members_cons ms l :
  members_text ms l → ms ≠ [] → ∃ k v ms' w1 w2 w3 lv w4 c rest,
    ms = (k, v) :: ms' ∧ l = w1 ++ quote :: k ++ quote :: w2 ++ colon :: w3 ++ lv ++ w4 ++ rest
    ∧ all_ws w1 = true ∧ body_ok k false = true ∧ all_ws w2 = true ∧ all_ws w3 = true ∧ value_text v lv
    ∧ all_ws w4 = true
    ∧ ((ms' = [] ∧ rest = [] ∧ c = rbrace) ∨ (c = comma ∧ ∃ r, rest = comma :: r ∧ members_text ms' r ∧ ms' ≠ [])).
Proof.
  intros H Hne. inversion H as [|w1 k w2 w3 v lv w4|w1 k w2 w3 v lv w4 m ms' r]; subst; [done| |].
  - exists k, v, [], w1, w2, w3, lv, w4, rbrace, []. rewrite app_nil_r. split_and!; try done. by left.
  - exists k, v, (m :: ms'), w1, w2, w3, lv, w4, comma, (comma :: r). split_and!; try done. right. split; [done|].
    by exists r.
Qed.

(** From the inside of an object to its end, when the key is not there. *)
Lemma members_miss key ms l r i :
  members_text ms l → raw_get key ms = None → span key (l ++ rbrace :: r) i 1 = span key r (i + length l + 1)%nat 0.
Proof.
  revert l i. induction ms as [|[k0 v0] ms IH]; intros l i H Hg.
  - inversion H; subst. rewrite span_ws // span_close; [|by auto]. len.
  - destruct (members_cons _ _ H) as (k & v & ms' & w1 & w2 & w3 & lv & w4 & c & rest & [= <- <- <-] & -> & Hw1 & Hk & Hw2 & Hw3 & Hv & Hw4 & Hr); [done|].
    cbn in Hg. case_bool_decide as E; [done|]. repeat (rewrite -?app_assoc; cbn [app]).
    rewrite span_ws // span_shallow_string // span_plain // span_ws //.
    destruct Hr as [(-> & -> & _)|(_ & r' & -> & Hr & _)].
    + cbn [app]. rewrite (span_shallow key v0) //; [|by auto]. rewrite span_close; [|by auto]. len.
    + cbn [app]. rewrite (span_shallow key v0) //; [|by auto]. rewrite span_plain // IH //. len.
Qed.

(** ... and when it is: where its value stands, and what replacing it there makes. *)
Lemma members_hit key ms l v :
  members_text ms l → raw_get key ms = Some v →
  ∃ pre lv post, l = pre ++ lv ++ post ∧ value_text v lv
    ∧ (∀ r i, span key (l ++ rbrace :: r) i 1 = Some (i + length pre, i + length pre + length lv)%nat)
    ∧ ∀ v' lv', value_text v' lv' → members_text (raw_set key v' ms) (pre ++ lv' ++ post).
Proof.
  revert l. induction ms as [|[k0 v0] ms IH]; intros l H Hg; [done|].
  destruct (members_cons _ _ H) as (k & v1 & ms' & w1 & w2 & w3 & lv & w4 & c & rest & [= <- <- <-] & -> & Hw1 & Hk & Hw2 & Hw3 & Hv & Hw4 & Hr); [done|].
  cbn in Hg |- *. case_bool_decide as E.
  - injection Hg as ->. subst k0. exists (w1 ++ quote :: key ++ quote :: w2 ++ colon :: w3), lv, (w4 ++ rest). split_and!.
    + by repeat (rewrite -?app_assoc; cbn [app]).
    + done.
    + intros r i. repeat (rewrite -?app_assoc; cbn [app]). rewrite span_ws //.
      assert (∃ c' r', w4 ++ rest ++ rbrace :: r = c' :: r' ∧ ends_primitive c' = true) as (c' & r' & -> & Hc').
      { destruct w4 as [|x w4].
        - destruct Hr as [(_ & -> & _)|(_ & r0 & -> & _)]; cbn; by eexists _, _.
        - eexists _, _. split; [done|]. cbn in Hw4. apply andb_true_iff in Hw4 as [Hx _]. by apply ws_plain in Hx as (_ & ? & _). }
      rewrite (span_hit key w2 w3 v) //. f_equal. f_equal; len.
    + intros v' lv' Hv'. repeat (rewrite -?app_assoc; cbn [app]). destruct Hr as [(-> & -> & _)|(_ & r0 & -> & Hr0 & Hne)].
      * rewrite app_nil_r. by constructor.
      * destruct ms as [|m ms]; [done|]. by constructor.
  - destruct Hr as [(-> & -> & _)|(_ & r0 & -> & Hr0 & Hne)]; [done|].
    destruct (IH _ Hr0 Hg) as (pre & lv0 & post & -> & Hv0 & Hspan & Hset).
    exists (w1 ++ quote :: k0 ++ quote :: w2 ++ colon :: w3 ++ lv ++ w4 ++ comma :: pre), lv0, post. split_and!.
    + by repeat (rewrite -?app_assoc; cbn [app]).
    + done.
    + intros r i. repeat (rewrite -?app_assoc; cbn [app]).
      rewrite span_ws // span_shallow_string // span_plain // span_ws // (span_shallow key v0) //; [|by auto].
      rewrite span_plain //. specialize (Hspan r (i + length w1 + length k0 + 2 + length w2 + 1 + length w3 + length lv + length w4 + 1)%nat).
      repeat (rewrite -?app_assoc in Hspan; cbn [app] in Hspan).
      replace (S (S (i + length w1 + length k0 + 2 + length w2) + length w3 + length lv + length w4))
        with (i + length w1 + length k0 + 2 + length w2 + 1 + length w3 + length lv + length w4 + 1)%nat by lia.
      rewrite Hspan. f_equal. f_equal; len.
    + intros v' lv' Hv'. specialize (Hset v' lv' Hv'). repeat (rewrite -?app_assoc; cbn [app]).
      destruct ms as [|[k1 v1] ms]; [done|]. cbn in Hset |- *. case_bool_decide; by constructor.
Qed.

(** ** The ends of a text *)
Lemma skip_ws_fst l i j : (skip_ws l i).1 = (skip_ws l j).1.
Proof. revert i j. induction l as [|c l IH]; intros i j; cbn; [done|]. by destruct (is_ws c). Qed.

Lemma forallb_reverse {A} (f : A → bool) l : forallb f (reverse l) = forallb f l.
Proof.
  induction l as [|x l IH]; [done|]. rewrite reverse_cons forallb_app IH /= andb_true_r. apply andb_comm.
Qed.

Lemma trim_end_ok l c w : all_ws w = true → is_ws c = false → trim_end (l ++ c :: w) = l ++ [c].
Proof.
  intros Hw Hc. unfold trim_end. rewrite reverse_app reverse_cons -app_assoc skip_ws_ws ?skip_ws_stop //.
  - cbn [fst app]. by rewrite reverse_cons reverse_involutive.
  - unfold all_ws. by rewrite forallb_reverse.
Qed.

Lemma root_end_ok l w : all_ws w = true → find_root_object_end (l ++ rbrace :: w) = Some (length l).
Proof.
  intros Hw. unfold find_root_object_end. rewrite trim_end_ok // last_snoc Ascii.eqb_refl. len.
Qed.

Lemma root_span_ok key w1 r :
  all_ws w1 = true → find_root_key_value_span (w1 ++ lbrace :: r) key = span key r (S (length w1)) 1.
Proof. intros H. unfold find_root_key_value_span. rewrite skip_ws_ws // skip_ws_stop. Qed.

Lemma span_outside key w i : all_ws w = true → span key w i 0 = None.
Proof. intros H. rewrite -(app_nil_r w) span_ws //. Qed.

Lemma value_last v l : value_text v l → ∃ l0 c, l = l0 ++ [c] ∧ is_ws c = false ∧ Ascii.eqb c lbrace = false.
Proof.
  intros Hv. inversion Hv as [t Ht|b Hb|items l' Hi|ms l' Hm]; subst.
  - unfold prim_ok in Ht. apply andb_true_iff in Ht as [Hne Ht]. destruct l as [|x l _] using rev_ind; [done|].
    exists l, x. split; [done|]. rewrite forallb_app in Ht. apply andb_true_iff in Ht as [_ Ht]. cbn in Ht.
    rewrite andb_true_r in Ht. apply andb_true_iff in Ht as [Hp%plain_not He]. unfold ends_primitive in He.
    apply negb_true_iff, orb_false_iff in He as [_ ?]. by destruct Hp as (_ & ? & _).
  - by exists (quote :: b), quote.
  - by exists (lbracket :: l'), rbracket.
  - by exists (lbrace :: l'), rbrace.
Qed.

Lemma members_last ms l :
  members_text ms l → ms ≠ [] → ∃ l0 c w, l = l0 ++ c :: w ∧ all_ws w = true ∧ is_ws c = false ∧ Ascii.eqb c lbrace = false.
Proof.
  revert l. induction ms as [|m ms IH]; intros l H Hne; [done|].
  destruct (members_cons _ _ H Hne) as (k & v & ms' & w1 & w2 & w3 & lv & w4 & c & rest & [= -> <-] & -> & Hw1 & Hk & Hw2 & Hw3 & Hv & Hw4 & Hr).
  destruct Hr as [(-> & -> & _)|(_ & r' & -> & Hr & Hne')].
  - destruct (value_last v lv Hv) as (l0 & x & -> & Hx & Hx').
    exists (w1 ++ quote :: k ++ quote :: w2 ++ colon :: w3 ++ l0), x, w4. split_and!; try done.
    rewrite app_nil_r. by repeat (rewrite -?app_assoc; cbn [app]).
  - destruct (IH _ Hr Hne') as (l0 & x & w & -> & Hw & Hx & Hx').
    exists (w1 ++ quote :: k ++ quote :: w2 ++ colon :: w3 ++ lv ++ w4 ++ comma :: l0), x, w. split_and!; try done.
    by repeat (rewrite -?app_assoc; cbn [app]).
Qed.

Lemma members_snoc ms l k v lv :
  members_text ms l → body_ok k false = true → value_text v lv →
  members_text (ms ++ [(k, v)]) (l ++ (if decide (ms = []) then [] else [comma]) ++ quote :: k ++ quote :: colon :: lv).
Proof.
  intros H Hk Hv. revert l H. induction ms as [|m ms IH]; intros l H.
  - inversion H; subst. cbn [app]. pose proof (last_member l k [] [] v lv [] H0 Hk eq_refl eq_refl Hv eq_refl) as Hm.
    by rewrite app_nil_r in Hm.
  - destruct (decide (m :: ms = [])) as [Ed|_]; [discriminate Ed|].
    destruct (members_cons _ _ H) as (k0 & v0 & ms' & w1 & w2 & w3 & lv0 & w4 & c & rest & [= -> <-] & -> & Hw1 & Hk0 & Hw2 & Hw3 & Hv0 & Hw4 & Hr); [done|].
    repeat (rewrite -?app_assoc; cbn [app]).
    destruct Hr as [(-> & -> & _)|(_ & r' & -> & Hr & Hne)].
    + cbn [app]. constructor; try done.
      pose proof (last_member [] k [] [] v lv [] eq_refl Hk eq_refl eq_refl Hv eq_refl) as Hm. by rewrite app_nil_r in Hm.
    + specialize (IH _ Hr). destruct (decide (ms = [])) as [Ed|_]; [done|]. destruct ms as [|m ms]; [done|]. cbn [app] in IH |- *.
      by constructor.
Qed.

Lemma members_front ms l k v lv :
  members_text ms l → body_ok k false = true → value_text v lv →
  members_text ((k, v) :: ms) (quote :: k ++ quote :: colon :: lv ++ (if decide (ms = []) then [] else [comma]) ++ l).
Proof.
  intros H Hk Hv. case_decide as E.
  - subst. inversion H; subst. by apply (last_member [] k [] [] v lv l).
  - destruct ms as [|m ms]; [done|]. by apply (more_members [] k [] [] v lv [] m ms l).
Qed.

Lemma members_blank ms l : members_text ms l → all_ws l = bool_decide (ms = []).
Proof.
  intros H. case_bool_decide as E; [subst; by inversion H|].
  destruct (members_cons _ _ H E) as (k & v & ms' & w1 & w2 & w3 & lv & w4 & c & rest & -> & -> & Hw1 & _).
  unfold all_ws. by rewrite forallb_app /= andb_false_r.
Qed.

(** ** The edit *)
Definition so_key : list ascii := text "stream_options".
Definition iu_key : list ascii := text "include_usage".
Definition RTrue : Raw := RPrim (text "true").

Definition with_usage (so : list (list ascii * Raw)) : list (list ascii * Raw) :=
  match raw_get iu_key so with
  | Some _ => raw_set iu_key RTrue so
  | None => (iu_key, RTrue) :: so
  end.

Definition usage_members (ms : list (list ascii * Raw)) : list (list ascii * Raw) :=
  match raw_get so_key ms with
  | Some (RObj so) => raw_set so_key (RObj (with_usage so)) ms
  | _ => ms ++ [(so_key, RObj [(iu_key, RTrue)])]
  end.

Lemma true_text : value_text RTrue (text "true").
Proof. by constructor. Qed.

Lemma usage_object_text : value_text (RObj [(iu_key, RTrue)]) (lbrace :: include_usage_true ++ [rbrace]).
Proof.
  constructor. pose proof (members_front [] [] iu_key RTrue (text "true") (no_members [] eq_refl) eq_refl true_text) as H.
  by rewrite !app_nil_r in H.
Qed.

(** Inside [stream_options]. *)
Lemma inject_ok so l :
  members_text so l → raw_get iu_key so = None →
  ∃ l', inject_include_usage_into_object (lbrace :: l ++ [rbrace]) = inl (lbrace :: l' ++ [rbrace])
    ∧ members_text ((iu_key, RTrue) :: so) l'.
Proof.
  intros H Hg. unfold inject_include_usage_into_object. rewrite skip_ws_stop // Ascii.eqb_refl. cbn [negb].
  change (lbrace :: l ++ [rbrace]) with ((lbrace :: l) ++ rbrace :: []). rewrite trim_end_ok // last_snoc Ascii.eqb_refl.
  cbn [negb]. rewrite length_app. cbn [length app Nat.add take drop].
  rewrite (_ : S (length l + 1) - 1 = S (length l))%nat; [|lia]. cbn [take drop]. rewrite drop_0 !take_0 drop_0 take_app_length.
  rewrite -/(all_ws l) (members_blank so) //. eexists. split.
  - cbn [app]. rewrite app_assoc. reflexivity.
  - pose proof (members_front so l iu_key RTrue (text "true") H eq_refl true_text) as Hm.
    case_bool_decide as E; case_decide; done.
Qed.

Definition counts_usage (parsed : option OpenAiHeader) : Prop :=
  ri_stream (parse_request_info parsed) = true ∧ ri_include_usage (parse_request_info parsed) ≠ Some true.

Lemma take_mid {A} (a b c : list A) : take (length a) (a ++ b ++ c) = a.
Proof. by rewrite take_app_length. Qed.
Lemma drop_mid {A} (a b c : list A) : drop (length a + length b) (a ++ b ++ c) = c.
Proof. by rewrite app_assoc -length_app drop_app_length. Qed.
Lemma slice_mid (a b c : list ascii) : slice (length a) (length a + length b) (a ++ b ++ c) = b.
Proof. unfold slice. by rewrite app_assoc -length_app take_app_length drop_app_length. Qed.

(** Asking for usage edits the text of a streamed request exactly as meant: when
    [stream_options] is absent or an object, the new text is again an object whose
    members are those of the request, in their order and as they were written, but for
    [stream_options.include_usage], which is [true]. *)
Theorem ensure_include_usage_exact parsed w1 ms l w2 :
  counts_usage parsed → all_ws w1 = true → all_ws w2 = true → members_text ms l →
  match raw_get so_key ms with Some (RObj _) | None => True | _ => False end →
  ∃ l', ensure_include_usage parsed (w1 ++ lbrace :: l ++ rbrace :: w2) = inl (w1 ++ lbrace :: l' ++ rbrace :: w2)
    ∧ members_text (usage_members ms) l'.
Proof.
  intros [Hs Hu] Hw1 Hw2 Hm Hso. unfold ensure_include_usage, usage_members. rewrite Hs bool_decide_false //. cbn [negb].
  assert (w1 ++ lbrace :: l ++ rbrace :: w2 = (w1 ++ lbrace :: l) ++ rbrace :: w2) as Eb by by rewrite -app_assoc.
  rewrite {1}Eb root_end_ok // root_span_ok //. destruct (raw_get so_key ms) as [v|] eqn:Eg.
  - destruct v as [| | |so]; [done..|].
    destruct (members_hit so_key ms l _ Hm Eg) as (pre & lv & post & -> & Hv & Hspan & Hset).
    change (text "stream_options") with so_key. repeat (rewrite -?app_assoc; cbn [app]).
    specialize (Hspan w2 (S (length w1))). repeat (rewrite -?app_assoc in Hspan; cbn [app] in Hspan). rewrite Hspan.
    set (front := w1 ++ lbrace :: pre).
    replace (S (length w1) + length pre)%nat with (length front) by (unfold front; len).
    replace (w1 ++ lbrace :: pre ++ lv ++ post ++ rbrace :: w2) with (front ++ lv ++ (post ++ rbrace :: w2))
      by (unfold front; by repeat (rewrite -?app_assoc; cbn [app])).
    rewrite slice_mid take_mid drop_mid. inversion Hv as [| | |so' lo Ho]; subst. unfold with_usage.
    change (text "include_usage") with iu_key. unfold find_object_key_value_span.
    rewrite (root_span_ok iu_key [] _ eq_refl). cbn [length].
    destruct (raw_get iu_key so) as [old|] eqn:Ei.
    + destruct (members_hit iu_key so lo _ Ho Ei) as (pre2 & lv2 & post2 & -> & Hv2 & Hspan2 & Hset2).
      rewrite Hspan2. eexists. split; [|apply Hset; constructor; apply Hset2, true_text].
      f_equal. set (front2 := front ++ lbrace :: pre2).
      replace (front ++ (lbrace :: (pre2 ++ lv2 ++ post2) ++ [rbrace]) ++ post ++ rbrace :: w2)
        with (front2 ++ lv2 ++ (post2 ++ rbrace :: post ++ rbrace :: w2))
        by (unfold front2; by repeat (rewrite -?app_assoc; cbn [app])).
      replace (length front + (1 + length pre2))%nat with (length front2) by (unfold front2; len).
      replace (length front + (1 + length pre2 + length lv2))%nat with (length front2 + length lv2)%nat by (unfold front2; len).
      rewrite take_mid drop_mid. unfold front2, front. by repeat (rewrite -?app_assoc; cbn [app]).
    + rewrite (members_miss _ _ _ _ _ Ho Ei) span_outside //. destruct (inject_ok so lo Ho Ei) as (l' & -> & Hl').
      eexists. split; [|apply Hset; constructor; exact Hl'].
      unfold front. f_equal. by repeat (rewrite -?app_assoc; cbn [app]).
  - change (text "stream_options") with so_key. rewrite (members_miss _ _ _ _ _ Hm Eg) span_outside //.
    rewrite Eb take_app_length drop_app_length. cbn [app].
    pose proof (members_snoc ms l so_key _ _ Hm eq_refl usage_object_text) as Hsn.
    assert (match last (trim_end (w1 ++ lbrace :: l)) with Some c => negb (Ascii.eqb c lbrace) | None => false end
            = negb (bool_decide (ms = []))) as ->.
    { case_bool_decide as E.
      - subst ms. inversion Hm; subst. by rewrite trim_end_ok // last_snoc.
      - destruct (members_last ms l Hm E) as (l0 & c & w & -> & Hw & Hc & Hcb).
        rewrite (_ : w1 ++ lbrace :: l0 ++ c :: w = (w1 ++ lbrace :: l0) ++ c :: w); [|by rewrite -app_assoc].
        by rewrite trim_end_ok // last_snoc Hcb. }
    eexists. split; [|exact Hsn].
    f_equal. repeat (rewrite -?app_assoc; cbn [app]). do 3 f_equal. case_bool_decide; case_decide; done.
Qed.

(** A request whose [stream_options] is not an object, [null] included, is refused
    by the edit: its text stays as it is and its usage is not asked for. *)
Theorem null_stream_options_refused parsed w1 ms l w2 v :
  counts_usage parsed → all_ws w1 = true → all_ws w2 = true → members_text ms l →
  raw_get so_key ms = Some v → (∀ so, v ≠ RObj so) →
  ensure_include_usage parsed (w1 ++ lbrace :: l ++ rbrace :: w2) = inr "stream_options is not an object"%string.
Proof.
  intros [Hs Hu] Hw1 Hw2 Hm Eg Hv. unfold ensure_include_usage. rewrite Hs bool_decide_false //. cbn [negb].
  assert (w1 ++ lbrace :: l ++ rbrace :: w2 = (w1 ++ lbrace :: l) ++ rbrace :: w2) as Eb by by rewrite -app_assoc.
  rewrite {1}Eb root_end_ok // root_span_ok //. change (text "stream_options") with so_key.
  destruct (members_hit so_key ms l _ Hm Eg) as (pre & lv & post & -> & Hlv & Hspan & _).
  specialize (Hspan w2 (S (length w1))). rewrite Hspan.
  set (front := w1 ++ lbrace :: pre).
  replace (S (length w1) + length pre)%nat with (length front) by (unfold front; len).
  replace (w1 ++ lbrace :: (pre ++ lv ++ post) ++ rbrace :: w2) with (front ++ lv ++ (post ++ rbrace :: w2))
    by (unfold front; by repeat (rewrite -?app_assoc; cbn [app])).
  rewrite slice_mid. destruct (value_head v lv Hlv) as (h & t & -> & Hh).
  assert (Ascii.eqb h lbrace = false) as Hb.
  { inversion Hlv as [t' Ht|b Hb|items l' Hi|so l' Ho]; subst; [|done|done|by destruct (Hv so)].
    unfold prim_ok in Ht. cbn in Ht. apply andb_true_iff in Ht as [[Hp%plain_not _]%andb_true_iff _]. by destruct Hp as (_ & ? & _). }
  unfold find_object_key_value_span, find_root_key_value_span, inject_include_usage_into_object.
  by rewrite skip_ws_stop // Hb.
Qed.

(** A streamed chat completion with options of its own. *)
Definition wo_header : option OpenAiHeader := Some (MkHeader (Some "m"%string) (Some true) None).
Definition wo_members : list (list ascii * Raw) := [(text "stream", RPrim (text "true"))].
Definition wo_text : list ascii := quoted "stream" ++ [colon] ++ text "true".

Lemma wo_members_text : members_text wo_members wo_text.
Proof.
  pose proof (last_member [] (text "stream") [] [] (RPrim (text "true")) (text "true") []
    eq_refl eq_refl eq_refl eq_refl true_text eq_refl) as H. by rewrite app_nil_r in H.
Qed.

Lemma wo_counts : counts_usage wo_header.
Proof. split; [reflexivity|discriminate]. Qed.

Lemma ensure_include_usage_exact_witness :
  ∃ l', ensure_include_usage wo_header (lbrace :: wo_text ++ [rbrace]) = inl (lbrace :: l' ++ [rbrace])
    ∧ members_text (usage_members wo_members) l'.
Proof. exact (ensure_include_usage_exact wo_header [] wo_members wo_text [] wo_counts eq_refl eq_refl wo_members_text I). Defined.

Example usage_is_appended :
  ensure_include_usage wo_header (lbrace :: wo_text ++ [rbrace])
  = inl (lbrace :: wo_text ++ [comma] ++ stream_options_usage ++ [rbrace]).
Proof. by vm_compute. Qed.

Definition wo_null : list (list ascii * Raw) := [(so_key, RPrim (text "null"))].

Lemma null_stream_options_refused_witness :
  ensure_include_usage wo_header (lbrace :: (quoted "stream_options" ++ [colon] ++ text "null") ++ [rbrace])
  = inr "stream_options is not an object"%string.
Proof.
  apply (null_stream_options_refused wo_header [] wo_null _ [] (RPrim (text "null")) wo_counts eq_refl eq_refl); [|reflexivity|discriminate].
  pose proof (last_member [] so_key [] [] (RPrim (text "null")) (text "null") []
    eq_refl eq_refl eq_refl eq_refl (prim_text (text "null") eq_refl) eq_refl) as H. by rewrite app_nil_r in H.
Defined.
