(* ===== verification/Headers.v ===== *)
(** * Headers: what is sent upstream and what comes back

    Models the header handling of [proxy.rs] and of [codex_oauth.rs]: the headers
    copied from a client's request, the credentials put in their place, the
    hop-by-hop headers taken out of an answer. A [HeaderMap] of the [http] package is
    a map from lower-case names to their values in order; reading and writing a
    header's text ([HeaderValue], [HeaderName]) are parameters. *)
From Stdlib Require Import Ascii String.
From S2P Require Import Prelude Float64 Text Json Types.

Local Open Scope string_scope.
Local Open Scope list_scope.

Notation HeaderMap := (gmap string (list string)).

Definition hget (name : string) (h : HeaderMap) : option string := h !! name ≫= head.
Definition hget_all (name : string) (h : HeaderMap) : list string := default [] (h !! name).
Definition hinsert (name value : string) (h : HeaderMap) : HeaderMap := <[name := [value]]> h.
Definition hremove (name : string) (h : HeaderMap) : HeaderMap := delete name h.
Definition hcontains (name : string) (h : HeaderMap) : bool := is_some (h !! name).

Definition hremove_all (names : list string) (h : HeaderMap) : HeaderMap := foldl (λ h name, hremove name h) h names.

Definition copy_allowed_upstream_header (from to : HeaderMap) (name : string) : HeaderMap :=
  match hget name from with Some value => hinsert name value to | None => to end.

Definition copy_allowed_upstream_headers (names : list string) (from to : HeaderMap) : HeaderMap :=
  foldl (copy_allowed_upstream_header from) to names.

(** Every value of every header with the prefix is appended. *)
Definition copy_allowed_upstream_headers_by_prefix (from to : HeaderMap) (prefix : string) : HeaderMap :=
  union_with (λ a b, Some (a ++ b)) to (filter (λ '(name, _), starts_with prefix name = true) from).

Definition codex_client_names : list string :=
  ["x-client-request-id"; "session-id"; "thread-id"; "originator"; "version";
   "x-openai-internal-codex-responses-lite"; "x-openai-subagent"; "x-openai-memgen-request";
   "x-openai-internal-codex-residency"; "x-oai-attestation"; "x-responsesapi-include-timing-metrics"].

Definition copy_codex_client_headers (from to : HeaderMap) : HeaderMap :=
  let to := copy_allowed_upstream_headers codex_client_names from to in
  let to := copy_allowed_upstream_headers_by_prefix from to "x-codex-" in
  copy_allowed_upstream_header from to "user-agent".

Definition forwarded_names : list string :=
  ["content-type"; "accept"; "openai-beta"; "openai-organization"; "openai-project"; "idempotency-key"].

Definition hop_names : list string :=
  ["connection"; "keep-alive"; "transfer-encoding"; "upgrade"; "te"; "trailer"; "proxy-authenticate";
   "proxy-authorization"; "host"].

Definition CODEX_USER_AGENT : string := "codex_cli_rs/0.144.1 (Linux; x86_64) little-gate/0.1".
Definition CODEX_ORIGINATOR : string := "codex_cli_rs".

Section Headers.
(** [HeaderValue::from_str(s).is_ok()], [HeaderValue::to_str] and
    [HeaderName::from_bytes(s).ok()]. *)
Context (header_value : string → bool) (to_str : string → option string) (header_name : string → option string).

Definition insert_if_value (name value : string) (h : HeaderMap) : HeaderMap :=
  if header_value value then hinsert name value h else h.

Definition build_upstream_headers (request_headers : HeaderMap) (body_len : Z) (upstream_secret : string) : HeaderMap :=
  let headers := copy_allowed_upstream_headers forwarded_names request_headers ∅ in
  let headers := copy_codex_client_headers request_headers headers in
  let headers := insert_if_value "content-length" (show_Z body_len) headers in
  insert_if_value "authorization" ("Bearer " +:+ upstream_secret) headers.

(** The names the [Connection] headers list. *)
Definition connection_names (h : HeaderMap) : list string :=
  omap (λ name, header_name (trim name)) (concat (map (split ","%char) (omap to_str (hget_all "connection" h)))).

Definition sanitize_hop_headers (h : HeaderMap) : HeaderMap :=
  hremove_all hop_names (hremove_all (connection_names h) h).

Record PreparedCodexAuth := MkCodexAuth { ca_access_token : string; ca_account_id : string }.

(** The client version in a real Codex user agent. *)
Definition codex_version (user_agent : string) : option string :=
  match head (split_ascii_whitespace user_agent) with
  | Some product =>
      match split_once "/"%char product with
      | Some (client, version) =>
          if existsb (String.eqb client) ["codex-tui"; "codex_cli_rs"; "codex_vscode"] && negb (String.eqb version "")
          then if header_value version then Some version else None
          else None
      | None => None
      end
  | None => None
  end.

Definition apply_codex_headers (headers : HeaderMap) (auth : PreparedCodexAuth) : HeaderMap :=
  let headers := insert_if_value "authorization" ("Bearer " +:+ ca_access_token auth) headers in
  let headers := insert_if_value "chatgpt-account-id" (ca_account_id auth) headers in
  let headers := if hcontains "user-agent" headers then headers else hinsert "user-agent" CODEX_USER_AGENT headers in
  let headers := if hcontains "originator" headers then headers else hinsert "originator" CODEX_ORIGINATOR headers in
  if hcontains "version" headers then headers
  else match opt_bind (opt_bind (hget "user-agent" headers) to_str) codex_version with
       | Some version => hinsert "version" version headers
       | None => headers
       end.
End Headers.

(** ** Copying *)
Lemma copy_list_lookup names from to n :
  copy_allowed_upstream_headers names from to !! n =
    if bool_decide (n ∈ names) && is_some (hget n from) then option_map (λ v, [v]) (hget n from) else to !! n.
Proof.
  revert to. induction names as [|m names IH]; intros to; [done|].
  unfold copy_allowed_upstream_headers in *. cbn [foldl]. rewrite IH.
  assert (copy_allowed_upstream_header from to m !! n
    = if bool_decide (n = m) && is_some (hget n from) then option_map (λ v, [v]) (hget n from) else to !! n) as Hm.
  { clear IH. unfold copy_allowed_upstream_header, hinsert. case_bool_decide as E; cbn [andb].
    - rewrite -E. destruct (hget n from) as [v|]; [|done]. by rewrite lookup_insert_eq.
    - destruct (hget m from) as [v|]; [|done]. by rewrite lookup_insert_ne. }
  rewrite Hm. destruct (hget n from) as [v|]; cbn; [|by rewrite !andb_false_r].
  rewrite !andb_true_r. repeat case_bool_decide; set_solver.
Qed.

Lemma prefix_lookup from to prefix n :
  copy_allowed_upstream_headers_by_prefix from to prefix !! n =
    if starts_with prefix n then match to !! n, from !! n with
                                 | Some a, Some b => Some (a ++ b) | Some a, None => Some a | None, b => b end
    else to !! n.
Proof.
  unfold copy_allowed_upstream_headers_by_prefix. rewrite lookup_union_with map_lookup_filter.
  destruct (from !! n) as [b|] eqn:Eb; cbn.
  - case_guard as E; cbn in E |- *.
    + rewrite E. by destruct (to !! n).
    + apply not_true_iff_false in E. rewrite E. by destruct (to !! n).
  - by destruct (starts_with prefix n); destruct (to !! n).
Qed.

Lemma insert_if_lookup ok name value h n :
  insert_if_value ok name value h !! n = if bool_decide (n = name) && ok value then Some [value] else h !! n.
Proof.
  unfold insert_if_value, hinsert. case_bool_decide as E; cbn [andb].
  - subst. destruct (ok value); [by rewrite lookup_insert_eq|done].
  - destruct (ok value); [by rewrite lookup_insert_ne|done].
Qed.

(** The names whose first value is forwarded. *)
Definition single_names : list string := forwarded_names ++ codex_client_names ++ ["user-agent"].

Lemma single_names_plain n : n ∈ single_names → starts_with "x-codex-" n = false ∧ n ≠ "authorization" ∧ n ≠ "content-length".
Proof.
  intros H. assert (forallb (λ n, negb (starts_with "x-codex-" n) && negb (String.eqb n "authorization")
    && negb (String.eqb n "content-length")) single_names = true) as Hall by by vm_compute.
  rewrite forallb_forall in Hall. apply list_elem_of_In, Hall in H.
  apply andb_true_iff in H as [[H1%negb_true_iff H2%negb_true_iff]%andb_true_iff H3%negb_true_iff].
  by apply String.eqb_neq in H2, H3.
Qed.

(** Upstream sees exactly what it is meant to: the first value of each header of
    the allow list, the [x-codex-] headers whole, the length of the body sent and the
    secret of the chosen key. Nothing else of the client passes, its own
    [authorization], cookies and API keys least of all. *)
Theorem upstream_headers_exact header_value req len secret n :
  build_upstream_headers header_value req len secret !! n =
    let bearer := "Bearer " +:+ secret in
    if bool_decide (n = "authorization") then if header_value bearer then Some [bearer] else None
    else if bool_decide (n = "content-length") then if header_value (show_Z len) then Some [show_Z len] else None
    else if bool_decide (n ∈ single_names) then option_map (λ v, [v]) (hget n req)
    else if starts_with "x-codex-" n then req !! n
    else None.
Proof.
  cbv zeta. unfold build_upstream_headers, copy_codex_client_headers. rewrite !insert_if_lookup.
  set (h0 := copy_allowed_upstream_headers forwarded_names req ∅).
  set (h1 := copy_allowed_upstream_headers codex_client_names req h0).
  set (h2 := copy_allowed_upstream_headers_by_prefix req h1 "x-codex-").
  assert (copy_allowed_upstream_header req h2 "user-agent" = copy_allowed_upstream_headers ["user-agent"] req h2) as -> by done.
  rewrite copy_list_lookup. unfold h2. rewrite prefix_lookup. unfold h1. rewrite copy_list_lookup. unfold h0. rewrite copy_list_lookup.
  rewrite lookup_empty.
  destruct (decide (n ∈ single_names)) as [Hs|Hs].
  - destruct (single_names_plain n Hs) as (-> & Ha & Hc). rewrite !(bool_decide_false (n = _)) //. cbn [andb].
    rewrite (bool_decide_true (n ∈ single_names)) //. unfold single_names in Hs.
    destruct (hget n req) as [v|]; cbn [is_some option_map]; rewrite ?andb_false_r // !andb_true_r.
    rewrite !elem_of_app in Hs. repeat case_bool_decide; try done. exfalso; tauto.
  - rewrite (bool_decide_false (n ∈ single_names)) //. unfold single_names in Hs.
    rewrite !elem_of_app in Hs. apply Decidable.not_or in Hs as [N1 [N2 N3]%Decidable.not_or].
    rewrite (bool_decide_false _ N1) (bool_decide_false _ N2) (bool_decide_false _ N3). cbn [andb].
    destruct (starts_with "x-codex-" n) eqn:E.
    + repeat case_bool_decide; subst; done.
    + repeat case_bool_decide; subst; cbn [andb]; try done; by destruct (header_value _).
Qed.

(** ** Hop-by-hop headers *)
Lemma hremove_all_lookup names h n :
  hremove_all names h !! n = if bool_decide (n ∈ names) then None else h !! n.
Proof.
  revert h. induction names as [|m names IH]; intros h; [done|]. unfold hremove_all in *. cbn [foldl]. rewrite IH.
  unfold hremove. case_bool_decide as E1.
  - rewrite bool_decide_true //. by apply list_elem_of_further.
  - destruct (decide (n = m)) as [->|Hne].
    + rewrite lookup_delete_eq bool_decide_true //. by left.
    + rewrite lookup_delete_ne // bool_decide_false //. set_solver.
Qed.

(** An answer loses the hop-by-hop headers, those its [Connection] header names
    included, and no other header. *)
Theorem hop_headers_exact to_str header_name h n :
  sanitize_hop_headers to_str header_name h !! n =
    if bool_decide (n ∈ hop_names) || bool_decide (n ∈ connection_names to_str header_name h) then None else h !! n.
Proof.
  unfold sanitize_hop_headers. rewrite !hremove_all_lookup. by repeat case_bool_decide.
Qed.

(** ** Codex credentials *)
Theorem codex_headers_exact header_value to_str h auth :
  let h' := apply_codex_headers header_value to_str h auth in
  let bearer := "Bearer " +:+ ca_access_token auth in
  h' !! "authorization" = (if header_value bearer then Some [bearer] else h !! "authorization")
  ∧ h' !! "chatgpt-account-id" = (if header_value (ca_account_id auth) then Some [ca_account_id auth] else h !! "chatgpt-account-id")
  ∧ (∀ n, n ∈ ["user-agent"; "originator"; "version"] → is_Some (h !! n) → h' !! n = h !! n)
  ∧ (∀ n, n ∉ ["authorization"; "chatgpt-account-id"; "user-agent"; "originator"; "version"] → h' !! n = h !! n)
  ∧ is_Some (h' !! "user-agent") ∧ is_Some (h' !! "originator").
Proof.
  cbv zeta. unfold apply_codex_headers.
  set (h2 := insert_if_value _ _ _ (insert_if_value _ _ _ h)).
  set (h3 := if hcontains "user-agent" h2 then h2 else _). set (h4 := if hcontains "originator" h3 then h3 else _).
  set (h5 := if hcontains "version" h4 then h4 else _).
  assert (∀ n, h5 !! n = h4 !! n ∨ (n = "version" ∧ h4 !! n = None)) as H5.
  { intros n. unfold h5, hcontains, hinsert. destruct (h4 !! "version") eqn:E; [by left|]. destruct (opt_bind _ _); [|by left].
    rewrite lookup_insert. case_decide; subst; auto. }
  assert (∀ n, h4 !! n = h3 !! n ∨ (n = "originator" ∧ h3 !! n = None ∧ is_Some (h4 !! n))) as H4.
  { intros n. unfold h4, hcontains, hinsert. destruct (h3 !! "originator") eqn:E; [by left|].
    rewrite lookup_insert. case_decide; subst; eauto. }
  assert (∀ n, h3 !! n = h2 !! n ∨ (n = "user-agent" ∧ h2 !! n = None ∧ is_Some (h3 !! n))) as H3.
  { intros n. unfold h3, hcontains, hinsert. destruct (h2 !! "user-agent") eqn:E; [by left|].
    rewrite lookup_insert. case_decide; subst; eauto. }
  assert (∀ n, n ∉ ["user-agent"; "originator"; "version"] → h5 !! n = h2 !! n) as Hn.
  { intros n Hne. destruct (H5 n) as [-> |[-> _]]; [|set_solver]. destruct (H4 n) as [-> |[-> _]]; [|set_solver].
    destruct (H3 n) as [-> |[-> _]]; [done|set_solver]. }
  assert (∀ n, n ∉ ["authorization"; "chatgpt-account-id"] → h2 !! n = h !! n) as H2.
  { intros n Hne. unfold h2. rewrite !insert_if_lookup !bool_decide_false //; set_solver. }
  split_and!.
  - rewrite Hn; [|set_solver]. unfold h2. rewrite insert_if_lookup bool_decide_false // insert_if_lookup bool_decide_true //.
  - rewrite Hn; [|set_solver]. unfold h2. rewrite insert_if_lookup bool_decide_true // insert_if_lookup bool_decide_false //.
  - intros n Hin Hs. assert (h2 !! n = h !! n) as E2 by (apply H2; set_solver). rewrite -E2 in Hs |- *.
    destruct Hs as [v Hv]. destruct (H3 n) as [E3|(_ & E & _)]; [|congruence].
    destruct (H4 n) as [E4|(_ & E & _)]; [|congruence]. destruct (H5 n) as [E5|(_ & E)]; congruence.
  - intros n Hne. rewrite Hn; [apply H2|]; set_solver.
  - assert (is_Some (h3 !! "user-agent")) as Hs.
    { unfold h3, hcontains, hinsert. destruct (h2 !! "user-agent") eqn:E; [by rewrite E|]. rewrite lookup_insert_eq. by eexists. }
    destruct (H5 "user-agent") as [-> |[? _]]; [|done]. destruct (H4 "user-agent") as [-> |[? _]]; done.
  - assert (is_Some (h4 !! "originator")) as Hs.
    { unfold h4, hcontains, hinsert. destruct (h3 !! "originator") eqn:E; [by rewrite E|]. rewrite lookup_insert_eq. by eexists. }
    destruct (H5 "originator") as [-> |[? _]]; done.
Qed.
