(* ===== verification/RequestOverrides.v ===== *)
(** * RequestOverrides: a provider's own headers and body fields

    Models [request_overrides.rs]: the rules a provider may set, the limits and the
    reserved names they are checked against when they are stored, and applying them
    to the headers and the body of a request. *)
From Stdlib Require Import Ascii String.
From S2P Require Import Prelude Float64 Text Json Types Headers.

Local Open Scope string_scope.
Local Open Scope list_scope.
Local Open Scope Z_scope.

Definition MAX_HEADER_OVERRIDES : Z := 64.
Definition MAX_BODY_OVERRIDES : Z := 128.
Definition MAX_CONFIG_BYTES : Z := 256 * 1024.
Definition MAX_HEADER_VALUE_BYTES : Z := 8 * 1024.
Definition MAX_BODY_PATH_BYTES : Z := 512.
Definition MAX_BODY_PATH_DEPTH : Z := 16.
Definition MAX_BODY_VALUE_BYTES : Z := 64 * 1024.
Definition REQUEST_ID_TEMPLATE : string := "{{request_id}}".

#[export] Instance RequestOverrideScope_eq_dec : EqDecision RequestOverrideScope.
Proof. solve_decision. Defined.
#[export] Instance RequestOverrideOperation_eq_dec : EqDecision RequestOverrideOperation.
Proof. solve_decision. Defined.

Inductive RequestOverrideTarget := TargetModels | TargetChatCompletions | TargetResponses.

#[export] Instance RequestOverrideTarget_eq_dec : EqDecision RequestOverrideTarget.
Proof. solve_decision. Defined.

Definition target_of_format (f : ApiFormat) : RequestOverrideTarget :=
  match f with ChatCompletions => TargetChatCompletions | Responses => TargetResponses end.

Definition scope_matches (scope : RequestOverrideScope) (target : RequestOverrideTarget) : bool :=
  match scope with
  | ScopeAll => true
  | ScopeChatCompletions => bool_decide (target = TargetChatCompletions)
  | ScopeResponses => bool_decide (target = TargetResponses)
  end.

Definition target_specific_scope (target : RequestOverrideTarget) : option RequestOverrideScope :=
  match target with
  | TargetModels => None
  | TargetChatCompletions => Some ScopeChatCompletions
  | TargetResponses => Some ScopeResponses
  end.

(** The scopes in the order they are applied. *)
Definition scopes_of (target : RequestOverrideTarget) : list RequestOverrideScope :=
  ScopeAll :: match target_specific_scope target with Some scope => [scope] | None => [] end.

(** What is refused; the messages name the rule. *)
Inductive OverrideError :=
  | NotEncodable | TooLarge | TooManyHeaders | TooManyBody
  | InvalidHeader (name : string) | ReservedHeader (name : string) | HeaderTooLong (name : string)
  | InvalidHeaderValue (name : string) | DuplicateHeader (name : string)
  | EmptyPath | PathTooLong | PathTooDeep | EmptySegment (path : string)
  | ReservedField (name : string) | BodyValueTooLong (path : string) | DuplicatePath (path : string)
  | BodyNotJson | BodyNotObject.

(** ** Reserved names *)
Definition reserved_headers : list string :=
  ["authorization"; "connection"; "content-length"; "host"; "proxy-authenticate"; "proxy-authorization"; "te";
   "trailer"; "transfer-encoding"; "upgrade"; "accept-encoding"; "content-encoding"; "expect"; "keep-alive";
   "proxy-connection"; "cookie"; "set-cookie"; "x-api-key"; "api-key"; "x-goog-api-key"; "chatgpt-account-id";
   "forwarded"; "via"; "x-real-ip"; "cf-connecting-ip"; "cf-ray"; "cdn-loop"; "true-client-ip";
   "x-http-method-override"; "x-http-method"; "x-method-override"; "x-original-host"; "x-original-url";
   "x-original-uri"; "x-rewrite-url"; "x-envoy-original-path"].

Definition is_reserved_header (name : string) : bool :=
  if starts_with "sec-websocket-" name || starts_with "x-forwarded-" name then true
  else existsb (eq_ignore_ascii_case name) reserved_headers.

Definition reserved_fields : list string := ["model"; "stream"; "type"].
Definition is_reserved_body_root (value : string) : bool := existsb (eq_ignore_ascii_case value) reserved_fields.

(** ** Paths *)
Definition body_path_segments (path : string) : list string + OverrideError :=
  let trimmed := trim path in
  if String.eqb trimmed "" then inr EmptyPath
  else if MAX_BODY_PATH_BYTES <? str_len trimmed then inr PathTooLong
  else
    let segments := map trim (split "."%char trimmed) in
    if MAX_BODY_PATH_DEPTH <? Z.of_nat (length segments) then inr PathTooDeep
    else if existsb (String.eqb "") segments then inr (EmptySegment trimmed)
    else inl segments.

(** [split_last] *)
Definition split_last {A} (l : list A) : option (A * list A) :=
  match last l with Some x => Some (x, take (length l - 1) l) | None => None end.

(** Missing or other values along the way become objects. *)
Fixpoint set_path (fields : list (string * Value)) (parents : list string) (last : string) (replacement : Value)
    : list (string * Value) :=
  match parents with
  | [] => assoc_insert last replacement fields
  | segment :: parents =>
      let inner := match assoc segment fields with Some (Object inner) => inner | _ => [] end in
      assoc_insert segment (Object (set_path inner parents last replacement)) fields
  end.

Definition set_body_path (value : Value) (segments : list string) (replacement : Value) : Value + OverrideError :=
  match split_last segments with
  | None => inr EmptyPath
  | Some (last, parents) =>
      match value with
      | Object fields => inl (Object (set_path fields parents last replacement))
      | _ => inr BodyNotObject
      end
  end.

Fixpoint remove_path (fields : list (string * Value)) (parents : list string) (last : string)
    : list (string * Value) :=
  match parents with
  | [] => assoc_remove last fields
  | segment :: parents =>
      match assoc segment fields with
      | Some (Object inner) => assoc_insert segment (Object (remove_path inner parents last)) fields
      | _ => fields
      end
  end.

Definition remove_body_path (value : Value) (segments : list string) : Value :=
  match split_last segments, value with
  | Some (last, parents), Object fields => Object (remove_path fields parents last)
  | _, _ => value
  end.

(** ** Templates; the context is the id of the request. *)
Definition expand_template (value request_id : string) : string := replace REQUEST_ID_TEMPLATE request_id value.

Fixpoint expand_value_templates (value : Value) (request_id : string) : Value :=
  match value with
  | String value => String (expand_template value request_id)
  | Array values => Array (map (λ value, expand_value_templates value request_id) values)
  | Object fields => Object (map (λ '(key, value), (key, expand_value_templates value request_id)) fields)
  | value => value
  end.

Section Overrides.
(** [HeaderName::from_bytes(s).ok()] and [HeaderValue::from_str(s).is_ok()]; the
    length of the JSON of the rules and of a value; the JSON reader and printer. *)
Context (header_name : string → option string) (header_value : string → bool).
Context (config_len : RequestOverrides → option Z) (value_len : Value → option Z).
Context (from_slice : string → option Value) (to_vec : Value → option string).

(** ** Checking *)
Definition check_header (seen : list (RequestOverrideScope * string)) (rule : RequestHeaderOverride)
    : list (RequestOverrideScope * string) + OverrideError :=
  match header_name (trim (ho_name rule)) with
  | None => inr (InvalidHeader (trim (ho_name rule)))
  | Some name =>
      if is_reserved_header name then inr (ReservedHeader name)
      else if MAX_HEADER_VALUE_BYTES <? str_len (ho_value rule) then inr (HeaderTooLong name)
      else if bool_decide (ho_operation rule = OverrideSet) && negb (header_value (ho_value rule))
      then inr (InvalidHeaderValue name)
      else
        let key := (ho_scope rule, to_ascii_lowercase name) in
        if bool_decide (key ∈ seen) then inr (DuplicateHeader name) else inl (key :: seen)
  end.

Definition check_body (seen : list (RequestOverrideScope * string)) (rule : RequestBodyOverride)
    : list (RequestOverrideScope * string) + OverrideError :=
  match body_path_segments (bo_path rule) with
  | inr e => inr e
  | inl segments =>
      let first := unwrap_or (head segments) "" in
      if is_reserved_body_root first then inr (ReservedField first)
      else
        let too_long := match value_len (bo_value rule) with
                        | None => Some NotEncodable
                        | Some n => if MAX_BODY_VALUE_BYTES <? n then Some (BodyValueTooLong (trim (bo_path rule))) else None
                        end in
        match (if bool_decide (bo_operation rule = OverrideSet) then too_long else None) with
        | Some e => inr e
        | None =>
            let path := String.concat "." segments in
            if bool_decide ((bo_scope rule, path) ∈ seen) then inr (DuplicatePath path)
            else inl ((bo_scope rule, path) :: seen)
        end
  end.

Fixpoint check_all {A S} (check : S → A → S + OverrideError) (seen : S) (rules : list A) : option OverrideError :=
  match rules with
  | [] => None
  | rule :: rules =>
      match check seen rule with
      | inl seen => check_all check seen rules
      | inr e => Some e
      end
  end.

Definition validate_request_overrides (overrides : RequestOverrides) : option OverrideError :=
  match config_len overrides with
  | None => Some NotEncodable
  | Some encoded =>
      if MAX_CONFIG_BYTES <? encoded then Some TooLarge
      else if MAX_HEADER_OVERRIDES <? Z.of_nat (length (ov_headers overrides)) then Some TooManyHeaders
      else if MAX_BODY_OVERRIDES <? Z.of_nat (length (ov_body overrides)) then Some TooManyBody
      else match check_all check_header [] (ov_headers overrides) with
           | Some e => Some e
           | None => check_all check_body [] (ov_body overrides)
           end
  end.

(** Stored rules that do not read or do not pass the check are none at all. *)
Definition from_storage (parsed : option RequestOverrides) : RequestOverrides :=
  match opt_filter (λ o, is_none (validate_request_overrides o)) parsed with
  | Some o => o
  | None => MkOverrides [] []
  end.

(** ** Applying *)
Definition apply_body_rule (value : Value + OverrideError) (request_id : string) (rule : RequestBodyOverride)
    : Value + OverrideError :=
  match value with
  | inr e => inr e
  | inl value =>
      match body_path_segments (bo_path rule) with
      | inr e => inr e
      | inl segments =>
          match bo_operation rule with
          | OverrideSet => set_body_path value segments (expand_value_templates (bo_value rule) request_id)
          | OverrideRemove => inl (remove_body_path value segments)
          end
      end
  end.

Definition body_rules (overrides : RequestOverrides) (target : RequestOverrideTarget) : list RequestBodyOverride :=
  concat (map (λ scope, List.filter (λ rule, bool_decide (bo_scope rule = scope)) (ov_body overrides)) (scopes_of target)).

Definition apply_body_overrides_to_value (overrides : RequestOverrides) (target : RequestOverrideTarget) (value : Value)
    (request_id : string) : Value + OverrideError :=
  foldl (λ v rule, apply_body_rule v request_id rule) (inl value) (body_rules overrides target).

Definition apply_body_overrides (overrides : RequestOverrides) (target : RequestOverrideTarget) (body request_id : string)
    : string + OverrideError :=
  if negb (existsb (λ rule, scope_matches (bo_scope rule) target) (ov_body overrides)) then inl body
  else match from_slice body with
       | None => inr BodyNotJson
       | Some value =>
           match apply_body_overrides_to_value overrides target value request_id with
           | inr e => inr e
           | inl value => match to_vec value with Some body => inl body | None => inr NotEncodable end
           end
       end.

Definition apply_header_rule (headers : HeaderMap + OverrideError) (request_id : string) (rule : RequestHeaderOverride)
    : HeaderMap + OverrideError :=
  match headers with
  | inr e => inr e
  | inl headers =>
      match header_name (trim (ho_name rule)) with
      | None => inr (InvalidHeader (trim (ho_name rule)))
      | Some name =>
          match ho_operation rule with
          | OverrideSet =>
              let expanded := expand_template (ho_value rule) request_id in
              if header_value expanded then inl (hinsert name expanded headers) else inr (InvalidHeaderValue name)
          | OverrideRemove => inl (hremove name headers)
          end
      end
  end.

Definition header_rules (overrides : RequestOverrides) (target : RequestOverrideTarget) : list RequestHeaderOverride :=
  concat (map (λ scope, List.filter (λ rule, bool_decide (ho_scope rule = scope)) (ov_headers overrides)) (scopes_of target)).

Definition apply_header_overrides (overrides : RequestOverrides) (target : RequestOverrideTarget) (headers : HeaderMap)
    (request_id : string) : HeaderMap + OverrideError :=
  foldl (λ h rule, apply_header_rule h request_id rule) (inl headers) (header_rules overrides target).
End Overrides.

Example expand_example : expand_template "id={{request_id}}!" "01J" = "id=01J!".
Proof. by vm_compute. Qed.

Example set_path_example :
  set_body_path (Object [("a", Number "1")]) ["a"; "b"] (Bool true) = inl (Object [("a", Object [("b", Bool true)])]).
Proof. by vm_compute. Qed.

(** ** Paths written and read *)
Lemma set_path_first fields parents last v k :
  k ≠ unwrap_or (head (parents ++ [last])) "" → assoc k (set_path fields parents last v) = assoc k fields.
Proof. destruct parents as [|s parents]; cbn; intros H; by apply assoc_insert_ne. Qed.

Lemma remove_path_first fields parents last k :
  k ≠ unwrap_or (head (parents ++ [last])) "" → assoc k (remove_path fields parents last) = assoc k fields.
Proof.
  destruct parents as [|s parents]; cbn; intros H; [by apply assoc_remove_ne|].
  destruct (assoc s fields) as [[]|]; try done. by apply assoc_insert_ne.
Qed.

Lemma split_last_app {A} (l : list A) x parents : split_last l = Some (x, parents) → l = parents ++ [x].
Proof.
  unfold split_last. destruct l as [|y l _] using rev_ind; [done|]. rewrite last_snoc length_app /= Nat.add_sub take_app_length.
  by intros [= -> ->].
Qed.

(** The value set is the one read at its path. *)
Lemma set_path_get fields parents last v : pointer (parents ++ [last]) (Object (set_path fields parents last v)) = Some v.
Proof.
  revert fields. induction parents as [|s parents IH]; intros fields; cbn; [by rewrite assoc_insert_eq|].
  rewrite assoc_insert_eq. apply IH.
Qed.

(** A path that leaves the one set is read as before. *)
Lemma set_path_other fields parents last v common s1 s2 rest rest' :
  parents ++ [last] = common ++ s1 :: rest → s1 ≠ s2 →
  (∃ inner, pointer common (Object fields) = Some (Object inner)) →
  pointer (common ++ s2 :: rest') (Object (set_path fields parents last v)) = pointer (common ++ s2 :: rest') (Object fields).
Proof.
  intros Hp Hne. revert fields parents Hp. induction common as [|c common IH]; intros fields parents Hp [inner Hin]; cbn in *.
  - destruct parents as [|p parents]; cbn in *; injection Hp as -> _; by rewrite assoc_insert_ne.
  - destruct (assoc c fields) as [[| | | | |f]|] eqn:Ec; try (by destruct common).
    destruct parents as [|p parents]; cbn in Hp; injection Hp as -> Hp.
    + destruct common; discriminate Hp.
    + cbn [set_path]. rewrite Ec assoc_insert_eq. apply IH; eauto.
Qed.

Section Facts.
Context (header_name : string → option string) (header_value : string → bool).
Context (config_len : RequestOverrides → option Z) (value_len : Value → option Z).

Notation validate := (validate_request_overrides header_name header_value config_len value_len).

Lemma check_all_ok {A S} (check : S → A → S + OverrideError) seen rules rule :
  check_all check seen rules = None → rule ∈ rules → ∃ s s', check s rule = inl s'.
Proof.
  revert seen. induction rules as [|r rules IH]; intros seen H Hin; [by apply not_elem_of_nil in Hin|].
  cbn in H. destruct (check seen r) as [s'|e] eqn:E; [|done].
  apply elem_of_cons in Hin as [-> |Hin]; eauto.
Qed.

Lemma validate_parts ov :
  validate ov = None →
  (∀ rule, rule ∈ ov_headers ov → ∃ s s', check_header header_name header_value s rule = inl s')
  ∧ (∀ rule, rule ∈ ov_body ov → ∃ s s', check_body value_len s rule = inl s').
Proof.
  unfold validate_request_overrides. destruct (config_len ov); [|done]. repeat case_match; try done.
  intros Hb. split; intros rule Hin; by eapply check_all_ok.
Qed.

Lemma rules_of_scopes {A} (f : A → RequestOverrideScope) scopes (l : list A) x :
  x ∈ concat (map (λ scope, List.filter (λ rule, bool_decide (f rule = scope)) l) scopes) → x ∈ l.
Proof.
  intros H. apply list_elem_of_In, in_concat in H as (y & Hy & Hx). apply in_map_iff in Hy as (s & <- & _).
  apply filter_In in Hx as [Hx _]. by apply list_elem_of_In.
Qed.

(** Folding rules over a value that may fail. *)
Lemma fold_rules {A V} (step : V + OverrideError → A → V + OverrideError) (P : V → V → Prop) rules x y :
  (∀ e r, step (inr e) r = inr e) → (∀ v, P v v) → (∀ a b c, P a b → P b c → P a c) →
  (∀ a b r, r ∈ rules → step (inl a) r = inl b → P a b) →
  foldl step (inl x) rules = inl y → P x y.
Proof.
  intros He Hrefl Htrans. revert x. induction rules as [|r rules IH]; intros x Hstep; cbn; [intros [= ->]; apply Hrefl|].
  destruct (step (inl x) r) as [x'|e] eqn:E.
  - intros H. apply (Htrans x x'); [eapply Hstep; [by left|exact E]|]. apply IH; [|done]. intros. eapply Hstep; [by right|done].
  - intros H. exfalso. clear -H He. induction rules as [|r' rules IH]; cbn in H; [done|]. rewrite He in H. by apply IH.
Qed.

Lemma fold_rules_total {A V} (step : V + OverrideError → A → V + OverrideError) (P : V → Prop) rules x :
  P x → (∀ a r, r ∈ rules → P a → ∃ b, step (inl a) r = inl b ∧ P b) →
  ∃ y, foldl step (inl x) rules = inl y ∧ P y.
Proof.
  revert x. induction rules as [|r rules IH]; intros x Hx Hstep; cbn; [by exists x|].
  destruct (Hstep x r) as (b & -> & Hb); [by left|done|]. apply IH; [done|]. intros. apply Hstep; [by right|done].
Qed.

Lemma segments_nonempty path segments : body_path_segments path = inl segments → segments ≠ [].
Proof.
  unfold body_path_segments. repeat case_match; try done. intros [= <-] E. apply map_eq_nil in E. unfold split in E.
  apply map_eq_nil in E. destruct (chars (trim path)) as [|c l]; cbn in E; [done|].
  destruct (split_chars _ l); [done|]. by destruct (Ascii.eqb _ _).
Qed.

Lemma head_app_last {A} (parents : list A) last d : unwrap_or (head (parents ++ [last])) d = unwrap_or (head (parents ++ [last])) last.
Proof. by destruct parents. Qed.

(** Rules that were accepted never touch what the gateway manages: applied to any
    request of any format, they leave every reserved header - credentials, framing,
    forwarding - and the fields [model], [stream] and [type] of the body as they are. *)
Theorem overrides_respect_gateway ov target request_id :
  validate ov = None →
  (∀ h h' n, apply_header_overrides header_name header_value ov target h request_id = inl h' →
     is_reserved_header n = true → h' !! n = h !! n)
  ∧ (∀ v v' k, apply_body_overrides_to_value ov target v request_id = inl v' →
     is_reserved_body_root k = true → get k v' = get k v).
Proof.
  intros Hok. destruct (validate_parts ov Hok) as [Hh Hb]. split.
  - intros h h' n Happly Hn. revert Happly. unfold apply_header_overrides.
    apply (fold_rules _ (λ h h' : HeaderMap, h' !! n = h !! n)); [done|done|by intros ? ? ? ? ->|].
    intros a b rule Hin%rules_of_scopes. destruct (Hh _ Hin) as (s & s' & Hc). unfold check_header in Hc.
    cbn [apply_header_rule]. destruct (header_name (trim (ho_name rule))) as [name|]; [|done].
    destruct (is_reserved_header name) eqn:Er; [done|].
    assert (name ≠ n) as Hne by congruence.
    destruct (ho_operation rule); [destruct (header_value (expand_template _ _)); [|done]|]; intros [= <-].
    + by apply lookup_insert_ne.
    + by apply lookup_delete_ne.
  - intros v v' k Happly Hk. revert Happly. unfold apply_body_overrides_to_value.
    apply (fold_rules _ (λ v v', get k v' = get k v)); [done|done|by intros ? ? ? ? ->|].
    intros a b rule Hin%rules_of_scopes. destruct (Hb _ Hin) as (s & s' & Hc). unfold check_body in Hc.
    cbn [apply_body_rule]. destruct (body_path_segments (bo_path rule)) as [segments|e] eqn:Es; [|done].
    destruct (is_reserved_body_root (unwrap_or (head segments) "")) eqn:Er; [done|].
    assert (k ≠ unwrap_or (head segments) "") as Hne by congruence.
    unfold set_body_path, remove_body_path.
    destruct (split_last segments) as [[lst parents]|] eqn:Esl; [|by destruct (bo_operation rule); [|intros [= <-]]].
    apply split_last_app in Esl. subst segments.
    destruct (bo_operation rule); destruct a; try done; intros [= <-]; cbn [get]; try done.
    + by apply set_path_first.
    + by apply remove_path_first.
Qed.

(** Rules that were accepted always apply: to the headers of any request and to
    any body that is an object. [ok_char] are the characters a header value may have;
    the request's id is made of them. *)
Theorem accepted_overrides_apply ov target request_id (ok_char : ascii → bool) h fields :
  (∀ s, header_value s = forallb ok_char (chars s)) → forallb ok_char (chars request_id) = true →
  validate ov = None →
  (∃ h', apply_header_overrides header_name header_value ov target h request_id = inl h')
  ∧ (∃ fields', apply_body_overrides_to_value ov target (Object fields) request_id = inl (Object fields')).
Proof.
  intros Hv Hid Hok. destruct (validate_parts ov Hok) as [Hh Hb]. split.
  - destruct (fold_rules_total (λ h rule, apply_header_rule header_name header_value h request_id rule) (λ _, True)
      (header_rules ov target) h I) as (h' & E & _); [|by exists h'].
    intros a rule Hin%rules_of_scopes _. destruct (Hh _ Hin) as (s & s' & Hc). unfold check_header in Hc.
    cbn [apply_header_rule]. destruct (header_name (trim (ho_name rule))) as [name|]; [|done].
    destruct (is_reserved_header name); [done|]. destruct (_ <? _); [done|].
    destruct (ho_operation rule); [|by eexists]. rewrite bool_decide_true // andb_true_l in Hc.
    destruct (header_value (ho_value rule)) eqn:Eval; [|done].
    assert (header_value (expand_template (ho_value rule) request_id) = true) as ->; [|by eexists].
    rewrite Hv in Eval. rewrite Hv. unfold expand_template, replace. rewrite chars_of_chars. by apply replace_chars_forall.
  - destruct (fold_rules_total (λ v rule, apply_body_rule v request_id rule) (λ v, ∃ f, v = Object f)
      (body_rules ov target) (Object fields)) as (v & E & f & ->); [by eexists| |by exists f].
    intros a rule Hin%rules_of_scopes [f ->]. destruct (Hb _ Hin) as (s & s' & Hc). unfold check_body in Hc.
    cbn [apply_body_rule]. destruct (body_path_segments (bo_path rule)) as [segments|e] eqn:Es; [|done].
    pose proof (segments_nonempty _ _ Es) as Hne. unfold set_body_path, remove_body_path.
    destruct (split_last segments) as [[lst parents]|] eqn:Esl.
    + destruct (bo_operation rule); eexists; (split; [done|by eexists]).
    + exfalso. unfold split_last in Esl. destruct segments as [|x l _] using rev_ind; [done|]. by rewrite last_snoc in Esl.
Qed.
End Facts.

(** ** Rules for the identity of a Codex client *)
Definition wr_overrides : RequestOverrides :=
  MkOverrides [MkHeaderOverride ScopeAll OverrideSet "x-codex-window-id" REQUEST_ID_TEMPLATE]
    [MkBodyOverride ScopeResponses OverrideSet "client_metadata.x-codex-window-id" (String REQUEST_ID_TEMPLATE)].
(** Names as they are, visible ASCII as values. *)
Definition wr_name (s : string) : option string := Some (to_ascii_lowercase s).
Definition wr_char (c : ascii) : bool := (32 <=? code c) && (code c <? 127).
Definition wr_value (s : string) : bool := forallb wr_char (chars s).
Definition wr_validate := validate_request_overrides wr_name wr_value (λ _, Some 200) (λ _, Some 16).

Lemma wr_valid : wr_validate wr_overrides = None.
Proof. by vm_compute. Qed.

Lemma overrides_respect_gateway_witness :
  ∃ v', apply_body_overrides_to_value wr_overrides TargetResponses (Object [("model", String "m")]) "01J" = inl v'
    ∧ get "model" v' = Some (String "m").
Proof.
  destruct (apply_body_overrides_to_value wr_overrides TargetResponses (Object [("model", String "m")]) "01J") as [v'|e] eqn:E;
    [|vm_compute in E; discriminate E].
  exists v'. split; [reflexivity|].
  exact (proj2 (overrides_respect_gateway wr_name wr_value (λ _, Some 200) (λ _, Some 16) wr_overrides TargetResponses "01J" wr_valid)
    _ v' "model" E eq_refl).
Defined.

Lemma accepted_overrides_apply_witness :
  ∃ h', apply_header_overrides wr_name wr_value wr_overrides TargetResponses ∅ "01J" = inl h'.
Proof.
  exact (proj1 (accepted_overrides_apply wr_name wr_value (λ _, Some 200) (λ _, Some 16) wr_overrides TargetResponses "01J"
    wr_char ∅ [] (λ s, eq_refl) eq_refl wr_valid)).
Defined.
