(* ===== verification/UpstreamUrl.v ===== *)
(** * UpstreamUrl: where a request is sent

    Models [upstream_url.rs] and the two functions of [proxy.rs] above it. Reading a
    URL, a path with its query and putting the parts together belong to the [http]
    package: parameters. *)
From Stdlib Require Import Ascii String.
From S2P Require Import Prelude Float64 Text Json Types ResponseEvents Pricing Snapshot RoutingAvailability Routing.

Local Open Scope string_scope.
Local Open Scope list_scope.

Definition DEFAULT_API_BASE_PATH : string := "/v1".

Record PathAndQuery := MkPathAndQuery { pq_path : string; pq_query : option string }.
(** [http::Uri] as its parts; [Uri::path] of a URL without one is empty or a slash. *)
Record Uri := MkUri { uri_scheme : option string; uri_authority : option string; uri_path : string; uri_query : option string }.

Definition pq_text (pq : PathAndQuery) : string :=
  pq_path pq +:+ match pq_query pq with Some query => "?" +:+ query | None => "" end.

Section Url.
Context (parse_uri : string → option Uri) (parse_path_and_query : string → option PathAndQuery).
Context (from_parts : Uri → option Uri) (uri_to_string : Uri → string).

Definition normalize_base_url (input : string) : string + string :=
  let trimmed := trim input in
  if String.eqb trimmed "" then inr "invalid base_url"
  else match parse_uri trimmed with
       | None => inr "invalid base_url"
       | Some uri =>
           if negb (is_some_and (uri_scheme uri) (λ s, existsb (String.eqb s) ["http"; "https"]))
              || is_none (uri_authority uri) then inr "invalid base_url"
           else if is_some (uri_query uri) then inr "invalid base_url: query parameters are not allowed"
           else inl (trim_end_char "/"%char trimmed)
       end.

Definition with_path (uri : Uri) (pq : PathAndQuery) : Uri :=
  MkUri (uri_scheme uri) (uri_authority uri) (pq_path pq) (pq_query pq).

(** The path of the base, [/v1] when it has none. *)
Definition api_base_path (uri : Uri) : string :=
  let configured_path := trim_end_char "/"%char (uri_path uri) in
  if String.eqb configured_path "" then DEFAULT_API_BASE_PATH else configured_path.

Definition build_upstream_uri (base_url endpoint_path_and_query : string) : Uri + string :=
  match normalize_base_url base_url with
  | inr e => inr e
  | inl normalized =>
      match parse_uri normalized, parse_path_and_query endpoint_path_and_query with
      | None, _ => inr "invalid base_url"
      | Some _, None => inr "invalid upstream endpoint path"
      | Some base_uri, Some endpoint =>
          if String.eqb (pq_path endpoint) "/" || negb (starts_with "/" (pq_path endpoint))
          then inr "invalid upstream endpoint path"
          else
            let combined := pq_text (MkPathAndQuery (api_base_path base_uri +:+ pq_path endpoint) (pq_query endpoint)) in
            match parse_path_and_query combined with
            | None => inr "invalid upstream path"
            | Some pq => match from_parts (with_path base_uri pq) with Some uri => inl uri | None => inr "invalid uri" end
            end
      end
  end.

Definition build_upstream_websocket_url (base_url endpoint_path_and_query : string) : string + string :=
  match build_upstream_uri base_url endpoint_path_and_query with
  | inr e => inr e
  | inl uri =>
      let scheme := match uri_scheme uri with
                    | Some s => if String.eqb s "http" then inl "ws" else if String.eqb s "https" then inl "wss"
                                else inr ("unsupported upstream scheme: " +:+ s)
                    | None => inr "missing upstream scheme"
                    end in
      match scheme with
      | inr e => inr e
      | inl scheme =>
          match from_parts (MkUri (Some scheme) (uri_authority uri) (uri_path uri) (uri_query uri)) with
          | Some uri => inl (uri_to_string uri)
          | None => inr "invalid uri"
          end
      end
  end.

(** The client's path is replaced, its query kept. *)
Definition upstream_path_and_query (original : option PathAndQuery) (protocol : ProtocolPlan) : option PathAndQuery :=
  match original with
  | None => None
  | Some original =>
      let endpoint_path :=
        if is_responses_via_chat protocol then "/chat/completions"
        else match pp_upstream_api_format protocol with
             | ChatCompletions => "/chat/completions"
             | Responses => "/responses"
             end in
      parse_path_and_query
        (endpoint_path +:+ match pq_query original with Some query => "?" +:+ query | None => "" end)
  end.

(** [build_upstream_uri] of [proxy.rs]. *)
Definition target_uri (base_url : string) (path_and_query : option PathAndQuery) : Uri + string :=
  match path_and_query with
  | None => inr "missing path"
  | Some pq => build_upstream_uri base_url (pq_text pq)
  end.
End Url.

Definition api_format_name (f : ApiFormat) : string :=
  match f with ChatCompletions => "chat_completions" | Responses => "responses" end.

(** ** The target keeps the base and the query *)
Section Facts.
Context (parse_uri : string → option Uri) (parse_path_and_query : string → option PathAndQuery).
Context (from_parts : Uri → option Uri).
(** A path without a question mark reads back from its text, with its query; parts that
    name a scheme and an authority make a URL of just those parts. *)
Definition plain_path (p : string) : bool := starts_with "/" p && is_none (split_once "?"%char p).
Hypothesis read_pq : ∀ pq, plain_path (pq_path pq) = true → parse_path_and_query (pq_text pq) = Some pq.
Hypothesis put_parts : ∀ u, is_Some (uri_scheme u) → is_Some (uri_authority u) → from_parts u = Some u.

Lemma split_once_app (c : ascii) a b :
  split_once_chars c a = None → split_once_chars c b = None → split_once_chars c (a ++ b) = None.
Proof.
  induction a as [|x a IH]; cbn; [done|]. destruct (Ascii.eqb x c); [done|]. intros Ha Hb.
  destruct (split_once_chars c a) as [[]|]; [done|]. by rewrite IH.
Qed.

Lemma plain_path_app a b : plain_path a = true → plain_path b = true → plain_path (a +:+ b) = true.
Proof.
  unfold plain_path, starts_with, strip_prefix, split_once. rewrite !chars_append.
  intros [Ha Hqa]%andb_true_iff [Hb Hqb]%andb_true_iff.
  assert (∀ s : option (list ascii * list ascii), is_none (option_map (λ '(a, b), (of_chars a, of_chars b)) s) = true → s = None) as Hnone
    by (by intros [[]|]).
  rewrite split_once_app; [|by apply Hnone..]. rewrite andb_true_r.
  destruct (chars a) as [|[[] [] [] [] [] [] [] []] l]; cbn in Ha |- *; done.
Qed.

(** A request goes to the configured origin, under the configured path ([/v1] when
    there is none), at the endpoint of the upstream's protocol, with the client's query. *)
Theorem target_uri_correct base_url n u original protocol pq :
  normalize_base_url parse_uri base_url = inl n → parse_uri n = Some u →
  is_Some (uri_scheme u) → is_Some (uri_authority u) → plain_path (api_base_path u) = true →
  upstream_path_and_query parse_path_and_query (Some original) protocol = Some pq →
  target_uri parse_uri parse_path_and_query from_parts base_url (Some pq) =
    inl (MkUri (uri_scheme u) (uri_authority u)
           (api_base_path u +:+ (if is_responses_via_chat protocol then "/chat/completions"
                                 else match pp_upstream_api_format protocol with
                                      | ChatCompletions => "/chat/completions" | Responses => "/responses" end))
           (pq_query original)).
Proof.
  intros Hn Hu Hs Ha Hp Hpq.
  set (path := if is_responses_via_chat protocol then _ else _) in *.
  assert (plain_path path = true ∧ String.eqb path "/" = false) as [Hp1 Hp2].
  { unfold path. by destruct (is_responses_via_chat _); [|destruct (pp_upstream_api_format _)]. }
  unfold upstream_path_and_query in Hpq. fold path in Hpq.
  pose proof (read_pq (MkPathAndQuery path (pq_query original)) Hp1) as Hr. unfold pq_text in Hr. cbn [pq_path pq_query] in Hr.
  rewrite Hr in Hpq. injection Hpq as <-. unfold target_uri, build_upstream_uri. rewrite Hn Hu read_pq //. cbn [pq_path pq_query].
  assert (starts_with "/" path = true) as -> by (by unfold plain_path in Hp1; apply andb_true_iff in Hp1 as [? _]).
  rewrite Hp2. cbn [orb negb]. rewrite read_pq; [by rewrite put_parts|]. by apply plain_path_app.
Qed.
End Facts.

(** A reader that splits at the question mark, and an upstream with a path of its own. *)
Definition wu_read (s : string) : option PathAndQuery :=
  Some match split_once "?"%char s with Some (p, q) => MkPathAndQuery p (Some q) | None => MkPathAndQuery s None end.
Definition wu_uri : Uri := MkUri (Some "https") (Some "ark.example") "/api/coding/v3" None.

Lemma wu_read_ok pq : plain_path (pq_path pq) = true → wu_read (pq_text pq) = Some pq.
Proof.
  destruct pq as [p q]. unfold plain_path, wu_read, pq_text, split_once. cbn [pq_path pq_query]. rewrite chars_append.
  intros [_ Hq]%andb_true_iff. f_equal.
  assert (split_once_chars "?" (chars p) = None) as Hn by (by destruct (split_once_chars "?" (chars p)) as [[]|]). clear Hq.
  destruct q as [q|]; cbn [chars].
  - assert (split_once_chars "?" (chars p ++ chars ("?" +:+ q)) = Some (chars p, chars q)) as ->.
    { cbn. induction (chars p) as [|c l IH]; cbn in Hn |- *; [done|]. destruct (Ascii.eqb c "?"); [done|].
      destruct (split_once_chars "?" l) as [[]|]; [done|]. by rewrite IH. }
    cbn. unfold chars. by rewrite !of_chars_chars.
  - rewrite app_nil_r Hn. cbn. f_equal. by rewrite -(of_chars_chars (p +:+ "")) chars_append app_nil_r of_chars_chars.
Qed.

Lemma target_uri_correct_witness :
  target_uri (λ _, Some wu_uri) wu_read Some "https://ark.example/api/coding/v3/" (Some (MkPathAndQuery "/responses" (Some "a=1")))
  = inl (MkUri (Some "https") (Some "ark.example") "/api/coding/v3/responses" (Some "a=1")).
Proof.
  refine (target_uri_correct (λ _, Some wu_uri) wu_read Some wu_read_ok (λ u _ _, eq_refl) _ "https://ark.example/api/coding/v3"
    wu_uri (MkPathAndQuery "/v1/responses" (Some "a=1")) (native Responses) _ _ _ _ _ _ _); try reflexivity; by eexists.
Defined.
