(* ===== verification/ViaChatRequest.v ===== *)
(** * ViaChatRequest: a Responses request as a chat completion

    Models the request half of [responses_via_chat.rs]: messages, tool calls and tool
    definitions of the Responses format rewritten for an upstream that only speaks
    chat completions, with the names that lead a tool call of the answer back to the
    tool it belongs to. *)
From Stdlib Require Import Ascii String.
From S2P Require Import Prelude Float64 Text Json Types Affinity ResponseEvents OpenAi.

Local Open Scope string_scope.
Local Open Scope list_scope.
Local Open Scope Z_scope.

Definition MAX_TOOL_NAME_LEN : nat := 64.

Inductive ToolKind :=
  | KFunction (name : string)
  | KCustom (name : string)
  | KNamespace (namespace name : string).

Record ConversionContext := MkContext {
  cc_tool_by_chat_name : gmap string ToolKind;
  cc_chat_name_by_response_name : gmap string string;
  cc_warnings : list string
}.

Definition default_context : ConversionContext := MkContext ∅ ∅ [].

Definition push_warning (warnings : list string) (code : string) : list string :=
  if existsb (String.eqb code) warnings then warnings else warnings ++ [code].

Definition set_warnings (w : list string) (x : ConversionContext) : ConversionContext :=
  MkContext (cc_tool_by_chat_name x) (cc_chat_name_by_response_name x) w.
Definition warn (x : ConversionContext) (code : string) : ConversionContext :=
  set_warnings (push_warning (cc_warnings x) code) x.

Definition response_tool_name (x : ConversionContext) (name : string) : string :=
  unwrap_or (cc_chat_name_by_response_name x !! name) name.

(** Both maps learn a tool. *)
Definition learn_tool (x : ConversionContext) (chat_name : string) (kind : ToolKind) (response_name : string)
    : ConversionContext :=
  MkContext (<[chat_name := kind]> (cc_tool_by_chat_name x))
    (<[response_name := chat_name]> (cc_chat_name_by_response_name x)) (cc_warnings x).

Definition str_field (key : string) (v : Value) (d : string) : string := unwrap_or (get_str key v) d.

Definition previous_response (object : Value) : bool :=
  is_some_and (get_str "previous_response_id" object) (λ value, negb (String.eqb (trim value) "")).

Definition has_previous_response_id (parsed : option Value) : bool := is_some_and parsed previous_response.

(** ** Tool names *)
Definition tool_char (c : ascii) : bool :=
  let n := code c in
  ((48 <=? n) && (n <=? 57)) || ((65 <=? n) && (n <=? 90)) || ((97 <=? n) && (n <=? 122)) || (n =? 95) || (n =? 45).

(** One underscore per other character: the continuation bytes of its encoding vanish. *)
Fixpoint sanitize_chars (l : list ascii) : list ascii :=
  match l with
  | [] => []
  | c :: l' =>
      if (128 <=? code c) && (code c <? 192) then sanitize_chars l'
      else (if tool_char c then c else "_"%char) :: sanitize_chars l'
  end.

Definition normalize_tool_name (name : string) : string :=
  of_chars (take MAX_TOOL_NAME_LEN (sanitize_chars (chars name))).

(** The candidate with a suffix, within the length. *)
Definition suffixed (sanitized : string) (index suffix : Z) : string :=
  let tail := "_" +:+ show_Z index +:+ "_" +:+ show_Z suffix in
  of_chars (take (MAX_TOOL_NAME_LEN - String.length tail) (chars sanitized)) +:+ tail.

(** The suffixes 1 to 10000, [n] of them left. *)
Fixpoint first_free (n : nat) (suffix : Z) (sanitized : string) (index : Z) (used : gset string) : option string :=
  match n with
  | O => None
  | S n' =>
      let candidate := suffixed sanitized index suffix in
      if bool_decide (candidate ∈ used) then first_free n' (suffix + 1) sanitized index used else Some candidate
  end.

Definition fallback_name (index : Z) : string := "lg_tool_" +:+ show_Z index.

Definition MAX_SUFFIXES : nat := 10000.

Definition unique_tool_name (base : string) (index : Z) (used : gset string) : string * gset string :=
  let sanitized := normalize_tool_name base in
  let candidate := if String.eqb sanitized "" then fallback_name index else sanitized in
  if negb (bool_decide (candidate ∈ used)) then (candidate, {[candidate]} ∪ used)
  else match first_free MAX_SUFFIXES 1 sanitized index used with
       | Some candidate => (candidate, {[candidate]} ∪ used)
       | None => (fallback_name index, used)
       end.

Definition unique_generated_tool_name (base : string) (index : Z) (used reserved : gset string) : string * gset string :=
  let generated := (unique_tool_name base index (used ∪ reserved)).1 in
  (generated, {[generated]} ∪ used).

(** ** Tools *)
Definition chat_function (tool : Value) (name : string) (forced_parameters : option Value) : Value :=
  let function := [("name", String name)] in
  let function := match get "description" tool with
                  | Some d => assoc_insert "description" d function | None => function end in
  let parameters := match forced_parameters with
                    | Some p => p
                    | None => unwrap_or (get "parameters" tool)
                                (json_obj [("type", String "object"); ("properties", Object [])])
                    end in
  let function := assoc_insert "parameters" parameters function in
  let function := match get "strict" tool with
                  | Some s => assoc_insert "strict" s function | None => function end in
  json_obj [("type", String "function"); ("function", Object function)].

(** The state of the loop over the tools. *)
Record ToolState := MkToolState {
  ts_used : gset string;
  ts_context : ConversionContext;
  ts_converted : list Value
}.

(** Adds a tool under a fresh name. *)
Definition add_tool (s : ToolState) (named : string * gset string) (kind : ToolKind) (response_name : string)
    (tool : Value) (forced : option Value) : ToolState :=
  MkToolState named.2 (learn_tool (ts_context s) named.1 kind response_name)
    (ts_converted s ++ [chat_function tool named.1 forced]).

Definition warn_tool (s : ToolState) (code : string) : ToolState :=
  MkToolState (ts_used s) (warn (ts_context s) code) (ts_converted s).

Definition namespace_step (namespace : string) (namespace_index : Z) (reserved : gset string) (s : ToolState)
    (tool_index : Z) (nested : Value) : ToolState :=
  let name := str_field "name" nested "tool" in
  let index := u64_sat_add (u64_sat_mul namespace_index 1000) tool_index in
  add_tool s (unique_generated_tool_name ("lg_ns_" +:+ namespace +:+ "_" +:+ name) index (ts_used s) reserved)
    (KNamespace namespace name) (namespace +:+ "." +:+ name) nested None.

(** [iter().enumerate()] *)
Fixpoint enumerate_fold {A S} (step : S → Z → A → S) (i : Z) (s : S) (l : list A) : S :=
  match l with
  | [] => s
  | x :: l => enumerate_fold step (i + 1) (step s i x) l
  end.

Definition convert_namespace (tool : Value) (namespace_index : Z) (reserved : gset string) (s : ToolState) : ToolState :=
  let namespace := str_field "name" tool "namespace" in
  match opt_bind (get "tools" tool) as_array with
  | None => warn_tool s "dropped_empty_namespace"
  | Some tools => enumerate_fold (namespace_step namespace namespace_index reserved) 0 s tools
  end.

Definition custom_parameters : Value :=
  json_obj [("type", String "object");
            ("properties", json_obj [("input", json_obj [("type", String "string")])]);
            ("required", Array [String "input"]); ("additionalProperties", Bool false)].

Definition hosted_tools : list string :=
  ["web_search"; "web_search_preview"; "file_search"; "computer"; "computer_use_preview"; "code_interpreter";
   "image_generation"; "mcp"; "shell"; "local_shell"].

Definition tool_step (reserved : gset string) (s : ToolState) (index : Z) (tool : Value) : ToolState :=
  let kind := str_field "type" tool "" in
  if String.eqb kind "function" then
    let name := str_field "name" tool "unknown_tool" in
    add_tool s (unique_tool_name name index (ts_used s)) (KFunction name) name tool None
  else if String.eqb kind "custom" then
    let name := str_field "name" tool "custom_tool" in
    add_tool s (unique_generated_tool_name ("lg_custom_" +:+ name) index (ts_used s) reserved)
      (KCustom name) name tool (Some custom_parameters)
  else if String.eqb kind "namespace" then convert_namespace tool index reserved s
  else if is_one_of kind hosted_tools then warn_tool s "dropped_hosted_tool"
  else warn_tool s "dropped_unknown_tool".

Definition tool_definitions (object : Value) : list Value :=
  unwrap_or (opt_bind (get "tools" object) as_array) []
  ++ unwrap_or (opt_bind (get "additional_tools" object) as_array) [].

Definition reserved_function_names (definitions : list Value) : gset string :=
  list_to_set (map normalize_tool_name
    (omap (get_str "name") (List.filter (λ tool, str_is (get_str "type" tool) ["function"]) definitions))).

Definition run_tools (object : Value) (x : ConversionContext) : ToolState :=
  let definitions := tool_definitions object in
  enumerate_fold (tool_step (reserved_function_names definitions)) 0 (MkToolState ∅ x []) definitions.

Definition convert_tools (object : Value) (x : ConversionContext) : list Value * ConversionContext :=
  let s := run_tools object x in (ts_converted s, ts_context s).

(** ** Content *)
Definition with_cache_control (converted : list (string * Value)) (source : Value) : Value :=
  match get "cache_control" source with
  | Some cache_control => Object (assoc_insert "cache_control" cache_control (json_fields converted))
  | None => json_obj converted
  end.

Definition image_value (part : Value) : Value :=
  let image_url := unwrap_or (opt_or (get "image_url" part) (get "url" part)) Null in
  if is_string image_url then
    Object (match get "detail" part with
            | Some detail => assoc_insert "detail" detail [("url", image_url)]
            | None => [("url", image_url)]
            end)
  else image_url.

(** The part, or the warning for dropping it. *)
Definition convert_content_part (part : Value) : Value + string :=
  let kind := str_field "type" part "" in
  if is_one_of kind ["input_text"; "output_text"; "text"] then
    inl (with_cache_control [("type", String "text"); ("text", String (str_field "text" part ""))] part)
  else if is_one_of kind ["input_image"; "image_url"] then
    inl (with_cache_control [("type", String "image_url"); ("image_url", image_value part)] part)
  else if String.eqb kind "cache_breakpoint" then
    inl (json_obj [("type", String "text"); ("text", String "");
      ("cache_control", unwrap_or (get "cache_control" part) (json_obj [("type", String "ephemeral")]))])
  else if is_one_of kind ["input_file"; "file"] then inr "dropped_file_content"
  else if is_one_of kind ["input_audio"; "audio"] then inr "dropped_audio_content"
  else inr "dropped_unknown_content_part".

Fixpoint convert_parts (parts : list Value) (warnings : list string) : list Value * list string :=
  match parts with
  | [] => ([], warnings)
  | part :: parts =>
      match convert_content_part part with
      | inl converted => let '(rest, warnings) := convert_parts parts warnings in (converted :: rest, warnings)
      | inr code => convert_parts parts (push_warning warnings code)
      end
  end.

Definition response_content_to_chat (value : Value) (warnings : list string) : Value * list string :=
  match value with
  | Array parts => let '(converted, warnings) := convert_parts parts warnings in (Array converted, warnings)
  | _ => (value, warnings)
  end.

Section ViaChat.
(** The JSON reader and printer, and the [blake3] hash of [short_hash]. *)
Context (from_slice : string → option Value) (to_vec : Value → option string).

(** ** Input items *)
Definition stringify_tool_output (value : Value) : string :=
  match as_str value with Some s => s | None => unwrap_or (to_vec value) "" end.

Definition reasoning_summary_text (item : Value) : string :=
  String.concat (of_chars [ascii_of_nat 10])
    (omap (get_str "text") (unwrap_or (opt_bind (get "summary" item) as_array) [])).

Definition empty_input : string := of_chars (lbrace :: quoted "input" ++ [colon] ++ quoted "" ++ [rbrace]).

Definition item_call_id (item : Value) : string :=
  unwrap_or (opt_bind (opt_or (get "call_id" item) (get "id" item)) as_str) "call_missing".

Definition call_arguments (item : Value) : string :=
  if str_is (get_str "type" item) ["custom_tool_call"] then
    unwrap_or (to_vec (json_obj [("input", String (str_field "input" item ""))])) empty_input
  else str_field "arguments" item "{}".

Definition convert_call_input (item : Value) (x : ConversionContext) : Value :=
  json_obj [("id", String (item_call_id item)); ("type", String "function");
    ("function", json_obj [("name", String (response_tool_name x (str_field "name" item "unknown_tool")));
                           ("arguments", String (call_arguments item))])].

Definition calls_message (pending : list Value) : Value :=
  json_obj [("role", String "assistant"); ("content", Null); ("tool_calls", Array pending)].

Definition flush_calls (messages pending : list Value) : list Value :=
  if is_empty pending then messages else messages ++ [calls_message pending].

Definition tool_message (item : Value) : Value :=
  let output := unwrap_or (opt_or (get "output" item) (get "input" item)) (String "") in
  json_obj [("role", String "tool"); ("tool_call_id", String (item_call_id item));
            ("content", String (stringify_tool_output output))].

(** An item that is no call: its message, if any, and the warnings. *)
Definition convert_item (item : Value) (messages : list Value) (warnings : list string) : list Value * list string :=
  let kind := str_field "type" item "message" in
  if String.eqb kind "message" then
    let '(content, local) := response_content_to_chat (unwrap_or (get "content" item) Null) [] in
    (messages ++ [json_obj [("role", String (str_field "role" item "user")); ("content", content)]],
     foldl push_warning warnings local)
  else if is_one_of kind ["function_call_output"; "custom_tool_call_output"] then
    (messages ++ [tool_message item], warnings)
  else if String.eqb kind "reasoning" then
    let text := reasoning_summary_text item in
    (if String.eqb text "" then messages
     else messages ++ [json_obj [("role", String "assistant"); ("content", String text)]], warnings)
  else if String.eqb kind "item_reference" then (messages, push_warning warnings "dropped_item_reference")
  else (messages, push_warning warnings "dropped_unknown_input_item").

Definition is_call (item : Value) : bool :=
  is_one_of (str_field "type" item "message") ["function_call"; "custom_tool_call"].

Fixpoint convert_items (items : list Value) (x : ConversionContext) (messages pending : list Value)
    (warnings : list string) : list Value * list string :=
  match items with
  | [] => (flush_calls messages pending, warnings)
  | item :: items =>
      if is_call item then convert_items items x messages (pending ++ [convert_call_input item x]) warnings
      else
        let '(messages, warnings) := convert_item item (flush_calls messages pending) warnings in
        convert_items items x messages [] warnings
  end.

Definition convert_input (input : Value) (x : ConversionContext) (messages : list Value) (warnings : list string)
    : list Value * list string :=
  match input with
  | String text => (messages ++ [json_obj [("role", String "user"); ("content", String text)]], warnings)
  | Array items => convert_items items x messages [] warnings
  | Null => (messages, warnings)
  | _ => (messages, push_warning warnings "dropped_unknown_input")
  end.

(** ** The other fields *)
Definition copy_field (source target : list (string * Value)) (name : string) : list (string * Value) :=
  match assoc name source with Some value => assoc_insert name value target | None => target end.

Definition copied_fields : list string :=
  ["temperature"; "top_p"; "parallel_tool_calls"; "user"; "seed"; "service_tier"; "prompt_cache_key";
   "prompt_cache_retention"; "cache_control"; "retention"].

Definition convert_text_format (object : Value) (chat : list (string * Value)) (warnings : list string)
    : list (string * Value) * list string :=
  match opt_bind (opt_bind (get "text" object) (get "format")) as_object with
  | None => (chat, warnings)
  | Some format =>
      match get_str "type" (Object format) with
      | None => (chat, warnings)
      | Some kind =>
          if String.eqb kind "json_object" then
            (assoc_insert "response_format" (json_obj [("type", String "json_object")]) chat, warnings)
          else if String.eqb kind "json_schema" then
            (assoc_insert "response_format"
               (json_obj [("type", String "json_schema"); ("json_schema", Object (assoc_remove "type" format))]) chat,
             warnings)
          else if String.eqb kind "text" then (chat, warnings)
          else (chat, push_warning warnings "dropped_unknown_text_format")
      end
  end.

Definition convert_tool_choice (object : Value) (chat : list (string * Value)) (x : ConversionContext)
    (warnings : list string) : list (string * Value) * list string :=
  match get "tool_choice" object with
  | None => (chat, warnings)
  | Some (String choice) => (assoc_insert "tool_choice" (String choice) chat, warnings)
  | Some (Object choice) =>
      if str_is (get_str "type" (Object choice)) ["allowed_tools"] then
        (assoc_insert "tool_choice" (String "required") chat, push_warning warnings "dropped_allowed_tools_choice")
      else match get_str "name" (Object choice) with
           | None => (chat, push_warning warnings "dropped_unknown_tool_choice")
           | Some name =>
               (assoc_insert "tool_choice"
                  (json_obj [("type", String "function");
                             ("function", json_obj [("name", String (response_tool_name x name))])]) chat, warnings)
           end
  | Some _ => (chat, push_warning warnings "dropped_unknown_tool_choice")
  end.

Definition unsupported_fields : list (string * string) :=
  [("store", "dropped_store"); ("background", "dropped_background"); ("conversation", "dropped_conversation");
   ("include", "dropped_include"); ("truncation", "dropped_truncation")].

Definition counts_as_set (value : Value) : bool :=
  match value with
  | Null => false
  | Bool value => value
  | Array values => negb (is_empty values)
  | String value => negb (String.eqb value "")
  | _ => true
  end.

Definition record_unsupported_fields (object : Value) (warnings : list string) : list string :=
  foldl (λ warnings '(field, code),
    if is_some_and (get field object) counts_as_set then push_warning warnings code else warnings)
    warnings unsupported_fields.

(** ** The request *)
Definition put_field (name : string) (value : option Value) (chat : list (string * Value)) : list (string * Value) :=
  match value with Some value => assoc_insert name value chat | None => chat end.

(** The chat request as a value, with the context for the answer. *)
Definition chat_request (fields : list (string * Value)) (upstream_model : string)
    (affinity_identity : option AffinityIdentity) : list (string * Value) * ConversionContext :=
  let object := Object fields in
  let chat := json_fields [("model", String upstream_model);
                           ("stream", Bool (unwrap_or (opt_bind (get "stream" object) as_bool) false))] in
  let '(tools, x) := convert_tools object default_context in
  let chat := if is_empty tools then chat else assoc_insert "tools" (Array tools) chat in
  let '(messages, warnings) :=
    match get "instructions" object with
    | Some Null | None => ([], cc_warnings x)
    | Some instructions =>
        let '(content, warnings) := response_content_to_chat instructions (cc_warnings x) in
        ([json_obj [("role", String "system"); ("content", content)]], warnings)
    end in
  let '(messages, conversion) := convert_input (unwrap_or (get "input" object) Null) x messages [] in
  let warnings := foldl push_warning warnings conversion in
  let chat := assoc_insert "messages" (Array messages) chat in
  let chat := foldl (copy_field fields) chat copied_fields in
  let chat := match affinity_identity with
              | Some identity => if contains_key "prompt_cache_key" chat then chat
                                 else assoc_insert "prompt_cache_key" (String (derived_prompt_cache_key identity)) chat
              | None => chat
              end in
  let chat := put_field "max_tokens" (get "max_output_tokens" object) chat in
  let chat := put_field "reasoning_effort" (opt_bind (get "reasoning" object) (get "effort")) chat in
  let chat := put_field "stream_options" (get "stream_options" object) chat in
  let '(chat, warnings) := convert_text_format object chat warnings in
  let '(chat, choice) := convert_tool_choice object chat x [] in
  let warnings := record_unsupported_fields object (foldl push_warning warnings choice) in
  (chat, set_warnings warnings x).

Definition responses_request_to_chat (body upstream_model : string) (affinity_identity : option AffinityIdentity)
    : (string * ConversionContext) + string :=
  match from_slice body with
  | None => inr "invalid responses request JSON"
  | Some (Object fields) =>
      if previous_response (Object fields) then inr "previous_response_id requires a native Responses upstream"
      else
        let '(chat, x) := chat_request fields upstream_model affinity_identity in
        match to_vec (Object chat) with
        | Some encoded => inl (encoded, x)
        | None => inr "failed to encode chat request"
        end
  | Some _ => inr "responses request must be a JSON object"
  end.
End ViaChat.

Example tool_name_examples :
  normalize_tool_name "a.b c" = "a_b_c" ∧ (unique_tool_name "a.b" 1 {["a_b"]}).1 = "a_b_1_1"
  ∧ (unique_generated_tool_name "lg_custom_x" 0 ∅ {["lg_custom_x"]}).1 = "lg_custom_x_0_1".
Proof. by vm_compute. Qed.

(** ** Fresh names *)
Definition valid_tool_name (name : string) : Prop :=
  (1 <= length (chars name) <= MAX_TOOL_NAME_LEN)%nat ∧ forallb tool_char (chars name) = true.

Lemma digit_tool_char d : 0 <= d < 10 → tool_char (digit_char d) = true.
Proof.
  intros Hd. unfold tool_char, code, digit_char. rewrite nat_ascii_embedding; [|lia]. rewrite Z2Nat.id; [|lia].
  rewrite (proj2 (Z.leb_le 48 _)) ?(proj2 (Z.leb_le _ 57)) //; lia.
Qed.

Lemma sanitize_chars_valid l : forallb tool_char (sanitize_chars l) = true.
Proof.
  induction l as [|c l IH]; cbn; [done|]. destruct (_ && _); [done|]. cbn. rewrite IH andb_true_r.
  by destruct (tool_char c) eqn:E.
Qed.

Lemma forallb_take {A} (f : A → bool) n l : forallb f l = true → forallb f (take n l) = true.
Proof. revert n. induction l as [|x l IH]; intros [|n]; cbn; try done. intros [-> H]%andb_true_iff. by apply IH. Qed.

Lemma normalize_chars name :
  forallb tool_char (chars (normalize_tool_name name)) = true ∧ (length (chars (normalize_tool_name name)) <= MAX_TOOL_NAME_LEN)%nat.
Proof.
  unfold normalize_tool_name. rewrite chars_of_chars. split; [apply forallb_take, sanitize_chars_valid|].
  rewrite length_take. lia.
Qed.

Lemma fallback_valid index : 0 <= index <= u64_max → valid_tool_name (fallback_name index).
Proof.
  intros Hi. unfold valid_tool_name, fallback_name. rewrite chars_append length_app forallb_app.
  pose proof (show_Z_length index 20 ltac:(mlia) ltac:(lia)). split; [change (length (chars "lg_tool_")) with 8%nat; unfold MAX_TOOL_NAME_LEN; lia|].
  rewrite (show_Z_digits tool_char); [|lia|apply digit_tool_char]. done.
Qed.

Lemma suffixed_chars s i a :
  ∃ prefix, (length prefix <= MAX_TOOL_NAME_LEN - (2 + length (chars (show_Z i)) + length (chars (show_Z a))))%nat
    ∧ chars (suffixed s i a) = prefix ++ "_"%char :: chars (show_Z i) ++ "_"%char :: chars (show_Z a)
    ∧ (forallb tool_char (chars s) = true → forallb tool_char prefix = true).
Proof.
  unfold suffixed. cbv zeta. set (tail := "_" +:+ _).
  assert (chars tail = "_"%char :: chars (show_Z i) ++ "_"%char :: chars (show_Z a)) as Ht by (unfold tail; by rewrite !chars_append).
  exists (take (MAX_TOOL_NAME_LEN - String.length tail) (chars s)). rewrite chars_append chars_of_chars Ht -length_chars Ht.
  split_and!; [|done|apply forallb_take]. rewrite length_take /= length_app /=. lia.
Qed.

(** What follows the last underscore. *)
Fixpoint after_last (l : list ascii) : option (list ascii) :=
  match l with
  | [] => None
  | c :: l' => match after_last l' with
               | Some r => Some r
               | None => if Ascii.eqb c "_"%char then Some l' else None
               end
  end.

Lemma after_last_app l d :
  forallb (λ c, negb (Ascii.eqb c "_"%char)) d = true → after_last (l ++ "_"%char :: d) = Some d.
Proof.
  intros Hd. assert (after_last d = None) as Hn.
  { induction d as [|c d IH]; cbn in Hd |- *; [done|]. apply andb_true_iff in Hd as [Hc Hd]. rewrite IH //.
    by destruct (Ascii.eqb c "_"). }
  induction l as [|c l IH]; cbn [app after_last]; [|by rewrite IH]. by rewrite Hn.
Qed.

Lemma digit_no_underscore d : 0 <= d < 10 → negb (Ascii.eqb (digit_char d) "_"%char) = true.
Proof.
  intros Hd. destruct (Ascii.eqb_spec (digit_char d) "_"%char) as [E|]; [|done]. exfalso.
  apply (f_equal code) in E. unfold code, digit_char in E. rewrite nat_ascii_embedding in E; [|lia].
  rewrite Z2Nat.id in E; [|lia]. change (Z.of_nat (nat_of_ascii "_")) with 95 in E. lia.
Qed.

Lemma suffixed_inj s i a b : 0 <= a → 0 <= b → suffixed s i a = suffixed s i b → a = b.
Proof.
  intros Ha Hb E. destruct (suffixed_chars s i a) as (p & _ & Ep & _), (suffixed_chars s i b) as (q & _ & Eq & _).
  rewrite E Eq in Ep. apply (f_equal after_last) in Ep.
  change (q ++ "_"%char :: chars (show_Z i) ++ "_"%char :: chars (show_Z b))
    with (q ++ ("_"%char :: chars (show_Z i)) ++ "_"%char :: chars (show_Z b)) in Ep.
  change (p ++ "_"%char :: chars (show_Z i) ++ "_"%char :: chars (show_Z a))
    with (p ++ ("_"%char :: chars (show_Z i)) ++ "_"%char :: chars (show_Z a)) in Ep.
  rewrite !app_assoc !after_last_app in Ep; [|by apply show_Z_digits; [|apply digit_no_underscore]..].
  injection Ep as Ep. by apply chars_inj, show_Z_inj in Ep.
Qed.

Lemma first_free_Some n a s i used r :
  first_free n a s i used = Some r → r ∉ used ∧ ∃ b, a <= b < a + Z.of_nat n ∧ r = suffixed s i b.
Proof.
  revert a. induction n as [|n IH]; intros a; cbn [first_free]; [done|]. case_bool_decide as E.
  - intros H. destruct (IH _ H) as (? & b & ? & ?). split; [done|]. exists b. split; [lia|done].
  - intros [= <-]. split; [done|]. exists a. split; [lia|done].
Qed.

(** Every candidate is taken only if there are as many names. *)
Lemma first_free_None n a s i used :
  0 <= a → first_free n a s i used = None → (n <= size used)%nat.
Proof.
  intros Ha H.
  assert (∀ n a, first_free n a s i used = None → ∀ b, a <= b < a + Z.of_nat n → suffixed s i b ∈ used) as Hall.
  { clear. induction n as [|n IH]; intros a H b Hb; [lia|]. cbn [first_free] in H. case_bool_decide as E; [|done].
    destruct (decide (b = a)) as [->|]; [done|]. eapply IH; [exact H|lia]. }
  specialize (Hall n a H).
  set (l := map (suffixed s i) (seqZ a (Z.of_nat n))).
  assert (NoDup l) as Hnd.
  { apply NoDup_fmap_2_strong; [|apply NoDup_seqZ]. intros x y Hx%elem_of_seqZ Hy%elem_of_seqZ. apply suffixed_inj; lia. }
  assert (size (list_to_set l : gset string) ≤ size used)%nat as Hsz.
  { apply subseteq_size. intros x Hx%elem_of_list_to_set. unfold l in Hx. apply list_elem_of_fmap in Hx as (b & -> & Hb%elem_of_seqZ).
    apply Hall. lia. }
  rewrite size_list_to_set // in Hsz. unfold l in Hsz. rewrite length_map length_seqZ in Hsz. lia.
Qed.

Lemma unique_tool_name_fresh base index used :
  0 <= index <= u64_max → (size used < MAX_SUFFIXES)%nat →
  let '(name, used') := unique_tool_name base index used in
  name ∉ used ∧ used' = {[name]} ∪ used ∧ valid_tool_name name.
Proof.
  intros Hi Hsz. unfold unique_tool_name. cbv zeta. destruct (normalize_chars base) as [Hc Hl].
  set (sanitized := normalize_tool_name base) in *. set (candidate := if String.eqb sanitized "" then _ else _).
  assert (valid_tool_name candidate) as Hv.
  { unfold candidate. destruct (String.eqb_spec sanitized "") as [E|Hne]; [by apply fallback_valid|].
    split; [|done]. destruct (chars sanitized) as [|c l] eqn:Ec; [|cbn in *; lia].
    destruct Hne. by rewrite -(of_chars_chars sanitized) Ec. }
  case_bool_decide as E; cbn [negb]; [|done].
  destruct (first_free MAX_SUFFIXES 1 sanitized index used) as [name|] eqn:Ef.
  - apply first_free_Some in Ef as (Hn & b & Hb & ->). split_and!; try done.
    unfold valid_tool_name. destruct (suffixed_chars sanitized index b) as (prefix & Hlen & -> & Hp). specialize (Hp Hc).
    pose proof (show_Z_length index 20 ltac:(mlia) ltac:(lia)) as Hli.
    assert (length (chars (show_Z b)) <= 5)%nat as Hlb.
    { apply show_Z_length; [|lia]. change (Z.of_nat MAX_SUFFIXES) with 10000 in Hb.
      change (10 ^ Z.of_nat 5) with 100000. lia. }
    split.
    + rewrite length_app /= length_app /=. unfold MAX_TOOL_NAME_LEN in *. lia.
    + rewrite forallb_app Hp /= forallb_app (show_Z_digits tool_char) /=; [|lia|apply digit_tool_char].
      by rewrite (show_Z_digits tool_char); [|lia|apply digit_tool_char].
  - apply first_free_None in Ef; lia.
Qed.

Lemma unique_generated_fresh base index used reserved :
  0 <= index <= u64_max → (size used + size reserved < MAX_SUFFIXES)%nat →
  let '(name, used') := unique_generated_tool_name base index used reserved in
  name ∉ used ∧ used' = {[name]} ∪ used ∧ valid_tool_name name.
Proof.
  intros Hi Hsz. unfold unique_generated_tool_name.
  pose proof (unique_tool_name_fresh base index (used ∪ reserved) Hi) as H.
  destruct (unique_tool_name base index (used ∪ reserved)) as [name used']. cbn [fst].
  destruct H as (Hn & _ & Hv); [|set_solver].
  pose proof (size_union_alt used reserved) as Hu.
  assert (size (reserved ∖ used) <= size reserved)%nat by (apply subseteq_size; set_solver). lia.
Qed.

(** ** Every tool is found again *)
(** What a definition of the request offers. *)
Definition kinds_of (tool : Value) : list ToolKind :=
  let kind := str_field "type" tool "" in
  if String.eqb kind "function" then [KFunction (str_field "name" tool "unknown_tool")]
  else if String.eqb kind "custom" then [KCustom (str_field "name" tool "custom_tool")]
  else if String.eqb kind "namespace" then
    map (λ nested, KNamespace (str_field "name" tool "namespace") (str_field "name" nested "tool"))
      (unwrap_or (opt_bind (get "tools" tool) as_array) [])
  else [].

Definition tool_kinds (object : Value) : list ToolKind := concat (map kinds_of (tool_definitions object)).

(** The name a converted tool is called by. *)
Definition chat_name_of (converted : Value) : string :=
  unwrap_or (opt_bind (pointer ["function"; "name"] converted) as_str) "".

Lemma chat_function_name tool name forced : chat_name_of (chat_function tool name forced) = name.
Proof.
  unfold chat_name_of, chat_function. cbv zeta. cbn [pointer]. rewrite get_json_obj.
  set (f := [("name", String name)]).
  assert (assoc "name" f = Some (String name)) as Hf by done.
  set (f1 := match get "description" tool with Some d => _ | None => f end).
  assert (assoc "name" f1 = Some (String name)) as Hf1 by (unfold f1; destruct (get "description" tool); rewrite ?assoc_insert_ne //).
  set (p := match forced with Some p => p | None => _ end). set (f2 := assoc_insert "parameters" p f1).
  assert (assoc "name" f2 = Some (String name)) as Hf2 by (unfold f2; rewrite assoc_insert_ne //).
  set (f3 := match get "strict" tool with Some d => _ | None => f2 end).
  assert (assoc "name" f3 = Some (String name)) as Hf3 by (unfold f3; destruct (get "strict" tool); rewrite ?assoc_insert_ne //).
  cbn. by rewrite Hf3.
Qed.

Record tools_inv (s : ToolState) (kinds : list ToolKind) : Prop := {
  ti_nodup : NoDup (map chat_name_of (ts_converted s));
  ti_used : ts_used s = list_to_set (map chat_name_of (ts_converted s));
  ti_valid : Forall valid_tool_name (map chat_name_of (ts_converted s));
  ti_kinds : Forall2 (λ n k, cc_tool_by_chat_name (ts_context s) !! n = Some k) (map chat_name_of (ts_converted s)) kinds
}.

Lemma tools_inv_size s kinds : tools_inv s kinds → size (ts_used s) = length kinds.
Proof.
  intros [Hn Hu _ Hk]. rewrite Hu size_list_to_set //. by eapply Forall2_length.
Qed.

Lemma Forall2_insert_other {V} (m : gmap string V) names kinds name kind :
  name ∉ names → Forall2 (λ n k, m !! n = Some k) names kinds → Forall2 (λ n k, <[name := kind]> m !! n = Some k) names kinds.
Proof.
  intros Hn H. induction H as [|n k names kinds Hk H IH]; [constructor|]. apply not_elem_of_cons in Hn as [Hne Hn].
  constructor; [by rewrite lookup_insert_ne|by apply IH].
Qed.

Lemma add_tool_inv s kinds named kind response_name tool forced :
  tools_inv s kinds → named.1 ∉ ts_used s → named.2 = {[named.1]} ∪ ts_used s → valid_tool_name named.1 →
  tools_inv (add_tool s named kind response_name tool forced) (kinds ++ [kind]).
Proof.
  intros [Hn Hu Hv Hk] Hfresh Hset Hval.
  assert (map chat_name_of (ts_converted (add_tool s named kind response_name tool forced))
          = map chat_name_of (ts_converted s) ++ [named.1]) as Hmap.
  { unfold add_tool. cbn [ts_converted]. by rewrite map_app /= chat_function_name. }
  assert (named.1 ∉ map chat_name_of (ts_converted s)) as Hni by (rewrite Hu in Hfresh; by rewrite elem_of_list_to_set in Hfresh).
  split; rewrite ?Hmap.
  - apply NoDup_app. split_and!; [done| |apply NoDup_singleton]. by intros x Hx ->%list_elem_of_singleton.
  - unfold add_tool. cbn [ts_used]. rewrite Hset list_to_set_app_L Hu /= union_empty_r_L. apply union_comm_L.
  - apply Forall_app. split; [done|by constructor].
  - unfold add_tool. cbn [ts_context cc_tool_by_chat_name learn_tool]. apply Forall2_app; [by apply Forall2_insert_other|].
    constructor; [|constructor]. by rewrite lookup_insert_eq.
Qed.

Lemma namespace_step_inv namespace ni reserved s kinds i nested :
  tools_inv s kinds → 0 <= ni → 0 <= i → (length kinds + size reserved < MAX_SUFFIXES)%nat →
  tools_inv (namespace_step namespace ni reserved s i nested) (kinds ++ [KNamespace namespace (str_field "name" nested "tool")]).
Proof.
  intros Hs Hni Hi Hsz. unfold namespace_step. cbv zeta.
  set (base := _ +:+ namespace +:+ _). set (index := u64_sat_add _ i).
  pose proof (unique_generated_fresh base index (ts_used s) reserved) as Hf.
  destruct (unique_generated_tool_name base index (ts_used s) reserved) as [name used'] eqn:E.
  destruct Hf as (H1 & H2 & H3).
  - unfold index, u64_sat_add, u64_sat_mul. mlia.
  - by rewrite (tools_inv_size _ _ Hs).
  - by apply add_tool_inv.
Qed.

Lemma namespace_fold_inv namespace ni reserved tools s kinds i :
  tools_inv s kinds → 0 <= ni → 0 <= i → (length kinds + length tools + size reserved < MAX_SUFFIXES)%nat →
  tools_inv (enumerate_fold (namespace_step namespace ni reserved) i s tools)
    (kinds ++ map (λ nested, KNamespace namespace (str_field "name" nested "tool")) tools).
Proof.
  revert s kinds i. induction tools as [|nested tools IH]; intros s kinds i Hs Hni Hi Hsz; cbn [enumerate_fold map].
  - by rewrite app_nil_r.
  - cbn [length] in Hsz. rewrite cons_middle app_assoc. apply IH; [apply namespace_step_inv; [done..|lia]|done|lia|].
    rewrite length_app /=. lia.
Qed.

Lemma tool_step_inv reserved s kinds i tool :
  tools_inv s kinds → 0 <= i <= u64_max → (length kinds + length (kinds_of tool) + size reserved < MAX_SUFFIXES)%nat →
  tools_inv (tool_step reserved s i tool) (kinds ++ kinds_of tool).
Proof.
  intros Hs Hi Hsz. unfold tool_step, kinds_of in *. cbv zeta in *.
  destruct (String.eqb _ "function"); [|destruct (String.eqb _ "custom"); [|destruct (String.eqb _ "namespace")]].
  - cbn [length] in Hsz. set (name := str_field "name" tool _).
    pose proof (unique_tool_name_fresh name i (ts_used s) Hi) as Hf.
    destruct (unique_tool_name name i (ts_used s)) as [n used'] eqn:E.
    destruct Hf as (H1 & H2 & H3); [rewrite (tools_inv_size _ _ Hs); lia|]. by apply add_tool_inv.
  - cbn [length] in Hsz. set (name := str_field "name" tool _). set (base := _ +:+ name).
    pose proof (unique_generated_fresh base i (ts_used s) reserved Hi) as Hf.
    destruct (unique_generated_tool_name base i (ts_used s) reserved) as [n used'] eqn:E.
    destruct Hf as (H1 & H2 & H3); [rewrite (tools_inv_size _ _ Hs); lia|]. by apply add_tool_inv.
  - unfold convert_namespace. cbv zeta. destruct (opt_bind (get "tools" tool) as_array) as [tools|]; cbn [unwrap_or] in *.
    + rewrite length_map in Hsz. apply namespace_fold_inv; [done|lia|lia|lia].
    + rewrite app_nil_r. by destruct Hs; split.
  - rewrite app_nil_r. by destruct (is_one_of _ _); destruct Hs; split.
Qed.

Lemma tool_fold_inv reserved tools s kinds i :
  tools_inv s kinds → 0 <= i → i + Z.of_nat (length tools) <= u64_max →
  (length kinds + length (concat (map kinds_of tools)) + size reserved < MAX_SUFFIXES)%nat →
  tools_inv (enumerate_fold (tool_step reserved) i s tools) (kinds ++ concat (map kinds_of tools)).
Proof.
  revert s kinds i. induction tools as [|tool tools IH]; intros s kinds i Hs Hi Hn Hsz; cbn [enumerate_fold map concat].
  - by rewrite app_nil_r.
  - cbn [length map concat] in *. rewrite length_app in Hsz. rewrite app_assoc. apply IH.
    + apply tool_step_inv; [done|lia|lia].
    + lia.
    + lia.
    + rewrite length_app. lia.
Qed.

(** Tools survive the translation: whatever their names, the chat tools offered
    upstream have distinct names of 1 to 64 letters, digits, underscores and dashes,
    and a call of the n-th of them is led back to the n-th tool of the client's
    request - plain, custom or in a namespace - as long as a request has fewer than
    ten thousand tools. *)
Theorem tool_names_lead_back object tools x :
  (length (tool_definitions object) + length (tool_kinds object) < MAX_SUFFIXES)%nat →
  convert_tools object default_context = (tools, x) →
  let names := map chat_name_of tools in
  NoDup names ∧ Forall valid_tool_name names
  ∧ Forall2 (λ name kind, cc_tool_by_chat_name x !! name = Some kind) names (tool_kinds object).
Proof.
  intros Hsz. unfold convert_tools. cbv zeta. intros [= <- <-].
  assert (size (reserved_function_names (tool_definitions object)) <= length (tool_definitions object))%nat as Hr.
  { unfold reserved_function_names. etrans; [apply size_list_to_set_le|]. rewrite length_map.
    etrans; [apply length_omap_le|]. apply List.filter_length_le. }
  assert (Z.of_nat MAX_SUFFIXES = 10000) as HM by done.
  destruct (tool_fold_inv (reserved_function_names (tool_definitions object)) (tool_definitions object)
    (MkToolState ∅ default_context []) [] 0) as [Hn _ Hv Hk].
  - split; [constructor|done|constructor|constructor].
  - lia.
  - mlia.
  - cbn [length]. unfold tool_kinds in Hsz. lia.
  - by split_and!.
Qed.

(** A function, a custom tool and a namespace whose names collide once normalised. *)
Definition wt_object : Value :=
  Object [("tools", Array [
    Object [("name", String "a.b"); ("type", String "function")];
    Object [("name", String "a_b"); ("type", String "function")];
    Object [("name", String "x"); ("type", String "custom")];
    Object [("name", String "ns"); ("tools", Array [Object [("name", String "f")]]); ("type", String "namespace")]])].

Lemma tool_names_lead_back_witness :
  Forall2 (λ name kind, cc_tool_by_chat_name (convert_tools wt_object default_context).2 !! name = Some kind)
    (map chat_name_of (convert_tools wt_object default_context).1)
    [KFunction "a.b"; KFunction "a_b"; KCustom "x"; KNamespace "ns" "f"].
Proof.
  refine (proj2 (proj2 (tool_names_lead_back wt_object _ _ _ (surjective_pairing _)))).
  apply (Nat.ltb_lt (length (tool_definitions wt_object) + length (tool_kinds wt_object)) MAX_SUFFIXES). vm_compute. reflexivity.
Defined.

Example colliding_names :
  map chat_name_of (convert_tools wt_object default_context).1 = ["a_b"; "a_b_1_1"; "lg_custom_x"; "lg_ns_ns_f"].
Proof. by vm_compute. Qed.

(** ** The conversation keeps its order *)
Section Order.
Context (to_vec : Value → option string) (x : ConversionContext).

(** A message as entries: its tool calls one by one, any other message whole. *)
Definition entries_of (message : Value) : list (Value + Value) :=
  match opt_bind (get "tool_calls" message) as_array with
  | Some calls => map inl calls
  | None => [inr message]
  end.

(** What an input item stands for. *)
Definition item_entries (item : Value) : list (Value + Value) :=
  if is_call item then [inl (convert_call_input to_vec item x)]
  else map inr (convert_item to_vec item [] []).1.

Definition has_calls (message : Value) : bool := is_some (opt_bind (get "tool_calls" message) as_array).

(** No two messages with calls follow each other. *)
Fixpoint calls_grouped (messages : list Value) : bool :=
  match messages with
  | a :: rest => match rest with b :: _ => negb (has_calls a && has_calls b) | [] => true end && calls_grouped rest
  | [] => true
  end.

Lemma convert_item_messages item messages warnings :
  (convert_item to_vec item messages warnings).1 = messages ++ (convert_item to_vec item [] []).1
  ∧ forallb (λ m, negb (has_calls m)) (convert_item to_vec item [] []).1 = true.
Proof.
  unfold convert_item. cbv zeta. destruct (String.eqb _ "message").
  { destruct (response_content_to_chat _ []) as [content local]. cbn [fst]. split; [done|].
    cbn. unfold has_calls. by rewrite get_json_obj. }
  destruct (is_one_of _ _); [split; [done|]; cbn; unfold has_calls, tool_message; by rewrite get_json_obj|].
  destruct (String.eqb _ "reasoning").
  { cbn [fst]. destruct (String.eqb (reasoning_summary_text item) ""); [by rewrite app_nil_r|]. split; [done|].
    cbn. unfold has_calls. by rewrite get_json_obj. }
  destruct (String.eqb _ _); cbn; by rewrite app_nil_r.
Qed.

Lemma entries_plain ms : forallb (λ m, negb (has_calls m)) ms = true → concat (map entries_of ms) = map inr ms.
Proof.
  induction ms as [|m ms IH]; cbn; [done|]. intros [Hm Hms]%andb_true_iff. rewrite IH //. unfold entries_of.
  unfold has_calls in Hm. by destruct (opt_bind _ _).
Qed.

Lemma calls_message_entries pending : entries_of (calls_message pending) = map inl pending.
Proof. unfold entries_of, calls_message. by rewrite get_json_obj. Qed.

Lemma flush_entries messages pending :
  concat (map entries_of (flush_calls messages pending)) = concat (map entries_of messages) ++ map inl pending.
Proof.
  unfold flush_calls. destruct pending as [|c pending]; cbn [is_empty map]; [by rewrite app_nil_r|].
  rewrite map_app concat_app. cbn [map concat]. rewrite calls_message_entries. cbn [map]. by rewrite app_nil_r.
Qed.

Lemma convert_items_entries items messages pending warnings :
  concat (map entries_of (convert_items to_vec items x messages pending warnings).1)
  = concat (map entries_of messages) ++ map inl pending ++ concat (map item_entries items).
Proof.
  revert messages pending warnings. induction items as [|item items IH]; intros messages pending warnings; cbn [convert_items map concat].
  - cbn [fst]. by rewrite flush_entries app_nil_r.
  - unfold item_entries at 1. destruct (is_call item) eqn:E.
    + rewrite IH map_app /= -app_assoc. done.
    + pose proof (convert_item_messages item (flush_calls messages pending) warnings) as [Hm Hn].
      destruct (convert_item to_vec item (flush_calls messages pending) warnings) as [ms ws]. cbn [fst] in Hm. subst ms.
      rewrite IH map_app concat_app flush_entries (entries_plain _ Hn). cbn [map app]. by rewrite -!app_assoc.
Qed.

(** The last message carries no calls, or there are no pending ones to come. *)
Definition last_plain (messages : list Value) : bool := is_none_or (last messages) (λ m, negb (has_calls m)).

Lemma grouped_app a b :
  calls_grouped a = true → calls_grouped b = true →
  (last_plain a = true ∨ is_none_or (head b) (λ m, negb (has_calls m)) = true) → calls_grouped (a ++ b) = true.
Proof.
  intros Ha Hb Hab. induction a as [|m a IH]; [done|]. cbn in Ha |- *. apply andb_true_iff in Ha as [Hm Ha].
  apply andb_true_iff. destruct a as [|m' a].
  - cbn in *. split; [|done]. destruct b as [|m' b]; [done|]. cbn in *.
    destruct Hab as [H|H]; apply negb_true_iff in H; rewrite H ?andb_false_r //.
  - split; [done|]. apply IH; [done|]. done.
Qed.

Lemma plain_grouped ms : forallb (λ m, negb (has_calls m)) ms = true → calls_grouped ms = true.
Proof.
  induction ms as [|m ms IH]; cbn; [done|]. intros [Hm Hms]%andb_true_iff. rewrite IH // andb_true_r.
  destruct ms; [done|]. apply negb_true_iff in Hm. by rewrite Hm.
Qed.

Lemma forallb_last {A} (f : A → bool) l : forallb f l = true → is_none_or (last l) f = true.
Proof. induction l as [|a l IH]; [done|]. cbn. intros [Ha Hl]%andb_true_iff. destruct l; [done|]. by apply IH. Qed.

Lemma flush_grouped messages pending :
  calls_grouped messages = true → last_plain messages = true → calls_grouped (flush_calls messages pending) = true.
Proof.
  intros Hg Hl. unfold flush_calls. destruct pending; cbn [is_empty]; [done|]. apply grouped_app; [done|done|by left].
Qed.

End Order.

(** An input item that leaves no message keeps a run of calls from growing, so two runs
    may follow each other around it; all others are kept apart. *)
Definition leaves_message (to_vec : Value → option string) (item : Value) : bool :=
  is_call item || negb (is_empty (convert_item to_vec item [] []).1).

Lemma convert_items_grouped to_vec x items messages pending warnings :
  forallb (leaves_message to_vec) items = true →
  calls_grouped messages = true → last_plain messages = true →
  calls_grouped (convert_items to_vec items x messages pending warnings).1 = true.
Proof.
  revert messages pending warnings. induction items as [|item items IH]; intros messages pending warnings; cbn [convert_items forallb].
  - intros _ Hg Hl. by apply flush_grouped.
  - unfold leaves_message at 1. intros [Hi Hits]%andb_true_iff Hg Hl. destruct (is_call item) eqn:E; [by apply IH|].
    cbn [orb] in Hi.
    pose proof (convert_item_messages to_vec item (flush_calls messages pending) warnings) as [Hm Hn].
    destruct (convert_item to_vec item (flush_calls messages pending) warnings) as [ms ws]. cbn [fst] in Hm. subst ms.
    set (new := (convert_item to_vec item [] []).1) in *. apply IH; [done| |].
    + apply grouped_app; [by apply flush_grouped|by apply plain_grouped|]. right. destruct new; [done|].
      cbn in Hn |- *. by apply andb_true_iff in Hn as [? _].
    + unfold last_plain. pose proof (forallb_last _ _ Hn) as Hlast. destruct new as [|m new _] using rev_ind; [done|].
      rewrite app_assoc last_snoc. by rewrite last_snoc in Hlast.
Qed.

(** The conversation keeps its order: read message by message, with tool calls one
    by one, the chat messages are what the input items stand for, none lost, none
    added, none moved; calls that follow each other share one message, and no two
    messages of calls stand side by side when every item leaves a message. *)
Theorem conversation_order_kept to_vec x items :
  let messages := (convert_input to_vec (Array items) x [] []).1 in
  concat (map entries_of messages) = concat (map (item_entries to_vec x) items)
  ∧ (forallb (leaves_message to_vec) items = true → calls_grouped messages = true).
Proof.
  cbv zeta. cbn [convert_input]. split; [by rewrite convert_items_entries|]. intros H. by apply convert_items_grouped.
Qed.

(** Two parallel calls and their outputs. *)
Definition wc_items : list Value :=
  [Object [("call_id", String "a"); ("name", String "f"); ("type", String "function_call")];
   Object [("call_id", String "b"); ("name", String "g"); ("type", String "function_call")];
   Object [("call_id", String "a"); ("output", String "1"); ("type", String "function_call_output")];
   Object [("call_id", String "b"); ("output", String "2"); ("type", String "function_call_output")]].

Lemma conversation_order_kept_witness :
  calls_grouped (convert_input (λ _, None) (Array wc_items) default_context [] []).1 = true.
Proof. exact (proj2 (conversation_order_kept (λ _, None) default_context wc_items) eq_refl). Defined.

Example parallel_calls_share_a_message :
  map has_calls (convert_input (λ _, None) (Array wc_items) default_context [] []).1 = [true; false; false].
Proof. by vm_compute. Qed.
