(* ===== verification/ViaChatStream.v ===== *)
(** * ViaChatStream: a chat completion as a Responses answer

    Models the response half of [responses_via_chat.rs]: a whole answer, its tool calls
    and its usage, and the converter that turns a stream of chat chunks into the events
    of the Responses format. The body that feeds it is [ConvertedSseBody] of [proxy.rs]. *)
From Stdlib Require Import Ascii String.
From S2P Require Import Prelude Float64 Text Json Types Affinity ResponseEvents OpenAi ViaChatRequest.

Local Open Scope string_scope.
Local Open Scope list_scope.
Local Open Scope Z_scope.

(** ** Server-sent events of the upstream *)
Record SseEvent := MkSseEvent { se_event_name : option string; se_data : string }.

Record ConvDecoder := MkConvDecoder {
  cd_buffer : list ascii;
  cd_event_name : option string;
  cd_data_lines : list string
}.

Definition new_conv_decoder : ConvDecoder := MkConvDecoder [] None [].

Definition newline : string := of_chars [nl].

Definition dispatch (d : ConvDecoder) : list SseEvent * ConvDecoder :=
  if is_empty (cd_data_lines d) && is_none (cd_event_name d) then ([], d)
  else ([MkSseEvent (cd_event_name d) (String.concat newline (cd_data_lines d))], MkConvDecoder (cd_buffer d) None []).

Definition strip_space1 (l : list ascii) : list ascii :=
  match l with c :: l' => if Ascii.eqb c " "%char then l' else l | [] => [] end.

Definition process_line (d : ConvDecoder) (line : list ascii) : list SseEvent * ConvDecoder :=
  match line with
  | [] => dispatch d
  | c :: _ =>
      if Ascii.eqb c ":"%char then ([], d)
      else
        let '(field, value) := match split_once_chars ":"%char line with
                               | Some (field, value) => (field, strip_space1 value)
                               | None => (line, [])
                               end in
        if bool_decide (field = chars "event") then
          ([], MkConvDecoder (cd_buffer d) (Some (from_utf8_lossy value)) (cd_data_lines d))
        else if bool_decide (field = chars "data") then
          ([], MkConvDecoder (cd_buffer d) (cd_event_name d) (cd_data_lines d ++ [from_utf8_lossy value]))
        else ([], d)
  end.

(** The lines of [rest]; [line] is the one being read, last byte first. *)
Fixpoint drain_lines (rest line : list ascii) (d : ConvDecoder) : list SseEvent * ConvDecoder :=
  match rest with
  | [] => ([], MkConvDecoder (reverse line) (cd_event_name d) (cd_data_lines d))
  | c :: rest =>
      if Ascii.eqb c nl then
        let '(e1, d) := process_line d (strip_cr (reverse line)) in
        let '(e2, d) := drain_lines rest [] d in (e1 ++ e2, d)
      else drain_lines rest (c :: line) d
  end.

Definition decoder_push (d : ConvDecoder) (bytes : list ascii) (max_bytes : Z) : list SseEvent * ConvDecoder + string :=
  let buffer := cd_buffer d ++ bytes in
  if max_bytes <? Z.of_nat (length buffer) then
    inr ("SSE conversion buffer exceeded " +:+ show_Z max_bytes +:+ " bytes")
  else inl (drain_lines buffer [] d).

Definition decoder_finish (d : ConvDecoder) : list SseEvent * ConvDecoder :=
  let '(e1, d) := match cd_buffer d with
                  | [] => ([], d)
                  | line => process_line (MkConvDecoder [] (cd_event_name d) (cd_data_lines d)) line
                  end in
  let '(e2, d) := dispatch d in (e1 ++ e2, d).

(** ** Parts of an answer *)
Section Answer.
(** [blake3::hash], and the JSON reader and printer. *)
Context (blake3 : list Z → list Z) (from_slice : string → option Value) (to_vec : Value → option string).

Definition short_hash (value : string) : string := hex_encode (take 12 (blake3 (as_bytes value))).

Definition response_id (chat_id : option string) : string :=
  match chat_id with
  | Some id => if starts_with "resp_" id then id else "resp_" +:+ short_hash id
  | None => "resp_" +:+ short_hash "missing-response-id"
  end.

Definition chat_usage_to_responses (usage : Value) : Value :=
  let field names := opt_bind (pointer names usage) as_i64 in
  let input_tokens := unwrap_or (field ["prompt_tokens"]) 0 in
  let output_tokens := unwrap_or (field ["completion_tokens"]) 0 in
  let cached_tokens := unwrap_or (opt_or (field ["prompt_tokens_details"; "cached_tokens"]) (field ["cached_tokens"])) 0 in
  let cache_creation_tokens :=
    unwrap_or (opt_or (opt_or (field ["prompt_tokens_details"; "cache_creation_tokens"]) (field ["cache_creation_tokens"]))
                 (field ["cached_creation_tokens"])) 0 in
  let reasoning_tokens := unwrap_or (field ["completion_tokens_details"; "reasoning_tokens"]) 0 in
  json_obj [("input_tokens", json_i64 input_tokens);
    ("input_tokens_details", json_obj [("cached_tokens", json_i64 cached_tokens);
                                       ("cache_creation_tokens", json_i64 cache_creation_tokens)]);
    ("output_tokens", json_i64 output_tokens);
    ("output_tokens_details", json_obj [("reasoning_tokens", json_i64 reasoning_tokens)]);
    ("total_tokens", json_i64 (unwrap_or (field ["total_tokens"]) (i64_sat_add input_tokens output_tokens)))].

Definition custom_input (arguments : string) : string :=
  unwrap_or (opt_bind (from_slice arguments) (get_str "input")) arguments.

Definition function_call_item (call_id name arguments : string) : Value :=
  json_obj [("id", String ("fc_" +:+ short_hash call_id)); ("type", String "function_call");
    ("status", String "completed"); ("call_id", String call_id); ("name", String name); ("arguments", String arguments)].

(** A call of the answer, led back to the tool it is for. *)
Definition response_tool_item (tool_call : Value) (index : Z) (x : ConversionContext) : Value :=
  let call_id := unwrap_or (get_str "id" tool_call) ("call_" +:+ short_hash (show_Z index)) in
  let name := unwrap_or (opt_bind (pointer ["function"; "name"] tool_call) as_str) "unknown_tool" in
  let arguments := unwrap_or (opt_bind (pointer ["function"; "arguments"] tool_call) as_str) "{}" in
  match cc_tool_by_chat_name x !! name with
  | Some (KCustom name) =>
      json_obj [("id", String ("ctc_" +:+ short_hash call_id)); ("type", String "custom_tool_call");
        ("status", String "completed"); ("call_id", String call_id); ("name", String name);
        ("input", String (custom_input arguments))]
  | Some (KNamespace namespace name) => function_call_item call_id (namespace +:+ "." +:+ name) arguments
  | Some (KFunction name) => function_call_item call_id name arguments
  | None => function_call_item call_id name arguments
  end.

Definition text_part (text : string) : Value :=
  json_obj [("type", String "output_text"); ("text", String text); ("annotations", Array []); ("logprobs", Array [])].

Definition message_content (message : Value) : list Value :=
  match get "content" message with
  | Some (String text) => [text_part text]
  | Some (Array parts) => omap (λ part, option_map text_part (opt_or (get_str "text" part) (as_str part))) parts
  | _ => []
  end.

Definition response_message_item (message : Value) (response_id : string) : Value :=
  json_obj [("id", String ("msg_" +:+ short_hash response_id)); ("type", String "message");
    ("status", String "completed"); ("role", String "assistant"); ("content", Array (message_content message))].

Fixpoint tool_items (tool_calls : list Value) (index : Z) (x : ConversionContext) : list Value :=
  match tool_calls with
  | [] => []
  | call :: rest => response_tool_item call index x :: tool_items rest (index + 1) x
  end.

Definition incomplete_reason (finish_reason : option string) : option string :=
  match finish_reason with
  | Some reason => if String.eqb reason "length" then Some "max_output_tokens"
                   else if String.eqb reason "content_filter" then Some "content_filter" else None
  | None => None
  end.

Definition incomplete_details (finish_reason : option string) : Value :=
  json_opt (option_map (λ reason, json_obj [("reason", String reason)]) (incomplete_reason finish_reason)).

Definition answer_output (message : Value) (response_id : string) (x : ConversionContext) : list Value :=
  (if is_some_and (get "content" message) (λ content, negb (is_null content))
   then [response_message_item message response_id] else [])
  ++ match opt_bind (get "tool_calls" message) as_array with Some calls => tool_items calls 0 x | None => [] end.

Definition chat_answer (chat : Value) (x : ConversionContext) : Value + string :=
  match get "error" chat with
  | Some error => inr "upstream Chat Completions error"
  | None =>
      match opt_bind (opt_bind (get "choices" chat) as_array) head with
      | None => inr "Chat Completions response has no choice"
      | Some choice =>
          match get "message" choice with
          | None => inr "Chat Completions response has no message"
          | Some message =>
              let id := response_id (get_str "id" chat) in
              let finish_reason := get_str "finish_reason" choice in
              let created := opt_bind (get "created" chat) as_i64 in
              inl (json_obj [("id", String id); ("object", String "response");
                ("created_at", json_i64 (unwrap_or created 0));
                ("status", String (if is_some (incomplete_reason finish_reason) then "incomplete" else "completed"));
                ("completed_at", json_opt (option_map json_i64 created)); ("error", Null);
                ("incomplete_details", incomplete_details finish_reason); ("instructions", Null);
                ("max_output_tokens", Null); ("model", json_opt (get "model" chat));
                ("service_tier", json_opt (get "service_tier" chat)); ("output", Array (answer_output message id x));
                ("parallel_tool_calls", Bool true); ("previous_response_id", Null);
                ("reasoning", json_obj [("effort", Null); ("summary", Null)]); ("store", Bool false);
                ("temperature", Null); ("text", json_obj [("format", json_obj [("type", String "text")])]);
                ("tool_choice", String "auto"); ("tools", Array []); ("top_p", Null); ("truncation", String "disabled");
                ("usage", json_opt (option_map chat_usage_to_responses (get "usage" chat))); ("user", Null);
                ("metadata", Object [])])
          end
      end
  end.

Definition chat_response_to_responses (body : string) (x : ConversionContext) : string + string :=
  match from_slice body with
  | None => inr "invalid Chat Completions response"
  | Some chat =>
      match chat_answer chat x with
      | inr e => inr e
      | inl response => match to_vec response with Some body => inl body | None => inr "failed to encode Responses response" end
      end
  end.
End Answer.

(** ** The converter of a stream *)
Record StreamToolCall := MkStreamTool {
  st_call_id : string;
  st_name : string;
  st_arguments : string;
  st_output_index : nat;
  st_emitted : bool;
  st_emitted_arguments_len : nat
}.

Record ChatSseToResponses := MkConverter {
  cv_decoder : ConvDecoder;
  cv_context : ConversionContext;
  cv_max_bytes : Z;
  cv_response_id : string;
  cv_model : Value;
  cv_created_at : Z;
  cv_created : bool;
  cv_sequence : Z;
  cv_output : list Value;
  cv_message_index : option nat;
  cv_message_id : string;
  cv_text : string;
  cv_text_started : bool;
  cv_tools : gmap Z StreamToolCall;
  cv_tool_order : list Z;
  cv_usage : Value;
  cv_service_tier : option string;
  cv_finish_reason : option string;
  cv_saw_done : bool;
  cv_terminal : bool;
  cv_total_seen : Z
}.

(** One field replaced. *)
Definition set_cv_decoder (v : ConvDecoder) (c : ChatSseToResponses) : ChatSseToResponses :=
  MkConverter v (cv_context c) (cv_max_bytes c) (cv_response_id c) (cv_model c) (cv_created_at c) (cv_created c) (cv_sequence c) (cv_output c) (cv_message_index c) (cv_message_id c) (cv_text c) (cv_text_started c) (cv_tools c) (cv_tool_order c) (cv_usage c) (cv_service_tier c) (cv_finish_reason c) (cv_saw_done c) (cv_terminal c) (cv_total_seen c).
Definition set_cv_created (v : bool) (c : ChatSseToResponses) : ChatSseToResponses :=
  MkConverter (cv_decoder c) (cv_context c) (cv_max_bytes c) (cv_response_id c) (cv_model c) (cv_created_at c) v (cv_sequence c) (cv_output c) (cv_message_index c) (cv_message_id c) (cv_text c) (cv_text_started c) (cv_tools c) (cv_tool_order c) (cv_usage c) (cv_service_tier c) (cv_finish_reason c) (cv_saw_done c) (cv_terminal c) (cv_total_seen c).
Definition set_cv_sequence (v : Z) (c : ChatSseToResponses) : ChatSseToResponses :=
  MkConverter (cv_decoder c) (cv_context c) (cv_max_bytes c) (cv_response_id c) (cv_model c) (cv_created_at c) (cv_created c) v (cv_output c) (cv_message_index c) (cv_message_id c) (cv_text c) (cv_text_started c) (cv_tools c) (cv_tool_order c) (cv_usage c) (cv_service_tier c) (cv_finish_reason c) (cv_saw_done c) (cv_terminal c) (cv_total_seen c).
Definition set_cv_output (v : list Value) (c : ChatSseToResponses) : ChatSseToResponses :=
  MkConverter (cv_decoder c) (cv_context c) (cv_max_bytes c) (cv_response_id c) (cv_model c) (cv_created_at c) (cv_created c) (cv_sequence c) v (cv_message_index c) (cv_message_id c) (cv_text c) (cv_text_started c) (cv_tools c) (cv_tool_order c) (cv_usage c) (cv_service_tier c) (cv_finish_reason c) (cv_saw_done c) (cv_terminal c) (cv_total_seen c).
Definition set_cv_message_index (v : option nat) (c : ChatSseToResponses) : ChatSseToResponses :=
  MkConverter (cv_decoder c) (cv_context c) (cv_max_bytes c) (cv_response_id c) (cv_model c) (cv_created_at c) (cv_created c) (cv_sequence c) (cv_output c) v (cv_message_id c) (cv_text c) (cv_text_started c) (cv_tools c) (cv_tool_order c) (cv_usage c) (cv_service_tier c) (cv_finish_reason c) (cv_saw_done c) (cv_terminal c) (cv_total_seen c).
Definition set_cv_text (v : string) (c : ChatSseToResponses) : ChatSseToResponses :=
  MkConverter (cv_decoder c) (cv_context c) (cv_max_bytes c) (cv_response_id c) (cv_model c) (cv_created_at c) (cv_created c) (cv_sequence c) (cv_output c) (cv_message_index c) (cv_message_id c) v (cv_text_started c) (cv_tools c) (cv_tool_order c) (cv_usage c) (cv_service_tier c) (cv_finish_reason c) (cv_saw_done c) (cv_terminal c) (cv_total_seen c).
Definition set_cv_text_started (v : bool) (c : ChatSseToResponses) : ChatSseToResponses :=
  MkConverter (cv_decoder c) (cv_context c) (cv_max_bytes c) (cv_response_id c) (cv_model c) (cv_created_at c) (cv_created c) (cv_sequence c) (cv_output c) (cv_message_index c) (cv_message_id c) (cv_text c) v (cv_tools c) (cv_tool_order c) (cv_usage c) (cv_service_tier c) (cv_finish_reason c) (cv_saw_done c) (cv_terminal c) (cv_total_seen c).
Definition set_cv_tools (v : gmap Z StreamToolCall) (c : ChatSseToResponses) : ChatSseToResponses :=
  MkConverter (cv_decoder c) (cv_context c) (cv_max_bytes c) (cv_response_id c) (cv_model c) (cv_created_at c) (cv_created c) (cv_sequence c) (cv_output c) (cv_message_index c) (cv_message_id c) (cv_text c) (cv_text_started c) v (cv_tool_order c) (cv_usage c) (cv_service_tier c) (cv_finish_reason c) (cv_saw_done c) (cv_terminal c) (cv_total_seen c).
Definition set_cv_tool_order (v : list Z) (c : ChatSseToResponses) : ChatSseToResponses :=
  MkConverter (cv_decoder c) (cv_context c) (cv_max_bytes c) (cv_response_id c) (cv_model c) (cv_created_at c) (cv_created c) (cv_sequence c) (cv_output c) (cv_message_index c) (cv_message_id c) (cv_text c) (cv_text_started c) (cv_tools c) v (cv_usage c) (cv_service_tier c) (cv_finish_reason c) (cv_saw_done c) (cv_terminal c) (cv_total_seen c).
Definition set_cv_usage (v : Value) (c : ChatSseToResponses) : ChatSseToResponses :=
  MkConverter (cv_decoder c) (cv_context c) (cv_max_bytes c) (cv_response_id c) (cv_model c) (cv_created_at c) (cv_created c) (cv_sequence c) (cv_output c) (cv_message_index c) (cv_message_id c) (cv_text c) (cv_text_started c) (cv_tools c) (cv_tool_order c) v (cv_service_tier c) (cv_finish_reason c) (cv_saw_done c) (cv_terminal c) (cv_total_seen c).
Definition set_cv_service_tier (v : option string) (c : ChatSseToResponses) : ChatSseToResponses :=
  MkConverter (cv_decoder c) (cv_context c) (cv_max_bytes c) (cv_response_id c) (cv_model c) (cv_created_at c) (cv_created c) (cv_sequence c) (cv_output c) (cv_message_index c) (cv_message_id c) (cv_text c) (cv_text_started c) (cv_tools c) (cv_tool_order c) (cv_usage c) v (cv_finish_reason c) (cv_saw_done c) (cv_terminal c) (cv_total_seen c).
Definition set_cv_finish_reason (v : option string) (c : ChatSseToResponses) : ChatSseToResponses :=
  MkConverter (cv_decoder c) (cv_context c) (cv_max_bytes c) (cv_response_id c) (cv_model c) (cv_created_at c) (cv_created c) (cv_sequence c) (cv_output c) (cv_message_index c) (cv_message_id c) (cv_text c) (cv_text_started c) (cv_tools c) (cv_tool_order c) (cv_usage c) (cv_service_tier c) v (cv_saw_done c) (cv_terminal c) (cv_total_seen c).
Definition set_cv_saw_done (v : bool) (c : ChatSseToResponses) : ChatSseToResponses :=
  MkConverter (cv_decoder c) (cv_context c) (cv_max_bytes c) (cv_response_id c) (cv_model c) (cv_created_at c) (cv_created c) (cv_sequence c) (cv_output c) (cv_message_index c) (cv_message_id c) (cv_text c) (cv_text_started c) (cv_tools c) (cv_tool_order c) (cv_usage c) (cv_service_tier c) (cv_finish_reason c) v (cv_terminal c) (cv_total_seen c).
Definition set_cv_terminal (v : bool) (c : ChatSseToResponses) : ChatSseToResponses :=
  MkConverter (cv_decoder c) (cv_context c) (cv_max_bytes c) (cv_response_id c) (cv_model c) (cv_created_at c) (cv_created c) (cv_sequence c) (cv_output c) (cv_message_index c) (cv_message_id c) (cv_text c) (cv_text_started c) (cv_tools c) (cv_tool_order c) (cv_usage c) (cv_service_tier c) (cv_finish_reason c) (cv_saw_done c) v (cv_total_seen c).
Definition set_cv_total_seen (v : Z) (c : ChatSseToResponses) : ChatSseToResponses :=
  MkConverter (cv_decoder c) (cv_context c) (cv_max_bytes c) (cv_response_id c) (cv_model c) (cv_created_at c) (cv_created c) (cv_sequence c) (cv_output c) (cv_message_index c) (cv_message_id c) (cv_text c) (cv_text_started c) (cv_tools c) (cv_tool_order c) (cv_usage c) (cv_service_tier c) (cv_finish_reason c) (cv_saw_done c) (cv_terminal c) v.

(** An event that goes out: its name and its data. *)
Notation Event := (string * Value)%type.
Notation Op := (ChatSseToResponses → list Event * ChatSseToResponses).

(** One operation after another: the events of both. *)
Definition andthen (f g : Op) : Op := λ c,
  let '(e1, c) := f c in let '(e2, c) := g c in (e1 ++ e2, c).
Notation "f +> g" := (andthen f g) (at level 60, right associativity).
Definition quiet (f : ChatSseToResponses → ChatSseToResponses) : Op := λ c, ([], f c).
Definition nothing : Op := quiet id.
Definition each {A} (f : A → Op) (l : list A) : Op := foldr (λ x k, f x +> k) nothing l.
(** An operation that reads the state first. *)
Definition reading {A} (read : ChatSseToResponses → A) (f : A → Op) : Op := λ c, f (read c) c.

Section Converter.
Context (blake3 : list Z → list Z) (from_slice : string → option Value) (to_vec : Value → option string).

Definition new_converter (x : ConversionContext) (max_bytes : Z) : ChatSseToResponses :=
  MkConverter new_conv_decoder x (Z.max max_bytes 1024) (response_id blake3 None) Null 0 false 0 [] None
    ("msg_" +:+ short_hash blake3 "stream-message") "" false ∅ [] Null None None false false 0.

Definition event (name : string) (fields : list (string * Value)) : Op := λ c,
  ([(name, json_obj (fields ++ [("sequence_number", json_i64 (cv_sequence c))]))],
   set_cv_sequence (i64_sat_add (cv_sequence c) 1) c).

Definition response_snapshot (c : ChatSseToResponses) (status : string) : Value :=
  json_obj [("id", String (cv_response_id c)); ("object", String "response"); ("created_at", json_i64 (cv_created_at c));
    ("status", String status); ("error", Null); ("incomplete_details", incomplete_details (cv_finish_reason c));
    ("model", cv_model c); ("output", Array (cv_output c)); ("parallel_tool_calls", Bool true); ("usage", cv_usage c);
    ("service_tier", json_opt (option_map String (cv_service_tier c))); ("metadata", Object [])].

Definition typed (name : string) (fields : list (string * Value)) : Op := event name (("type", String name) :: fields).

Definition snapshot_event (name status : string) : Op :=
  reading (λ c, response_snapshot c status) (λ response, typed name [("response", response)]).

Definition start_events : Op :=
  quiet (set_cv_created true) +>
  snapshot_event "response.created" "in_progress" +>
  snapshot_event "response.in_progress" "in_progress".

(** The slot of an output item; out of range nothing happens. *)
Definition put_output (i : nat) (item : Value) : Op := quiet (λ c, set_cv_output (<[i := item]> (cv_output c)) c).

Definition ensure_message : Op := λ c,
  match cv_message_index c with
  | Some _ => ([], c)
  | None =>
      let output_index := length (cv_output c) in
      let item := json_obj [("id", String (cv_message_id c)); ("type", String "message"); ("status", String "in_progress");
                            ("role", String "assistant"); ("content", Array [])] in
      (quiet (λ c, set_cv_output (cv_output c ++ [item]) (set_cv_message_index (Some output_index) c)) +>
       typed "response.output_item.added" [("output_index", json_i64 (Z.of_nat output_index)); ("item", item)]) c
  end.

Definition message_slot (c : ChatSseToResponses) : nat := unwrap_or (cv_message_index c) 0%nat.

(** Where a text event belongs. *)
Definition text_place (c : ChatSseToResponses) : list (string * Value) :=
  [("item_id", String (cv_message_id c)); ("output_index", json_i64 (Z.of_nat (message_slot c))); ("content_index", json_i64 0)].

Definition start_text : Op := λ c,
  if cv_text_started c then ([], c)
  else (quiet (set_cv_text_started true) +>
        typed "response.content_part.added" (text_place c ++ [("part", text_part "")])) c.

Definition append_text (delta : string) : Op :=
  ensure_message +>
  start_text +>
  quiet (λ c, set_cv_text (cv_text c +:+ delta) c) +>
  reading text_place (λ place,
    typed "response.output_text.delta" (place ++ [("delta", String delta); ("logprobs", Array [])])).

Definition tool_value (t : StreamToolCall) (arguments : string) : Value :=
  json_obj [("id", String (st_call_id t));
            ("function", json_obj [("name", String (st_name t)); ("arguments", String arguments)])].

Definition stream_tool_item_id (t : StreamToolCall) (index : Z) (x : ConversionContext) : string :=
  str_field "id" (response_tool_item blake3 from_slice (tool_value t (st_arguments t)) index x) "fc_missing".

Definition is_custom_tool (x : ConversionContext) (name : string) : bool :=
  match cc_tool_by_chat_name x !! name with Some (KCustom _) => true | _ => false end.

(** Names and ids made up for a call that never got them. *)
Definition complete_tool (c : ChatSseToResponses) (index : Z) (t : StreamToolCall) : StreamToolCall :=
  MkStreamTool
    (if String.eqb (st_call_id t) "" then "call_" +:+ short_hash blake3 (cv_response_id c +:+ ":" +:+ show_Z index) else st_call_id t)
    (if String.eqb (st_name t) "" then "unknown_tool_" +:+ show_Z index else st_name t)
    (st_arguments t) (st_output_index t) (st_emitted t) (st_emitted_arguments_len t).

Definition put_tool (index : Z) (t : StreamToolCall) : Op := quiet (λ c, set_cv_tools (<[index := t]> (cv_tools c)) c).

Definition announce_tool (index : Z) (t : StreamToolCall) : Op := λ c,
  if st_emitted t then ([], c)
  else
    let item := match response_tool_item blake3 from_slice (tool_value t "") index (cv_context c) with
                | Object item => Object (assoc_insert "status" (String "in_progress") item)
                | item => item
                end in
    (put_output (st_output_index t) item +>
     typed "response.output_item.added" [("output_index", json_i64 (Z.of_nat (st_output_index t))); ("item", item)]) c.

Definition argument_event (c : ChatSseToResponses) (t : StreamToolCall) : string :=
  if is_custom_tool (cv_context c) (st_name t) then "response.custom_tool_call_input.delta"
  else "response.function_call_arguments.delta".

Definition send_arguments (index : Z) (t : StreamToolCall) : Op := λ c,
  if (st_emitted_arguments_len t <? String.length (st_arguments t))%nat then
    typed (argument_event c t)
      [("item_id", String (stream_tool_item_id t index (cv_context c)));
       ("output_index", json_i64 (Z.of_nat (st_output_index t)));
       ("delta", String (of_chars (drop (st_emitted_arguments_len t) (chars (st_arguments t)))))] c
  else ([], c).

(** A call announced, with all its arguments sent. *)
Definition sent_tool (t : StreamToolCall) : StreamToolCall :=
  MkStreamTool (st_call_id t) (st_name t) (st_arguments t) (st_output_index t) true
    (Nat.max (st_emitted_arguments_len t) (String.length (st_arguments t))).

Definition emit_tool (index : Z) (force : bool) : Op := λ c,
  match cv_tools c !! index with
  | None => ([], c)
  | Some t =>
      let t := if force then complete_tool c index t else t in
      if String.eqb (st_name t) "" || String.eqb (st_call_id t) "" then put_tool index t c
      else (announce_tool index t +> send_arguments index t +> put_tool index (sent_tool t)) c
  end.

Definition new_stream_tool (output_index : nat) : StreamToolCall := MkStreamTool "" "" "" output_index false 0.

Definition open_tool (index : Z) : Op := quiet (λ c,
  match cv_tools c !! index with
  | Some _ => c
  | None =>
      c |> set_cv_tool_order (cv_tool_order c ++ [index])
        |> set_cv_tools (<[index := new_stream_tool (length (cv_output c))]> (cv_tools c))
        |> set_cv_output (cv_output c ++ [Null])
  end).

Definition grow_tool (call_id_delta name_delta arguments_delta : string) (t : StreamToolCall) : StreamToolCall :=
  MkStreamTool (st_call_id t +:+ call_id_delta) (st_name t +:+ name_delta) (st_arguments t +:+ arguments_delta)
    (st_output_index t) (st_emitted t) (st_emitted_arguments_len t).

Definition append_tool_delta (delta : Value) : Op :=
  let index := unwrap_or (opt_bind (get "index" delta) as_u64) 0 in
  let call_id_delta := str_field "id" delta "" in
  let name_delta := unwrap_or (opt_bind (pointer ["function"; "name"] delta) as_str) "" in
  let arguments_delta := unwrap_or (opt_bind (pointer ["function"; "arguments"] delta) as_str) "" in
  open_tool index +>
  quiet (λ c, match cv_tools c !! index with
              | Some t => set_cv_tools (<[index := grow_tool call_id_delta name_delta arguments_delta t]> (cv_tools c)) c
              | None => c
              end) +>
  emit_tool index false.

(** The end of the text, and of the message. *)
Definition finish_text : Op := λ c,
  if cv_text_started c then
    (typed "response.output_text.done" (text_place c ++ [("text", String (cv_text c)); ("logprobs", Array [])]) +>
     typed "response.content_part.done" (text_place c ++ [("part", text_part (cv_text c))])) c
  else ([], c).

Definition finish_message : Op := λ c,
  match cv_message_index c with
  | None => ([], c)
  | Some output_index =>
      let item := json_obj [("id", String (cv_message_id c)); ("type", String "message"); ("status", String "completed");
                    ("role", String "assistant");
                    ("content", Array (if cv_text_started c then [text_part (cv_text c)] else []))] in
      (finish_text +>
       put_output output_index item +>
       typed "response.output_item.done" [("output_index", json_i64 (Z.of_nat output_index)); ("item", item)]) c
  end.

Definition finish_tool (index : Z) : Op := λ c,
  match cv_tools c !! index with
  | None => ([], c)
  | Some t =>
      let item := response_tool_item blake3 from_slice (tool_value t (st_arguments t)) index (cv_context c) in
      let is_custom := str_is (get_str "type" item) ["custom_tool_call"] in
      let key := if is_custom then "input" else "arguments" in
      (put_output (st_output_index t) item +>
       typed (if is_custom then "response.custom_tool_call_input.done" else "response.function_call_arguments.done")
         [("item_id", json_opt (get "id" item)); ("output_index", json_i64 (Z.of_nat (st_output_index t)));
          (key, json_opt (get key item))] +>
       typed "response.output_item.done" [("output_index", json_i64 (Z.of_nat (st_output_index t))); ("item", item)]) c
  end.

Definition complete : Op := λ c,
  if cv_terminal c then ([], c)
  else
    (each (λ index, emit_tool index true) (cv_tool_order c) +>
     finish_message +>
     each finish_tool (cv_tool_order c) +>
     quiet (set_cv_terminal true) +>
     snapshot_event "response.completed"
       (if is_some (incomplete_reason (cv_finish_reason c)) then "incomplete" else "completed")) c.

Definition fail (message : string) : Op := λ c,
  if cv_terminal c then ([], c)
  else
    let code := ("code", String "responses_via_chat_conversion_failed") in
    ((if cv_created c then nothing else start_events) +>
     event "error" [("type", String "error"); code; ("message", String message)] +>
     quiet (set_cv_terminal true) +>
     reading (λ c, json_obj [("id", String (cv_response_id c)); ("object", String "response");
                ("created_at", json_i64 (cv_created_at c)); ("status", String "failed");
                ("error", json_obj [("type", String "server_error"); code; ("message", String message)]);
                ("output", Array (cv_output c)); ("model", cv_model c); ("usage", cv_usage c);
                ("service_tier", json_opt (option_map String (cv_service_tier c)))])
       (λ response, typed "response.failed" [("response", response)])) c.

(** What the first chunk tells about the answer. *)
Definition identify (chunk : Value) (c : ChatSseToResponses) : ChatSseToResponses :=
  let '(id, message_id) :=
    match get_str "id" chunk with
    | Some id => (response_id blake3 (Some id), "msg_" +:+ short_hash blake3 (response_id blake3 (Some id)))
    | None => (cv_response_id c, cv_message_id c)
    end in
  MkConverter (cv_decoder c) (cv_context c) (cv_max_bytes c) id (json_opt (get "model" chunk))
    (unwrap_or (opt_bind (get "created" chunk) as_i64) 0) (cv_created c) (cv_sequence c) (cv_output c)
    (cv_message_index c) message_id (cv_text c) (cv_text_started c) (cv_tools c) (cv_tool_order c) (cv_usage c)
    (cv_service_tier c) (cv_finish_reason c) (cv_saw_done c) (cv_terminal c) (cv_total_seen c).

Definition note_service_tier (chunk : Value) (c : ChatSseToResponses) : ChatSseToResponses :=
  match service_tier chunk with Some tier => set_cv_service_tier (Some tier) c | None => c end.
Definition note_usage (chunk : Value) (c : ChatSseToResponses) : ChatSseToResponses :=
  match get "usage" chunk with
  | Some Null | None => c
  | Some usage => set_cv_usage (chat_usage_to_responses usage) c
  end.
Definition note_finish (choice : Value) (c : ChatSseToResponses) : ChatSseToResponses :=
  match get_str "finish_reason" choice with Some reason => set_cv_finish_reason (Some reason) c | None => c end.

Definition delta_ops (delta : Value) : Op :=
  match get_str "content" delta with Some content => append_text content | None => nothing end +>
  match opt_bind (get "tool_calls" delta) as_array with
  | Some tool_calls => each append_tool_delta tool_calls
  | None => nothing
  end.

Definition process_chunk (chunk : Value) : Op :=
  quiet (note_service_tier chunk) +>
  (λ c, if cv_created c then ([], c) else (quiet (identify chunk) +> start_events) c) +>
  quiet (note_usage chunk) +>
  match opt_bind (opt_bind (get "choices" chunk) as_array) head with
  | None => nothing
  | Some choice =>
      quiet (note_finish choice) +>
      match opt_bind (get "delta" choice) as_object with
      | Some delta => delta_ops (Object delta)
      | None => nothing
      end
  end.

(** Events the upstream names as errors. *)
Definition names_error (e : SseEvent) : bool :=
  is_some_and (se_event_name e) (λ name, String.eqb name "error" || ends_with ".error" name).

Definition process_event (e : SseEvent) : Op :=
  if String.eqb (trim (se_data e)) "[DONE]" then quiet (set_cv_saw_done true) +> complete
  else if names_error e then fail (se_data e)
  else match from_slice (se_data e) with
       | None => nothing
       | Some value =>
           match get "error" value with
           | Some Null | None => process_chunk value
           | Some error => fail (unwrap_or (to_vec error) "")
           end
       end.

Definition process_events (events : list SseEvent) : Op := each process_event events.

Definition push (bytes : list ascii) : Op := λ c,
  if cv_terminal c then ([], c)
  else
    let c := set_cv_total_seen (u64_sat_add (cv_total_seen c) (Z.of_nat (length bytes))) c in
    if cv_max_bytes c <? cv_total_seen c then
      fail ("SSE conversion state exceeded " +:+ show_Z (cv_max_bytes c) +:+ " bytes") c
    else match decoder_push (cv_decoder c) bytes (cv_max_bytes c) with
         | inr error => fail error c
         | inl (events, decoder) => process_events events (set_cv_decoder decoder c)
         end.

Definition finish : Op := λ c,
  if cv_terminal c then ([], c)
  else
    let '(events, decoder) := decoder_finish (cv_decoder c) in
    (process_events events +>
     (λ c, if cv_terminal c then ([], c)
           else if cv_saw_done c then complete c
           else fail "upstream Chat Completions stream ended before [DONE]" c)) (set_cv_decoder decoder c).

(** [fail_stream] is [fail]. The body of [proxy.rs] pushes every frame and ends with
    [finish], or with [fail] when the connection breaks. *)
Definition convert_stream (frames : list (list ascii)) (broken : option string) : Op :=
  each push frames +> match broken with Some message => fail message | None => finish end.
End Converter.

