(* ===== verification/ViaChatProtocol.v ===== *)
(** * ViaChatProtocol: what a converted stream promises

    The theorems about the converter of [ViaChatStream]: its events are numbered without
    a gap, the stream starts and ends once, and the text and the arguments announced at
    the end are exactly what was streamed. Each promise is a relation between the state
    before, the events and the state after; an operation keeps it piece by piece. *)
From Stdlib Require Import Ascii String.
From S2P Require Import Prelude Float64 Text Json Types Affinity ResponseEvents OpenAi ViaChatRequest ViaChatStream.

Local Open Scope string_scope.
Local Open Scope list_scope.
Local Open Scope Z_scope.

(** ** Reasoning about operations

    A relation between the state before, the events and the state after that holds of
    nothing and of one piece after another holds of whatever is put together. *)
Class OpRel (R : ChatSseToResponses → list Event → ChatSseToResponses → Prop) : Prop := {
  op_refl c : R c [] c;
  op_trans c e1 c1 e2 c2 : R c e1 c1 → R c1 e2 c2 → R c (e1 ++ e2) c2
}.

Definition holds_of (R : ChatSseToResponses → list Event → ChatSseToResponses → Prop) (f : Op) : Prop :=
  ∀ c, R c (f c).1 (f c).2.

Section Holds.
Context R `{OpRel R}.

Lemma holds_andthen f g : holds_of R f → holds_of R g → holds_of R (f +> g).
Proof.
  intros Hf Hg c. unfold andthen. specialize (Hf c). destruct (f c) as [e1 c1]. specialize (Hg c1).
  destruct (g c1) as [e2 c2]. by eapply op_trans.
Qed.
Lemma holds_nothing : holds_of R nothing.
Proof. intros c. apply op_refl. Qed.
Lemma holds_quiet f : (∀ c, R c [] (f c)) → holds_of R (quiet f).
Proof. intros Hf c. apply Hf. Qed.
Lemma holds_each {A} (f : A → Op) l : (∀ x, holds_of R (f x)) → holds_of R (each f l).
Proof. intros Hf. induction l as [|x l IH]; cbn; [apply holds_nothing|by apply holds_andthen]. Qed.
Lemma holds_reading {A} (read : ChatSseToResponses → A) f : (∀ x, holds_of R (f x)) → holds_of R (reading read f).
Proof. intros Hf c. apply Hf. Qed.
Lemma holds_if (b : ChatSseToResponses → bool) f g :
  holds_of R f → holds_of R g → holds_of R (λ c, if b c then f c else g c).
Proof. intros Hf Hg c. by destruct (b c). Qed.
Lemma holds_at (f : ChatSseToResponses → Op) : (∀ x, holds_of R (f x)) → holds_of R (λ c, f c c).
Proof. intros Hf c. apply Hf. Qed.
Lemma holds_bind {A} (read : ChatSseToResponses → A) (k : A → Op) :
  (∀ x, holds_of R (k x)) → holds_of R (λ c, k (read c) c).
Proof. intros Hk c. apply Hk. Qed.
End Holds.

Section Facts.
Context (blake3 : list Z → list Z) (from_slice : string → option Value) (to_vec : Value → option string).

(** What the state keeps and the names the events avoid. *)
Definition keeps {A} (proj : ChatSseToResponses → A) (avoids : list string) c (e : list Event) c' : Prop :=
  proj c' = proj c ∧ Forall (λ ev, ev.1 ∉ avoids) e.

#[export] Instance keeps_rel {A} (proj : ChatSseToResponses → A) avoids : OpRel (keeps proj avoids).
Proof.
  split; [by split|]. intros c e1 c1 e2 c2 [H1 H2] [H3 H4]. split; [congruence|by apply Forall_app].
Qed.

(** Numbers of events: each the one before plus one. *)
Fixpoint numbered (n : Z) (e : list Event) (m : Z) : Prop :=
  match e with
  | [] => n = m
  | ev :: e => get "sequence_number" ev.2 = Some (json_i64 n) ∧ numbered (i64_sat_add n 1) e m
  end.

Definition numbers c (e : list Event) c' : Prop := numbered (cv_sequence c) e (cv_sequence c').

#[export] Instance numbers_rel : OpRel numbers.
Proof.
  split; [done|]. unfold numbers. intros c e1 c1 e2 c2. generalize (cv_sequence c) as n. revert e2.
  induction e1 as [|ev e1 IH]; intros e2 n; cbn; [by intros ->|]. intros [H1 H2] H3. split; [done|]. by apply (IH e2).
Qed.

Lemma numbers_event name fields : holds_of numbers (event name fields).
Proof.
  intros c. unfold numbers, event. cbn [fst snd numbered]. split; [|done]. by rewrite get_json_obj reverse_app.
Qed.
End Facts.

Lemma holds_apply R (f : Op) c : holds_of R f → R c (f c).1 (f c).2.
Proof. intros H. apply H. Qed.

(** Cuts an operation into its pieces. *)
Ltac op_step :=
  match goal with
  | |- holds_of _ (andthen _ _) => apply holds_andthen; [apply _| |]
  | |- holds_of _ nothing => apply holds_nothing; apply _
  | |- holds_of _ (each _ _) => apply holds_each; [apply _|intros ?]
  | |- holds_of _ (reading _ _) => apply holds_reading; intros ?
  | |- holds_of _ (match ?x with _ => _ end) => destruct x eqn:?
  | |- holds_of _ (λ _, _) => intros ?; cbv beta zeta
  | |- ?R ?c (fst (match ?x with _ => _ end)) _ => destruct x eqn:?
  | |- ?R ?c (fst ([], ?c)) _ => apply op_refl
  | |- ?R ?c (fst (?f ?c)) (snd (?f ?c)) => apply (holds_apply R f c)
  end.
Ltac op_pieces := repeat op_step.

Section Numbers.
Context (blake3 : list Z → list Z) (from_slice : string → option Value) (to_vec : Value → option string).

Ltac by_numbers := op_pieces; try apply numbers_event; try (apply holds_quiet; intros ?; unfold numbers; done).

Lemma numbers_start : holds_of numbers start_events.
Proof. unfold start_events, snapshot_event, typed. by_numbers. Qed.

Lemma numbers_append_text delta : holds_of numbers (append_text delta).
Proof. unfold append_text, ensure_message, start_text, typed. by_numbers. Qed.

Lemma numbers_emit_tool index force : holds_of numbers (emit_tool blake3 from_slice index force).
Proof. unfold emit_tool, announce_tool, send_arguments, put_tool, put_output, typed. by_numbers. Qed.

Lemma numbers_tool_delta delta : holds_of numbers (append_tool_delta blake3 from_slice delta).
Proof.
  unfold append_tool_delta. cbv zeta. op_pieces; [| |apply numbers_emit_tool]; apply holds_quiet; intros s; unfold numbers;
    by destruct (cv_tools s !! _).
Qed.

Lemma numbers_complete : holds_of numbers (complete blake3 from_slice).
Proof.
  unfold complete, finish_message, finish_text, finish_tool, snapshot_event, put_output, typed. op_pieces.
  all: try apply numbers_emit_tool. all: by_numbers.
Qed.

Lemma numbers_fail message : holds_of numbers (fail message).
Proof. unfold fail, typed. op_pieces; try apply numbers_start; by_numbers. Qed.

Lemma numbers_chunk chunk : holds_of numbers (process_chunk blake3 from_slice chunk).
Proof.
  unfold process_chunk, delta_ops. op_pieces; try apply numbers_start; try apply numbers_append_text; try apply numbers_tool_delta;
    apply holds_quiet; intros s; unfold numbers, note_service_tier, note_usage, note_finish, identify; by repeat case_match.
Qed.

Lemma numbers_events events : holds_of numbers (process_events blake3 from_slice to_vec events).
Proof.
  unfold process_events, process_event. op_pieces; try apply numbers_complete; try apply numbers_fail; try apply numbers_chunk.
  apply holds_quiet. done.
Qed.
End Numbers.

(** ** The end of a stream *)
Definition terminal_names : list string := ["response.completed"; "response.failed"].
Definition terminals (e : list Event) : nat := length (List.filter (λ ev, is_one_of ev.1 terminal_names) e).

Lemma terminals_app a b : terminals (a ++ b) = (terminals a + terminals b)%nat.
Proof. unfold terminals. by rewrite List.filter_app length_app. Qed.

Lemma terminals_none e : Forall (λ ev : Event, ev.1 ∉ terminal_names) e → terminals e = 0%nat.
Proof.
  intros H. unfold terminals. induction H as [|ev e Hev H IH]; [done|]. cbn.
  assert (is_one_of ev.1 terminal_names = false) as E.
  { unfold is_one_of. apply not_true_iff_false. intros (n & Hn & Heq)%existsb_exists. apply String.eqb_eq in Heq. subst n.
    by apply Hev, list_elem_of_In. }
  unfold is_one_of in E. cbn in E. by rewrite E.
Qed.

(** Counting the end of the stream. *)
Definition ends_once c (e : list Event) c' : Prop :=
  (terminals e + (if cv_terminal c then 1 else 0) = if cv_terminal c' then 1 else 0)%nat.

#[export] Instance ends_once_rel : OpRel ends_once.
Proof.
  split; [done|]. unfold ends_once. intros c e1 c1 e2 c2. rewrite terminals_app. lia.
Qed.

Lemma keeps_ends_once c e c' : keeps cv_terminal terminal_names c e c' → ends_once c e c'.
Proof. intros [H1 H2]. unfold ends_once. by rewrite H1 terminals_none. Qed.

Lemma keeps_event {A} (proj : ChatSseToResponses → A) avoids name fields :
  (∀ n c, proj (set_cv_sequence n c) = proj c) → name ∉ avoids → holds_of (keeps proj avoids) (event name fields).
Proof. intros Hp Hn c. split; [apply Hp|]. by apply Forall_singleton. Qed.

Lemma keeps_quietly {A} (proj : ChatSseToResponses → A) avoids f : (∀ c, proj (f c) = proj c) → holds_of (keeps proj avoids) (quiet f).
Proof. intros Hf. apply holds_quiet. intros c. by split. Qed.

Ltac not_listed := let H := fresh in intros H; repeat (apply elem_of_cons in H as [H|H]; [discriminate H|]); by apply not_elem_of_nil in H.
Ltac by_keeps := op_pieces; try (apply keeps_event; [done|repeat case_match; not_listed]); try (apply keeps_quietly; done).

Section Ends.
Context (blake3 : list Z → list Z) (from_slice : string → option Value) (to_vec : Value → option string).

Lemma ends_start : holds_of (keeps cv_terminal terminal_names) start_events.
Proof. unfold start_events, snapshot_event, typed. by_keeps. Qed.

Lemma ends_append_text delta : holds_of (keeps cv_terminal terminal_names) (append_text delta).
Proof. unfold append_text, ensure_message, start_text, typed. by_keeps. Qed.

Lemma ends_emit_tool index force : holds_of (keeps cv_terminal terminal_names) (emit_tool blake3 from_slice index force).
Proof.
  unfold emit_tool, announce_tool, send_arguments, argument_event, put_tool, put_output, typed. by_keeps.
Qed.

Lemma ends_tool_delta delta : holds_of (keeps cv_terminal terminal_names) (append_tool_delta blake3 from_slice delta).
Proof.
  unfold append_tool_delta. cbv zeta. op_pieces; [| |apply ends_emit_tool]; apply keeps_quietly; intros s; by destruct (cv_tools s !! _).
Qed.

Lemma ends_chunk chunk : holds_of (keeps cv_terminal terminal_names) (process_chunk blake3 from_slice chunk).
Proof.
  unfold process_chunk, delta_ops. op_pieces; try apply ends_start; try apply ends_append_text; try apply ends_tool_delta;
    apply keeps_quietly; intros s; unfold note_service_tier, note_usage, note_finish, identify; by repeat case_match.
Qed.

Lemma ends_finish_message : holds_of (keeps cv_terminal terminal_names) finish_message.
Proof. unfold finish_message, finish_text, put_output, typed. by_keeps. Qed.

Lemma ends_finish_tool index : holds_of (keeps cv_terminal terminal_names) (finish_tool blake3 from_slice index).
Proof.
  unfold finish_tool, put_output, typed. op_pieces; try (apply keeps_quietly; done); apply keeps_event; [done| |done|not_listed].
  destruct (str_is _ _); not_listed.
Qed.

(** The last two steps of [complete] and of [fail]. *)
Lemma ends_terminal c f :
  (∀ s, cv_terminal s = true → terminals (f s).1 = 1%nat ∧ cv_terminal (f s).2 = true) →
  cv_terminal c = false → ends_once c ((quiet (set_cv_terminal true) +> f) c).1 ((quiet (set_cv_terminal true) +> f) c).2.
Proof.
  intros Hf Hc. unfold ends_once. rewrite Hc. unfold andthen. cbn [quiet].
  destruct (Hf (set_cv_terminal true c) eq_refl) as [H1 H2]. destruct (f (set_cv_terminal true c)) as [e2 c2]. cbn in *.
  by rewrite H1 H2.
Qed.

(** A first part that keeps the stream open, then the end. *)
Lemma ends_after f g c :
  holds_of (keeps cv_terminal terminal_names) f → cv_terminal c = false →
  (∀ s, cv_terminal s = false → ends_once s (g s).1 (g s).2) →
  ends_once c ((f +> g) c).1 ((f +> g) c).2.
Proof.
  intros Hf Hc Hg. specialize (Hf c). unfold andthen. destruct (f c) as [e1 c1]. cbn in Hf.
  assert (cv_terminal c1 = false) as H1 by (by destruct Hf as [-> _]). specialize (Hg c1 H1). destruct (g c1) as [e2 c2].
  eapply op_trans; [by apply keeps_ends_once|done].
Qed.

Lemma ends_complete : holds_of ends_once (complete blake3 from_slice).
Proof.
  intros c. unfold complete. destruct (cv_terminal c) eqn:Et; [by apply op_refl|].
  apply ends_after; [op_pieces; apply ends_emit_tool|done|]. intros s1 H1.
  apply ends_after; [apply ends_finish_message|done|]. intros s2 H2.
  apply ends_after; [op_pieces; apply ends_finish_tool|done|]. intros s3 H3.
  by apply ends_terminal.
Qed.

Lemma ends_fail message : holds_of ends_once (fail message).
Proof.
  intros c. unfold fail. destruct (cv_terminal c) eqn:Et; [by apply op_refl|]. cbv zeta.
  apply ends_after; [op_pieces; apply ends_start|done|]. intros s1 H1.
  apply ends_after; [apply keeps_event; [done|not_listed]|done|]. intros s2 H2.
  by apply ends_terminal.
Qed.

Lemma ends_events events : holds_of ends_once (process_events blake3 from_slice to_vec events).
Proof.
  unfold process_events, process_event. op_pieces; try apply ends_complete; try apply ends_fail;
    try (intros s; by apply keeps_ends_once, ends_chunk).
  apply holds_quiet. done.
Qed.

Lemma ends_push bytes : holds_of ends_once (push blake3 from_slice to_vec bytes).
Proof.
  intros c. unfold push. destruct (cv_terminal c) eqn:Et; [by apply op_refl|]. cbv zeta.
  set (c1 := set_cv_total_seen _ c).
  assert (∀ f, holds_of ends_once f → ends_once c (f c1).1 (f c1).2) as Hd.
  { intros f Hf. specialize (Hf c1). by unfold ends_once in *. }
  destruct (_ <? _); [apply Hd, ends_fail|]. destruct (decoder_push _ _ _) as [[events d]|error]; [|apply Hd, ends_fail].
  pose proof (ends_events events (set_cv_decoder d c1)) as He. by unfold ends_once in *.
Qed.

Lemma andthen_state f g c : ((f +> g) c).2 = (g (f c).2).2.
Proof. unfold andthen. destruct (f c) as [e1 c1]. cbn. by destruct (g c1). Qed.

Lemma complete_ends c : cv_terminal (complete blake3 from_slice c).2 = true.
Proof.
  unfold complete. destruct (cv_terminal c) eqn:Et; [done|]. by rewrite !andthen_state.
Qed.

Lemma fail_ends message c : cv_terminal (fail message c).2 = true.
Proof.
  unfold fail. destruct (cv_terminal c) eqn:Et; [done|]. by rewrite !andthen_state.
Qed.

Lemma ends_finish c :
  ends_once c (finish blake3 from_slice to_vec c).1 (finish blake3 from_slice to_vec c).2
  ∧ cv_terminal (finish blake3 from_slice to_vec c).2 = true.
Proof.
  unfold finish. destruct (cv_terminal c) eqn:Et; [by split; [apply op_refl|]|].
  destruct (decoder_finish (cv_decoder c)) as [events d].
  unfold andthen. pose proof (ends_events events (set_cv_decoder d c)) as He.
  destruct (process_events _ _ _ events (set_cv_decoder d c)) as [e1 c1]. cbn [fst snd] in He.
  assert (ends_once c e1 c1) as He' by (by unfold ends_once in *).
  destruct (cv_terminal c1) eqn:E1; [|destruct (cv_saw_done c1)].
  - rewrite app_nil_r. by split.
  - pose proof (ends_complete c1) as H2. pose proof (complete_ends c1) as H3. destruct (complete _ _ c1) as [e2 c2].
    split; [by eapply op_trans|done].
  - match goal with |- context [fail ?m c1] => pose proof (ends_fail m c1) as H2; pose proof (fail_ends m c1) as H3; destruct (fail m c1) as [e2 c2] end.
    split; [by eapply op_trans|done].
Qed.
End Ends.

(** ** The text of a stream *)
Definition TEXT_DELTA : string := "response.output_text.delta".
Definition TEXT_DONE : string := "response.output_text.done".

(** The text grows by the deltas; where it is announced as done, it is all there is. *)
Fixpoint text_run (t : string) (e : list Event) (t' : string) : Prop :=
  match e with
  | [] => t = t'
  | ev :: e =>
      if String.eqb ev.1 TEXT_DELTA then ∃ d, get_str "delta" ev.2 = Some d ∧ text_run (t +:+ d) e t'
      else (ev.1 = TEXT_DONE → get_str "text" ev.2 = Some t) ∧ text_run t e t'
  end.

Lemma text_run_app a b t t1 t2 : text_run t a t1 → text_run t1 b t2 → text_run t (a ++ b) t2.
Proof.
  revert t. induction a as [|ev a IH]; intros t; cbn; [by intros ->|]. destruct (String.eqb _ _).
  - intros (d & Hd & H1) H2. exists d. split; [done|by apply (IH _)].
  - intros [Hd H1] H2. split; [done|by apply (IH _)].
Qed.

Definition writes c (e : list Event) c' : Prop := text_run (cv_text c) e (cv_text c').

#[export] Instance writes_rel : OpRel writes.
Proof. split; [done|]. unfold writes. intros. by eapply text_run_app. Qed.

Lemma text_run_plain e t : Forall (λ ev : Event, ev.1 ∉ [TEXT_DELTA; TEXT_DONE]) e → text_run t e t.
Proof.
  intros H. induction H as [|ev e Hev H IH]; cbn; [done|]. destruct (String.eqb_spec ev.1 TEXT_DELTA) as [E|].
  - destruct Hev. rewrite E. by left.
  - split; [|done]. intros E. destruct Hev. rewrite E. right. by left.
Qed.

Lemma keeps_writes f : holds_of (keeps cv_text [TEXT_DELTA; TEXT_DONE]) f → holds_of writes f.
Proof. intros H c. destruct (H c) as [H1 H2]. unfold writes. rewrite H1. by apply text_run_plain. Qed.

Section Text.
Context (blake3 : list Z → list Z) (from_slice : string → option Value) (to_vec : Value → option string).

Lemma writes_start : holds_of writes start_events.
Proof. apply keeps_writes. unfold start_events, snapshot_event, typed. by_keeps. Qed.

Lemma get_typed key v name fields c :
  assoc key (reverse ((("type", String name) :: fields) ++ [("sequence_number", json_i64 (cv_sequence c))])) = Some v →
  ∃ data, typed name fields c = ([(name, data)], set_cv_sequence (i64_sat_add (cv_sequence c) 1) c) ∧ get key data = Some v.
Proof. intros H. eexists. split; [reflexivity|]. by rewrite get_json_obj. Qed.

Lemma writes_append_text delta : holds_of writes (append_text delta).
Proof.
  unfold append_text. apply holds_andthen; [apply _|apply keeps_writes; unfold ensure_message, typed; by_keeps|].
  apply holds_andthen; [apply _|apply keeps_writes; unfold start_text, typed; by_keeps|].
  intros c. unfold writes, andthen, quiet, reading. set (c1 := set_cv_text _ c).
  destruct (get_typed "delta" (String delta) TEXT_DELTA (text_place c1 ++ [("delta", String delta); ("logprobs", Array [])]) c1)
    as (data & Hd & Hg); [done|].
  change "response.output_text.delta" with TEXT_DELTA. rewrite Hd. cbn [fst snd app text_run]. rewrite String.eqb_refl.
  exists delta. split; [unfold get_str; by rewrite Hg|done].
Qed.

Lemma writes_emit_tool index force : holds_of writes (emit_tool blake3 from_slice index force).
Proof.
  apply keeps_writes. unfold emit_tool, announce_tool, send_arguments, argument_event, put_tool, put_output, typed. by_keeps.
Qed.

Lemma writes_tool_delta delta : holds_of writes (append_tool_delta blake3 from_slice delta).
Proof.
  unfold append_tool_delta. cbv zeta. op_pieces; [| |apply writes_emit_tool]; apply keeps_writes, keeps_quietly; intros s;
    by destruct (cv_tools s !! _).
Qed.

Lemma writes_finish_text : holds_of writes finish_text.
Proof.
  intros c. unfold finish_text. destruct (cv_text_started c); [|by apply op_refl].
  destruct (get_typed "text" (String (cv_text c)) TEXT_DONE (text_place c ++ [("text", String (cv_text c)); ("logprobs", Array [])]) c)
    as (data & Hd & Hg); [done|].
  unfold writes, andthen. change "response.output_text.done" with TEXT_DONE. rewrite Hd. cbn.
  split; [intros _; unfold get_str; by rewrite Hg|]. by split.
Qed.

Lemma writes_complete : holds_of writes (complete blake3 from_slice).
Proof.
  unfold complete, finish_message, finish_tool, snapshot_event, put_output, typed. op_pieces.
  all: try apply writes_emit_tool. all: try apply writes_finish_text. all: apply keeps_writes; by_keeps.
Qed.

Lemma writes_fail message : holds_of writes (fail message).
Proof. unfold fail, typed. op_pieces; try apply writes_start; apply keeps_writes; by_keeps. Qed.

Lemma writes_chunk chunk : holds_of writes (process_chunk blake3 from_slice chunk).
Proof.
  unfold process_chunk, delta_ops. op_pieces; try apply writes_start; try apply writes_append_text; try apply writes_tool_delta;
    apply keeps_writes, keeps_quietly; intros s; unfold note_service_tier, note_usage, note_finish, identify; by repeat case_match.
Qed.

Lemma writes_events events : holds_of writes (process_events blake3 from_slice to_vec events).
Proof.
  unfold process_events, process_event. op_pieces; try apply writes_complete; try apply writes_fail; try apply writes_chunk.
  apply holds_quiet. done.
Qed.
End Text.

(** ** How a stream starts *)
Definition no_output c : Prop := cv_created c = false → cv_tool_order c = [] ∧ cv_message_index c = None.
Definition starts (e : list Event) : Prop :=
  match e with [] => False | ev :: _ => ev.1 = "response.created" ∨ ev.1 = "response.completed" end.

(** From a state with nothing out: nothing still, or a proper start. *)
Definition begins c (e : list Event) c' : Prop :=
  no_output c → no_output c' ∧ (cv_created c = true → cv_created c' = true)
    ∧ (cv_created c = false → (e = [] ∧ cv_created c' = false) ∨ starts e).

#[export] Instance begins_rel : OpRel begins.
Proof.
  split; [intros c H; split_and!; [done|done|intros Hc; by left]|].
  intros c e1 c1 e2 c2 H1 H2 Hn. destruct (H1 Hn) as (Hn1 & Hc1 & Hs1), (H2 Hn1) as (Hn2 & Hc2 & Hs2).
  split_and!; [done|by auto|]. intros Hc. destruct (Hs1 Hc) as [[-> Hf]|Hs]; [by apply Hs2|]. right. by destruct e1.
Qed.

(** Once started, an operation that keeps that. *)
Lemma keeps_created_begins c e c' : cv_created c = true → keeps cv_created [] c e c' → begins c e c'.
Proof. intros Hc [H1 _] _. rewrite /no_output H1 Hc. by split_and!. Qed.

Section Begin.
Context (blake3 : list Z → list Z) (from_slice : string → option Value) (to_vec : Value → option string).

Ltac by_created := op_pieces; try (apply keeps_event; [done|apply not_elem_of_nil]); try (apply keeps_quietly; done).

Lemma created_append_text delta : holds_of (keeps cv_created []) (append_text delta).
Proof. unfold append_text, ensure_message, start_text, typed. by_created. Qed.

Lemma created_emit_tool index force : holds_of (keeps cv_created []) (emit_tool blake3 from_slice index force).
Proof. unfold emit_tool, announce_tool, send_arguments, put_tool, put_output, typed. by_created. Qed.

Lemma created_delta delta : holds_of (keeps cv_created []) (delta_ops blake3 from_slice delta).
Proof.
  unfold delta_ops, append_tool_delta. op_pieces; try apply created_append_text; try apply created_emit_tool;
    apply keeps_quietly; intros s; cbv zeta; by destruct (cv_tools s !! _).
Qed.

Lemma created_complete : holds_of (keeps cv_created []) (complete blake3 from_slice).
Proof.
  unfold complete, finish_message, finish_text, finish_tool, snapshot_event, put_output, typed. op_pieces.
  all: try apply created_emit_tool. all: by_created.
Qed.

Lemma begins_start c : cv_created (start_events c).2 = true ∧ starts (start_events c).1.
Proof. split; [done|]. by left. Qed.

Lemma begins_complete : holds_of begins (complete blake3 from_slice).
Proof.
  intros c Hn. destruct (cv_created c) eqn:Ec.
  - pose proof (created_complete c) as [H _]. unfold no_output. rewrite H Ec. by split_and!.
  - destruct (Hn Ec) as [Ho Hm]. unfold complete. destruct (cv_terminal c).
    { split_and!; [done|congruence|]. intros _. by left. }
    rewrite Ho. cbn [each foldr]. unfold andthen, nothing, quiet, finish_message. cbn [id fst snd]. rewrite Hm. cbn.
    unfold no_output. cbn. rewrite Ec. split_and!; [done|done|]. intros _. right. by right.
Qed.

Lemma begins_fail message : holds_of begins (fail message).
Proof.
  intros c Hn. unfold fail. destruct (cv_terminal c).
  { split_and!; [done|done|]. intros Hc. by left. }
  cbv zeta. destruct (cv_created c) eqn:Ec; cbn; unfold no_output; cbn; rewrite ?Ec; split_and!; try done. intros _. right. by left.
Qed.

Lemma begins_quiet f :
  (∀ c, cv_created (f c) = cv_created c ∧ cv_tool_order (f c) = cv_tool_order c ∧ cv_message_index (f c) = cv_message_index c) →
  holds_of begins (quiet f).
Proof.
  intros Hf. apply holds_quiet. intros c Hn. destruct (Hf c) as (H1 & H2 & H3). unfold no_output in *. rewrite H1 H2 H3.
  split_and!; try done. intros Hc. by left.
Qed.

Lemma begins_chunk chunk : holds_of begins (process_chunk blake3 from_slice chunk).
Proof.
  unfold process_chunk. apply holds_andthen; [apply _|apply begins_quiet; intros c; unfold note_service_tier; by case_match|].
  set (first := λ c, if cv_created c then _ else _). set (rest := quiet (note_usage chunk) +> _).
  assert (holds_of (keeps cv_created []) rest) as Hrest.
  { unfold rest. op_pieces; try apply created_delta; apply keeps_quietly; intros s; unfold note_usage, note_finish; by repeat case_match. }
  intros c Hn. unfold andthen. destruct (cv_created c) eqn:Ec.
  - assert (first c = ([], c)) as -> by (unfold first; by rewrite Ec). specialize (Hrest c).
    destruct (rest c) as [e2 c2]. destruct Hrest as [H _]. cbn in H |- *. unfold no_output. rewrite H Ec. by split_and!.
  - assert (first c = start_events (identify blake3 chunk c)) as ->.
    { unfold first. rewrite Ec. unfold andthen, quiet. by destruct (start_events _). }
    destruct (begins_start (identify blake3 chunk c)) as [H1 H2]. destruct (start_events _) as [e1 c1]. cbn [fst snd] in H1, H2.
    specialize (Hrest c1). destruct (rest c1) as [e2 c2]. destruct Hrest as [H _]. cbn in H. cbn [fst snd].
    unfold no_output. rewrite H H1. split_and!; [done|done|]. intros _. right. by destruct e1.
Qed.

Lemma begins_events events : holds_of begins (process_events blake3 from_slice to_vec events).
Proof.
  unfold process_events, process_event. op_pieces; try apply begins_complete; try apply begins_fail; try apply begins_chunk.
  apply begins_quiet. done.
Qed.
End Begin.

(** ** The arguments of a call *)
Definition ARG_DELTAS : list string :=
  ["response.function_call_arguments.delta"; "response.custom_tool_call_input.delta"].
Definition ARGS_DONE : string := "response.function_call_arguments.done".
Definition ARG_NAMES : list string := ARGS_DONE :: ARG_DELTAS.

(** The slot an event is about. *)
Definition event_slot (v : Value) : option Z :=
  match get "output_index" v with Some (Number t) => parse_int t | _ => None end.

(** For one slot: the arguments grow by the deltas; announced as done, they are all. *)
Fixpoint args_run (o : nat) (s : list ascii) (e : list Event) (s' : list ascii) : Prop :=
  match e with
  | [] => s = s'
  | ev :: e =>
      if is_one_of ev.1 ARG_DELTAS && bool_decide (event_slot ev.2 = Some (Z.of_nat o)) then
        ∃ d, get_str "delta" ev.2 = Some d ∧ args_run o (s ++ chars d) e s'
      else (ev.1 = ARGS_DONE → event_slot ev.2 = Some (Z.of_nat o) → get_str "arguments" ev.2 = Some (of_chars s))
           ∧ args_run o s e s'
  end.

Lemma args_run_app o a b s s1 s2 : args_run o s a s1 → args_run o s1 b s2 → args_run o s (a ++ b) s2.
Proof.
  revert s. induction a as [|ev a IH]; intros s; cbn [app args_run]; [by intros ->|]. destruct (_ && _).
  - intros (d & Hd & H1) H2. exists d. split; [done|by apply (IH _)].
  - intros [Hd H1] H2. split; [done|by apply (IH _)].
Qed.

Lemma one_of_spec n l : is_one_of n l = true ↔ n ∈ l.
Proof.
  unfold is_one_of. rewrite existsb_exists. split.
  - intros (m & Hm & ->%String.eqb_eq). by apply list_elem_of_In.
  - intros H. exists n. by rewrite String.eqb_refl -list_elem_of_In.
Qed.

Lemma args_run_plain o e s : Forall (λ ev : Event, ev.1 ∉ ARG_NAMES) e → args_run o s e s.
Proof.
  intros H. induction H as [|ev e Hev H IH]; cbn [args_run]; [done|].
  destruct (is_one_of ev.1 ARG_DELTAS) eqn:E.
  - destruct Hev. right. by apply one_of_spec.
  - cbn [andb]. split; [|done]. intros E'. destruct Hev. rewrite E'. by left.
Qed.

Record tools_wf (c : ChatSseToResponses) : Prop := {
  tw_order : ∀ i t, cv_tools c !! i = Some t → i ∈ cv_tool_order c;
  tw_slot : ∀ i t, cv_tools c !! i = Some t → (st_output_index t < length (cv_output c))%nat;
  tw_sent : ∀ i t, cv_tools c !! i = Some t → (st_emitted_arguments_len t <= String.length (st_arguments t))%nat;
  tw_inj : ∀ i j t u, cv_tools c !! i = Some t → cv_tools c !! j = Some u → st_output_index t = st_output_index u → i = j
}.

Definition sent_of (t : StreamToolCall) : list ascii := take (st_emitted_arguments_len t) (chars (st_arguments t)).

(** What has been sent for a slot. *)
Definition sent_at (o : nat) (c : ChatSseToResponses) (s : list ascii) : Prop :=
  (∃ i t, cv_tools c !! i = Some t ∧ st_output_index t = o ∧ s = sent_of t)
  ∨ ((∀ i t, cv_tools c !! i = Some t → st_output_index t ≠ o) ∧ s = []).

Definition sends (o : nat) c (e : list Event) c' : Prop :=
  tools_wf c → tools_wf c' ∧ ∀ s, sent_at o c s → ∃ s', args_run o s e s' ∧ sent_at o c' s'.

#[export] Instance sends_rel o : OpRel (sends o).
Proof.
  split.
  - intros c Hw. split; [done|]. intros s Hs. by exists s.
  - intros c e1 c1 e2 c2 H1 H2 Hw. destruct (H1 Hw) as [Hw1 Hs1], (H2 Hw1) as [Hw2 Hs2]. split; [done|].
    intros s Hs. destruct (Hs1 s Hs) as (s1 & Hr1 & Hs1'), (Hs2 s1 Hs1') as (s2 & Hr2 & Hs2'). exists s2.
    split; [by eapply args_run_app|done].
Qed.

(** Operations that leave the calls alone. *)
Definition tools_kept c (e : list Event) c' : Prop :=
  cv_tools c' = cv_tools c ∧ cv_tool_order c' = cv_tool_order c ∧ (length (cv_output c) <= length (cv_output c'))%nat
  ∧ Forall (λ ev : Event, ev.1 ∉ ARG_NAMES) e.

#[export] Instance tools_kept_rel : OpRel tools_kept.
Proof.
  split; [done|]. intros c e1 c1 e2 c2 (H1 & H2 & H3 & H4) (K1 & K2 & K3 & K4).
  split_and!; [congruence|congruence|lia|by apply Forall_app].
Qed.

Lemma tools_kept_sends o c e c' : tools_kept c e c' → sends o c e c'.
Proof.
  intros (H1 & H2 & H3 & H4) [W1 W2 W3 W4]. split.
  - split; rewrite H1 ?H2; eauto. intros i t Hi. specialize (W2 i t Hi). lia.
  - intros s Hs. exists s. split; [by apply args_run_plain|]. unfold sent_at in *. by rewrite H1.
Qed.

Lemma tools_kept_event name fields : name ∉ ARG_NAMES → holds_of tools_kept (event name fields).
Proof. intros Hn c. split_and!; [done|done|done|by apply Forall_singleton]. Qed.

Lemma tools_kept_put i item : holds_of tools_kept (put_output i item).
Proof. apply holds_quiet. intros c. split_and!; [done|done|by cbn; rewrite length_insert|done]. Qed.

Ltac by_kept :=
  op_pieces; try apply tools_kept_put; try (apply tools_kept_event; repeat case_match; not_listed);
  try (apply holds_quiet; intros ?; split_and!; cbn; rewrite ?length_app; done || lia).

Section Args.
Context (blake3 : list Z → list Z) (from_slice : string → option Value) (to_vec : Value → option string).

Lemma kept_start : holds_of tools_kept start_events.
Proof. unfold start_events, snapshot_event, typed. by_kept. Qed.

Lemma kept_append_text delta : holds_of tools_kept (append_text delta).
Proof. unfold append_text, ensure_message, start_text, typed. by_kept. Qed.

Lemma kept_finish_message : holds_of tools_kept finish_message.
Proof. unfold finish_message, finish_text, typed. by_kept. Qed.

Lemma kept_fail message : holds_of tools_kept (fail message).
Proof. unfold fail, typed. op_pieces; try apply kept_start; by_kept. Qed.

(** A state that differs in one call, which keeps its slot. *)
Lemma update_tool_wf c index t t' :
  tools_wf c → cv_tools c !! index = Some t → st_output_index t' = st_output_index t →
  (st_emitted_arguments_len t' <= String.length (st_arguments t'))%nat →
  tools_wf (set_cv_tools (<[index := t']> (cv_tools c)) c).
Proof.
  intros [W1 W2 W3 W4] Ht Ho Hl.
  assert (∀ i u, <[index := t']> (cv_tools c) !! i = Some u →
    ∃ u0, cv_tools c !! i = Some u0 ∧ st_output_index u = st_output_index u0
      ∧ (st_emitted_arguments_len u <= String.length (st_arguments u))%nat) as Hold.
  { intros i u. rewrite lookup_insert. case_decide; [subst; intros [= <-]; eauto|]. intros Hu. exists u. eauto. }
  split; cbn.
  - intros i u Hu. destruct (Hold i u Hu) as (u0 & Hu0 & _). eauto.
  - intros i u Hu. destruct (Hold i u Hu) as (u0 & Hu0 & -> & _). eauto.
  - intros i u Hu. by destruct (Hold i u Hu) as (u0 & Hu0 & _ & ?).
  - intros i j u v Hu Hv Huv. destruct (Hold i u Hu) as (u0 & Hu0 & Eu & _), (Hold j v Hv) as (v0 & Hv0 & Ev & _).
    eapply W4; [exact Hu0|exact Hv0|congruence].
Qed.

Lemma update_sent_at o c index t t' s :
  tools_wf c → cv_tools c !! index = Some t → st_output_index t' = st_output_index t → sent_at o c s →
  sent_at o (set_cv_tools (<[index := t']> (cv_tools c)) c) (if decide (st_output_index t = o) then sent_of t' else s)
  ∧ (st_output_index t = o → s = sent_of t).
Proof.
  intros W Ht Ho Hs. case_decide as E.
  - split; [left; exists index, t'; cbn; by rewrite lookup_insert_eq Ho|]. intros _.
    destruct Hs as [(i & u & Hu & Hou & ->)|[Hn _]]; [|by destruct (Hn index t Ht)].
    assert (i = index) as -> by (eapply (tw_inj c W); [done|done|congruence]). congruence.
  - split; [|done]. destruct Hs as [(i & u & Hu & Hou & ->)|[Hn ->]].
    + left. exists i, u. cbn. rewrite lookup_insert_ne //. intros ->. congruence.
    + right. split; [|done]. cbn. intros i u. rewrite lookup_insert. case_decide; [intros [= <-]; congruence|eauto].
Qed.

Lemma sends_open_tool o index : holds_of (sends o) (open_tool index).
Proof.
  apply holds_quiet. intros c. cbv beta. destruct (cv_tools c !! index) as [t|] eqn:E; [apply op_refl|].
  intros [W1 W2 W3 W4]. set (n := length (cv_output c)).
  assert (∀ i u, <[index := new_stream_tool n]> (cv_tools c) !! i = Some u →
    (i = index ∧ u = new_stream_tool n) ∨ (i ≠ index ∧ cv_tools c !! i = Some u)) as Hc.
  { intros i u. rewrite lookup_insert. case_decide; [subst; intros [= <-]; by left|]. by right. }
  split.
  - split; cbn; [| | |].
    + intros i u Hu. destruct (Hc i u Hu) as [[-> _]|[_ Hu']]; [set_solver|]. apply elem_of_app. left. eauto.
    + intros i u Hu. rewrite length_app /=. destruct (Hc i u Hu) as [[_ ->]|[_ Hu']]; [cbn; lia|].
      specialize (W2 i u Hu'). lia.
    + intros i u Hu. destruct (Hc i u Hu) as [[_ ->]|[_ Hu']]; [done|eauto].
    + intros i j u v Hu Hv Huv. destruct (Hc i u Hu) as [[-> ->]|[_ Hu']], (Hc j v Hv) as [[-> ->]|[_ Hv']]; [done| | |eauto].
      * specialize (W2 j v Hv'). cbn in Huv. lia.
      * specialize (W2 i u Hu'). cbn in Huv. lia.
  - intros s Hs. exists s. split; [done|]. destruct Hs as [(i & u & Hu & Hou & ->)|[Hn ->]].
    + left. exists i, u. cbn. rewrite lookup_insert_ne; [done|]. intros ->. congruence.
    + destruct (decide (o = n)) as [->|Hne].
      * left. exists index, (new_stream_tool n). cbn. by rewrite lookup_insert_eq.
      * right. split; [|done]. cbn. intros i u Hu. destruct (Hc i u Hu) as [[_ ->]|[_ Hu']]; [cbn; congruence|eauto].
Qed.

Lemma take_app_prefix {A} n (l k : list A) : (n <= length l)%nat → take n (l ++ k) = take n l.
Proof. intros H. by rewrite take_app_le. Qed.

Lemma sends_grow o index a b d :
  holds_of (sends o) (quiet (λ c, match cv_tools c !! index with
     | Some t => set_cv_tools (<[index := grow_tool a b d t]> (cv_tools c)) c | None => c end)).
Proof.
  apply holds_quiet. intros c. cbv beta. destruct (cv_tools c !! index) as [t|] eqn:E; [|apply op_refl].
  intros W. pose proof (tw_sent c W index t E) as Hl.
  assert (sent_of (grow_tool a b d t) = sent_of t) as Hsent.
  { unfold sent_of. cbn [st_emitted_arguments_len st_arguments grow_tool]. rewrite chars_append take_app_prefix //. by rewrite length_chars. }
  split.
  - apply (update_tool_wf c index t); [done|done|done|]. cbn [st_emitted_arguments_len st_arguments grow_tool]. rewrite length_append. lia.
  - intros s Hs. destruct (update_sent_at o c index t (grow_tool a b d t) s W E eq_refl Hs) as [Hn Ho].
    exists s. split; [done|]. case_decide; [|done]. by rewrite Ho // -Hsent.
Qed.

Lemma andthen_eq f g c e1 c1 : f c = (e1, c1) → (f +> g) c = (e1 ++ (g c1).1, (g c1).2).
Proof. intros E. unfold andthen. rewrite E. by destruct (g c1). Qed.

Lemma complete_tool_named c index t :
  String.eqb (st_name (complete_tool blake3 c index t)) "" = false ∧ String.eqb (st_call_id (complete_tool blake3 c index t)) "" = false.
Proof. unfold complete_tool. cbn. destruct (String.eqb (st_name t) "") eqn:E1, (String.eqb (st_call_id t) "") eqn:E2; by split. Qed.

(** The tail of [emit_tool]: the rest of the arguments goes out. *)
Lemma sends_rest o c index t t0 :
  tools_wf c → cv_tools c !! index = Some t0 → st_output_index t = st_output_index t0 →
  sent_of t = sent_of t0 → (st_emitted_arguments_len t <= String.length (st_arguments t))%nat →
  let f := send_arguments blake3 from_slice index t +> put_tool index (sent_tool t) in
  tools_wf (f c).2 ∧ ∀ s, sent_at o c s → ∃ s', args_run o s (f c).1 s' ∧ sent_at o (f c).2 s'.
Proof.
  intros W E Ho Hs0 Hl. cbv zeta.
  assert (tools_wf (set_cv_tools (<[index := sent_tool t]> (cv_tools c)) c)) as W'.
  { apply (update_tool_wf c index t0); [done|done|done|]. cbn. lia. }
  assert (chars (st_arguments t) = sent_of t ++ drop (st_emitted_arguments_len t) (chars (st_arguments t))) as Hsplit
    by (unfold sent_of; by rewrite take_drop).
  assert (sent_of (sent_tool t) = chars (st_arguments t)) as Hfull.
  { unfold sent_of. cbn. apply take_ge. rewrite length_chars. lia. }
  unfold andthen, put_tool, quiet, send_arguments. destruct (Nat.ltb_spec (st_emitted_arguments_len t) (String.length (st_arguments t))).
  - set (rest := of_chars _).
    destruct (get_typed "delta" (String rest) (argument_event c t)
      [("item_id", String (stream_tool_item_id blake3 from_slice t index (cv_context c)));
       ("output_index", json_i64 (Z.of_nat (st_output_index t))); ("delta", String rest)] c) as (data & Hd & Hg); [done|].
    assert (event_slot data = Some (Z.of_nat (st_output_index t))) as Hslot.
    { injection Hd as <-. unfold event_slot. rewrite get_json_obj. cbn. apply parse_int_show. }
    rewrite Hd. cbn [fst snd app]. split.
    { destruct W' as [Y1 Y2 Y3 Y4]. by split. }
    intros s Hs. destruct (update_sent_at o c index t0 (sent_tool t) s W E Ho Hs) as [Hn Hso].
    eexists. split; [|exact Hn]. cbn [args_run fst snd].
    assert (is_one_of (argument_event c t) ARG_DELTAS = true) as -> by (unfold argument_event; by destruct (is_custom_tool _ _)).
    rewrite Hslot. case_decide as Eo.
    + rewrite bool_decide_true; [|congruence]. cbn [andb]. exists rest. split; [unfold get_str; by rewrite Hg|].
      unfold rest. by rewrite chars_of_chars Hso // -Hs0 -Hsplit Hfull.
    + rewrite bool_decide_false; [|intros [= Eq]; apply Nat2Z.inj in Eq; congruence]. cbn [andb]. split; [|done].
      unfold argument_event. by destruct (is_custom_tool _ _).
  - cbn [fst snd app]. split; [done|]. intros s Hs.
    destruct (update_sent_at o c index t0 (sent_tool t) s W E Ho Hs) as [Hn Hso]. eexists. split; [|exact Hn].
    case_decide; [|done]. rewrite Hso // -Hs0 Hfull Hsplit drop_ge; [|rewrite length_chars; lia]. by rewrite app_nil_r.
Qed.

Lemma sends_emit_tool o index force : holds_of (sends o) (emit_tool blake3 from_slice index force).
Proof.
  intros c. unfold emit_tool. destruct (cv_tools c !! index) as [t0|] eqn:E; [|apply op_refl]. cbv zeta.
  set (t := if force then complete_tool blake3 c index t0 else t0).
  assert (st_output_index t = st_output_index t0 ∧ sent_of t = sent_of t0
    ∧ st_emitted_arguments_len t = st_emitted_arguments_len t0 ∧ st_arguments t = st_arguments t0) as (Ho & Hs & Hel & Ha)
    by (unfold t; by destruct force).
  intros W. pose proof (tw_sent c W index t0 E) as Hl.
  destruct (_ || _).
  - unfold put_tool, quiet. cbn [fst snd]. split; [apply (update_tool_wf c index t0); [done..|by rewrite Hel Ha]|].
    intros s Hsent. destruct (update_sent_at o c index t0 t s W E Ho Hsent) as [Hn Hso]. exists s. split; [done|].
    case_decide; [|done]. by rewrite Hso // -Hs.
  - assert (tools_kept c (announce_tool blake3 from_slice index t c).1 (announce_tool blake3 from_slice index t c).2) as Hk.
    { apply (holds_apply tools_kept). unfold announce_tool, typed. by_kept. }
    destruct (announce_tool _ _ index t c) as [e1 c1] eqn:Ea. cbn [fst snd] in Hk. rewrite (andthen_eq _ _ _ _ _ Ea).
    destruct (tools_kept_sends o _ _ _ Hk W) as [W1 Hs1]. destruct Hk as (Kt & _ & _ & _).
    destruct (sends_rest o c1 index t t0 W1) as [W2 Hs2]; [by rewrite Kt|done|done|by rewrite Hel Ha|].
    cbn [fst snd]. split; [done|]. intros s Hsent. destruct (Hs1 s Hsent) as (s1 & Hr1 & Hs1'), (Hs2 s1 Hs1') as (s2 & Hr2 & Hs2').
    exists s2. split; [by eapply args_run_app|done].
Qed.

Lemma sends_chunk o chunk : holds_of (sends o) (process_chunk blake3 from_slice chunk).
Proof.
  unfold process_chunk, delta_ops, append_tool_delta. cbv zeta.
  op_pieces; try apply sends_emit_tool; try apply sends_open_tool; try apply sends_grow;
    try (intros st; apply tools_kept_sends; apply kept_start || apply kept_append_text).
  all: intros st; apply tools_kept_sends; unfold quiet, note_service_tier, note_usage, note_finish, identify;
    repeat case_match; split_and!; done || (cbn; constructor).
Qed.
End Args.

Section ArgsEnd.
Context (blake3 : list Z → list Z) (from_slice : string → option Value) (to_vec : Value → option string).

(** Nothing is left to send. *)
Definition full (t : StreamToolCall) : Prop := st_emitted_arguments_len t = String.length (st_arguments t).
Definition all_full (c : ChatSseToResponses) : Prop := ∀ i t, cv_tools c !! i = Some t → full t.

Lemma emit_force_tools index c :
  cv_tool_order (emit_tool blake3 from_slice index true c).2 = cv_tool_order c
  ∧ cv_tools (emit_tool blake3 from_slice index true c).2
    = match cv_tools c !! index with
      | Some t => <[index := sent_tool (complete_tool blake3 c index t)]> (cv_tools c)
      | None => cv_tools c
      end.
Proof.
  unfold emit_tool. destruct (cv_tools c !! index) as [t|]; [|done]. cbv zeta.
  destruct (complete_tool_named blake3 c index t) as [-> ->]. cbn [orb]. rewrite !andthen_state.
  set (u := complete_tool blake3 c index t). unfold put_tool, quiet. cbn [snd set_cv_tools cv_tools cv_tool_order].
  assert (∀ s, cv_tools (send_arguments blake3 from_slice index u s).2 = cv_tools s
    ∧ cv_tool_order (send_arguments blake3 from_slice index u s).2 = cv_tool_order s) as Hs
    by (intros s; unfold send_arguments; by destruct (_ <? _)%nat).
  assert (∀ s, cv_tools (announce_tool blake3 from_slice index u s).2 = cv_tools s
    ∧ cv_tool_order (announce_tool blake3 from_slice index u s).2 = cv_tool_order s) as Ha
    by (intros s; unfold announce_tool; by destruct (st_emitted u)).
  destruct (Hs (announce_tool blake3 from_slice index u c).2) as [-> ->], (Ha c) as [-> ->]. done.
Qed.

Lemma emit_all_full l c :
  tools_wf c →
  let c' := (each (λ index, emit_tool blake3 from_slice index true) l c).2 in
  cv_tool_order c' = cv_tool_order c
  ∧ (∀ i, is_Some (cv_tools c' !! i) → is_Some (cv_tools c !! i))
  ∧ ∀ i t', cv_tools c' !! i = Some t' → i ∈ l ∨ (∀ t, cv_tools c !! i = Some t → full t) → full t'.
Proof.
  revert c. induction l as [|index l IH]; intros c W; cbv zeta.
  - cbn. split_and!; [done|done|]. intros i t' Ht [Hin|Hf]; [by apply not_elem_of_nil in Hin|eauto].
  - cbn [each foldr]. rewrite andthen_state. set (c1 := (emit_tool blake3 from_slice index true c).2).
    destruct (emit_force_tools index c) as [Ho Ht]. fold c1 in Ho, Ht.
    assert (tools_wf c1) as W1 by (by apply (sends_emit_tool blake3 from_slice 0 index true c)).
    destruct (IH c1 W1) as (H1 & H2 & H3). change (foldr _ nothing l) with (each (λ index, emit_tool blake3 from_slice index true) l).
    split_and!; [congruence| |].
    + intros i Hi. specialize (H2 i Hi). rewrite Ht in H2. destruct (cv_tools c !! index) eqn:E; [|done].
      rewrite lookup_insert in H2. case_decide; [subst; by eexists|done].
    + intros i t' Ht' Hor. apply (H3 i t' Ht'). rewrite elem_of_cons in Hor.
      destruct (decide (i = index)) as [->|Hne].
      * right. intros t. rewrite Ht. destruct (cv_tools c !! index) as [t0|] eqn:E; [|congruence].
        rewrite lookup_insert_eq. intros [= <-]. unfold full. cbn. pose proof (tw_sent c W index t0 E). lia.
      * destruct Hor as [[?|Hin]|Hf]; [done|by left|]. right. intros t. rewrite Ht.
        destruct (cv_tools c !! index); [rewrite lookup_insert_ne //|]; apply Hf.
Qed.

Definition finishes (o : nat) c (e : list Event) c' : Prop :=
  tools_wf c → all_full c → tools_wf c' ∧ all_full c' ∧ ∀ s, sent_at o c s → args_run o s e s ∧ sent_at o c' s.

#[local] Instance finishes_rel o : OpRel (finishes o).
Proof.
  split; [intros c W A; split_and!; [done|done|by intros s Hs]|].
  intros c e1 c1 e2 c2 H1 H2 W A. destruct (H1 W A) as (W1 & A1 & S1), (H2 W1 A1) as (W2 & A2 & S2).
  split_and!; [done|done|]. intros s Hs. destruct (S1 s Hs) as [R1 Hs1], (S2 s Hs1) as [R2 Hs2].
  split; [by eapply args_run_app|done].
Qed.

Lemma kept_finishes o c e c' : tools_kept c e c' → finishes o c e c'.
Proof.
  intros K W A. destruct (tools_kept_sends o _ _ _ K W) as [W' _]. destruct K as (K1 & K2 & K3 & K4).
  split_and!; [done|unfold all_full; by rewrite K1|]. intros s Hs. split; [by apply args_run_plain|].
  unfold sent_at in *. by rewrite K1.
Qed.

(** The item of a call that is not a custom tool's carries its arguments. *)
Lemma item_arguments t index x :
  let item := response_tool_item blake3 from_slice (tool_value t (st_arguments t)) index x in
  str_is (get_str "type" item) ["custom_tool_call"] = false → get "arguments" item = Some (String (st_arguments t)).
Proof.
  cbv zeta. unfold response_tool_item.
  assert (opt_bind (pointer ["function"; "name"] (tool_value t (st_arguments t))) as_str = Some (st_name t)) as -> by reflexivity.
  assert (opt_bind (pointer ["function"; "arguments"] (tool_value t (st_arguments t))) as_str = Some (st_arguments t)) as -> by reflexivity.
  cbn [unwrap_or]. destruct (cc_tool_by_chat_name x !! st_name t) as [[]|]; intros H; try reflexivity. discriminate H.
Qed.

Lemma finishes_tool o index : holds_of (finishes o) (finish_tool blake3 from_slice index).
Proof.
  intros c W A. unfold finish_tool. destruct (cv_tools c !! index) as [t|] eqn:E; [|exact (op_refl (R := finishes o) c W A)]. cbv zeta.
  set (item := response_tool_item _ _ _ _ _). destruct (str_is (get_str "type" item) _) eqn:Ec.
  - refine (kept_finishes o _ _ _ _ W A). apply (holds_apply tools_kept). unfold typed. by_kept.
  - set (item_done := typed "response.output_item.done" _).
    set (args := ("arguments", json_opt (get "arguments" item))).
    assert (get "arguments" item = Some (String (st_arguments t))) as Ha by by apply item_arguments.
    set (c1 := (put_output (st_output_index t) item c).2).
    assert (put_output (st_output_index t) item c = ([], c1)) as Hput by done.
    rewrite (andthen_eq _ _ _ _ _ Hput). cbn [app].
    destruct (get_typed "arguments" (String (st_arguments t)) ARGS_DONE
      [("item_id", json_opt (get "id" item)); ("output_index", json_i64 (Z.of_nat (st_output_index t))); args] c1) as (data & Hd & Hg).
    { unfold args. rewrite Ha. done. }
    change "response.function_call_arguments.done" with ARGS_DONE. set (c2 := set_cv_sequence _ c1) in Hd.
    rewrite (andthen_eq _ _ _ _ _ Hd). cbn [fst snd].
    assert (event_slot data = Some (Z.of_nat (st_output_index t))) as Hslot.
    { injection Hd as <-. unfold event_slot. rewrite get_json_obj. cbn. apply parse_int_show. }
    assert (tools_kept c [] c2) as K by (split_and!; [done|done|cbn; by rewrite length_insert|constructor]).
    destruct (kept_finishes o _ _ _ K W A) as (W2 & A2 & S2).
    assert (holds_of tools_kept item_done) as Kd by (unfold item_done, typed; by_kept).
    destruct (kept_finishes o _ _ _ (Kd c2) W2 A2) as (W3 & A3 & S3).
    split_and!; [done|done|]. intros s Hs. destruct (S2 s Hs) as [_ Hs2], (S3 s Hs2) as [R3 Hs3].
    split; [|done]. cbn [app args_run fst snd]. split; [|exact R3].
    intros _ Ho. rewrite Hslot in Ho. injection Ho as Ho%Nat2Z.inj. unfold get_str. rewrite Hg. cbn. f_equal.
    destruct Hs as [(i & u & Hu & Hou & ->)|[Hn _]]; [|by destruct (Hn index t E)].
    assert (i = index) as -> by (eapply (tw_inj c W); [exact Hu|exact E|congruence]).
    assert (u = t) as -> by congruence. unfold sent_of. rewrite (A index t E) take_ge; [|by rewrite length_chars].
    by rewrite of_chars_chars.
Qed.

Lemma sends_complete o : holds_of (sends o) (complete blake3 from_slice).
Proof.
  intros c. unfold complete. destruct (cv_terminal c); [apply op_refl|]. intros W.
  set (emit := each (λ index, emit_tool blake3 from_slice index true) (cv_tool_order c)).
  set (tail := quiet (set_cv_terminal true) +> _).
  assert (holds_of (sends o) emit) as He by (apply holds_each; [apply _|intros; apply sends_emit_tool]).
  destruct (He c W) as [W1 S1]. destruct (emit_all_full (cv_tool_order c) c W) as (Ho & Hd & Hf). fold emit in Ho, Hd, Hf.
  destruct (emit c) as [e1 c1] eqn:Ee. cbn [fst snd] in *. rewrite (andthen_eq _ _ _ _ _ Ee). cbn [fst snd].
  assert (all_full c1) as A1.
  { intros i t Ht. apply (Hf i t Ht). left. destruct (Hd i) as [t0 Ht0]; [by eexists|]. by eapply (tw_order c W). }
  assert (holds_of (finishes o) (finish_message +> each (finish_tool blake3 from_slice) (cv_tool_order c) +> tail)) as Hfin.
  { apply holds_andthen; [apply _|intros s; apply kept_finishes, kept_finish_message|].
    apply holds_andthen; [apply _|apply holds_each; [apply _|intros; apply finishes_tool]|].
    intros s. apply kept_finishes, (holds_apply tools_kept). unfold tail, snapshot_event, typed. by_kept. }
  destruct (Hfin c1 W1 A1) as (W2 & A2 & S2). split; [done|]. intros s Hs. destruct (S1 s Hs) as (s1 & R1 & Hs1).
  destruct (S2 s1 Hs1) as [R2 Hs2]. exists s1. split; [by eapply args_run_app|done].
Qed.

Lemma sends_events o events : holds_of (sends o) (process_events blake3 from_slice to_vec events).
Proof.
  unfold process_events, process_event. op_pieces; try apply sends_complete; try apply sends_chunk;
    try (intros st; apply tools_kept_sends, kept_fail).
  apply holds_quiet. intros st. by apply tools_kept_sends.
Qed.
End ArgsEnd.

(** ** The last event of a stream *)
Definition closed (e : list Event) : Prop := ∃ e0 ev, e = e0 ++ [ev] ∧ is_one_of ev.1 terminal_names = true.

(** What ends the answer: [DONE], an event named as an error, an error in the data. *)
Definition ends_answer (from_slice : string → option Value) (x : SseEvent) : bool :=
  String.eqb (trim (se_data x)) "[DONE]" || names_error x
  || is_some_and (opt_bind (from_slice (se_data x)) (get "error")) (λ error, match error with Null => false | _ => true end).

(** Nothing follows what ends the answer. *)
Fixpoint tidy_events (from_slice : string → option Value) (events : list SseEvent) : bool :=
  match events with
  | [] => true
  | x :: rest => (negb (ends_answer from_slice x) || is_empty rest) && tidy_events from_slice rest
  end.

(** So in each frame, as the decoder cuts it, and in what is left at the end. *)
Fixpoint tidy (from_slice : string → option Value) (max : Z) (d : ConvDecoder) (frames : list (list ascii)) : bool :=
  match frames with
  | [] => tidy_events from_slice (decoder_finish d).1
  | bytes :: rest =>
      match decoder_push d bytes max with
      | inl (events, d) => tidy_events from_slice events && tidy from_slice max d rest
      | inr _ => true
      end
  end.

Section Last.
Context (blake3 : list Z → list Z) (from_slice : string → option Value) (to_vec : Value → option string).

Abbreviation decoding := (keeps (λ c, (cv_decoder c, cv_max_bytes c)) []).

Lemma decoding_start : holds_of decoding start_events.
Proof. unfold start_events, snapshot_event, typed. by_keeps. Qed.

Lemma decoding_emit_tool index force : holds_of decoding (emit_tool blake3 from_slice index force).
Proof. unfold emit_tool, announce_tool, send_arguments, argument_event, put_tool, put_output, typed. by_keeps. Qed.

Lemma decoding_tool_delta delta : holds_of decoding (append_tool_delta blake3 from_slice delta).
Proof.
  unfold append_tool_delta. cbv zeta. op_pieces; [| |apply decoding_emit_tool]; apply keeps_quietly; intros s; by destruct (cv_tools s !! _).
Qed.

Lemma decoding_append_text delta : holds_of decoding (append_text delta).
Proof. unfold append_text, ensure_message, start_text, typed. by_keeps. Qed.

Lemma decoding_chunk chunk : holds_of decoding (process_chunk blake3 from_slice chunk).
Proof.
  unfold process_chunk, delta_ops. op_pieces; try apply decoding_start; try apply decoding_append_text; try apply decoding_tool_delta;
    apply keeps_quietly; intros s; unfold note_service_tier, note_usage, note_finish, identify; by repeat case_match.
Qed.

Lemma decoding_complete : holds_of decoding (complete blake3 from_slice).
Proof.
  unfold complete, finish_message, finish_text, finish_tool, snapshot_event, put_output, typed.
  op_pieces; try apply decoding_emit_tool; by_keeps.
Qed.

Lemma decoding_fail message : holds_of decoding (fail message).
Proof. unfold fail, typed. op_pieces; try apply decoding_start; by_keeps. Qed.

Lemma decoding_event x : holds_of decoding (process_event blake3 from_slice to_vec x).
Proof.
  unfold process_event. op_pieces; try apply decoding_complete; try apply decoding_fail; try apply decoding_chunk. by apply keeps_quietly.
Qed.

Lemma terminals_one ev : is_one_of ev.1 terminal_names = true → terminals [ev] = 1%nat.
Proof. intros H. unfold terminals. cbn [List.filter]. by rewrite H. Qed.

Lemma closed_app e1 e2 : closed e2 → closed (e1 ++ e2).
Proof. intros (e0 & ev & -> & H). exists (e1 ++ e0), ev. by rewrite app_assoc. Qed.

Lemma closed_andthen f g c : (∀ s, closed (g s).1) → closed ((f +> g) c).1.
Proof. intros Hg. unfold andthen. destruct (f c) as [e1 s]. specialize (Hg s). destruct (g s). by apply closed_app. Qed.

Lemma closed_event name fields c : is_one_of name terminal_names = true → closed (event name fields c).1.
Proof. intros H. by eexists [], _. Qed.

Lemma complete_closed c : cv_terminal c = false → closed (complete blake3 from_slice c).1.
Proof. intros E. unfold complete. rewrite E. do 4 (apply closed_andthen; intros ?). by apply closed_event. Qed.

Lemma fail_closed message c : cv_terminal c = false → closed (fail message c).1.
Proof. intros E. unfold fail. rewrite E. cbv zeta. do 3 (apply closed_andthen; intros ?). by apply closed_event. Qed.

(** An event of the upstream ends the answer, or leaves it open. *)
Lemma event_closes x c : cv_terminal c = false →
  if ends_answer from_slice x then closed (process_event blake3 from_slice to_vec x c).1
  else cv_terminal (process_event blake3 from_slice to_vec x c).2 = false.
Proof.
  intros Ec. unfold process_event, ends_answer. destruct (String.eqb (trim (se_data x)) "[DONE]"); cbn [orb].
  { change (closed ((quiet (set_cv_saw_done true) +> complete blake3 from_slice) c).1). unfold andthen, quiet.
    pose proof (complete_closed (set_cv_saw_done true c) Ec) as H. by destruct (complete _ _ _). }
  destruct (names_error x); cbn [orb]; [by apply fail_closed|].
  destruct (from_slice (se_data x)) as [v|]; cbn [opt_bind is_some_and]; [|done].
  assert (cv_terminal (process_chunk blake3 from_slice v c).2 = false) as Hk by (by destruct (ends_chunk blake3 from_slice v c) as [-> _]).
  destruct (get "error" v) as [[]|]; cbn [is_some_and]; done || by apply fail_closed.
Qed.

Lemma events_close events c : cv_terminal c = false → tidy_events from_slice events = true →
  cv_terminal (process_events blake3 from_slice to_vec events c).2 = false
  ∨ closed (process_events blake3 from_slice to_vec events c).1.
Proof.
  revert c. induction events as [|x events IH]; intros c Ec Ht; [by left|]. cbn in Ht. apply andb_true_iff in Ht as [Hx Ht].
  change (process_events blake3 from_slice to_vec (x :: events)) with
    (process_event blake3 from_slice to_vec x +> process_events blake3 from_slice to_vec events).
  pose proof (event_closes x c Ec) as H. unfold andthen. destruct (process_event _ _ _ x c) as [e1 s]. cbn [fst snd] in *.
  destruct (ends_answer from_slice x).
  - destruct events; [|done]. right. cbn. by rewrite app_nil_r.
  - specialize (IH s H Ht). destruct (process_events _ _ _ events s) as [e2 s2]. cbn [fst snd] in *.
    destruct IH as [?|?]; [by left|right; by apply closed_app].
Qed.

Lemma events_decoding events c :
  cv_decoder (process_events blake3 from_slice to_vec events c).2 = cv_decoder c
  ∧ cv_max_bytes (process_events blake3 from_slice to_vec events c).2 = cv_max_bytes c.
Proof.
  destruct (holds_each decoding (process_event blake3 from_slice to_vec) events decoding_event c) as [E _].
  by injection E.
Qed.

Lemma push_closes bytes c : cv_terminal c = false →
  match decoder_push (cv_decoder c) bytes (cv_max_bytes c) with
  | inl (events, d) => tidy_events from_slice events = true →
      closed (push blake3 from_slice to_vec bytes c).1
      ∨ cv_terminal (push blake3 from_slice to_vec bytes c).2 = false
        ∧ cv_decoder (push blake3 from_slice to_vec bytes c).2 = d
        ∧ cv_max_bytes (push blake3 from_slice to_vec bytes c).2 = cv_max_bytes c
  | inr _ => closed (push blake3 from_slice to_vec bytes c).1
  end.
Proof.
  intros Ec. unfold push. rewrite Ec. cbv zeta. cbn [cv_max_bytes cv_total_seen cv_decoder set_cv_total_seen].
  destruct (decoder_push (cv_decoder c) bytes (cv_max_bytes c)) as [[events d]|message].
  - intros Ht. destruct (_ <? _); [left; by apply fail_closed|].
    set (c1 := set_cv_decoder d _). assert (cv_terminal c1 = false) as E1 by done.
    destruct (events_close events c1 E1 Ht) as [H|H]; [right|by left]. destruct (events_decoding events c1) as [-> ->]. by split_and!.
  - destruct (_ <? _); by apply fail_closed.
Qed.

Lemma finish_closes c : cv_terminal c = false → tidy_events from_slice (decoder_finish (cv_decoder c)).1 = true →
  closed (finish blake3 from_slice to_vec c).1.
Proof.
  intros Ec Ht. unfold finish. rewrite Ec. destruct (decoder_finish (cv_decoder c)) as [events d]. cbn [fst] in Ht.
  set (c1 := set_cv_decoder d c). assert (cv_terminal c1 = false) as E1 by done.
  pose proof (events_close events c1 E1 Ht) as H. pose proof (ends_events blake3 from_slice to_vec events c1) as Ho.
  unfold andthen. destruct (process_events _ _ _ events c1) as [e s]. cbn [fst snd] in *.
  destruct (cv_terminal s) eqn:Es.
  - destruct H as [?|?]; [done|]. by rewrite app_nil_r.
  - destruct (cv_saw_done s).
    + pose proof (complete_closed s Es) as Hc. destruct (complete _ _ s). by apply closed_app.
    + match goal with |- context [fail ?m s] => pose proof (fail_closed m s Es) as Hc; destruct (fail m s) end. by apply closed_app.
Qed.

(** Once the stream has ended, nothing more comes. *)
Lemma stream_ended frames broken c : cv_terminal c = true → (convert_stream blake3 from_slice to_vec frames broken c) = ([], c).
Proof.
  intros Ec. unfold convert_stream. assert (each (push blake3 from_slice to_vec) frames c = ([], c)) as E.
  { induction frames as [|bytes frames IH]; [done|]. unfold each in *. cbn. unfold andthen, push at 1. by rewrite Ec IH. }
  rewrite (andthen_eq _ _ _ _ _ E). destruct broken; unfold fail, finish; by rewrite Ec.
Qed.

Lemma stream_push bytes frames broken c :
  convert_stream blake3 from_slice to_vec (bytes :: frames) broken c =
  (push blake3 from_slice to_vec bytes +> convert_stream blake3 from_slice to_vec frames broken) c.
Proof.
  unfold convert_stream, each. cbn. unfold andthen. destruct (push _ _ _ bytes c) as [e1 c1].
  destruct (foldr _ _ frames c1) as [e2 c2]. by destruct (match broken with Some m => fail m | None => _ end c2) as [e3 c3]; rewrite app_assoc.
Qed.

Lemma stream_closed frames broken c : cv_terminal c = false →
  tidy from_slice (cv_max_bytes c) (cv_decoder c) frames = true →
  closed (convert_stream blake3 from_slice to_vec frames broken c).1.
Proof.
  revert c. induction frames as [|bytes frames IH]; intros c Ec Ht.
  - unfold convert_stream, andthen. cbn. destruct broken as [m|].
    + pose proof (fail_closed m c Ec) as H. by destruct (fail m c).
    + pose proof (finish_closes c Ec Ht) as H. by destruct (finish _ _ _ c).
  - rewrite stream_push. pose proof (push_closes bytes c Ec) as Hp. cbn in Ht. unfold andthen.
    pose proof (ends_push blake3 from_slice to_vec bytes c) as Ho.
    destruct (push _ _ _ bytes c) as [e s]. cbn [fst snd] in *.
    assert (closed e → closed (let '(e2, c2) := convert_stream blake3 from_slice to_vec frames broken s in (e ++ e2, c2)).1) as Hend.
    { intros (e0 & ev & -> & Hev). assert (cv_terminal s = true) as Es.
      { unfold ends_once in Ho. rewrite Ec terminals_app terminals_one // in Ho. destruct (cv_terminal s); [done|lia]. }
      rewrite stream_ended //. cbn. rewrite app_nil_r. by exists e0, ev. }
    destruct (decoder_push _ _ _) as [[events d]|m]; [|by apply Hend]. apply andb_true_iff in Ht as [Hev Ht].
    destruct (Hp Hev) as [H|(Es & Ed & Em)]; [by apply Hend|]. specialize (IH s Es). rewrite Ed Em in IH. specialize (IH Ht).
    destruct (convert_stream _ _ _ frames broken s). by apply closed_app.
Qed.
End Last.

(** ** The whole stream *)
Section Stream.
Context (blake3 : list Z → list Z) (from_slice : string → option Value) (to_vec : Value → option string).

Lemma holds_push R `{OpRel R} bytes :
  (∀ d n c, R c [] (set_cv_decoder d (set_cv_total_seen n c))) →
  (∀ message, holds_of R (fail message)) → (∀ events, holds_of R (process_events blake3 from_slice to_vec events)) →
  holds_of R (push blake3 from_slice to_vec bytes).
Proof.
  intros Hi Hf He c. unfold push. destruct (cv_terminal c); [apply op_refl|]. cbv zeta.
  set (c1 := set_cv_total_seen _ c).
  assert (∀ d f, holds_of R f → R c (f (set_cv_decoder d c1)).1 (f (set_cv_decoder d c1)).2) as Hd.
  { intros d f Hf'. rewrite -(app_nil_l (f _).1). eapply op_trans; [apply Hi|apply Hf']. }
  assert (set_cv_decoder (cv_decoder c1) c1 = c1) as Hsame by by destruct c1.
  destruct (_ <? _); [rewrite -Hsame; apply Hd, Hf|].
  destruct (decoder_push _ _ _) as [[events d]|error]; [apply Hd, He|rewrite -Hsame; apply Hd, Hf].
Qed.

Lemma holds_finish R `{OpRel R} :
  (∀ d n c, R c [] (set_cv_decoder d (set_cv_total_seen n c))) →
  (∀ message, holds_of R (fail message)) → (∀ events, holds_of R (process_events blake3 from_slice to_vec events)) →
  holds_of R (complete blake3 from_slice) → holds_of R (finish blake3 from_slice to_vec).
Proof.
  intros Hi Hf He Hc c. unfold finish. destruct (cv_terminal c); [apply op_refl|].
  destruct (decoder_finish (cv_decoder c)) as [events d]. set (rest := λ c : ChatSseToResponses, if cv_terminal c then _ else _).
  assert (holds_of R (process_events blake3 from_slice to_vec events +> rest)) as Hr.
  { apply holds_andthen; [done|apply He|]. intros s. unfold rest. destruct (cv_terminal s); [apply op_refl|].
    destruct (cv_saw_done s); [apply Hc|apply Hf]. }
  specialize (Hr (set_cv_decoder d c)). rewrite -(app_nil_l ((_ +> _) _).1). eapply op_trans; [|exact Hr].
  specialize (Hi d (cv_total_seen c) c). by destruct c.
Qed.

Lemma holds_stream R `{OpRel R} frames broken :
  (∀ d n c, R c [] (set_cv_decoder d (set_cv_total_seen n c))) →
  (∀ message, holds_of R (fail message)) → (∀ events, holds_of R (process_events blake3 from_slice to_vec events)) →
  holds_of R (complete blake3 from_slice) → holds_of R (convert_stream blake3 from_slice to_vec frames broken).
Proof.
  intros Hi Hf He Hc. unfold convert_stream. apply holds_andthen; [done| |].
  - apply holds_each; [done|]. intros bytes. by apply holds_push.
  - destruct broken; [apply Hf|by apply holds_finish].
Qed.

Lemma stream_app sent rest broken c :
  (convert_stream blake3 from_slice to_vec (sent ++ rest) broken c).1 =
  (each (push blake3 from_slice to_vec) sent c).1
  ++ (convert_stream blake3 from_slice to_vec rest broken (each (push blake3 from_slice to_vec) sent c).2).1.
Proof.
  revert c. induction sent as [|bytes sent IH]; intros c; [done|]. cbn [app]. rewrite stream_push. unfold andthen, each. cbn [foldr].
  unfold andthen. destruct (push _ _ _ bytes c) as [e1 c1]. specialize (IH c1). unfold each in IH.
  destruct (foldr _ _ sent c1) as [e2 c2], (convert_stream _ _ _ (sent ++ rest) broken c1) as [e3 c3]. cbn in *.
  by rewrite IH app_assoc.
Qed.

(** Frames after the one that ended the stream add nothing. *)
Lemma stream_stopped x max sent rest broken :
  terminals (each (push blake3 from_slice to_vec) sent (new_converter blake3 x max)).1 = 1%nat →
  let r := each (push blake3 from_slice to_vec) sent (new_converter blake3 x max) in
  r.1 ++ (convert_stream blake3 from_slice to_vec rest broken r.2).1 = r.1.
Proof.
  intros H. cbv zeta.
  pose proof (holds_each ends_once _ sent (ends_push blake3 from_slice to_vec) (new_converter blake3 x max)) as Ho.
  unfold ends_once in Ho. rewrite H in Ho. destruct (cv_terminal (each _ sent _).2) eqn:Es; [|done].
  by rewrite stream_ended // app_nil_r.
Qed.

Lemma starts_closed e : starts e → closed e → terminals e = 1%nat →
  (∃ ev rest, e = ev :: rest ∧ ev.1 = "response.created") ∨ ∃ ev, e = [ev] ∧ ev.1 = "response.completed".
Proof.
  intros Hs (e0 & last & -> & Hl) Ht. destruct e0 as [|ev e0].
  - destruct Hs as [Hs|Hs]; [left|right]; by repeat eexists.
  - destruct Hs as [Hs|Hs]; [left; by repeat eexists|]. exfalso. revert Ht.
    change ((ev :: e0) ++ [last]) with ([ev] ++ (e0 ++ [last])). rewrite !terminals_app !terminals_one; [lia|done|by rewrite Hs].
Qed.

(** C18. A converted stream is a Responses stream, however the upstream's bytes are cut and however
    the stream ends. Its events are numbered 0, 1, 2, ...; exactly one of them ends it; nothing
    comes after the frame that ended it. When no frame holds anything after what ends the answer
    ([DONE] or an error), the event that ends the stream is the last one, and the first one
    creates the response - unless [DONE] came before anything else: then the end is all there is. *)
Theorem converted_stream_protocol x max frames broken :
  let c := new_converter blake3 x max in
  let e := (convert_stream blake3 from_slice to_vec frames broken c).1 in
  (∃ m, numbered 0 e m) ∧ terminals e = 1%nat
  ∧ (∀ sent rest, frames = sent ++ rest →
       let e' := (each (push blake3 from_slice to_vec) sent c).1 in terminals e' = 1%nat → e = e')
  ∧ (tidy from_slice (cv_max_bytes c) (cv_decoder c) frames = true →
     closed e ∧ ((∃ ev rest, e = ev :: rest ∧ ev.1 = "response.created") ∨ ∃ ev, e = [ev] ∧ ev.1 = "response.completed")).
Proof.
  cbv zeta. set (c := new_converter blake3 x max). set (r := convert_stream _ _ _ _ _ c).
  assert (terminals r.1 = 1%nat) as Ht.
  { assert (ends_once c r.1 r.2) as He.
    { apply (holds_stream ends_once frames broken); [done|intros; apply ends_fail|intros; apply ends_events|apply ends_complete]. }
    assert (cv_terminal r.2 = true) as Hend.
    { unfold r, convert_stream. rewrite andthen_state. destruct broken; [apply fail_ends|apply ends_finish]. }
    unfold ends_once in He. rewrite Hend in He. cbn in He. lia. }
  split_and!; [|done| |].
  - exists (cv_sequence r.2). change (numbers c r.1 r.2).
    apply (holds_stream numbers frames broken); [done|intros; apply numbers_fail|intros; apply numbers_events|apply numbers_complete].
  - intros sent rest Hf Hs. unfold r. rewrite Hf stream_app. apply stream_stopped. done.
  - intros Htidy. pose proof (stream_closed blake3 from_slice to_vec frames broken c eq_refl Htidy) as Hclosed. fold r in Hclosed.
    split; [done|]. apply starts_closed; [|done|done].
    assert (begins c r.1 r.2) as Hb.
    { apply (holds_stream begins frames broken); [|intros; apply begins_fail|intros; apply begins_events|apply begins_complete].
      intros d n s. apply (begins_quiet (λ s, set_cv_decoder d (set_cv_total_seen n s))). done. }
    destruct Hb as (_ & _ & Hs); [by intros _|]. destruct (Hs eq_refl) as [[He _]|?]; [|done]. by rewrite He in Ht.
Qed.

(** C9. Nothing streamed is lost or changed: the text announced as done is the text
    deltas in order, and the arguments announced as done for a call of a function are
    the argument deltas of its slot in order. *)
Theorem converted_stream_faithful x max frames broken o :
  let r := convert_stream blake3 from_slice to_vec frames broken (new_converter blake3 x max) in
  text_run "" r.1 (cv_text r.2) ∧ ∃ s, args_run o [] r.1 s.
Proof.
  cbv zeta. set (c := new_converter blake3 x max). set (r := convert_stream _ _ _ _ _ c). split.
  - change (writes c r.1 r.2). apply (holds_stream writes frames broken); [done|intros; apply writes_fail|intros; apply writes_events|apply writes_complete].
  - assert (sends o c r.1 r.2) as Hs.
    { apply (holds_stream (sends o) frames broken); [intros d n s; by apply tools_kept_sends| |intros; apply sends_events|apply sends_complete].
      intros message s. apply tools_kept_sends, kept_fail. }
    destruct Hs as [_ Hs]; [split; intros *; cbn; by rewrite lookup_empty|].
    destruct (Hs []) as (s' & Hr & _); [right; split; [intros *; cbn; by rewrite lookup_empty|done]|]. by exists s'.
Qed.
End Stream.

(** ** Usage through the translation

    The body a client receives is the body the request is metered from
    ([ResponseEvents.parse_usage]), so the translation must keep what the meter reads. *)
Definition reads_nothing (u : Value) (names : list string) : Prop := opt_bind (pointer names u) as_i64 = None.

(** The names the meter knows and the translation does not read. *)
Definition NOT_TRANSLATED : list (list string) :=
  [["input_tokens"]; ["output_tokens"]; ["input_tokens_details"; "cached_tokens"];
   ["input_tokens_details"; "cache_creation_tokens"]; ["input_tokens_details"; "cache_write_tokens"];
   ["prompt_tokens_details"; "cache_write_tokens"]; ["cache_read_input_tokens"];
   ["cache_creation_input_tokens"]; ["cache_write_tokens"];
   ["output_tokens_details"; "reasoning_tokens"]; ["reasoning_tokens"]].

Lemma first_i64_or_range names u : is_i64 (unwrap_or (first_i64 names u) 0).
Proof. destruct (first_i64 names u) eqn:E; cbn; [by eapply first_i64_range|done]. Qed.

(** What the meter reads of a usage written in the names of the Responses format. *)
Lemma parse_translated i cached created o r t :
  is_i64 i → is_i64 cached → is_i64 created → is_i64 o → is_i64 r → 0 <= i → 0 <= o →
  parse_usage (json_obj [("input_tokens", json_i64 i);
    ("input_tokens_details", json_obj [("cached_tokens", json_i64 cached); ("cache_creation_tokens", json_i64 created)]);
    ("output_tokens", json_i64 o); ("output_tokens_details", json_obj [("reasoning_tokens", json_i64 r)]);
    ("total_tokens", t)]) =
  let read z := unwrap_or (opt_filter (λ n, 0 <=? n) (Some z)) 0 in
  Some (MkUsage (Z.max (i64_sat_sub (i64_sat_sub i (read cached)) (read created)) 0) o (read cached) (read created) (read r)).
Proof.
  intros Hi Hc Hw Ho Hr Hi0 Ho0.
  assert (∀ z, is_i64 z → opt_bind (Some (json_i64 z)) as_i64 = Some z) as Hz by (intros z Hz; by apply as_i64_json).
  pose proof (Hz _ Hi) as Ei; pose proof (Hz _ Hc) as Ec; pose proof (Hz _ Hw) as Ew; pose proof (Hz _ Ho) as Eo; pose proof (Hz _ Hr) as Er.
  revert Ei Ec Ew Eo Er. generalize (json_i64 i), (json_i64 cached), (json_i64 created), (json_i64 o), (json_i64 r).
  intros vi vc vw vo vr. cbn [opt_bind]. intros Ei Ec Ew Eo Er.
  cbv -[parse_i64 as_i64 opt_filter i64_sat_sub Z.max Z.leb unwrap_or]. rewrite Ei Ec Ew Eo Er. cbn [opt_filter].
  by rewrite (proj2 (Z.leb_le 0 i) Hi0) (proj2 (Z.leb_le 0 o) Ho0).
Qed.

Lemma first_i64_skip u name names : reads_nothing u name → first_i64 (name :: names) u = first_i64 names u.
Proof. unfold reads_nothing. cbn. by intros ->. Qed.

Lemma number_or names u :
  unwrap_or (number names u) 0 = unwrap_or (opt_filter (λ n, 0 <=? n) (Some (unwrap_or (first_i64 names u) 0))) 0.
Proof. unfold number. by destruct (first_i64 names u). Qed.

Lemma translated_usage_fields u :
  chat_usage_to_responses u =
    let field names := unwrap_or (first_i64 names u) 0 in
    let i := field [["prompt_tokens"]] in
    let o := field [["completion_tokens"]] in
    json_obj [("input_tokens", json_i64 i);
      ("input_tokens_details", json_obj
        [("cached_tokens", json_i64 (field [["prompt_tokens_details"; "cached_tokens"]; ["cached_tokens"]]));
         ("cache_creation_tokens", json_i64 (field [["prompt_tokens_details"; "cache_creation_tokens"];
            ["cache_creation_tokens"]; ["cached_creation_tokens"]]))]);
      ("output_tokens", json_i64 o);
      ("output_tokens_details", json_obj [("reasoning_tokens",
         json_i64 (field [["completion_tokens_details"; "reasoning_tokens"]]))]);
      ("total_tokens", json_i64 (unwrap_or (first_i64 [["total_tokens"]] u) (i64_sat_add i o)))].
Proof.
  assert (∀ o : option Z, match o with Some n => Some n | None => None end = o) as Hid by by intros [].
  unfold chat_usage_to_responses. cbv zeta. cbn [first_i64]. rewrite !Hid.
  repeat f_equal; by repeat (destruct (opt_bind _ as_i64); cbn).
Qed.

(** A usage in the names of the chat format is metered from the translated answer
    exactly as it would have been metered from the chat answer itself: the input kept
    apart from the cached and the newly cached tokens, the output and the reasoning. *)
Theorem translated_usage_metered u us :
  Forall (reads_nothing u) NOT_TRANSLATED → parse_usage u = Some us →
  parse_usage (chat_usage_to_responses u) = Some us.
Proof.
  unfold NOT_TRANSLATED. rewrite !Forall_cons. intros (H1&H2&H3&H4&H5&H6&H7&H8&H9&H10&H11&_).
  rewrite translated_usage_fields. cbv zeta.
  unfold parse_usage at 1. rewrite {1 2}/number !(first_i64_skip u _ _ H1) !(first_i64_skip u _ _ H2).
  destruct (first_i64 [["prompt_tokens"]] u) as [i|] eqn:Ei; [cbn [opt_filter]|done].
  destruct (Z.leb_spec 0 i) as [Hi|]; [|done].
  destruct (first_i64 [["completion_tokens"]] u) as [o|] eqn:Eo; [cbn [opt_filter]|done].
  destruct (Z.leb_spec 0 o) as [Ho|]; [|done].
  rewrite !number_or. intros <-.
  assert (∀ names name, reads_nothing u name → first_i64 (names ++ [name]) u = first_i64 names u) as Hlast.
  { intros names name Hn. induction names as [|n names IH]; cbn; [by rewrite Hn|]. by rewrite IH. }
  rewrite parse_translated; try apply first_i64_or_range; try done; cbn [unwrap_or]; [|by eapply first_i64_range..].
  assert (first_i64 [["input_tokens_details"; "cached_tokens"]; ["prompt_tokens_details"; "cached_tokens"];
             ["cached_tokens"]; ["cache_read_input_tokens"]] u =
          first_i64 [["prompt_tokens_details"; "cached_tokens"]; ["cached_tokens"]] u) as ->.
  { rewrite (first_i64_skip u _ _ H3). apply (Hlast [_; _] _ H7). }
  assert (first_i64 [["input_tokens_details"; "cache_creation_tokens"]; ["input_tokens_details"; "cache_write_tokens"];
             ["prompt_tokens_details"; "cache_creation_tokens"]; ["prompt_tokens_details"; "cache_write_tokens"];
             ["cache_creation_tokens"]; ["cache_creation_input_tokens"];
             ["cached_creation_tokens"]; ["cache_write_tokens"]] u =
          first_i64 [["prompt_tokens_details"; "cache_creation_tokens"]; ["cache_creation_tokens"]; ["cached_creation_tokens"]] u) as ->.
  { rewrite (first_i64_skip u _ _ H4) (first_i64_skip u _ _ H5) (Hlast [_; _; _; _; _] _ H9).
    cbn [first_i64]. by rewrite H6 H8. }
  assert (first_i64 [["output_tokens_details"; "reasoning_tokens"]; ["completion_tokens_details"; "reasoning_tokens"];
             ["reasoning_tokens"]] u = first_i64 [["completion_tokens_details"; "reasoning_tokens"]] u) as ->.
  { rewrite (first_i64_skip u _ _ H10). apply (Hlast [_] _ H11). }
  done.
Qed.

Definition chat_usage_example : Value :=
  json_obj [("prompt_tokens", json_i64 100); ("completion_tokens", json_i64 20); ("cached_tokens", json_i64 30);
            ("completion_tokens_details", json_obj [("reasoning_tokens", json_i64 5)])].

Lemma translated_usage_metered_witness :
  parse_usage (chat_usage_to_responses chat_usage_example) = Some (MkUsage 70 20 30 0 5).
Proof.
  apply translated_usage_metered; [repeat constructor; vm_compute; reflexivity|vm_compute; reflexivity].
Defined.

(** Tokens written to a cache under a name the meter knows but the translation does not
    read are metered as plain input once translated. *)
Example cache_write_lost :
  let u := json_obj [("prompt_tokens", json_i64 100); ("completion_tokens", json_i64 20);
                     ("prompt_tokens_details", json_obj [("cache_write_tokens", json_i64 40)])] in
  parse_usage u = Some (MkUsage 60 20 0 40 0) ∧ parse_usage (chat_usage_to_responses u) = Some (MkUsage 100 20 0 0 0).
Proof. by vm_compute. Qed.

(** An answer without token counts is not metered; its translation is metered as zero. *)
Example missing_usage_becomes_zero :
  parse_usage (Object []) = None ∧ parse_usage (chat_usage_to_responses (Object [])) = Some (MkUsage 0 0 0 0 0).
Proof. by vm_compute. Qed.

(** ** Two corners of the stream *)

(** A parser for the examples below: it knows one text. *)
Definition knows (text : string) (v : Value) : string → option Value := λ s,
  if String.eqb s text then Some v else None.

Definition text_chunk : Value :=
  json_obj [("id", String "c1"); ("choices", Array [json_obj [("delta", json_obj [("content", String "late")])]])].
Definition done_event : SseEvent := MkSseEvent None "[DONE]".
Definition chunk_event : SseEvent := MkSseEvent None "CHUNK".

Definition names_after (frames : list (list SseEvent)) : list string :=
  let process := process_events (λ _, []) (knows "CHUNK" text_chunk) (λ _, None) in
  let guarded f : Op := λ c, if cv_terminal c then ([], c) else process f c in
  List.map fst (each guarded frames (new_converter (λ _, []) default_context 2000)).1.

(** The events of one frame are processed without a look at [terminal]: a chunk that
    follows [DONE] in the same frame still streams text after the final event, the same
    chunk in a frame of its own is dropped. *)
Example chunk_after_done_depends_on_frames :
  names_after [[chunk_event; done_event]; [chunk_event]] =
    ["response.created"; "response.in_progress"; "response.output_item.added"; "response.content_part.added";
     "response.output_text.delta"; "response.output_text.done"; "response.content_part.done";
     "response.output_item.done"; "response.completed"]
  ∧ names_after [[chunk_event; done_event; chunk_event]] =
    names_after [[chunk_event; done_event]; [chunk_event]] ++ ["response.output_text.delta"].
Proof. by vm_compute. Qed.

(** The usual stream: chunks, then [DONE]. The first event creates the response, the last one
    completes it. *)
Example chunks_then_done :
  let frames := [chars "data: CHU"; chars "NK" ++ [nl; nl] ++ chars "data: [DONE]" ++ [nl; nl]] in
  let parse := knows "CHUNK" text_chunk in
  tidy parse 2000 new_conv_decoder frames = true
  ∧ List.map fst (convert_stream (λ _, []) parse (λ _, None) frames None (new_converter (λ _, []) default_context 2000)).1
    = names_after [[chunk_event; done_event]].
Proof. by vm_compute. Qed.

(** A stream that ends before any chunk completes an answer that was never created. *)
Example done_without_created : names_after [[done_event]] = ["response.completed"].
Proof. by vm_compute. Qed.

(** The input of a custom tool: its deltas carry the JSON arguments of the chat call, the
    final event the text inside them. *)
Definition custom_arguments : string := "{'input':'ls'}".
Definition custom_context : ConversionContext := MkContext {["sh" := KCustom "sh"]} ∅ [].
Definition custom_chunk : Value :=
  json_obj [("id", String "c1"); ("choices", Array [json_obj [("delta", json_obj [("tool_calls", Array [json_obj
    [("index", json_i64 0); ("id", String "call_1");
     ("function", json_obj [("name", String "sh"); ("arguments", String custom_arguments)])]])])]])].

Definition knows_custom (s : string) : option Value :=
  if String.eqb s "CHUNK" then Some custom_chunk else knows custom_arguments (json_obj [("input", String "ls")]) s.

Definition field_of (name key : string) (events : list Event) : list (option string) :=
  List.map (λ ev, get_str key ev.2) (List.filter (λ ev, String.eqb ev.1 name) events).

Example custom_input_streamed_raw :
  let events := (process_events (λ _, []) knows_custom (λ _, None) [chunk_event; done_event]
                   (new_converter (λ _, []) custom_context 2000)).1 in
  field_of "response.custom_tool_call_input.delta" "delta" events = [Some custom_arguments]
  ∧ field_of "response.custom_tool_call_input.done" "input" events = [Some "ls"].
Proof. by vm_compute. Qed.
