(* ===== verification/CodexRequests.v ===== *)
(** * CodexRequests: the requests and answers of OAuth accounts

    Models the part of [codex_oauth.rs] that reads and writes what an OAuth account
    exchanges with its upstream: the normal form of a request, the answer collected from
    a forced stream, the model inventory, the quota snapshot and the hints of an error
    body. Logins, refreshes and storage are in later files. JSON parsing and printing are
    parameters. *)
From Stdlib Require Import SpecFloat Ascii String.
From S2P Require Import Prelude Float64 Text Json Types ResponseEvents Snapshot.

Local Open Scope string_scope.
Local Open Scope list_scope.
Local Open Scope Z_scope.

(** ** Reading fields under several names *)

(** [keys.iter().find_map(|key| value.get(key))]: the first field present decides. *)
Fixpoint first_present (value : Value) (keys : list string) : option Value :=
  match keys with
  | [] => None
  | key :: keys => match get key value with Some v => Some v | None => first_present value keys end
  end.

Definition string_at (value : Value) (keys : list string) : option string :=
  opt_filter (λ s, negb (String.eqb s "")) (option_map trim (opt_bind (first_present value keys) as_str)).

Definition parse_bool (raw : string) : option bool :=
  if is_one_of raw ["true"; "1"] then Some true else if is_one_of raw ["false"; "0"] then Some false else None.

Definition bool_at (value : Value) (keys : list string) : option bool :=
  let! value := first_present value keys in
  match as_bool value with
  | Some b => Some b
  | None => opt_bind (as_str value) (λ raw, parse_bool (trim raw))
  end.

(** [Value::as_f64]: the text of the number, when it is finite. *)
Definition as_f64 (v : Value) : option f64 :=
  match v with Number t => opt_filter f64_is_finite (parse_f64 t) | _ => None end.

Definition number_at (value : Value) (keys : list string) : option f64 :=
  let! value := first_present value keys in
  opt_filter f64_is_finite
    (match as_f64 value with
     | Some n => Some n
     | None => opt_bind (as_str value) (λ raw, parse_f64 (trim raw))
     end).

Definition integer_at (value : Value) (keys : list string) : option Z :=
  let! value := first_present value keys in
  opt_or (as_i64 value)
    (opt_or (opt_filter (λ n, n <=? i64_max) (as_u64 value))
            (opt_bind (as_str value) (λ raw, parse_i64 (trim raw)))).

Definition timestamp_ms_at (value : Value) (keys : list string) : option Z :=
  let! raw := integer_at value keys in
  if raw <=? 0 then None
  else if 10000000000 <? raw then Some raw
  else i64_checked (raw * 1000).

(** [integer_at(...).and_then(|seconds| now_ms.checked_add(seconds.saturating_mul(1_000)))] *)
Definition seconds_from_now (now_ms : Z) (seconds : option Z) : option Z :=
  opt_bind seconds (λ seconds, i64_checked (now_ms + i64_sat_mul seconds 1000)).

(** ** Error bodies *)
Definition forbidden_phrases : list string :=
  ["missing entitlement"; "missing_entitlement"; "missing_codex_entitlement"; "workspace deactivated";
   "workspace_deactivated"; "account deactivated"].

Definition is_account_forbidden_error (bytes : list ascii) : bool :=
  let text := to_ascii_lowercase (from_utf8_lossy bytes) in
  existsb (λ needle, contains needle text) forbidden_phrases.

Definition RESET_AT : list string := ["resets_at"; "reset_at"].
Definition RESET_IN : list string := ["resets_in_seconds"; "reset_after_seconds"].

Section Json.
Context (from_slice : list ascii → option Value) (to_vec : Value → option string).

Definition quota_reset_hint_from_error (bytes : list ascii) (now_ms : Z) : option Z :=
  let! value := from_slice bytes in
  let error := get "error" value in
  opt_or (timestamp_ms_at value RESET_AT)
    (opt_or (opt_bind error (λ error, timestamp_ms_at error RESET_AT))
       (opt_or (seconds_from_now now_ms (integer_at value RESET_IN))
          (opt_bind error (λ error, seconds_from_now now_ms (integer_at error RESET_IN))))).

(** ** The normal form of a request *)
Definition is_search_alias (tool_type : string) : bool :=
  is_one_of tool_type ["web_search_preview"; "web_search_preview_2025_03_11"].

Definition normalize_tool_type (value : Value) : Value :=
  match value with
  | String tool_type => if is_search_alias tool_type then String "web_search" else value
  | _ => value
  end.

(** [object.get_mut(key)] and an update in place. *)
Definition update_field (key : string) (f : Value → Value) (fields : list (string * Value)) : list (string * Value) :=
  match assoc key fields with Some v => assoc_insert key (f v) fields | None => fields end.

Definition normalize_tool_aliases (value : Value) : Value :=
  match value with
  | Array tools =>
      Array (map (λ tool, match tool with
                          | Object fields => Object (update_field "type" normalize_tool_type fields)
                          | tool => tool
                          end) tools)
  | value => value
  end.

Definition normalize_tool_choice (value : Value) : Value :=
  match value with
  | Object fields =>
      Object (fields |> update_field "type" normalize_tool_type |> update_field "tools" normalize_tool_aliases)
  | value => value
  end.

(** A text becomes a list of one message; a system message one of the developer. *)
Definition text_input (input : string) : Value :=
  Array [json_obj [("type", String "message"); ("role", String "user");
                   ("content", Array [json_obj [("type", String "input_text"); ("text", String input)]])]].

Definition developer_role (item : Value) : Value :=
  match item with
  | Object fields =>
      if str_is (opt_bind (assoc "role" fields) as_str) ["system"] then Object (assoc_insert "role" (String "developer") fields)
      else item
  | item => item
  end.

Definition normalize_input (input : Value) : Value :=
  match (match input with String text => text_input text | input => input end) with
  | Array items => Array (map developer_role items)
  | input => input
  end.

Definition unsupported_by_codex : list string :=
  ["max_output_tokens"; "max_completion_tokens"; "temperature"; "top_p"; "truncation"; "user"; "context_management"].

Definition has_tools (root : list (string * Value)) : bool :=
  is_some_and (opt_bind (assoc "tools" root) as_array) (λ tools, negb (is_empty tools)).

Definition normalize_tier (root : list (string * Value)) : list (string * Value) :=
  match opt_bind (assoc "service_tier" root) as_str with
  | Some tier => if is_one_of tier ["fast"; "priority"] then assoc_insert "service_tier" (String "priority") root
                 else assoc_remove "service_tier" root
  | None => root
  end.

Definition normalize_responses_object (root : list (string * Value)) (upstream_model : string)
    : list (string * Value) :=
  root
  |> assoc_insert "model" (String upstream_model)
  |> update_field "input" normalize_input
  |> assoc_insert "stream" (Bool true)
  |> assoc_insert "store" (Bool false)
  |> assoc_insert "include" (Array [String "reasoning.encrypted_content"])
  |> (λ root, if has_tools root
              then match assoc "parallel_tool_calls" root with
                   | Some _ => root
                   | None => assoc_insert "parallel_tool_calls" (Bool true) root
                   end
              else assoc_remove "parallel_tool_calls" root)
  |> (λ root, if is_none_or (assoc "instructions" root) is_null then assoc_insert "instructions" (String "") root
              else root)
  |> (λ root, foldl (λ root field, assoc_remove field root) root unsupported_by_codex)
  |> normalize_tier
  |> update_field "tools" normalize_tool_aliases
  |> update_field "tool_choice" normalize_tool_choice
  |> assoc_remove "background".

Definition normalize_responses_request (body : list ascii) (upstream_model : string) : (string * bool) + string :=
  match from_slice body with
  | None => inr "invalid JSON"
  | Some (Object root) =>
      let downstream_stream := unwrap_or (opt_bind (assoc "stream" root) as_bool) false in
      match to_vec (Object (normalize_responses_object root upstream_model)) with
      | Some value => inl (value, downstream_stream)
      | None => inr "json encode failed"
      end
  | Some _ => inr "request body must be a JSON object"
  end.

Definition normalize_response_create_value (value : Value) (upstream_model : string) : Value :=
  match value with Object root => Object (normalize_responses_object root upstream_model) | value => value end.

(** ** The answer of a forced stream *)
Definition last_terminal_response (events : list Value) : option Value :=
  head (omap (get "response") (List.filter is_terminal_response_event (reverse events))).

Definition collect_completed_response_from_sse (body : list ascii) : string + string :=
  let '(events, decoder) := push_bytes from_slice new_sse body in
  let '(more, decoder) := ResponseEvents.finish from_slice decoder in
  match last_terminal_response (events ++ more) with
  | None => inr (unwrap_or (sse_error decoder) "Codex stream ended without a terminal response event")
  | Some response => match to_vec response with Some body => inl body | None => inr "json encode failed" end
  end.

(** ** The model inventory and the quota *)
Fixpoint dedup (l : list string) : list string :=
  match l with
  | x :: (y :: _) as l' => if String.eqb x y then dedup l' else x :: dedup l'
  | l => l
  end.

Definition inventory_ids (value : Value) : list string :=
  let arrays := option_list (get "models" value) ++ option_list (get "data" value) in
  let items := concat (omap as_array arrays) in
  List.filter (λ id, negb (String.eqb id "")) (map trim (omap (get_str "id") items)).

(** The error is its code. *)
Definition parse_model_ids (bytes : list ascii) : list string + string :=
  match from_slice bytes with
  | None => inr "models_invalid"
  | Some value =>
      let models := dedup (sort_by str_leb (inventory_ids value)) in
      if is_empty models then inr "models_empty" else inl models
  end.

Definition f64_100 : f64 := f64_of_Z 100.

(** [clamp(0.0, 100.0)] of a finite number *)
Definition clamp_percent (x : f64) : f64 :=
  let x := if SFltb x f64_zero then f64_zero else x in if SFltb f64_100 x then f64_100 else x.

Definition parse_quota_window (value : option Value) (now_ms : Z) : option CodexQuotaWindow :=
  let! value := value in
  let used := unwrap_or (opt_or (number_at value ["used_percent"])
                (option_map (λ fraction, f64_mul fraction f64_100) (number_at value ["used_fraction"]))) f64_zero in
  let used_percent := clamp_percent used in
  Some (MkWindow used_percent (clamp_percent (f64_sub f64_100 used_percent))
          (integer_at value ["limit_window_seconds"; "window_seconds"; "window"])
          (opt_or (timestamp_ms_at value ["reset_at"; "resets_at"])
             (seconds_from_now now_ms (integer_at value ["reset_after_seconds"; "resets_in_seconds"])))).

Definition parse_credits (value : option Value) (root : Value) : CodexQuotaCredits :=
  let value := unwrap_or value Null in
  MkCredits (unwrap_or (bool_at value ["has_credits"]) false) (unwrap_or (bool_at value ["unlimited"]) false)
    (number_at value ["balance"]) (number_at value ["reset_credits"; "reset_amount"])
    (opt_or (timestamp_ms_at value ["subscription_end_at"; "subscription_expires_at"])
       (timestamp_ms_at root ["chatgpt_subscription_active_until"; "subscription_end_at"])).

Definition parse_quota_snapshot (bytes : list ascii) (now_ms : Z) : CodexQuotaSnapshot + string :=
  match from_slice bytes with
  | None => inr "quota_invalid"
  | Some value =>
      let rate_limit := unwrap_or (get "rate_limit" value) value in
      let code_review := get "code_review_rate_limit" value in
      let window name := parse_quota_window (opt_or (get name rate_limit) (get name value)) now_ms in
      inl (MkQuota (string_at value ["plan_type"])
             (opt_or (bool_at rate_limit ["allowed"]) (bool_at value ["allowed"]))
             (window "primary_window") (window "secondary_window")
             (parse_quota_window (opt_or (opt_bind code_review (get "primary_window")) (get "code_review_window" value)) now_ms)
             (parse_credits (get "credits" value) value))
  end.
End Json.

(** ** The normal form, field by field *)
Lemma assoc_insert_if {V} k (v : V) l k' : assoc k' (assoc_insert k v l) = if String.eqb k k' then Some v else assoc k' l.
Proof.
  destruct (String.eqb_spec k k') as [->|Hne]; [apply assoc_insert_eq|by apply assoc_insert_ne].
Qed.

Lemma assoc_remove_if {V} k (l : list (string * V)) k' :
  assoc k' (assoc_remove k l) = if String.eqb k k' then None else assoc k' l.
Proof.
  destruct (String.eqb_spec k k') as [->|Hne]; [apply assoc_remove_eq|by apply assoc_remove_ne].
Qed.

Lemma assoc_update_if k f l k' :
  assoc k' (update_field k f l) = if String.eqb k k' then option_map f (assoc k l) else assoc k' l.
Proof.
  unfold update_field. destruct (assoc k l) as [v|] eqn:E; cbn [option_map]; [by rewrite assoc_insert_if|].
  destruct (String.eqb_spec k k') as [->|]; done.
Qed.

Definition removed_fields : list string := "background" :: unsupported_by_codex.

(** What each field of a normal request is, given the client's request. *)
Definition codex_field (root : list (string * Value)) (upstream_model k : string) : option Value :=
  if String.eqb "model" k then Some (String upstream_model)
  else if String.eqb "input" k then option_map normalize_input (assoc "input" root)
  else if String.eqb "stream" k then Some (Bool true)
  else if String.eqb "store" k then Some (Bool false)
  else if String.eqb "include" k then Some (Array [String "reasoning.encrypted_content"])
  else if String.eqb "parallel_tool_calls" k then
    if has_tools root then Some (unwrap_or (assoc "parallel_tool_calls" root) (Bool true)) else None
  else if String.eqb "instructions" k then
    Some (unwrap_or (opt_filter (λ v, negb (is_null v)) (assoc "instructions" root)) (String ""))
  else if is_one_of k removed_fields then None
  else if String.eqb "service_tier" k then
    match assoc "service_tier" root with
    | Some (String tier) => if is_one_of tier ["fast"; "priority"] then Some (String "priority") else None
    | other => other
    end
  else if String.eqb "tools" k then option_map normalize_tool_aliases (assoc "tools" root)
  else if String.eqb "tool_choice" k then option_map normalize_tool_choice (assoc "tool_choice" root)
  else assoc k root.

Lemma assoc_remove_all fields (root : list (string * Value)) k :
  assoc k (foldl (λ root field, assoc_remove field root) root fields) = if is_one_of k fields then None else assoc k root.
Proof.
  revert root. induction fields as [|f fields IH]; intros root; cbn [foldl]; [done|].
  rewrite IH assoc_remove_if. unfold is_one_of. cbn [existsb]. rewrite (String.eqb_sym f k).
  destruct (String.eqb k f); cbn [orb]; by destruct (existsb _ _).
Qed.

Lemma assoc_normalize_tier root k :
  assoc k (normalize_tier root) =
    if String.eqb "service_tier" k then
      match assoc "service_tier" root with
      | Some (String tier) => if is_one_of tier ["fast"; "priority"] then Some (String "priority") else None
      | other => other
      end
    else assoc k root.
Proof.
  unfold normalize_tier. destruct (assoc "service_tier" root) as [[]|] eqn:E; cbn [opt_bind as_str];
    try (destruct (String.eqb_spec "service_tier" k) as [<-|]; done).
  destruct (is_one_of _ _); rewrite ?assoc_insert_if ?assoc_remove_if; by destruct (String.eqb _ _).
Qed.

Lemma assoc_pick (b : bool) (l l' : list (string * Value)) k : assoc k (if b then l else l') = if b then assoc k l else assoc k l'.
Proof. by destruct b. Qed.

Lemma has_tools_ext l l' : assoc "tools" l = assoc "tools" l' → has_tools l = has_tools l'.
Proof. unfold has_tools. by intros ->. Qed.

Lemma normalize_field root m k : assoc k (normalize_responses_object root m) = codex_field root m k.
Proof.
  unfold normalize_responses_object.
  set (r1 := assoc_insert "include" _ _).
  assert (∀ k, assoc k r1 = if String.eqb "include" k then Some (Array [String "reasoning.encrypted_content"])
      else if String.eqb "store" k then Some (Bool false) else if String.eqb "stream" k then Some (Bool true)
      else if String.eqb "input" k then option_map normalize_input (assoc "input" root)
      else if String.eqb "model" k then Some (String m) else assoc k root) as H1.
  { intros k'. unfold r1. rewrite !assoc_insert_if assoc_update_if !assoc_insert_if.
    by change (String.eqb "model" "input") with false. }
  assert (has_tools r1 = has_tools root) as -> by (apply has_tools_ext; by rewrite H1). clearbody r1.
  set (r2 := if has_tools root then _ else _).
  assert (∀ k, assoc k r2 = if String.eqb "parallel_tool_calls" k then
      (if has_tools root then Some (unwrap_or (assoc "parallel_tool_calls" root) (Bool true)) else None) else assoc k r1) as H2.
  { intros k'. unfold r2. destruct (has_tools root); [|by rewrite assoc_remove_if].
    assert (assoc "parallel_tool_calls" r1 = assoc "parallel_tool_calls" root) as -> by by rewrite H1.
    destruct (assoc "parallel_tool_calls" root) as [v|] eqn:Ev; cbn [unwrap_or].
    - destruct (String.eqb_spec "parallel_tool_calls" k') as [<-|]; [|done]. by rewrite H1.
    - by rewrite assoc_insert_if. }
  clearbody r2. set (r3 := if is_none_or _ _ then _ else _).
  assert (∀ k, assoc k r3 = if String.eqb "instructions" k then
      Some (unwrap_or (opt_filter (λ v, negb (is_null v)) (assoc "instructions" root)) (String "")) else assoc k r2) as H3.
  { intros k'. unfold r3. assert (assoc "instructions" r2 = assoc "instructions" root) as Ei by by rewrite H2 H1.
    rewrite assoc_pick assoc_insert_if Ei. destruct (assoc "instructions" root) as [v|] eqn:Ev; cbn [is_none_or opt_filter].
    - destruct (is_null v); cbn [negb unwrap_or]; [done|]. destruct (String.eqb_spec "instructions" k') as [<-|]; [|done]. by rewrite Ei.
    - done. }
  clearbody r3. rewrite assoc_remove_if !assoc_update_if !assoc_normalize_tier !assoc_remove_all !H3 !H2 !H1.
  unfold codex_field, removed_fields.
  repeat match goal with
  | |- context [String.eqb ?l k] => destruct (String.eqb_spec l k) as [<-|]; [vm_compute; reflexivity|]
  end.
  unfold is_one_of. cbn [existsb]. rewrite (String.eqb_sym k "background").
  by destruct (String.eqb_spec "background" k) as [<-|].
Qed.

(** ** Normalising twice *)

(** An update that has been made already changes nothing, wherever its field stands among the others. *)
Definition settled (k : string) (f : Value → Value) (l : list (string * Value)) : Prop := update_field k f l = l.

Lemma assoc_insert_twice {V} k (v w : V) l : assoc_insert k v (assoc_insert k w l) = assoc_insert k v l.
Proof.
  induction l as [|[k' w'] l IH]; cbn [assoc_insert]; [by rewrite String.eqb_refl|].
  destruct (String.eqb k' k) eqn:E; cbn [assoc_insert]; [by rewrite String.eqb_refl|].
  destruct (str_leb k k') eqn:El; cbn [assoc_insert]; [by rewrite String.eqb_refl|].
  by rewrite E El IH.
Qed.

Lemma assoc_insert_kept {V} k (v : V) k' w l :
  k ≠ k' → assoc_insert k v l = l → assoc_insert k v (assoc_insert k' w l) = assoc_insert k' w l.
Proof.
  intros Hne. induction l as [|[k0 w0] l IH]; intros H; cbn [assoc_insert] in *; [done|].
  destruct (String.eqb_spec k0 k') as [->|Hk'].
  - cbn [assoc_insert]. destruct (String.eqb_spec k' k) as [->|_]; [done|].
    destruct (str_leb k k'); [by apply (f_equal length) in H; cbn in H; lia|]. injection H as H. by rewrite H.
  - destruct (String.eqb_spec k0 k) as [->|Hk].
    + injection H as ->. destruct (str_leb k' k) eqn:El; cbn [assoc_insert]; [|by rewrite String.eqb_refl].
      destruct (String.eqb_spec k' k) as [->|_]; [done|]. rewrite String.eqb_refl.
      destruct (str_leb k k') eqn:El'; [|done]. exfalso; apply Hne, str_leb_antisym; by rewrite ?El ?El'.
    + destruct (str_leb k k0) eqn:E0; [by apply (f_equal length) in H; cbn in H; lia|]. injection H as H.
      destruct (str_leb k' k0) eqn:El; cbn [assoc_insert].
      * destruct (String.eqb_spec k' k) as [->|_]; [done|].
        destruct (str_leb k k') eqn:El'; [pose proof (str_leb_trans k k' k0) as Ht; rewrite El' El E0 in Ht; exfalso; exact (Ht I I)|].
        destruct (String.eqb_spec k0 k); [done|]. by rewrite E0 H.
      * destruct (String.eqb_spec k0 k); [done|]. by rewrite E0 (IH H).
Qed.

Lemma settled_after k f l : (∀ v, f (f v) = f v) → settled k f (update_field k f l).
Proof.
  intros Hf. unfold settled, update_field. destruct (assoc k l) as [v|] eqn:E; [|by rewrite E].
  by rewrite assoc_insert_eq Hf assoc_insert_twice.
Qed.

Lemma settled_kept k f k' g l : k ≠ k' → settled k f l → settled k f (update_field k' g l).
Proof.
  intros Hne. unfold settled, update_field. destruct (assoc k' l) as [w|] eqn:E'; [|done].
  rewrite assoc_insert_ne //. destruct (assoc k l) as [v|] eqn:E; [|done]. by apply assoc_insert_kept.
Qed.

Lemma normalize_tool_type_idem v : normalize_tool_type (normalize_tool_type v) = normalize_tool_type v.
Proof. destruct v; cbn [normalize_tool_type]; try done. by destruct (is_search_alias s) eqn:E; cbn [normalize_tool_type]; rewrite ?E. Qed.

Lemma normalize_tool_aliases_idem v : normalize_tool_aliases (normalize_tool_aliases v) = normalize_tool_aliases v.
Proof.
  destruct v as [| | | |tools|]; cbn [normalize_tool_aliases]; try done. rewrite map_map. f_equal. apply map_ext. intros [].
  all: try done. f_equal. apply settled_after, normalize_tool_type_idem.
Qed.

Lemma normalize_tool_choice_idem v : normalize_tool_choice (normalize_tool_choice v) = normalize_tool_choice v.
Proof.
  destruct v as [| | | | |fields]; cbn [normalize_tool_choice]; try done. f_equal.
  set (l := fields |> update_field "type" normalize_tool_type).
  change (update_field "tools" normalize_tool_aliases (update_field "type" normalize_tool_type
    (update_field "tools" normalize_tool_aliases l)) = update_field "tools" normalize_tool_aliases l).
  rewrite (settled_kept "type" _ "tools" _ l) //; apply settled_after;
    [apply normalize_tool_aliases_idem|apply normalize_tool_type_idem].
Qed.

Lemma developer_role_idem item : developer_role (developer_role item) = developer_role item.
Proof.
  destruct item as [| | | | |fields]; cbn [developer_role]; try done.
  destruct (str_is _ _) eqn:E; cbn [developer_role]; [|by rewrite E]. by rewrite assoc_insert_eq.
Qed.

Lemma normalize_input_idem v : normalize_input (normalize_input v) = normalize_input v.
Proof.
  destruct v as [| | | |items|]; try done. cbn [normalize_input]. rewrite map_map. f_equal.
  apply map_ext, developer_role_idem.
Qed.

(** The fields a client's value survives in. *)
Lemma codex_field_input root m : codex_field root m "input" = option_map normalize_input (assoc "input" root).
Proof. done. Qed.

Lemma codex_field_parallel root m : codex_field root m "parallel_tool_calls" =
  if has_tools root then Some (unwrap_or (assoc "parallel_tool_calls" root) (Bool true)) else None.
Proof. done. Qed.

Lemma codex_field_instructions root m : codex_field root m "instructions" =
  Some (unwrap_or (opt_filter (λ v, negb (is_null v)) (assoc "instructions" root)) (String "")).
Proof. done. Qed.

Lemma codex_field_tier root m : codex_field root m "service_tier" =
  match assoc "service_tier" root with
  | Some (String tier) => if is_one_of tier ["fast"; "priority"] then Some (String "priority") else None
  | other => other
  end.
Proof. done. Qed.

Lemma codex_field_tools root m : codex_field root m "tools" = option_map normalize_tool_aliases (assoc "tools" root).
Proof. done. Qed.

Lemma codex_field_choice root m : codex_field root m "tool_choice" = option_map normalize_tool_choice (assoc "tool_choice" root).
Proof. done. Qed.

(** ** Properties *)
(** What an account is sent is a normal form: whatever the client's request says, each
    field of the upstream request has the value [codex_field] gives it — the pinned model,
    streaming forced and storing refused, the reasoning kept encrypted, instructions
    present, the parameters and service tiers the upstream refuses removed, tool aliases
    replaced — and normalising the request once more changes none of its fields, so a
    request relayed through two gateways arrives as from one. *)
Theorem codex_request_normal_form root m k :
  assoc k (normalize_responses_object root m) = codex_field root m k ∧
  assoc k (normalize_responses_object (normalize_responses_object root m) m) =
    assoc k (normalize_responses_object root m).
Proof.
  split; [apply normalize_field|]. rewrite normalize_field.
  set (once := normalize_responses_object root m).
  assert (∀ k, assoc k once = codex_field root m k) as H by apply normalize_field. clearbody once.
  assert (has_tools once = has_tools root) as Ht.
  { unfold has_tools. rewrite H codex_field_tools. by destruct (assoc "tools" root) as [[| | | |[]|]|]. }
  rewrite H. unfold codex_field at 1.
  rewrite !H Ht codex_field_input codex_field_parallel codex_field_instructions codex_field_tier codex_field_tools
    codex_field_choice. clear H Ht once.
  repeat match goal with
  | |- context [String.eqb ?l k] => destruct (String.eqb_spec l k) as [<-|]
  end; try done.
  - rewrite codex_field_input. destruct (assoc _ root); [|done]. cbn [option_map]. by rewrite normalize_input_idem.
  - rewrite codex_field_parallel. by destruct (has_tools root).
  - rewrite codex_field_instructions. destruct (assoc _ root) as [v|]; [|done]. cbn [opt_filter].
    destruct (negb (is_null v)) eqn:E; [|done]. cbn [unwrap_or opt_filter]. by rewrite E.
  - rewrite codex_field_tier. destruct (assoc _ root) as [[| | |tier| |]|]; try done.
    by destruct (is_one_of tier _).
  - rewrite codex_field_tools. destruct (assoc _ root); [|done]. cbn [option_map].
    by rewrite normalize_tool_aliases_idem.
  - rewrite codex_field_choice. destruct (assoc _ root); [|done]. cbn [option_map].
    by rewrite normalize_tool_choice_idem.
  - unfold codex_field. repeat match goal with
    | |- context [String.eqb ?l k] => destruct (String.eqb_spec l k) as [<-|]; [done|]
    end. by destruct (is_one_of k removed_fields).
Qed.
