(* ===== verification/Relay.v ===== *)
(** * Relay: reading an upstream body before and while it is passed on

    Models the part of [proxy.rs] that looks at a body: the bounded capture of a body
    and the usage found in it, the parser of a stream, and the three places that read
    ahead of the client - for a rejection of encrypted content, for usage in an error
    that could be retried, and for the first event of a stream - with the body that
    replays what they read. JSON parsing is a parameter. *)
From Stdlib Require Import Ascii String.
From S2P Require Import Prelude Text Json Types ResponseEvents Recovery Reservation OpenAi.

Local Open Scope string_scope.
Local Open Scope list_scope.
Local Open Scope Z_scope.

(** ** The capture of a body *)
Record UsageCaptureBuffer := MkCapture {
  uc_head : list ascii;
  uc_tail : list ascii;
  uc_total_seen : Z;
  uc_head_limit : Z;
  uc_tail_limit : Z
}.

Definition new_capture (max_bytes tail_bytes : Z) : UsageCaptureBuffer :=
  let max_bytes := Z.max max_bytes 1 in
  let tail_limit := Z.min tail_bytes max_bytes in
  MkCapture [] [] 0 (max_bytes - tail_limit) tail_limit.

(** The last [n] bytes. *)
Definition last_bytes {A} (n : Z) (l : list A) : list A := drop_Z (len l - n) l.

Definition push_tail (u : UsageCaptureBuffer) (bytes : list ascii) : UsageCaptureBuffer :=
  if (uc_tail_limit u =? 0) || is_empty bytes then u
  else
    let tail := if uc_tail_limit u <=? len bytes then last_bytes (uc_tail_limit u) bytes
                else
                  let tail := uc_tail u ++ bytes in
                  if uc_tail_limit u <? len tail then last_bytes (uc_tail_limit u) tail else tail in
    MkCapture (uc_head u) tail (uc_total_seen u) (uc_head_limit u) (uc_tail_limit u).

Definition capture_push (u : UsageCaptureBuffer) (data : list ascii) : UsageCaptureBuffer :=
  let total := u64_sat_add (uc_total_seen u) (len data) in
  let room := uc_head_limit u - len (uc_head u) in
  let '(head, remaining) := if 0 <? room then (uc_head u ++ take_Z room data, drop_Z room data)
                            else (uc_head u, data) in
  push_tail (MkCapture head (uc_tail u) total (uc_head_limit u) (uc_tail_limit u)) remaining.

Definition capture_is_empty (u : UsageCaptureBuffer) : bool := is_empty (uc_head u) && is_empty (uc_tail u).
Definition is_truncated (u : UsageCaptureBuffer) : bool :=
  u64_sat_add (uc_head_limit u) (uc_tail_limit u) <? uc_total_seen u.
Definition capture_to_vec (u : UsageCaptureBuffer) : list ascii := uc_head u ++ uc_tail u.

(** ** The usage of a captured body *)

(** [scan_json_value_end] of [proxy.rs] counts braces and brackets together. *)
Fixpoint nested_end (rest : list ascii) (i : nat) (depth : Z) (in_string escape : bool) : option nat :=
  match rest with
  | [] => None
  | c :: rest' =>
      if in_string then
        if escape then nested_end rest' (S i) depth true false
        else if Ascii.eqb c bslash then nested_end rest' (S i) depth true true
        else nested_end rest' (S i) depth (negb (Ascii.eqb c quote)) false
      else if Ascii.eqb c quote then nested_end rest' (S i) depth true false
      else if Ascii.eqb c lbrace || Ascii.eqb c lbracket then nested_end rest' (S i) (depth + 1) false escape
      else if Ascii.eqb c rbrace || Ascii.eqb c rbracket then
        if depth - 1 =? 0 then Some (S i) else nested_end rest' (S i) (depth - 1) false escape
      else nested_end rest' (S i) depth false escape
  end.

Definition value_end (rest : list ascii) (start : nat) : option nat :=
  match rest with
  | [] => None
  | b :: rest' =>
      if Ascii.eqb b lbrace || Ascii.eqb b lbracket then nested_end rest start 0 false false
      else if Ascii.eqb b quote then scan_string rest' (S start) false
      else Some (scan_primitive rest start)
  end.

(** The index of the last occurrence of [needle]; [i] is the index of [l]. *)
Fixpoint rfind_subslice (needle l : list ascii) (i : nat) : option nat :=
  match l with
  | [] => None
  | _ :: l' =>
      match rfind_subslice needle l' (S i) with
      | Some found => Some found
      | None => if is_some (strip_prefix_chars needle l) then Some i else None
      end
  end.

Definition usage_key : list ascii := quoted "usage".

Definition json_value_span_after_key (input : list ascii) (key_pos : nat) : option (nat * nat) :=
  let idx := (key_pos + length usage_key)%nat in
  let '(rest, idx) := skip_ws (drop idx input) idx in
  match rest with
  | c :: rest =>
      if Ascii.eqb c colon then
        let '(rest, idx) := skip_ws rest (S idx) in
        option_map (λ stop, (idx, stop)) (value_end rest idx)
      else None
  | [] => None
  end.

(** [None] of another format than the two is never met. *)
Definition extract_usage (api_format : ApiFormat) (root : Value) : option Usage :=
  match api_format with
  | ChatCompletions => opt_bind (get "usage" root) parse_usage
  | Responses => event_usage root
  end.

Section Parsing.
Context (from_slice : list ascii → option Value).

Definition usage_at (window : list ascii) (key_pos : nat) : option Usage :=
  match json_value_span_after_key window key_pos with
  | Some (start, stop) => opt_bind (from_slice (slice start stop window)) parse_usage
  | None => None
  end.

(** Each round looks before the last key found, so the length of the window is enough. *)
Fixpoint window_usage (fuel : nat) (window : list ascii) (search_end : nat) : option Usage :=
  match fuel with
  | O => None
  | S fuel =>
      match rfind_subslice usage_key (take search_end window) 0 with
      | None => None
      | Some key_pos =>
          match usage_at window key_pos with
          | Some usage => Some usage
          | None => window_usage fuel window key_pos
          end
      end
  end.

Definition extract_usage_from_window (window : list ascii) : option Usage :=
  window_usage (S (length window)) window (length window).

Definition extract_usage_from_capture (api_format : ApiFormat) (u : UsageCaptureBuffer) : option Usage :=
  let window := capture_to_vec u in
  let whole := if is_truncated u then None else opt_bind (from_slice window) (extract_usage api_format) in
  opt_or whole (extract_usage_from_window window).

(** ** What an error body says *)
Definition upstream_error_details (body : list ascii) : option (string * option string) :=
  let! value := from_slice body in
  let error := unwrap_or (get "error" value) value in
  match as_str error with
  | Some message => Some ("upstream_error", Some message)
  | None =>
      let! kind := opt_bind (opt_or (get "type" error) (get "code" error)) as_str in
      let kind := trim kind in
      if String.eqb kind "" then None else Some (kind, get_str "message" error)
  end.

Definition upstream_error_is_model_scoped (body : list ascii) : bool :=
  is_some_and (upstream_error_details body) (λ details,
    is_one_of (to_ascii_lowercase (trim details.1))
      ["model_not_found"; "invalid_model"; "unsupported_model"; "model_not_supported"]).

Definition classify_failure_scope_with_body (status : option Z) (origin : OutcomeOrigin)
    (capture : UsageCaptureBuffer) : FailureScope :=
  let scope := classify_failure_scope status origin in
  if negb (bool_decide (scope = ScopeProvider)) || negb (bool_decide (origin = UpstreamResponse))
     || is_truncated capture
  then scope
  else if upstream_error_is_model_scoped (capture_to_vec capture) then ScopeModel else scope.
End Parsing.

(** ** Output of a chat chunk *)
Definition some_text (key : string) (v : Value) : bool :=
  is_some_and (get_str key v) (λ s, negb (String.eqb s "")).

Definition chat_function_has_output (value : Value) : bool :=
  existsb (λ field, some_text field value) ["name"; "arguments"].

Definition chat_delta_has_output (delta : Value) : bool :=
  existsb (λ key, some_text key delta) ["reasoning_content"; "reasoning"; "refusal"]
  || some_text "content" delta
  || is_some_and (opt_bind (get "tool_calls" delta) as_array) (existsb (λ call,
       is_some_and (get "function" call) chat_function_has_output
       || is_some_and (get "custom" call) (some_text "input")))
  || is_some_and (get "function_call" delta) chat_function_has_output.

Definition chat_has_output_delta (v : Value) : bool :=
  match opt_bind (get "choices" v) as_array with
  | None => false
  | Some choices => existsb (λ choice, is_some_and (get "delta" choice) chat_delta_has_output) choices
  end.

(** ** The parser of a stream *)
Record SsePushOut := MkPushOut {
  po_saw_first_token : bool;
  po_saw_valid_event : bool;
  po_saw_error_event : bool;
  po_usage : option Usage
}.

Record SseParser := MkSseParser {
  pa_api_format : ApiFormat;
  pa_decoder : SseDecoder;
  pa_observation : Observation;
  pa_done_first_token : bool;
  pa_terminal_result : option Status
}.

Definition new_sse_parser (api_format : ApiFormat) : SseParser :=
  MkSseParser api_format new_sse default_observation false None.

Definition set_pa_decoder (d : SseDecoder) (p : SseParser) : SseParser :=
  MkSseParser (pa_api_format p) d (pa_observation p) (pa_done_first_token p) (pa_terminal_result p).

(** An event that is not terminal but reports an error. *)
Definition reports_error (value : Value) : bool :=
  is_some_and (get_str "type" value) (λ kind,
    String.eqb kind "error" || ends_with ".error" kind || ends_with "_error" kind)
  || is_some_and (get "error" value) (λ error, negb (is_null error)).

(** [first_output_kind.get_or_insert("delta")] *)
Definition note_delta (o : Observation) : Observation :=
  MkObservation (Some (unwrap_or (ob_first_output_kind o) "delta")) (ob_usage o) (ob_service_tier o)
    (ob_terminal o) (ob_terminal_usage o).

Definition starts_output (p : SseParser) (o : Observation) (value : Value) : bool :=
  negb (pa_done_first_token p) &&
  match pa_api_format p with
  | ChatCompletions => chat_has_output_delta value
  | Responses => is_some (ob_first_output_kind o)
  end.

Definition observe_event (po : SsePushOut * SseParser) (value : Value) : SsePushOut * SseParser :=
  let '(out, p) := po in
  let o := observe (pa_observation p) value in
  let '(failed, terminal_result) :=
    if is_terminal_response_event value then
      let result := terminal_status value in (is_some result.1.2, Some result)
    else (reports_error value, pa_terminal_result p) in
  let first := starts_output p o value in
  (MkPushOut (po_saw_first_token out || first) (po_saw_valid_event out || negb failed)
     (po_saw_error_event out || failed) (po_usage out),
   MkSseParser (pa_api_format p) (pa_decoder p) (if first then note_delta o else o)
     (pa_done_first_token p || first) terminal_result).

Definition observe_events (p : SseParser) (events : list Value) : SsePushOut * SseParser :=
  let '(out, p) := foldl observe_event (MkPushOut false false false None, p) events in
  (MkPushOut (po_saw_first_token out) (po_saw_valid_event out) (po_saw_error_event out)
     (ob_usage (pa_observation p)), p).

Definition non_retryable_terminal (p : SseParser) : bool :=
  is_some_and (pa_terminal_result p) (λ result, negb (should_retry_response_status result.1.1)).

Section Parser.
Context (from_slice : list ascii → option Value).

Definition parser_push (p : SseParser) (data : list ascii) : SsePushOut * SseParser :=
  let '(events, d) := push_bytes from_slice (pa_decoder p) data in
  observe_events (set_pa_decoder d p) events.

Definition parser_finish (p : SseParser) : SsePushOut * SseParser :=
  let '(events, d) := ResponseEvents.finish from_slice (pa_decoder p) in
  observe_events (set_pa_decoder d p) events.
End Parser.

(** ** Bodies that replay what was read of them

    A frame carries data or trailers. What upstream still sends is given by the frames
    left and by the error that ends them, if any; a body that failed is over. *)
Inductive Frame := DataFrame (bytes : list ascii) | TrailerFrame.

Definition data_ref (f : Frame) : option (list ascii) :=
  match f with DataFrame bytes => Some bytes | TrailerFrame => None end.

Record ReplayIncomingBody := MkReplay {
  rp_buffered : list Frame;
  rp_buffered_error : option string;
  rp_inner : list Frame;
  rp_inner_error : option string
}.

Definition new_replay (frames : list Frame) (error : option string) : ReplayIncomingBody :=
  MkReplay [] None frames error.

Inductive Polled := GotFrame (f : Frame) | GotError (error : string) | GotEnd.

(** [inner.frame().await] *)
Definition poll_inner (b : ReplayIncomingBody) : Polled * ReplayIncomingBody :=
  match rp_inner b, rp_inner_error b with
  | f :: inner, error => (GotFrame f, MkReplay (rp_buffered b) (rp_buffered_error b) inner error)
  | [], Some error => (GotError error, MkReplay (rp_buffered b) (rp_buffered_error b) [] None)
  | [], None => (GotEnd, b)
  end.

Definition poll_frame (b : ReplayIncomingBody) : Polled * ReplayIncomingBody :=
  match rp_buffered b, rp_buffered_error b with
  | f :: buffered, error => (GotFrame f, MkReplay buffered error (rp_inner b) (rp_inner_error b))
  | [], Some error => (GotError error, MkReplay [] None (rp_inner b) (rp_inner_error b))
  | [], None => poll_inner b
  end.

Definition push_buffered (f : Frame) (b : ReplayIncomingBody) : ReplayIncomingBody :=
  MkReplay (rp_buffered b ++ [f]) (rp_buffered_error b) (rp_inner b) (rp_inner_error b).
Definition set_buffered_error (error : string) (b : ReplayIncomingBody) : ReplayIncomingBody :=
  MkReplay (rp_buffered b) (Some error) (rp_inner b) (rp_inner_error b).
Definition prepend_buffered (frames : list Frame) (b : ReplayIncomingBody) : ReplayIncomingBody :=
  MkReplay (frames ++ rp_buffered b) (rp_buffered_error b) (rp_inner b) (rp_inner_error b).

(** Each peek is given the number of polls that complete before its deadline. *)
Section Peeks.
Context (from_slice : list ascii → option Value).

(** The answer of [read] when the stream or the body has ended. *)
Definition rejection_at_end (is_sse : bool) (parser : SseDecoder) (capture : list ascii) : bool :=
  if is_sse then
    let '(events, parser) := ResponseEvents.finish from_slice parser in
    match sse_error parser, events with
    | None, [event] => rejection_without_output event
    | _, _ => false
    end
  else is_some_and (from_slice capture) rejection_without_output.

Fixpoint read_rejection (polls : nat) (is_sse : bool) (parser : SseDecoder) (capture : list ascii)
    (b : ReplayIncomingBody) : bool * ReplayIncomingBody :=
  match polls with
  | O => (false, b)
  | S polls =>
      match poll_inner b with
      | (GotError error, b) => (false, set_buffered_error error b)
      | (GotEnd, b) => (rejection_at_end is_sse parser capture, b)
      | (GotFrame f, b) =>
          let b := push_buffered f b in
          match data_ref f with
          | None => read_rejection polls is_sse parser capture b
          | Some data =>
              if MAX_EVENT_BYTES <? u64_sat_add (len capture) (len data) then (false, b)
              else
                let capture := capture ++ data in
                if is_sse then
                  let '(events, parser) := push_bytes from_slice parser data in
                  if is_some (sse_error parser) then (false, b)
                  else match events with
                       | [] => read_rejection polls is_sse parser capture b
                       | [event] => (rejection_without_output event, b)
                       | _ => (false, b)
                       end
                else read_rejection polls is_sse parser capture b
          end
      end
  end.

(** [is_sse] is the test of the content type. *)
Definition encrypted_content_rejected (status : Z) (is_sse : bool) (polls : nat) (b : ReplayIncomingBody)
    : bool * ReplayIncomingBody :=
  if negb (status =? 400) && negb ((200 <=? status) && (status <=? 299) && is_sse) then (false, b)
  else read_rejection polls is_sse new_sse [] b.

Fixpoint read_usage (polls : nat) (api_format : ApiFormat) (is_sse : bool) (capture : UsageCaptureBuffer)
    (parser : SseParser) (b : ReplayIncomingBody) : bool * ReplayIncomingBody :=
  match polls with
  | O => (true, b)
  | S polls =>
      match poll_inner b with
      | (GotError _, b) => (true, b)
      | (GotEnd, b) =>
          (if is_sse then is_some (ob_usage (pa_observation (parser_finish from_slice parser).2))
           else is_some (extract_usage_from_capture from_slice api_format capture), b)
      | (GotFrame f, b) =>
          let '(capture, parser) :=
            match data_ref f with
            | Some data => (capture_push capture data, if is_sse then (parser_push from_slice parser data).2 else parser)
            | None => (capture, parser)
            end in
          let b := push_buffered f b in
          if is_truncated capture then (true, b) else read_usage polls api_format is_sse capture parser b
      end
  end.

Definition retry_body_has_usage (api_format : ApiFormat) (is_sse : bool) (polls : nat) (b : ReplayIncomingBody)
    : bool * ReplayIncomingBody :=
  read_usage polls api_format is_sse (new_capture MAX_EVENT_BYTES (32 * 1024)) (new_sse_parser api_format) b.

(** A stream is accepted at the first event that is no error, at usage, and at an end
    that is not to be retried. *)
Definition accepts (out : SsePushOut) (parser : SseParser) : bool :=
  po_saw_valid_event out || is_some (po_usage out) || non_retryable_terminal parser.

Definition ended_early : string := "upstream SSE ended before its first valid event".
Definition failed_early (error : string) : string := "upstream SSE failed before its first valid event: " +:+ error.
Definition refused_early : string := "upstream SSE returned an error before its first valid event".
Definition too_late (timeout_ms : Z) : string :=
  "upstream SSE did not produce a valid event within " +:+ show_Z timeout_ms +:+ " ms".

Fixpoint read_first_event (polls : nat) (timeout_ms max_bytes : Z) (parser : SseParser)
    (buffered : list Frame) (buffered_bytes : Z) (b : ReplayIncomingBody) : ReplayIncomingBody + string :=
  match polls with
  | O => inr (too_late timeout_ms)
  | S polls =>
      match poll_frame b with
      | (GotEnd, b) =>
          let '(out, parser) := parser_finish from_slice parser in
          if accepts out parser then inl (prepend_buffered buffered b) else inr ended_early
      | (GotError error, b) => inr (failed_early error)
      | (GotFrame f, b) =>
          match data_ref f with
          | None => read_first_event polls timeout_ms max_bytes parser (buffered ++ [f]) buffered_bytes b
          | Some data =>
              let buffered_bytes := u64_sat_add buffered_bytes (len data) in
              if max_bytes <? buffered_bytes then inl (prepend_buffered (buffered ++ [f]) b)
              else
                let '(out, parser) := parser_push from_slice parser data in
                if po_saw_error_event out && negb (accepts out parser) then inr refused_early
                else if accepts out parser then inl (prepend_buffered (buffered ++ [f]) b)
                else read_first_event polls timeout_ms max_bytes parser (buffered ++ [f]) buffered_bytes b
          end
      end
  end.

Definition preflight_sse (api_format : ApiFormat) (timeout_ms max_bytes : Z) (polls : nat) (b : ReplayIncomingBody)
    : ReplayIncomingBody + string :=
  read_first_event polls timeout_ms max_bytes (new_sse_parser api_format) [] 0 b.
End Peeks.

(** ** The capture keeps both ends *)
Definition capture_all (u : UsageCaptureBuffer) (chunks : list (list ascii)) : UsageCaptureBuffer :=
  foldl capture_push u chunks.

(** What a capture holds of the bytes seen so far. *)
Record captured (s : list ascii) (u : UsageCaptureBuffer) : Prop := {
  ct_head : uc_head u = take_Z (uc_head_limit u) s;
  ct_tail : uc_tail u = last_bytes (uc_tail_limit u) (drop_Z (uc_head_limit u) s);
  ct_total : uc_total_seen u = Z.min u64_max (len s);
  ct_head_limit : 0 <= uc_head_limit u;
  ct_tail_limit : 0 <= uc_tail_limit u
}.

Lemma len_app {A} (a b : list A) : len (a ++ b) = len a + len b.
Proof. unfold len. rewrite length_app. lia. Qed.
Lemma len_nonneg {A} (l : list A) : 0 <= len l.
Proof. unfold len. lia. Qed.

Lemma last_bytes_all {A} n (l : list A) : len l <= n → last_bytes n l = l.
Proof. intros H. unfold last_bytes. rewrite drop_Z_drop. by rewrite (_ : Z.to_nat _ = 0%nat); [|lia]. Qed.

(** Only the end of what was kept matters for the new end. *)
Lemma last_bytes_app {A} n (a b : list A) : 0 <= n → last_bytes n (last_bytes n a ++ b) = last_bytes n (a ++ b).
Proof.
  intros Hn. unfold last_bytes at 1 3. rewrite !drop_Z_drop !len_app.
  destruct (Z.le_gt_cases (len a) n); [by rewrite last_bytes_all|].
  unfold last_bytes. rewrite !drop_Z_drop. unfold len in *. rewrite length_drop.
  rewrite !drop_app length_drop drop_drop. f_equal; f_equal; lia.
Qed.

Lemma last_bytes_suffix {A} n (a b : list A) : n <= len b → last_bytes n (a ++ b) = last_bytes n b.
Proof.
  intros H. unfold last_bytes. rewrite !drop_Z_drop len_app. rewrite drop_app_ge; [|unfold len in *; lia].
  f_equal. unfold len in *. lia.
Qed.

Lemma push_tail_spec u bytes :
  0 <= uc_tail_limit u → len (uc_tail u) <= uc_tail_limit u →
  push_tail u bytes = MkCapture (uc_head u) (last_bytes (uc_tail_limit u) (uc_tail u ++ bytes)) (uc_total_seen u)
                        (uc_head_limit u) (uc_tail_limit u).
Proof.
  intros Hn Ht. unfold push_tail. destruct (Z.eqb_spec (uc_tail_limit u) 0) as [E|Hne]; cbn [orb].
  - rewrite E. assert (uc_tail u = []) as Et by (destruct (uc_tail u); unfold len in *; cbn in *; [done|lia]).
    rewrite Et. unfold last_bytes. rewrite drop_Z_drop drop_ge; [|unfold len; cbn; lia]. rewrite -Et -E. by destruct u.
  - destruct bytes as [|c bytes]; cbn [is_empty].
    { rewrite app_nil_r last_bytes_all //. by destruct u. }
    f_equal. destruct (Z.leb_spec (uc_tail_limit u) (len (c :: bytes))).
    + by rewrite last_bytes_suffix.
    + destruct (Z.ltb_spec (uc_tail_limit u) (len (uc_tail u ++ c :: bytes))); [done|]. by rewrite last_bytes_all.
Qed.

Lemma last_bytes_len {A} n (l : list A) : 0 <= n → len (last_bytes n l) <= n.
Proof. intros H. unfold last_bytes, len. rewrite drop_Z_drop length_drop. lia. Qed.

Lemma capture_push_spec s u data : captured s u → captured (s ++ data) (capture_push u data).
Proof.
  intros [Hh Ht Hs Hhl Htl]. unfold capture_push.
  assert (len (uc_tail u) <= uc_tail_limit u) as Hlt by (rewrite Ht; by apply last_bytes_len).
  assert (u64_sat_add (uc_total_seen u) (len data) = Z.min u64_max (len (s ++ data))) as Htot.
  { rewrite Hs len_app. pose proof (len_nonneg data). pose proof (len_nonneg s). mlia. }
  assert (uc_head u = take (Z.to_nat (uc_head_limit u)) s) as Hh' by by rewrite Hh take_Z_take.
  assert (len (uc_head u) = Z.min (uc_head_limit u) (len s)) as Hlh by (rewrite Hh'; unfold len; rewrite length_take; lia).
  destruct (Z.ltb_spec 0 (uc_head_limit u - len (uc_head u))) as [Hroom|Hroom];
    (rewrite push_tail_spec; cbn [uc_tail_limit uc_tail]; [|done..]; split; cbn [uc_head uc_tail uc_total_seen uc_head_limit uc_tail_limit]; try done).
  - rewrite !take_Z_take take_app {1}Hh'. f_equal. f_equal. unfold len in *. lia.
  - rewrite Ht !drop_Z_drop. rewrite (drop_ge s); [|unfold len in *; lia].
    change (last_bytes (uc_tail_limit u) []) with (@nil ascii). cbn [app].
    rewrite drop_app (drop_ge s); [|unfold len in *; lia]. cbn [app]. do 2 f_equal. unfold len in *. lia.
  - rewrite !take_Z_take Hh' take_app_le //. unfold len in *. lia.
  - rewrite Ht !drop_Z_drop last_bytes_app //. rewrite drop_app_le //. unfold len in *. lia.
Qed.

Lemma new_captured m t : 0 <= t → captured [] (new_capture m t).
Proof.
  intros H. split; cbn [new_capture uc_head uc_tail uc_total_seen uc_head_limit uc_tail_limit take_Z drop_Z]; try done; try lia.
Qed.

Lemma capture_all_spec m t chunks :
  0 <= t → captured (concat chunks) (capture_all (new_capture m t) chunks)
  ∧ uc_head_limit (capture_all (new_capture m t) chunks) + uc_tail_limit (capture_all (new_capture m t) chunks) = Z.max m 1.
Proof.
  intros H. unfold capture_all. induction chunks as [|c chunks IH] using rev_ind.
  - split; [by apply new_captured|]. cbn [new_capture uc_head_limit uc_tail_limit foldl]. lia.
  - rewrite foldl_snoc concat_app /= app_nil_r. destruct IH as [IH1 IH2]. split; [by apply capture_push_spec|].
    revert IH2. set (u := foldl _ _ _). intros IH2. unfold capture_push.
    destruct (0 <? _); rewrite push_tail_spec; cbn; try done; try apply IH1;
      rewrite (ct_tail _ _ IH1); apply last_bytes_len, IH1.
Qed.

(** However a body is cut, its capture is the beginning of the body and the end of
    the rest, within the limit; a body that fits is captured whole, and exactly the
    bodies that do not fit are called truncated. *)
Theorem capture_exact max_bytes tail_bytes chunks :
  0 <= tail_bytes → len (concat chunks) < u64_max → max_bytes < u64_max →
  let u := capture_all (new_capture max_bytes tail_bytes) chunks in
  let s := concat chunks in
  len (capture_to_vec u) <= Z.max max_bytes 1
  ∧ (is_truncated u = true ↔ Z.max max_bytes 1 < len s)
  ∧ (is_truncated u = false → capture_to_vec u = s)
  ∧ (∃ a b c, s = a ++ b ++ c ∧ capture_to_vec u = a ++ c ∧ len c <= tail_bytes).
Proof.
  intros Ht Hlen Hmax. cbv zeta. destruct (capture_all_spec max_bytes tail_bytes chunks Ht) as [[Hh Htl Htot Hhn Htn] Hsum].
  assert (uc_tail_limit (capture_all (new_capture max_bytes tail_bytes) chunks) = Z.min tail_bytes (Z.max max_bytes 1)) as Hlim.
  { unfold capture_all. clear. induction chunks as [|c chunks IH] using rev_ind; [done|]. rewrite foldl_snoc -IH.
    unfold capture_push, push_tail. destruct (0 <? _); cbn; by destruct (_ || _). }
  set (u := capture_all _ _) in *. set (s := concat chunks) in *.
  unfold capture_to_vec, is_truncated. rewrite Htot.
  assert (len (uc_head u) <= uc_head_limit u) by (rewrite Hh take_Z_take; unfold len; rewrite length_take; lia).
  assert (len (uc_tail u) <= uc_tail_limit u) by (rewrite Htl; by apply last_bytes_len).
  assert (s = uc_head u ++ drop_Z (uc_head_limit u) s) as Hs by by rewrite Hh take_Z_take drop_Z_drop take_drop.
  assert (len (drop_Z (uc_head_limit u) s) = Z.max 0 (len s - uc_head_limit u)) as Hrest
    by (unfold len; rewrite drop_Z_drop length_drop; lia).
  pose proof (len_nonneg s). split_and!.
  - rewrite len_app. lia.
  - rewrite Z.ltb_lt. mlia.
  - rewrite Z.ltb_ge. intros Hfit. rewrite Htl last_bytes_all; [done|]. mlia.
  - eexists (uc_head u), _, (uc_tail u). split; [|split; [done|lia]].
    rewrite {1}Hs. f_equal. rewrite Htl. unfold last_bytes. rewrite (drop_Z_drop _ (drop_Z _ _)). symmetry. apply take_drop.
Qed.

Lemma capture_exact_witness :
  let chunks := [chars "abcdef"; chars "ghij"] in
  let u := capture_all (new_capture 5 2) chunks in
  capture_to_vec u = chars "abcij" ∧ is_truncated u = true ∧ len (capture_to_vec u) <= Z.max 5 1.
Proof.
  split; [by vm_compute|]. split; [by vm_compute|].
  apply (capture_exact 5 2 [chars "abcdef"; chars "ghij"]); [lia|by vm_compute|by vm_compute].
Defined.

(** ** Reading ahead loses nothing *)

(** What a body will deliver, and how it will end. *)
Definition frames_of (b : ReplayIncomingBody) : list Frame :=
  match rp_buffered_error b with Some _ => rp_buffered b | None => rp_buffered b ++ rp_inner b end.
Definition end_of (b : ReplayIncomingBody) : option string :=
  match rp_buffered_error b with Some error => Some error | None => rp_inner_error b end.
Definition delivers (b : ReplayIncomingBody) : list Frame * option string := (frames_of b, end_of b).

(** Nothing has been kept back as an error. *)
Definition no_error_kept (b : ReplayIncomingBody) : Prop := rp_buffered_error b = None.

Lemma poll_inner_frame b f b' :
  poll_inner b = (GotFrame f, b') → no_error_kept b →
  no_error_kept b' ∧ delivers (push_buffered f b') = delivers b.
Proof.
  unfold poll_inner, no_error_kept, delivers, frames_of, end_of. destruct b as [buffered error inner inner_error]. cbn.
  destruct inner as [|g inner]; [by destruct inner_error|]. intros [= <- <-] Hno. cbn in *. subst error. cbn.
  by rewrite -app_assoc.
Qed.

Lemma read_rejection_delivers from_slice polls is_sse parser capture b :
  no_error_kept b → delivers (read_rejection from_slice polls is_sse parser capture b).2 = delivers b.
Proof.
  revert parser capture b. induction polls as [|polls IH]; intros parser capture b Hno; cbn [read_rejection]; [done|].
  destruct (poll_inner b) as [p b'] eqn:Ep. destruct p as [f|error|].
  - destruct (poll_inner_frame _ _ _ Ep Hno) as [Hno' Hd].
    assert (no_error_kept (push_buffered f b')) as Hno2 by done.
    destruct (data_ref f) as [data|]; [|by rewrite IH]. destruct (_ <? _); [done|].
    destruct is_sse; [|by rewrite IH]. destruct (push_bytes _ _ _) as [events parser'].
    destruct (is_some _); [done|]. destruct events as [|e [|]]; [by rewrite IH|done|done].
  - revert Ep Hno. unfold poll_inner, no_error_kept, delivers, frames_of, end_of. destruct b as [bu be [|g inner] [ie|]]; cbn; try done.
    intros [= <- <-] Hno. cbn in *. subst be. by rewrite app_nil_r.
  - revert Ep. unfold poll_inner. destruct b as [bu be [|g inner] [ie|]]; cbn; try done. by intros [= <-].
Qed.

Lemma poll_frame_delivers b p b' :
  poll_frame b = (p, b') →
  match p with
  | GotFrame f => delivers b = (f :: frames_of b', end_of b')
  | GotError error => delivers b = ([], Some error)
  | GotEnd => delivers b = ([], None) ∧ b' = b
  end.
Proof.
  unfold poll_frame, poll_inner, delivers, frames_of, end_of.
  destruct b as [[|f bu] [be|] [|g inner] [ie|]]; cbn; intros [= <- <-]; try done; cbn.
Qed.

Lemma prepend_delivers fs b : delivers (prepend_buffered fs b) = (fs ++ frames_of b, end_of b).
Proof. unfold delivers, frames_of, end_of. destruct b as [bu [be|] inner ie]; cbn; by rewrite ?app_assoc. Qed.

Lemma read_first_event_delivers from_slice polls t m parser buffered n b b' :
  read_first_event from_slice polls t m parser buffered n b = inl b' →
  delivers b' = (buffered ++ frames_of b, end_of b).
Proof.
  revert parser buffered n b. induction polls as [|polls IH]; intros parser buffered n b; cbn [read_first_event]; [done|].
  destruct (poll_frame b) as [p b1] eqn:Ep. pose proof (poll_frame_delivers _ _ _ Ep) as Hd. destruct p as [f|error|].
  - injection Hd as Hf He.
    assert (∀ fs, delivers (prepend_buffered (buffered ++ [f]) b1) = fs → (buffered ++ frames_of b, end_of b) = fs) as Hp.
    { intros fs <-. by rewrite prepend_delivers Hf He -app_assoc. }
    assert ((buffered ++ [f]) ++ frames_of b1 = buffered ++ frames_of b) as Hff by by rewrite Hf -app_assoc.
    destruct (data_ref f) as [data|].
    + destruct (_ <? _); [intros [= <-]; symmetry; by apply Hp|]. destruct (parser_push _ _ _) as [out parser'].
      destruct (_ && _); [done|]. destruct (accepts _ _); [intros [= <-]; symmetry; by apply Hp|].
      intros H. rewrite (IH _ _ _ _ H). by rewrite Hff He.
    + intros H. rewrite (IH _ _ _ _ H). by rewrite Hff He.
  - done.
  - destruct Hd as [Hd ->]. destruct (parser_finish _ _) as [out parser']. destruct (accepts _ _); [|done].
    intros [= <-]. by rewrite prepend_delivers.
Qed.

Lemma read_usage_delivers from_slice polls f is_sse capture parser b r b' :
  no_error_kept b → read_usage from_slice polls f is_sse capture parser b = (r, b') →
  frames_of b' = frames_of b
  ∧ (end_of b' = end_of b ∨ r = true ∧ rp_inner b' = [] ∧ end_of b' = None ∧ is_some (end_of b) = true).
Proof.
  revert capture parser b. induction polls as [|polls IH]; intros capture parser b Hno; cbn [read_usage].
  { intros [= <- <-]. by split; [|left]. }
  destruct (poll_inner b) as [p b1] eqn:Ep. destruct p as [fr|error|].
  - destruct (poll_inner_frame _ _ _ Ep Hno) as [Hno' Hd].
    assert (no_error_kept (push_buffered fr b1)) as Hno2 by done. injection Hd as Hf He. rewrite -Hf -He.
    destruct (match data_ref fr with Some _ => _ | None => _ end) as [c2 p2]. destruct (is_truncated c2).
    + intros [= <- <-]. by split; [|left].
    + apply (IH _ _ _ Hno2).
  - revert Ep Hno. unfold poll_inner, no_error_kept, frames_of, end_of. destruct b as [bu be [|g inner] [ie|]]; cbn; try done.
    intros [= <- <-] Hno [= <- <-]. cbn in *. subst be. by split; [|right].
  - revert Ep. unfold poll_inner. destruct b as [bu be [|g inner] [ie|]]; cbn; try done. intros [= <-] [= <- <-].
    by split; [|left].
Qed.

(** C37. Reading ahead loses no frame: whether encrypted content was rejected, whether an error
    carries usage, and when the first event of a stream has come, the body then passed on
    delivers every frame upstream sent, in order. Its end is delivered as well, with one
    exception: an error that breaks a body while usage is looked for is forgotten. That body is
    taken to carry usage (it is not retried), and once all its frames are delivered it ends as if
    it were complete. *)
Theorem peeks_replay_everything from_slice polls b :
  no_error_kept b →
  (∀ status is_sse, delivers (encrypted_content_rejected from_slice status is_sse polls b).2 = delivers b)
  ∧ (∀ f t m b', preflight_sse from_slice f t m polls b = inl b' → delivers b' = delivers b)
  ∧ (∀ f is_sse,
       let '(has_usage, b') := retry_body_has_usage from_slice f is_sse polls b in
       frames_of b' = frames_of b
       ∧ (end_of b' = end_of b
          ∨ has_usage = true ∧ rp_inner b' = [] ∧ end_of b' = None ∧ is_some (end_of b) = true)).
Proof.
  intros Hno. split_and!.
  - intros status is_sse. unfold encrypted_content_rejected. destruct (_ && _); [done|by apply read_rejection_delivers].
  - intros f t m b' H. unfold preflight_sse in H. by rewrite (read_first_event_delivers _ _ _ _ _ _ _ _ _ H).
  - intros f is_sse. destruct (retry_body_has_usage from_slice f is_sse polls b) as [r b'] eqn:E.
    exact (read_usage_delivers _ _ _ _ _ _ _ _ _ Hno E).
Qed.

Definition broken_body : ReplayIncomingBody := new_replay [DataFrame (chars "ab"); DataFrame (chars "cd")] (Some "reset").

Lemma peeks_replay_everything_witness :
  delivers (encrypted_content_rejected (λ _, None) 400 false 9 broken_body).2 = delivers broken_body.
Proof. exact (proj1 (peeks_replay_everything (λ _, None) 9 broken_body eq_refl) 400 false). Defined.

(** The error that breaks an error body while usage is looked for is forgotten. *)
Example broken_error_body_completes :
  let '(has_usage, b) := retry_body_has_usage (λ _, None) Responses false 9 broken_body in
  has_usage = true ∧ delivers b = ([DataFrame (chars "ab"); DataFrame (chars "cd")], None)
  ∧ end_of broken_body = Some "reset".
Proof. by vm_compute. Qed.

(** ** What the first event decides *)
Definition event_failed (value : Value) : bool :=
  if is_terminal_response_event value then is_some (terminal_status value).1.2 else reports_error value.

(** An event that gives a client nothing, and one that is reason enough to go on. *)
Definition silent (value : Value) : Prop := event_failed value = true ∧ event_usage value = None.
Definition shows (value : Value) : Prop :=
  event_failed value = false ∨ is_Some (event_usage value)
  ∨ is_terminal_response_event value = true ∧ should_retry_response_status (terminal_status value).1.1 = false.

Definition data_of (fs : list Frame) : list ascii := concat (omap data_ref fs).

Section Preflight.
Context (from_slice : list ascii → option Value).

Definition events_of (bytes : list ascii) : list Value := (push_bytes from_slice new_sse bytes).1.
(** With those of a body that ends there. *)
Definition all_events_of (bytes : list ascii) : list Value :=
  events_of bytes ++ (ResponseEvents.finish from_slice (push_bytes from_slice new_sse bytes).2).1.

(** The parser after the events [es], none of which gave anything. *)
Record waiting (es : list Value) (p : SseParser) : Prop := {
  wt_silent : Forall silent es;
  wt_usage : ob_usage (pa_observation p) = None;
  wt_terminal_usage : ob_terminal_usage (pa_observation p) = false;
  wt_terminal : ∀ r, pa_terminal_result p = Some r →
    ∃ v, v ∈ es ∧ is_terminal_response_event v = true ∧ terminal_status v = r
}.

(** The parser after some events, whatever they gave. *)
Record after_events (es : list Value) (out : SsePushOut) (p : SseParser) : Prop := {
  af_valid : po_saw_valid_event out = existsb (λ v, negb (event_failed v)) es;
  af_usage : (ob_usage (pa_observation p) = None → Forall (λ v, event_usage v = None) es ∧ ob_terminal_usage (pa_observation p) = false)
             ∧ (is_Some (ob_usage (pa_observation p)) → Exists (λ v, is_Some (event_usage v)) es);
}.

Lemma observe_one o v :
  ob_usage o = None → ob_terminal_usage o = false →
  (event_usage v = None → ob_usage (observe o v) = None ∧ ob_terminal_usage (observe o v) = false)
  ∧ (is_Some (event_usage v) → is_Some (ob_usage (observe o v))).
Proof.
  intros Hu Ht. unfold observe. destruct (event_usage v) as [u|]; rewrite ?Hu ?Ht; cbn.
  - rewrite orb_true_r. split; [done|by eexists].
  - split; [done|by intros []].
Qed.

Lemma observe_keeps_usage o v : is_Some (ob_usage o) → is_Some (ob_usage (observe o v)).
Proof. unfold observe. intros Hu. destruct (event_usage v) as [u|]; [destruct (_ || _)|]; cbn; eauto. Qed.

Lemma starts_output_usage (b : bool) o :
  ob_usage (if b then note_delta o else o) = ob_usage o ∧ ob_terminal_usage (if b then note_delta o else o) = ob_terminal_usage o.
Proof. by destruct b. Qed.

(** One event of [observe_event]. *)
Lemma observe_event_step out p v :
  let '(out', p') := observe_event (out, p) v in
  po_saw_valid_event out' = (po_saw_valid_event out || negb (event_failed v))
  ∧ pa_decoder p' = pa_decoder p
  ∧ ob_usage (pa_observation p') = ob_usage (observe (pa_observation p) v)
  ∧ ob_terminal_usage (pa_observation p') = ob_terminal_usage (observe (pa_observation p) v)
  ∧ pa_terminal_result p' =
      (if is_terminal_response_event v then Some (terminal_status v) else pa_terminal_result p).
Proof.
  unfold observe_event, event_failed. destruct (is_terminal_response_event v); cbn;
    destruct (starts_output_usage (starts_output p (observe (pa_observation p) v) v) (observe (pa_observation p) v)) as [-> ->];
    by split_and!.
Qed.

Lemma observe_event_eq out p v :
  observe_event (out, p) v = ((observe_event (out, p) v).1, (observe_event (out, p) v).2).
Proof. by destruct (observe_event (out, p) v). Qed.

(** A run of events: quiet as long as each of them is. *)
Lemma observe_run es0 es out p out' p' :
  waiting es0 p → foldl observe_event (out, p) es = (out', p') →
  po_saw_valid_event out' = (po_saw_valid_event out || existsb (λ v, negb (event_failed v)) es)
  ∧ pa_decoder p' = pa_decoder p
  ∧ (ob_usage (pa_observation p') = None → Forall (λ v, event_usage v = None) es)
  ∧ (Forall (λ v, event_usage v = None) es → ob_usage (pa_observation p') = None ∧ ob_terminal_usage (pa_observation p') = false)
  ∧ (∀ r, pa_terminal_result p' = Some r →
       ∃ v, v ∈ es0 ++ es ∧ is_terminal_response_event v = true ∧ terminal_status v = r).
Proof.
  intros [Hs Hu Ht Hr]. revert out' p'. induction es as [|v es IH] using rev_ind; intros out' p'.
  - intros [= <- <-]. rewrite orb_false_r app_nil_r. by split_and!.
  - rewrite foldl_snoc. destruct (foldl observe_event (out, p) es) as [out1 p1] eqn:E.
    destruct (IH _ _ eq_refl) as (I1 & I2 & I3 & I4 & I5). intros Hstep.
    pose proof (observe_event_step out1 p1 v) as Hv. rewrite Hstep in Hv. destruct Hv as (V1 & V2 & V3 & V4 & V5).
    rewrite existsb_app V1 I1 V2 I2 V3 V4 V5. cbn [existsb]. rewrite orb_false_r orb_assoc. split_and!; try done.
    + intros Hn. rewrite Forall_app Forall_singleton. destruct (ob_usage (pa_observation p1)) as [u|] eqn:Eu.
      { destruct (observe_keeps_usage (pa_observation p1) v) as [u' Hu']; [by eexists|congruence]. }
      split; [by apply I3|]. destruct (I4 (I3 eq_refl)) as [_ Ht1]. destruct (event_usage v) as [u|] eqn:Ev; [|done].
      destruct (proj2 (observe_one _ v Eu Ht1)) as [u' Hu']; [by eexists|congruence].
    + rewrite Forall_app Forall_singleton. intros [He Hv]. destruct (I4 He) as [Eu Ht1]. by apply observe_one.
    + intros r. destruct (is_terminal_response_event v) eqn:Etv; intros Hres.
      * injection Hres as <-. exists v. split; [set_solver|done].
      * destruct (I5 r Hres) as (w & Hw & ?). exists w. split; [|done]. rewrite app_assoc. apply elem_of_app. by left.
Qed.

Lemma observe_quiet es0 es p out p' :
  waiting es0 p → observe_events p es = (out, p') → accepts out p' = false →
  waiting (es0 ++ es) p' ∧ pa_decoder p' = pa_decoder p.
Proof.
  unfold observe_events. intros Hw. destruct (foldl observe_event _ es) as [out1 p1] eqn:E. intros [= <- <-].
  destruct (observe_run _ _ _ _ _ _ Hw E) as (I1 & I2 & I3 & I4 & I5). unfold accepts. cbn [po_saw_valid_event po_usage].
  intros [[Hv Hus]%orb_false_iff Hn]%orb_false_iff. split; [|done]. rewrite I1 in Hv. cbn in Hv.
  assert (ob_usage (pa_observation p1) = None) as Hus' by by destruct (ob_usage (pa_observation p1)).
  split; [|done|by apply I4, I3|done]. apply Forall_app. split; [apply Hw|]. rewrite Forall_forall. intros v Hin. split.
  - destruct (event_failed v) eqn:Ef; [done|]. exfalso. assert (existsb (λ v, negb (event_failed v)) es = true); [|congruence].
    apply existsb_exists. exists v. rewrite -list_elem_of_In Ef. done.
  - exact (proj1 (Forall_forall _ _) (I3 Hus') v Hin).
Qed.

Lemma observe_shows es0 es p out p' :
  waiting es0 p → observe_events p es = (out, p') → accepts out p' = true → ∃ v, v ∈ es0 ++ es ∧ shows v.
Proof.
  unfold observe_events. intros Hw. destruct (foldl observe_event _ es) as [out1 p1] eqn:E. intros [= <- <-].
  destruct (observe_run _ _ _ _ _ _ Hw E) as (I1 & I2 & I3 & I4 & I5). unfold accepts. cbn [po_saw_valid_event po_usage].
  rewrite !orb_true_iff. intros [[Hv|Hus]|Hn].
  - rewrite I1 in Hv. cbn in Hv. apply existsb_exists in Hv as (v & Hin & Hf%negb_true_iff). exists v.
    split; [apply elem_of_app; right; by apply list_elem_of_In|by left].
  - destruct (decide (Forall (λ v, event_usage v = None) es)) as [Hall|Hex].
    + destruct (I4 Hall) as [E' _]. by rewrite E' in Hus.
    + apply not_Forall_Exists in Hex; [|apply _]. apply Exists_exists in Hex as (v & Hin & Hv). exists v.
      split; [apply elem_of_app; by right|]. right; left. destruct (event_usage v) eqn:Ev; [by eexists|]. by destruct Hv.
  - unfold non_retryable_terminal in Hn. apply is_some_and_true in Hn as (r & Hr & Hnr%negb_true_iff).
    destruct (I5 r Hr) as (v & Hin & Htv & <-). exists v. split; [done|]. by right; right.
Qed.

(** The parser after the bytes [s], which gave nothing. *)
Record waits (s : list ascii) (p : SseParser) : Prop := {
  ws_events : waiting (events_of s) p;
  ws_decoder : pa_decoder p = (push_bytes from_slice new_sse s).2
}.

Lemma events_of_app a b :
  events_of (a ++ b) = events_of a ++ (push_bytes from_slice (push_bytes from_slice new_sse a).2 b).1
  ∧ (push_bytes from_slice new_sse (a ++ b)).2 = (push_bytes from_slice (push_bytes from_slice new_sse a).2 b).2.
Proof. unfold events_of. by rewrite push_app. Qed.

Lemma waiting_set_decoder es d p : waiting es p → waiting es (set_pa_decoder d p).
Proof. by intros [? ? ? ?]. Qed.

Lemma parser_push_waits s p data out p' :
  waits s p → parser_push from_slice p data = (out, p') →
  (accepts out p' = false → waits (s ++ data) p') ∧ (accepts out p' = true → ∃ v, v ∈ events_of (s ++ data) ∧ shows v).
Proof.
  intros [Hw Hd]. unfold parser_push. destruct (events_of_app s data) as [He Hd']. rewrite Hd.
  destruct (push_bytes from_slice (push_bytes from_slice new_sse s).2 data) as [es d] eqn:E. cbn [fst snd] in He, Hd'.
  intros Ho. split; intros Ha.
  - destruct (observe_quiet _ _ _ _ _ (waiting_set_decoder _ d _ Hw) Ho Ha) as [Hq Hq']. split; [by rewrite He|by rewrite Hq' Hd'].
  - rewrite He. by apply (observe_shows _ _ _ _ _ (waiting_set_decoder _ d _ Hw) Ho).
Qed.

Lemma parser_finish_shows s p out p' :
  waits s p → parser_finish from_slice p = (out, p') → accepts out p' = true → ∃ v, v ∈ all_events_of s ∧ shows v.
Proof.
  intros [Hw Hd]. unfold parser_finish, all_events_of. rewrite Hd. destruct (ResponseEvents.finish _ _) as [es d] eqn:E.
  intros Ho Ha. by apply (observe_shows _ _ _ _ _ (waiting_set_decoder _ d _ Hw) Ho).
Qed.

Lemma data_of_app a b : data_of (a ++ b) = data_of a ++ data_of b.
Proof. unfold data_of. by rewrite omap_app concat_app. Qed.

Lemma read_first_event_decides polls t m parser buffered n b :
  waits (data_of buffered) parser → n = Z.min u64_max (len (data_of buffered)) → m < u64_max →
  match read_first_event from_slice polls t m parser buffered n b with
  | inr _ => ∃ fs rest, buffered ++ frames_of b = fs ++ rest ∧ Forall silent (events_of (data_of fs))
  | inl _ => ∃ fs rest, buffered ++ frames_of b = fs ++ rest
               ∧ (m < len (data_of fs) ∨ ∃ v, v ∈ all_events_of (data_of fs) ∧ shows v)
  end.
Proof.
  intros Hw Hn Hm. revert parser buffered n b Hw Hn. induction polls as [|polls IH]; intros parser buffered n b Hw Hn; cbn [read_first_event].
  { exists buffered, (frames_of b). split; [done|]. apply Hw. }
  destruct (poll_frame b) as [p b1] eqn:Ep. pose proof (poll_frame_delivers _ _ _ Ep) as Hd. destruct p as [f|error|].
  - injection Hd as Hf _. assert (buffered ++ frames_of b = (buffered ++ [f]) ++ frames_of b1) as Hsplit by by rewrite Hf -app_assoc.
    destruct (data_ref f) as [data|] eqn:Ef.
    + assert (data_of (buffered ++ [f]) = data_of buffered ++ data) as Hdata.
      { rewrite data_of_app. unfold data_of at 2. cbn. by rewrite Ef /= app_nil_r. }
      assert (u64_sat_add n (len data) = Z.min u64_max (len (data_of (buffered ++ [f])))) as Hn'.
      { rewrite Hdata len_app Hn. pose proof (len_nonneg data). pose proof (len_nonneg (data_of buffered)). mlia. }
      destruct (Z.ltb_spec m (u64_sat_add n (len data))) as [Hover|Hover].
      { exists (buffered ++ [f]), (frames_of b1). split; [done|]. left. lia. }
      destruct (parser_push from_slice parser data) as [out p'] eqn:E.
      destruct (parser_push_waits _ _ _ _ _ Hw E) as [Hq Hs]. rewrite -Hdata in Hq, Hs.
      destruct (accepts out p'); cbn [negb]; rewrite ?andb_true_r ?andb_false_r.
      * exists (buffered ++ [f]), (frames_of b1). split; [done|]. right. destruct (Hs eq_refl) as (v & Hv & Hsh). exists v.
        split; [apply elem_of_app; by left|done].
      * rewrite Hsplit. destruct (po_saw_error_event out).
        { exists (buffered ++ [f]), (frames_of b1). split; [done|]. by apply Hq. }
        { apply (IH p' (buffered ++ [f]) _ b1); [by apply Hq|done]. }
    + rewrite Hsplit. apply IH; rewrite data_of_app (_ : data_of [f] = []) ?app_nil_r //; unfold data_of; cbn; by rewrite Ef.
  - injection Hd as Hf _. exists buffered, (frames_of b). split; [done|]. apply Hw.
  - destruct (parser_finish from_slice parser) as [out p'] eqn:E.
    destruct (accepts out p') eqn:Ea; exists buffered, (frames_of b); split; try done; [|by apply Hw].
    right. by apply (parser_finish_shows _ _ _ _ Hw E).
Qed.

(** A stream is given up before the client sees it only when it has shown nothing a
    client could use: every event decoded so far is an error and none carries usage, so
    nothing is lost and nothing is paid for twice. It is passed on as soon as it shows
    something - an event that is no error, usage, or an end that is not to be retried -
    or fills the buffer. *)
Theorem preflight_gives_up_on_silence f t m polls b :
  m < u64_max →
  match preflight_sse from_slice f t m polls b with
  | inr _ => ∃ fs rest, frames_of b = fs ++ rest ∧ Forall silent (events_of (data_of fs))
  | inl _ => ∃ fs rest, frames_of b = fs ++ rest
               ∧ (m < len (data_of fs) ∨ ∃ v, v ∈ all_events_of (data_of fs) ∧ shows v)
  end.
Proof.
  intros Hm. unfold preflight_sse. apply (read_first_event_decides polls t m (new_sse_parser f) [] 0 b); [|done|done].
  split; [|done]. by split.
Qed.
End Preflight.

Definition error_frame : Frame := DataFrame (chars "data:E" ++ [nl; nl]).
Definition knows_error (s : list ascii) : option Value :=
  if String.eqb (of_chars s) "E" then Some (Object [("error", String "busy"); ("type", String "error")]) else None.

Lemma preflight_gives_up_on_silence_witness :
  preflight_sse knows_error Responses 5000 1024 9 (new_replay [error_frame] None) = inr refused_early
  ∧ ∃ fs rest, [error_frame] = fs ++ rest ∧ Forall silent (events_of knows_error (data_of fs)).
Proof.
  assert (preflight_sse knows_error Responses 5000 1024 9 (new_replay [error_frame] None) = inr refused_early) as E
    by (vm_compute; reflexivity).
  split; [exact E|].
  pose proof (preflight_gives_up_on_silence knows_error Responses 5000 1024 9 (new_replay [error_frame] None)
                ltac:(vm_compute; reflexivity)) as H.
  rewrite E in H. exact H.
Defined.

(** ** The usage found in a window *)
Definition occurs (window : list ascii) (p : nat) : Prop := ∃ rest, drop p window = usage_key ++ rest.

Lemma strip_some needle l : is_some (strip_prefix_chars needle l) = true ↔ ∃ rest, l = needle ++ rest.
Proof.
  split.
  - destruct (strip_prefix_chars needle l) as [rest|] eqn:E; [|done]. intros _. exists rest. by apply strip_prefix_chars_Some.
  - intros [rest ->]. by rewrite strip_prefix_chars_app.
Qed.

Lemma rfind_spec needle l i :
  needle ≠ [] →
  match rfind_subslice needle l i with
  | Some p => ∃ k, p = (i + k)%nat ∧ (∃ rest, drop k l = needle ++ rest) ∧ ∀ k', (k < k')%nat → ¬ ∃ rest, drop k' l = needle ++ rest
  | None => ∀ k, ¬ ∃ rest, drop k l = needle ++ rest
  end.
Proof.
  intros Hne. revert i. induction l as [|x l IH]; intros i; cbn [rfind_subslice].
  - intros k [rest Hk]. rewrite drop_nil in Hk. by destruct needle.
  - specialize (IH (S i)). destruct (rfind_subslice needle l (S i)) as [p|].
    + destruct IH as (k & -> & Hk & Hlast). exists (S k). split_and!; [lia|done|]. intros [|k'] Hk'; [lia|]. apply Hlast. lia.
    + destruct (is_some (strip_prefix_chars needle (x :: l))) eqn:Es.
      * exists 0%nat. split_and!; [lia|by apply strip_some|]. intros [|k'] Hk'; [lia|]. apply IH.
      * intros [|k]; [|apply IH]. intros Hx. cbn in Hx. apply strip_some in Hx. congruence.
Qed.

Lemma occurs_take window e p :
  (∃ rest, drop p (take e window) = usage_key ++ rest) ↔ occurs window p ∧ (p + 7 <= e)%nat.
Proof.
  unfold occurs. split.
  - intros [rest Hp]. rewrite -(take_drop e window) drop_app.
    assert (length (drop p (take e window)) = (7 + length rest)%nat) as Hl by by rewrite Hp length_app.
    rewrite length_drop length_take in Hl. split; [|lia]. exists (rest ++ drop (p - length (take e window)) (drop e window)).
    by rewrite Hp -app_assoc.
  - intros [[rest Hp] Hle]. exists (take (e - p - 7) rest).
    rewrite {1}(_ : e = (p + (7 + (e - p - 7)))%nat); [|lia]. rewrite -take_drop_commute Hp.
    by rewrite take_app_add'; [|done].
Qed.

Lemma skip_ws_stops c rest i : is_ws c = false → skip_ws (c :: rest) i = (c :: rest, i).
Proof. intros H. cbn [skip_ws]. by rewrite H. Qed.

(** Two keys share at most a quote, and then the first is followed by no colon. *)
Lemma overlapping_keys from_slice window p q :
  occurs window p → occurs window q → (q < p < q + 7)%nat → usage_at from_slice window q = None.
Proof.
  intros [r2 Hp] [r1 Hq] Hpq.
  assert (drop (p - q) (usage_key ++ r1) = usage_key ++ r2) as Hd by (rewrite -Hq -Hp drop_drop; f_equal; lia).
  assert (r1 = tail usage_key ++ r2) as ->.
  { clear Hq Hp. let k := eval vm_compute in usage_key in change usage_key with k in Hd |- *.
    destruct (p - q)%nat as [|[|[|[|[|[|[|d]]]]]]] eqn:Ed; try lia; cbn [app drop tail] in Hd |- *; congruence. }
  unfold usage_at, json_value_span_after_key.
  assert (drop (q + length usage_key) window = tail usage_key ++ r2) as ->.
  { rewrite -drop_drop Hq. by rewrite drop_app_length. }
  change (tail usage_key ++ r2) with ("u"%char :: (tail (tail usage_key) ++ r2)). by rewrite skip_ws_stops.
Qed.

Lemma window_usage_spec from_slice window fuel e :
  (e < fuel)%nat →
  match window_usage from_slice fuel window e with
  | Some u => ∃ p, occurs window p ∧ (p + 7 <= e)%nat ∧ usage_at from_slice window p = Some u
               ∧ ∀ q, (p < q)%nat → occurs window q → (q + 7 <= e)%nat → usage_at from_slice window q = None
  | None => ∀ q, occurs window q → (q + 7 <= e)%nat → usage_at from_slice window q = None
  end.
Proof.
  revert e. induction fuel as [|fuel IH]; intros e He; cbn [window_usage]; [lia|].
  pose proof (rfind_spec usage_key (take e window) 0 ltac:(done)) as Hr.
  destruct (rfind_subslice usage_key (take e window) 0) as [p|].
  - destruct Hr as (k & -> & Hk%occurs_take & Hlast). cbn [Nat.add] in *. destruct Hk as [Hk Hke].
    assert (∀ q, (k < q)%nat → occurs window q → (q + 7 <= e)%nat → False) as Hnone.
    { intros q Hkq Hq Hqe. apply (Hlast q Hkq). by apply occurs_take. }
    destruct (usage_at from_slice window k) as [u|] eqn:Eu.
    { exists k. split_and!; [done|done|done|]. intros q Hkq Hq Hqe. by destruct (Hnone q Hkq Hq Hqe). }
    assert (∀ q, occurs window q → (q + 7 <= e)%nat → (k < q + 7)%nat → usage_at from_slice window q = None) as Hnear.
    { intros q Hq Hqe Hkq. destruct (decide (k = q)) as [->|]; [done|].
      destruct (decide (k < q)%nat); [by destruct (Hnone q)|]. apply (overlapping_keys _ _ k q Hk Hq). lia. }
    specialize (IH k ltac:(lia)). destruct (window_usage from_slice fuel window k) as [u|].
    + destruct IH as (p & Hp & Hpk & Hu & Hlater). exists p. split_and!; [done|lia|done|]. intros q Hpq Hq Hqe.
      destruct (decide (q + 7 <= k)%nat); [by apply Hlater|apply Hnear; [done|done|lia]].
    + intros q Hq Hqe. destruct (decide (q + 7 <= k)%nat); [by apply IH|apply Hnear; [done|done|lia]].
  - intros q Hq Hqe. exfalso. apply (Hr q). by apply occurs_take.
Qed.

Lemma occurs_within window p : occurs window p → (p + 7 <= length window)%nat.
Proof.
  intros [rest Hp]. assert (length (drop p window) = (7 + length rest)%nat) as Hl by by rewrite Hp length_app.
  rewrite length_drop in Hl. lia.
Qed.

(** A body too long to be captured whole is metered by the last usage in what was
    captured of it: of all the places where the key [usage] is written, the last whose
    value can be read, and none only if no such place has a readable value. The search
    always ends. *)
Theorem window_usage_is_last from_slice window :
  match extract_usage_from_window from_slice window with
  | Some u => ∃ p, occurs window p ∧ usage_at from_slice window p = Some u
               ∧ ∀ q, (p < q)%nat → occurs window q → usage_at from_slice window q = None
  | None => ∀ q, occurs window q → usage_at from_slice window q = None
  end.
Proof.
  unfold extract_usage_from_window. pose proof (window_usage_spec from_slice window (S (length window)) (length window) ltac:(lia)) as H.
  destruct (window_usage _ _ _ _) as [u|].
  - destruct H as (p & Hp & _ & Hu & Hlast). exists p. split_and!; [done|done|]. intros q Hpq Hq. apply Hlast; [done|done|by apply occurs_within].
  - intros q Hq. apply H; [done|by apply occurs_within].
Qed.
