(* ===== verification/Tap.v ===== *)
(** * Tap: relaying an accepted body and settling its attempt

    Models [ProxyTapBody] and [finalize_tap] of [proxy.rs]: the task that reads the
    upstream body, hands it to the client as long as the client listens, keeps reading
    for the meter when the client is gone, and then settles the attempt: usage and
    price, reservation, session affinity and the telemetry row. The task is a fold over
    the events it waits for; instants are nanoseconds of a monotonic clock. Routing
    traces and monitoring counters are not modelled. *)
From Stdlib Require Import Ascii String.
From S2P Require Import Prelude Text Json ProbeProtocol Resilience Types RuntimeHealth ProviderRuntime Quota KeyRotation Selector Affinity ResponseEvents Pricing Snapshot RoutingAvailability Routing Plan Reservation Slots Relay CodexRequests.

Local Open Scope string_scope.
Local Open Scope list_scope.
Local Open Scope Z_scope.

Definition DISCONNECT_GRACE : Z := 30 * 1000000000.

(** [start.elapsed().as_millis() as i64] *)
Definition elapsed_ms (start now : Z) : Z := Z.max (now - start) 0 / 1000000.

(** The constants of the task; the fields its reader changes are in [Tap] and [TapEnd].
    [tc_codex_state] tells whether the account is an OAuth account. *)
Record TapConfig {D : Type} := MkTapConfig {
  tc_api_key_id : Z;
  tc_log_enabled : bool;
  tc_provider_id : option Z;
  tc_endpoint_id : option Z;
  tc_upstream_key_id : option Z;
  tc_api_format : ApiFormat;
  tc_upstream_api_format : ApiFormat;
  tc_model : option string;
  tc_http_status : option Z;
  tc_t_stream_ms : option Z;
  tc_start : Z;
  tc_is_sse : bool;
  tc_price : option (PriceVersion D);
  tc_usage_capture_bytes : Z;
  tc_usage_capture_tail_bytes : Z;
  tc_provider : UpstreamProvider;
  tc_affinity_identity : option AffinityIdentity;
  tc_affinity_binding : option AffinityBinding;
  tc_affinity_should_migrate : bool;
  tc_codex_state : bool;
  tc_read_timeout : Z;
  tc_first_read_deadline : Z;
  tc_requested_reasoning_effort : option string;
  tc_upstream_reasoning_effort : option string;
  tc_requested_service_tier : option string;
  tc_upstream_service_tier : option string
}.
Arguments TapConfig : clear implicits.

(** ** Reading the body *)

(** The variables of the task. [tp_sent] is what the channel to the client accepted. *)
Record Tap := MkTap {
  tp_first_byte_ms : option Z;
  tp_first_token_ms : option Z;
  tp_error : option (string * string);
  tp_capture : UsageCaptureBuffer;
  tp_sse : option SseParser;
  tp_disconnected_at : option Z;
  tp_client_duration_ms : option Z;
  tp_preflight_complete : bool;
  tp_read_deadline : Z;
  tp_sent : list (Frame + string)
}.

Definition set_tp_client (gone duration : option Z) (t : Tap) : Tap :=
  MkTap (tp_first_byte_ms t) (tp_first_token_ms t) (tp_error t) (tp_capture t) (tp_sse t) gone duration
    (tp_preflight_complete t) (tp_read_deadline t) (tp_sent t).
Definition set_tp_error (e : option (string * string)) (t : Tap) : Tap :=
  MkTap (tp_first_byte_ms t) (tp_first_token_ms t) e (tp_capture t) (tp_sse t) (tp_disconnected_at t)
    (tp_client_duration_ms t) (tp_preflight_complete t) (tp_read_deadline t) (tp_sent t).
Definition set_tp_read_deadline (d : Z) (t : Tap) : Tap :=
  MkTap (tp_first_byte_ms t) (tp_first_token_ms t) (tp_error t) (tp_capture t) (tp_sse t) (tp_disconnected_at t)
    (tp_client_duration_ms t) (tp_preflight_complete t) d (tp_sent t).
Definition set_tp_sent (sent : list (Frame + string)) (t : Tap) : Tap :=
  MkTap (tp_first_byte_ms t) (tp_first_token_ms t) (tp_error t) (tp_capture t) (tp_sse t) (tp_disconnected_at t)
    (tp_client_duration_ms t) (tp_preflight_complete t) (tp_read_deadline t) sent.

(** The clock readings made while one frame is handled, in their order. *)
Record FrameClock := MkFrameClock { fc_byte : Z; fc_token : Z; fc_deadline : Z; fc_gone : Z }.

(** What the task wakes up for. [accepted] tells whether the client took what it was sent;
    the client's leaving is looked at first ([biased]) and only once. *)
Inductive TapEvent :=
| ClientGone (now : Z)
| FrameArrived (f : Frame) (accepted : bool) (clock : FrameClock)
| BodyEnded
| BodyFailed (error : string) (accepted : bool)
| DeadlineReached (accepted : bool).

Section Tap.
Context {D : Type} `{Decimal D}.
Context (from_slice : list ascii → option Value).
Context (cfg : TapConfig D).

Definition new_tap : Tap :=
  MkTap None None None
    (new_capture (Z.max (tc_usage_capture_bytes cfg) MAX_EVENT_BYTES) (tc_usage_capture_tail_bytes cfg))
    (if tc_is_sse cfg then Some (new_sse_parser (tc_api_format cfg)) else None)
    None None (negb (tc_is_sse cfg)) (tc_first_read_deadline cfg) [].

(** The instant the next wait ends at. *)
Definition tap_deadline (t : Tap) : Z :=
  match tp_disconnected_at t with
  | Some at_ => Z.min (at_ + DISCONNECT_GRACE) (tp_read_deadline t)
  | None => tp_read_deadline t
  end.

Definition terminal_seen (t : Tap) : bool :=
  is_some_and (tp_sse t) (λ parser, ob_terminal (pa_observation parser)).

Definition note_gone (now : Z) (t : Tap) : Tap :=
  set_tp_client (Some now) (Some (elapsed_ms (tc_start cfg) now)) t.

Definition stream_error : option (string * string) :=
  Some ("upstream_stream_error", "upstream returned a failed, incomplete or cancelled response").

(** The data of one frame goes to the parser or to the capture. *)
Definition on_data (data : list ascii) (clock : FrameClock) (t : Tap) : Tap :=
  let first_byte := Some (unwrap_or (tp_first_byte_ms t) (elapsed_ms (tc_start cfg) (fc_byte clock))) in
  match tp_sse t with
  | Some parser =>
      let '(out, parser) := parser_push from_slice parser data in
      MkTap first_byte
        (if po_saw_first_token out
         then Some (unwrap_or (tp_first_token_ms t) (elapsed_ms (tc_start cfg) (fc_token clock)))
         else tp_first_token_ms t)
        (if po_saw_error_event out then stream_error else tp_error t)
        (tp_capture t) (Some parser) (tp_disconnected_at t) (tp_client_duration_ms t)
        (tp_preflight_complete t || accepts out parser)
        (tp_read_deadline t) (tp_sent t)
  | None =>
      MkTap first_byte (tp_first_token_ms t) (tp_error t) (capture_push (tp_capture t) data) None
        (tp_disconnected_at t) (tp_client_duration_ms t) (tp_preflight_complete t) (tp_read_deadline t) (tp_sent t)
  end.

(** [sender.send(...)]: a channel closed by its receiver takes nothing. *)
Definition send (item : Frame + string) (accepted : bool) (t : Tap) : Tap :=
  if accepted && is_none (tp_disconnected_at t) then set_tp_sent (tp_sent t ++ [item]) t else t.

Definition on_frame (f : Frame) (accepted : bool) (clock : FrameClock) (t : Tap) : Tap * bool :=
  let t := match data_ref f with Some data => on_data data clock t | None => t end in
  let t := if tp_preflight_complete t then set_tp_read_deadline (fc_deadline clock + tc_read_timeout cfg) t else t in
  let t := if is_none (tp_disconnected_at t)
           then let t := send (inl f) accepted t in if accepted then t else note_gone (fc_gone clock) t
           else t in
  (t, negb (terminal_seen t && is_some (tp_disconnected_at t))).

(** One round of the loop; [false] leaves it. *)
Definition tap_step (t : Tap) (e : TapEvent) : Tap * bool :=
  match e with
  | ClientGone now =>
      if is_none (tp_disconnected_at t) then let t := note_gone now t in (t, negb (terminal_seen t)) else (t, true)
  | FrameArrived f accepted clock => on_frame f accepted clock t
  | BodyEnded => (t, false)
  | BodyFailed error accepted =>
      (send (inr error) accepted (set_tp_error (Some ("upstream_body_error", error)) t), false)
  | DeadlineReached accepted =>
      let message := "upstream body read deadline exceeded" in
      (send (inr message) accepted (set_tp_error (Some ("upstream_timeout", message)) t), false)
  end.

(** The loop over the events it meets; [false] when it has been left. *)
Fixpoint tap_loop (t : Tap) (events : list TapEvent) : Tap * bool :=
  match events with
  | [] => (t, true)
  | e :: events => match tap_step t e with (t, true) => tap_loop t events | left_ => left_ end
  end.

(** ** After the body *)

(** What the reader has found out. *)
Record TapEnd := MkTapEnd {
  te_http_status : option Z;
  te_service_tier : option string;
  te_terminal_observed : bool;
  te_error_type : option string;
  te_error_message : option string;
  te_usage : Usage;
  te_usage_observed : bool;
  te_first_byte_ms : option Z;
  te_first_token_ms : option Z;
  te_ttft_source : option string;
  te_client_duration_ms : option Z;
  te_capture : UsageCaptureBuffer
}.

Definition no_usage : Usage := MkUsage 0 0 0 0 0.

(** [now] is read when the last event is the first to show output. *)
Definition finish_sse (parser : SseParser) (now : Z) (t : Tap) : TapEnd :=
  let '(out, parser) := parser_finish from_slice parser in
  let observation := pa_observation parser in
  let error := if po_saw_error_event out then stream_error else tp_error t in
  let '(status, kind, message, terminal) :=
    match pa_terminal_result parser with
    | Some (status, kind, message) => (Some status, kind, message, true)
    | None => (tc_http_status cfg, option_map fst error, option_map snd error, false)
    end in
  MkTapEnd status (ob_service_tier observation) terminal kind message
    (unwrap_or (ob_usage observation) no_usage) (is_some (ob_usage observation))
    (tp_first_byte_ms t)
    (if po_saw_first_token out then Some (unwrap_or (tp_first_token_ms t) (elapsed_ms (tc_start cfg) now))
     else tp_first_token_ms t)
    (ob_first_output_kind observation) (tp_client_duration_ms t) (tp_capture t).

Definition finish_plain (t : Tap) : TapEnd :=
  let value := from_slice (capture_to_vec (tp_capture t)) in
  let '(status, kind, message, terminal) :=
    match opt_filter (λ value, bool_decide (tc_api_format cfg = Responses) && is_terminal_response_event value) value with
    | Some value => let '(status, kind, message) := terminal_status value in (Some status, kind, message, true)
    | None => (tc_http_status cfg, option_map fst (tp_error t), option_map snd (tp_error t), false)
    end in
  MkTapEnd status (opt_bind value service_tier) terminal kind message no_usage false
    (tp_first_byte_ms t) (tp_first_token_ms t) None (tp_client_duration_ms t) (tp_capture t).

Definition set_te_error (kind message : option string) (e : TapEnd) : TapEnd :=
  MkTapEnd (te_http_status e) (te_service_tier e) (te_terminal_observed e) kind message (te_usage e)
    (te_usage_observed e) (te_first_byte_ms e) (te_first_token_ms e) (te_ttft_source e) (te_client_duration_ms e)
    (te_capture e).
Definition set_te_usage (usage : Usage) (e : TapEnd) : TapEnd :=
  MkTapEnd (te_http_status e) (te_service_tier e) (te_terminal_observed e) (te_error_type e) (te_error_message e)
    usage true (te_first_byte_ms e) (te_first_token_ms e) (te_ttft_source e) (te_client_duration_ms e)
    (te_capture e).

Definition tap_end (t : Tap) (now : Z) : TapEnd :=
  let e := match tp_sse t with Some parser => finish_sse parser now t | None => finish_plain t end in
  if is_some (tp_disconnected_at t)
  then set_te_error (Some "client_disconnected")
         (Some "client disconnected; upstream metering collection finished") e
  else e.

(** ** Settling the attempt *)

(** The readings of the clocks while the attempt is settled: [util::now_ms()] of the
    settlement, of the error timeline, of the circuits and of the row, and
    [start.elapsed()] where a latency or a duration is missing. *)
Record SettleClock := MkSettleClock {
  sk_now_ms : Z;
  sk_latency_ms : Z;
  sk_error_ms : Z;
  sk_circuit_ms : Z;
  sk_duration_ms : Z;
  sk_time_ms : Z
}.

Record TelemetryEvent := MkTelemetry {
  tv_api_key_id : Z;
  tv_log_enabled : bool;
  tv_provider_id : option Z;
  tv_endpoint_id : option Z;
  tv_upstream_key_id : option Z;
  tv_api_format : ApiFormat;
  tv_upstream_api_format : ApiFormat;
  tv_model : option string;
  tv_http_status : option Z;
  tv_error_type : option string;
  tv_error_message : option string;
  tv_t_stream_ms : option Z;
  tv_t_first_byte_ms : option Z;
  tv_t_first_token_ms : option Z;
  tv_duration_ms : option Z;
  tv_usage : Usage;
  tv_usage_observed : bool;
  tv_price_version_id : option Z;
  tv_price_tier_index : option Z;
  tv_time_ms : Z;
  tv_ttft_source : option string;
  tv_requested_reasoning_effort : option string;
  tv_upstream_reasoning_effort : option string;
  tv_requested_service_tier : option string;
  tv_upstream_service_tier : option string;
  tv_service_tier : option string
}.

(** What leaves the gateway: the row, if the queue has a place for it, and the account to be
    marked as forbidden in the database. *)
Record Settled := MkSettled { sd_event : option TelemetryEvent; sd_forbidden : option Z }.

Definition metered_usage (e : TapEnd) : TapEnd :=
  if negb (tc_is_sse cfg) && negb (capture_is_empty (te_capture e)) then
    match extract_usage_from_capture from_slice (tc_api_format cfg) (te_capture e) with
    | Some usage => set_te_usage usage e
    | None => e
    end
  else e.

Definition disconnected (e : TapEnd) : bool := is_some_and (te_error_type e) (String.eqb "client_disconnected").

Definition settle_origin (e : TapEnd) : OutcomeOrigin :=
  if disconnected e then Gateway
  else if te_terminal_observed e then UpstreamEvent
  else if is_some (te_error_type e) then LocalTransport
  else UpstreamResponse.

Definition captured_error (e : TapEnd) : option (string * option string) :=
  if bool_decide (settle_origin e = UpstreamResponse) && is_some_and (te_http_status e) (Z.leb 400)
     && negb (is_truncated (te_capture e))
  then upstream_error_details from_slice (capture_to_vec (te_capture e))
  else None.

(** An OAuth account: it may be forbidden, or its error say when its quota resets. *)
Definition settle_account (e : TapEnd) (now_ms : Z) (s : SharedState) : option Z * SharedState :=
  match tc_codex_state cfg, tc_upstream_key_id cfg, te_http_status e with
  | true, Some key_id, Some status =>
      let captured := capture_to_vec (te_capture e) in
      (if (status =? 403) && is_account_forbidden_error captured then Some key_id else None,
       if (status =? 402) || (status =? 429) then
         match quota_reset_hint_from_error from_slice captured now_ms with
         | Some reset_at_ms => set_ss_quota (set_cooldown_until (ss_quota s) key_id reset_at_ms now_ms) s
         | None => s
         end
       else s)
  | _, _, _ => (None, s)
  end.

Definition settle_scope (e : TapEnd) : FailureScope :=
  classify_failure_scope_with_body from_slice (te_http_status e) (settle_origin e) (te_capture e).

Definition settle_outcome (e : TapEnd) (clock : SettleClock) : AttemptOutcome :=
  MkOutcome (te_http_status e) (settle_origin e)
    (opt_or (te_error_type e) (option_map fst (captured_error e)))
    (opt_or (te_error_message e) (opt_bind (captured_error e) snd))
    (opt_or (te_first_byte_ms e) (opt_or (te_first_token_ms e)
       (opt_or (tc_t_stream_ms cfg) (Some (sk_latency_ms clock))))).

(** [finish_with_scope], after which the reservation goes out of scope. *)
Definition settle_reservation (r : UpstreamAttemptReservation) (e : TapEnd) (clock : SettleClock) (s : SharedState)
    : SharedState :=
  if disconnected e then neutral s r (sk_circuit_ms clock)
  else
    let '(r, s) := finish_with_scope s r (settle_outcome e clock) (settle_scope e) (sk_error_ms clock) (sk_circuit_ms clock) in
    drop_reservation s r (sk_circuit_ms clock).

Context {EntryOrder : HashOrder AffinityKey AffinityEntry} {AvoidOrder : HashOrder AffinityKey AvoidEntry}.

Definition same_target (binding : AffinityBinding) : bool :=
  (ab_provider_id binding =? up_id (tc_provider cfg))
  && opt_eqb (ab_upstream_key_id binding) (tc_upstream_key_id cfg)
  && opt_eqb (ab_endpoint_id binding) (tc_endpoint_id cfg).

Definition settle_affinity (e : TapEnd) (now_ms : Z) (s : SharedState) : SharedState :=
  match tc_affinity_identity cfg with
  | None => s
  | Some identity =>
      if bool_decide (settle_scope e = ScopeSuccess) then
        match tc_affinity_binding cfg with
        | None => s
        | Some binding =>
            if same_target binding then
              if ab_confirmed binding then
                set_ss_affinity (refresh_if_target (ss_affinity s) identity binding now_ms).2 s
              else set_ss_affinity (confirm (ss_affinity s) identity binding now_ms).2 s
            else if tc_affinity_should_migrate cfg then
              set_ss_affinity (migrate_target (ss_affinity s) identity (up_id (tc_provider cfg))
                                 (tc_upstream_key_id cfg) (tc_endpoint_id cfg) now_ms).2 s
            else s
        end
      else if should_avoid_affinity_immediately (settle_scope e) then
        set_ss_affinity (mark_provider_failed (ss_affinity s) identity (up_id (tc_provider cfg)) now_ms
                           (avoid_ns (tc_provider cfg))) s
      else s
  end.

Definition telemetry_event (e : TapEnd) (pricing : PricingEvaluation D) (clock : SettleClock) : TelemetryEvent :=
  MkTelemetry (tc_api_key_id cfg) (tc_log_enabled cfg) (tc_provider_id cfg) (tc_endpoint_id cfg)
    (tc_upstream_key_id cfg) (tc_api_format cfg) (tc_upstream_api_format cfg) (tc_model cfg) (te_http_status e)
    (oc_error_type (settle_outcome e clock)) (oc_error_message (settle_outcome e clock)) (tc_t_stream_ms cfg)
    (te_first_byte_ms e) (te_first_token_ms e)
    (opt_or (te_client_duration_ms e) (Some (sk_duration_ms clock)))
    (te_usage e) (te_usage_observed e) (option_map pv_id (tc_price cfg)) (pe_tier_index pricing) (sk_time_ms clock)
    (te_ttft_source e) (tc_requested_reasoning_effort cfg) (tc_upstream_reasoning_effort cfg)
    (tc_requested_service_tier cfg) (tc_upstream_service_tier cfg) (te_service_tier e).

(** A price that cannot be computed panics: the task is unwound and the reservation dropped. *)
Definition finalize_tap (s : SharedState) (permit : bool) (r : UpstreamAttemptReservation) (e : TapEnd)
    (clock : SettleClock) : Settled * SharedState :=
  let e := metered_usage e in
  match evaluate_price (te_usage e) (te_usage_observed e) (tc_price cfg) with
  | None => (MkSettled None None, drop_reservation s r (sk_now_ms clock))
  | Some pricing =>
      let '(forbidden, s) := settle_account e (sk_now_ms clock) s in
      let s := settle_reservation r e clock s in
      let s := settle_affinity e (sk_now_ms clock) s in
      (MkSettled (if permit then Some (telemetry_event e pricing clock) else None) forbidden, s)
  end.
End Tap.

(** ** What was read *)
Section Reading.
Context {D : Type} (from_slice : list ascii → option Value) (cfg : TapConfig D).

Notation step := (tap_step from_slice cfg).
Notation loop := (tap_loop from_slice cfg).

Definition frame_of (e : TapEvent) : list Frame := match e with FrameArrived f _ _ => [f] | _ => [] end.

(** The frames handled before the loop was left. *)
Fixpoint frames_read (t : Tap) (events : list TapEvent) : list Frame :=
  match events with
  | [] => []
  | e :: events => frame_of e ++ (if (step t e).2 then frames_read (step t e).1 events else [])
  end.

(** The parser and the capture after some data, whoever listens. *)
Definition parse_all (p : SseParser) (chunks : list (list ascii)) : SseParser :=
  foldl (λ p data, (parser_push from_slice p data).2) p chunks.

Lemma parse_all_app p a b : parse_all p (a ++ b) = parse_all (parse_all p a) b.
Proof. apply foldl_app. Qed.

Definition reader (t : Tap) : option SseParser * UsageCaptureBuffer := (tp_sse t, tp_capture t).

Definition read_chunks (r : option SseParser * UsageCaptureBuffer) (chunks : list (list ascii)) :
    option SseParser * UsageCaptureBuffer :=
  match r.1 with
  | Some p => (Some (parse_all p chunks), r.2)
  | None => (None, capture_all r.2 chunks)
  end.

Lemma read_chunks_app r a b : read_chunks r (a ++ b) = read_chunks (read_chunks r a) b.
Proof.
  destruct r as [[p|] u]; unfold read_chunks; cbn [fst snd]; [by rewrite parse_all_app|].
  unfold capture_all. by rewrite foldl_app.
Qed.

Lemma read_chunks_nil r : read_chunks r [] = r.
Proof. by destruct r as [[p|] u]. Qed.

Lemma on_data_reader data clock t : reader (on_data from_slice cfg data clock t) = read_chunks (reader t) [data].
Proof.
  unfold on_data, reader, read_chunks. cbn [fst snd]. destruct (tp_sse t) as [p|]; [|done].
  unfold parse_all. cbn [foldl]. by destruct (parser_push _ _ _).
Qed.

Lemma step_reader t e : reader (step t e).1 = read_chunks (reader t) (omap data_ref (frame_of e)).
Proof.
  destruct e as [now|f accepted clock| |error accepted|accepted]; cbn [tap_step frame_of].
  - destruct (is_none _); by rewrite read_chunks_nil.
  - unfold on_frame. set (t1 := match data_ref f with Some data => _ | None => _ end).
    assert (reader t1 = read_chunks (reader t) (omap data_ref [f])) as H1.
    { unfold t1. destruct f as [data|]; cbn [data_ref omap list_omap]; [apply on_data_reader|by rewrite read_chunks_nil]. }
    cbn [fst]. rewrite -H1. by destruct (tp_preflight_complete t1); cbn [tp_disconnected_at set_tp_read_deadline];
      destruct (is_none (tp_disconnected_at t1)) eqn:E; destruct accepted; unfold send;
      cbn [tp_disconnected_at set_tp_read_deadline andb]; rewrite ?E.
  - by rewrite read_chunks_nil.
  - rewrite read_chunks_nil. unfold send. by destruct (_ && _).
  - rewrite read_chunks_nil. unfold send. by destruct (_ && _).
Qed.

Lemma loop_reader events t :
  reader (loop t events).1 = read_chunks (reader t) (omap data_ref (frames_read t events)).
Proof.
  revert t. induction events as [|e events IH]; intros t; cbn [tap_loop frames_read]; [by rewrite read_chunks_nil|].
  rewrite omap_app read_chunks_app -step_reader. destruct (step t e) as [t' []]; cbn [fst snd]; [apply IH|].
  by rewrite read_chunks_nil.
Qed.

(** *** What the client received *)
Definition error_of (e : TapEvent) : list string :=
  match e with BodyFailed error true => [error] | DeadlineReached true => ["upstream body read deadline exceeded"] | _ => [] end.

Definition sent_to_client (sent : list (Frame + string)) (fs : list Frame) (errors : list string) : Prop :=
  sent = map inl fs ++ map inr errors.

Lemma on_data_client data clock t :
  tp_sent (on_data from_slice cfg data clock t) = tp_sent t
  ∧ tp_disconnected_at (on_data from_slice cfg data clock t) = tp_disconnected_at t.
Proof. unfold on_data. destruct (tp_sse t); [|done]. by destruct (parser_push _ _ _). Qed.

Lemma send_effect item accepted t :
  tp_sent (send item accepted t) = tp_sent t ++ (if accepted && is_none (tp_disconnected_at t) then [item] else [])
  ∧ tp_disconnected_at (send item accepted t) = tp_disconnected_at t.
Proof. unfold send. destruct (_ && _); [done|]. by rewrite app_nil_r. Qed.

(** A round hands over the frame it read while the client is there, and nothing later. *)
Record step_sent (t t' : Tap) (e : TapEvent) (go_on : bool) (fs : list Frame) (errors : list string) : Prop := {
  st_sent : tp_sent t' = tp_sent t ++ map inl fs ++ map inr errors;
  st_prefix : fs `prefix_of` frame_of e;
  st_errors : (length errors <= 1)%nat ∧ (errors ≠ [] → go_on = false);
  st_gone : is_some (tp_disconnected_at t) → fs = [] ∧ errors = [] ∧ is_some (tp_disconnected_at t');
  st_here : tp_disconnected_at t' = None → fs = frame_of e
}.

Lemma error_sent t e kind error accepted :
  frame_of e = [] →
  step_sent t (send (inr error) accepted (set_tp_error (Some (kind, error)) t)) e false []
    (if accepted && is_none (tp_disconnected_at t) then [error] else []).
Proof.
  intros Hf. destruct (send_effect (inr error) accepted (set_tp_error (Some (kind, error)) t)) as [Hs Hd].
  split; rewrite ?Hs ?Hd ?Hf; cbn [map app tp_disconnected_at set_tp_error].
  - by destruct (_ && _).
  - done.
  - by destruct (_ && _); split; cbn; try lia.
  - intros Hg. destruct (tp_disconnected_at t); [|done]. by rewrite andb_false_r.
  - done.
Qed.

Lemma step_sends t e : ∃ fs errors, step_sent t (step t e).1 e (step t e).2 fs errors.
Proof.
  destruct e as [now|f accepted clock| |error accepted|accepted]; cbn [tap_step].
  - exists [], []. destruct (tp_disconnected_at t) as [at_|] eqn:E; cbn [is_none];
      (split; [by rewrite app_nil_r|done|by split; [cbn; lia|]|cbn; rewrite ?E; done|done]).
  - unfold on_frame. set (t1 := match data_ref f with Some data => _ | None => _ end).
    assert (tp_sent t1 = tp_sent t ∧ tp_disconnected_at t1 = tp_disconnected_at t) as [Hs Hd].
    { unfold t1. destruct (data_ref f); [apply on_data_client|done]. }
    set (t2 := if tp_preflight_complete t1 then _ else _).
    assert (tp_sent t2 = tp_sent t ∧ tp_disconnected_at t2 = tp_disconnected_at t) as [Hs2 Hd2].
    { unfold t2. by destruct (tp_preflight_complete t1). }
    clearbody t2. cbn [fst snd]. rewrite Hd2. destruct (tp_disconnected_at t) as [at_|] eqn:E; cbn [is_none].
    + exists [], []. split; rewrite ?Hs2 ?Hd2; [by rewrite app_nil_r|apply prefix_nil|by split; [cbn; lia|]|done|done].
    + destruct (send_effect (inl f) accepted t2) as [H1 H2]. rewrite Hd2 andb_true_r Hs2 in H1.
      set (t3 := send (inl f) accepted t2) in *. clearbody t3. destruct accepted; cbv iota in *.
      * exists [f], []. split; rewrite ?H1 ?H2 ?Hd2 ?E; [done|done|by split; [cbn; lia|]|by intros []|done].
      * assert (tp_sent (note_gone cfg (fc_gone clock) t3) = tp_sent t ++ []) as H3 by exact H1.
        assert (tp_disconnected_at (note_gone cfg (fc_gone clock) t3) = Some (fc_gone clock)) as H4 by reflexivity.
        set (t4 := note_gone cfg (fc_gone clock) t3) in *. clearbody t4.
        exists [], []. split; rewrite ?H3 ?H4 ?E; [done|apply prefix_nil|by split; [cbn; lia|]|by intros []|by intros [=]].
  - exists [], []. split; [by rewrite app_nil_r|done|by split; [cbn; lia|]|done|done].
  - eexists [], _. by apply error_sent.
  - eexists [], _. by apply error_sent.
Qed.

Lemma loop_gone events t :
  is_some (tp_disconnected_at t) →
  tp_sent (loop t events).1 = tp_sent t ∧ is_some (tp_disconnected_at (loop t events).1).
Proof.
  revert t. induction events as [|e events IH]; intros t Hg; cbn [tap_loop]; [done|].
  destruct (step_sends t e) as (fs & errors & [Hs _ _ Hgone _]). destruct (Hgone Hg) as (-> & -> & Hg').
  rewrite app_nil_r in Hs. destruct (step t e) as [t' []]; cbn [fst snd] in *; rewrite -?Hs; [by apply IH|done].
Qed.

Lemma loop_sends events t :
  let t' := (loop t events).1 in
  ∃ fs errors, tp_sent t' = tp_sent t ++ map inl fs ++ map inr errors
    ∧ fs `prefix_of` frames_read t events ∧ (length errors <= 1)%nat ∧ (errors ≠ [] → (loop t events).2 = false)
    ∧ (tp_disconnected_at t' = None → fs = frames_read t events).
Proof.
  revert t. induction events as [|e events IH]; intros t; cbn [tap_loop frames_read].
  - exists [], []. split_and!; [by rewrite app_nil_r|done|cbn; lia|done|done].
  - destruct (step_sends t e) as (fs & errors & [Hs Hp [Hl He] Hg Hh]).
    destruct (step t e) as [t1 []] eqn:Et; cbn [fst snd] in *.
    + assert (errors = []) as -> by (destruct errors; [done|by specialize (He ltac:(done))]).
      destruct (tp_disconnected_at t1) as [at_|] eqn:Ed.
      * destruct (loop_gone events t1 ltac:(by rewrite Ed)) as [Hs1 Hg1]. exists fs, []. rewrite Hs1 Hs.
        split_and!; [done|by apply prefix_app_r|cbn; lia|done|]. intros E. by rewrite E in Hg1.
      * rewrite (Hh eq_refl) in Hs. destruct (IH t1) as (fs1 & errors & Hs1 & Hp1 & Hl1 & He1 & Hh1).
        exists (frame_of e ++ fs1), errors. rewrite Hs1 Hs !map_app /= app_nil_r -!app_assoc.
        split_and!; [done|by apply prefix_app|done|done|]. intros E. by rewrite (Hh1 E).
    + exists fs, errors. rewrite app_nil_r. split_and!; done.
Qed.
End Reading.

(** ** The bill *)
Section Bill.
Context {D : Type} `{Decimal D} (from_slice : list ascii → option Value) (cfg : TapConfig D).

(** What is metered depends on what the reader has parsed or captured only. *)
Definition bill (r : option SseParser * UsageCaptureBuffer) : Usage * bool :=
  match r.1 with
  | Some p =>
      let usage := ob_usage (pa_observation (parser_finish from_slice p).2) in (unwrap_or usage no_usage, is_some usage)
  | None =>
      if capture_is_empty r.2 then (no_usage, false)
      else match extract_usage_from_capture from_slice (tc_api_format cfg) r.2 with
           | Some usage => (usage, true)
           | None => (no_usage, false)
           end
  end.

(** The usage and its being observed, as the telemetry row and the price take them. *)
Definition metered (t : Tap) (now : Z) : Usage * bool :=
  let e := metered_usage from_slice cfg (tap_end from_slice cfg t now) in (te_usage e, te_usage_observed e).

Lemma metered_bill t now :
  tc_is_sse cfg = is_some (tp_sse t) → metered t now = bill (reader t).
Proof.
  unfold metered, metered_usage, tap_end, bill, reader. intros ->. cbn [fst snd].
  destruct (tp_sse t) as [p|]; cbn [is_some negb andb].
  - unfold finish_sse. destruct (parser_finish from_slice p) as [out p']. cbn [snd].
    destruct (pa_terminal_result p') as [[[st k] m]|]; by destruct (tp_disconnected_at t).
  - unfold finish_plain. destruct (opt_filter _ _) as [v|]; [destruct (terminal_status v) as [[st k] m]|];
      destruct (tp_disconnected_at t); cbn; destruct (capture_is_empty (tp_capture t)); cbn; try done;
      by destruct (extract_usage_from_capture _ _ _).
Qed.

Definition not_terminal (v : Value) : Prop := is_terminal_response_event v = false.

(** Once the terminal event has said the usage, no other event changes it. *)
Lemma usage_final o v :
  ob_terminal_usage o = true → not_terminal v →
  ob_usage (observe o v) = ob_usage o ∧ ob_terminal_usage (observe o v) = true.
Proof. unfold observe, not_terminal. intros Ho ->. rewrite Ho. by destruct (event_usage v). Qed.

Lemma usage_final_run es out p :
  ob_terminal_usage (pa_observation p) = true → Forall not_terminal es →
  let p' := (foldl observe_event (out, p) es).2 in
  ob_usage (pa_observation p') = ob_usage (pa_observation p) ∧ ob_terminal_usage (pa_observation p') = true
  ∧ pa_decoder p' = pa_decoder p.
Proof.
  revert out p. induction es as [|v es IH]; intros out p Hp Hes; [done|]. apply Forall_cons in Hes as [Hv Hes].
  cbn [foldl]. pose proof (observe_event_step out p v) as Hs. destruct (observe_event (out, p) v) as [out1 p1].
  destruct Hs as (_ & Hd & Hu & Ht & _). destruct (usage_final _ v Hp Hv) as [Hu' Ht'].
  rewrite Hu' in Hu. rewrite Ht' in Ht. destruct (IH out1 p1 Ht Hes) as (I1 & I2 & I3). by rewrite I1 I3 Hu Hd.
Qed.

Lemma observe_events_final es p :
  ob_terminal_usage (pa_observation p) = true → Forall not_terminal es →
  let p' := (observe_events p es).2 in
  ob_usage (pa_observation p') = ob_usage (pa_observation p) ∧ ob_terminal_usage (pa_observation p') = true
  ∧ pa_decoder p' = pa_decoder p.
Proof.
  intros Hp Hes. unfold observe_events.
  pose proof (usage_final_run es (MkPushOut false false false None) p Hp Hes) as Hr.
  by destruct (foldl observe_event _ es) as [out p'].
Qed.

(** The events still to be read from a decoder, the last ones when the stream ends included. *)
Fixpoint events_left (d : SseDecoder) (chunks : list (list ascii)) : list Value :=
  match chunks with
  | [] => (ResponseEvents.finish from_slice d).1
  | data :: chunks => (push_bytes from_slice d data).1 ++ events_left (push_bytes from_slice d data).2 chunks
  end.

Lemma bill_final chunks p :
  ob_terminal_usage (pa_observation p) = true → Forall not_terminal (events_left (pa_decoder p) chunks) →
  ob_usage (pa_observation (parser_finish from_slice (parse_all from_slice p chunks)).2) = ob_usage (pa_observation p).
Proof.
  revert p. induction chunks as [|data chunks IH]; intros p Hp Hes; cbn [events_left] in Hes.
  - unfold parse_all, parser_finish. cbn [foldl]. destruct (ResponseEvents.finish from_slice (pa_decoder p)) as [es d].
    exact (proj1 (observe_events_final es (set_pa_decoder d p) Hp Hes)).
  - apply Forall_app in Hes as [He Hes]. unfold parse_all. cbn [foldl].
    change (foldl (λ p data, (parser_push from_slice p data).2) (parser_push from_slice p data).2 chunks)
      with (parse_all from_slice (parser_push from_slice p data).2 chunks).
    unfold parser_push. destruct (push_bytes from_slice (pa_decoder p) data) as [es d]. cbn [fst snd] in *.
    destruct (observe_events_final es (set_pa_decoder d p) Hp He) as (Hu & Ht & Hd).
    rewrite IH; [exact Hu|exact Ht|]. by rewrite Hd.
Qed.

(** What two runs read, the second more than the first. *)
Definition settled_before (t : Tap) (more : list Frame) : Prop :=
  ∃ p, tp_sse t = Some p ∧ ob_terminal_usage (pa_observation p) = true
    ∧ Forall not_terminal (events_left (pa_decoder p) [])
    ∧ Forall not_terminal (events_left (pa_decoder p) (omap data_ref more)).

Lemma new_tap_sse events :
  tc_is_sse cfg = is_some (tp_sse (tap_loop from_slice cfg (new_tap cfg) events).1).
Proof.
  pose proof (f_equal fst (loop_reader from_slice cfg events (new_tap cfg))) as Hr. cbn [reader fst] in Hr.
  rewrite Hr. unfold read_chunks, reader. cbn [fst]. cbn [new_tap tp_sse]. by destruct (tc_is_sse cfg).
Qed.

(** C35. The bill does not depend on the client. Two requests for which the gateway reads
    the same frames of the upstream body are metered alike, wherever in the body the one
    client or the other leaves; and when the reader stops early, as it does for a client
    gone after the terminal event of a stream, the bill is the one of the whole stream,
    provided that event carried the usage and what follows it holds no second one. *)
Theorem departure_bills_the_same events events' now now' more :
  let t := (tap_loop from_slice cfg (new_tap cfg) events).1 in
  let t' := (tap_loop from_slice cfg (new_tap cfg) events').1 in
  frames_read from_slice cfg (new_tap cfg) events' = frames_read from_slice cfg (new_tap cfg) events ++ more →
  more = [] ∨ settled_before t more →
  metered t now = metered t' now'.
Proof.
  intros t t' Hf Hmore. rewrite !metered_bill; [|apply new_tap_sse..].
  assert (reader t' = read_chunks from_slice (reader t) (omap data_ref more)) as ->.
  { unfold t, t'. by rewrite !loop_reader Hf omap_app read_chunks_app. }
  destruct Hmore as [->|(p & Hp & Ht & H1 & H2)]; [by rewrite read_chunks_nil|].
  unfold bill, reader, read_chunks. rewrite Hp. cbn [fst snd].
  rewrite (bill_final (omap data_ref more) p Ht H2). by rewrite -(bill_final [] p Ht H1).
Qed.
End Bill.

(** ** Delivery *)
Section Delivery.
Context {D : Type} (from_slice : list ascii → option Value) (cfg : TapConfig D).

(** A stream that has shown nothing valid keeps its first deadline, however many frames it sends. *)
Definition deadline_ok (t : Tap) : Prop :=
  tp_preflight_complete t = false → tp_read_deadline t = tc_first_read_deadline cfg.

Lemma send_deadline item accepted t : deadline_ok t → deadline_ok (send item accepted t).
Proof. unfold send. by destruct (_ && _). Qed.

Lemma on_data_deadline data clock t : deadline_ok t → deadline_ok (on_data from_slice cfg data clock t).
Proof.
  unfold on_data, deadline_ok. destruct (tp_sse t) as [p|]; [|done]. destruct (parser_push from_slice p data) as [out p'].
  cbn. intros H [Ha _]%orb_false_iff. by apply H.
Qed.

Lemma step_deadline t e : deadline_ok t → deadline_ok (tap_step from_slice cfg t e).1.
Proof.
  intros Ht. destruct e as [now|f accepted clock| |error accepted|accepted]; cbn [tap_step].
  - by destruct (is_none _).
  - unfold on_frame. set (t1 := match data_ref f with Some data => _ | None => _ end).
    assert (deadline_ok t1) as H1 by (unfold t1; destruct (data_ref f); [by apply on_data_deadline|done]).
    clearbody t1. set (t2 := if tp_preflight_complete t1 then _ else t1).
    assert (deadline_ok t2) as H2.
    { unfold t2, deadline_ok in *. destruct (tp_preflight_complete t1) eqn:E; cbn [tp_preflight_complete set_tp_read_deadline];
        rewrite E; [done|by intros _; apply H1]. }
    clearbody t2. cbn [fst]. destruct (is_none _); [|done].
    pose proof (send_deadline (inl f) accepted t2 H2) as H3. by destruct accepted.
  - done.
  - by apply send_deadline.
  - by apply send_deadline.
Qed.

Lemma loop_deadline events t : deadline_ok t → deadline_ok (tap_loop from_slice cfg t events).1.
Proof.
  revert t. induction events as [|e events IH]; intros t Ht; cbn [tap_loop]; [done|].
  pose proof (step_deadline t e Ht) as H1. destruct (tap_step from_slice cfg t e) as [t1 []]; [by apply IH|done].
Qed.

(** The client receives the upstream body as it is read: a client that stays gets every
    frame, in its order, one that leaves a beginning of them and nothing after; an error is
    told at most once, after the frames, and ends the reading. A stream that has shown no
    valid event is not given more time by the frames it sends. *)
Theorem client_receives_the_body events :
  let run := tap_loop from_slice cfg (new_tap cfg) events in
  let read := frames_read from_slice cfg (new_tap cfg) events in
  (∃ fs errors, tp_sent run.1 = map inl fs ++ map inr errors ∧ fs `prefix_of` read
    ∧ (length errors <= 1)%nat ∧ (errors ≠ [] → run.2 = false)
    ∧ (tp_disconnected_at run.1 = None → fs = read))
  ∧ (tp_preflight_complete run.1 = false → tp_read_deadline run.1 = tc_first_read_deadline cfg).
Proof.
  split; [exact (loop_sends from_slice cfg events (new_tap cfg))|]. by apply loop_deadline.
Qed.
End Delivery.

(** ** Settling *)

(** What an attempt settled without blame leaves of the books. *)
Record unblamed (s s' : SharedState) : Prop := {
  ub_endpoint : ∀ id t, hv_state (RuntimeHealth.snapshot (ss_endpoint_health s') id t)
                      = hv_state (RuntimeHealth.snapshot (ss_endpoint_health s) id t);
  ub_key : ∀ id t, hv_state (RuntimeHealth.snapshot (ss_upstream_key_health s') id t)
                 = hv_state (RuntimeHealth.snapshot (ss_upstream_key_health s) id t);
  ub_failures : ∀ id, provider_failures s' id = provider_failures s id;
  ub_errors : errors (ss_provider_runtime s') = errors (ss_provider_runtime s)
}.

#[export] Instance unblamed_preorder : PreOrder unblamed.
Proof.
  split; [done|]. intros s1 s2 s3 [A1 B1 C1 D1] [A2 B2 C2 D2].
  split; intros; [by rewrite A2|by rewrite B2|by rewrite C2|by rewrite D2].
Qed.

Lemma settle_endpoint_neutral g now s : unblamed s (settle_endpoint g Neutral now s).
Proof. destruct g as [g|]; [|done]. split; try done. intros. apply health_neutral_state. Qed.
Lemma settle_key_neutral g now s : unblamed s (settle_key g Neutral now s).
Proof. destruct g as [g|]; [|done]. split; try done. intros. apply health_neutral_state. Qed.

Lemma finish_neutral_errors b g now : errors (ProviderRuntime.finish_guard b g GuardNeutral now).2 = errors b.
Proof.
  cbn [ProviderRuntime.finish_guard snd]. unfold ProviderRuntime.finish_neutral.
  destruct (by_provider b !! _); [|done]. by destruct (ProviderRuntime.attempt_token_matches _ _).
Qed.

Lemma settle_provider_neutral g now s : unblamed s (settle_provider g GuardNeutral now s).
Proof.
  destruct g as [g|]; [|done]. split; try done; [|apply finish_neutral_errors].
  intros id. apply provider_neutral_failures.
Qed.

Lemma drop_capacity_unblamed c s : unblamed s (drop_capacity c s).
Proof.
  destruct c as [c|]; [|done]. split; try done.
  - intros id. unfold provider_failures. cbn [drop_capacity ss_provider_runtime set_ss_provider_runtime]. unfold drop_permit, release_capacity.
    destruct (by_provider _ !! _) as [e|] eqn:E; [|done]. rewrite runtime_entry_put. case_decide as Eid; [subst|done].
    by rewrite (runtime_entry_Some _ _ _ E).
  - cbn. unfold drop_permit, release_capacity. by destruct (by_provider _ !! _).
Qed.

Lemma neutral_unblamed s r now : unblamed s (neutral s r now).
Proof.
  unfold neutral. etransitivity; [apply settle_endpoint_neutral|]. etransitivity; [apply settle_key_neutral|].
  etransitivity; [apply settle_provider_neutral|]. apply drop_capacity_unblamed.
Qed.

Lemma drop_reservation_unblamed s r now : unblamed s (drop_reservation s r now).
Proof.
  unfold drop_reservation. etransitivity; [apply drop_capacity_unblamed|]. etransitivity; [apply settle_provider_neutral|].
  etransitivity; [apply settle_endpoint_neutral|]. apply settle_key_neutral.
Qed.

Section Settlement.
Context {D : Type} `{Decimal D} (from_slice : list ascii → option Value) (cfg : TapConfig D).
Context {EntryOrder : HashOrder AffinityKey AffinityEntry} {AvoidOrder : HashOrder AffinityKey AvoidEntry}.

Lemma settle_account_same e now s :
  let s' := (settle_account from_slice cfg e now s).2 in s' = set_ss_quota (ss_quota s') s.
Proof.
  unfold settle_account. destruct (tc_codex_state cfg), (tc_upstream_key_id cfg), (te_http_status e); try by destruct s.
  cbn. destruct (_ || _); [|by destruct s]. by destruct (quota_reset_hint_from_error _ _ _); destruct s.
Qed.

Lemma settle_affinity_same e now s :
  let s' := settle_affinity from_slice cfg e now s in s' = set_ss_affinity (ss_affinity s') s.
Proof.
  unfold settle_affinity. destruct (tc_affinity_identity cfg) as [i|]; [|by destruct s].
  case_bool_decide.
  - destruct (tc_affinity_binding cfg) as [b|]; [|by destruct s].
    destruct (same_target cfg b); [by destruct (ab_confirmed b)|].
    by destruct (tc_affinity_should_migrate cfg); destruct s.
  - by destruct (should_avoid_affinity_immediately _); destruct s.
Qed.

Lemma settle_account_in_flight e now s id :
  in_flight (settle_account from_slice cfg e now s).2 id = in_flight s id.
Proof. by rewrite (settle_account_same e now s). Qed.

Lemma settle_affinity_in_flight e now s id : in_flight (settle_affinity from_slice cfg e now s) id = in_flight s id.
Proof. by rewrite (settle_affinity_same e now s). Qed.

Lemma settle_reservation_in_flight r e clock s id :
  (∀ id, slots_of r id <= in_flight s id <= u32_max) →
  in_flight (settle_reservation from_slice cfg r e clock s) id = in_flight s id - slots_of r id.
Proof.
  intros Hs. unfold settle_reservation. destruct (disconnected e); [by apply neutral_in_flight|].
  set (o := settle_outcome _ _ _ _). set (scope := settle_scope _ _).
  pose proof (λ id, finish_with_scope_in_flight s r o scope (sk_error_ms clock) (sk_circuit_ms clock) id) as Hf.
  destruct (finish_with_scope s r o scope _ _) as [r' s']. cbn [fst snd] in Hf.
  assert (∀ id, slots_of r' id = slots_of r id) as Hr by (intros id'; unfold slots_of; by rewrite (proj2 (Hf id'))).
  rewrite drop_reservation_in_flight; [by rewrite (proj1 (Hf id)) Hr|]. intros id'. by rewrite Hr (proj1 (Hf id')).
Qed.

(** However a body ends - complete, broken, timed out, abandoned by its client, or with
    a price that cannot be computed - settling its attempt gives the slot the reservation
    holds back to its provider, once, and takes none from another. *)
Theorem settlement_returns_slot s permit r e clock id :
  (∀ id, slots_of r id <= in_flight s id <= u32_max) →
  in_flight (finalize_tap from_slice cfg s permit r e clock).2 id = in_flight s id - slots_of r id.
Proof.
  intros Hs. unfold finalize_tap. destruct (evaluate_price _ _ _) as [pricing|]; [|by apply drop_reservation_in_flight].
  set (e' := metered_usage _ _ e).
  pose proof (λ id, settle_account_in_flight e' (sk_now_ms clock) s id) as Ha.
  destruct (settle_account from_slice cfg e' (sk_now_ms clock) s) as [forbidden s1]. cbn [snd] in *.
  rewrite settle_affinity_in_flight settle_reservation_in_flight; [by rewrite Ha|]. intros id'. by rewrite Ha.
Qed.

(** A run the client has left is settled as one. *)
Lemma tap_end_disconnected t now :
  is_some (tp_disconnected_at t) → disconnected (metered_usage from_slice cfg (tap_end from_slice cfg t now)) = true.
Proof.
  intros Hd. unfold tap_end. destruct (tp_disconnected_at t); [|done]. cbn [is_some]. unfold metered_usage.
  destruct (_ && _); [|done]. by destruct (extract_usage_from_capture _ _ _).
Qed.

(** A client that leaves puts no blame on the upstream: whatever the reader met
    afterwards - a broken body, a timeout, an error event - every circuit of an endpoint or
    a key stays as it was, no failure is counted against a provider and none enters the
    error timeline; the quota is touched only by what an OAuth account announced itself. *)
Theorem disconnect_blames_nobody s permit r t now clock :
  is_some (tp_disconnected_at t) →
  let s' := (finalize_tap from_slice cfg s permit r (tap_end from_slice cfg t now) clock).2 in
  unblamed s s' ∧ (tc_codex_state cfg = false → ss_quota s' = ss_quota s).
Proof.
  intros Hd s'. unfold s', finalize_tap. pose proof (tap_end_disconnected t now Hd) as He.
  set (e := metered_usage from_slice cfg (tap_end from_slice cfg t now)) in *.
  assert (∀ q, unblamed s (set_ss_quota q s)) as Hq by done.
  assert (∀ s a, unblamed s (set_ss_affinity a s)) as Ha by done.
  destruct (evaluate_price _ _ _) as [pricing|].
  - pose proof (settle_account_same e (sk_now_ms clock) s) as Hs. unfold settle_account in *.
    destruct (tc_codex_state cfg) eqn:Ec.
    + set (acc := match tc_upstream_key_id cfg with Some _ => _ | None => _ end) in *.
      destruct acc as [forbidden s1]. cbn [snd] in *. split; [|done].
      rewrite settle_affinity_same. etransitivity; [|apply Ha]. unfold settle_reservation. rewrite He.
      etransitivity; [|apply neutral_unblamed]. rewrite Hs. apply Hq.
    + cbn [snd]. unfold settle_reservation. rewrite He. rewrite settle_affinity_same. split.
      * etransitivity; [apply neutral_unblamed|apply Ha].
      * intros _. cbn [ss_quota set_ss_affinity]. by destruct r as [? [c|] [p|] [en|] [k|]].
  - cbn [snd]. split; [apply drop_reservation_unblamed|]. intros _. by destruct r as [? [c|] [p|] [en|] [k|]].
Qed.
End Settlement.

(** An upstream that stalls is a failure of its provider for a client that waits, and a
    success for the session of a client that gives up first: the status of the answer's
    head decides, whatever became of the body. *)
Lemma abandoned_stall_counts_as_success {D} (from_slice : list ascii → option Value) (cfg : TapConfig D) gone now :
  tc_is_sse cfg = false → tc_http_status cfg = Some 200 → from_slice [] = None →
  let scope events := settle_scope from_slice
    (metered_usage from_slice cfg (tap_end from_slice cfg (tap_loop from_slice cfg (new_tap cfg) events).1 now)) in
  scope [ClientGone gone; DeadlineReached false] = ScopeSuccess ∧ scope [DeadlineReached true] = ScopeProvider.
Proof.
  intros Hp Hs Hn. set (d := MAX_EVENT_BYTES) in *. unfold new_tap, tap_end, metered_usage. rewrite Hp. cbn -[new_capture].
  unfold finish_plain. cbn -[new_capture]. rewrite !Hn. cbn -[new_capture]. rewrite Hs. done.
Qed.

(** ** Instances *)
Section Instances.
Definition wt_done : Value :=
  Object [("response", Object [("usage", wu_usage)]); ("type", String "response.completed")].
Definition wt_from_slice (bytes : list ascii) : option Value :=
  if String.eqb (of_chars bytes) "E" then Some wt_done else None.
Definition wt_ping : Frame := DataFrame (chars ":" ++ [nl; nl]).

Definition wt_cfg : TapConfig Z :=
  MkTapConfig Z 1 true (Some 1) (Some 100) (Some 10) Responses Responses (Some "m") (Some 200) (Some 5) 0 true None
    1048576 32768 (Plan.wp_provider 1) None None false false 60000000000 60000000000 None None None None.

Definition wt_clock : FrameClock := MkFrameClock 1000000 1000000 1000000 1000000.

(** The client leaves after the terminal event; the one that stays gets a comment more. *)
Definition wt_leaves : list TapEvent := [FrameArrived error_frame true wt_clock; ClientGone 2000000].
Definition wt_stays : list TapEvent :=
  [FrameArrived error_frame true wt_clock; FrameArrived wt_ping true wt_clock; BodyEnded].

Lemma departure_bills_the_same_witness :
  let run events := (tap_loop wt_from_slice wt_cfg (new_tap wt_cfg) events).1 in
  metered wt_from_slice wt_cfg (run wt_leaves) 3 = metered wt_from_slice wt_cfg (run wt_stays) 4
  ∧ metered wt_from_slice wt_cfg (run wt_leaves) 3 = (MkUsage 70 7 30 0 0, true).
Proof.
  split; [|vm_compute; reflexivity].
  apply (departure_bills_the_same wt_from_slice wt_cfg wt_leaves wt_stays 3 4 [wt_ping]); [vm_compute; reflexivity|].
  right. eexists. split; [vm_compute; reflexivity|].
  split; [vm_compute; reflexivity|]. split; vm_compute; apply Forall_nil; exact I.
Defined.

Definition wt_reservation : UpstreamAttemptReservation :=
  MkReservation (Some (1, 100, 10)) (Some (MkPermit 1)) None None None.
Definition wt_busy : SharedState :=
  set_ss_provider_runtime (put_runtime 1 (set_pr_in_flight 1 default_runtime) new_runtime_book) wv_fresh.
Definition wt_settle : SettleClock := MkSettleClock 10 5 10 10 5 10.
Definition wt_end : TapEnd :=
  tap_end wt_from_slice wt_cfg (tap_loop wt_from_slice wt_cfg (new_tap wt_cfg) wt_leaves).1 3.

Lemma settlement_returns_slot_witness :
  in_flight wt_busy 1 = 1
  ∧ in_flight (finalize_tap (H := whole) (EntryOrder := wa_entries) (AvoidOrder := wa_avoided) wt_from_slice wt_cfg
                 wt_busy true wt_reservation wt_end wt_settle).2 1 = 0.
Proof.
  split; [vm_compute; reflexivity|].
  rewrite (settlement_returns_slot wt_from_slice wt_cfg wt_busy true wt_reservation wt_end wt_settle 1).
  - vm_compute. reflexivity.
  - intros id. unfold slots_of, in_flight, wt_busy. cbn [ss_provider_runtime set_ss_provider_runtime].
    rewrite runtime_entry_put. cbn [rv_capacity wt_reservation cp_provider_id].
    destruct (Z.eqb_spec 1 id) as [<-|Hne]; [vm_compute; split; discriminate|]. by rewrite decide_False.
Defined.

Lemma disconnect_blames_nobody_witness :
  unblamed wt_busy
    (finalize_tap (H := whole) (EntryOrder := wa_entries) (AvoidOrder := wa_avoided) wt_from_slice wt_cfg
       wt_busy true wt_reservation wt_end wt_settle).2.
Proof.
  apply (disconnect_blames_nobody wt_from_slice wt_cfg wt_busy true wt_reservation
           (tap_loop wt_from_slice wt_cfg (new_tap wt_cfg) wt_leaves).1 3 wt_settle).
  vm_compute. exact I.
Defined.
End Instances.
