(* ===== verification/Prepare.v ===== *)
(** * Prepare: what one attempt sends upstream

    Models how [proxy.rs] makes the body, the target and the headers of one attempt from
    the client's request: conversion or renaming, the normal form of OAuth accounts, the
    request for usage, the provider's overrides, the filter of known encrypted content and,
    at the dispatch boundary, the Responses Lite contract. Errors are given by status and
    code; the texts of messages that only the client reads are not modelled. The functions
    of crates are the fields of [Libraries]. *)
From Stdlib Require Import Ascii String.
From S2P Require Import Prelude Text Json Types ResponseEvents Affinity Pricing Snapshot Routing Plan Recovery OpenAi Headers RequestOverrides UpstreamUrl ViaChatRequest CodexRequests.

Local Open Scope string_scope.
Local Open Scope list_scope.
Local Open Scope Z_scope.

(** serde_json, hyper's header values and names, hyper's URIs and SHA-256. *)
Record Libraries := MkLibraries {
  from_slice : list ascii → option Value;
  to_vec : Value → option string;
  header_of_body : list ascii → option OpenAiHeader;
  header_value : string → bool;
  to_str : string → option string;
  header_name : string → option string;
  parse_uri : string → option Uri;
  parse_path_and_query : string → option PathAndQuery;
  from_parts : Uri → option Uri;
  sha256 : string → Digest
}.

(** The client's request as the handler holds it; [rq_id] is the id the templates of
    overrides expand to, [rq_post] tells whether the method is POST. *)
Record ClientRequest := MkRequest {
  rq_body : string;
  rq_model : string;
  rq_info : OpenAiRequestInfo;
  rq_headers : HeaderMap;
  rq_path_and_query : option PathAndQuery;
  rq_id : string;
  rq_affinity : option AffinityIdentity;
  rq_inject_include_usage : bool;
  rq_post : bool
}.

(** An error that ends the request; all but the renaming give up the reservation first. *)
Record Fatal := MkFatal { ft_status : Z; ft_code : string }.

(** The body, the context of a conversion, and whether an OAuth client wants a stream. *)
Record PreparedBody := MkPrepared {
  pb_body : string;
  pb_context : option ConversionContext;
  pb_downstream_stream : option bool
}.

Definition is_codex_oauth (provider : UpstreamProvider) : bool :=
  String.eqb (up_provider_type provider) OAUTH_PROVIDER_TYPE.

(** [From<ApiFormat> for RequestOverrideTarget] *)
Definition override_target (f : ApiFormat) : RequestOverrideTarget :=
  match f with ChatCompletions => TargetChatCompletions | Responses => TargetResponses end.

Section Prepare.
Context {D : Type} (libs : Libraries) (rq : ClientRequest) (resolved : ResolvedUpstream D).

Definition parse (body : string) : option Value := from_slice libs (chars body).

Definition convert_body : (string * option ConversionContext) + Fatal :=
  if is_responses_via_chat (ru_protocol resolved) then
    match responses_request_to_chat parse (to_vec libs) (rq_body rq) (ru_upstream_model resolved) (rq_affinity rq) with
    | inl (body, context) => inl (body, Some context)
    | inr _ => inr (MkFatal 400 "responses_via_chat_request_failed")
    end
  else if String.eqb (ru_upstream_model resolved) (rq_model rq) then inl (rq_body rq, None)
  else match rewrite_model_name parse (to_vec libs) (rq_body rq) (ru_upstream_model resolved) with
       | inl body => inl (body, None)
       | inr _ => inr (MkFatal 400 "invalid_model")
       end.

Definition normalize_body (body : string) : (string * option bool) + Fatal :=
  if is_codex_oauth (ru_provider resolved) then
    match normalize_responses_request (from_slice libs) (to_vec libs) (chars body) (ru_upstream_model resolved) with
    | inl (body, downstream_stream) => inl (body, Some downstream_stream)
    | inr _ => inr (MkFatal 400 "codex_request_normalization_failed")
    end
  else inl (body, None).

(** An error of [ensure_include_usage] leaves the body as it is. *)
Definition request_usage (body : string) : string :=
  if should_inject_include_usage (pp_upstream_api_format (ru_protocol resolved)) (rq_info rq)
       (up_supports_include_usage (ru_provider resolved)) (rq_inject_include_usage rq)
  then match ensure_include_usage (header_of_body libs (chars body)) (chars body) with
       | inl body => of_chars body
       | inr _ => body
       end
  else body.

Definition override_body (body : string) : string + Fatal :=
  match apply_body_overrides parse (to_vec libs) (up_request_overrides (ru_provider resolved))
          (override_target (pp_upstream_api_format (ru_protocol resolved))) body (rq_id rq) with
  | inl body => inl body
  | inr _ => inr (MkFatal 500 "request_override_failed")
  end.

(** An override may ask an OAuth account for the tier [fast]. *)
Definition fast_tier (body : string) : string :=
  if is_codex_oauth (ru_provider resolved) then
    match parse body with
    | Some (Object root) =>
        if str_is (get_str "service_tier" (Object root)) ["fast"] then
          unwrap_or (to_vec libs (Object (assoc_insert "service_tier" (String "priority") root))) body
        else body
    | _ => body
    end
  else body.

Definition prepare_body : PreparedBody + Fatal :=
  match convert_body with
  | inr e => inr e
  | inl (body, context) =>
      match normalize_body body with
      | inr e => inr e
      | inl (body, downstream_stream) =>
          match override_body (request_usage body) with
          | inr e => inr e
          | inl body => inl (MkPrepared (fast_tier body) context downstream_stream)
          end
      end
  end.

(** Items known to be rejected are left out of a native request. *)
Definition filter_body (recovery : RequestRecovery) (book : RecoveryBook) (now_ms : Z) (body : string)
    : string * RequestRecovery * RecoveryBook :=
  if is_responses_via_chat (ru_protocol resolved) then (body, recovery, book)
  else filter_known (sha256 libs) parse (to_vec libs) recovery book body now_ms.

Definition attempt_uri : Uri + string :=
  target_uri (parse_uri libs) (parse_path_and_query libs) (from_parts libs) (ue_base_url (ru_endpoint resolved))
    (upstream_path_and_query (parse_path_and_query libs) (rq_path_and_query rq) (ru_protocol resolved)).

(** The secret is the key's, or the access token of an OAuth account. *)
Definition attempt_headers (auth : option PreparedCodexAuth) (body : string) : HeaderMap + Fatal :=
  let secret := match auth with Some auth => ca_access_token auth | None => uk_secret (ru_key resolved) end in
  let headers := build_upstream_headers (header_value libs) (rq_headers rq) (Z.of_nat (String.length body)) secret in
  let headers := match auth with
                 | Some auth => apply_codex_headers (header_value libs) (to_str libs) headers auth
                 | None => headers
                 end in
  match apply_header_overrides (header_name libs) (header_value libs) (up_request_overrides (ru_provider resolved))
          (override_target (pp_upstream_api_format (ru_protocol resolved))) headers (rq_id rq) with
  | inl headers => inl headers
  | inr _ => inr (MkFatal 500 "request_override_failed")
  end.
End Prepare.

(** ** The dispatch boundary *)

Definition LITE_HEADER : string := "x-openai-internal-codex-responses-lite".

(** responses_lite.rs. An error is told as a failed request. *)
Definition normalize_http_body (libs : Libraries) (headers : HeaderMap) (body : string)
    : (HeaderMap * string) + string :=
  if negb (lite_enabled (omap (to_str libs) (hget_all LITE_HEADER headers))) then inl (headers, body)
  else match from_slice libs (chars body) with
       | Some (Object root) =>
           match to_vec libs (Object (normalize_object root)) with
           | None => inr "json encode failed"
           | Some body => inl (hinsert "content-length" (show_Z (Z.of_nat (String.length body))) headers, body)
           end
       | _ => inr "invalid Responses Lite request"
       end.
