(* ===== verification/AttemptLoop.v ===== *)
(** * AttemptLoop: the attempts of one request

    Models the loop of [proxy_openai_inner] in [proxy.rs] over the attempts of a plan, from
    the fresh budget to the response: which targets are passed over, what is reserved and
    sent, the replay for an expired OAuth token, the one retry without rejected encrypted
    content, the failures that move on to the next target and what each leaves in the books,
    and the response handed to the client. The loop is a computation over its variables
    that may leave an attempt, the loop or the handler. What is not under the gateway's
    control in one attempt - clocks, the upstream, the token service, the other requests
    that touch the shared books while it waits - is a record of the attempt. Error texts,
    traces and counters are not modelled. *)
From Stdlib Require Import Ascii String.
From S2P Require Import Prelude Text Json ProbeProtocol Resilience Types RuntimeHealth ProviderRuntime Quota KeyRotation Selector Affinity ResponseEvents Recovery Pricing Snapshot RoutingAvailability Routing Plan Reservation Slots OpenAi Headers RequestOverrides UpstreamUrl ViaChatRequest ViaChatStream CodexRequests Relay Tap Prepare Computation.

Local Open Scope string_scope.
Local Open Scope list_scope.
Local Open Scope Z_scope.

Definition CODEX_NON_STREAM_MAX_BYTES : Z := 16 * 1024 * 1024.

(** ** What the upstream answers *)
Record Response := MkResponse { rs_status : Z; rs_headers : HeaderMap; rs_body : ReplayIncomingBody }.

Inductive UpstreamDispatchError := RequestError (message : string) | DispatchTimeout.

(** The settings of the process the loop reads; durations in nanoseconds. *)
Record Settings := MkSettings {
  st_upstream_request_timeout : Z;
  st_timeout_text : string;
  st_rate_limit_fallback_cooldown : Z;
  st_max_request_bytes : Z;
  st_stream_preflight_timeout : Z;
  st_stream_preflight_max_bytes : Z;
  st_usage_capture_bytes : Z;
  st_usage_capture_tail_bytes : Z
}.

Definition dispatch_error_to_http (settings : Settings) (error : UpstreamDispatchError) : Z * string * string :=
  match error with
  | RequestError message => (502, "upstream_request_error", message)
  | DispatchTimeout => (504, "upstream_timeout", "upstream request timeout after " +:+ st_timeout_text settings)
  end.

Definition provider_timeout (settings : Settings) (provider : UpstreamProvider) : Z :=
  match up_request_timeout_ms provider with Some ms => ns_of_ms ms | None => st_upstream_request_timeout settings end.

(** The header as text, when it is visible ASCII. *)
Definition text_header (libs : Libraries) (h : HeaderMap) (name : string) : option string :=
  opt_bind (hget name h) (to_str libs).

Definition is_event_stream (libs : Libraries) (h : HeaderMap) : bool :=
  is_some_and (text_header libs h "content-type") (Text.contains "text/event-stream").

(** ** One attempt's surroundings *)

(** The places the loop reads the wall clock, the monotonic clock, and waits at. *)
Inductive Moment :=
| CheckEndpoint | CheckKey | CheckProvider | CheckQuota | Reserving | Dropping | Filtering | Timeline | Circuits
| SessionNote | Replayed | Learning | Observing | Cooling | RetryAfter | Deferring | PlanRetry.
Inductive Instant := LoopTop | BeforeReplay | BeforeRecovery | BeforeRetry | Streaming | FirstRead | Preflight.
Inductive Await := Backoff (k : nat) | Authorizing (k : nat) | Sending (k : nat) | PeekingRejection | PeekingUsage
| MarkingAccount | Preflighting | Collecting.

Record CodexAuthError := MkAuthError { au_status : Z; au_code : string; au_message : string }.

(** [aw_others] is what other requests do to the books while the loop waits; [aw_response k]
    answers the [k]-th request of the attempt, [aw_auth k] the [k]-th question for a token;
    [aw_polls] counts the frames that arrive within the time a peek has. *)
Record AttemptWorld := MkWorld {
  aw_ms : Moment → Z;
  aw_at : Instant → Z;
  aw_timing : nat → timing;
  aw_others : Await → SharedState * RecoveryBook → SharedState * RecoveryBook;
  aw_auth : nat → PreparedCodexAuth + CodexAuthError;
  aw_response : nat → Uri → HeaderMap → string → Response + UpstreamDispatchError;
  aw_polls : Await → nat
}.

Record AttemptFailure := MkFailure {
  af_target : option (Z * Z * Z);
  af_status : Z;
  af_error_type : string;
  af_error_message : string
}.

(** ** What the handler answers *)

(** The body handed to the reader task: as it comes, through the stream converter, whole, or
    collected before the client is answered. *)
Inductive RelayBody :=
| RelayPlain (b : ReplayIncomingBody)
| RelayConverted (b : ReplayIncomingBody) (x : ConversionContext)
| RelayWhole (text : string)
| RelayCollected (b : ReplayIncomingBody).

Section Loop.
Context {D : Type}.

(** [er_logged] tells whether the error enters the request log, [er_retry_after] the header. *)
Inductive Reply :=
| ErrorReply (er_status : Z) (er_code : string) (er_logged : bool) (er_retry_after : option Z)
| RelayReply (status : Z) (headers : HeaderMap) (body : RelayBody) (cfg : TapConfig D) (r : UpstreamAttemptReservation).

(** [continue], [break] and [return]. *)
Inductive Exit := Next | Leave | Answer (reply : Reply).

(** The variables of the loop. [lp_sent] lists the targets requests were sent to - its length
    is [attempts_sent] - and [lp_reauth] the accounts to be marked for a new login. *)
Record LoopState := MkLoop {
  lp_shared : SharedState;
  lp_book : RecoveryBook;
  lp_recovery : RequestRecovery;
  lp_budget : AttemptBudget;
  lp_exclusions : AttemptExclusions;
  lp_last_failure : option AttemptFailure;
  lp_faulted : gset Z;
  lp_sent : list (Z * Z * Z);
  lp_reauth : list Z
}.

Definition set_lp_shared v s := MkLoop v (lp_book s) (lp_recovery s) (lp_budget s) (lp_exclusions s) (lp_last_failure s) (lp_faulted s) (lp_sent s) (lp_reauth s).
Definition set_lp_book v s := MkLoop (lp_shared s) v (lp_recovery s) (lp_budget s) (lp_exclusions s) (lp_last_failure s) (lp_faulted s) (lp_sent s) (lp_reauth s).
Definition set_lp_recovery v s := MkLoop (lp_shared s) (lp_book s) v (lp_budget s) (lp_exclusions s) (lp_last_failure s) (lp_faulted s) (lp_sent s) (lp_reauth s).
Definition set_lp_budget v s := MkLoop (lp_shared s) (lp_book s) (lp_recovery s) v (lp_exclusions s) (lp_last_failure s) (lp_faulted s) (lp_sent s) (lp_reauth s).
Definition set_lp_exclusions v s := MkLoop (lp_shared s) (lp_book s) (lp_recovery s) (lp_budget s) v (lp_last_failure s) (lp_faulted s) (lp_sent s) (lp_reauth s).
Definition set_lp_last_failure v s := MkLoop (lp_shared s) (lp_book s) (lp_recovery s) (lp_budget s) (lp_exclusions s) v (lp_faulted s) (lp_sent s) (lp_reauth s).
Definition set_lp_faulted v s := MkLoop (lp_shared s) (lp_book s) (lp_recovery s) (lp_budget s) (lp_exclusions s) (lp_last_failure s) v (lp_sent s) (lp_reauth s).
Definition set_lp_sent v s := MkLoop (lp_shared s) (lp_book s) (lp_recovery s) (lp_budget s) (lp_exclusions s) (lp_last_failure s) (lp_faulted s) v (lp_reauth s).
Definition set_lp_reauth v s := MkLoop (lp_shared s) (lp_book s) (lp_recovery s) (lp_budget s) (lp_exclusions s) (lp_last_failure s) (lp_faulted s) (lp_sent s) v.

(** *** Computations over the variables *)
Notation M := (comp LoopState Exit).

(** An operation of the shared books, and one that only changes them. *)
Definition on_shared {A} (f : SharedState → A * SharedState) : M A :=
  λ s, let '(a, shared) := f (lp_shared s) in (inl a, set_lp_shared shared s).
Definition update_shared (f : SharedState → SharedState) : M unit := λ s, (inl tt, set_lp_shared (f (lp_shared s)) s).
End Loop.
Arguments Reply : clear implicits.
Arguments Exit : clear implicits.

Local Open Scope loop_scope.

(** ** Reasoning about the computations *)
Section Logic.
Context {D : Type}.
Notation M := (comp LoopState (Exit D)).

Lemma keeps_update_shared {X} (f : LoopState → X) g :
  (∀ s, f (set_lp_shared (g (lp_shared s)) s) = f s) → keeps f (update_shared (D := D) g).
Proof. done. Qed.
Lemma keeps_on_shared {A X} (f : LoopState → X) (g : SharedState → A * SharedState) :
  (∀ s, f (set_lp_shared (g (lp_shared s)).2 s) = f s) → keeps f (on_shared (D := D) g).
Proof. intros H s. unfold on_shared. specialize (H s). by destruct (g (lp_shared s)). Qed.


Lemma stays_on_shared {A} (f : SharedState → A * SharedState) : stays (E := Exit D) (on_shared f).
Proof. intros s e. unfold on_shared. by destruct (f (lp_shared s)). Qed.
Lemma stays_update_shared f : stays (E := Exit D) (update_shared f).
Proof. done. Qed.
End Logic.

#[export] Hint Resolve stays_on_shared stays_update_shared : stays.

(** ** The loop *)
Section Attempt.
Context {D : Type}.
Context (libs : Libraries) (parse_http_date parse_rfc3339 : string → option Z) (blake3 : list Z → list Z).
Context {EntryOrder : HashOrder AffinityKey AffinityEntry} {AvoidOrder : HashOrder AffinityKey AvoidEntry}.
Context {SessionOrder : HashOrder string Session} (set_order : gset Digest → list Digest).
Context (settings : Settings) (rq : ClientRequest) (api_key : ApiKeyAuth) (start : Z).
Context (requested_effort : option string).
Context (plan : UpstreamPlan D) (affinity_binding : option AffinityBinding).

Notation M := (comp LoopState (Exit D)).
Notation Reply := (Reply D).

(** *** Steps *)
Definition others (w : AttemptWorld) (a : Await) : M unit :=
  modify (λ s, let '(shared, book) := aw_others w a (lp_shared s, lp_book s) in set_lp_book book (set_lp_shared shared s)).

Definition target_of (resolved : ResolvedUpstream D) : Z * Z * Z :=
  (up_id (ru_provider resolved), ue_id (ru_endpoint resolved), uk_id (ru_key resolved)).

(** Eligibility before the backoff; the quota is asked last. *)
Definition eligible (resolved : ResolvedUpstream D) (w : AttemptWorld) : M bool :=
  let* s := gets lp_shared in
  if hv_available (RuntimeHealth.snapshot (ss_endpoint_health s) (ue_id (ru_endpoint resolved)) (aw_ms w CheckEndpoint))
     && hv_available (RuntimeHealth.snapshot (ss_upstream_key_health s) (uk_id (ru_key resolved)) (aw_ms w CheckKey))
     && pv_available (ProviderRuntime.snapshot (ss_provider_runtime s) (ru_provider resolved) (aw_ms w CheckProvider))
  then on_shared (λ s, let '(available, quota) := is_available (ss_quota s) (uk_id (ru_key resolved)) (aw_ms w CheckQuota) in
                       (available, set_ss_quota quota s))
  else ret false.

(** [budget.begin().await]: the [k]-th of the attempt. *)
Definition begin_budget (w : AttemptWorld) (k : nat) : M bool :=
  let* b := gets lp_budget in
  let '(granted, b) := begin b (aw_timing w k) in
  modify (set_lp_budget b) ;; others w (Backoff k) ;; ret granted.

(** Whether the budget lets this provider be asked once more. *)
Definition may_resend (resolved : ResolvedUpstream D) (w : AttemptWorld) (i : Instant) : M bool :=
  let* b := gets lp_budget in
  ret (Resilience.available b (aw_at w i)
       && provider_available b (up_id (ru_provider resolved)) (up_max_attempts (ru_provider resolved))).

(** [note_send] and the dispatch: the [k]-th request of the attempt. *)
Definition send (resolved : ResolvedUpstream D) (w : AttemptWorld) (k : nat) (uri : Uri) (headers : HeaderMap)
    (body : string) : M (Response + UpstreamDispatchError) :=
  modify (λ s, set_lp_sent (lp_sent s ++ [target_of resolved])
                 (set_lp_budget (note_send (lp_budget s) (up_id (ru_provider resolved))) s)) ;;
  others w (Sending k) ;;
  ret (match (if rq_post rq && ends_with "/responses" (uri_path uri) then normalize_http_body libs headers body
              else inl (headers, body)) with
       | inl (headers, body) => aw_response w k uri headers body
       | inr error => inr (RequestError error)
       end).

(** The settlements of a reservation. *)
Definition settle_neutral (r : UpstreamAttemptReservation) (w : AttemptWorld) : M unit :=
  update_shared (λ s, neutral s r (aw_ms w Circuits)).
Definition settle (r : UpstreamAttemptReservation) (o : AttemptOutcome) (w : AttemptWorld) : M unit :=
  update_shared (λ s, Reservation.finish s r o (aw_ms w Timeline) (aw_ms w Circuits)).
Definition settle_with_scope (r : UpstreamAttemptReservation) (o : AttemptOutcome) (scope : FailureScope)
    (w : AttemptWorld) : M UpstreamAttemptReservation :=
  on_shared (λ s, finish_with_scope s r o scope (aw_ms w Timeline) (aw_ms w Circuits)).

(** An error that ends the request; the renaming drops its reservation. *)
Definition fatal {A} (r : UpstreamAttemptReservation) (e : Fatal) (w : AttemptWorld) : M A :=
  (if String.eqb (ft_code e) "invalid_model" then update_shared (λ s, drop_reservation s r (aw_ms w Dropping))
   else settle_neutral r w) ;;
  leave (Answer (ErrorReply (ft_status e) (ft_code e) true None)).

Definition retry_after_header (headers : HeaderMap) (w : AttemptWorld) : M Z :=
  let* retry_at := on_shared (λ s, plan_retry_at s plan (aw_ms w PlanRetry)) in
  ret (retry_after_seconds parse_http_date (text_header libs headers) retry_at (aw_ms w RetryAfter)).

(** A failure of the target: it is noted, the session told when its provider has no other
    target left, and the loop goes on while some target is left. *)
Definition fail_over {A} (rest : list (ResolvedUpstream D)) (resolved : ResolvedUpstream D) (w : AttemptWorld)
    (avoid : AttemptExclusions → AttemptExclusions) (blame : option FailureScope)
    (status : Z) (error_type message : string) (hint : bool) : M A :=
  modify (λ s, set_lp_exclusions (avoid (note_attempt (lp_exclusions s) resolved)) s) ;;
  let* x := gets lp_exclusions in
  match blame with
  | Some scope =>
      if has_remaining_provider_candidate rest x (up_id (ru_provider resolved)) then ret tt
      else modify (λ s, let '(faulted, shared) :=
                          note_affinity_failure (lp_shared s) resolved scope (rq_affinity rq) (lp_faulted s) (aw_ms w SessionNote) in
                        set_lp_faulted faulted (set_lp_shared shared s))
  | None => ret tt
  end ;;
  modify (set_lp_last_failure (Some (MkFailure (Some (target_of resolved)) status error_type message))) ;;
  if has_remaining_candidate rest x then leave Next
  else if hint then
    let* seconds := retry_after_header ∅ w in leave (Answer (ErrorReply status error_type true (Some seconds)))
  else leave (Answer (ErrorReply status error_type true None)).

Definition avoid_this_endpoint (resolved : ResolvedUpstream D) (x : AttemptExclusions) : AttemptExclusions :=
  avoid_endpoint x (ue_id (ru_endpoint resolved)).
Definition avoid_this_key (resolved : ResolvedUpstream D) (x : AttemptExclusions) : AttemptExclusions :=
  avoid_key x (uk_id (ru_key resolved)).
Definition avoid_this_provider (resolved : ResolvedUpstream D) (x : AttemptExclusions) : AttemptExclusions :=
  avoid_provider x (up_id (ru_provider resolved)).

(** What is left of the request's time, within the provider's. *)
Definition time_left (resolved : ResolvedUpstream D) (w : AttemptWorld) (i : Instant) : M Z :=
  let* b := gets lp_budget in
  ret (Z.min (remaining b (aw_at w i)) (provider_timeout settings (ru_provider resolved))).

(** *** Before the request is sent *)
Definition reserve_target (resolved : ResolvedUpstream D) (w : AttemptWorld) : M UpstreamAttemptReservation :=
  let* r := on_shared (λ s, reserve_attempt s resolved (aw_ms w Reserving) (aw_ms w Dropping)) in
  match r with inl r => ret r | inr _ => leave Next end.

(** The body of the attempt, and where it goes. *)
Definition prepare (rest : list (ResolvedUpstream D)) (resolved : ResolvedUpstream D) (w : AttemptWorld)
    (r : UpstreamAttemptReservation) : M (PreparedBody * Uri) :=
  match prepare_body libs rq resolved with
  | inr e => fatal r e w
  | inl b =>
      let* body := λ s, let '(body, recovery, book) :=
                          filter_body libs resolved (lp_recovery s) (lp_book s) (aw_ms w Filtering) (pb_body b) in
                        (inl body, set_lp_book book (set_lp_recovery recovery s)) in
      match attempt_uri libs rq resolved with
      | inl uri => ret (MkPrepared body (pb_context b) (pb_downstream_stream b), uri)
      | inr error =>
          settle r (local_provider (Some 400) "invalid_upstream_uri" error None) w ;;
          fail_over rest resolved w (avoid_this_endpoint resolved) (Some ScopeProvider) 400 "invalid_upstream_uri" error false
      end
  end.

(** The token of an OAuth account; a failure is the key's. *)
Definition authorize (rest : list (ResolvedUpstream D)) (resolved : ResolvedUpstream D) (w : AttemptWorld)
    (r : UpstreamAttemptReservation) : M (option PreparedCodexAuth) :=
  if is_codex_oauth (ru_provider resolved) then
    others w (Authorizing 0) ;;
    match aw_auth w 0 with
    | inl auth => ret (Some auth)
    | inr e =>
        settle r (upstream_response (au_status e) (Some (au_code e)) (Some (au_message e)) None) w ;;
        fail_over rest resolved w (avoid_this_key resolved) None (au_status e) (au_code e) (au_message e) false
    end
  else ret None.

Definition make_headers (resolved : ResolvedUpstream D) (w : AttemptWorld) (r : UpstreamAttemptReservation)
    (auth : option PreparedCodexAuth) (body : string) : M HeaderMap :=
  match attempt_headers libs rq resolved auth body with
  | inl headers => ret headers
  | inr e => fatal r e w
  end.

(** A reservation taken over by a probe or a reset is given up. *)
Definition still_current (r : UpstreamAttemptReservation) (w : AttemptWorld) : M unit :=
  let* s := gets lp_shared in
  if reservation_current s r then ret tt else settle_neutral r w ;; leave Next.

(** *** The request and its repetitions *)

(** An OAuth account whose token was refused gets one new token. *)
Definition replay_oauth (resolved : ResolvedUpstream D) (w : AttemptWorld) (r : UpstreamAttemptReservation)
    (uri : Uri) (headers : HeaderMap) (body : string) (response : Response + UpstreamDispatchError)
    : M ((Response + UpstreamDispatchError) * HeaderMap * bool) :=
  let* may := may_resend resolved w BeforeReplay in
  if is_codex_oauth (ru_provider resolved) && may
     && match response with inl response => rs_status response =? 401 | inr _ => false end
  then
    others w (Authorizing 1) ;;
    match aw_auth w 1 with
    | inr _ => ret (response, headers, false)
    | inl refreshed =>
        let* headers := make_headers resolved w r (Some refreshed) body in
        let* granted := begin_budget w 1 in
        if negb granted then
          settle_neutral r w ;;
          modify (set_lp_last_failure (Some (MkFailure (Some (target_of resolved)) 503 "upstream_retry_exhausted"
                                               "upstream retry deadline reached"))) ;;
          leave Leave
        else
          still_current r w ;;
          let '(provider, endpoint, key) := target_of resolved in
          update_shared (λ s, set_ss_provider_runtime
            (record_error (ss_provider_runtime s) provider endpoint key "OAuth authentication replay" (Some 401)
               (aw_ms w Replayed)) s) ;;
          let* response := send resolved w 1 uri headers body in
          ret (response, headers, true)
    end
  else ret (response, headers, false).

(** Whether the upstream refused encrypted content, read ahead of the body. *)
Definition peek_rejection (w : AttemptWorld) (response : Response) : bool * Response :=
  let '(rejected, b) := encrypted_content_rejected (from_slice libs) (rs_status response)
                          (is_event_stream libs (rs_headers response)) (aw_polls w PeekingRejection) (rs_body response) in
  (rejected, MkResponse (rs_status response) (rs_headers response) b).

(** Once per request, the items it refused are left out and the request is sent again. *)
Definition recover (resolved : ResolvedUpstream D) (w : AttemptWorld) (r : UpstreamAttemptReservation)
    (uri : Uri) (headers : HeaderMap) (body : string) (response : Response + UpstreamDispatchError)
    : M (Response + UpstreamDispatchError) :=
  let* recovery := gets lp_recovery in
  match response with
  | inr _ => ret response
  | inl answer =>
      if negb (Recovery.rr_enabled recovery) || is_responses_via_chat (ru_protocol resolved) then ret response
      else
        let '(rejected, answer) := peek_rejection w answer in
        others w PeekingRejection ;;
        if negb rejected then ret (inl answer)
        else
          modify (λ s, let '(recovery, book) :=
                         Recovery.record_failure set_order (sha256 libs) (parse libs) (lp_recovery s) (lp_book s) body (aw_ms w Learning) in
                       set_lp_book book (set_lp_recovery recovery s)) ;;
          let* recovery := gets lp_recovery in
          let* may := may_resend resolved w BeforeRecovery in
          if negb (can_retry recovery && may) then ret (inl answer)
          else
            let '(cleaned, recovery) := prepare_retry (sha256 libs) (parse libs) (to_vec libs) recovery body false in
            modify (set_lp_recovery recovery) ;;
            match cleaned with
            | None => ret (inl answer)
            | Some cleaned =>
                let* granted := begin_budget w 2 in
                let* s := gets lp_shared in
                if granted && reservation_current s r then
                  send resolved w 2 uri (hinsert "content-length" (show_Z (Z.of_nat (String.length cleaned))) headers) cleaned
                else ret (inl answer)
            end
  end.

(** *** After the response's head *)

(** The quota learns from the headers; a rate limit makes the key rest. *)
Definition learn (resolved : ResolvedUpstream D) (w : AttemptWorld) (response : Response) : M unit :=
  let key := uk_id (ru_key resolved) in
  let status := rs_status response in
  update_shared (λ s, set_ss_quota
    (observe_response parse_http_date parse_rfc3339 (ss_quota s) key status (text_header libs (rs_headers response))
       (aw_ms w Observing) (st_rate_limit_fallback_cooldown settings)) s) ;;
  if (status =? 402) || (status =? 429) then
    update_shared (λ s, let '(view, quota) := quota_snapshot (ss_quota s) key (aw_ms w Cooling) in
                        let s := set_ss_quota quota s in
                        match qv_cooldown_until_ms view with
                        | Some until => set_ss_upstream_key_health (defer_until (ss_upstream_key_health s) key until) s
                        | None => s
                        end)
  else ret tt.

(** A token refused again: the account has to log in. *)
Definition mark_account (resolved : ResolvedUpstream D) (w : AttemptWorld) (replayed : bool) (status : Z) : M unit :=
  if replayed && (status =? 401) then
    modify (λ s, set_lp_reauth (lp_reauth s ++ [uk_id (ru_key resolved)]) s) ;; others w MarkingAccount
  else ret tt.

(** What of an error's body is read before it is decided whether to go on. *)
Definition peek_usage (resolved : ResolvedUpstream D) (w : AttemptWorld) (response : Response) : bool * Response :=
  if should_retry_response_status (rs_status response) then
    let '(has_usage, b) := retry_body_has_usage (from_slice libs) (pp_upstream_api_format (ru_protocol resolved))
                             (is_event_stream libs (rs_headers response)) (aw_polls w PeekingUsage) (rs_body response) in
    (has_usage, MkResponse (rs_status response) (rs_headers response) b)
  else (false, response).

Definition retry_scope (response : Response) : FailureScope :=
  if upstream_error_is_model_scoped (from_slice libs) (concat (omap data_ref (rp_buffered (rs_body response))))
  then ScopeModel else classify_failure_scope (Some (rs_status response)) UpstreamResponse.

(** What a retryable answer excludes. *)
Definition avoid_scope (resolved : ResolvedUpstream D) (scope : FailureScope) : AttemptExclusions → AttemptExclusions :=
  match scope with
  | ScopeModel => avoid_this_provider resolved
  | ScopeKey | ScopeQuota => avoid_this_key resolved
  | ScopeProvider => avoid_this_endpoint resolved
  | ScopeSuccess | ScopeClient => λ x, x
  end.

(** A target the loop may still ask. *)
Definition candidate_left (rest : list (ResolvedUpstream D)) (x : AttemptExclusions) (b : AttemptBudget) : bool :=
  existsb (λ c, negb (should_skip x c) && provider_available b (up_id (ru_provider c)) (up_max_attempts (ru_provider c))) rest.

(** A retryable answer: its target is settled and excluded, and the loop goes on while a
    target may be asked; otherwise the answer is relayed. *)
Definition retry_status (rest : list (ResolvedUpstream D)) (resolved : ResolvedUpstream D) (w : AttemptWorld)
    (r : UpstreamAttemptReservation) (response : Response) (t_stream_ms : Z) : M UpstreamAttemptReservation :=
  let status := rs_status response in
  let scope := retry_scope response in
  let message := "retryable upstream status " +:+ show_Z status in
  modify (λ s, set_lp_exclusions (avoid_scope resolved scope (note_attempt (lp_exclusions s) resolved)) s) ;;
  modify (set_lp_last_failure (Some (MkFailure (Some (target_of resolved)) status "upstream_retry_status" message))) ;;
  let* r := settle_with_scope r
    (upstream_response status (Some "upstream_retry_status") (Some message) (Some t_stream_ms)) scope w in
  match (if bool_decide (scope = ScopeProvider)
         then retry_after_ms parse_http_date (text_header libs (rs_headers response)) (aw_ms w RetryAfter) else None) with
  | Some delay => update_shared (λ s, set_ss_endpoint_health
                    (defer_until (ss_endpoint_health s) (ue_id (ru_endpoint resolved))
                       (i64_sat_add (aw_ms w Deferring) delay)) s)
  | None => ret tt
  end ;;
  let* b := gets lp_budget in
  let* x := gets lp_exclusions in
  if Resilience.available b (aw_at w BeforeRetry) && candidate_left rest x b then
    (if has_remaining_provider_candidate rest x (up_id (ru_provider resolved)) then ret tt
     else modify (λ s, let '(faulted, shared) :=
                         note_affinity_failure (lp_shared s) resolved scope (rq_affinity rq) (lp_faulted s) (aw_ms w SessionNote) in
                       set_lp_faulted faulted (set_lp_shared shared s))) ;;
    (* the response is dropped, and the reservation at the end of the turn *)
    update_shared (λ s, drop_reservation s r (aw_ms w Dropping)) ;;
    leave Next
  else ret r.

(** *** Relaying the answer *)

(** [Limited::new(body, max).collect()] under a deadline: [None] when it passes. *)
Fixpoint collect_body (polls : nat) (max_bytes : Z) (acc : list ascii) (b : ReplayIncomingBody) : option (list ascii + string) :=
  match polls with
  | O => None
  | S polls =>
      match poll_frame b with
      | (GotEnd, _) => Some (inl acc)
      | (GotError error, _) => Some (inr error)
      | (GotFrame f, b) =>
          let acc := acc ++ unwrap_or (data_ref f) [] in
          if max_bytes <? Z.of_nat (length acc) then Some (inr "length limit exceeded") else collect_body polls max_bytes acc b
      end
  end.

Definition json_content_type : string := "application/json; charset=utf-8".

(** The answer an OAuth client that wants no stream gets once its stream is collected. *)
Definition collected_reply (headers : HeaderMap) (collected : option (list ascii)) : (HeaderMap * string) + Z :=
  match opt_bind collected (λ bytes, match collect_completed_response_from_sse (from_slice libs) (to_vec libs) bytes with
                                     | inl completed => Some completed
                                     | inr _ => None
                                     end) with
  | None => inr 502
  | Some completed =>
      inl (hinsert "content-length" (show_Z (Z.of_nat (String.length completed)))
             (hinsert "content-type" json_content_type headers), completed)
  end.

Definition should_migrate (resolved : ResolvedUpstream D) (faulted : gset Z) : bool :=
  is_some_and affinity_binding (λ binding,
    negb (ab_provider_id binding =? up_id (ru_provider resolved))
    || negb (opt_eqb (ab_upstream_key_id binding) (Some (uk_id (ru_key resolved))))
    || negb (opt_eqb (ab_endpoint_id binding) (Some (ue_id (ru_endpoint resolved))))
    || bool_decide (ab_provider_id binding ∈ faulted)).

(** [body] is the body of the attempt before the recovery. *)
Definition tap_config (resolved : ResolvedUpstream D) (w : AttemptWorld) (status : Z) (is_sse : bool) (t_stream_ms : Z)
    (body : string) : M (TapConfig D) :=
  let* first := time_left resolved w FirstRead in
  let* faulted := gets lp_faulted in
  ret (MkTapConfig D (ak_id api_key) (ak_log_enabled api_key)
         (Some (up_id (ru_provider resolved))) (Some (ue_id (ru_endpoint resolved))) (Some (uk_id (ru_key resolved)))
         (pp_client_api_format (ru_protocol resolved)) (pp_upstream_api_format (ru_protocol resolved))
         (Some (rq_model rq)) (Some status) (Some t_stream_ms) start is_sse (ru_price resolved)
         (st_usage_capture_bytes settings) (st_usage_capture_tail_bytes settings) (ru_provider resolved)
         (rq_affinity rq) affinity_binding (should_migrate resolved faulted)
         (is_codex_oauth (ru_provider resolved)) (provider_timeout settings (ru_provider resolved))
         (aw_at w FirstRead + first)
         requested_effort (opt_bind (parse libs body) reasoning_effort)
         (opt_bind (parse libs (rq_body rq)) service_tier) (opt_bind (parse libs body) service_tier)).

Definition local_failure (r : UpstreamAttemptReservation) (code message : string) (t_stream_ms : Z) (w : AttemptWorld) : M unit :=
  settle r (local_provider (Some 502) code message (Some t_stream_ms)) w.

(** The head of a stream is read ahead; a stream that shows nothing valid fails its target. *)
Definition preflight (rest : list (ResolvedUpstream D)) (resolved : ResolvedUpstream D) (w : AttemptWorld)
    (r : UpstreamAttemptReservation) (t_stream_ms : Z) (b : ReplayIncomingBody) : M ReplayIncomingBody :=
  let* left_ := time_left resolved w Preflight in
  let timeout_ms := Z.min (st_stream_preflight_timeout settings) left_ / 1000000 in
  others w Preflighting ;;
  match preflight_sse (from_slice libs) (pp_upstream_api_format (ru_protocol resolved)) timeout_ms
          (st_stream_preflight_max_bytes settings) (aw_polls w Preflighting) b with
  | inl b => ret b
  | inr error =>
      local_failure r "upstream_sse_preflight_failed" error t_stream_ms w ;;
      fail_over rest resolved w (avoid_this_endpoint resolved) (Some ScopeProvider) 502 "upstream_sse_preflight_failed" error false
  end.

(** A complete chat answer, converted before the client sees it; the session is not told of a failure. *)
Definition convert_answer (rest : list (ResolvedUpstream D)) (resolved : ResolvedUpstream D) (w : AttemptWorld)
    (r : UpstreamAttemptReservation) (t_stream_ms : Z) (b : ReplayIncomingBody) (x : ConversionContext) : M string :=
  others w Collecting ;;
  match collect_body (aw_polls w Collecting) (st_max_request_bytes settings) [] b with
  | Some (inl collected) =>
      match chat_response_to_responses blake3 (parse libs) (to_vec libs) (of_chars collected) x with
      | inl converted => ret converted
      | inr error =>
          local_failure r "responses_via_chat_response_failed" error t_stream_ms w ;;
          fail_over rest resolved w (avoid_this_endpoint resolved) None 502 "responses_via_chat_response_failed" error false
      end
  | result =>
      let message := match result with Some (inr error) => error | _ => "upstream response deadline exceeded" end in
      local_failure r "responses_via_chat_response_too_large" message t_stream_ms w ;;
      fail_over rest resolved w (avoid_this_endpoint resolved) None 502 "responses_via_chat_response_too_large" message false
  end.

Definition is_success (status : Z) : bool := (200 <=? status) && (status <=? 299).

Definition relay (rest : list (ResolvedUpstream D)) (resolved : ResolvedUpstream D) (w : AttemptWorld)
    (r : UpstreamAttemptReservation) (response : Response) (t_stream_ms : Z) (b : PreparedBody) : M unit :=
  let headers := sanitize_hop_headers (to_str libs) (header_name libs) (rs_headers response) in
  let is_sse := is_event_stream libs headers in
  let* cfg := tap_config resolved w (rs_status response) is_sse t_stream_ms (pb_body b) in
  let answer headers body := leave (Answer (RelayReply (rs_status response) headers body cfg r)) in
  if negb (is_success (rs_status response)) then
    if should_retry_response_status (rs_status response) then
      let* seconds := retry_after_header headers w in
      answer (hinsert "retry-after" (show_Z seconds) headers) (RelayPlain (rs_body response))
    else answer headers (RelayPlain (rs_body response))
  else if is_codex_oauth (ru_provider resolved) && bool_decide (pb_downstream_stream b = Some false) then
    if negb is_sse then
      local_failure r "codex_stream_expected" "Codex returned a non-streaming response to a forced streaming request"
        t_stream_ms w ;;
      leave (Answer (ErrorReply 502 "codex_stream_expected" false None))
    else answer headers (RelayCollected (rs_body response))
  else
    let* body := (if is_sse then preflight rest resolved w r t_stream_ms (rs_body response) else ret (rs_body response)) in
    if is_responses_via_chat (ru_protocol resolved) then
      let headers := hremove "content-length" headers in
      let x := unwrap_or (pb_context b) default_context in
      if is_sse then answer (hinsert "content-type" "text/event-stream; charset=utf-8" headers) (RelayConverted body x)
      else
        let* converted := convert_answer rest resolved w r t_stream_ms body x in
        answer (hinsert "content-length" (show_Z (Z.of_nat (String.length converted)))
                  (hinsert "content-type" json_content_type headers)) (RelayWhole converted)
    else answer headers (RelayPlain body).

(** *** One attempt, and all of them *)

(** From the answer's head on. *)
Definition after_response (rest : list (ResolvedUpstream D)) (resolved : ResolvedUpstream D) (w : AttemptWorld)
    (r : UpstreamAttemptReservation) (b : PreparedBody) (replayed : bool)
    (response : Response + UpstreamDispatchError) : M unit :=
  match response with
  | inr error =>
      let '(status, error_type, message) := dispatch_error_to_http settings error in
      settle r (local_provider (Some status) error_type message None) w ;;
      fail_over rest resolved w (avoid_this_endpoint resolved) (Some ScopeProvider) status error_type message true
  | inl response =>
      let t_stream_ms := elapsed_ms start (aw_at w Streaming) in
      learn resolved w response ;;
      mark_account resolved w replayed (rs_status response) ;;
      let '(has_usage, response) := peek_usage resolved w response in
      others w PeekingUsage ;;
      let* r := (if should_retry_response_status (rs_status response) && negb has_usage
                 then retry_status rest resolved w r response t_stream_ms else ret r) in
      relay rest resolved w r response t_stream_ms b
  end.

(** A reserved target: its body, token and headers, the request and its repetitions. *)
Definition with_reservation (rest : list (ResolvedUpstream D)) (resolved : ResolvedUpstream D) (w : AttemptWorld)
    (r : UpstreamAttemptReservation) : M unit :=
  let* (b, uri) := prepare rest resolved w r in
  let* auth := authorize rest resolved w r in
  let* headers := make_headers resolved w r auth (pb_body b) in
  still_current r w ;;
  let* response := send resolved w 0 uri headers (pb_body b) in
  let* (response, headers, replayed) := replay_oauth resolved w r uri headers (pb_body b) response in
  let* response := recover resolved w r uri headers (pb_body b) response in
  after_response rest resolved w r b replayed response.

Definition attempt (rest : list (ResolvedUpstream D)) (resolved : ResolvedUpstream D) (w : AttemptWorld) : M unit :=
  let* s := gets id in
  if should_skip (lp_exclusions s) resolved then leave Next
  else if negb (Resilience.available (lp_budget s) (aw_at w LoopTop)) then leave Leave
  else if negb (provider_available (lp_budget s) (up_id (ru_provider resolved)) (up_max_attempts (ru_provider resolved)))
  then leave Next
  else
    let* ok := eligible resolved w in
    if negb ok then leave Next
    else
      let* granted := begin_budget w 0 in
      if negb granted then leave Leave
      else
        let* r := reserve_target resolved w in
        with_reservation rest resolved w r.

(** [worlds index] surrounds the attempt at [index]. *)
Fixpoint attempts (worlds : nat → AttemptWorld) (index : nat) (l : list (ResolvedUpstream D)) : M unit :=
  match l with
  | [] => ret tt
  | resolved :: rest => λ s,
      match attempt rest resolved (worlds index) s with
      | (inl _, s) | (inr Next, s) => attempts worlds (S index) rest s
      | (inr e, s) => (inr e, s)
      end
  end.

Definition new_loop (s : SharedState) (book : RecoveryBook) (recovery : RequestRecovery) (now : Z) : LoopState :=
  MkLoop s book recovery (new_budget now (st_upstream_request_timeout settings)) default_exclusions None ∅ [] [].

(** When the targets are used up the last failure is told. *)
Definition proxy_attempts (worlds : nat → AttemptWorld) (last : AttemptWorld) : M Reply :=
  λ s, match attempts worlds 0 (pl_attempts plan) s with
       | (inr (Answer reply), s) => (inl reply, s)
       | (_, s) =>
           (let* failure := gets lp_last_failure in
            let* seconds := retry_after_header ∅ last in
            ret (match failure with
                 | Some f => ErrorReply (af_status f) (af_error_type f) true (Some seconds)
                 | None => ErrorReply 503 "upstream_retry_exhausted" true (Some seconds)
                 end)) s
       end.

(** ** What is sent *)

(** The budget and the requests sent: what the bound on the attempts is about. *)
Definition ledger (s : LoopState) : AttemptBudget * list (Z * Z * Z) := (lp_budget s, lp_sent s).

Notation quiet m := (keeps (E := Exit D) ledger m).

Lemma others_ledger w a : quiet (others w a).
Proof. intros s. unfold others, modify. by destruct (aw_others w a (lp_shared s, lp_book s)). Qed.
Lemma on_shared_ledger {A} (f : SharedState → A * SharedState) : quiet (on_shared f).
Proof. by apply keeps_on_shared. Qed.
Lemma update_shared_ledger f : quiet (update_shared f).
Proof. by apply keeps_update_shared. Qed.
#[local] Hint Resolve others_ledger on_shared_ledger update_shared_ledger : keeps.

Lemma fatal_ledger {A} r e w : quiet (fatal (A := A) r e w).
Proof. unfold fatal, settle_neutral. keep. Qed.

Lemma blame_ledger (resolved : ResolvedUpstream D) scope w :
  quiet (modify (λ s, let '(faulted, shared) :=
    note_affinity_failure (lp_shared s) resolved scope (rq_affinity rq) (lp_faulted s) (aw_ms w SessionNote) in
    set_lp_faulted faulted (set_lp_shared shared s))).
Proof. intros s. unfold modify. by destruct (note_affinity_failure _ _ _ _ _ _). Qed.
#[local] Hint Resolve fatal_ledger blame_ledger : keeps.

Lemma fail_over_ledger {A} rest resolved w avoid blame status error_type message hint :
  quiet (fail_over (A := A) rest resolved w avoid blame status error_type message hint).
Proof. unfold fail_over, retry_after_header. keep. Qed.
#[local] Hint Resolve fail_over_ledger : keeps.

Lemma eligible_ledger resolved w : quiet (eligible resolved w).
Proof. unfold eligible. keep. Qed.
Lemma reserve_target_ledger resolved w : quiet (reserve_target resolved w).
Proof. unfold reserve_target. keep. Qed.
Lemma filter_ledger (resolved : ResolvedUpstream D) w b : quiet ((λ s, let '(body, recovery, book) :=
    filter_body libs resolved (lp_recovery s) (lp_book s) (aw_ms w Filtering) b in
    (inl body, set_lp_book book (set_lp_recovery recovery s))) : M string).
Proof. intros s. by destruct (filter_body _ _ _ _ _ _) as [[]]. Qed.
#[local] Hint Resolve eligible_ledger reserve_target_ledger filter_ledger : keeps.
Lemma prepare_ledger rest resolved w r : quiet (prepare rest resolved w r).
Proof. unfold prepare, settle. keep. Qed.
Lemma authorize_ledger rest resolved w r : quiet (authorize rest resolved w r).
Proof. unfold authorize, settle. keep. Qed.
Lemma make_headers_ledger resolved w r auth body : quiet (make_headers resolved w r auth body).
Proof. unfold make_headers. keep. Qed.
Lemma still_current_ledger r w : quiet (still_current r w).
Proof. unfold still_current, settle_neutral. keep. Qed.
Lemma may_resend_ledger resolved w i : quiet (may_resend resolved w i).
Proof. unfold may_resend. keep. Qed.
Lemma learn_ledger resolved w response : quiet (learn resolved w response).
Proof. unfold learn. keep. Qed.
Lemma mark_account_ledger resolved w replayed status : quiet (mark_account resolved w replayed status).
Proof. unfold mark_account. keep. Qed.
Lemma retry_status_ledger rest resolved w r response t : quiet (retry_status rest resolved w r response t).
Proof. unfold retry_status, settle_with_scope. keep. Qed.
Lemma tap_config_ledger resolved w status is_sse t body : quiet (tap_config resolved w status is_sse t body).
Proof. unfold tap_config, time_left. keep. Qed.
Lemma preflight_ledger rest resolved w r t b : quiet (preflight rest resolved w r t b).
Proof. unfold preflight, time_left, local_failure, settle. keep. Qed.
Lemma convert_answer_ledger rest resolved w r t b x : quiet (convert_answer rest resolved w r t b x).
Proof. unfold convert_answer, local_failure, settle. keep. Qed.
#[local] Hint Resolve prepare_ledger authorize_ledger make_headers_ledger still_current_ledger may_resend_ledger
  learn_ledger mark_account_ledger retry_status_ledger tap_config_ledger preflight_ledger convert_answer_ledger : keeps.
Lemma relay_ledger rest resolved w r response t b : quiet (relay rest resolved w r response t b).
Proof. unfold relay, retry_after_header, local_failure, settle. keep. Qed.
#[local] Hint Resolve relay_ledger : keeps.
Lemma after_response_ledger rest resolved w r b replayed response : quiet (after_response rest resolved w r b replayed response).
Proof. unfold after_response, settle. keep. Qed.
#[local] Hint Resolve after_response_ledger : keeps.

(** The requests a provider was sent, and the most its records allow. *)
Definition asked (p : Z) (sent : list (Z * Z * Z)) : Z := Z.of_nat (length (List.filter (λ t, t.1.1 =? p) sent)).
Definition provider_limit (p : Z) : Z :=
  foldr Z.max 1 (map (λ a, up_max_attempts (ru_provider a))
    (List.filter (λ a, up_id (ru_provider a) =? p) (pl_attempts plan))).

Lemma provider_limit_ge a : a ∈ pl_attempts plan → Z.max (up_max_attempts (ru_provider a)) 1 <= provider_limit (up_id (ru_provider a)).
Proof.
  unfold provider_limit. induction (pl_attempts plan) as [|b l IH]; [by intros ?%not_elem_of_nil|].
  assert (∀ l : list Z, 1 <= foldr Z.max 1 l) as H1 by (induction l0 as [|x l0 IH0]; cbn; lia).
  intros [<-|Ha]%elem_of_cons; cbn [List.filter].
  - rewrite Z.eqb_refl. cbn [map foldr]. specialize (H1 (map (λ a, up_max_attempts (ru_provider a))
      (List.filter (λ b, up_id (ru_provider b) =? up_id (ru_provider a)) l))). lia.
  - specialize (IH Ha). destruct (_ =? _); cbn [map foldr]; lia.
Qed.

(** The requests sent, and [n] granted but not yet sent, are within the budget. *)
Record fits (n : Z) (l : AttemptBudget * list (Z * Z * Z)) : Prop := {
  fi_used : Z.of_nat (length l.2) + n <= used l.1 <= MAX_ATTEMPTS;
  fi_asked : ∀ p, unwrap_or (sent_by_provider l.1 !! p) 0 = asked p l.2;
  fi_limit : ∀ p, asked p l.2 <= provider_limit p;
  fi_planned : ∀ t, t ∈ l.2 → ∃ a, a ∈ pl_attempts plan ∧ t = target_of a
}.

(** The budget lets the target's provider be asked. *)
Definition allowed (resolved : ResolvedUpstream D) (l : AttemptBudget * list (Z * Z * Z)) : Prop :=
  provider_available l.1 (up_id (ru_provider resolved)) (up_max_attempts (ru_provider resolved)) = true.

Lemma fits_less n m l : m <= n → fits n l → fits m l.
Proof. intros Hm [H1 H2 H3 H4]. split; [lia|done..]. Qed.

Lemma begin_budget_fits w k s :
  fits 0 (ledger s) →
  post (begin_budget w k)
    (λ granted s', fits (if granted then 1 else 0) (ledger s') ∧ sent_by_provider (lp_budget s') = sent_by_provider (lp_budget s))
    (λ _ _, False) s.
Proof.
  intros [Hu Ha Hl Hp]. unfold begin_budget, post, bind, gets. destruct (begin (lp_budget s) (aw_timing w k)) as [granted b] eqn:Eb.
  cbn. unfold others, modify. destruct (aw_others w _ _) as [shared book]. cbn.
  destruct (begin_cases (lp_budget s) (aw_timing w k)) as [[Hg Hb]|(Hg & Hb & Hmax & _)]; rewrite Eb /= in Hg, Hb; subst.
  - done.
  - split; [|done]. split; cbn in *; [lia|done|done|done].
Qed.

Lemma send_fits resolved w k uri headers body s :
  resolved ∈ pl_attempts plan → fits 1 (ledger s) → allowed resolved (ledger s) →
  post (send resolved w k uri headers body) (λ _ s', fits 0 (ledger s')) (λ _ _, False) s.
Proof.
  intros Hin [Hu Ha Hl Hp] Hal. unfold send, post, bind, modify, others. cbn.
  match goal with |- context [aw_others ?w ?a ?x] => destruct (aw_others w a x) as [shared book] end. cbn. unfold allowed, provider_available in Hal. cbn in Hal.
  assert (∀ p, asked p (lp_sent s ++ [target_of resolved])
               = asked p (lp_sent s) + if up_id (ru_provider resolved) =? p then 1 else 0) as Hs.
  { intros p. unfold asked. rewrite List.filter_app length_app. cbn [List.filter target_of fst]. destruct (_ =? p); cbn; lia. }
  split; cbn in *.
  - rewrite length_app /=. lia.
  - intros p. rewrite Hs lookup_insert. case_decide as E; [subst|rewrite (proj2 (Z.eqb_neq _ _) E) -Ha; cbn; lia].
    rewrite Z.eqb_refl -Ha. cbn. lia.
  - intros p. rewrite Hs. destruct (Z.eqb_spec (up_id (ru_provider resolved)) p) as [<-|]; [|specialize (Hl p); lia].
    apply Z.ltb_lt in Hal. rewrite Ha in Hal. pose proof (provider_limit_ge resolved Hin). lia.
  - intros t [Ht| ->%list_elem_of_singleton]%elem_of_app; [by apply Hp|by exists resolved].
Qed.

(** A quiet computation keeps what is known of the ledger. *)
Lemma post_quiet {A} (m : M A) (P : AttemptBudget * list (Z * Z * Z) → Prop) (Q : A → LoopState → Prop)
    (E : Exit D → LoopState → Prop) s :
  quiet m → P (ledger s) →
  (∀ a s', P (ledger s') → Q a s') → (∀ e s', P (ledger s') → E e s') → post m Q E s.
Proof. intros Hm HP HQ HE. eapply post_weaken; [by apply (post_keeps ledger m P)|done|done]. Qed.

Lemma may_resend_allowed resolved w i s (P : AttemptBudget * list (Z * Z * Z) → Prop) :
  P (ledger s) →
  post (may_resend resolved w i) (λ may s', P (ledger s') ∧ (may = true → allowed resolved (ledger s'))) (λ _ _, False) s.
Proof. intros HP. unfold may_resend, post, bind, gets, ret. split; [done|]. by intros [_ H]%andb_true_iff. Qed.

(** A repetition: granted, perhaps given up, and sent. *)
Lemma resend_fits {A} resolved w k (m : bool → M A) s :
  fits 0 (ledger s) →
  (∀ (granted : bool) s', fits (if granted then 1 else 0) (ledger s') →
     sent_by_provider (lp_budget s') = sent_by_provider (lp_budget s) →
     post (m granted) (λ _ s', fits 0 (ledger s')) (λ _ s', fits 0 (ledger s')) s') →
  resolved ∈ pl_attempts plan →
  post (let* granted := begin_budget w k in m granted) (λ _ s', fits 0 (ledger s')) (λ _ s', fits 0 (ledger s')) s.
Proof.
  intros Hs Hm Hin. apply post_bind. eapply post_weaken; [by apply begin_budget_fits|by intros ? ? []; eauto|done].
Qed.

Lemma allowed_same resolved s s' :
  sent_by_provider (lp_budget s') = sent_by_provider (lp_budget s) → allowed resolved (ledger s) → allowed resolved (ledger s').
Proof. unfold allowed, provider_available, ledger. cbn [fst]. by intros ->. Qed.

Lemma replay_oauth_fits resolved w r uri headers body response s :
  resolved ∈ pl_attempts plan → fits 0 (ledger s) →
  post (replay_oauth resolved w r uri headers body response) (λ _ s', fits 0 (ledger s')) (λ _ s', fits 0 (ledger s')) s.
Proof.
  intros Hin Hs. unfold replay_oauth. apply post_bind.
  eapply post_weaken; [by apply (may_resend_allowed resolved w BeforeReplay s (fits 0))| |done].
  intros may s1 [H1 Hal]. apply post_if; [|done]. intros [[_ Hmay]%andb_true_iff _]%andb_true_iff.
  specialize (Hal Hmay). apply post_bind.
  apply (post_quiet (others w (Authorizing 1)) (λ l, fits 0 l ∧ allowed resolved l)); [auto with keeps|done| |by intros ? ? []].
  intros _ s2 [H2 Hal2]. destruct (aw_auth w 1) as [refreshed|e]; [|done]. apply post_bind.
  apply (post_quiet _ (λ l, fits 0 l ∧ allowed resolved l)); [auto with keeps|done| |by intros ? ? []].
  intros headers' s3 [H3 Hal3]. apply (resend_fits resolved); [done| |done].
  intros granted s4 H4 Hsame. apply (allowed_same resolved) in Hsame; [|done]. apply post_if.
  - intros Hg%negb_true_iff. subst granted. unfold settle_neutral.
    apply (post_quiet _ (fits 0)); [keep|done|done|done].
  - intros Hg%negb_false_iff. subst granted. apply post_bind.
    apply (post_quiet _ (λ l, fits 1 l ∧ allowed resolved l)); [auto with keeps|done| |by intros ? ? [? _]; apply (fits_less 1)].
    intros _ s5 [H5 Hal5]. destruct (target_of resolved) as [[p en] ky] eqn:Et. apply post_bind.
    apply (post_quiet _ (λ l, fits 1 l ∧ allowed resolved l)); [auto with keeps|done| |by intros ? ? [? _]; apply (fits_less 1)].
    intros _ s6 [H6 Hal6]. apply post_bind. eapply post_weaken; [by apply (send_fits resolved)|done|done].
Qed.

Lemma recover_fits resolved w r uri headers body response s :
  resolved ∈ pl_attempts plan → fits 0 (ledger s) →
  post (recover resolved w r uri headers body response) (λ _ s', fits 0 (ledger s')) (λ _ s', fits 0 (ledger s')) s.
Proof.
  intros Hin Hs. unfold recover. apply post_bind. cbn [post gets].
  unfold post at 1, gets. destruct response as [answer|e]; [|done].
  apply post_if; [done|intros _]. destruct (peek_rejection w answer) as [rejected answer']. apply post_bind.
  apply (post_quiet _ (fits 0)); [auto with keeps|done| |done]. intros _ s1 H1. apply post_if; [done|intros _].
  apply post_bind. apply (post_quiet _ (fits 0)); [|done| |done].
  { intros s2. unfold modify. by destruct (Recovery.record_failure _ _ _ _ _ _ _). }
  intros _ s2 H2. apply post_bind. unfold post at 1, gets. apply post_bind.
  eapply post_weaken; [by apply (may_resend_allowed resolved w BeforeRecovery s2 (fits 0))| |done].
  intros may s3 [H3 Hal]. apply post_if; [done|]. intros [_ Hmay]%negb_false_iff%andb_true_iff. specialize (Hal Hmay).
  destruct (prepare_retry _ _ _ _ _ _) as [cleaned recovery]. apply post_bind.
  apply (post_quiet _ (λ l, fits 0 l ∧ allowed resolved l)); [keep|done| |by intros ? ? []].
  intros _ s4 [H4 Hal4]. destruct cleaned as [cleaned|]; [|done].
  apply (resend_fits resolved); [done| |done]. intros granted s5 H5 Hsame. apply (allowed_same resolved) in Hsame; [|done].
  apply post_bind. unfold post at 1, gets. apply post_if.
  - intros [Hg _]%andb_true_iff. subst granted. eapply post_weaken; [by apply (send_fits resolved)|done|done].
  - intros _. cbn. apply (fits_less (if granted then 1 else 0)); [by destruct granted|done].
Qed.

Lemma with_reservation_fits rest resolved w r s :
  resolved ∈ pl_attempts plan → fits 1 (ledger s) → allowed resolved (ledger s) →
  post (with_reservation rest resolved w r) (λ _ s', fits 0 (ledger s')) (λ _ s', fits 0 (ledger s')) s.
Proof.
  intros Hin Hs Hal. unfold with_reservation.
  assert (∀ (e : Exit D) s', fits 1 (ledger s') ∧ allowed resolved (ledger s') → fits 0 (ledger s')) as Hless.
  { intros _ s' [H _]. by apply (fits_less 1). }
  apply post_bind. apply (post_quiet _ (λ l, fits 1 l ∧ allowed resolved l)); [auto with keeps|done| |done].
  intros [b uri] s1 H1. apply post_bind. apply (post_quiet _ (λ l, fits 1 l ∧ allowed resolved l)); [auto with keeps|done| |done].
  intros auth s2 H2. apply post_bind. apply (post_quiet _ (λ l, fits 1 l ∧ allowed resolved l)); [auto with keeps|done| |done].
  intros headers s3 H3. apply post_bind. apply (post_quiet _ (λ l, fits 1 l ∧ allowed resolved l)); [auto with keeps|done| |done].
  intros _ s4 [H4 Hal4]. apply post_bind. eapply post_weaken; [by apply (send_fits resolved)| |done].
  intros response s5 H5. apply post_bind. eapply post_weaken; [by apply (replay_oauth_fits resolved)| |done].
  intros [[response' headers'] replayed] s6 H6. apply post_bind.
  eapply post_weaken; [by apply (recover_fits resolved)| |done].
  intros response'' s7 H7. apply (post_quiet _ (fits 0)); [auto with keeps|done|done|done].
Qed.

Lemma attempt_fits rest resolved w s :
  resolved ∈ pl_attempts plan → fits 0 (ledger s) →
  post (attempt rest resolved w) (λ _ s', fits 0 (ledger s')) (λ _ s', fits 0 (ledger s')) s.
Proof.
  intros Hin Hs. unfold attempt. apply post_bind. unfold post at 1, gets. cbn [id].
  apply post_if; [done|intros _]. apply post_if; [done|intros _]. apply post_if; [done|]. intros Hp%negb_false_iff.
  apply post_bind. apply (post_quiet _ (λ l, fits 0 l ∧ allowed resolved l)); [auto with keeps|done| |by intros ? ? []].
  intros ok s1 [H1 Hal]. apply post_if; [done|intros _]. apply (resend_fits resolved); [done| |done].
  intros granted s2 H2 Hsame. apply (allowed_same resolved) in Hsame; [|done]. apply post_if.
  - intros _. cbn. apply (fits_less (if granted then 1 else 0)); [by destruct granted|done].
  - intros Hg%negb_false_iff. subst granted. apply post_bind.
    apply (post_quiet _ (λ l, fits 1 l ∧ allowed resolved l)); [auto with keeps|done| |].
    + intros r s3 [H3 Hal3]. by apply with_reservation_fits.
    + intros e s3 [H3 _]. by apply (fits_less 1).
Qed.

Lemma attempts_fits worlds index l s :
  (∀ a, a ∈ l → a ∈ pl_attempts plan) → fits 0 (ledger s) → fits 0 (ledger (attempts worlds index l s).2).
Proof.
  revert index s. induction l as [|a l IH]; intros index s Hl Hs; cbn [attempts]; [done|].
  pose proof (attempt_fits l a (worlds index) s (Hl a ltac:(by left)) Hs) as H. unfold post in H.
  destruct (attempt l a (worlds index) s) as [[[]|[]] s']; cbn [snd]; try done; apply IH; try done; intros b Hb; apply Hl; by right.
Qed.

(** C4. A request is sent upstream at most three times in all, however many targets its plan
    has, whatever the upstreams answer and however the token replay, the retry without
    encrypted content and the failover interleave; to one provider at most as often as its
    records allow, and only to targets of the plan. *)
Theorem request_sends_bounded worlds last s book recovery now :
  let s' := (proxy_attempts worlds last (new_loop s book recovery now)).2 in
  Z.of_nat (length (lp_sent s')) <= MAX_ATTEMPTS
  ∧ (∀ p, asked p (lp_sent s') <= provider_limit p)
  ∧ (∀ t, t ∈ lp_sent s' → ∃ a, a ∈ pl_attempts plan ∧ t = target_of a).
Proof.
  cbv zeta. set (s0 := new_loop s book recovery now).
  assert (fits 0 (ledger s0)) as H0.
  { split; cbn; [unfold MAX_ATTEMPTS; lia|by intros p; rewrite lookup_empty| |by intros t ?%not_elem_of_nil].
    intros p. unfold provider_limit, asked. cbn [List.filter length]. induction (map _ _); cbn [foldr]; lia. }
  pose proof (attempts_fits worlds 0 (pl_attempts plan) s0 (λ a Ha, Ha) H0) as H.
  assert (fits 0 (ledger (proxy_attempts worlds last s0).2)) as [H1 H2 H3 H4]; [|cbn [ledger fst snd] in *; split_and!; [lia|done|done]].
  unfold proxy_attempts. destruct (attempts worlds 0 (pl_attempts plan) s0) as [result s1]. cbn [snd] in H.
  set (tail := let* failure := gets lp_last_failure in _).
  assert (quiet tail) as Ht by (unfold tail, retry_after_header; keep).
  destruct result as [[]|[]]; try done; by rewrite (Ht s1).
Qed.

(** ** What is excluded *)
Record excludes_more (x y : AttemptExclusions) : Prop := {
  em_pairs : ex_attempted_pairs x ⊆ ex_attempted_pairs y;
  em_providers : ex_provider_ids x ⊆ ex_provider_ids y;
  em_endpoints : ex_endpoint_ids x ⊆ ex_endpoint_ids y;
  em_keys : ex_key_ids x ⊆ ex_key_ids y
}.

#[export] Instance excludes_more_preorder : PreOrder excludes_more.
Proof.
  split; [by split|]. intros x y z [A1 A2 A3 A4] [B1 B2 B3 B4]. split; by etransitivity.
Qed.

Lemma should_skip_more x y (a : ResolvedUpstream D) : excludes_more x y → should_skip x a = true → should_skip y a = true.
Proof.
  intros [A1 A2 A3 A4]. unfold should_skip. rewrite !orb_true_iff !bool_decide_eq_true.
  intros [[[?%A2|?%A3]|?%A4]|?%A1]; auto.
Qed.

(** During the attempt on a target, requests go to it alone and exclusions are only added. *)
Definition on_target (a : ResolvedUpstream D) (s s' : LoopState) : Prop :=
  (∃ n, lp_sent s' = lp_sent s ++ replicate n (target_of a)) ∧ excludes_more (lp_exclusions s) (lp_exclusions s').

#[export] Instance on_target_preorder a : PreOrder (on_target a).
Proof.
  split.
  - intros s. split; [exists 0%nat; by rewrite app_nil_r|done].
  - intros s1 s2 s3 [[n1 E1] X1] [[n2 E2] X2]. split; [|by etransitivity].
    exists (n1 + n2)%nat. by rewrite E2 E1 replicate_add app_assoc.
Qed.

Definition track (s : LoopState) : list (Z * Z * Z) * AttemptExclusions := (lp_sent s, lp_exclusions s).

Lemma track_on_target a s s' : track s' = track s → on_target a s s'.
Proof. intros [= Hs Hx]. split; [exists 0%nat; by rewrite Hs app_nil_r|by rewrite Hx]. Qed.

Lemma note_attempt_more x (a : ResolvedUpstream D) : excludes_more x (note_attempt x a).
Proof. split; cbn; set_solver. Qed.

(** What a failure of the target may exclude besides. *)
Definition adds_exclusion (avoid : AttemptExclusions → AttemptExclusions) : Prop := ∀ x, excludes_more x (avoid x).

Lemma avoid_endpoint_more (a : ResolvedUpstream D) : adds_exclusion (avoid_this_endpoint a).
Proof. split; cbn; set_solver. Qed.
Lemma avoid_key_more (a : ResolvedUpstream D) : adds_exclusion (avoid_this_key a).
Proof. split; cbn; set_solver. Qed.
Lemma avoid_scope_more (a : ResolvedUpstream D) scope : adds_exclusion (avoid_scope a scope).
Proof. intros x. destruct scope; cbn [avoid_scope]; try done; split; cbn; set_solver. Qed.
#[local] Hint Resolve avoid_endpoint_more avoid_key_more avoid_scope_more : moves.

Lemma exclude_moves a avoid : adds_exclusion avoid →
  moves (E := Exit D) (on_target a) (modify (λ s, set_lp_exclusions (avoid (note_attempt (lp_exclusions s) a)) s)).
Proof.
  intros Ha s. split; cbn; [exists 0%nat; by rewrite app_nil_r|]. etransitivity; [apply (note_attempt_more _ a)|apply Ha].
Qed.

(** A computation that sends nothing and excludes nothing. *)
Lemma moves_track {A} a (m : M A) : keeps track m → moves (on_target a) m.
Proof. apply moves_keeps. intros s s'. apply track_on_target. Qed.

Lemma others_track w x : keeps (E := Exit D) track (others w x).
Proof. intros s. unfold others, modify. by destruct (aw_others w x (lp_shared s, lp_book s)). Qed.
Lemma on_shared_track {A} (f : SharedState → A * SharedState) : keeps (E := Exit D) track (on_shared f).
Proof. by apply keeps_on_shared. Qed.
Lemma update_shared_track f : keeps (E := Exit D) track (update_shared f).
Proof. by apply keeps_update_shared. Qed.
#[local] Hint Resolve others_track on_shared_track update_shared_track : keeps.
Lemma fatal_track {A} r e w : keeps (E := Exit D) track (fatal (A := A) r e w).
Proof. unfold fatal, settle_neutral. keep. Qed.
Lemma blame_track (a : ResolvedUpstream D) scope w :
  keeps (E := Exit D) track (modify (λ s, let '(faulted, shared) :=
    note_affinity_failure (lp_shared s) a scope (rq_affinity rq) (lp_faulted s) (aw_ms w SessionNote) in
    set_lp_faulted faulted (set_lp_shared shared s))).
Proof. intros s. unfold modify. by destruct (note_affinity_failure _ _ _ _ _ _). Qed.
Lemma filter_track (resolved : ResolvedUpstream D) w b : keeps (E := Exit D) track ((λ s, let '(body, recovery, book) :=
    filter_body libs resolved (lp_recovery s) (lp_book s) (aw_ms w Filtering) b in
    (inl body, set_lp_book book (set_lp_recovery recovery s))) : M string).
Proof. intros s. by destruct (filter_body _ _ _ _ _ _) as [[]]. Qed.
#[local] Hint Resolve fatal_track blame_track filter_track : keeps.
#[local] Hint Resolve moves_track exclude_moves : moves.

Lemma fail_over_moves {A} rest a w avoid blame status error_type message hint :
  adds_exclusion avoid → moves (on_target a) (fail_over (A := A) rest a w avoid blame status error_type message hint).
Proof.
  intros Ha. unfold fail_over. apply moves_bind; [apply _|by apply exclude_moves|]. intros _.
  apply moves_track. unfold retry_after_header. keep.
Qed.
#[local] Hint Resolve fail_over_moves : moves.

Lemma prepare_moves rest a w r : moves (on_target a) (prepare rest a w r).
Proof.
  unfold prepare, settle. destruct (prepare_body libs rq a) as [b|e]; [|apply moves_track; keep].
  apply moves_bind; [apply _|apply moves_track; keep|intros body]. destruct (attempt_uri libs rq a); [apply moves_track; keep|].
  apply moves_bind; [apply _|apply moves_track; keep|intros _]. auto with moves.
Qed.

Lemma authorize_moves rest a w r : moves (on_target a) (authorize rest a w r).
Proof.
  unfold authorize, settle. destruct (is_codex_oauth _); [|apply moves_track; keep].
  apply moves_bind; [apply _|apply moves_track; keep|intros _]. destruct (aw_auth w 0); [apply moves_track; keep|].
  apply moves_bind; [apply _|apply moves_track; keep|intros _]. auto with moves.
Qed.

Lemma send_moves a w k uri headers body : moves (on_target a) (send a w k uri headers body).
Proof.
  unfold send. apply moves_bind; [apply _| |intros _; apply moves_track; keep].
  intros s. split; cbn; [by exists 1%nat|done].
Qed.

Lemma begin_budget_moves a w k : moves (on_target a) (begin_budget w k).
Proof. unfold begin_budget. apply moves_track. keep. Qed.

Lemma still_current_track r w : keeps (E := Exit D) track (still_current r w).
Proof. unfold still_current, settle_neutral. keep. Qed.
Lemma make_headers_track a w r auth body : keeps (E := Exit D) track (make_headers a w r auth body).
Proof. unfold make_headers. keep. Qed.
Lemma may_resend_track a w i : keeps (E := Exit D) track (may_resend a w i).
Proof. unfold may_resend. keep. Qed.
#[local] Hint Resolve still_current_track make_headers_track may_resend_track : keeps.
#[local] Hint Resolve prepare_moves authorize_moves send_moves begin_budget_moves : moves.

(** The rest by taking the computation apart. *)
Ltac walk :=
  repeat match goal with
  | |- moves _ (bind _ _) => apply moves_bind; [apply _| |intros ?]
  | |- moves _ (send _ _ _ _ _ _) => apply send_moves
  | |- moves _ (begin_budget _ _) => apply begin_budget_moves
  | |- moves _ (fail_over _ _ _ _ _ _ _ _ _) => apply fail_over_moves; auto with moves
  | |- moves _ _ => solve [apply moves_track; keep]
  | |- moves _ (if ?b then _ else _) => destruct b
  | |- moves _ (match ?x with _ => _ end) => destruct x
  end.

Lemma replay_oauth_moves a w r uri headers body response :
  moves (on_target a) (replay_oauth a w r uri headers body response).
Proof. unfold replay_oauth, settle_neutral. walk. Qed.

Lemma recover_moves a w r uri headers body response : moves (on_target a) (recover a w r uri headers body response).
Proof.
  unfold recover. walk.
  all: try (apply moves_track; intros s; unfold modify; by destruct (Recovery.record_failure _ _ _ _ _ _ _)).
Qed.

Lemma retry_status_moves rest a w r response t : moves (on_target a) (retry_status rest a w r response t).
Proof.
  unfold retry_status, settle_with_scope. apply moves_bind; [apply _|auto with moves|intros _]. apply moves_track. keep.
Qed.

Lemma relay_moves rest a w r response t b : moves (on_target a) (relay rest a w r response t b).
Proof.
  unfold relay, tap_config, preflight, convert_answer, time_left, local_failure, settle, retry_after_header. walk.
Qed.

Lemma after_response_moves rest a w r b replayed response :
  moves (on_target a) (after_response rest a w r b replayed response).
Proof.
  unfold after_response, settle. destruct response as [response|error].
  - apply moves_bind; [apply _|apply moves_track; unfold learn; keep|intros _].
    apply moves_bind; [apply _|apply moves_track; unfold mark_account; keep|intros _].
    destruct (peek_usage a w response) as [has_usage response']. apply moves_bind; [apply _|apply moves_track; keep|intros _].
    apply moves_bind; [apply _| |intros r'; apply relay_moves].
    destruct (_ && _); [apply retry_status_moves|apply moves_track; keep].
  - destruct (dispatch_error_to_http settings error) as [[status kind] message]. walk.
Qed.

Lemma attempt_moves rest a w : moves (on_target a) (attempt rest a w).
Proof.
  unfold attempt. apply moves_bind; [apply _|apply moves_track; keep|intros s].
  repeat match goal with |- moves _ (if ?b then _ else _) => destruct b; [apply moves_track; keep|] end.
  apply moves_bind; [apply _|apply moves_track; unfold eligible; keep|intros ok]. destruct (negb ok); [apply moves_track; keep|].
  apply moves_bind; [apply _|auto with moves|intros granted]. destruct (negb granted); [apply moves_track; keep|].
  apply moves_bind; [apply _|apply moves_track; unfold reserve_target; keep|intros r]. unfold with_reservation.
  apply moves_bind; [apply _|auto with moves|intros [b uri]]. apply moves_bind; [apply _|auto with moves|intros auth].
  apply moves_bind; [apply _|auto with moves keeps|intros headers]. apply moves_bind; [apply _|auto with moves keeps|intros _].
  apply moves_bind; [apply _|auto with moves|intros response].
  apply moves_bind; [apply _|apply replay_oauth_moves|intros [[response' headers'] replayed]].
  apply moves_bind; [apply _|apply recover_moves|intros response'']. apply after_response_moves.
Qed.

(** A target excluded already is passed over. *)
Lemma attempt_skips rest a w s :
  should_skip (lp_exclusions s) a = true → attempt rest a w s = (inr Next, s).
Proof. intros Hs. unfold attempt, bind, gets. cbn [id]. by rewrite Hs. Qed.

(** C12. A target a request has excluded - its pair of key and endpoint tried, its endpoint, key
    or provider blamed for a failure - is not asked again: from any point of the loop on,
    requests go only to targets that were not excluded at that point, and no exclusion is
    ever taken back. *)
Theorem excluded_targets_left_alone worlds index l s :
  let s' := (attempts worlds index l s).2 in
  excludes_more (lp_exclusions s) (lp_exclusions s')
  ∧ ∃ sent, lp_sent s' = lp_sent s ++ sent
    ∧ ∀ t, t ∈ sent → ∃ a, a ∈ l ∧ t = target_of a ∧ should_skip (lp_exclusions s) a = false.
Proof.
  cbv zeta. revert index s. induction l as [|a l IH]; intros index s; cbn [attempts].
  { split; [done|]. exists []. rewrite app_nil_r. split; [done|by intros t ?%not_elem_of_nil]. }
  destruct (attempt_moves l a (worlds index) s) as [[n Hn] Hx].
  assert (∀ t, t ∈ replicate n (target_of a) → ∃ b, b ∈ a :: l ∧ t = target_of b ∧ should_skip (lp_exclusions s) b = false) as Ha.
  { intros t [-> Hlt]%elem_of_replicate. exists a. split_and!; [by left|done|].
    destruct (should_skip (lp_exclusions s) a) eqn:Es; [|done]. rewrite (attempt_skips l a (worlds index) s Es) /= in Hn.
    apply (f_equal length) in Hn. rewrite length_app length_replicate in Hn. lia. }
  destruct (attempt l a (worlds index) s) as [result s1] eqn:E. cbn [snd] in *.
  assert (∀ s2, s2 = (attempts worlds (S index) l s1).2 →
    excludes_more (lp_exclusions s) (lp_exclusions s2) ∧ ∃ sent, lp_sent s2 = lp_sent s ++ sent
      ∧ ∀ t, t ∈ sent → ∃ b, b ∈ a :: l ∧ t = target_of b ∧ should_skip (lp_exclusions s) b = false) as Hgo.
  { intros s2 ->. destruct (IH (S index) s1) as [Hx2 (sent & Hs2 & Hin)]. split; [by etransitivity|].
    exists (replicate n (target_of a) ++ sent). split; [by rewrite Hs2 Hn app_assoc|].
    intros t [Ht|Ht]%elem_of_app; [by apply Ha|]. destruct (Hin t Ht) as (b & Hb & -> & Hsk). exists b.
    split_and!; [by right|done|]. destruct (should_skip (lp_exclusions s) b) eqn:Eb; [|done].
    by rewrite (should_skip_more _ _ b Hx Eb) in Hsk. }
  destruct result as [[]|[]]; [by apply Hgo|by apply Hgo|..]; (split; [done|]); by exists (replicate n (target_of a)).
Qed.

(** ** Slots *)

(** The other requests give back as many slots as they take while this one waits. *)
Definition steady (w : AttemptWorld) : Prop := ∀ x state id, in_flight (aw_others w x state).1 id = in_flight state.1 id.

Definition flights (id : Z) (s : LoopState) : Z := in_flight (lp_shared s) id.

(** The request holds no slot, or those of a reservation. *)
Definition free (base : Z → Z) (s : LoopState) : Prop := ∀ id, flights id s = base id.
Definition holding (base : Z → Z) (r : UpstreamAttemptReservation) (s : LoopState) : Prop :=
  ∀ id, flights id s = base id + slots_of r id.

(** What an answer takes with it. *)
Definition accounted (base : Z → Z) (e : Exit D) (s : LoopState) : Prop :=
  match e with
  | Answer (RelayReply _ _ _ _ r) => holding base r s
  | _ => free base s
  end.

Section Slots.
Context (base : Z → Z) (base_ok : ∀ id, 0 <= base id < u32_max).

Lemma holding_bounds r s : holding base r s → ∀ id, slots_of r id <= flights id s <= u32_max.
Proof using base_ok. intros Hs id. rewrite Hs. pose proof (slots_le r id). pose proof (base_ok id). lia. Qed.

Lemma post_steady {A} (m : M A) Q E s :
  (∀ id, keeps (flights id) m) →
  (∀ a s', (∀ id, flights id s' = flights id s) → Q a s') →
  (∀ e s', (∀ id, flights id s' = flights id s) → E e s') → post m Q E s.
Proof using.
  intros Hm HQ HE. unfold post. assert (∀ id, flights id (m s).2 = flights id s) as H by (intros id; apply Hm).
  destruct (m s) as [[a|e] s']; cbn [snd] in H; auto.
Qed.

Lemma post_settle_neutral r w s (Q : unit → LoopState → Prop) E :
  holding base r s → (∀ s', free base s' → Q tt s') → post (settle_neutral r w) Q E s.
Proof using base_ok.
  intros Hr HQ. apply HQ. intros id. unfold flights. cbn. rewrite neutral_in_flight.
  - specialize (Hr id). unfold flights in Hr. lia.
  - by apply holding_bounds.
Qed.

Lemma post_drop r t s (Q : unit → LoopState → Prop) E :
  holding base r s → (∀ s', free base s' → Q tt s') →
  post (E := Exit D) (update_shared (λ s, drop_reservation s r t)) Q E s.
Proof using base_ok.
  intros Hr HQ. apply HQ. intros id. unfold flights. cbn. rewrite drop_reservation_in_flight.
  - specialize (Hr id). unfold flights in Hr. lia.
  - by apply holding_bounds.
Qed.

Lemma post_settle_scope r o scope w s (Q : UpstreamAttemptReservation → LoopState → Prop) E :
  holding base r s → (∀ r' s', holding base r' s' → Q r' s') → post (settle_with_scope r o scope w) Q E s.
Proof using.
  intros Hr HQ. unfold settle_with_scope, on_shared, post.
  pose proof (λ id, finish_with_scope_in_flight (lp_shared s) r o scope (aw_ms w Timeline) (aw_ms w Circuits) id) as Hf.
  destruct (finish_with_scope _ _ _ _ _ _) as [r' shared]. cbn [fst snd] in Hf. apply HQ. intros id.
  unfold flights. cbn. rewrite (proj1 (Hf id)).
  specialize (Hr id). unfold flights in Hr. rewrite Hr. unfold slots_of. by rewrite (proj2 (Hf id)).
Qed.

Lemma post_settle r o w s (Q : unit → LoopState → Prop) E :
  holding base r s → (∀ s', free base s' → Q tt s') → post (settle r o w) Q E s.
Proof using base_ok.
  intros Hr HQ. apply HQ. intros id. unfold flights. cbn [lp_shared set_lp_shared].
  rewrite finish_in_flight; [specialize (Hr id); unfold flights in Hr; lia|by apply holding_bounds].
Qed.

Lemma post_reserve a w s :
  free base s → post (reserve_target a w) (λ r s', holding base r s') (accounted base) s.
Proof using base_ok.
  intros Hs. unfold reserve_target, post, bind, on_shared.
  assert (∀ id, 0 <= in_flight (lp_shared s) id < u32_max) as Hb by (intros id; specialize (Hs id); unfold flights in Hs; rewrite Hs; apply base_ok).
  pose proof (λ id, reserve_in_flight (lp_shared s) a (aw_ms w Reserving) (aw_ms w Dropping) true true id Hb) as Hr.
  unfold reserve_attempt in *. destruct (reserve_attempt_inner _ _ _ _ _ _) as [[r|e] shared]; cbn [fst snd] in Hr; cbn.
  - intros id. unfold flights. cbn. rewrite Hr. by rewrite -(Hs id).
  - intros id. unfold flights. cbn. rewrite Hr Z.add_0_r. apply Hs.
Qed.

(** *** What moves no slot *)
Lemma others_flights w x id : steady w → keeps (E := Exit D) (flights id) (others w x).
Proof using.
  intros Hw s. unfold others, modify. specialize (Hw x (lp_shared s, lp_book s) id).
  by destruct (aw_others w x (lp_shared s, lp_book s)).
Qed.

Lemma plan_retry_flights now id : keeps (E := Exit D) (flights id) (on_shared (λ s, plan_retry_at s plan now)).
Proof using.
  apply keeps_on_shared. intros s. unfold flights. cbn. unfold plan_retry_at.
  assert (∀ (l : list (ResolvedUpstream D)) s, in_flight (targets_blocked_until s now l).2 id = in_flight s id) as Ht.
  { intros l. induction l as [|a l IH]; intros s'; cbn [targets_blocked_until]; [done|]. unfold target_blocked_until.
    destruct (quota_snapshot _ _ _) as [q book]. specialize (IH (set_ss_quota book s')).
    by destruct (targets_blocked_until _ _ l). }
  specialize (Ht (pl_attempts plan) (lp_shared s)). by destruct (targets_blocked_until _ _ _).
Qed.

Lemma blame_flights (a : ResolvedUpstream D) scope w id :
  keeps (E := Exit D) (flights id) (modify (λ s, let '(faulted, shared) :=
    note_affinity_failure (lp_shared s) a scope (rq_affinity rq) (lp_faulted s) (aw_ms w SessionNote) in
    set_lp_faulted faulted (set_lp_shared shared s))).
Proof using.
  intros s. unfold modify, note_affinity_failure. destruct (negb _); [done|].
  destruct (rq_affinity rq); [|done]. by destruct (should_avoid_affinity_immediately scope).
Qed.

Lemma eligible_flights a w id : keeps (E := Exit D) (flights id) (eligible a w).
Proof using.
  unfold eligible. keep. apply keeps_on_shared. intros s. by destruct (is_available _ _ _).
Qed.

Lemma filter_flights (a : ResolvedUpstream D) w b id : keeps (E := Exit D) (flights id) ((λ s, let '(body, recovery, book) :=
    filter_body libs a (lp_recovery s) (lp_book s) (aw_ms w Filtering) b in
    (inl body, set_lp_book book (set_lp_recovery recovery s))) : M string).
Proof using. intros s. by destruct (filter_body _ _ _ _ _ _) as [[]]. Qed.

Lemma learn_flights a w response id : keeps (E := Exit D) (flights id) (learn a w response).
Proof using.
  unfold learn. apply keeps_bind; [by apply keeps_update_shared|intros _]. destruct (_ || _); [|keep].
  apply keeps_update_shared. intros s. destruct (quota_snapshot _ _ _) as [view quota]. by destruct (qv_cooldown_until_ms view).
Qed.
#[local] Hint Resolve others_flights plan_retry_flights blame_flights eligible_flights filter_flights learn_flights : keeps.

(** *** The attempt, step by step *)
Lemma free_same s s' : free base s → (∀ id, flights id s' = flights id s) → free base s'.
Proof using. intros Hs Hf id. by rewrite Hf. Qed.
Lemma holding_same r s s' : holding base r s → (∀ id, flights id s' = flights id s) → holding base r s'.
Proof using. intros Hs Hf id. by rewrite Hf. Qed.

(** A step that goes on and moves no slot keeps what is held. *)
Lemma post_stay {A} (m : M A) (P : LoopState → Prop) (Q : A → LoopState → Prop) E s :
  (∀ s s', P s → (∀ id, flights id s' = flights id s) → P s') →
  stays m → (∀ id, keeps (flights id) m) → P s → (∀ a s', P s' → Q a s') → post m Q E s.
Proof using.
  intros Hsame Hm Hk HP HQ. unfold post. assert (∀ id, flights id (m s).2 = flights id s) as H by (intros id; apply Hk).
  specialize (Hm s). destruct (m s) as [[a|e] s']; cbn [snd] in *; [|by destruct (Hm e)]. apply HQ. by apply (Hsame s).
Qed.

Lemma others_stays w x : stays (E := Exit D) (others w x).
Proof using. unfold others. stay. Qed.

Lemma fail_over_accounted {A} rest a w avoid blame status kind message hint Q s :
  free base s → post (fail_over (A := A) rest a w avoid blame status kind message hint) Q (accounted base) s.
Proof using.
  intros Hs. unfold fail_over.
  apply post_bind, (post_stay _ (free base)); [exact free_same|stay|intros id; keep|done|intros _ s1 H1].
  apply post_bind. unfold post at 1, gets.
  apply post_bind, (post_stay _ (free base)); [exact free_same|stay|intros id; destruct blame; keep|done|intros _ s2 H2].
  apply post_bind, (post_stay _ (free base)); [exact free_same|stay|intros id; keep|done|intros _ s3 H3].
  apply post_if; [done|intros _]. apply post_if; [intros _|done]. unfold retry_after_header.
  apply post_bind, (post_stay _ (free base)); [exact free_same|stay|intros id; keep|done|done].
Qed.

Lemma fatal_accounted {A} r e w Q s : holding base r s → post (fatal (A := A) r e w) Q (accounted base) s.
Proof using base_ok.
  intros Hs. unfold fatal. apply post_bind. apply post_if; intros _.
  - apply (post_drop r); [done|done].
  - apply post_settle_neutral; [done|done].
Qed.

Lemma prepare_accounted rest a w r s :
  holding base r s → post (prepare rest a w r) (λ _ s', holding base r s') (accounted base) s.
Proof using base_ok.
  intros Hs. unfold prepare. destruct (prepare_body libs rq a) as [b|e]; [|by apply fatal_accounted].
  apply post_bind, (post_stay _ (holding base r)); [apply holding_same| |intros id; auto with keeps|done|intros body s1 H1].
  { intros s1 e. by destruct (filter_body _ _ _ _ _ _) as [[]]. }
  destruct (attempt_uri libs rq a) as [uri|error]; [done|]. apply post_bind.
  apply post_settle; [done|]. intros s2 H2. by apply fail_over_accounted.
Qed.

Lemma authorize_accounted rest a w r s :
  steady w → holding base r s → post (authorize rest a w r) (λ _ s', holding base r s') (accounted base) s.
Proof using base_ok.
  intros Hw Hs. unfold authorize. apply post_if; intros _; [|done].
  apply post_bind, (post_stay _ (holding base r)); [apply holding_same|apply others_stays|intros id; auto with keeps|done|].
  intros _ s1 H1. destruct (aw_auth w 0) as [auth|e]; [done|]. apply post_bind.
  apply post_settle; [done|]. intros s2 H2. by apply fail_over_accounted.
Qed.

Lemma make_headers_accounted a w r auth body s :
  holding base r s → post (make_headers a w r auth body) (λ _ s', holding base r s') (accounted base) s.
Proof using base_ok.
  intros Hs. unfold make_headers. destruct (attempt_headers libs rq a auth body); [done|by apply fatal_accounted].
Qed.

Lemma still_current_accounted r w s :
  holding base r s → post (still_current r w) (λ _ s', holding base r s') (accounted base) s.
Proof using base_ok.
  intros Hs. unfold still_current. apply post_bind. unfold post at 1, gets. apply post_if; intros _; [done|].
  apply post_bind. by apply post_settle_neutral.
Qed.

Lemma send_stays a w k uri headers body : stays (send a w k uri headers body).
Proof using. unfold send. apply stays_bind; [stay|intros _]. apply stays_bind; [apply others_stays|intros _; stay]. Qed.
Lemma send_flights a w k uri headers body id : steady w → keeps (E := Exit D) (flights id) (send a w k uri headers body).
Proof using. intros Hw. unfold send. keep. Qed.
Lemma begin_budget_stays w k : stays (begin_budget w k).
Proof using. unfold begin_budget. apply stays_bind; [stay|intros b]. destruct (begin b _). apply stays_bind; [stay|intros _].
  apply stays_bind; [apply others_stays|intros _; stay]. Qed.
Lemma begin_budget_flights w k id : steady w → keeps (E := Exit D) (flights id) (begin_budget w k).
Proof using. intros Hw. unfold begin_budget. keep. Qed.
#[local] Hint Resolve send_flights begin_budget_flights : keeps.

Lemma replay_oauth_accounted a w r uri headers body response s :
  steady w → holding base r s →
  post (replay_oauth a w r uri headers body response) (λ _ s', holding base r s') (accounted base) s.
Proof using base_ok.
  intros Hw Hs. unfold replay_oauth.
  apply post_bind, (post_stay _ (holding base r)); [apply holding_same|unfold may_resend; stay|intros id; unfold may_resend; keep|done|].
  intros may s1 H1. apply post_if; [intros _|done].
  apply post_bind, (post_stay _ (holding base r)); [apply holding_same|apply others_stays|intros id; auto with keeps|done|].
  intros _ s2 H2. destruct (aw_auth w 1) as [refreshed|e]; [|done].
  apply post_bind. eapply post_weaken; [by apply make_headers_accounted| |done]. intros headers' s3 H3.
  apply post_bind, (post_stay _ (holding base r)); [apply holding_same|apply begin_budget_stays|intros id; auto with keeps|done|].
  intros granted s4 H4. apply post_if; intros _.
  - apply post_bind. apply post_settle_neutral; [done|intros s5 H5].
    apply post_bind, (post_stay _ (free base)); [exact (free_same)|stay|intros id; keep|done|done].
  - apply post_bind. eapply post_weaken; [by apply still_current_accounted| |done]. intros ? s5 H5.
    destruct (target_of a) as [[p en] ky].
    apply post_bind, (post_stay _ (holding base r)); [apply holding_same|stay|intros id; by apply keeps_update_shared|done|].
    intros _ s6 H6.
    apply post_bind, (post_stay _ (holding base r)); [apply holding_same|apply send_stays|intros id; auto with keeps|done|done].
Qed.

Lemma recover_accounted a w r uri headers body response s :
  steady w → holding base r s →
  post (recover a w r uri headers body response) (λ _ s', holding base r s') (accounted base) s.
Proof using.
  intros Hw Hs. apply (post_stay _ (holding base r)); [apply holding_same| | |done|done]; unfold recover.
  - apply stays_bind; [stay|intros recovery]. destruct response as [answer|]; [|stay]. destruct (_ || _); [stay|].
    destruct (peek_rejection w answer) as [rejected answer']. apply stays_bind; [apply others_stays|intros _].
    destruct (negb rejected); [stay|]. apply stays_bind; [stay|intros _]. apply stays_bind; [stay|intros recovery'].
    apply stays_bind; [unfold may_resend; stay|intros may]. destruct (negb _); [stay|].
    destruct (prepare_retry _ _ _ _ _ _) as [cleaned recovery'']. apply stays_bind; [stay|intros _].
    destruct cleaned as [cleaned|]; [|stay].
    apply stays_bind; [apply begin_budget_stays|intros granted]. apply stays_bind; [stay|intros s1].
    destruct (_ && _); [apply send_stays|stay].
  - intros id. unfold may_resend. keep.
Qed.

Lemma relay_accounted rest a w r response t b s :
  steady w → holding base r s →
  post (relay rest a w r response t b) (λ _ s', free base s') (accounted base) s.
Proof using base_ok.
  intros Hw Hs. unfold relay. set (headers := sanitize_hop_headers _ _ _).
  apply post_bind, (post_stay _ (holding base r));
    [apply holding_same|unfold tap_config, time_left; stay|intros id; unfold tap_config, time_left; keep|done|].
  intros cfg s1 H1. apply post_if; intros _.
  { apply post_if; intros _; [|done]. unfold retry_after_header. apply post_bind.
    apply (post_stay _ (holding base r)); [apply holding_same|stay|intros id; keep|done|done]. }
  apply post_if; intros _.
  { apply post_if; intros _; [|done]. unfold local_failure. apply post_bind. by apply post_settle. }
  apply post_bind. eapply (post_weaken _ (λ _ s', holding base r s') _ (accounted base)); [| |done].
  { apply post_if; intros _; [|done]. unfold preflight, time_left.
    apply post_bind, (post_stay _ (holding base r)); [apply holding_same|stay|intros id; keep|done|intros left_ s2 H2].
    apply post_bind, (post_stay _ (holding base r)); [apply holding_same|apply others_stays|intros id; auto with keeps|done|].
    intros _ s3 H3. destruct (preflight_sse _ _ _ _ _ _); [done|]. unfold local_failure.
    apply post_bind. apply post_settle; [done|]. intros s4 H4. by apply fail_over_accounted. }
  intros body s2 H2. apply post_if; intros _; [|done]. apply post_if; intros _; [done|].
  apply post_bind. eapply (post_weaken _ (λ _ s', holding base r s') _ (accounted base)); [|done|done].
  unfold convert_answer.
  apply post_bind, (post_stay _ (holding base r)); [apply holding_same|apply others_stays|intros id; auto with keeps|done|].
  intros _ s3 H3.
  destruct (collect_body _ _ _ _) as [[collected|error]|]; [destruct (chat_response_to_responses _ _ _ _ _); [done|]|..];
    unfold local_failure; apply post_bind; (apply post_settle; [done|]); intros s4 H4; by apply fail_over_accounted.
Qed.

Lemma retry_status_accounted rest a w r response t s :
  holding base r s →
  post (retry_status rest a w r response t) (λ r s', holding base r s') (accounted base) s.
Proof using base_ok.
  intros Hs. unfold retry_status.
  apply post_bind, (post_stay _ (holding base r)); [apply holding_same|stay|intros id; keep|done|intros _ s1 H1].
  apply post_bind, (post_stay _ (holding base r)); [apply holding_same|stay|intros id; keep|done|intros _ s2 H2].
  apply post_bind. apply post_settle_scope; [done|]. intros r' s3 H3. apply post_bind.
  apply (post_stay _ (holding base r')); [apply holding_same|stay|intros id|done|].
  { case_match; [by apply keeps_update_shared|keep]. }
  intros _ s4 H4. apply post_bind. unfold post at 1, gets. apply post_bind. unfold post at 1, gets.
  apply post_if; intros _; [|done].
  apply post_bind, (post_stay _ (holding base r')); [apply holding_same|stay|intros id; keep|done|intros _ s5 H5].
  apply post_bind. by apply (post_drop r').
Qed.

Lemma after_response_accounted rest a w r b replayed response s :
  steady w → holding base r s →
  post (after_response rest a w r b replayed response) (λ _ s', free base s') (accounted base) s.
Proof using base_ok.
  intros Hw Hs. unfold after_response. destruct response as [response|error].
  - apply post_bind, (post_stay _ (holding base r)); [apply holding_same|unfold learn; stay|intros id; auto with keeps|done|].
    intros _ s1 H1. apply post_bind, (post_stay _ (holding base r)); [apply holding_same| | |done|].
    { unfold mark_account. destruct (_ && _); [|stay]. apply stays_bind; [stay|intros _; apply others_stays]. }
    { intros id. unfold mark_account. keep. }
    intros _ s2 H2. destruct (peek_usage a w response) as [has_usage response'].
    apply post_bind, (post_stay _ (holding base r)); [apply holding_same|apply others_stays|intros id; auto with keeps|done|].
    intros _ s3 H3. apply post_bind. eapply (post_weaken _ (λ r s', holding base r s') _ (accounted base)); [| |done].
    + apply post_if; intros _; [by apply retry_status_accounted|done].
    + intros r' s4 H4. by apply relay_accounted.
  - destruct (dispatch_error_to_http settings error) as [[status kind] message]. apply post_bind.
    apply post_settle; [done|]. intros s1 H1. by apply fail_over_accounted.
Qed.

Lemma attempt_accounted rest a w s :
  steady w → free base s → post (attempt rest a w) (λ _ s', free base s') (accounted base) s.
Proof using base_ok.
  intros Hw Hs. unfold attempt. apply post_bind. unfold post at 1, gets. cbn [id].
  do 3 (apply post_if; intros _; [done|]).
  apply post_bind, (post_stay _ (free base)); [exact free_same|unfold eligible; stay|intros id; auto with keeps|done|].
  intros ok s1 H1. apply post_if; intros _; [done|].
  apply post_bind, (post_stay _ (free base)); [exact free_same|apply begin_budget_stays|intros id; auto with keeps|done|].
  intros granted s2 H2. apply post_if; intros _; [done|].
  apply post_bind. eapply post_weaken; [by apply post_reserve| |done]. intros r s3 H3. unfold with_reservation.
  apply post_bind. eapply post_weaken; [by apply prepare_accounted| |done]. intros [b uri] s4 H4.
  apply post_bind. eapply post_weaken; [by apply authorize_accounted| |done]. intros auth s5 H5.
  apply post_bind. eapply post_weaken; [by apply make_headers_accounted| |done]. intros headers s6 H6.
  apply post_bind. eapply post_weaken; [by apply still_current_accounted| |done]. intros ? s7 H7.
  apply post_bind, (post_stay _ (holding base r)); [apply holding_same|apply send_stays|intros id; auto with keeps|done|].
  intros response s8 H8.
  apply post_bind. eapply post_weaken; [by apply replay_oauth_accounted| |done]. intros [[response' headers'] replayed] s9 H9.
  apply post_bind. eapply post_weaken; [by apply recover_accounted| |done]. intros response'' s10 H10.
  by apply after_response_accounted.
Qed.

Lemma attempts_accounted worlds index l s :
  (∀ k, steady (worlds k)) → free base s →
  post (attempts worlds index l) (λ _ s', free base s') (accounted base) s.
Proof using base_ok.
  intros Hw. revert index s. induction l as [|a l IH]; intros index s Hs; [done|]. unfold post. cbn [attempts].
  pose proof (attempt_accounted l a (worlds index) s (Hw index) Hs) as H. unfold post in H.
  destruct (attempt l a (worlds index) s) as [[[]|[]] s']; try done; by apply IH.
Qed.
End Slots.

(** C1. Every request is answered, and no answer costs its provider a slot for good: when the
    gateway answers with an error of its own, the slots taken along the way - for targets
    that failed, were lost to a reset, or whose body could not be prepared - have all been
    given back; when it relays an upstream's answer, settling that answer gives back the last
    one, however its body ends. (The other requests are taken to return what they take.) *)
Theorem request_returns_every_slot `{Decimal D} worlds last s book recovery now :
  (∀ k, steady (worlds k)) → (∀ id, 0 <= in_flight s id < u32_max) →
  match proxy_attempts worlds last (new_loop s book recovery now) with
  | (inl (ErrorReply _ _ _ _), s') => ∀ id, in_flight (lp_shared s') id = in_flight s id
  | (inl (RelayReply _ _ _ cfg r), s') => ∀ id permit e clock,
      in_flight (finalize_tap (from_slice libs) cfg (lp_shared s') permit r e clock).2 id = in_flight s id
  | (inr _, _) => False
  end.
Proof.
  intros Hw Hs. set (s0 := new_loop s book recovery now). set (base := λ id, in_flight s id).
  assert (free base s0) as H0 by done. pose proof (attempts_accounted base Hs worlds 0 (pl_attempts plan) s0 Hw H0) as H1.
  unfold proxy_attempts, post in *. destruct (attempts worlds 0 (pl_attempts plan) s0) as [result s1].
  set (tail := let* failure := gets lp_last_failure in _).
  assert (free base s1 → match tail s1 with
    | (inl (ErrorReply _ _ _ _), s') => free base s'
    | _ => False end) as Ht.
  { intros Hf. unfold tail, bind, gets, retry_after_header, bind, on_shared, ret.
    pose proof (λ id, plan_retry_flights (aw_ms last PlanRetry) id s1) as Hp. unfold on_shared in Hp.
    destruct (plan_retry_at (lp_shared s1) plan (aw_ms last PlanRetry)) as [retry_at shared]. cbn [snd] in Hp.
    destruct (lp_last_failure _); intros id; by rewrite Hp. }
  assert (free base s1 → match tail s1 with
     | (inl (ErrorReply _ _ _ _), s') => ∀ id, in_flight (lp_shared s') id = in_flight s id
     | (inl (RelayReply _ _ _ cfg r), s') => ∀ id permit e clock,
         in_flight (finalize_tap (from_slice libs) cfg (lp_shared s') permit r e clock).2 id = in_flight s id
     | (inr _, _) => False end) as Hgo.
  { intros Hf%Ht. by destruct (tail s1) as [[[]|] s']. }
  destruct result as [[]|[| |[st code logged ra|st h body cfg r]]]; try by apply Hgo.
  - exact H1.
  - intros id permit e clock. cbn [accounted] in H1. rewrite settlement_returns_slot.
    + assert (in_flight (lp_shared s1) id = in_flight s id + slots_of r id) as -> by exact (H1 id).
      change (base id) with (in_flight s id). lia.
    + intros id'. by apply (holding_bounds base Hs).
Qed.
End Attempt.

(** ** Instances *)
Section Instances.
Definition wl_libs : Libraries :=
  MkLibraries (λ _, None) (λ _, None) (λ _, None) (λ _, true) Some Some
    (λ _, Some (MkUri (Some "https") (Some "up.example") "/v1" None)) (λ s, Some (MkPathAndQuery s None)) Some (λ _, []).

Definition wl_plan (ids : list Z) : UpstreamPlan Z :=
  MkPlan true None (map Plan.wp_attempt ids) ∅ default_diagnostics.

Definition wl_request : ClientRequest :=
  MkRequest "body" "m" (MkInfo (Some "m") false None) ∅ (Some (MkPathAndQuery "/v1/responses" None)) "id" None false true.

Definition wl_settings : Settings := MkSettings 600000000000 "600s" 60000000000 1048576 5000000000 65536 1048576 32768.

(** The upstream answers with [status] and the body [ok]. *)
Definition wl_world (status : Z) : AttemptWorld :=
  MkWorld (λ _, 1000) (λ _, 2000000000) (λ _, Timing 1000000 1000000 2000000000 100) (λ _ x, x)
    (λ _, inr (MkAuthError 503 "oauth" "no token"))
    (λ _ _ _ _, inl (MkResponse status ∅ (new_replay [DataFrame (chars "ok")] None))) (λ _, 9%nat).

Definition wl_run (statuses : list Z) : (Reply Z + Exit Z) * LoopState :=
  proxy_attempts (SessionOrder := canonical_order) (AvoidOrder := wa_avoided) wl_libs (λ _, None) (λ _, None) (λ l, l) elements
    wl_settings wl_request (MkApiKeyAuth 1 true None true "k" [] []) 0 None
    (wl_plan (map Z.of_nat (seq 1%nat (length statuses)))) None
    (λ k, wl_world (nth k statuses 500)) (wl_world 500)
    (new_loop wl_settings wv_fresh (new_recovery_book 1 1) (new_recovery false None) 0).

Example failover_run :
  match wl_run [500; 200] with
  | (inl (RelayReply 200 _ (RelayPlain _) cfg _), s) => lp_sent s = [(1, 100, 10); (2, 200, 20)] ∧ tc_provider_id cfg = Some 2
  | _ => False
  end.
Proof. vm_compute. split; reflexivity. Qed.

(** Three requests are the most, and the last answer is the client's. *)
Example three_failures_run :
  match wl_run [500; 502; 503; 200] with
  | (inl (RelayReply 503 h (RelayPlain _) cfg _), s) =>
      lp_sent s = [(1, 100, 10); (2, 200, 20); (3, 300, 30)] ∧ hget "retry-after" h = Some "1"
  | _ => False
  end.
Proof. vm_compute. split; reflexivity. Qed.

Lemma request_returns_every_slot_witness :
  match wl_run [500; 200] with
  | (inl (RelayReply _ _ _ cfg r), s') => in_flight (lp_shared s') 2 = 1
      ∧ in_flight (finalize_tap (H := whole) (EntryOrder := wa_entries) (AvoidOrder := wa_avoided) (from_slice wl_libs) cfg
                     (lp_shared s') true r wt_end wt_settle).2 2 = 0
  | _ => False
  end.
Proof.
  assert (∀ id, in_flight wv_fresh id = 0) as H0.
  { intros id. unfold in_flight, runtime_entry, wv_fresh. cbn [ss_provider_runtime by_provider new_runtime_book].
    rewrite lookup_empty. reflexivity. }
  assert (match wl_run [500; 200] with
    | (inl (ErrorReply _ _ _ _), s') => ∀ id, in_flight (lp_shared s') id = in_flight wv_fresh id
    | (inl (RelayReply _ _ _ cfg r), s') => ∀ id permit e clock,
        in_flight (finalize_tap (H := whole) (EntryOrder := wa_entries) (AvoidOrder := wa_avoided) (from_slice wl_libs) cfg
                     (lp_shared s') permit r e clock).2 id = in_flight wv_fresh id
    | (inr _, _) => False
    end) as Hall.
  { unfold wl_run. apply request_returns_every_slot; [intros k x state id; reflexivity|].
    intros id. rewrite H0. split; [discriminate|reflexivity]. }
  assert (match (wl_run [500; 200]).1 with inl (RelayReply _ _ _ _ _) => True | _ => False end) as Hrelay by (vm_compute; exact I).
  assert (in_flight (lp_shared (wl_run [500; 200]).2) 2 = 1) as Hone by (vm_compute; reflexivity).
  destruct (wl_run [500; 200]) as [[[|st h body cfg r]|] s']; [destruct Hrelay| |destruct Hrelay].
  split; [exact Hone|]. rewrite (Hall 2 true wt_end wt_settle). apply H0.
Defined.

(** The last target's retryable answer is relayed with a reservation settled already: its
    failure enters the error timeline of the provider a second time. *)
Example last_failure_recorded_twice :
  match wl_run [500] with
  | (inl (RelayReply 500 _ _ cfg r), s') =>
      let s'' := (finalize_tap (H := whole) (EntryOrder := wa_entries) (AvoidOrder := wa_avoided) (from_slice wl_libs) cfg
        (lp_shared s') true r
        (tap_end (from_slice wl_libs) cfg (tap_loop (from_slice wl_libs) cfg (new_tap cfg) [BodyEnded]).1 3) wt_settle).2 in
      length (unwrap_or (errors (ss_provider_runtime s'') !! 1) []) = 2%nat
  | _ => False
  end.
Proof. vm_compute. reflexivity. Qed.
End Instances.
