(* ===== verification/PriceCatalog.v ===== *)
(** * PriceCatalog: reading a published price catalogue

    Models the readers of [price_sync.rs]: the pricing table ([parse]), the LiteLLM file
    ([parse_litellm]) and the older TOML file ([parse_toml]), and what all three end in,
    [finalize], which keeps the rows whose name is unique and adds unambiguous aliases.
    Parsing JSON and TOML, BLAKE3 and decimals are parameters. The message of a row that
    cannot be read is dropped by the code, so the readers of one row return an option. *)
From Stdlib Require Import Ascii String.
From S2P Require Import Prelude Text Json Types Pricing.

Local Open Scope string_scope.
Local Open Scope list_scope.
Local Open Scope Z_scope.

(** What the catalogue asks of decimals beyond [Decimal]. *)
Class DecimalText (D : Type) := {
  dec_one : D;
  dec_from_scientific : string → option D
}.

(** The signs of products: what the theorems rely on. *)
Class DecimalSign (D : Type) `{Decimal D} `{DecimalText D} : Prop := {
  dec_one_sign : dec_negative dec_one = false;
  dec_million_sign : dec_negative (dec_of_i64 TOKENS_PER_MILLION) = false;
  dec_mul_sign : ∀ a b c, dec_mul a b = Some c → dec_negative a = false → dec_negative b = false →
    dec_negative c = false
}.

(** A TOML document as the code looks at it ([toml_edit::Item]). *)
Class Toml (T : Type) := {
  toml_parse : string → T + string;
  toml_get : string → T → option T;
  toml_str : T → option string;
  toml_table : T → option (list (string * T));
  toml_table_like : T → option (list (string * T));
  toml_value_text : T → option string;
  toml_to_string : T → string
}.

Record CatalogModel := MkModel {
  cm_model_name : string;
  cm_display_name : string;
  cm_brand : string;
  cm_aliases : list string;
  cm_price_data : option Value;
  cm_quote_provider : string;
  cm_source_version : string;
  cm_adaptation : string;
  cm_metadata : Value
}.

Definition with_name (name : string) (m : CatalogModel) : CatalogModel :=
  MkModel name (cm_display_name m) (cm_brand m) (cm_aliases m) (cm_price_data m) (cm_quote_provider m)
    (cm_source_version m) (cm_adaptation m) (cm_metadata m).

(** Version, models, and the number of rows that failed. *)
Definition Catalog : Type := string * list CatalogModel * Z.

(** ** Ordered maps of integers: [BTreeMap<i64, _>] *)
Fixpoint zget {V} (k : Z) (l : list (Z * V)) : option V :=
  match l with [] => None | (k', v) :: l' => if k' =? k then Some v else zget k l' end.

Fixpoint zput {V} (k : Z) (v : V) (l : list (Z * V)) : list (Z * V) :=
  match l with
  | [] => [(k, v)]
  | (k', w) :: l' => if k' =? k then (k, v) :: l' else if k <? k' then (k, v) :: l else (k', w) :: zput k v l'
  end.

Section Catalog.
Context {D : Type} `{Decimal D} `{DecimalText D}.
Context (json_text : Value → string).

Definition decimal (v : Value) : option D :=
  let raw := match v with String s => s | Number t => t | _ => json_text v end in
  let! d := opt_or (dec_from_str raw) (dec_from_scientific raw) in
  if dec_negative d then None else Some d.

Definition CHARGES : list string := ["prompt"; "completion"; "cache_read"; "cache_write"].

Definition rates (values : list (option D)) : PriceRates D :=
  let value i := unwrap_or (values !! i) None in
  MkRates (value 0%nat) (value 1%nat) (value 2%nat) (value 3%nat).

Definition tiers_of (tiers : list (Z * PriceRates D)) : list (ContextPriceTier D) :=
  map (λ '(over, rates), MkTier over rates) tiers.

(** ** The pricing table *)

(** The price of one kind of token, and whether it is charged in another unit. *)
Definition read_charge (charges : list (string * Value)) (key : string) : option (option D * bool) :=
  match assoc key charges with
  | None => Some (None, false)
  | Some c =>
      if is_text "per_M_tokens" (index "unit" c)
      then let! d := decimal (index "price" c) in Some (Some d, false)
      else Some (None, true)
  end.

Definition optional_decimal (v : option Value) (default : D) : option D :=
  match v with Some v => decimal v | None => Some default end.

Definition scale (factors : Value) (factor : D) (x : string * option D) : option (option D) :=
  let! f := optional_decimal (get x.1 factors) factor in
  match x.2 with None => Some None | Some v => let! p := dec_mul v f in Some (Some p) end.

(** The number of input tokens a trigger's prices hold above. *)
Definition trigger_threshold (trigger : Value) : option Z :=
  let! value := as_i64 (index "threshold" trigger) in
  let! threshold := i64_checked (value - Z.b2z (unwrap_or (as_bool (index "inclusive" trigger)) false)) in
  if threshold <=? 0 then None else Some threshold.

Definition read_track (values : list (option D)) (acc : list (Z * PriceRates D) * bool) (track : Value)
    : option (list (Z * PriceRates D) * bool) :=
  let! triggers := as_array (index "triggers" track) in
  match triggers with
  | [] => Some acc
  | [trigger] =>
      if negb (is_text "input_tokens_above" (index "kind" trigger)) then Some (acc.1, true)
      else
        let! threshold := trigger_threshold trigger in
        let! factor := optional_decimal (get "factor" track) dec_one in
        let! tier_values := mapM (scale (index "charge_factors" track) factor) (zip CHARGES values) in
        if is_some (zget threshold acc.1) then None
        else Some (zput threshold (rates tier_values) acc.1, acc.2)
  | _ => Some (acc.1, true)
  end.

Fixpoint read_tracks (values : list (option D)) (acc : list (Z * PriceRates D) * bool) (tracks : list Value)
    : option (list (Z * PriceRates D) * bool) :=
  match tracks with
  | [] => Some acc
  | track :: tracks => let! acc := read_track values acc track in read_tracks values acc tracks
  end.

Definition quote (p : Value) : option (PriceCard D * bool) :=
  let! charges := as_object (index "charges" p) in
  let! read := mapM (read_charge charges) CHARGES in
  let values := map fst read in
  let partial := existsb (λ kv, negb (is_one_of kv.1 CHARGES)) charges || existsb snd read in
  if forallb is_none values then None
  else
    let! r := read_tracks values ([], partial) (unwrap_or (as_array (index "tracks" p)) []) in
    Some (MkCard (rates values) (tiers_of r.1), r.2).

(** [Iterator::find_map] *)
Fixpoint find_map {A B} (f : A → option B) (l : list A) : option B :=
  match l with [] => None | x :: l' => match f x with Some y => Some y | None => find_map f l' end end.

(** The first offer that can be read, official ones before the others. *)
Definition select_offer (offers : list Value) : option (Value * (PriceCard D * bool)) :=
  find_map (λ official,
    find_map (λ p, let! q := quote p in Some (p, q))
      (List.filter (λ p, Bool.eqb (unwrap_or (as_bool (index "official" p)) false) official) offers))
    [true; false].

Definition adaptation (partial : bool) : string := if partial then "partial" else "supported".

Definition read_row (version : string) (row : Value) : option CatalogModel * Z :=
  match opt_filter (λ n, negb (n =? "")%string) (as_str (index "model_name" row)) with
  | None => (None, 1)
  | Some name =>
      let offers := unwrap_or (as_array (index "pricing" row)) [] in
      let '(price_data, quote_provider, adapted, metadata, failed) :=
        match select_offer offers with
        | Some (p, (card, partial)) =>
            (Some (to_json card), unwrap_or (as_str (index "provider" p)) "", adaptation partial,
             json_obj [("charges", index "charges" p); ("tracks", index "tracks" p);
                       ("warnings", index "warnings" p); ("source", index "source" p)], 0)
        | None => (None, "", "unsupported", json_obj [("pricing", Array offers)], 1)
        end in
      (Some (MkModel name (unwrap_or (as_str (index "display_name" row)) name)
         (unwrap_or (as_str (index "vendor" row)) "")
         (omap as_str (unwrap_or (as_array (index "aliases" row)) []))
         price_data quote_provider version adapted metadata), failed)
  end.

(** ** What every catalogue ends in *)

(** [entry(key).or_default().push(x)] *)
Definition push_at {A} (key : string) (x : A) (m : list (string * list A)) : list (string * list A) :=
  assoc_insert key (unwrap_or (assoc key m) [] ++ [x]) m.

Definition group_models (models : list CatalogModel) : list (string * list CatalogModel) :=
  foldl (λ g m, push_at (cm_model_name m) m g) [] models.

Definition unique_models (grouped : list (string * list CatalogModel)) (failed : Z) : list CatalogModel * Z :=
  foldl (λ '(out, failed) '(_, group),
    match group with [m] => (out ++ [m], failed) | _ => (out, failed + len group) end) ([], failed) grouped.

(** The models that give each alias that is not a name of its own. *)
Definition alias_models (canonical : list string) (out : list CatalogModel) : list (string * list Z) :=
  foldl (λ aliases '(i, m),
    foldl (λ aliases a,
      if negb (a =? "")%string && negb (is_one_of a canonical) then push_at a i aliases else aliases)
      aliases (cm_aliases m)) [] (zip (Z.of_nat <$> seq 0 (length out)) out).

(** [Vec::dedup] *)
Fixpoint dedup (l : list Z) : list Z :=
  match l with
  | x :: (y :: _) as l' => if x =? y then dedup l' else x :: dedup l'
  | _ => l
  end.

Definition add_alias (originals out : list CatalogModel) (entry : string * list Z) : list CatalogModel :=
  match dedup (sort_by_key1 id entry.2) with
  | [i] => match originals !! Z.to_nat i with Some m => out ++ [with_name entry.1 m] | None => out end
  | _ => out
  end.

Definition finalize (version : string) (models : list CatalogModel) (failed : Z) : Catalog + string :=
  let grouped := group_models models in
  let canonical := map fst grouped in
  let '(out, failed) := unique_models grouped failed in
  if is_empty out || forallb (λ m, is_none (cm_price_data m)) out
  then inr "catalog contains no valid token prices"
  else inl (version, foldl (add_alias out) out (alias_models canonical out), failed).

(** The rows of a catalogue read one after the other. *)
Definition read_rows {R} (read : R → option CatalogModel * Z) (rows : list R) : list CatalogModel * Z :=
  foldl (λ '(out, failed) row, let '(m, n) := read row in (out ++ option_list m, failed + n)) ([], 0) rows.

(** ** The LiteLLM file *)
Definition LITELLM_RATES : list string :=
  ["input_cost_per_token"; "output_cost_per_token"; "cache_read_input_token_cost"; "cache_creation_input_token_cost"].

Definition per_million (v : Value) : option D :=
  let! d := decimal v in dec_mul d (dec_of_i64 TOKENS_PER_MILLION).

(** The threshold of a field, as text: [base_above_<threshold>_tokens]. *)
Definition threshold_text (base_key key : string) : option string :=
  opt_bind (strip_prefix (base_key +:+ "_above_") key) (strip_suffix "_tokens").

Definition threshold_parts (threshold : string) : string * Z :=
  match strip_suffix "k" threshold with Some n => (n, 1000) | None => (threshold, 1) end.

Definition threshold_value (digits : string) (multiplier : Z) : option Z :=
  opt_filter (λ n, 0 <? n) (opt_bind (parse_i64 digits) (λ n, i64_checked (n * multiplier))).

Definition no_updates : list (option D) := [None; None; None; None].

(** [entry(threshold).or_insert([None; 4])[i] = Some(value)] *)
Definition update_tier (threshold : Z) (i : nat) (value : D) (tiers : list (Z * list (option D)))
    : list (Z * list (option D)) :=
  zput threshold (<[i := Some value]> (unwrap_or (zget threshold tiers) no_updates)) tiers.

Definition all_digits (s : string) : bool :=
  forallb (λ c, (48 <=? code c) && (code c <=? 57)) (chars s).

(** One field tried as a tier of each rate in turn; [None]: of none. *)
Fixpoint litellm_field (key : string) (value : Value) (base_keys : list (nat * string))
    (tiers : list (Z * list (option D))) : option (option (list (Z * list (option D)))) :=
  match base_keys with
  | [] => Some None
  | (i, base_key) :: base_keys =>
      match threshold_text base_key key with
      | None => litellm_field key value base_keys tiers
      | Some threshold =>
          let '(digits, multiplier) := threshold_parts threshold in
          if negb (all_digits digits) then litellm_field key value base_keys tiers
          else
            let! threshold := threshold_value digits multiplier in
            let! rate := per_million value in
            Some (Some (update_tier threshold i rate tiers))
      end
  end.

Fixpoint litellm_fields (fields : list (string * Value)) (acc : list (Z * list (option D)) * bool)
    : option (list (Z * list (option D)) * bool) :=
  match fields with
  | [] => Some acc
  | (key, value) :: fields =>
      if is_one_of key LITELLM_RATES || is_null value then litellm_fields fields acc
      else
        let! tiers := litellm_field key value (zip (seq 0 4) LITELLM_RATES) acc.1 in
        match tiers with
        | Some tiers => litellm_fields fields (tiers, acc.2)
        | None => litellm_fields fields (acc.1, acc.2 || Text.contains "cost" key)
        end
  end.

(** Each tier keeps the rates of the one below that it does not change. *)
Definition overlay (current updates : list (option D)) : list (option D) :=
  zip_with (λ c u, opt_or u c) current updates.

Fixpoint cumulate (values : list (option D)) (tiers : list (Z * list (option D))) : list (ContextPriceTier D) :=
  match tiers with
  | [] => []
  | (over, updates) :: tiers =>
      let values := overlay values updates in MkTier over (rates values) :: cumulate values tiers
  end.

Definition optional_rate (v : option Value) : option (option D) :=
  match opt_filter (λ v, negb (is_null v)) v with
  | None => Some None
  | Some v => let! d := per_million v in Some (Some d)
  end.

Definition litellm_card (row : Value) : option (PriceCard D * bool) :=
  let! fields := as_object row in
  let! values := mapM (λ key, optional_rate (assoc key fields)) LITELLM_RATES in
  if forallb is_none values then None
  else
    let! r := litellm_fields fields ([], false) in
    Some (MkCard (rates values) (cumulate values r.1), r.2).

Definition read_litellm_row (version : string) (entry : string * Value) : option CatalogModel * Z :=
  let '(name, row) := entry in
  if (name =? "sample_spec")%string then (None, 0)
  else if (name =? "")%string || is_none (as_object row) then (None, 1)
  else
    let '(price_data, adapted, failed) :=
      match litellm_card row with
      | Some (card, partial) => (Some (to_json card), adaptation partial, 0)
      | None => (None, "unsupported", 1)
      end in
    (Some (MkModel name (unwrap_or (as_str (index "display_name" row)) name) "" [] price_data
       (unwrap_or (as_str (index "litellm_provider" row)) "") version adapted row), failed).

Definition parse_litellm (root : Value) (version : string) : Catalog + string :=
  let? rows := ok_or (as_object root) "LiteLLM catalog must be an object" in
  let '(out, failed) := read_rows (read_litellm_row version) rows in
  finalize version out failed.
(** ** The older TOML file *)
Section Legacy.
Context {T : Type} `{Toml T}.

Definition legacy_rate (item : T) : option D :=
  let! text := toml_value_text item in
  let! d := decimal (String (unwrap_or (toml_str item) (replace "_" "" text))) in
  dec_mul d (dec_of_i64 TOKENS_PER_MILLION).

Definition optional_legacy_rate (item : option T) : option (option D) :=
  match item with None => Some None | Some item => let! d := legacy_rate item in Some (Some d) end.

(** Every rate is tried for every field. *)
Fixpoint legacy_field (key : string) (value : T) (base_keys : list (nat * string))
    (tiers : list (Z * list (option D))) : option (list (Z * list (option D))) :=
  match base_keys with
  | [] => Some tiers
  | (i, base_key) :: base_keys =>
      match threshold_text base_key key with
      | None => legacy_field key value base_keys tiers
      | Some threshold =>
          let '(digits, multiplier) := threshold_parts threshold in
          let! threshold := threshold_value digits multiplier in
          let! rate := legacy_rate value in
          legacy_field key value base_keys (update_tier threshold i rate tiers)
      end
  end.

Fixpoint legacy_fields (fields : list (string * T)) (tiers : list (Z * list (option D)))
    : option (list (Z * list (option D))) :=
  match fields with
  | [] => Some tiers
  | (key, value) :: fields =>
      let! tiers := legacy_field key value (zip (seq 0 4) LITELLM_RATES) tiers in legacy_fields fields tiers
  end.

Definition legacy_card (item : T) : option (PriceCard D) :=
  let! values := mapM (λ key, optional_legacy_rate (toml_get key item)) LITELLM_RATES in
  if forallb is_none values then None
  else
    let! fields := toml_table_like item in
    let! tiers := legacy_fields fields [] in
    Some (MkCard (rates values) (cumulate values tiers)).

Definition read_legacy_row (version : string) (entry : string * T) : option CatalogModel * Z :=
  let '(name, item) := entry in
  if (name =? "metadata")%string then (None, 0)
  else
    let price_data := option_map to_json (legacy_card item) in
    (Some (MkModel name (unwrap_or (opt_bind (toml_get "display_name" item) toml_str) name) "" [] price_data
       (unwrap_or (opt_bind (toml_get "litellm_provider" item) toml_str) "legacy") version
       (if is_some price_data then "partial" else "unsupported")
       (json_obj [("legacy_toml", String (toml_to_string item))])), if is_some price_data then 0 else 1).

Definition valid_utf8 (bytes : list ascii) : bool := bool_decide (utf8_lossy (length bytes) bytes = bytes).

Definition parse_toml (utf8_error : string) (bytes : list ascii) (hash : string) : Catalog + string :=
  if negb (valid_utf8 bytes) then inr utf8_error
  else
    let? doc := toml_parse (of_chars bytes) in
    let version := unwrap_or (opt_bind (opt_bind (toml_get "metadata" doc) (toml_get "version")) toml_str) hash in
    let table := unwrap_or (opt_bind (toml_get "models" doc) toml_table) (unwrap_or (toml_table doc) []) in
    let '(out, failed) := read_rows (read_legacy_row version) table in
    finalize version out failed.

(** ** Any catalogue *)
Context (from_slice : list ascii → Value + string) (blake3_hex : list ascii → string) (utf8_error : list ascii → string).

Definition parse (bytes : list ascii) : Catalog + string :=
  let hash := blake3_hex bytes in
  if negb (is_some_and (List.find (λ b, negb (ascii_blank b)) bytes) (λ b, code b =? 123))
  then parse_toml (utf8_error bytes) bytes hash
  else
    let? root := from_slice bytes in
    if is_none (get "schema" root) then parse_litellm root hash
    else if negb (is_text "cchp.pricing-table/v1" (index "schema" root)) || negb (is_text "USD" (index "currency" root))
    then inr "unsupported pricing schema or currency"
    else
      let version := unwrap_or (as_str (index "version" root)) hash in
      let? rows := ok_or (as_array (index "models" root)) "models must be an array" in
      let '(out, failed) := read_rows (read_row version) rows in
      finalize version out failed.
End Legacy.
End Catalog.

(** ** Every price that is read is a well-formed card *)
Section Prices.
Context {D : Type} `{Hsign : DecimalSign D} (json_text : Value → string).

Notation decimal := (decimal json_text).

Lemma decimal_sign v d : decimal v = Some d → dec_negative d = false.
Proof. intros (e & _ & He)%opt_bind_Some. destruct (dec_negative e) eqn:E; [done|]. by injection He as <-. Qed.

Lemma per_million_sign v d : per_million json_text v = Some d → dec_negative d = false.
Proof. intros (e & He & Hm)%opt_bind_Some. eapply dec_mul_sign; [exact Hm|by eapply decimal_sign|apply dec_million_sign]. Qed.

Lemma rate_ok_None : rate_ok (D := D) None.
Proof. done. Qed.
Lemma rate_ok_Some d : dec_negative d = false → rate_ok (Some d).
Proof. by intros ? ? [= <-]. Qed.
Hint Resolve rate_ok_None rate_ok_Some : core.

Lemma mapM_rates {X} (f : X → option (option D)) l values :
  (∀ x r, f x = Some r → rate_ok r) → mapM f l = Some values → Forall rate_ok values.
Proof.
  intros Hf. revert values. induction l as [|x l IH]; intros values; cbn; [by intros [= <-]|].
  intros (r & Hr & Hv)%bind_Some. apply bind_Some in Hv as (rs & Hrs & [= <-]). constructor; eauto.
Qed.

Lemma read_charge_sign charges key r : read_charge json_text charges key = Some r → rate_ok r.1.
Proof.
  unfold read_charge. destruct (assoc key charges) as [c|]; [|by intros [= <-]].
  destruct (is_text _ _); [|by intros [= <-]]. intros (d & Hd & [= <-])%opt_bind_Some. apply rate_ok_Some. by eapply decimal_sign.
Qed.

Lemma scale_sign factors factor x r :
  dec_negative factor = false → rate_ok x.2 → scale json_text factors factor x = Some r → rate_ok r.
Proof.
  intros Hf Hx (f & Hg & Hr)%opt_bind_Some. destruct x as [k [v|]]; simpl in *; [|by injection Hr as <-].
  apply opt_bind_Some in Hr as (p & Hp & [= <-]). apply rate_ok_Some. eapply dec_mul_sign; [exact Hp|by apply Hx|].
  destruct (get _ _); simpl in Hg; [by eapply decimal_sign|by injection Hg as <-].
Qed.

Lemma rates_are_ok (values : list (option D)) : Forall rate_ok values → rates_ok (rates values).
Proof.
  intros Hv. assert (∀ i, rate_ok (unwrap_or (values !! i) None)) as Hi; [|unfold rates_ok; split_and!; apply Hi].
  intros i. destruct (values !! i) eqn:E; [|done]. by eapply Forall_lookup_1 in E.
Qed.

(** *** Tiers stay ordered *)
Lemma zput_tiers low k (r : PriceRates D) l :
  low < k <= i64_max → rates_ok r → tiers_ok low (tiers_of l) → tiers_ok low (tiers_of (zput k r l)).
Proof.
  revert low. induction l as [|[k' w] l IH]; intros low Hk Hr; cbn; [done|]. intros (Hk' & Hw & Hl).
  destruct (Z.eqb_spec k' k) as [->|]; [done|].
  destruct (Z.ltb_spec k k'); cbn; split_and!; try done; try lia. apply IH; [lia|done|done].
Qed.

Fixpoint updates_ok (low : Z) (l : list (Z * list (option D))) : Prop :=
  match l with
  | [] => True
  | (k, u) :: l => low < k <= i64_max ∧ Forall rate_ok u ∧ updates_ok k l
  end.

Lemma zput_updates low k u l :
  low < k <= i64_max → Forall rate_ok u → updates_ok low l → updates_ok low (zput k u l).
Proof.
  revert low. induction l as [|[k' w] l IH]; intros low Hk Hr; cbn; [done|]. intros (Hk' & Hw & Hl).
  destruct (Z.eqb_spec k' k) as [->|]; [done|].
  destruct (Z.ltb_spec k k'); cbn; split_and!; try done; try lia. apply IH; [lia|done|done].
Qed.

Lemma zget_updates low k u l : updates_ok low l → zget k l = Some u → Forall rate_ok u.
Proof.
  revert low. induction l as [|[k' w] l IH]; intros low; cbn; [done|]. intros (_ & Hw & Hl).
  destruct (k' =? k); [by intros [= <-]|by eapply IH].
Qed.

Lemma update_tier_ok threshold i d l :
  0 < threshold <= i64_max → dec_negative d = false → updates_ok 0 l → updates_ok 0 (update_tier threshold i d l).
Proof.
  intros Ht Hd Hl. apply zput_updates; [done| |done]. apply Forall_insert; [|by apply rate_ok_Some].
  destruct (zget threshold l) as [u|] eqn:E; [by eapply zget_updates|]. by repeat constructor.
Qed.

Lemma overlay_ok (c u : list (option D)) : Forall rate_ok c → Forall rate_ok u → Forall rate_ok (overlay c u).
Proof.
  intros Hc. revert u. induction Hc as [|x c Hx Hc IH]; intros u Hu; [constructor|].
  destruct Hu as [|y u Hy Hu]; [constructor|]. cbn. constructor; [by destruct y|by apply IH].
Qed.

Lemma cumulate_ok values low l :
  Forall rate_ok values → updates_ok low l → tiers_ok low (cumulate values l).
Proof.
  revert values low. induction l as [|[k u] l IH]; intros values low Hv; cbn; [done|]. intros (Hk & Hu & Hl).
  pose proof (overlay_ok _ _ Hv Hu). split_and!; [lia|lia|by apply rates_are_ok|by apply IH].
Qed.

(** *** The readers of one row *)
Lemma trigger_threshold_range trigger t : trigger_threshold trigger = Some t → 0 < t <= i64_max.
Proof.
  intros (v & _ & Ht)%opt_bind_Some. apply opt_bind_Some in Ht as (th & Hth & Ht).
  destruct (Z.leb_spec th 0); [done|]. injection Ht as <-. unfold i64_checked in Hth.
  destruct (_ && _) eqn:E; [|done]. injection Hth as <-. apply andb_true_iff in E as [_ ?%Z.leb_le]. lia.
Qed.

Lemma threshold_value_range digits m t : threshold_value digits m = Some t → 0 < t <= i64_max.
Proof.
  unfold threshold_value. destruct (opt_bind _ _) as [n|] eqn:E; [|done]. cbn.
  destruct (Z.ltb_spec 0 n); [|done]. intros [= <-]. apply opt_bind_Some in E as (k & _ & Hn).
  unfold i64_checked in Hn. destruct (_ && _) eqn:Er; [|done]. injection Hn as <-.
  apply andb_true_iff in Er as [_ ?%Z.leb_le]. lia.
Qed.

Lemma read_track_ok values acc track acc' :
  Forall rate_ok values → tiers_ok 0 (tiers_of acc.1) → read_track json_text values acc track = Some acc' →
  tiers_ok 0 (tiers_of acc'.1).
Proof.
  intros Hv Ha (triggers & _ & Ht)%opt_bind_Some.
  destruct triggers as [|trigger [|? ?]]; [by injection Ht as <-| |by injection Ht as <-].
  destruct (negb _); [by injection Ht as <-|]. apply opt_bind_Some in Ht as (t & Ht' & Ht).
  apply opt_bind_Some in Ht as (f & Hf & Ht). apply opt_bind_Some in Ht as (r & Hr & Ht).
  destruct (is_some _); [done|]. injection Ht as <-. cbn.
  apply zput_tiers; [by eapply trigger_threshold_range| |done]. apply rates_are_ok.
  assert (dec_negative f = false) as Hs.
  { destruct (get _ _); cbn in Hf; [by eapply decimal_sign|]. injection Hf as <-. apply dec_one_sign. }
  clear -Hv Hr Hs Hsign. revert r Hr. generalize CHARGES as keys.
  induction Hv as [|v values Hv Hvs IH]; intros keys r; [by rewrite zip_with_nil_r; intros [= <-]|].
  destruct keys as [|k keys]; [by intros [= <-]|]. cbn.
  intros (x & Hx & Hr)%bind_Some. apply bind_Some in Hr as (rs & Hrs & [= <-]).
  constructor; [|by eapply IH]. eapply scale_sign; [exact Hs| |exact Hx]. exact Hv.
Qed.

Lemma read_tracks_ok values acc tracks acc' :
  Forall rate_ok values → tiers_ok 0 (tiers_of acc.1) → read_tracks json_text values acc tracks = Some acc' →
  tiers_ok 0 (tiers_of acc'.1).
Proof.
  intros Hv. revert acc. induction tracks as [|t tracks IH]; intros acc Ha; cbn; [by intros [= <-]|].
  intros (a & Ht & Hr)%opt_bind_Some. eapply IH; [|exact Hr]. by eapply read_track_ok.
Qed.

Lemma quote_ok p card partial : quote json_text p = Some (card, partial) → card_ok card.
Proof.
  intros (charges & _ & Hq)%opt_bind_Some. apply opt_bind_Some in Hq as (read & Hread & Hq).
  assert (Forall rate_ok (map fst read)) as Hv.
  { clear Hq. revert read Hread. generalize CHARGES as keys.
    induction keys as [|k keys IH]; intros read; cbn; [by intros [= <-]|].
    intros (x & Hx & Hr)%bind_Some. apply bind_Some in Hr as (rs & Hrs & [= <-]).
    constructor; [by eapply read_charge_sign|by apply IH]. }
  cbv zeta in Hq. destruct (forallb _ (map fst read)); [done|]. apply opt_bind_Some in Hq as (r & Hr & Hq). injection Hq as <- _.
  split; [by apply rates_are_ok|]. eapply read_tracks_ok; [exact Hv| |exact Hr]. done.
Qed.

Lemma litellm_field_ok key v keys tiers tiers' :
  updates_ok 0 tiers → litellm_field json_text key v keys tiers = Some (Some tiers') → updates_ok 0 tiers'.
Proof.
  intros Ht. induction keys as [|[i b] keys IH]; [done|]. cbn [litellm_field].
  destruct (threshold_text b key) as [th|]; [|done]. destruct (threshold_parts th) as [digits m].
  destruct (negb _); [done|]. intros (t & Hth & Hr)%opt_bind_Some. apply opt_bind_Some in Hr as (d & Hd & [= <-]).
  apply update_tier_ok; [by eapply threshold_value_range|by eapply per_million_sign|done].
Qed.

Lemma litellm_fields_ok fields acc acc' :
  updates_ok 0 acc.1 → litellm_fields json_text fields acc = Some acc' → updates_ok 0 acc'.1.
Proof.
  revert acc. induction fields as [|[k v] fields IH]; intros acc Ha; cbn [litellm_fields]; [by intros [= <-]|].
  destruct (_ || _); [by apply IH|]. intros (t & Ht & Hr)%opt_bind_Some.
  destruct t as [tiers|]; (eapply IH; [|exact Hr]); cbn; [by eapply litellm_field_ok|done].
Qed.

Lemma optional_rate_ok v r : optional_rate json_text v = Some r → rate_ok r.
Proof.
  unfold optional_rate. destruct (opt_filter _ v); [|by intros [= <-]].
  intros (d & Hd & [= <-])%opt_bind_Some. apply rate_ok_Some. by eapply per_million_sign.
Qed.

Lemma litellm_card_ok row card partial : litellm_card json_text row = Some (card, partial) → card_ok card.
Proof.
  intros (fields & _ & Hc)%opt_bind_Some. apply opt_bind_Some in Hc as (values & Hv & Hc).
  apply mapM_rates in Hv; [|intros ??; apply optional_rate_ok]. destruct (forallb _ values); [done|].
  apply opt_bind_Some in Hc as (r & Hr & Hc). injection Hc as <- _.
  split; [by apply rates_are_ok|]. apply cumulate_ok; [done|]. by eapply litellm_fields_ok in Hr.
Qed.

Section Toml.
Context {T : Type} `{Toml T}.

Lemma legacy_rate_sign (item : T) d : legacy_rate json_text item = Some d → dec_negative d = false.
Proof.
  intros (text & _ & Hd)%opt_bind_Some. apply opt_bind_Some in Hd as (e & He & Hm).
  eapply dec_mul_sign; [exact Hm|by eapply decimal_sign|apply dec_million_sign].
Qed.

Lemma legacy_field_ok key (v : T) keys tiers tiers' :
  updates_ok 0 tiers → legacy_field json_text key v keys tiers = Some tiers' → updates_ok 0 tiers'.
Proof.
  revert tiers. induction keys as [|[i b] keys IH]; intros tiers Ht; cbn [legacy_field]; [by intros [= <-]|].
  destruct (threshold_text b key) as [th|]; [|by apply IH]. destruct (threshold_parts th) as [digits m].
  intros (t & Hth & Hr)%opt_bind_Some. apply opt_bind_Some in Hr as (d & Hd & Hr). eapply IH, Hr.
  apply update_tier_ok; [by eapply threshold_value_range|by eapply legacy_rate_sign|done].
Qed.

Lemma legacy_fields_ok (fields : list (string * T)) tiers tiers' :
  updates_ok 0 tiers → legacy_fields json_text fields tiers = Some tiers' → updates_ok 0 tiers'.
Proof.
  revert tiers. induction fields as [|[k v] fields IH]; intros tiers Ht; cbn [legacy_fields]; [by intros [= <-]|].
  intros (t & Hf & Hr)%opt_bind_Some. eapply IH, Hr. by eapply legacy_field_ok.
Qed.

Lemma legacy_card_ok (item : T) card : legacy_card json_text item = Some card → card_ok card.
Proof.
  intros (values & Hv & Hc)%opt_bind_Some.
  apply mapM_rates in Hv.
  2: { intros k r. destruct (toml_get k item); cbn; [|by intros [= <-]].
       intros (d & Hd & [= <-])%opt_bind_Some. apply rate_ok_Some. by eapply legacy_rate_sign. }
  destruct (forallb _ values); [done|]. apply opt_bind_Some in Hc as (fields & _ & Hc).
  apply opt_bind_Some in Hc as (tiers & Ht & [= <-]).
  split; [by apply rates_are_ok|]. apply cumulate_ok; [done|]. by eapply legacy_fields_ok in Ht.
Qed.
End Toml.

(** *** All rows *)

(** Its price is a well-formed card, and it carries the version. *)
Definition sound (version : string) (m : CatalogModel) : Prop :=
  cm_source_version m = version
  ∧ ∀ j, cm_price_data m = Some j → ∃ c : PriceCard D, card_ok c ∧ j = to_json c.

Lemma find_map_Some {A B} (f : A → option B) l y : find_map f l = Some y → ∃ x, x ∈ l ∧ f x = Some y.
Proof.
  induction l as [|x l IH]; cbn; [done|]. destruct (f x) eqn:E; [intros [= <-]; exists x; set_solver|].
  intros (x' & ? & ?)%IH. exists x'. set_solver.
Qed.

Lemma select_offer_ok offers p card partial :
  select_offer json_text offers = Some (p, (card, partial)) → card_ok card.
Proof.
  intros (b & _ & (q & _ & Hq)%find_map_Some)%find_map_Some.
  apply opt_bind_Some in Hq as ([c pa] & Hq & [= <- <- <-]). by eapply quote_ok.
Qed.

Lemma read_row_sound version row m : (read_row json_text version row).1 = Some m → sound version m.
Proof.
  unfold read_row. destruct (opt_filter _ _) as [name|]; [|done].
  destruct (select_offer json_text _) as [[p [card partial]]|] eqn:E; intros [= <-]; (split; [done|]); [|done].
  intros j [= <-]. exists card. split; [by eapply select_offer_ok|done].
Qed.

Lemma read_litellm_row_sound version entry m : (read_litellm_row json_text version entry).1 = Some m → sound version m.
Proof.
  destruct entry as [name row]. unfold read_litellm_row. destruct (_ =? _)%string; [done|].
  destruct (_ || _); [done|]. destruct (litellm_card json_text row) as [[card partial]|] eqn:E;
    intros [= <-]; (split; [done|]); [|done].
  intros j [= <-]. exists card. split; [by eapply litellm_card_ok|done].
Qed.

Lemma read_legacy_row_sound `{Toml T} version (entry : string * T) m :
  (read_legacy_row json_text version entry).1 = Some m → sound version m.
Proof.
  destruct entry as [name item]. unfold read_legacy_row. destruct (_ =? _)%string; [done|].
  destruct (legacy_card json_text item) as [card|] eqn:E; intros [= <-]; (split; [done|]); [|done].
  intros j [= <-]. exists card. split; [by eapply legacy_card_ok|done].
Qed.

Lemma read_rows_sound {R} (read : R → option CatalogModel * Z) version rows :
  (∀ row m, (read row).1 = Some m → sound version m) → Forall (sound version) (read_rows read rows).1.
Proof.
  intros Hr. unfold read_rows. assert (Forall (sound version) (@nil CatalogModel, 0).1) as Ha by constructor.
  revert Ha. generalize (@nil CatalogModel, 0) as acc. induction rows as [|row rows IH]; intros [out n] Ha; [done|]. cbn.
  destruct (read row) as [o k] eqn:E. apply IH. cbn. apply Forall_app. split; [done|].
  destruct o as [m|]; [|constructor]. constructor; [|constructor]. apply (Hr row). by rewrite E.
Qed.
End Prices.

(** ** Which rows make it into the catalogue *)
Definition push_all {A} (pairs : list (string * A)) : list (string * list A) :=
  foldl (λ m p, push_at p.1 p.2 m) [] pairs.
Definition values_at {A} (k : string) (pairs : list (string * A)) : list A :=
  omap (λ p, if String.eqb p.1 k then Some p.2 else None) pairs.

Lemma push_all_spec {A} (pairs : list (string * A)) :
  ordered (push_all pairs)
  ∧ ∀ k, assoc k (push_all pairs) = match values_at k pairs with [] => None | l => Some l end.
Proof.
  induction pairs as [|[k0 x] pairs [IHo IH]] using rev_ind; [split; [constructor|done]|].
  unfold push_all in *. rewrite foldl_app. cbn [foldl]. split; [by apply assoc_insert_ordered|].
  intros k. unfold values_at. rewrite omap_app. cbn. fold (values_at k pairs). unfold push_at.
  destruct (String.eqb_spec k0 k) as [->|Hne]; cbn.
  - rewrite assoc_insert_eq IH. by destruct (values_at k pairs).
  - rewrite assoc_insert_ne // IH. by rewrite app_nil_r.
Qed.

Lemma elem_of_push_all {A} (pairs : list (string * A)) k l :
  (k, l) ∈ push_all pairs ↔ l = values_at k pairs ∧ l ≠ [].
Proof.
  destruct (push_all_spec pairs) as [Ho Hs]. split.
  - intros Hx%assoc_elem; [|by apply ordered_NoDup]. rewrite Hs in Hx. by destruct (values_at k pairs); simplify_eq.
  - intros [-> Hne]. apply assoc_Some_elem. rewrite Hs. by destruct (values_at k pairs).
Qed.

(** The rows with a name. *)
Definition rows_named (n : string) (models : list CatalogModel) : list CatalogModel :=
  List.filter (λ m, String.eqb (cm_model_name m) n) models.

Lemma group_models_push models : group_models models = push_all (map (λ m, (cm_model_name m, m)) models).
Proof.
  unfold group_models, push_all. generalize (@nil (string * list CatalogModel)).
  induction models as [|m models IH]; intros g; [done|]. cbn. apply IH.
Qed.

Lemma elem_of_group models n l : (n, l) ∈ group_models models ↔ l = rows_named n models ∧ l ≠ [].
Proof.
  rewrite group_models_push elem_of_push_all.
  assert (values_at n (map (λ m, (cm_model_name m, m)) models) = rows_named n models) as ->; [|done].
  unfold values_at, rows_named. induction models as [|m models IH]; [done|]. cbn in *. by destruct (String.eqb _ _); rewrite IH.
Qed.

Lemma group_models_keys models : NoDup (group_models models).*1.
Proof. rewrite group_models_push. apply ordered_NoDup, push_all_spec. Qed.

(** The only row with its name. *)
Definition sole (models : list CatalogModel) (m : CatalogModel) : Prop := rows_named (cm_model_name m) models = [m].

Definition singleton_of {A} (g : string * list A) : option A := match g.2 with [m] => Some m | _ => None end.
Definition surplus (g : string * list CatalogModel) : Z := match g.2 with [m] => 0 | l => len l end.

Lemma sum_Z_cons x l : sum_Z (x :: l) = x + sum_Z l.
Proof. done. Qed.

Lemma unique_models_spec grouped failed :
  unique_models grouped failed = (omap singleton_of grouped, failed + sum_Z (map surplus grouped)).
Proof.
  enough (∀ out, foldl (λ '(out, failed) '(_, group),
    match group with [m] => (out ++ [m], failed) | _ => (out, failed + len group) end) (out, failed) grouped
    = (out ++ omap singleton_of grouped, failed + sum_Z (map surplus grouped))) as Hg by apply (Hg []).
  revert failed. induction grouped as [|[n g] grouped IH]; intros failed out; [by rewrite app_nil_r Z.add_0_r|].
  cbn [foldl map]. rewrite sum_Z_cons. destruct g as [|m [|? ?]]; rewrite IH; cbn [surplus snd]; rewrite Z.add_assoc ?Z.add_0_r;
    cbn; by rewrite -?app_assoc.
Qed.

Lemma rows_named_singleton n models m : rows_named n models = [m] → cm_model_name m = n ∧ m ∈ models.
Proof.
  intros E. assert (m ∈ rows_named n models) as Hm by (rewrite E; set_solver).
  apply list_elem_of_In, List.filter_In in Hm as [? ?%String.eqb_eq]. split; [done|by apply list_elem_of_In].
Qed.

Lemma elem_of_unique models m : m ∈ omap singleton_of (group_models models) ↔ sole models m.
Proof.
  rewrite list_elem_of_omap. unfold sole. split.
  - intros ([n g] & Hg & Hs). apply elem_of_group in Hg as [-> _]. unfold singleton_of in Hs. cbn in Hs.
    destruct (rows_named n models) as [|x [|? ?]] eqn:E; simplify_eq.
    by destruct (rows_named_singleton _ _ _ E) as [-> _].
  - intros E. exists (cm_model_name m, [m]). split; [|done]. by rewrite elem_of_group E.
Qed.

Lemma unique_names models : NoDup (cm_model_name <$> omap singleton_of (group_models models)).
Proof.
  pose proof (group_models_keys models) as Hk.
  assert (∀ g, g ∈ group_models models → g.2 = rows_named g.1 models) as Hg.
  { intros [n l] Hx. by apply elem_of_group in Hx as [-> _]. }
  revert Hk Hg. induction (group_models models) as [|[n g] l IH]; [constructor|].
  intros [Hn Hk]%NoDup_cons Hg. cbn. specialize (IH Hk ltac:(set_solver)).
  destruct (singleton_of (n, g)) as [m|] eqn:E; [|done]. cbn. constructor; [|done].
  assert (∀ k h x, (k, h) ∈ (n, g) :: l → singleton_of (k, h) = Some x → cm_model_name x = k) as Hname.
  { intros k h x Hx Hs. specialize (Hg _ Hx). cbn in Hg. unfold singleton_of in Hs. cbn in Hs.
    destruct h as [|? [|? ?]]; simplify_eq. by apply (rows_named_singleton k models). }
  rewrite (Hname n g m ltac:(set_solver) E). intros (x & Ex & Hx)%list_elem_of_fmap.
  apply list_elem_of_omap in Hx as ([k h] & Hx & Hs). apply Hn, list_elem_of_fmap. exists (k, h).
  split; [|done]. rewrite Ex. apply (Hname k h x); [set_solver|done].
Qed.

(** *** Aliases *)
Definition alias_ok (canonical : list string) (a : string) : bool := negb (a =? "")%string && negb (is_one_of a canonical).
Definition numbered {A} (l : list A) : list (Z * A) := zip (Z.of_nat <$> seq 0 (length l)) l.
Definition alias_pairs (canonical : list string) (out : list CatalogModel) : list (string * Z) :=
  concat (map (λ im, map (λ a, (a, im.1)) (List.filter (alias_ok canonical) (cm_aliases im.2))) (numbered out)).

Lemma alias_models_push canonical out : alias_models canonical out = push_all (alias_pairs canonical out).
Proof.
  unfold alias_models, push_all, alias_pairs. fold (numbered out). generalize (@nil (string * list Z)).
  induction (numbered out) as [|[i m] l IH]; intros g; [done|]. cbn. rewrite foldl_app IH. f_equal. clear IH.
  revert g. induction (cm_aliases m) as [|a l' IH]; intros g; [done|]. cbn. rewrite IH.
  change (negb (a =? "")%string && negb (is_one_of a canonical)) with (alias_ok canonical a).
  by destruct (alias_ok canonical a).
Qed.

Lemma elem_of_numbered {A} (l : list A) i x : (i, x) ∈ numbered l ↔ 0 <= i ∧ l !! Z.to_nat i = Some x.
Proof.
  unfold numbered. split.
  - intros (k & Hk)%list_elem_of_lookup. apply lookup_zip_with_Some in Hk as (a & b & E & Ha & Hb).
    injection E as -> ->. apply list_lookup_fmap_Some in Ha as (j & -> & Hj). apply lookup_seq in Hj as [-> _].
    split; [lia|]. by rewrite Nat2Z.id.
  - intros [Hi Hx]. apply list_elem_of_lookup. exists (Z.to_nat i). apply lookup_zip_with_Some. exists i, x.
    split_and!; [done| |done]. apply list_lookup_fmap_Some. exists (Z.to_nat i). split; [lia|].
    apply lookup_seq. split; [done|]. by apply lookup_lt_Some in Hx.
Qed.

(** The positions of the models that give the alias. *)
Lemma elem_of_givers canonical out a i :
  i ∈ values_at a (alias_pairs canonical out) ↔
  0 <= i ∧ alias_ok canonical a ∧ ∃ m, out !! Z.to_nat i = Some m ∧ a ∈ cm_aliases m.
Proof.
  unfold values_at. rewrite list_elem_of_omap. split.
  - intros ([a' i'] & Hp & Hs). cbn in Hs. destruct (String.eqb_spec a' a) as [->|]; [|done]. injection Hs as ->.
    apply list_elem_of_In, in_concat in Hp as (l & Hl & Hp). apply in_map_iff in Hl as ([j m] & <- & Hm).
    apply in_map_iff in Hp as (b & E & Hb). injection E as -> ->. apply List.filter_In in Hb as [Hb Hok].
    apply list_elem_of_In, elem_of_numbered in Hm as [? ?]. split_and!; [done|by rewrite Hok|].
    exists m. split; [done|by apply list_elem_of_In].
  - intros (Hi & Hok & m & Hm & Ha). exists (a, i). cbn. rewrite String.eqb_refl. split; [|done].
    apply list_elem_of_In, in_concat. eexists. split.
    + apply in_map_iff. exists (i, m). split; [reflexivity|]. by apply list_elem_of_In, elem_of_numbered.
    + apply in_map_iff. exists a. split; [done|]. apply List.filter_In. split; [by apply list_elem_of_In|].
      by destruct (alias_ok canonical a).
Qed.

Lemma dedup_cons y z l : dedup (y :: z :: l) = if y =? z then dedup (z :: l) else y :: dedup (z :: l).
Proof. done. Qed.

Lemma dedup_elem l x : x ∈ dedup l ↔ x ∈ l.
Proof.
  induction l as [|y [|z l] IH]; [done|done|]. rewrite dedup_cons.
  destruct (Z.eqb_spec y z) as [->|]; [|by rewrite !(elem_of_cons _ x y) IH].
  rewrite IH (elem_of_cons (z :: l)). split; [tauto|]. intros [->|?]; [by left|done].
Qed.

Lemma dedup_singleton l i : dedup l = [i] ↔ l ≠ [] ∧ ∀ x, x ∈ l → x = i.
Proof.
  split.
  - intros E. split; [by intros ->|]. intros x. rewrite -dedup_elem E. set_solver.
  - intros [Hne Hall]. induction l as [|y [|z l] IH]; [done| |].
    + by rewrite (Hall y ltac:(set_solver)).
    + rewrite dedup_cons (Hall y ltac:(set_solver)) (Hall z ltac:(set_solver)) Z.eqb_refl.
      rewrite (Hall z ltac:(set_solver)) in IH. apply IH; [done|]. intros x Hx. apply Hall. set_solver.
Qed.

Definition alias_entry (originals : list CatalogModel) (entry : string * list Z) : option CatalogModel :=
  match dedup (sort_by_key1 id entry.2) with
  | [i] => option_map (with_name entry.1) (originals !! Z.to_nat i)
  | _ => None
  end.

Lemma add_aliases_spec originals out entries :
  foldl (add_alias originals) out entries = out ++ omap (alias_entry originals) entries.
Proof.
  revert out. induction entries as [|e entries IH]; intros out; [by rewrite app_nil_r|]. cbn [foldl]. rewrite IH.
  unfold add_alias. cbn. unfold alias_entry at 2. destruct (dedup _) as [|i [|? ?]]; [done| |done].
  destruct (originals !! _); cbn; by rewrite -?app_assoc.
Qed.

Lemma alias_entry_Some originals a l m :
  alias_entry originals (a, l) = Some m ↔
  ∃ i o, l ≠ [] ∧ (∀ x, x ∈ l → x = i) ∧ originals !! Z.to_nat i = Some o ∧ m = with_name a o.
Proof.
  unfold alias_entry. cbn [fst snd]. pose proof (sort_by_key1_perm id l) as Hp. split.
  - destruct (dedup _) as [|i [|? ?]] eqn:E; [done| |done]. apply dedup_singleton in E as [Hne Hall].
    destruct (originals !! _) as [o|] eqn:Eo; [|done]. intros [= <-]. exists i, o. split_and!; [| |done|done].
    + intros ->. apply Hne. by apply Permutation_nil.
    + intros x Hx. apply Hall. by rewrite Hp.
  - intros (i & o & Hne & Hall & Ho & ->). assert (dedup (sort_by_key1 id l) = [i]) as ->; [|by rewrite Ho].
    apply dedup_singleton. split; [|intros x; rewrite Hp; apply Hall].
    intros E. rewrite E in Hp. apply Hne. by apply Permutation_nil.
Qed.

(** What [finalize] keeps of the rows: every row whose name is its own, and, under each
    alias that is nobody's name and that exactly one of these gives, that model again. *)
Definition kept (models : list CatalogModel) (m : CatalogModel) : Prop :=
  sole models m
  ∨ cm_model_name m ≠ "" ∧ rows_named (cm_model_name m) models = []
    ∧ ∃ o, m = with_name (cm_model_name m) o ∧ sole models o ∧ cm_model_name m ∈ cm_aliases o
        ∧ ∀ o', sole models o' → cm_model_name m ∈ cm_aliases o' → o' = o.

Lemma canonical_names models n : is_one_of n (map fst (group_models models)) = negb (is_empty (rows_named n models)).
Proof.
  destruct (is_one_of _ _) eqn:E.
  - apply existsb_exists in E as (k & Hk & ->%String.eqb_eq). apply in_map_iff in Hk as ([n l] & <- & Hx).
    apply list_elem_of_In, elem_of_group in Hx as [-> Hne]. cbn in *. by destruct (rows_named n models).
  - destruct (rows_named n models) as [|m l] eqn:Er; [done|]. exfalso. apply not_true_iff_false in E.
    apply E, existsb_exists. exists n. split; [|apply String.eqb_refl]. apply in_map_iff.
    exists (n, rows_named n models). split; [done|]. apply list_elem_of_In, elem_of_group. by rewrite Er.
Qed.

Lemma sole_names models o o' : sole models o → sole models o' → cm_model_name o = cm_model_name o' → o = o'.
Proof. unfold sole. intros H1 H2 E. rewrite E H2 in H1. by injection H1. Qed.

Lemma with_name_name n m : cm_model_name (with_name n m) = n.
Proof. done. Qed.

Lemma unique_lookup models i j (m : CatalogModel) :
  let out := omap singleton_of (group_models models) in
  out !! i = Some m → out !! j = Some m → i = j.
Proof.
  intros out Hi Hj. eapply (NoDup_lookup _ i j (cm_model_name m) (unique_names models));
    rewrite list_lookup_fmap; fold out; by rewrite ?Hi ?Hj.
Qed.

Lemma elem_of_aliased models m :
  let out := omap singleton_of (group_models models) in
  m ∈ omap (alias_entry out) (alias_models (map fst (group_models models)) out) ↔
  cm_model_name m ≠ "" ∧ rows_named (cm_model_name m) models = []
  ∧ ∃ o, m = with_name (cm_model_name m) o ∧ sole models o ∧ cm_model_name m ∈ cm_aliases o
      ∧ ∀ o', sole models o' → cm_model_name m ∈ cm_aliases o' → o' = o.
Proof.
  intros out. rewrite list_elem_of_omap. setoid_rewrite alias_models_push.
  assert (∀ a, alias_ok (map fst (group_models models)) a ↔ a ≠ "" ∧ rows_named a models = []) as Hok.
  { intros a. unfold alias_ok. rewrite canonical_names. destruct (String.eqb_spec a ""), (rows_named a models); naive_solver. }
  assert (∀ o, sole models o ↔ ∃ i, out !! i = Some o) as Hsole.
  { intros o. rewrite -elem_of_unique. apply list_elem_of_lookup. }
  split.
  - intros ([a l] & Hx & Hs). apply elem_of_push_all in Hx as [-> Hne].
    apply alias_entry_Some in Hs as (i & o & _ & Hall & Ho & ->). rewrite with_name_name.
    destruct (values_at a _) as [|x l] eqn:E; [done|]. assert (x ∈ values_at a (alias_pairs (map fst (group_models models)) out)) as Hx
      by (rewrite E; set_solver).
    apply elem_of_givers in Hx as (Hx & [Hn Hr]%Hok & o1 & Ho1 & Ha). rewrite (Hall x ltac:(set_solver)) Ho in Ho1.
    injection Ho1 as <-. split_and!; [done|done|]. exists o. split_and!; [done|apply Hsole; by eexists|done|].
    intros o' [j Hj]%Hsole Ha'. assert (Z.of_nat j ∈ x :: l) as Hjl.
    { rewrite -E. apply elem_of_givers. split_and!; [lia|by apply Hok|]. exists o'. by rewrite Nat2Z.id. }
    apply Hall in Hjl. rewrite -Hjl Nat2Z.id Hj in Ho. by injection Ho.
  - intros (Hn & Hr & o & -> & [i Ho]%Hsole & Ha & Huniq). rewrite with_name_name in Hn, Hr, Ha, Huniq. 
    set (a := cm_model_name m) in *. eexists (a, _). rewrite elem_of_push_all alias_entry_Some.
    assert (Z.of_nat i ∈ values_at a (alias_pairs (map fst (group_models models)) out)) as Hi.
    { apply elem_of_givers. split_and!; [lia|by apply Hok|]. exists o. by rewrite Nat2Z.id. }
    split; [split; [reflexivity|]|]; [by intros E; rewrite E in Hi; apply not_elem_of_nil in Hi|].
    exists (Z.of_nat i), o. rewrite Nat2Z.id. split_and!; [by intros E; rewrite E in Hi; apply not_elem_of_nil in Hi| |done|done].
    intros x (Hx & _ & o' & Ho' & Ha')%elem_of_givers. assert (o' = o) as ->.
    { apply Huniq; [apply Hsole; by eexists|done]. }
    rewrite -(unique_lookup models _ _ _ Ho' Ho). lia.
Qed.

(** *** Nothing is lost when the rows are grouped *)
Lemma push_at_perm {A} k (x : A) (m : list (string * list A)) :
  ordered m → concat (map snd (push_at k x m)) ≡ₚ x :: concat (map snd m).
Proof.
  unfold push_at. induction m as [|[k' w] m IH]; intros Ho; [done|]. cbn [assoc assoc_insert].
  apply StronglySorted_cons in Ho as [Hall Ho]. specialize (IH Ho). destruct (String.eqb_spec k' k) as [->|Hne]; cbn.
  - rewrite -app_assoc. by rewrite -Permutation_middle.
  - destruct (str_leb k k') eqn:El; cbn; [|by rewrite IH Permutation_middle].
    rewrite (proj2 (assoc_None_elem k m)); [done|]. intros ([k2 w2] & -> & Hx)%list_elem_of_fmap.
    rewrite Forall_forall in Hall. destruct (Hall _ Hx) as [Hb _]. cbn in *. apply Hne, str_leb_antisym; [done|by rewrite El].
Qed.

Lemma group_models_perm models : concat (map snd (group_models models)) ≡ₚ models.
Proof.
  rewrite group_models_push. induction models as [|m models IH] using rev_ind; [done|].
  unfold push_all in *. rewrite map_app foldl_app. cbn [foldl map]. rewrite push_at_perm.
  - by rewrite IH -Permutation_cons_append.
  - apply (push_all_spec (map (λ m, (cm_model_name m, m)) models)).
Qed.

Lemma filter_length_perm {A} (f : A → bool) l l' : l ≡ₚ l' → length (List.filter f l) = length (List.filter f l').
Proof.
  induction 1 as [|x l l' _ IH|x y l|l l' l'' _ IH1 _ IH2]; cbn; [done| | |congruence].
  - by destruct (f x); cbn; rewrite IH.
  - by destruct (f x), (f y).
Qed.

(** A row that shares its name with another. *)
Definition shared_name (models : list CatalogModel) (m : CatalogModel) : bool :=
  match rows_named (cm_model_name m) models with [_] => false | _ => true end.

Lemma surplus_spec models n g :
  (n, g) ∈ group_models models → surplus (n, g) = len (List.filter (shared_name models) g).
Proof.
  intros [-> Hne]%elem_of_group. unfold surplus, len. cbn.
  assert (∀ l, (∀ m, m ∈ l → cm_model_name m = n) → List.filter (shared_name models) l
    = match rows_named n models with [_] => [] | _ => l end) as Hf.
  { induction l as [|m l IH]; intros Hl; [by destruct (rows_named n models) as [|? [|? ?]]|]. cbn.
    unfold shared_name at 1. rewrite (Hl m ltac:(set_solver)) IH; [|set_solver].
    by destruct (rows_named n models) as [|? [|? ?]]. }
  rewrite Hf; [by destruct (rows_named n models) as [|? [|? ?]]|].
  intros m [_ ?%String.eqb_eq]%list_elem_of_In%List.filter_In. done.
Qed.

Lemma shared_count models : sum_Z (map surplus (group_models models)) = len (List.filter (shared_name models) models).
Proof.
  assert (len (List.filter (shared_name models) models)
    = len (List.filter (shared_name models) (concat (map snd (group_models models))))) as ->.
  { unfold len. f_equal. symmetry. apply filter_length_perm, group_models_perm. }
  pose proof (surplus_spec models) as Hs. revert Hs. generalize (shared_name models) as f.
  induction (group_models models) as [|[n g] l IH]; intros f Hs; [done|]. cbn [map concat].
  rewrite sum_Z_cons List.filter_app (Hs n g); [|set_solver]. rewrite (IH f); [|set_solver].
  unfold len. rewrite length_app. cbn. lia.
Qed.

Lemma elem_of_kept models m :
  let out := omap singleton_of (group_models models) in
  m ∈ out ++ omap (alias_entry out) (alias_models (map fst (group_models models)) out) ↔ kept models m.
Proof. intros out. rewrite elem_of_app elem_of_unique elem_of_aliased. done. Qed.

Lemma kept_names models :
  let out := omap singleton_of (group_models models) in
  NoDup (cm_model_name <$> (out ++ omap (alias_entry out) (alias_models (map fst (group_models models)) out))).
Proof.
  intros out. rewrite fmap_app. apply NoDup_app. split_and!; [apply unique_names| |].
  - intros n (o & -> & Ho)%list_elem_of_fmap (m & E & Hm)%list_elem_of_fmap.
    apply elem_of_unique in Ho. apply elem_of_aliased in Hm as (_ & Hr & _). rewrite -E in Hr. unfold sole in Ho.
    by rewrite Hr in Ho.
  - pose proof (ordered_NoDup _ (proj1 (push_all_spec (alias_pairs (map fst (group_models models)) out)))) as Hk.
    rewrite -alias_models_push in Hk. revert Hk. induction (alias_models _ out) as [|[a l] es IH]; [constructor|].
    intros [Hn Hk]%NoDup_cons. cbn. specialize (IH Hk).
    destruct (alias_entry out (a, l)) as [m|] eqn:E; [|done]. cbn. constructor; [|done].
    apply alias_entry_Some in E as (i & o & _ & _ & _ & ->). cbn. intros (x & Ex & Hx)%list_elem_of_fmap.
    apply list_elem_of_omap in Hx as ([a' l'] & Hx & Hs). apply alias_entry_Some in Hs as (i' & o' & _ & _ & _ & ->).
    cbn in Ex. subst a'. apply Hn, list_elem_of_fmap. by exists (a, l').
Qed.

Lemma finalize_unfold version models failed :
  let out := omap singleton_of (group_models models) in
  finalize version models failed =
    if is_empty out || forallb (λ m, is_none (cm_price_data m)) out then inr "catalog contains no valid token prices"
    else inl (version, out ++ omap (alias_entry out) (alias_models (map fst (group_models models)) out),
              failed + len (List.filter (shared_name models) models)).
Proof.
  intros out. unfold finalize. rewrite unique_models_spec shared_count. fold out.
  destruct (_ || _); [done|]. by rewrite add_aliases_spec.
Qed.

(** A catalogue keeps exactly the rows whose name no other row has, and each of them
    again under an alias that is no row's name and that no other of them gives; no name
    occurs twice, every row with a shared name is counted as failed, and a catalogue is
    refused when no row that is kept has a price. *)
Theorem catalog_rows_exact version models failed :
  match finalize version models failed with
  | inl (v, out, n) =>
      v = version ∧ NoDup (cm_model_name <$> out) ∧ (∀ m, m ∈ out ↔ kept models m)
      ∧ n = failed + len (List.filter (shared_name models) models)
      ∧ ∃ m, m ∈ out ∧ cm_price_data m ≠ None
  | inr e => e = "catalog contains no valid token prices" ∧ ∀ m, kept models m → cm_price_data m = None
  end.
Proof.
  rewrite finalize_unfold. set (out := omap singleton_of _). destruct (_ || _) eqn:E.
  - assert (∀ o, sole models o → cm_price_data o = None) as Hs.
    { intros o Ho%elem_of_unique. fold out in Ho. apply orb_true_iff in E as [E|E]; [by destruct out; [apply not_elem_of_nil in Ho|]|].
      rewrite forallb_forall in E. apply list_elem_of_In, E in Ho. by destruct (cm_price_data o). }
    split; [done|]. intros m [Hm|(_ & _ & o & Em & Ho & _)]; [by apply Hs|]. rewrite Em. exact (Hs o Ho).
  - split_and!; [done|apply kept_names|apply elem_of_kept|done|].
    apply orb_false_iff in E as [_ E]. apply not_true_iff_false in E. rewrite forallb_forall in E.
    destruct (decide (Exists (λ m, cm_price_data m ≠ None) out)) as [(m & Hm & Hp)%Exists_exists|Hn].
    + exists m. split; [set_solver|done].
    + exfalso. apply E. intros m Hm%list_elem_of_In. destruct (cm_price_data m) eqn:Ep; [|done].
      exfalso. apply Hn, Exists_exists. exists m. by rewrite Ep.
Qed.

(** ** The prices of a catalogue *)
Section Accepted.
Context {D : Type} `{DecimalSign D} `{!DecimalOk D} {T : Type} `{Toml T}.
Context (json_text : Value → string) (from_slice : list ascii → Value + string)
  (blake3_hex : list ascii → string) (utf8_error : list ascii → string).

Lemma finalize_sound version models failed v out n :
  Forall (sound (D := D) version) models → finalize version models failed = inl (v, out, n) →
  v = version ∧ Forall (sound (D := D) version) out.
Proof.
  intros Hm. rewrite finalize_unfold. destruct (_ || _); [done|]. intros [= <- <- _]. split; [done|].
  rewrite Forall_forall in Hm. assert (∀ o, sole models o → sound (D := D) version o) as Hs.
  { intros o Ho. by apply Hm, (rows_named_singleton _ _ _ Ho). }
  apply Forall_forall. intros m [Ho|(_ & _ & o & E & Ho & _)]%elem_of_kept; [by apply Hs|].
  rewrite E. by apply Hs in Ho.
Qed.

Lemma parse_sound bytes version models failed :
  parse json_text from_slice blake3_hex utf8_error bytes = inl (version, models, failed) →
  Forall (sound (D := D) version) models.
Proof.
  intros E. assert (∃ v rows n, finalize v rows n = inl (version, models, failed) ∧ Forall (sound (D := D) v) rows)
    as (v & rows & n & Hf & Hr); [|by destruct (finalize_sound _ _ _ _ _ _ Hr Hf) as [-> ?]].
  revert E. unfold parse. destruct (negb _).
  - unfold parse_toml. destruct (negb _); [done|]. intros (doc & _ & E)%res_bind_inl.
    pose proof (λ v table, read_rows_sound (read_legacy_row json_text v) v table (read_legacy_row_sound json_text v)) as Hs.
    cbv zeta in E. set (v := unwrap_or _ (blake3_hex bytes)) in E. set (table := unwrap_or _ (unwrap_or _ _)) in E.
    specialize (Hs v table). destruct (read_rows (read_legacy_row json_text v) table) as [out k].
    exists v, out, k. by split.
  - intros (root & _ & E)%res_bind_inl. destruct (is_none _).
    + apply res_bind_inl in E as (rows & _ & E).
      pose proof (read_rows_sound (read_litellm_row json_text (blake3_hex bytes)) _ rows
        (read_litellm_row_sound json_text (blake3_hex bytes))) as Hs.
      destruct (read_rows (read_litellm_row json_text (blake3_hex bytes)) rows) as [out k]. exists (blake3_hex bytes), out, k. by split.
    + destruct (_ || _); [done|]. cbv zeta in E. apply res_bind_inl in E as (rows & _ & E).
      set (v := unwrap_or _ (blake3_hex bytes)) in E.
      pose proof (read_rows_sound (read_row json_text v) v rows (read_row_sound json_text v)) as Hs.
      destruct (read_rows (read_row json_text v) rows) as [out k]. exists v, out, k. by split.
Qed.

(** C39. Whatever a published catalogue holds, and in whichever of the three formats it is
    written: a price it gives a model is a well-formed card - no rate is negative, its tiers
    are strictly increasing - that the gateway reads back from its database as it was, and
    every model carries the version of the catalogue. *)
Theorem catalog_prices_accepted bytes version models failed m :
  parse json_text from_slice blake3_hex utf8_error bytes = inl (version, models, failed) → m ∈ models →
  cm_source_version m = version
  ∧ ∀ j, cm_price_data m = Some j →
      ∃ c : PriceCard D, j = to_json c ∧ card_ok c ∧ from_json j = inl (normalize_card c).
Proof.
  intros Hp Hm. pose proof (parse_sound _ _ _ _ Hp) as Hs. rewrite Forall_forall in Hs.
  destruct (Hs m Hm) as [Hv Hj]. split; [done|]. intros j (c & Hc & ->)%Hj. exists c.
  split_and!; [done|done|by apply card_read_back].
Qed.
End Accepted.

(** ** Concrete catalogues *)
#[local] Existing Instances whole whole_ok.
#[local] Instance whole_text : DecimalText Z := { dec_one := 1; dec_from_scientific := λ _, None }.
#[local] Instance whole_sign : DecimalSign Z.
Proof.
  split; [done|done|]. intros a b c [= <-]. cbn. intros Ha%Z.ltb_ge Hb%Z.ltb_ge. apply Z.ltb_ge. lia.
Qed.
(** No document is TOML. *)
#[local] Instance no_toml : Toml unit := {
  toml_parse := λ _, inr "not TOML"; toml_get := λ _ _, None; toml_str := λ _, None; toml_table := λ _, None;
  toml_table_like := λ _, None; toml_value_text := λ _, None; toml_to_string := λ _, "" }.

Definition wc_charge (key price : string) : string * Value :=
  (key, Object [("price", String price); ("unit", String "per_M_tokens")]).
Definition wc_offer (official : bool) (price : string) : Value :=
  Object [("charges", Object [wc_charge "prompt" price]); ("official", Bool official);
          ("tracks", Array [Object [("factor", Number "2"); ("triggers", Array [Object [("inclusive", Bool true);
             ("kind", String "input_tokens_above"); ("threshold", Number "1000")]])]])].
Definition wc_row (name : string) (aliases : list string) (offers : list Value) : Value :=
  Object [("aliases", Array (map String aliases)); ("model_name", String name); ("pricing", Array offers)].
Definition wc_document : Value :=
  Object [("currency", String "USD");
          ("models", Array [wc_row "a" ["x"; "b"; "y"] [wc_offer false "9"; wc_offer true "3"]; wc_row "b" ["y"; "x"] [];
                            wc_row "c" ["y"; "z"] [wc_offer true "4"]; wc_row "d" [] []; wc_row "d" [] []]);
          ("schema", String "cchp.pricing-table/v1"); ("version", String "v7")].
Definition wc_catalog : Catalog + string :=
  parse (T := unit) (D := Z) (λ _, "") (λ _, inl wc_document) (λ _, "hash") (λ _, "") (chars "{").

Example catalog_read :
  match wc_catalog with
  | inl (v, models, failed) => v = "v7" ∧ map cm_model_name models = ["a"; "b"; "c"; "z"] ∧ failed = 5
  | inr _ => False
  end.
Proof. vm_compute. split_and!; reflexivity. Qed.

(** The official offer is chosen; a price that holds from 1000 tokens on begins above 999. *)
Lemma catalog_prices_accepted_witness : ∃ models failed m,
  wc_catalog = inl ("v7", models, failed) ∧ m ∈ models ∧ cm_source_version m = "v7"
  ∧ cm_price_data m = Some (to_json (MkCard (MkRates (Some 3) None None None)
      [MkTier 999 (MkRates (Some 6) None None None)])).
Proof.
  destruct wc_catalog as [[[v models] failed]|e] eqn:E; [|exfalso; vm_compute in E; discriminate].
  destruct models as [|m models]; [exfalso; vm_compute in E; discriminate|].
  assert (v = "v7") as -> by (vm_compute in E; congruence).
  exists (m :: models), failed, m. split; [reflexivity|]. split; [by left|]. split.
  - exact (proj1 (catalog_prices_accepted (T := unit) (D := Z) _ _ _ _ _ _ _ _ m E (list_elem_of_here _ _))).
  - vm_compute in E. injection E as <- _ _. vm_compute. reflexivity.
Defined.
