(* ===== verification/PriceTables.v ===== *)
(** * PriceTables: the tables of prices and of the price synchronisation

    Models the statements of [db.rs] and [db/price_sync.rs] on the tables [model_prices],
    [cloud_model_catalog], [price_sync_missing], [price_sync_jobs] and
    [price_sync_control]. A table is the list or map of its rows, an operation one
    statement or one transaction: a function to the result and the tables, which are
    unchanged when it fails. JSON columns are kept as the values they hold. What the
    engine reports when a unique index is violated is a parameter, and so are its other
    failures, which the callers see as failed operations. *)
From Stdlib Require Import Ascii String.
From S2P Require Import Prelude Text Json Types Pricing PriceCatalog.

Local Open Scope string_scope.
Local Open Scope list_scope.
Local Open Scope Z_scope.

(** ** Rows *)
Record PriceRow := MkPriceRow {
  pw_id : Z;
  pw_provider_id : option Z;
  pw_model_name : string;
  pw_price_data : Value;
  pw_active : bool;
  pw_created_at_ms : Z;
  pw_updated_at_ms : Z;
  pw_source : string;
  pw_source_version : option string
}.

(** The rows in the order of their ids, and the id of the next row. *)
Record PriceTable := MkPriceTable { pt_rows : list PriceRow; pt_next_id : Z }.

Record ModelPrice (D : Type) := MkModelPrice {
  mp_id : Z;
  mp_provider_id : option Z;
  mp_model_name : string;
  mp_price : PriceCard D;
  mp_created_at_ms : Z;
  mp_updated_at_ms : Z
}.
Arguments MkModelPrice {D}. Arguments mp_id {D}. Arguments mp_provider_id {D}. Arguments mp_model_name {D}.
Arguments mp_price {D}. Arguments mp_created_at_ms {D}. Arguments mp_updated_at_ms {D}.

Record Counts := MkCounts {
  ct_added : Z;
  ct_updated : Z;
  ct_unchanged : Z;
  ct_manual_preserved : Z;
  ct_failed : Z
}.
Definition zero_counts : Counts := MkCounts 0 0 0 0 0.
Definition count_added (c : Counts) := MkCounts (ct_added c + 1) (ct_updated c) (ct_unchanged c) (ct_manual_preserved c) (ct_failed c).
Definition count_updated (c : Counts) := MkCounts (ct_added c) (ct_updated c + 1) (ct_unchanged c) (ct_manual_preserved c) (ct_failed c).
Definition count_unchanged (c : Counts) := MkCounts (ct_added c) (ct_updated c) (ct_unchanged c + 1) (ct_manual_preserved c) (ct_failed c).
Definition count_preserved (c : Counts) := MkCounts (ct_added c) (ct_updated c) (ct_unchanged c) (ct_manual_preserved c + 1) (ct_failed c).
Definition count_failed (c : Counts) := MkCounts (ct_added c) (ct_updated c) (ct_unchanged c) (ct_manual_preserved c) (ct_failed c + 1).

Record Conflict := MkConflict {
  cf_model_name : string;
  cf_local_id : Z;
  cf_local_price : Value;
  cf_cloud_price : Value
}.

Record Job := MkJob {
  jb_id : string;
  jb_status : string;
  jb_kind : string;
  jb_source_url : string;
  jb_source_version : string;
  jb_created_at_ms : Z;
  jb_finished_at_ms : option Z;
  jb_error : option string;
  jb_counts : Counts;
  jb_conflicts : list Conflict;
  jb_models : list CatalogModel;
  jb_expected : gmap string Z;
  jb_catalog_generation : Z
}.

Record CatalogRow := MkCatalogRow { cr_data : CatalogModel; cr_source_version : string; cr_present : bool }.

(** The one row of [price_sync_control]. *)
Record Control := MkControl {
  ctl_owner : option string;
  ctl_lease_until_ms : Z;
  ctl_last_success_ms : option Z;
  ctl_last_attempt_ms : option Z;
  ctl_last_job_id : option string;
  ctl_catalog_version : option string;
  ctl_catalog_generation : Z
}.

(** [provider_models] only with the columns that are read here. *)
Record Tables := MkTables {
  tb_prices : PriceTable;
  tb_catalog : gmap string CatalogRow;
  tb_missing : gmap string string;
  tb_jobs : gmap string Job;
  tb_control : Control;
  tb_provider_models : list (Z * string)
}.

Definition set_tb_prices v t := MkTables v (tb_catalog t) (tb_missing t) (tb_jobs t) (tb_control t) (tb_provider_models t).
Definition set_tb_catalog v t := MkTables (tb_prices t) v (tb_missing t) (tb_jobs t) (tb_control t) (tb_provider_models t).
Definition set_tb_missing v t := MkTables (tb_prices t) (tb_catalog t) v (tb_jobs t) (tb_control t) (tb_provider_models t).
Definition set_tb_jobs v t := MkTables (tb_prices t) (tb_catalog t) (tb_missing t) v (tb_control t) (tb_provider_models t).
Definition set_tb_control v t := MkTables (tb_prices t) (tb_catalog t) (tb_missing t) (tb_jobs t) v (tb_provider_models t).

Definition set_jb_status v j := MkJob (jb_id j) v (jb_kind j) (jb_source_url j) (jb_source_version j) (jb_created_at_ms j) (jb_finished_at_ms j) (jb_error j) (jb_counts j) (jb_conflicts j) (jb_models j) (jb_expected j) (jb_catalog_generation j).
Definition set_jb_kind v j := MkJob (jb_id j) (jb_status j) v (jb_source_url j) (jb_source_version j) (jb_created_at_ms j) (jb_finished_at_ms j) (jb_error j) (jb_counts j) (jb_conflicts j) (jb_models j) (jb_expected j) (jb_catalog_generation j).
Definition set_jb_source_version v j := MkJob (jb_id j) (jb_status j) (jb_kind j) (jb_source_url j) v (jb_created_at_ms j) (jb_finished_at_ms j) (jb_error j) (jb_counts j) (jb_conflicts j) (jb_models j) (jb_expected j) (jb_catalog_generation j).
Definition set_jb_finished v j := MkJob (jb_id j) (jb_status j) (jb_kind j) (jb_source_url j) (jb_source_version j) (jb_created_at_ms j) v (jb_error j) (jb_counts j) (jb_conflicts j) (jb_models j) (jb_expected j) (jb_catalog_generation j).
Definition set_jb_error v j := MkJob (jb_id j) (jb_status j) (jb_kind j) (jb_source_url j) (jb_source_version j) (jb_created_at_ms j) (jb_finished_at_ms j) v (jb_counts j) (jb_conflicts j) (jb_models j) (jb_expected j) (jb_catalog_generation j).
Definition set_jb_counts v j := MkJob (jb_id j) (jb_status j) (jb_kind j) (jb_source_url j) (jb_source_version j) (jb_created_at_ms j) (jb_finished_at_ms j) (jb_error j) v (jb_conflicts j) (jb_models j) (jb_expected j) (jb_catalog_generation j).
Definition set_jb_conflicts v j := MkJob (jb_id j) (jb_status j) (jb_kind j) (jb_source_url j) (jb_source_version j) (jb_created_at_ms j) (jb_finished_at_ms j) (jb_error j) (jb_counts j) v (jb_models j) (jb_expected j) (jb_catalog_generation j).
Definition set_jb_models v j := MkJob (jb_id j) (jb_status j) (jb_kind j) (jb_source_url j) (jb_source_version j) (jb_created_at_ms j) (jb_finished_at_ms j) (jb_error j) (jb_counts j) (jb_conflicts j) v (jb_expected j) (jb_catalog_generation j).
Definition set_jb_expected v j := MkJob (jb_id j) (jb_status j) (jb_kind j) (jb_source_url j) (jb_source_version j) (jb_created_at_ms j) (jb_finished_at_ms j) (jb_error j) (jb_counts j) (jb_conflicts j) (jb_models j) v (jb_catalog_generation j).
Definition set_jb_generation v j := MkJob (jb_id j) (jb_status j) (jb_kind j) (jb_source_url j) (jb_source_version j) (jb_created_at_ms j) (jb_finished_at_ms j) (jb_error j) (jb_counts j) (jb_conflicts j) (jb_models j) (jb_expected j) v.

(** What the engine says when a row would break a unique index. *)
Definition DbError : Type := string.

Section Tables.
Context {D : Type} `{Decimal D} (unique_violation : DbError).

(** ** [model_prices] *)
Definition in_scope (provider_id : option Z) (name : string) (r : PriceRow) : bool :=
  opt_eqb (pw_provider_id r) provider_id && String.eqb (pw_model_name r) name.

(** The key of the unique index over the active rows. *)
Definition index_scope (r : PriceRow) : Z * string := (unwrap_or (pw_provider_id r) (-1), pw_model_name r).

Definition deactivate (now_ms : Z) (r : PriceRow) : PriceRow :=
  MkPriceRow (pw_id r) (pw_provider_id r) (pw_model_name r) (pw_price_data r) false (pw_created_at_ms r) now_ms
    (pw_source r) (pw_source_version r).

(** [UPDATE model_prices SET active = FALSE, updated_at_ms = now WHERE active AND ...]:
    the number of rows changed, and the table. *)
Definition deactivate_where (f : PriceRow → bool) (now_ms : Z) (t : PriceTable) : Z * PriceTable :=
  let hit r := pw_active r && f r in
  (len (List.filter hit (pt_rows t)),
   MkPriceTable (map (λ r, if hit r then deactivate now_ms r else r) (pt_rows t)) (pt_next_id t)).

(** [INSERT INTO model_prices]: an active row, under the unique index. *)
Definition insert_row (provider_id : option Z) (name : string) (data : Value) (now_ms : Z) (source : string)
    (version : option string) (t : PriceTable) : (Z * PriceTable) + DbError :=
  let row := MkPriceRow (pt_next_id t) provider_id name data true now_ms now_ms source version in
  if existsb (λ r, pw_active r && bool_decide (index_scope r = index_scope row)) (pt_rows t) then inr unique_violation
  else inl (pt_next_id t, MkPriceTable (pt_rows t ++ [row]) (pt_next_id t + 1)).

Definition parse_model_price_data (v : Value) : PriceCard D + DbError := from_json v.

Definition normalize_model_price_data (v : Value) : Value + DbError :=
  let? price := from_json v in inl (to_json price).

(** A price entered by hand replaces the active one of its scope. *)
Definition insert_model_price (provider_id : option Z) (name : string) (data : Value) (now_ms : Z) (t : PriceTable)
    : (Z + DbError) * PriceTable :=
  match normalize_model_price_data data with
  | inr e => (inr e, t)
  | inl data =>
      match insert_row provider_id name data now_ms "manual" None
              (deactivate_where (in_scope provider_id name) now_ms t).2 with
      | inr e => (inr e, t)
      | inl (id, t') => (inl id, t')
      end
  end.

Definition find_price (f : PriceRow → bool) (t : PriceTable) : option PriceRow :=
  List.find (λ r, pw_active r && f r) (pt_rows t).

Definition has_id (id : Z) (r : PriceRow) : bool := pw_id r =? id.

(** [UPDATE ... WHERE id = price_id]: here of a row known to be active. *)
Definition update_model_price (price_id : Z) (data : Value) (now_ms : Z) (t : PriceTable)
    : (option Z + DbError) * PriceTable :=
  match normalize_model_price_data data with
  | inr e => (inr e, t)
  | inl data =>
      match find_price (has_id price_id) t with
      | None => (inl None, t)
      | Some current =>
          match insert_row (pw_provider_id current) (pw_model_name current) data now_ms "manual" None
                  (deactivate_where (has_id price_id) now_ms t).2 with
          | inr e => (inr e, t)
          | inl (id, t') => (inl (Some id), t')
          end
      end
  end.

Definition model_price (r : PriceRow) : ModelPrice D + DbError :=
  let? price := parse_model_price_data (pw_price_data r) in
  inl (MkModelPrice (pw_id r) (pw_provider_id r) (pw_model_name r) price (pw_created_at_ms r) (pw_updated_at_ms r)).

(** The transaction is committed before the price is read. *)
Definition deactivate_model_price (price_id now_ms : Z) (t : PriceTable) : (option (ModelPrice D) + DbError) * PriceTable :=
  match find_price (has_id price_id) t with
  | None => (inl None, t)
  | Some r =>
      (match model_price r with
       | inr e => inr e
       | inl p => inl (Some (MkModelPrice (mp_id p) (mp_provider_id p) (mp_model_name p) (mp_price p)
                               (mp_created_at_ms p) now_ms))
       end, (deactivate_where (has_id price_id) now_ms t).2)
  end.

(** [ORDER BY (provider_id IS NOT NULL), provider_id, model_name, created_at_ms DESC, id DESC] *)
Definition price_order (a b : PriceRow) : bool :=
  let key r := (match pw_provider_id r with None => (0, 0) | Some p => (1, p) end) in
  if negb (bool_decide (key a = key b)) then lex_leb (key a) (key b)
  else if negb (String.eqb (pw_model_name a) (pw_model_name b)) then str_leb (pw_model_name a) (pw_model_name b)
  else if negb (pw_created_at_ms a =? pw_created_at_ms b) then pw_created_at_ms b <=? pw_created_at_ms a
  else pw_id b <=? pw_id a.

Fixpoint latest (seen : list (option Z * string)) (rows : list PriceRow) : list (ModelPrice D) + DbError :=
  match rows with
  | [] => inl []
  | r :: rows =>
      let key := (pw_provider_id r, pw_model_name r) in
      if bool_decide (key ∈ seen) then latest seen rows
      else
        let? p := model_price r in
        let? ps := latest (key :: seen) rows in
        inl (p :: ps)
  end.

Definition list_latest_model_prices (t : PriceTable) : list (ModelPrice D) + DbError :=
  latest [] (sort_by price_order (List.filter pw_active (pt_rows t))).

(** ** The lease *)
Definition LEASE_MS : Z := 300000.

Definition set_lease (owner : option string) (until : Z) (c : Control) : Control :=
  MkControl owner until (ctl_last_success_ms c) (ctl_last_attempt_ms c) (ctl_last_job_id c) (ctl_catalog_version c)
    (ctl_catalog_generation c).

Definition sync_lease (owner job_id : string) (now : Z) (t : Tables) : bool * Tables :=
  let c := tb_control t in
  if ctl_lease_until_ms c <=? now then
    (true, set_tb_control (MkControl (Some owner) (now + LEASE_MS) (ctl_last_success_ms c) (Some now) (Some job_id)
             (ctl_catalog_version c) (ctl_catalog_generation c)) t)
  else (false, t).

(** [owner = $2 AND lease_until_ms > $3] *)
Definition holds_lease (owner : string) (now : Z) (c : Control) : bool :=
  bool_decide (ctl_owner c = Some owner) && (now <? ctl_lease_until_ms c).

Definition sync_renew (owner : string) (now : Z) (t : Tables) : bool * Tables :=
  let c := tb_control t in
  if holds_lease owner now c then (true, set_tb_control (set_lease (ctl_owner c) (now + LEASE_MS) c) t) else (false, t).

Definition sync_release (owner : string) (t : Tables) : Tables :=
  let c := tb_control t in
  if bool_decide (ctl_owner c = Some owner) then set_tb_control (set_lease None 0 c) t else t.

(** What [sync_status] says beyond the columns of the control row. *)
Definition sync_running (now : Z) (t : Tables) : bool := now <? ctl_lease_until_ms (tb_control t).

(** ** Jobs *)
Definition DAY_MS : Z := 86400000.

(** The column [created_at_ms] is the one of the job. *)
Definition save_sync_job (job : Job) (now : Z) (t : Tables) : Tables :=
  set_tb_jobs (filter (λ kv, now - DAY_MS <= jb_created_at_ms kv.2) (<[jb_id job := job]> (tb_jobs t))) t.

Definition sync_job (id : string) (t : Tables) : option Job := tb_jobs t !! id.

(** ** What has no price *)
Definition has_price (t : Tables) (pm : Z * string) : bool :=
  existsb (λ r, pw_active r && String.eqb (pw_model_name r) pm.2 && is_none_or (pw_provider_id r) (λ p, p =? pm.1))
    (pt_rows (tb_prices t)).

Definition sync_has_missing (version : string) (t : Tables) : bool :=
  existsb (λ pm, negb (has_price t pm) && negb (bool_decide (tb_missing t !! pm.2 = Some version)))
    (tb_provider_models t).

(** ** Preview *)

(** [price_sources]: the source of every active row. *)
Definition price_sources (t : Tables) : gmap Z string :=
  foldl (λ m r, <[pw_id r := pw_source r]> m) ∅ (List.filter pw_active (pt_rows (tb_prices t))).

Definition global_prices (prices : list (ModelPrice D)) : gmap string (ModelPrice D) :=
  foldl (λ m p, if is_none (mp_provider_id p) then <[mp_model_name p := p]> m else m) ∅ prices.

Definition prepare_model (prices : gmap string (ModelPrice D)) (sources : gmap Z string) (job : Job) (m : CatalogModel)
    : Job + DbError * Job :=
  let name := cm_model_name m in
  let job := match prices !! name with
             | Some p => set_jb_expected (<[name := mp_id p]> (jb_expected job)) job
             | None => job
             end in
  match cm_price_data m with
  | None => inl job
  | Some card =>
      match prices !! name with
      | None => inl (set_jb_counts (count_added (jb_counts job)) job)
      | Some p =>
          let? source := ok_or (sources !! mp_id p) ("local prices changed during preview", job) in
          if String.eqb source "manual" then
            inl (set_jb_conflicts (jb_conflicts job ++ [MkConflict name (mp_id p) (to_json (mp_price p)) card])
                   (set_jb_counts (count_preserved (jb_counts job)) job))
          else if value_eqb (to_json (mp_price p)) card
          then inl (set_jb_counts (count_unchanged (jb_counts job)) job)
          else inl (set_jb_counts (count_updated (jb_counts job)) job)
      end
  end.

Fixpoint prepare_models (prices : gmap string (ModelPrice D)) (sources : gmap Z string) (job : Job) (l : list CatalogModel)
    : Job + DbError * Job :=
  match l with
  | [] => inl job
  | m :: l => let? job := prepare_model prices sources job m in prepare_models prices sources job l
  end.

(** The tables as the three queries find them; on an error the job stays as it has become. *)
Definition prepare_sync (status_at prices_at sources_at : Tables) (job : Job) : Job + DbError * Job :=
  let job := set_jb_generation (ctl_catalog_generation (tb_control status_at)) job in
  let? prices := match list_latest_model_prices (tb_prices prices_at) with inl ps => inl ps | inr e => inr (e, job) end in
  prepare_models (global_prices prices) (price_sources sources_at) job (jb_models job).

(** ** Applying a job *)

(** One model: its row in the catalogue, and its price. *)
Definition apply_model (job : Job) (selected : gset string) (now : Z) (m : CatalogModel) (acc : Counts * Tables)
    : (Counts * Tables) + DbError :=
  let '(counts, t) := acc in
  let name := cm_model_name m in
  let t := set_tb_catalog (<[name := MkCatalogRow m (jb_source_version job) true]> (tb_catalog t)) t in
  match cm_price_data m with
  | None => inl (counts, t)
  | Some card =>
      let current := find_price (in_scope None name) (tb_prices t) in
      let insert counts prices :=
        let? inserted := insert_row None name card now "cloud" (Some (jb_source_version job)) prices in
        inl (counts, set_tb_prices inserted.2 t) in
      if negb (bool_decide (option_map pw_id current = jb_expected job !! name))
      then inr ("price changed since preview: " +:+ name)
      else match current with
           | None => insert (count_added counts) (tb_prices t)
           | Some r =>
               if String.eqb (pw_source r) "manual" && negb (bool_decide (name ∈ selected))
               then inl (count_preserved counts, t)
               else
                 let? old := parse_model_price_data (pw_price_data r) in
                 if value_eqb (to_json old) card && String.eqb (pw_source r) "cloud"
                 then inl (count_unchanged counts, t)
                 else
                   let '(changed, prices) := deactivate_where (has_id (pw_id r)) now (tb_prices t) in
                   if negb (changed =? 1) then inr "price changed during apply"
                   else insert (count_updated counts) prices
           end
  end.

Fixpoint apply_models (job : Job) (selected : gset string) (now : Z) (l : list CatalogModel) (acc : Counts * Tables)
    : (Counts * Tables) + DbError :=
  match l with
  | [] => inl acc
  | m :: l => let? acc := apply_model job selected now m acc in apply_models job selected now l acc
  end.

Definition absent (r : CatalogRow) : CatalogRow := MkCatalogRow (cr_data r) (cr_source_version r) false.

(** [INSERT INTO price_sync_missing SELECT DISTINCT ...] into the emptied table. *)
Definition missing_of (version : string) (t : Tables) : gmap string string :=
  foldl (λ m pm, if has_price t pm then m else <[pm.2 := version]> m) ∅ (tb_provider_models t).

(** The transaction: on an error nothing of it is kept. *)
Definition apply_sync (job : Job) (selected : gset string) (owner : string) (now : Z) (t : Tables)
    : (Counts + DbError) * Tables :=
  let c := tb_control t in
  if negb (holds_lease owner now c) then (inr "sync lease expired", t)
  else if negb (ctl_catalog_generation c =? jb_catalog_generation job)
  then (inr "catalog changed since preview; create a new preview", t)
  else
    let t1 := set_tb_catalog (absent <$> tb_catalog t) t in
    match apply_models job selected now (jb_models job) (MkCounts 0 0 0 0 (ct_failed (jb_counts job)), t1) with
    | inr e => (inr e, t)
    | inl (counts, t2) =>
        (inl counts,
         set_tb_control (MkControl (ctl_owner c) (now + LEASE_MS) (Some now) (ctl_last_attempt_ms c) (ctl_last_job_id c)
                           (Some (jb_source_version job)) (ctl_catalog_generation c + 1))
           (set_tb_missing (missing_of (jb_source_version job) t2) t2))
    end.
End Tables.

(** ** The prices in force *)

(** The active rows obey the unique index; ids are unique and have all been drawn. *)
Record table_ok (t : PriceTable) : Prop := {
  ok_scopes : NoDup (index_scope <$> List.filter pw_active (pt_rows t));
  ok_ids : NoDup (pw_id <$> pt_rows t);
  ok_next : ∀ r, r ∈ pt_rows t → pw_id r < pt_next_id t
}.

(** The price in force for a scope. *)
Definition price_at (t : PriceTable) (provider_id : option Z) (name : string) : option PriceRow :=
  find_price (in_scope provider_id name) t.

Lemma in_scope_spec p n r : in_scope p n r = true ↔ pw_provider_id r = p ∧ pw_model_name r = n.
Proof. unfold in_scope. rewrite andb_true_iff String.eqb_eq. destruct (opt_eqb_spec (pw_provider_id r) p); naive_solver. Qed.

Lemma find_price_Some f t r : find_price f t = Some r → r ∈ pt_rows t ∧ pw_active r = true ∧ f r = true.
Proof. intros [Hin Hf]%List.find_some. apply andb_true_iff in Hf as [? ?]. split; [by apply list_elem_of_In|done]. Qed.

Lemma find_price_None f t r : find_price f t = None → r ∈ pt_rows t → pw_active r = true → f r = false.
Proof. intros Hn Hr Ha. apply list_elem_of_In in Hr. pose proof (List.find_none _ _ Hn r Hr) as E. cbn in E. by rewrite Ha in E. Qed.

Lemma price_at_Some t p n r :
  price_at t p n = Some r → r ∈ pt_rows t ∧ pw_active r = true ∧ pw_provider_id r = p ∧ pw_model_name r = n.
Proof. intros (? & ? & ?%in_scope_spec)%find_price_Some. tauto. Qed.

Lemma NoDup_fmap_same {A B} (f : A → B) l x y : NoDup (f <$> l) → x ∈ l → y ∈ l → f x = f y → x = y.
Proof.
  intros Hd (i & Hi)%list_elem_of_lookup (j & Hj)%list_elem_of_lookup E.
  assert (i = j) as ->; [|congruence]. eapply (NoDup_lookup _ i j (f x) Hd); rewrite list_lookup_fmap ?Hi ?Hj; cbn; congruence.
Qed.

Lemma elem_of_active t r : r ∈ List.filter pw_active (pt_rows t) ↔ r ∈ pt_rows t ∧ pw_active r = true.
Proof. by rewrite list_elem_of_In List.filter_In -list_elem_of_In. Qed.

(** One active row per scope. *)
Lemma active_unique t p n r r' :
  table_ok t → price_at t p n = Some r → r' ∈ pt_rows t → pw_active r' = true → in_scope p n r' = true → r' = r.
Proof.
  intros Hok (Hr & Ha & <- & <-)%price_at_Some Hr' Ha' [Hp Hn]%in_scope_spec.
  eapply (NoDup_fmap_same index_scope); [apply Hok|by apply elem_of_active|by apply elem_of_active|].
  unfold index_scope. by rewrite Hp Hn.
Qed.

Lemma price_at_intro t r : table_ok t → r ∈ pt_rows t → pw_active r = true →
  price_at t (pw_provider_id r) (pw_model_name r) = Some r.
Proof.
  intros Hok Hr Ha. assert (in_scope (pw_provider_id r) (pw_model_name r) r = true) as Hs by by apply in_scope_spec.
  destruct (price_at t (pw_provider_id r) (pw_model_name r)) as [r'|] eqn:E.
  - f_equal. symmetry. by eapply active_unique.
  - by rewrite (find_price_None _ _ _ E Hr Ha) in Hs.
Qed.

Lemma filter_active_deactivate f now (rows : list PriceRow) :
  List.filter pw_active (map (λ r, if pw_active r && f r then deactivate now r else r) rows)
  = List.filter (λ r, pw_active r && negb (f r)) rows.
Proof.
  induction rows as [|r rows IH]; [done|]. cbn. destruct (pw_active r) eqn:Ea, (f r); cbn; rewrite ?Ea IH; done.
Qed.

Lemma deactivate_ids f now (rows : list PriceRow) :
  pw_id <$> map (λ r, if pw_active r && f r then deactivate now r else r) rows = pw_id <$> rows.
Proof. induction rows as [|r rows IH]; [done|]. cbn. rewrite -IH. by destruct (_ && _). Qed.

Lemma NoDup_filter_less {A B} (k : A → B) (f g : A → bool) l :
  (∀ x, f x = true → g x = true) → NoDup (k <$> List.filter g l) → NoDup (k <$> List.filter f l).
Proof.
  intros Hfg. induction l as [|x l IH]; [done|]. cbn. destruct (f x) eqn:Ef.
  - rewrite (Hfg x Ef). cbn. intros [Hn Hd]%NoDup_cons. apply NoDup_cons. split; [|by apply IH].
    intros (y & E & Hy)%list_elem_of_fmap. apply Hn, list_elem_of_fmap. exists y. split; [done|].
    apply list_elem_of_In, List.filter_In in Hy as [? ?]. apply list_elem_of_In, List.filter_In. auto.
  - destruct (g x); [intros [_ ?]%NoDup_cons|]; by apply IH.
Qed.

Lemma deactivate_where_ok f now t : table_ok t → table_ok (deactivate_where f now t).2.
Proof.
  intros [Hs Hi Hn]. split; cbn.
  - rewrite filter_active_deactivate. eapply NoDup_filter_less, Hs.
    by intros r [? _]%andb_true_iff.
  - by rewrite deactivate_ids.
  - intros r (r0 & <- & Hr)%list_elem_of_In%in_map_iff. apply list_elem_of_In in Hr. specialize (Hn r0 Hr).
    by destruct (_ && _).
Qed.

Lemma price_at_deactivate t p n r now p' n' :
  table_ok t → price_at t p n = Some r →
  price_at (deactivate_where (has_id (pw_id r)) now t).2 p' n' =
    if bool_decide ((p', n') = (p, n)) then None else price_at t p' n'.
Proof.
  intros Hok Hp. pose proof (price_at_Some _ _ _ _ Hp) as (Hr & Ha & Hpr & Hnr).
  assert (∀ x, x ∈ pt_rows t → has_id (pw_id r) x = true → x = r) as Hid.
  { intros x Hx E%Z.eqb_eq. by eapply (NoDup_fmap_same pw_id); [apply Hok|..]. }
  assert (∀ x, x ∈ pt_rows t → pw_active x = true → in_scope p n x = true → x = r) as Hun.
  { intros x Hx Hxa Hxs. by eapply active_unique. }
  unfold price_at, find_price, deactivate_where. cbn [snd pt_rows]. clear Hok Hp. 
  revert Hid Hun. generalize (pt_rows t) as rows. clear Hr. induction rows as [|x rows IH]; intros Hid Hun.
  { cbn. by destruct (bool_decide _). }
  cbn [map List.find]. specialize (IH ltac:(set_solver) ltac:(set_solver)).
  destruct (pw_active x && has_id (pw_id r) x) eqn:E; cbn [deactivate pw_active andb].
  - apply andb_true_iff in E as [_ Ex]. assert (x = r) as -> by (apply Hid; [set_solver|done]). rewrite IH Ha. cbn.
    case_bool_decide as Hd; [done|]. destruct (in_scope p' n' r) eqn:Es; [|done].
    apply in_scope_spec in Es as [? ?]. exfalso. apply Hd. congruence.
  - rewrite IH. destruct (pw_active x) eqn:Exa; [|done]. cbn in *. destruct (in_scope p' n' x) eqn:Es; [|done].
    case_bool_decide as Hd; [|done]. injection Hd as -> ->. exfalso.
    assert (x = r) as -> by (apply Hun; [set_solver|done|done]). unfold has_id in E. by rewrite Z.eqb_refl in E.
Qed.

Definition new_row (t : PriceTable) (p : option Z) (n : string) (data : Value) (now : Z) (source : string)
    (version : option string) : PriceRow :=
  MkPriceRow (pt_next_id t) p n data true now now source version.

Lemma insert_row_inl uv p n data now src v t id t' :
  insert_row uv p n data now src v t = inl (id, t') →
  id = pt_next_id t ∧ t' = MkPriceTable (pt_rows t ++ [new_row t p n data now src v]) (pt_next_id t + 1)
  ∧ ∀ r, r ∈ pt_rows t → pw_active r = true → index_scope r ≠ (unwrap_or p (-1), n).
Proof.
  unfold insert_row. destruct (existsb _ _) eqn:E; [done|]. intros [= <- <-]. split_and!; [done|done|].
  intros r Hr Ha Hs. apply not_true_iff_false in E. apply E, existsb_exists. exists r.
  split; [by apply list_elem_of_In|]. rewrite Ha. by apply bool_decide_eq_true.
Qed.

Lemma insert_row_ok uv p n data now src v t id t' :
  table_ok t → insert_row uv p n data now src v t = inl (id, t') → table_ok t'.
Proof.
  intros [Hs Hi Hn] (-> & -> & Hfree)%insert_row_inl. split; cbn [pt_rows pt_next_id].
  - rewrite List.filter_app fmap_app. cbn. apply NoDup_app. split_and!; [done| |apply NoDup_singleton].
    intros s (r & -> & [Hr Ha]%elem_of_active)%list_elem_of_fmap Hx. apply list_elem_of_singleton in Hx.
    by apply (Hfree r Hr Ha).
  - rewrite fmap_app. cbn. apply NoDup_app. split_and!; [done| |apply NoDup_singleton].
    intros i (r & -> & Hr)%list_elem_of_fmap Hx. apply list_elem_of_singleton in Hx. specialize (Hn r Hr). lia.
  - intros r [Hr| ->%list_elem_of_singleton]%elem_of_app; [specialize (Hn r Hr); lia|cbn; lia].
Qed.

Lemma price_at_insert uv p n data now src v t id t' p' n' :
  insert_row uv p n data now src v t = inl (id, t') →
  price_at t' p' n' = if bool_decide ((p', n') = (p, n)) then Some (new_row t p n data now src v) else price_at t p' n'.
Proof.
  intros (-> & -> & Hfree)%insert_row_inl. unfold price_at, find_price. cbn [pt_rows].
  assert (List.find (λ r, pw_active r && in_scope p' n' r) [new_row t p n data now src v]
    = if bool_decide ((p', n') = (p, n)) then Some (new_row t p n data now src v) else None) as Hnew.
  { cbn [List.find]. change (pw_active (new_row t p n data now src v)) with true. cbn [andb].
    destruct (in_scope p' n' _) eqn:E; case_bool_decide as Hd; try done.
    - apply in_scope_spec in E as [? ?]. exfalso. apply Hd. cbn in *. congruence.
    - injection Hd as -> ->. apply not_true_iff_false in E. exfalso. by apply E, in_scope_spec. }
  revert Hfree. induction (pt_rows t) as [|r rows IH]; intros Hfree; [exact Hnew|].
  cbn [app List.find]. rewrite IH; [|set_solver]. destruct (pw_active r && in_scope p' n' r) eqn:E; [|done].
  case_bool_decide as Hd; [|done]. injection Hd as -> ->. apply andb_true_iff in E as [Ha [Hp Hn]%in_scope_spec].
  exfalso. apply (Hfree r ltac:(set_solver) Ha). unfold index_scope. by rewrite Hp Hn.
Qed.

(** Nothing an active row has been is lost. *)
Definition keeps_history (t t' : PriceTable) : Prop :=
  ∀ r, r ∈ pt_rows t → ∃ r', r' ∈ pt_rows t' ∧ pw_id r' = pw_id r ∧ pw_price_data r' = pw_price_data r
    ∧ pw_provider_id r' = pw_provider_id r ∧ pw_model_name r' = pw_model_name r ∧ pw_source r' = pw_source r.

Lemma keeps_history_refl t : keeps_history t t.
Proof. intros r Hr. by exists r. Qed.

Lemma keeps_history_trans t t' t'' : keeps_history t t' → keeps_history t' t'' → keeps_history t t''.
Proof.
  intros H1 H2 r (r1 & Hr1 & E1)%H1. destruct (H2 r1 Hr1) as (r2 & Hr2 & E2). exists r2. split; [done|].
  destruct E1 as (? & ? & ? & ? & ?), E2 as (? & ? & ? & ? & ?). split_and!; congruence.
Qed.

Lemma deactivate_history f now t : keeps_history t (deactivate_where f now t).2.
Proof.
  intros r Hr. exists (if pw_active r && f r then deactivate now r else r). split; [|by destruct (_ && _)].
  apply list_elem_of_In, in_map_iff. exists r. split; [done|by apply list_elem_of_In].
Qed.

Lemma insert_history uv p n data now src v t id t' :
  insert_row uv p n data now src v t = inl (id, t') → keeps_history t t'.
Proof. intros (_ & -> & _)%insert_row_inl r Hr. exists r. split; [set_solver|done]. Qed.

(** What applying a model leaves alone. *)
Definition rest_of (t : Tables) := (tb_missing t, tb_jobs t, tb_control t, tb_provider_models t).

(** ** One model applied *)
Section Apply.
Context {D : Type} `{Decimal D} (unique_violation : DbError) (job : Job) (selected : gset string) (now : Z).

Definition kept_by_hand (name : string) (r : PriceRow) : bool :=
  String.eqb (pw_source r) "manual" && negb (bool_decide (name ∈ selected)).

Definition up_to_date (card : Value) (r : PriceRow) : bool :=
  match from_json (D := D) (pw_price_data r) with
  | inl old => value_eqb (to_json old) card && String.eqb (pw_source r) "cloud"
  | inr _ => false
  end.

(** What happens to the price in force of one model. *)
Inductive outcome (name : string) (card : Value) : option PriceRow → option PriceRow → Prop :=
  | Preserved r : kept_by_hand name r → outcome name card (Some r) (Some r)
  | Unchanged r : kept_by_hand name r = false → up_to_date card r → outcome name card (Some r) (Some r)
  | Replaced r id : kept_by_hand name r = false → up_to_date card r = false →
      outcome name card (Some r)
        (Some (MkPriceRow id None name card true now now "cloud" (Some (jb_source_version job))))
  | Added id :
      outcome name card None
        (Some (MkPriceRow id None name card true now now "cloud" (Some (jb_source_version job)))).

(** What it counts as. *)
Definition verdict (name : string) (card : Value) (current : option PriceRow) (c : Counts) : Counts :=
  match current with
  | None => count_added c
  | Some r => if kept_by_hand name r then count_preserved c
              else if up_to_date card r then count_unchanged c else count_updated c
  end.

Lemma deactivated_one t r :
  table_ok t → r ∈ pt_rows t → pw_active r = true → (deactivate_where (has_id (pw_id r)) now t).1 = 1.
Proof.
  intros [_ Hi _] Hr Ha. cbn. clear selected. 
  assert (List.filter (λ x, pw_active x && has_id (pw_id r) x) (pt_rows t) = [r]) as ->; [|done].
  revert Hi Hr. induction (pt_rows t) as [|x rows IH]; [set_solver|]. cbn. intros [Hn Hd]%NoDup_cons Hr.
  apply elem_of_cons in Hr as [->|Hr].
  - rewrite Ha /has_id Z.eqb_refl. cbn. f_equal. clear IH. induction rows as [|y rows IH]; [done|]. cbn in *.
    apply not_elem_of_cons in Hn as [Hy Hn]. apply NoDup_cons in Hd as [_ Hd].
    rewrite (proj2 (Z.eqb_neq (pw_id y) (pw_id x))); [|congruence]. rewrite andb_false_r. by apply IH.
  - assert (pw_id x ≠ pw_id r) as Hne.
    { intros E. apply Hn. rewrite E. by apply list_elem_of_fmap_2. }
    rewrite {1}/has_id (proj2 (Z.eqb_neq _ _) Hne) andb_false_r. by apply IH.
Qed.

Lemma apply_model_priced m card counts t counts' t' :
  cm_price_data m = Some card → table_ok (tb_prices t) →
  apply_model unique_violation job selected now m (counts, t) = inl (counts', t') →
  let name := cm_model_name m in
  table_ok (tb_prices t') ∧ keeps_history (tb_prices t) (tb_prices t')
  ∧ option_map pw_id (price_at (tb_prices t) None name) = jb_expected job !! name
  ∧ outcome name card (price_at (tb_prices t) None name) (price_at (tb_prices t') None name)
  ∧ counts' = verdict name card (price_at (tb_prices t) None name) counts
  ∧ tb_catalog t' = <[name := MkCatalogRow m (jb_source_version job) true]> (tb_catalog t)
  ∧ rest_of t' = rest_of t
  ∧ ∀ p n, (p, n) ≠ (None, name) → price_at (tb_prices t') p n = price_at (tb_prices t) p n.
Proof.
  intros Hc Hok. unfold apply_model. rewrite Hc. cbv zeta. cbn [tb_prices set_tb_catalog]. set (name := cm_model_name m).
  fold (price_at (tb_prices t) None name). case_bool_decide as Hexp; [|done]. cbn [negb].
  set (t1 := set_tb_catalog _ t).
  assert (∀ prices c, (let? inserted := insert_row unique_violation None name card now "cloud" (Some (jb_source_version job)) prices in
      inl (c, set_tb_prices inserted.2 t1)) = inl (counts', t') → counts' = c ∧ tb_catalog t' = tb_catalog t1 ∧ rest_of t' = rest_of t
      ∧ ∃ id, insert_row unique_violation None name card now "cloud" (Some (jb_source_version job)) prices = inl (id, tb_prices t')) as Hins.
  { intros prices c ([id p'] & Hi & E)%res_bind_inl. injection E as <- <-. split_and!; [done..|]. by exists id. }
  destruct (price_at (tb_prices t) None name) as [r|] eqn:Ecur; unfold verdict.
  - destruct (price_at_Some _ _ _ _ Ecur) as (Hr & Ha & _ & _). fold (kept_by_hand name r).
    destruct (kept_by_hand name r) eqn:Ek.
    { intros [= <- <-]. cbn. rewrite Ecur. split_and!; [done|apply keeps_history_refl|done|by constructor; rewrite Ek|done..]. }
    intros (old & Hold & E)%res_bind_inl. unfold parse_model_price_data in Hold.
    assert (up_to_date card r = value_eqb (to_json old) card && String.eqb (pw_source r) "cloud") as Hup
      by by rewrite /up_to_date Hold.
    rewrite -Hup in E. destruct (up_to_date card r) eqn:Eu.
    { injection E as <- <-. cbn. rewrite Ecur.
      split_and!; [done|apply keeps_history_refl|done|by apply Unchanged; rewrite ?Eu|done..]. }
    pose proof (deactivated_one _ r Hok Hr Ha) as H1.
    destruct (deactivate_where _ _ _) as [changed prices] eqn:Edw. cbn in H1. rewrite H1 in E. cbn in E.
    destruct (Hins _ _ E) as (-> & Hcat & Hrest & id & Hid).
    assert (prices = (deactivate_where (has_id (pw_id r)) now (tb_prices t)).2) as Hpr by by rewrite Edw.
    assert (table_ok prices) as Hokp by (rewrite Hpr; by apply deactivate_where_ok).
    split_and!; [by eapply insert_row_ok| |done| |done|done|done|].
    + eapply keeps_history_trans; [|by eapply insert_history]. rewrite Hpr. apply deactivate_history.
    + rewrite (price_at_insert _ _ _ _ _ _ _ _ _ _ _ _ Hid) bool_decide_eq_true_2 //. by apply Replaced.
    + intros p n Hne. rewrite (price_at_insert _ _ _ _ _ _ _ _ _ _ _ _ Hid) bool_decide_eq_false_2 // Hpr.
      rewrite (price_at_deactivate _ None name r) // bool_decide_eq_false_2 //.
  - intros E. destruct (Hins _ _ E) as (-> & Hcat & Hrest & id & Hid).
    split_and!; [by eapply insert_row_ok|by eapply insert_history|done| |done|done|done|].
    + rewrite (price_at_insert _ _ _ _ _ _ _ _ _ _ _ _ Hid) bool_decide_eq_true_2 //. apply Added.
    + intros p n Hne. by rewrite (price_at_insert _ _ _ _ _ _ _ _ _ _ _ _ Hid) bool_decide_eq_false_2.
Qed.

Lemma apply_model_unpriced m counts t :
  cm_price_data m = None → apply_model unique_violation job selected now m (counts, t)
  = inl (counts, set_tb_catalog (<[cm_model_name m := MkCatalogRow m (jb_source_version job) true]> (tb_catalog t)) t).
Proof. intros Hc. unfold apply_model. by rewrite Hc. Qed.

(** The counts after a list of models, judged by the prices in force before. *)
Definition tally (prices : PriceTable) (l : list CatalogModel) (c : Counts) : Counts :=
  foldl (λ c m, match cm_price_data m with
                | Some card => verdict (cm_model_name m) card (price_at prices None (cm_model_name m)) c
                | None => c
                end) c l.

Lemma tally_ext prices prices' l c :
  (∀ m, m ∈ l → price_at prices None (cm_model_name m) = price_at prices' None (cm_model_name m)) →
  tally prices l c = tally prices' l c.
Proof.
  revert c. induction l as [|m l IH]; intros c Hl; [done|]. unfold tally. cbn [foldl]. rewrite (Hl m ltac:(set_solver)).
  apply IH. set_solver.
Qed.

Definition is_priced (m : CatalogModel) : bool := is_some (cm_price_data m).

Record applied (l : list CatalogModel) (c : Counts) (t : Tables) (c' : Counts) (t' : Tables) : Prop := {
  ap_table : table_ok (tb_prices t');
  ap_history : keeps_history (tb_prices t) (tb_prices t');
  ap_others : ∀ p n, (∀ m, m ∈ l → is_priced m → (p, n) ≠ (None, cm_model_name m)) →
    price_at (tb_prices t') p n = price_at (tb_prices t) p n;
  ap_prices : ∀ m card, m ∈ l → cm_price_data m = Some card →
    outcome (cm_model_name m) card (price_at (tb_prices t) None (cm_model_name m))
      (price_at (tb_prices t') None (cm_model_name m));
  ap_expected : ∀ m, m ∈ l → is_priced m →
    option_map pw_id (price_at (tb_prices t) None (cm_model_name m)) = jb_expected job !! cm_model_name m;
  ap_counts : c' = tally (tb_prices t) l c;
  ap_listed : ∀ m, m ∈ l → tb_catalog t' !! cm_model_name m = Some (MkCatalogRow m (jb_source_version job) true);
  ap_unlisted : ∀ n, n ∉ cm_model_name <$> l → tb_catalog t' !! n = tb_catalog t !! n;
  ap_rest : rest_of t' = rest_of t
}.

Lemma apply_models_applied l : ∀ c t c' t',
  table_ok (tb_prices t) → NoDup (cm_model_name <$> l) →
  apply_models unique_violation job selected now l (c, t) = inl (c', t') → applied l c t c' t'.
Proof.
  induction l as [|m l IH]; intros c t c' t' Hok; cbn [apply_models].
  { intros _ [= <- <-]. split; try done; try apply keeps_history_refl; intros ? ?; set_solver. }
  rewrite fmap_cons. intros [Hn Hd]%NoDup_cons ([c1 t1] & H1 & E)%res_bind_inl.
  assert (∀ m', m' ∈ l → cm_model_name m' ≠ cm_model_name m) as Hne.
  { intros m' Hm' Ee. apply Hn. rewrite -Ee. by apply list_elem_of_fmap_2. }
  destruct (cm_price_data m) as [card|] eqn:Ec.
  - destruct (apply_model_priced _ _ _ _ _ _ Ec Hok H1) as (Hok1 & Hh1 & He1 & Ho1 & Hc1 & Hcat1 & Hr1 & Hp1).
    destruct (IH _ _ _ _ Hok1 Hd E) as [A B C F G K L N O].
    assert (∀ m', m' ∈ l → price_at (tb_prices t1) None (cm_model_name m') = price_at (tb_prices t) None (cm_model_name m')) as Hsame.
    { intros m' Hm'. apply Hp1. intros [= Ee]. by apply (Hne m' Hm'). }
    assert (price_at (tb_prices t') None (cm_model_name m) = price_at (tb_prices t1) None (cm_model_name m)) as Hlast.
    { apply C. intros m' Hm' _ [= Ee]. by apply (Hne m' Hm'). }
    split.
    + done.
    + by eapply keeps_history_trans.
    + intros p n Hpn. rewrite C; [|intros m' Hm'; apply Hpn; set_solver]. apply Hp1, Hpn; [set_solver|]. by rewrite /is_priced Ec.
    + intros m' card' [->|Hm']%elem_of_cons Hc'; [|rewrite -Hsame //; by apply F].
      rewrite Hlast. rewrite Ec in Hc'. by injection Hc' as <-.
    + intros m' [->|Hm']%elem_of_cons Hpr; [done|]. rewrite -Hsame //. by apply G.
    + rewrite K Hc1 (tally_ext _ (tb_prices t)); [|done]. unfold tally at 2. cbn [foldl]. by rewrite Ec.
    + intros m' [->|Hm']%elem_of_cons; [|by apply L]. rewrite N // Hcat1. apply lookup_insert_eq.
    + intros n Hx. rewrite N; [|set_solver]. rewrite Hcat1. apply lookup_insert_ne. set_solver.
    + by rewrite O.
  - rewrite apply_model_unpriced // in H1. injection H1 as <- <-.
    destruct (IH _ _ _ _ (Hok : table_ok (tb_prices (set_tb_catalog _ t))) Hd E) as [A B C F G K L N O]. split; try done.
    + intros p n Hpn. apply C. set_solver.
    + intros m' card' [->|Hm']%elem_of_cons Hc'; [congruence|]. by apply F.
    + intros m' [->|Hm']%elem_of_cons Hpr; [by rewrite /is_priced Ec in Hpr|]. by apply G.
    + rewrite K. unfold tally at 2. cbn [foldl]. by rewrite Ec.
    + intros m' [->|Hm']%elem_of_cons; [|by apply L]. rewrite N //. apply lookup_insert_eq.
    + intros n Hx. rewrite N; [|set_solver]. apply lookup_insert_ne. set_solver.
Qed.
End Apply.

(** ** A whole catalogue applied *)
Section Sync.
Context {D : Type} `{Decimal D} (unique_violation : DbError).

(** C15. Applying a catalogue is all or nothing. It needs the lease and the generation of
    its preview; then a price entered by hand stays unless it was selected, a price that
    is up to date stays, every other price of the catalogue comes into force under the
    version of the catalogue, exactly one per model; prices of providers and of other
    models stay, nothing that was ever in force is lost, the counts tell what happened,
    and exactly the models of the catalogue are listed as present. *)
Theorem sync_applies_catalog job selected owner now t :
  table_ok (tb_prices t) → NoDup (cm_model_name <$> jb_models job) →
  match apply_sync (D := D) unique_violation job selected owner now t with
  | (inr _, t') => t' = t
  | (inl counts, t') =>
      holds_lease owner now (tb_control t) ∧ ctl_catalog_generation (tb_control t) = jb_catalog_generation job
      ∧ table_ok (tb_prices t') ∧ keeps_history (tb_prices t) (tb_prices t')
      ∧ (∀ m card, m ∈ jb_models job → cm_price_data m = Some card →
           outcome (D := D) job selected now (cm_model_name m) card (price_at (tb_prices t) None (cm_model_name m))
             (price_at (tb_prices t') None (cm_model_name m)))
      ∧ (∀ p n, (∀ m, m ∈ jb_models job → is_priced m → (p, n) ≠ (None, cm_model_name m)) →
           price_at (tb_prices t') p n = price_at (tb_prices t) p n)
      ∧ counts = tally (D := D) selected (tb_prices t) (jb_models job) (MkCounts 0 0 0 0 (ct_failed (jb_counts job)))
      ∧ (∀ n row, tb_catalog t' !! n = Some row ∧ cr_present row ↔
           ∃ m, m ∈ jb_models job ∧ cm_model_name m = n ∧ row = MkCatalogRow m (jb_source_version job) true)
      ∧ ctl_catalog_generation (tb_control t') = ctl_catalog_generation (tb_control t) + 1
      ∧ ctl_owner (tb_control t') = Some owner
  end.
Proof.
  intros Hok Hd. unfold apply_sync. destruct (holds_lease owner now (tb_control t)) eqn:El; [|done]. cbn [negb].
  destruct (Z.eqb_spec (ctl_catalog_generation (tb_control t)) (jb_catalog_generation job)) as [Eg|]; [|done]. cbn [negb].
  destruct (apply_models _ _ _ _ _ _) as [[counts t2]|e] eqn:E; [|done].
  apply apply_models_applied in E; [|done|done]. destruct E as [A B C F G K L N O].
  split_and!; try done.
  - intros n row. cbn [tb_catalog set_tb_control set_tb_missing]. split.
    + intros [Hx Hp]. destruct (decide (n ∈ cm_model_name <$> jb_models job)) as [(m & -> & Hm)%list_elem_of_fmap|Hn].
      * rewrite (L m Hm) in Hx. injection Hx as <-. by exists m.
      * rewrite N // in Hx. cbn in Hx. rewrite lookup_fmap in Hx.
        destruct (tb_catalog t !! n); cbn in Hx; [|done]. injection Hx as <-. done.
    + intros (m & Hm & <- & ->). by rewrite (L m Hm).
  - cbn. apply andb_true_iff in El as [Ho _]. by apply bool_decide_eq_true in Ho.
Qed.

(** *** The lease *)
Inductive SyncOp :=
  | OpLease (owner job_id : string) (now : Z)
  | OpRenew (owner : string) (now : Z)
  | OpRelease (owner : string)
  | OpApply (owner : string) (job : Job) (selected : gset string) (now : Z)
  | OpSave (job : Job) (now : Z)
  | OpInsertPrice (provider_id : option Z) (name : string) (data : Value) (now : Z)
  | OpUpdatePrice (id : Z) (data : Value) (now : Z)
  | OpDeactivatePrice (id now : Z).

Definition run_op (t : Tables) (op : SyncOp) : Tables :=
  match op with
  | OpLease owner job_id now => (sync_lease owner job_id now t).2
  | OpRenew owner now => (sync_renew owner now t).2
  | OpRelease owner => sync_release owner t
  | OpApply owner job selected now => (apply_sync (D := D) unique_violation job selected owner now t).2
  | OpSave job now => save_sync_job job now t
  | OpInsertPrice p n v now => set_tb_prices (insert_model_price (D := D) unique_violation p n v now (tb_prices t)).2 t
  | OpUpdatePrice id v now => set_tb_prices (update_model_price (D := D) unique_violation id v now (tb_prices t)).2 t
  | OpDeactivatePrice id now => set_tb_prices (deactivate_model_price (D := D) id now (tb_prices t)).2 t
  end.

(** The worker whose lease an operation relies on. *)
Definition needs_lease_of (o : string) (op : SyncOp) : bool :=
  match op with OpRenew o' _ | OpRelease o' | OpApply o' _ _ _ => String.eqb o' o | _ => false end.
Definition takes_lease (o : string) (op : SyncOp) : bool :=
  match op with OpLease o' _ _ => String.eqb o' o | _ => false end.

Lemma apply_sync_control job selected owner now t :
  let t' := (apply_sync (D := D) unique_violation job selected owner now t).2 in
  ctl_owner (tb_control t') = ctl_owner (tb_control t).
Proof.
  unfold apply_sync. destruct (negb _); [done|]. destruct (negb _); [done|].
  by destruct (apply_models _ _ _ _ _ _) as [[counts t2]|e].
Qed.

Lemma run_op_owner o t op :
  ctl_owner (tb_control t) ≠ Some o → takes_lease o op = false → ctl_owner (tb_control (run_op t op)) ≠ Some o.
Proof.
  intros Hne. destruct op; cbn [run_op takes_lease]; try done.
  - intros Ho%String.eqb_neq. unfold sync_lease. destruct (_ <=? _); [|done]. cbn. congruence.
  - intros _. unfold sync_renew. by destruct (holds_lease _ _ _).
  - intros _. unfold sync_release. by case_bool_decide.
  - intros _. by rewrite apply_sync_control.
Qed.

Lemma run_op_idle o t op : ctl_owner (tb_control t) ≠ Some o → needs_lease_of o op → run_op t op = t.
Proof.
  intros Hne. assert (∀ now, holds_lease o now (tb_control t) = false) as Hh.
  { intros now. unfold holds_lease. by rewrite bool_decide_eq_false_2. }
  destruct op as [| o' now| o'|o' job sel now| | | |]; cbn [needs_lease_of run_op]; try done; destruct (String.eqb_spec o' o) as [->|]; try done; intros _.
  - unfold sync_renew. by rewrite Hh.
  - unfold sync_release. by rewrite bool_decide_eq_false_2.
  - unfold apply_sync. by rewrite Hh.
Qed.

(** C20. A worker that has lost its lease is fenced off: from the moment another worker
    holds the lease, or nobody, and until it takes the lease anew, whatever it still does
    with it - applying its catalogue, renewing or giving back the lease - might as well
    not happen, however it is interleaved with the others and with price changes. *)
Theorem lost_lease_fences o ops t :
  ctl_owner (tb_control t) ≠ Some o → Forall (λ op, takes_lease o op = false) ops →
  foldl run_op t ops = foldl run_op t (List.filter (λ op, negb (needs_lease_of o op)) ops).
Proof.
  intros Hne Hall. revert t Hne. induction Hall as [|op ops Hop Hall IH]; intros t Hne; [done|]. cbn [foldl List.filter].
  destruct (needs_lease_of o op) eqn:E; cbn [negb].
  - rewrite (run_op_idle o t op); [by apply IH|done|by rewrite E].
  - cbn [foldl]. apply IH. by apply run_op_owner.
Qed.

(** A lease is only taken when nobody's is running. *)
Lemma lease_exclusive o o' job_id now t :
  holds_lease o now (tb_control t) → sync_lease o' job_id now t = (false, t).
Proof.
  unfold holds_lease, sync_lease. intros [_ Hl]%andb_prop_elim. destruct (Z.ltb_spec now (ctl_lease_until_ms (tb_control t))); [|done].
  by rewrite (proj2 (Z.leb_gt _ _)).
Qed.
End Sync.

(** *** One price in force *)
Section InForce.
Context {D : Type} `{Decimal D} (unique_violation : DbError).

Lemma apply_models_ok job selected now l c t c' t' :
  table_ok (tb_prices t) → apply_models (D := D) unique_violation job selected now l (c, t) = inl (c', t') →
  table_ok (tb_prices t').
Proof.
  revert c t. induction l as [|m l IH]; intros c t Hok; cbn [apply_models]; [by intros [= _ <-]|].
  intros ([c1 t1] & H1 & E)%res_bind_inl. eapply IH; [|exact E].
  destruct (cm_price_data m) as [card|] eqn:Ec.
  - by destruct (apply_model_priced _ _ _ _ _ _ _ _ _ _ Ec Hok H1) as (? & _).
  - rewrite apply_model_unpriced // in H1. by injection H1 as <- <-.
Qed.

Lemma insert_model_price_ok p n v now t : table_ok t → table_ok (insert_model_price (D := D) unique_violation p n v now t).2.
Proof.
  intros Hok. unfold insert_model_price. destruct (normalize_model_price_data v) as [data|]; [|done].
  destruct (insert_row _ _ _ _ _ _ _ _) as [[id t']|e] eqn:E; [|done].
  eapply insert_row_ok; [|exact E]. by apply deactivate_where_ok.
Qed.

Lemma update_model_price_ok id v now t : table_ok t → table_ok (update_model_price (D := D) unique_violation id v now t).2.
Proof.
  intros Hok. unfold update_model_price. destruct (normalize_model_price_data v) as [data|]; [|done].
  destruct (find_price _ t) as [r|]; [|done]. destruct (insert_row _ _ _ _ _ _ _ _) as [[id' t']|e] eqn:E; [|done].
  eapply insert_row_ok; [|exact E]. by apply deactivate_where_ok.
Qed.

Lemma deactivate_model_price_ok id now t : table_ok t → table_ok (deactivate_model_price (D := D) id now t).2.
Proof.
  intros Hok. unfold deactivate_model_price. destruct (find_price _ t); [|done]. by apply deactivate_where_ok.
Qed.

Lemma run_op_ok t op : table_ok (tb_prices t) → table_ok (tb_prices (run_op (D := D) unique_violation t op)).
Proof.
  intros Hok. destruct op; cbn [run_op].
  - unfold sync_lease. by destruct (_ <=? _).
  - unfold sync_renew. by destruct (holds_lease _ _ _).
  - unfold sync_release. by case_bool_decide.
  - unfold apply_sync. destruct (negb _); [done|]. destruct (negb _); [done|].
    destruct (apply_models _ _ _ _ _ _) as [[counts t2]|e] eqn:E; [|done]. by eapply apply_models_ok in E.
  - done.
  - by apply insert_model_price_ok.
  - by apply update_model_price_ok.
  - by apply deactivate_model_price_ok.
Qed.

Lemma run_ops_ok t ops : table_ok (tb_prices t) → table_ok (tb_prices (foldl (run_op (D := D) unique_violation) t ops)).
Proof. revert t. induction ops as [|op ops IH]; intros t Hok; [done|]. cbn. by apply IH, run_op_ok. Qed.

(** The unique index knows the price of all providers as that of provider -1. *)
Definition clashes (t : PriceTable) (p : option Z) (n : string) : bool :=
  match p with
  | None => is_some (price_at t (Some (-1)) n)
  | Some i => (i =? -1) && is_some (price_at t None n)
  end.

(** What an administrator does to the prices, and the answer. *)
Inductive PriceEdit :=
  | Enter (provider_id : option Z) (name : string) (data : Value)
  | Change (price_id : Z) (data : Value)
  | Withdraw (price_id : Z).

Inductive EditAnswer :=
  | Entered (answer : Z + DbError)
  | Changed (answer : option Z + DbError)
  | Withdrawn (answer : option (ModelPrice D) + DbError).

Definition run_edit (edit : PriceEdit) (now : Z) (t : PriceTable) : EditAnswer * PriceTable :=
  match edit with
  | Enter p n v => let '(a, t) := insert_model_price (D := D) unique_violation p n v now t in (Entered a, t)
  | Change id v => let '(a, t) := update_model_price (D := D) unique_violation id v now t in (Changed a, t)
  | Withdraw id => let '(a, t) := deactivate_model_price (D := D) id now t in (Withdrawn a, t)
  end.

(** The prices in force as a book: by provider and model. *)
Definition Book : Type := option Z → string → option PriceRow.
Definition by_hand (id : Z) (p : option Z) (n : string) (data : Value) (now : Z) : PriceRow :=
  MkPriceRow id p n data true now now "manual" None.

(** The book an edit promises; [next] is the id of the next price. *)
Definition promised (edit : PriceEdit) (now next : Z) (clash : bool) (book : Book) : Book := λ p n,
  match edit with
  | Enter p0 n0 v =>
      match normalize_model_price_data (D := D) v with
      | inl data => if bool_decide ((p, n) = (p0, n0)) && negb clash then Some (by_hand next p n data now) else book p n
      | inr _ => book p n
      end
  | Change id v =>
      match normalize_model_price_data (D := D) v, book p n with
      | inl data, Some r => Some (if pw_id r =? id then by_hand next p n data now else r)
      | _, current => current
      end
  | Withdraw id => match book p n with Some r => if pw_id r =? id then None else Some r | None => None end
  end.

(** The answer it promises; [current] is the price in force with the id it names. *)
Definition promised_answer (edit : PriceEdit) (now next : Z) (clash : bool) (current : option PriceRow) : EditAnswer :=
  match edit with
  | Enter _ _ v => Entered (let? _ := normalize_model_price_data (D := D) v in if clash then inr unique_violation else inl next)
  | Change _ v => Changed (let? _ := normalize_model_price_data (D := D) v in inl (option_map (λ _, next) current))
  | Withdraw _ =>
      Withdrawn (match current with
                 | None => inl None
                 | Some r => let? card := from_json (pw_price_data r) in
                             inl (Some (MkModelPrice (pw_id r) (pw_provider_id r) (pw_model_name r) card (pw_created_at_ms r) now))
                 end)
  end.

Definition clash_of (edit : PriceEdit) (t : PriceTable) : bool := match edit with Enter p n _ => clashes t p n | _ => false end.
(** The price in force with the id an edit names. *)
Definition names (edit : PriceEdit) (r : PriceRow) : bool :=
  match edit with Enter _ _ _ => false | Change id _ | Withdraw id => pw_id r =? id end.

(** What an edit promises of the table. *)
Definition as_promised (edit : PriceEdit) (now : Z) (t : PriceTable) (current : option PriceRow) : Prop :=
  let '(answer, t') := run_edit edit now t in
  answer = promised_answer edit now (pt_next_id t) (clash_of edit t) current
  ∧ (∀ p n, price_at t' p n = promised edit now (pt_next_id t) (clash_of edit t) (price_at t) p n)
  ∧ table_ok t' ∧ keeps_history t t'.

Lemma price_at_deactivate_scope t p n now p' n' :
  price_at (deactivate_where (in_scope p n) now t).2 p' n' = if bool_decide ((p', n') = (p, n)) then None else price_at t p' n'.
Proof.
  unfold price_at, find_price, deactivate_where. cbn [snd pt_rows]. induction (pt_rows t) as [|r rows IH].
  { cbn. by destruct (bool_decide _). }
  cbn [map List.find]. destruct (pw_active r) eqn:Ea; cbn [andb]; [|rewrite Ea; exact IH].
  destruct (in_scope p n r) eqn:Es; cbn [deactivate pw_active andb]; rewrite ?Ea IH; cbn [andb];
    case_bool_decide as Hd; destruct (in_scope p' n' r) eqn:Es'; try done.
  - exfalso. apply Hd. apply in_scope_spec in Es as [<- <-], Es' as [<- <-]. done.
  - injection Hd as -> ->. congruence.
Qed.

(** An insert is refused exactly when the index has its scope. *)
Lemma insert_row_free p n data now src v t :
  price_at t p n = None →
  insert_row unique_violation p n data now src v t =
    if clashes t p n then inr unique_violation
    else inl (pt_next_id t, MkPriceTable (pt_rows t ++ [new_row t p n data now src v]) (pt_next_id t + 1)).
Proof.
  intros Hfree. unfold insert_row. cbv zeta. change (index_scope (MkPriceRow _ p n _ _ _ _ _ _)) with (unwrap_or p (-1), n).
  destruct (existsb _ _) eqn:E.
  - apply existsb_exists in E as (r & Hr & [Ha Hs%bool_decide_eq_true]%andb_true_iff). injection Hs as Hp Hn.
    assert (∀ p', pw_provider_id r = p' → is_some (price_at t p' n) = true) as Hin.
    { intros p' Hp'. destruct (price_at t p' n) eqn:E; [done|]. apply list_elem_of_In in Hr.
      pose proof (find_price_None _ _ _ E Hr Ha) as Hf. by rewrite (proj2 (in_scope_spec p' n r) (conj Hp' Hn)) in Hf. }
    assert (clashes t p n = true) as ->; [|done]. unfold clashes. destruct p as [i|], (pw_provider_id r) as [j|] eqn:Ej; cbn in Hp.
    + subst. specialize (Hin _ eq_refl). by rewrite Hfree in Hin.
    + subst. cbn. by apply Hin.
    + subst. by apply Hin.
    + specialize (Hin _ eq_refl). by rewrite Hfree in Hin.
  - assert (clashes t p n = false) as ->; [|done]. apply not_true_iff_false. intros Hc. apply not_true_iff_false in E. apply E.
    assert (∃ p' r, price_at t p' n = Some r ∧ unwrap_or p' (-1) = unwrap_or p (-1)) as (p' & r & Hr & Hs).
    { unfold clashes in Hc. destruct p as [i|].
      - apply andb_true_iff in Hc as [->%Z.eqb_eq Hc]. destruct (price_at t None n) eqn:Er; [by do 2 eexists|done].
      - destruct (price_at t (Some (-1)) n) eqn:Er; [by do 2 eexists|done]. }
    apply price_at_Some in Hr as (Hr & Ha & <- & Hn). apply existsb_exists. exists r. split; [by apply list_elem_of_In|].
    rewrite Ha. apply bool_decide_eq_true. unfold index_scope. by rewrite Hs Hn.
Qed.

Lemma clashes_deactivated t p n now : clashes (deactivate_where (in_scope p n) now t).2 p n = clashes t p n.
Proof.
  unfold clashes. destruct p as [i|]; rewrite price_at_deactivate_scope bool_decide_eq_false_2 //; congruence.
Qed.

Lemma enter_as_promised p n v now t : table_ok t → as_promised (Enter p n v) now t None.
Proof.
  intros Hok. unfold as_promised, run_edit, promised_answer, promised, insert_model_price, clash_of.
  destruct (normalize_model_price_data v) as [data|e]; cbn [res_bind]; [|by split_and!; auto using keeps_history_refl].
  set (t1 := (deactivate_where (in_scope p n) now t).2).
  assert (price_at t1 p n = None) as Hfree by by rewrite /t1 price_at_deactivate_scope bool_decide_eq_true_2.
  destruct (insert_row _ p n data now "manual" None t1) as [[id t']|e] eqn:E.
  - pose proof E as E'. rewrite insert_row_free // /t1 clashes_deactivated in E'. destruct (clashes t p n); [done|].
    injection E' as <- _. assert (table_ok t1) as Hok1 by by apply deactivate_where_ok. split_and!.
    + done.
    + intros p' n'. rewrite (price_at_insert _ _ _ _ _ _ _ _ _ _ _ _ E) price_at_deactivate_scope andb_true_r.
      case_bool_decide as Hd; [|done]. by injection Hd as -> ->.
    + by eapply insert_row_ok.
    + eapply keeps_history_trans; [apply deactivate_history|by eapply insert_history].
  - pose proof E as E'. rewrite insert_row_free // /t1 clashes_deactivated in E'. destruct (clashes t p n); [|done].
    injection E' as <-. split_and!; [done| |done|apply keeps_history_refl]. intros p' n'. by rewrite andb_false_r.
Qed.

(** The price with an id, in the table and in the book. *)
Lemma found_in_book t id r p n : table_ok t → find_price (has_id id) t = Some r →
  price_at t p n = Some r ↔ (p, n) = (pw_provider_id r, pw_model_name r).
Proof.
  intros Hok (Hr & Ha & _)%find_price_Some. split.
  - intros (_ & _ & <- & <-)%price_at_Some. done.
  - intros [= -> ->]. by apply price_at_intro.
Qed.

Lemma book_by_id t id r r' p n : table_ok t → find_price (has_id id) t = Some r → price_at t p n = Some r' →
  (pw_id r' =? id) = bool_decide ((p, n) = (pw_provider_id r, pw_model_name r)).
Proof.
  intros Hok Hf Hp. destruct (Z.eqb_spec (pw_id r') id) as [Hid|Hid]; symmetry.
  - apply bool_decide_eq_true, (found_in_book t id r p n Hok Hf). rewrite Hp. f_equal.
    apply find_price_Some in Hf as (Hr & _ & Hi%Z.eqb_eq). apply price_at_Some in Hp as (Hr' & _).
    eapply (NoDup_fmap_same pw_id); [apply Hok|done..|congruence].
  - apply bool_decide_eq_false. intros E. apply (found_in_book t id r p n Hok Hf) in E. rewrite Hp in E. injection E as ->.
    apply find_price_Some in Hf as (_ & _ & Hi%Z.eqb_eq). done.
Qed.

Lemma book_without_id t id r p n : find_price (has_id id) t = None → price_at t p n = Some r → (pw_id r =? id) = false.
Proof. intros Hf (Hr & Ha & _)%price_at_Some. exact (find_price_None _ _ _ Hf Hr Ha). Qed.

Lemma change_as_promised id v now t : table_ok t → as_promised (Change id v) now t (find_price (has_id id) t).
Proof.
  intros Hok. unfold as_promised, run_edit, promised_answer, promised, update_model_price, clash_of.
  destruct (normalize_model_price_data v) as [data|e]; cbn [res_bind]; [|by split_and!; auto using keeps_history_refl].
  destruct (find_price (has_id id) t) as [r|] eqn:Ef.
  2: { split_and!; [done| |done|apply keeps_history_refl]. intros p n. destruct (price_at t p n) as [r|] eqn:Ep; [|done].
       by rewrite (book_without_id _ _ _ _ _ Ef Ep). }
  pose proof (find_price_Some _ _ _ Ef) as (Hr & Ha & Hi%Z.eqb_eq). pose proof (price_at_intro t r Hok Hr Ha) as Hp.
  set (p := pw_provider_id r) in *. set (n := pw_model_name r) in *. subst id.
  set (t1 := (deactivate_where (has_id (pw_id r)) now t).2).
  assert (∀ p' n', price_at t1 p' n' = if bool_decide ((p', n') = (p, n)) then None else price_at t p' n') as Ht1
    by (intros p' n'; by apply price_at_deactivate).
  assert (clashes t1 p n = false) as Hclash.
  { apply not_true_iff_false. intros Hc. assert (∃ p' r', price_at t p' n = Some r' ∧ p' ≠ p ∧ unwrap_or p' (-1) = unwrap_or p (-1)) as (p' & r' & Hr' & Hne & Hs).
    { unfold clashes in Hc. destruct p as [i|].
      - apply andb_true_iff in Hc as [->%Z.eqb_eq Hc]. rewrite Ht1 bool_decide_eq_false_2 // in Hc.
        destruct (price_at t None n) as [r'|] eqn:Er; [by exists None, r'|done].
      - rewrite Ht1 bool_decide_eq_false_2 // in Hc. destruct (price_at t (Some (-1)) n) as [r'|] eqn:Er; [by exists (Some (-1)), r'|done]. }
    apply price_at_Some in Hr' as (Hr' & Ha' & Hp' & Hn'). apply Hne. rewrite -Hp'.
    assert (r' = r) as ->; [|done]. eapply (NoDup_fmap_same index_scope); [apply Hok|by apply elem_of_active..|].
    unfold index_scope. by rewrite Hp' Hn' Hs. }
  destruct (insert_row _ p n data now "manual" None t1) as [[id t']|e] eqn:E; pose proof E as E';
    rewrite insert_row_free ?Hclash ?Ht1 ?bool_decide_eq_true_2 // in E'.
  injection E' as <- _. split_and!.
  - done.
  - intros p' n'. rewrite (price_at_insert _ _ _ _ _ _ _ _ _ _ _ _ E) Ht1.
    destruct (price_at t p' n') as [r'|] eqn:Ep; [rewrite (book_by_id _ _ _ _ _ _ Hok Ef Ep) -/p -/n|]; case_bool_decide as Hd; try done.
    + by injection Hd as -> ->.
    + injection Hd as -> ->. congruence.
  - eapply insert_row_ok, E. by apply deactivate_where_ok.
  - eapply keeps_history_trans; [apply deactivate_history|by eapply insert_history].
Qed.

Lemma withdraw_as_promised id now t : table_ok t → as_promised (Withdraw id) now t (find_price (has_id id) t).
Proof.
  intros Hok. unfold as_promised, run_edit, promised_answer, promised, deactivate_model_price, clash_of.
  destruct (find_price (has_id id) t) as [r|] eqn:Ef.
  2: { split_and!; [done| |done|apply keeps_history_refl]. intros p n. destruct (price_at t p n) as [r|] eqn:Ep; [|done].
       by rewrite (book_without_id _ _ _ _ _ Ef Ep). }
  pose proof (find_price_Some _ _ _ Ef) as (Hr & Ha & Hi%Z.eqb_eq). pose proof (price_at_intro t r Hok Hr Ha) as Hp. subst id.
  split_and!; [|intros p n|by apply deactivate_where_ok|apply deactivate_history].
  - unfold model_price, parse_model_price_data. by destruct (from_json _).
  - rewrite (price_at_deactivate t _ _ r now p n Hok Hp).
    destruct (price_at t p n) as [r'|] eqn:Ep; [rewrite (book_by_id _ _ _ _ _ _ Hok Ef Ep)|]; by case_bool_decide.
Qed.

(** C30. However workers and administrators interleave their operations on the prices, the next
    edit by hand does what it promises. A price entered is in force for its provider and model
    afterwards, in place of the one before; a price changed is replaced by a new one, a price
    withdrawn is in force no longer; the prices of all other scopes stay, as do all rows of the
    past; a price that cannot be read changes nothing; an id that is not in force is answered
    with none. An edit is refused for no other reason, but for the prices of a provider -1,
    which the index takes for those of all providers. At any time at most one price is in force
    for a provider and model, and ids are never used twice. *)
Theorem edits_take_effect t ops edit now :
  table_ok (tb_prices t) →
  let t1 := tb_prices (foldl (run_op (D := D) unique_violation) t ops) in
  table_ok t1 ∧ as_promised edit now t1 (find_price (names edit) t1).
Proof.
  intros Hok. cbv zeta. pose proof (run_ops_ok t ops Hok) as Hok1. split; [done|].
  destruct edit as [p n v|id v|id]; [|by apply change_as_promised|by apply withdraw_as_promised].
  exact (enter_as_promised p n v now _ Hok1).
Qed.
End InForce.

(** ** The preview *)
Section Preview.
Context {D : Type} `{Decimal D} (unique_violation : DbError).

Lemma latest_all seen rows :
  NoDup ((λ r, (pw_provider_id r, pw_model_name r)) <$> rows) →
  (∀ r, r ∈ rows → (pw_provider_id r, pw_model_name r) ∉ seen) →
  ∀ ps, latest (D := D) seen rows = inl ps → Forall2 (λ r p, model_price r = inl p) rows ps.
Proof.
  revert seen. induction rows as [|r rows IH]; intros seen; cbn [latest]; [intros _ _ ps [= <-]; constructor|].
  rewrite fmap_cons. intros [Hn Hd]%NoDup_cons Hs ps. rewrite bool_decide_eq_false_2; [|apply Hs; set_solver].
  intros (p & Hp & E)%res_bind_inl. apply res_bind_inl in E as (ps' & Hps & [= <-]). constructor; [done|].
  eapply IH; [done| |exact Hps]. intros r' Hr' [E|Hin]%elem_of_cons; [|by apply (Hs r'); [set_solver|]].
  apply Hn. rewrite -E. by apply (list_elem_of_fmap_2 (λ r, (pw_provider_id r, pw_model_name r))).
Qed.

Lemma latest_rows t ps :
  table_ok t → list_latest_model_prices (D := D) t = inl ps →
  Forall2 (λ r p, model_price r = inl p) (sort_by price_order (List.filter pw_active (pt_rows t))) ps.
Proof.
  intros Hok E. eapply latest_all; [|intros ? _; apply not_elem_of_nil|exact E].
  apply (NoDup_fmap_1 (λ k : option Z * string, (unwrap_or k.1 (-1), k.2))). rewrite -list_fmap_compose.
  rewrite (sort_by_perm price_order). exact (ok_scopes _ Hok).
Qed.

Lemma latest_row t ps r :
  table_ok t → list_latest_model_prices (D := D) t = inl ps → r ∈ pt_rows t → pw_active r = true →
  ∃ p, p ∈ ps ∧ model_price r = inl p.
Proof.
  intros Hok E Hr Ha. pose proof (latest_rows t ps Hok E) as Hf.
  assert (r ∈ sort_by price_order (List.filter pw_active (pt_rows t))) as Hin
    by (rewrite (sort_by_perm price_order); by apply elem_of_active).
  apply list_elem_of_lookup in Hin as (i & Hi). destruct (Forall2_lookup_l _ _ _ _ _ Hf Hi) as (p & Hp & Hm).
  exists p. split; [by eapply list_elem_of_lookup_2|done].
Qed.

Lemma listed_prices t ps :
  table_ok t → list_latest_model_prices (D := D) t = inl ps →
  ∀ p, p ∈ ps ↔ ∃ r, r ∈ pt_rows t ∧ pw_active r = true ∧ model_price r = inl p.
Proof.
  intros Hok E p. pose proof (latest_rows t ps Hok E) as Hf. split.
  - intros (i & Hi)%list_elem_of_lookup. destruct (Forall2_lookup_r _ _ _ _ _ Hf Hi) as (r & Hr & Hm).
    exists r. apply list_elem_of_lookup_2 in Hr. rewrite (sort_by_perm price_order) in Hr.
    by apply elem_of_active in Hr as [? ?].
  - intros (r & Hr & Ha & Hm). destruct (latest_row t ps r Hok E Hr Ha) as (p' & Hp' & Hm').
    rewrite Hm in Hm'. by injection Hm' as <-.
Qed.

Lemma model_price_fields r (p : ModelPrice D) :
  model_price r = inl p → mp_id p = pw_id r ∧ mp_provider_id p = pw_provider_id r ∧ mp_model_name p = pw_model_name r
    ∧ from_json (pw_price_data r) = inl (mp_price p).
Proof. intros (c & Hc & [= <-])%res_bind_inl. done. Qed.

(** A listed price without a provider under its name. *)
Lemma global_prices_lookup (ps : list (ModelPrice D)) n p :
  global_prices ps !! n = Some p → p ∈ ps ∧ mp_provider_id p = None ∧ mp_model_name p = n.
Proof.
  unfold global_prices. induction ps as [|q ps IH] using rev_ind; [done|]. rewrite foldl_app. cbn [foldl].
  destruct (mp_provider_id q) as [i|] eqn:Eq; cbn [is_none is_some negb]; [intros (? & ? & ?)%IH; set_solver|].
  rewrite lookup_insert. case_decide; [intros [= ->]; set_solver|intros (? & ? & ?)%IH; set_solver].
Qed.

Lemma global_prices_known (ps : list (ModelPrice D)) p :
  p ∈ ps → mp_provider_id p = None → is_Some (global_prices ps !! mp_model_name p).
Proof.
  unfold global_prices. induction ps as [|q ps IH] using rev_ind; [set_solver|]. rewrite foldl_app. cbn [foldl].
  intros [Hp| ->%list_elem_of_singleton]%elem_of_app Hn.
  - destruct (is_none _); [|by apply IH]. rewrite lookup_insert. case_decide; [done|by apply IH].
  - rewrite Hn lookup_insert_eq. done.
Qed.

(** The prices a preview compares with are those in force. *)
Lemma global_prices_in_force t ps n :
  table_ok t → list_latest_model_prices (D := D) t = inl ps →
  match price_at t None n with
  | Some r => ∃ p, global_prices ps !! n = Some p ∧ mp_id p = pw_id r ∧ from_json (pw_price_data r) = inl (mp_price p)
  | None => global_prices ps !! n = None
  end.
Proof.
  intros Hok Hl. pose proof (listed_prices t ps Hok Hl) as Hps.
  assert (∀ p, global_prices ps !! n = Some p → ∃ r, price_at t None n = Some r ∧ model_price r = inl p) as Hg.
  { intros p (Hp & Hnone & Hn)%global_prices_lookup. apply Hps in Hp as (r & Hr & Ha & Hm). exists r. split; [|done].
    apply model_price_fields in Hm as (_ & E1 & E2 & _).
    pose proof (price_at_intro t r Hok Hr Ha) as E. by rewrite -E1 -E2 Hnone Hn in E. }
  destruct (price_at t None n) as [r|] eqn:E.
  - destruct (price_at_Some _ _ _ _ E) as (Hr & Ha & Hp & Hn).
    destruct (latest_row t ps r Hok Hl Hr Ha) as (p & Hin & Hm).
    pose proof (model_price_fields _ _ Hm) as (E1 & E2 & E3 & _).
    destruct (global_prices_known ps p) as [q Hq]; [done|congruence|]. rewrite E3 Hn in Hq.
    destruct (Hg q Hq) as (r' & [= <-] & Hm'). rewrite Hm in Hm'. injection Hm' as <-. exists p.
    split_and!; [done|done|by apply model_price_fields in Hm as (_ & _ & _ & ?)].
  - destruct (global_prices ps !! n) as [p|] eqn:Eg; [|done]. by destruct (Hg p eq_refl) as (r & ? & _).
Qed.

Lemma price_sources_lookup t r :
  table_ok (tb_prices t) → r ∈ pt_rows (tb_prices t) → pw_active r = true → price_sources t !! pw_id r = Some (pw_source r).
Proof.
  intros Hok Hr Ha. unfold price_sources.
  assert (NoDup (pw_id <$> List.filter pw_active (pt_rows (tb_prices t)))) as Hd.
  { apply (NoDup_filter_less _ _ (λ _, true)); [done|].
    assert (List.filter (λ _, true) (pt_rows (tb_prices t)) = pt_rows (tb_prices t)) as ->; [|apply Hok].
    clear. induction (pt_rows (tb_prices t)) as [|x l IH]; [done|]. cbn. by rewrite IH. }
  assert (r ∈ List.filter pw_active (pt_rows (tb_prices t))) as Hin by by apply elem_of_active.
  revert Hd Hin. induction (List.filter pw_active _) as [|x l IH] using rev_ind; [set_solver|].
  rewrite foldl_app fmap_app. cbn [foldl]. intros (Hd & Hx & _)%NoDup_app [Hin| ->%list_elem_of_singleton]%elem_of_app.
  - rewrite lookup_insert_ne; [by apply IH|]. intros E. apply (Hx (pw_id r)); [by apply list_elem_of_fmap_2|].
    rewrite -E. set_solver.
  - apply lookup_insert_eq.
Qed.

(** *** What the preview counts *)
Definition known_sources (t : PriceTable) : Prop :=
  ∀ n r, price_at t None n = Some r → pw_source r = "manual" ∨ pw_source r = "cloud".

Record previewed (t : PriceTable) (l : list CatalogModel) (job job' : Job) : Prop := {
  pv_counts : jb_counts job' = tally (D := D) ∅ t l (jb_counts job);
  pv_expected : ∀ n, jb_expected job' !! n
    = if bool_decide (n ∈ cm_model_name <$> l)
      then opt_or (option_map pw_id (price_at t None n)) (jb_expected job !! n) else jb_expected job !! n;
  pv_models : jb_models job' = jb_models job;
  pv_generation : jb_catalog_generation job' = jb_catalog_generation job
}.

Lemma prepare_model_previewed t ps sources job m job' :
  table_ok t → known_sources t → list_latest_model_prices (D := D) t = inl ps →
  (∀ r, r ∈ pt_rows t → pw_active r = true → sources !! pw_id r = Some (pw_source r)) →
  prepare_model (global_prices ps) sources job m = inl job' → previewed t [m] job job'.
Proof.
  intros Hok Hknown Hps Hsrc. pose proof (global_prices_in_force t ps (cm_model_name m) Hok Hps) as Hg.
  unfold prepare_model, tally. cbn [foldl]. set (name := cm_model_name m) in *.
  assert (∀ j, jb_expected j = match global_prices ps !! name with Some p => <[name := mp_id p]> (jb_expected job) | None => jb_expected job end →
    ∀ n, jb_expected j !! n = if bool_decide (n ∈ [name])
      then opt_or (option_map pw_id (price_at t None n)) (jb_expected job !! n) else jb_expected job !! n) as Hexp.
  { intros j -> n. destruct (price_at t None name) as [r|] eqn:Er.
    - destruct Hg as (p & Hp & Hid & _). rewrite Hp lookup_insert. case_decide as Hd; case_bool_decide as Hb.
      + subst n. rewrite Er. cbn. by rewrite Hid.
      + subst n. exfalso. apply Hb. by left.
      + apply list_elem_of_singleton in Hb. congruence.
      + done.
    - rewrite Hg. case_bool_decide as Hb; [|done]. apply list_elem_of_singleton in Hb as ->. by rewrite Er. }
  destruct (cm_price_data m) as [card|] eqn:Ec.
  2: { intros [= <-]. destruct (global_prices ps !! name) eqn:Ep; (split; [unfold tally; cbn [foldl]; by rewrite Ec|by apply Hexp; rewrite ?Ep|done|done]). }
  destruct (price_at t None name) as [r|] eqn:Er.
  - destruct Hg as (p & Hp & Hid & Hj). rewrite Hp in Hexp |- *. rewrite Hid in Hexp |- *.
    destruct (price_at_Some _ _ _ _ Er) as (Hr & Ha & _ & _). rewrite (Hsrc r Hr Ha). cbn [ok_or res_bind].
    assert (kept_by_hand ∅ name r = String.eqb (pw_source r) "manual") as Hk.
    { unfold kept_by_hand. rewrite bool_decide_eq_false_2; [by rewrite andb_true_r|set_solver]. }
    assert (String.eqb (pw_source r) "manual" = false → up_to_date (D := D) card r = value_eqb (to_json (mp_price p)) card) as Hu.
    { intros Hm%String.eqb_neq. unfold up_to_date. rewrite Hj. destruct (Hknown _ _ Er) as [?| ->]; [done|].
      by rewrite andb_true_r. }
    assert (∀ c, tally (D := D) ∅ t [m] c = verdict (D := D) ∅ name card (Some r) c) as Ht.
    { intros c. unfold tally. cbn [foldl]. by rewrite Ec Er. }
    unfold verdict in Ht. rewrite Hk in Ht. destruct (String.eqb (pw_source r) "manual") eqn:Em.
    { intros [= <-]. split; [by rewrite Ht|by apply Hexp|done|done]. }
    rewrite (Hu eq_refl) in Ht. destruct (value_eqb _ card); intros [= <-];
      (split; [by rewrite Ht|by apply Hexp|done|done]).
  - rewrite Hg in Hexp |- *. intros [= <-]. split; [|by apply Hexp|done|done].
    unfold tally. cbn [foldl]. by rewrite Ec Er.
Qed.

Lemma prepare_models_previewed t ps sources l : ∀ job job',
  table_ok t → known_sources t → list_latest_model_prices (D := D) t = inl ps →
  (∀ r, r ∈ pt_rows t → pw_active r = true → sources !! pw_id r = Some (pw_source r)) →
  prepare_models (global_prices ps) sources job l = inl job' → previewed t l job job'.
Proof.
  induction l as [|m l IH]; intros job job' Hok Hknown Hps Hsrc; cbn [prepare_models]; [by intros [= <-]|].
  intros (j1 & H1 & E)%res_bind_inl. apply (prepare_model_previewed t ps) in H1 as [A1 B1 C1 D1]; try done.
  apply IH in E as [A B C Dg]; try done. split; try congruence.
  - rewrite A A1. done.
  - intros n. rewrite B B1. rewrite fmap_cons. cbn [fmap list_fmap].
    destruct (price_at t None n) as [r|]; repeat case_bool_decide; try done; exfalso; set_solver.
Qed.

(** *** Applying what was previewed *)
Definition no_odd_provider (t : PriceTable) : Prop := ∀ n, price_at t (Some (-1)) n = None.

Lemma insert_row_succeeds name data now src v t :
  table_ok t → no_odd_provider t → price_at t None name = None →
  ∃ id t', insert_row unique_violation None name data now src v t = inl (id, t').
Proof.
  intros Hok Hodd Hp. unfold insert_row. destruct (existsb _ _) eqn:E; [|by eexists _, _]. exfalso.
  apply existsb_exists in E as (r & Hr & [Ha Hs%bool_decide_eq_true]%andb_true_iff). apply list_elem_of_In in Hr.
  pose proof (price_at_intro t r Hok Hr Ha) as Hat. unfold index_scope in Hs. cbn in Hs. injection Hs as Hid Hn.
  rewrite Hn in Hat. destruct (pw_provider_id r) as [i|]; cbn in Hid; [|congruence]. subst i. by rewrite Hodd in Hat.
Qed.

Definition readable (name : string) (t : PriceTable) : Prop :=
  ∀ r, price_at t None name = Some r → is_ok (from_json (D := D) (pw_price_data r)).

Lemma apply_model_succeeds job selected now m c t :
  table_ok (tb_prices t) → no_odd_provider (tb_prices t) → readable (cm_model_name m) (tb_prices t) →
  (is_priced m → option_map pw_id (price_at (tb_prices t) None (cm_model_name m)) = jb_expected job !! cm_model_name m) →
  ∃ c' t', apply_model (D := D) unique_violation job selected now m (c, t) = inl (c', t').
Proof.
  intros Hok Hodd Hread Hexp. unfold apply_model. destruct (cm_price_data m) as [card|] eqn:Ec; [|by eexists _, _].
  cbv zeta. cbn [tb_prices set_tb_catalog]. set (name := cm_model_name m) in *. fold (price_at (tb_prices t) None name).
  rewrite bool_decide_eq_true_2; [|apply Hexp; by rewrite /is_priced Ec]. cbn [negb].
  destruct (price_at (tb_prices t) None name) as [r|] eqn:Er.
  - destruct (_ && _); [by eexists _, _|]. pose proof (Hread r Er) as Hj. unfold parse_model_price_data.
    destruct (from_json (pw_price_data r)) as [old|]; [|done]. cbn [res_bind].
    destruct (_ && _); [by eexists _, _|]. destruct (price_at_Some _ _ _ _ Er) as (Hr & Ha & _).
    pose proof (deactivated_one now (tb_prices t) r Hok Hr Ha) as H1.
    destruct (deactivate_where _ _ _) as [changed prices] eqn:Edw. cbn in H1. rewrite H1. cbn [Z.eqb Pos.eqb negb].
    assert (prices = (deactivate_where (has_id (pw_id r)) now (tb_prices t)).2) as -> by by rewrite Edw.
    edestruct (insert_row_succeeds name card now "cloud" (Some (jb_source_version job))) as (id & t' & ->); [by apply deactivate_where_ok|..].
    + intros n. rewrite (price_at_deactivate _ None name r) //. by case_bool_decide.
    + by rewrite (price_at_deactivate _ None name r) // bool_decide_eq_true_2.
    + by eexists _, _.
  - destruct (insert_row_succeeds name card now "cloud" (Some (jb_source_version job)) (tb_prices t)) as (id & t' & ->); try done.
    by eexists _, _.
Qed.

Lemma apply_models_succeed job selected now l : ∀ c t,
  table_ok (tb_prices t) → no_odd_provider (tb_prices t) → NoDup (cm_model_name <$> l) →
  (∀ m, m ∈ l → readable (cm_model_name m) (tb_prices t)) →
  (∀ m, m ∈ l → is_priced m → option_map pw_id (price_at (tb_prices t) None (cm_model_name m)) = jb_expected job !! cm_model_name m) →
  ∃ c' t', apply_models (D := D) unique_violation job selected now l (c, t) = inl (c', t').
Proof.
  induction l as [|m l IH]; intros c t Hok Hodd Hd Hread Hexp; cbn [apply_models]; [by eexists _, _|].
  rewrite fmap_cons in Hd. apply NoDup_cons in Hd as [Hn Hd].
  destruct (apply_model_succeeds job selected now m c t) as (c1 & t1 & H1); try done; [apply Hread|apply Hexp|]; try set_solver.
  rewrite H1. cbn [res_bind].
  assert (table_ok (tb_prices t1) ∧ ∀ p n, (p, n) ≠ (None, cm_model_name m) → price_at (tb_prices t1) p n = price_at (tb_prices t) p n) as [Hok1 Hp1].
  { destruct (cm_price_data m) as [card|] eqn:Ec.
    - by destruct (apply_model_priced _ _ _ _ _ _ _ _ _ _ Ec Hok H1) as (? & _ & _ & _ & _ & _ & _ & ?).
    - rewrite apply_model_unpriced // in H1. by injection H1 as <- <-. }
  assert (∀ m', m' ∈ l → price_at (tb_prices t1) None (cm_model_name m') = price_at (tb_prices t) None (cm_model_name m')) as Hsame.
  { intros m' Hm'. apply Hp1. intros [= Ee]. apply Hn. rewrite -Ee. by apply list_elem_of_fmap_2. }
  apply IH; try done.
  - intros n. by rewrite Hp1.
  - intros m' Hm' r. rewrite Hsame //. apply Hread. set_solver.
  - intros m' Hm' Hpr. rewrite Hsame //. apply Hexp; [set_solver|done].
Qed.

(** What a preview shows is what applying it does: when neither the prices nor the
    generation of the catalogue have changed since, a worker with the lease applies the
    previewed job without a selection, and the counts are those that were shown. *)
Theorem preview_foretells_apply job job' owner now t t' :
  table_ok (tb_prices t) → known_sources (tb_prices t) → no_odd_provider (tb_prices t) →
  NoDup (cm_model_name <$> jb_models job) → jb_expected job = ∅ →
  jb_counts job = MkCounts 0 0 0 0 (ct_failed (jb_counts job)) →
  prepare_sync (D := D) t t t job = inl job' →
  tb_prices t' = tb_prices t → ctl_catalog_generation (tb_control t') = ctl_catalog_generation (tb_control t) →
  holds_lease owner now (tb_control t') →
  (apply_sync (D := D) unique_violation job' ∅ owner now t').1 = inl (jb_counts job').
Proof.
  intros Hok Hknown Hodd Hd Hexp Hcounts (ps & Hps & Hprep)%res_bind_inl Hsame Hgen Hl.
  destruct (list_latest_model_prices (tb_prices t)) as [ps'|] eqn:Hps'; [|done]. injection Hps as ->. rename Hps' into Hps.
  pose proof Hprep as Hpv. apply (prepare_models_previewed (tb_prices t) ps) in Hpv as [A B C Dg]; try done;
    [|intros r; by apply price_sources_lookup]. cbn in A, B, C, Dg.
  unfold apply_sync. destruct (holds_lease owner now (tb_control t')); [|done]. cbn [negb].
  rewrite Dg Hgen Z.eqb_refl C. cbn [negb]. set (t1 := set_tb_catalog _ t'). rewrite -Hsame in Hok, Hodd, Hps.
  assert (ct_failed (jb_counts job') = ct_failed (jb_counts job)) as Hf.
  { rewrite A. clear. unfold tally. generalize (jb_counts job) as c. induction (jb_models job) as [|m l IH]; intros c; [done|].
    cbn [foldl]. rewrite IH. destruct (cm_price_data m); [|done]. unfold verdict.
    destruct (price_at _ _ _); [|done]. by repeat case_match. }
  rewrite Hf -Hcounts.
  destruct (apply_models_succeed job' ∅ now (jb_models job) (jb_counts job) t1) as (c2 & t2 & E); try done.
  - intros m _ r Hr. pose proof (global_prices_in_force _ ps (cm_model_name m) Hok Hps) as Hg. 
    change (tb_prices t1) with (tb_prices t') in Hr. rewrite Hr in Hg. by destruct Hg as (p & _ & _ & ->).
  - intros m Hm _. change (tb_prices t1) with (tb_prices t'). rewrite B Hsame bool_decide_eq_true_2; [|by apply list_elem_of_fmap_2].
    rewrite Hexp lookup_empty. by destruct (price_at _ _ _).
  - rewrite E. cbn [fst]. f_equal. apply apply_models_applied in E; [|done|done]. rewrite (ap_counts _ _ _ _ _ _ _ _ E) A.
    change (tb_prices t1) with (tb_prices t'). by rewrite Hsame.
Qed.
End Preview.

(** ** Concrete tables *)
#[local] Existing Instances whole whole_ok.

Definition wt_card (n : Z) : Value := to_json (D := Z) (MkCard (MkRates (Some n) None None None) []).
Definition wt_row (id : Z) (name : string) (price : Z) (source : string) : PriceRow :=
  MkPriceRow id None name (wt_card price) true 0 0 source None.
Definition wt_prices : PriceTable := MkPriceTable [wt_row 1 "a" 1 "manual"; wt_row 2 "b" 2 "cloud"] 3.
Definition wt_model (name : string) (price : Z) : CatalogModel :=
  MkModel name name "" [] (Some (wt_card price)) "" "v8" "supported" Null.
Definition wt_job : Job :=
  MkJob "J" "running" "automatic" "u" "v8" 0 None None (MkCounts 0 0 0 0 2) []
    [wt_model "a" 9; wt_model "b" 4; wt_model "c" 5] ∅ 0.
Definition wt_control : Control := MkControl (Some "W") 1000 None None None None 7.
Definition wt_tables : Tables := MkTables wt_prices ∅ ∅ ∅ wt_control [(1, "a"); (1, "q")].
Definition wt_previewed : Job :=
  match prepare_sync (D := Z) wt_tables wt_tables wt_tables wt_job with inl j => j | inr _ => wt_job end.

Lemma wt_ok : table_ok wt_prices.
Proof.
  split.
  - apply (bool_decide_eq_true_1 _). vm_compute. reflexivity.
  - apply (bool_decide_eq_true_1 _). vm_compute. reflexivity.
  - intros r Hr. repeat (apply elem_of_cons in Hr as [->|Hr]; [vm_compute; reflexivity|]). by apply not_elem_of_nil in Hr.
Qed.

Lemma wt_names : NoDup (cm_model_name <$> jb_models wt_job).
Proof. apply (bool_decide_eq_true_1 _). vm_compute. reflexivity. Qed.

(** One manual price is kept, one cloud price replaced, one added. *)
Example wt_applied :
  match apply_sync (D := Z) "unique" wt_previewed ∅ "W" 500 wt_tables with
  | (inl c, t) => c = MkCounts 1 1 0 1 2
      ∧ option_map pw_source (price_at (tb_prices t) None "a") = Some "manual"
      ∧ option_map pw_id (price_at (tb_prices t) None "b") = Some 3
      ∧ option_map pw_id (price_at (tb_prices t) None "c") = Some 4 ∧ tb_missing t !! "q" = Some "v8"
  | (inr _, _) => False
  end.
Proof. vm_compute. split_and!; reflexivity. Qed.

Lemma sync_applies_catalog_witness :
  match apply_sync (D := Z) "unique" wt_previewed ∅ "W" 500 wt_tables with
  | (inl _, t) => table_ok (tb_prices t) ∧ keeps_history wt_prices (tb_prices t)
  | (inr _, _) => False
  end.
Proof.
  pose proof (sync_applies_catalog (D := Z) "unique" wt_previewed ∅ "W" 500 wt_tables wt_ok wt_names) as H.
  destruct (apply_sync _ _ _ _ _ _) as [[c|e] t] eqn:E; [|exfalso; vm_compute in E; discriminate].
  destruct H as (_ & _ & Hok & Hh & _). split; [exact Hok|exact Hh].
Defined.

Lemma lost_lease_fences_witness :
  let ops := [OpRelease "W"; OpLease "X" "J2" 2000; OpApply "W" wt_previewed ∅ 2001; OpRenew "W" 2002] in
  let t := set_tb_control (MkControl (Some "V") 1000 None None None None 7) wt_tables in
  foldl (run_op (D := Z) "unique") t ops = foldl (run_op (D := Z) "unique") t [OpLease "X" "J2" 2000].
Proof.
  intros ops t. refine (lost_lease_fences (D := Z) "unique" "W" ops t _ _).
  - intros E. vm_compute in E. discriminate.
  - repeat constructor.
Defined.

Definition wt_busy : list SyncOp :=
  [OpInsertPrice None "a" (wt_card 3) 10; OpApply "W" wt_previewed ∅ 500; OpDeactivatePrice 2 600].

Lemma edits_take_effect_witness :
  let t1 := tb_prices (foldl (run_op (D := Z) "unique") wt_tables wt_busy) in
  (run_edit (D := Z) "unique" (Enter None "a" (wt_card 9)) 700 t1).1 = Entered (inl (pt_next_id t1))
  ∧ option_map pw_source (price_at (run_edit (D := Z) "unique" (Enter None "a" (wt_card 9)) 700 t1).2 None "a") = Some "manual".
Proof.
  pose proof (edits_take_effect (D := Z) "unique" wt_tables wt_busy (Enter None "a" (wt_card 9)) 700 wt_ok) as H. cbv zeta in H |- *.
  destruct H as (_ & H). unfold as_promised in H. destruct (run_edit _ _ _ _) as [answer t']. cbn [fst snd].
  destruct H as (-> & Hbook & _). split; [by vm_compute|]. rewrite Hbook. by vm_compute.
Defined.

Lemma preview_foretells_apply_witness :
  (apply_sync (D := Z) "unique" wt_previewed ∅ "W" 500 wt_tables).1 = inl (MkCounts 1 1 0 1 2).
Proof.
  refine (preview_foretells_apply (D := Z) "unique" wt_job wt_previewed "W" 500 wt_tables wt_tables
    wt_ok _ _ wt_names eq_refl eq_refl _ eq_refl eq_refl _).
  - intros n r (Hr & _)%price_at_Some.
    repeat (apply elem_of_cons in Hr as [->|Hr]; [cbn; auto|]). by apply not_elem_of_nil in Hr.
  - intros n. destruct (price_at _ _ _) as [r|] eqn:E; [|reflexivity]. apply price_at_Some in E as (Hr & _ & Hp & _).
    repeat (apply elem_of_cons in Hr as [->|Hr]; [discriminate|]). by apply not_elem_of_nil in Hr.
  - vm_compute. reflexivity.
  - vm_compute. exact I.
Defined.
