(* ===== verification/PriceSync.v ===== *)
(** * PriceSync: the worker of the price synchronisation and its endpoints

    Models the rest of [price_sync.rs]: the configuration, the download, the task that
    turns a downloaded catalogue into a preview or applies it, the schedule, and the HTTP
    endpoints. The statements are those of [PriceTables]; what is not under the gateway's
    control - the answer of the source, the clock, which statement is lost or not acknowledged,
    and what other workers and administrators do to the tables between two statements - is a record. Log
    lines are not modelled. *)
From Stdlib Require Import Ascii String.
From S2P Require Import Prelude Text Json Types Pricing PriceCatalog PriceTables.

Local Open Scope string_scope.
Local Open Scope list_scope.
Local Open Scope Z_scope.

(** ** Configuration *)
Definition DEFAULT_SOURCE : string :=
  "https://raw.githubusercontent.com/BerriAI/litellm/main/model_prices_and_context_window.json".

Record SyncConfig := MkSyncConfig { sc_enabled : bool; sc_source_url : string; sc_interval_minutes : Z }.

Definition default_config : SyncConfig := MkSyncConfig true DEFAULT_SOURCE 30.

(** [str::parse::<u32>] *)
Definition parse_u32 (s : string) : option Z := opt_filter (λ n, n <=? u32_max) (parse_u64 s).

Definition from_env (env : string → option string) : SyncConfig :=
  MkSyncConfig
    (match env "PRICE_SYNC_ENABLED" with
     | Some v => negb (String.eqb v "false") && negb (String.eqb v "0")
     | None => true
     end)
    (unwrap_or (env "PRICE_SYNC_SOURCE_URL") DEFAULT_SOURCE)
    (unwrap_or (opt_bind (env "PRICE_SYNC_INTERVAL_MINUTES") parse_u32) 30).

(** What the code reads of a parsed URL ([url::Url]). *)
Record ParsedUrl := MkUrl { ur_scheme : string; ur_host : option string; ur_username : string; ur_password : option string }.

Definition validate (parse_url : string → ParsedUrl + string) (c : SyncConfig) : unit + string :=
  let? url := parse_url (sc_source_url c) in
  if negb (is_one_of (ur_scheme url) ["http"; "https"]) || is_none (ur_host url)
     || negb (String.eqb (ur_username url) "") || is_some (ur_password url)
  then inr "source_url must be an HTTP(S) URL without credentials"
  else if negb ((5 <=? sc_interval_minutes c) && (sc_interval_minutes c <=? 10080))
  then inr "interval_minutes must be between 5 and 10080"
  else inl tt.

Definition config_to_json (c : SyncConfig) : Value :=
  json_obj [("enabled", Bool (sc_enabled c)); ("source_url", String (sc_source_url c));
            ("interval_minutes", json_i64 (sc_interval_minutes c))].

(** ** Views *)
Definition opt_i64 (o : option Z) : Value := json_opt (option_map json_i64 o).
Definition opt_text (o : option string) : Value := json_opt (option_map String o).

Definition counts_to_json (c : Counts) : Value :=
  json_obj [("added", json_i64 (ct_added c)); ("updated", json_i64 (ct_updated c)); ("unchanged", json_i64 (ct_unchanged c));
            ("manual_preserved", json_i64 (ct_manual_preserved c)); ("failed", json_i64 (ct_failed c))].
Definition conflict_to_json (c : Conflict) : Value :=
  json_obj [("model_name", String (cf_model_name c)); ("local_id", json_i64 (cf_local_id c));
            ("local_price", cf_local_price c); ("cloud_price", cf_cloud_price c)].
Definition view (j : Job) : Value :=
  json_obj [("id", String (jb_id j)); ("status", String (jb_status j)); ("source_url", String (jb_source_url j));
            ("source_version", String (jb_source_version j)); ("created_at_ms", json_i64 (jb_created_at_ms j));
            ("finished_at_ms", opt_i64 (jb_finished_at_ms j)); ("error", opt_text (jb_error j));
            ("counts", counts_to_json (jb_counts j)); ("conflicts", Array (map conflict_to_json (jb_conflicts j)))].

Definition sync_status (now : Z) (t : Tables) : Value :=
  let c := tb_control t in
  json_obj [("running", Bool (sync_running now t)); ("last_success_ms", opt_i64 (ctl_last_success_ms c));
            ("last_attempt_ms", opt_i64 (ctl_last_attempt_ms c)); ("last_job_id", opt_text (ctl_last_job_id c));
            ("catalog_version", opt_text (ctl_catalog_version c));
            ("catalog_generation", json_i64 (ctl_catalog_generation c))].

(** ** Download *)

(** What the source answers; the body with the declared and the real length. *)
Inductive Fetched :=
  | NoAnswer (error : string)
  | TooSlow
  | Answered (status : Z) (status_text : string) (content_length : option string) (body : list ascii + string).

Definition download_limited (timeout_secs max_bytes : Z) (length_error : string) (f : Fetched) : list ascii + string :=
  match f with
  | NoAnswer e => inr e
  | TooSlow => inr ("pricing download timed out after " +:+ show_Z timeout_secs +:+ " seconds")
  | Answered status status_text content_length body =>
      if negb ((200 <=? status) && (status <=? 299)) then inr ("pricing source returned " +:+ status_text)
      else if is_some_and (opt_bind content_length parse_u64) (λ size, max_bytes <? size)
      then inr "pricing response exceeds size limit"
      else
        let? bytes := body in
        if max_bytes <? len bytes then inr length_error else inl bytes
  end.

Definition download : string → Fetched → list ascii + string := download_limited 60 (64 * 1024 * 1024).

(** ** Surroundings of one call *)
Inductive Call :=
  | Leasing | ReadingStatus | ReadingJob | Saving | Releasing
  | PreviewStatus | PreviewPrices | PreviewSources | Applying | SavingResult | ReleasingResult | UpdatingConfig.

(** How a statement fails: it is lost, or only its acknowledgement is. *)
Inductive Fault := Lost (e : DbError) | Unacknowledged (e : DbError).
Definition fault_error (f : Fault) : DbError := match f with Lost e | Unacknowledged e => e end.
Definition reached (o : option Fault) : bool := match o with Some (Lost _) => false | _ => true end.

Section Worker.
Context {D : Type} `{Decimal D} (unique_violation : DbError).

Record SyncWorld := MkSyncWorld {
  sw_id : string;
  sw_now : Call → Z;
  sw_fails : Call → option Fault;
  sw_others : Call → list SyncOp;
  sw_config : SyncConfig;
  sw_fetched : Fetched;
  sw_parsed : list ascii → Catalog + string;
  sw_length_error : string;
  sw_reconcile_error : option DbError
}.

Context (parse_url : string → ParsedUrl + string).

(** The tables when a call reaches the database. *)
Definition reach (w : SyncWorld) (c : Call) (t : Tables) : Tables :=
  foldl (run_op (D := D) unique_violation) t (sw_others w c).

(** A statement or transaction: others first, then it runs - or is lost, or is committed while
    its acknowledgement is lost. *)
Definition call {A} (w : SyncWorld) (c : Call) (f : Tables → A * Tables) (t : Tables) : (A + DbError) * Tables :=
  let t := reach w c t in
  let '(a, t') := f t in
  match sw_fails w c with
  | Some (Lost e) => (inr e, t)
  | Some (Unacknowledged e) => (inr e, t')
  | None => (inl a, t')
  end.

Definition save (w : SyncWorld) (c : Call) (job : Job) : Tables → (unit + DbError) * Tables :=
  call w c (λ t, (tt, save_sync_job job (sw_now w c) t)).
Definition release (w : SyncWorld) (c : Call) (owner : string) : Tables → (unit + DbError) * Tables :=
  call w c (λ t, (tt, sync_release owner t)).
Definition read (w : SyncWorld) {A} (c : Call) (f : Tables → A) : Tables → (A + DbError) * Tables :=
  call w c (λ t, (f t, t)).

(** ** The task *)
Definition fail_job (e : string) (job : Job) : Job :=
  set_jb_counts (count_failed (jb_counts job)) (set_jb_error (Some e) (set_jb_status "failed" job)).

(** Only a preview keeps what it needs to be applied later. *)
Definition finish_job (now : Z) (job : Job) : Job :=
  let job := set_jb_finished (Some now) job in
  if String.eqb (jb_status job) "preview" then job
  else set_jb_conflicts [] (set_jb_expected ∅ (set_jb_models [] job)).

Definition applied_job (w : SyncWorld) (counts : Counts) (job : Job) : Job :=
  let job := set_jb_status "applied" (set_jb_counts counts job) in
  match sw_reconcile_error w with
  | Some e => set_jb_error (Some ("history reconciliation pending: " +:+ e)) job
  | None => job
  end.

(** [apply_sync] as a call that may fail, and the job after it. *)
Definition apply_job (w : SyncWorld) (selected : gset string) (owner : string) (job : Job) (t : Tables)
    : (Counts + DbError) * Tables :=
  match call w Applying (apply_sync (D := D) unique_violation job selected owner (sw_now w Applying)) t with
  | (inl (inl counts), t) => (inl counts, t)
  | (inl (inr e), t) | (inr e, t) => (inr e, t)
  end.

(** The job with the catalogue, ready to be previewed or applied. *)
Definition fetch_catalog (w : SyncWorld) (job : Job) : Job + string * Job :=
  match download (sw_length_error w) (sw_fetched w) with
  | inr e => inr (e, job)
  | inl bytes =>
      match sw_parsed w bytes with
      | inr e => inr (e, job)
      | inl (version, models, failed) =>
          let counts := jb_counts job in
          inl (set_jb_counts (MkCounts (ct_added counts) (ct_updated counts) (ct_unchanged counts)
                                (ct_manual_preserved counts) failed)
                 (set_jb_models models (set_jb_source_version version job)))
      end
  end.

(** The three queries of [prepare_sync], each with its turn. *)
Definition preview_job (w : SyncWorld) (job : Job) (t : Tables) : (Job + DbError * Job) * Tables :=
  match read w PreviewStatus id t with
  | (inr e, t) => (inr (e, job), t)
  | (inl t1, t) =>
      let job1 := set_jb_generation (ctl_catalog_generation (tb_control t1)) job in
      match read w PreviewPrices id t with
      | (inr e, t) => (inr (e, job1), t)
      | (inl t2, t) =>
          match sw_fails w PreviewSources with
          | Some fault =>
              (match list_latest_model_prices (D := D) (tb_prices t2) with
               | inr e' => inr (e', job1)
               | inl _ => inr (fault_error fault, job1)
               end, reach w PreviewSources t)
          | None => let t3 := reach w PreviewSources t in (prepare_sync (D := D) t1 t2 t3 job, t3)
          end
      end
  end.

(** The spawned task: the finished job, whether the snapshot was invalidated, the tables. *)
Definition run_job (w : SyncWorld) (preview : bool) (job : Job) (t : Tables) : Job * bool * Tables :=
  let '(job, invalidated, t) :=
    match fetch_catalog w job with
    | inr (e, job) => (fail_job e job, false, t)
    | inl job =>
        match preview_job w job t with
        | (inr (e, job), t) => (fail_job e job, false, t)
        | (inl job, t) =>
            if preview then (set_jb_status "preview" job, false, t)
            else match apply_job w ∅ (jb_id job) job t with
                 | (inl counts, t) => (applied_job w counts job, true, t)
                 | (inr e, t) => (fail_job e job, false, t)
                 end
        end
    end in
  let job := finish_job (sw_now w SavingResult) job in
  let t := (save w SavingResult job t).2 in
  let t := (release w ReleasingResult (jb_id job) t).2 in
  (job, invalidated, t).

Definition new_job (w : SyncWorld) (preview : bool) : Job :=
  MkJob (sw_id w) "running" (if preview then "preview" else "automatic") (sc_source_url (sw_config w)) ""
    (sw_now w Leasing) None None zero_counts [] [] ∅ 0.

(** The answer, the job to be run in the background, the tables. *)
Definition start (w : SyncWorld) (preview : bool) (t : Tables) : (string + string) * option Job * Tables :=
  match validate parse_url (sw_config w) with
  | inr e => (inr e, None, t)
  | inl _ =>
      match call w Leasing (sync_lease (sw_id w) (sw_id w) (sw_now w Leasing)) t with
      | (inr e, t) => (inr e, None, t)
      | (inl true, t) =>
          let job := new_job w preview in
          match save w Saving job t with
          | (inr e, t) => (inr e, None, (release w Releasing (sw_id w) t).2)
          | (inl _, t) => (inl (sw_id w), Some job, t)
          end
      | (inl false, t) =>
          let busy := "a price sync task is already running" in
          match read w ReadingStatus (λ t, ctl_last_job_id (tb_control t)) t with
          | (inr e, t) => (inr e, None, t)
          | (inl None, t) => (inr busy, None, t)
          | (inl (Some id), t) =>
              match read w ReadingJob (sync_job id) t with
              | (inr e, t) => (inr e, None, t)
              | (inl (Some job), t) =>
                  if String.eqb (jb_status job) "running"
                     && String.eqb (jb_kind job) (if preview then "preview" else "automatic")
                     && String.eqb (jb_source_url job) (sc_source_url (sw_config w))
                  then (inl id, None, t) else (inr busy, None, t)
              | (inl None, t) => (inr busy, None, t)
              end
          end
      end
  end.

(** ** The schedule *)
Record Schedule := MkSchedule { sd_cache_generation : Z; sd_first : bool }.

Definition new_schedule : Schedule := MkSchedule (-1) true.

(** One turn: the schedule, whether the snapshot is invalidated, whether a task is started.
    [missing] is what [sync_has_missing] answers when it is asked. *)
Definition tick (config : SyncConfig) (status : option (Z * Tables)) (missing : string → bool) (now : Z)
    (s : Schedule) : Schedule * bool * bool :=
  match status with
  | None => (s, false, false)
  | Some (at_ms, t) =>
      let c := tb_control t in
      let generation := ctl_catalog_generation c in
      let invalidate := negb (generation =? sd_cache_generation s) in
      let s := MkSchedule generation (sd_first s) in
      if negb (sc_enabled config) || sync_running at_ms t then (s, invalidate, false)
      else
        let last := unwrap_or (ctl_last_attempt_ms c) 0 in
        let due := (sd_first s && (300000 <=? now - last)) || (sc_interval_minutes config * 60000 <=? now - last) in
        let missing := negb due && (300000 <=? now - last) && missing (unwrap_or (ctl_catalog_version c) "") in
        (MkSchedule generation false, invalidate, due || missing)
  end.

(** ** The endpoints *)
Record ApplyRequest := MkApplyRequest { ar_source_version : string; ar_use_cloud : gset string }.

(** The accepted job and its owner, run in the background by [run_apply]. *)
Definition accept_apply (w : SyncWorld) (id : string) (body : option ApplyRequest) (t : Tables)
    : (Value + string) * option (Job * gset string) * Tables :=
  match body with
  | None => (inr "invalid apply request", None, t)
  | Some body =>
      match read w ReadingJob (sync_job id) t with
      | (inr e, t) => (inr e, None, t)
      | (inl None, t) => (inr "preview not found or expired", None, t)
      | (inl (Some job), t) =>
          if negb (String.eqb (jb_status job) "preview") || negb (String.eqb (jb_source_version job) (ar_source_version body))
             || (DAY_MS <? sw_now w ReadingJob - jb_created_at_ms job)
          then (inr "preview version is stale; create a new preview", None, t)
          else if negb (bool_decide (ar_use_cloud body ⊆ list_to_set (cf_model_name <$> jb_conflicts job)))
          then (inr "unknown manual conflict selection", None, t)
          else
            match call w Leasing (sync_lease (sw_id w) (jb_id job) (sw_now w Leasing)) t with
            | (inr e, t) => (inr e, None, t)
            | (inl false, t) => (inr "a price sync task is already running", None, t)
            | (inl true, t) =>
                let job := set_jb_finished None (set_jb_kind "apply" (set_jb_status "running" job)) in
                match save w Saving job t with
                | (inr e, t) => (inr e, None, (release w Releasing (sw_id w) t).2)
                | (inl _, t) => (inl (view job), Some (job, ar_use_cloud body), t)
                end
            end
      end
  end.

Definition run_apply (w : SyncWorld) (selected : gset string) (job : Job) (t : Tables) : Job * bool * Tables :=
  let '(job, invalidated, t) :=
    match apply_job w selected (sw_id w) job t with
    | (inl counts, t) => (applied_job w counts job, true, t)
    | (inr e, t) => (set_jb_error (Some e) (set_jb_status "failed" job), false, t)
    end in
  let job := set_jb_conflicts [] (set_jb_expected ∅ (set_jb_models [] (set_jb_finished (Some (sw_now w SavingResult)) job))) in
  let t := (save w SavingResult job t).2 in
  let t := (release w ReleasingResult (sw_id w) t).2 in
  (job, invalidated, t).

(** A job nobody works on any more is shown as failed. *)
Definition show_job (w : SyncWorld) (id : string) (t : Tables) : (Value + string) * Tables :=
  match read w ReadingJob (sync_job id) t with
  | (inr e, t) => (inr e, t)
  | (inl None, t) => (inr "job not found or expired", t)
  | (inl (Some job), t) =>
      if String.eqb (jb_status job) "running" && (300000 <? sw_now w ReadingJob - jb_created_at_ms job) then
        match read w ReadingStatus (sync_running (sw_now w ReadingStatus)) t with
        | (inr e, t) => (inr e, t)
        | (inl true, t) => (inl (view job), t)
        | (inl false, t) =>
            (inl (view (set_jb_error (Some "worker lease expired; retry synchronization") (set_jb_status "failed" job))), t)
        end
      else (inl (view job), t)
  end.

Definition set_field (key : string) (v : Value) (o : Value) : Value :=
  match o with Object l => Object (assoc_insert key v l) | _ => o end.

Definition show_status (w : SyncWorld) (t : Tables) : (Value + string) * Tables :=
  match read w ReadingStatus (λ t, (sync_status (sw_now w ReadingStatus) t, tb_control t)) t with
  | (inr e, t) => (inr e, t)
  | (inl (status, c), t) =>
      let config := sw_config w in
      let next := if sc_enabled config
                  then json_i64 (unwrap_or (ctl_last_attempt_ms c) (sw_now w ReadingStatus) + sc_interval_minutes config * 60000)
                  else Null in
      let status := set_field "config" (config_to_json config) (set_field "next_run_ms" next status) in
      match ctl_last_job_id c with
      | None => (inl status, t)
      | Some id =>
          match read w ReadingJob (sync_job id) t with
          | (inr e, t) => (inr e, t)
          | (inl (Some job), t) => (inl (set_field "last_job" (view job) status), t)
          | (inl None, t) => (inl status, t)
          end
      end
  end.

(** Bodies are read by [serde]: [None] when it refuses them. *)
Inductive SyncRequest :=
  | ReqStatus | ReqConfig (body : option SyncConfig) | ReqPreview | ReqJob (id : string)
  | ReqApply (id : string) (body : option ApplyRequest) | ReqOther.

(** [trim_start_matches]: the prefix is taken off as often as it is there. *)
Fixpoint trim_start_matches (fuel : nat) (p s : string) : string :=
  match fuel with
  | O => s
  | S fuel => match strip_prefix p s with Some s => trim_start_matches fuel p s | None => s end
  end.

Definition JOBS : string := "/api/v1/price-sync/jobs/".
Definition APPLY : string := "/api/v1/price-sync/apply/".

Definition parse_request (method path : string) (config : option SyncConfig) (apply : option ApplyRequest) : SyncRequest :=
  let asks m p := String.eqb method m && String.eqb path p in
  if asks "GET" "/api/v1/price-sync" then ReqStatus
  else if asks "PUT" "/api/v1/price-sync/config" then ReqConfig config
  else if asks "POST" "/api/v1/price-sync/preview" then ReqPreview
  else if String.eqb method "GET" && starts_with JOBS path then ReqJob (trim_start_matches (String.length path) JOBS path)
  else if String.eqb method "POST" && starts_with APPLY path
  then ReqApply (trim_start_matches (String.length path) APPLY path) apply
  else ReqOther.

(** What is left to do in the background. *)
Inductive Background := RunJob (job : Job) | RunApply (job : Job) (selected : gset string).

Definition handle (w : SyncWorld) (update_error : option string) (request : SyncRequest) (path : string) (t : Tables)
    : Z * (Value + string) * option Background * Tables :=
  let '(result, background, t) :=
    match request with
    | ReqStatus => let '(r, t) := show_status w t in (r, None, t)
    | ReqConfig None => (inr "invalid sync configuration", None, t)
    | ReqConfig (Some config) =>
        (let? _ok := validate parse_url config in
         match update_error with Some e => inr e | None => inl (config_to_json config) end, None, t)
    | ReqPreview =>
        let '(r, job, t) := start w true t in
        (let? id := r in inl (json_obj [("id", String id)]), option_map RunJob job, t)
    | ReqJob id => let '(r, t) := show_job w id t in (r, None, t)
    | ReqApply id body =>
        let '(r, job, t) := accept_apply w id body t in
        (r, option_map (λ js, RunApply js.1 js.2) job, t)
    | ReqOther => (inr "unknown price sync endpoint", None, t)
    end in
  (match result with
   | inl _ => if ends_with "/preview" path || starts_with APPLY path then 202 else 200
   | inr _ => 409
   end, result, background, t).
End Worker.

(** ** A task comes to an end *)
Section Settled.
Context {D : Type} `{Decimal D} (unique_violation : DbError) (w : SyncWorld).

Notation run_job := (run_job (D := D) unique_violation w).
Notation run_apply := (run_apply (D := D) unique_violation w).

(** Nobody else touches the tables. *)
Definition quiet : Prop := ∀ c, sw_others w c = [].

Lemma reach_quiet c t : quiet → reach (D := D) unique_violation w c t = t.
Proof. intros Hq. unfold reach. by rewrite Hq. Qed.

(** What the task leaves alone unless it applies its catalogue. *)
Definition prices_of (t : Tables) := (tb_prices t, tb_catalog t).

(** What a call leaves alone. *)
Lemma call_keeps {A B} (proj : Tables → B) c (f : Tables → A * Tables) t :
  (∀ op t, op ∈ sw_others w c → proj (run_op (D := D) unique_violation t op) = proj t) → (∀ t, proj (f t).2 = proj t) →
  proj (call (D := D) unique_violation w c f t).2 = proj t.
Proof.
  intros Ho Hf. assert (∀ t, proj (reach (D := D) unique_violation w c t) = proj t) as Hr.
  { unfold reach. revert Ho. induction (sw_others w c) as [|op ops IH]; intros Ho t0; [done|]. cbn [foldl].
    rewrite IH; [apply Ho; left|]. intros op' t1 Hop. apply Ho. by right. }
  unfold call. specialize (Hf (reach unique_violation w c t)). destruct (f _) as [a t']. cbn [snd] in Hf.
  destruct (sw_fails w c) as [[e|e]|]; cbn [snd]; by rewrite ?Hf Hr.
Qed.

Lemma call_quiet {A} c (f : Tables → A * Tables) t :
  quiet → (∀ t, prices_of (f t).2 = prices_of t) → prices_of (call (D := D) unique_violation w c f t).2 = prices_of t.
Proof. intros Hq Hf. apply call_keeps; [|done]. rewrite (Hq c). intros op t0 Hop. by apply not_elem_of_nil in Hop. Qed.

Lemma sync_release_prices o t : prices_of (sync_release o t) = prices_of t.
Proof. unfold sync_release. by case_bool_decide. Qed.

Lemma release_owner c o t :
  reached (sw_fails w c) = true → ctl_owner (tb_control (release (D := D) unique_violation w c o t).2) ≠ Some o.
Proof.
  intros Hf. unfold release, call. set (t1 := reach _ _ _ _).
  assert (ctl_owner (tb_control (sync_release o t1)) ≠ Some o) as Hr
    by (unfold sync_release; case_bool_decide as Ho; [discriminate|exact Ho]).
  by destruct (sw_fails w c) as [[e|e]|].
Qed.

(** An apply that is not acknowledged may have been committed. *)
Lemma apply_job_error selected owner job t e t' :
  quiet → apply_job (D := D) unique_violation w selected owner job t = (inr e, t') →
  t' = t ∨ (∃ lost, sw_fails w Applying = Some (Unacknowledged lost))
    ∧ t' = (apply_sync (D := D) unique_violation job selected owner (sw_now w Applying) t).2.
Proof.
  intros Hq. unfold apply_job, call. rewrite reach_quiet //.
  destruct (apply_sync unique_violation job selected owner (sw_now w Applying) t) as [[counts|e0] t1] eqn:Ea.
  - destruct (sw_fails w Applying) as [[e1|e1]|] eqn:Ef; intros [= _ <-]; [by left|right; split; [by eexists|done]].
  - assert (t1 = t) as ->.
    { unfold apply_sync in Ea. destruct (negb _); [by injection Ea|]. destruct (negb _); [by injection Ea|].
      destruct (apply_models _ _ _ _ _ _) as [[c t2]|e']; [done|by injection Ea]. }
    destruct (sw_fails w Applying) as [[e1|e1]|]; intros [= _ <-]; by left.
Qed.

Lemma read_quiet {A} c (f : Tables → A) t : quiet → (read (D := D) unique_violation w c f t).2 = t.
Proof. intros Hq. unfold read, call. rewrite reach_quiet //. by destruct (sw_fails w c) as [[e|e]|]. Qed.

Lemma preview_job_tables job t : quiet → (preview_job (D := D) unique_violation w job t).2 = t.
Proof.
  intros Hq. unfold preview_job. pose proof (read_quiet PreviewStatus id t Hq) as H1.
  destruct (read _ w PreviewStatus id t) as [[t1|e] t']; cbn [snd] in H1; subst; [|done].
  pose proof (read_quiet PreviewPrices id t Hq) as H2.
  destruct (read _ w PreviewPrices id t) as [[t2|e] t']; cbn [snd] in H2; subst; [|done].
  destruct (sw_fails w PreviewSources); cbn; by rewrite reach_quiet.
Qed.

(** What somebody else does that leaves a job where it is. *)
Definition minds_job (id : string) (created_at : Z) (op : SyncOp) : bool :=
  match op with OpSave job now => negb (String.eqb (jb_id job) id) && (now - DAY_MS <=? created_at) | _ => true end.

(** Where a task leaves the tables and its own record. *)
Record settled (outcomes : list string) (owner : string) (t : Tables) (r : Job * bool * Tables) : Prop := {
  se_status : jb_status r.1.1 ∈ outcomes;
  se_finished : jb_finished_at_ms r.1.1 = Some (sw_now w SavingResult);
  se_error : jb_status r.1.1 = "failed" → jb_error r.1.1 ≠ None;
  se_snapshot : r.1.2 = true ↔ jb_status r.1.1 = "applied";
  se_stored : reached (sw_fails w SavingResult) = true → sw_now w SavingResult - DAY_MS <= jb_created_at_ms r.1.1 →
    Forall (λ op, minds_job (jb_id r.1.1) (jb_created_at_ms r.1.1) op = true) (sw_others w ReleasingResult) →
    sync_job (jb_id r.1.1) r.2 = Some r.1.1;
  se_lease : reached (sw_fails w ReleasingResult) = true → ctl_owner (tb_control r.2) ≠ Some owner;
  se_prices : quiet → jb_status r.1.1 ≠ "applied" →
    prices_of r.2 = prices_of t ∨ (∃ lost, sw_fails w Applying = Some (Unacknowledged lost)) ∧ outcomes = ["applied"; "failed"]
}.

Lemma finish_job_keeps now job :
  jb_status (finish_job now job) = jb_status job ∧ jb_error (finish_job now job) = jb_error job
  ∧ jb_finished_at_ms (finish_job now job) = Some now ∧ jb_id (finish_job now job) = jb_id job.
Proof. unfold finish_job. by destruct (String.eqb _ _). Qed.

Lemma apply_models_jobs job selected now l c t c' t' :
  apply_models (D := D) unique_violation job selected now l (c, t) = inl (c', t') → tb_jobs t' = tb_jobs t.
Proof.
  revert c t. induction l as [|m l IH]; intros c t; cbn [apply_models]; [by intros [= _ <-]|].
  intros ([c1 t1] & H1 & E)%res_bind_inl. rewrite (IH _ _ E). clear IH E. unfold apply_model in H1. cbv zeta in H1.
  repeat case_match; simplify_eq; try done;
    repeat match goal with H : res_bind _ _ = inl _ |- _ => apply res_bind_inl in H as (? & ? & ?); simplify_eq end;
    repeat case_match; simplify_eq; try done;
    repeat match goal with H : res_bind _ _ = inl _ |- _ => apply res_bind_inl in H as (? & ? & ?); simplify_eq end; done.
Qed.

(** Other people's work leaves the job where it is. *)
Lemma run_op_job id created t op job :
  minds_job id created op = true → jb_created_at_ms job = created → sync_job id t = Some job →
  sync_job id (run_op (D := D) unique_violation t op) = Some job.
Proof.
  unfold sync_job. intros Hm Hc Hj. destruct op; cbn [run_op minds_job] in *; try done.
  - unfold sync_lease. by destruct (_ <=? _).
  - unfold sync_renew. by destruct (holds_lease _ _ _).
  - unfold sync_release. by case_bool_decide.
  - unfold apply_sync. destruct (negb _); [done|]. destruct (negb _); [done|].
    destruct (apply_models _ _ _ _ _ _) as [[c t2]|e] eqn:E; [|done]. cbn. by rewrite (apply_models_jobs _ _ _ _ _ _ _ _ E).
  - apply andb_true_iff in Hm as [Hid%negb_true_iff%String.eqb_neq Hage%Z.leb_le]. unfold save_sync_job. cbn [tb_jobs set_tb_jobs].
    apply map_lookup_filter_Some. split; [by rewrite lookup_insert_ne|]. cbn. lia.
Qed.

Lemma reach_job c id t job :
  Forall (λ op, minds_job id (jb_created_at_ms job) op = true) (sw_others w c) → sync_job id t = Some job →
  sync_job id (reach (D := D) unique_violation w c t) = Some job.
Proof.
  unfold reach. intros Ho. revert t. induction Ho as [|op ops Hop _ IH]; intros t Hj; [done|]. cbn [foldl].
  apply IH. by eapply run_op_job.
Qed.

(** Saving the result and giving back the lease. *)
Lemma settle_tables job owner t1 :
  let t2 := (release (D := D) unique_violation w ReleasingResult owner
    (save (D := D) unique_violation w SavingResult job t1).2).2 in
  (reached (sw_fails w ReleasingResult) = true → ctl_owner (tb_control t2) ≠ Some owner)
  ∧ (quiet → prices_of t2 = prices_of t1)
  ∧ (reached (sw_fails w SavingResult) = true → sw_now w SavingResult - DAY_MS <= jb_created_at_ms job →
     Forall (λ op, minds_job (jb_id job) (jb_created_at_ms job) op = true) (sw_others w ReleasingResult) →
     sync_job (jb_id job) t2 = Some job).
Proof.
  cbv zeta. split_and!; [apply release_owner| |].
  - intros Hq. unfold release, save. rewrite call_quiet //.
    + by rewrite call_quiet.
    + intros t. apply sync_release_prices.
  - intros Hs Hage Ho. unfold save, release. unfold call at 2. set (saved := save_sync_job job _ _).
    assert (sync_job (jb_id job) saved = Some job) as Hj.
    { unfold saved, save_sync_job, sync_job. cbn. apply map_lookup_filter_Some. split; [by rewrite lookup_insert_eq|done]. }
    set (t2 := snd (match sw_fails w SavingResult with Some (Lost e) => _ | Some (Unacknowledged e) => _ | None => _ end)).
    assert (t2 = saved) as -> by (unfold t2; by destruct (sw_fails w SavingResult) as [[e|e]|]).
    apply (reach_job ReleasingResult) in Hj; [|done]. unfold call.
    assert (sync_job (jb_id job) (sync_release owner (reach (D := D) unique_violation w ReleasingResult saved)) = Some job) as Hj'
      by (unfold sync_release; by case_bool_decide).
    by destruct (sw_fails w ReleasingResult) as [[e|e]|].
Qed.

Lemma applied_job_status counts job : jb_status (applied_job w counts job) = "applied".
Proof. unfold applied_job. by destruct (sw_reconcile_error w). Qed.
Lemma applied_job_id counts job : jb_id (applied_job w counts job) = jb_id job.
Proof. unfold applied_job. by destruct (sw_reconcile_error w). Qed.

Lemma prepare_models_id prices sources l : ∀ job,
  jb_id (match prepare_models (D := D) prices sources job l with inl j => j | inr (_, j) => j end) = jb_id job.
Proof.
  induction l as [|m l IH]; intros job; [done|]. cbn [prepare_models].
  assert (jb_id (match prepare_model prices sources job m with inl j => j | inr (_, j) => j end) = jb_id job) as Hm.
  { unfold prepare_model. destruct (prices !! cm_model_name m) as [p|], (cm_price_data m); try done.
    destruct (sources !! mp_id p) as [s|]; [|done]. cbn [ok_or res_bind]. destruct (String.eqb s "manual"); [done|]. by destruct (value_eqb (to_json (mp_price p)) v). }
  destruct (prepare_model prices sources job m) as [j|[e j]]; [|done]. cbn [res_bind]. by rewrite IH.
Qed.

Lemma preview_job_id job t :
  jb_id (match (preview_job (D := D) unique_violation w job t).1 with inl j => j | inr (_, j) => j end) = jb_id job.
Proof.
  assert (∀ t1 t2 t3, jb_id (match prepare_sync (D := D) t1 t2 t3 job with inl j => j | inr (_, j) => j end) = jb_id job) as Hp.
  { intros t1 t2 t3. unfold prepare_sync. destruct (list_latest_model_prices _) as [ps|e]; [|done]. cbn [res_bind].
    by rewrite prepare_models_id. }
  unfold preview_job. destruct (read _ w PreviewStatus id t) as [[t1|e] t']; [|done].
  destruct (read _ w PreviewPrices id t') as [[t2|e] t'']; [|done].
  destruct (sw_fails w PreviewSources); [|apply Hp]. by destruct (list_latest_model_prices _).
Qed.

Lemma fetch_catalog_id job : jb_id (match fetch_catalog w job with inl j => j | inr (_, j) => j end) = jb_id job.
Proof.
  unfold fetch_catalog. destruct (download _ _) as [bytes|]; [|done]. by destruct (sw_parsed w bytes) as [[[v ms] n]|].
Qed.

Lemma settled_intro outcomes owner t job invalidated t1 :
  (invalidated = true ↔ jb_status job = "applied") → jb_status job ∈ outcomes → (jb_status job = "failed" → jb_error job ≠ None) →
  jb_finished_at_ms job = Some (sw_now w SavingResult) →
  (quiet → jb_status job ≠ "applied" →
   prices_of t1 = prices_of t ∨ (∃ lost, sw_fails w Applying = Some (Unacknowledged lost)) ∧ outcomes = ["applied"; "failed"]) →
  settled outcomes owner t (job, invalidated, (release (D := D) unique_violation w ReleasingResult owner
    (save (D := D) unique_violation w SavingResult job t1).2).2).
Proof.
  intros Hinv Hst Herr Hfin Hpr. destruct (settle_tables job owner t1) as (Hl & Hp & Hj).
  split; cbn [fst snd]; try done. intros Hq Hne. rewrite Hp //. by apply Hpr.
Qed.

Lemma settled_run outcomes owner t job invalidated t1 :
  jb_id job = owner → (invalidated = true ↔ jb_status job = "applied") → jb_status job ∈ outcomes →
  (jb_status job = "failed" → jb_error job ≠ None) →
  (quiet → jb_status job ≠ "applied" →
   prices_of t1 = prices_of t ∨ (∃ lost, sw_fails w Applying = Some (Unacknowledged lost)) ∧ outcomes = ["applied"; "failed"]) →
  settled outcomes owner t (let job := finish_job (sw_now w SavingResult) job in
    let t := (save (D := D) unique_violation w SavingResult job t1).2 in
    let t := (release (D := D) unique_violation w ReleasingResult (jb_id job) t).2 in (job, invalidated, t)).
Proof.
  intros Hid Hinv Hst Herr Hpr. cbv zeta.
  destruct (finish_job_keeps (sw_now w SavingResult) job) as (Es & Ee & Ef & Ei). rewrite Ei Hid.
  apply settled_intro; by rewrite ?Es ?Ee ?Ef.
Qed.

Lemma run_job_settled (preview : bool) job t :
  settled (if preview then ["preview"; "failed"] else ["applied"; "failed"]) (jb_id job) t (run_job preview job t).
Proof.
  unfold PriceSync.run_job. pose proof (fetch_catalog_id job) as Hf. destruct (fetch_catalog w job) as [job1|[e job1]].
  2: { apply settled_run; try done; [by destruct preview; set_solver|intros _ _; by left]. }
  pose proof (preview_job_id job1 t) as Hp. pose proof (preview_job_tables job1 t) as Ht.
  destruct (preview_job unique_violation w job1 t) as [[job2|[e job2]] t2]; cbn [fst snd] in *.
  2: { apply settled_run; try done; [by rewrite -Hf -Hp|by destruct preview; set_solver|]. intros Hq _. left. by rewrite Ht. }
  destruct preview.
  { apply settled_run; try done; [by rewrite -Hf -Hp|set_solver|]. intros Hq _. left. by rewrite Ht. }
  destruct (apply_job unique_violation w ∅ (jb_id job2) job2 t2) as [[counts|e] t3] eqn:Ea.
  - apply settled_run; rewrite ?applied_job_status ?applied_job_id; try done; [by rewrite -Hf -Hp|set_solver].
  - apply settled_run; try done; [by rewrite -Hf -Hp|set_solver|]. intros Hq _.
    destruct (apply_job_error _ _ _ _ _ _ Hq Ea) as [->|[Hlost _]]; [left; by rewrite Ht|by right].
Qed.

Lemma run_apply_settled selected job t : settled ["applied"; "failed"] (sw_id w) t (run_apply selected job t).
Proof.
  unfold PriceSync.run_apply. destruct (apply_job unique_violation w selected (sw_id w) job t) as [[counts|e] t1] eqn:Ea.
  - apply (settled_intro _ _ _ (set_jb_conflicts [] (set_jb_expected ∅ (set_jb_models [] (set_jb_finished _ (applied_job w counts job))))));
      cbn [jb_status set_jb_conflicts set_jb_expected set_jb_models set_jb_finished jb_error];
      rewrite ?applied_job_status; try done. set_solver.
  - apply (settled_intro _ _ _ (set_jb_conflicts [] (set_jb_expected ∅ (set_jb_models [] (set_jb_finished _ (set_jb_error (Some e) (set_jb_status "failed" job)))))));
      try done; [set_solver|]. intros Hq _. destruct (apply_job_error _ _ _ _ _ _ Hq Ea) as [->|[Hlost _]]; [by left|by right].
Qed.

(** C33. However the source answers, whatever statement fails and whoever else is at work, a
    synchronisation ends, and so does the application of a preview: as a preview, applied, or
    failed with a reason, and the snapshot is renewed exactly when the catalogue was applied.
    This is what is stored as the job, unless the statement that saves it is lost, the job is
    more than a day old or somebody else saves a job of its id; the lease is given back, unless
    the statement that releases it is lost; and when nobody else changes them, a preview or a
    failed run leaves all prices as they were, unless it failed because the commit of the
    catalogue was not acknowledged. *)
Theorem sync_task_settles (preview : bool) selected job t :
  settled (if preview then ["preview"; "failed"] else ["applied"; "failed"]) (jb_id job) t (run_job preview job t)
  ∧ settled ["applied"; "failed"] (sw_id w) t (run_apply selected job t).
Proof. split; [apply run_job_settled|apply run_apply_settled]. Qed.
End Settled.

(** ** A preview is applied as it was shown *)
Section Chosen.
Context {D : Type} `{Decimal D} (unique_violation : DbError).

Lemma accept_apply_spec w id body t result job selected t' :
  accept_apply (D := D) unique_violation w id body t = (result, Some (job, selected), t') →
  ∃ shown, sync_job id (reach (D := D) unique_violation w ReadingJob t) = Some shown
    ∧ jb_status shown = "preview" ∧ sw_now w ReadingJob - jb_created_at_ms shown <= DAY_MS
    ∧ option_map ar_source_version body = Some (jb_source_version shown)
    ∧ selected ⊆ list_to_set (cf_model_name <$> jb_conflicts shown)
    ∧ jb_models job = jb_models shown ∧ jb_expected job = jb_expected shown
    ∧ jb_catalog_generation job = jb_catalog_generation shown ∧ jb_status job = "running".
Proof.
  unfold accept_apply. destruct body as [body|]; [|done]. unfold read, call at 1.
  destruct (sw_fails w ReadingJob) as [[]|]; [done..|].
  destruct (sync_job id (reach unique_violation w ReadingJob t)) as [shown|] eqn:Es; [|done].
  destruct (String.eqb_spec (jb_status shown) "preview") as [Hst|]; [|done].
  destruct (String.eqb_spec (jb_source_version shown) (ar_source_version body)) as [Hv|]; [|done]. cbn [negb orb].
  destruct (Z.ltb_spec DAY_MS (sw_now w ReadingJob - jb_created_at_ms shown)); [done|].
  case_bool_decide as Hsel; [|done]. cbn [negb].
  destruct (call _ w Leasing _ _) as [[[]|e] t2]; try done. destruct (save _ _ _ _ _) as [[[]|e] t3]; [|done].
  intros [= _ <- <- _]. exists shown. split_and!; try done; try lia. cbn. by rewrite Hv.
Qed.

(** A price entered by hand is only ever replaced when the administrator chose so: an
    apply is accepted only for a preview of the version that was named, at most a day old,
    with a choice among the conflicts it showed; and when it runs, a manual price in force
    stays in force unless its model was chosen. *)
Theorem manual_price_chosen w w' id body t result job selected t1 t2 name r :
  accept_apply (D := D) unique_violation w id body t = (result, Some (job, selected), t1) →
  quiet w' → table_ok (tb_prices t2) → NoDup (cm_model_name <$> jb_models job) →
  price_at (tb_prices t2) None name = Some r → pw_source r = "manual" →
  let t3 := (run_apply (D := D) unique_violation w' selected job t2).2 in
  price_at (tb_prices t3) None name = Some r
  ∨ name ∈ selected ∧ ∃ shown, sync_job id (reach (D := D) unique_violation w ReadingJob t) = Some shown
      ∧ jb_status shown = "preview" ∧ sw_now w ReadingJob - jb_created_at_ms shown <= DAY_MS
      ∧ option_map ar_source_version body = Some (jb_source_version shown)
      ∧ name ∈ cf_model_name <$> jb_conflicts shown.
Proof.
  intros (shown & Hs & Hst & Hage & Hv & Hsel & _)%accept_apply_spec Hq Hok Hd Hp Hm t3.
  destruct (decide (name ∈ selected)) as [Hin|Hout].
  { right. split; [done|]. exists shown. split_and!; try done. apply Hsel in Hin. by apply elem_of_list_to_set in Hin. }
  left. assert (tb_prices t3 = tb_prices (apply_job (D := D) unique_violation w' selected (sw_id w') job t2).2) as ->.
  { unfold t3, run_apply.
    destruct (apply_job unique_violation w' selected (sw_id w') job t2) as [[c|e] t4]; cbn [snd];
      match goal with |- tb_prices (release _ _ _ _ (save _ _ _ ?j _).2).2 = _ =>
        destruct (settle_tables (D := D) unique_violation w' j (sw_id w') t4) as (_ & Hset & _) end;
      specialize (Hset Hq); by injection Hset. }
  assert (∀ t4, tb_prices (apply_sync (D := D) unique_violation job selected (sw_id w') (sw_now w' Applying) t2).2 = t4 →
    (price_at t4 None name = Some r) → price_at (tb_prices (apply_job (D := D) unique_violation w' selected (sw_id w') job t2).2) None name = Some r) as Hcall.
  { intros t4 Ht4 H4. unfold apply_job, call. rewrite reach_quiet //.
    destruct (apply_sync _ _ _ _ _ t2) as [[c|e] t5]; destruct (sw_fails w' Applying) as [[]|]; cbn [snd] in *; by subst. }
  eapply Hcall; [done|]. clear Hcall.
  destruct (apply_sync unique_violation job selected (sw_id w') (sw_now w' Applying) t2) as [[c|e] t4] eqn:Ea; cbn [snd].
  - unfold apply_sync in Ea. destruct (negb _); [done|]. destruct (negb _); [done|].
    destruct (apply_models _ _ _ _ _ _) as [[c2 t5]|] eqn:Em; [|done]. injection Ea as <- <-.
    apply apply_models_applied in Em; [|done|done]. cbn [tb_prices set_tb_control set_tb_missing].
    destruct (decide (Exists (λ m, is_priced m ∧ cm_model_name m = name) (jb_models job)))
      as [(m & Hm1 & Hpr & <-)%Exists_exists|Hno].
    + unfold is_priced in Hpr. destruct (cm_price_data m) as [card|] eqn:Ec; [|done].
      pose proof (ap_prices _ _ _ _ _ _ _ _ Em m card Hm1 Ec) as Ho. cbn [tb_prices set_tb_catalog] in Ho. rewrite Hp in Ho.
      assert (kept_by_hand selected (cm_model_name m) r = true) as Hk.
      { unfold kept_by_hand. rewrite Hm bool_decide_eq_false_2 //. }
      inversion Ho; congruence.
    + rewrite (ap_others _ _ _ _ _ _ _ _ Em); [done|]. intros m Hm1 Hpr [= E]. apply Hno, Exists_exists. by exists m.
  - unfold apply_sync in Ea. repeat case_match; by simplify_eq.
Qed.
End Chosen.

(** ** A preview, then its application *)
#[local] Existing Instances whole whole_ok.

Definition wy_world (id : string) (now : Z) : SyncWorld :=
  MkSyncWorld id (λ _, now) (λ _, None) (λ _, []) default_config (Answered 200 "200 OK" None (inl []))
    (λ _, inl ("v8", [wt_model "a" 9; wt_model "b" 4; wt_model "c" 5], 2)) "too long" None.
Definition wy_url (s : string) : ParsedUrl + string := inl (MkUrl "https" (Some "host") "" None).
Definition wy_idle : Tables := set_tb_control (MkControl None 0 None None None None 7) wt_tables.

(** The tables after a preview was asked for and its task has run. *)
Definition wy_shown : Tables :=
  match start (D := Z) "unique" wy_url (wy_world "P" 1000) true wy_idle with
  | (inl _, Some job, t) => (run_job (D := Z) "unique" (wy_world "P" 1000) true job t).2
  | _ => wy_idle
  end.
Definition wy_request : option ApplyRequest := Some (MkApplyRequest "v8" {["a"]}).
Definition wy_accepted : (Value + string) * option (Job * gset string) * Tables :=
  accept_apply (D := Z) "unique" (wy_world "A" 2000) "P" wy_request wy_shown.

(** The manual price of [a] was chosen: it is replaced as well. *)
Example chosen_is_replaced :
  match wy_accepted with
  | (inl _, Some (job, selected), t) =>
      let '(job, invalidated, t) := run_apply (D := Z) "unique" (wy_world "A" 2001) selected job t in
      jb_status job = "applied" ∧ jb_counts job = MkCounts 1 2 0 0 2 ∧ invalidated = true
      ∧ option_map pw_source (price_at (tb_prices t) None "a") = Some "cloud" ∧ ctl_owner (tb_control t) = None
  | _ => False
  end.
Proof. vm_compute. split_and!; reflexivity. Qed.

(** A commit that is not acknowledged: the application is stored as failed, but the price of [a]
    is the one of the catalogue. *)
Example failed_but_applied :
  match wy_accepted with
  | (_, Some (job, selected), t) =>
      let lost := MkSyncWorld "A" (λ _, 2001) (λ c, match c with Applying => Some (Unacknowledged "connection reset") | _ => None end)
        (λ _, []) default_config (Answered 200 "200 OK" None (inl [])) (λ _, inr "unused") "too long" None in
      let '(job, invalidated, t) := run_apply (D := Z) "unique" lost selected job t in
      option_map jb_status (sync_job "P" t) = Some "failed" ∧ jb_error job = Some "connection reset" ∧ invalidated = false
      ∧ option_map pw_source (price_at (tb_prices t) None "a") = Some "cloud"
  | _ => False
  end.
Proof. vm_compute. split_and!; reflexivity. Qed.

(** The second application of the same preview finds the catalogue changed. *)
Example applied_once :
  match wy_accepted with
  | (_, Some (job, selected), t) =>
      let t := (run_apply (D := Z) "unique" (wy_world "A" 2001) selected job t).2 in
      (accept_apply (D := Z) "unique" (wy_world "B" 3000) "P" wy_request t).1.1
        = inr "preview version is stale; create a new preview"
  | _ => False
  end.
Proof. vm_compute. reflexivity. Qed.

Lemma manual_price_chosen_witness :
  match wy_accepted with
  | (_, Some (job, selected), t) =>
      price_at (tb_prices (run_apply (D := Z) "unique" (wy_world "A" 2001) selected job t).2) None "a"
        = Some (wt_row 1 "a" 1 "manual") ∨ "a" ∈ selected
  | _ => False
  end.
Proof.
  destruct wy_accepted as [[result [[job selected]|]] t] eqn:E; [|exfalso; vm_compute in E; discriminate].
  assert (tb_prices t = wt_prices) as Hp by (vm_compute in E; injection E as _ _ _ <-; reflexivity).
  assert (jb_models job = jb_models wt_job) as Hm by (vm_compute in E; injection E as _ <- _ _; reflexivity).
  destruct (manual_price_chosen (D := Z) "unique" (wy_world "A" 2000) (wy_world "A" 2001) "P" wy_request wy_shown result
    job selected t t "a" (wt_row 1 "a" 1 "manual") E) as [H|[H _]].
  - intros c. reflexivity.
  - rewrite Hp. exact wt_ok.
  - rewrite Hm. exact wt_names.
  - rewrite Hp. vm_compute. reflexivity.
  - reflexivity.
  - left. exact H.
  - right. exact H.
Defined.
