(* ===== verification/WsParts.v ===== *)
(** * WsParts: the pieces of the WebSocket transport

    Models the helpers of [responses_ws.rs]: the providers one turn may ask, the errors and
    outcomes of a turn, the headers of the upstream handshake and of the HTTP bridge, the
    events made of an upstream's answer, the normal form of [response.create], and the check
    that an open upstream connection is still what the configuration allows. *)
From Stdlib Require Import Ascii String.
From S2P Require Import Prelude Text Json ProbeProtocol Resilience Types RuntimeHealth ProviderRuntime Quota KeyRotation Affinity ResponseEvents Pricing Snapshot RoutingAvailability Routing Plan Reservation Headers RequestOverrides UpstreamUrl Relay Tap Prepare.

Local Open Scope string_scope.
Local Open Scope list_scope.
Local Open Scope Z_scope.

Definition UPSTREAM_RESPONSES_PATH : string := "/responses".
Definition RESPONSES_WS_BETA : string := "responses_websockets=2026-02-06".
Definition BETA_FEATURE_RESPONSES_HTTP_TO_WS : string := "responses-http-to-ws".

(** The messages of a WebSocket. *)
Inductive Message :=
| MText (text : string) | MBinary (bytes : list ascii) | MPing (payload : list ascii) | MPong (payload : list ascii)
| MClose (frame : option (Z * string)) | MFrame.

(** ** The providers of one turn *)
Notation WsProviderBudget := (gset Z).

Definition seed (b : WsProviderBudget) (provider_id : Z) : WsProviderBudget := {[ provider_id ]} ∪ b.
Definition budget_contains (b : WsProviderBudget) (provider_id : Z) : bool := bool_decide (provider_id ∈ b).
Definition budget_exhausted (b : WsProviderBudget) : bool := MAX_DISTINCT_PROVIDERS <=? Z.of_nat (size b).

(** [Some switched], or [None] when the turn has asked enough providers. *)
Definition try_note_attempt (b : WsProviderBudget) (provider_id : Z) : option bool * WsProviderBudget :=
  if budget_contains b provider_id then (Some false, b)
  else if budget_exhausted b then (None, b)
  else (Some (negb (size b =? 0)%nat), seed b provider_id).

(** ** Errors and outcomes *)
Record WsBridgeError := MkBridgeError {
  be_status : Z;
  be_error_type : string;
  be_message : string;
  be_scope : FailureScope
}.

Inductive TurnTransport := NativeWs | HttpBridge | WsSetup.

Definition as_log_value (t : TurnTransport) : string :=
  match t with NativeWs => "ws_native" | HttpBridge => "ws_http_bridge" | WsSetup => "ws_setup" end.

Definition budget_error : WsBridgeError :=
  MkBridgeError 503 "upstream_retry_budget_exhausted"
    "upstream attempt limit or deadline reached; retry after cooldown" ScopeClient.

Definition target_unavailable_error : WsBridgeError :=
  MkBridgeError 503 "upstream_cooldown" "upstream entered cooldown before this attempt could be sent" ScopeClient.

Definition capability_cached_error : WsBridgeError :=
  MkBridgeError 426 "upstream_websocket_capability_cached" "upstream websocket is cached as unsupported" ScopeClient.

Definition is_deterministic_ws_unsupported (status : Z) : bool := existsb (Z.eqb status) [404; 405; 426; 501].

Definition provider_has_beta_feature {D} (resolved : ResolvedUpstream D) (feature : string) : bool :=
  existsb (λ item, String.eqb item feature) (up_beta_features (ru_provider resolved)).

(** A failed handshake: an answer of the upstream, an error of the connection, another. *)
Inductive WsError := WsHttp (status : Z) (headers : HeaderMap) | WsIo (message : string) | WsOther (message : string).

Definition map_ws_connect_error (err : WsError) : WsBridgeError :=
  match err with
  | WsHttp status _ =>
      let status := unwrap_or (status_code status) 502 in
      MkBridgeError status "upstream_websocket_http_error"
        ("upstream websocket handshake failed with status " +:+ show_Z status)
        (classify_failure_scope (Some status) UpstreamResponse)
  | WsIo message => MkBridgeError 502 "upstream_websocket_io_error" message ScopeProvider
  | WsOther message => MkBridgeError 502 "upstream_websocket_error" message ScopeProvider
  end.

(** What came of a turn; the times are milliseconds since its start. *)
Record TurnOutcome := MkTurnOutcome {
  to_status : Z;
  to_error_type : option string;
  to_error_message : option string;
  to_t_stream_ms : option Z;
  to_t_first_byte_ms : option Z;
  to_t_first_token_ms : option Z;
  to_duration_ms : Z;
  to_usage : Usage;
  to_usage_observed : bool;
  to_origin : OutcomeOrigin
}.

Definition from_parts (status : Z) (error_type error_message : option string)
    (t_stream_ms t_first_byte_ms t_first_token_ms : option Z) (usage : Usage) (usage_observed : bool) (duration_ms : Z)
    : TurnOutcome :=
  MkTurnOutcome status error_type error_message t_stream_ms t_first_byte_ms t_first_token_ms duration_ms
    usage usage_observed UpstreamEvent.

Definition set_origin (origin : OutcomeOrigin) (o : TurnOutcome) : TurnOutcome :=
  MkTurnOutcome (to_status o) (to_error_type o) (to_error_message o) (to_t_stream_ms o) (to_t_first_byte_ms o)
    (to_t_first_token_ms o) (to_duration_ms o) (to_usage o) (to_usage_observed o) origin.

Definition outcome_error (status : Z) (error_type error_message : string) (duration_ms : Z) : TurnOutcome :=
  set_origin Gateway (from_parts status (Some error_type) (Some error_message) None None None no_usage false duration_ms).

Definition provider_error (status : Z) (error_type error_message : string) (duration_ms : Z) : TurnOutcome :=
  set_origin LocalTransport (outcome_error status error_type error_message duration_ms).

Definition upstream_response_error (status : Z) (error_type error_message : string) (duration_ms : Z) : TurnOutcome :=
  set_origin UpstreamResponse (outcome_error status error_type error_message duration_ms).

(** ** Events *)

(** A failed response nobody has seen anything of, and that costs nothing. *)
Definition should_retry_terminal_before_event (value : Value) (emitted_event : bool) : bool :=
  if emitted_event || is_some (event_usage value) || negb (is_terminal_response_event value) then false
  else let '(status, _, _) := terminal_status value in
       is_retryable (classify_failure_scope (Some status) UpstreamEvent).

(** The event a complete JSON answer becomes. *)
Definition json_response_to_ws_event (from_slice : list ascii → option Value) (status : Z) (body : list ascii) : Value :=
  let parsed := unwrap_or (from_slice body)
    (json_obj [("error", json_obj [("type", String "upstream_error"); ("message", String (from_utf8_lossy body))])]) in
  if is_terminal_response_event parsed && is_some (get "type" parsed) then parsed
  else if (200 <=? status) && (status <=? 299) then
    json_obj [("type", String "response.completed"); ("response", parsed)]
  else
    json_obj [("type", String "error"); ("status", json_i64 status); ("response", parsed);
              ("error", unwrap_or (get "error" parsed) parsed)].

Definition normalize_response_create (value : Value) (upstream_model : string) : Value :=
  match value with
  | Object root =>
      Object (assoc_remove "background"
        (assoc_insert "stream" (Bool true) (assoc_insert "model" (String upstream_model) root)))
  | value => value
  end.

(** The body the HTTP bridge posts. *)
Definition bridge_body (value : Value) : Value :=
  match value with
  | Object root => Object (assoc_insert "stream" (Bool true) (assoc_remove "type" root))
  | value => value
  end.

Definition ws_error_event (status : Z) (code message : string) : Value :=
  json_obj [("type", String "error"); ("status", json_i64 status);
            ("error", json_obj [("type", String "invalid_request_error"); ("code", String code);
                                ("message", String message)])].

(** ** Headers *)
Section Headers.
Context (header_value : string → bool) (to_str : string → option string).

Definition beta_tokens (existing : string) : list string := map trim (split ","%char existing).

Definition strip_websocket_beta_header (headers : HeaderMap) : HeaderMap :=
  match opt_bind (hget "openai-beta" headers) to_str with
  | None => headers
  | Some existing =>
      let kept := List.filter (λ token, negb (String.eqb token "") && negb (String.eqb token RESPONSES_WS_BETA))
                    (beta_tokens existing) in
      if is_empty kept then hremove "openai-beta" headers
      else insert_if_value header_value "openai-beta" (String.concat ", " kept) headers
  end.

Definition insert_beta_header (from to : HeaderMap) : HeaderMap :=
  match opt_bind (hget "openai-beta" from) to_str with
  | None => hinsert "openai-beta" RESPONSES_WS_BETA to
  | Some existing =>
      if existsb (String.eqb RESPONSES_WS_BETA) (beta_tokens existing) then
        copy_allowed_upstream_header from to "openai-beta"
      else insert_if_value header_value "openai-beta" (existing +:+ ", " +:+ RESPONSES_WS_BETA) to
  end.

Definition build_upstream_ws_headers (request_headers : HeaderMap) (upstream_secret : string) : HeaderMap :=
  let headers := copy_allowed_upstream_header request_headers ∅ "openai-organization" in
  let headers := copy_allowed_upstream_header request_headers headers "openai-project" in
  let headers := copy_codex_client_headers request_headers headers in
  let headers := insert_beta_header request_headers headers in
  insert_if_value header_value "authorization" ("Bearer " +:+ upstream_secret) headers.

Definition build_upstream_http_bridge_headers (request_headers : HeaderMap) (upstream_secret : string) (body_len : Z)
    : HeaderMap :=
  let headers := build_upstream_headers header_value request_headers body_len upstream_secret in
  let headers := hinsert "content-type" "application/json" headers in
  let headers := hinsert "accept" "text/event-stream" headers in
  strip_websocket_beta_header headers.
End Headers.

(** ** The configuration *)
Section Configuration.
Context {D : Type}.

(** A client may upgrade when some upstream can be spoken to this way; when the snapshot
    cannot be read, the turns will tell. *)
Definition has_any_websocket_provider (load : UpstreamSnapshot D + string) : bool :=
  match load with
  | inr _ => true
  | inl snap =>
      existsb (λ provider,
        up_enabled provider && up_websocket_enabled provider
        && is_some_and (sn_endpoints_by_provider snap !! up_id provider) (existsb ue_enabled)
        && is_some_and (sn_keys_by_provider snap !! up_id provider) (existsb uk_enabled)) (sn_providers snap)
  end.

(** proxy.rs *)
Definition ws_target_still_routed (snap : UpstreamSnapshot D) (api_key : ApiKeyAuth) (model : string) (provider_id : Z)
    (upstream_model : string) : bool :=
  existsb (Z.eqb provider_id) (ak_allowed_provider_ids api_key)
  && match collect_provider_routes snap Responses model false with
     | inl (routes, _) => existsb (λ route, (up_id (ro_provider route) =? provider_id)
                                            && String.eqb (ro_upstream_model route) upstream_model) routes
     | inr _ => false
     end.

Definition reconnect (reason : string) : string := reason +:+ "; reconnect required".

(** What an open connection has become, or why it must be opened again. The connection owns
    its concurrency slot when [owns_capacity]. *)
Definition refreshed_target (s : SharedState) (snap : UpstreamSnapshot D) (api_key : ApiKeyAuth)
    (requested_model : string) (resolved : ResolvedUpstream D) (owns_capacity : bool) (now : Z)
    : (ResolvedUpstream D + string) * SharedState :=
  match List.find (λ provider, up_id provider =? up_id (ru_provider resolved)) (sn_providers snap) with
  | None => (inr (reconnect "upstream removed"), s)
  | Some provider =>
      match opt_bind (sn_keys_by_provider snap !! up_id provider) (List.find (λ key, uk_id key =? uk_id (ru_key resolved))) with
      | None => (inr (reconnect "account removed"), s)
      | Some key =>
          let '(availability, s) := account s snap provider key (Some (ru_upstream_model resolved)) owns_capacity now in
          if negb (av_available availability) then
            (inr (reconnect (unwrap_or (av_reason availability) "account unavailable")), s)
          else if negb (up_websocket_enabled provider) || negb (is_model_globally_enabled snap requested_model) then
            (inr (reconnect "websocket or requested model disabled"), s)
          else if negb (ws_target_still_routed snap api_key requested_model (up_id provider) (ru_upstream_model resolved)) then
            (inr (reconnect "model route or provider authorization changed"), s)
          else
            match opt_bind (sn_endpoints_by_provider snap !! up_id provider)
                    (List.find (λ endpoint, (ue_id endpoint =? ue_id (ru_endpoint resolved)) && ue_enabled endpoint)) with
            | None => (inr (reconnect "endpoint disabled"), s)
            | Some endpoint =>
                if negb (String.eqb (ue_base_url endpoint) (ue_base_url (ru_endpoint resolved))) then
                  (inr (reconnect "endpoint changed"), s)
                else
                  (inl (MkResolved (ru_upstream_model resolved) provider endpoint key
                          (find_price_for_request snap (up_id provider) requested_model (ru_upstream_model resolved))
                          (ru_protocol resolved)), s)
            end
      end
  end.
End Configuration.

(** What a new connection tells the binding of its session. *)
Definition confirm_ws_affinity {EntryOrder : HashOrder AffinityKey AffinityEntry} (identity : option AffinityIdentity)
    (binding : option AffinityBinding) (provider_id : Z) (should_migrate : bool) (now_ms : Z) (s : SharedState) : SharedState :=
  match identity, binding with
  | Some identity, Some binding =>
      if ab_provider_id binding =? provider_id then
        if ab_confirmed binding
        then set_ss_affinity (refresh_if_provider (ss_affinity s) identity provider_id now_ms).2 s
        else set_ss_affinity (confirm (ss_affinity s) identity binding now_ms).2 s
      else if should_migrate then set_ss_affinity (migrate (ss_affinity s) identity provider_id now_ms).2 s
      else s
  | _, _ => s
  end.

(** ** An open connection is checked against the configuration *)
Section Refreshed.
Context {D : Type}.
Implicit Types snap : UpstreamSnapshot D.
Implicit Types a : ResolvedUpstream D.

(** [a'] is what the target [a] of a connection is by [snap] at [now], and may still serve
    [model] for [api_key]. *)
Record target_current (s : SharedState) snap (api_key : ApiKeyAuth) (model : string) a (owns : bool) (now : Z) a' : Prop := {
  tc_provider : ru_provider a' ∈ sn_providers snap ∧ up_id (ru_provider a') = up_id (ru_provider a);
  tc_key : ru_key a' ∈ unwrap_or (sn_keys_by_provider snap !! up_id (ru_provider a)) [] ∧ uk_id (ru_key a') = uk_id (ru_key a);
  tc_endpoint : ru_endpoint a' ∈ unwrap_or (sn_endpoints_by_provider snap !! up_id (ru_provider a)) []
    ∧ ue_id (ru_endpoint a') = ue_id (ru_endpoint a) ∧ ue_base_url (ru_endpoint a') = ue_base_url (ru_endpoint a);
  tc_enabled : up_enabled (ru_provider a') = true ∧ uk_enabled (ru_key a') = true ∧ ue_enabled (ru_endpoint a') = true
    ∧ up_websocket_enabled (ru_provider a') = true ∧ is_model_globally_enabled snap model = true;
  tc_authorized : up_id (ru_provider a) ∈ ak_allowed_provider_ids api_key;
  tc_routed : ∃ route, route_ok snap Responses false route ∧ up_id (ro_provider route) = up_id (ru_provider a)
    ∧ ro_upstream_model route = ru_upstream_model a
    ∧ ∀ policy, route_policy snap model = Some policy → policy_allows policy (up_id (ru_provider a)) = true;
  tc_oauth : up_provider_type (ru_provider a') = OAUTH_PROVIDER_TYPE →
    ∃ account, sn_codex_oauth_by_key snap !! uk_id (ru_key a) = Some account ∧ is_routable account now = true;
  tc_quota : (is_available (ss_quota s) (uk_id (ru_key a)) now).1 = true;
  tc_circuits : pv_state (ProviderRuntime.snapshot (ss_provider_runtime s) (ru_provider a') now) ≠ Open
    ∧ hv_available (RuntimeHealth.snapshot (ss_upstream_key_health s) (uk_id (ru_key a)) now) = true;
  tc_capacity : owns = true ∨ pv_available (ProviderRuntime.snapshot (ss_provider_runtime s) (ru_provider a') now) = true;
  tc_terms : ru_upstream_model a' = ru_upstream_model a
    ∧ ru_price a' = find_price_for_request snap (up_id (ru_provider a)) model (ru_upstream_model a)
}.

Lemma find_elem {A} (f : A → bool) l x : List.find f l = Some x → x ∈ l ∧ f x = true.
Proof. intros [Hin Hf]%find_some. by rewrite list_elem_of_In. Qed.

Lemma opt_find_elem {A} (o : option (list A)) (f : A → bool) x :
  opt_bind o (List.find f) = Some x → x ∈ unwrap_or o [] ∧ f x = true.
Proof. destruct o as [l|]; [|done]. apply find_elem. Qed.

Lemma still_routed snap key model id upstream_model :
  ws_target_still_routed snap key model id upstream_model = true →
  id ∈ ak_allowed_provider_ids key
  ∧ ∃ route, route_ok snap Responses false route ∧ up_id (ro_provider route) = id ∧ ro_upstream_model route = upstream_model
      ∧ ∀ policy, route_policy snap model = Some policy → policy_allows policy id = true.
Proof.
  unfold ws_target_still_routed. intros [Ha Hr]%andb_prop. split.
  { apply existsb_elem in Ha as (i & Hi & ->%Z.eqb_eq). done. }
  destruct (collect_provider_routes snap Responses model false) as [[routes d]|e] eqn:Ec; [|done].
  apply collected_routes_ok in Ec as (_ & _ & Hok & Hp). apply existsb_elem in Hr as (route & Hin & Hr).
  apply andb_prop in Hr as [Hid%Z.eqb_eq Hm%String.eqb_eq]. exists route. rewrite Forall_forall in Hok.
  split_and!; [by apply Hok|done..|]. intros policy Hpol. rewrite -Hid. by apply Hp.
Qed.

Lemma refreshed_current s snap key model a owns now a' s' :
  refreshed_target s snap key model a owns now = (inl a', s') → target_current s snap key model a owns now a'.
Proof.
  unfold refreshed_target. destruct (List.find _ _) as [provider|] eqn:Ep; [|done]. apply find_elem in Ep as [Hp Hpid%Z.eqb_eq].
  destruct (opt_bind (sn_keys_by_provider snap !! _) _) as [k|] eqn:Ek; [|done]. apply opt_find_elem in Ek as [Hk Hkid%Z.eqb_eq].
  pose proof (account_available_iff' s snap provider k (Some (ru_upstream_model a)) owns now) as [Ha _].
  destruct (account _ _ _ _ _ _ _) as [availability s1]. cbn [fst] in Ha.
  destruct (av_available availability) eqn:Eav; [|done]. cbn [negb]. destruct (Ha eq_refl) as (He & Hke & Ho & Hq & _ & Hc & Hcap & Hh & _).
  destruct (negb (up_websocket_enabled provider) || _) eqn:Ew; [done|].
  apply orb_false_iff in Ew as [Hw%negb_false_iff Hg%negb_false_iff].
  destruct (ws_target_still_routed _ _ _ _ _) eqn:Er; [|done]. cbn [negb]. apply still_routed in Er as [Hauth Hroute].
  destruct (opt_bind (sn_endpoints_by_provider snap !! _) _) as [e|] eqn:Ee; [|done].
  apply opt_find_elem in Ee as [Hin [Heid%Z.eqb_eq Hen]%andb_prop].
  destruct (String.eqb_spec (ue_base_url e) (ue_base_url (ru_endpoint a))) as [Hu|]; [|done]. intros [= <- _].
  rewrite Hpid in Hk, Hin, Hauth, Hroute |- *. rewrite Hkid in Ho, Hq, Hh. by split.
Qed.

(** Before every attempt the open connection of a session is checked against the current
    configuration: it is used only while its provider, account and endpoint are the configured
    ones, enabled and at the same address, its route and the key's authorization still lead
    there, and quota, circuits and concurrency allow it; the attempt is billed at the price in
    force. *)
Theorem refreshed_target_current s snap key model a owns now a' s' :
  refreshed_target s snap key model a owns now = (inl a', s') → target_current s snap key model a owns now a'.
Proof.
  apply refreshed_current.
Qed.
End Refreshed.

(** *** Concrete targets *)
Definition wx_provider (id : Z) : UpstreamProvider :=
  MkProvider None true id "p" "openai" true 0 1 true true [] (MkOverrides [] []) "ordered" 2 (Some 4) true 3 1000 1.

Definition wx_snapshot : UpstreamSnapshot Z :=
  MkSnapshot [wx_provider 1; wx_provider 2]
    {["m" := MkRoutePolicy "m" "priority" true true [MkRouteTarget 1 20 1; MkRouteTarget 2 10 1]]}
    (<[1 := [Plan.wp_key 11 1]]> (<[2 := [Plan.wp_key 21 2]]> ∅))
    (<[1 := [Plan.wp_endpoint 111 1]]> (<[2 := [Plan.wp_endpoint 211 2]]> ∅)) ∅ ∅
    (<[1 := {["m" := MkModelState true true true]}]> (<[2 := {["m" := MkModelState true true true]}]> ∅))
    ∅ ∅ ∅ ∅ ∅ ∅ [] ∅ ∅.

Definition wx_target : ResolvedUpstream Z :=
  MkResolved "m" (wx_provider 1) (Plan.wp_endpoint 111 1) (Plan.wp_key 11 1) None (native Responses).

Lemma refreshed_target_current_witness :
  ∃ a', target_current wv_fresh wx_snapshot Plan.wp_api_key "m" wx_target true 1000 a' ∧ ru_provider a' = wx_provider 1.
Proof.
  destruct (refreshed_target wv_fresh wx_snapshot Plan.wp_api_key "m" wx_target true 1000) as [[a'|e] s'] eqn:E.
  - exists a'. split; [exact (refreshed_target_current _ _ _ _ _ _ _ _ _ E)|].
    assert (match (refreshed_target wv_fresh wx_snapshot Plan.wp_api_key "m" wx_target true 1000).1 with
      | inl a' => ru_provider a' = wx_provider 1 | inr _ => True end) as H by (vm_compute; reflexivity).
    rewrite E in H. exact H.
  - assert (match (refreshed_target wv_fresh wx_snapshot Plan.wp_api_key "m" wx_target true 1000).1 with
      | inl _ => True | inr _ => False end) as H by (vm_compute; exact I). rewrite E in H. destruct H.
Defined.

(** Without the authorization of its provider the connection must be opened again. *)
Example refreshed_unauthorized :
  match (refreshed_target wv_fresh wx_snapshot (MkApiKeyAuth 1 true None true "key" [] [2]) "m" wx_target true 1000).1 with
  | inr message => message = "model route or provider authorization changed; reconnect required"
  | inl _ => False
  end.
Proof. vm_compute. reflexivity. Qed.
