(* ===== verification/WsConnect.v ===== *)
(** * WsConnect: opening the upstream side of a WebSocket session

    Models the connecting half of [responses_ws.rs]: the state of a session and of its
    current turn, the attempt budget of a turn, the handshake with one target and its
    repetition with a new OAuth token, the capability cache in front of it, and the choice
    among the targets of a plan. What the gateway does not control - the clocks, the
    upstreams, the client, the other requests, the configuration that is loaded - is the
    world, asked in the order of the questions. A session that panics is unwound. Durations
    and candidates of the routing trace and the counters of the metrics are not modelled. *)
From Stdlib Require Import Ascii String.
From S2P Require Import Prelude Text Json ProbeProtocol Resilience Types RuntimeHealth ProviderRuntime Quota KeyRotation Selector Affinity ResponseEvents Recovery Caches Pricing Snapshot RoutingAvailability Routing Plan Reservation Slots OpenAi Headers RequestOverrides UpstreamUrl CodexRequests Relay Tap Prepare AttemptLoop WsParts Computation.

Local Open Scope string_scope.
Local Open Scope list_scope.
Local Open Scope Z_scope.
Local Open Scope loop_scope.

(** ** The world *)

(** What the client leaves to be noticed while something is awaited, and what arrives. *)
Inductive Arrival (T : Type) := Got (x : T) | GotFailure (error : string) | GotClose.
Arguments Got {T}. Arguments GotFailure {T}. Arguments GotClose {T}.

(** One read from an upstream: when it starts, when the client leaves, what comes when. *)
Record Read (T : Type) := MkRead { rd_now : Z; rd_gone : option Z; rd_arrival : option (Z * Arrival T) }.
Arguments MkRead {T}. Arguments rd_now {T}. Arguments rd_gone {T}. Arguments rd_arrival {T}.

Inductive Handshake := HandshakeDone | HandshakeTimeout | HandshakeFailed (error : WsError).

Record BridgeResponse := MkBridgeResponse { br_status : Z; br_headers : HeaderMap; br_reads : list (Read Frame) }.

(** The books other requests share with the session. *)
Record Books := MkBooks { bk_shared : SharedState; bk_recovery : RecoveryBook; bk_capability : TransportCapabilityCache }.

(** The answers of the world to the [n]-th question of the session. *)
Record World (D : Type) := MkWsWorld {
  wd_ms : nat → Z;
  wd_at : nat → Z;
  wd_timing : nat → timing;
  wd_others : nat → Books → Books;
  wd_gone : nat → option Z;
  wd_load : nat → UpstreamSnapshot D + string;
  wd_clock : nat → PlanClock;
  wd_auth : nat → PreparedCodexAuth + CodexAuthError;
  wd_handshake : nat → Z → string → HeaderMap → Handshake;
  wd_write_error : nat → option string;
  wd_accepted : nat → bool;
  wd_reads : nat → list (Read Message);
  wd_response : nat → Z → Uri → HeaderMap → string → BridgeResponse + UpstreamDispatchError;
  wd_key : nat → option ApiKeyAuth + string;
  wd_permit : nat → bool;
  wd_recovery_enabled : nat → bool
}.
Arguments MkWsWorld {D}. Arguments wd_ms {D}. Arguments wd_at {D}. Arguments wd_timing {D}. Arguments wd_others {D}.
Arguments wd_gone {D}. Arguments wd_load {D}. Arguments wd_clock {D}. Arguments wd_auth {D}. Arguments wd_handshake {D}.
Arguments wd_write_error {D}. Arguments wd_accepted {D}. Arguments wd_reads {D}. Arguments wd_response {D}.
Arguments wd_key {D}. Arguments wd_permit {D}. Arguments wd_recovery_enabled {D}.

(** ** The state of a session *)
Inductive ActiveTransport := NativeTransport | BridgeTransport.

Record ActiveUpstream (D : Type) := MkActive {
  au_requested_model : string;
  au_resolved : ResolvedUpstream D;
  au_transport : ActiveTransport;
  au_responses_lite : bool;
  au_capacity : option ProviderCapacityPermit
}.
Arguments MkActive {D}. Arguments au_requested_model {D}. Arguments au_resolved {D}. Arguments au_transport {D}.
Arguments au_responses_lite {D}. Arguments au_capacity {D}.

Inductive NativeWsConnectOutcome :=
| Connected (permit : ProviderCapacityPermit) (responses_lite : bool)
| Unsupported (error : WsBridgeError)
| Unavailable (error : WsBridgeError)
| Failed (error : WsBridgeError).

(** An attempt of the routing trace. *)
Record TraceAttempt := MkTraceAttempt {
  ta_target : Z * Z * Z;
  ta_status : option Z;
  ta_error_type : option string
}.

Record WsRoutingTrace := MkWsTrace {
  wt_model_route : option RoutePolicy;
  wt_attempts : list TraceAttempt;
  wt_last_number : Z
}.

Definition default_ws_trace : WsRoutingTrace := MkWsTrace None [] 0.

(** The constants of a session, and of a turn where they are about its request. *)
Record WsContext := MkWsContext {
  cx_api_key : ApiKeyAuth;
  cx_request_headers : HeaderMap;
  cx_request_id : string;
  cx_session_id : string;
  cx_session_log_id : string;
  cx_session_started_at_ms : Z;
  cx_requested_reasoning_effort : option string;
  cx_upstream_reasoning_effort : option string;
  cx_requested_service_tier : option string;
  cx_upstream_service_tier : option string
}.

(** A row of the log. *)
Record WsRow := MkRow {
  wr_id : option string;
  wr_api_key_id : Z;
  wr_log_enabled : bool;
  wr_target : option (Z * Z * Z);
  wr_upstream_api_format : option string;
  wr_model : option string;
  wr_http_status : Z;
  wr_error_type : option string;
  wr_error_message : option string;
  wr_times : option Z * option Z * option Z;
  wr_duration_ms : option Z;
  wr_usage : Usage;
  wr_usage_observed : bool;
  wr_price : option Z * option Z;
  wr_time_ms : Z;
  wr_span_kind : string;
  wr_transport : string;
  wr_parent_id : option string;
  wr_ws_session_id : option string;
  wr_requested : option string * option string;
  wr_upstream : option string * option string;
  wr_ttft_source : option string;
  wr_service_tier : option string;
  wr_routing_trace : option (WsRoutingTrace * RecoveryTrace)
}.

(** What is counted for a request. *)
Record RequestMetric (D : Type) := MkMetric {
  rm_http_status : Z;
  rm_error_type : option string;
  rm_duration_ms : option Z;
  rm_usage : Usage;
  rm_pricing : PricingEvaluation D
}.
Arguments MkMetric {D}. Arguments rm_http_status {D}. Arguments rm_error_type {D}. Arguments rm_duration_ms {D}.
Arguments rm_usage {D}. Arguments rm_pricing {D}.

Record PendingTurnLog (D : Type) := MkPending {
  pd_permit : bool;
  pd_event : WsRow;
  pd_pricing : PricingEvaluation D;
  pd_succeeded : bool
}.
Arguments MkPending {D}. Arguments pd_permit {D}. Arguments pd_event {D}. Arguments pd_pricing {D}. Arguments pd_succeeded {D}.

(** The variables of one turn. [tn_permit] is the turn's place in the telemetry queue. *)
Record Turn (D : Type) := MkTurn {
  tn_budget : AttemptBudget;
  tn_providers : WsProviderBudget;
  tn_recovery : RequestRecovery;
  tn_trace : WsRoutingTrace;
  tn_observation : Observation;
  tn_permit : bool;
  tn_pending : option (PendingTurnLog D)
}.
Arguments MkTurn {D}. Arguments tn_budget {D}. Arguments tn_providers {D}. Arguments tn_recovery {D}. Arguments tn_trace {D}.
Arguments tn_observation {D}. Arguments tn_permit {D}. Arguments tn_pending {D}.

(** What goes over the wires to the upstreams. *)
Inductive WireEvent :=
| WireHandshake (target : Z * Z * Z)
| WireCreate (target : Z * Z * Z) (payload : string)
| WirePost (target : Z * Z * Z) (body : string)
| WireMessage (message : Message).

(** [ws_out] is what was sent to the client while it listened, [ws_wire] what was sent to the
    upstreams, [ws_marks] the accounts whose state was written to the database; [ws_tick]
    counts the questions asked of the world. *)
Record WsState (D R : Type) := MkWs {
  ws_books : Books;
  ws_rand : R;
  ws_turn : Turn D;
  ws_active : option (ActiveUpstream D);
  ws_gone : option Z;
  ws_out : list Message;
  ws_wire : list WireEvent;
  ws_marks : list (Z * string);
  ws_log : list WsRow;
  ws_requests : list (RequestMetric D);
  ws_close : Z * option string * option string;
  ws_tick : nat
}.
Arguments MkWs {D R}. Arguments ws_books {D R}. Arguments ws_rand {D R}. Arguments ws_turn {D R}. Arguments ws_active {D R}.
Arguments ws_gone {D R}. Arguments ws_out {D R}. Arguments ws_wire {D R}. Arguments ws_marks {D R}. Arguments ws_log {D R}.
Arguments ws_requests {D R}. Arguments ws_close {D R}. Arguments ws_tick {D R}.

Section State.
Context {D R : Type}.
Implicit Types s : WsState D R.
Implicit Types t : Turn D.

Definition set_ws_books v s := MkWs v (ws_rand s) (ws_turn s) (ws_active s) (ws_gone s) (ws_out s) (ws_wire s) (ws_marks s) (ws_log s) (ws_requests s) (ws_close s) (ws_tick s).
Definition set_ws_rand (v : R) s := MkWs (ws_books s) v (ws_turn s) (ws_active s) (ws_gone s) (ws_out s) (ws_wire s) (ws_marks s) (ws_log s) (ws_requests s) (ws_close s) (ws_tick s).
Definition set_ws_turn (v : Turn D) s := MkWs (ws_books s) (ws_rand s) v (ws_active s) (ws_gone s) (ws_out s) (ws_wire s) (ws_marks s) (ws_log s) (ws_requests s) (ws_close s) (ws_tick s).
Definition set_ws_active (v : option (ActiveUpstream D)) s := MkWs (ws_books s) (ws_rand s) (ws_turn s) v (ws_gone s) (ws_out s) (ws_wire s) (ws_marks s) (ws_log s) (ws_requests s) (ws_close s) (ws_tick s).
Definition set_ws_gone v s := MkWs (ws_books s) (ws_rand s) (ws_turn s) (ws_active s) v (ws_out s) (ws_wire s) (ws_marks s) (ws_log s) (ws_requests s) (ws_close s) (ws_tick s).
Definition set_ws_out v s := MkWs (ws_books s) (ws_rand s) (ws_turn s) (ws_active s) (ws_gone s) v (ws_wire s) (ws_marks s) (ws_log s) (ws_requests s) (ws_close s) (ws_tick s).
Definition set_ws_wire v s := MkWs (ws_books s) (ws_rand s) (ws_turn s) (ws_active s) (ws_gone s) (ws_out s) v (ws_marks s) (ws_log s) (ws_requests s) (ws_close s) (ws_tick s).
Definition set_ws_marks v s := MkWs (ws_books s) (ws_rand s) (ws_turn s) (ws_active s) (ws_gone s) (ws_out s) (ws_wire s) v (ws_log s) (ws_requests s) (ws_close s) (ws_tick s).
Definition set_ws_log v s := MkWs (ws_books s) (ws_rand s) (ws_turn s) (ws_active s) (ws_gone s) (ws_out s) (ws_wire s) (ws_marks s) v (ws_requests s) (ws_close s) (ws_tick s).
Definition set_ws_requests (v : list (RequestMetric D)) s := MkWs (ws_books s) (ws_rand s) (ws_turn s) (ws_active s) (ws_gone s) (ws_out s) (ws_wire s) (ws_marks s) (ws_log s) v (ws_close s) (ws_tick s).
Definition set_ws_close v s := MkWs (ws_books s) (ws_rand s) (ws_turn s) (ws_active s) (ws_gone s) (ws_out s) (ws_wire s) (ws_marks s) (ws_log s) (ws_requests s) v (ws_tick s).
Definition set_ws_tick v s := MkWs (ws_books s) (ws_rand s) (ws_turn s) (ws_active s) (ws_gone s) (ws_out s) (ws_wire s) (ws_marks s) (ws_log s) (ws_requests s) (ws_close s) v.

Definition set_tn_budget v t := MkTurn v (tn_providers t) (tn_recovery t) (tn_trace t) (tn_observation t) (tn_permit t) (tn_pending t).
Definition set_tn_providers v t := MkTurn (tn_budget t) v (tn_recovery t) (tn_trace t) (tn_observation t) (tn_permit t) (tn_pending t).
Definition set_tn_recovery v t := MkTurn (tn_budget t) (tn_providers t) v (tn_trace t) (tn_observation t) (tn_permit t) (tn_pending t).
Definition set_tn_trace v t := MkTurn (tn_budget t) (tn_providers t) (tn_recovery t) v (tn_observation t) (tn_permit t) (tn_pending t).
Definition set_tn_observation v t := MkTurn (tn_budget t) (tn_providers t) (tn_recovery t) (tn_trace t) v (tn_permit t) (tn_pending t).
Definition set_tn_permit v t := MkTurn (tn_budget t) (tn_providers t) (tn_recovery t) (tn_trace t) (tn_observation t) v (tn_pending t).
Definition set_tn_pending (v : option (PendingTurnLog D)) t := MkTurn (tn_budget t) (tn_providers t) (tn_recovery t) (tn_trace t) (tn_observation t) (tn_permit t) v.

Definition ws_shared s : SharedState := bk_shared (ws_books s).
Definition set_bk_shared (v : SharedState) (b : Books) : Books := MkBooks v (bk_recovery b) (bk_capability b).
Definition set_bk_recovery (v : RecoveryBook) (b : Books) : Books := MkBooks (bk_shared b) v (bk_capability b).
Definition set_bk_capability (v : TransportCapabilityCache) (b : Books) : Books := MkBooks (bk_shared b) (bk_recovery b) v.

Definition set_shared (v : SharedState) s : WsState D R := set_ws_books (set_bk_shared v (ws_books s)) s.

Context {A E : Type}.
Notation M := (comp (WsState D R) E).

(** The books, and what belongs to the turn. *)
Definition on_shared (f : SharedState → A * SharedState) : M A :=
  state (λ s, let '(a, shared) := f (ws_shared s) in (a, set_shared shared s)).
Definition update_shared (f : SharedState → SharedState) : M unit := modify (λ s, set_shared (f (ws_shared s)) s).
Definition update_turn (f : Turn D → Turn D) : M unit := modify (λ s, set_ws_turn (f (ws_turn s)) s).
Definition turn_is {B} (f : Turn D → B) : M B := gets (λ s, f (ws_turn s)).

(** A question to the world. *)
Definition ask (f : nat → A) : M A := state (λ s, (f (ws_tick s), set_ws_tick (S (ws_tick s)) s)).

(** What is written to an upstream. *)
Definition write (e : WireEvent) : M unit := modify (λ s, set_ws_wire (ws_wire s ++ [e]) s).

Definition note_account (key_id : Z) (status : string) : M unit :=
  modify (λ s, set_ws_marks (ws_marks s ++ [(key_id, status)]) s).

(** While the session waits, others work on the books and the client may leave. *)
Definition wait (w : World D) : M unit :=
  modify (λ s, set_ws_tick (S (ws_tick s))
                 (set_ws_gone (opt_or (ws_gone s) (wd_gone w (ws_tick s)))
                    (set_ws_books (wd_others w (ws_tick s) (ws_books s)) s))).
End State.

(** The settings of the process; [wt_connect_timeout_text] is the connect timeout as it is printed. *)
Record WsSettings := MkWsSettings {
  wt_settings : Settings;
  wt_connect_timeout : Z;
  wt_connect_timeout_text : string;
  wt_strategy : EndpointSelectorStrategy
}.

(** The functions of crates a session uses besides those of [Libraries]: printing a URI, and
    what [tungstenite] refuses of a URL and of headers. *)
Record WsLibraries := MkWsLibraries {
  wl_libs : Libraries;
  wl_uri_to_string : Uri → string;
  wl_client_request : string → option string;
  wl_client_headers : HeaderMap → option string;
  wl_parse_http_date : string → option Z;
  wl_parse_rfc3339 : string → option Z;
  wl_blake3 : list Z → list Z;
  wl_set_order : gset Digest → list Digest
}.

Section Connect.
Context {D R : Type} `{FastRand R}.
Context {EntryOrder : HashOrder AffinityKey AffinityEntry} {AvoidOrder : HashOrder AffinityKey AvoidEntry}.
Context (libs : WsLibraries) (settings : WsSettings) (w : World D).
Implicit Types resolved : ResolvedUpstream D.

(** A function body that may return an [X] early. *)
Notation M X := (comp (WsState D R) (option X)).
Notation lib := (wl_libs libs).

(** ** The attempt budget *)

(** The client's leaving ends the wait and refuses the attempt. *)
Definition begin_ws_attempt {X} resolved (turn : bool) : M X bool :=
  let* gone := gets ws_gone in
  if is_some gone then ret false
  else
    let* timing := ask (wd_timing w) in
    let* b := turn_is tn_budget in
    let '(granted, b') := begin_for_provider b (up_id (ru_provider resolved)) (up_max_attempts (ru_provider resolved)) turn timing in
    wait w ;;
    let* gone := gets ws_gone in
    if is_some gone then update_turn (set_tn_budget (set_credit false b)) ;; ret false
    else update_turn (set_tn_budget b') ;; ret granted.

(** A connection and its first [response.create] are one attempt of the target. *)
Definition note_ws_send {X} resolved : M X unit :=
  update_turn (λ t,
    let number := used (tn_budget t) in
    if wt_last_number (tn_trace t) =? number then t
    else set_tn_trace (MkWsTrace (wt_model_route (tn_trace t))
                         (wt_attempts (tn_trace t) ++ [MkTraceAttempt (target_of resolved) None None]) number)
           (set_tn_budget (note_send (tn_budget t) (up_id (ru_provider resolved))) t)).

Fixpoint finish_last (l : list TraceAttempt) (status : Z) (error_type : option string) : list TraceAttempt :=
  match l with
  | [] => []
  | [a] => [MkTraceAttempt (ta_target a) (Some status) error_type]
  | a :: l' => a :: finish_last l' status error_type
  end.

Definition finish_ws_trace {X} (status : Z) (error_type : option string) : M X unit :=
  update_turn (λ t, let tr := tn_trace t in
    set_tn_trace (MkWsTrace (wt_model_route tr) (finish_last (wt_attempts tr) status error_type) (wt_last_number tr)) t).

Definition budget_available {X} : M X bool :=
  let* now := ask (wd_at w) in turn_is (λ t, Resilience.available (tn_budget t) now).

Definition provider_budget_available {X} resolved : M X bool :=
  turn_is (λ t, provider_available (tn_budget t) (up_id (ru_provider resolved)) (up_max_attempts (ru_provider resolved))).

(** What is left of the turn's time, within the provider's. *)
Definition time_left {X} resolved : M X Z :=
  let* now := ask (wd_at w) in
  turn_is (λ t, Z.min (remaining (tn_budget t) now) (provider_timeout (wt_settings settings) (ru_provider resolved))).

(** ** Settling *)
Definition settle_neutral {X} (r : UpstreamAttemptReservation) : M X unit :=
  let* now := ask (wd_ms w) in update_shared (λ s, neutral s r now).

Definition settle {X} (r : UpstreamAttemptReservation) (o : AttemptOutcome) : M X unit :=
  let* time := ask (wd_ms w) in let* now := ask (wd_ms w) in
  update_shared (λ s, Reservation.finish s r o time now).

Definition reserve {X} (f : SharedState → Z → Z → (UpstreamAttemptReservation + AttemptReservationError) * SharedState)
    : M X (UpstreamAttemptReservation + AttemptReservationError) :=
  let* now := ask (wd_ms w) in let* drop_ms := ask (wd_ms w) in on_shared (λ s, f s now drop_ms).

Definition since {X} (start : Z) : M X Z := let* now := ask (wd_at w) in ret (elapsed_ms start now).

(** The quota learns from an answer; a rate limit makes the key rest. *)
Definition observe_quota (key_id status : Z) (headers : HeaderMap) (now : Z) (s : SharedState) : SharedState :=
  set_ss_quota (observe_response (wl_parse_http_date libs) (wl_parse_rfc3339 libs) (ss_quota s) key_id status
                  (text_header lib headers) now (st_rate_limit_fallback_cooldown (wt_settings settings))) s.

Definition defer_key (key_id : Z) (now : Z) (s : SharedState) : SharedState :=
  let '(view, quota) := quota_snapshot (ss_quota s) key_id now in
  let s := set_ss_quota quota s in
  match qv_cooldown_until_ms view with
  | Some until => set_ss_upstream_key_health (defer_until (ss_upstream_key_health s) key_id until) s
  | None => s
  end.

(** ** One handshake *)
Definition connect_upstream_ws {X} resolved (ws_url : string) (headers : HeaderMap) : M X (unit + WsBridgeError) :=
  match wl_client_request libs ws_url with
  | Some error => ret (inr (MkBridgeError 400 "invalid_upstream_uri" error ScopeProvider))
  | None =>
      match wl_client_headers libs headers with
      | Some error => ret (inr (MkBridgeError 400 "invalid_upstream_header" error ScopeProvider))
      | None =>
          let* left_ := time_left resolved in
          write (WireHandshake (target_of resolved)) ;;
          wait w ;;
          let* answer := ask (λ n, wd_handshake w n (Z.min (wt_connect_timeout settings) left_) ws_url headers) in
          match answer with
          | HandshakeDone => ret (inl tt)
          | HandshakeTimeout =>
              ret (inr (MkBridgeError 504 "upstream_timeout"
                          ("upstream websocket connect timeout after " +:+ wt_connect_timeout_text settings) ScopeProvider))
          | HandshakeFailed error =>
              match error with
              | WsHttp status response_headers =>
                  let* now := ask (wd_ms w) in
                  update_shared (observe_quota (uk_id (ru_key resolved)) status response_headers now) ;;
                  if (status =? 402) || (status =? 429) then update_shared (defer_key (uk_id (ru_key resolved)) now)
                  else ret tt
              | _ => ret tt
              end ;;
              ret (inr (map_ws_connect_error error))
          end
      end
  end.

Definition upstream_ws_headers (ctx : WsContext) resolved (auth : option PreparedCodexAuth) : HeaderMap + string :=
  let secret := match auth with Some auth => ca_access_token auth | None => uk_secret (ru_key resolved) end in
  let headers := build_upstream_ws_headers (header_value lib) (to_str lib) (cx_request_headers ctx) secret in
  let headers := match auth with
                 | Some auth => apply_codex_headers (header_value lib) (to_str lib) headers auth
                 | None => headers
                 end in
  match apply_header_overrides (header_name lib) (header_value lib) (up_request_overrides (ru_provider resolved))
          TargetResponses headers (cx_request_id ctx) with
  | inl headers => inl headers
  | inr _ => inr "failed to apply provider request header overrides"
  end.

Definition override_failed (message : string) : WsBridgeError :=
  MkBridgeError 500 "request_override_failed" message ScopeProvider.

Definition lite_headers (headers : HeaderMap) : bool :=
  lite_enabled (omap (to_str lib) (hget_all LITE_HEADER headers)).

Definition is_unauthorized (connected : unit + WsBridgeError) : bool :=
  match connected with inr error => be_status error =? 401 | inl _ => false end.

(** A reservation taken over by a probe or a reset is given up. *)
Definition still_current {A} (r : UpstreamAttemptReservation) (otherwise : A) : M A unit :=
  let* s := gets ws_shared in
  if reservation_current s r then ret tt else settle_neutral r ;; return_ otherwise.

(** The token of an OAuth account; without one the key is to blame. *)
Definition connect_auth resolved (r : UpstreamAttemptReservation) (start : Z)
    : M NativeWsConnectOutcome (option PreparedCodexAuth) :=
  if is_codex_oauth (ru_provider resolved) then
    wait w ;;
    let* auth := ask (wd_auth w) in
    match auth with
    | inl auth => ret (Some auth)
    | inr e =>
        let* elapsed := since start in
        settle r (upstream_response (au_status e) (Some (au_code e)) (Some (au_message e)) (Some elapsed)) ;;
        return_ (Unavailable (MkBridgeError (au_status e) (au_code e) (au_message e) ScopeKey))
    end
  else ret None.

(** One repetition of the handshake, with a new token for an OAuth account. *)
Definition replay_connect (ctx : WsContext) resolved (r : UpstreamAttemptReservation) (ws_url : string)
    (connected : unit + WsBridgeError) (lite : bool)
    : M NativeWsConnectOutcome ((unit + WsBridgeError) * bool * bool) :=
  if negb (is_unauthorized connected && is_codex_oauth (ru_provider resolved)) then ret (connected, lite, false)
  else
    let* available := budget_available in
    if negb available then ret (connected, lite, false)
    else
      wait w ;;
      let* auth := ask (wd_auth w) in
      match auth with
      | inr _ => ret (connected, lite, false)
      | inl refreshed =>
          match upstream_ws_headers ctx resolved (Some refreshed) with
          | inr message => settle_neutral r ;; return_ (Failed (override_failed message))
          | inl headers =>
              let* s := gets ws_shared in
              if negb (reservation_current s r) then ret (connected, lite, false)
              else
                let* granted := begin_ws_attempt resolved false in
                let* s := gets ws_shared in
                if negb (granted && reservation_current s r) then ret (connected, lite, false)
                else
                  finish_ws_trace 401 (Some "oauth_token_refresh") ;;
                  note_ws_send resolved ;;
                  let '(provider, endpoint, key) := target_of resolved in
                  let* now := ask (wd_ms w) in
                  update_shared (λ s, set_ss_provider_runtime
                    (record_error (ss_provider_runtime s) provider endpoint key "OAuth authentication replay" (Some 401) now) s) ;;
                  let* connected := connect_upstream_ws resolved ws_url headers in
                  ret (connected, lite_headers headers, true)
          end
      end.

Definition mark_supported {X} (key : TransportCapabilityKey) (supported : bool) : M X unit :=
  let* now := ask (wd_ms w) in
  modify (λ s, let '(cache, rand) := (if supported then mark_native_supported else mark_native_unsupported)
                                       (bk_capability (ws_books s)) key now (ws_rand s) in
               set_ws_rand rand (set_ws_books (set_bk_capability cache (ws_books s)) s)).

(** The connection keeps the slot of its reservation. *)
Definition keep_capacity {X} (r : UpstreamAttemptReservation) : M X (option ProviderCapacityPermit) :=
  let* now := ask (wd_ms w) in on_shared (λ s, into_capacity s r now).

Definition connect_result resolved (key : TransportCapabilityKey) (r : UpstreamAttemptReservation) (start : Z)
    (connected : unit + WsBridgeError) (lite : bool) : M NativeWsConnectOutcome NativeWsConnectOutcome :=
  match connected with
  | inl _ =>
      update_turn (λ t, set_tn_budget (credit_connected_setup (tn_budget t)) t) ;;
      mark_supported key true ;;
      let* capacity := keep_capacity r in
      match capacity with
      | None => ret (Unavailable (MkBridgeError 503 "provider_capacity_unavailable"
                       "websocket provider capacity was released during connect" ScopeProvider))
      | Some permit => ret (Connected permit lite)
      end
  | inr err =>
      finish_ws_trace (be_status err) (Some (be_error_type err)) ;;
      if is_deterministic_ws_unsupported (be_status err) then
        settle_neutral r ;; mark_supported key false ;; ret (Unsupported err)
      else
        let* elapsed := since start in
        settle r (upstream_response (be_status err) (Some (be_error_type err)) (Some (be_message err)) (Some elapsed)) ;;
        ret (Failed err)
  end.

Definition connect_upstream_ws_once {X} (ctx : WsContext) resolved (key : TransportCapabilityKey)
    (r : UpstreamAttemptReservation) : M X NativeWsConnectOutcome := call (
  let* start := ask (wd_at w) in
  match build_upstream_websocket_url (parse_uri lib) (parse_path_and_query lib) (Prepare.from_parts lib) (wl_uri_to_string libs)
          (ue_base_url (ru_endpoint resolved)) UPSTREAM_RESPONSES_PATH with
  | inr message =>
      let* elapsed := since start in
      settle r (local_provider (Some 400) "invalid_upstream_uri" message (Some elapsed)) ;;
      ret (Failed (MkBridgeError 400 "invalid_upstream_uri" message ScopeProvider))
  | inl ws_url =>
      let* auth := connect_auth resolved r start in
      match upstream_ws_headers ctx resolved auth with
      | inr message => settle_neutral r ;; ret (Failed (override_failed message))
      | inl headers =>
          still_current r (Unavailable target_unavailable_error) ;;
          let* granted := begin_ws_attempt resolved false in
          if negb granted then settle_neutral r ;; ret (Unavailable budget_error)
          else
            still_current r (Unavailable target_unavailable_error) ;;
            note_ws_send resolved ;;
            let* connected := connect_upstream_ws resolved ws_url headers in
            let* (connected, lite, replayed) := replay_connect ctx resolved r ws_url connected (lite_headers headers) in
            (if replayed && is_unauthorized connected
             then note_account (uk_id (ru_key resolved)) AUTH_STATUS_REAUTH_REQUIRED ;; wait w else ret tt) ;;
            connect_result resolved key r start connected lite
      end
  end).

(** The capability cache is asked before and after the reservation, and again behind the
    lock that lets one request at a time try an unknown target. *)
Definition capability {X} (key : TransportCapabilityKey) : M X (option WsCapability) :=
  let* now := ask (wd_ms w) in gets (λ s, capability_get (bk_capability (ws_books s)) key now).

Definition connect_reserved {X} (ctx : WsContext) resolved (key : TransportCapabilityKey) (r : UpstreamAttemptReservation)
    : M X NativeWsConnectOutcome :=
  let* known := capability key in
  match known with
  | Some NativeSupported => connect_upstream_ws_once ctx resolved key r
  | _ =>
      modify (λ s, set_ws_books (set_bk_capability (probe_lock (bk_capability (ws_books s)) key).2 (ws_books s)) s) ;;
      wait w ;;
      let* known := capability key in
      match known with
      | Some NativeUnsupported => settle_neutral r ;; ret (Unsupported capability_cached_error)
      | _ => connect_upstream_ws_once ctx resolved key r
      end
  end.

Definition connect_or_bridge_upstream {X} (ctx : WsContext) resolved : M X NativeWsConnectOutcome :=
  let key := MkCapKey (up_id (ru_provider resolved)) (ue_id (ru_endpoint resolved)) in
  let* known := capability key in
  match known with
  | Some NativeUnsupported => ret (Unsupported capability_cached_error)
  | _ =>
      let* reserved := reserve (λ s, reserve_ws_connection s resolved) in
      match reserved with
      | inr _ => ret (Unavailable (MkBridgeError 503 "upstream_retry_exhausted"
                        "websocket upstream target could not be reserved" ScopeProvider))
      | inl r => connect_reserved ctx resolved key r
      end
  end.

(** ** A target of the plan *)
Definition affinity_of (ctx : WsContext) (requested_model : string) : option AffinityIdentity :=
  option_map (λ i, for_model (wl_blake3 libs) i requested_model)
    (extract_affinity_identity (wl_blake3 libs) (parse lib) (text_header lib (cx_request_headers ctx)) "" (ak_id (cx_api_key ctx))).

(** A failed connection of a provider that has no other target left is told to the session. *)
Definition blame_session (affinity : option AffinityIdentity) (rest : list (ResolvedUpstream D)) resolved
    (scope : FailureScope) (faulted : gset Z) (now : Z) (s : SharedState) : gset Z * SharedState :=
  if existsb (λ a, up_id (ru_provider a) =? up_id (ru_provider resolved)) rest then (faulted, s)
  else
    (if should_migrate_affinity scope then {[ up_id (ru_provider resolved) ]} ∪ faulted else faulted,
     match affinity with
     | Some identity =>
         if should_avoid_affinity_immediately scope
         then set_ss_affinity (mark_provider_failed (ss_affinity s) identity (up_id (ru_provider resolved)) now
                                 (avoid_ns (ru_provider resolved))) s
         else s
     | None => s
     end).

(** [Some inl] a connection, [Some inr] an error that ends the search, [None] the next target. *)
Fixpoint connect_attempts {X} (ctx : WsContext) (requested_model : string) (affinity : option AffinityIdentity)
    (binding : option AffinityBinding) (l : list (ResolvedUpstream D)) (faulted : gset Z) (last_error : option WsBridgeError)
    : M X (ActiveUpstream D + WsBridgeError) :=
  let exhausted := unwrap_or last_error
    (MkBridgeError 503 "upstream_retry_exhausted" "no websocket upstream target could be reserved" ScopeProvider) in
  match l with
  | [] => ret (inr exhausted)
  | resolved :: rest =>
      let* available := budget_available in
      if negb available then ret (inr budget_error)
      else
        let* may := provider_budget_available resolved in
        if negb may then connect_attempts ctx requested_model affinity binding rest faulted last_error
        else
          let* providers := turn_is tn_providers in
          let '(noted, providers) := try_note_attempt providers (up_id (ru_provider resolved)) in
          update_turn (set_tn_providers providers) ;;
          match noted with
          | None => ret (inr exhausted)
          | Some _ =>
              let* outcome := connect_or_bridge_upstream ctx resolved in
              match outcome with
              | Connected permit responses_lite =>
                  let* now := ask (wd_ms w) in
                  update_shared (confirm_ws_affinity affinity binding (up_id (ru_provider resolved))
                    (bool_decide (unwrap_or (option_map ab_provider_id binding) 0 ∈ faulted)) now) ;;
                  ret (inl (MkActive requested_model resolved NativeTransport responses_lite (Some permit)))
              | Unsupported err =>
                  if provider_has_beta_feature resolved BETA_FEATURE_RESPONSES_HTTP_TO_WS then
                    ret (inl (MkActive requested_model resolved BridgeTransport false None))
                  else connect_attempts ctx requested_model affinity binding rest faulted (Some err)
              | Unavailable err => connect_attempts ctx requested_model affinity binding rest faulted (Some err)
              | Failed err =>
                  let* now := ask (wd_ms w) in
                  let* faulted := on_shared (blame_session affinity rest resolved (be_scope err) faulted now) in
                  connect_attempts ctx requested_model affinity binding rest faulted (Some err)
              end
          end
  end.

(** The attempts the turn may still try. *)
Definition ws_attempts (providers : WsProviderBudget) (l : list (ResolvedUpstream D)) : list (ResolvedUpstream D) :=
  List.filter (λ resolved, up_websocket_enabled (ru_provider resolved)
                           && negb (budget_contains providers (up_id (ru_provider resolved)))) l.

Definition plan_for (ctx : WsContext) (requested_model : string) (affinity : option AffinityIdentity)
    {X} : M X (UpstreamPlan D + RouteResolutionError) :=
  wait w ;;
  let* load := ask (wd_load w) in
  let* clock := ask (wd_clock w) in
  state (λ s, let '(plan, shared, rand) :=
    build_upstream_plan (ws_shared s) load (wt_strategy settings) Responses requested_model (cx_api_key ctx) affinity false
      clock (ws_rand s) in
    (plan, set_ws_rand rand (set_shared shared s))).

Definition connect_selected_upstream {X} (ctx : WsContext) (requested_model : string)
    : M X (ActiveUpstream D + WsBridgeError) :=
  let affinity := affinity_of ctx requested_model in
  let* now := ask (wd_ms w) in
  let* existing := on_shared (λ s, match affinity with
    | Some identity => let '(binding, book) := Affinity.lookup (ss_affinity s) identity now in (binding, set_ss_affinity book s)
    | None => (None, s)
    end) in
  let* plan := plan_for ctx requested_model affinity in
  match plan with
  | inr e => ret (inr (MkBridgeError (re_status e) (re_code e) (re_message e) (classify_failure_scope (Some (re_status e)) Gateway)))
  | inl plan =>
      update_turn (λ t, set_tn_trace (MkWsTrace (pl_route_policy plan) (wt_attempts (tn_trace t)) (wt_last_number (tn_trace t))) t) ;;
      let* now := ask (wd_ms w) in
      let* (binding, plan) := on_shared (λ s, let '(binding, plan, s) := apply_affinity_to_plan s affinity existing plan now in
                                              ((binding, plan), s)) in
      let* providers := turn_is tn_providers in
      match ws_attempts providers (pl_attempts plan) with
      | [] => ret (inr (MkBridgeError 426 "websocket_not_supported"
                (if budget_exhausted providers then "websocket provider failover budget exhausted"
                 else "no websocket-enabled upstream target is available") ScopeClient))
      | attempts => connect_attempts ctx requested_model affinity binding attempts ∅ None
      end
  end.
End Connect.

(** ** What a session leaves alone *)
Section Views.
Context {D R E : Type}.
Notation M := (comp (WsState D R) E).
Notation S_ := (WsState D R).

Lemma stays_ask {A} (f : nat → A) : stays (S := S_) (E := E) (ask f).
Proof. apply stays_state. Qed.
Lemma ws_stays_on_shared {A} (f : SharedState → A * SharedState) : stays (S := S_) (E := E) (on_shared f).
Proof. apply stays_state. Qed.
Lemma ws_stays_update_shared f : stays (S := S_) (E := E) (update_shared f).
Proof. done. Qed.
Lemma stays_update_turn f : stays (S := S_) (E := E) (update_turn f).
Proof. done. Qed.
Lemma stays_turn_is {B} (f : Turn D → B) : stays (S := S_) (E := E) (turn_is f).
Proof. done. Qed.
Lemma stays_write e : stays (S := S_) (E := E) (write e).
Proof. done. Qed.
Lemma stays_note_account k st : stays (S := S_) (E := E) (note_account k st).
Proof. done. Qed.
Lemma stays_wait w : stays (S := S_) (E := E) (wait w).
Proof. done. Qed.

(** A view of the state that the operation does not reach is kept. *)
Context {V : Type} (f : S_ → V).
Lemma keeps_ask {A} (q : nat → A) : (∀ n s, f (set_ws_tick n s) = f s) → keeps (E := E) f (ask q).
Proof. intros H s. apply H. Qed.
Lemma keeps_update_turn g : (∀ s, f (set_ws_turn (g (ws_turn s)) s) = f s) → keeps (E := E) f (update_turn g).
Proof. done. Qed.
Lemma keeps_turn_is {B} (g : Turn D → B) : keeps (E := E) f (turn_is g).
Proof. done. Qed.
Lemma keeps_write e : (∀ l s, f (set_ws_wire l s) = f s) → keeps (E := E) f (write e).
Proof. intros H s. apply H. Qed.
Lemma keeps_note_account k st : (∀ l s, f (set_ws_marks l s) = f s) → keeps (E := E) f (note_account k st).
Proof. intros H s. apply H. Qed.
Lemma ws_keeps_update_shared g : (∀ b s, f (set_ws_books b s) = f s) → keeps (E := E) f (update_shared g).
Proof. intros H s. apply H. Qed.
Lemma ws_keeps_on_shared {A} (g : SharedState → A * SharedState) :
  (∀ b s, f (set_ws_books b s) = f s) → keeps (E := E) f (on_shared g).
Proof. intros H. apply keeps_state. intros s. destruct (g (ws_shared s)). apply H. Qed.
Lemma keeps_wait w :
  (∀ n s, f (set_ws_tick n s) = f s) → (∀ b s, f (set_ws_books b s) = f s) → (∀ t s, f (set_ws_gone t s) = f s) →
  keeps (E := E) f (wait w).
Proof. intros H1 H2 H3 s. unfold wait, modify. cbn [snd]. by rewrite H1 H3 H2. Qed.
End Views.

#[export] Hint Resolve stays_ask ws_stays_on_shared ws_stays_update_shared stays_update_turn stays_turn_is stays_write
  stays_note_account stays_wait : stays.
#[export] Hint Resolve keeps_turn_is : keeps.
#[export] Hint Extern 1 (keeps _ (ask _)) => apply keeps_ask; intros; reflexivity : keeps.
#[export] Hint Extern 1 (keeps _ (update_turn _)) => apply keeps_update_turn; intros; cbn; repeat case_match; reflexivity : keeps.
#[export] Hint Extern 1 (keeps _ (write _)) => apply keeps_write; intros; reflexivity : keeps.
#[export] Hint Extern 1 (keeps _ (note_account _ _)) => apply keeps_note_account; intros; reflexivity : keeps.
#[export] Hint Extern 1 (keeps _ (update_shared _)) => apply ws_keeps_update_shared; intros; reflexivity : keeps.
#[export] Hint Extern 1 (keeps _ (on_shared _)) => apply ws_keeps_on_shared; intros; reflexivity : keeps.
#[export] Hint Extern 1 (keeps _ (wait _)) => apply keeps_wait; intros; reflexivity : keeps.
#[export] Hint Extern 2 (keeps _ (modify _)) => apply keeps_modify; intros; repeat case_match; reflexivity : keeps.

(** ** Slots *)

(** The other requests give back as many slots as they take while the session waits. *)
Definition steady {D} (w : World D) : Prop :=
  ∀ n b id, in_flight (bk_shared (wd_others w n b)) id = in_flight (bk_shared b) id.

Section ConnectSlots.
Context {D R : Type} `{FastRand R}.
Context {EntryOrder : HashOrder AffinityKey AffinityEntry} {AvoidOrder : HashOrder AffinityKey AvoidEntry}.
Context (libs : WsLibraries) (settings : WsSettings) (w : World D) (w_steady : steady w).

Definition flights (id : Z) (s : WsState D R) : Z := in_flight (ws_shared s) id.

(** A step that takes and gives back no slot. *)
Definition level (s s' : WsState D R) : Prop := ∀ id, flights id s' = flights id s.
#[export] Instance level_preorder : PreOrder level.
Proof. split; [done|]. intros s1 s2 s3 A B id. by rewrite B A. Qed.

Definition free (base : Z → Z) (s : WsState D R) : Prop := ∀ id, flights id s = base id.
Definition holding (base : Z → Z) (r : UpstreamAttemptReservation) (s : WsState D R) : Prop :=
  ∀ id, flights id s = base id + slots_of r id.

Lemma free_level base s s' : free base s → level s s' → free base s'.
Proof using. intros Hs Hl id. by rewrite Hl. Qed.
Lemma holding_level base r s s' : holding base r s → level s s' → holding base r s'.
Proof using. intros Hs Hl id. by rewrite Hl. Qed.

Context {E : Type}.
Notation M := (comp (WsState D R) E).

Lemma level_books {A} (m : M A) : keeps ws_books m → moves level m.
Proof using. apply moves_keeps. intros s s' Hb id. unfold flights, ws_shared. by rewrite Hb. Qed.

Lemma level_update_shared f : (∀ s id, in_flight (f s) id = in_flight s id) → moves (E := E) level (update_shared f).
Proof using. intros Hf s id. apply Hf. Qed.

Lemma level_on_shared {A} (f : SharedState → A * SharedState) :
  (∀ s id, in_flight (f s).2 id = in_flight s id) → moves (E := E) level (on_shared f).
Proof using. intros Hf. apply moves_state. intros s id. specialize (Hf (ws_shared s) id). by destruct (f (ws_shared s)). Qed.

Lemma level_runtime s s' : ss_provider_runtime s' = ss_provider_runtime s → ∀ id, in_flight s' id = in_flight s id.
Proof using. intros Hr id. unfold in_flight. by rewrite Hr. Qed.

Lemma level_wait : moves (E := E) level (wait w).
Proof using w_steady. intros s id. apply w_steady. Qed.
End ConnectSlots.

#[export] Hint Extern 1 (moves level (ask _)) => apply level_books; solve [auto with keeps] : moves.
#[export] Hint Extern 1 (moves level (update_turn _)) => apply level_books; solve [auto with keeps] : moves.
#[export] Hint Extern 1 (moves level (turn_is _)) => apply level_books; solve [auto with keeps] : moves.
#[export] Hint Extern 1 (moves level (write _)) => apply level_books; solve [auto with keeps] : moves.
#[export] Hint Extern 1 (moves level (note_account _ _)) => apply level_books; solve [auto with keeps] : moves.
#[export] Hint Extern 2 (moves level (modify _)) => apply moves_modify; intros ? ?; repeat case_match; reflexivity : moves.
#[export] Hint Extern 2 (moves level (wait _)) => apply level_wait; assumption : moves.

(** *** What the steps of a connection do with slots *)
Section ConnectAccounts.
Context {D R : Type} `{FastRand R}.
Context {EntryOrder : HashOrder AffinityKey AffinityEntry} {AvoidOrder : HashOrder AffinityKey AvoidEntry}.
Context (libs : WsLibraries) (settings : WsSettings) (w : World D) (w_steady : steady w).
Context (base : Z → Z) (base_ok : ∀ id, 0 <= base id < u32_max).
Notation M X := (comp (WsState D R) (option X)).
Implicit Types a : ResolvedUpstream D.

(** The slot a connection keeps. *)
Definition kept (permit : option ProviderCapacityPermit) : UpstreamAttemptReservation := MkReservation None permit None None None.

Definition outcome_accounted (o : NativeWsConnectOutcome) (s : WsState D R) : Prop :=
  match o with Connected permit _ => holding base (kept (Some permit)) s | _ => free base s end.

Lemma ws_holding_bounds r s : holding (D := D) (R := R) base r s → ∀ id, slots_of r id <= flights id s <= u32_max.
Proof using base_ok. intros Hs id. rewrite Hs. pose proof (slots_le r id). pose proof (base_ok id). lia. Qed.

Lemma ws_post_settle_neutral {X} r s (Q : unit → WsState D R → Prop) (Y : option X → WsState D R → Prop) :
  holding base r s → (∀ s', free base s' → Q tt s') → post (settle_neutral w r) Q Y s.
Proof using base_ok.
  intros Hr HQ. apply HQ. intros id. unfold flights. cbn. rewrite neutral_in_flight; [|by apply ws_holding_bounds].
  specialize (Hr id). unfold flights, ws_shared in *. cbn in *. lia.
Qed.

Lemma ws_post_settle {X} r o s (Q : unit → WsState D R → Prop) (Y : option X → WsState D R → Prop) :
  holding base r s → (∀ s', free base s' → Q tt s') → post (settle w r o) Q Y s.
Proof using base_ok.
  intros Hr HQ. apply HQ. intros id. unfold flights. cbn. rewrite finish_in_flight; [|by apply ws_holding_bounds].
  specialize (Hr id). unfold flights, ws_shared in *. cbn in *. lia.
Qed.

Lemma post_keep_capacity {X} r s (Q : option ProviderCapacityPermit → WsState D R → Prop) (Y : option X → WsState D R → Prop) :
  holding base r s → (∀ s', holding base (kept (rv_capacity r)) s' → Q (rv_capacity r) s') → post (keep_capacity w r) Q Y s.
Proof using.
  intros Hr HQ. apply HQ. intros id. unfold flights. cbn. change (in_flight (into_capacity (ws_shared s) r (wd_ms w (ws_tick s))).2 id
    = base id + slots_of (kept (rv_capacity r)) id). rewrite into_capacity_in_flight. exact (Hr id).
Qed.

Lemma ws_post_reserve {X} acquire quota a s
    (Q : UpstreamAttemptReservation + AttemptReservationError → WsState D R → Prop) (Y : option X → WsState D R → Prop) :
  free base s →
  (∀ r s', match r with inl r => holding base r s' | inr _ => free base s' end → Q r s') →
  post (reserve w (λ s now drop_ms, reserve_attempt_inner s a now drop_ms acquire quota)) Q Y s.
Proof using base_ok.
  intros Hs HQ. unfold reserve, post, bind, ask, state, on_shared. cbn.
  assert (∀ id, 0 <= in_flight (ws_shared s) id < u32_max) as Hb.
  { intros id. specialize (Hs id). unfold flights in Hs. rewrite Hs. apply base_ok. }
  unfold state. cbn. match goal with |- context [reserve_attempt_inner ?s ?a ?n ?d ?x ?y] =>
    pose proof (λ id, reserve_in_flight s a n d x y id Hb) as Hr; destruct (reserve_attempt_inner s a n d x y) as [r shared] end.
  cbn [fst snd] in Hr. apply HQ.
  destruct r as [r|e]; intros id; specialize (Hs id); unfold flights in *; cbn; rewrite Hr -Hs; unfold ws_shared; cbn; lia.
Qed.

(** *** Steps that move no slot *)
Lemma observe_quota_level key status headers now s id :
  in_flight (observe_quota libs settings key status headers now s) id = in_flight s id.
Proof using. by apply level_runtime. Qed.

Lemma defer_key_level key now s id : in_flight (defer_key key now s) id = in_flight s id.
Proof using. apply level_runtime. unfold defer_key. destruct (quota_snapshot _ _ _). by destruct (qv_cooldown_until_ms _). Qed.

Lemma replay_error_level p e k now s id :
  in_flight (set_ss_provider_runtime (record_error (ss_provider_runtime s) p e k "OAuth authentication replay" (Some 401) now) s) id
  = in_flight s id.
Proof using. done. Qed.

Lemma confirm_level i b p m now s id : in_flight (confirm_ws_affinity i b p m now s) id = in_flight s id.
Proof using.
  apply level_runtime. unfold confirm_ws_affinity. destruct i, b; try done. destruct (_ =? _); [by destruct (ab_confirmed _)|by destruct m].
Qed.

Lemma blame_level aff rest a scope faulted now s id :
  in_flight (blame_session aff rest a scope faulted now s).2 id = in_flight s id.
Proof using.
  apply level_runtime. unfold blame_session. destruct (existsb _ _); [done|]. cbn. destruct aff; [|done].
  by destruct (should_avoid_affinity_immediately scope).
Qed.

Lemma begin_stays {X} a turn : stays (begin_ws_attempt (X := X) (D := D) (R := R) w a turn).
Proof using. unfold begin_ws_attempt. stay. Qed.
Lemma begin_level {X} a turn : moves level (begin_ws_attempt (X := X) (D := D) (R := R) w a turn).
Proof using w_steady. unfold begin_ws_attempt. carry. Qed.

Lemma budget_available_stays {X} : stays (budget_available (X := X) (D := D) (R := R) w).
Proof using. unfold budget_available. stay. Qed.
Lemma budget_available_level {X} : moves level (budget_available (X := X) (D := D) (R := R) w).
Proof using. unfold budget_available. carry. Qed.
Lemma time_left_stays {X} a : stays (time_left (X := X) (D := D) (R := R) settings w a).
Proof using. unfold time_left. stay. Qed.
Lemma time_left_level {X} a : moves level (time_left (X := X) (D := D) (R := R) settings w a).
Proof using. unfold time_left. carry. Qed.
Lemma since_stays {X} t : stays (since (X := X) (D := D) (R := R) w t).
Proof using. unfold since. stay. Qed.
Lemma since_level {X} t : moves level (since (X := X) (D := D) (R := R) w t).
Proof using. unfold since. carry. Qed.
Hint Resolve begin_stays budget_available_stays time_left_stays since_stays : stays.
Hint Resolve begin_level budget_available_level time_left_level since_level : moves.
Hint Extern 1 (moves level (update_shared _)) =>
  apply level_update_shared; intros; first [apply observe_quota_level|apply defer_key_level|apply replay_error_level|apply confirm_level] : moves.

Lemma connect_stays {X} a url headers : stays (connect_upstream_ws (X := X) (R := R) libs settings w a url headers).
Proof using. unfold connect_upstream_ws. stay. Qed.
Lemma connect_level {X} a url headers : moves level (connect_upstream_ws (X := X) (R := R) libs settings w a url headers).
Proof using w_steady. unfold connect_upstream_ws. carry. Qed.
Lemma finish_trace_stays {X} st e : stays (finish_ws_trace (X := X) (D := D) (R := R) st e).
Proof using. unfold finish_ws_trace. stay. Qed.
Lemma finish_trace_level {X} st e : moves level (finish_ws_trace (X := X) (D := D) (R := R) st e).
Proof using. unfold finish_ws_trace. carry. Qed.
Lemma note_send_stays {X} a : stays (note_ws_send (X := X) (D := D) (R := R) a).
Proof using. unfold note_ws_send. stay. Qed.
Lemma note_send_level {X} a : moves level (note_ws_send (X := X) (D := D) (R := R) a).
Proof using. unfold note_ws_send. carry. Qed.
Lemma mark_supported_stays {X} k b : stays (mark_supported (X := X) (D := D) (R := R) w k b).
Proof using. unfold mark_supported. stay. Qed.
Lemma mark_supported_level {X} k b : moves level (mark_supported (X := X) (D := D) (R := R) w k b).
Proof using.
  unfold mark_supported. apply moves_bind; [typeclasses eauto|auto with moves|]. intros now s id. unfold modify.
  by destruct ((if b then _ else _) _ _ _ _) as [cache rand].
Qed.
Hint Resolve connect_stays finish_trace_stays note_send_stays mark_supported_stays : stays.
Hint Resolve connect_level finish_trace_level note_send_level mark_supported_level : moves.

(** *** The connection *)
Lemma ws_still_current_accounted {A} r (otherwise : A) s :
  holding base r s →
  post (still_current (D := D) (R := R) w r otherwise) (λ _ s', holding base r s')
    (λ e s', e = Some otherwise ∧ free base s') s.
Proof using base_ok.
  intros Hs. unfold still_current. apply post_bind. unfold post at 1, gets. apply post_if; intros _; [done|].
  apply post_bind, (ws_post_settle_neutral r); [done|]. by split.
Qed.

(** Steps in a row that move no slot. *)
Ltac level_step := cbn beta in *; apply post_bind; eapply (post_moves level (holding base _));
  [apply holding_level|stay|carry|eassumption|intros ? ? _ ?].
Ltac free_step := cbn beta in *; apply post_bind, (post_moves level (free base));
  [apply free_level|stay|carry|eassumption|intros ? ? _ ?].

Notation ends := (returns outcome_accounted (λ _, False)).

Lemma connect_auth_accounted a r start s :
  holding base r s → post (connect_auth w a r start) (λ _ s', holding base r s') ends s.
Proof using base_ok w_steady.
  intros Hs. unfold connect_auth. apply post_if; intros _; [|done]. level_step. level_step.
  match goal with |- post (match ?x with _ => _ end) _ _ _ => destruct x as [auth|e] end; [done|]. level_step.
  apply post_bind, (ws_post_settle r); [done|]. by intros.
Qed.

Lemma replay_connect_accounted ctx a r url connected lite s :
  holding base r s →
  post (replay_connect libs settings w ctx a r url connected lite) (λ _ s', holding base r s') ends s.
Proof using base_ok w_steady.
  intros Hs. unfold replay_connect. apply post_if; intros _; [done|]. level_step. apply post_if; intros _; [done|].
  level_step. level_step. match goal with |- post (match ?x with _ => _ end) _ _ _ => destruct x as [refreshed|e] end; [|done].
  destruct (upstream_ws_headers _ _ _ _) as [headers|message].
  2: { apply post_bind, (ws_post_settle_neutral r); [done|]. by intros. }
  level_step. apply post_if; intros _; [done|]. level_step. level_step. apply post_if; intros _; [done|].
  level_step. level_step. destruct (target_of a) as [[p e] k]. level_step. level_step. level_step. done.
Qed.

Lemma connect_result_accounted a key r start connected lite s (Y : option NativeWsConnectOutcome → WsState D R → Prop) :
  holding base r s → post (connect_result w a key r start connected lite) outcome_accounted Y s.
Proof using base_ok w_steady.
  intros Hs. unfold connect_result. destruct connected as [[]|err].
  - level_step. level_step. apply post_bind, (post_keep_capacity r); [eassumption|]. intros s2 H2.
    destruct (rv_capacity r) as [permit|]; [done|]. intros id. specialize (H2 id). cbn in H2. lia.
  - level_step. apply post_if; intros _.
    + apply post_bind, (ws_post_settle_neutral r); [done|]. intros ? ?. free_step. done.
    + level_step. apply post_bind, (ws_post_settle r); [eassumption|]. by intros.
Qed.

Lemma connect_once_accounted {X} ctx a key r s (Y : option X → WsState D R → Prop) :
  holding base r s → post (connect_upstream_ws_once libs settings w ctx a key r) outcome_accounted Y s.
Proof using base_ok w_steady.
  intros Hs. unfold connect_upstream_ws_once. apply post_call.
  apply (post_weaken _ outcome_accounted _ ends); [|done|by intros [o|] ? ?]. level_step.
  destruct (build_upstream_websocket_url _ _ _ _ _ _) as [url|message].
  2: { level_step. apply post_bind, (ws_post_settle r); [eassumption|]. by intros. }
  apply post_bind. eapply post_weaken; [by apply connect_auth_accounted| |done]. intros auth s1 H1.
  destruct (upstream_ws_headers _ _ _ _) as [headers|message].
  2: { apply post_bind, (ws_post_settle_neutral r); [done|]. by intros. }
  apply post_bind. eapply post_weaken; [by apply ws_still_current_accounted| |by intros ? ? [-> ?]]. intros ? s2 H2.
  level_step. apply post_if; intros _.
  { apply post_bind, (ws_post_settle_neutral r); [done|]. by intros. }
  apply post_bind. eapply post_weaken; [by apply ws_still_current_accounted| |by intros ? ? [-> ?]]. intros ? s4 H4.
  level_step. level_step. apply post_bind. eapply post_weaken; [by apply replay_connect_accounted| |done].
  intros [[connected lite] replayed] s7 H7. level_step. by apply connect_result_accounted.
Qed.

Lemma capability_stays {X} k : stays (capability (X := X) (D := D) (R := R) w k).
Proof using. unfold capability. stay. Qed.
Lemma capability_level {X} k : moves level (capability (X := X) (D := D) (R := R) w k).
Proof using. unfold capability. carry. Qed.
Hint Resolve capability_stays : stays.
Hint Resolve capability_level : moves.

Lemma connect_reserved_accounted {X} ctx a key r s (Y : option X → WsState D R → Prop) :
  holding base r s → post (connect_reserved libs settings w ctx a key r) outcome_accounted Y s.
Proof using base_ok w_steady.
  intros Hs. unfold connect_reserved. level_step.
  assert (∀ s, holding base r s → post (modify (λ s, set_ws_books (set_bk_capability (probe_lock (bk_capability (ws_books s)) key).2 (ws_books s)) s) ;;
    wait w ;; let* known := capability w key in
    match known with
    | Some NativeUnsupported => settle_neutral w r ;; ret (Unsupported capability_cached_error)
    | _ => connect_upstream_ws_once libs settings w ctx a key r
    end) outcome_accounted Y s) as Hprobe.
  { clear -base_ok w_steady. intros s Hs. level_step. level_step. level_step.
    match goal with |- post (match ?x with _ => _ end) _ _ _ => destruct x as [[]|] end; [by apply connect_once_accounted| |by apply connect_once_accounted].
    apply post_bind, (ws_post_settle_neutral r); [done|]. by intros. }
  match goal with |- post (match ?x with _ => _ end) _ _ _ => destruct x as [[]|] end; [by apply connect_once_accounted|by apply Hprobe..].
Qed.

Lemma connect_or_bridge_accounted {X} ctx a s (Y : option X → WsState D R → Prop) :
  free base s → post (connect_or_bridge_upstream libs settings w ctx a) outcome_accounted Y s.
Proof using base_ok w_steady.
  intros Hs. unfold connect_or_bridge_upstream. free_step.
  assert (∀ s, free base s → post (let* reserved := reserve w (λ s, reserve_ws_connection s a) in
    match reserved with
    | inr _ => ret (Unavailable (MkBridgeError 503 "upstream_retry_exhausted" "websocket upstream target could not be reserved" ScopeProvider))
    | inl r => connect_reserved libs settings w ctx a (MkCapKey (up_id (ru_provider a)) (ue_id (ru_endpoint a))) r
    end) outcome_accounted Y s) as Hgo.
  { clear -base_ok w_steady. intros s Hs. apply post_bind, (ws_post_reserve true false); [done|]. intros [r|e] s1 H1; [|done].
    by apply connect_reserved_accounted. }
  match goal with |- post (match ?x with _ => _ end) _ _ _ => destruct x as [[]|] end; [by apply Hgo|done|by apply Hgo].
Qed.

(** What the search for an upstream leaves: a connection with its slot, or nothing. *)
Definition connection_accounted (c : ActiveUpstream D + WsBridgeError) (s : WsState D R) : Prop :=
  match c with inl active => holding base (kept (au_capacity active)) s | inr _ => free base s end.

Lemma provider_budget_stays {X} a : stays (provider_budget_available (X := X) (D := D) (R := R) a).
Proof using. unfold provider_budget_available. stay. Qed.
Lemma provider_budget_level {X} a : moves level (provider_budget_available (X := X) (D := D) (R := R) a).
Proof using. unfold provider_budget_available. carry. Qed.
Hint Resolve provider_budget_stays : stays.
Hint Resolve provider_budget_level : moves.
Hint Extern 1 (moves level (on_shared _)) => apply level_on_shared; intros; apply blame_level : moves.

Lemma connect_attempts_accounted {X} ctx model affinity binding l faulted last s (Y : option X → WsState D R → Prop) :
  free base s →
  post (connect_attempts libs settings w ctx model affinity binding l faulted last) connection_accounted Y s.
Proof using base_ok w_steady.
  revert faulted last s. induction l as [|a l IH]; intros faulted last s Hs; cbn [connect_attempts]; [done|].
  free_step. apply post_if; intros _; [done|]. free_step. apply post_if; intros _; [by apply IH|]. free_step.
  destruct (try_note_attempt _ _) as [[noted|] providers]; free_step; [|done].
  apply post_bind. eapply post_weaken; [by apply connect_or_bridge_accounted| |by intros].
  intros [permit lite|err|err|err] s4 H4; cbn [outcome_accounted] in H4.
  - level_step. level_step. done.
  - destruct (provider_has_beta_feature a _); [|by apply IH]. intros id. rewrite H4. cbn. lia.
  - by apply IH.
  - free_step. free_step. by apply IH.
Qed.

Lemma lookup_level (affinity : option AffinityIdentity) now s id :
  in_flight (match affinity with
    | Some identity => let '(binding, book) := Affinity.lookup (ss_affinity s) identity now in (binding, set_ss_affinity book s)
    | None => (None, s)
    end).2 id = in_flight s id.
Proof using. destruct affinity as [i|]; [|done]. by destruct (Affinity.lookup _ _ _). Qed.

Lemma affinity_plan_level affinity existing (p : UpstreamPlan D) now s id :
  in_flight (let '(binding, plan, s) := apply_affinity_to_plan s affinity existing p now in ((binding, plan), s)).2 id
  = in_flight s id.
Proof using.
  assert (ss_provider_runtime (apply_affinity_to_plan s affinity existing p now).2 = ss_provider_runtime s) as Ha
    by exact (apply_affinity_runtime s affinity existing p now).
  destruct (apply_affinity_to_plan s affinity existing p now) as [[binding plan] shared]. by apply level_runtime.
Qed.

Lemma plan_for_stays {X} ctx model affinity : stays (plan_for (R := R) settings w ctx model affinity (X := X)).
Proof using. unfold plan_for. stay. Qed.
Lemma plan_for_level {X} ctx model affinity : moves level (plan_for (R := R) settings w ctx model affinity (X := X)).
Proof using w_steady.
  unfold plan_for. do 3 (apply moves_bind; [typeclasses eauto|auto with moves|intros ?]). apply moves_state. intros s id.
  match goal with |- context [build_upstream_plan ?s ?l ?st ?f ?m ?k ?af ?al ?c ?r] =>
    pose proof (build_upstream_plan_runtime s l st f m k af al c r) as Hp; destruct (build_upstream_plan s l st f m k af al c r) as [[plan shared] rand] end.
  cbn in *. by apply level_runtime.
Qed.
Hint Resolve plan_for_stays : stays.
Hint Resolve plan_for_level : moves.

Lemma connect_selected_accounted {X} ctx model s (Y : option X → WsState D R → Prop) :
  free base s → post (connect_selected_upstream libs settings w ctx model) connection_accounted Y s.
Proof using base_ok w_steady.
  intros Hs. unfold connect_selected_upstream. free_step.
  apply post_bind, (post_moves level (free base)); [apply free_level|stay|apply level_on_shared; intros; apply lookup_level|done|].
  intros existing s2 _ H2. free_step. match goal with |- post (match ?x with _ => _ end) _ _ _ => destruct x as [plan|e] end; [|done].
  free_step. free_step.
  apply post_bind, (post_moves level (free base)); [apply free_level|stay| |eassumption|].
  { apply level_on_shared. intros ? ?. apply affinity_plan_level. }
  intros [binding plan'] s5 _ H5. free_step. destruct (ws_attempts _ _) as [|t attempts]; [done|].
  by apply connect_attempts_accounted.
Qed.
End ConnectAccounts.

#[export] Hint Resolve begin_stays budget_available_stays time_left_stays since_stays connect_stays finish_trace_stays
  note_send_stays mark_supported_stays provider_budget_stays : stays.
#[export] Hint Resolve begin_level budget_available_level time_left_level since_level finish_trace_level note_send_level
  mark_supported_level provider_budget_level : moves.
#[export] Hint Extern 1 (moves level (update_shared _)) =>
  apply level_update_shared; intros; first [apply observe_quota_level|apply defer_key_level|apply replay_error_level] : moves.

(** A step after which the slots are the same. *)
Ltac level_step := cbn beta in *; apply post_bind; eapply (post_moves level (holding _ _));
  [apply holding_level|stay|carry|eassumption|intros ? ? _ ?].
Ltac free_step := cbn beta in *; apply post_bind; eapply (post_moves level (free _));
  [apply free_level|stay|carry|eassumption|intros ? ? _ ?].

(** ** What opening a connection leaves alone *)
Section ConnectFrame.
Context {D R : Type} `{FastRand R}.
Context {EntryOrder : HashOrder AffinityKey AffinityEntry} {AvoidOrder : HashOrder AffinityKey AvoidEntry}.
Context (libs : WsLibraries) (settings : WsSettings) (w : World D).
Implicit Types a : ResolvedUpstream D.

(** The session outside its turn, and what the client has seen. *)
Definition outside (s : WsState D R) := (ws_active s, ws_close s, ws_log s, ws_requests s).
Definition connect_frame (s : WsState D R) :=
  (outside s, ws_out s, (tn_providers (ws_turn s), tn_recovery (ws_turn s), tn_observation (ws_turn s), tn_pending (ws_turn s))).

Lemma begin_frame {X} a turn : keeps connect_frame (begin_ws_attempt (X := X) w a turn).
Proof using. unfold begin_ws_attempt. keep. Qed.
Lemma connect_ws_frame {X} a url headers : keeps connect_frame (connect_upstream_ws (X := X) libs settings w a url headers).
Proof using. unfold connect_upstream_ws, time_left. keep. Qed.
Lemma settle_neutral_frame {X} r : keeps connect_frame (settle_neutral (X := X) (D := D) w r).
Proof using. unfold settle_neutral. keep. Qed.
Lemma settle_frame {X} r o : keeps connect_frame (settle (X := X) (D := D) w r o).
Proof using. unfold settle. keep. Qed.
Lemma note_send_frame {X} a : keeps connect_frame (note_ws_send (X := X) a).
Proof using. unfold note_ws_send. keep. Qed.
Lemma finish_trace_frame {X} st e : keeps connect_frame (finish_ws_trace (X := X) (D := D) st e).
Proof using. unfold finish_ws_trace. keep. Qed.
Lemma mark_supported_frame {X} k b : keeps connect_frame (mark_supported (X := X) (D := D) w k b).
Proof using. unfold mark_supported. keep. Qed.
Lemma still_current_frame {A} r (o : A) : keeps connect_frame (still_current (D := D) w r o).
Proof using. unfold still_current, return_. pose proof (@settle_neutral_frame). keep. Qed.
Hint Resolve begin_frame connect_ws_frame settle_neutral_frame settle_frame note_send_frame finish_trace_frame
  mark_supported_frame still_current_frame : keeps.

Lemma connect_once_frame {X} ctx a key r : keeps connect_frame (connect_upstream_ws_once (X := X) libs settings w ctx a key r).
Proof using.
  unfold connect_upstream_ws_once, connect_auth, replay_connect, connect_result, since, budget_available, keep_capacity, return_. keep.
Qed.
Hint Resolve connect_once_frame : keeps.

Lemma connect_or_bridge_frame {X} ctx a : keeps connect_frame (connect_or_bridge_upstream (X := X) libs settings w ctx a).
Proof using. unfold connect_or_bridge_upstream, connect_reserved, capability, reserve. keep. Qed.
Hint Resolve connect_or_bridge_frame : keeps.

(** *** The providers of a turn *)

(** Asking for a connection adds providers; what it changes of the turn else is the budget and the trace. *)
Definition connect_outer (s : WsState D R) :=
  (outside s, ws_out s, (tn_recovery (ws_turn s), tn_observation (ws_turn s), tn_pending (ws_turn s))).

Record asks_more (s s' : WsState D R) : Prop := {
  am_outer : connect_outer s' = connect_outer s;
  am_providers : tn_providers (ws_turn s) ⊆ tn_providers (ws_turn s');
  am_size : Z.of_nat (size (tn_providers (ws_turn s))) <= MAX_DISTINCT_PROVIDERS →
            Z.of_nat (size (tn_providers (ws_turn s'))) <= MAX_DISTINCT_PROVIDERS
}.
#[export] Instance asks_more_preorder : PreOrder asks_more.
Proof.
  split; [by split|]. intros s1 s2 s3 [A1 A2 A3] [B1 B2 B3].
  split; [by rewrite B1 A1|by etransitivity|by intros; apply B3, A3].
Qed.

Lemma frame_asks s s' : connect_frame s' = connect_frame s → asks_more s s'.
Proof using. intros [= E1 E2 E3 E4 E5 E6 E7 E8 E9]. split; [|by rewrite E6|by rewrite E6]. unfold connect_outer, outside. congruence. Qed.

Lemma try_note_attempt_spec b p :
  let '(noted, b') := try_note_attempt b p in
  b ⊆ b' ∧ (is_some noted = true → p ∈ b')
  ∧ (Z.of_nat (size b) <= MAX_DISTINCT_PROVIDERS → Z.of_nat (size b') <= MAX_DISTINCT_PROVIDERS).
Proof using.
  unfold try_note_attempt, budget_contains, budget_exhausted. case_bool_decide as Hin; [by split_and!|].
  destruct (MAX_DISTINCT_PROVIDERS <=? Z.of_nat (size b)) eqn:Hs; [by split_and!|]. apply Z.leb_gt in Hs. unfold seed.
  split_and!; [set_solver|set_solver|]. rewrite size_union; [rewrite size_singleton; lia|set_solver].
Qed.

(** A connection is to one of the targets, for the requested model, and its provider is noted. *)
Definition connected_to (model : string) (l : list (ResolvedUpstream D)) (c : ActiveUpstream D + WsBridgeError) (s : WsState D R)
    : Prop :=
  match c with
  | inl active => au_requested_model active = model ∧ au_resolved active ∈ l
                  ∧ up_id (ru_provider (au_resolved active)) ∈ tn_providers (ws_turn s)
  | inr _ => True
  end.

(** A step of the search; nothing is claimed of a panic. *)
Notation anything := (λ _ _, True).
Lemma post_frame {A E} (m : comp (WsState D R) E A) (Q : A → WsState D R → Prop) s0 s :
  keeps connect_frame m → asks_more s0 s →
  (∀ x s', asks_more s0 s' → connect_frame s' = connect_frame s → Q x s') → post m Q anything s.
Proof using.
  intros Hk H0 HQ. unfold post. specialize (Hk s). destruct (m s) as [[x|e] s']; cbn [snd] in *; [|done]. apply HQ; [|done].
  etransitivity; [exact H0|by apply frame_asks].
Qed.

Ltac frame_step := apply post_bind; eapply post_frame; [solve [keep]|eassumption|intros ? ? ? _].

Lemma connect_attempts_asks {X} ctx model affinity binding l faulted last s0 s :
  asks_more s0 s →
  post (E := option X) (connect_attempts libs settings w ctx model affinity binding l faulted last)
    (λ c s', asks_more s0 s' ∧ connected_to model l c s') anything s.
Proof using.
  revert faulted last s. induction l as [|a l IH]; intros faulted last s Hs; cbn [connect_attempts]; [done|].
  assert (∀ faulted last s, asks_more s0 s →
    post (E := option X) (connect_attempts libs settings w ctx model affinity binding l faulted last)
      (λ c s', asks_more s0 s' ∧ connected_to model (a :: l) c s') anything s) as Hnext.
  { intros f e s1 H1. eapply post_weaken; [by apply IH| |done]. intros [active|err] s2 [H2 Hc]; [|done].
    destruct Hc as (Hm & Hin & Hp). split; [done|]. split_and!; [done|by right|done]. }
  unfold budget_available, provider_budget_available. apply post_bind. frame_step. 
  eapply post_frame; [solve [keep]|eassumption|intros ? ? ? _]. apply post_if; intros _; [done|].
  apply post_bind. eapply post_frame; [solve [keep]|eassumption|intros ? ? ? _]. apply post_if; intros _; [by apply Hnext|].
  apply post_bind. unfold post at 1, turn_is, gets.
  match goal with H : asks_more s0 ?s |- _ => match goal with |- context [try_note_attempt (tn_providers (ws_turn s))] => rename H into Hb; rename s into sb end end.
  pose proof (try_note_attempt_spec (tn_providers (ws_turn sb)) (up_id (ru_provider a))) as Ht.
  destruct (try_note_attempt _ _) as [noted providers]. destruct Ht as (Hsub & Hnoted & Hsize).
  apply post_bind. unfold post at 1, update_turn, modify.
  assert (asks_more s0 (set_ws_turn (set_tn_providers providers (ws_turn sb)) sb)) as Hn.
  { etransitivity; [exact Hb|]. by split. }
  destruct noted as [noted|]; [|done]. apply post_bind.
  eapply post_frame; [solve [keep]|exact Hn|]. intros outcome s5 H5 Hframe.
  assert (up_id (ru_provider a) ∈ tn_providers (ws_turn s5)) as Hin.
  { injection Hframe as _ _ _ _ _ -> _ _ _. by apply Hnoted. }
  destruct outcome as [permit lite|err|err|err].
  - apply post_bind. eapply post_frame; [solve [keep]|exact H5|]. intros now s6 H6 F6. apply post_bind.
    eapply post_frame; [solve [keep]|exact H6|]. intros ? s7 H7 F7. split; [done|]. split_and!; [done|by left|].
    injection F7 as _ _ _ _ _ -> _ _ _. by injection F6 as _ _ _ _ _ -> _ _ _.
  - destruct (provider_has_beta_feature a _); [|by apply Hnext]. split; [done|]. split_and!; [done|by left|done].
  - by apply Hnext.
  - apply post_bind. eapply post_frame; [solve [keep]|exact H5|]. intros now s6 H6 _. apply post_bind.
    eapply post_frame; [solve [keep]|exact H6|]. intros ? s7 H7 _. by apply Hnext.
Qed.

Lemma plan_for_frame {X} ctx model affinity : keeps connect_frame (plan_for settings w ctx model affinity (X := X)).
Proof using.
  unfold plan_for. keep. apply keeps_state. intros s. by destruct (build_upstream_plan _ _ _ _ _ _ _ _ _ _) as [[plan shared] rand].
Qed.
Hint Resolve plan_for_frame : keeps.

(** The search for an upstream takes a provider the turn has not asked. *)
Lemma connect_selected_asks {X} ctx model s :
  post (E := option X) (connect_selected_upstream libs settings w ctx model)
    (λ c s', asks_more s s' ∧ match c with
       | inl active => au_requested_model active = model
                       ∧ up_id (ru_provider (au_resolved active)) ∉ tn_providers (ws_turn s)
                       ∧ up_id (ru_provider (au_resolved active)) ∈ tn_providers (ws_turn s')
       | inr _ => True
       end) anything s.
Proof using.
  assert (asks_more s s) as Hs by done.
  unfold connect_selected_upstream. apply post_bind. eapply post_frame; [solve [keep]|exact Hs|]. intros now s1 H1 F1.
  apply post_bind. eapply post_frame; [solve [keep]|exact H1|]. intros existing s2 H2 F2.
  apply post_bind. eapply post_frame; [solve [keep]|exact H2|]. intros plan s3 H3 F3.
  destruct plan as [plan|e]; [|done].
  apply post_bind. eapply post_frame; [solve [keep]|exact H3|]. intros ? s4 H4 F4.
  apply post_bind. eapply post_frame; [solve [keep]|exact H4|]. intros now' s5 H5 F5.
  apply post_bind. eapply post_frame; [solve [keep]|exact H5|]. intros [binding plan'] s6 H6 F6.
  assert (tn_providers (ws_turn s6) = tn_providers (ws_turn s)) as Hp.
  { injection F6 as _ _ _ _ _ -> _ _ _. injection F5 as _ _ _ _ _ -> _ _ _. injection F4 as _ _ _ _ _ -> _ _ _.
    injection F3 as _ _ _ _ _ -> _ _ _. injection F2 as _ _ _ _ _ -> _ _ _. by injection F1 as _ _ _ _ _ -> _ _ _. }
  apply post_bind. unfold post at 1, turn_is, gets. destruct (ws_attempts _ _) as [|t attempts] eqn:Ea; [done|].
  eapply post_weaken; [by apply connect_attempts_asks| |done]. intros [active|err] s7 [H7 Hc]; [|done].
  destruct Hc as (Hm & Hin & Hn). split; [done|]. split_and!; [done| |done].
  rewrite -Ea in Hin. unfold ws_attempts in Hin. apply list_elem_of_In, filter_In in Hin as [_ Hf].
  apply andb_true_iff in Hf as [_ Hf]. apply negb_true_iff, bool_decide_eq_false in Hf. by rewrite -Hp.
Qed.
End ConnectFrame.
#[export] Hint Resolve begin_frame settle_neutral_frame settle_frame note_send_frame finish_trace_frame still_current_frame
  connect_or_bridge_frame : keeps.
