(* ===== verification/WsTurn.v ===== *)
(** * WsTurn: one [response.create] on an open connection

    Models the forwarding half of [responses_ws.rs]: a turn over a native WebSocket and over
    the HTTP bridge, reading with the grace a departed client leaves, the retry without
    rejected encrypted content, and the record of the turn that settles its reservation,
    tells the session and is logged. The reads of a turn are a list the world gives; an
    upstream that has nothing more to say is silent until the deadline. *)
From Stdlib Require Import Ascii String.
From S2P Require Import Prelude Text Json ProbeProtocol Resilience Types RuntimeHealth ProviderRuntime Quota KeyRotation Selector Affinity ResponseEvents Recovery Caches Pricing Snapshot RoutingAvailability Routing Plan Reservation Slots OpenAi Headers RequestOverrides UpstreamUrl CodexRequests Relay Tap Prepare AttemptLoop WsParts WsConnect Computation.

Local Open Scope string_scope.
Local Open Scope list_scope.
Local Open Scope Z_scope.
Local Open Scope loop_scope.

Inductive ForwardResult :=
| Complete
| RetryEncryptedContent (payload : string)
| RetryableBeforeEvent (error : WsBridgeError)
| Fatal.

(** ** Reading with a deadline *)

(** The instant a wait ends at: the read's deadline, or the grace of a departed client. *)
Definition grace_deadline (gone : option Z) (read_deadline : Z) : Z :=
  match gone with Some at_ => Z.min (at_ + DISCONNECT_GRACE) read_deadline | None => read_deadline end.

(** The client's leaving counts when it comes before the read is over. *)
Definition gone_while_reading {T} (gone : option Z) (rd : Read T) (read_deadline : Z) : option Z :=
  match gone, rd_gone rd with
  | Some at_, _ => Some at_
  | None, Some at_ =>
      if at_ <=? match rd_arrival rd with Some (arrived, _) => Z.min arrived read_deadline | None => read_deadline end
      then Some at_ else None
  | None, None => None
  end.

(** What the read gives in time. *)
Definition read_in_time {T} (rd : Read T) (deadline : Z) : option (Arrival T) :=
  match rd_arrival rd with
  | Some (arrived, x) => if arrived <=? deadline then Some x else None
  | None => None
  end.

(** The variables of a turn's reading. *)
Record Reading := MkReading { rg_first_byte_ms : option Z; rg_first_token_ms : option Z; rg_emitted : bool }.
Definition new_reading : Reading := MkReading None None false.

Section Turn.
Context {D R : Type} `{FastRand R} `{Decimal D}.
Context {EntryOrder : HashOrder AffinityKey AffinityEntry} {AvoidOrder : HashOrder AffinityKey AvoidEntry}.
Context {SessionOrder : HashOrder string Session}.
Context (libs : WsLibraries) (settings : WsSettings) (w : World D).
Implicit Types resolved : ResolvedUpstream D.

Notation M X := (comp (WsState D R) (option X)).
Notation lib := (wl_libs libs).

(** [Value::to_string], which does not fail. *)
Definition print (v : Value) : string := unwrap_or (to_vec lib v) "".

(** ** To the client *)

(** [downstream.send(..)]: whether the client took the message. *)
Definition send_downstream {X} (message : Message) : M X bool :=
  wait w ;;
  let* accepted := ask (wd_accepted w) in
  if accepted then modify (λ s, set_ws_out (ws_out s ++ [message]) s) ;; ret true else ret false.

Definition send_ws_error {X} (status : Z) (code message : string) : M X unit :=
  send_downstream (MText (print (ws_error_event status code message))) ;; ret tt.

(** An event of the turn: a client that cannot be written to is gone. *)
Definition send_turn_event {X} (message : Message) : M X unit :=
  let* gone := gets ws_gone in
  if is_some gone then ret tt
  else
    let* accepted := send_downstream message in
    if accepted then ret tt
    else let* now := ask (wd_at w) in modify (set_ws_gone (Some now)).

Definition read_with_disconnect_grace {T X} resolved (emitted_event : bool) (rd : Read T) : M X (option (Arrival T)) :=
  let* b := turn_is tn_budget in
  let timeout := provider_timeout (wt_settings settings) (ru_provider resolved) in
  let read_deadline := rd_now rd + (if emitted_event then timeout else Z.min (remaining b (rd_now rd)) timeout) in
  wait w ;;
  let* gone := gets ws_gone in
  let gone := gone_while_reading gone rd read_deadline in
  modify (set_ws_gone gone) ;;
  ret (read_in_time rd (grace_deadline gone read_deadline)).

(** ** The record of a turn *)

(** What the session's binding learns from a turn that asked an upstream. *)
Definition turn_affinity (identity : option AffinityIdentity) resolved (scope : FailureScope) (now_ms : Z) (s : SharedState)
    : SharedState :=
  match identity with
  | None => s
  | Some identity =>
      let provider_id := up_id (ru_provider resolved) in
      if bool_decide (scope = ScopeSuccess) then
        let '(binding, book) := Affinity.lookup (ss_affinity s) identity now_ms in
        match binding with
        | Some binding =>
            if ab_provider_id binding =? provider_id then
              if ab_confirmed binding
              then set_ss_affinity (refresh_if_provider book identity provider_id now_ms).2 s
              else set_ss_affinity (confirm book identity binding now_ms).2 s
            else set_ss_affinity (migrate book identity provider_id now_ms).2 s
        | None =>
            let '(binding, book) := claim book identity provider_id now_ms in
            if ab_provider_id binding =? provider_id
            then set_ss_affinity (confirm book identity binding now_ms).2 s
            else set_ss_affinity book s
        end
      else if should_avoid_affinity_immediately scope then
        set_ss_affinity (mark_provider_failed (ss_affinity s) identity provider_id now_ms (avoid_ns (ru_provider resolved))) s
      else s
  end.

(** The outcome with the usage that was observed, and as a departed client leaves it. *)
Definition recorded_outcome (outcome : TurnOutcome) (observation : Observation) (gone_ms : option Z) : TurnOutcome :=
  let '(usage, observed) := match ob_usage observation with
                            | Some usage => (usage, true)
                            | None => (to_usage outcome, to_usage_observed outcome)
                            end in
  match gone_ms with
  | Some gone_ms =>
      MkTurnOutcome (to_status outcome) (Some "client_disconnected")
        (Some "client disconnected; upstream metering collection finished") (to_t_stream_ms outcome)
        (to_t_first_byte_ms outcome) (to_t_first_token_ms outcome)
        (Z.max (i64_sat_sub (to_duration_ms outcome) gone_ms) 0) usage observed Gateway
  | None =>
      MkTurnOutcome (to_status outcome) (to_error_type outcome) (to_error_message outcome) (to_t_stream_ms outcome)
        (to_t_first_byte_ms outcome) (to_t_first_token_ms outcome) (to_duration_ms outcome) usage observed (to_origin outcome)
  end.

Definition turn_row (ctx : WsContext) resolved (requested_model : string) (transport : TurnTransport) (outcome : TurnOutcome)
    (observation : Observation) (pricing : PricingEvaluation D) (time_ms : Z) (trace : WsRoutingTrace * RecoveryTrace) : WsRow :=
  MkRow None (ak_id (cx_api_key ctx)) (ak_log_enabled (cx_api_key ctx)) (Some (target_of resolved)) (Some "responses")
    (Some requested_model) (to_status outcome) (to_error_type outcome) (to_error_message outcome)
    (to_t_stream_ms outcome, to_t_first_byte_ms outcome, to_t_first_token_ms outcome) (Some (to_duration_ms outcome))
    (to_usage outcome) (to_usage_observed outcome) (option_map pv_id (ru_price resolved), pe_tier_index pricing) time_ms
    "ws_turn" (as_log_value transport) (Some (cx_session_log_id ctx)) (Some (cx_session_id ctx))
    (cx_requested_reasoning_effort ctx, cx_requested_service_tier ctx)
    (cx_upstream_reasoning_effort ctx, cx_upstream_service_tier ctx)
    (if is_some (to_t_first_token_ms outcome) then ob_first_output_kind observation else None)
    (ob_service_tier observation) (Some trace).

(** A departed client is nobody's fault. *)
Definition settle_turn {X} (reservation : option UpstreamAttemptReservation) (disconnected : bool) (outcome : TurnOutcome)
    : M X unit :=
  match reservation with
  | None => ret tt
  | Some r =>
      if disconnected then settle_neutral w r
      else settle w r (MkOutcome (Some (to_status outcome)) (to_origin outcome) (to_error_type outcome)
                         (to_error_message outcome)
                         (opt_or (to_t_first_byte_ms outcome) (opt_or (to_t_first_token_ms outcome) (to_t_stream_ms outcome))))
  end.

(** A price that cannot be computed panics, and the reservation is dropped with the task. *)
Definition priced {X} (reservation : option UpstreamAttemptReservation) (outcome : TurnOutcome) resolved
    : M X (PricingEvaluation D) :=
  match evaluate_price (to_usage outcome) (to_usage_observed outcome) (ru_price resolved) with
  | Some pricing => ret pricing
  | None =>
      let* now := ask (wd_ms w) in
      match reservation with Some r => update_shared (λ s, drop_reservation s r now) | None => ret tt end ;;
      panic
  end.

Definition record_turn {X} (ctx : WsContext) resolved (requested_model : string) (transport : TurnTransport)
    (outcome : TurnOutcome) (reservation : option UpstreamAttemptReservation) : M X unit :=
  let* observation := turn_is tn_observation in
  let* gone := gets ws_gone in
  let* gone_ms := match gone with Some at_ => let* ms := since w at_ in ret (Some ms) | None => ret None end in
  let outcome := recorded_outcome outcome observation gone_ms in
  let* pricing := priced reservation outcome resolved in
  let* now_ms := ask (wd_ms w) in
  let scope := classify_failure_scope (Some (to_status outcome)) (to_origin outcome) in
  settle_turn reservation (is_some gone) outcome ;;
  let* trace := turn_is tn_trace in
  (if is_none_or (wt_model_route trace) rp_sticky && is_some reservation
   then update_shared (turn_affinity (affinity_of libs ctx requested_model) resolved scope now_ms) else ret tt) ;;
  finish_ws_trace (to_status outcome) (to_error_type outcome) ;;
  let* time_ms := ask (wd_ms w) in
  update_turn (λ t, set_tn_permit false (set_tn_pending (Some (MkPending (tn_permit t)
    (turn_row ctx resolved requested_model transport outcome observation pricing time_ms (tn_trace t, rr_trace (tn_recovery t)))
    pricing (bool_decide (scope = ScopeSuccess)))) t)).

(** A turn that ends before anything is sent upstream, or before an answer. *)
Definition fail_turn {X} (ctx : WsContext) resolved (requested_model : string) (transport : TurnTransport)
    (outcome : TurnOutcome) (reservation : option UpstreamAttemptReservation) (error_type message : string)
    (scope : FailureScope) : M X ForwardResult :=
  record_turn ctx resolved requested_model transport outcome reservation ;;
  ret (RetryableBeforeEvent (MkBridgeError (to_status outcome) error_type message scope)).

Definition finish_forwarded_turn {X} (ctx : WsContext) resolved (requested_model : string) (transport : TurnTransport)
    (outcome : TurnOutcome) (emitted_event : bool) (reservation : UpstreamAttemptReservation) : M X ForwardResult :=
  let* gone := gets ws_gone in
  let scope := classify_failure_scope (Some (to_status outcome)) (to_origin outcome) in
  (if bool_decide (scope = ScopeQuota) then
     (if is_some gone then ret tt
      else let* now := ask (wd_ms w) in update_shared (observe_quota libs settings (uk_id (ru_key resolved)) (to_status outcome) ∅ now)) ;;
     let* now := ask (wd_ms w) in update_shared (defer_key (uk_id (ru_key resolved)) now)
   else ret tt) ;;
  record_turn ctx resolved requested_model transport outcome (Some reservation) ;;
  ret (if is_some gone then Fatal
       else if negb emitted_event && is_retryable scope then
         RetryableBeforeEvent (MkBridgeError (to_status outcome) "upstream_response_failed"
           (unwrap_or (to_error_message outcome) "upstream response failed") scope)
       else if bool_decide (scope = ScopeSuccess) then Complete
       else Fatal).

(** ** What both transports do with an event *)

(** An OAuth account: it may be forbidden, or its error say when its quota resets. *)
Definition observe_codex_account_error {X} resolved (status : Z) (body : string) : M X unit :=
  if negb (is_codex_oauth (ru_provider resolved)) then ret tt
  else
    let* now := ask (wd_ms w) in
    (if (status =? 403) && is_account_forbidden_error (chars body)
     then note_account (uk_id (ru_key resolved)) AUTH_STATUS_FORBIDDEN ;; wait w else ret tt) ;;
    if (status =? 402) || (status =? 429) then
      match quota_reset_hint_from_error (from_slice lib) (chars body) now with
      | Some reset_at_ms =>
          update_shared (λ s, set_ss_quota (set_cooldown_until (ss_quota s) (uk_id (ru_key resolved)) reset_at_ms now) s)
      | None => ret tt
      end
    else ret tt.

(** The request without the items an upstream refused to decrypt, if it may be sent again. *)
Definition prepare_encrypted_recovery {X} resolved (event : Value) (payload : string) (emitted_event : bool)
    : M X (option string) :=
  let* t := gets ws_turn in
  if negb (Recovery.rr_enabled (tn_recovery t)) || negb (rejection_without_output event) || is_some (ob_usage (tn_observation t))
  then ret None
  else
    let* now := ask (wd_ms w) in
    modify (λ s, let t := ws_turn s in
      let '(recovery, book) := Recovery.record_failure (wl_set_order libs) (sha256 lib) (parse lib) (tn_recovery t)
                                 (bk_recovery (ws_books s)) payload now in
      set_ws_books (set_bk_recovery book (ws_books s)) (set_ws_turn (set_tn_recovery recovery t) s)) ;;
    let* gone := gets ws_gone in
    if emitted_event || is_some gone then ret None
    else
      let* available := budget_available w in
      let* may := provider_budget_available resolved in
      if negb (available && may) then ret None
      else state (λ s, let t := ws_turn s in
        let '(cleaned, recovery) := prepare_retry (sha256 lib) (parse lib) (to_vec lib) (tn_recovery t) payload true in
        (option_map (λ cleaned, from_utf8_lossy (chars cleaned)) cleaned, set_ws_turn (set_tn_recovery recovery t) s)).

Definition note_event {X} (event : Value) (g : Reading) (start : Z) : M X Reading :=
  update_turn (λ t, set_tn_observation (observe (tn_observation t) event) t) ;;
  if is_none (rg_first_token_ms g) && is_some (output_event_kind event)
  then let* ms := since w start in ret (MkReading (rg_first_byte_ms g) (Some ms) (rg_emitted g))
  else ret g.

Definition note_byte {X} (g : Reading) (start : Z) : M X Reading :=
  match rg_first_byte_ms g with
  | Some _ => ret g
  | None => let* ms := since w start in ret (MkReading (Some ms) (rg_first_token_ms g) (rg_emitted g))
  end.

Definition emitted (g : Reading) : Reading := MkReading (rg_first_byte_ms g) (rg_first_token_ms g) true.

Definition forward_event {X} (message : Message) (g : Reading) : M X Reading := send_turn_event message ;; ret (emitted g).

Definition timed_out : Status := (504, Some "upstream_timeout", Some "upstream read deadline exceeded").

(** ** A turn over a native connection *)
Definition wants_recovery {X} (payload : string) : M X (option string) :=
  turn_is (λ t, if Recovery.rr_enabled (tn_recovery t) then Some payload else None).

(** A text of the upstream: [Some] result ends the turn. *)
Definition native_text {X} resolved (recovery_request : option string) (start : Z) (text : string) (g : Reading)
    : M X (option Status * option string * Reading) :=
  let* g := note_byte g start in
  match parse lib text with
  | Some event =>
      let* g := note_event event g start in
      if is_terminal_response_event event then
        let outcome := terminal_status event in
        observe_codex_account_error resolved outcome.1.1 text ;;
        let* retry := match recovery_request with
                      | Some payload => prepare_encrypted_recovery resolved event payload (rg_emitted g)
                      | None => ret None
                      end in
        let* g := (if is_none retry && negb (should_retry_terminal_before_event event (rg_emitted g))
                   then forward_event (MText text) g else ret g) in
        ret (Some outcome, retry, g)
      else let* g := forward_event (MText text) g in ret (None, None, g)
  | None => let* g := forward_event (MText text) g in ret (None, None, g)
  end.

(** One message of the upstream. *)
Definition native_step {X} resolved (recovery_request : option string) (start : Z) (item : option (Arrival Message)) (g : Reading)
    : M X (option Status * option string * Reading) :=
  match item with
  | Some (Got (MText text)) => native_text resolved recovery_request start text g
  | Some (Got (MPing payload)) =>
      write (WireMessage (MPong payload)) ;;
      wait w ;;
      let* failed := ask (wd_write_error w) in
      ret (match failed with
           | Some error => (Some (502, Some "upstream_websocket_write_error", Some error), None, g)
           | None => (None, None, g)
           end)
  | Some (Got (MBinary bytes)) => let* g := forward_event (MBinary bytes) g in ret (None, None, g)
  | Some (Got (MPong _)) | Some (Got MFrame) => ret (None, None, g)
  | Some (Got (MClose _)) | Some GotClose =>
      ret (Some (502, Some "upstream_websocket_closed", Some "upstream closed before terminal response event"), None, g)
  | Some (GotFailure error) => ret (Some (502, Some "upstream_websocket_read_error", Some error), None, g)
  | None => ret (Some timed_out, None, g)
  end.

Fixpoint native_loop {X} resolved (recovery_request : option string) (start : Z) (reads : list (Read Message)) (g : Reading)
    : M X (Status * option string * Reading) :=
  match reads with
  | [] => ret (timed_out, None, g)
  | rd :: reads =>
      let* item := read_with_disconnect_grace resolved (rg_emitted g) rd in
      let* (ended, retry, g) := native_step resolved recovery_request start item g in
      match ended with
      | Some status => ret (status, retry, g)
      | None => native_loop resolved recovery_request start reads g
      end
  end.

(** How the reading ended, and the request to send again when there is one. *)
Definition finish_reading {X} (ctx : WsContext) resolved (requested_model : string) (transport : TurnTransport)
    (start t_stream_ms : Z) (status : Status) (retry : option string) (g : Reading) (r : UpstreamAttemptReservation)
    : M X ForwardResult :=
  let '(code, error_type, error_message) := status in
  let* duration := since w start in
  let* result := finish_forwarded_turn ctx resolved requested_model transport
    (from_parts code error_type error_message (Some t_stream_ms) (rg_first_byte_ms g) (rg_first_token_ms g) no_usage false duration)
    (rg_emitted g) r in
  ret (match retry with Some payload => RetryEncryptedContent payload | None => result end).

(** A reservation that was refused. *)
Definition refused {X} (ctx : WsContext) resolved (requested_model : string) (transport : TurnTransport) (start : Z)
    (e : AttemptReservationError) (message : string) : M X ForwardResult :=
  let* duration := since w start in
  match e with
  | ReservationQuota =>
      let message := "upstream request quota is unavailable" in
      fail_turn ctx resolved requested_model transport (outcome_error 429 "upstream_quota_unavailable" message duration) None
        "upstream_quota_unavailable" message ScopeQuota
  | _ =>
      fail_turn ctx resolved requested_model transport (outcome_error 503 "provider_capacity_unavailable" message duration) None
        "provider_capacity_unavailable" message ScopeProvider
  end.

Definition forward_native_response_create {X} (ctx : WsContext) resolved (requested_model payload : string) (start : Z)
    : M X ForwardResult :=
  let* granted := begin_ws_attempt w resolved true in
  if negb granted then ret (RetryableBeforeEvent budget_error)
  else
    let* reserved := reserve w (λ s, reserve_ws_turn s resolved) in
    match reserved with
    | inr e => refused ctx resolved requested_model NativeWs start e "native websocket upstream target could not be reserved"
    | inl r =>
        note_ws_send resolved ;;
        let* recovery_request := wants_recovery payload in
        write (WireCreate (target_of resolved) payload) ;;
        wait w ;;
        let* failed := ask (wd_write_error w) in
        match failed with
        | Some error =>
            let message := "failed to send websocket request upstream: " +:+ error in
            let* duration := since w start in
            fail_turn ctx resolved requested_model NativeWs
              (provider_error 502 "upstream_websocket_write_error" message duration) (Some r)
              "upstream_websocket_write_error" message ScopeProvider
        | None =>
            let* t_stream_ms := since w start in
            let* reads := ask (wd_reads w) in
            let* (status, retry, g) := native_loop resolved recovery_request start reads new_reading in
            finish_reading ctx resolved requested_model NativeWs start t_stream_ms status retry g r
        end
    end.

(** ** A turn over the HTTP bridge *)

(** What the bridge has read so far. *)
Record BridgeReading := MkBridge {
  bg_reading : Reading;
  bg_terminal : option Status;
  bg_retry : option string;
  bg_sse : SseDecoder;
  bg_capture : list ascii
}.

Definition set_bg_reading (g : Reading) (b : BridgeReading) : BridgeReading :=
  MkBridge g (bg_terminal b) (bg_retry b) (bg_sse b) (bg_capture b).

(** One event; [true] when it is the last. *)
Definition bridge_event {X} resolved (payload : string) (start : Z) (event : Value) (b : BridgeReading)
    : M X (BridgeReading * bool) :=
  let* g := note_event event (bg_reading b) start in
  let terminal_event := is_terminal_response_event event in
  let* b := (if terminal_event then
               let status := terminal_status event in
               observe_codex_account_error resolved status.1.1 (print event) ;;
               let* retry := prepare_encrypted_recovery resolved event payload (rg_emitted g) in
               ret (MkBridge g (Some status) retry (bg_sse b) (bg_capture b))
             else ret (set_bg_reading g b)) in
  let* g := (if is_none (bg_retry b) && negb (should_retry_terminal_before_event event (rg_emitted g))
             then forward_event (MText (print event)) g else ret g) in
  ret (set_bg_reading g b, terminal_event).

Fixpoint bridge_events {X} resolved (payload : string) (start : Z) (events : list Value) (b : BridgeReading)
    : M X BridgeReading :=
  match events with
  | [] => ret b
  | event :: events =>
      let* (b, last) := bridge_event resolved payload start event b in
      if last then ret b else bridge_events resolved payload start events b
  end.

(** The frame of a read, or how the body ended. *)
Definition bridge_frame (item : option (Arrival Frame)) : option Frame * option Status :=
  match item with
  | Some (Got f) => (Some f, None)
  | Some GotClose => (None, None)
  | Some (GotFailure error) => (None, Some (502, Some "upstream_body_error", Some error))
  | None => (None, Some timed_out)
  end.

Definition too_large : Status := (502, Some "response_too_large", Some "HTTP bridge JSON exceeds 4 MiB parsing limit").

(** The events a frame completes; [None] when the answer is too large to be parsed. *)
Definition frame_events (is_sse : bool) (status : Z) (frame : option Frame) (b : BridgeReading)
    : option (list Value * BridgeReading) :=
  match frame with
  | None =>
      if is_sse then let '(events, sse) := ResponseEvents.finish (from_slice lib) (bg_sse b) in
                     Some (events, MkBridge (bg_reading b) (bg_terminal b) (bg_retry b) sse (bg_capture b))
      else Some (if is_empty (bg_capture b) then [] else [json_response_to_ws_event (from_slice lib) status (bg_capture b)], b)
  | Some frame =>
      match data_ref frame with
      | None => Some ([], b)
      | Some data =>
          if is_sse then let '(events, sse) := push_bytes (from_slice lib) (bg_sse b) data in
                         Some (events, MkBridge (bg_reading b) (bg_terminal b) (bg_retry b) sse (bg_capture b))
          else if MAX_EVENT_BYTES <? Z.of_nat (length (bg_capture b) + length data) then None
          else Some ([], MkBridge (bg_reading b) (bg_terminal b) (bg_retry b) (bg_sse b) (bg_capture b ++ data))
      end
  end.

(** One round of the loop; [true] leaves it. *)
Definition bridge_step {X} resolved (is_sse : bool) (status : Z) (payload : string) (start : Z)
    (item : option (Arrival Frame)) (b : BridgeReading) : M X (BridgeReading * bool) :=
  let '(frame, failed) := bridge_frame item in
  let b := MkBridge (bg_reading b) (opt_or failed (bg_terminal b)) (bg_retry b) (bg_sse b) (bg_capture b) in
  let* b := (if is_some (opt_bind frame data_ref)
             then let* g := note_byte (bg_reading b) start in ret (set_bg_reading g b) else ret b) in
  match frame_events is_sse status frame b with
  | None => ret (MkBridge (bg_reading b) (Some too_large) (bg_retry b) (bg_sse b) (bg_capture b), true)
  | Some (events, b) =>
      let* b := bridge_events resolved payload start events b in
      ret (b, is_none frame || is_some (bg_terminal b))
  end.

Fixpoint bridge_loop {X} resolved (is_sse : bool) (status : Z) (payload : string) (start : Z) (reads : list (Read Frame))
    (b : BridgeReading) : M X BridgeReading :=
  match reads with
  | [] => let* (b, _) := bridge_step resolved is_sse status payload start None b in ret b
  | rd :: reads =>
      let* item := read_with_disconnect_grace resolved (rg_emitted (bg_reading b)) rd in
      let* (b, left_) := bridge_step resolved is_sse status payload start item b in
      if left_ then ret b else bridge_loop resolved is_sse status payload start reads b
  end.

Definition new_bridge : BridgeReading := MkBridge new_reading None None new_sse [].

Definition incomplete (b : BridgeReading) : Status :=
  (502, Some "upstream_incomplete_response",
   Some (unwrap_or (sse_error (bg_sse b)) "upstream ended without terminal response event")).

Definition bridge_headers (ctx : WsContext) resolved (auth : option PreparedCodexAuth) (body : string) : HeaderMap + string :=
  let secret := match auth with Some auth => ca_access_token auth | None => uk_secret (ru_key resolved) end in
  let headers := build_upstream_http_bridge_headers (header_value lib) (to_str lib) (cx_request_headers ctx) secret
                   (Z.of_nat (String.length body)) in
  let headers := match auth with
                 | Some auth => apply_codex_headers (header_value lib) (to_str lib) headers auth
                 | None => headers
                 end in
  match apply_header_overrides (header_name lib) (header_value lib) (up_request_overrides (ru_provider resolved))
          TargetResponses headers (cx_request_id ctx) with
  | inl headers => inl headers
  | inr _ => inr "failed to apply provider request header overrides"
  end.

(** The dispatch: the Responses Lite contract is kept at its boundary. *)
Definition dispatch {X} resolved (uri : Uri) (headers : HeaderMap) (body : string) (timeout : Z)
    : M X (BridgeResponse + UpstreamDispatchError) :=
  write (WirePost (target_of resolved) body) ;;
  wait w ;;
  match (if ends_with "/responses" (uri_path uri) then normalize_http_body lib headers body else inl (headers, body)) with
  | inr error => ret (inr (RequestError error))
  | inl (headers, body) => ask (λ n, wd_response w n timeout uri headers body)
  end.

Section Bridge.
Context (ctx : WsContext) (resolved : ResolvedUpstream D) (requested_model : string) (start : Z).
Notation B := (M ForwardResult).

Definition bridge_failure {X} (outcome : TurnOutcome) (r : UpstreamAttemptReservation) (error_type message : string)
    (scope : FailureScope) : M X ForwardResult :=
  fail_turn ctx resolved requested_model HttpBridge outcome (Some r) error_type message scope.

Definition bridge_local_failure {A} (r : UpstreamAttemptReservation) (status : Z) (error_type message : string) : B A :=
  let* duration := since w start in
  let* result := bridge_failure (provider_error status error_type message duration) r error_type message ScopeProvider in
  return_ result.

Definition bridge_auth (r : UpstreamAttemptReservation) : B (option PreparedCodexAuth) :=
  if is_codex_oauth (ru_provider resolved) then
    wait w ;;
    let* auth := ask (wd_auth w) in
    match auth with
    | inl auth => ret (Some auth)
    | inr e =>
        let* duration := since w start in
        let* result := bridge_failure (upstream_response_error (au_status e) (au_code e) (au_message e) duration) r
                         (au_code e) (au_message e) ScopeKey in
        return_ result
    end
  else ret None.

Definition bridge_made_headers (r : UpstreamAttemptReservation) (auth : option PreparedCodexAuth) (body : string) : B HeaderMap :=
  match bridge_headers ctx resolved auth body with
  | inl headers => ret headers
  | inr message => bridge_local_failure r 500 "request_override_failed" message
  end.

Definition is_401 (response : BridgeResponse + UpstreamDispatchError) : bool :=
  match response with inl response => br_status response =? 401 | inr _ => false end.

Definition bridge_replay (r : UpstreamAttemptReservation) (uri : Uri) (body : string)
    (response : BridgeResponse + UpstreamDispatchError) : B ((BridgeResponse + UpstreamDispatchError) * bool) :=
  if negb (is_codex_oauth (ru_provider resolved)) then ret (response, false)
  else
    let* available := budget_available w in
    if negb (available && is_401 response) then ret (response, false)
    else
      wait w ;;
      let* auth := ask (wd_auth w) in
      match auth with
      | inr _ => ret (response, false)
      | inl refreshed =>
          let* headers := bridge_made_headers r (Some refreshed) body in
          still_current w r (RetryableBeforeEvent target_unavailable_error) ;;
          let* granted := begin_ws_attempt w resolved false in
          if negb granted then settle_neutral w r ;; return_ (RetryableBeforeEvent budget_error)
          else
            still_current w r (RetryableBeforeEvent target_unavailable_error) ;;
            let* left_ := time_left settings w resolved in
            finish_ws_trace 401 (Some "oauth_token_refresh") ;;
            note_ws_send resolved ;;
            let '(provider, endpoint, key) := target_of resolved in
            let* now := ask (wd_ms w) in
            update_shared (λ s, set_ss_provider_runtime
              (record_error (ss_provider_runtime s) provider endpoint key "OAuth authentication replay" (Some 401) now) s) ;;
            let* response := dispatch resolved uri headers body left_ in
            ret (response, true)
      end.

(** The body the bridge posts, [None] when the payload is not JSON. *)
Definition bridge_payload (payload : string) : option string := opt_bind (parse lib payload) (λ v, to_vec lib (bridge_body v)).

Definition bridge_answer {X} (payload : string) (r : UpstreamAttemptReservation) (response : BridgeResponse) : M X ForwardResult :=
  let key := uk_id (ru_key resolved) in
  let* t_stream_ms := since w start in
  let* now := ask (wd_ms w) in
  update_shared (observe_quota libs settings key (br_status response) (br_headers response) now) ;;
  (if (br_status response =? 402) || (br_status response =? 429)
   then let* now := ask (wd_ms w) in update_shared (defer_key key now) else ret tt) ;;
  let is_sse := is_event_stream lib (br_headers response) in
  let* b := bridge_loop resolved is_sse (br_status response) payload start (br_reads response) new_bridge in
  finish_reading ctx resolved requested_model HttpBridge start t_stream_ms (unwrap_or (bg_terminal b) (incomplete b))
    (bg_retry b) (bg_reading b) r.

Definition bridge_with_reservation (payload body : string) (r : UpstreamAttemptReservation) : B ForwardResult :=
  match build_upstream_uri (parse_uri lib) (parse_path_and_query lib) (Prepare.from_parts lib)
          (ue_base_url (ru_endpoint resolved)) UPSTREAM_RESPONSES_PATH with
  | inr message => bridge_local_failure r 400 "invalid_upstream_uri" message
  | inl uri =>
      let* auth := bridge_auth r in
      let* headers := bridge_made_headers r auth body in
      still_current w r (RetryableBeforeEvent target_unavailable_error) ;;
      let* left_ := time_left settings w resolved in
      note_ws_send resolved ;;
      let* response := dispatch resolved uri headers body left_ in
      let* (response, replayed) := bridge_replay r uri body response in
      (if replayed && is_401 response
       then note_account (uk_id (ru_key resolved)) AUTH_STATUS_REAUTH_REQUIRED ;; wait w else ret tt) ;;
      match response with
      | inr error =>
          let '(status, error_type, message) := dispatch_error_to_http (wt_settings settings) error in
          bridge_local_failure r status error_type message
      | inl response => bridge_answer payload r response
      end
  end.

Definition invalid_payload {X} (message : string) : M X ForwardResult :=
  let* duration := since w start in
  record_turn ctx resolved requested_model HttpBridge (outcome_error 400 "invalid_payload" message duration) None ;;
  send_ws_error 400 "invalid_payload" message ;;
  ret Fatal.

Definition forward_http_bridge_response_create {X} (payload : string) : M X ForwardResult := call (
  match bridge_payload payload with
  | None => invalid_payload "failed to decode HTTP bridge payload"
  | Some body =>
      let* granted := begin_ws_attempt w resolved false in
      if negb granted then ret (RetryableBeforeEvent budget_error)
      else
        let* reserved := reserve w (λ s, reserve_attempt s resolved) in
        match reserved with
        | inr e => refused ctx resolved requested_model HttpBridge start e "HTTP bridge upstream target could not be reserved"
        | inl r => bridge_with_reservation payload body r
        end
  end).
End Bridge.

(** ** The turn and its one retry *)

(** The loop of [forward_response_create]: a rejected payload is sent once more. *)
Fixpoint forward_loop {X} (fuel : nat) (ctx : WsContext) (active : ActiveUpstream D) (start : Z) (payload : string)
    : M X ForwardResult :=
  let* result := match au_transport active with
                 | NativeTransport =>
                     forward_native_response_create ctx (au_resolved active) (au_requested_model active) payload start
                 | BridgeTransport =>
                     forward_http_bridge_response_create ctx (au_resolved active) (au_requested_model active) start payload
                 end in
  match fuel, result with
  | S fuel, RetryEncryptedContent cleaned =>
      (* the rejected attempt gives its place in the log to the next *)
      update_turn (λ t, set_tn_observation default_observation
        (match tn_pending t with
         | Some pending => set_tn_pending None (set_tn_permit (pd_permit pending) t)
         | None => t
         end)) ;;
      forward_loop fuel ctx active start cleaned
  | _, result => ret result
  end.

(** A request is retried at most once: see [no_second_retry]. *)
Definition forward_response_create {X} (ctx : WsContext) (active : ActiveUpstream D) (payload : string) : M X ForwardResult :=
  let* start := ask (wd_at w) in
  let* permit := ask (wd_permit w) in
  let* now := ask (wd_ms w) in
  let* filtered := state (λ s, let t := ws_turn s in
    let '(filtered, recovery, book) := filter_known (sha256 lib) (parse lib) (to_vec lib) (tn_recovery t)
                                         (bk_recovery (ws_books s)) payload now in
    (filtered, set_ws_books (set_bk_recovery book (ws_books s))
                 (set_ws_turn (set_tn_permit permit (set_tn_recovery recovery t)) s))) in
  forward_loop 1 ctx active start (from_utf8_lossy (chars filtered)).
End Turn.

(** ** Slots *)
Section TurnAccounts.
Context {D R : Type} `{FastRand R} `{Decimal D}.
Context {EntryOrder : HashOrder AffinityKey AffinityEntry} {AvoidOrder : HashOrder AffinityKey AvoidEntry}.
Context {SessionOrder : HashOrder string Session}.
Context (libs : WsLibraries) (settings : WsSettings) (w : World D) (w_steady : steady w).
Context (base : Z → Z) (base_ok : ∀ id, 0 <= base id < u32_max).
Notation M X := (comp (WsState D R) (option X)).
Notation holding := (holding (D := D) (R := R) base).
Notation free := (free (D := D) (R := R) base).
Implicit Types a : ResolvedUpstream D.

(** A turn that panics has given its slots back. *)
Definition freed {X} (e : option X) (s : WsState D R) : Prop := free s.

Lemma send_downstream_stays {X} m : stays (send_downstream (X := X) (D := D) (R := R) w m).
Proof using. unfold send_downstream. stay. Qed.
Lemma send_downstream_level {X} m : moves level (send_downstream (X := X) (D := D) (R := R) w m).
Proof using w_steady. unfold send_downstream. carry. Qed.
Hint Resolve send_downstream_stays : stays.
Hint Resolve send_downstream_level : moves.
Lemma send_ws_error_stays {X} st c m : stays (send_ws_error (X := X) (D := D) (R := R) libs w st c m).
Proof using. unfold send_ws_error. stay. Qed.
Lemma send_ws_error_level {X} st c m : moves level (send_ws_error (X := X) (D := D) (R := R) libs w st c m).
Proof using w_steady. unfold send_ws_error. carry. Qed.
Lemma send_turn_event_stays {X} m : stays (send_turn_event (X := X) (D := D) (R := R) w m).
Proof using. unfold send_turn_event. stay. Qed.
Lemma send_turn_event_level {X} m : moves level (send_turn_event (X := X) (D := D) (R := R) w m).
Proof using w_steady. unfold send_turn_event. carry. Qed.
Lemma read_stays {T X} a e (rd : Read T) : stays (read_with_disconnect_grace (X := X) (R := R) settings w a e rd).
Proof using. unfold read_with_disconnect_grace. stay. Qed.
Lemma read_level {T X} a e (rd : Read T) : moves level (read_with_disconnect_grace (X := X) (R := R) settings w a e rd).
Proof using w_steady. unfold read_with_disconnect_grace. carry. Qed.
Hint Resolve send_ws_error_stays send_turn_event_stays read_stays : stays.
Hint Resolve send_ws_error_level send_turn_event_level read_level : moves.

Lemma turn_affinity_level i a scope now s id : in_flight (turn_affinity i a scope now s) id = in_flight s id.
Proof using.
  apply level_runtime. unfold turn_affinity. destruct i as [i|]; [|done]. case_bool_decide.
  - destruct (Affinity.lookup _ _ _) as [[b|] book].
    + destruct (_ =? _); [by destruct (ab_confirmed b)|done].
    + destruct (claim _ _ _ _) as [b book']. by destruct (_ =? _).
  - by destruct (should_avoid_affinity_immediately scope).
Qed.

Lemma cooldown_level k until now s id :
  in_flight (set_ss_quota (set_cooldown_until (ss_quota s) k until now) s) id = in_flight s id.
Proof using. done. Qed.
Hint Extern 1 (moves level (update_shared _)) =>
  apply level_update_shared; intros; first [apply turn_affinity_level|apply cooldown_level] : moves.

(** What a turn may hold while it is recorded. *)
Definition holding_opt (r : option UpstreamAttemptReservation) (s : WsState D R) : Prop :=
  match r with Some r => holding r s | None => free s end.

Lemma settle_turn_frees {X} r gone outcome s (Q : unit → WsState D R → Prop) (Y : option X → WsState D R → Prop) :
  holding_opt r s → (∀ s', free s' → Q tt s') → post (settle_turn w r gone outcome) Q Y s.
Proof using base_ok.
  intros Hs HQ. unfold settle_turn. destruct r as [r|]; [|by apply HQ].
  apply post_if; intros _; [by eapply ws_post_settle_neutral|by eapply WsConnect.ws_post_settle].
Qed.

Lemma priced_accounted {X} r outcome a s :
  holding_opt r s → post (priced (X := X) w r outcome a) (λ _ s', holding_opt r s') freed s.
Proof using base_ok.
  intros Hs. unfold priced. destruct (evaluate_price _ _ _) as [pricing|]; [done|].
  apply post_bind. unfold post at 1, ask, state. cbn. apply post_bind. destruct r as [r|]; [|exact Hs].
  unfold post, update_shared, modify. cbn. unfold freed. intros id. cbn in Hs.
  unfold flights. cbn. rewrite drop_reservation_in_flight; [specialize (Hs id); unfold flights, ws_shared in *; cbn in *; lia|].
  exact (ws_holding_bounds base base_ok r s Hs).
Qed.

Lemma record_turn_accounted {X} ctx a model transport outcome r s :
  holding_opt r s → post (record_turn (X := X) libs w ctx a model transport outcome r) (λ _ s', free s') freed s.
Proof using base_ok w_steady.
  intros Hs. unfold record_turn.
  assert (∀ s s', holding_opt r s → level s s' → holding_opt r s') as Hsame.
  { intros s1 s2 H1 Hl. destruct r; [by eapply holding_level|by eapply free_level]. }
  do 3 (apply post_bind, (post_moves level (holding_opt r)); [exact Hsame|stay|carry|eassumption|intros ? ? _ ?]).
  apply post_bind. eapply post_weaken; [by apply priced_accounted| |done]. cbn beta. intros pricing s4 H4.
  apply post_bind, (post_moves level (holding_opt r)); [exact Hsame|stay|carry|eassumption|intros ? ? _ ?].
  apply post_bind, (settle_turn_frees r); [done|]. intros s6 H6.
  free_step. free_step. free_step. free_step.
  eapply (post_moves level free); [apply free_level|stay|carry|eassumption|]. by intros.
Qed.

Lemma fail_turn_accounted {X} ctx a model transport outcome r kind message scope s :
  holding_opt r s →
  post (fail_turn (X := X) libs w ctx a model transport outcome r kind message scope) (λ _ s', free s') freed s.
Proof using base_ok w_steady.
  intros Hs. unfold fail_turn. apply post_bind. eapply post_weaken; [by apply record_turn_accounted| |done]. by intros.
Qed.

Lemma finish_forwarded_accounted {X} ctx a model transport outcome emitted_event r s :
  holding r s →
  post (finish_forwarded_turn (X := X) libs settings w ctx a model transport outcome emitted_event r) (λ _ s', free s') freed s.
Proof using base_ok w_steady.
  intros Hs. unfold finish_forwarded_turn. level_step. level_step. apply post_bind.
  eapply post_weaken; [by apply (record_turn_accounted ctx a model transport outcome (Some r))| |done]. by intros.
Qed.

Lemma refused_accounted {X} ctx a model transport start e message s :
  free s → post (refused (X := X) libs w ctx a model transport start e message) (λ _ s', free s') freed s.
Proof using base_ok w_steady. intros Hs. unfold refused. free_step. destruct e; by apply fail_turn_accounted. Qed.

Lemma finish_reading_accounted {X} ctx a model transport start t status retry g r s :
  holding r s →
  post (finish_reading (X := X) libs settings w ctx a model transport start t status retry g r) (λ _ s', free s') freed s.
Proof using base_ok w_steady.
  intros Hs. unfold finish_reading. destruct status as [[code kind] message]. level_step. apply post_bind.
  eapply post_weaken; [by apply finish_forwarded_accounted| |done]. by intros.
Qed.

(** *** Reading moves no slot *)
Lemma prepare_recovery_stays {X} a event payload e :
  stays (prepare_encrypted_recovery (X := X) (R := R) libs w a event payload e).
Proof using. unfold prepare_encrypted_recovery. stay. Qed.
Lemma prepare_recovery_level {X} a event payload e :
  moves level (prepare_encrypted_recovery (X := X) (R := R) libs w a event payload e).
Proof using.
  unfold prepare_encrypted_recovery. carry.
  apply moves_state. intros s id. by destruct (prepare_retry _ _ _ _ _ _).
Qed.
Lemma observe_account_stays {X} a st b : stays (observe_codex_account_error (X := X) (R := R) libs w a st b).
Proof using. unfold observe_codex_account_error. stay. Qed.
Lemma observe_account_level {X} a st b : moves level (observe_codex_account_error (X := X) (R := R) libs w a st b).
Proof using w_steady. unfold observe_codex_account_error. carry. Qed.
Lemma note_event_stays {X} event g start : stays (note_event (X := X) (R := R) w event g start).
Proof using. unfold note_event. stay. Qed.
Lemma note_event_level {X} event g start : moves level (note_event (X := X) (R := R) w event g start).
Proof using. unfold note_event. carry. Qed.
Lemma note_byte_stays {X} g start : stays (note_byte (X := X) (R := R) w g start).
Proof using. unfold note_byte. stay. Qed.
Lemma note_byte_level {X} g start : moves level (note_byte (X := X) (R := R) w g start).
Proof using. unfold note_byte. carry. Qed.
Lemma forward_event_stays {X} m g : stays (forward_event (X := X) (D := D) (R := R) w m g).
Proof using. unfold forward_event. stay. Qed.
Lemma forward_event_level {X} m g : moves level (forward_event (X := X) (D := D) (R := R) w m g).
Proof using w_steady. unfold forward_event. carry. Qed.
Hint Resolve prepare_recovery_stays observe_account_stays note_event_stays note_byte_stays forward_event_stays : stays.
Hint Resolve prepare_recovery_level observe_account_level note_event_level note_byte_level forward_event_level : moves.

Lemma native_step_stays {X} a request start item g : stays (native_step (X := X) (R := R) libs w a request start item g).
Proof using. unfold native_step, native_text. stay. Qed.
Lemma native_step_level {X} a request start item g : moves level (native_step (X := X) (R := R) libs w a request start item g).
Proof using w_steady. unfold native_step, native_text. carry. Qed.
Hint Resolve native_step_stays : stays.
Hint Resolve native_step_level : moves.

Lemma native_loop_stays {X} a request start reads g : stays (native_loop (X := X) (R := R) libs settings w a request start reads g).
Proof using. revert g. induction reads; intros g; cbn [native_loop]; stay. Qed.
Lemma native_loop_level {X} a request start reads g : moves level (native_loop (X := X) (R := R) libs settings w a request start reads g).
Proof using w_steady. revert g. induction reads; intros g; cbn [native_loop]; carry. Qed.
Hint Resolve native_loop_stays : stays.
Hint Resolve native_loop_level : moves.

Lemma wants_recovery_stays {X} p : stays (wants_recovery (X := X) (D := D) (R := R) p).
Proof using. unfold wants_recovery. stay. Qed.
Lemma wants_recovery_level {X} p : moves level (wants_recovery (X := X) (D := D) (R := R) p).
Proof using. unfold wants_recovery. carry. Qed.
Hint Resolve wants_recovery_stays : stays.
Hint Resolve wants_recovery_level : moves.

(** *** A turn gives back what it took *)
Lemma native_accounted {X} ctx a model payload start s :
  free s →
  post (forward_native_response_create (X := X) libs settings w ctx a model payload start) (λ _ s', free s') freed s.
Proof using base_ok w_steady.
  intros Hs. unfold forward_native_response_create. free_step. apply post_if; intros _; [done|].
  apply post_bind, (ws_post_reserve w base base_ok false true); [done|]. intros [r|e] s2 H2; [|by apply refused_accounted].
  level_step. level_step. level_step. level_step. level_step.
  match goal with |- post (match ?x with _ => _ end) _ _ _ => destruct x as [error|] end.
  - level_step. by apply fail_turn_accounted.
  - level_step. level_step. level_step.
    match goal with |- post (match ?x with _ => _ end) _ _ _ => destruct x as [[status retry] g] end.
    by apply finish_reading_accounted.
Qed.

(** *** The bridge *)
Lemma bridge_event_stays {X} a payload start event b : stays (bridge_event (X := X) (R := R) libs w a payload start event b).
Proof using. unfold bridge_event. stay. Qed.
Lemma bridge_event_level {X} a payload start event b : moves level (bridge_event (X := X) (R := R) libs w a payload start event b).
Proof using w_steady. unfold bridge_event. carry. Qed.
Hint Resolve bridge_event_stays : stays.
Hint Resolve bridge_event_level : moves.
Lemma bridge_events_stays {X} a payload start events b : stays (bridge_events (X := X) (R := R) libs w a payload start events b).
Proof using. revert b. induction events; intros b; cbn [bridge_events]; stay. Qed.
Lemma bridge_events_level {X} a payload start events b : moves level (bridge_events (X := X) (R := R) libs w a payload start events b).
Proof using w_steady. revert b. induction events; intros b; cbn [bridge_events]; carry. Qed.
Hint Resolve bridge_events_stays : stays.
Hint Resolve bridge_events_level : moves.
Lemma bridge_step_stays {X} a sse st payload start item b :
  stays (bridge_step (X := X) (R := R) libs w a sse st payload start item b).
Proof using. unfold bridge_step. stay. Qed.
Lemma bridge_step_level {X} a sse st payload start item b :
  moves level (bridge_step (X := X) (R := R) libs w a sse st payload start item b).
Proof using w_steady. unfold bridge_step. carry. Qed.
Hint Resolve bridge_step_stays : stays.
Hint Resolve bridge_step_level : moves.
Lemma bridge_loop_stays {X} a sse st payload start reads b :
  stays (bridge_loop (X := X) (R := R) libs settings w a sse st payload start reads b).
Proof using. revert b. induction reads; intros b; cbn [bridge_loop]; stay. Qed.
Lemma bridge_loop_level {X} a sse st payload start reads b :
  moves level (bridge_loop (X := X) (R := R) libs settings w a sse st payload start reads b).
Proof using w_steady. revert b. induction reads; intros b; cbn [bridge_loop]; carry. Qed.
Hint Resolve bridge_loop_stays : stays.
Hint Resolve bridge_loop_level : moves.
Lemma dispatch_stays {X} a uri headers body t : stays (dispatch (X := X) (R := R) libs w a uri headers body t).
Proof using. unfold dispatch. stay. Qed.
Lemma dispatch_level {X} a uri headers body t : moves level (dispatch (X := X) (R := R) libs w a uri headers body t).
Proof using w_steady. unfold dispatch. carry. Qed.
Hint Resolve dispatch_stays : stays.
Hint Resolve dispatch_level : moves.

(** A body that returns or panics has given its slots back. *)
Notation ends := (λ (e : option ForwardResult) s, free s).

Lemma bridge_local_accounted {A} ctx a model start r st kind message s (Q : A → WsState D R → Prop) :
  holding r s → post (bridge_local_failure libs w ctx a model start r st kind message) Q ends s.
Proof using base_ok w_steady.
  intros Hs. unfold bridge_local_failure, bridge_failure. level_step. apply post_bind.
  eapply post_weaken; [by apply fail_turn_accounted| |done]. by intros.
Qed.

Lemma bridge_auth_accounted ctx a model start r s :
  holding r s → post (bridge_auth libs w ctx a model start r) (λ _ s', holding r s') ends s.
Proof using base_ok w_steady.
  intros Hs. unfold bridge_auth, bridge_failure. apply post_if; intros _; [|done]. level_step. level_step.
  match goal with |- post (match ?x with _ => _ end) _ _ _ => destruct x as [auth|e] end; [done|]. level_step. apply post_bind.
  eapply post_weaken; [by apply fail_turn_accounted| |done]. by intros.
Qed.

Lemma bridge_headers_accounted ctx a model start r auth body s :
  holding r s → post (bridge_made_headers libs w ctx a model start r auth body) (λ _ s', holding r s') ends s.
Proof using base_ok w_steady.
  intros Hs. unfold bridge_made_headers. destruct (bridge_headers _ _ _ _ _); [done|by apply bridge_local_accounted].
Qed.

Lemma bridge_current_accounted r otherwise s :
  holding r s → post (still_current w r otherwise) (λ _ s', holding r s') ends s.
Proof using base_ok.
  intros Hs. eapply post_weaken; [by apply ws_still_current_accounted|done|]. by intros ? ? [].
Qed.

Lemma bridge_replay_accounted ctx a model start r uri body response s :
  holding r s → post (bridge_replay libs settings w ctx a model start r uri body response) (λ _ s', holding r s') ends s.
Proof using base_ok w_steady.
  intros Hs. unfold bridge_replay. apply post_if; intros _; [done|]. level_step. apply post_if; intros _; [done|].
  level_step. level_step. match goal with |- post (match ?x with _ => _ end) _ _ _ => destruct x as [refreshed|e] end; [|done].
  apply post_bind. eapply post_weaken; [by apply bridge_headers_accounted| |done]. intros headers s4 Hs4.
  apply post_bind. eapply post_weaken; [by apply bridge_current_accounted| |done]. intros ? s5 Hs5. level_step. apply post_if; intros _.
  { apply post_bind, (ws_post_settle_neutral w base base_ok r); [done|]. by intros. }
  apply post_bind. eapply post_weaken; [by apply bridge_current_accounted| |done]. intros ? s6 Hs6.
  level_step. level_step. level_step. destruct (target_of a) as [[p e] k]. level_step. level_step. level_step. done.
Qed.

Lemma bridge_answer_accounted ctx a model start payload r response s :
  holding r s → post (bridge_answer libs settings w ctx a model start payload r response) (λ _ s', free s') ends s.
Proof using base_ok w_steady.
  intros Hs. unfold bridge_answer. do 5 level_step. by apply finish_reading_accounted.
Qed.

Lemma bridge_reserved_accounted ctx a model start payload body r s :
  holding r s → post (bridge_with_reservation libs settings w ctx a model start payload body r) (λ _ s', free s') ends s.
Proof using base_ok w_steady.
  intros Hs. unfold bridge_with_reservation. destruct (build_upstream_uri _ _ _ _ _) as [uri|message].
  2: by apply bridge_local_accounted.
  apply post_bind. eapply post_weaken; [by apply bridge_auth_accounted| |done]. intros auth s1 Hs1.
  apply post_bind. eapply post_weaken; [by apply bridge_headers_accounted| |done]. intros headers s2 Hs2.
  apply post_bind. eapply post_weaken; [by apply bridge_current_accounted| |done]. intros ? s3 Hs3.
  level_step. level_step. level_step.
  apply post_bind. eapply post_weaken; [by apply bridge_replay_accounted| |done]. intros [response replayed] s7 Hs7. level_step.
  destruct response as [response|error]; [by apply bridge_answer_accounted|].
  destruct (dispatch_error_to_http _ _) as [[status kind] message]. by apply bridge_local_accounted.
Qed.

Lemma invalid_payload_accounted {X} ctx a model start message s :
  free s → post (invalid_payload (X := X) libs w ctx a model start message) (λ _ s', free s') freed s.
Proof using base_ok w_steady.
  intros Hs. unfold invalid_payload. free_step. apply post_bind. eapply post_weaken; [by apply record_turn_accounted| |done].
  intros ? s2 Hs2. free_step. done.
Qed.

Lemma bridge_accounted {X} ctx a model start payload s :
  free s →
  post (forward_http_bridge_response_create (X := X) libs settings w ctx a model start payload) (λ _ s', free s') freed s.
Proof using base_ok w_steady.
  intros Hs. unfold forward_http_bridge_response_create. apply post_call.
  apply (post_weaken _ (λ _ s', free s') _ ends); [|done|by intros [r|]].
  destruct (bridge_payload _ _) as [body|]; [|by apply invalid_payload_accounted].
  free_step. apply post_if; intros _; [done|].
  apply post_bind, (ws_post_reserve w base base_ok true true); [done|]. intros [r|e] s2 H2; [|by apply refused_accounted].
  by apply bridge_reserved_accounted.
Qed.

(** *** The turn *)
Lemma forward_loop_accounted {X} fuel ctx active start payload s :
  free s → post (forward_loop (X := X) libs settings w fuel ctx active start payload) (λ _ s', free s') freed s.
Proof using base_ok w_steady.
  revert payload s. induction fuel as [|fuel IH]; intros payload s Hs; cbn [forward_loop]; apply post_bind;
    (eapply post_weaken;
       [destruct (au_transport active); [by apply native_accounted|by apply bridge_accounted]| |done]); cbn beta;
    intros result s1 Hs1; destruct result; try done.
  free_step. by apply IH.
Qed.

Lemma forward_accounted {X} ctx active payload s :
  free s → post (forward_response_create (X := X) libs settings w ctx active payload) (λ _ s', free s') freed s.
Proof using base_ok w_steady.
  intros Hs. unfold forward_response_create. free_step. free_step. free_step.
  apply post_bind, (post_moves level free); [apply free_level|stay| |done|].
  { apply moves_state. intros ? ?. by destruct (filter_known _ _ _ _ _ _ _) as [[? ?] ?]. }
  intros filtered ? _ ?. by apply forward_loop_accounted.
Qed.
End TurnAccounts.

#[export] Hint Resolve send_downstream_stays send_ws_error_stays dispatch_stays bridge_loop_stays native_loop_stays send_turn_event_stays : stays.
#[export] Hint Resolve send_downstream_level send_ws_error_level : moves.

(** ** A client that left *)
Section Departed.
Context {D R : Type} `{FastRand R} `{Decimal D}.
Context {EntryOrder : HashOrder AffinityKey AffinityEntry} {AvoidOrder : HashOrder AffinityKey AvoidEntry}.
Context {SessionOrder : HashOrder string Session}.
Context (libs : WsLibraries) (settings : WsSettings) (w : World D).

(** A step that blames nobody and leaves the quotas alone. *)
Definition blameless (s s' : WsState D R) : Prop :=
  unblamed (ws_shared s) (ws_shared s') ∧ ss_quota (ws_shared s') = ss_quota (ws_shared s).
#[export] Instance blameless_preorder : PreOrder blameless.
Proof.
  split; [by split|]. intros s1 s2 s3 [A1 A2] [B1 B2]. split; [by etransitivity|by rewrite B2].
Qed.

Lemma same_shared s s' : ws_shared s' = ws_shared s → blameless s s'.
Proof using. intros Hs. unfold blameless. by rewrite Hs. Qed.

Lemma shared_blameless {A E} (m : comp (WsState D R) E A) : keeps ws_shared m → moves blameless m.
Proof using. apply moves_keeps, same_shared. Qed.

Hint Extern 1 (moves blameless (ask _)) => apply shared_blameless; solve [auto with keeps] : moves.
Hint Extern 1 (moves blameless (turn_is _)) => apply shared_blameless; solve [auto with keeps] : moves.
Hint Extern 1 (moves blameless (update_turn _)) => apply shared_blameless; solve [auto with keeps] : moves.

Lemma neutral_quota s r now : ss_quota (neutral s r now) = ss_quota s.
Proof using. unfold neutral. by destruct (rv_endpoint r), (rv_key r), (rv_provider r), (rv_capacity r). Qed.
Lemma drop_reservation_quota s r now : ss_quota (drop_reservation s r now) = ss_quota s.
Proof using. unfold drop_reservation. by destruct (rv_endpoint r), (rv_key r), (rv_provider r), (rv_capacity r). Qed.

Lemma turn_affinity_same i (a : ResolvedUpstream D) scope now s :
  turn_affinity i a scope now s = set_ss_affinity (ss_affinity (turn_affinity i a scope now s)) s.
Proof using.
  unfold turn_affinity. destruct i as [i|]; [|by destruct s]. case_bool_decide.
  - destruct (Affinity.lookup _ _ _) as [[b|] book].
    + destruct (_ =? _); [by destruct (ab_confirmed b)|done].
    + destruct (claim _ _ _ _) as [b book']. by destruct (_ =? _).
  - destruct (should_avoid_affinity_immediately scope); by destruct s.
Qed.

(** The session is told all the same: a reading that the grace of the departed client ended
    before the deadline of the upstream makes the session avoid the provider. *)
Lemma departed_timeout_scope observation gone_ms outcome :
  to_status outcome = timed_out.1.1 →
  let recorded := recorded_outcome outcome observation (Some gone_ms) in
  should_avoid_affinity_immediately (classify_failure_scope (Some (to_status recorded)) (to_origin recorded)) = true.
Proof using.
  intros Hs. unfold recorded_outcome. destruct (match ob_usage observation with Some _ => _ | None => _ end) as [usage observed].
  cbn. by rewrite Hs.
Qed.

(** A client that left puts no blame on the upstream of its turn: however the turn ended,
    when it is recorded no circuit of an endpoint or account changes, no failure is counted
    against a provider and none enters the error timeline, and no quota learns of it. *)
Theorem departed_turn_blames_nobody {X} ctx a model t outcome r (s : WsState D R) :
  is_some (ws_gone s) = true →
  let s' := (record_turn (X := X) libs w ctx a model t outcome (Some r) s).2 in
  unblamed (ws_shared s) (ws_shared s') ∧ ss_quota (ws_shared s') = ss_quota (ws_shared s).
Proof using.
  intros Hg. change (blameless s (record_turn (X := X) libs w ctx a model t outcome (Some r) s).2).
  unfold record_turn. unfold bind at 1, turn_is at 1, gets at 1. cbn beta iota. unfold bind at 1, gets at 1.
  cbn beta iota. destruct (ws_gone s) as [at_|]; [|done]. cbn [is_some].
  match goal with |- blameless s (?m s).2 => assert (moves blameless m) as Hm; [|exact (Hm s)] end.
  assert (∀ f : SharedState → SharedState, (∀ s, unblamed s (f s) ∧ ss_quota (f s) = ss_quota s) →
    ∀ E, moves blameless (update_shared (D := D) (R := R) (E := E) f)) as Hupdate.
  { intros f Hf E s1. apply (Hf (ws_shared s1)). }
  unfold priced, settle_turn, settle_neutral, finish_ws_trace, since, panic. carry; apply Hupdate; intros s1.
  - split; [apply drop_reservation_unblamed|apply drop_reservation_quota].
  - split; [apply neutral_unblamed|apply neutral_quota].
  - rewrite turn_affinity_same. by split.
Qed.
End Departed.
