(* ===== verification/WsRelay.v ===== *)
(** * WsRelay: what a turn shows the client

    The view of [WsTurn] from the client's side. A turn only appends to what the client was
    sent; a turn that is tried again, at another provider or without the rejected encrypted
    content, has sent nothing; a turn over a native connection relays the messages of the
    upstream unchanged and in order up to the final event; the retry without encrypted
    content happens once, so the fuel of [forward_loop] is enough. *)
From Stdlib Require Import Ascii String.
From S2P Require Import Prelude Text Json ProbeProtocol Resilience Types RuntimeHealth ProviderRuntime Quota KeyRotation Selector Affinity ResponseEvents Recovery Caches Pricing Snapshot RoutingAvailability Routing Plan Reservation Slots OpenAi Headers RequestOverrides UpstreamUrl CodexRequests Relay Tap Prepare AttemptLoop WsParts WsConnect WsTurn Computation.

Local Open Scope string_scope.
Local Open Scope list_scope.
Local Open Scope Z_scope.
Local Open Scope loop_scope.

(** ** Steps the client does not see *)
Section Silence.
Context {D R : Type}.
Implicit Types s : WsState D R.

(** How often the turn was retried without its encrypted content. *)
Definition retries s : Z := tr_retries (Recovery.rr_trace (tn_recovery (ws_turn s))).

(** The session outside the turn, and the providers the turn has asked. *)
Definition around s := (outside s, tn_providers (ws_turn s)).

(** What the session is outside the turn stays, a departed client stays away, and a retry
    that was used is not given back. *)
Record behaves s s' : Prop := {
  bh_around : around s' = around s;
  bh_gone : is_some (ws_gone s) = true → ws_gone s' = ws_gone s;
  bh_retry : retries s <= retries s';
  bh_tick : (ws_tick s <= ws_tick s')%nat
}.
#[export] Instance behaves_preorder : PreOrder behaves.
Proof.
  split; [by split|]. intros s1 s2 s3 [A1 A2 A3 A4] [B1 B2 B3 B4].
  split; [by rewrite B1 A1| |lia..]. intros H. rewrite B2; [by apply A2|by rewrite A2].
Qed.

Definition silent s s' : Prop := behaves s s' ∧ ws_out s' = ws_out s.
#[export] Instance silent_preorder : PreOrder silent.
Proof.
  split; [by split|]. intros s1 s2 s3 [A1 A2] [B1 B2]. split; [by etransitivity|by rewrite B2 A2].
Qed.

(** A step that may send something. *)
Definition serves s s' : Prop := behaves s s' ∧ ws_out s `prefix_of` ws_out s'.
#[export] Instance serves_preorder : PreOrder serves.
Proof. split; [by split|]. intros s1 s2 s3 [A1 A2] [B1 B2]. split; by etransitivity. Qed.

Lemma silent_serves s s' : silent s s' → serves s s'.
Proof. intros [A B]. split; [done|by rewrite B]. Qed.

(** What a silent step may not touch. *)
Definition told s := (around s, ws_gone s, ws_out s, (tn_recovery (ws_turn s), ws_tick s)).

Lemma told_silent s s' : told s' = told s → silent s s'.
Proof.
  intros [= E1 E2 E3 E4 E5 E6 E7 E8 E9]. split; [split|done].
  - unfold around, outside. congruence.
  - by intros _.
  - unfold retries. by rewrite E8.
  - by rewrite E9.
Qed.

Context {E : Type}.
Notation M := (comp (WsState D R) E).

Lemma silent_told {A} (m : M A) : keeps told m → moves silent m.
Proof. apply moves_keeps, told_silent. Qed.

Lemma serves_silent {A} (m : M A) : moves silent m → moves serves m.
Proof. intros H s. apply silent_serves, H. Qed.

Lemma ask_silent {A} (f : nat → A) : moves (E := E) silent (ask f).
Proof. intros s. split; [split|done]; [done..|]. cbn. lia. Qed.

Lemma wait_silent w : moves (E := E) silent (wait w).
Proof.
  intros s. split; [split|done]; [done| |done|]; unfold wait, modify; cbn; [|lia]. intros Hg. by destruct (ws_gone s).
Qed.

Lemma set_gone_silent t s : is_some (ws_gone s) = false ∨ t = ws_gone s → silent s (set_ws_gone t s).
Proof. intros [Hg| ->]; (split; [split|done]; [done| |done..]); cbn; [by rewrite Hg|done]. Qed.
End Silence.

#[export] Hint Extern 1 (moves silent (turn_is _)) => apply silent_told; solve [auto with keeps] : moves.
#[export] Hint Extern 1 (moves silent (write _)) => apply silent_told; solve [auto with keeps] : moves.
#[export] Hint Extern 1 (moves silent (note_account _ _)) => apply silent_told; solve [auto with keeps] : moves.
#[export] Hint Extern 1 (moves silent (update_shared _)) => apply silent_told; solve [auto with keeps] : moves.
#[export] Hint Extern 1 (moves silent (on_shared _)) => apply silent_told; solve [auto with keeps] : moves.
#[export] Hint Extern 1 (moves silent (update_turn _)) => apply silent_told; solve [auto with keeps] : moves.
#[export] Hint Extern 2 (moves silent (modify _)) => apply silent_told; solve [auto with keeps] : moves.
#[export] Hint Resolve ask_silent wait_silent : moves.
#[export] Hint Extern 5 (moves serves _) => apply serves_silent; solve [auto with moves] : moves.

Section TurnRelay.
Context {D R : Type} `{FastRand R} `{Decimal D}.
Context {EntryOrder : HashOrder AffinityKey AffinityEntry} {AvoidOrder : HashOrder AffinityKey AvoidEntry}.
Context {SessionOrder : HashOrder string Session}.
Context (libs : WsLibraries) (settings : WsSettings) (w : World D).
Implicit Types a : ResolvedUpstream D.
Notation S_ := (WsState D R).

(** *** Pieces the client does not see *)
Lemma budget_silent {X} : moves silent (budget_available (X := X) (D := D) (R := R) w).
Proof using. unfold budget_available. carry. Qed.
Lemma provider_budget_silent {X} a : moves silent (provider_budget_available (X := X) (R := R) a).
Proof using. unfold provider_budget_available. carry. Qed.
Lemma since_silent {X} t : moves silent (since (X := X) (D := D) (R := R) w t).
Proof using. unfold since. carry. Qed.
Lemma time_left_silent {X} a : moves silent (time_left (X := X) (R := R) settings w a).
Proof using. unfold time_left. carry. Qed.
Lemma begin_silent {X} a turn : moves silent (begin_ws_attempt (X := X) (R := R) w a turn).
Proof using. unfold begin_ws_attempt. carry. Qed.
Lemma note_send_silent {X} a : moves silent (note_ws_send (X := X) (R := R) a).
Proof using. unfold note_ws_send. carry. Qed.
Lemma finish_trace_silent {X} st e : moves silent (finish_ws_trace (X := X) (D := D) (R := R) st e).
Proof using. unfold finish_ws_trace. carry. Qed.
Lemma settle_neutral_silent {X} r : moves silent (settle_neutral (X := X) (D := D) (R := R) w r).
Proof using. unfold settle_neutral. carry. Qed.
Lemma settle_silent {X} r o : moves silent (settle (X := X) (D := D) (R := R) w r o).
Proof using. unfold settle. carry. Qed.
Lemma reserve_silent {X} f : moves silent (reserve (X := X) (D := D) (R := R) w f).
Proof using. unfold reserve. carry. Qed.
Hint Resolve budget_silent provider_budget_silent since_silent time_left_silent begin_silent note_send_silent
  finish_trace_silent settle_neutral_silent settle_silent reserve_silent : moves.
Lemma still_current_silent {X} r (o : X) : moves silent (still_current (D := D) (R := R) w r o).
Proof using. unfold still_current, return_. carry. Qed.
Lemma wants_recovery_silent {X} p : moves silent (wants_recovery (X := X) (D := D) (R := R) p).
Proof using. unfold wants_recovery. carry. Qed.
Lemma priced_silent {X} r o a : moves silent (priced (X := X) (R := R) w r o a).
Proof using. unfold priced, panic. carry. Qed.
Lemma settle_turn_silent {X} r gone o : moves silent (settle_turn (X := X) (D := D) (R := R) w r gone o).
Proof using. unfold settle_turn. carry. Qed.
Hint Resolve still_current_silent wants_recovery_silent priced_silent settle_turn_silent : moves.
Lemma record_turn_silent {X} ctx a model t o r : moves silent (record_turn (X := X) (R := R) libs w ctx a model t o r).
Proof using. unfold record_turn. carry. Qed.
Hint Resolve record_turn_silent : moves.
Lemma fail_turn_silent {X} ctx a model t o r k m sc : moves silent (fail_turn (X := X) (R := R) libs w ctx a model t o r k m sc).
Proof using. unfold fail_turn. carry. Qed.
Lemma finish_forwarded_silent {X} ctx a model t o e r :
  moves silent (finish_forwarded_turn (X := X) (R := R) libs settings w ctx a model t o e r).
Proof using. unfold finish_forwarded_turn. carry. Qed.
Hint Resolve fail_turn_silent finish_forwarded_silent : moves.
Lemma finish_reading_silent {X} ctx a model t start ts st retry g r :
  moves silent (finish_reading (X := X) (R := R) libs settings w ctx a model t start ts st retry g r).
Proof using. unfold finish_reading. carry. Qed.
Lemma refused_silent {X} ctx a model t start e m : moves silent (refused (X := X) (R := R) libs w ctx a model t start e m).
Proof using. unfold refused. carry. Qed.
Lemma observe_account_silent {X} a st b : moves silent (observe_codex_account_error (X := X) (R := R) libs w a st b).
Proof using. unfold observe_codex_account_error. carry. Qed.
Lemma note_event_silent {X} event g start : moves silent (note_event (X := X) (D := D) (R := R) w event g start).
Proof using. unfold note_event. carry. Qed.
Lemma note_byte_silent {X} g start : moves silent (note_byte (X := X) (D := D) (R := R) w g start).
Proof using. unfold note_byte. carry. Qed.
Lemma dispatch_silent {X} a uri headers body t : moves silent (dispatch (X := X) (R := R) libs w a uri headers body t).
Proof using. unfold dispatch. carry. Qed.
Hint Resolve finish_reading_silent refused_silent observe_account_silent note_event_silent note_byte_silent dispatch_silent : moves.

Lemma read_silent {T X} a e (rd : Read T) : moves silent (read_with_disconnect_grace (X := X) (R := R) settings w a e rd).
Proof using.
  unfold read_with_disconnect_grace. do 2 (apply moves_bind; [typeclasses eauto|carry|intros ?]). intros s.
  unfold bind, gets, modify, ret. cbn. apply set_gone_silent. unfold gone_while_reading. destruct (ws_gone s); by [right|left].
Qed.
Hint Resolve read_silent : moves.

(** *** The retry without encrypted content *)
Lemma record_failure_trace r b body now :
  Recovery.rr_trace (Recovery.record_failure (wl_set_order libs) (sha256 (wl_libs libs)) (parse (wl_libs libs)) r b body now).1
  = Recovery.rr_trace r.
Proof using. unfold Recovery.record_failure. by destruct (Recovery.rr_enabled r). Qed.

Lemma prepare_retry_once r body ws :
  let '(cleaned, r') := prepare_retry (sha256 (wl_libs libs)) (parse (wl_libs libs)) (to_vec (wl_libs libs)) r body ws in
  match cleaned with
  | Some _ => tr_retries (Recovery.rr_trace r) = 0 ∧ tr_retries (Recovery.rr_trace r') = 1
  | None => r' = r
  end.
Proof using.
  unfold prepare_retry. destruct (can_retry r) eqn:Hc; cbn; [|done].
  destruct (sanitize _ _ _ _ _ _) as [[b n]|]; [|done]. apply andb_prop in Hc as [_ Hc]. apply Z.eqb_eq in Hc. cbn. lia.
Qed.

(** Where a computation may panic, nothing is claimed of the panic. *)
Notation anything := (λ _ _, True).
Lemma post_along {A E} (P : S_ → S_ → Prop) (m : comp S_ E A) (Q : A → S_ → Prop) s :
  moves P m → (∀ x s', P s s' → Q x s') → post m Q anything s.
Proof using. intros Hm HQ. unfold post. specialize (Hm s). destruct (m s) as [[x|e] s']; [by apply HQ|done]. Qed.

(** A cleaned payload is the first of the turn, and is made before the client saw anything. *)
Definition first_retry {A} (e : bool) (s : S_) (retry : option A) (s' : S_) : Prop :=
  is_some retry = true → e = false ∧ retries s <= 0 ∧ retries s' = 1.

Lemma prepare_recovery_spec {X} a event payload e s :
  post (prepare_encrypted_recovery (X := X) libs w a event payload e) (λ retry s', silent s s' ∧ first_retry e s retry s')
    anything s.
Proof using.
  unfold prepare_encrypted_recovery. apply post_bind. unfold post at 1, gets. apply post_if; intros _; [done|].
  apply post_bind, (post_along silent); [carry|intros now s1 H1].
  apply post_bind. unfold post at 1, modify.
  pose proof (λ b p, record_failure_trace (tn_recovery (ws_turn s1)) b p now) as Hf.
  specialize (Hf (bk_recovery (ws_books s1)) payload).
  destruct (Recovery.record_failure _ _ _ _ _ _ _) as [recovery book]. cbn [fst] in Hf.
  match goal with |- context [post _ _ _ ?x] => set (s2 := x) end.
  assert (silent s s2) as H2.
  { etransitivity; [exact H1|]. split; [split|done]; [done|done| |done]. unfold retries. cbn. by rewrite Hf. }
  clearbody s2. apply post_bind. unfold post at 1, gets. apply post_if; intros He; [done|].
  apply orb_false_iff in He as [-> _].
  apply post_bind, (post_along silent); [carry|intros available s3 H3].
  apply post_bind, (post_along silent); [carry|intros may s4 H4]. apply post_if; intros _.
  { split; [by do 2 (etransitivity; [eassumption|])|done]. }
  assert (silent s s4) as H04 by (do 2 (etransitivity; [eassumption|]); done).
  unfold post, state. pose proof (prepare_retry_once (tn_recovery (ws_turn s4)) payload true) as Hp.
  destruct (prepare_retry _ _ _ _ _ _) as [[cleaned|] r]; cbn in Hp.
  - destruct Hp as [Hz Ho]. split.
    + etransitivity; [exact H04|]. split; [split|done]; [done|done| |done]. unfold retries. cbn. lia.
    + intros _. split; [done|]. split; [|exact Ho]. destruct H04 as [[_ _ Hr _] _]. unfold retries in *. lia.
  - subst r. split; [|done]. etransitivity; [exact H04|by apply told_silent].
Qed.

(** ** What a turn sends *)

(** The messages of an upstream that the client is to see, up to the final event. *)
Definition is_final (text : string) : bool := is_some_and (parse (wl_libs libs) text) is_terminal_response_event.

Fixpoint turn_messages (reads : list (Read Message)) : list Message :=
  match reads with
  | [] => []
  | rd :: reads =>
      match rd_arrival rd with
      | Some (_, Got (MText text)) => MText text :: (if is_final text then [] else turn_messages reads)
      | Some (_, Got (MBinary bytes)) => MBinary bytes :: turn_messages reads
      | Some (_, Got (MPing _)) | Some (_, Got (MPong _)) | Some (_, Got MFrame) => turn_messages reads
      | _ => []
      end
  end.

(** Of the messages [sent] since [s0] a client that left has a beginning, another all. *)
Record so_far (s0 : S_) (sent : list Message) (g : Reading) (s : S_) : Prop := {
  sf_behaves : behaves s0 s;
  sf_out : ∃ l, ws_out s = ws_out s0 ++ l ∧ l `prefix_of` sent ∧ (ws_gone s = None → l = sent);
  sf_emitted : rg_emitted g = false → sent = []
}.

Lemma so_far_silent s0 sent g s s' : so_far s0 sent g s → silent s s' → so_far s0 sent g s'.
Proof using.
  intros [Hb (l & Hl & Hp & Hg) He] [Hb' Ho]. split; [by etransitivity| |done]. exists l. rewrite Ho. split_and!; [done..|].
  intros Hn. apply Hg. destruct (ws_gone s) eqn:E; [|done]. pose proof (bh_gone _ _ Hb') as Hk. rewrite E in Hk. by rewrite Hk in Hn.
Qed.

Lemma so_far_reading s0 sent g g' s : so_far s0 sent g s → rg_emitted g' = rg_emitted g → so_far s0 sent g' s.
Proof using. intros [Hb Ho He] Hg. split; [done..|]. by rewrite Hg. Qed.

Lemma so_far_quiet s0 sent g s : so_far s0 sent g s → rg_emitted g = false → silent s0 s.
Proof using.
  intros [Hb (l & Hl & Hp & _) He] Hg. split; [done|]. rewrite He in Hp; [|done]. apply prefix_nil_inv in Hp as ->. by rewrite Hl app_nil_r.
Qed.

Lemma so_far_serves s0 sent g s : so_far s0 sent g s → serves s0 s.
Proof using. intros [Hb (l & Hl & _) _]. split; [done|]. by exists l. Qed.

Lemma forward_event_sends {X} m g sent s0 s :
  so_far s0 sent g s →
  post (forward_event (X := X) w m g) (λ g' s', so_far s0 (sent ++ [m]) g' s' ∧ rg_emitted g' = true) anything s.
Proof using.
  intros Hs. unfold forward_event. apply post_bind.
  assert (∀ s', behaves s s' → (∃ l, ws_out s' = ws_out s0 ++ l ∧ l `prefix_of` sent ++ [m] ∧ (ws_gone s' = None → l = sent ++ [m])) →
    post (E := option X) (ret (emitted g)) (λ g' s', so_far s0 (sent ++ [m]) g' s' ∧ rg_emitted g' = true) anything s') as Hend.
  { intros s' Hb Ho. split; [|done]. split; [|done|done]. etransitivity; [apply Hs|done]. }
  destruct (sf_out _ _ _ _ Hs) as (l & Hl & Hp & Hg).
  unfold send_turn_event. apply post_bind. unfold post at 1, gets. apply post_if; intros Hgone.
  { apply Hend; [done|]. exists l. split_and!; [done|by apply prefix_app_r|]. intros Hn. by rewrite Hn in Hgone. }
  assert (ws_gone s = None) as Hn by (by destruct (ws_gone s)). specialize (Hg Hn). subst l.
  unfold send_downstream. apply post_bind. apply post_bind, (post_along silent); [carry|intros ? s1 H1].
  apply post_bind, (post_along silent); [carry|intros accepted s2 H2].
  assert (silent s s2) as [H02 Ho] by (by etransitivity).
  apply post_if; intros _.
  - apply post_bind. unfold post at 1, modify. apply Hend.
    + etransitivity; [exact H02|]. by split.
    + exists (sent ++ [m]). cbn. rewrite Ho Hl -app_assoc. done.
  - apply post_bind, (post_along silent); [carry|intros now s3 [H3 Ho3]]. unfold post at 1, modify. apply Hend.
    + split; [|by rewrite Hn| |].
      * cbn. etransitivity; [apply H3|apply H02].
      * unfold retries in *. cbn. etransitivity; [apply H02|apply H3].
      * cbn. etransitivity; [apply H02|apply H3].
    + exists sent. cbn. split_and!; [by rewrite Ho3 Ho|by apply prefix_app_r|done].
Qed.

(** *** Reading a native connection *)
Definition item_messages (item : option (Arrival Message)) : list Message :=
  match item with Some (Got (MText text)) => [MText text] | Some (Got (MBinary bytes)) => [MBinary bytes] | _ => [] end.

(** The last message is a final event. *)
Definition ends_final (l : list Message) : bool :=
  is_some_and (last l) (λ m, match m with MText text => is_final text | _ => false end).

Definition goes_on (item : option (Arrival Message)) : bool :=
  match item with
  | Some (Got (MText text)) => negb (is_final text)
  | Some (Got (MClose _)) => false
  | Some (Got _) => true
  | _ => false
  end.

Definition ends_well (status : Status) : Prop :=
  classify_failure_scope (Some status.1.1) UpstreamEvent = ScopeSuccess.

(** How a reading ended: with which messages sent, and whether there is a retry. *)
Record ended_with (s0 : S_) (all : list Message) (final : bool) (status : Status) (retry : option string) (g : Reading) (s : S_)
    : Prop := {
  ew_sent : ∃ sent, so_far s0 sent g s ∧ sent `prefix_of` all ∧ (ends_well status → retry = None → sent = all ∧ final = true);
  ew_retry : first_retry (rg_emitted g) s0 retry s
}.

Lemma note_byte_reading {X} g start (s : S_) :
  post (note_byte (X := X) w g start) (λ g' s', silent s s' ∧ rg_emitted g' = rg_emitted g) anything s.
Proof using.
  unfold note_byte. destruct (rg_first_byte_ms g); [done|]. apply post_bind, (post_along silent); [carry|by intros].
Qed.

Lemma note_event_reading {X} event g start (s : S_) :
  post (note_event (X := X) w event g start) (λ g' s', silent s s' ∧ rg_emitted g' = rg_emitted g) anything s.
Proof using.
  unfold note_event. apply post_bind, (post_along silent); [carry|intros ? s1 H1]. apply post_if; intros _; [|done].
  apply post_bind, (post_along silent); [carry|intros ms s2 H2]. split; [by etransitivity|done].
Qed.

Lemma retryable_not_well event e : should_retry_terminal_before_event event e = true → ¬ ends_well (terminal_status event).
Proof using.
  unfold should_retry_terminal_before_event, ends_well. destruct (_ || _ || _); [done|].
  destruct (terminal_status event) as [[code kind] message]. cbn. intros Hr Hw. by rewrite Hw in Hr.
Qed.

Lemma first_retry_after {A} e s0 s (retry : option A) s' : behaves s0 s → first_retry e s retry s' → first_retry e s0 retry s'.
Proof using. intros [_ _ Hr _] Hf H1. destruct (Hf H1) as (-> & Hz & Ho). split_and!; [done|lia|done]. Qed.

Notation step_ends s0 sent item :=
  (λ (out : option Status * option string * Reading) s', let '(ended, retry, g') := out in
     match ended with
     | None => so_far s0 (sent ++ item_messages item) g' s' ∧ retry = None ∧ goes_on item = true
     | Some status => ended_with s0 (sent ++ item_messages item) (ends_final (item_messages item)) status retry g' s'
     end).

Lemma ended_badly s0 sent all final status g s :
  so_far s0 sent g s → sent `prefix_of` all → ¬ ends_well status → ended_with s0 all final status None g s.
Proof using. intros Hs Hp Hw. split; [|done]. by exists sent. Qed.

Lemma native_text_sends {X} a request start text g sent s0 s :
  so_far s0 sent g s →
  post (native_text (X := X) libs w a request start text g) (step_ends s0 sent (Some (Got (MText text)))) anything s.
Proof using.
  intros Hs. unfold native_text. apply post_bind. eapply post_weaken; [apply note_byte_reading| |done]. intros g1 s1 [H1 E1].
  assert (so_far s0 sent g1 s1) as Hs1 by (by eapply so_far_reading; [eapply so_far_silent|]).
  destruct (parse (wl_libs libs) text) as [event|] eqn:Hparse.
  - apply post_bind. eapply post_weaken; [apply note_event_reading| |done]. intros g2 s2 [H2 E2].
    assert (so_far s0 sent g2 s2) as Hs2 by (by eapply so_far_reading; [eapply so_far_silent|]).
    apply post_if; intros Hfinal.
    + apply post_bind, (post_along silent); [carry|intros ? s3 H3].
      assert (so_far s0 sent g2 s3) as Hs3 by (by eapply so_far_silent).
      apply post_bind. eapply (post_weaken _ (λ retry s', silent s3 s' ∧ first_retry (rg_emitted g2) s3 retry s')); [| |done].
      { destruct request as [payload|]; [apply prepare_recovery_spec|done]. }
      intros retry s4 [H4 Hr]. assert (so_far s0 sent g2 s4) as Hs4 by (by eapply so_far_silent).
      apply post_bind. apply post_if; intros Hforward.
      * apply andb_prop in Hforward as [Hno _]. destruct retry; [done|].
        eapply post_weaken; [by apply forward_event_sends| |done]. intros g5 s5 [Hs5 _]. split; [|done]. eexists.
        split; [exact Hs5|]. split; [done|]. intros _ _. split; [done|]. cbn. unfold is_final. by rewrite Hparse.
      * split; [|by eapply first_retry_after; [apply Hs3|]]. exists sent.
        split; [exact Hs4|]. split; [by apply prefix_app_r|]. intros Hwell ->. cbn in Hforward. apply negb_false_iff in Hforward.
        by destruct (retryable_not_well _ _ Hforward).
    + apply post_bind. eapply post_weaken; [by apply forward_event_sends| |done]. intros g5 s5 [Hs5 _]. split_and!; [done..|].
      cbn. unfold is_final. by rewrite Hparse /= Hfinal.
  - apply post_bind. eapply post_weaken; [by apply forward_event_sends| |done]. intros g5 s5 [Hs5 _]. split_and!; [done..|].
    cbn. unfold is_final. by rewrite Hparse.
Qed.

Lemma native_step_sends {X} a request start item g sent s0 s :
  so_far s0 sent g s →
  post (native_step (X := X) libs w a request start item g) (step_ends s0 sent item) anything s.
Proof using.
  intros Hs.
  assert (so_far s0 (sent ++ []) g s) as Hs' by (by rewrite app_nil_r).
  assert (∀ status s', ¬ ends_well status → silent s s' → ended_with s0 (sent ++ []) false status None g s') as Hbad.
  { intros status s' Hw Hq. eapply ended_badly; [by eapply so_far_silent|done|done]. }
  destruct item as [[m|error|]|]; [|by apply Hbad..].
  destruct m; cbn [native_step]; [by apply native_text_sends| |..|by apply Hbad|done].
  - apply post_bind. eapply post_weaken; [exact (forward_event_sends _ _ _ _ _ Hs)| |done]. intros g1 s1 [H1 _].
    exact (conj H1 (conj eq_refl eq_refl)).
  - apply post_bind, (post_along silent); [carry|intros ? s1 H1]. apply post_bind, (post_along silent); [carry|intros ? s2 H2].
    apply post_bind, (post_along silent); [carry|intros failed s3 H3].
    assert (silent s s3) as H03 by (etransitivity; [exact H1|]; by etransitivity).
    destruct failed as [error|]; [by apply Hbad|]. split_and!; [by eapply so_far_silent|done|done].
  - done.
Qed.

Lemma read_messages rd deadline :
  item_messages (read_in_time rd deadline) `prefix_of` turn_messages [rd]
  ∧ (goes_on (read_in_time rd deadline) = true →
     ∀ reads, turn_messages (rd :: reads) = item_messages (read_in_time rd deadline) ++ turn_messages reads)
  ∧ (ends_final (item_messages (read_in_time rd deadline)) = true →
     ∀ reads, turn_messages (rd :: reads) = item_messages (read_in_time rd deadline)).
Proof using.
  unfold read_in_time. cbn [turn_messages]. destruct (rd_arrival rd) as [[arrived x]|]; [|split_and!; [apply prefix_nil|done..]].
  destruct (arrived <=? deadline).
  - destruct x as [[]| |]; cbn; split_and!; try done.
    + by destruct (is_final text).
    + by intros ->%negb_true_iff.
    + by intros ->.
  - split_and!; [apply prefix_nil|done..].
Qed.

Lemma turn_messages_one rd reads : turn_messages [rd] `prefix_of` turn_messages (rd :: reads).
Proof using.
  cbn. destruct (rd_arrival rd) as [[arrived [[text| | | | |]| |]]|]; try apply prefix_nil; try done.
  - apply prefix_cons. by destruct (is_final text); [|apply prefix_nil].
  - apply prefix_cons, prefix_nil.
Qed.

Lemma native_loop_sends {X} a request start reads g sent s0 s :
  so_far s0 sent g s →
  post (native_loop (X := X) libs settings w a request start reads g)
    (λ (out : Status * option string * Reading) s', let '(status, retry, g') := out in
       ended_with s0 (sent ++ turn_messages reads) (ends_final (sent ++ turn_messages reads)) status retry g' s') anything s.
Proof using.
  revert g sent s. induction reads as [|rd reads IH]; intros g sent s Hs; cbn [native_loop].
  { eapply ended_badly; [exact Hs|by rewrite app_nil_r|done]. }
  apply post_bind. unfold read_with_disconnect_grace.
  do 2 (apply post_bind, (post_along silent); [carry|intros ? ? ?]). apply post_bind. unfold post at 1, gets.
  apply post_bind. unfold post at 1, modify.
  match goal with |- context [read_in_time rd ?d] => set (item := read_in_time rd d); pose proof (read_messages rd d) as Hitem end.
  fold item in Hitem. destruct Hitem as (Hin & Hgo & Hfinal).
  match goal with |- post _ _ _ ?x => assert (so_far s0 sent g x) as Hs2; [|set (s2 := x) in *; clearbody s2] end.
  { eapply so_far_silent; [eapply so_far_silent; [eapply so_far_silent; [exact Hs|eassumption]|eassumption]|].
    apply set_gone_silent. unfold gone_while_reading. destruct (ws_gone _); by [right|left]. }
  unfold post at 1, ret. apply post_bind. eapply post_weaken; [by apply native_step_sends| |done].
  intros [[ended retry] g'] s3 H3. destruct ended as [status|].
  - destruct H3 as [(l & Hl & Hp & Hw) Hr]. split; [|done]. exists l. split; [done|]. split.
    + etransitivity; [exact Hp|]. apply prefix_app. etransitivity; [exact Hin|apply turn_messages_one].
    + intros Hwell Hno. destruct (Hw Hwell Hno) as [-> Hf]. rewrite (Hfinal Hf). split; [done|].
      unfold ends_final in *. rewrite last_app. by destruct (last _).
  - destruct H3 as (H3 & -> & Hon). rewrite (Hgo Hon) app_assoc. by apply IH.
Qed.

(** ** The result of a turn *)

(** The results after which the turn is tried again. *)
Definition again (result : ForwardResult) : bool :=
  match result with RetryableBeforeEvent _ | RetryEncryptedContent _ => true | _ => false end.

(** A turn that is tried again has been silent; the retry without encrypted content is the first. *)
Record served (s : S_) (result : ForwardResult) (s' : S_) : Prop := {
  sr_serves : serves s s';
  sr_silent : again result = true → silent s s';
  sr_retry : ∀ payload, result = RetryEncryptedContent payload → retries s <= 0 ∧ 1 <= retries s'
}.

Lemma silent_served s result s' : silent s s' → (∀ payload, result ≠ RetryEncryptedContent payload) → served s result s'.
Proof using. intros Hs Hr. split; [by apply silent_serves|done|]. by intros p ?%Hr. Qed.

Lemma served_after s0 s result s' : silent s0 s → served s result s' → served s0 result s'.
Proof using.
  intros Hs [A B C]. split; [by etransitivity; [apply silent_serves|]|by intros Ha; etransitivity; [|apply B]|].
  intros p Hp. destruct (C p Hp). destruct Hs as [[_ _ Hr _] _]. lia.
Qed.

Lemma finish_forwarded_spec {X} ctx a model t o e r (s : S_) :
  post (finish_forwarded_turn (X := X) libs settings w ctx a model t o e r)
    (λ result s', silent s s' ∧ (∀ payload, result ≠ RetryEncryptedContent payload) ∧ (again result = true → e = false)
       ∧ (result = Complete → ws_gone s = None ∧ classify_failure_scope (Some (to_status o)) (to_origin o) = ScopeSuccess))
    anything s.
Proof using.
  unfold finish_forwarded_turn. apply post_bind. unfold post at 1, gets.
  do 2 (apply post_bind, (post_along silent); [carry|intros ? ? ?]).
  split; [by etransitivity|]. destruct (ws_gone s); [by split_and!|]. cbn [is_some].
  destruct (negb e && _) eqn:Ee; [apply andb_prop in Ee as [Ee%negb_true_iff _]; by split_and!|].
  case_bool_decide; by split_and!.
Qed.

(** Of the messages [all] the client gets a beginning, and everything up to the final
    event when the turn is complete. *)
Definition relayed (all : list Message) (s : S_) (result : ForwardResult) (s' : S_) : Prop :=
  served s result s' ∧ (∃ l, ws_out s' = ws_out s ++ l ∧ l `prefix_of` all)
  ∧ (result = Complete → ws_out s' = ws_out s ++ all ∧ ends_final all = true).

(** What the upstream sent in a turn: the reads the world was asked for in it, if any. *)
Definition turn_reads (s s' : S_) (reads : list (Read Message)) : Prop :=
  reads = [] ∨ ∃ n, (ws_tick s <= n < ws_tick s')%nat ∧ reads = wd_reads w n.

Lemma relayed_after all s0 s result s' : silent s0 s → relayed all s result s' → relayed all s0 result s'.
Proof using.
  intros Hs (Hv & Hl & Hc). split; [by eapply served_after|]. by rewrite -(proj2 Hs).
Qed.

Lemma finish_reading_served {X} ctx a model t start ts status retry g r all s0 s :
  ended_with s0 all (ends_final all) status retry g s →
  post (finish_reading (X := X) libs settings w ctx a model t start ts status retry g r)
    (relayed all s0) anything s.
Proof using.
  intros [(sent & Hs & Hp & Hw) Hr]. unfold finish_reading. destruct status as [[code kind] message].
  apply post_bind, (post_along silent); [carry|intros duration s1 H1].
  apply post_bind. eapply post_weaken; [apply finish_forwarded_spec| |done]. intros result s2 (H2 & Hno & He & Hc).
  assert (silent s s2) as H02 by (by etransitivity). assert (so_far s0 sent g s2) as Hs2 by (by eapply so_far_silent).
  pose proof (so_far_serves _ _ _ _ Hs2) as Hserves. destruct (sf_out _ _ _ _ Hs2) as (l & Hl & Hlp & Hlg).
  unfold post at 1, ret. split; [|split].
  - split; [done| |].
    + intros Ha. eapply so_far_quiet; [exact Hs2|]. destruct retry as [payload|]; [by destruct (Hr eq_refl)|by apply He].
    + intros payload Hpay. destruct retry as [p|]; [|by destruct (Hno payload)]. destruct (Hr eq_refl) as (_ & Hz & Ho).
      destruct H02 as [[_ _ H02 _] _]. lia.
  - exists l. split; [done|]. by etransitivity.
  - destruct retry as [p|]; [done|]. intros Hcomplete. destruct (Hc Hcomplete) as [Hgone Hscope].
    destruct (Hw Hscope eq_refl) as [-> Hf]. split; [|done]. destruct (sf_out _ _ _ _ Hs) as (l' & Hl' & _ & Hg').
    assert (ws_gone s = None) as Hn.
    { destruct (ws_gone s) eqn:E; [|done]. destruct H1 as [Hb _]. pose proof (bh_gone _ _ Hb) as Hk. rewrite E in Hk. by rewrite Hk in Hgone. }
    rewrite (proj2 H02) Hl' Hg' //.
Qed.

Lemma native_served {X} ctx a model payload start s :
  post (forward_native_response_create (X := X) libs settings w ctx a model payload start)
    (λ result s', ∃ reads, turn_reads s s' reads ∧ relayed (turn_messages reads) s result s')
    anything s.
Proof using.
  assert (∀ result s', served s result s' → silent s s' → result ≠ Complete →
    ∃ reads, turn_reads s s' reads ∧ relayed (turn_messages reads) s result s') as Hquiet.
  { intros result s' Hv [_ Ho] Hc. exists []. split; [by left|]. split; [done|]. split; [|done]. exists []. split; [by rewrite app_nil_r|apply prefix_nil]. }
  assert (∀ t o r k m sc s1, silent s s1 → post (fail_turn (X := X) libs w ctx a model t o r k m sc)
    (λ result s', ∃ reads, turn_reads s s' reads ∧ relayed (turn_messages reads) s result s')
    anything s1) as Hgive.
  { intros t o r k m sc s1 H1. unfold fail_turn. apply post_bind, (post_along silent); [carry|]. intros ? s' Hs.
    assert (silent s s') by (by etransitivity). apply Hquiet; [by apply silent_served|done|done]. }
  unfold forward_native_response_create. apply post_bind, (post_along silent); [carry|intros granted s1 H1]. apply post_if; intros _.
  { apply Hquiet; [by apply silent_served|done|done]. }
  apply post_bind, (post_along silent); [carry|intros reserved s2 H2]. assert (silent s s2) as H02 by (by etransitivity).
  destruct reserved as [r|e].
  2: { unfold refused. apply post_bind, (post_along silent); [carry|intros ? s3 H3].
       assert (silent s s3) as H03 by (by etransitivity). destruct e; by apply Hgive. }
  apply post_bind, (post_along silent); [carry|intros ? s3 H3]. apply post_bind, (post_along silent); [carry|intros request s4 H4].
  apply post_bind, (post_along silent); [carry|intros ? s5 H5]. apply post_bind, (post_along silent); [carry|intros ? s6 H6].
  apply post_bind, (post_along silent); [carry|intros failed s7 H7].
  assert (silent s s7) as H07 by (repeat (etransitivity; [eassumption|]); reflexivity).
  clear H1 H2 H02 H3 H4 H5 H6 H7. destruct failed as [error|].
  - apply post_bind, (post_along silent); [carry|intros duration s8 H8]. apply Hgive. by etransitivity.
  - apply post_bind, (post_along silent); [carry|intros ts s8 H8]. apply post_bind. unfold ask at 1, state, post at 1.
    match goal with |- context [wd_reads w ?k] => set (n := k) end. cbv beta iota.
    match goal with |- post _ _ _ ?x => assert (silent s x) as H9 by (etransitivity; [exact H07|]; etransitivity; [exact H8|exact (ask_silent (E := option X) (wd_reads w) _)]); set (s9 := x) in * end.
    assert (n < ws_tick s9)%nat as Hn by (cbn; lia).
    apply post_bind. eapply post_weaken; [apply (native_loop_sends a request start _ new_reading [] s9 s9)| |done].
    { split; [done| |done]. exists []. by rewrite app_nil_r. }
    intros [[status retry] g] s10 H10. eapply post_weaken; [by apply finish_reading_served| |done].
    intros result s11 H11. exists (wd_reads w n). split; [|by eapply relayed_after].
    right. exists n. split; [|done]. destruct H11 as [[[[_ _ _ Ht] _] _ _] _]. destruct H07 as [[_ _ _ H07] _].
    destruct H8 as [[_ _ _ H8] _]. lia.
Qed.

(** *** Messages of the gateway *)
Lemma send_downstream_serves {X} m : moves serves (send_downstream (X := X) (D := D) (R := R) w m).
Proof using.
  unfold send_downstream. do 2 (apply moves_bind; [typeclasses eauto|carry|intros ?]). destruct a0; carry. intros s.
  split; [by split|]. by eexists.
Qed.
Hint Resolve send_downstream_serves : moves.
Lemma send_ws_error_serves {X} st c m : moves serves (send_ws_error (X := X) (D := D) (R := R) libs w st c m).
Proof using. unfold send_ws_error. carry. Qed.
Hint Resolve send_ws_error_serves : moves.

(** *** Over the bridge *)
Record bridged (s0 : S_) (b : BridgeReading) (s : S_) : Prop := {
  bd_serves : serves s0 s;
  bd_silent : rg_emitted (bg_reading b) = false → silent s0 s;
  bd_retry : is_some (bg_retry b) = true → rg_emitted (bg_reading b) = false ∧ retries s0 <= 0 ∧ 1 <= retries s
}.

(** The parts of the reading the invariant is about are the same. *)
Lemma bridged_silent s0 b b' s s' :
  bridged s0 b s → silent s s' → rg_emitted (bg_reading b') = rg_emitted (bg_reading b) → bg_retry b' = bg_retry b →
  bridged s0 b' s'.
Proof using.
  intros [A B C] Hs He Hr. split.
  - etransitivity; [exact A|by apply silent_serves].
  - rewrite He. intros Hf. etransitivity; [by apply B|done].
  - rewrite Hr He. intros Hp. destruct (C Hp) as (? & ? & ?). destruct Hs as [[_ _ Hs _] _]. split_and!; [done..|lia].
Qed.

Lemma bridge_event_bridged {X} a payload start event b s0 s :
  bridged s0 b s →
  post (bridge_event (X := X) libs w a payload start event b) (λ out s', bridged s0 out.1 s') anything s.
Proof using.
  intros Hb. unfold bridge_event. apply post_bind. eapply post_weaken; [apply note_event_reading| |done]. intros g s1 [H1 E1].
  apply post_bind. eapply (post_weaken _ (λ b' s', bridged s0 b' s' ∧ bg_reading b' = g)); [| |done].
  { apply post_if; intros _.
    - apply post_bind, (post_along silent); [carry|intros ? s2 H2].
      apply post_bind. eapply post_weaken; [apply prepare_recovery_spec| |done]. intros retry s3 [H3 Hr].
      assert (silent s s3) as H03 by (by do 2 (etransitivity; [eassumption|])).
      assert (serves s0 s3) as Hv by (etransitivity; [apply Hb|by apply silent_serves]).
      split; [|done]. split; cbn.
      + done.
      + rewrite E1. intros He. etransitivity; [by apply Hb|done].
      + intros Hp. destruct (Hr Hp) as (He & Hz & Ho). split_and!; [done| |lia].
        destruct Hb as [[[_ _ Hb _] _] _ _]. destruct H1 as [[_ _ H1 _] _]. destruct H2 as [[_ _ H2 _] _]. lia.
    - split; [|done]. by eapply bridged_silent. }
  intros b' s4 [H4 Hg]. subst g. apply post_bind. apply post_if; intros Hforward; [|by destruct b'].
  apply andb_prop in Hforward as [Hno _].
  assert (so_far s4 [] (bg_reading b') s4) as Hs4.
  { split; [done| |done]. exists []. by rewrite app_nil_r. }
  eapply post_weaken; [by apply forward_event_sends| |done]. intros g5 s5 [H5 E5].
  split; cbn; [|by rewrite E5|by destruct (bg_retry b')]. etransitivity; [apply H4|by eapply so_far_serves].
Qed.

Lemma bridge_events_bridged {X} a payload start events b s0 s :
  bridged s0 b s →
  post (bridge_events (X := X) libs w a payload start events b) (bridged s0) anything s.
Proof using.
  revert b s. induction events as [|event events IH]; intros b s Hb; cbn [bridge_events]; [done|].
  apply post_bind. eapply post_weaken; [by apply bridge_event_bridged| |done]. intros [b' last] s' Hb'.
  apply post_if; intros _; [done|]. by apply IH.
Qed.

Lemma frame_events_reading is_sse st frame b events b' :
  frame_events libs is_sse st frame b = Some (events, b') → bg_reading b' = bg_reading b ∧ bg_retry b' = bg_retry b.
Proof using.
  unfold frame_events. destruct frame as [f|].
  - destruct (data_ref f); [|by intros [= _ <-]]. destruct is_sse; [by destruct (push_bytes _ _ _); intros [= _ <-]|].
    destruct (_ <? _); [done|by intros [= _ <-]].
  - destruct is_sse; [by destruct (ResponseEvents.finish _ _); intros [= _ <-]|by intros [= _ <-]].
Qed.

Lemma bridge_step_bridged {X} a is_sse st payload start item b s0 s :
  bridged s0 b s →
  post (bridge_step (X := X) libs w a is_sse st payload start item b) (λ out s', bridged s0 out.1 s') anything s.
Proof using.
  intros Hb. unfold bridge_step. destruct (bridge_frame item) as [frame failed].
  match goal with |- context [bg_reading ?x] => set (b1 := x) end.
  assert (bridged s0 b1 s) as Hb1 by (by eapply bridged_silent).
  clearbody b1. apply post_bind. eapply (post_weaken _ (bridged s0)); [| |done].
  { apply post_if; intros _; [|done]. apply post_bind. eapply post_weaken; [apply note_byte_reading| |done].
    intros g s1 [H1 E1]. by eapply bridged_silent. }
  intros b2 s2 H2. destruct (frame_events _ _ _ _ _) as [[events b3]|] eqn:Hf; [|by eapply bridged_silent].
  apply frame_events_reading in Hf as [Hr Ht]. apply post_bind.
  eapply post_weaken; [apply bridge_events_bridged; eapply bridged_silent; [exact H2|done|by rewrite Hr|done]| |done].
  by intros b4 s4 H4.
Qed.

Lemma bridge_loop_bridged {X} a is_sse st payload start reads b s0 s :
  bridged s0 b s →
  post (bridge_loop (X := X) libs settings w a is_sse st payload start reads b) (bridged s0) anything s.
Proof using.
  revert b s. induction reads as [|rd reads IH]; intros b s Hb; cbn [bridge_loop].
  - apply post_bind. eapply post_weaken; [by apply bridge_step_bridged| |done]. by intros [b' left_] s' H'.
  - apply post_bind, (post_along silent); [carry|intros item s1 H1]. apply post_bind.
    eapply post_weaken; [eapply bridge_step_bridged, bridged_silent; [exact Hb|exact H1|done..]| |done].
    intros [b' left_] s2 H2. apply post_if; intros _; [done|by apply IH].
Qed.

(** The exits of the body of the bridge are results of the turn. *)
Definition served_exit (s : S_) (e : option ForwardResult) (s' : S_) : Prop :=
  match e with Some result => served s result s' | None => True end.

(** A piece of the body that goes on without a word or returns. *)
Definition quiet {A} (m : comp S_ (option ForwardResult) A) : Prop := ∀ s, post m (λ _ s', silent s s') (served_exit s) s.

Lemma ws_post_quiet {A B} (m : comp S_ (option ForwardResult) A) (f : A → comp S_ (option ForwardResult) B) (Q : B → S_ → Prop) s0 s :
  quiet m → silent s0 s → (∀ x s', silent s0 s' → post (f x) Q (served_exit s0) s') → post (bind m f) Q (served_exit s0) s.
Proof using.
  intros Hm Hs Hf. apply post_bind. eapply post_weaken; [apply Hm| |].
  - intros x s' H1. apply Hf. by etransitivity.
  - intros [result|] s'; [|done]. by apply served_after.
Qed.

Lemma quiet_silent {A} (m : comp S_ (option ForwardResult) A) : stays m → moves silent m → quiet m.
Proof using. intros Hs Hm s. eapply (post_moves silent (λ _, True)); [done|done|done|done|by intros]. Qed.

Lemma quiet_bind {A B} (m : comp S_ (option ForwardResult) A) (f : A → comp S_ (option ForwardResult) B) :
  quiet m → (∀ x, quiet (f x)) → quiet (bind m f).
Proof using.
  intros Hm Hf s. apply post_bind. eapply post_weaken; [apply Hm| |done]. intros x s1 H1.
  eapply post_weaken; [apply Hf| |].
  - cbn beta in *. intros y s2 H2. by etransitivity.
  - intros [result|] s2; [|done]. by apply served_after.
Qed.

Ltac hush := solve [apply quiet_silent; [stay|carry]].
Ltac quietly := first [apply quiet_bind; [hush|intros ?] | hush].

Lemma settle_neutral_stays {X} r : stays (settle_neutral (X := X) (D := D) (R := R) w r).
Proof using. unfold settle_neutral. stay. Qed.
Lemma settle_turn_stays {X} r gone o : stays (settle_turn (X := X) (D := D) (R := R) w r gone o).
Proof using. unfold settle_turn, settle_neutral, settle. stay. Qed.
Lemma reserve_stays {X} f : stays (reserve (X := X) (D := D) (R := R) w f).
Proof using. unfold reserve. stay. Qed.
Hint Resolve settle_neutral_stays settle_turn_stays reserve_stays : stays.

(** A computation of the turn that leaves only by a panic. *)
Definition panics {A} (m : comp S_ (option ForwardResult) A) : Prop := ∀ s result, (m s).1 ≠ inr (Some result).

Lemma panics_stays {A} (m : comp S_ (option ForwardResult) A) : stays m → panics m.
Proof using. intros Hm s result. apply Hm. Qed.

Lemma panics_bind {A B} (m : comp S_ (option ForwardResult) A) (f : A → comp S_ (option ForwardResult) B) :
  panics m → (∀ x, panics (f x)) → panics (bind m f).
Proof using.
  intros Hm Hf s result. unfold bind. specialize (Hm s result). destruct (m s) as [[x|e] s']; [apply Hf|cbn in *; congruence].
Qed.

Ltac panicky := first [apply panics_bind; [solve [apply panics_stays; stay]|intros ?] | solve [apply panics_stays; stay]].

Lemma priced_panics r o a : panics (priced w r o a).
Proof using. unfold priced. destruct (evaluate_price _ _ _); [by intros s|]. do 2 panicky. by intros. Qed.
Lemma record_turn_panics ctx a model t o r : panics (record_turn libs w ctx a model t o r).
Proof using. unfold record_turn. do 3 panicky. apply panics_bind; [apply priced_panics|intros ?]. repeat panicky. Qed.
Lemma finish_reading_panics ctx a model t start ts st retry g r :
  panics (finish_reading libs settings w ctx a model t start ts st retry g r).
Proof using.
  unfold finish_reading, finish_forwarded_turn. destruct st as [[code kind] message]. panicky. apply panics_bind; [|by intros].
  do 2 panicky. apply panics_bind; [apply record_turn_panics|]. by intros.
Qed.

Lemma quiet_panics {A} (m : comp S_ (option ForwardResult) A) : panics m → moves silent m → quiet m.
Proof using.
  intros Hp Hm s. unfold post. specialize (Hp s). specialize (Hm s). destruct (m s) as [[x|[result|]] s']; cbn in *; [done| |done].
  by destruct (Hp result).
Qed.

Lemma record_turn_quiet ctx a model t o r : quiet (record_turn (X := ForwardResult) libs w ctx a model t o r).
Proof using. apply quiet_panics; [apply record_turn_panics|carry]. Qed.

(** Where only a panic leaves, the exits are no concern. *)
Lemma post_panics {A} (m : comp S_ (option ForwardResult) A) (Q : A → S_ → Prop) s0 s :
  panics m → post m Q anything s → post m Q (served_exit s0) s.
Proof using. intros Hp. unfold post. specialize (Hp s). destruct (m s) as [[x|[result|]] s']; cbn in *; [done| |done]. by destruct (Hp result). Qed.

(** Giving up: the reservation is settled, and the turn may be tried elsewhere. *)
Lemma gives_up {A} ctx a model o r k m sc s (Q : A → S_ → Prop) :
  post (let* result := fail_turn (X := ForwardResult) libs w ctx a model HttpBridge o r k m sc in return_ result) Q (served_exit s) s.
Proof using.
  apply post_bind. unfold fail_turn. apply post_bind.
  eapply post_weaken; [apply record_turn_quiet| |by intros [result|] s'].
  intros ? s1 H1. by apply silent_served.
Qed.

Lemma bridge_local_ends {A} ctx a model start r st k m s0 s (Q : A → S_ → Prop) :
  silent s0 s → post (bridge_local_failure libs w ctx a model start r st k m) Q (served_exit s0) s.
Proof using.
  intros Hs. unfold bridge_local_failure, bridge_failure. eapply ws_post_quiet; [hush|exact Hs|]. intros duration s1 H1.
  eapply post_weaken; [apply gives_up with (Q := Q)|done|]. intros [result|] s2; [|done]. by apply served_after.
Qed.

Lemma bridge_local_quiet {A} ctx a model start r st k m : quiet (A := A) (bridge_local_failure libs w ctx a model start r st k m).
Proof using. intros s. by apply bridge_local_ends. Qed.

Lemma bridge_auth_quiet ctx a model start r : quiet (bridge_auth libs w ctx a model start r).
Proof using.
  unfold bridge_auth, bridge_failure. destruct (is_codex_oauth _); [|quietly]. do 2 quietly.
  match goal with |- quiet (match ?x with _ => _ end) => destruct x as [auth|e] end; [quietly|]. quietly. intros s. apply gives_up.
Qed.

Lemma bridge_headers_quiet ctx a model start r auth body : quiet (bridge_made_headers libs w ctx a model start r auth body).
Proof using. unfold bridge_made_headers. destruct (bridge_headers _ _ _ _ _); [quietly|apply bridge_local_quiet]. Qed.

Lemma still_current_quiet r (e : WsBridgeError) : quiet (still_current (D := D) w r (RetryableBeforeEvent e)).
Proof using.
  unfold still_current. apply quiet_bind; [by intros s|intros s0]. destruct (reservation_current _ _); [quietly|]. quietly.
  intros s. by apply silent_served.
Qed.

Lemma bridge_replay_quiet ctx a model start r uri body response :
  quiet (bridge_replay libs settings w ctx a model start r uri body response).
Proof using.
  unfold bridge_replay. destruct (negb (is_codex_oauth _)); [quietly|]. quietly. destruct (negb (_ && _)); [quietly|]. do 2 quietly.
  match goal with |- quiet (match ?x with _ => _ end) => destruct x as [auth|e] end; [|quietly].
  apply quiet_bind; [apply bridge_headers_quiet|intros headers]. apply quiet_bind; [apply still_current_quiet|intros _].
  quietly. match goal with |- quiet (if ?b then _ else _) => destruct b end.
  { quietly. intros s. by apply silent_served. }
  apply quiet_bind; [apply still_current_quiet|intros _]. do 3 quietly. destruct (target_of a) as [[p e] k]. repeat quietly.
Qed.

Lemma finish_served {X} ctx a model t start ts status g r (retry : option string) s0 s b :
  bridged s0 b s → bg_reading b = g → bg_retry b = retry →
  post (finish_reading (X := X) libs settings w ctx a model t start ts status retry g r) (served s0) anything s.
Proof using.
  intros Hb <- <-. unfold finish_reading. destruct status as [[code kind] message].
  apply post_bind, (post_along silent); [carry|intros duration s1 H1].
  apply post_bind. eapply post_weaken; [apply finish_forwarded_spec| |done]. intros result s2 (H2 & Hno & He & _).
  assert (bridged s0 b s2) as Hb2 by (eapply bridged_silent; [exact Hb|by etransitivity|done..]).
  unfold post, ret. split.
  - apply Hb2.
  - intros Ha. apply Hb2. destruct (bg_retry b) as [p|] eqn:Hr; [|by apply He]. by apply (bd_retry _ _ _ Hb2); rewrite Hr.
  - intros p Hp. destruct (bg_retry b) as [p'|] eqn:Hr; [|by destruct (Hno p)]. by apply (bd_retry _ _ _ Hb2); rewrite Hr.
Qed.

Lemma bridge_answer_served ctx a model start payload r response s0 s :
  silent s0 s →
  post (bridge_answer libs settings w ctx a model start payload r response) (served s0) (served_exit s0) s.
Proof using.
  intros Hs. unfold bridge_answer.
  do 4 (eapply ws_post_quiet; [hush|eassumption|]; clear dependent s; intros ? s Hs).
  apply post_bind. eapply post_weaken; [apply post_panics; [apply panics_stays; stay|]| |intros ? ? H1; exact H1].
  { apply (bridge_loop_bridged _ _ _ _ _ _ new_bridge s0 s). by split; [apply silent_serves| |]. }
  intros b s1 H1. apply post_panics; [apply finish_reading_panics|]. by eapply finish_served.
Qed.

Lemma bridge_reserved_served ctx a model start payload body r s0 s :
  silent s0 s →
  post (bridge_with_reservation libs settings w ctx a model start payload body r) (served s0) (served_exit s0) s.
Proof using.
  intros Hs. unfold bridge_with_reservation.
  destruct (build_upstream_uri _ _ _ _ _) as [uri|message]; [|by apply bridge_local_ends].
  eapply ws_post_quiet; [apply bridge_auth_quiet|exact Hs|]. intros auth s1 H1.
  eapply ws_post_quiet; [apply bridge_headers_quiet|exact H1|]. intros headers s2 H2.
  eapply ws_post_quiet; [apply still_current_quiet|exact H2|]. intros ? s3 H3.
  eapply ws_post_quiet; [hush|exact H3|]. intros left_ s4 H4. eapply ws_post_quiet; [hush|exact H4|]. intros ? s5 H5.
  eapply ws_post_quiet; [hush|exact H5|]. intros response s6 H6.
  eapply ws_post_quiet; [apply bridge_replay_quiet|exact H6|]. intros [response' replayed] s7 H7.
  eapply ws_post_quiet; [hush|exact H7|]. intros ? s8 H8.
  destruct response' as [response'|error]; [by apply bridge_answer_served|].
  destruct (dispatch_error_to_http _ _) as [[status kind] message]. by apply bridge_local_ends.
Qed.

Lemma fail_turn_served {X} ctx a model t o r k m sc s0 s :
  silent s0 s → post (fail_turn (X := X) libs w ctx a model t o r k m sc) (served s0) anything s.
Proof using.
  intros Hs. unfold fail_turn. apply post_bind, (post_along silent); [carry|]. intros ? s' H1.
  apply silent_served; [by etransitivity|done].
Qed.

Lemma refused_served {X} ctx a model t start e m s0 s :
  silent s0 s → post (refused (X := X) libs w ctx a model t start e m) (served s0) anything s.
Proof using.
  intros Hs. unfold refused. apply post_bind, (post_along silent); [carry|]. intros ? s' H1.
  assert (silent s0 s') by (by etransitivity). destruct e; by apply fail_turn_served.
Qed.

Lemma bridge_served {X} ctx a model payload start s :
  post (forward_http_bridge_response_create (X := X) libs settings w ctx a model start payload) (served s) anything s.
Proof using.
  unfold forward_http_bridge_response_create. apply post_call.
  eapply (post_weaken _ (served s) _ (served_exit s)); [|done|by intros [r|]].
  destruct (bridge_payload _ _) as [body|].
  - eapply ws_post_quiet; [hush|done|]. intros granted s1 H1. apply post_if; intros _; [by apply silent_served|].
    eapply ws_post_quiet; [hush|exact H1|]. intros [r|e] s2 H2; [by apply bridge_reserved_served|].
    apply post_panics; [|by apply refused_served].
    unfold refused, fail_turn. panicky. destruct e; (apply panics_bind; [apply record_turn_panics|by intros]).
  - unfold invalid_payload. eapply ws_post_quiet; [hush|done|]. intros duration s1 H1.
    eapply ws_post_quiet; [apply record_turn_quiet|exact H1|]. intros ? s2 H2. apply post_bind.
    apply post_panics; [apply panics_stays; stay|]. apply (post_along serves); [apply send_ws_error_serves|]. intros ? s3 H3.
    split; [|done..]. etransitivity; [by apply silent_serves|done].
Qed.

(** ** The whole turn *)

(** A result that is final, or a retry that can only be the first. *)
Lemma filter_known_retries r b body now :
  tr_retries (Recovery.rr_trace (filter_known (sha256 (wl_libs libs)) (parse (wl_libs libs)) (to_vec (wl_libs libs)) r b body now).1.2)
  = tr_retries (Recovery.rr_trace r).
Proof using.
  unfold filter_known. destruct (negb _); [done|]. destruct (match Recovery.rr_session_key r with Some _ => _ | None => _ end) as [known b'].
  destruct (_ =? 0)%nat; [done|]. by destruct (sanitize _ _ _ _ _ _) as [[cleaned count]|].
Qed.

(** One round of [forward_loop]. *)
Definition forward_once {X} (ctx : WsContext) (active : ActiveUpstream D) (start : Z) (payload : string)
    : comp S_ (option X) ForwardResult :=
  match au_transport active with
  | NativeTransport => forward_native_response_create libs settings w ctx (au_resolved active) (au_requested_model active) payload start
  | BridgeTransport => forward_http_bridge_response_create libs settings w ctx (au_resolved active) (au_requested_model active) start payload
  end.

(** What a round gives, for either transport. *)
Definition turn_gives (active : ActiveUpstream D) (s : S_) (result : ForwardResult) (s' : S_) : Prop :=
  served s result s' ∧ (au_transport active = NativeTransport → ∃ reads, turn_reads s s' reads ∧ relayed (turn_messages reads) s result s').

Lemma once_gives {X} ctx active start payload s :
  post (forward_once (X := X) ctx active start payload) (turn_gives active s) anything s.
Proof using.
  unfold forward_once. destruct (au_transport active) eqn:E.
  - eapply post_weaken; [apply native_served| |done]. intros result s' (reads & Hr & Hn). split; [apply Hn|]. intros _. by exists reads.
  - eapply post_weaken; [apply bridge_served| |done]. intros result s' Hv. split; [done|]. by rewrite E.
Qed.

Lemma turn_gives_after active s0 s result s' : silent s0 s → turn_gives active s result s' → turn_gives active s0 result s'.
Proof using.
  intros Hs [Hv Hn]. split; [by eapply served_after|]. intros E. destruct (Hn E) as (reads & Hr & Hl). exists reads.
  split; [destruct Hr as [->|(n & Ht & ->)]; [by left|right; exists n; split; [|done]; destruct Hs as [[_ _ _ ?] _]; lia]|].
  by eapply relayed_after.
Qed.

(** The step between the rounds: the record of the rejected attempt is dropped. *)
Lemma second_round (s : S_) :
  silent s (set_ws_turn (set_tn_observation default_observation
    (match tn_pending (ws_turn s) with
     | Some pending => set_tn_pending None (set_tn_permit (pd_permit pending) (ws_turn s))
     | None => ws_turn s
     end)) s).
Proof using. apply told_silent. unfold told, around, outside. cbn. by destruct (tn_pending (ws_turn s)). Qed.

Lemma forward_loop_gives {X} fuel ctx active start payload s :
  post (forward_loop (X := X) libs settings w fuel ctx active start payload)
    (λ result s', turn_gives active s result s' ∧ (fuel ≠ O ∨ 1 <= retries s → ∀ p, result ≠ RetryEncryptedContent p)) anything s.
Proof using.
  revert payload s. induction fuel as [|fuel IH]; intros payload s; cbn [forward_loop]; apply post_bind;
    (eapply post_weaken; [apply once_gives| |done]); intros result s1 H1.
  - split; [done|]. intros [?|Hr] p ->; [done|]. destruct H1 as [[_ _ Hv] _]. destruct (Hv p eq_refl). lia.
  - destruct result as [|cleaned|error|]; try (split; [done|by intros _ p]).
    pose proof (sr_silent _ _ _ (proj1 H1) eq_refl) as Hq. destruct (sr_retry _ _ _ (proj1 H1) cleaned eq_refl) as [_ Hr].
    apply post_bind. unfold post at 1, update_turn, modify. eapply post_weaken; [apply IH| |done].
    intros result s2 [H2 Hno]. split.
    + eapply turn_gives_after; [|exact H2]. etransitivity; [exact Hq|apply second_round].
    + intros _. apply Hno. right. pose proof (bh_retry _ _ (proj1 (second_round s1))). lia.
Qed.

(** More rounds than one change nothing: see [forward_response_create]. *)
Lemma no_second_retry {X} n ctx active start payload (s : S_) :
  forward_loop (X := X) libs settings w (S n) ctx active start payload s
  = forward_loop (X := X) libs settings w 1 ctx active start payload s.
Proof using.
  assert (∀ n payload (s : S_), 1 <= retries s →
    forward_loop (X := X) libs settings w n ctx active start payload s = forward_loop (X := X) libs settings w 0 ctx active start payload s) as Hend.
  { clear n payload s. intros n payload s Hr. pose proof (once_gives (X := X) ctx active start payload s) as Ho.
    unfold post, forward_once in Ho. destruct n as [|n]; [done|]. cbn [forward_loop]. unfold bind.
    match goal with |- context [match ?m s with _ => _ end] => destruct (m s) as [[result|e] s1] end; [|done].
    destruct result; try done. destruct Ho as [[_ _ Hv] _]. destruct (Hv payload0 eq_refl). lia. }
  pose proof (once_gives (X := X) ctx active start payload s) as Ho. unfold post, forward_once in Ho.
  cbn [forward_loop]. unfold bind at 1 3.
  match goal with |- context [match ?m s with _ => _ end] => destruct (m s) as [[result|e] s1] end; [|done].
  destruct result as [|cleaned| |]; try done. unfold bind, update_turn, modify. rewrite Hend; [done|].
  destruct Ho as [[_ _ Hv] _]. destruct (Hv cleaned eq_refl) as [_ Hr]. pose proof (bh_retry _ _ (proj1 (second_round s1))). lia.
Qed.

Lemma forward_gives {X} ctx active payload (s : S_) :
  post (forward_response_create (X := X) libs settings w ctx active payload)
    (λ result s', turn_gives active s result s' ∧ ∀ p, result ≠ RetryEncryptedContent p) anything s.
Proof using.
  unfold forward_response_create. do 3 (apply post_bind, (post_along silent); [carry|intros ? ? ?]).
  apply post_bind, (post_along silent); [|intros filtered s4 H4].
  { apply moves_state. intros s0. pose proof (filter_known_retries (tn_recovery (ws_turn s0)) (bk_recovery (ws_books s0)) payload x1) as Hf.
    destruct (filter_known _ _ _ _ _ _ _) as [[f recovery] book]. cbn [fst snd] in *. split; [split|done]; [done|done| |done].
    unfold retries. cbn. lia. }
  eapply post_weaken; [apply forward_loop_gives| |done]. intros result s5 [H5 Hno]. split; [|apply Hno; by left].
  eapply turn_gives_after; [|exact H5]. repeat (etransitivity; [eassumption|]). reflexivity.
Qed.

(** *** Panics included *)
Lemma prepare_recovery_silent {X} a event payload e :
  moves silent (prepare_encrypted_recovery (X := X) (D := D) (R := R) libs w a event payload e).
Proof using.
  unfold prepare_encrypted_recovery. apply moves_bind; [typeclasses eauto|carry|intros t].
  destruct (negb _ || _ || _); [carry|]. apply moves_bind; [typeclasses eauto|carry|intros now].
  apply moves_bind; [typeclasses eauto| |intros _].
  - intros s. unfold modify. cbn. pose proof (record_failure_trace (tn_recovery (ws_turn s)) (bk_recovery (ws_books s)) payload now) as Hf.
    destruct (Recovery.record_failure _ _ _ _ _ _ _) as [recovery book]. cbn [fst] in Hf.
    split; [split|done]; [done|done| |done]. unfold retries. cbn. by rewrite Hf.
  - apply moves_bind; [typeclasses eauto|carry|intros gone]. destruct (e || is_some gone); [carry|].
    do 2 (apply moves_bind; [typeclasses eauto|carry|intros ?]). destruct (negb _); [carry|].
    apply moves_state. intros s. pose proof (prepare_retry_once (tn_recovery (ws_turn s)) payload true) as Hp.
    destruct (prepare_retry _ _ _ _ _ _) as [[cleaned|] r]; cbn in Hp; split; [|done| |done]; split; try done; unfold retries; cbn;
      [lia|by subst r].
Qed.
Lemma send_turn_event_serves {X} m : moves serves (send_turn_event (X := X) (D := D) (R := R) w m).
Proof using.
  intros s. pose proof (forward_event_sends (X := X) m new_reading [] s s) as Hf.
  unfold forward_event, post, bind in Hf. assert (so_far s [] new_reading s) as Hs.
  { split; [done| |done]. exists []. by rewrite app_nil_r. }
  specialize (Hf Hs). pose proof (send_turn_event_stays w (X := X) (D := D) (R := R) m s) as Hst.
  destruct (send_turn_event w m s) as [[[]|e] s']; cbn in *; [eapply so_far_serves, Hf|by destruct (Hst e)].
Qed.
Hint Resolve prepare_recovery_silent send_turn_event_serves : moves.
Lemma forward_event_serves {X} m g : moves serves (forward_event (X := X) (D := D) (R := R) w m g).
Proof using. unfold forward_event. carry. Qed.
Hint Resolve forward_event_serves : moves.
Lemma native_loop_serves {X} a request start reads g :
  moves serves (native_loop (X := X) (R := R) libs settings w a request start reads g).
Proof using. revert g. induction reads; intros g; cbn [native_loop]; unfold native_step, native_text; carry. Qed.
Lemma bridge_event_serves {X} a payload start event b : moves serves (bridge_event (X := X) (R := R) libs w a payload start event b).
Proof using. unfold bridge_event. carry. Qed.
Hint Resolve native_loop_serves bridge_event_serves : moves.
Lemma bridge_events_serves {X} a payload start events b : moves serves (bridge_events (X := X) (R := R) libs w a payload start events b).
Proof using. revert b. induction events; intros b; cbn [bridge_events]; carry. Qed.
Hint Resolve bridge_events_serves : moves.
Lemma bridge_step_serves {X} a sse st payload start item b :
  moves serves (bridge_step (X := X) (R := R) libs w a sse st payload start item b).
Proof using. unfold bridge_step. carry. Qed.
Hint Resolve bridge_step_serves : moves.
Lemma bridge_loop_serves {X} a sse st payload start reads b :
  moves serves (bridge_loop (X := X) (R := R) libs settings w a sse st payload start reads b).
Proof using. revert b. induction reads; intros b; cbn [bridge_loop]; carry. Qed.
Hint Resolve bridge_loop_serves : moves.
Lemma bridge_local_silent {A} ctx a model start r st k m :
  moves silent (bridge_local_failure (A := A) (R := R) libs w ctx a model start r st k m).
Proof using. unfold bridge_local_failure, bridge_failure, return_. carry. Qed.
Lemma bridge_auth_silent ctx a model start r : moves silent (bridge_auth (R := R) libs w ctx a model start r).
Proof using. unfold bridge_auth, bridge_failure, return_. carry. Qed.
Hint Resolve bridge_local_silent bridge_auth_silent : moves.
Lemma bridge_headers_silent ctx a model start r auth body :
  moves silent (bridge_made_headers (R := R) libs w ctx a model start r auth body).
Proof using. unfold bridge_made_headers. carry. Qed.
Hint Resolve bridge_headers_silent : moves.
Lemma bridge_replay_silent ctx a model start r uri body response :
  moves silent (bridge_replay (R := R) libs settings w ctx a model start r uri body response).
Proof using. unfold bridge_replay, return_. carry. Qed.
Lemma bridge_answer_serves {X} ctx a model start payload r response :
  moves serves (bridge_answer (X := X) (R := R) libs settings w ctx a model start payload r response).
Proof using. unfold bridge_answer. carry. Qed.
Hint Resolve bridge_replay_silent bridge_answer_serves : moves.
Lemma bridge_reserved_serves ctx a model start payload body r :
  moves serves (bridge_with_reservation (R := R) libs settings w ctx a model start payload body r).
Proof using. unfold bridge_with_reservation. carry. Qed.
Hint Resolve bridge_reserved_serves : moves.
Lemma forward_loop_serves {X} fuel ctx active start payload :
  moves serves (forward_loop (X := X) (R := R) libs settings w fuel ctx active start payload).
Proof using.
  revert payload. induction fuel; intros payload; cbn [forward_loop];
    unfold forward_native_response_create, forward_http_bridge_response_create, invalid_payload; carry.
Qed.
Hint Resolve forward_loop_serves : moves.

(** A turn adds to what the client was sent, and leaves the session as it was. *)
Lemma forward_serves {X} ctx active payload :
  moves serves (forward_response_create (X := X) (R := R) libs settings w ctx active payload).
Proof using.
  unfold forward_response_create. do 3 (apply moves_bind; [typeclasses eauto|carry|intros ?]).
  apply moves_bind; [typeclasses eauto| |intros ?; carry]. apply moves_state. intros s0.
  pose proof (filter_known_retries (tn_recovery (ws_turn s0)) (bk_recovery (ws_books s0)) payload a1) as Hf.
  destruct (filter_known _ _ _ _ _ _ _) as [[f recovery] book]. cbn [fst snd] in *. apply silent_serves.
  split; [split|done]; [done|done| |done]. unfold retries. cbn. lia.
Qed.

(** C21. A turn over a native connection shows the client what the upstream sent for it: the
    text and binary messages up to the final event, unchanged and in order - all of them when
    the turn is complete, a beginning of them when the client leaves or the reading ends
    early, and none when the turn is to be tried at another provider. *)
Theorem turn_relays_upstream {X} ctx active payload (s : S_) result s' :
  forward_response_create (X := X) libs settings w ctx active payload s = (inl result, s') →
  au_transport active = NativeTransport →
  ∃ reads l, turn_reads s s' reads ∧ ws_out s' = ws_out s ++ l ∧ l `prefix_of` turn_messages reads
    ∧ (result = Complete → l = turn_messages reads ∧ ends_final l = true)
    ∧ (again result = true → l = []).
Proof using.
  intros E Hn. pose proof (forward_gives (X := X) ctx active payload s) as Hf. unfold post in Hf. rewrite E in Hf.
  destruct Hf as [[Hv Hr] _]. destruct (Hr Hn) as (reads & Ht & _ & (l & Hl & Hp) & Hc). exists reads, l. split_and!; [done..| |].
  - intros Hcomplete. destruct (Hc Hcomplete) as [Ha Hf]. rewrite Hl in Ha. apply app_inv_head in Ha as ->. done.
  - intros Ha. destruct (sr_silent _ _ _ Hv Ha) as [_ Ho]. rewrite Hl -{2}(app_nil_r (ws_out s)) in Ho. by apply app_inv_head in Ho.
Qed.

(** C22. Over either transport a turn only adds to what the client was sent, does not touch the
    session around it, and leaves the session with nothing sent when another provider is to be
    asked; the retry without encrypted content has been used up inside the turn. *)
Theorem retried_turn_unseen {X} ctx active payload (s : S_) result s' :
  forward_response_create (X := X) libs settings w ctx active payload s = (inl result, s') →
  ws_out s `prefix_of` ws_out s' ∧ outside s' = outside s
  ∧ (again result = true → ws_out s' = ws_out s ∧ ∃ e, result = RetryableBeforeEvent e).
Proof using.
  intros E. pose proof (forward_gives (X := X) ctx active payload s) as Hf. unfold post in Hf. rewrite E in Hf.
  destruct Hf as [[Hv _] Hno]. destruct (sr_serves _ _ _ Hv) as [Hb Hp]. split_and!; [done|exact (f_equal fst (bh_around _ _ Hb))|].
  intros Ha. split; [by apply (sr_silent _ _ _ Hv)|]. destruct result; try done; [by destruct (Hno payload0)|by eexists].
Qed.
End TurnRelay.
#[export] Hint Resolve send_ws_error_serves send_downstream_serves forward_serves : moves.

(** ** Concrete turns *)

(** The texts of the examples, and the events they stand for. *)
Definition wx_event (text : string) : option Value :=
  if String.eqb text "delta" then Some (json_obj [("type", String "response.output_text.delta"); ("delta", String "x")])
  else if String.eqb text "done" then Some (json_obj [("type", String "response.completed"); ("response", json_obj [])])
  else if String.eqb text "fail" then Some (json_obj [("type", String "response.failed"); ("response", json_obj [])])
  else if String.eqb text "create" then Some (json_obj [("type", String "response.create"); ("model", String "m")])
  else None.

Definition wx_libs : WsLibraries :=
  MkWsLibraries
    (MkLibraries (λ l, wx_event (string_of_list_ascii l)) (λ v, get_str "type" v) (λ _, None) (λ _, true) Some Some
       (λ _, Some (MkUri (Some "https") (Some "up.example") "/v1" None)) (λ s, Some (MkPathAndQuery s None)) Some (λ _, []))
    (λ _, "wss://up.example/v1/responses") (λ _, None) (λ _, None) (λ _, None) (λ _, None) (λ l, l) elements.

Definition wx_settings : WsSettings := MkWsSettings AttemptLoop.wl_settings 10000000000 "10s" Weighted.

(** A world in which the upstream sends the texts [script n] when it is read for the [n]-th
    question, the client leaves at the tick [leaves] if ever, and nothing else happens. *)
Definition wx_world (load : UpstreamSnapshot Z + string) (script : nat → list string) (leaves : option nat) : World Z :=
  MkWsWorld (λ _, 1000) (λ _, 2000000000) (λ _, Timing 1000000 1000000 2000000000 100) (λ _ b, b)
    (λ n, match leaves with Some k => if (n =? k)%nat then Some 2000000000 else None | None => None end)
    (λ _, load) (λ _, Plan.wp_clock) (λ _, inr (MkAuthError 503 "oauth" "no token"))
    (λ _ _ _ _, HandshakeDone) (λ _, None) (λ _, true)
    (λ n, map (λ text, MkRead 2000000000 None (Some (2000000001, Got (MText text)))) (script n))
    (λ _ _ _ _ _, inr (RequestError "no bridge")) (λ _, inl (Some Plan.wp_api_key)) (λ _, true) (λ _, false).

Definition wx_books (shared : SharedState) : Books :=
  MkBooks shared (new_recovery_book 1 1) new_capability_cache.

Definition wx_turn : Turn Z :=
  MkTurn (new_budget 2000000000 600000000000) ∅ (new_recovery false None) default_ws_trace default_observation false None.

Definition wx_state : WsState Z Z :=
  MkWs (wx_books wv_fresh) 7 wx_turn None None [] [] [] [] [] (200, None, None) 0.

Definition wx_ctx : WsContext := MkWsContext Plan.wp_api_key ∅ "request" "session" "log" 1000 None None None None.
Definition wx_active (transport : ActiveTransport) : ActiveUpstream Z := MkActive "m" (Plan.wp_attempt 1) transport false None.

Definition wx_forward (script : nat → list string) (leaves : option nat) : (ForwardResult + option unit) * WsState Z Z :=
  forward_response_create (H0 := whole) (EntryOrder := canonical_order) (AvoidOrder := canonical_order)
    (SessionOrder := canonical_order) wx_libs wx_settings (wx_world (inr "no snapshot") script leaves) wx_ctx
    (wx_active NativeTransport) "payload" wx_state.

Example complete_turn_run :
  let '(result, s) := wx_forward (λ _, ["delta"; "done"; "delta"]) None in
  result = inl Complete ∧ ws_out s = [MText "delta"; MText "done"].
Proof. vm_compute. split; reflexivity. Qed.

Example failed_turn_run :
  let '(result, s) := wx_forward (λ _, ["fail"]) None in
  (∃ e, result = inl (RetryableBeforeEvent e)) ∧ ws_out s = [].
Proof. vm_compute. split; [eexists|]; reflexivity. Qed.

Lemma turn_relays_upstream_witness :
  (wx_forward (λ _, ["delta"; "done"; "delta"]) None).1 = inl Complete
  ∧ ∃ reads l, turn_reads (wx_world (inr "no snapshot") (λ _, ["delta"; "done"; "delta"]) None) wx_state
       (wx_forward (λ _, ["delta"; "done"; "delta"]) None).2 reads
     ∧ ws_out (wx_forward (λ _, ["delta"; "done"; "delta"]) None).2 = l
     ∧ l = turn_messages wx_libs reads ∧ ends_final wx_libs l = true.
Proof.
  set (run := wx_forward (λ _, ["delta"; "done"; "delta"]) None).
  assert (run.1 = inl Complete) as Hr by (vm_compute; reflexivity). split; [exact Hr|].
  assert (run = (inl Complete, run.2)) as E by (rewrite -Hr; by destruct run).
  destruct (turn_relays_upstream (H0 := whole) (EntryOrder := canonical_order) (AvoidOrder := canonical_order)
    (SessionOrder := canonical_order) wx_libs wx_settings _ wx_ctx (wx_active NativeTransport) "payload" wx_state Complete run.2 E eq_refl)
    as (reads & l & Ht & Hl & _ & Hc & _).
  destruct (Hc eq_refl) as [Ha Hf]. exists reads, l. split; [exact Ht|]. split; [exact Hl|]. split; [exact Ha|exact Hf].
Defined.

Lemma retried_turn_unseen_witness :
  ws_out (wx_forward (λ _, ["fail"]) None).2 = [] ∧ outside (wx_forward (λ _, ["fail"]) None).2 = outside wx_state.
Proof.
  set (run := wx_forward (λ _, ["fail"]) None).
  assert (match run.1 with inl (RetryableBeforeEvent _) => True | _ => False end) as Hr by (vm_compute; exact I).
  destruct run as [[[| |e|]|] s'] eqn:E; try (destruct Hr).
  destruct (retried_turn_unseen (H0 := whole) (EntryOrder := canonical_order) (AvoidOrder := canonical_order)
    (SessionOrder := canonical_order) wx_libs wx_settings _ wx_ctx (wx_active NativeTransport) "payload" wx_state
    (RetryableBeforeEvent e) s' E) as (_ & Ho & Ha).
  split; [exact (proj1 (Ha eq_refl))|exact Ho].
Defined.

(** A turn whose client has left, with a slot and an attempt of every circuit reserved. *)
Definition wx_reserved := reserve_attempt wv_fresh (Plan.wp_attempt 1) 1000 1000.
Definition wx_departed : WsState Z Z := set_ws_gone (Some 2000000000) (set_shared wx_reserved.2 wx_state).
Definition wx_failure : TurnOutcome := provider_error 502 "upstream_websocket_read_error" "reset" 10.

Lemma departed_turn_blames_nobody_witness :
  match wx_reserved.1 with
  | inl r => unblamed (ws_shared wx_departed)
      (ws_shared (record_turn (X := unit) (H0 := whole) (EntryOrder := canonical_order) (AvoidOrder := canonical_order) wx_libs
        (wx_world (inr "no snapshot") (λ _, []) None) wx_ctx (Plan.wp_attempt 1) "m" NativeWs wx_failure (Some r) wx_departed).2)
  | inr _ => False
  end.
Proof.
  assert (match wx_reserved.1 with inl _ => True | inr _ => False end) as Hr by (vm_compute; exact I).
  destruct wx_reserved.1 as [r|e]; [|exact Hr].
  exact (proj1 (departed_turn_blames_nobody (H0 := whole) (EntryOrder := canonical_order) (AvoidOrder := canonical_order) wx_libs
    (wx_world (inr "no snapshot") (λ _, []) None) wx_ctx (Plan.wp_attempt 1) "m" NativeWs wx_failure r wx_departed eq_refl)).
Defined.
