(* ===== verification/WsBudget.v ===== *)
(** * WsBudget: what a turn sends to the upstreams

    Every handshake, every [response.create] and every post of the HTTP bridge is paid from
    the attempt budget of the turn: a connection and its first request are one attempt, by
    the credit the connection leaves. The accounts are kept as a relation between two states
    with the handshakes and requests that are still owed. *)
From Stdlib Require Import Ascii String.
From S2P Require Import Prelude Text Json ProbeProtocol Resilience Types RuntimeHealth ProviderRuntime Quota KeyRotation Selector Affinity ResponseEvents Recovery Caches Pricing Snapshot RoutingAvailability Routing Plan Reservation Slots OpenAi Headers RequestOverrides UpstreamUrl CodexRequests Relay Tap Prepare AttemptLoop WsParts WsConnect WsTurn Computation.

Local Open Scope string_scope.
Local Open Scope list_scope.
Local Open Scope Z_scope.
Local Open Scope loop_scope.

(** ** The accounts *)

Definition count (p : WireEvent → bool) (l : list WireEvent) : Z := Z.of_nat (length (List.filter p l)).

(** Exchanges that open something at an upstream, and exchanges that ask for an answer. *)
Definition connections : list WireEvent → Z := count (λ e, match e with WireHandshake _ | WirePost _ _ => true | _ => false end).
Definition requests : list WireEvent → Z := count (λ e, match e with WireCreate _ _ | WirePost _ _ => true | _ => false end).

Lemma count_app p l l' : count p (l ++ l') = count p l + count p l'.
Proof. unfold count. rewrite List.filter_app length_app. lia. Qed.

Section Accounts.
Context {D R : Type}.
Implicit Types s : WsState D R.

Definition spent s : Z := used (tn_budget (ws_turn s)).
Definition credit s : Z := if setup_credit (tn_budget (ws_turn s)) then 1 else 0.

(** From [s] to [s'] the budget has paid for all but [h] connections and [c] requests; a
    credit is a request paid for already. *)
Definition paid (h c : Z) s s' : Prop :=
  ∃ l, ws_wire s' = ws_wire s ++ l
    ∧ connections l <= spent s' - spent s + h
    ∧ requests l + credit s' <= spent s' - spent s + credit s + c
    ∧ spent s <= spent s' ∧ (spent s <= MAX_ATTEMPTS → spent s' <= MAX_ATTEMPTS).

Lemma paid_trans h1 c1 h2 c2 s1 s2 s3 : paid h1 c1 s1 s2 → paid h2 c2 s2 s3 → paid (h1 + h2) (c1 + c2) s1 s3.
Proof.
  intros (l1 & E1 & A1 & B1 & C1 & D1) (l2 & E2 & A2 & B2 & C2 & D2). exists (l1 ++ l2).
  unfold connections, requests in *. rewrite !count_app E2 E1 app_assoc. split_and!; [done|lia..].
Qed.

Lemma paid_le h c h' c' s s' : paid h c s s' → h <= h' → c <= c' → paid h' c' s s'.
Proof. intros (l & E & A & B & C & F) ? ?. exists l. split_and!; [done|lia..]. Qed.

Definition within : WsState D R → WsState D R → Prop := paid 0 0.
#[export] Instance within_preorder : PreOrder within.
Proof.
  split; [|intros s1 s2 s3; apply (paid_trans 0 0 0 0)].
  intros s. exists []. unfold connections, requests, count. cbn. rewrite app_nil_r. split_and!; [done|lia..].
Qed.

(** The money and what it buys. *)
Definition purse s := (ws_wire s, spent s, credit s).

Lemma same_purse s s' : purse s' = purse s → within s s'.
Proof.
  intros [= Ew Es Ec]. exists []. unfold connections, requests, count. cbn. rewrite Ew Es Ec app_nil_r. split_and!; [done|lia..].
Qed.

Context {E : Type}.
Notation M := (comp (WsState D R) E).

(** A computation that leaves so much owed. *)
Definition costs {A} (h c : Z) (m : M A) : Prop := ∀ s, paid h c s (m s).2.

Lemma within_purse {A} (m : M A) : keeps purse m → moves within m.
Proof. apply moves_keeps, same_purse. Qed.

Lemma costs_within {A} h c (m : M A) : moves within m → 0 <= h → 0 <= c → costs h c m.
Proof. intros Hm ? ? s. eapply paid_le; [apply Hm|done..]. Qed.

Lemma costs_after {A B} h c (m : M A) (f : A → M B) :
  moves within m → (∀ x, costs h c (f x)) → 0 <= h → 0 <= c → costs h c (bind m f).
Proof.
  intros Hm Hf ? ? s. specialize (Hm s). unfold bind. destruct (m s) as [[x|e] s']; cbn in *.
  - by apply (paid_trans 0 0 h c _ s'); [|apply Hf].
  - by eapply paid_le.
Qed.

Lemma costs_split {A B} h1 c1 h2 c2 (m : M A) (f : A → M B) :
  costs h1 c1 m → (∀ x, costs h2 c2 (f x)) → 0 <= h2 → 0 <= c2 → costs (h1 + h2) (c1 + c2) (bind m f).
Proof.
  intros Hm Hf ? ? s. specialize (Hm s). unfold bind. destruct (m s) as [[x|e] s']; cbn in *.
  - eapply paid_trans; [exact Hm|apply Hf].
  - eapply paid_le; [exact Hm|lia..].
Qed.

Lemma costs_then {A B} h c (m : M A) (f : A → M B) : costs h c m → (∀ x, moves within (f x)) → costs h c (bind m f).
Proof.
  intros Hm Hf. rewrite -(Z.add_0_r h) -(Z.add_0_r c). by apply costs_split.
Qed.

Lemma within_wait w : moves (E := E) within (wait w).
Proof. intros s. by apply same_purse. Qed.
End Accounts.

#[export] Hint Extern 1 (moves within (ask _)) => apply within_purse; solve [auto with keeps] : moves.
#[export] Hint Extern 1 (moves within (turn_is _)) => apply within_purse; solve [auto with keeps] : moves.
#[export] Hint Extern 1 (moves within (note_account _ _)) => apply within_purse; solve [auto with keeps] : moves.
#[export] Hint Extern 1 (moves within (update_shared _)) => apply within_purse; solve [auto with keeps] : moves.
#[export] Hint Extern 1 (moves within (on_shared _)) => apply within_purse; solve [auto with keeps] : moves.
#[export] Hint Extern 1 (moves within (update_turn _)) => apply within_purse; solve [auto with keeps] : moves.
#[export] Hint Extern 2 (moves within (modify _)) => apply within_purse; solve [auto with keeps] : moves.
#[export] Hint Resolve within_wait : moves.

(** ** Opening a connection *)
Section Spending.
Context {D R : Type} `{FastRand R}.
Context {EntryOrder : HashOrder AffinityKey AffinityEntry} {AvoidOrder : HashOrder AffinityKey AvoidEntry}.
Context (libs : WsLibraries) (settings : WsSettings) (w : World D).
Implicit Types a : ResolvedUpstream D.
Notation S_ := (WsState D R).

Lemma begin_purse b tm : let '(granted, b') := begin b tm in
  setup_credit b' = false ∧ used b' = used b + (if granted then 1 else 0) ∧ (granted = true → used b < MAX_ATTEMPTS).
Proof using.
  unfold begin. destruct (Resilience.available _ _) eqn:Ha; cbn; [|split_and!; [done|lia|done]].
  apply andb_prop in Ha as [Hu _]. apply Z.ltb_lt in Hu. cbn in Hu.
  destruct (_ && _); cbn; [split_and!; [done|lia|done]|]. destruct (_ =? _); cbn; split_and!; try done; lia.
Qed.

Lemma begin_for_purse b p m turn tm : let '(granted, b') := begin_for_provider b p m turn tm in
  (turn = true ∧ setup_credit b = true ∧ setup_credit b' = false ∧ used b' = used b)
  ∨ (used b' = used b + (if granted then 1 else 0) ∧ (granted = true → used b < MAX_ATTEMPTS)
     ∧ (if granted then setup_credit b' = false else setup_credit b' = true → setup_credit b = true)).
Proof using.
  unfold begin_for_provider. destruct (turn && setup_credit b) eqn:Hc.
  - apply andb_prop in Hc as [-> Hc]. unfold begin_turn. rewrite Hc. cbn. left. by split_and!.
  - destruct (provider_available _ _ _); [|right; split_and!; [lia|done|done]].
    pose proof (begin_purse b tm) as Hb. destruct (begin b tm) as [granted b']. destruct Hb as (Hf & Hu & Hm).
    right. split_and!; [done|done|]. by destruct granted; rewrite Hf.
Qed.

(** A granted attempt pays for a request in advance and, unless a credit is used, for a
    connection. *)
Lemma begin_pays {X} a turn (s : S_) :
  post (begin_ws_attempt (X := X) w a turn) (λ granted s', paid (if granted && negb turn then -1 else 0) (if granted then -1 else 0) s s')
    (λ _ _, False) s.
Proof using.
  assert (∀ (s' : S_) h c, ws_wire s' = ws_wire s → h <= 0 → c <= 0 → spent s <= spent s' + h →
    credit s' - c <= spent s' - spent s + credit s → spent s <= spent s' → (spent s <= MAX_ATTEMPTS → spent s' <= MAX_ATTEMPTS) →
    paid h c s s') as Hpay.
  { clear. intros s' h c Ew ? ? ? ? ? ?. exists []. unfold connections, requests, count. cbn. rewrite Ew app_nil_r.
    split_and!; [done|lia..|done]. }
  assert (0 <= credit s) as Hc0 by (unfold credit; destruct (setup_credit _); lia).
  unfold begin_ws_attempt. apply post_bind. unfold post at 1, gets. apply post_if; intros _.
  { apply Hpay; cbn; try lia; done. }
  apply post_bind. unfold post at 1, ask, state. apply post_bind. unfold post at 1, turn_is, gets. cbn [ws_turn set_ws_tick].
  pose proof (begin_for_purse (tn_budget (ws_turn s)) (up_id (ru_provider a)) (up_max_attempts (ru_provider a)) turn (wd_timing w (ws_tick s))) as Hb.
  destruct (begin_for_provider _ _ _ _ _) as [granted b']. apply post_bind. unfold post at 1, wait, modify.
  apply post_bind. unfold post at 1, gets. apply post_if; intros _; apply post_bind; unfold post at 1, update_turn, modify; cbn.
  { apply Hpay; unfold spent, credit in *; cbn; try done; lia. }
  apply Hpay; unfold spent, credit in *; cbn; try done; try (destruct granted, turn; cbn; lia).
  destruct Hb as [(-> & -> & -> & ->)|(-> & _ & Hs)]; destruct granted; cbn; try lia; [rewrite Hs; lia|].
  destruct (setup_credit b'); [rewrite Hs //; lia|lia].
Qed.

(** What is done with a granted attempt. *)
Lemma after_begin {X A} a (turn : bool) (f : bool → comp S_ (option X) A) :
  costs (if turn then 0 else 1) 1 (f true) → moves within (f false) → moves within (bind (begin_ws_attempt w a turn) f).
Proof using.
  intros Ht Hf s. pose proof (begin_pays (X := X) a turn s) as Hb. unfold post, bind in *.
  destruct (begin_ws_attempt w a turn s) as [[granted|e] s']; [|done]. destruct granted; cbn [andb] in Hb.
  - assert (paid 0 0 s (f true s').2) as H1; [|exact H1]. specialize (Ht s').
    destruct turn; [exact (paid_trans 0 (-1) 0 1 _ _ _ Hb Ht)|exact (paid_trans (-1) (-1) 1 1 _ _ _ Hb Ht)].
  - etransitivity; [exact Hb|apply Hf].
Qed.

(** *** Pieces that buy nothing *)
Lemma budget_within {X} : moves within (budget_available (X := X) (D := D) (R := R) w).
Proof using. unfold budget_available. carry. Qed.
Lemma provider_budget_within {X} a : moves within (provider_budget_available (X := X) (R := R) a).
Proof using. unfold provider_budget_available. carry. Qed.
Lemma since_within {X} t : moves within (since (X := X) (D := D) (R := R) w t).
Proof using. unfold since. carry. Qed.
Lemma time_left_within {X} a : moves within (time_left (X := X) (R := R) settings w a).
Proof using. unfold time_left. carry. Qed.
Lemma note_send_within {X} a : moves within (note_ws_send (X := X) (R := R) a).
Proof using. unfold note_ws_send. carry. Qed.
Lemma finish_trace_within {X} st e : moves within (finish_ws_trace (X := X) (D := D) (R := R) st e).
Proof using. unfold finish_ws_trace. carry. Qed.
Lemma settle_neutral_within {X} r : moves within (settle_neutral (X := X) (D := D) (R := R) w r).
Proof using. unfold settle_neutral. carry. Qed.
Lemma settle_within {X} r o : moves within (settle (X := X) (D := D) (R := R) w r o).
Proof using. unfold settle. carry. Qed.
Lemma reserve_within {X} f : moves within (reserve (X := X) (D := D) (R := R) w f).
Proof using. unfold reserve. carry. Qed.
Lemma mark_supported_within {X} k b : moves within (mark_supported (X := X) (D := D) (R := R) w k b).
Proof using. unfold mark_supported. carry. Qed.
Lemma keep_capacity_within {X} r : moves within (keep_capacity (X := X) (D := D) (R := R) w r).
Proof using. unfold keep_capacity. carry. Qed.
Lemma capability_within {X} k : moves within (capability (X := X) (D := D) (R := R) w k).
Proof using. unfold capability. carry. Qed.
Hint Resolve budget_within provider_budget_within since_within time_left_within note_send_within finish_trace_within
  settle_neutral_within settle_within reserve_within mark_supported_within keep_capacity_within capability_within : moves.
Lemma still_current_within {X} r (o : X) : moves within (still_current (D := D) (R := R) w r o).
Proof using. unfold still_current, return_. carry. Qed.
Lemma connect_auth_within a r start : moves within (connect_auth (D := D) (R := R) w a r start).
Proof using. unfold connect_auth, return_. carry. Qed.
Hint Resolve still_current_within connect_auth_within : moves.

Lemma write_costs {E} (e : WireEvent) (h c : Z) :
  connections [e] <= h → requests [e] <= c → costs (D := D) (R := R) (E := E) h c (write e).
Proof using. intros Hh Hc s. exists [e]. cbn. unfold spent, credit. cbn. split_and!; [done|lia..]. Qed.

(** *** A handshake *)
Lemma handshake_costs {X} a url headers : costs 1 0 (connect_upstream_ws (X := X) (R := R) libs settings w a url headers).
Proof using.
  unfold connect_upstream_ws. destruct (wl_client_request _ _); [apply costs_within; [carry|lia..]|].
  destruct (wl_client_headers _ _); [apply costs_within; [carry|lia..]|].
  apply costs_after; [carry| |lia..]. intros left_. apply costs_then; [by apply write_costs|intros ?; carry].
Qed.

Lemma replay_within ctx a r url connected lite :
  moves within (replay_connect (D := D) (R := R) libs settings w ctx a r url connected lite).
Proof using.
  unfold replay_connect. destruct (negb (_ && _)); [carry|]. apply moves_bind; [typeclasses eauto|carry|intros available].
  destruct (negb available); [carry|]. do 2 (apply moves_bind; [typeclasses eauto|carry|intros ?]).
  match goal with |- moves _ (match ?x with _ => _ end) => destruct x as [refreshed|e] end; [|carry].
  destruct (upstream_ws_headers _ _ _ _) as [headers|message]; [|unfold return_; carry].
  apply moves_bind; [typeclasses eauto|carry|intros shared]. destruct (negb _); [carry|].
  apply after_begin; cbn [negb andb]; [|carry]. apply costs_after; [carry| |lia..]. intros s.
  destruct (negb (reservation_current s r)); [apply costs_within; [carry|lia..]|].
  do 2 (apply costs_after; [carry| |lia..]; intros ?). destruct (target_of a) as [[p e] k].
  do 2 (apply costs_after; [carry| |lia..]; intros ?). apply (costs_split 1 0 0 1); [apply handshake_costs| |lia..].
  intros ?. apply costs_within; [carry|lia..].
Qed.

Lemma connect_result_costs a key r start connected lite :
  costs 0 1 (connect_result (D := D) (R := R) w a key r start connected lite).
Proof using.
  unfold connect_result. destruct connected as [[]|err]; [|apply costs_within; [carry|lia..]].
  apply costs_then; [|intros ?; carry]. intros s. exists []. unfold connections, requests, count, spent, credit. cbn.
  rewrite app_nil_r. destruct (setup_credit _); split_and!; try done; lia.
Qed.

Lemma connect_once_within {X} ctx a key r :
  moves within (connect_upstream_ws_once (X := X) (R := R) libs settings w ctx a key r).
Proof using.
  unfold connect_upstream_ws_once. apply moves_call. apply moves_bind; [typeclasses eauto|carry|intros start].
  destruct (build_upstream_websocket_url _ _ _ _ _ _) as [url|message]; [|carry].
  apply moves_bind; [typeclasses eauto|carry|intros auth].
  destruct (upstream_ws_headers _ _ _ _) as [headers|message]; [|carry].
  apply moves_bind; [typeclasses eauto|carry|intros ?]. apply after_begin; cbn [negb]; [|carry].
  do 2 (apply costs_after; [carry| |lia..]; intros ?). apply (costs_split 1 0 0 1); [apply handshake_costs| |lia..].
  intros connected. apply costs_after; [apply replay_within| |lia..]. intros [[connected' lite] replayed].
  apply costs_after; [carry| |lia..]. intros ?. apply connect_result_costs.
Qed.
Hint Resolve connect_once_within : moves.

Lemma connect_or_bridge_within {X} ctx a : moves within (connect_or_bridge_upstream (X := X) (R := R) libs settings w ctx a).
Proof using. unfold connect_or_bridge_upstream, connect_reserved. carry. Qed.
Hint Resolve connect_or_bridge_within : moves.

Lemma connect_attempts_within {X} ctx model affinity binding l faulted last :
  moves within (connect_attempts (X := X) (R := R) libs settings w ctx model affinity binding l faulted last).
Proof using. revert faulted last. induction l; intros faulted last; cbn [connect_attempts]; carry. Qed.
Hint Resolve connect_attempts_within : moves.

Lemma plan_for_within {X} ctx model affinity : moves within (plan_for (R := R) settings w ctx model affinity (X := X)).
Proof using.
  unfold plan_for. do 3 (apply moves_bind; [typeclasses eauto|carry|intros ?]). apply moves_state. intros s.
  destruct (build_upstream_plan _ _ _ _ _ _ _ _ _ _) as [[plan shared] rand]. by apply same_purse.
Qed.
Hint Resolve plan_for_within : moves.

Lemma connect_selected_within {X} ctx model : moves within (connect_selected_upstream (X := X) (R := R) libs settings w ctx model).
Proof using. unfold connect_selected_upstream. carry. Qed.
End Spending.

#[export] Hint Resolve budget_within provider_budget_within since_within time_left_within note_send_within finish_trace_within
  settle_neutral_within settle_within reserve_within still_current_within connect_selected_within : moves.

(** ** A turn *)
Section TurnSpending.
Context {D R : Type} `{FastRand R} `{Decimal D}.
Context {EntryOrder : HashOrder AffinityKey AffinityEntry} {AvoidOrder : HashOrder AffinityKey AvoidEntry}.
Context {SessionOrder : HashOrder string Session}.
Context (libs : WsLibraries) (settings : WsSettings) (w : World D).
Implicit Types a : ResolvedUpstream D.

Lemma pong_within {E} payload : moves (within (D := D) (R := R)) (write (E := E) (WireMessage (MPong payload))).
Proof using. intros s. exists [WireMessage (MPong payload)]. cbn. unfold connections, requests, count, spent, credit. cbn. split_and!; [done|lia..]. Qed.
Hint Resolve pong_within : moves.

Lemma send_downstream_within {X} m : moves within (send_downstream (X := X) (D := D) (R := R) w m).
Proof using. unfold send_downstream. carry. Qed.
Hint Resolve send_downstream_within : moves.
Lemma send_ws_error_within {X} st c m : moves within (send_ws_error (X := X) (D := D) (R := R) libs w st c m).
Proof using. unfold send_ws_error. carry. Qed.
Lemma send_turn_event_within {X} m : moves within (send_turn_event (X := X) (D := D) (R := R) w m).
Proof using. unfold send_turn_event. carry. Qed.
Lemma read_within {T X} a e (rd : Read T) : moves within (read_with_disconnect_grace (X := X) (R := R) settings w a e rd).
Proof using. unfold read_with_disconnect_grace. carry. Qed.
Lemma priced_within {X} r o a : moves within (priced (X := X) (R := R) w r o a).
Proof using. unfold priced, panic. carry. Qed.
Lemma settle_turn_within {X} r gone o : moves within (settle_turn (X := X) (D := D) (R := R) w r gone o).
Proof using. unfold settle_turn. carry. Qed.
Hint Resolve send_ws_error_within send_turn_event_within read_within priced_within settle_turn_within : moves.
Lemma record_turn_within {X} ctx a model t o r : moves within (record_turn (X := X) (R := R) libs w ctx a model t o r).
Proof using. unfold record_turn. carry. Qed.
Hint Resolve record_turn_within : moves.
Lemma fail_turn_within {X} ctx a model t o r k m sc : moves within (fail_turn (X := X) (R := R) libs w ctx a model t o r k m sc).
Proof using. unfold fail_turn. carry. Qed.
Hint Resolve fail_turn_within : moves.
Lemma finish_reading_within {X} ctx a model t start ts st retry g r :
  moves within (finish_reading (X := X) (R := R) libs settings w ctx a model t start ts st retry g r).
Proof using. unfold finish_reading, finish_forwarded_turn. carry. Qed.
Lemma refused_within {X} ctx a model t start e m : moves within (refused (X := X) (R := R) libs w ctx a model t start e m).
Proof using. unfold refused. carry. Qed.
Lemma observe_account_within {X} a st b : moves within (observe_codex_account_error (X := X) (R := R) libs w a st b).
Proof using. unfold observe_codex_account_error. carry. Qed.
Lemma note_event_within {X} event g start : moves within (note_event (X := X) (D := D) (R := R) w event g start).
Proof using. unfold note_event. carry. Qed.
Lemma note_byte_within {X} g start : moves within (note_byte (X := X) (D := D) (R := R) w g start).
Proof using. unfold note_byte. carry. Qed.
Lemma prepare_recovery_within {X} a event payload e :
  moves within (prepare_encrypted_recovery (X := X) (R := R) libs w a event payload e).
Proof using.
  unfold prepare_encrypted_recovery. carry.
  apply moves_state. intros s. destruct (prepare_retry _ _ _ _ _ _). by apply same_purse.
Qed.
Lemma forward_event_within {X} m g : moves within (forward_event (X := X) (D := D) (R := R) w m g).
Proof using. unfold forward_event. carry. Qed.
Lemma wants_recovery_within {X} p : moves within (wants_recovery (X := X) (D := D) (R := R) p).
Proof using. unfold wants_recovery. carry. Qed.
Hint Resolve finish_reading_within refused_within observe_account_within note_event_within note_byte_within
  prepare_recovery_within forward_event_within wants_recovery_within : moves.

Lemma native_loop_within {X} a request start reads g :
  moves within (native_loop (X := X) (R := R) libs settings w a request start reads g).
Proof using. revert g. induction reads; intros g; cbn [native_loop]; unfold native_step, native_text; carry. Qed.
Lemma bridge_event_within {X} a payload start event b : moves within (bridge_event (X := X) (R := R) libs w a payload start event b).
Proof using. unfold bridge_event. carry. Qed.
Hint Resolve native_loop_within bridge_event_within : moves.
Lemma bridge_events_within {X} a payload start events b : moves within (bridge_events (X := X) (R := R) libs w a payload start events b).
Proof using. revert b. induction events; intros b; cbn [bridge_events]; carry. Qed.
Hint Resolve bridge_events_within : moves.
Lemma bridge_step_within {X} a sse st payload start item b :
  moves within (bridge_step (X := X) (R := R) libs w a sse st payload start item b).
Proof using. unfold bridge_step. carry. Qed.
Hint Resolve bridge_step_within : moves.
Lemma bridge_loop_within {X} a sse st payload start reads b :
  moves within (bridge_loop (X := X) (R := R) libs settings w a sse st payload start reads b).
Proof using. revert b. induction reads; intros b; cbn [bridge_loop]; carry. Qed.
Hint Resolve bridge_loop_within : moves.

(** *** What is sent *)
Lemma native_within {X} ctx a model payload start :
  moves within (forward_native_response_create (X := X) (R := R) libs settings w ctx a model payload start).
Proof using.
  unfold forward_native_response_create. apply after_begin; cbn [negb]; [|carry].
  apply costs_after; [carry| |lia..]. intros reserved. destruct reserved as [r|e]; [|apply costs_within; [carry|lia..]].
  do 2 (apply costs_after; [carry| |lia..]; intros ?). apply costs_then; [by apply write_costs|intros ?; carry].
Qed.

Lemma dispatch_costs {X} a uri headers body t : costs 1 1 (dispatch (X := X) (R := R) libs w a uri headers body t).
Proof using. unfold dispatch. apply costs_then; [by apply write_costs|intros ?; carry]. Qed.

Lemma bridge_local_within {A} ctx a model start r st k m :
  moves within (bridge_local_failure (A := A) (R := R) libs w ctx a model start r st k m).
Proof using. unfold bridge_local_failure, bridge_failure, return_. carry. Qed.
Hint Resolve bridge_local_within : moves.
Lemma bridge_auth_within ctx a model start r : moves within (bridge_auth (R := R) libs w ctx a model start r).
Proof using. unfold bridge_auth, bridge_failure, return_. carry. Qed.
Lemma bridge_headers_within ctx a model start r auth body :
  moves within (bridge_made_headers (R := R) libs w ctx a model start r auth body).
Proof using. unfold bridge_made_headers. carry. Qed.
Lemma bridge_answer_within {X} ctx a model start payload r response :
  moves within (bridge_answer (X := X) (R := R) libs settings w ctx a model start payload r response).
Proof using. unfold bridge_answer. carry. Qed.
Hint Resolve bridge_auth_within bridge_headers_within bridge_answer_within : moves.

Lemma bridge_replay_within ctx a model start r uri body response :
  moves within (bridge_replay (R := R) libs settings w ctx a model start r uri body response).
Proof using.
  unfold bridge_replay. destruct (negb _); [carry|]. apply moves_bind; [typeclasses eauto|carry|intros available].
  destruct (negb _); [carry|]. do 2 (apply moves_bind; [typeclasses eauto|carry|intros ?]).
  match goal with |- moves _ (match ?x with _ => _ end) => destruct x as [refreshed|e] end; [|carry].
  do 2 (apply moves_bind; [typeclasses eauto|carry|intros ?]). apply after_begin; cbn [negb]; [|unfold return_; carry].
  do 4 (apply costs_after; [carry| |lia..]; intros ?). destruct (target_of a) as [[p e] k].
  do 2 (apply costs_after; [carry| |lia..]; intros ?). apply costs_then; [apply dispatch_costs|intros ?; carry].
Qed.
Hint Resolve bridge_replay_within : moves.

Lemma bridge_reserved_costs ctx a model start payload body r :
  costs 1 1 (bridge_with_reservation (R := R) libs settings w ctx a model start payload body r).
Proof using.
  unfold bridge_with_reservation. destruct (build_upstream_uri _ _ _ _ _); [|apply costs_within; [carry|lia..]].
  do 5 (apply costs_after; [carry| |lia..]; intros ?). apply costs_then; [apply dispatch_costs|intros ?; carry].
Qed.

Lemma bridge_within {X} ctx a model start payload :
  moves within (forward_http_bridge_response_create (X := X) (R := R) libs settings w ctx a model start payload).
Proof using.
  unfold forward_http_bridge_response_create. apply moves_call. destruct (bridge_payload _ _); [|unfold invalid_payload; carry].
  apply after_begin; cbn [negb]; [|carry]. apply costs_after; [carry| |lia..]. intros reserved.
  destruct reserved as [r|e]; [apply bridge_reserved_costs|apply costs_within; [carry|lia..]].
Qed.
Hint Resolve native_within bridge_within : moves.

Lemma forward_loop_within {X} fuel ctx active start payload :
  moves within (forward_loop (X := X) (R := R) libs settings w fuel ctx active start payload).
Proof using. revert payload. induction fuel; intros payload; cbn [forward_loop]; carry. Qed.
Hint Resolve forward_loop_within : moves.

Lemma forward_within {X} ctx active payload :
  moves within (forward_response_create (X := X) (R := R) libs settings w ctx active payload).
Proof using.
  unfold forward_response_create. do 3 (apply moves_bind; [typeclasses eauto|carry|intros ?]).
  apply moves_bind; [typeclasses eauto| |intros ?; carry]. apply moves_state. intros s.
  destruct (filter_known _ _ _ _ _ _ _) as [[f recovery] book]. by apply same_purse.
Qed.
End TurnSpending.
#[export] Hint Resolve send_downstream_within send_ws_error_within forward_within : moves.
