(* ===== verification/WsSession.v ===== *)
(** * WsSession: a WebSocket session

    Models [handle] and [serve_websocket] of [responses_ws.rs]: the answer to an upgrade, the
    messages of the client one after the other, the authorisation of every
    [response.create], the one model of a connection, the check of the open upstream before
    every attempt, the move to another provider when a turn failed before the client saw
    anything of it, and the rows the session and its turns leave in the log. *)
From Stdlib Require Import Ascii String.
From S2P Require Import Prelude Text Json ProbeProtocol Resilience Types RuntimeHealth ProviderRuntime Quota KeyRotation Selector Affinity ResponseEvents Recovery Caches Pricing Snapshot RoutingAvailability Routing Plan Reservation Slots OpenAi Headers RequestOverrides UpstreamUrl CodexRequests Relay Tap Prepare AttemptLoop WsParts WsConnect WsTurn WsRelay WsBudget Computation.

Local Open Scope string_scope.
Local Open Scope list_scope.
Local Open Scope Z_scope.
Local Open Scope loop_scope.

(** ** The upgrade *)

(** The answer to the upgrade request: an error, or a session with the key. *)
Inductive HandshakeReply := Refused (status : Z) (error_type : string) | Upgraded (api_key : ApiKeyAuth).

(** [token] is the bearer token of the request, [auth] what the key cache says of it,
    [upgrade] whether the request is a WebSocket handshake. *)
Definition handle {D} (token : option string) (auth : string → option ApiKeyAuth + string)
    (load : UpstreamSnapshot D + string) (upgrade : bool) : HandshakeReply :=
  match token with
  | None => Refused 401 "missing_bearer_token"
  | Some token =>
      match auth token with
      | inr _ => Refused 500 "api_key_validate_failed"
      | inl None => Refused 401 "invalid_api_key"
      | inl (Some api_key) =>
          if negb (has_any_websocket_provider load) then Refused 426 "websocket_not_supported"
          else if negb upgrade then Refused 400 "invalid_websocket"
          else Upgraded api_key
      end
  end.

(** ** The session *)
Section Session.
Context {D R : Type} `{FastRand R} `{Decimal D}.
Context {EntryOrder : HashOrder AffinityKey AffinityEntry} {AvoidOrder : HashOrder AffinityKey AvoidEntry}.
Context {SessionOrder : HashOrder string Recovery.Session}.
Context (libs : WsLibraries) (settings : WsSettings) (w : World D).

Notation M X := (comp (WsState D R) (option X)).
Notation lib := (wl_libs libs).
Notation send_ws_error := (send_ws_error libs w).

(** *** Rows and counts *)
Definition count_request {X} (m : RequestMetric D) : M X unit := modify (λ s, set_ws_requests (ws_requests s ++ [m]) s).
Definition log_row {X} (row : WsRow) : M X unit := modify (λ s, set_ws_log (ws_log s ++ [row]) s).

(** A row of the session itself: it has no target and no usage. *)
Definition session_row (ctx : WsContext) (id : option string) (status : Z) (error_type error_message : option string)
    (duration_ms : option Z) (time_ms : Z) (span_kind : string) (parent_id : option string) : WsRow :=
  MkRow id (ak_id (cx_api_key ctx)) (ak_log_enabled (cx_api_key ctx)) None None None status error_type error_message
    (None, None, None) duration_ms no_usage false (None, None) time_ms span_kind "ws" parent_id (Some (cx_session_id ctx))
    (None, None) (None, None) None None None.

Definition record_session_open {X} (ctx : WsContext) : M X unit :=
  let* permit := ask (wd_permit w) in
  if permit then log_row (session_row ctx (Some (cx_session_log_id ctx)) 101 None None None
                            (cx_session_started_at_ms ctx) "ws_session" None)
  else ret tt.

Definition record_session_close {X} (ctx : WsContext) : M X unit :=
  let* permit := ask (wd_permit w) in
  if negb permit then ret tt
  else
    let* gone := gets ws_gone in
    let* close := gets ws_close in
    let* now := ask (wd_ms w) in
    let* gone_ms := match gone with Some at_ => since w at_ | None => ret 0 end in
    let '(status, error_type, error_message) := close in
    let '(error_type, error_message) :=
      if is_some gone then (Some "client_disconnected", Some "client disconnected") else (error_type, error_message) in
    let* time_ms := ask (wd_ms w) in
    log_row (session_row ctx None status error_type error_message
      (Some (Z.max (i64_sat_sub (i64_sat_sub now (cx_session_started_at_ms ctx)) gone_ms) 0)) time_ms
      "ws_session_close" (Some (cx_session_log_id ctx))).

Definition record_ws_setup_failed_turn {X} (ctx : WsContext) (requested_model : option string) (status : Z)
    (error_type error_message : string) (start : Z) : M X unit :=
  let* duration := since w start in
  count_request (MkMetric status (Some error_type) (Some duration) no_usage usage_missing) ;;
  let* permit := ask (wd_permit w) in
  if negb permit then ret tt
  else
    let* time_ms := ask (wd_ms w) in
    let* t := gets ws_turn in
    log_row (MkRow None (ak_id (cx_api_key ctx)) (ak_log_enabled (cx_api_key ctx)) None None requested_model status
      (Some error_type) (Some error_message) (None, None, None) (Some duration) no_usage false (None, None) time_ms
      "ws_turn" (as_log_value WsSetup) (Some (cx_session_log_id ctx)) (Some (cx_session_id ctx))
      (cx_requested_reasoning_effort ctx, cx_requested_service_tier ctx) (cx_upstream_reasoning_effort ctx, None)
      None None (Some (tn_trace t, rr_trace (tn_recovery t)))).

(** The row of the turn, once it is known how long the client waited for it. *)
Definition set_duration (ms : Z) (row : WsRow) : WsRow :=
  MkRow (wr_id row) (wr_api_key_id row) (wr_log_enabled row) (wr_target row) (wr_upstream_api_format row) (wr_model row)
    (wr_http_status row) (wr_error_type row) (wr_error_message row) (wr_times row) (Some ms) (wr_usage row)
    (wr_usage_observed row) (wr_price row) (wr_time_ms row) (wr_span_kind row) (wr_transport row) (wr_parent_id row)
    (wr_ws_session_id row) (wr_requested row) (wr_upstream row) (wr_ttft_source row) (wr_service_tier row)
    (wr_routing_trace row).

Definition take_pending {X} : M X (option (PendingTurnLog D)) :=
  state (λ s, (tn_pending (ws_turn s), set_ws_turn (set_tn_pending None (ws_turn s)) s)).

Definition flush_turn {X} (start : Z) : M X unit :=
  let* pending := take_pending in
  match pending with
  | None => ret tt
  | Some pending =>
      let* elapsed := since w start in
      let* gone := gets ws_gone in
      let* gone_ms := match gone with Some at_ => since w at_ | None => ret 0 end in
      let row := set_duration (Z.max (i64_sat_sub elapsed gone_ms) 0) (pd_event pending) in
      count_request (MkMetric (wr_http_status row) (if pd_succeeded pending then None else wr_error_type row)
                       (wr_duration_ms row) (wr_usage row) (pd_pricing pending)) ;;
      if pd_permit pending then log_row row else ret tt
  end.

Definition close_with {X} (status : Z) (error_type message : string) : M X unit :=
  modify (set_ws_close (status, Some error_type, Some message)).

(** *** The open upstream *)

(** The connection is dropped, and its slot given back. *)
Definition drop_active {X} : M X unit :=
  modify (λ s, set_ws_active None
    (match opt_bind (ws_active s) au_capacity with
     | Some permit => set_shared (drop_capacity (Some permit) (ws_shared s)) s
     | None => s
     end)).

Definition refresh_active_upstream {X} (ctx : WsContext) (active : ActiveUpstream D) : M X (option string) :=
  wait w ;;
  let* load := ask (wd_load w) in
  match load with
  | inr message => ret (Some message)
  | inl snap =>
      update_turn (λ t, set_tn_trace (MkWsTrace (route_policy snap (au_requested_model active)) (wt_attempts (tn_trace t))
                                        (wt_last_number (tn_trace t))) t) ;;
      let* now := ask (wd_ms w) in
      let* refreshed := on_shared (λ s, refreshed_target s snap (cx_api_key ctx) (au_requested_model active)
                                          (au_resolved active) (is_some (au_capacity active)) now) in
      match refreshed with
      | inr message => ret (Some message)
      | inl resolved =>
          modify (set_ws_active (Some (MkActive (au_requested_model active) resolved (au_transport active)
                                         (au_responses_lite active) (au_capacity active)))) ;;
          ret None
      end
  end.

(** *** The payload of an attempt *)
Definition fast_tier_value (resolved : ResolvedUpstream D) (value : Value) : Value :=
  match value with
  | Object root =>
      if is_codex_oauth (ru_provider resolved) && str_is (get_str "service_tier" value) ["fast"]
      then Object (assoc_insert "service_tier" (String "priority") root) else value
  | value => value
  end.

Definition routed_value (ctx : WsContext) (active : ActiveUpstream D) (original : Value) : Value + string :=
  let resolved := au_resolved active in
  let value := normalize_response_create original (ru_upstream_model resolved) in
  let value := if is_codex_oauth (ru_provider resolved)
               then normalize_response_create_value value (ru_upstream_model resolved) else value in
  match apply_body_overrides_to_value (up_request_overrides (ru_provider resolved)) TargetResponses value (cx_request_id ctx) with
  | inr _ => inr "failed to apply provider request body overrides"
  | inl value =>
      inl (match fast_tier_value resolved value with
           | Object root => if au_responses_lite active then Object (normalize_object root) else Object root
           | value => value
           end)
  end.

(** The errors that end a turn before its attempt is sent. *)
Definition setup_failed {X} (ctx : WsContext) (requested_model : option string) (status : Z) (error_type message : string)
    (start : Z) : M X unit :=
  record_ws_setup_failed_turn ctx requested_model status error_type message start ;;
  send_ws_error status error_type message.

(** A failure inside the loop of attempts: what was recorded of an earlier attempt is dropped. *)
Definition abandon {X} (ctx : WsContext) (requested_model : string) (status : Z) (error_type message : string) (start : Z)
    : M X bool :=
  let* _ := take_pending in
  setup_failed ctx (Some requested_model) status error_type message start ;;
  ret false.

(** After a failure before any event: another provider takes over; [Some] ends the turn. *)
Definition take_over {X} (ctx : WsContext) (requested_model : string) (active : ActiveUpstream D) (err : WsBridgeError)
    : M X (option bool) :=
  let* gone := gets ws_gone in
  if is_some gone then ret (Some false)
  else
    update_turn (λ t, set_tn_providers (seed (tn_providers t) (up_id (ru_provider (au_resolved active)))) t) ;;
    drop_active ;;
    let* providers := turn_is tn_providers in
    if budget_exhausted providers then
      send_ws_error (be_status err) (be_error_type err) (be_message err) ;; ret (Some false)
    else
      let* connected := connect_selected_upstream libs settings w ctx requested_model in
      match connected with
      | inl upstream => modify (set_ws_active (Some upstream)) ;; ret None
      | inr e => send_ws_error (be_status e) (be_error_type e) (be_message e) ;; ret (Some false)
      end.

(** One attempt of the turn: [Some] tells whether the turn is complete, [None] that another
    provider has taken over. *)
Definition turn_attempt {X} (ctx : WsContext) (requested_model : string) (original : Value) (start : Z) : M X (option bool) :=
  let* active := gets ws_active in
  match active with
  | None => ret (Some false)
  | Some active =>
      let* changed := refresh_active_upstream ctx active in
      match changed with
      | Some message =>
          let* b := abandon ctx requested_model 503 "upstream_target_changed" message start in ret (Some b)
      | None =>
          let* active := gets (λ s, unwrap_or (ws_active s) active) in
          match routed_value ctx active original with
          | inr message => let* b := abandon ctx requested_model 500 "request_override_failed" message start in ret (Some b)
          | inl value =>
              match to_vec lib value with
              | None => let* b := abandon ctx requested_model 400 "invalid_payload" "failed to encode websocket payload" start in
                        ret (Some b)
              | Some payload =>
                  let ctx := MkWsContext (cx_api_key ctx) (cx_request_headers ctx) (cx_request_id ctx) (cx_session_id ctx)
                    (cx_session_log_id ctx) (cx_session_started_at_ms ctx) (reasoning_effort original) (reasoning_effort value)
                    (service_tier original) (service_tier value) in
                  update_turn (set_tn_observation default_observation) ;;
                  let* result := forward_response_create libs settings w ctx active payload in
                  match result with
                  | Complete => ret (Some true)
                  | Fatal | RetryEncryptedContent _ => ret (Some false)
                  | RetryableBeforeEvent err => take_over ctx requested_model active err
                  end
              end
          end
      end
  end.

(** Every round takes a provider the turn has not asked: see [turn_ends]. *)
Fixpoint turn_loop {X} (fuel : nat) (ctx : WsContext) (requested_model : string) (original : Value) (start : Z) : M X bool :=
  match fuel with
  | O => ret false
  | S fuel =>
      let* ended := turn_attempt ctx requested_model original start in
      match ended with
      | Some complete => ret complete
      | None => turn_loop fuel ctx requested_model original start
      end
  end.

Definition turn_rounds : nat := Z.to_nat MAX_DISTINCT_PROVIDERS.

(** *** A request of the client *)

(** [true] keeps the session open. *)
Definition reject_and_close {X} (ctx : WsContext) (requested_model : string) (status : Z) (error_type message : string) (start : Z)
    : M X bool :=
  setup_failed ctx (Some requested_model) status error_type message start ;;
  close_with status error_type message ;;
  ret false.

Definition recovery_key (ctx : WsContext) (text : string) : string :=
  match extract_affinity_identity (wl_blake3 libs) (parse lib) (text_header lib (cx_request_headers ctx)) text
          (ak_id (cx_api_key ctx)) with
  | Some identity => derived_prompt_cache_key identity
  | None => "ws:" +:+ show_Z (ak_id (cx_api_key ctx)) +:+ ":" +:+ cx_session_id ctx
  end.

(** An open socket is not a permanent grant. *)
Definition authorize_turn {X} (ctx : WsContext) : M X (option ApiKeyAuth) :=
  wait w ;;
  let* found := ask (wd_key w) in
  match found with
  | inl (Some key) =>
      let* now := (if ak_enabled key && is_some (ak_expires_at_ms key) then ask (wd_ms w) else ret 0) in
      if ak_enabled key && is_none_or (ak_expires_at_ms key) (λ at_, now <? at_) then ret (Some key)
      else send_ws_error 401 "invalid_api_key" "API key expired, disabled or removed" ;; ret None
  | inl None => send_ws_error 401 "invalid_api_key" "API key expired, disabled or removed" ;; ret None
  | inr _ => send_ws_error 500 "authorization_unavailable" "Unable to refresh authorization" ;; ret None
  end.

Definition with_api_key (key : ApiKeyAuth) (value : Value) (ctx : WsContext) : WsContext :=
  MkWsContext key (cx_request_headers ctx) (cx_request_id ctx) (cx_session_id ctx) (cx_session_log_id ctx)
    (cx_session_started_at_ms ctx) (reasoning_effort value) (cx_upstream_reasoning_effort ctx) (service_tier value)
    (cx_upstream_service_tier ctx).

(** A fresh turn. *)
Definition start_turn {X} (ctx : WsContext) (text : string) : M X Z :=
  let* start := ask (wd_at w) in
  let* enabled := ask (wd_recovery_enabled w) in
  let* now := ask (wd_at w) in
  modify (λ s, set_ws_turn (MkTurn (new_budget now (st_upstream_request_timeout (wt_settings settings)))
    (match ws_active s with Some active => seed ∅ (up_id (ru_provider (au_resolved active))) | None => ∅ end)
    (new_recovery enabled (Some (recovery_key ctx text))) default_ws_trace default_observation false None) s) ;;
  ret start.

(** The upstream of a session without one; [Some] is the error. *)
Definition ensure_active {X} (ctx : WsContext) (requested_model : string) : M X (option WsBridgeError) :=
  let* active := gets ws_active in
  match active with
  | Some _ => ret None
  | None =>
      let* connected := connect_selected_upstream libs settings w ctx requested_model in
      match connected with
      | inl upstream => modify (set_ws_active (Some upstream)) ;; ret None
      | inr e => ret (Some e)
      end
  end.

Definition finish_turn {X} (complete : bool) (start : Z) : M X bool :=
  flush_turn start ;;
  if complete then ret true else close_with 502 "websocket_turn_failed" "responses websocket turn failed" ;; ret false.

(** [rounds] bounds the attempts of the turn. *)
Definition response_create_in {X} (rounds : nat) (ctx : WsContext) (text : string) (value : Value) : M X bool :=
  let* key := authorize_turn ctx in
  match key with
  | None => ret false
  | Some key =>
      let ctx := with_api_key key value ctx in
      let* start := start_turn ctx text in
      match get_str "model" value with
      | None => setup_failed ctx None 400 "missing_model" "response.create is missing model" start ;; ret true
      | Some requested_model =>
          let* failed := ensure_active ctx requested_model in
          match failed with
          | Some e => reject_and_close ctx requested_model (be_status e) (be_error_type e) (be_message e) start
          | None =>
              let* active := gets ws_active in
              if negb (is_some_and active (λ a, String.eqb (au_requested_model a) requested_model)) then
                reject_and_close ctx requested_model 400 "model_changed"
                  "a responses websocket connection can only serve one routed model" start
              else
                let* complete := turn_loop rounds ctx requested_model value start in
                finish_turn complete start
          end
      end
  end.

Definition response_create {X} : WsContext → string → Value → M X bool := response_create_in turn_rounds.

(** *** Other events, and the messages of the client *)
Definition other_event {X} (value : Value) : M X bool :=
  let* active := gets ws_active in
  match active with
  | Some active =>
      match au_transport active with
      | NativeTransport =>
          match to_vec lib value with
          | None => ret true
          | Some serialized =>
              write (WireMessage (MText serialized)) ;;
              wait w ;;
              let* failed := ask (wd_write_error w) in
              match failed with
              | Some _ =>
                  close_with 502 "upstream_websocket_write_error" "failed to send non-create websocket event upstream" ;; ret false
              | None => ret true
              end
          end
      | BridgeTransport =>
          let message := "HTTP bridge only supports response.create events" in
          send_ws_error 400 "unsupported_http_bridge_event" message ;;
          close_with 400 "unsupported_http_bridge_event" message ;; ret false
      end
  | None =>
      let message := "response.create must be sent before other websocket events" in
      send_ws_error 400 "upstream_unavailable" message ;;
      close_with 400 "upstream_unavailable" message ;; ret true
  end.

Definition client_text {X} (ctx : WsContext) (text : string) : M X bool :=
  match parse lib text with
  | None => send_ws_error 400 "invalid_json" "invalid websocket JSON" ;; ret true
  | Some value =>
      match get_str "type" value with
      | None => send_ws_error 400 "missing_type" "websocket event is missing type" ;; ret true
      | Some event_type =>
          if String.eqb event_type "response.create" then response_create ctx text value else other_event value
      end
  end.

(** The reader notes that the client is gone before the message is handled. *)
Definition note_gone {X} : M X unit :=
  let* now := ask (wd_at w) in modify (λ s, set_ws_gone (opt_or (ws_gone s) (Some now)) s).

Definition client_message {X} (ctx : WsContext) (message : Message + string) : M X bool :=
  match message with
  | inr error => note_gone ;; close_with 400 "downstream_websocket_read_error" error ;; ret false
  | inl (MText text) => client_text ctx text
  | inl (MBinary _) => send_ws_error 400 "unsupported_message" "binary websocket messages are not supported" ;; ret true
  | inl (MPing payload) => send_downstream w (MPong payload)
  | inl (MPong _) | inl MFrame => ret true
  | inl (MClose frame) =>
      note_gone ;;
      let* active := gets ws_active in
      match active with
      | Some active => match au_transport active with
                       | NativeTransport => write (WireMessage (MClose frame)) ;; wait w
                       | BridgeTransport => ret tt
                       end
      | None => ret tt
      end ;;
      send_downstream w (MClose frame) ;; ret false
  end.

Fixpoint serve_messages {X} (ctx : WsContext) (messages : list (Message + string)) : M X unit :=
  match messages with
  | [] => note_gone
  | message :: messages =>
      wait w ;;
      let* go_on := client_message ctx message in
      if go_on then serve_messages ctx messages else ret tt
  end.

Definition serve_websocket {X} (ctx : WsContext) (messages : list (Message + string)) : M X unit :=
  record_session_open ctx ;;
  modify (set_ws_close (200, None, None)) ;;
  serve_messages ctx messages ;;
  record_session_close ctx.

(** A session from its start: whether it ends or panics, its upstream goes with it. *)
Definition new_session (books : Books) (rand : R) : WsState D R :=
  MkWs books rand (MkTurn (MkBudget 0 0 false ∅) ∅ (new_recovery false None) default_ws_trace default_observation false None)
    None None [] [] [] [] [] (200, None, None) 0.

Definition run_session (ctx : WsContext) (messages : list (Message + string)) (s : WsState D R) : WsState D R :=
  (drop_active (X := unit) (serve_websocket (X := unit) ctx messages s).2).2.
End Session.

(** ** Slots *)
Section SessionSlots.
Context {D R : Type} `{FastRand R} `{Decimal D}.
Context {EntryOrder : HashOrder AffinityKey AffinityEntry} {AvoidOrder : HashOrder AffinityKey AvoidEntry}.
Context {SessionOrder : HashOrder string Recovery.Session}.
Context (libs : WsLibraries) (settings : WsSettings) (w : World D) (w_steady : steady w).
Context (base : Z → Z) (base_ok : ∀ id, 0 <= base id < u32_max - 1).
Notation S_ := (WsState D R).

(** The slot of the open connection. *)
Definition active_slot (s : S_) (id : Z) : Z := slots_of (kept (opt_bind (ws_active s) au_capacity)) id.

(** The session holds the slot of its connection, and no other. *)
Definition occupied (s : S_) : Prop := ∀ id, flights id s = base id + active_slot s id.

(** A step that keeps it so. *)
Definition tidy (s s' : S_) : Prop := occupied s → occupied s'.
#[export] Instance tidy_preorder : PreOrder tidy.
Proof. split; [by intros s Hs|]. intros s1 s2 s3 A B Hs. by apply B, A. Qed.

Lemma tidy_step {E A} (m : comp S_ E A) : moves level m → keeps ws_active m → moves tidy m.
Proof using. intros Hl Ha s Hs id. rewrite Hl Hs. unfold active_slot. by rewrite Ha. Qed.

Lemma serves_active {E A} (m : comp S_ E A) : moves serves m → keeps ws_active m.
Proof using. intros Hm s. destruct (Hm s) as [Hb _]. exact (f_equal (λ v, v.1.1.1.1) (bh_around _ _ Hb)). Qed.

Hint Extern 3 (moves tidy (ask _)) => apply tidy_step; [auto with moves|keep] : moves.
Hint Extern 3 (moves tidy (turn_is _)) => apply tidy_step; [auto with moves|keep] : moves.
Hint Extern 3 (moves tidy (update_turn _)) => apply tidy_step; [auto with moves|keep] : moves.
Hint Extern 3 (moves tidy (write _)) => apply tidy_step; [auto with moves|keep] : moves.
Hint Extern 3 (moves tidy (wait _)) => apply tidy_step; [auto with moves|keep] : moves.
Hint Extern 4 (moves tidy (modify _)) => apply tidy_step; [auto with moves|keep] : moves.

Lemma send_downstream_tidy {X} m : moves tidy (send_downstream (X := X) (R := R) w m).
Proof using w_steady. apply tidy_step; [auto with moves|apply serves_active; auto with moves]. Qed.
Lemma send_ws_error_tidy {X} st c m : moves tidy (send_ws_error (X := X) (R := R) libs w st c m).
Proof using w_steady. apply tidy_step; [auto with moves|apply serves_active; auto with moves]. Qed.
Lemma since_tidy {X} t : moves tidy (since (X := X) (R := R) w t).
Proof using. unfold since. carry. Qed.
Hint Resolve send_downstream_tidy send_ws_error_tidy since_tidy : moves.

Lemma setup_row_tidy {X} ctx m st k e t : moves tidy (record_ws_setup_failed_turn (X := X) (R := R) w ctx m st k e t).
Proof using. unfold record_ws_setup_failed_turn, count_request, log_row. carry. Qed.
Lemma take_pending_tidy {X} : moves tidy (take_pending (X := X) (D := D) (R := R)).
Proof using. apply tidy_step; [|done]. by intros s id. Qed.
Hint Resolve setup_row_tidy take_pending_tidy : moves.
Lemma setup_failed_tidy {X} ctx m st k e t : moves tidy (setup_failed (X := X) (R := R) libs w ctx m st k e t).
Proof using w_steady. unfold setup_failed. carry. Qed.
Hint Resolve setup_failed_tidy : moves.
Lemma abandon_tidy {X} ctx m st k e t : moves tidy (abandon (X := X) (R := R) libs w ctx m st k e t).
Proof using w_steady. unfold abandon. carry. Qed.
Lemma flush_turn_tidy {X} t : moves tidy (flush_turn (X := X) (D := D) (R := R) w t).
Proof using. unfold flush_turn, count_request, log_row. carry. Qed.
Hint Resolve abandon_tidy flush_turn_tidy : moves.

Lemma tidy_ends {E A} (m : comp S_ E A) s : moves tidy m → occupied s → occupied (m s).2.
Proof using. intros Hm. apply Hm. Qed.

(** A turn holds a slot of its own while it runs. *)
Lemma forward_tidy {X} ctx active payload : moves tidy (forward_response_create (X := X) libs settings w ctx active payload).
Proof using base_ok w_steady.
  intros s Hs. set (base' := λ id, base id + active_slot s id).
  assert (∀ id, 0 <= base' id < u32_max) as Hb.
  { intros id. unfold base', active_slot. pose proof (slots_le (kept (opt_bind (ws_active s) au_capacity)) id). pose proof (base_ok id). lia. }
  pose proof (forward_accounted (X := X) libs settings w w_steady base' Hb ctx active payload s Hs) as Hf.
  pose proof (serves_active _ (forward_serves (X := X) libs settings w ctx active payload) s) as Ha.
  unfold post in Hf. destruct (forward_response_create _ _ _ _ _ _ s) as [[result|e] s']; cbn in *;
    intros id; rewrite (Hf id); unfold base', active_slot; by rewrite Ha.
Qed.

(** Dropping the connection gives its slot back. *)
Lemma drop_active_frees {X} (s : S_) : occupied s →
  occupied (drop_active (X := X) s).2 ∧ ws_active (drop_active (X := X) s).2 = None.
Proof using base_ok.
  intros Hs. split; [|done]. intros id. unfold active_slot, drop_active, modify. cbn [snd].
  destruct (opt_bind (ws_active s) au_capacity) as [permit|] eqn:E; cbn [ws_active set_ws_active set_shared opt_bind kept slots_of rv_capacity]; rewrite Z.add_0_r.
  - change (in_flight (drop_capacity (rv_capacity (kept (Some permit))) (ws_shared s)) id = base id). rewrite drop_capacity_in_flight.
    + specialize (Hs id). unfold flights, active_slot, ws_shared in *. rewrite E in Hs. cbn in *. lia.
    + intros id'. specialize (Hs id'). unfold flights, active_slot, ws_shared in *. rewrite E in Hs. rewrite Hs.
      pose proof (slots_le (kept (Some permit)) id'). pose proof (base_ok id'). lia.
  - specialize (Hs id). unfold active_slot in Hs. rewrite E in Hs. cbn in *. unfold flights, ws_shared in *. cbn in *. lia.
Qed.

(** A connection that was opened becomes the session's. *)
Definition opened (c : ActiveUpstream D + WsBridgeError) (s : S_) : Prop :=
  match c with inl upstream => occupied (set_ws_active (Some upstream) s) | inr _ => occupied s end.

Lemma connect_opens {X} ctx model (s : S_) :
  occupied s → ws_active s = None →
  post (E := option X) (connect_selected_upstream libs settings w ctx model) opened (λ _ _, False) s.
Proof using base_ok w_steady.
  intros Hs Hn.
  assert (free base s) as Hfree by (intros id; rewrite Hs; unfold active_slot; rewrite Hn; cbn; lia).
  assert (∀ id, 0 <= base id < u32_max) as Hb by (intros id; pose proof (base_ok id); lia).
  eapply post_weaken; [eapply post_and; [by apply (connect_selected_accounted libs settings w w_steady base Hb ctx model s (λ _ _, False))
    |apply (connect_selected_asks libs settings w ctx model s)]| |by intros e s' []].
  intros c s' [Hc [Ha _]]. assert (ws_active s' = None) as Hn'.
  { rewrite -Hn. exact (f_equal (λ v, v.1.1.1.1.1) (am_outer _ _ Ha)). }
  destruct c as [upstream|e]; cbn in *; intros id.
  - change (flights id (set_ws_active (Some upstream) s')) with (flights id s'). by rewrite (Hc id).
  - rewrite (Hc id). unfold active_slot. rewrite Hn'. cbn. lia.
Qed.

(** Connecting when there is no connection. *)
Lemma connect_tidy {X A} ctx model (f : ActiveUpstream D + WsBridgeError → comp S_ (option X) A) (s : S_) :
  occupied s → ws_active s = None → (∀ c s', opened c s' → occupied (f c s').2) →
  occupied (bind (connect_selected_upstream libs settings w ctx model) f s).2.
Proof using base_ok w_steady.
  intros Hs Hn Hf. pose proof (connect_opens (X := X) ctx model s Hs Hn) as Hc. unfold post, bind in *.
  destruct (connect_selected_upstream _ _ _ _ _ s) as [[c|e] s']; [by apply Hf|done].
Qed.

Lemma refreshed_runtime s (snap : UpstreamSnapshot D) key model resolved owns now :
  ss_provider_runtime (refreshed_target s snap key model resolved owns now).2 = ss_provider_runtime s.
Proof using.
  unfold refreshed_target. destruct (List.find _ _) as [provider|]; [|done].
  destruct (opt_bind _ _) as [k|]; [|done].
  pose proof (account_runtime s snap provider k (Some (ru_upstream_model resolved)) owns now) as Ha.
  destruct (account _ _ _ _ _ _ _) as [availability s']. cbn in Ha.
  destruct (negb _); [done|]. destruct (_ || _); [done|]. destruct (negb _); [done|].
  destruct (opt_bind _ _) as [endpoint|]; [|done]. by destruct (negb _).
Qed.

(** A step that leaves the slots and the connection alone. *)
Definition aside (s s' : S_) : Prop := level s s' ∧ ws_active s' = ws_active s.
#[export] Instance aside_preorder : PreOrder aside.
Proof.
  split; [by split|]. intros s1 s2 s3 [A1 A2] [B1 B2]. split; [by etransitivity|by rewrite B2].
Qed.
Lemma aside_step {E A} (m : comp S_ E A) : moves level m → keeps ws_active m → moves aside m.
Proof using. intros Hl Ha s. split; [apply Hl|apply Ha]. Qed.

Lemma post_aside {E A} (m : comp S_ E A) (Q : A → S_ → Prop) X s :
  stays m → moves level m → keeps ws_active m → (∀ a s', aside s s' → Q a s') → post m Q X s.
Proof using.
  intros Hst Hl Ha HQ. eapply (post_moves aside (λ _, True)); [done|done|by apply aside_step|done|]. intros a s' H1 _. by apply HQ.
Qed.

Lemma occupied_same (s s' : S_) active active' :
  occupied s → level s s' → ws_active s = Some active → ws_active s' = Some active' → au_capacity active' = au_capacity active →
  occupied s'.
Proof using. intros Hs Hl Ha Ha' Hc id. rewrite Hl Hs. unfold active_slot. by rewrite Ha Ha' /= Hc. Qed.

(** The check of the connection keeps its slot. *)
Lemma refresh_tidy {X} ctx active (s : S_) Y :
  ws_active s = Some active →
  post (refresh_active_upstream (X := X) w ctx active)
    (λ changed s', level s s' ∧ ∃ active', ws_active s' = Some active' ∧ au_capacity active' = au_capacity active) Y s.
Proof using w_steady.
  intros Ha. unfold refresh_active_upstream.
  assert (∀ s', aside s s' → level s s' ∧ ∃ active', ws_active s' = Some active' ∧ au_capacity active' = au_capacity active) as Hsame.
  { intros s' [Hl E]. split; [done|]. exists active. by rewrite E Ha. }
  apply post_bind, post_aside; [stay|carry|keep|]. intros ? s1 H1.
  apply post_bind, post_aside; [stay|carry|keep|]. intros load s2 H2.
  assert (aside s s2) as H02 by (by etransitivity). destruct load as [snap|message]; [|by apply Hsame].
  apply post_bind, post_aside; [stay|carry|keep|]. intros ? s3 H3.
  apply post_bind, post_aside; [stay|carry|keep|]. intros now s4 H4.
  apply post_bind, post_aside; [stay| |keep|].
  { apply level_on_shared. intros shared id. apply level_runtime, refreshed_runtime. }
  intros refreshed s5 H5.
  assert (aside s s5) as H05 by (etransitivity; [exact H02|]; etransitivity; [exact H3|]; by etransitivity).
  destruct refreshed as [resolved|message]; [|by apply Hsame]. apply post_bind. unfold post, modify, ret. cbn.
  split; [|by eexists]. apply H05.
Qed.

Lemma opened_ends {X A} (m : ActiveUpstream D → comp S_ (option X) A) (n : WsBridgeError → comp S_ (option X) A) c s :
  (∀ upstream s, occupied (set_ws_active (Some upstream) s) → occupied (m upstream s).2) → (∀ e, moves tidy (n e)) →
  opened c s → occupied (match c with inl upstream => m upstream | inr e => n e end s).2.
Proof using. intros Hm Hn. destruct c as [upstream|e]; cbn; [apply Hm|]. intros Hs. by apply Hn. Qed.

Lemma take_over_tidy {X} ctx model active err : moves tidy (take_over (X := X) libs settings w ctx model active err).
Proof using base_ok w_steady.
  unfold take_over. apply moves_bind; [typeclasses eauto|by intros s|]. intros gone. destruct (is_some gone); [by intros s|].
  apply moves_bind; [typeclasses eauto|carry|intros _]. intros s Hs.
  destruct (drop_active_frees (X := X) s Hs) as [Hd Hn]. unfold bind at 1.
  destruct (drop_active s) as [[[]|e] s1] eqn:E; cbn in Hd, Hn; [|done]. unfold bind at 1, turn_is, gets. cbn beta iota.
  destruct (budget_exhausted _); [apply tidy_ends; [carry|done]|].
  apply connect_tidy; [done|done|]. intros c s2. apply opened_ends; [by intros|]. intros e. carry.
Qed.
Hint Resolve take_over_tidy forward_tidy : moves.

Lemma turn_attempt_tidy {X} ctx model value start : moves tidy (turn_attempt (X := X) libs settings w ctx model value start).
Proof using base_ok w_steady.
  intros s Hs. unfold turn_attempt, bind at 1, gets at 1. cbn beta iota. destruct (ws_active s) as [active|] eqn:Ha; [|done].
  pose proof (refresh_tidy (X := X) ctx active s (λ _ _, False) Ha) as Hr. unfold post in Hr. unfold bind at 1.
  destruct (refresh_active_upstream w ctx active s) as [[changed|e] s1]; [|done].
  destruct Hr as (Hl & active' & Ha' & Hc). assert (occupied s1) as Hs1 by (by eapply occupied_same).
  apply tidy_ends; [|exact Hs1]. carry.
Qed.
Hint Resolve turn_attempt_tidy : moves.

Lemma turn_loop_tidy {X} fuel ctx model value start : moves tidy (turn_loop (X := X) libs settings w fuel ctx model value start).
Proof using base_ok w_steady. induction fuel; cbn [turn_loop]; carry. Qed.
Hint Resolve turn_loop_tidy : moves.

Lemma ensure_active_tidy {X} ctx model : moves tidy (ensure_active (X := X) libs settings w ctx model).
Proof using base_ok w_steady.
  intros s Hs. unfold ensure_active, bind at 1, gets. cbn beta iota. destruct (ws_active s) as [active|] eqn:Ha; [done|].
  apply connect_tidy; [done|done|]. intros c s1. apply opened_ends; [by intros|]. intros e. carry.
Qed.
Lemma authorize_tidy {X} ctx : moves tidy (authorize_turn (X := X) (R := R) libs w ctx).
Proof using w_steady. unfold authorize_turn. carry. Qed.
Lemma start_turn_tidy {X} ctx text : moves tidy (start_turn (X := X) (R := R) libs settings w ctx text).
Proof using. unfold start_turn. carry. apply tidy_step; [|done]. by intros s id. Qed.
Lemma reject_tidy {X} ctx m st k e t : moves tidy (reject_and_close (X := X) (R := R) libs w ctx m st k e t).
Proof using w_steady. unfold reject_and_close, close_with. carry. Qed.
Lemma finish_turn_tidy {X} c t : moves tidy (finish_turn (X := X) (D := D) (R := R) w c t).
Proof using. unfold finish_turn, close_with. carry. Qed.
Hint Resolve ensure_active_tidy authorize_tidy start_turn_tidy reject_tidy finish_turn_tidy : moves.

Lemma response_create_tidy {X} ctx text value : moves tidy (response_create (X := X) libs settings w ctx text value).
Proof using base_ok w_steady. unfold response_create, response_create_in. carry. Qed.
Lemma note_gone_tidy {X} : moves tidy (note_gone (X := X) (D := D) (R := R) w).
Proof using. unfold note_gone. carry. Qed.
Hint Resolve response_create_tidy note_gone_tidy : moves.

Lemma client_message_tidy {X} ctx message : moves tidy (client_message (X := X) libs settings w ctx message).
Proof using base_ok w_steady. unfold client_message, client_text, other_event, close_with. carry. Qed.
Hint Resolve client_message_tidy : moves.

Lemma serve_messages_tidy {X} ctx messages : moves tidy (serve_messages (X := X) libs settings w ctx messages).
Proof using base_ok w_steady. induction messages; cbn [serve_messages]; carry. Qed.
Hint Resolve serve_messages_tidy : moves.

Lemma serve_tidy {X} ctx messages : moves tidy (serve_websocket (X := X) libs settings w ctx messages).
Proof using base_ok w_steady. unfold serve_websocket, record_session_open, record_session_close, log_row. carry. Qed.
End SessionSlots.

(** C5. A session gives back every concurrency slot it took: whatever the client sends, whatever
    the upstreams answer, however many providers its turns tried, and also when it ends in a
    panic, no provider is left with a slot of a session that is over. (The other requests are
    taken to give back what they take while the session waits.) *)
Theorem session_returns_every_slot {D R} `{FastRand R} `{Decimal D} {EntryOrder : HashOrder AffinityKey AffinityEntry}
    {AvoidOrder : HashOrder AffinityKey AvoidEntry} {SessionOrder : HashOrder string Recovery.Session}
    libs settings (w : World D) ctx messages books (rand : R) :
  steady w → (∀ id, 0 <= in_flight (bk_shared books) id < u32_max - 1) →
  ∀ id, in_flight (ws_shared (run_session libs settings w ctx messages (new_session books rand))) id
        = in_flight (bk_shared books) id.
Proof.
  intros Hw Hb id. set (s := new_session books rand).
  assert (occupied (in_flight (bk_shared books)) s) as Hs.
  { intros id'. unfold active_slot. cbn. rewrite Z.add_0_r. done. }
  pose proof (serve_tidy (X := unit) libs settings w Hw _ Hb ctx messages s Hs) as H1.
  destruct (drop_active_frees (X := unit) _ Hb _ H1) as [Hd Hn]. specialize (Hd id).
  unfold active_slot in Hd. rewrite Hn in Hd. cbn in Hd. rewrite Z.add_0_r in Hd. exact Hd.
Qed.

(** ** What a turn sends *)
Section SessionBudget.
Context {D R : Type} `{FastRand R} `{Decimal D}.
Context {EntryOrder : HashOrder AffinityKey AffinityEntry} {AvoidOrder : HashOrder AffinityKey AvoidEntry}.
Context {SessionOrder : HashOrder string Recovery.Session}.
Context (libs : WsLibraries) (settings : WsSettings) (w : World D).
Notation S_ := (WsState D R).

Lemma take_pending_within {X} : moves within (take_pending (X := X) (D := D) (R := R)).
Proof using. intros s. by apply same_purse. Qed.
Lemma setup_row_within {X} ctx m st k e t : moves within (record_ws_setup_failed_turn (X := X) (R := R) w ctx m st k e t).
Proof using. unfold record_ws_setup_failed_turn, count_request, log_row. carry. Qed.
Hint Resolve take_pending_within setup_row_within : moves.
Lemma setup_failed_within {X} ctx m st k e t : moves within (setup_failed (X := X) (R := R) libs w ctx m st k e t).
Proof using. unfold setup_failed. carry. Qed.
Hint Resolve setup_failed_within : moves.
Lemma abandon_within {X} ctx m st k e t : moves within (abandon (X := X) (R := R) libs w ctx m st k e t).
Proof using. unfold abandon. carry. Qed.
Lemma flush_turn_within {X} t : moves within (flush_turn (X := X) (D := D) (R := R) w t).
Proof using. unfold flush_turn, count_request, log_row. carry. Qed.
Lemma drop_active_within {X} : moves within (drop_active (X := X) (D := D) (R := R)).
Proof using. intros s. apply same_purse. cbn. by destruct (opt_bind (ws_active s) au_capacity). Qed.
Hint Resolve abandon_within flush_turn_within drop_active_within : moves.
Lemma turn_attempt_within {X} ctx model value start : moves within (turn_attempt (X := X) (R := R) libs settings w ctx model value start).
Proof using. unfold turn_attempt, take_over, refresh_active_upstream. carry. Qed.
Hint Resolve turn_attempt_within : moves.
Lemma turn_loop_within {X} fuel ctx model value start :
  moves within (turn_loop (X := X) (R := R) libs settings w fuel ctx model value start).
Proof using. induction fuel; cbn [turn_loop]; carry. Qed.
Hint Resolve turn_loop_within : moves.

(** Asking for the authorization sends nothing, and starts with an empty purse. *)
Lemma authorize_frame {X} ctx : keeps (λ s : S_, (ws_wire s, ws_turn s, ws_active s, ws_log s, ws_requests s))
  (authorize_turn (X := X) libs w ctx).
Proof using. unfold authorize_turn, send_ws_error, send_downstream. keep. Qed.

Lemma start_turn_purse {X} ctx text (s : S_) Y :
  post (start_turn (X := X) libs settings w ctx text) (λ _ s', ws_wire s' = ws_wire s ∧ spent s' = 0 ∧ credit s' = 0) Y s.
Proof using. done. Qed.

(** C13. For one [response.create] at most three connections are opened or posts made, and at
    most three requests sent, whatever the providers answer and however often the turn moves
    to another provider, refreshes a token or leaves out encrypted content. *)
Theorem turn_exchanges_bounded {X} ctx text value (s : S_) :
  let s' := (response_create (X := X) libs settings w ctx text value s).2 in
  ∃ l, ws_wire s' = ws_wire s ++ l ∧ connections l <= MAX_ATTEMPTS ∧ requests l <= MAX_ATTEMPTS.
Proof using.
  assert (∀ s1 s2 : S_, ws_wire s1 = ws_wire s → spent s1 = 0 → credit s1 = 0 → within s1 s2 →
    ∃ l, ws_wire s2 = ws_wire s ++ l ∧ connections l <= MAX_ATTEMPTS ∧ requests l <= MAX_ATTEMPTS) as Hend.
  { intros s1 s2 Hw Hs Hc (l & El & Hh & Hr & _ & Hm). exists l. rewrite El Hw. rewrite Hs in Hh, Hr, Hm. rewrite Hc in Hr.
    assert (0 <= credit s2) by (unfold credit; destruct (setup_credit _); lia). unfold MAX_ATTEMPTS in *. split_and!; [done|lia..]. }
  intros s'. subst s'. unfold response_create, response_create_in. unfold bind at 1.
  pose proof (authorize_frame (X := X) ctx s) as Ha. cbn beta in Ha.
  destruct (authorize_turn libs w ctx s) as [[key|e] s1]; cbn [snd] in Ha; injection Ha as Hw _ _ _ _.
  2: { exists []. rewrite Hw app_nil_r. done. }
  destruct key as [key|]; [|exists []; cbn; rewrite Hw app_nil_r; done].
  unfold bind at 1. set (ctx' := with_api_key key value ctx).
  pose proof (start_turn_purse (X := X) ctx' text s1 (λ _ _, False)) as Hp. unfold post in Hp.
  destruct (start_turn _ _ _ _ _ s1) as [[start|e] s2]; [|done]. destruct Hp as (Hw2 & Hs2 & Hc2).
  apply (Hend s2); [by rewrite Hw2|done|done|]. revert s2 Hw2 Hs2 Hc2. intros s2 _ _ _.
  match goal with |- within s2 (?m s2).2 => assert (moves within m) as Hm; [|exact (Hm s2)] end.
  unfold ensure_active, reject_and_close, finish_turn, close_with. carry.
Qed.

(** An open socket is not a permanent grant: the key is read anew for every
    [response.create], and unless it is there, enabled and not expired, the client gets an
    error and the session ends, with nothing sent to an upstream, nothing logged and the turn
    not begun. *)
Theorem turn_needs_authorization {X} ctx text value (s : S_) :
  let n := S (ws_tick s) in
  let '(r, s') := response_create (X := X) libs settings w ctx text value s in
  (r = inl false ∧ ws_wire s' = ws_wire s ∧ ws_turn s' = ws_turn s ∧ ws_active s' = ws_active s ∧ ws_log s' = ws_log s
     ∧ ws_requests s' = ws_requests s)
  ∨ ∃ key, wd_key w n = inl (Some key) ∧ ak_enabled key = true ∧ (∀ at_, ak_expires_at_ms key = Some at_ → wd_ms w (S n) < at_).
Proof using.
  intros n. unfold response_create, response_create_in. unfold bind at 1. pose proof (authorize_frame (X := X) ctx s) as Ha.
  assert (match (authorize_turn (X := X) libs w ctx s).1 with
    | inl (Some key) => wd_key w n = inl (Some key) ∧ ak_enabled key = true ∧ (∀ at_, ak_expires_at_ms key = Some at_ → wd_ms w (S n) < at_)
    | inl None => True
    | inr _ => False
    end) as Hk.
  { clear Ha. unfold authorize_turn. assert (∀ (s : S_) st c m, match ((send_ws_error (X := X) libs w st c m ;; ret (None : option ApiKeyAuth)) s).1 with
      | inl None => True | _ => False end) as Herr.
    { intros s1 st c m. unfold send_ws_error, WsTurn.send_ws_error, send_downstream, bind, ask, state, wait, modify. cbn. by destruct (wd_accepted w _). }
    assert (∀ (m : comp S_ (option X) (option ApiKeyAuth)) s1, (match (m s1).1 with inl None => True | _ => False end) →
      match (m s1).1 with
      | inl (Some key) => wd_key w n = inl (Some key) ∧ ak_enabled key = true ∧ (∀ at_, ak_expires_at_ms key = Some at_ → wd_ms w (S n) < at_)
      | inl None => True
      | inr _ => False
      end) as Hno by (intros m s1; destruct (m s1).1 as [[k|]|]; done).
    unfold bind at 1, wait, modify. cbn beta iota. unfold bind at 1, ask at 1, state at 1. cbn [ws_tick set_ws_tick]. fold n.
    destruct (wd_key w n) as [[key|]|error] eqn:Ek; [|by apply Hno, Herr..].
    destruct (ak_enabled key) eqn:Ee; cbn [andb].
    - destruct (ak_expires_at_ms key) as [at_|] eqn:Ex; cbn [is_some is_none_or].
      + unfold bind at 1, ask at 1, state at 1. cbn [ws_tick set_ws_tick].
        destruct (wd_ms w (S n) <? at_) eqn:El; [|by apply Hno, Herr]. apply Z.ltb_lt in El. cbn. split_and!; [done..|]. intros at' E. rewrite Ex in E. by injection E as <-.
      + cbn. split_and!; [done..|]. intros at' E. by rewrite Ex in E.
    - unfold bind at 1, ret at 1. cbn beta iota. by apply Hno, Herr. }
  destruct (authorize_turn libs w ctx s) as [[[key|]|e] s1]; cbn [fst snd] in *; [|by left; injection Ha as -> -> -> -> ->|done].
  match goal with |- context [?m s1] => destruct (m s1) as [r s'] end. right. by exists key.
Qed.
End SessionBudget.

(** ** The rounds of a turn *)
Section TurnRounds.
Context {D R : Type} `{FastRand R} `{Decimal D}.
Context {EntryOrder : HashOrder AffinityKey AffinityEntry} {AvoidOrder : HashOrder AffinityKey AvoidEntry}.
Context {SessionOrder : HashOrder string Recovery.Session}.
Context (libs : WsLibraries) (settings : WsSettings) (w : World D).
Notation S_ := (WsState D R).
Notation anything := (λ _ _, True).

Definition asked (s : S_) : gset Z := tn_providers (ws_turn s).

(** The provider of the connection is one the turn has asked, and it has asked three at most. *)
Definition connected_asked (s : S_) : Prop :=
  (∃ active, ws_active s = Some active ∧ up_id (ru_provider (au_resolved active)) ∈ asked s)
  ∧ Z.of_nat (size (asked s)) <= MAX_DISTINCT_PROVIDERS.

Lemma post_here {A E V} (f : S_ → V) (m : comp S_ E A) (Q : A → S_ → Prop) s :
  keeps f m → (∀ x s', f s' = f s → Q x s') → post m Q anything s.
Proof using. intros Hm HQ. unfold post. specialize (Hm s). destruct (m s) as [[x|e] s']; [by apply HQ|done]. Qed.

Definition link (s : S_) := (ws_active s, asked s).

(** The check keeps the provider of the connection. *)
Lemma refresh_keeps_provider {X} ctx active (s : S_) :
  ws_active s = Some active →
  post (refresh_active_upstream (X := X) w ctx active)
    (λ _ s', asked s' = asked s ∧ ∃ active', ws_active s' = Some active'
       ∧ up_id (ru_provider (au_resolved active')) = up_id (ru_provider (au_resolved active))) anything s.
Proof using.
  intros Ha. unfold refresh_active_upstream.
  assert (∀ s', link s' = link s → asked s' = asked s ∧ ∃ active', ws_active s' = Some active'
    ∧ up_id (ru_provider (au_resolved active')) = up_id (ru_provider (au_resolved active))) as Hsame.
  { intros s' [= E1 E2]. split; [done|]. exists active. by rewrite E1 Ha. }
  apply post_bind, (post_here link); [keep|]. intros ? s1 H1. apply post_bind, (post_here link); [keep|]. intros load s2 H2.
  rewrite H1 in H2. destruct load as [snap|message]; [|by apply Hsame].
  apply post_bind, (post_here link); [keep|]. intros ? s3 H3. apply post_bind, (post_here link); [keep|]. intros now s4 H4.
  rewrite H3 H2 in H4. apply post_bind. unfold post at 1, on_shared, state.
  destruct (refreshed_target _ _ _ _ _ _ _) as [[resolved|message] shared] eqn:Er; [|by apply Hsame].
  apply refreshed_current in Er as [[_ Hid] _ _ _ _ _ _ _ _ _ _]. apply post_bind. unfold post, modify, ret. cbn.
  injection H4 as E1 E2. split; [exact E2|]. by eexists.
Qed.

Lemma seed_in (providers : gset Z) id : id ∈ providers → seed providers id = providers.
Proof using. unfold seed. set_solver. Qed.

(** Another provider takes over only while the turn may ask one more. *)
Lemma take_over_grows {X} ctx model active err (s : S_) :
  up_id (ru_provider (au_resolved active)) ∈ asked s →
  post (take_over (X := X) libs settings w ctx model active err)
    (λ ended s', ended = None → connected_asked s' ∧ (size (asked s) < size (asked s'))%nat) anything s.
Proof using.
  intros Hin. unfold take_over. apply post_bind. unfold post at 1, gets. apply post_if; intros _; [done|].
  apply post_bind. unfold post at 1, update_turn, modify. apply post_bind. unfold post at 1, drop_active, modify.
  match goal with |- post _ _ _ ?x => assert (asked x = asked s) as Hp; [|set (s1 := x) in *; clearbody s1] end.
  { unfold asked. destruct (opt_bind _ _); cbn; by apply seed_in. }
  apply post_bind. unfold post at 1, turn_is, gets. fold (asked s1). apply post_if; intros Hex.
  { apply post_bind, (post_here (λ _, tt)); [done|]. by intros. }
  apply post_bind. eapply post_weaken; [apply connect_selected_asks| |done]. intros c s2 [Hasks Hc].
  destruct c as [upstream|e].
  - apply post_bind. unfold post, modify, ret. cbn. intros _. destruct Hc as (_ & Hnew & Hnow).
    unfold budget_exhausted in Hex. rewrite Hp in Hex. apply Z.leb_gt in Hex.
    assert (asked s1 ⊂ asked s2) as Hsub by (pose proof (am_providers _ _ Hasks); unfold asked in *; set_solver).
    rewrite Hp in Hsub. split; [split|].
    + by exists upstream.
    + apply (am_size _ _ Hasks). fold (asked s1). rewrite Hp. lia.
    + by apply subset_size.
  - apply post_bind, (post_here (λ _, tt)); [done|]. by intros.
Qed.

Lemma attempt_grows {X} ctx model value start (s : S_) :
  connected_asked s →
  post (turn_attempt (X := X) libs settings w ctx model value start)
    (λ ended s', ended = None → connected_asked s' ∧ (size (asked s) < size (asked s'))%nat) anything s.
Proof using.
  intros [(active & Ha & Hin) Hsize]. unfold turn_attempt. apply post_bind. unfold post at 1, gets at 1. rewrite Ha.
  apply post_bind. eapply post_weaken; [by apply refresh_keeps_provider| |done]. intros changed s1 (Hp & active' & Ha' & Hid).
  assert (∀ (m : comp S_ (option X) bool) s, post (let* b := m in ret (Some b))
    (λ ended s', ended = None → connected_asked s' ∧ (size (asked s1) < size (asked s'))%nat) anything s) as Hend.
  { intros m s'. apply post_bind, (post_here (λ _, tt)); [done|]. by intros. }
  rewrite -Hp. destruct changed as [message|]; [apply Hend|]. apply post_bind. unfold post at 1, gets. rewrite Ha'. cbn [unwrap_or].
  destruct (routed_value _ _ _) as [payload_value|message]; [|apply Hend].
  destruct (to_vec _ _) as [payload|]; [|apply Hend].
  apply post_bind. unfold post at 1, update_turn, modify.
  match goal with |- post _ _ _ ?x => assert (asked x = asked s1) as Hp2 by done; set (s2 := x) in *; clearbody s2 end.
  apply post_bind, (post_along serves); [apply forward_serves|]. intros result s3 [Hb _].
  assert (asked s3 = asked s1) as Hp3 by (rewrite -Hp2; exact (f_equal snd (bh_around _ _ Hb))).
  destruct result as [| |err|]; [done|done| |done]. rewrite -Hp3. apply take_over_grows. by rewrite Hid Hp3 Hp.
Qed.

(** A turn is over after as many rounds as it may still ask providers, and one. *)
Lemma enough_rounds {X} k n ctx model value start (s : S_) :
  connected_asked s → MAX_DISTINCT_PROVIDERS < Z.of_nat (size (asked s)) + Z.of_nat k →
  turn_loop (X := X) libs settings w (k + n) ctx model value start s = turn_loop (X := X) libs settings w k ctx model value start s.
Proof using.
  revert s. induction k as [|k IH]; intros s Hs Hk.
  { destruct Hs as [_ Hs]. lia. }
  cbn [Nat.add turn_loop]. unfold bind. pose proof (attempt_grows (X := X) ctx model value start s Hs) as Ha.
  unfold post in Ha. destruct (turn_attempt _ _ _ _ _ _ _ s) as [[[complete|]|e] s']; [done| |done].
  destruct (Ha eq_refl) as [Hs' Hsize]. apply IH; [done|lia].
Qed.

Lemma start_turn_asked {X} ctx text (s : S_) Y :
  post (start_turn (X := X) libs settings w ctx text)
    (λ _ s', ws_active s' = ws_active s
       ∧ asked s' = match ws_active s with Some active => seed ∅ (up_id (ru_provider (au_resolved active))) | None => ∅ end) Y s.
Proof using. by unfold start_turn, post, bind, ask, state, modify. Qed.

Lemma ensure_active_asked {X} ctx model (s : S_) :
  asked s = match ws_active s with Some active => seed ∅ (up_id (ru_provider (au_resolved active))) | None => ∅ end →
  post (ensure_active (X := X) libs settings w ctx model) (λ failed s', failed = None → connected_asked s') anything s.
Proof using.
  intros Hs. unfold ensure_active. apply post_bind. unfold post at 1, gets. destruct (ws_active s) as [active|] eqn:Ha.
  - intros _. split; [exists active; split; [done|]|]; rewrite Hs; unfold seed; [set_solver|].
    rewrite right_id_L size_singleton. done.
  - apply post_bind. eapply post_weaken; [apply connect_selected_asks| |done]. intros c s2 [Hasks Hc].
    destruct c as [upstream|e]; [|done]. apply post_bind. unfold post, modify, ret. cbn. intros _.
    destruct Hc as (_ & _ & Hnow). split; [by exists upstream|]. apply (am_size _ _ Hasks). fold (asked s). by rewrite Hs size_empty.
Qed.

Lemma bind_at {A B E} (m : comp S_ E A) (f g : A → comp S_ E B) s :
  (∀ a s', m s = (inl a, s') → f a s' = g a s') → bind m f s = bind m g s.
Proof using. intros Hfg. unfold bind. destruct (m s) as [[a|e] s']; [by apply Hfg|done]. Qed.

(** C40. Every turn ends: the loop that moves it from provider to provider takes a provider the
    turn has not asked in each round, of which there are three, so after three rounds it has
    ended by itself - allowing more changes nothing. *)
Theorem turn_ends {X} n ctx text value (s : S_) :
  response_create_in (X := X) libs settings w (turn_rounds + n) ctx text value s
  = response_create libs settings w ctx text value s.
Proof using.
  unfold response_create, response_create_in. apply bind_at. intros [key|] s1 _; [|done].
  apply bind_at. intros start s2 E2. pose proof (start_turn_asked (X := X) (with_api_key key value ctx) text s1 (λ _ _, False)) as Hp.
  unfold post in Hp. rewrite E2 in Hp. destruct Hp as [Hact Hp]. rewrite -Hact in Hp.
  destruct (get_str "model" value) as [model|]; [|done].
  apply bind_at. intros [failed|] s3 E3; [done|].
  pose proof (ensure_active_asked (X := X) (with_api_key key value ctx) model s2 Hp) as He. unfold post in He. rewrite E3 in He.
  specialize (He eq_refl). apply bind_at. intros active s4 [= _ <-]. destruct (negb _); [done|].
  unfold bind. rewrite enough_rounds; [done|exact He|]. destruct He as [(up & _ & Hin) _].
  assert (size (asked s3) ≠ 0)%nat by (intros Hz%size_empty_inv; set_solver). unfold turn_rounds, MAX_DISTINCT_PROVIDERS. lia.
Qed.
End TurnRounds.

(** ** Concrete sessions *)
(** Two turns: the first ends well, the second fails at the first provider and is taken over. *)
Definition wy_script (failing : nat → bool) (n : nat) : list string := if failing n then ["fail"] else ["delta"; "done"].

Definition wy_serve (failing : nat → bool) (messages : list (Message + string)) : (unit + option unit) * WsState Z Z :=
  serve_websocket (H0 := whole) (EntryOrder := canonical_order) (AvoidOrder := canonical_order)
    (SessionOrder := canonical_order) wx_libs wx_settings (wx_world (inl wx_snapshot) (wy_script failing) None) wx_ctx
    messages (new_session (wx_books wv_fresh) 7).

Example quiet_session_run :
  let s := (wy_serve (λ _, false) [inl (MText "create")]).2 in
  ws_out s = [MText "delta"; MText "done"]
  ∧ ws_wire s = [WireHandshake (2, 211, 21); WireCreate (2, 211, 21) "response.create"]
  ∧ in_flight (ws_shared s) 2 = 1 ∧ map wr_span_kind (ws_log s) = ["ws_session"; "ws_turn"; "ws_session_close"].
Proof. vm_compute. repeat split; reflexivity. Qed.

(** The first provider fails before the client saw anything, and the second takes over. *)
Example failover_session_run :
  let s := (wy_serve (λ n, (n <? 50)%nat) [inl (MText "create")]).2 in
  ws_out s = [MText "delta"; MText "done"]
  ∧ ws_wire s = [WireHandshake (2, 211, 21); WireCreate (2, 211, 21) "response.create";
                 WireHandshake (1, 111, 11); WireCreate (1, 111, 11) "response.create"]
  ∧ in_flight (ws_shared s) 2 = 0 ∧ in_flight (ws_shared s) 1 = 1.
Proof. vm_compute. repeat split; reflexivity. Qed.

Lemma session_returns_every_slot_witness :
  in_flight (ws_shared (wy_serve (λ n, (n <? 50)%nat) [inl (MText "create")]).2) 1 = 1
  ∧ ∀ id, in_flight (ws_shared (run_session (H0 := whole) (EntryOrder := canonical_order) (AvoidOrder := canonical_order)
      (SessionOrder := canonical_order) wx_libs wx_settings (wx_world (inl wx_snapshot) (wy_script (λ n, (n <? 50)%nat)) None) wx_ctx
      [inl (MText "create")] (new_session (wx_books wv_fresh) 7))) id = 0.
Proof.
  assert (∀ id, in_flight wv_fresh id = 0) as H0.
  { intros id. unfold in_flight, runtime_entry, wv_fresh. cbn [ss_provider_runtime by_provider new_runtime_book].
    rewrite lookup_empty. reflexivity. }
  split; [vm_compute; reflexivity|]. intros id. rewrite -(H0 id).
  apply (session_returns_every_slot (H0 := whole) (EntryOrder := canonical_order) (AvoidOrder := canonical_order)
      (SessionOrder := canonical_order) wx_libs wx_settings (wx_world (inl wx_snapshot) (wy_script (λ n, (n <? 50)%nat)) None) wx_ctx
      [inl (MText "create")] (wx_books wv_fresh) 7).
  - intros n b i. reflexivity.
  - intros i. change (bk_shared (wx_books wv_fresh)) with wv_fresh. rewrite H0. split; [discriminate|reflexivity].
Defined.
