(* ===== verification/Notification.v ===== *)
(** * Notification: channels, rules and schedules

    Models [notification/mod.rs]: the kinds and configurations of channels and rules, the
    errors of the notification API, the validation of a rule and the arithmetic of cron
    schedules. The [cron] and [chrono] packages are the class [CronLib]; what the theorems use
    of them is [CronOk]: the occurrences of a schedule in a time zone are a set of instants,
    and the package finds the next and the previous one. *)
From Stdlib Require Import SpecFloat.
From Stdlib Require Import Ascii String.
From S2P Require Import Prelude Float64 Text.

Local Open Scope string_scope.
Local Open Scope list_scope.
Local Open Scope Z_scope.

Definition DEFAULT_TIMEZONE : string := "Asia/Shanghai".
Definition DEFAULT_TOP_N : Z := 20.
Definition MAX_TOP_N : Z := 100.
Definition MIN_TOP_N : Z := 5.
Definition HISTORY_RETENTION_MS : Z := 90 * 86400000.
Definition DELIVERY_LEASE_MS : Z := 120000.
Definition RULE_LEASE_MS : Z := 120000.

(** ** Errors *)
Record NotificationError := MkNotifyError {
  ne_status : Z;
  ne_code : string;
  ne_message : string;
  ne_field : option string
}.

Definition bad_request (code message : string) (field : option string) : NotificationError := MkNotifyError 400 code message field.
Definition not_found (message : string) : NotificationError := MkNotifyError 404 "not_found" message None.
Definition conflict (code message : string) : NotificationError := MkNotifyError 409 code message None.
Definition internal (message : string) : NotificationError := MkNotifyError 500 "notification_internal_error" message None.

(** ** Channels *)
Inductive ChannelKind := SmtpKind | WebhookKind.
#[export] Instance channel_kind_eq_dec : EqDecision ChannelKind.
Proof. solve_decision. Defined.

Definition channel_kind_as_str (k : ChannelKind) : string := match k with SmtpKind => "smtp" | WebhookKind => "webhook" end.
Definition channel_kind_from_str (s : string) : ChannelKind + NotificationError :=
  if String.eqb s "smtp" then inl SmtpKind
  else if String.eqb s "webhook" then inl WebhookKind
  else inr (bad_request "invalid_channel_kind" "channel kind must be smtp or webhook" (Some "kind")).

Inductive SmtpSecurity := Starttls | Tls | NoSecurity.

Record SmtpChannelConfig := MkSmtp {
  sm_host : string;
  sm_port : Z;
  sm_security : SmtpSecurity;
  sm_username : option string;
  sm_password : option string;
  sm_from_name : option string;
  sm_from_email : string;
  sm_recipients : list string
}.

Record WebhookHeader := MkWebhookHeader { wh_name : string; wh_value : string }.

Inductive WebhookFormat := Generic | Feishu | Wecom | Dingtalk | Slack | Discord.
#[export] Instance webhook_format_eq_dec : EqDecision WebhookFormat.
Proof. solve_decision. Defined.

Record WebhookChannelConfig := MkWebhook {
  wk_url : string;
  wk_format : WebhookFormat;
  wk_signing_secret : string;
  wk_headers : list WebhookHeader
}.

Inductive ChannelConfig := Smtp (config : SmtpChannelConfig) | Webhook (config : WebhookChannelConfig).

Definition channel_kind (c : ChannelConfig) : ChannelKind := match c with Smtp _ => SmtpKind | Webhook _ => WebhookKind end.

(** ** Rules *)
Inductive RuleKind := ScheduledReportKind | ThresholdAlertKind.
#[export] Instance rule_kind_eq_dec : EqDecision RuleKind.
Proof. solve_decision. Defined.

Definition rule_kind_as_str (k : RuleKind) : string :=
  match k with ScheduledReportKind => "scheduled_report" | ThresholdAlertKind => "threshold_alert" end.

Inductive AlertMetric :=
  CpuUsagePercent | MemoryUsagePercent | UnhealthyProviderCount | RequestCount | ErrorRatePercent | TotalTokens | EstimatedCostUsd.
#[export] Instance alert_metric_eq_dec : EqDecision AlertMetric.
Proof. solve_decision. Defined.

Definition is_usage (m : AlertMetric) : bool :=
  match m with RequestCount | ErrorRatePercent | TotalTokens | EstimatedCostUsd => true | _ => false end.

Inductive AlertScopeKind := GlobalScope | ProviderScope | ClientKeyScope.
#[export] Instance alert_scope_kind_eq_dec : EqDecision AlertScopeKind.
Proof. solve_decision. Defined.

Inductive AlertOperator := Gt | Gte | Lt | Lte.

(** [f64] comparisons: every one of them is false of a NaN. *)
Definition matches (o : AlertOperator) (value threshold : f64) : bool :=
  match o with
  | Gt => SFltb threshold value
  | Gte => SFleb threshold value
  | Lt => SFltb value threshold
  | Lte => SFleb value threshold
  end.

Inductive NotificationLocale := ZhCn | EnUs.
Definition locale_as_str (l : NotificationLocale) : string := match l with ZhCn => "zh-CN" | EnUs => "en-US" end.
Definition localized (l : NotificationLocale) (zh en : string) : string := match l with ZhCn => zh | EnUs => en end.

Record ScheduledReportConfig := MkReportConfig {
  rc_cron : string;
  rc_timezone : string;
  rc_locale : NotificationLocale;
  rc_top_n : Z
}.

Record ThresholdAlertConfig := MkAlertConfig {
  ac_metric : AlertMetric;
  ac_scope_kind : AlertScopeKind;
  ac_scope_id : option Z;
  ac_operator : AlertOperator;
  ac_threshold : f64;
  ac_window_minutes : Z;
  ac_minimum_requests : Z;
  ac_trigger_after : Z;
  ac_recover_after : Z;
  ac_cooldown_minutes : Z;
  ac_send_recovery : bool;
  ac_locale : NotificationLocale
}.

Inductive RuleConfig := ScheduledReport (config : ScheduledReportConfig) | ThresholdAlert (config : ThresholdAlertConfig).

Definition rule_kind (c : RuleConfig) : RuleKind :=
  match c with ScheduledReport _ => ScheduledReportKind | ThresholdAlert _ => ThresholdAlertKind end.

(** ** Schedules *)

(** [cron_before s z t] and [cron_after s z t]: the occurrence before and after the instant
    [t], both strictly; [valid_timestamp]: the instants [chrono] can represent. *)
Class CronLib := {
  Schedule : Type;
  Zone : Type;
  schedule_from_str : string → Schedule + string;
  zone_from_str : string → option Zone;
  cron_after : Schedule → Zone → Z → option Z;
  cron_before : Schedule → Zone → Z → option Z;
  valid_timestamp : Z → bool
}.

Class CronOk `{CronLib} := {
  occurs : Schedule → Zone → Z → Prop;
  cron_after_spec : ∀ s z t u, cron_after s z t = Some u → t < u ∧ occurs s z u ∧ ∀ v, occurs s z v → t < v → u <= v;
  cron_after_none : ∀ s z t, cron_after s z t = None → ∀ v, occurs s z v → ¬ t < v;
  cron_before_spec : ∀ s z t u, cron_before s z t = Some u → u < t ∧ occurs s z u ∧ ∀ v, occurs s z v → v < t → v <= u;
  cron_before_none : ∀ s z t, cron_before s z t = None → ∀ v, occurs s z v → ¬ v < t
}.

(** [str::split_whitespace]: the number of pieces; every round consumes a byte. *)
Fixpoint count_words (fuel : nat) (inside : bool) (l : list ascii) : Z :=
  match fuel, l with
  | O, _ | _, [] => 0
  | S fuel, _ :: rest =>
      match strip_space wide_spaces l with
      | Some rest => count_words fuel false rest
      | None => (if inside then 0 else 1) + count_words fuel true rest
      end
  end.

Definition split_whitespace_count (s : string) : Z := count_words (String.length s) false (chars s).

(** Repeats a step at most [p] times, until it gives a result. *)
Fixpoint iter_until {S A} (p : positive) (step : S → S + A) (s : S) : S + A :=
  match p with
  | xH => step s
  | xO p => match iter_until p step s with inl s => iter_until p step s | inr a => inr a end
  | xI p => match step s with
            | inl s => match iter_until p step s with inl s => iter_until p step s | inr a => inr a end
            | inr a => inr a
            end
  end.

Section Schedules.
Context `{CronLib}.

Definition parse_schedule (expression timezone : string) : (Schedule * Zone) + NotificationError :=
  let expression := trim expression in
  if negb (split_whitespace_count expression =? 5) then
    inr (bad_request "invalid_cron" "cron expression must contain 5 fields: minute hour day month weekday" (Some "cron"))
  else
    match schedule_from_str ("0 " +:+ expression) with
    | inr error => inr (bad_request "invalid_cron" error (Some "cron"))
    | inl schedule =>
        match zone_from_str (trim timezone) with
        | None => inr (bad_request "invalid_timezone" "timezone must be a valid IANA timezone" (Some "timezone"))
        | Some zone => inl (schedule, zone)
        end
    end.

Definition datetime_from_ms (ms : Z) : Z + NotificationError :=
  if valid_timestamp ms then inl ms
  else inr (bad_request "invalid_timestamp" "timestamp is outside the supported range" None).

(** [schedule.after(&from).take(count)] *)
Fixpoint take_occurrences (schedule : Schedule) (zone : Zone) (from : Z) (count : nat) : list Z :=
  match count with
  | O => []
  | S count =>
      match cron_after schedule zone from with
      | Some at_ => at_ :: take_occurrences schedule zone at_ count
      | None => []
      end
  end.

Definition next_occurrences (expression timezone : string) (from_ms : Z) (count : nat) : list Z + NotificationError :=
  let? parsed := parse_schedule expression timezone in
  let '(schedule, zone) := parsed in
  let? from := datetime_from_ms from_ms in
  inl (take_occurrences schedule zone from count).

Definition previous_occurrence (expression timezone : string) (at_ms : Z) : Z + NotificationError :=
  let? parsed := parse_schedule expression timezone in
  let '(schedule, zone) := parsed in
  let? at_ := datetime_from_ms at_ms in
  ok_or (cron_before schedule zone at_)
    (bad_request "cron_has_no_previous_occurrence" "cron expression has no previous occurrence" (Some "cron")).

(** One round of the count: the occurrence after [at_], up to the boundary. *)
Definition count_step (schedule : Schedule) (zone : Zone) (boundary : Z) (s : Z * Z) : (Z * Z) + Z :=
  let '(at_, count) := s in
  if count =? u32_max then inr count
  else match cron_after schedule zone at_ with
       | Some next => if next <=? boundary then inl (next, count + 1) else inr count
       | None => inr count
       end.

(** Every round passes a millisecond at least: [count_ends] shows that the fuel is enough. *)
Definition count_occurrences (schedule : Schedule) (zone : Zone) (from boundary : Z) : Z :=
  match iter_until (Z.to_pos (boundary - from + 1)) (count_step schedule zone boundary) (from, 0) with
  | inl (_, count) | inr count => count
  end.

Definition missed_occurrence_count (expression timezone : string) (scheduled_from_ms boundary_ms : Z) : Z + NotificationError :=
  if boundary_ms <=? scheduled_from_ms then inl 0
  else
    let? parsed := parse_schedule expression timezone in
    let '(schedule, zone) := parsed in
    let? from := datetime_from_ms (i64_sat_sub scheduled_from_ms 1) in
    inl (u32_sat_sub (count_occurrences schedule zone from boundary_ms) 1).

(** ** Validation of a rule *)
Definition in_range (lo hi n : Z) : bool := (lo <=? n) && (n <=? hi).

Definition validate_alert_scope (config : ThresholdAlertConfig) : unit + NotificationError :=
  match ac_scope_kind config, ac_scope_id config with
  | GlobalScope, Some _ => inr (bad_request "invalid_scope" "global scope must not include scope_id" (Some "scope_id"))
  | GlobalScope, None => inl tt
  | _, scope_id =>
      if unwrap_or scope_id 0 <=? 0 then
        inr (bad_request "invalid_scope" "provider and client_key scopes require a positive scope_id" (Some "scope_id"))
      else inl tt
  end.

Definition validate_alert_config (config : ThresholdAlertConfig) : unit + NotificationError :=
  if negb (f64_is_finite (ac_threshold config)) then
    inr (bad_request "invalid_threshold" "threshold must be finite" (Some "threshold"))
  else if negb (in_range 5 1440 (ac_window_minutes config)) then
    inr (bad_request "invalid_window_minutes" "window_minutes must be between 5 and 1440" (Some "window_minutes"))
  else if negb (in_range 1 10 (ac_trigger_after config)) then
    inr (bad_request "invalid_trigger_after" "trigger_after must be between 1 and 10" (Some "trigger_after"))
  else if negb (in_range 1 10 (ac_recover_after config)) then
    inr (bad_request "invalid_recover_after" "recover_after must be between 1 and 10" (Some "recover_after"))
  else if negb (in_range 5 1440 (ac_cooldown_minutes config)) then
    inr (bad_request "invalid_cooldown_minutes" "cooldown_minutes must be between 5 and 1440" (Some "cooldown_minutes"))
  else
    let? _ := validate_alert_scope config in
    if negb (is_usage (ac_metric config)) && negb (bool_decide (ac_scope_kind config = GlobalScope)) then
      inr (bad_request "metric_scope_unsupported" "server metrics only support global scope" (Some "scope_kind"))
    else inl tt.

Definition validate_rule_config (config : RuleConfig) : unit + NotificationError :=
  match config with
  | ScheduledReport config =>
      if negb (in_range MIN_TOP_N MAX_TOP_N (rc_top_n config)) then
        inr (bad_request "invalid_top_n" "top_n must be between 5 and 100" (Some "top_n"))
      else let? _ := parse_schedule (rc_cron config) (rc_timezone config) in inl tt
  | ThresholdAlert config => validate_alert_config config
  end.
End Schedules.

(** ** Facts *)
Section IterUntil.
Context {S A : Type} (step : S → S + A).

Lemma iter_until_invariant (P : S → Prop) p s :
  (∀ s s', P s → step s = inl s' → P s') → P s →
  match iter_until p step s with inl s' => P s' | inr a => ∃ s', P s' ∧ step s' = inr a end.
Proof.
  intros Hstep. revert s. induction p as [p IH|p IH|]; intros s Hs; cbn.
  - destruct (step s) as [s1|a] eqn:E; [|by exists s]. specialize (IH s1 (Hstep _ _ Hs E)) as H1.
    destruct (iter_until p step s1) as [s2|a]; [by apply IH|done].
  - specialize (IH s Hs) as H1. destruct (iter_until p step s) as [s2|a]; [by apply IH|done].
  - destruct (step s) as [s1|a] eqn:E; [by apply (Hstep s)|by exists s].
Qed.

Lemma iter_until_grows (m : S → Z) p s s' :
  (∀ s s', step s = inl s' → m s < m s') → iter_until p step s = inl s' → m s + Z.pos p <= m s'.
Proof.
  intros Hstep. revert s s'. induction p as [p IH|p IH|]; intros s s'; cbn.
  - destruct (step s) as [s1|a] eqn:E; [|done]. destruct (iter_until p step s1) as [s2|a] eqn:E1; [|done]. intros E2.
    apply Hstep in E. apply IH in E1, E2. lia.
  - destruct (iter_until p step s) as [s2|a] eqn:E1; [|done]. intros E2. apply IH in E1, E2. lia.
  - intros E%Hstep. lia.
Qed.
End IterUntil.

Section Occurrences.
Context `{CronOk}.
Implicit Types (s : Schedule) (z : Zone).

(** The occurrences after [from] up to [to_], each once. *)
Definition occurrences_between s z (from to_ : Z) (l : list Z) : Prop :=
  StronglySorted Z.lt l ∧ ∀ v, v ∈ l ↔ occurs s z v ∧ from < v <= to_.

Lemma occurrences_extend s z from at_ l next :
  occurrences_between s z from at_ l → from <= at_ → cron_after s z at_ = Some next → occurrences_between s z from next (l ++ [next]).
Proof.
  intros [Hs Hl] Hle Hn. apply cron_after_spec in Hn as (Hlt & Ho & Hmin). split.
  - apply StronglySorted_app_2; [|done|repeat constructor]. intros a b Ha ->%list_elem_of_singleton. apply Hl in Ha. lia.
  - intros v. rewrite elem_of_app list_elem_of_singleton Hl. split.
    + intros [[? ?]| ->]; [split; [done|lia]|split; [done|lia]].
    + intros [Hv ?]. destruct (decide (v <= at_)); [left; split; [done|lia]|]. right. specialize (Hmin v Hv). lia.
Qed.

(** The count of occurrences ends, and is exact below the limit of its type. *)
Lemma count_ends s z from boundary :
  from <= boundary →
  let n := count_occurrences s z from boundary in
  (∃ l, occurrences_between s z from boundary l ∧ len l = n) ∨ n = u32_max.
Proof.
  intros Hle. unfold count_occurrences.
  set (P := λ st : Z * Z, from <= st.1 <= boundary ∧ ∃ l, occurrences_between s z from st.1 l ∧ len l = st.2).
  assert (∀ st st', count_step s z boundary st = inl st' →
    cron_after s z st.1 = Some st'.1 ∧ st'.1 <= boundary ∧ st'.2 = st.2 + 1) as Hstep.
  { intros [at_ n] st'. unfold count_step. destruct (n =? u32_max); [done|]. destruct (cron_after s z at_) as [next|] eqn:E; [|done].
    destruct (Z.leb_spec next boundary); [|done]. by intros [= <-]. }
  pose proof (iter_until_invariant (count_step s z boundary) P (Z.to_pos (boundary - from + 1)) (from, 0)) as Hi.
  pose proof (iter_until_grows (count_step s z boundary) fst (Z.to_pos (boundary - from + 1)) (from, 0)) as Hg.
  assert (∀ st st', P st → count_step s z boundary st = inl st' → P st') as HP.
  { intros st st' [Hr (l & Hl & Hn)] (E & Hb & Ec)%Hstep. pose proof (cron_after_spec _ _ _ _ E) as (Hlt & _).
    split; [lia|]. exists (l ++ [st'.1]). split; [apply (occurrences_extend _ _ _ st.1); [done|lia|done]|]. unfold len in *. rewrite length_app. cbn. lia. }
  specialize (Hi HP). assert (P (from, 0)) as Hstart.
  { split; [cbn; lia|]. exists []. split; [|done]. split; [constructor|]. intros v. split; [by intros ?%not_elem_of_nil|cbn; lia]. }
  specialize (Hi Hstart). destruct (iter_until _ _ _) as [[at_ n]|n].
  - exfalso. specialize (Hg (at_, n)). destruct Hi as [Hi _]. cbn in Hg, Hi. rewrite Z2Pos.id in Hg; [|lia].
    assert (from + (boundary - from + 1) <= at_); [|lia]. apply Hg; [|done].
    intros st st' (E & _)%Hstep. by apply cron_after_spec in E as (? & _).
  - destruct Hi as ([at_ c] & [Hr (l & Hl & Hn)] & E). cbn in Hr, Hl, Hn. unfold count_step in E.
    destruct (Z.eqb_spec c u32_max) as [->|Hc]; [right; by injection E|]. left. exists l.
    assert (c = n ∧ ∀ v, occurs s z v → at_ < v → boundary < v) as [-> Hno].
    { destruct (cron_after s z at_) as [next|] eqn:En.
      - destruct (Z.leb_spec next boundary); [done|]. injection E as <-. split; [done|]. intros v Hv Hlt.
        apply cron_after_spec in En as (_ & _ & Hmin). specialize (Hmin v Hv Hlt). lia.
      - injection E as <-. split; [done|]. intros v Hv Hlt. by destruct (cron_after_none _ _ _ En v Hv). }
    split; [|done]. destruct Hl as [Hs Hl]. split; [done|]. intros v. rewrite Hl. split; intros [Hv ?]; (split; [done|]); [lia|].
    destruct (decide (at_ < v)); [|lia]. specialize (Hno v Hv). lia.
Qed.

(** A report that comes late says how many occurrences it stands for besides its own. *)
Lemma missed_occurrences_counted expression timezone s z from boundary n :
  parse_schedule expression timezone = inl (s, z) → valid_timestamp (i64_sat_sub from 1) = true → i64_min < from < boundary → boundary <= i64_max →
  missed_occurrence_count expression timezone from boundary = inl n →
  (∃ l, StronglySorted Z.lt l ∧ (∀ v, v ∈ l ↔ occurs s z v ∧ from <= v <= boundary) ∧ n = Z.max 0 (len l - 1)) ∨ n = u32_max - 1.
Proof.
  intros Hp Hv Hr Hm. unfold missed_occurrence_count. rewrite (proj2 (Z.leb_gt _ _)); [|lia]. rewrite Hp /=.
  unfold datetime_from_ms. rewrite Hv /=. intros [= <-]. unfold i64_sat_sub, sat_i64. rewrite Z.max_r; [|lia]. rewrite Z.min_r; [|lia].
  destruct (count_ends s z (from - 1) boundary) as [(l & [Hs Hl] & <-)| ->]; [lia| |by right].
  left. exists l. split_and!; [done| |unfold u32_sat_sub; lia]. intros v. rewrite Hl. split; intros [? ?]; (split; [done|lia]).
Qed.
End Occurrences.
