(* ===== verification/Alerts.v ===== *)
(** * Alerts: when a threshold alert fires, reminds and recovers

    Models [evaluate_alert] of [notification/runtime.rs]: from the stored state of a rule and
    the value measured now to the next state and the event to send. The theorem says what the
    two counters compute: whether an alert is firing depends only on the measurements that
    could be judged, through a window of the last of them. *)
From Stdlib Require Import SpecFloat.
From Stdlib Require Import Ascii String.
From S2P Require Import Prelude Float64 Text Notification.

Local Open Scope string_scope.
Local Open Scope list_scope.
Local Open Scope Z_scope.

(** A measured value, and whether all of the data behind it was seen. *)
Record MetricValue := MkMetricValue { mv_value : f64; mv_complete : bool; mv_sample_count : Z }.

Record AlertStateRecord := MkAlertState {
  as_state : string;
  as_breach_count : Z;
  as_recovery_count : Z;
  as_opened_at_ms : option Z;
  as_last_notified_at_ms : option Z
}.

Record AlertTransition := MkTransition {
  at_state : string;
  at_breach_count : Z;
  at_recovery_count : Z;
  at_opened_at_ms : option Z;
  at_last_notified_at_ms : option Z;
  at_last_value_json : option string;
  at_event_type : option string
}.

Definition default_alert_state : AlertStateRecord := MkAlertState "normal" 0 0 None None.

Section Alerts.
(** [value_json] prints a value as the JSON object that is stored. *)
Context (value_json : MetricValue → option string).

Definition unchanged_transition (state : AlertStateRecord) (value : option MetricValue) : AlertTransition :=
  MkTransition (as_state state) (as_breach_count state) (as_recovery_count state) (as_opened_at_ms state)
    (as_last_notified_at_ms state) (opt_bind value value_json) None.

Definition evaluate_alert (state : AlertStateRecord) (config : ThresholdAlertConfig) (value : option MetricValue) (now_ms : Z)
    : AlertTransition :=
  match value with
  | None => unchanged_transition state None
  | Some value =>
      if bool_decide (ac_metric config = ErrorRatePercent) && (mv_sample_count value <? ac_minimum_requests config)
      then unchanged_transition state (Some value)
      else
        let breached := matches (ac_operator config) (mv_value value) (ac_threshold config) in
        if negb breached && negb (mv_complete value) then unchanged_transition state (Some value)
        else
          let json := value_json value in
          if String.eqb (as_state state) "firing" then
            if breached then
              let cooldown_ms := ac_cooldown_minutes config * 60000 in
              let should_remind := is_none_or (as_last_notified_at_ms state) (λ last, cooldown_ms <=? i64_sat_sub now_ms last) in
              MkTransition "firing" (as_breach_count state) 0 (as_opened_at_ms state)
                (if should_remind then Some now_ms else as_last_notified_at_ms state) json
                (if should_remind then Some "alert_reminder" else None)
            else
              let recovery_count := i64_sat_add (as_recovery_count state) 1 in
              let recovered := ac_recover_after config <=? recovery_count in
              MkTransition (if recovered then "normal" else "firing") (if recovered then 0 else as_breach_count state)
                (if recovered then 0 else recovery_count) (if recovered then None else as_opened_at_ms state)
                (if recovered && ac_send_recovery config then Some now_ms else as_last_notified_at_ms state) json
                (if recovered && ac_send_recovery config then Some "alert_recovered" else None)
          else if breached then
            let breach_count := i64_sat_add (as_breach_count state) 1 in
            let triggered := ac_trigger_after config <=? breach_count in
            MkTransition (if triggered then "firing" else "pending") breach_count 0 (if triggered then Some now_ms else None)
              (if triggered then Some now_ms else None) json (if triggered then Some "alert_triggered" else None)
          else MkTransition "normal" 0 0 None (as_last_notified_at_ms state) json None
  end.

(** What is stored of a transition. *)
Definition next_state (t : AlertTransition) : AlertStateRecord :=
  MkAlertState (at_state t) (at_breach_count t) (at_recovery_count t) (at_opened_at_ms t) (at_last_notified_at_ms t).

(** The evaluations of a rule, one after the other: the final state and the events with their instants. *)
Fixpoint evaluations (config : ThresholdAlertConfig) (state : AlertStateRecord) (l : list (option MetricValue * Z))
    : AlertStateRecord * list (string * Z) :=
  match l with
  | [] => (state, [])
  | (value, now_ms) :: l =>
      let t := evaluate_alert state config value now_ms in
      let '(state, events) := evaluations config (next_state t) l in
      (state, match at_event_type t with Some e => [(e, now_ms)] | None => [] end ++ events)
  end.

(** ** The specification *)

(** What an evaluation tells: a breach, the opposite, or nothing. *)
Definition verdict (config : ThresholdAlertConfig) (value : option MetricValue) : option bool :=
  match value with
  | None => None
  | Some value =>
      if bool_decide (ac_metric config = ErrorRatePercent) && (mv_sample_count value <? ac_minimum_requests config) then None
      else if matches (ac_operator config) (mv_value value) (ac_threshold config) then Some true
      else if mv_complete value then Some false else None
  end.

(** The last [n] verdicts, the newest first, are all [b]. *)
Definition all_last (b : bool) (n : nat) (history : list bool) : bool :=
  (Nat.leb n (length history)) && forallb (Bool.eqb b) (take n history).

(** An alert fires from the [trigger_after]-th breach in a row until the [recover_after]-th
    opposite in a row; the newest verdict is the first. *)
Fixpoint firing (trigger recover : nat) (history : list bool) : bool :=
  match history with
  | [] => false
  | true :: older => firing trigger recover older || all_last true trigger history
  | false :: older => firing trigger recover older && negb (all_last false recover history)
  end.

(** The events of the verdicts with their instants, given the verdicts before and the last
    notification of the incident. *)
Fixpoint expected (config : ThresholdAlertConfig) (history : list bool) (notified : Z) (l : list (option bool * Z)) : list (string * Z) :=
  let T := Z.to_nat (ac_trigger_after config) in let R := Z.to_nat (ac_recover_after config) in
  match l with
  | [] => []
  | (None, _) :: l => expected config history notified l
  | (Some b, now) :: l =>
      let was := firing T R history in
      let is_ := firing T R (b :: history) in
      if negb was && is_ then ("alert_triggered", now) :: expected config (b :: history) now l
      else if was && negb is_ then
        (if ac_send_recovery config then [("alert_recovered", now)] else []) ++ expected config (b :: history) notified l
      else if was && b && (ac_cooldown_minutes config * 60000 <=? i64_sat_sub now notified)
      then ("alert_reminder", now) :: expected config (b :: history) now l
      else expected config (b :: history) notified l
  end.
End Alerts.

(** ** The counters and the history *)
Fixpoint run (b : bool) (history : list bool) : nat :=
  match history with x :: older => if Bool.eqb b x then S (run b older) else 0%nat | [] => 0%nat end.

Lemma all_last_run b n h : all_last b n h = Nat.leb n (run b h).
Proof.
  unfold all_last. revert n. induction h as [|x h IH]; intros [|n]; cbn; try done. specialize (IH n). destruct (Bool.eqb b x).
  - exact IH.
  - by rewrite andb_false_r.
Qed.

Lemma run_step b x h : run b (x :: h) = if Bool.eqb b x then S (run b h) else 0%nat.
Proof. done. Qed.

Lemma count_up n : (n < 1000)%nat → i64_sat_add (Z.of_nat n) 1 = Z.of_nat (S n).
Proof. intros ?. mlia. Qed.

Section History.
Context (value_json : MetricValue → option string) (config : ThresholdAlertConfig).
Hypothesis (trigger_range : 1 <= ac_trigger_after config <= 255) (recover_range : 1 <= ac_recover_after config <= 255).

Notation T := (Z.to_nat (ac_trigger_after config)).
Notation R := (Z.to_nat (ac_recover_after config)).
Notation fires := (firing T R).

(** What the stored state knows of the history. *)
Definition tracks (history : list bool) (notified : Z) (s : AlertStateRecord) : Prop :=
  if fires history
  then as_state s = "firing" ∧ as_recovery_count s = Z.of_nat (run false history) ∧ (run false history < R)%nat
       ∧ as_last_notified_at_ms s = Some notified
  else as_state s ≠ "firing" ∧ as_breach_count s = Z.of_nat (run true history) ∧ (run true history < T)%nat.

(** One judged value: the state follows, and the event is the expected one. *)
Lemma judged_step s h notified value b now :
  tracks h notified s → verdict config (Some value) = Some b →
  let t := evaluate_alert value_json s config (Some value) now in
  (if negb (fires h) && fires (b :: h) then at_event_type t = Some "alert_triggered" ∧ tracks (b :: h) now (next_state t)
   else if fires h && negb (fires (b :: h)) then
     at_event_type t = (if ac_send_recovery config then Some "alert_recovered" else None) ∧ tracks (b :: h) notified (next_state t)
   else if fires h && b && (ac_cooldown_minutes config * 60000 <=? i64_sat_sub now notified)
   then at_event_type t = Some "alert_reminder" ∧ tracks (b :: h) now (next_state t)
   else at_event_type t = None ∧ tracks (b :: h) notified (next_state t)).
Proof.
  unfold verdict, evaluate_alert. destruct (_ && (mv_sample_count value <? _)); [done|].
  intros Ht Hv. set (breached := matches _ _ _) in *.
  assert (breached = b ∧ negb breached && negb (mv_complete value) = false) as [-> ->].
  { destruct breached; [by injection Hv as <-|]. destruct (mv_complete value); [by injection Hv as <-|done]. }
  clear Hv. unfold tracks in Ht |- *. cbn [firing]. rewrite !all_last_run.
  destruct (fires h) eqn:Ef.
  - destruct Ht as (Hs & Hr & Hlt & Hn). rewrite Hs. cbn [String.eqb Ascii.eqb Bool.eqb]. rewrite Hn. cbn [is_none_or negb andb orb].
    destruct b; cbn [orb].
    + destruct (_ <=? _); cbn; (split; [done|]); (split_and!; [done|done|lia|done]).
    + rewrite run_step. cbn [Bool.eqb]. rewrite Hr count_up; [|lia]. destruct (Nat.leb_spec R (S (run false h))).
      * rewrite (proj2 (Z.leb_le _ _)); [|lia]. cbn. split; [by destruct (ac_send_recovery config)|]. split_and!; [done|done|lia].
      * rewrite (proj2 (Z.leb_gt _ _)); [|lia]. cbn. split; [done|]. split_and!; [done|lia|lia|done].
  - destruct Ht as (Hs & Hb & Hlt). apply String.eqb_neq in Hs as ->. cbn [negb andb orb].
    destruct b; cbn [orb].
    + rewrite run_step. cbn [Bool.eqb]. rewrite Hb count_up; [|lia]. destruct (Nat.leb_spec T (S (run true h))).
      * rewrite (proj2 (Z.leb_le _ _)); [|lia]. cbn. split; [done|]. split_and!; [done|done|lia|done].
      * rewrite (proj2 (Z.leb_gt _ _)); [|lia]. cbn. split; [done|]. split_and!; [done|lia|lia].
    + cbn. split; [done|]. split_and!; [done|done|lia].
Qed.

(** A value that tells nothing leaves the state as it is. *)
Lemma unjudged_step s value now : verdict config value = None →
  let t := evaluate_alert value_json s config value now in at_event_type t = None ∧ next_state t = s.
Proof.
  unfold verdict, evaluate_alert. destruct value as [value|]; [|by destruct s]. destruct (_ && _); [by destruct s|].
  destruct (matches _ _ _); [done|]. destruct (mv_complete value); [done|]. by destruct s.
Qed.

Lemma evaluations_track l s h notified :
  tracks h notified s →
  (evaluations value_json config s l).2 = expected config h notified (map (λ e, (verdict config e.1, e.2)) l)
  ∧ (as_state (evaluations value_json config s l).1 = "firing" ↔ fires (rev (omap (λ e, verdict config e.1) l) ++ h) = true).
Proof.
  revert s h notified. induction l as [|[value now] l IH]; intros s h notified Ht; cbn [evaluations map expected omap list_omap rev fst snd].
  { split; [done|]. unfold tracks in Ht. cbn. destruct (fires h); naive_solver. }
  destruct (verdict config value) as [b|] eqn:Ev.
  - destruct value as [value|]; [|done]. pose proof (judged_step s h notified value b now Ht Ev) as Hj. cbv zeta in Hj.
    set (t := evaluate_alert _ _ _ _ _) in *. cbn [omap option_bind]. cbn [rev]. rewrite -app_assoc. cbn [app].
    destruct (evaluations value_json config (next_state t) l) as [s' events] eqn:Ee. cbn [fst snd].
    assert (∀ n, tracks (b :: h) n (next_state t) → events = expected config (b :: h) n (map (λ e, (verdict config e.1, e.2)) l)
      ∧ (as_state s' = "firing" ↔ fires (rev (omap (λ e, verdict config e.1) l) ++ b :: h) = true)) as IH'.
    { intros n Hn. specialize (IH _ _ _ Hn). rewrite Ee in IH. exact IH. }
    destruct (negb (fires h) && _); [destruct Hj as [-> Hn]; destruct (IH' _ Hn) as [-> ?]; done|].
    destruct (fires h && negb _).
    { destruct Hj as [-> Hn]. destruct (IH' _ Hn) as [-> ?]. by destruct (ac_send_recovery config). }
    destruct (fires h && b && _); destruct Hj as [-> Hn]; destruct (IH' _ Hn) as [-> ?]; done.
  - pose proof (unjudged_step s value now Ev) as Hu. cbv zeta in Hu. set (t := evaluate_alert _ _ _ _ _) in *. destruct Hu as [-> ->].
    specialize (IH _ _ _ Ht). destruct (evaluations value_json config s l) as [s' events]. exact IH.
Qed.

(** C28. Whether an alert is firing, and every notification it sends, depends only on the
    values that could be judged: it fires once the last [trigger_after] of them were breaches,
    recovers once the last [recover_after] were not, sends one trigger and one recovery per
    incident and a reminder only on a breach when the cooldown since the last notification of
    the incident is over. Values that could not be judged change nothing. *)
Theorem alert_follows_history l :
  let '(s, events) := evaluations value_json config default_alert_state l in
  events = expected config [] 0 (map (λ e, (verdict config e.1, e.2)) l)
  ∧ (as_state s = "firing" ↔ fires (rev (omap (λ e, verdict config e.1) l)) = true).
Proof using trigger_range recover_range.
  pose proof (evaluations_track l default_alert_state [] 0) as H. rewrite app_nil_r in H.
  destruct (evaluations _ _ _ _) as [s events]. apply H. split_and!; [done|done|cbn; lia].
Qed.
End History.

(** *** A run *)
Definition al_config : ThresholdAlertConfig :=
  MkAlertConfig RequestCount GlobalScope None Gt (f64_of_Z 10) 5 20 2 2 5 true EnUs.
Definition al_value (n : Z) : option MetricValue := Some (MkMetricValue (f64_of_Z n) true n).
Definition al_minute (n : Z) : Z := n * 60000.

(** Two breaches in a row fire, a gap does not count, reminders wait for the cooldown, and two
    good values in a row recover. *)
Definition al_values : list (option MetricValue * Z) :=
  [(al_value 11, al_minute 1); (al_value 5, al_minute 2); (al_value 12, al_minute 3); (None, al_minute 4); (al_value 13, al_minute 5);
   (al_value 14, al_minute 6); (al_value 14, al_minute 10); (al_value 3, al_minute 11); (al_value 20, al_minute 12);
   (al_value 3, al_minute 13); (al_value 3, al_minute 14)].

Example alert_run :
  evaluations (λ _, None) al_config default_alert_state al_values
  = (MkAlertState "normal" 0 0 None (Some (al_minute 14)),
     [("alert_triggered", al_minute 5); ("alert_reminder", al_minute 10); ("alert_recovered", al_minute 14)]).
Proof. by vm_compute. Qed.

Lemma alert_follows_history_witness :
  1 <= ac_trigger_after al_config <= 255 ∧ 1 <= ac_recover_after al_config <= 255 ∧
  let '(s, events) := evaluations (λ _, None) al_config default_alert_state al_values in
  events = expected al_config [] 0 (map (λ e, (verdict al_config e.1, e.2)) al_values)
  ∧ (as_state s = "firing" ↔ firing 2 2 (rev (omap (λ e, verdict al_config e.1) al_values)) = true).
Proof. split; [done|]. split; [done|]. apply (alert_follows_history (λ _, None) al_config); done. Defined.
