(* ===== verification/NotifyTables.v ===== *)
(** * NotifyTables: the tables of the notifications

    Models the statements of [notification/store.rs] on the tables of channels, rules, alert
    states, runs and deliveries, and the aggregation of [stats_events]. A table is the map of
    its rows by primary key, an operation one statement or one transaction: a function to the
    result and the tables, which are unchanged when it fails. Foreign keys are enforced, as
    both engines do. Where an operation is several statements that are not one transaction,
    each statement is a definition of its own. *)
From Stdlib Require Import Ascii String.
From S2P Require Import Prelude Text Types Notification Alerts.

Local Open Scope string_scope.
Local Open Scope list_scope.
Local Open Scope Z_scope.

(** ** Rows *)
Record ChannelRecord := MkChannel {
  ch_id : Z;
  ch_name : string;
  ch_kind : string;
  ch_enabled : bool;
  ch_config_enc : string;
  ch_created_at_ms : Z;
  ch_updated_at_ms : Z
}.

Record RuleRecord := MkRule {
  rl_id : Z;
  rl_name : string;
  rl_kind : string;
  rl_enabled : bool;
  rl_config_json : string;
  rl_next_run_at_ms : Z;
  rl_last_window_end_ms : option Z;
  rl_created_at_ms : Z;
  rl_updated_at_ms : Z
}.

(** A rule with the columns of its lease. *)
Record RuleRow := MkRuleRow { rr_rule : RuleRecord; rr_lease_owner : option string; rr_lease_until_ms : option Z }.

Record RunRow := MkRun {
  rn_rule_id : option Z;
  rn_rule_name : string;
  rn_event_type : string;
  rn_scheduled_for_ms : Z;
  rn_window_from_ms : option Z;
  rn_window_to_ms : option Z;
  rn_payload_json : string;
  rn_status : string;
  rn_created_at_ms : Z;
  rn_completed_at_ms : option Z
}.

Record DeliveryAttemptDiagnostics := MkDiagnostics {
  dg_http_status : option Z;
  dg_request_body : option string;
  dg_response_body : option string
}.
Definition no_diagnostics : DeliveryAttemptDiagnostics := MkDiagnostics None None None.

Record DeliveryRow := MkDelivery {
  dv_run_id : string;
  dv_channel_id : option Z;
  dv_channel_name : string;
  dv_channel_kind : string;
  dv_status : string;
  dv_attempts : Z;
  dv_next_attempt_at_ms : option Z;
  dv_last_attempt_at_ms : option Z;
  dv_delivered_at_ms : option Z;
  dv_lease_owner : option string;
  dv_lease_until_ms : option Z;
  dv_last_error : option (string * string);
  dv_last : DeliveryAttemptDiagnostics;
  dv_created_at_ms : Z;
  dv_updated_at_ms : Z
}.

Record DeliveryWorkItem := MkWork {
  wi_id : string;
  wi_event_type : string;
  wi_payload_json : string;
  wi_channel_config_enc : string;
  wi_attempts : Z
}.

(** The columns of [DeliveryView] and [DeliveryDetailView] are those of the two rows it joins. *)
Record DeliveryView := MkDeliveryView { vw_id : string; vw_delivery : DeliveryRow; vw_run : RunRow }.

Record DeliveryFailure := MkFailure {
  fl_retry_at_ms : option Z;
  fl_error_code : string;
  fl_error_message : string;
  fl_diagnostics : DeliveryAttemptDiagnostics
}.

(** [notification_rule_channels] without the column [created_at_ms], which nothing reads. *)
Record NotifyTables := MkNotify {
  nt_channels : gmap Z ChannelRecord;
  nt_next_channel : Z;
  nt_rules : gmap Z RuleRow;
  nt_next_rule : Z;
  nt_rule_channels : gset (Z * Z);
  nt_alert_states : gmap Z (AlertStateRecord * option string);
  nt_runs : gmap string RunRow;
  nt_deliveries : gmap string DeliveryRow
}.

Definition set_nt_channels v t := MkNotify v (nt_next_channel t) (nt_rules t) (nt_next_rule t) (nt_rule_channels t) (nt_alert_states t) (nt_runs t) (nt_deliveries t).
Definition set_nt_rules v t := MkNotify (nt_channels t) (nt_next_channel t) v (nt_next_rule t) (nt_rule_channels t) (nt_alert_states t) (nt_runs t) (nt_deliveries t).
Definition set_nt_rule_channels v t := MkNotify (nt_channels t) (nt_next_channel t) (nt_rules t) (nt_next_rule t) v (nt_alert_states t) (nt_runs t) (nt_deliveries t).
Definition set_nt_alert_states v t := MkNotify (nt_channels t) (nt_next_channel t) (nt_rules t) (nt_next_rule t) (nt_rule_channels t) v (nt_runs t) (nt_deliveries t).
Definition set_nt_runs v t := MkNotify (nt_channels t) (nt_next_channel t) (nt_rules t) (nt_next_rule t) (nt_rule_channels t) (nt_alert_states t) v (nt_deliveries t).
Definition set_nt_deliveries v t := MkNotify (nt_channels t) (nt_next_channel t) (nt_rules t) (nt_next_rule t) (nt_rule_channels t) (nt_alert_states t) (nt_runs t) v.

Definition DbError : Type := string.
(** What the engine says when a constraint is violated, and what [fetch_one] says of no row. *)
Definition constraint_violation : DbError := "constraint violation".
Definition row_not_found : DbError := "no rows returned by a query that expected to return at least one row".

(** [UPDATE ... WHERE id = k AND f]: the number of rows, and the table. *)
Definition update_row {K V} `{Countable K} (k : K) (f : V → bool) (g : V → V) (m : gmap K V) : bool * gmap K V :=
  match m !! k with
  | Some v => if f v then (true, <[k := g v]> m) else (false, m)
  | None => (false, m)
  end.

(** ** Channels *)
Definition notification_list_channels (t : NotifyTables) : list ChannelRecord :=
  sort_by_key1 ch_id (map snd (map_to_list (nt_channels t))).

Definition notification_get_channel (id : Z) (t : NotifyTables) : option ChannelRecord := nt_channels t !! id.

Definition notification_insert_channel (name kind : string) (enabled : bool) (config_enc : string) (now_ms : Z) (t : NotifyTables)
    : Z * NotifyTables :=
  let id := nt_next_channel t in
  (id, MkNotify (<[id := MkChannel id name kind enabled config_enc now_ms now_ms]> (nt_channels t)) (id + 1) (nt_rules t)
         (nt_next_rule t) (nt_rule_channels t) (nt_alert_states t) (nt_runs t) (nt_deliveries t)).

Definition notification_update_channel (id : Z) (name : string) (enabled : bool) (config_enc : string) (now_ms : Z)
    (t : NotifyTables) : bool * NotifyTables :=
  let '(hit, channels) := update_row id (λ _, true)
    (λ c, MkChannel (ch_id c) name (ch_kind c) enabled config_enc (ch_created_at_ms c) now_ms) (nt_channels t) in
  (hit, set_nt_channels channels t).

(** The count of references, and the deletion: a reference that appears in between is caught
    by the foreign key. Deliveries lose their channel. *)
Definition channel_references (id : Z) (t : NotifyTables) : Z :=
  len (List.filter (λ rc : Z * Z, rc.2 =? id) (elements (nt_rule_channels t))).

Definition delete_channel_row (id : Z) (t : NotifyTables) : (bool + DbError) * NotifyTables :=
  if 0 <? channel_references id t then (inr constraint_violation, t)
  else
    (inl (is_some (nt_channels t !! id)),
     set_nt_deliveries ((λ d, MkDelivery (dv_run_id d) (if bool_decide (dv_channel_id d = Some id) then None else dv_channel_id d)
                          (dv_channel_name d) (dv_channel_kind d) (dv_status d) (dv_attempts d) (dv_next_attempt_at_ms d)
                          (dv_last_attempt_at_ms d) (dv_delivered_at_ms d) (dv_lease_owner d) (dv_lease_until_ms d)
                          (dv_last_error d) (dv_last d) (dv_created_at_ms d) (dv_updated_at_ms d)) <$> nt_deliveries t)
       (set_nt_channels (delete id (nt_channels t)) t)).

Definition notification_delete_channel (id : Z) (t : NotifyTables) : (bool + DbError) * NotifyTables :=
  if 0 <? channel_references id t then (inr "channel_in_use", t) else delete_channel_row id t.

(** ** Rules *)
Definition notification_list_rules (t : NotifyTables) : list RuleRecord := map (λ kv, rr_rule kv.2) (map_to_list (nt_rules t)).

Definition notification_get_rule (id : Z) (t : NotifyTables) : option RuleRecord := option_map rr_rule (nt_rules t !! id).

Definition notification_rule_channel_ids (rule_id : Z) (t : NotifyTables) : list Z :=
  sort_by_key1 (λ id, id) (map snd (List.filter (λ rc : Z * Z, rc.1 =? rule_id) (elements (nt_rule_channels t)))).

(** The rows that join a rule to its channels: each of them once, and of channels that exist. *)
Fixpoint insert_rule_channels (rule_id : Z) (channel_ids : list Z) (t : NotifyTables) : NotifyTables + DbError :=
  match channel_ids with
  | [] => inl t
  | id :: ids =>
      if is_none (nt_channels t !! id) || bool_decide ((rule_id, id) ∈ nt_rule_channels t) then inr constraint_violation
      else insert_rule_channels rule_id ids (set_nt_rule_channels ({[(rule_id, id)]} ∪ nt_rule_channels t) t)
  end.

Definition notification_insert_rule (name kind : string) (enabled : bool) (config_json : string) (next_run_at_ms : Z)
    (channel_ids : list Z) (now_ms : Z) (t : NotifyTables) : (Z + DbError) * NotifyTables :=
  let id := nt_next_rule t in
  let row := MkRuleRow (MkRule id name kind enabled config_json next_run_at_ms None now_ms now_ms) None None in
  match insert_rule_channels id channel_ids
          (MkNotify (nt_channels t) (nt_next_channel t) (<[id := row]> (nt_rules t)) (id + 1) (nt_rule_channels t)
             (nt_alert_states t) (nt_runs t) (nt_deliveries t)) with
  | inl t' => (inl id, t')
  | inr e => (inr e, t)
  end.

Definition drop_rule_channels (rule_id : Z) (t : NotifyTables) : NotifyTables :=
  set_nt_rule_channels (filter (λ rc : Z * Z, rc.1 ≠ rule_id) (nt_rule_channels t)) t.

(** Editing a rule takes its lease away. *)
Definition notification_update_rule (id : Z) (name : string) (enabled : bool) (config_json : string) (next_run_at_ms : Z)
    (channel_ids : list Z) (now_ms : Z) (t : NotifyTables) : (bool + DbError) * NotifyTables :=
  let '(hit, rules) := update_row id (λ _, true)
    (λ r, let rule := rr_rule r in
          MkRuleRow (MkRule (rl_id rule) name (rl_kind rule) enabled config_json next_run_at_ms (rl_last_window_end_ms rule)
                       (rl_created_at_ms rule) now_ms) None None) (nt_rules t) in
  if negb hit then (inl false, t)
  else match insert_rule_channels id channel_ids (drop_rule_channels id (set_nt_rules rules t)) with
       | inl t' => (inl true, t')
       | inr e => (inr e, t)
       end.

Definition notification_delete_rule (id : Z) (t : NotifyTables) : bool * NotifyTables :=
  (is_some (nt_rules t !! id),
   set_nt_runs ((λ r, MkRun (if bool_decide (rn_rule_id r = Some id) then None else rn_rule_id r) (rn_rule_name r)
                  (rn_event_type r) (rn_scheduled_for_ms r) (rn_window_from_ms r) (rn_window_to_ms r) (rn_payload_json r)
                  (rn_status r) (rn_created_at_ms r) (rn_completed_at_ms r)) <$> nt_runs t)
     (set_nt_alert_states (delete id (nt_alert_states t))
        (drop_rule_channels id (set_nt_rules (delete id (nt_rules t)) t)))).

Definition notification_summary (now_ms : Z) (t : NotifyTables) : Z * Z * Z * Z :=
  let since := i64_sat_sub now_ms 86400000 in
  (len (List.filter (λ kv : Z * ChannelRecord, ch_enabled kv.2) (map_to_list (nt_channels t))),
   len (List.filter (λ kv : Z * RuleRow, rl_enabled (rr_rule kv.2)) (map_to_list (nt_rules t))),
   len (List.filter (λ kv : Z * (AlertStateRecord * option string), String.eqb (as_state kv.2.1) "firing") (map_to_list (nt_alert_states t))),
   len (List.filter (λ kv : string * DeliveryRow, String.eqb (dv_status kv.2) "failed" && (since <=? dv_created_at_ms kv.2))
          (map_to_list (nt_deliveries t)))).

(** *** The lease of a rule *)
Definition lease_free (now_ms : Z) (lease_until_ms : option Z) : bool := is_none_or lease_until_ms (λ until, until <? now_ms).

Definition rule_due (now_ms : Z) (r : RuleRow) : bool :=
  rl_enabled (rr_rule r) && (rl_next_run_at_ms (rr_rule r) <=? now_ms) && lease_free now_ms (rr_lease_until_ms r).

Definition notification_list_due_rules (now_ms limit : Z) (t : NotifyTables) : list RuleRecord :=
  take (Z.to_nat limit) (sort_by_key1 rl_next_run_at_ms
    (map (λ kv, rr_rule kv.2) (List.filter (λ kv : Z * RuleRow, rule_due now_ms kv.2) (map_to_list (nt_rules t))))).

Definition notification_claim_rule (id : Z) (owner : string) (now_ms lease_until_ms : Z) (t : NotifyTables) : bool * NotifyTables :=
  let '(hit, rules) := update_row id (rule_due now_ms) (λ r, MkRuleRow (rr_rule r) (Some owner) (Some lease_until_ms)) (nt_rules t) in
  (hit, set_nt_rules rules t).

Definition rule_leased (owner : string) (r : RuleRow) : bool := bool_decide (rr_lease_owner r = Some owner).

Definition next_run (next_run_at_ms : Z) (last_window_end_ms : option Z) (now_ms : Z) (r : RuleRow) : RuleRow :=
  let rule := rr_rule r in
  MkRuleRow (MkRule (rl_id rule) (rl_name rule) (rl_kind rule) (rl_enabled rule) (rl_config_json rule) next_run_at_ms
               (opt_or last_window_end_ms (rl_last_window_end_ms rule)) (rl_created_at_ms rule) now_ms) None None.

Definition notification_complete_rule (id : Z) (owner : string) (next_run_at_ms : Z) (last_window_end_ms : option Z) (now_ms : Z)
    (t : NotifyTables) : NotifyTables :=
  set_nt_rules (update_row id (rule_leased owner) (next_run next_run_at_ms last_window_end_ms now_ms) (nt_rules t)).2 t.

Definition notification_release_rule (id : Z) (owner : string) (retry_at_ms now_ms : Z) (t : NotifyTables) : NotifyTables :=
  set_nt_rules (update_row id (rule_leased owner) (next_run retry_at_ms None now_ms) (nt_rules t)).2 t.

(** ** Runs *)

(** The unique index on the runs of a rule. *)
Definition same_event (rule_id : option Z) (event_type : string) (scheduled_for_ms : Z) (r : RunRow) : bool :=
  is_some rule_id && bool_decide (rn_rule_id r = rule_id) && String.eqb (rn_event_type r) event_type
  && (rn_scheduled_for_ms r =? scheduled_for_ms).

Definition delivery_id (run_id : string) (channel_id : Z) : string := run_id +:+ "-" +:+ show_Z channel_id.

(** A delivery for each channel that still exists; a disabled one is skipped from the start. *)
Fixpoint create_deliveries (run_id : string) (channel_ids : list Z) (now_ms : Z) (has_pending : bool) (t : NotifyTables)
    : (bool * NotifyTables) + DbError :=
  match channel_ids with
  | [] => inl (has_pending, t)
  | channel_id :: ids =>
      match nt_channels t !! channel_id with
      | None => create_deliveries run_id ids now_ms has_pending t
      | Some c =>
          let id := delivery_id run_id channel_id in
          if is_some (nt_deliveries t !! id) then inr constraint_violation
          else
            create_deliveries run_id ids now_ms (has_pending || ch_enabled c)
              (set_nt_deliveries (<[id := MkDelivery run_id (Some channel_id) (ch_name c) (ch_kind c)
                 (if ch_enabled c then "pending" else "skipped") 0 (if ch_enabled c then Some now_ms else None) None None None None
                 None no_diagnostics now_ms now_ms]> (nt_deliveries t)) t)
      end
  end.

Definition set_run_status (run_id status : string) (completed_at_ms : option Z) (t : NotifyTables) : NotifyTables :=
  set_nt_runs (alter (λ r, MkRun (rn_rule_id r) (rn_rule_name r) (rn_event_type r) (rn_scheduled_for_ms r) (rn_window_from_ms r)
                         (rn_window_to_ms r) (rn_payload_json r) status (rn_created_at_ms r) completed_at_ms) run_id (nt_runs t)) t.

(** [false] when the event of the rule has a run already: then nothing is inserted. *)
Definition notification_create_run (run_id : string) (rule_id : option Z) (rule_name event_type : string) (scheduled_for_ms : Z)
    (window_from_ms window_to_ms : option Z) (payload_json : string) (channel_ids : list Z) (now_ms : Z) (t : NotifyTables)
    : (bool + DbError) * NotifyTables :=
  if is_some_and rule_id (λ id, is_none (nt_rules t !! id)) then (inr constraint_violation, t)
  else if is_some (nt_runs t !! run_id)
          || existsb (λ kv, same_event rule_id event_type scheduled_for_ms kv.2) (map_to_list (nt_runs t)) then (inl false, t)
  else
    let run := MkRun rule_id rule_name event_type scheduled_for_ms window_from_ms window_to_ms payload_json "pending" now_ms None in
    match create_deliveries run_id channel_ids now_ms false (set_nt_runs (<[run_id := run]> (nt_runs t)) t) with
    | inr e => (inr e, t)
    | inl (has_pending, t') => (inl true, if has_pending then t' else set_run_status run_id "skipped" (Some now_ms) t')
    end.

(** Runs go with their deliveries. *)
Definition notification_cleanup_history (cutoff_ms : Z) (t : NotifyTables) : Z * NotifyTables :=
  let old := filter (λ kv : string * RunRow, rn_created_at_ms kv.2 < cutoff_ms) (nt_runs t) in
  (Z.of_nat (size old),
   set_nt_deliveries (filter (λ kv : string * DeliveryRow, old !! dv_run_id kv.2 = None) (nt_deliveries t))
     (set_nt_runs (filter (λ kv : string * RunRow, ¬ rn_created_at_ms kv.2 < cutoff_ms) (nt_runs t)) t)).

(** ** Deliveries *)
Definition delivery_due (now_ms : Z) (d : DeliveryRow) : bool :=
  String.eqb (dv_status d) "pending" && is_some_and (dv_next_attempt_at_ms d) (λ at_, at_ <=? now_ms)
  && lease_free now_ms (dv_lease_until_ms d).

Definition notification_list_due_deliveries (now_ms limit : Z) (t : NotifyTables) : list string :=
  take (Z.to_nat limit) (map fst (sort_by_key1 (λ kv : string * DeliveryRow, unwrap_or (dv_next_attempt_at_ms kv.2) 0)
    (List.filter (λ kv : string * DeliveryRow, delivery_due now_ms kv.2) (map_to_list (nt_deliveries t))))).

Definition claim (owner : string) (now_ms lease_until_ms : Z) (d : DeliveryRow) : DeliveryRow :=
  MkDelivery (dv_run_id d) (dv_channel_id d) (dv_channel_name d) (dv_channel_kind d) "sending" (dv_attempts d + 1)
    (dv_next_attempt_at_ms d) (Some now_ms) (dv_delivered_at_ms d) (Some owner) (Some lease_until_ms) (dv_last_error d)
    (dv_last d) (dv_created_at_ms d) now_ms.

Definition claim_delivery_row (id owner : string) (now_ms lease_until_ms : Z) (t : NotifyTables) : bool * NotifyTables :=
  let '(hit, deliveries) := update_row id (delivery_due now_ms) (claim owner now_ms lease_until_ms) (nt_deliveries t) in
  (hit, set_nt_deliveries deliveries t).

(** The work item joins the delivery, its run and its channel. *)
Definition delivery_work (id : string) (t : NotifyTables) : DeliveryWorkItem + DbError :=
  match nt_deliveries t !! id with
  | None => inr row_not_found
  | Some d =>
      match nt_runs t !! dv_run_id d, opt_bind (dv_channel_id d) (λ c, nt_channels t !! c) with
      | Some r, Some c => inl (MkWork id (rn_event_type r) (rn_payload_json r) (ch_config_enc c) (dv_attempts d))
      | _, _ => inr row_not_found
      end
  end.

(** The claim is not undone when the work item cannot be read. *)
Definition notification_claim_delivery (id owner : string) (now_ms lease_until_ms : Z) (t : NotifyTables)
    : (option DeliveryWorkItem + DbError) * NotifyTables :=
  let '(claimed, t) := claim_delivery_row id owner now_ms lease_until_ms t in
  if negb claimed then (inl None, t)
  else (let? work := delivery_work id t in inl (Some work), t).

Definition delivery_leased (owner : string) (d : DeliveryRow) : bool := bool_decide (dv_lease_owner d = Some owner).

Definition succeed (diagnostics : DeliveryAttemptDiagnostics) (now_ms : Z) (d : DeliveryRow) : DeliveryRow :=
  MkDelivery (dv_run_id d) (dv_channel_id d) (dv_channel_name d) (dv_channel_kind d) "succeeded" (dv_attempts d)
    None (dv_last_attempt_at_ms d) (Some now_ms) None None None diagnostics (dv_created_at_ms d) now_ms.

Definition fail_delivery (failure : DeliveryFailure) (now_ms : Z) (d : DeliveryRow) : DeliveryRow :=
  MkDelivery (dv_run_id d) (dv_channel_id d) (dv_channel_name d) (dv_channel_kind d)
    (if is_some (fl_retry_at_ms failure) then "pending" else "failed") (dv_attempts d)
    (fl_retry_at_ms failure) (dv_last_attempt_at_ms d) (dv_delivered_at_ms d) None None
    (Some (fl_error_code failure, fl_error_message failure)) (fl_diagnostics failure) (dv_created_at_ms d) now_ms.

(** How a delivery ended: the row of its owner is changed. *)
Definition finish_row (id owner : string) (result : DeliveryAttemptDiagnostics + DeliveryFailure) (now_ms : Z) (t : NotifyTables)
    : NotifyTables :=
  set_nt_deliveries (update_row id (delivery_leased owner)
    (match result with inl diagnostics => succeed diagnostics now_ms | inr failure => fail_delivery failure now_ms end)
    (nt_deliveries t)).2 t.

(** The deliveries of a run with one of the given states. *)
Definition count_status (run_id : string) (states : list string) (t : NotifyTables) : Z :=
  len (List.filter (λ kv : string * DeliveryRow, String.eqb (dv_run_id kv.2) run_id && is_one_of (dv_status kv.2) states)
         (map_to_list (nt_deliveries t))).

(** The state of a run as the counts say it, and when it was completed. *)
Definition run_status (run_id : string) (now_ms : Z) (t : NotifyTables) : string * option Z :=
  let pending := count_status run_id ["pending"; "sending"] t in
  let succeeded := count_status run_id ["succeeded"] t in
  let failed := count_status run_id ["failed"] t in
  (if 0 <? pending then "sending" else if failed =? 0 then "succeeded" else if 0 <? succeeded then "partial" else "failed",
   if pending =? 0 then Some now_ms else None).

Definition notification_refresh_run_status_for_delivery (delivery_id : string) (now_ms : Z) (t : NotifyTables)
    : (unit + DbError) * NotifyTables :=
  match nt_deliveries t !! delivery_id with
  | None => (inr row_not_found, t)
  | Some d => let '(status, completed) := run_status (dv_run_id d) now_ms t in (inl tt, set_run_status (dv_run_id d) status completed t)
  end.

Definition notification_finish_delivery (id owner : string) (result : DeliveryAttemptDiagnostics + DeliveryFailure) (now_ms : Z)
    (t : NotifyTables) : (unit + DbError) * NotifyTables :=
  notification_refresh_run_status_for_delivery id now_ms (finish_row id owner result now_ms t).
Definition notification_finish_delivery_success (id owner : string) (diagnostics : DeliveryAttemptDiagnostics) (now_ms : Z) :=
  notification_finish_delivery id owner (inl diagnostics) now_ms.
Definition notification_finish_delivery_failure (id owner : string) (failure : DeliveryFailure) (now_ms : Z) :=
  notification_finish_delivery id owner (inr failure) now_ms.

Definition notification_retry_delivery (id : string) (now_ms : Z) (t : NotifyTables) : bool * NotifyTables :=
  let '(hit, deliveries) := update_row id (λ d, String.eqb (dv_status d) "failed")
    (λ d, MkDelivery (dv_run_id d) (dv_channel_id d) (dv_channel_name d) (dv_channel_kind d) "pending" (dv_attempts d) (Some now_ms)
            (dv_last_attempt_at_ms d) (dv_delivered_at_ms d) None None (dv_last_error d) (dv_last d) (dv_created_at_ms d) now_ms)
    (nt_deliveries t) in
  (hit, set_nt_deliveries deliveries t).

Definition notification_get_delivery (id : string) (t : NotifyTables) : option DeliveryView :=
  let! d := nt_deliveries t !! id in
  let! r := nt_runs t !! dv_run_id d in
  Some (MkDeliveryView id d r).

(** Newest first, those of one rule or state when asked. *)
Definition notification_list_deliveries (offset limit : Z) (status : option string) (rule_id : option Z) (t : NotifyTables)
    : list DeliveryView :=
  take (Z.to_nat limit) (drop (Z.to_nat offset) (sort_by_key1 (λ v, - dv_created_at_ms (vw_delivery v))
    (List.filter (λ v, is_none_or status (String.eqb (dv_status (vw_delivery v)))
                       && is_none_or rule_id (λ id, bool_decide (rn_rule_id (vw_run v) = Some id)))
       (omap (λ id, notification_get_delivery id t) (map fst (map_to_list (nt_deliveries t))))))).

(** ** Alert states *)
Definition notification_get_alert_state (rule_id : Z) (t : NotifyTables) : option AlertStateRecord :=
  option_map fst (nt_alert_states t !! rule_id).

Definition notification_upsert_alert_state (rule_id : Z) (state : AlertStateRecord) (last_value_json : option string) (t : NotifyTables)
    : (unit + DbError) * NotifyTables :=
  if is_none (nt_rules t !! rule_id) then (inr constraint_violation, t)
  else (inl tt, set_nt_alert_states (<[rule_id := (state, last_value_json)]> (nt_alert_states t)) t).

(** ** Usage *)

(** The columns of [stats_events] that are read here. *)
Record StatsEvent := MkStats {
  se_time_ms : Z;
  se_provider_id : option Z;
  se_api_key_id : Z;
  se_price_version_id : option Z;
  se_price_tier_index : option Z;
  se_http_status : option Z;
  se_error_type : option string;
  se_usage_observed : bool;
  se_usage : Usage
}.

Record UsageGroupRow := MkGroup {
  ug_provider_id : option Z;
  ug_api_key_id : Z;
  ug_price_version_id : option Z;
  ug_price_tier_index : option Z;
  ug_request_success : Z;
  ug_request_failed : Z;
  ug_usage_observed_requests : Z;
  ug_usage : Usage
}.

(** [COALESCE(http_status, 500) < 400 AND error_type IS NULL] *)
Definition event_succeeded (e : StatsEvent) : bool := (unwrap_or (se_http_status e) 500 <? 400) && is_none (se_error_type e).

Definition sum_usage (l : list Usage) : Usage :=
  MkUsage (sum_Z (map us_input_tokens l)) (sum_Z (map us_output_tokens l)) (sum_Z (map us_cache_read_input_tokens l))
    (sum_Z (map us_cache_creation_input_tokens l)) (sum_Z (map us_reasoning_output_tokens l)).

(** Events of one group have the same price, and tokens of the same kinds. *)
Definition group_key (e : StatsEvent) : option Z * Z * option Z * option Z * (bool * bool * bool * bool) :=
  (se_provider_id e, se_api_key_id e, se_price_version_id e, se_price_tier_index e,
   (0 <? us_input_tokens (se_usage e), 0 <? us_output_tokens (se_usage e), 0 <? us_cache_read_input_tokens (se_usage e),
    0 <? us_cache_creation_input_tokens (se_usage e))).

Definition in_window (from_ms to_ms : Z) (e : StatsEvent) : bool := (from_ms <=? se_time_ms e) && (se_time_ms e <? to_ms).

Definition count_events (f : StatsEvent → bool) (l : list StatsEvent) : Z := len (List.filter f l).

Definition usage_group (events : list StatsEvent) (key : option Z * Z * option Z * option Z * (bool * bool * bool * bool)) : UsageGroupRow :=
  let l := List.filter (λ e, bool_decide (group_key e = key)) events in
  let '(provider_id, api_key_id, price_version_id, price_tier_index, _) := key in
  MkGroup provider_id api_key_id price_version_id price_tier_index (count_events event_succeeded l)
    (count_events (λ e, negb (event_succeeded e)) l) (count_events se_usage_observed l) (sum_usage (map se_usage l)).

(** The order of the rows plays no part in what is made of them. *)
Definition notification_aggregate_usage (from_ms to_ms : Z) (events : list StatsEvent) : list UsageGroupRow :=
  let events := List.filter (in_window from_ms to_ms) events in
  map (usage_group events) (remove_dups (map group_key events)).

(** ** An updated table *)
Lemma update_row_lookup {K V} `{Countable K} (k : K) (f : V → bool) (g : V → V) (m : gmap K V) i v :
  (update_row k f g m).2 !! i = Some v → m !! i = Some v ∨ i = k ∧ ∃ v0, m !! k = Some v0 ∧ f v0 = true ∧ v = g v0.
Proof.
  unfold update_row. destruct (m !! k) as [v0|] eqn:E; [|by left]. destruct (f v0) eqn:Ef; [|by left].
  cbn [snd]. rewrite lookup_insert_Some. intros [[<- <-]|[_ ?]]; [right; eauto|by left].
Qed.
