(* ===== verification/NotifyReport.v ===== *)
(** * NotifyReport: the payload of a notification

    Models [notification/report.rs]: the aggregates of a window in total, by provider and by
    client key, their order and truncation, the warnings, the payload, and the value of the
    metric of an alert. *)
From Stdlib Require Import SpecFloat.
From Stdlib Require Import Ascii String.
From S2P Require Import Prelude Float64 Text Types Pricing Notification Alerts NotifyTables.

Local Open Scope string_scope.
Local Open Scope list_scope.
Local Open Scope Z_scope.

Definition SCHEMA_VERSION : Z := 1.
Definition MAX_WEBHOOK_DIMENSION_ITEMS : nat := 1000.

(** ** The payload *)
Record EventPayload := MkEventPayload { ev_id : string; ev_event_type : string; ev_occurred_at_ms : Z }.
Record RulePayload := MkRulePayload { rp_id : option Z; rp_name : string; rp_locale : string; rp_top_n : Z }.
Record InstancePayload := MkInstance {
  in_id : string;
  in_hostname : option string;
  in_version : string;
  in_commit : string;
  in_started_at_ms : Z;
  in_uptime_ms : Z
}.
Record WindowPayload := MkWindow {
  wn_from_ms : Z;
  wn_to_ms : Z;
  wn_timezone : string;
  wn_catch_up : bool;
  wn_missed_occurrences : Z;
  wn_data_complete : bool
}.

(** What the monitor of the host says. *)
Record ServerStatus := MkServerStatus {
  sv_scope : string;
  sv_cpu_usage_percent : option f64;
  sv_cpu_capacity_cores : f64;
  sv_cpu_sample_ms : option Z;
  sv_memory_used_bytes : option Z;
  sv_memory_current_bytes : option Z;
  sv_memory_reclaimable_bytes : option Z;
  sv_memory_total_bytes : option Z;
  sv_memory_usage_percent : option f64;
  sv_memory_limited : bool
}.

Record ServerPayload := MkServerPayload {
  sp_database_ready : bool;
  sp_status : ServerStatus;
  sp_providers_enabled : Z;
  sp_healthy : Z;
  sp_warning : Z;
  sp_error : Z
}.

Record UsageAggregate := MkAggregate {
  ua_requests : Z;
  ua_failed : Z;
  ua_error_rate_percent : f64;
  ua_usage : Usage;
  ua_total_tokens : Z;
  ua_usage_observed_requests : Z;
  ua_usage_coverage_percent : f64;
  ua_estimated_cost_usd : string;
  ua_unpriced_requests : Z
}.

Record UsageDimension := MkDimension { ud_id : Z; ud_name : string; ud_aggregate : UsageAggregate }.

Record UsagePayload := MkUsagePayload {
  up_totals : UsageAggregate;
  up_providers : list UsageDimension;
  up_client_keys : list UsageDimension;
  up_truncated : bool;
  up_total_provider_items : Z;
  up_total_client_key_items : Z
}.

Record AlertPayload := MkAlertPayload {
  al_metric : AlertMetric;
  al_scope_kind : AlertScopeKind;
  al_scope_id : option Z;
  al_value : f64;
  al_threshold : f64;
  al_complete : bool;
  al_state : string
}.

Record NotificationPayload := MkPayload {
  np_schema_version : Z;
  np_event : EventPayload;
  np_rule : RulePayload;
  np_instance : InstancePayload;
  np_window : WindowPayload;
  np_server : ServerPayload;
  np_usage : UsagePayload;
  np_alert : option AlertPayload;
  np_warnings : list string
}.

(** ** Aggregates *)
Definition percent (numerator denominator : Z) : f64 :=
  if denominator <=? 0 then f64_zero
  else f64_mul (SFdiv f64_prec f64_emax (f64_of_Z (Z.max numerator 0)) (f64_of_Z denominator)) (f64_of_Z 100).

Definition sat_usage (a b : Usage) : Usage :=
  MkUsage (i64_sat_add (us_input_tokens a) (us_input_tokens b)) (i64_sat_add (us_output_tokens a) (us_output_tokens b))
    (i64_sat_add (us_cache_read_input_tokens a) (us_cache_read_input_tokens b))
    (i64_sat_add (us_cache_creation_input_tokens a) (us_cache_creation_input_tokens b))
    (i64_sat_add (us_reasoning_output_tokens a) (us_reasoning_output_tokens b)).

Section Report.
Context {D : Type} `{Decimal D}.
(** [Decimal::cmp] and parsing, as far as the order of the dimensions needs them. *)
Context (dec_leb : D → D → bool).

Record MutableAggregate := MkMutable {
  ma_requests : Z;
  ma_failed : Z;
  ma_usage_observed_requests : Z;
  ma_usage : Usage;
  ma_estimated_cost_usd : D;
  ma_unpriced_requests : Z
}.

Definition default_aggregate : MutableAggregate := MkMutable 0 0 0 (MkUsage 0 0 0 0 0) dec_zero 0.

(** [None] is a panic of the decimal arithmetic. *)
Definition add (a : MutableAggregate) (row : UsageGroupRow) (price : option (PriceVersion D)) : option MutableAggregate :=
  let requests := i64_sat_add (ug_request_success row) (ug_request_failed row) in
  let with_cost cost unpriced :=
    MkMutable (i64_sat_add (ma_requests a) requests) (i64_sat_add (ma_failed a) (ug_request_failed row))
      (i64_sat_add (ma_usage_observed_requests a) (ug_usage_observed_requests row)) (sat_usage (ma_usage a) (ug_usage row))
      cost unpriced in
  let unpriced := i64_sat_add (ma_unpriced_requests a) (ug_usage_observed_requests row) in
  match price with
  | None => Some (with_cost (ma_estimated_cost_usd a) unpriced)
  | Some price =>
      let! cost := cost_for_usage (pv_card price) (ug_usage row) (unwrap_or (ug_price_tier_index row) 0) in
      match cost with
      | Some cost =>
          let! both := dec_add (co_input_usd cost) (co_output_usd cost) in
          let! sum := dec_add (ma_estimated_cost_usd a) both in
          Some (with_cost sum (ma_unpriced_requests a))
      | None => Some (with_cost (ma_estimated_cost_usd a) unpriced)
      end
  end.

Definition total_tokens (u : Usage) : Z :=
  i64_sat_add (i64_sat_add (i64_sat_add (us_input_tokens u) (us_output_tokens u)) (us_cache_read_input_tokens u))
    (us_cache_creation_input_tokens u).

Definition finish (a : MutableAggregate) : UsageAggregate :=
  MkAggregate (ma_requests a) (ma_failed a) (percent (ma_failed a) (ma_requests a)) (ma_usage a) (total_tokens (ma_usage a))
    (ma_usage_observed_requests a) (percent (ma_usage_observed_requests a) (ma_requests a))
    (dec_to_string (dec_normalize (ma_estimated_cost_usd a))) (ma_unpriced_requests a).

Section Prices.
Context (prices : gmap Z (PriceVersion D)).

Definition price_of (row : UsageGroupRow) : option (PriceVersion D) := opt_bind (ug_price_version_id row) (λ id, prices !! id).

(** The rows one after the other into one aggregate. *)
Fixpoint add_all (a : MutableAggregate) (rows : list UsageGroupRow) : option MutableAggregate :=
  match rows with
  | [] => Some a
  | row :: rows => let! a := add a row (price_of row) in add_all a rows
  end.

(** [entry(key).or_default().add(row)], for the rows that have a key. *)
Fixpoint add_by (key : UsageGroupRow → option Z) (m : gmap Z MutableAggregate) (rows : list UsageGroupRow)
    : option (gmap Z MutableAggregate) :=
  match rows with
  | [] => Some m
  | row :: rows =>
      match key row with
      | None => add_by key m rows
      | Some k =>
          let! a := add (unwrap_or (m !! k) default_aggregate) row (price_of row) in
          add_by key (<[k := a]> m) rows
      end
  end.
End Prices.

(** ** Dimensions *)
Definition cost_of (d : UsageDimension) : D := unwrap_or (dec_from_str (ua_estimated_cost_usd (ud_aggregate d))) dec_zero.

(** The dearest first, then the most tokens, then the smallest id. *)
Definition dimension_leb (a b : UsageDimension) : bool :=
  if negb (dec_leb (cost_of a) (cost_of b)) then true
  else if negb (dec_leb (cost_of b) (cost_of a)) then false
  else lex_leb (- ua_total_tokens (ud_aggregate a), ud_id a) (- ua_total_tokens (ud_aggregate b), ud_id b).

Definition sort_dimensions (items : list UsageDimension) : list UsageDimension := sort_by dimension_leb items.

Definition dimensions (names : gmap Z string) (label : string) (m : gmap Z MutableAggregate) : list UsageDimension :=
  map (λ kv, MkDimension kv.1 (unwrap_or (names !! kv.1) (label +:+ " #" +:+ show_Z kv.1)) (finish kv.2)) (map_to_list m).

Definition merge_usage (a : UsageAggregate) (b : UsageAggregate) : UsageAggregate :=
  MkAggregate (i64_sat_add (ua_requests a) (ua_requests b)) (i64_sat_add (ua_failed a) (ua_failed b)) (ua_error_rate_percent a)
    (sat_usage (ua_usage a) (ua_usage b)) (i64_sat_add (ua_total_tokens a) (ua_total_tokens b))
    (i64_sat_add (ua_usage_observed_requests a) (ua_usage_observed_requests b)) (ua_usage_coverage_percent a)
    (ua_estimated_cost_usd a) (i64_sat_add (ua_unpriced_requests a) (ua_unpriced_requests b)).

Definition empty_aggregate : UsageAggregate := MkAggregate 0 0 f64_zero (MkUsage 0 0 0 0 0) 0 0 f64_zero "" 0.

Fixpoint merge_all (a : UsageAggregate) (cost : D) (items : list UsageDimension) : option (UsageAggregate * D) :=
  match items with
  | [] => Some (a, cost)
  | d :: items => let! cost := dec_add cost (cost_of d) in merge_all (merge_usage a (ud_aggregate d)) cost items
  end.

(** Beyond the limit the rest is one item of its own. *)
Definition truncate_dimensions (items : list UsageDimension) (locale : NotificationLocale) : option (list UsageDimension * bool) :=
  if (length items <=? MAX_WEBHOOK_DIMENSION_ITEMS)%nat then Some (items, false)
  else
    let n := (MAX_WEBHOOK_DIMENSION_ITEMS - 1)%nat in
    let! merged := merge_all empty_aggregate dec_zero (drop n items) in
    let '(a, cost) := merged in
    Some (take n items ++ [MkDimension 0 (localized locale "其他" "Other")
            (MkAggregate (ua_requests a) (ua_failed a) (percent (ua_failed a) (ua_requests a)) (ua_usage a) (ua_total_tokens a)
               (ua_usage_observed_requests a) (percent (ua_usage_observed_requests a) (ua_requests a))
               (dec_to_string (dec_normalize cost)) (ua_unpriced_requests a))], true).

(** ** Building the payload *)

(** What the database, the settings, the monitor and the books say when it is built. *)
Record ReportInputs := MkInputs {
  ri_events : list StatsEvent;
  ri_prices : gmap Z (PriceVersion D);
  ri_providers : list UpstreamProvider;
  ri_api_keys : list (Z * string);
  ri_now_ms : Z;
  ri_retention_days : Z;
  ri_server : ServerStatus;
  ri_database_ready : bool;
  ri_health : Z * Z * Z;
  ri_instance : InstancePayload
}.

Definition names_of (l : list (Z * string)) : gmap Z string := foldl (λ m kv, <[kv.1 := kv.2]> m) ∅ l.

(** The usage of a window: the totals, and both lists of dimensions. *)
Definition usage_payload (inputs : ReportInputs) (rows : list UsageGroupRow) (locale : NotificationLocale) : option UsagePayload :=
  let! totals := add_all (ri_prices inputs) default_aggregate rows in
  let! by_provider := add_by (ri_prices inputs) ug_provider_id ∅ rows in
  let! by_client_key := add_by (ri_prices inputs) (λ row, Some (ug_api_key_id row)) ∅ rows in
  let providers := sort_dimensions (dimensions (names_of (map (λ p, (up_id p, up_name p)) (ri_providers inputs))) "Provider" by_provider) in
  let client_keys := sort_dimensions (dimensions (names_of (ri_api_keys inputs)) "Key" by_client_key) in
  let! p := truncate_dimensions providers locale in
  let! k := truncate_dimensions client_keys locale in
  Some (MkUsagePayload (finish totals) p.1 k.1 (p.2 || k.2) (len providers) (len client_keys)).

Definition data_complete (inputs : ReportInputs) (from_ms : Z) : bool :=
  let retention_cutoff := i64_sat_sub (ri_now_ms inputs) (i64_sat_mul (ri_retention_days inputs) 86400000) in
  (ri_retention_days inputs =? 0) || (retention_cutoff <=? from_ms).

Definition warnings (complete : bool) (u : UsagePayload) (locale : NotificationLocale) : list string :=
  let say zh en := localized locale zh en in
  (if complete then [] else [say "报表窗口早于明细统计保留期，数据可能不完整。"
                                 "The report window exceeds detailed-stat retention and may be incomplete."])
  ++ (if ua_usage_observed_requests (up_totals u) <? ua_requests (up_totals u)
      then [say "部分请求未返回用量，Token 和成本为已观测下限。"
                "Some requests did not return usage; token and cost values are observed lower bounds."] else [])
  ++ (if 0 <? ua_unpriced_requests (up_totals u)
      then [say "部分请求缺少价格，成本未覆盖全部用量。" "Some requests are unpriced, so cost does not cover all usage."] else [])
  ++ (if up_truncated u
      then [say "维度明细超过 Webhook 安全上限，尾部项目已合并为“其他”。"
                "Dimension details exceeded the Webhook safety limit; trailing items were grouped as Other."] else []).

(** [None] is a panic of the decimal arithmetic. *)
Definition build_payload (inputs : ReportInputs) (event_id event_type : string) (rule_id : option Z) (rule_name : string)
    (locale : NotificationLocale) (top_n from_ms to_ms : Z) (timezone : string) (catch_up : bool) (missed_occurrences : Z)
    (alert : option AlertPayload) : option NotificationPayload :=
  let! u := usage_payload inputs (notification_aggregate_usage from_ms to_ms (ri_events inputs)) locale in
  let complete := data_complete inputs from_ms in
  let '(healthy, warning, error) := ri_health inputs in
  Some (MkPayload SCHEMA_VERSION (MkEventPayload event_id event_type (ri_now_ms inputs))
    (MkRulePayload rule_id rule_name (locale_as_str locale) top_n) (ri_instance inputs)
    (MkWindow from_ms to_ms timezone catch_up missed_occurrences complete)
    (MkServerPayload (ri_database_ready inputs) (ri_server inputs) (len (List.filter up_enabled (ri_providers inputs)))
       healthy warning error)
    u alert (warnings complete u locale)).
End Report.

(** ** The metric of an alert *)
Definition aggregate_for_scope (p : NotificationPayload) (scope : AlertScopeKind) (scope_id : option Z) : option UsageAggregate :=
  let find l := option_map ud_aggregate (List.find (λ d, bool_decide (Some (ud_id d) = scope_id)) l) in
  match scope with
  | GlobalScope => Some (up_totals (np_usage p))
  | ProviderScope => find (up_providers (np_usage p))
  | ClientKeyScope => find (up_client_keys (np_usage p))
  end.

(** Complete: an unobserved usage or a missing price could not change the value. *)
Definition metric_complete (metric : AlertMetric) (a : UsageAggregate) : bool :=
  match metric with
  | TotalTokens => ua_requests a <=? ua_usage_observed_requests a
  | EstimatedCostUsd => (ua_requests a <=? ua_usage_observed_requests a) && (ua_unpriced_requests a =? 0)
  | _ => true
  end.

Definition usage_metric (metric : AlertMetric) (a : UsageAggregate) : option f64 :=
  match metric with
  | RequestCount => Some (f64_of_Z (ua_requests a))
  | ErrorRatePercent => Some (ua_error_rate_percent a)
  | TotalTokens => Some (f64_of_Z (ua_total_tokens a))
  | EstimatedCostUsd => parse_f64 (ua_estimated_cost_usd a)
  | _ => None
  end.

Definition metric_value (p : NotificationPayload) (config : ThresholdAlertConfig) : option MetricValue :=
  match ac_metric config with
  | CpuUsagePercent => option_map (λ v, MkMetricValue v true 1) (sv_cpu_usage_percent (sp_status (np_server p)))
  | MemoryUsagePercent => option_map (λ v, MkMetricValue v true 1) (sv_memory_usage_percent (sp_status (np_server p)))
  | UnhealthyProviderCount =>
      Some (MkMetricValue (f64_of_Z (u32_sat_add (sp_warning (np_server p)) (sp_error (np_server p)))) true
              (sp_providers_enabled (np_server p)))
  | metric =>
      let! a := aggregate_for_scope p (ac_scope_kind config) (ac_scope_id config) in
      let! value := usage_metric metric a in
      Some (MkMetricValue value (metric_complete metric a) (ua_requests a))
  end.

(** ** Every event is counted once *)
Inductive Counter := Requests | Failed | Observed | Input | Output | CacheRead | CacheCreation | Reasoning.

Definition of_tokens (c : Counter) (u : Usage) : Z :=
  match c with
  | Input => us_input_tokens u
  | Output => us_output_tokens u
  | CacheRead => us_cache_read_input_tokens u
  | CacheCreation => us_cache_creation_input_tokens u
  | Reasoning => us_reasoning_output_tokens u
  | _ => 0
  end.

Definition of_event (c : Counter) (e : StatsEvent) : Z :=
  match c with
  | Requests => 1
  | Failed => if event_succeeded e then 0 else 1
  | Observed => if se_usage_observed e then 1 else 0
  | c => of_tokens c (se_usage e)
  end.

Definition of_row (c : Counter) (r : UsageGroupRow) : Z :=
  match c with
  | Requests => ug_request_success r + ug_request_failed r
  | Failed => ug_request_failed r
  | Observed => ug_usage_observed_requests r
  | c => of_tokens c (ug_usage r)
  end.

Definition of_aggregate {D} (c : Counter) (a : MutableAggregate (D := D)) : Z :=
  match c with
  | Requests => ma_requests a
  | Failed => ma_failed a
  | Observed => ma_usage_observed_requests a
  | c => of_tokens c (ma_usage a)
  end.

Definition of_usage (c : Counter) (a : UsageAggregate) : Z :=
  match c with
  | Requests => ua_requests a
  | Failed => ua_failed a
  | Observed => ua_usage_observed_requests a
  | c => of_tokens c (ua_usage a)
  end.

Definition sum_over {A} (f : A → Z) (l : list A) : Z := sum_Z (map f l).
Definition of_dimension (c : Counter) (d : UsageDimension) : Z := of_usage c (ud_aggregate d).

Section Tally.
Context {A : Type} (f : A → Z).

Lemma sum_over_cons x l : sum_over f (x :: l) = f x + sum_over f l.
Proof. done. Qed.
Lemma sum_over_app l l' : sum_over f (l ++ l') = sum_over f l + sum_over f l'.
Proof. induction l as [|x l IH]; [done|]. change ((x :: l) ++ l') with (x :: (l ++ l')). rewrite !sum_over_cons IH. lia. Qed.
Lemma sum_over_perm l l' : l ≡ₚ l' → sum_over f l = sum_over f l'.
Proof. induction 1; rewrite ?sum_over_cons; lia. Qed.
Lemma sum_over_nonneg l : (∀ x, x ∈ l → 0 <= f x) → 0 <= sum_over f l.
Proof.
  induction l as [|x l IH]; intros Hf; [done|]. rewrite sum_over_cons.
  assert (0 <= f x) by (apply Hf; left). assert (0 <= sum_over f l) by (apply IH; intros y Hy; apply Hf; by right). lia.
Qed.
Lemma sum_over_le_one l x : (∀ y, y ∈ l → 0 <= f y) → x ∈ l → f x <= sum_over f l.
Proof.
  intros Hf Hx. apply list_elem_of_split in Hx as (l1 & l2 & ->). rewrite sum_over_app sum_over_cons.
  assert (0 <= sum_over f l1) by (apply sum_over_nonneg; intros y Hy; apply Hf, elem_of_app; by left).
  assert (0 <= sum_over f l2); [|lia]. apply sum_over_nonneg. intros y Hy. apply Hf, elem_of_app. right. by right.
Qed.
Lemma sum_over_map {B} (g : B → A) l : sum_over f (map g l) = sum_over (λ x, f (g x)) l.
Proof. unfold sum_over. by rewrite map_map. Qed.
Lemma sum_over_filter_length (p : A → bool) l : sum_over (λ x, if p x then 1 else 0) l = len (List.filter p l).
Proof. induction l as [|x l IH]; [done|]. unfold sum_over, len in *. cbn [map sum_Z foldr List.filter]. destruct (p x); cbn [length]; unfold sum_Z in IH; lia. Qed.
End Tally.

Lemma sum_over_ext {A} (f g : A → Z) l : (∀ x, x ∈ l → f x = g x) → sum_over f l = sum_over g l.
Proof. intros Hf. unfold sum_over. f_equal. apply map_ext_in. intros x Hx%list_elem_of_In. by apply Hf. Qed.

Lemma sum_over_add {A} (f g : A → Z) l : sum_over (λ x, f x + g x) l = sum_over f l + sum_over g l.
Proof. induction l as [|x l IH]; [done|]. rewrite !sum_over_cons IH. lia. Qed.

(** Groups are a partition. *)
Lemma sum_over_partition {A K} `{EqDecision K} (f : A → Z) (key : A → K) l ks :
  NoDup ks → (∀ x, x ∈ l → key x ∈ ks) →
  sum_over (λ k, sum_over f (List.filter (λ x, bool_decide (key x = k)) l)) ks = sum_over f l.
Proof.
  intros Hnd. induction l as [|x l IH]; intros Hk; cbn [List.filter].
  { induction ks as [|k ks IHk]; [done|]. apply NoDup_cons in Hnd as [_ Hnd]. rewrite sum_over_cons IHk; [done|done|by intros ? ?%not_elem_of_nil]. }
  rewrite sum_over_cons -IH; [|intros y Hy; apply Hk; by right]. assert (key x ∈ ks) as Hx by (apply Hk; left). clear IH Hk.
  assert (∀ ks, key x ∉ ks → sum_over (λ k, sum_over f (if bool_decide (key x = k) then x :: List.filter (λ x, bool_decide (key x = k)) l
      else List.filter (λ x, bool_decide (key x = k)) l)) ks = sum_over (λ k, sum_over f (List.filter (λ x, bool_decide (key x = k)) l)) ks) as Hother.
  { intros ks' Hni. apply sum_over_ext. intros k Hk'. rewrite bool_decide_eq_false_2 //. intros <-. done. }
  induction ks as [|k ks IHk]; [by apply not_elem_of_nil in Hx|]. apply NoDup_cons in Hnd as [Hni Hnd]. rewrite !sum_over_cons.
  destruct (decide (key x = k)) as [<-|Hne].
  - rewrite bool_decide_eq_true_2 // sum_over_cons Hother //. lia.
  - rewrite bool_decide_eq_false_2 //. apply elem_of_cons in Hx as [?|Hx]; [done|]. rewrite IHk //. lia.
Qed.

Lemma of_tokens_sum c l : (match c with Requests | Failed | Observed => False | _ => True end) →
  of_tokens c (sum_usage l) = sum_over (of_tokens c) l.
Proof. by destruct c. Qed.

(** One group counts its events. *)
Lemma group_counts c events key :
  of_row c (usage_group events key) = sum_over (of_event c) (List.filter (λ e, bool_decide (group_key e = key)) events).
Proof.
  unfold usage_group. destruct key as [[[[p k] v] i] b]. set (l := List.filter _ _). unfold count_events.
  destruct c; cbn [of_row ug_request_success ug_request_failed ug_usage_observed_requests ug_usage].
  - rewrite -!sum_over_filter_length -sum_over_add. apply sum_over_ext. intros e _. by destruct (event_succeeded e).
  - rewrite -sum_over_filter_length. apply sum_over_ext. intros e _. cbn. by destruct (event_succeeded e).
  - by rewrite -sum_over_filter_length.
  - rewrite of_tokens_sum // sum_over_map. done.
  - rewrite of_tokens_sum // sum_over_map. done.
  - rewrite of_tokens_sum // sum_over_map. done.
  - rewrite of_tokens_sum // sum_over_map. done.
  - rewrite of_tokens_sum // sum_over_map. done.
Qed.

Lemma rows_count c from to_ events :
  sum_over (of_row c) (notification_aggregate_usage from to_ events) = sum_over (of_event c) (List.filter (in_window from to_) events).
Proof.
  unfold notification_aggregate_usage. set (l := List.filter _ _). rewrite sum_over_map.
  rewrite (sum_over_ext _ (λ key, sum_over (of_event c) (List.filter (λ e, bool_decide (group_key e = key)) l)));
    [|intros key _; apply group_counts].
  apply sum_over_partition; [apply NoDup_remove_dups|]. intros e He. apply elem_of_remove_dups, list_elem_of_In, in_map, list_elem_of_In, He.
Qed.

Lemma group_nonneg c events key : (∀ e, e ∈ events → 0 <= of_event c e) → 0 <= of_row c (usage_group events key).
Proof.
  intros He. rewrite group_counts. apply sum_over_nonneg. intros e [He' _]%list_elem_of_In%filter_In. by apply He, list_elem_of_In.
Qed.

Section Counting.
Context {D : Type} `{Decimal D} (prices : gmap Z (PriceVersion D)).
Implicit Types (a : MutableAggregate (D := D)) (m : gmap Z (MutableAggregate (D := D))).

Lemma of_sat_usage c u v : (match c with Requests | Failed | Observed => False | _ => True end) →
  of_tokens c (sat_usage u v) = i64_sat_add (of_tokens c u) (of_tokens c v).
Proof. by destruct c. Qed.

Definition row_ok (row : UsageGroupRow) : Prop := (∀ c, 0 <= of_row c row) ∧ 0 <= ug_request_success row.

(** An addition is exact while the sum fits. *)
Lemma add_counts c a row price a' :
  add a row price = Some a' → 0 <= of_aggregate c a → row_ok row → of_aggregate c a + of_row c row <= i64_max →
  of_aggregate c a' = of_aggregate c a + of_row c row.
Proof.
  intros E Ha [Hr Hs] Hle.
  assert (of_aggregate c a' = i64_sat_add (of_aggregate c a)
            (match c with Requests => i64_sat_add (ug_request_success row) (ug_request_failed row) | c => of_row c row end)) as ->.
  { unfold add in E. destruct price as [price|]; [|injection E as <-; by destruct c].
    apply opt_bind_Some in E as (cost & _ & E). destruct cost as [cost|]; [|injection E as <-; by destruct c].
    apply opt_bind_Some in E as (both & _ & E). apply opt_bind_Some in E as (sum & _ & E). injection E as <-. by destruct c. }
  pose proof (Hr Failed) as Hf. pose proof (Hr c) as Hc. destruct c; cbn [of_row] in Hle, Hc, Hf |- *; mlia.
Qed.

Lemma add_all_counts c rows : ∀ a a',
  add_all prices a rows = Some a' → 0 <= of_aggregate c a → (∀ row, row ∈ rows → row_ok row) →
  of_aggregate c a + sum_over (of_row c) rows <= i64_max → of_aggregate c a' = of_aggregate c a + sum_over (of_row c) rows.
Proof.
  induction rows as [|row rows IH]; intros a a' E Ha Hok Hle; cbn [add_all] in E; [injection E as <-; cbn; lia|].
  apply opt_bind_Some in E as (a1 & E1 & E). rewrite sum_over_cons in Hle |- *.
  assert (row_ok row) as Hrow by (apply Hok; left). assert (∀ row, row ∈ rows → row_ok row) as Hrows by (intros r Hr; apply Hok; by right).
  assert (0 <= sum_over (of_row c) rows) by (apply sum_over_nonneg; intros r Hr; by apply Hrows).
  pose proof (proj1 Hrow c). pose proof (add_counts c _ _ _ _ E1 Ha Hrow ltac:(lia)) as Hstep.
  rewrite (IH a1 a' E) //; lia.
Qed.

(** What a table of aggregates counts in total. *)
Definition total c m : Z := sum_over (λ kv, of_aggregate c kv.2) (map_to_list m).

Lemma total_insert c m k a : total c (<[k := a]> m) = total c m - of_aggregate c (unwrap_or (m !! k) default_aggregate) + of_aggregate c a.
Proof.
  unfold total. destruct (m !! k) as [a0|] eqn:E.
  - rewrite -insert_delete_eq. rewrite (sum_over_perm _ _ ((k, a) :: map_to_list (delete k m))); [|apply map_to_list_insert, lookup_delete_eq].
    rewrite -{2}(insert_id m k a0 E) -insert_delete_eq.
    rewrite (sum_over_perm _ (map_to_list (<[k:=a0]> (delete k m))) ((k, a0) :: map_to_list (delete k m))); [|apply map_to_list_insert, lookup_delete_eq].
    rewrite !sum_over_cons. cbn. lia.
  - rewrite (sum_over_perm _ _ ((k, a) :: map_to_list m)); [|by apply map_to_list_insert]. rewrite sum_over_cons.
    assert (of_aggregate c (unwrap_or (@None (MutableAggregate (D := D))) default_aggregate) = 0) as ->; [by destruct c|]. cbn. lia.
Qed.

Definition sound m : Prop := ∀ c k a, m !! k = Some a → 0 <= of_aggregate c a.

Lemma total_bounds c m k a : sound m → m !! k = Some a → 0 <= of_aggregate c a <= total c m.
Proof.
  intros Hm Hk. split; [by apply (Hm c k)|]. unfold total.
  change (of_aggregate c a) with ((λ kv : Z * MutableAggregate (D := D), of_aggregate c kv.2) (k, a)).
  apply sum_over_le_one; [|by apply elem_of_map_to_list]. intros [k' a'] Hin%elem_of_map_to_list. by apply (Hm c k').
Qed.

Lemma add_by_counts key rows : ∀ m m',
  add_by prices key m rows = Some m' → sound m → (∀ row, row ∈ rows → row_ok row) →
  (∀ c, total c m + sum_over (of_row c) (List.filter (λ r, is_some (key r)) rows) <= i64_max) →
  sound m' ∧ ∀ c, total c m' = total c m + sum_over (of_row c) (List.filter (λ r, is_some (key r)) rows).
Proof.
  induction rows as [|row rows IH]; intros m m' E Hm Hok Hle; cbn [add_by List.filter] in E, Hle |- *.
  { injection E as <-. split; [done|]. intros c. cbn. lia. }
  assert (row_ok row) as Hrow by (apply Hok; left). assert (∀ row, row ∈ rows → row_ok row) as Hrows by (intros r Hr; apply Hok; by right).
  destruct (key row) as [k|]; cbn [is_some] in Hle |- *; [|by apply IH].
  apply opt_bind_Some in E as (a1 & E1 & E). set (a0 := unwrap_or (m !! k) default_aggregate) in *.
  assert (∀ c, 0 <= of_aggregate c a0 <= total c m) as Ha0.
  { intros c. unfold a0. destruct (m !! k) as [a|] eqn:Ek; cbn [unwrap_or]; [by eapply total_bounds|]. split; [by destruct c|].
    assert (of_aggregate c (default_aggregate (D := D)) = 0) as -> by (by destruct c).
    apply sum_over_nonneg. intros [k' a'] Hin%elem_of_map_to_list. by apply (Hm c k'). }
  assert (∀ c, of_aggregate c a1 = of_aggregate c a0 + of_row c row) as Ha1.
  { intros c. specialize (Hle c). rewrite sum_over_cons in Hle. pose proof (Ha0 c). pose proof (proj1 Hrow c).
    assert (0 <= sum_over (of_row c) (List.filter (λ r, is_some (key r)) rows)).
    { apply sum_over_nonneg. intros r [Hr _]%list_elem_of_In%filter_In. apply (proj1 (Hrows r ltac:(by apply list_elem_of_In))). }
    apply (add_counts c _ _ _ _ E1); [lia|done|lia]. }
  assert (∀ c, total c (<[k := a1]> m) = total c m + of_row c row) as Ht by (intros c; rewrite total_insert Ha1; fold a0; lia).
  destruct (IH _ _ E) as [Hs Htotal]; [| done| |split; [done|]].
  - intros c k' a. destruct (decide (k = k')) as [<-|?].
    + rewrite lookup_insert_eq. intros [= <-]. rewrite Ha1. pose proof (Ha0 c). pose proof (proj1 Hrow c). lia.
    + rewrite lookup_insert_ne //. apply Hm.
  - intros c. rewrite Ht. specialize (Hle c). rewrite sum_over_cons in Hle. lia.
  - intros c. rewrite Htotal Ht sum_over_cons. lia.
Qed.
End Counting.

Lemma sum_over_filter {A} (f : A → Z) (p : A → bool) l : sum_over f (List.filter p l) = sum_over (λ x, if p x then f x else 0) l.
Proof. induction l as [|x l IH]; [done|]. cbn [List.filter]. rewrite sum_over_cons -IH. by destruct (p x). Qed.

Lemma sum_over_zero {A} (l : list A) : sum_over (λ _, 0) l = 0.
Proof. by induction l as [|x l IH]. Qed.

Lemma provider_rows_count c from to_ events :
  sum_over (of_row c) (List.filter (λ r, is_some (ug_provider_id r)) (notification_aggregate_usage from to_ events))
  = sum_over (of_event c) (List.filter (λ e, is_some (se_provider_id e)) (List.filter (in_window from to_) events)).
Proof.
  unfold notification_aggregate_usage. set (l := List.filter (in_window _ _) _). clearbody l. rewrite !sum_over_filter sum_over_map.
  rewrite (sum_over_ext _ (λ key, sum_over (λ e, if is_some (se_provider_id e) then of_event c e else 0) (List.filter (λ e, bool_decide (group_key e = key)) l))).
  - apply sum_over_partition; [apply NoDup_remove_dups|]. intros e He. apply elem_of_remove_dups, list_elem_of_In, in_map, list_elem_of_In, He.
  - intros key _. rewrite group_counts. destruct key as [[[[p k] v] i] b]. cbn [usage_group ug_provider_id].
    assert (∀ e, e ∈ List.filter (λ e, bool_decide (group_key e = (p, k, v, i, b))) l → se_provider_id e = p) as Hp.
    { intros e [_ He%bool_decide_eq_true]%list_elem_of_In%filter_In. unfold group_key in He. congruence. }
    destruct (is_some p) eqn:Ep.
    + apply sum_over_ext. intros e He. by rewrite (Hp e He) Ep.
    + rewrite (sum_over_ext _ (λ _, 0)); [by rewrite sum_over_zero|]. intros e He. by rewrite (Hp e He) Ep.
Qed.

Section Payload.
Context {D : Type} `{Decimal D} (dec_leb : D → D → bool).

Lemma dimensions_count c names label (m : gmap Z (MutableAggregate (D := D))) : sum_over (of_dimension c) (dimensions names label m) = total c m.
Proof. unfold dimensions, total. rewrite sum_over_map. apply sum_over_ext. intros kv _. by destruct c. Qed.

Lemma merge_all_counts c items : ∀ a cost a' cost',
  merge_all (D := D) a cost items = Some (a', cost') → 0 <= of_usage c a → (∀ d, d ∈ items → 0 <= of_dimension c d) →
  of_usage c a + sum_over (of_dimension c) items <= i64_max → of_usage c a' = of_usage c a + sum_over (of_dimension c) items.
Proof.
  induction items as [|d items IH]; intros a cost a' cost' E Ha Hd Hle; cbn [merge_all] in E; [injection E as <- _; cbn; lia|].
  apply opt_bind_Some in E as (cost1 & _ & E). rewrite sum_over_cons in Hle |- *. assert (0 <= of_dimension c d) by (apply Hd; left).
  assert (∀ d, d ∈ items → 0 <= of_dimension c d) as Hds by (intros d' Hd'; apply Hd; by right).
  pose proof (sum_over_nonneg _ _ Hds).
  assert (of_usage c (merge_usage a (ud_aggregate d)) = of_usage c a + of_dimension c d) as Hm.
  { unfold of_dimension in *. destruct c; cbn in *; mlia. }
  rewrite (IH _ _ _ _ E) // Hm; lia.
Qed.

Lemma truncate_counts c items locale items' b :
  truncate_dimensions (D := D) items locale = Some (items', b) → (∀ d, d ∈ items → 0 <= of_dimension c d) →
  sum_over (of_dimension c) items <= i64_max → sum_over (of_dimension c) items' = sum_over (of_dimension c) items.
Proof.
  unfold truncate_dimensions. destruct (Nat.leb _ _); [by intros [= <- _]|]. set (n := (MAX_WEBHOOK_DIMENSION_ITEMS - 1)%nat).
  intros E Hd Hle. apply opt_bind_Some in E as ([a cost] & E & E'). injection E' as <- _.
  transitivity (sum_over (of_dimension c) (take n items ++ drop n items)); [|by rewrite take_drop].
  rewrite !sum_over_app sum_over_cons. f_equal.
  assert (∀ d, d ∈ take n items → 0 <= of_dimension c d) as H1 by (intros d Hin; apply Hd; rewrite -(take_drop n items); apply elem_of_app; by left).
  assert (∀ d, d ∈ drop n items → 0 <= of_dimension c d) as H2 by (intros d Hin; apply Hd; rewrite -(take_drop n items); apply elem_of_app; by right).
  pose proof (sum_over_nonneg _ _ H1). rewrite -(take_drop n items) sum_over_app in Hle.
  pose proof (merge_all_counts c _ _ _ _ _ E ltac:(by destruct c) H2) as Hm.
  assert (of_usage c empty_aggregate = 0) as E0 by (by destruct c). rewrite E0 in Hm. specialize (Hm ltac:(lia)).
  assert (sum_over (of_dimension c) [] = 0) as -> by done. unfold of_dimension at 1. cbn [ud_aggregate].
  rewrite Z.add_0_l in Hm. rewrite -Hm. destruct c; cbn; lia.
Qed.

Lemma sorted_dimensions_count c items : sum_over (of_dimension c) (sort_dimensions dec_leb items) = sum_over (of_dimension c) items.
Proof. apply sum_over_perm, sort_by_perm. Qed.

Lemma listed_dimensions_count c names label (m : gmap Z (MutableAggregate (D := D))) locale items b :
  truncate_dimensions (D := D) (sort_dimensions dec_leb (dimensions names label m)) locale = Some (items, b) →
  sound m → total c m <= i64_max → sum_over (of_dimension c) items = total c m.
Proof.
  intros E Hm Hle. rewrite (truncate_counts c _ _ _ _ E); rewrite ?sorted_dimensions_count ?dimensions_count //.
  intros d Hd. unfold sort_dimensions in Hd. rewrite sort_by_perm in Hd. rename Hd into Hin.
  apply list_elem_of_In, in_map_iff in Hin as ([k a] & <- & Hin%list_elem_of_In%elem_of_map_to_list).
  pose proof (Hm c k a Hin). by destruct c.
Qed.

(** C29. A report counts every event of its window exactly once: in the totals the requests,
    failures, observed usages and tokens are those of the events with [from <= time < to], the
    listed client keys add up to the totals, also when the tail of the list was merged into one
    item, and the listed providers add up to the events that reached a provider. (As long as no
    sum exceeds 64 bits, and token counts are not negative.) *)
Theorem report_counts_every_event inputs event_id event_type rule_id rule_name locale top_n from to_ timezone catch_up missed alert p :
  build_payload dec_leb inputs event_id event_type rule_id rule_name locale top_n from to_ timezone catch_up missed alert = Some p →
  (∀ c e, e ∈ ri_events inputs → 0 <= of_event c e) →
  (∀ c, sum_over (of_event c) (List.filter (in_window from to_) (ri_events inputs)) <= i64_max) →
  ∀ c, let window := List.filter (in_window from to_) (ri_events inputs) in let u := np_usage p in
  of_usage c (up_totals u) = sum_over (of_event c) window
  ∧ sum_over (of_dimension c) (up_client_keys u) = sum_over (of_event c) window
  ∧ sum_over (of_dimension c) (up_providers u) = sum_over (of_event c) (List.filter (λ e, is_some (se_provider_id e)) window).
Proof.
  intros E Hnn Hle c window u. unfold build_payload in E. apply opt_bind_Some in E as (u' & Eu & E).
  destruct (ri_health inputs) as [[healthy warning] error]. injection E as <-. subst u. cbn [np_usage]. clear healthy warning error.
  set (rows := notification_aggregate_usage from to_ (ri_events inputs)) in Eu.
  assert (∀ c, sum_over (of_row c) rows = sum_over (of_event c) window) as Hrows by (intros c'; apply rows_count).
  assert (∀ row, row ∈ rows → row_ok row) as Hok.
  { intros row Hr. apply list_elem_of_In, in_map_iff in Hr as (key & <- & _).
    split; [|destruct key as [[[[? ?] ?] ?] ?]; cbn; unfold count_events, len; lia].
    intros c'. apply group_nonneg. intros e [He _]%list_elem_of_In%filter_In. apply Hnn, list_elem_of_In, He. }
  assert (∀ c (m : gmap Z (MutableAggregate (D := D))), m = ∅ → total c m = 0) as Hempty.
  { intros c' m ->. unfold total. by rewrite map_to_list_empty. }
  assert (sound (D := D) ∅) as Hsound by (intros c' k a; by rewrite lookup_empty).
  unfold usage_payload in Eu. apply opt_bind_Some in Eu as (totals & Et & Eu). apply opt_bind_Some in Eu as (by_provider & Ep & Eu).
  apply opt_bind_Some in Eu as (by_key & Ek & Eu). apply opt_bind_Some in Eu as ([ps bp] & Eps & Eu).
  apply opt_bind_Some in Eu as ([ks bk] & Eks & Eu). injection Eu as <-. cbn [up_totals up_client_keys up_providers fst snd].
  assert (∀ (f : UsageGroupRow → option Z) c, sum_over (of_row c) (List.filter (λ r, is_some (f r)) rows) <= sum_over (of_row c) rows) as Hsub.
  { intros f c'. rewrite sum_over_filter. clear -Hok. induction rows as [|row rows' IH]; [done|].
    rewrite !sum_over_cons. specialize (IH (λ r Hr, Hok r (list_elem_of_further _ _ _ Hr))). pose proof (proj1 (Hok row (list_elem_of_here _ _)) c').
    destruct (is_some (f row)); lia. }
  destruct (add_by_counts _ _ _ _ _ Ek Hsound Hok) as [Hks Hkc].
  { intros c'. rewrite (Hempty _ ∅ eq_refl). etransitivity; [apply (Hsub (λ row, Some (ug_api_key_id row)))|]. by rewrite Hrows. }
  destruct (add_by_counts _ _ _ _ _ Ep Hsound Hok) as [Hps Hpc].
  { intros c'. rewrite (Hempty _ ∅ eq_refl). etransitivity; [apply (Hsub ug_provider_id)|]. by rewrite Hrows. }
  assert (∀ l : list UsageGroupRow, List.filter (λ r, true) l = l) as Hall.
  { intros l. induction l as [|r l IHl]; [done|]. cbn. by rewrite IHl. }
  pose proof (Hkc c) as Hkc'. rewrite (Hempty _ ∅ eq_refl) in Hkc'. cbn [is_some] in Hkc'. rewrite Hall Hrows Z.add_0_l in Hkc'.
  pose proof (Hpc c) as Hpc'. rewrite (Hempty _ ∅ eq_refl) Z.add_0_l in Hpc'. unfold rows in Hpc'. rewrite provider_rows_count in Hpc'. fold window in Hpc'.
  split_and!.
  - pose proof (add_all_counts _ c _ _ _ Et) as Ha. assert (of_aggregate c (default_aggregate (D := D)) = 0) as E0 by (by destruct c).
    rewrite E0 Hrows in Ha. specialize (Ha ltac:(lia) Hok ltac:(apply Hle)). rewrite Z.add_0_l in Ha. rewrite -Ha. by destruct c.
  - rewrite (listed_dimensions_count c _ _ _ _ _ _ Eks Hks); rewrite Hkc' //.
  - rewrite (listed_dimensions_count c _ _ _ _ _ _ Eps Hps); rewrite Hpc' //.
    etransitivity; [|apply (Hle c)]. rewrite -Hpc' Hpc (Hempty _ ∅ eq_refl) -Hrows. apply (Hsub ug_provider_id).
Qed.
End Payload.

(** ** A run *)
#[local] Existing Instance whole.

Definition run_event (time : Z) (provider : option Z) (key input : Z) (status : Z) : StatsEvent :=
  MkStats time provider key None None (Some status) None true (MkUsage input 1 0 0 0).

Definition run_inputs : ReportInputs (D := Z) :=
  MkInputs [run_event 5 (Some 1) 7 10 200; run_event 6 (Some 1) 7 20 500; run_event 7 None 8 30 200; run_event 9 (Some 2) 8 40 200]
    ∅ [] [] 10 0 (MkServerStatus "host" None f64_zero None None None None None None false) true (0, 0, 0)
    (MkInstance "i" None "v" "c" 0 0).

Lemma report_counts_every_event_witness :
  ∃ p, build_payload Z.leb run_inputs "e" "test" None "r" EnUs 20 5 9 "UTC" false 0 None = Some p
       ∧ of_usage Input (up_totals (np_usage p)) = 60 ∧ sum_over (of_dimension Input) (up_providers (np_usage p)) = 30
       ∧ of_usage Failed (up_totals (np_usage p)) = 1.
Proof.
  destruct (build_payload Z.leb run_inputs "e" "test" None "r" EnUs 20 5 9 "UTC" false 0 None) as [p|] eqn:E; [|by vm_compute in E].
  assert (∀ c e, e ∈ ri_events run_inputs → 0 <= of_event c e) as Hnn.
  { intros c e He. repeat (apply elem_of_cons in He as [->|He]; [by destruct c|]). by apply not_elem_of_nil in He. }
  assert (∀ c, sum_over (of_event c) (List.filter (in_window 5 9) (ri_events run_inputs)) <= i64_max) as Hle by (by intros []).
  pose proof (report_counts_every_event Z.leb _ _ _ _ _ _ _ _ _ _ _ _ _ p E Hnn Hle) as H.
  exists p. split; [done|]. split_and!; [apply (H Input)|apply (H Input)|apply (H Failed)].
Defined.
