(* ===== verification/NotifyTransport.v ===== *)
(** * NotifyTransport: sending a notification

    Models [notification/transport.rs]: the validation of channel configurations, the text
    and the body of a message, its limits, the headers of a webhook request, and what an
    answer means for the delivery. Reading URLs, headers and mailboxes, the template engine,
    MACs, the mail transport and the readers derived by [serde] are the class [TransportLib]. *)
From Stdlib Require Import Ascii String.
From S2P Require Import Prelude Float64 Text Json Types Notification NotifyTables NotifyReport.

Local Open Scope string_scope.
Local Open Scope list_scope.
Local Open Scope Z_scope.

Definition MAX_RESPONSE_BYTES : Z := 8 * 1024.
Definition MAX_WEBHOOK_BYTES : Z := 1024 * 1024.
Definition MAX_DIAGNOSTIC_BYTES : Z := 16 * 1024.
Definition MAX_CHAT_MESSAGE_CHARS : Z := 16000.
Definition MAX_WECOM_TEXT_BYTES : Z := 2048.
Definition MAX_DISCORD_MESSAGE_CHARS : Z := 2000.
Definition USER_AGENT_VALUE : string := "little-gate-notifications/1".

Definition ELLIPSIS : string := "…".

Definition prefix_bytes (n : nat) (s : string) : string := of_chars (take n (chars s)).

Definition truncate_utf8_bytes (value : string) (max_bytes : Z) : string :=
  if str_len value <=? max_bytes then value
  else
    let suffix := if str_len ELLIPSIS <=? max_bytes then ELLIPSIS else "" in
    prefix_bytes (floor_boundary (Z.to_nat (max_bytes - str_len suffix)) (chars value)) value +:+ suffix.

Definition truncate_chars (value : string) (max_chars : Z) : string :=
  if char_count value <=? max_chars then value
  else of_chars (take_chars (Z.to_nat (Z.max 0 (max_chars - 1))) (chars value)) +:+ ELLIPSIS.

Definition diagnostic_excerpt (value : string) : string :=
  if str_len value <=? MAX_DIAGNOSTIC_BYTES then value
  else prefix_bytes (floor_boundary (Z.to_nat (MAX_DIAGNOSTIC_BYTES - 3)) (chars value)) value +:+ "...".

Definition sanitize_error (message : string) : string :=
  let message := of_chars (map (λ c, if is_char 13 c || is_char 10 c then ascii_of_nat 32 else c) (chars message)) in
  if str_len message <=? 512 then message else prefix_bytes (floor_boundary 512 (chars message)) message.

(** ** Errors *)
Record DeliveryError := MkDeliveryError {
  de_code : string;
  de_message : string;
  de_retryable : bool;
  de_retry_after_ms : option Z;
  de_diagnostics : DeliveryAttemptDiagnostics
}.

Definition permanent (code message : string) : DeliveryError := MkDeliveryError code (sanitize_error message) false None no_diagnostics.
Definition retryable (code message : string) : DeliveryError := MkDeliveryError code (sanitize_error message) true None no_diagnostics.
Definition with_diagnostics (d : DeliveryAttemptDiagnostics) (e : DeliveryError) : DeliveryError :=
  MkDeliveryError (de_code e) (de_message e) (de_retryable e) (de_retry_after_ms e) d.

(** ** Text of a message *)
Definition quote_mark : ascii := ascii_of_nat 34.
Definition quoted (s : string) : string := String.String quote_mark (s +:+ String.String quote_mark EmptyString).

Definition escape_html (value : string) : string :=
  replace "'" "&#39;" (replace (String.String quote_mark EmptyString) "&quot;" (replace ">" "&gt;" (replace "<" "&lt;" (replace "&" "&amp;" value)))).

Definition attribute (name value : string) : string := " " +:+ name +:+ "=" +:+ quoted value.
Definition html_cell (tag alignment border content : string) : string :=
  "<" +:+ tag +:+ (if String.eqb alignment "" then "" else attribute "align" alignment)
  +:+ attribute "style" ("border-bottom:1px solid #" +:+ border +:+ ";padding:8px") +:+ ">" +:+ content +:+ "</" +:+ tag +:+ ">".

Definition concat_strings (l : list string) : string := foldr String.append "" l.

Definition render_html_row (item : UsageDimension) : string :=
  let a := ud_aggregate item in
  "<tr>" +:+ html_cell "td" "" "eee" (escape_html (ud_name item)) +:+ html_cell "td" "right" "eee" (show_Z (ua_requests a))
  +:+ html_cell "td" "right" "eee" (show_Z (ua_total_tokens a))
  +:+ html_cell "td" "right" "eee" ("$" +:+ escape_html (ua_estimated_cost_usd a)) +:+ "</tr>".

Definition render_html_table (items : list UsageDimension) (top_n : Z) (locale : NotificationLocale) : string :=
  "<table" +:+ attribute "role" "table" +:+ attribute "style" "width:100%;border-collapse:collapse" +:+ "><thead><tr>"
  +:+ html_cell "th" "left" "ddd" (localized locale "名称" "Name") +:+ html_cell "th" "right" "ddd" (localized locale "请求" "Requests")
  +:+ html_cell "th" "right" "ddd" (localized locale "Token" "Tokens") +:+ html_cell "th" "right" "ddd" (localized locale "成本" "Cost")
  +:+ "</tr></thead><tbody>" +:+ concat_strings (map render_html_row (take (Z.to_nat top_n) items)) +:+ "</tbody></table>".

Definition line_feed : string := String.String (ascii_of_nat 10) EmptyString.

Definition render_text_table (items : list UsageDimension) (top_n : Z) : string :=
  String.concat line_feed (map (λ item,
    "- " +:+ ud_name item +:+ ": requests " +:+ show_Z (ua_requests (ud_aggregate item)) +:+ ", tokens "
    +:+ show_Z (ua_total_tokens (ud_aggregate item)) +:+ ", cost $" +:+ ua_estimated_cost_usd (ud_aggregate item))
    (take (Z.to_nat top_n) items)).

Record RenderedEmail := MkEmail { em_subject : string; em_html : string; em_text : string }.

Definition subject_label (locale : NotificationLocale) (event_type : string) : string :=
  if String.eqb event_type "alert_triggered" then localized locale "[告警]" "[Alert]"
  else if String.eqb event_type "alert_reminder" then localized locale "[持续告警]" "[Ongoing alert]"
  else if String.eqb event_type "alert_recovered" then localized locale "[已恢复]" "[Recovered]"
  else "".

(** ** The libraries *)
Record WebUri := MkWebUri { wu_scheme : option string; wu_authority : option string; wu_path_and_query : option string }.

(** What the SMTP transport may answer. *)
Inductive SmtpResult := SmtpSent | SmtpTimedOut | SmtpFailed (temporary : bool) (message : string).

Class TransportLib := {
  parse_uri : string → WebUri + string;
  (** [HeaderName::from_bytes]: the name in lower case. *)
  header_name_from : string → string + string;
  header_value_from : string → option string;
  header_to_str : string → option string;
  (** [str::parse::<Address>] and [str::parse::<Mailbox>]. *)
  parse_address : string → string + string;
  parse_recipient : string → string + string;
  payload_from_str : string → NotificationPayload + string;
  json_from_str : string → Value + string;
  json_to_string : Value → string;
  render_template : bool → NotificationLocale → NotificationPayload → string → string → string + string;
  hmac_sha256 : string → string → list Z;
  base64_standard : list Z → string;
  status_text : Z → string
}.

Section Transport.
Context `{TransportLib}.

Definition render_email (payload : NotificationPayload) : RenderedEmail + string :=
  let locale := if String.eqb (rp_locale (np_rule payload)) "en-US" then EnUs else ZhCn in
  let top_n := rp_top_n (np_rule payload) in
  let providers := up_providers (np_usage payload) in
  let client_keys := up_client_keys (np_usage payload) in
  let? html := render_template true locale payload (render_html_table providers top_n locale) (render_html_table client_keys top_n locale) in
  let? text := render_template false locale payload (render_text_table providers top_n) (render_text_table client_keys top_n) in
  inl (MkEmail ("[little-gate]" +:+ subject_label locale (ev_event_type (np_event payload)) +:+ " " +:+ rp_name (np_rule payload)) html text).

(** ** Validation *)

(** A mailbox is a display name and an address. *)
Definition parse_mailbox (name : option string) (email : string) : (option string * string) + string :=
  let? address := parse_address (trim email) in
  inl (opt_filter (λ s, negb (String.eqb s "")) (option_map trim name), address).

Fixpoint check_recipients (recipients : list string) : unit + NotificationError :=
  match recipients with
  | [] => inl tt
  | recipient :: rest =>
      match parse_recipient recipient with
      | inr error => inr (bad_request "invalid_recipient" error (Some "recipients"))
      | inl _ => check_recipients rest
      end
  end.

Definition validate_smtp_config (config : SmtpChannelConfig) : unit + NotificationError :=
  if String.eqb (trim (sm_host config)) "" then inr (bad_request "invalid_smtp_host" "SMTP host is required" (Some "host"))
  else if sm_port config =? 0 then inr (bad_request "invalid_smtp_port" "SMTP port must be between 1 and 65535" (Some "port"))
  else
    let? mailbox := map_err (λ message, bad_request "invalid_from_email" message (Some "from_email"))
                      (parse_mailbox (sm_from_name config) (sm_from_email config)) in
    if is_empty (sm_recipients config) || (50 <? len (sm_recipients config)) then
      inr (bad_request "invalid_recipients" "SMTP channel requires between 1 and 50 recipients" (Some "recipients"))
    else
      let? checked := check_recipients (sm_recipients config) in
      if is_some_and (sm_username config) (String.eqb "") || is_some_and (sm_password config) (String.eqb "") then
        inr (bad_request "invalid_smtp_credentials" "SMTP username and password must not be empty strings" (Some "username"))
      else if negb (Bool.eqb (is_some (sm_username config)) (is_some (sm_password config))) then
        inr (bad_request "invalid_smtp_credentials" "SMTP username and password must be configured together" (Some "username"))
      else inl tt.

Definition reserved_headers : list string :=
  ["host"; "content-length"; "content-type"; "connection"; "transfer-encoding"; "upgrade"; "x-little-gate-event";
   "x-little-gate-delivery"; "x-little-gate-timestamp"; "x-little-gate-signature"; "idempotency-key"].

Definition validate_custom_header (name value : string) : unit + NotificationError :=
  let invalid error := bad_request "invalid_webhook_header" error (Some "headers") in
  let? parsed := map_err invalid (header_name_from (trim name)) in
  if String.eqb value "" then inr (invalid "Webhook header values must not be empty")
  else match header_value_from value with
       | Some error => inr (invalid error)
       | None =>
           if is_one_of parsed reserved_headers
           then inr (bad_request "reserved_webhook_header" ("Webhook header " +:+ parsed +:+ " is reserved") (Some "headers"))
           else inl tt
       end.

Fixpoint check_headers (headers : list WebhookHeader) : unit + NotificationError :=
  match headers with
  | [] => inl tt
  | h :: rest => let? checked := validate_custom_header (wh_name h) (wh_value h) in check_headers rest
  end.

Definition validate_webhook_config (config : WebhookChannelConfig) : unit + NotificationError :=
  let invalid error := bad_request "invalid_webhook_url" error (Some "url") in
  let? uri := map_err invalid (parse_uri (wk_url config)) in
  if negb (is_some_and (wu_scheme uri) (λ s, is_one_of s ["http"; "https"])) || is_none (wu_authority uri) then
    inr (invalid "Webhook URL must be an absolute HTTP or HTTPS URL")
  else if is_some_and (wu_authority uri) (contains "@") then inr (invalid "Webhook URL must not contain embedded credentials")
  else if bool_decide (wk_format config = Generic) && (str_len (trim (wk_signing_secret config)) <? 32) then
    inr (bad_request "invalid_signing_secret" "Webhook signing secret must contain at least 32 characters" (Some "signing_secret"))
  else check_headers (wk_headers config).

Definition validate_channel_config (config : ChannelConfig) : unit + NotificationError :=
  match config with Smtp config => validate_smtp_config config | Webhook config => validate_webhook_config config end.

(** ** The body of a webhook *)
Definition sign_webhook (secret timestamp body : string) : string := hex_encode (hmac_sha256 secret (timestamp +:+ "." +:+ body)).

Definition sign_feishu_webhook (secret timestamp : string) : string :=
  base64_standard (hmac_sha256 (timestamp +:+ line_feed +:+ secret) "").

(** The text of a message to a chat, within the limit of the platform. *)
Definition chat_message (format : WebhookFormat) (message : string) : string :=
  match format with
  | Wecom => truncate_utf8_bytes message MAX_WECOM_TEXT_BYTES
  | Discord => truncate_chars message MAX_DISCORD_MESSAGE_CHARS
  | _ => truncate_chars message MAX_CHAT_MESSAGE_CHARS
  end.

Definition chat_body (config : WebhookChannelConfig) (message timestamp : string) : Value :=
  match wk_format config with
  | Feishu =>
      json_obj ([("msg_type", String "text"); ("content", json_obj [("text", String message)])]
                ++ if String.eqb (wk_signing_secret config) "" then []
                   else [("timestamp", String timestamp); ("sign", String (sign_feishu_webhook (wk_signing_secret config) timestamp))])
  | Wecom | Dingtalk => json_obj [("msgtype", String "text"); ("text", json_obj [("content", String message)])]
  | Slack => json_obj [("text", String message)]
  | Generic | Discord => json_obj [("content", String message)]
  end.

Definition build_webhook_body (config : WebhookChannelConfig) (payload_json timestamp : string) : string + DeliveryError :=
  if bool_decide (wk_format config = Generic) then inl payload_json
  else
    let? payload := map_err (permanent "invalid_payload") (payload_from_str payload_json) in
    let? rendered := map_err (permanent "webhook_render_failed") (render_email payload) in
    let message := em_subject rendered +:+ line_feed +:+ line_feed +:+ em_text rendered in
    inl (json_to_string (chat_body config (chat_message (wk_format config) message) timestamp)).

(** ** The answer *)
Definition validate_platform_response (format : WebhookFormat) (response_body : option string) : unit + DeliveryError :=
  let check code_field message_field :=
    let? raw := ok_or response_body (permanent "webhook_invalid_response" "Webhook returned an empty platform response") in
    let? value := map_err (λ error, permanent "webhook_invalid_response" ("Webhook returned invalid JSON: " +:+ error)) (json_from_str raw) in
    let? code := ok_or (opt_or (opt_bind (get code_field value) as_i64)
                          (if bool_decide (format = Feishu) then opt_bind (get "StatusCode" value) as_i64 else None))
                   (permanent "webhook_invalid_response" ("Webhook response is missing " +:+ code_field)) in
    if code =? 0 then inl tt
    else
      let message := unwrap_or (opt_or (opt_bind (get message_field value) as_str) (opt_bind (get "StatusMessage" value) as_str))
                       "platform rejected the message" in
      inr (permanent "webhook_platform_rejected" ("Webhook platform returned code " +:+ show_Z code +:+ ": " +:+ message)) in
  match format with
  | Feishu => check "code" "msg"
  | Wecom | Dingtalk => check "errcode" "errmsg"
  | Generic | Slack | Discord => inl tt
  end.

Definition parse_retry_after_ms (value : option string) : option Z :=
  let! value := value in
  let! text := header_to_str value in
  let! seconds := parse_i64 (trim text) in
  Some (i64_sat_mul (Z.max 1 (Z.min seconds 1800)) 1000).

Definition is_server_error (status : Z) : bool := (500 <=? status) && (status <? 600).
Definition is_success (status : Z) : bool := (200 <=? status) && (status <? 300).
Definition is_retryable_status (status : Z) : bool := existsb (Z.eqb status) [408; 425; 429] || is_server_error status.

(** An answer with its [Retry-After] and its body, as far as the latter could be read. *)
Record WebhookResponse := MkWebhookResponse { wr_status : Z; wr_retry_after : option string; wr_body : option string }.
Inductive WebhookReply := NoReply | NetworkError (message : string) | Replied (response : WebhookResponse).

(** The headers of a request as they are appended one after the other. *)
Fixpoint custom_headers (headers : list WebhookHeader) : list (string * string) + DeliveryError :=
  match headers with
  | [] => inl []
  | h :: rest =>
      let? name := map_err (permanent "invalid_webhook_header") (header_name_from (wh_name h)) in
      match header_value_from (wh_value h) with
      | Some error => inr (permanent "invalid_webhook_header" error)
      | None => let? rest := custom_headers rest in inl ((name, wh_value h) :: rest)
      end
  end.

Record WebhookRequest := MkWebhookRequest { wq_uri : WebUri; wq_headers : list (string * string); wq_body : string }.

(** The request of a delivery. The event type and the id of a delivery are the gateway's own
    and fit a header. *)
Definition webhook_request (config : WebhookChannelConfig) (delivery_id event_type payload_json timestamp : string)
    : WebhookRequest + DeliveryError :=
  let? request_body := build_webhook_body config payload_json timestamp in
  if MAX_WEBHOOK_BYTES <? str_len request_body then inr (permanent "webhook_payload_too_large" "Webhook payload exceeds 1 MiB")
  else
    let? uri := map_err (permanent "invalid_webhook_url") (parse_uri (wk_url config)) in
    let? custom := custom_headers (wk_headers config) in
    inl (MkWebhookRequest uri
      ([("content-type", "application/json"); ("user-agent", USER_AGENT_VALUE); ("x-little-gate-event", event_type);
        ("x-little-gate-delivery", delivery_id); ("x-little-gate-timestamp", timestamp); ("idempotency-key", delivery_id)]
       ++ (if String.eqb (wk_signing_secret config) "" then []
           else [("x-little-gate-signature", "v1=" +:+ sign_webhook (wk_signing_secret config) timestamp request_body)])
       ++ custom) request_body).

(** What an answer means. *)
Definition webhook_response_result (format : WebhookFormat) (request_body : string) (response : WebhookResponse)
    : DeliveryAttemptDiagnostics + DeliveryError :=
  let status := wr_status response in
  let body := opt_filter (λ s, str_len s <=? MAX_RESPONSE_BYTES) (wr_body response) in
  let excerpt := opt_filter (λ s, negb (String.eqb s "")) (option_map diagnostic_excerpt (opt_bind body from_utf8)) in
  let diagnostics := MkDiagnostics (Some status) (Some (diagnostic_excerpt request_body)) excerpt in
  if is_success status then
    let? accepted := map_err (with_diagnostics diagnostics) (validate_platform_response format excerpt) in inl diagnostics
  else
    let message := match excerpt with Some value => sanitize_error value | None => "Webhook returned " +:+ status_text status end in
    if is_retryable_status status then
      inr (MkDeliveryError "webhook_temporary_status" message true (parse_retry_after_ms (wr_retry_after response)) diagnostics)
    else inr (with_diagnostics diagnostics (permanent "webhook_rejected" (status_text status +:+ ": " +:+ message))).

Definition webhook_result (config : WebhookChannelConfig) (request_body : string) (reply : WebhookReply)
    : DeliveryAttemptDiagnostics + DeliveryError :=
  let sent := MkDiagnostics None (Some (diagnostic_excerpt request_body)) None in
  match reply with
  | NoReply => inr (with_diagnostics sent (retryable "webhook_timeout" "Webhook request timed out"))
  | NetworkError message => inr (with_diagnostics sent (retryable "webhook_network_error" message))
  | Replied response => webhook_response_result (wk_format config) request_body response
  end.

Definition webhook_send (config : WebhookChannelConfig) (delivery_id event_type payload_json : string) (now_ms : Z)
    (client : WebhookRequest → WebhookReply) : DeliveryAttemptDiagnostics + DeliveryError :=
  let? request := webhook_request config delivery_id event_type payload_json (show_Z (now_ms / 1000)) in
  webhook_result config (wq_body request) (client request).

(** ** Mail *)
Record MailMessage := MkMail {
  mm_from : option string * string;
  mm_message_id : string;
  mm_subject : string;
  mm_to : list string;
  mm_text : string;
  mm_html : string
}.

Fixpoint mailboxes (recipients : list string) : list string + DeliveryError :=
  match recipients with
  | [] => inl []
  | recipient :: rest =>
      let? mailbox := map_err (permanent "invalid_recipient") (parse_recipient recipient) in
      let? rest := mailboxes rest in
      inl (mailbox :: rest)
  end.

(** [build]: whether [lettre] can make the message; [relay]: whether it accepts the host. *)
Definition smtp_send (build : MailMessage → option string) (relay : SmtpSecurity → string → option string)
    (config : SmtpChannelConfig) (delivery_id payload_json : string) (mailer : MailMessage → SmtpResult)
    : DeliveryAttemptDiagnostics + DeliveryError :=
  let? payload := map_err (permanent "invalid_payload") (payload_from_str payload_json) in
  let? rendered := map_err (permanent "email_render_failed") (render_email payload) in
  let? from := map_err (permanent "invalid_from_email") (parse_mailbox (sm_from_name config) (sm_from_email config)) in
  let? to_ := mailboxes (sm_recipients config) in
  let message := MkMail from (delivery_id +:+ "@little-gate.local") (em_subject rendered) to_ (em_text rendered) (em_html rendered) in
  match build message with
  | Some error => inr (permanent "email_build_failed" error)
  | None =>
      match relay (sm_security config) (trim (sm_host config)) with
      | Some error => inr (permanent "smtp_configuration_failed" error)
      | None =>
          match mailer message with
          | SmtpSent => inl no_diagnostics
          | SmtpTimedOut => inr (retryable "smtp_timeout" "SMTP delivery timed out")
          | SmtpFailed true error => inr (retryable "smtp_temporary_error" error)
          | SmtpFailed false error => inr (permanent "smtp_delivery_failed" error)
          end
      end
  end.

(** What the world answers to a message of either kind. *)
Record SendWorld := MkSendWorld {
  sw_now_ms : Z;
  sw_build : MailMessage → option string;
  sw_relay : SmtpSecurity → string → option string;
  sw_mailer : MailMessage → SmtpResult;
  sw_client : WebhookRequest → WebhookReply
}.

Definition send_delivery (w : SendWorld) (config : ChannelConfig) (delivery_id event_type payload_json : string)
    : DeliveryAttemptDiagnostics + DeliveryError :=
  match config with
  | Smtp config => smtp_send (sw_build w) (sw_relay w) config delivery_id payload_json (sw_mailer w)
  | Webhook config => webhook_send config delivery_id event_type payload_json (sw_now_ms w) (sw_client w)
  end.
End Transport.

(** ** Truncation *)

Lemma floor_boundary_le i l : (floor_boundary i l <= i)%nat.
Proof. induction i as [|i IH]; cbn [floor_boundary]; destruct (is_char_boundary _ l); lia. Qed.

Lemma floor_boundary_boundary i l : is_char_boundary (floor_boundary i l) l = true.
Proof. induction i as [|i IH]; cbn [floor_boundary]; [done|]. by destruct (is_char_boundary (S i) l) eqn:E. Qed.

(** The characters taken are a prefix that ends where a character starts, or at the end. *)
Definition cut (k : nat) (l : list ascii) : Prop := k = length l ∨ ∃ c, l !! k = Some c ∧ lead_byte c = true.

Lemma cut_boundary k l : cut k l → is_char_boundary k l = true.
Proof.
  unfold is_char_boundary. intros [->|(c & -> & ->)]; [|by destruct (k =? 0)%nat].
  rewrite lookup_ge_None_2 // Nat.eqb_refl. by destruct (length l =? 0)%nat.
Qed.

Lemma take_chars_cut n l : ∃ k, take_chars n l = take k l ∧ cut k l.
Proof.
  revert n. induction l as [|c l IH]; intros n; cbn [take_chars]; [exists 0%nat; split; [done|by left]|].
  assert (∀ m, ∃ k, c :: take_chars m l = take k (c :: l) ∧ cut k (c :: l)) as Hstep.
  { intros m. destruct (IH m) as (k & -> & Hk). exists (S k). split; [done|]. destruct Hk as [->|Hk]; [by left|by right]. }
  destruct (lead_byte c) eqn:Ec; [|apply Hstep]. destruct n as [|n]; [|apply Hstep].
  exists 0%nat. split; [done|]. right. by exists c.
Qed.

Lemma take_chars_count n l : (length (List.filter lead_byte (take_chars n l)) <= n)%nat.
Proof.
  revert n. induction l as [|c l IH]; intros n; cbn [take_chars]; [cbn; lia|].
  destruct (lead_byte c) eqn:Ec; [destruct n as [|n]; [cbn; lia|]|]; cbn [List.filter]; rewrite Ec; cbn [length]; [specialize (IH n)|specialize (IH n)]; lia.
Qed.

Lemma str_len_append a b : str_len (a +:+ b) = str_len a + str_len b.
Proof. unfold str_len. rewrite length_append. lia. Qed.

Lemma prefix_bytes_len n s : str_len (prefix_bytes n s) <= Z.of_nat n.
Proof. unfold str_len, prefix_bytes. rewrite -length_chars chars_of_chars length_take. lia. Qed.

Lemma char_count_append a b : char_count (a +:+ b) = char_count a + char_count b.
Proof. unfold char_count, len. rewrite chars_append List.filter_app length_app. lia. Qed.

(** A text shortened at a character, with an ellipsis. *)
Definition shortened (message text : string) : Prop :=
  ∃ n, is_char_boundary n (chars text) = true ∧ message = prefix_bytes n text +:+ ELLIPSIS.

Lemma truncate_utf8_bytes_spec text max : 3 <= max →
  str_len (truncate_utf8_bytes text max) <= max ∧ (truncate_utf8_bytes text max = text ∨ shortened (truncate_utf8_bytes text max) text).
Proof.
  intros Hmax. unfold truncate_utf8_bytes. destruct (str_len text <=? max) eqn:E; [split; [lia|by left]|].
  change (str_len ELLIPSIS) with 3. assert ((3 <=? max) = true) as -> by lia. change (str_len ELLIPSIS) with 3.
  split; [|right; eexists; split; [apply floor_boundary_boundary|done]].
  rewrite str_len_append. pose proof (prefix_bytes_len (floor_boundary (Z.to_nat (max - 3)) (chars text)) text).
  pose proof (floor_boundary_le (Z.to_nat (max - 3)) (chars text)). change (str_len ELLIPSIS) with 3. lia.
Qed.

Lemma truncate_chars_spec text max : 1 <= max →
  char_count (truncate_chars text max) <= max ∧ (truncate_chars text max = text ∨ shortened (truncate_chars text max) text).
Proof.
  intros Hmax. unfold truncate_chars. destruct (char_count text <=? max) eqn:E; [split; [lia|by left]|].
  destruct (take_chars_cut (Z.to_nat (Z.max 0 (max - 1))) (chars text)) as (k & Ek & Hk).
  split; [|right; exists k; split; [by apply cut_boundary|by rewrite Ek]].
  rewrite char_count_append. change (char_count ELLIPSIS) with 1. unfold char_count, len. rewrite chars_of_chars.
  pose proof (take_chars_count (Z.to_nat (Z.max 0 (max - 1))) (chars text)). lia.
Qed.

(** A message to a chat keeps within the limit of its platform - 2048 bytes for WeCom, 2000
    characters for Discord, 16000 for the others - and is the whole text, or a part of it cut
    between two characters and marked by an ellipsis. *)
Theorem chat_message_fits format text :
  let message := chat_message format text in
  (match format with
   | Wecom => str_len message <= MAX_WECOM_TEXT_BYTES
   | Discord => char_count message <= MAX_DISCORD_MESSAGE_CHARS
   | _ => char_count message <= MAX_CHAT_MESSAGE_CHARS
   end) ∧ (message = text ∨ shortened message text).
Proof.
  pose proof (truncate_utf8_bytes_spec text MAX_WECOM_TEXT_BYTES ltac:(done)).
  pose proof (truncate_chars_spec text MAX_DISCORD_MESSAGE_CHARS ltac:(done)).
  pose proof (truncate_chars_spec text MAX_CHAT_MESSAGE_CHARS ltac:(done)).
  by destruct format.
Qed.

Example truncation_at_a_character :
  truncate_utf8_bytes "a中b" 5 = "a中b" ∧ truncate_utf8_bytes "a中bc" 5 = "a…" ∧ truncate_chars "a中bc" 3 = "a中…".
Proof. by vm_compute. Qed.

(** ** Answers *)
Lemma ok_or_inr {A E} (o : option A) (e e' : E) : ok_or o e = inr e' ↔ o = None ∧ e' = e.
Proof. destruct o; cbn; naive_solver. Qed.

Section Answers.
Context `{TransportLib}.

(** An answer after which sending again may help. *)
Definition temporary (reply : WebhookReply) : bool :=
  match reply with NoReply | NetworkError _ => true | Replied response => is_retryable_status (wr_status response) end.

(** An error that ends the delivery, whatever it carries for diagnosis. *)
Definition final (e : DeliveryError) : Prop := de_retryable e = false ∧ de_retry_after_ms e = None.

Lemma final_permanent c m : final (permanent c m).
Proof. done. Qed.
Lemma final_diagnostics d e : final e → final (with_diagnostics d e).
Proof. done. Qed.
#[local] Hint Resolve final_permanent final_diagnostics : core.

Lemma platform_error_final format body e : validate_platform_response format body = inr e → final e.
Proof.
  unfold validate_platform_response. destruct format; try done.
  all: intros [[_ ->]%ok_or_inr|(raw & _ & E)]%res_bind_inr; [done|].
  all: apply res_bind_inr in E as [(? & _ & ->)%map_err_inr|(value & _ & E)]; [done|].
  all: apply res_bind_inr in E as [[_ ->]%ok_or_inr|(code & _ & E)]; [done|].
  all: destruct (code =? 0); [done|]; by injection E as <-.
Qed.

Lemma custom_headers_final headers e : custom_headers headers = inr e → final e.
Proof.
  induction headers as [|h headers IH]; cbn [custom_headers]; [done|].
  intros [(? & _ & ->)%map_err_inr|(name & _ & E)]%res_bind_inr; [done|].
  destruct (header_value_from (wh_value h)); [by injection E as <-|]. apply res_bind_inr in E as [E|(? & _ & E)]; [by apply IH|done].
Qed.

Lemma build_webhook_body_final config payload_json timestamp e : build_webhook_body config payload_json timestamp = inr e → final e.
Proof.
  unfold build_webhook_body. destruct (bool_decide _); [done|].
  intros [(? & _ & ->)%map_err_inr|(payload & _ & E)]%res_bind_inr; [done|].
  by apply res_bind_inr in E as [(? & _ & ->)%map_err_inr|(rendered & _ & E)].
Qed.

(** A request that cannot be made ends the delivery. *)
Lemma webhook_request_final config delivery_id event_type payload_json timestamp e :
  webhook_request config delivery_id event_type payload_json timestamp = inr e → final e.
Proof.
  unfold webhook_request. intros [E|(body & _ & E)]%res_bind_inr; [by eapply build_webhook_body_final|].
  destruct (MAX_WEBHOOK_BYTES <? str_len body); [by injection E as <-|].
  apply res_bind_inr in E as [(? & _ & ->)%map_err_inr|(uri & _ & E)]; [done|].
  apply res_bind_inr in E as [E|(custom & _ & E)]; [by eapply custom_headers_final|done].
Qed.

Lemma retry_after_bounds value ms : parse_retry_after_ms value = Some ms → 1000 <= ms <= 1800000.
Proof.
  unfold parse_retry_after_ms. intros (v & _ & (text & _ & (seconds & _ & [= <-])%opt_bind_Some)%opt_bind_Some)%opt_bind_Some.
  mlia.
Qed.

Lemma retryable_not_success status : is_retryable_status status = true → is_success status = false.
Proof. unfold is_retryable_status, is_server_error, is_success. cbn. lia. Qed.

(** A webhook is retried exactly when its request was sent and there was no answer, the
    connection failed, or the status is 408, 425, 429 or 5xx; every other failure - a request
    that cannot be made, a rejection, a platform that answers with a code of its own - ends the
    delivery. A wait the receiver asks for lies between a second and half an hour. *)
Theorem webhook_retries_exactly_temporary config delivery_id event_type payload_json now_ms client e :
  webhook_send config delivery_id event_type payload_json now_ms client = inr e →
  (de_retryable e = true ↔
     ∃ request, webhook_request config delivery_id event_type payload_json (show_Z (now_ms / 1000)) = inl request
                ∧ temporary (client request) = true)
  ∧ ∀ ms, de_retry_after_ms e = Some ms → de_retryable e = true ∧ 1000 <= ms <= 1800000.
Proof.
  unfold webhook_send. destruct (webhook_request _ _ _ _ _) as [request|e'] eqn:Er; cbn [res_bind].
  2: { intros [= <-]. destruct (webhook_request_final _ _ _ _ _ _ Er) as [-> ->]. split; [|done]. split; [done|by intros (? & ? & _)]. }
  intros E. assert ((de_retryable e = true ↔ temporary (client request) = true)
    ∧ ∀ ms, de_retry_after_ms e = Some ms → de_retryable e = true ∧ 1000 <= ms <= 1800000) as [Ht Hm]; [|split; [|done]; rewrite Ht; naive_solver].
  revert E. unfold webhook_result. destruct (client request) as [|message|response]; [by intros [= <-]..|].
  unfold webhook_response_result. cbn [temporary]. set (excerpt := opt_filter _ _).
  destruct (is_success (wr_status response)) eqn:Es.
  - intros [(e' & Ep & ->)%map_err_inr|(? & _ & E)]%res_bind_inr; [|done].
    destruct (platform_error_final _ _ _ Ep) as [Hr Ha]. cbn. rewrite Hr Ha. split; [|done]. split; [done|].
    intros Hs%retryable_not_success. congruence.
  - destruct (is_retryable_status (wr_status response)); intros [= <-]; [|done]. cbn. split; [done|].
    intros ms Hms%retry_after_bounds. done.
Qed.
End Answers.

(** ** Headers of a webhook request *)

(** The name of a header has no blanks around it. *)
Class TransportOk `{TransportLib} : Prop := header_name_tight : ∀ s name, header_name_from s = inl name → trim s = s.

Section OwnHeaders.
Context `{TransportOk}.

Definition values (name : string) (r : WebhookRequest) : list string :=
  map snd (List.filter (λ kv, String.eqb kv.1 name) (wq_headers r)).

Lemma custom_headers_elem headers l : custom_headers headers = inl l →
  ∀ kv, kv ∈ l → ∃ h, h ∈ headers ∧ header_name_from (wh_name h) = inl kv.1.
Proof.
  revert l. induction headers as [|h headers IH]; cbn [custom_headers]; intros l E kv Hkv; [injection E as <-; set_solver|].
  apply res_bind_inl in E as (name & Hn%map_err_inl & E). destruct (header_value_from (wh_value h)); [done|].
  apply res_bind_inl in E as (rest & Erest & [= <-]). apply elem_of_cons in Hkv as [->|Hkv].
  - exists h. split; [left|done].
  - destruct (IH _ Erest _ Hkv) as (h' & Hin & Hh'). exists h'. split; [by right|done].
Qed.

Lemma check_headers_elem headers h : check_headers headers = inl tt → h ∈ headers → validate_custom_header (wh_name h) (wh_value h) = inl tt.
Proof.
  induction headers as [|h' headers IH]; cbn [check_headers]; [set_solver|].
  intros ([] & Hc & E)%res_bind_inl [->|Hin]%elem_of_cons; [done|by apply IH].
Qed.

Lemma valid_headers config : validate_webhook_config config = inl tt → check_headers (wk_headers config) = inl tt.
Proof.
  unfold validate_webhook_config. intros (uri & _ & E)%res_bind_inl.
  destruct (negb _ || _); [done|]. destruct (is_some_and _ _); [done|]. by destruct (bool_decide _ && _).
Qed.

Lemma custom_not_reserved headers l : check_headers headers = inl tt → custom_headers headers = inl l →
  ∀ kv, kv ∈ l → is_one_of kv.1 reserved_headers = false.
Proof.
  intros Hc El kv Hkv. destruct (custom_headers_elem _ _ El _ Hkv) as (h & Hin & Hn).
  pose proof (check_headers_elem _ _ Hc Hin) as Hv. unfold validate_custom_header in Hv.
  rewrite (header_name_tight _ _ Hn) Hn in Hv. cbn [map_err res_bind] in Hv.
  destruct (String.eqb (wh_value h) ""); [done|]. destruct (header_value_from (wh_value h)); [done|].
  by destruct (is_one_of kv.1 reserved_headers).
Qed.

Lemma no_values name (l : list (string * string)) : (∀ kv, kv ∈ l → is_one_of kv.1 reserved_headers = false) →
  is_one_of name reserved_headers = true → List.filter (λ kv : string * string, String.eqb kv.1 name) l = [].
Proof.
  intros Hl Hn. induction l as [|kv l IH]; [done|]. cbn. destruct (String.eqb_spec kv.1 name) as [E|]; [|apply IH; set_solver].
  pose proof (Hl kv ltac:(left)) as Hkv. rewrite E in Hkv. congruence.
Qed.

(** What the receiver relies on is the gateway's own: whatever headers the administrator
    configured, a request of a valid channel has each of the headers that identify, date and
    sign a delivery once, and the id of the delivery is its idempotency key; it is signed
    whenever there is a secret, over the time stamp and the body that is sent. *)
Theorem own_headers_stand config delivery_id event_type payload_json timestamp r :
  validate_webhook_config config = inl tt →
  webhook_request config delivery_id event_type payload_json timestamp = inl r →
  values "x-little-gate-delivery" r = [delivery_id] ∧ values "idempotency-key" r = [delivery_id]
  ∧ values "x-little-gate-event" r = [event_type] ∧ values "x-little-gate-timestamp" r = [timestamp]
  ∧ values "content-type" r = ["application/json"]
  ∧ values "x-little-gate-signature" r
    = (if String.eqb (wk_signing_secret config) "" then []
       else ["v1=" +:+ sign_webhook (wk_signing_secret config) timestamp (wq_body r)]).
Proof.
  intros Hv. unfold webhook_request. intros (body & _ & E)%res_bind_inl.
  destruct (MAX_WEBHOOK_BYTES <? str_len body); [done|].
  apply res_bind_inl in E as (uri & _ & E). apply res_bind_inl in E as (custom & Ec & [= <-]).
  pose proof (custom_not_reserved _ _ (valid_headers _ Hv) Ec) as Hc. unfold values. cbn [wq_headers wq_body].
  destruct (String.eqb (wk_signing_secret config) ""); cbn [List.filter app fst String.eqb Ascii.eqb Bool.eqb];
    rewrite !(no_values _ custom Hc) //.
Qed.

(** The name of a custom header is validated after its blanks are removed but sent as it
    was written: a channel with blanks around the name of a header is accepted, and then none
    of its deliveries is ever sent; each fails for good. *)
Theorem padded_header_never_sent config delivery_id event_type payload_json now_ms client h :
  h ∈ wk_headers config → trim (wh_name h) ≠ wh_name h →
  ∃ e, webhook_send config delivery_id event_type payload_json now_ms client = inr e ∧ de_retryable e = false.
Proof.
  intros Hin Hblank. unfold webhook_send. destruct (webhook_request _ _ _ _ _) as [r|e] eqn:Er; cbn [res_bind].
  2: { exists e. split; [done|]. by eapply webhook_request_final. }
  exfalso. revert Er. unfold webhook_request. intros (body & _ & E)%res_bind_inl. destruct (_ <? _); [done|].
  apply res_bind_inl in E as (uri & _ & E). apply res_bind_inl in E as (custom & Ec & _). clear - Hin Hblank Ec H0. revert custom Ec.
  induction (wk_headers config) as [|h' headers IH]; cbn [custom_headers]; [set_solver|]. intros custom Ec.
  apply res_bind_inl in Ec as (name & Hn%map_err_inl & Ec). apply elem_of_cons in Hin as [<-|Hin]; [by apply header_name_tight in Hn|].
  destruct (header_value_from (wh_value h')); [done|]. apply res_bind_inl in Ec as (rest & Erest & _). eauto.
Qed.
End OwnHeaders.

(** ** Escaping *)
Definition escape_char (c : ascii) : list ascii :=
  if is_char 38 c then chars "&amp;"
  else if is_char 60 c then chars "&lt;"
  else if is_char 62 c then chars "&gt;"
  else if is_char 34 c then chars "&quot;"
  else if is_char 39 c then chars "&#39;"
  else [c].

Lemma replace_char_flat (p : ascii) to fuel l : (length l <= fuel)%nat →
  replace_chars fuel [p] to l = flat_map (λ c, if Ascii.eqb p c then to else [c]) l.
Proof.
  revert fuel. induction l as [|c l IH]; intros [|fuel] Hf; cbn in Hf; try lia; try done.
  cbn [replace_chars strip_prefix_chars flat_map]. destruct (Ascii.eqb p c); cbn [strip_prefix_chars]; rewrite IH //; lia.
Qed.

Lemma replace_one (p : ascii) to s :
  chars (replace (String.String p EmptyString) to s) = flat_map (λ c, if Ascii.eqb p c then chars to else [c]) (chars s).
Proof. unfold replace. rewrite chars_of_chars. apply replace_char_flat. by rewrite length_chars. Qed.

(** The replacements one after the other are one replacement of each character. *)
Lemma escape_html_chars s : chars (escape_html s) = flat_map escape_char (chars s).
Proof.
  unfold escape_html. rewrite !replace_one. induction (chars s) as [|c l IH]; [done|]. cbn [flat_map].
  rewrite !flat_map_app IH. f_equal. clear. unfold escape_char, is_char. by destruct c as [[] [] [] [] [] [] [] []].
Qed.

Definition markup (c : ascii) : bool := existsb (λ n, is_char n c) [60; 62; 34; 39]%nat.

Lemma escape_char_markup c : forallb (λ d, negb (markup d)) (escape_char c) = true.
Proof. by destruct c as [[] [] [] [] [] [] [] []]. Qed.

(** No image of a character begins that of another. *)
Lemma escape_char_prefix_free a b x y : escape_char a ++ x = escape_char b ++ y → a = b ∧ x = y.
Proof.
  unfold escape_char, is_char.
  repeat match goal with |- context [if ?c then _ else _] => let E := fresh "E" in destruct c eqn:E end; cbn;
  repeat match goal with E : (_ =? _)%nat = true |- _ => apply Nat.eqb_eq in E end;
  intros [=]; subst; try done; split; try done; rewrite -(ascii_nat_embedding a) -(ascii_nat_embedding b); congruence.
Qed.

(** A name in a report by mail cannot be markup: its text has no angle bracket and no
    quotation mark, and different names have different texts. *)
Theorem escaped_html_is_text s :
  forallb (λ c, negb (markup c)) (chars (escape_html s)) = true ∧ ∀ s', escape_html s' = escape_html s → s' = s.
Proof.
  split.
  - rewrite escape_html_chars. induction (chars s) as [|c l IH]; [done|]. cbn [flat_map]. by rewrite forallb_app escape_char_markup IH.
  - intros s' E. apply (f_equal chars) in E. rewrite !escape_html_chars in E. apply chars_inj. revert E.
    generalize (chars s') as l, (chars s) as l'. induction l as [|a l IH]; intros [|b l']; cbn [flat_map]; intros E; try done.
    + by destruct b as [[] [] [] [] [] [] [] []].
    + by destruct a as [[] [] [] [] [] [] [] []].
    + apply escape_char_prefix_free in E as [-> E]. by rewrite (IH _ E).
Qed.

(** ** A run *)
Section Run.

(** A library for runs: every URL is one of the same host, names of headers are what has no
    blank around it. *)
#[local] Instance plain_transport : TransportLib := {
  parse_uri := λ _, inl (MkWebUri (Some "https") (Some "hooks.example") (Some "/t"));
  header_name_from := λ s, if String.eqb (trim s) s then inl (to_ascii_lowercase s) else inr "invalid HTTP header name";
  header_value_from := λ _, None;
  header_to_str := Some;
  parse_address := inl;
  parse_recipient := inl;
  payload_from_str := λ _, inr "unreadable";
  json_from_str := λ _, inr "unreadable";
  json_to_string := λ _, "";
  render_template := λ _ _ _ _ _, inr "no template";
  hmac_sha256 := λ secret message, map code (chars (secret +:+ message));
  base64_standard := hex_encode;
  status_text := show_Z
}.

#[local] Instance plain_transport_ok : TransportOk.
Proof. intros s name. cbn. destruct (String.eqb_spec (trim s) s); [done|by intros [=]]. Qed.

Definition run_webhook (headers : list WebhookHeader) : WebhookChannelConfig :=
  MkWebhook "https://hooks.example/t" Generic "0123456789abcdef0123456789abcdef" headers.

Lemma own_headers_stand_witness :
  ∃ r, webhook_request (run_webhook [MkWebhookHeader "X-Team" "ops"]) "r-1" "test" "{}" "10" = inl r
       ∧ values "idempotency-key" r = ["r-1"] ∧ length (values "x-little-gate-signature" r) = 1%nat.
Proof.
  destruct (webhook_request (run_webhook [MkWebhookHeader "X-Team" "ops"]) "r-1" "test" "{}" "10") as [r|] eqn:E; [|by vm_compute in E].
  assert (validate_webhook_config (run_webhook [MkWebhookHeader "X-Team" "ops"]) = inl tt) as Hv by by vm_compute.
  destruct (own_headers_stand _ _ _ _ _ r Hv E) as (_ & Hi & _ & _ & _ & Hs).
  exists r. split_and!; [done|done|by rewrite Hs].
Defined.

Lemma padded_header_never_sent_witness :
  validate_webhook_config (run_webhook [MkWebhookHeader "X-Team " "ops"]) = inl tt
  ∧ ∃ e, webhook_send (run_webhook [MkWebhookHeader "X-Team " "ops"]) "r-1" "test" "{}" 10000 (λ _, NoReply) = inr e ∧ de_retryable e = false.
Proof.
  split; [vm_compute; reflexivity|].
  apply (padded_header_never_sent _ _ _ _ _ _ (MkWebhookHeader "X-Team " "ops")); [left|by vm_compute].
Defined.

Lemma webhook_retries_exactly_temporary_witness :
  ∃ e, webhook_send (run_webhook []) "r-1" "test" "{}" 10000 (λ _, Replied (MkWebhookResponse 429 (Some "7") None)) = inr e
       ∧ de_retry_after_ms e = Some 7000 ∧ de_retryable e = true.
Proof.
  destruct (webhook_send (run_webhook []) "r-1" "test" "{}" 10000 (λ _, Replied (MkWebhookResponse 429 (Some "7") None))) as [d|e] eqn:E;
    [by vm_compute in E|].
  assert (de_retry_after_ms e = Some 7000) as Hms by (vm_compute in E; by injection E as <-).
  exists e. split_and!; [done|done|]. by apply (webhook_retries_exactly_temporary _ _ _ _ _ _ _ E) in Hms as [? _].
Defined.
End Run.
