(* ===== verification/NotifyRuntime.v ===== *)
(** * NotifyRuntime: processing rules and sending deliveries

    Models [notification/runtime.rs]: a pass over the due rules, the report and the alert of
    one rule, the dispatch of deliveries, what becomes of one delivery, and the runs an
    administrator asks for. A task runs in a monad over the tables; before each of its
    statements other tasks may change the tables, and a statement may fail, with or without
    having taken effect ([Moment]). *)
From Stdlib Require Import SpecFloat.
From Stdlib Require Import Ascii String.
From S2P Require Import Prelude Float64 Text Json Types Pricing Notification Alerts NotifyTables NotifyReport NotifyTransport Computation.

Local Open Scope string_scope.
Local Open Scope list_scope.
Local Open Scope Z_scope.
Local Open Scope loop_scope.

Definition ALERT_EVALUATION_MS : Z := 60000.
Definition RULE_RETRY_MS : Z := 60000.
Definition DELIVERY_BATCH : Z := 32.
Definition RULE_BATCH : Z := 16.

(** ** Statements *)

(** How a statement may fail: without an effect, or after it. *)
Inductive Fault := Lost (e : DbError) | Unacknowledged (e : DbError).

(** What happens around a statement: what others did before it, and whether it fails. *)
Record Moment := MkMoment { mo_others : NotifyTables → NotifyTables; mo_fault : option Fault }.

Record NotifyState := MkNState { ns_tables : NotifyTables; ns_moments : list Moment; ns_woken : bool }.
Definition set_ns_tables v s := MkNState v (ns_moments s) (ns_woken s).
Definition wake : NotifyState → NotifyState := λ s, MkNState (ns_tables s) (ns_moments s) true.

(** An error of the function, or a panic. *)
Inductive Exit := Err (e : NotificationError) | Panicked.

Notation M := (comp NotifyState Exit).

(** The tables a statement finds, and its fault; when the moments are used up there is none. *)
Definition next_moment (s : NotifyState) : option Fault * NotifyState :=
  match ns_moments s with
  | [] => (None, s)
  | m :: rest => (mo_fault m, MkNState (mo_others m (ns_tables s)) rest (ns_woken s))
  end.

Definition statement {A} (op : NotifyTables → (A + DbError) * NotifyTables) : M A :=
  λ s,
    let '(fault, s) := next_moment s in
    match fault with
    | Some (Lost e) => (inr (Err (internal e)), s)
    | Some (Unacknowledged e) => (inr (Err (internal e)), set_ns_tables (op (ns_tables s)).2 s)
    | None =>
        match op (ns_tables s) with
        | (inl a, t) => (inl a, set_ns_tables t s)
        | (inr e, t) => (inr (Err (internal e)), set_ns_tables t s)
        end
    end.

Definition query {A} (f : NotifyTables → A) : M A := statement (λ t, (inl (f t), t)).
Definition update {A} (f : NotifyTables → A * NotifyTables) : M A := statement (λ t, let '(a, t') := f t in (inl a, t')).
Definition execute (f : NotifyTables → NotifyTables) : M unit := statement (λ t, (inl tt, f t)).

Definition try_ {A} (r : A + NotificationError) : M A := match r with inl a => ret a | inr e => leave (Err e) end.
Definition or_panic {A} (o : option A) : M A := match o with Some a => ret a | None => leave Panicked end.

Section Runtime.
Context `{CronLib, TransportLib} {D : Type} `{Decimal D} (dec_leb : D → D → bool).
(** The readers and printers derived by [serde]; decryption under the master key. *)
Context (rule_config_from_str : string → RuleConfig + string) (payload_to_string : NotificationPayload → string + string).
Context (value_json : MetricValue → option string).
Context (channel_config_from_str : string → ChannelConfig + string) (decrypt_secret : string → string + string).

Definition decode_rule_config (raw : string) : RuleConfig + NotificationError := map_err internal (rule_config_from_str raw).
Definition payload_json (payload : NotificationPayload) : string + NotificationError := map_err internal (payload_to_string payload).

(** What a payload is built from, or the error of reading it; the ids drawn for the run and
    for an evaluation. *)
Record RuleWorld := MkRuleWorld {
  rw_inputs : ReportInputs (D := D) + NotificationError;
  rw_run_id : string;
  rw_evaluation_id : string
}.

(** ** One rule *)
Section Rule.
Context (owner : string) (w : RuleWorld).

Definition payload_of (event_id event_type : string) (rule_id : option Z) (rule_name : string) (locale : NotificationLocale)
    (top_n from_ms to_ms : Z) (timezone : string) (catch_up : bool) (missed : Z) : M NotificationPayload :=
  let* inputs := try_ (rw_inputs w) in
  or_panic (build_payload dec_leb inputs event_id event_type rule_id rule_name locale top_n from_ms to_ms timezone catch_up missed None).

Definition first_occurrence (cron timezone : string) (now_ms : Z) : Z + NotificationError :=
  let? l := next_occurrences cron timezone now_ms 1 in
  ok_or (head l) (bad_request "cron_has_no_next_occurrence" "cron expression has no future occurrence" (Some "cron")).

(** The window of a report: it begins where the last one ended, or an occurrence back. *)
Definition window_start (config : ScheduledReportConfig) (rule : RuleRecord) (boundary : Z) : Z + NotificationError :=
  match rl_last_window_end_ms rule with
  | Some value => if value <? boundary then inl value else previous_occurrence (rc_cron config) (rc_timezone config) boundary
  | None => previous_occurrence (rc_cron config) (rc_timezone config) boundary
  end.

Definition process_report (config : ScheduledReportConfig) (rule : RuleRecord) (now_ms : Z) : M unit :=
  let* boundary := try_ (previous_occurrence (rc_cron config) (rc_timezone config) (now_ms + 1)) in
  let* from_ms := try_ (window_start config rule boundary) in
  let* missed := try_ (missed_occurrence_count (rc_cron config) (rc_timezone config) (rl_next_run_at_ms rule) boundary) in
  let* payload := payload_of (rw_run_id w) "scheduled_report" (Some (rl_id rule)) (rl_name rule) (rc_locale config) (rc_top_n config)
                    from_ms boundary (rc_timezone config) (0 <? missed) missed in
  let* channel_ids := query (notification_rule_channel_ids (rl_id rule)) in
  let* json := try_ (payload_json payload) in
  statement (notification_create_run (rw_run_id w) (Some (rl_id rule)) (rl_name rule) "scheduled_report" boundary (Some from_ms)
               (Some boundary) json channel_ids now_ms) ;;
  let* next := try_ (first_occurrence (rc_cron config) (rc_timezone config) now_ms) in
  execute (notification_complete_rule (rl_id rule) owner next (Some boundary) now_ms).

(** The payload of an evaluation as it is sent: under its own id and event, with the alert. *)
Definition alert_payload (config : ThresholdAlertConfig) (event_type : string) (value : MetricValue) (state : string)
    (p : NotificationPayload) : NotificationPayload :=
  MkPayload (np_schema_version p) (MkEventPayload (rw_run_id w) event_type (ev_occurred_at_ms (np_event p))) (np_rule p) (np_instance p)
    (np_window p) (np_server p) (np_usage p)
    (Some (MkAlertPayload (ac_metric config) (ac_scope_kind config) (ac_scope_id config) (mv_value value) (ac_threshold config)
             (mv_complete value) state)) (np_warnings p).

Definition process_alert (config : ThresholdAlertConfig) (rule : RuleRecord) (now_ms : Z) : M unit :=
  let to_ms := now_ms in
  let from_ms := i64_sat_sub to_ms (ac_window_minutes config * 60000) in
  let* payload := payload_of (rw_evaluation_id w) "alert_evaluation" (Some (rl_id rule)) (rl_name rule) (ac_locale config) DEFAULT_TOP_N
                    from_ms to_ms DEFAULT_TIMEZONE false 0 in
  let value := metric_value payload config in
  let* record := query (notification_get_alert_state (rl_id rule)) in
  let transition := evaluate_alert value_json (unwrap_or record default_alert_state) config value now_ms in
  statement (notification_upsert_alert_state (rl_id rule) (next_state transition) (at_last_value_json transition)) ;;
  match at_event_type transition, value with
  | Some event_type, Some metric_value =>
      let payload := alert_payload config event_type metric_value (at_state transition) payload in
      let* channel_ids := query (notification_rule_channel_ids (rl_id rule)) in
      let* json := try_ (payload_json payload) in
      statement (notification_create_run (rw_run_id w) (Some (rl_id rule)) (rl_name rule) event_type now_ms (Some from_ms) (Some to_ms)
                   json channel_ids now_ms) ;;
      ret tt
  | _, _ => ret tt
  end ;;
  execute (notification_complete_rule (rl_id rule) owner (i64_sat_add now_ms ALERT_EVALUATION_MS) None now_ms).

Definition process_rule (rule : RuleRecord) (now_ms : Z) : M unit :=
  let* config := try_ (decode_rule_config (rl_config_json rule)) in
  match config with
  | ScheduledReport config => process_report config rule now_ms
  | ThresholdAlert config => process_alert config rule now_ms
  end ;;
  modify wake.
End Rule.

(** ** A pass over the due rules *)

(** [if let Err(error) = ..]: an error is handled, a panic is not. *)
Definition on_error (m : M unit) (handler : M unit) : M unit :=
  λ s, match m s with
       | (inr (Err _), s) => handler s
       | r => r
       end.

Fixpoint process_each (owner : string) (world : Z → RuleWorld) (now_ms : Z) (rules : list RuleRecord) : M unit :=
  match rules with
  | [] => ret tt
  | rule :: rest =>
      let* claimed := update (notification_claim_rule (rl_id rule) owner now_ms (i64_sat_add now_ms RULE_LEASE_MS)) in
      (if claimed : bool then
         on_error (process_rule owner (world (rl_id rule)) rule now_ms)
           (execute (notification_release_rule (rl_id rule) owner (i64_sat_add now_ms RULE_RETRY_MS) now_ms))
       else ret tt) ;;
      process_each owner world now_ms rest
  end.

Definition process_rules (owner : string) (world : Z → RuleWorld) (now_ms : Z) : M unit :=
  let* rules := query (notification_list_due_rules now_ms RULE_BATCH) in
  process_each owner world now_ms rules.

(** ** Deliveries *)

(** The wait before the next attempt; [None] when there is none. *)
Definition retry_delay (attempts : Z) (e : DeliveryError) : option Z :=
  if de_retryable e && (attempts <? 3)
  then Some (unwrap_or (de_retry_after_ms e) (if attempts =? 1 then 60000 else 300000)) else None.

(** How the delivery ends; a wait counts from [now_ms]. *)
Definition settlement (attempts now_ms : Z) (result : DeliveryAttemptDiagnostics + DeliveryError)
    : DeliveryAttemptDiagnostics + DeliveryFailure :=
  match result with
  | inl diagnostics => inl diagnostics
  | inr e => inr (MkFailure (option_map (i64_sat_add now_ms) (retry_delay attempts e)) (de_code e) (de_message e) (de_diagnostics e))
  end.

(** The statements that end a delivery: the row, and the state of its run. *)
Definition finish_delivery (id owner : string) (result : DeliveryAttemptDiagnostics + DeliveryFailure) (now_ms : Z) : M unit :=
  execute (finish_row id owner result now_ms) ;;
  statement (notification_refresh_run_status_for_delivery id now_ms).

Definition deliver_one (owner id : string) (now_ms retry_ms finished_ms : Z) (send : SendWorld) : M unit :=
  let* claimed := update (claim_delivery_row id owner now_ms (i64_sat_add now_ms DELIVERY_LEASE_MS)) in
  if negb claimed then ret tt
  else
    let* work := statement (λ t, (delivery_work id t, t)) in
    match decrypt_secret (wi_channel_config_enc work) with
    | inr error =>
        finish_delivery (wi_id work) owner
          (inr (MkFailure None "channel_decryption_failed" ("failed to decrypt channel configuration: " +:+ error) no_diagnostics)) now_ms
    | inl config_json =>
        let* config := try_ (map_err (λ error, internal ("invalid channel configuration: " +:+ error)) (channel_config_from_str config_json)) in
        let result := send_delivery send config (wi_id work) (wi_event_type work) (wi_payload_json work) in
        finish_delivery (wi_id work) owner (settlement (wi_attempts work) retry_ms result) finished_ms
    end.

(** The ids a dispatch starts tasks for; each task runs [deliver_one]. *)
Definition dispatch_deliveries (now_ms : Z) : M (list string) := query (notification_list_due_deliveries now_ms DELIVERY_BATCH).

(** ** The loop *)

(** One round after the ticker or a wake: rules, deliveries, and once a day the history. *)
Definition round (owner : string) (world : Z → RuleWorld) (rules_ms deliveries_ms now_ms next_cleanup_ms : Z) : M (list string * Z) :=
  on_error (process_rules owner world rules_ms) (ret tt) ;;
  let* ids := (λ s, match dispatch_deliveries deliveries_ms s with (inr (Err _), s) => (inl [], s) | r => r end) in
  if now_ms <? next_cleanup_ms then ret (ids, next_cleanup_ms)
  else
    on_error (update (notification_cleanup_history (i64_sat_sub now_ms HISTORY_RETENTION_MS)) ;; ret tt) (ret tt) ;;
    ret (ids, i64_sat_add now_ms 86400000).

(** ** Runs on demand *)
Definition enqueue_channel_test (w : RuleWorld) (channel_id : Z) (locale : NotificationLocale) (now_ms : Z) : M string :=
  let* channel := query (notification_get_channel channel_id) in
  let* channel := try_ (ok_or channel (not_found "notification channel not found")) in
  let from_ms := i64_sat_sub now_ms 300000 in
  let* payload := payload_of w (rw_run_id w) "test" None (localized locale "通知通道测试" "Notification channel test") locale DEFAULT_TOP_N
                    from_ms now_ms DEFAULT_TIMEZONE false 0 in
  let* json := try_ (payload_json payload) in
  statement (notification_create_run (rw_run_id w) None "channel-test" "test" now_ms (Some from_ms) (Some now_ms) json [ch_id channel] now_ms) ;;
  modify wake ;;
  ret (rw_run_id w).

Definition enqueue_rule_run (w : RuleWorld) (rule : RuleRecord) (now_ms : Z) : M string :=
  let* config := try_ (decode_rule_config (rl_config_json rule)) in
  match config with
  | ThresholdAlert _ => leave (Err (conflict "rule_not_runnable" "only scheduled_report rules support manual run"))
  | ScheduledReport config =>
      let* from_ms := try_ (previous_occurrence (rc_cron config) (rc_timezone config) now_ms) in
      let* payload := payload_of w (rw_run_id w) "manual_report" (Some (rl_id rule)) (rl_name rule) (rc_locale config) (rc_top_n config)
                        from_ms now_ms (rc_timezone config) false 0 in
      let* channel_ids := query (notification_rule_channel_ids (rl_id rule)) in
      let* json := try_ (payload_json payload) in
      statement (notification_create_run (rw_run_id w) (Some (rl_id rule)) (rl_name rule) "manual_report" now_ms (Some from_ms) (Some now_ms)
                   json channel_ids now_ms) ;;
      modify wake ;;
      ret (rw_run_id w)
  end.
End Runtime.
