(* ===== verification/NotifySchedule.v ===== *)
(** * NotifySchedule: the windows of the reports of a rule

    A report covers the time since the last one. The invariant of the rules is that an
    occurrence of the schedule lies between the end of the last window and the next run;
    every pass keeps it, whatever other tasks do and wherever a statement fails, and it makes
    every window begin where the last completed one ended. *)
From Stdlib Require Import Ascii String.
From S2P Require Import Prelude Float64 Text Json Types Pricing Notification Alerts NotifyTables NotifyReport NotifyTransport NotifyRuntime Computation.

Local Open Scope string_scope.
Local Open Scope list_scope.
Local Open Scope Z_scope.
Local Open Scope loop_scope.

(** ** What a task keeps *)
Section Keeping.
Context (rely : (NotifyTables → NotifyTables) → Prop).

(** [I] holds of the tables, and what others do is within the assumption. *)
Definition holds (I : NotifyTables → Prop) (s : NotifyState) : Prop :=
  I (ns_tables s) ∧ ∀ m, m ∈ ns_moments s → rely (mo_others m).

Definition stable (I : NotifyTables → Prop) : Prop := ∀ f t, rely f → I t → I (f t).

Definition keeping (I : NotifyTables → Prop) (s s' : NotifyState) : Prop := holds I s → holds I s'.

#[export] Instance keeping_preorder I : PreOrder (keeping I).
Proof. split; [intros s Hs; exact Hs|]. intros a b c Hab Hbc Ha. by apply Hbc, Hab. Qed.

Lemma next_moment_holds I s : stable I → holds I s → holds I (next_moment s).2.
Proof.
  intros HI [Ht Hm]. unfold next_moment. destruct (ns_moments s) as [|m rest] eqn:E; [by split; [|rewrite E]|].
  split; cbn [snd ns_tables ns_moments]; [apply HI; [apply Hm; left|done]|]. intros m' Hm'. apply Hm. by right.
Qed.

Lemma holds_set I s t : holds I s → I t → holds I (set_ns_tables t s).
Proof. by intros [_ Hm] Ht. Qed.

(** A statement that keeps the invariant, however it ends. *)
Lemma moves_statement {A} I (op : NotifyTables → (A + DbError) * NotifyTables) :
  stable I → (∀ t, I t → I (op t).2) → moves (keeping I) (statement op).
Proof.
  intros HI Hop s Hs. pose proof (next_moment_holds I s HI Hs) as Hs'. unfold statement.
  destruct (next_moment s) as [fault s']. cbn [snd] in Hs'. pose proof (Hop _ (proj1 Hs')) as Ht.
  destruct fault as [[e|e]|]; [done|by apply holds_set|]. destruct (op (ns_tables s')) as [[a|e] t]; by apply holds_set.
Qed.

(** What a statement leaves, by how it ends. *)
Lemma statement_post {A} (op : NotifyTables → (A + DbError) * NotifyTables) I (Q : A → NotifyTables → Prop) (X : NotifyTables → Prop) s :
  stable I → holds I s → (∀ t, I t → X t) → (∀ t, I t → X (op t).2) → (∀ t a t', I t → op t = (inl a, t') → Q a t') →
  post (statement op) (λ a, holds (Q a)) (λ _, holds X) s.
Proof.
  intros HI Hs HX Hop HQ. pose proof (next_moment_holds I s HI Hs) as [Ht Hm]. unfold post, statement.
  destruct (next_moment s) as [fault s']. cbn [snd] in Ht, Hm. pose proof (Hop _ Ht) as Ho. specialize (HX _ Ht).
  destruct fault as [[e|e]|]; [done|done|]. pose proof (λ a t', HQ _ a t' Ht) as HQ'.
  destruct (op (ns_tables s')) as [[a|e] t]; [|done]. split; [by apply HQ'|done].
Qed.

Lemma moves_query {A} I (f : NotifyTables → A) : stable I → moves (keeping I) (query f).
Proof. intros HI. by apply moves_statement. Qed.

Lemma moves_execute I (f : NotifyTables → NotifyTables) : stable I → (∀ t, I t → I (f t)) → moves (keeping I) (execute f).
Proof. intros HI Hf. by apply moves_statement. Qed.

Lemma moves_try {A B} (P : NotifyState → NotifyState → Prop) `{!PreOrder P} (r : A + NotificationError) (k : A → comp NotifyState Exit B) :
  (∀ a, r = inl a → moves P (k a)) → moves P (bind (try_ r) k).
Proof. intros Hk s. destruct r as [a|e]; [by apply Hk|]. cbn. reflexivity. Qed.

Lemma moves_wake I : moves (E := Exit) (keeping I) (modify wake).
Proof. intros s Hs. exact Hs. Qed.

Lemma moves_on_error P `{!PreOrder P} m handler : moves P m → moves P handler → moves P (on_error m handler).
Proof.
  intros Hm Hh s. unfold on_error. specialize (Hm s). destruct (m s) as [[a|[e|]] s']; cbn [snd] in *; try done.
  etransitivity; [exact Hm|apply Hh].
Qed.
End Keeping.

(** The invariants kept here see only the rules, or only one run. *)
Lemma create_deliveries_rules run_id ids now : ∀ pending t b t',
  create_deliveries run_id ids now pending t = inl (b, t') → nt_rules t' = nt_rules t ∧ nt_runs t' = nt_runs t.
Proof.
  induction ids as [|id ids IH]; intros pending t b t' E; cbn [create_deliveries] in E; [by injection E as _ <-|].
  destruct (nt_channels t !! id); [|by apply IH in E]. destruct (is_some _); [done|]. by apply IH in E.
Qed.

Lemma create_run_rules run_id rule_id name ty at_ from to_ json ids now t :
  nt_rules (notification_create_run run_id rule_id name ty at_ from to_ json ids now t).2 = nt_rules t.
Proof.
  unfold notification_create_run. destruct (is_some_and _ _); [done|]. destruct (_ || _); [done|].
  destruct (create_deliveries _ _ _ _ _) as [[b t']|e] eqn:E; [|done]. apply create_deliveries_rules in E as [Er _]. by destruct b.
Qed.

(** The run an insertion makes, and the others, which are as before. *)
Lemma create_run_runs run_id rule_id name ty at_ from to_ json ids now t id r :
  nt_runs (notification_create_run run_id rule_id name ty at_ from to_ json ids now t).2 !! id = Some r →
  nt_runs t !! id = Some r
  ∨ id = run_id ∧ rn_rule_id r = rule_id ∧ rn_event_type r = ty ∧ rn_scheduled_for_ms r = at_ ∧ rn_window_from_ms r = from ∧ rn_window_to_ms r = to_.
Proof.
  unfold notification_create_run. destruct (is_some_and _ _); [by left|]. destruct (_ || _); [by left|].
  destruct (create_deliveries _ _ _ _ _) as [[b t']|e] eqn:E; [|by left]. apply create_deliveries_rules in E as [_ Er]. cbn [snd].
  destruct b; cbn [set_run_status set_nt_runs nt_runs]; rewrite Er; cbn [set_nt_runs nt_runs].
  - rewrite lookup_insert_Some. intros [[<- <-]|[_ ?]]; [by right|by left].
  - destruct (decide (id = run_id)) as [->|Hne].
    + rewrite lookup_alter_eq lookup_insert_eq. cbn. intros [= <-]. by right.
    + rewrite lookup_alter_ne // lookup_insert_ne //. by left.
Qed.

Lemma elem_of_take {A} (x : A) n l : x ∈ take n l → x ∈ l.
Proof. intros Hx. rewrite -(take_drop n l). apply elem_of_app. by left. Qed.

Lemma due_rules_elem now limit t rule : rule ∈ notification_list_due_rules now limit t →
  ∃ id row, nt_rules t !! id = Some row ∧ rr_rule row = rule ∧ rule_due now row = true.
Proof.
  unfold notification_list_due_rules. intros Hr%elem_of_take. rewrite sort_by_key1_perm in Hr.
  apply list_elem_of_In, in_map_iff in Hr as ([id row] & <- & Hin). apply filter_In in Hin as [Hin Hdue].
  exists id, row. split; [by apply elem_of_map_to_list, list_elem_of_In|done].
Qed.

(** ** The invariant of the schedule *)
Section Schedule.
Context `{CronOk} {D : Type} `{Decimal D} (dec_leb : D → D → bool).
Context (rule_config_from_str : string → RuleConfig + string) (payload_to_string : NotificationPayload → string + string).
Context (value_json : MetricValue → option string) (owner : string).

Notation process_rule := (process_rule dec_leb rule_config_from_str payload_to_string value_json owner).
Notation process_report := (process_report dec_leb payload_to_string owner).
Notation process_alert := (process_alert dec_leb payload_to_string value_json owner).
Notation process_rules := (process_rules dec_leb rule_config_from_str payload_to_string value_json owner).
Notation process_each := (process_each dec_leb rule_config_from_str payload_to_string value_json owner).

Definition report_config (r : RuleRecord) : option ScheduledReportConfig :=
  match rule_config_from_str (rl_config_json r) with inl (ScheduledReport c) => Some c | _ => None end.

(** An occurrence lies after the end of the last window, and not after the next run. *)
Definition scheduled (r : RuleRecord) : Prop :=
  ∀ c s z e, report_config r = Some c → parse_schedule (rc_cron c) (rc_timezone c) = inl (s, z) → rl_last_window_end_ms r = Some e →
  ∃ o, occurs s z o ∧ e < o ∧ o <= rl_next_run_at_ms r.

(** The last window ended by [now]. *)
Definition ends_by (now : Z) (r : RuleRecord) : Prop := ∀ e, rl_last_window_end_ms r = Some e → e <= now.

Definition schedule_inv (now : Z) (t : NotifyTables) : Prop :=
  ∀ id row, nt_rules t !! id = Some row → rl_id (rr_rule row) = id ∧ scheduled (rr_rule row) ∧ ends_by now (rr_rule row).

(** A rule that this task cannot take, nor complete, at [now]. *)
Definition elsewhere (now : Z) (row : RuleRow) : Prop :=
  rr_lease_owner row ≠ Some owner ∧ (report_config (rr_rule row) = None ∨ now < rl_next_run_at_ms (rr_rule row)).

(** What others may do to the rules meanwhile: a rule they write is without our lease, and a
    report among them is due later. Both hold of an administrator's edits
    ([NotifyAdmin.edits_are_assumed]). *)
Definition others_edit (now : Z) (f : NotifyTables → NotifyTables) : Prop :=
  ∀ t, schedule_inv now t → ∀ id row, nt_rules (f t) !! id = Some row →
    nt_rules t !! id = Some row
    ∨ elsewhere now row ∧ rl_id (rr_rule row) = id ∧ scheduled (rr_rule row) ∧ ends_by now (rr_rule row).

(** A listed rule is the row's, or the row is due later; once claimed, it is the row's as long
    as the lease is ours. *)
Definition listed (now : Z) (rule : RuleRecord) (t : NotifyTables) : Prop :=
  ∀ row, nt_rules t !! rl_id rule = Some row →
    rr_rule row = rule ∨ report_config (rr_rule row) = None ∨ now < rl_next_run_at_ms (rr_rule row).
Definition held (rule : RuleRecord) (t : NotifyTables) : Prop :=
  ∀ row, nt_rules t !! rl_id rule = Some row → rr_lease_owner row = Some owner →
    rr_rule row = rule ∨ report_config (rr_rule row) = None.

Definition working (now : Z) (rule : RuleRecord) (rest : list RuleRecord) (t : NotifyTables) : Prop :=
  schedule_inv now t ∧ held rule t ∧ ∀ r, r ∈ rest → listed now r t.
Definition waiting (now : Z) (rest : list RuleRecord) (t : NotifyTables) : Prop :=
  schedule_inv now t ∧ ∀ r, r ∈ rest → listed now r t.

Lemma schedule_stable now : stable (others_edit now) (schedule_inv now).
Proof. intros f t Hf Ht id row Hr. destruct (Hf t Ht id row Hr) as [Hr'|(_ & ?)]; [by apply Ht|done]. Qed.

Lemma waiting_stable now rest : stable (others_edit now) (waiting now rest).
Proof.
  intros f t Hf [Hs Hl]. split; [by eapply schedule_stable|].
  intros r Hin row Hr. destruct (Hf t Hs _ _ Hr) as [Hr'|([_ Hl'] & _)]; [by apply Hl|by right].
Qed.

Lemma working_stable now rule rest : stable (others_edit now) (working now rule rest).
Proof.
  intros f t Hf (Hs & Hh & Hl). destruct (waiting_stable now rest f t Hf (conj Hs Hl)). split_and!; [done| |done].
  intros row Hr Ho. destruct (Hf t Hs _ _ Hr) as [Hr'|([Hn _] & _)]; [by apply Hh|done].
Qed.

(** What does not touch the rules keeps all of it. *)
Lemma working_rules now rule rest t t' : nt_rules t' = nt_rules t → working now rule rest t → working now rule rest t'.
Proof. unfold working, schedule_inv, held, listed. by intros ->. Qed.

(** Writing a rule keeps the rest in place when the new row is of the same id, and is due
    later or no report; completing and releasing a rule do that. *)
Lemma working_next now rule rest t next last :
  (report_config rule = None ∨ now < next) →
  (∀ c s z e, report_config rule = Some c → parse_schedule (rc_cron c) (rc_timezone c) = inl (s, z) →
     opt_or last (rl_last_window_end_ms rule) = Some e → ∃ o, occurs s z o ∧ e < o ∧ o <= next) →
  (∀ e, last = Some e → e <= now) →
  working now rule rest t →
  working now rule rest (set_nt_rules (update_row (rl_id rule) (rule_leased owner) (next_run next last now) (nt_rules t)).2 t).
Proof.
  intros Hnext Hsched Hend (Hs & Hh & Hl).
  assert (∀ id row, (update_row (rl_id rule) (rule_leased owner) (next_run next last now) (nt_rules t)).2 !! id = Some row →
    nt_rules t !! id = Some row
    ∨ (rl_id (rr_rule row) = id ∧ scheduled (rr_rule row) ∧ ends_by now (rr_rule row)) ∧ rr_lease_owner row = None
      ∧ (report_config (rr_rule row) = None ∨ now < rl_next_run_at_ms (rr_rule row))) as Hu.
  { intros id row [Hr|(-> & row0 & Hr0 & Ho & ->)]%update_row_lookup; [by left|]. right.
    apply bool_decide_eq_true in Ho. destruct (Hs _ _ Hr0) as (Hid & _ & He0).
    assert (ends_by now (rr_rule (next_run next last now row0))) as Hends.
    { intros e. cbn. destruct last as [b|]; [intros [= <-]; by apply Hend|apply He0]. }
    destruct (Hh row0 Hr0 Ho) as [E|E].
    - unfold next_run in *. rewrite E in Hends |- *. split_and!; [done| |done|done|exact Hnext].
      intros c s z e Hc Hp He. apply (Hsched c s z e); [exact Hc|done|exact He].
    - split_and!; [done| |done|done|left; exact E].
      intros c s z e Hc. unfold report_config in Hc, E. cbn in Hc. by rewrite E in Hc. }
  split_and!; cbn [set_nt_rules nt_rules].
  - intros id row Hr%Hu. destruct Hr as [Hr|(? & _)]; [by apply Hs|done].
  - intros row Hr%Hu Ho. destruct Hr as [Hr|(_ & Hn & _)]; [by apply Hh|congruence].
  - intros r Hr row Hrow%Hu. destruct Hrow as [Hrow|(_ & _ & ?)]; [by apply Hl|by right].
Qed.

Lemma previous_occurrence_spec cron timezone at_ b : previous_occurrence cron timezone at_ = inl b →
  ∃ s z, parse_schedule cron timezone = inl (s, z) ∧ b < at_ ∧ occurs s z b ∧ ∀ v, occurs s z v → v < at_ → v <= b.
Proof.
  unfold previous_occurrence. intros ([s z] & Hp & (v & Hv & Hb%ok_or_inl)%res_bind_inl)%res_bind_inl.
  unfold datetime_from_ms in Hv. destruct (valid_timestamp at_); [|done]. injection Hv as <-.
  apply cron_before_spec in Hb. eauto.
Qed.

Lemma first_occurrence_spec cron timezone now next : first_occurrence cron timezone now = inl next →
  ∃ s z, parse_schedule cron timezone = inl (s, z) ∧ now < next ∧ occurs s z next ∧ ∀ v, occurs s z v → now < v → next <= v.
Proof.
  unfold first_occurrence, next_occurrences. intros (l & ([s z] & Hp & (v & Hv & [= <-])%res_bind_inl)%res_bind_inl & Hn%ok_or_inl)%res_bind_inl.
  unfold datetime_from_ms in Hv. destruct (valid_timestamp now); [|done]. injection Hv as <-. cbn [take_occurrences] in Hn.
  destruct (cron_after s z now) as [u|] eqn:E; [|done]. injection Hn as <-. apply cron_after_spec in E. eauto.
Qed.

Section Pass.
Context (now : Z).
Notation keeping := (keeping (others_edit now)).

(** Everything a report or an alert does before it completes leaves the rules alone. *)
Lemma working_create_run {rule rest} w rule_id name ty at_ from to_ json ids :
  moves (keeping (working now rule rest)) (statement (notification_create_run w rule_id name ty at_ from to_ json ids now)).
Proof. apply moves_statement; [apply working_stable|]. intros t. apply working_rules, create_run_rules. Qed.

Lemma working_query {A rule rest} (f : NotifyTables → A) : moves (keeping (working now rule rest)) (query f).
Proof. apply moves_query, working_stable. Qed.

Lemma working_upsert {rule rest} id state json :
  moves (keeping (working now rule rest)) (statement (notification_upsert_alert_state id state json)).
Proof.
  apply moves_statement; [apply working_stable|]. intros t. apply working_rules.
  unfold notification_upsert_alert_state. by destruct (is_none _).
Qed.

Lemma working_or_panic {A rule rest} (o : option A) : moves (keeping (working now rule rest)) (or_panic o).
Proof. destruct o; cbn; intros s Hs; exact Hs. Qed.

Lemma working_try {A rule rest} (r : A + NotificationError) : moves (keeping (working now rule rest)) (try_ r).
Proof. destruct r; cbn; intros s Hs; exact Hs. Qed.
#[local] Hint Resolve working_create_run working_query working_upsert working_or_panic working_try moves_wake : moves.

Lemma report_keeps w config rule rest : report_config rule = Some config →
  moves (keeping (working now rule rest)) (process_report w config rule now).
Proof.
  intros Hc. unfold process_report, payload_of. apply moves_try; [typeclasses eauto|]. intros boundary Hb.
  do 6 (apply moves_bind; [typeclasses eauto|solve [carry]|intros ?]).
  apply moves_try; [typeclasses eauto|]. intros next Hn. apply moves_execute; [apply working_stable|]. intros t.
  apply previous_occurrence_spec in Hb as (s & z & Hp & Hb & _). apply first_occurrence_spec in Hn as (s' & z' & Hp' & Hn & Ho & _).
  rewrite Hp in Hp'. injection Hp' as <- <-. apply working_next; [by right| |intros e [= <-]; lia].
  intros c s' z' e Hc' Hp' [= <-]. rewrite Hc in Hc'. injection Hc' as <-. rewrite Hp in Hp'. injection Hp' as <- <-.
  exists next. split_and!; [done|lia|done].
Qed.

Lemma alert_keeps w config rule rest : report_config rule = None →
  moves (keeping (working now rule rest)) (process_alert w config rule now).
Proof.
  intros Hc. unfold process_alert, payload_of. repeat (apply moves_bind; [typeclasses eauto|solve [carry]|intros ?]).
  apply moves_execute; [apply working_stable|]. intros t. apply working_next; [by left| |done]. intros c s z e Hc'. congruence.
Qed.

Lemma rule_keeps w rule rest : moves (keeping (working now rule rest)) (process_rule w rule now).
Proof.
  unfold process_rule. apply moves_try; [typeclasses eauto|]. intros config Hd%map_err_inl.
  apply moves_bind; [typeclasses eauto| |intros ?; apply moves_wake].
  destruct config as [c|c]; [apply report_keeps|apply alert_keeps]; unfold report_config; by rewrite Hd.
Qed.

(** Releasing a rule that was due leaves an occurrence before its next run. *)
Lemma release_keeps rule rest : rl_next_run_at_ms rule <= now → now < i64_max → scheduled rule →
  moves (keeping (working now rule rest)) (execute (notification_release_rule (rl_id rule) owner (i64_sat_add now RULE_RETRY_MS) now)).
Proof.
  intros Hdue Hmax Hs. apply moves_execute; [apply working_stable|]. intros t.
  assert (now < i64_sat_add now RULE_RETRY_MS) as Hlt by (unfold RULE_RETRY_MS; mlia). apply working_next; [by right| |done].
  intros c s z e Hc Hp He. destruct (Hs c s z e Hc Hp He) as (o & Ho & ? & ?). exists o. split_and!; [done|done|lia].
Qed.

(** A claim that succeeds finds the rule as it was listed. *)
Lemma claim_works rule rest lease t : waiting now (rule :: rest) t →
  waiting now rest (notification_claim_rule (rl_id rule) owner now lease t).2
  ∧ ((notification_claim_rule (rl_id rule) owner now lease t).1 = true → working now rule rest (notification_claim_rule (rl_id rule) owner now lease t).2).
Proof.
  intros [Hs Hl]. unfold notification_claim_rule.
  pose proof (update_row_lookup (rl_id rule) (rule_due now) (λ r, MkRuleRow (rr_rule r) (Some owner) (Some lease)) (nt_rules t)) as Hu.
  destruct (update_row _ _ _ _) as [hit rules] eqn:E. cbn [fst snd set_nt_rules nt_rules] in *.
  assert (∀ id row, rules !! id = Some row → ∃ row0, nt_rules t !! id = Some row0 ∧ rr_rule row0 = rr_rule row) as Hsame.
  { intros id row [Hr|(-> & row0 & Hr0 & _ & ->)]%Hu; [by exists row|by exists row0]. }
  assert (waiting now rest (set_nt_rules rules t)) as Hw.
  { split; cbn [set_nt_rules nt_rules].
    - intros id row (row0 & Hr0 & <-)%Hsame. by apply Hs.
    - intros r Hr row (row0 & Hr0 & <-)%Hsame. apply Hl; [by right|done]. }
  split; [done|]. intros ->. destruct Hw as [Hs' Hl']. split_and!; [done| |done]. cbn [set_nt_rules nt_rules]. intros row Hr _.
  unfold update_row in E. destruct (nt_rules t !! rl_id rule) as [row0|] eqn:E0; [|done].
  destruct (rule_due now row0) eqn:Ed; [|done]. injection E as <-. rewrite lookup_insert_eq in Hr. injection Hr as <-. cbn.
  destruct (Hl rule ltac:(left) row0 E0) as [?|[?|?]]; [by left|by right|].
  unfold rule_due in Ed. apply andb_true_iff in Ed as [[_ Ed]%andb_true_iff _]. lia.
Qed.
End Pass.

(** A listed rule, as the pass over the rules knows it. *)
Definition due_rule (now : Z) (rule : RuleRecord) : Prop := rl_next_run_at_ms rule <= now ∧ scheduled rule.

Lemma working_waiting now rule rest s : holds (others_edit now) (working now rule rest) s → holds (others_edit now) (waiting now rest) s.
Proof. by intros [(Hs & _ & Hl) Hm]. Qed.

Lemma each_keeps world now rules : now < i64_max → (∀ r, r ∈ rules → due_rule now r) →
  ∀ s, holds (others_edit now) (waiting now rules) s →
  post (process_each world now rules) (λ _, holds (others_edit now) (schedule_inv now)) (λ _, holds (others_edit now) (schedule_inv now)) s.
Proof.
  intros Hmax. induction rules as [|rule rest IH]; intros Hdue s Hs; cbn [NotifyRuntime.process_each]; [by destruct Hs as [[? _] ?]|].
  specialize (IH (λ r Hr, Hdue r (list_elem_of_further _ _ _ Hr))). destruct (Hdue rule ltac:(left)) as [Hd Hsched].
  assert (∀ s, holds (others_edit now) (waiting now rest) s → holds (others_edit now) (schedule_inv now) s) as Hweak by (by intros ? [[? _] ?]).
  apply post_bind. eapply post_weaken; [apply (statement_post (others_edit now) _ (waiting now (rule :: rest))
    (λ (b : bool) t, waiting now rest t ∧ (b = true → working now rule rest t)) (waiting now rest))|..]; [apply waiting_stable|done|..].
  - intros t [? Hl]. split; [done|]. intros r Hr. apply Hl. by right.
  - intros t Ht. destruct (claim_works now rule rest (i64_sat_add now RULE_LEASE_MS) t Ht) as [Hw _].
    by destruct (notification_claim_rule _ _ _ _ t).
  - intros t b t' Ht E. pose proof (claim_works now rule rest (i64_sat_add now RULE_LEASE_MS) t Ht) as Hw.
    destruct (notification_claim_rule _ _ _ _ t) as [b' t'']. by injection E as <- <-.
  - intros b s' [[Hw Hk] Hm]. apply post_bind. destruct b; [|by apply IH].
    assert (moves (keeping (others_edit now) (working now rule rest)) (on_error (process_rule (world (rl_id rule)) rule now)
      (execute (notification_release_rule (rl_id rule) owner (i64_sat_add now RULE_RETRY_MS) now)))) as Hmv.
    { apply moves_on_error; [typeclasses eauto|apply rule_keeps|by apply release_keeps]. }
    specialize (Hmv s' (conj (Hk eq_refl) Hm)). unfold post. destruct (on_error _ _ s') as [[[]|e] s'']; cbn [snd] in Hmv.
    + apply IH, (working_waiting _ _ _ _ Hmv).
    + apply Hweak, (working_waiting _ _ _ _ Hmv).
  - intros e s' Hw. by apply Hweak.
Qed.

(** Between the end of a rule's last window and its next run there is always an occurrence
    of its schedule: a pass over the due rules keeps this for every rule, whatever
    administrators edit meanwhile, and whichever statement fails, with or without effect. *)
Theorem pass_keeps_schedules world now s :
  now < i64_max → holds (others_edit now) (schedule_inv now) s → schedule_inv now (ns_tables (process_rules world now s).2).
Proof.
  intros Hmax Hs.
  assert (post (process_rules world now) (λ _, holds (others_edit now) (schedule_inv now)) (λ _, holds (others_edit now) (schedule_inv now)) s) as Hp.
  { apply post_bind. eapply post_weaken; [apply (statement_post (others_edit now) _ (schedule_inv now)
      (λ rules t, waiting now rules t ∧ ∀ r, r ∈ rules → due_rule now r) (schedule_inv now))|..]; [apply schedule_stable|done|done|done|..].
    - intros t rules t' Ht [= <- <-]. split; [split; [done|]|].
      + intros r (id & row & Hrow & <- & _)%due_rules_elem row' Hrow'. destruct (Ht _ _ Hrow) as [Hid _]. rewrite Hid Hrow in Hrow'. left. congruence.
      + intros r (id & row & Hrow & <- & Hdue)%due_rules_elem. split; [|by apply (Ht _ _ Hrow)].
        unfold rule_due in Hdue. apply andb_true_iff in Hdue as [[_ Hdue]%andb_true_iff _]. lia.
    - intros rules s' [[Hw Hd] Hm]. by apply each_keeps.
    - by intros e s' Hs'. }
  unfold post in Hp. by destruct (process_rules world now s) as [[[]|e] s']; destruct Hp.
Qed.

(** ** The window of a report *)
Section Window.
Context (w : RuleWorld (D := D)) (rule : RuleRecord) (now : Z).
Hypothesis (due : due_rule now rule).

(** [b] is the last occurrence before [t]. *)
Definition last_before (s : Schedule) (z : Zone) (t b : Z) : Prop := b < t ∧ occurs s z b ∧ ∀ v, occurs s z v → v < t → v <= b.

(** The window of a report made at [now]: up to the last occurrence, and from the end of the
    last window, or, for the first report, from the occurrence before. *)
Definition report_window (from to_ : Z) : Prop :=
  ∃ c s z, report_config rule = Some c ∧ parse_schedule (rc_cron c) (rc_timezone c) = inl (s, z) ∧ last_before s z (now + 1) to_ ∧ from < to_
  ∧ match rl_last_window_end_ms rule with Some e => from = e | None => last_before s z to_ from end.

Definition our_run (t : NotifyTables) : Prop :=
  ∀ r, nt_runs t !! rw_run_id w = Some r →
    ∃ from to_, rn_window_from_ms r = Some from ∧ rn_window_to_ms r = Some to_ ∧ rn_scheduled_for_ms r = to_ ∧ report_window from to_.

(** The id of the run is ours: others may complete the run or remove it. *)
Definition others_runs (f : NotifyTables → NotifyTables) : Prop :=
  ∀ t r, nt_runs (f t) !! rw_run_id w = Some r →
    ∃ r0, nt_runs t !! rw_run_id w = Some r0 ∧ rn_window_from_ms r0 = rn_window_from_ms r ∧ rn_window_to_ms r0 = rn_window_to_ms r
          ∧ rn_scheduled_for_ms r0 = rn_scheduled_for_ms r.
Notation keeping := (keeping others_runs our_run).

Lemma our_run_stable : stable others_runs our_run.
Proof. intros f t Hf Ht r Hr. destruct (Hf _ _ Hr) as (r0 & Hr0 & <- & <- & <-). by apply Ht. Qed.

Lemma our_run_query {A} (f : NotifyTables → A) : moves keeping (query f).
Proof. apply moves_query, our_run_stable. Qed.
Lemma our_run_or_panic {A} (o : option A) : moves keeping (or_panic o).
Proof. destruct o; cbn; intros s Hs; exact Hs. Qed.
Lemma our_run_try {A} (r : A + NotificationError) : moves keeping (try_ r).
Proof. destruct r; cbn; intros s Hs; exact Hs. Qed.
#[local] Hint Resolve our_run_query our_run_or_panic our_run_try : moves.

Lemma window_start_spec c boundary from : report_config rule = Some c →
  previous_occurrence (rc_cron c) (rc_timezone c) (now + 1) = inl boundary → window_start c rule boundary = inl from → report_window from boundary.
Proof using due.
  destruct due as [Hd Hs]. intros Hc Hb Hf. apply previous_occurrence_spec in Hb as (s & z & Hp & Hlast).
  exists c, s, z. split_and!; [done|done|done|..].
  all: unfold window_start in Hf; destruct (rl_last_window_end_ms rule) as [e|] eqn:Ee.
  all: try (destruct (Hs c s z e Hc Hp Ee) as (o & Ho & Heo & Hon); destruct Hlast as (Hlt & Hob & Hmax);
            pose proof (Hmax o Ho ltac:(lia)); rewrite (proj2 (Z.ltb_lt e boundary)) in Hf; [|lia]; injection Hf as <-).
  all: try (apply previous_occurrence_spec in Hf as (s' & z' & Hp' & Hl'); rewrite Hp in Hp'; injection Hp' as <- <-).
  - lia.
  - apply Hl'.
  - done.
  - done.
Qed.

Lemma rule_windows s : holds others_runs our_run s → report_config rule ≠ None → our_run (ns_tables (process_rule w rule now s).2).
Proof using due.
  intros Hs Hr. enough (moves keeping (process_rule w rule now)) as Hm by apply (Hm s Hs). unfold process_rule.
  apply moves_try; [typeclasses eauto|]. intros config Hd%map_err_inl. apply moves_bind; [typeclasses eauto| |intros ?; apply moves_wake].
  destruct config as [c|c]; [|unfold report_config in Hr; by rewrite Hd in Hr].
  assert (report_config rule = Some c) as Hc by (unfold report_config; by rewrite Hd).
  unfold NotifyRuntime.process_report, payload_of. apply moves_try; [typeclasses eauto|]. intros boundary Hb.
  apply moves_try; [typeclasses eauto|]. intros from Hf. pose proof (window_start_spec _ _ _ Hc Hb Hf) as Hw.
  do 4 (apply moves_bind; [typeclasses eauto|solve [carry]|intros ?]).
  apply moves_bind; [typeclasses eauto| |intros ?; apply moves_try; [typeclasses eauto|]; intros next _].
  - apply moves_statement; [apply our_run_stable|]. intros t Ht r [Hr'|(_ & _ & _ & Es & Ef & Et)]%create_run_runs; [by apply Ht|].
    exists from, boundary. done.
  - apply moves_execute; [apply our_run_stable|]. intros t Ht r. apply Ht.
Qed.
End Window.

(** C10. A report begins where the last completed one ended and goes up to the last occurrence
    of its schedule; the first report begins one occurrence back. So it is for every run a
    pass stores, whatever others do meanwhile and whichever statement fails: no time between
    two reports is left out. *)
Theorem report_starts_where_last_ended w rule now s r :
  due_rule now rule → report_config rule ≠ None → nt_runs (ns_tables s) !! rw_run_id w = None →
  (∀ m, m ∈ ns_moments s → others_runs w (mo_others m)) →
  nt_runs (ns_tables (process_rule w rule now s).2) !! rw_run_id w = Some r →
  ∃ from to_, rn_window_from_ms r = Some from ∧ rn_window_to_ms r = Some to_ ∧ report_window rule now from to_.
Proof.
  intros Hdue Hc Hfresh Hm Hr.
  assert (our_run w rule now (ns_tables s)) as Hw by (intros r' Hr'; congruence).
  destruct (rule_windows w rule now Hdue s (conj Hw Hm) Hc r Hr) as (from & to_ & ? & ? & _ & ?). eauto.
Qed.
End Schedule.

(** ** A run *)
Section Run.
#[local] Existing Instance whole.

(** A package whose schedules all are the full hours. *)
Definition HOUR : Z := 3600000.
#[local] Instance hourly : CronLib := {
  Schedule := unit;
  Zone := unit;
  schedule_from_str := λ _, inl tt;
  zone_from_str := λ _, Some tt;
  cron_after := λ _ _ t, Some ((t / HOUR + 1) * HOUR);
  cron_before := λ _ _ t, Some ((t - 1) / HOUR * HOUR);
  valid_timestamp := λ _, true
}.

#[local] Instance hourly_ok : CronOk.
Proof.
  refine {| occurs := λ _ _ t, t mod HOUR = 0 |}; [| |..]; try done; cbn; intros _ _ t u [= <-].
  - pose proof (Z.div_mod t HOUR ltac:(done)). pose proof (Z.mod_pos_bound t HOUR ltac:(done)).
    split_and!; [unfold HOUR in *; lia|by apply Z.mod_mul|].
    intros v Hv Hlt. pose proof (Z.div_mod v HOUR ltac:(done)). unfold HOUR in *. lia.
  - pose proof (Z.div_mod (t - 1) HOUR ltac:(done)). pose proof (Z.mod_pos_bound (t - 1) HOUR ltac:(done)).
    split_and!; [unfold HOUR in *; lia|by apply Z.mod_mul|].
    intros v Hv Hlt. pose proof (Z.div_mod v HOUR ltac:(done)). unfold HOUR in *. lia.
Defined.

Definition hour_config (raw : string) : RuleConfig + string :=
  inl (ScheduledReport (MkReportConfig "0 * * * *" "UTC" EnUs 20)).

(** A rule whose last window ended at one o'clock, and a pass at half past four. *)
Definition hour_rule : RuleRecord := MkRule 1 "hourly" "scheduled_report" true "" (2 * HOUR) (Some HOUR) 0 0.
Definition hour_tables : NotifyTables := MkNotify ∅ 1 {[1 := MkRuleRow hour_rule None None]} 2 ∅ ∅ ∅ ∅.
Definition hour_state (moments : list Moment) : NotifyState := MkNState hour_tables moments false.
Definition hour_world : RuleWorld (D := Z) := MkRuleWorld (inl run_inputs) "run" "evaluation".
Definition half_past_four : Z := 4 * HOUR + 1800000.

Lemma hour_scheduled : scheduled hour_config hour_rule.
Proof. intros c s z e _ _ [= <-]. exists (2 * HOUR). by vm_compute. Qed.

Lemma pass_keeps_schedules_witness :
  let lost := MkMoment id (Some (Unacknowledged "connection reset")) in
  let s' := (process_rules Z.leb hour_config (λ _, inl "{}") (λ _, None) "us" (λ _, hour_world) half_past_four
               (hour_state [MkMoment id None; MkMoment id None; MkMoment id None; lost])).2 in
  schedule_inv hour_config half_past_four (ns_tables s') ∧ size (nt_runs (ns_tables s')) = 1%nat
  ∧ nt_rules (ns_tables s') !! 1
    = Some (MkRuleRow (MkRule 1 "hourly" "scheduled_report" true "" (half_past_four + RULE_RETRY_MS) (Some HOUR) 0 half_past_four) None None).
Proof.
  split; [|by vm_compute]. apply pass_keeps_schedules; [done|]. split.
  - intros id row. unfold hour_state, hour_tables. cbn [ns_tables nt_rules]. intros [<- <-]%lookup_singleton_Some.
    split_and!; [done|apply hour_scheduled|by intros e [= <-]].
  - intros m Hm. assert (mo_others m = id) as ->.
    { repeat (apply elem_of_cons in Hm as [->|Hm]; [done|]). by apply not_elem_of_nil in Hm. }
    intros t _ i row Hr. by left.
Defined.

Lemma report_starts_where_last_ended_witness :
  ∃ r, nt_runs (ns_tables (process_rule Z.leb hour_config (λ _, inl "{}") (λ _, None) "us" hour_world hour_rule half_past_four (hour_state [])).2)
         !! "run" = Some r
       ∧ rn_window_from_ms r = Some HOUR ∧ rn_window_to_ms r = Some (4 * HOUR).
Proof.
  destruct (nt_runs (ns_tables (process_rule Z.leb hour_config (λ _, inl "{}") (λ _, None) "us" hour_world hour_rule half_past_four (hour_state [])).2)
              !! "run") as [r|] eqn:E; [|by vm_compute in E].
  destruct (report_starts_where_last_ended Z.leb hour_config (λ _, inl "{}") (λ _, None) "us" hour_world hour_rule half_past_four (hour_state []) r)
    as (from & to_ & Ef & Et & (c & s & z & _ & _ & Hlast & _ & Hfrom)); [split; [done|apply hour_scheduled]|done|done| |exact E|].
  { intros m Hm. destruct (not_elem_of_nil _ Hm). }
  exists r. split_and!; [done|by rewrite Ef Hfrom|rewrite Et]. f_equal. destruct Hlast as (Hlt & Ho & Hmax).
  pose proof (Hmax (4 * HOUR) eq_refl eq_refl). cbn in Ho. pose proof (Z.div_mod to_ HOUR ltac:(done)).
  unfold half_past_four, HOUR in *. lia.
Defined.
End Run.
