(* ===== verification/NotifyDelivery.v ===== *)
(** * NotifyDelivery: how often a notification is sent

    The tasks of [deliver_one] as a transition system over the tables: between the statements
    of a task anything else may happen - other tasks and other instances, an administrator
    who retries, deletes or tests, the daily clean-up, a task that is lost. *)
From Stdlib Require Import Ascii String.
From S2P Require Import Prelude Text Notification NotifyTables NotifyTransport NotifyRuntime.

Local Open Scope string_scope.
Local Open Scope list_scope.
Local Open Scope Z_scope.

(** ** The system *)

(** A task has claimed its delivery, or has sent it and knows what to write. *)
Inductive Phase := Claimed | Sent (attempts : Z) (ending : DeliveryAttemptDiagnostics + DeliveryFailure).
Record Task := MkTask { tk_id : string; tk_owner : string; tk_phase : Phase }.

(** The tables and the tasks; and, for the theorems, the ids in the order they were sent and
    retried by hand, and all the ids there ever were. *)
Record DeliverySystem := MkDeliverySystem {
  sy_tables : NotifyTables;
  sy_tasks : list Task;
  sy_sent : list string;
  sy_retried : list string;
  sy_seen : gset string
}.

Notation deliveries s := (nt_deliveries (sy_tables s)).

(** The steps of [deliver_one], each with its statement, and those of everybody else. *)
Inductive delivery_step (s : DeliverySystem) : DeliverySystem → Prop :=
| StepClaim id owner now lease t :
    claim_delivery_row id owner now lease (sy_tables s) = (true, t) →
    delivery_step s (MkDeliverySystem t (MkTask id owner Claimed :: sy_tasks s) (sy_sent s) (sy_retried s) (sy_seen s))
| StepSend before id owner after work now result :
    sy_tasks s = before ++ MkTask id owner Claimed :: after → delivery_work id (sy_tables s) = inl work →
    delivery_step s (MkDeliverySystem (sy_tables s)
      (before ++ MkTask id owner (Sent (wi_attempts work) (settlement (wi_attempts work) now result)) :: after)
      (id :: sy_sent s) (sy_retried s) (sy_seen s))
| StepUnreadable before id owner after failure now :
    sy_tasks s = before ++ MkTask id owner Claimed :: after → fl_retry_at_ms failure = None →
    delivery_step s (MkDeliverySystem (finish_row id owner (inr failure) now (sy_tables s)) (before ++ after)
      (sy_sent s) (sy_retried s) (sy_seen s))
| StepFinish before id owner attempts ending after now :
    sy_tasks s = before ++ MkTask id owner (Sent attempts ending) :: after →
    delivery_step s (MkDeliverySystem (finish_row id owner ending now (sy_tables s)) (before ++ after)
      (sy_sent s) (sy_retried s) (sy_seen s))
| StepLost before task after :
    sy_tasks s = before ++ task :: after →
    delivery_step s (MkDeliverySystem (sy_tables s) (before ++ after) (sy_sent s) (sy_retried s) (sy_seen s))
| StepRetry id now t :
    notification_retry_delivery id now (sy_tables s) = (true, t) →
    delivery_step s (MkDeliverySystem t (sy_tasks s) (sy_sent s) (id :: sy_retried s) (sy_seen s))
| StepCreate run_id rule_id name ty at_ from to_ json ids now b t :
    notification_create_run run_id rule_id name ty at_ from to_ json ids now (sy_tables s) = (inl b, t) →
    (∀ c, delivery_id run_id c ∉ sy_seen s) →
    delivery_step s (MkDeliverySystem t (sy_tasks s) (sy_sent s) (sy_retried s) (sy_seen s ∪ dom (nt_deliveries t)))
| StepDeleteChannel id r t :
    delete_channel_row id (sy_tables s) = (r, t) →
    delivery_step s (MkDeliverySystem t (sy_tasks s) (sy_sent s) (sy_retried s) (sy_seen s))
| StepCleanup cutoff n t :
    notification_cleanup_history cutoff (sy_tables s) = (n, t) →
    delivery_step s (MkDeliverySystem t (sy_tasks s) (sy_sent s) (sy_retried s) (sy_seen s))
| StepElsewhere t :
    nt_deliveries t = deliveries s →
    delivery_step s (MkDeliverySystem t (sy_tasks s) (sy_sent s) (sy_retried s) (sy_seen s)).

(** At the start there are no tasks, and nothing has been sent. *)
Definition delivery_start (s : DeliverySystem) : Prop :=
  deliveries s = ∅ ∧ sy_tasks s = [] ∧ sy_sent s = [] ∧ sy_retried s = [].

(** ** The invariant *)
Definition retries_at (ending : DeliveryAttemptDiagnostics + DeliveryFailure) : bool :=
  match ending with inl _ => false | inr failure => is_some (fl_retry_at_ms failure) end.

(** What a task and its delivery know of each other. *)
Definition task_ok (s : DeliverySystem) (d : DeliveryRow) (tk : Task) : Prop :=
  dv_status d = "sending" ∧ dv_lease_owner d = Some (tk_owner tk)
  ∧ match tk_phase tk with
    | Claimed => times (tk_id tk) (sy_sent s) + 1 <= dv_attempts d
    | Sent attempts ending => attempts = dv_attempts d ∧ (retries_at ending = true → attempts < 3)
    end.

Definition delivery_ok (s : DeliverySystem) (id : string) (d : DeliveryRow) : Prop :=
  (∀ tk, tk ∈ sy_tasks s → tk_id tk = id → task_ok s d tk)
  ∧ times id (sy_sent s) <= dv_attempts d ∧ dv_attempts d <= 3 + times id (sy_retried s)
  ∧ (dv_status d = "pending" → dv_attempts d <= 2 + times id (sy_retried s)).

Record delivery_inv (s : DeliverySystem) : Prop := {
  inv_distinct : NoDup (map tk_id (sy_tasks s));
  inv_tasks_seen : ∀ tk, tk ∈ sy_tasks s → tk_id tk ∈ sy_seen s;
  inv_seen : dom (deliveries s) ⊆ sy_seen s;
  inv_bound : ∀ id, times id (sy_sent s) <= 3 + times id (sy_retried s);
  inv_unseen : ∀ id, id ∉ sy_seen s → times id (sy_sent s) = 0;
  inv_rows : ∀ id d, deliveries s !! id = Some d → delivery_ok s id d
}.

(** *** Tasks *)

(** Fewer tasks keep what is known of a delivery. *)
Lemma delivery_ok_fewer s t tasks id d :
  (∀ tk, tk ∈ tasks → tk ∈ sy_tasks s) → delivery_ok s id d →
  delivery_ok (MkDeliverySystem t tasks (sy_sent s) (sy_retried s) (sy_seen s)) id d.
Proof. intros Hsub (Ht & Hr). split; [|done]. intros tk Hin. apply Ht, Hsub, Hin. Qed.

(** *** Statements *)
Lemma create_deliveries_rows run_id ids now : ∀ pending t b t' id d,
  create_deliveries run_id ids now pending t = inl (b, t') → nt_deliveries t' !! id = Some d →
  nt_deliveries t !! id = Some d ∨ (∃ c, id = delivery_id run_id c) ∧ dv_attempts d = 0.
Proof.
  induction ids as [|c ids IH]; intros pending t b t' id d E Hd; cbn [create_deliveries] in E; [injection E as _ <-; by left|].
  destruct (nt_channels t !! c); [|by apply (IH _ _ _ _ _ _ E)]. destruct (is_some _); [done|].
  apply (IH _ _ _ _ id d) in E; [|done]. destruct E as [E|E]; [|by right]. cbn [set_nt_deliveries nt_deliveries] in E.
  apply lookup_insert_Some in E as [[<- <-]|[_ E]]; [right; eauto|by left].
Qed.

Lemma create_run_rows run_id rule_id name ty at_ from to_ json ids now t b t' id d :
  notification_create_run run_id rule_id name ty at_ from to_ json ids now t = (inl b, t') → nt_deliveries t' !! id = Some d →
  nt_deliveries t !! id = Some d ∨ (∃ c, id = delivery_id run_id c) ∧ dv_attempts d = 0.
Proof.
  unfold notification_create_run. destruct (is_some_and _ _); [done|]. destruct (_ || _); [intros [= _ <-]; by left|].
  destruct (create_deliveries _ _ _ _ _) as [[pending t'']|e] eqn:E; [|done]. intros [= _ <-] Hd.
  apply (create_deliveries_rows _ _ _ _ _ _ _ id d) in E; [done|]. by destruct pending.
Qed.

(** Rows another statement leaves are those from before, but for the channel. *)
Definition same_delivery (d d' : DeliveryRow) : Prop :=
  dv_status d' = dv_status d ∧ dv_attempts d' = dv_attempts d ∧ dv_lease_owner d' = dv_lease_owner d.

Definition leaves (t t' : NotifyTables) : Prop :=
  ∀ id d', nt_deliveries t' !! id = Some d' → ∃ d, nt_deliveries t !! id = Some d ∧ same_delivery d d'.

Lemma leaves_same t t' : nt_deliveries t' = nt_deliveries t → leaves t t'.
Proof. intros E id d'. rewrite E. intros Hd. by exists d'. Qed.

Lemma leaves_delete_channel c t r t' : delete_channel_row c t = (r, t') → leaves t t'.
Proof.
  unfold delete_channel_row. destruct (0 <? _); [intros [= _ <-]; by apply leaves_same|]. intros [= _ <-] id d'.
  cbn. rewrite lookup_fmap. destruct (nt_deliveries t !! id) as [d|]; cbn; [|done]. intros [= <-]. by exists d.
Qed.

Lemma leaves_cleanup cutoff t n t' : notification_cleanup_history cutoff t = (n, t') → leaves t t'.
Proof. unfold notification_cleanup_history. intros [= _ <-] id d'. cbn. intros [Hd _]%map_lookup_filter_Some. by exists d'. Qed.

Lemma inv_leaves s t : leaves (sy_tables s) t → delivery_inv s →
  delivery_inv (MkDeliverySystem t (sy_tasks s) (sy_sent s) (sy_retried s) (sy_seen s)).
Proof.
  intros Hl [Hd Ht Hs Hb Hu Hr]. split; cbn; try done.
  - intros id [d' Hd']%elem_of_dom. destruct (Hl id d' Hd') as (d & E & _). apply Hs. by eapply elem_of_dom_2.
  - intros id d' Hd'. destruct (Hl id d' Hd') as (d & E & (Es & Ea & Eo)). destruct (Hr id d E) as (Htk & ? & ? & ?).
    split_and!; cbn; rewrite ?Ea ?Es; try done. intros tk Hin Hid. destruct (Htk tk Hin Hid) as (? & ? & ?).
    unfold task_ok. by rewrite Es Ea Eo.
Qed.

(** Ending a delivery: its row, if there is one still, is the task's. *)
Lemma inv_finish s before after tk ending now :
  delivery_inv s → sy_tasks s = before ++ tk :: after → (retries_at ending = true → ∀ d, deliveries s !! tk_id tk = Some d → dv_attempts d < 3) →
  delivery_inv (MkDeliverySystem (finish_row (tk_id tk) (tk_owner tk) ending now (sy_tables s)) (before ++ after) (sy_sent s) (sy_retried s) (sy_seen s)).
Proof.
  intros [Hd Ht Hs Hb Hu Hr] E Hretry. rewrite E in Hd. apply NoDup_map_middle in Hd as [Hd Hother].
  assert (∀ tk', tk' ∈ before ++ after → tk' ∈ sy_tasks s) as Hsub by (intros tk'; rewrite E; apply elem_of_rest).
  split; cbn; try done.
  - intros tk' Hin. by apply Ht, Hsub.
  - unfold finish_row. cbn. intros id [d' [Hd'|(-> & d & Hd' & _)]%update_row_lookup]%elem_of_dom; apply Hs; by eapply elem_of_dom_2.
  - unfold finish_row. cbn. intros id d' [Hd'|(-> & d & Hd' & _ & ->)]%update_row_lookup; [by apply delivery_ok_fewer, Hr|].
    destruct (Hr _ d Hd') as (_ & H1 & H2 & _). split_and!; cbn.
    + intros tk' Hin Hid. by destruct (Hother tk' Hin).
    + by destruct ending.
    + by destruct ending.
    + destruct ending as [?|failure]; [done|]. intros Hp. cbn in Hp |- *. pose proof (times_nonneg (tk_id tk) (sy_retried s)).
      destruct (is_some (fl_retry_at_ms failure)) eqn:Er; [|done]. specialize (Hretry Er d Hd'). lia.
Qed.

Lemma inv_start s : delivery_start s → delivery_inv s.
Proof.
  intros (Ed & Et & Es & Er). split; rewrite ?Ed ?Et ?Es ?Er; cbn; try done; try (by constructor); try set_solver.
Qed.

(** A claim: the delivery had no task, since it was pending. *)
Lemma inv_claim s id owner now lease t : claim_delivery_row id owner now lease (sy_tables s) = (true, t) → delivery_inv s →
  delivery_inv (MkDeliverySystem t (MkTask id owner Claimed :: sy_tasks s) (sy_sent s) (sy_retried s) (sy_seen s)).
Proof.
  unfold claim_delivery_row, update_row. destruct (deliveries s !! id) as [d|] eqn:Ed; [|done].
  destruct (delivery_due now d) eqn:Edue; [|done]. intros [= <-] [Hd Ht Hs Hb Hu Hr].
  assert (dv_status d = "pending") as Hp.
  { unfold delivery_due in Edue. apply andb_true_iff in Edue as [[Ep _]%andb_true_iff _]. by apply String.eqb_eq. }
  destruct (Hr id d Ed) as (Htk & H1 & H2 & H3). specialize (H3 Hp).
  assert (∀ tk, tk ∈ sy_tasks s → tk_id tk ≠ id) as Hfree.
  { intros tk Hin Hid. destruct (Htk tk Hin Hid) as (E & _). congruence. }
  split; cbn; try done.
  - apply NoDup_cons. split; [|done]. intros (tk & E & Hin)%list_elem_of_In%in_map_iff. by apply (Hfree tk); [apply list_elem_of_In|].
  - intros tk [->|Hin]%elem_of_cons; [apply Hs; by eapply elem_of_dom_2|by apply Ht].
  - intros i [d' [[<- _]|[_ Hd']]%lookup_insert_Some]%elem_of_dom; apply Hs; by eapply elem_of_dom_2.
  - intros i d' [[<- <-]|[Hne Hd']]%lookup_insert_Some.
    + split_and!; cbn; try lia; [|done]. intros tk [->|Hin]%elem_of_cons Hid; [|by destruct (Hfree tk Hin)].
      split_and!; cbn; [done|done|lia].
    + destruct (Hr i d' Hd') as (Htk' & ?). split; cbn; [|done]. intros tk [->|Hin]%elem_of_cons Hid; [done|by apply Htk'].
Qed.

(** Sending: one send more, for an attempt that was counted when it was claimed. *)
Lemma inv_send s before id owner after work now result :
  sy_tasks s = before ++ MkTask id owner Claimed :: after → delivery_work id (sy_tables s) = inl work → delivery_inv s →
  delivery_inv (MkDeliverySystem (sy_tables s)
    (before ++ MkTask id owner (Sent (wi_attempts work) (settlement (wi_attempts work) now result)) :: after)
    (id :: sy_sent s) (sy_retried s) (sy_seen s)).
Proof.
  intros E Ew [Hd Ht Hs Hb Hu Hr]. unfold delivery_work in Ew. destruct (deliveries s !! id) as [d|] eqn:Ed; [|done].
  assert (wi_attempts work = dv_attempts d) as ->.
  { repeat case_match; try done. by injection Ew as <-. }
  assert (MkTask id owner Claimed ∈ sy_tasks s) as Hin by (rewrite E; apply elem_of_app; right; left).
  destruct (Hr id d Ed) as (Htk & H1 & H2 & H3). destruct (Htk _ Hin eq_refl) as (Hst & Ho & Hc). cbn in Hst, Ho, Hc.
  rewrite E in Hd. pose proof (NoDup_map_middle _ _ _ _ Hd) as [_ Hother]. cbn in Hother.
  assert (∀ tk, tk ∈ before ++ MkTask id owner (Sent (dv_attempts d) (settlement (dv_attempts d) now result)) :: after →
    tk = MkTask id owner (Sent (dv_attempts d) (settlement (dv_attempts d) now result)) ∨ tk ∈ sy_tasks s ∧ tk_id tk ≠ id) as Htasks.
  { intros tk [->|Hk]%elem_of_middle; [by left|]. right. split; [rewrite E; by apply elem_of_rest|by apply Hother]. }
  split; cbn.
  - rewrite map_app in Hd. rewrite map_app. exact Hd.
  - intros tk [->|[Hk _]]%Htasks; [apply (Ht _ Hin)|by apply Ht].
  - done.
  - intros i. rewrite times_cons. destruct (String.eqb_spec i id) as [->|]; [lia|apply Hb].
  - intros i Hi. rewrite times_cons. destruct (String.eqb_spec i id) as [->|]; [by destruct Hi; apply (Ht _ Hin)|by apply Hu].
  - intros i d' Hd'. destruct (Hr i d' Hd') as (Htk' & G1 & G2 & G3). split_and!; cbn; try done.
    + intros tk [->|[Hk Hne]]%Htasks Hid; cbn in *.
      * subst i. rewrite Ed in Hd'. injection Hd' as <-. split_and!; cbn; try done. split; [done|].
        unfold retries_at, settlement. destruct result as [|e]; [done|]. cbn. unfold retry_delay.
        destruct (de_retryable e && (dv_attempts d <? 3)) eqn:Er; [|done]. intros _. apply andb_true_iff in Er as [_ Er]. lia.
      * destruct (Htk' tk Hk Hid) as (K1 & K2 & K3). split_and!; try done. destruct (tk_phase tk); [|done]. cbn. rewrite times_cons.
        destruct (String.eqb_spec (tk_id tk) id); [done|lia].
    + rewrite times_cons. destruct (String.eqb_spec i id) as [->|]; [|lia]. rewrite Ed in Hd'. injection Hd' as <-. lia.
Qed.

Lemma inv_retry s id now t : notification_retry_delivery id now (sy_tables s) = (true, t) → delivery_inv s →
  delivery_inv (MkDeliverySystem t (sy_tasks s) (sy_sent s) (id :: sy_retried s) (sy_seen s)).
Proof.
  unfold notification_retry_delivery, update_row. destruct (deliveries s !! id) as [d|] eqn:Ed; [|done].
  destruct (String.eqb_spec (dv_status d) "failed") as [Hf|]; [|done]. intros [= <-] [Hd Ht Hs Hb Hu Hr].
  destruct (Hr id d Ed) as (Htk & H1 & H2 & H3).
  assert (∀ i, times i (sy_retried s) <= times i (id :: sy_retried s)) as Hmore by (intros i; rewrite times_cons; destruct (String.eqb i id); lia).
  split; cbn; try done.
  - intros i [d' [[<- _]|[_ Hd']]%lookup_insert_Some]%elem_of_dom; apply Hs; by eapply elem_of_dom_2.
  - intros i. specialize (Hb i). specialize (Hmore i). lia.
  - intros i d' [[<- <-]|[Hne Hd']]%lookup_insert_Some.
    + split_and!; cbn; rewrite ?times_cons ?String.eqb_refl; try lia.
      intros tk Hin Hid. destruct (Htk tk Hin Hid) as (E & _). congruence.
    + destruct (Hr i d' Hd') as (? & ? & ? & G). specialize (Hmore i). split_and!; cbn; try done; [lia|].
      intros Hp. specialize (G Hp). lia.
Qed.

Lemma inv_create s run_id rule_id name ty at_ from to_ json ids now b t :
  notification_create_run run_id rule_id name ty at_ from to_ json ids now (sy_tables s) = (inl b, t) →
  (∀ c, delivery_id run_id c ∉ sy_seen s) → delivery_inv s →
  delivery_inv (MkDeliverySystem t (sy_tasks s) (sy_sent s) (sy_retried s) (sy_seen s ∪ dom (nt_deliveries t))).
Proof.
  intros E Hfresh [Hd Ht Hs Hb Hu Hr]. split; cbn; try done.
  - intros tk Hin. apply elem_of_union_l. by apply Ht.
  - set_solver.
  - intros i Hi. apply Hu. set_solver.
  - intros i d Hi. destruct (create_run_rows _ _ _ _ _ _ _ _ _ _ _ _ _ i d E Hi) as [Hold|[[c ->] Ha]]; [by apply Hr|].
    pose proof (Hu _ (Hfresh c)) as H0. pose proof (times_nonneg (delivery_id run_id c) (sy_retried s)).
    split_and!; cbn; try lia. intros tk Hin Hid. destruct (Hfresh c). rewrite -Hid. by apply Ht.
Qed.

Lemma inv_step s s' : delivery_inv s → delivery_step s s' → delivery_inv s'.
Proof.
  intros Hi Hstep. destruct Hstep.
  - by eapply inv_claim.
  - by eapply inv_send.
  - apply (inv_finish s before after (MkTask id owner Claimed)); [done|done|]. cbn. rewrite H0. done.
  - apply (inv_finish s before after (MkTask id owner (Sent attempts ending))); [done|done|]. cbn. intros Hr d Hd.
    destruct (inv_rows _ Hi id d Hd) as (Htk & _). destruct (Htk (MkTask id owner (Sent attempts ending))) as (_ & _ & K); [|done|].
    { rewrite H. apply elem_of_app. right. left. }
    cbn in K. destruct K as [<- K]. by apply K.
  - destruct Hi as [Hd Ht Hs Hb Hu Hr]. rewrite H in Hd. apply NoDup_map_middle in Hd as [Hd _].
    assert (∀ tk', tk' ∈ before ++ after → tk' ∈ sy_tasks s) as Hsub by (intros tk'; rewrite H; apply elem_of_rest).
    split; cbn; try done; [intros tk Hin; by apply Ht, Hsub|]. intros i d Hd'. by apply delivery_ok_fewer, Hr.
  - by eapply inv_retry.
  - by eapply inv_create.
  - eapply inv_leaves; [by eapply leaves_delete_channel|done].
  - eapply inv_leaves; [by eapply leaves_cleanup|done].
  - apply inv_leaves; [by apply leaves_same|done].
Qed.

Lemma inv_reachable s0 s : delivery_start s0 → rtc delivery_step s0 s → delivery_inv s.
Proof. intros Hs. revert s. apply rtc_ind_r; [by apply inv_start|]. intros s s' _ Hstep Hi. by apply (inv_step s). Qed.

(** C2. Whatever the interleaving of tasks, instances, administrators and losses, no two tasks
    work on the same delivery at the same time, and a delivery is sent at most three times, and
    once more for every time an administrator retried it. *)
Theorem deliveries_sent_boundedly s0 s : delivery_start s0 → rtc delivery_step s0 s →
  NoDup (map tk_id (sy_tasks s)) ∧ ∀ id, times id (sy_sent s) <= 3 + times id (sy_retried s).
Proof. intros Hs Hr. destruct (inv_reachable _ _ Hs Hr). done. Qed.

(** A delivery that nothing will send: it has no task, and its row is gone or in a state that
    no claim and no retry takes. *)
Definition resting (id : string) (s : DeliverySystem) : Prop :=
  id ∈ sy_seen s ∧ (∀ tk, tk ∈ sy_tasks s → tk_id tk ≠ id)
  ∧ ∀ d, deliveries s !! id = Some d → dv_status d ≠ "pending" ∧ dv_status d ≠ "failed".

Lemma resting_leaves id s t : leaves (sy_tables s) t → resting id s →
  resting id (MkDeliverySystem t (sy_tasks s) (sy_sent s) (sy_retried s) (sy_seen s)).
Proof. intros Hl (Hs & Ht & Hd). split_and!; [done|done|]. cbn. intros d' Hd'. destruct (Hl id d' Hd') as (d & E & (-> & _)). by apply Hd. Qed.

Lemma resting_finish id s before after tk ending now : sy_tasks s = before ++ tk :: after → resting id s →
  resting id (MkDeliverySystem (finish_row (tk_id tk) (tk_owner tk) ending now (sy_tables s)) (before ++ after) (sy_sent s) (sy_retried s) (sy_seen s)).
Proof.
  intros E (Hs & Ht & Hd). rewrite E in Ht. split_and!; [done|intros tk' Hin; apply Ht; by apply elem_of_rest|].
  unfold finish_row. cbn. intros d [Hd'|(-> & _)]%update_row_lookup; [by apply Hd|].
  destruct (Ht tk); [apply elem_of_app; right; left|done].
Qed.

Lemma resting_step id s s' : delivery_inv s → resting id s → delivery_step s s' → resting id s' ∧ times id (sy_sent s') = times id (sy_sent s).
Proof.
  intros Hi Hr Hstep. pose proof Hr as (Hs & Ht & Hd). destruct Hstep; cbn.
  - split; [|done]. unfold claim_delivery_row, update_row in H. destruct (deliveries s !! id0) as [d|] eqn:Ed; [|done].
    destruct (delivery_due now d) eqn:Edue; [|done]. injection H as <-.
    assert (id0 ≠ id) as Hne.
    { intros ->. destruct (Hd d Ed) as [Hp _]. unfold delivery_due in Edue. apply andb_true_iff in Edue as [[Ep%String.eqb_eq _]%andb_true_iff _]. done. }
    split_and!; cbn; [done|by intros tk [->|Hin]%elem_of_cons; [|by apply Ht]|]. intros d'. rewrite lookup_insert_ne //. apply Hd.
  - assert (id0 ≠ id) as Hne by (apply (Ht (MkTask id0 owner Claimed)); rewrite H; apply elem_of_app; right; left).
    rewrite times_cons. destruct (String.eqb_spec id id0); [congruence|]. split; [|lia]. split_and!; cbn; [done| |done].
    intros tk [->|Hin]%elem_of_middle; [done|]. apply Ht. rewrite H. by apply elem_of_rest.
  - split; [|done]. by apply (resting_finish id s before after (MkTask id0 owner Claimed)).
  - split; [|done]. by apply (resting_finish id s before after (MkTask id0 owner (Sent attempts ending))).
  - split; [|done]. split_and!; cbn; [done| |done]. intros tk Hin. apply Ht. rewrite H. by apply elem_of_rest.
  - split; [|done]. unfold notification_retry_delivery, update_row in H. destruct (deliveries s !! id0) as [d|] eqn:Ed; [|done].
    destruct (String.eqb_spec (dv_status d) "failed") as [Hf|]; [|done]. injection H as <-.
    assert (id0 ≠ id) as Hne by (intros ->; by destruct (Hd d Ed)).
    split_and!; cbn; [done|done|]. intros d'. rewrite lookup_insert_ne //. apply Hd.
  - split; [|done]. split_and!; cbn; [set_solver|done|]. intros d Hd'.
    destruct (create_run_rows _ _ _ _ _ _ _ _ _ _ _ _ _ id d H Hd') as [Hold|[[c ->] _]]; [by apply Hd|]. by destruct (H0 c).
  - split; [|done]. apply resting_leaves; [by eapply leaves_delete_channel|done].
  - split; [|done]. apply resting_leaves; [by eapply leaves_cleanup|done].
  - split; [|done]. apply resting_leaves; [by apply leaves_same|done].
Qed.

(** C19. A delivery that was sent successfully, or was skipped, is never sent again, whatever
    else happens. Nor is one whose task was lost between its claim and its end: it stays as
    being sent, no claim takes it when its lease is over, and an administrator cannot retry it. *)
Theorem settled_deliveries_rest s0 s s' id d : delivery_start s0 → rtc delivery_step s0 s → rtc delivery_step s s' →
  deliveries s !! id = Some d →
  dv_status d = "succeeded" ∨ dv_status d = "skipped" ∨ dv_status d = "sending" ∧ (∀ tk, tk ∈ sy_tasks s → tk_id tk ≠ id) →
  times id (sy_sent s') = times id (sy_sent s).
Proof.
  intros Hs Hr Hr' Hd Hst. pose proof (inv_reachable _ _ Hs Hr) as Hi.
  assert (resting id s) as Hrest.
  { split_and!; [apply (inv_seen _ Hi); by eapply elem_of_dom_2| |].
    - intros tk Hin Hid. destruct (inv_rows _ Hi id d Hd) as (Htk & _). destruct (Htk tk Hin Hid) as (E & _). rewrite E in Hst.
      destruct Hst as [|[|[_ Hno]]]; [done|done|by apply (Hno tk)].
    - intros d' Hd'. rewrite Hd in Hd'. injection Hd' as <-. destruct Hst as [->|[->|[-> _]]]; done. }
  clear Hd Hst. revert Hi Hrest. induction Hr' as [|s s1 s' Hstep _ IH]; [done|]. intros Hi Hrest.
  destruct (resting_step id s s1 Hi Hrest Hstep) as [Hrest1 <-]. apply IH; [by eapply rtc_r|by apply (inv_step s)|done].
Qed.

(** ** A run *)
Definition run_channel : NotifyTables :=
  MkNotify {[1 := MkChannel 1 "ops" "webhook" true "enc" 0 0]} 2 ∅ 1 ∅ ∅ ∅ ∅.
Definition started : DeliverySystem := MkDeliverySystem run_channel [] [] [] ∅.

(** The tables once a test of the channel is enqueued, and once an instance has claimed it. *)
Definition enqueued : NotifyTables :=
  (notification_create_run "t" None "channel-test" "test" 10 None None "{}" [1] 10 run_channel).2.
Definition claimed : NotifyTables := (claim_delivery_row "t-1" "us" 20 120020 enqueued).2.
Definition lost : DeliverySystem := MkDeliverySystem claimed [] [] [] (∅ ∪ dom (nt_deliveries enqueued)).

Lemma started_lost : rtc delivery_step started lost.
Proof.
  eapply rtc_l; [apply (StepCreate _ "t" None "channel-test" "test" 10 None None "{}" [1] 10 true enqueued); [reflexivity|set_solver]|].
  eapply rtc_l; [apply (StepClaim _ "t-1" "us" 20 120020 claimed); reflexivity|].
  eapply rtc_l; [apply (StepLost _ [] (MkTask "t-1" "us" Claimed) []); reflexivity|]. reflexivity.
Qed.

Lemma started_start : delivery_start started.
Proof. done. Qed.

Lemma deliveries_sent_boundedly_witness : NoDup (map tk_id (sy_tasks lost)) ∧ ∀ id, times id (sy_sent lost) <= 3 + times id (sy_retried lost).
Proof. exact (deliveries_sent_boundedly started lost started_start started_lost). Defined.

(** The instance is gone; long after its lease the delivery can be neither claimed nor retried. *)
Lemma settled_deliveries_rest_witness :
  (claim_delivery_row "t-1" "them" 10000000 10120000 claimed).1 = false ∧ (notification_retry_delivery "t-1" 10000000 claimed).1 = false
  ∧ ∀ s', rtc delivery_step lost s' → times "t-1" (sy_sent s') = 0.
Proof.
  split; [reflexivity|]. split; [reflexivity|]. intros s' Hr'.
  destruct (deliveries lost !! "t-1") as [d|] eqn:Ed; [|by vm_compute in Ed].
  rewrite (settled_deliveries_rest started lost s' "t-1" d started_start started_lost Hr' Ed); [reflexivity|].
  right. right. vm_compute in Ed. injection Ed as <-. split; [reflexivity|]. intros tk Hin. by apply not_elem_of_nil in Hin.
Defined.
