(* ===== verification/NotifyAdmin.v ===== *)
(** * NotifyAdmin: the administrative endpoints of the notifications

    Models [notification/admin.rs]: the dispatch of a request, the handlers of channels, rules
    and deliveries, what is shown of a channel and how an edit keeps the secrets that are not
    shown. A handler runs in the monad of [NotifyRuntime]: others may act between its
    statements, and each may fail. *)
From Stdlib Require Import Ascii String.
From S2P Require Import Prelude Float64 Text Json Types Pricing Notification Alerts NotifyTables NotifyReport NotifyTransport NotifyRuntime NotifySchedule Computation.

Local Open Scope string_scope.
Local Open Scope list_scope.
Local Open Scope Z_scope.
Local Open Scope loop_scope.

Definition DEFAULT_DELIVERY_LIMIT : Z := 50.
Definition MAX_DELIVERY_LIMIT : Z := 200.
Definition SCHEDULE_PREVIEW_COUNT : nat := 5.

(** ** Requests *)
Inductive Method := GET | POST | PATCH | DELETE | OtherMethod.
#[export] Instance method_eq_dec : EqDecision Method.
Proof. solve_decision. Defined.

(** The body is missing when it could not be read within the limit. *)
Record AdminRequest := MkAdminRequest { rq_method : Method; rq_path : string; rq_query : option string; rq_body : option string }.

Record CreateChannelRequest := MkCreateChannel { cc_name : string; cc_enabled : bool; cc_config : ChannelConfig }.
Record UpdateChannelRequest := MkUpdateChannel {
  uc_name : option string;
  uc_enabled : option bool;
  uc_kind : option ChannelKind;
  uc_config : option Value
}.
Record CreateRuleRequest := MkCreateRule { cr_name : string; cr_enabled : bool; cr_channel_ids : list Z; cr_config : RuleConfig }.
Record UpdateRuleRequest := MkUpdateRule {
  ur_name : option string;
  ur_enabled : option bool;
  ur_channel_ids : option (list Z);
  ur_kind : option RuleKind;
  ur_config : option Value
}.
Record SchedulePreviewRequest := MkSchedulePreview { pv_cron : string; pv_timezone : string }.

(** ** What is shown *)
Record PublicSmtpConfig := MkPublicSmtp {
  pm_host : string;
  pm_port : Z;
  pm_security : SmtpSecurity;
  pm_username : option string;
  pm_has_password : bool;
  pm_from_name : option string;
  pm_from_email : string;
  pm_recipients : list string
}.
Record PublicWebhookConfig := MkPublicWebhook {
  pk_url_masked : string;
  pk_format : WebhookFormat;
  pk_has_signing_secret : bool;
  pk_headers : list (string * bool)
}.
Inductive PublicChannelConfig := PublicSmtp (config : PublicSmtpConfig) | PublicWebhook (config : PublicWebhookConfig).

Record ChannelView := MkChannelView {
  cv_id : Z;
  cv_name : string;
  cv_enabled : bool;
  cv_config : PublicChannelConfig;
  cv_created_at_ms : Z;
  cv_updated_at_ms : Z
}.

Record RuleView := MkRuleView {
  rv_record : RuleRecord;
  rv_channel_ids : list Z;
  rv_config : RuleConfig;
  rv_alert_state : option AlertStateRecord
}.

(** The answers, by the shape of their body. *)
Inductive Answer :=
  | Summary (counts : Z * Z * Z * Z)
  | Channels (items : list ChannelView)
  | ChannelShown (view : ChannelView)
  | ChannelCreated (view : ChannelView) (generated_signing_secret : option string)
  | Rules (items : list RuleView)
  | RuleShown (view : RuleView)
  | RuleCreated (view : RuleView)
  | Enqueued (run_id : string)
  | Preview (cron timezone : string) (occurrences_ms : list Z)
  | Deliveries (items : list DeliveryView) (offset limit : Z)
  | DeliveryDetail (view : DeliveryView) (event_payload : Value)
  | DeliveryRetried (view : DeliveryView)
  | NoContent.

Definition answer_status (a : Answer) : Z :=
  match a with
  | ChannelCreated _ _ | RuleCreated _ => 201
  | Enqueued _ | DeliveryRetried _ => 202
  | NoContent => 204
  | _ => 200
  end.

Definition method_not_allowed : NotificationError :=
  MkNotifyError 405 "method_not_allowed" "method not allowed for notification endpoint" None.

(** ** Paths and queries *)
Definition parse_string_resource (path prefix suffix : string) : option string :=
  let! rest := strip_prefix prefix path in
  let! value := strip_suffix suffix rest in
  if String.eqb value "" || contains "/" value then None else Some value.

Definition parse_i64_resource (path prefix suffix : string) : option Z :=
  let! value := parse_string_resource path prefix suffix in parse_i64 value.

Definition query_string (query : option string) (key : string) : option string :=
  let! query := query in
  let! pair := List.find (λ p : string * string, String.eqb p.1 key) (omap (split_once "="%char) (split "&"%char query)) in
  opt_filter (λ s, negb (String.eqb s "")) (Some (trim pair.2)).

Definition query_i64 (query : option string) (key : string) : option Z := opt_bind (query_string query key) parse_i64.

Inductive Endpoint :=
  | SummaryEndpoint | ListChannels | CreateChannel | ListRules | CreateRule | SchedulePreview | ListDeliveries
  | GetChannel (id : Z) | UpdateChannel (id : Z) | DeleteChannel (id : Z) | TestChannel (id : Z)
  | GetRule (id : Z) | UpdateRule (id : Z) | DeleteRule (id : Z) | RunRule (id : Z)
  | RetryDelivery (id : string) | GetDelivery (id : string).

(** The endpoint of a method and a path. *)
Definition route (method : Method) (path : string) : Endpoint + NotificationError :=
  let crud (get patch delete : Endpoint) :=
    match method with GET => inl get | PATCH => inl patch | DELETE => inl delete | _ => inr method_not_allowed end in
  let just (m : Method) (e : Endpoint) := if bool_decide (method = m) then inl e else inr method_not_allowed in
  let here m p := bool_decide (method = m) && String.eqb path p in
  if here GET "/api/v1/notifications/summary" then inl SummaryEndpoint
  else if here GET "/api/v1/notifications/channels" then inl ListChannels
  else if here POST "/api/v1/notifications/channels" then inl CreateChannel
  else if here GET "/api/v1/notifications/rules" then inl ListRules
  else if here POST "/api/v1/notifications/rules" then inl CreateRule
  else if here POST "/api/v1/notifications/schedule-preview" then inl SchedulePreview
  else if here GET "/api/v1/notifications/deliveries" then inl ListDeliveries
  else
    match parse_i64_resource path "/api/v1/notifications/channels/" "" with
    | Some id => crud (GetChannel id) (UpdateChannel id) (DeleteChannel id)
    | None =>
    match parse_i64_resource path "/api/v1/notifications/channels/" "/test" with
    | Some id => just POST (TestChannel id)
    | None =>
    match parse_i64_resource path "/api/v1/notifications/rules/" "" with
    | Some id => crud (GetRule id) (UpdateRule id) (DeleteRule id)
    | None =>
    match parse_i64_resource path "/api/v1/notifications/rules/" "/run" with
    | Some id => just POST (RunRule id)
    | None =>
    match parse_string_resource path "/api/v1/notifications/deliveries/" "/retry" with
    | Some id => just POST (RetryDelivery id)
    | None =>
    match parse_string_resource path "/api/v1/notifications/deliveries/" "" with
    | Some id => just GET (GetDelivery id)
    | None => inr (not_found "notification endpoint not found")
    end end end end end end.

(** ** Pure parts *)
Definition validated_name (name : string) : string + NotificationError :=
  let name := trim name in
  if String.eqb name "" || (100 <? char_count name)
  then inr (bad_request "invalid_name" "name must contain between 1 and 100 characters" (Some "name"))
  else inl name.

(** [generated] are two new ULIDs, one after the other. *)
Definition ensure_create_secret (generated : string) (config : ChannelConfig) : ChannelConfig * option string :=
  match config with
  | Smtp _ => (config, None)
  | Webhook w =>
      if negb (bool_decide (wk_format w = Generic)) || negb (String.eqb (trim (wk_signing_secret w)) "") then (config, None)
      else (Webhook (MkWebhook (wk_url w) (wk_format w) generated (wk_headers w)), Some generated)
  end.

Definition merge_header (existing : list WebhookHeader) (h : WebhookHeader) : WebhookHeader :=
  if String.eqb (wh_value h) "" then
    match List.find (λ candidate, eq_ignore_ascii_case (wh_name candidate) (wh_name h)) existing with
    | Some e => MkWebhookHeader (wh_name h) (wh_value e)
    | None => h
    end
  else h.

Definition kind_immutable : NotificationError := conflict "channel_kind_immutable" "notification channel kind cannot be changed".

Definition opt_string_eqb (a b : option string) : bool := bool_decide (a = b).

Definition merge_channel_secrets (incoming existing : ChannelConfig) : ChannelConfig + NotificationError :=
  match incoming, existing with
  | Smtp i, Smtp e =>
      inl (Smtp (MkSmtp (sm_host i) (sm_port i) (sm_security i) (sm_username i)
        (if is_none (sm_password i) && opt_string_eqb (sm_username i) (sm_username e) then sm_password e else sm_password i)
        (sm_from_name i) (sm_from_email i) (sm_recipients i)))
  | Webhook i, Webhook e =>
      inl (Webhook (MkWebhook (if String.eqb (trim (wk_url i)) "" then wk_url e else wk_url i) (wk_format i)
        (if bool_decide (wk_format i = wk_format e) && String.eqb (trim (wk_signing_secret i)) ""
         then wk_signing_secret e else wk_signing_secret i)
        (map (merge_header (wk_headers e)) (wk_headers i))))
  | _, _ => inr kind_immutable
  end.

Definition HIDDEN : string := "••••••".

(** An update may name the kind beside the configuration or inside it. *)
Definition decode_update_config {T} (from_value : Value → T + string) (kind : option string) (config : option Value)
    (error_code subject : string) : option T + NotificationError :=
  let read value := map_err (λ error, bad_request error_code ("invalid " +:+ subject +:+ " config: " +:+ error) (Some "config"))
                      (let? config := from_value value in inl (Some config)) in
  match kind, config with
  | None, None => inl None
  | Some _, None => inr (bad_request error_code (subject +:+ " config is required when kind is provided") (Some "config"))
  | Some kind, Some config => read (json_obj [("kind", String kind); ("config", config)])
  | None, Some config => read config
  end.

(** [sort_unstable] and [dedup]. *)
Definition sort_dedup (ids : list Z) : list Z := sort_by_key1 (λ id, id) (remove_dups ids).

(** ** Handlers *)
Section Admin.
Context `{CronLib, TransportLib} {D : Type} `{Decimal D} (dec_leb : D → D → bool).
(** The readers and printers derived by [serde], and encryption under the master key. *)
Context (rule_config_from_str : string → RuleConfig + string) (rule_config_to_string : RuleConfig → string + string).
Context (rule_config_from_value : Value → RuleConfig + string).
Context (channel_config_from_str : string → ChannelConfig + string) (channel_config_to_string : ChannelConfig → string + string).
Context (channel_config_from_value : Value → ChannelConfig + string).
Context (payload_to_string : NotificationPayload → string + string).
Context (encrypt_secret : string → string + string) (decrypt_secret : string → string + string).
Context (read_create_channel : string → CreateChannelRequest + string) (read_update_channel : string → UpdateChannelRequest + string).
Context (read_create_rule : string → CreateRuleRequest + string) (read_update_rule : string → UpdateRuleRequest + string).
Context (read_preview : string → SchedulePreviewRequest + string) (read_locale : string → NotificationLocale + string).

Notation decode_rule_config := (decode_rule_config rule_config_from_str).

(** The clock, the ids drawn, what a payload is built from, and the rows that rules may name. *)
Record AdminWorld := MkAdminWorld {
  aw_now_ms : Z;
  aw_generated : string;
  aw_run : RuleWorld (D := D);
  aw_provider_ids : list Z;
  aw_api_key_ids : list Z
}.

(** *** Bodies *)
Definition read_optional_json {T} (read : string → T + string) (req : AdminRequest) : option T + NotificationError :=
  match rq_body req with
  | None => inr (MkNotifyError 413 "request_body_too_large" "request body exceeds the configured limit" None)
  | Some bytes =>
      if forallb ascii_blank (chars bytes) then inl None
      else map_err (λ error, bad_request "invalid_json" ("invalid JSON: " +:+ error) None) (let? body := read bytes in inl (Some body))
  end.

Definition read_json {T} (read : string → T + string) (req : AdminRequest) : T + NotificationError :=
  let? body := read_optional_json read req in
  ok_or body (bad_request "missing_json_body" "JSON request body is required" None).

(** *** Channels *)
Definition encrypt_channel_config (config : ChannelConfig) : string + NotificationError :=
  let? plaintext := map_err internal (channel_config_to_string config) in
  map_err (λ _, internal "failed to encrypt notification channel configuration") (encrypt_secret plaintext).

Definition decrypt_channel_config (encrypted : string) : ChannelConfig + NotificationError :=
  let? plaintext := map_err (λ _, internal "failed to decrypt notification channel configuration") (decrypt_secret encrypted) in
  map_err (λ _, internal "notification channel configuration is invalid") (channel_config_from_str plaintext).

Definition mask_webhook_url (raw : string) : string :=
  match parse_uri raw with
  | inr _ => HIDDEN
  | inl uri =>
      match wu_scheme uri, wu_authority uri with
      | Some scheme, Some authority =>
          scheme +:+ "://" +:+ authority +:+ (if is_none_or (wu_path_and_query uri) (λ p, String.eqb p "/") then "" else "/…")
      | _, _ => HIDDEN
      end
  end.

Definition public_config (config : ChannelConfig) : PublicChannelConfig :=
  match config with
  | Smtp c =>
      PublicSmtp (MkPublicSmtp (sm_host c) (sm_port c) (sm_security c) (sm_username c) (is_some (sm_password c)) (sm_from_name c)
        (sm_from_email c) (sm_recipients c))
  | Webhook c =>
      PublicWebhook (MkPublicWebhook (mask_webhook_url (wk_url c)) (wk_format c) (negb (String.eqb (wk_signing_secret c) ""))
        (map (λ h, (wh_name h, negb (String.eqb (wh_value h) ""))) (wk_headers c)))
  end.

Definition channel_view (record : ChannelRecord) : ChannelView + NotificationError :=
  let? config := decrypt_channel_config (ch_config_enc record) in
  inl (MkChannelView (ch_id record) (ch_name record) (ch_enabled record) (public_config config) (ch_created_at_ms record) (ch_updated_at_ms record)).

Fixpoint channel_views (records : list ChannelRecord) : list ChannelView + NotificationError :=
  match records with
  | [] => inl []
  | record :: rest => let? view := channel_view record in let? views := channel_views rest in inl (view :: views)
  end.

Definition get_channel_record (id : Z) : M ChannelRecord :=
  let* record := query (notification_get_channel id) in
  try_ (ok_or record (not_found "notification channel not found")).

Definition list_channels : M Answer :=
  let* records := query notification_list_channels in
  let* items := try_ (channel_views records) in
  ret (Channels items).

Definition get_channel (id : Z) : M Answer :=
  let* record := get_channel_record id in
  let* view := try_ (channel_view record) in
  ret (ChannelShown view).

Definition create_channel (w : AdminWorld) (req : AdminRequest) : M Answer :=
  let* body := try_ (read_json read_create_channel req) in
  let* name := try_ (validated_name (cc_name body)) in
  let '(config, generated) := ensure_create_secret (aw_generated w) (cc_config body) in
  let* valid := try_ (validate_channel_config config) in
  let* config_enc := try_ (encrypt_channel_config config) in
  let* id := update (notification_insert_channel name (channel_kind_as_str (channel_kind config)) (cc_enabled body) config_enc (aw_now_ms w)) in
  modify wake ;;
  let* record := get_channel_record id in
  let* view := try_ (channel_view record) in
  ret (ChannelCreated view generated).

(** The configuration a channel gets from an update. *)
Definition updated_channel_config (current : ChannelRecord) (requested : option ChannelConfig) : ChannelConfig + NotificationError :=
  let? current_config := decrypt_channel_config (ch_config_enc current) in
  let? config := match requested with Some config => merge_channel_secrets config current_config | None => inl current_config end in
  if negb (String.eqb (channel_kind_as_str (channel_kind config)) (ch_kind current)) then inr kind_immutable
  else let? valid := validate_channel_config config in inl config.

Definition update_channel (w : AdminWorld) (id : Z) (req : AdminRequest) : M Answer :=
  let* body := try_ (read_json read_update_channel req) in
  let* requested := try_ (decode_update_config channel_config_from_value (option_map channel_kind_as_str (uc_kind body)) (uc_config body)
                            "invalid_channel_config" "channel") in
  let* current := get_channel_record id in
  let* decrypted := try_ (decrypt_channel_config (ch_config_enc current)) in
  let* name := try_ (match uc_name body with Some name => validated_name name | None => inl (ch_name current) end) in
  let* config := try_ (updated_channel_config current requested) in
  let* config_enc := try_ (encrypt_channel_config config) in
  let* hit := update (notification_update_channel id name (unwrap_or (uc_enabled body) (ch_enabled current)) config_enc (aw_now_ms w)) in
  modify wake ;;
  let* record := get_channel_record id in
  let* view := try_ (channel_view record) in
  ret (ChannelShown view).

(** The count of references and the deletion are two statements: a rule may take the channel
    in between, and then the foreign key refuses. *)
Definition delete_channel (id : Z) : M Answer :=
  let* references := query (channel_references id) in
  if 0 <? references then
    leave (Err (conflict "channel_in_use" "notification channel is referenced by one or more rules"))
  else
    let* deleted := statement (delete_channel_row id) in
    if deleted : bool then modify wake ;; ret NoContent else leave (Err (not_found "notification channel not found")).

Definition test_channel (w : AdminWorld) (id : Z) (req : AdminRequest) : M Answer :=
  let* body := try_ (read_optional_json read_locale req) in
  let* run_id := enqueue_channel_test dec_leb payload_to_string (aw_run w) id (unwrap_or body ZhCn) (aw_now_ms w) in
  ret (Enqueued run_id).

(** *** Rules *)
Definition get_rule_record (id : Z) : M RuleRecord :=
  let* record := query (notification_get_rule id) in
  try_ (ok_or record (not_found "notification rule not found")).

Definition rule_view (record : RuleRecord) : M RuleView :=
  let* channel_ids := query (notification_rule_channel_ids (rl_id record)) in
  let* config := try_ (decode_rule_config (rl_config_json record)) in
  match config with
  | ThresholdAlert _ =>
      let* alert_state := query (notification_get_alert_state (rl_id record)) in
      ret (MkRuleView record channel_ids config alert_state)
  | ScheduledReport _ => ret (MkRuleView record channel_ids config None)
  end.

Fixpoint rule_views (records : list RuleRecord) : M (list RuleView) :=
  match records with
  | [] => ret []
  | record :: rest => let* view := rule_view record in let* views := rule_views rest in ret (view :: views)
  end.

Definition list_rules (req : AdminRequest) : M Answer :=
  let kind := query_string (rq_query req) "kind" in
  if is_some_and kind (λ kind, negb (is_one_of kind ["scheduled_report"; "threshold_alert"])) then
    leave (Err (bad_request "invalid_rule_kind" "kind must be scheduled_report or threshold_alert" (Some "kind")))
  else
    let* records := query notification_list_rules in
    let* items := rule_views (List.filter (λ record, is_none_or kind (String.eqb (rl_kind record))) records) in
    ret (Rules items).

Definition get_rule (id : Z) : M Answer :=
  let* record := get_rule_record id in
  let* view := rule_view record in
  ret (RuleShown view).

(** A report runs first at its next occurrence, an alert at once. *)
Definition initial_next_run (config : RuleConfig) (now_ms : Z) : Z + NotificationError :=
  match config with
  | ScheduledReport config => first_occurrence (rc_cron config) (rc_timezone config) now_ms
  | ThresholdAlert _ => inl now_ms
  end.

(** Each id is looked up by a query of its own. *)
Fixpoint check_channel_ids (ids : list Z) : M unit :=
  match ids with
  | [] => ret tt
  | id :: rest =>
      let* known := (if id <=? 0 then ret false else let* c := query (notification_get_channel id) in ret (is_some c)) in
      if known : bool then check_channel_ids rest
      else leave (Err (bad_request "invalid_channel_id" ("notification channel " +:+ show_Z id +:+ " does not exist") (Some "channel_ids")))
  end.

Definition validate_channel_ids (channel_ids : list Z) : M (list Z) :=
  if is_empty channel_ids then
    leave (Err (bad_request "missing_channels" "at least one notification channel is required" (Some "channel_ids")))
  else
    let unique := sort_dedup channel_ids in
    check_channel_ids unique ;;
    ret unique.

(** The lists of providers and keys are read by statements on other tables. *)
Definition validate_rule_scope (w : AdminWorld) (config : RuleConfig) : unit + NotificationError :=
  match config with
  | ScheduledReport _ => inl tt
  | ThresholdAlert config =>
      match ac_scope_id config with
      | None => inl tt
      | Some scope_id =>
          let exists_ := match ac_scope_kind config with
                         | GlobalScope => true
                         | ProviderScope => existsb (Z.eqb scope_id) (aw_provider_ids w)
                         | ClientKeyScope => existsb (Z.eqb scope_id) (aw_api_key_ids w)
                         end in
          if exists_ then inl tt
          else inr (bad_request "scope_not_found" ("notification alert scope " +:+ show_Z scope_id +:+ " does not exist") (Some "scope_id"))
      end
  end.

Definition encode_json (config : RuleConfig) : string + NotificationError := map_err internal (rule_config_to_string config).

Definition create_rule (w : AdminWorld) (req : AdminRequest) : M Answer :=
  let* body := try_ (read_json read_create_rule req) in
  let* name := try_ (validated_name (cr_name body)) in
  let* channel_ids := validate_channel_ids (cr_channel_ids body) in
  let* valid := try_ (validate_rule_config (cr_config body)) in
  let* known := try_ (validate_rule_scope w (cr_config body)) in
  let* next_run_at_ms := try_ (initial_next_run (cr_config body) (aw_now_ms w)) in
  let* config_json := try_ (encode_json (cr_config body)) in
  let* id := statement (notification_insert_rule name (rule_kind_as_str (rule_kind (cr_config body))) (cr_enabled body) config_json
                          next_run_at_ms channel_ids (aw_now_ms w)) in
  modify wake ;;
  let* record := get_rule_record id in
  let* view := rule_view record in
  ret (RuleCreated view).

Definition rule_kind_immutable : NotificationError := conflict "rule_kind_immutable" "notification rule kind cannot be changed".

Definition update_rule (w : AdminWorld) (id : Z) (req : AdminRequest) : M Answer :=
  let* body := try_ (read_json read_update_rule req) in
  let* requested := try_ (decode_update_config rule_config_from_value (option_map rule_kind_as_str (ur_kind body)) (ur_config body)
                            "invalid_rule_config" "rule") in
  let* current := get_rule_record id in
  let* current_config := try_ (decode_rule_config (rl_config_json current)) in
  let config := unwrap_or requested current_config in
  if negb (String.eqb (rule_kind_as_str (rule_kind config)) (rl_kind current)) then leave (Err rule_kind_immutable)
  else
    let* valid := try_ (validate_rule_config config) in
    let* known := try_ (validate_rule_scope w config) in
    let* channel_ids := match ur_channel_ids body with
                        | Some ids => validate_channel_ids ids
                        | None => query (notification_rule_channel_ids id)
                        end in
    let* name := try_ (match ur_name body with Some name => validated_name name | None => inl (rl_name current) end) in
    let* next_run_at_ms := try_ (initial_next_run config (aw_now_ms w)) in
    let* config_json := try_ (encode_json config) in
    let* hit := statement (notification_update_rule id name (unwrap_or (ur_enabled body) (rl_enabled current)) config_json
                             next_run_at_ms channel_ids (aw_now_ms w)) in
    modify wake ;;
    let* record := get_rule_record id in
    let* view := rule_view record in
    ret (RuleShown view).

Definition delete_rule (id : Z) : M Answer :=
  let* deleted := update (notification_delete_rule id) in
  if deleted : bool then modify wake ;; ret NoContent else leave (Err (not_found "notification rule not found")).

Definition run_rule (w : AdminWorld) (id : Z) : M Answer :=
  let* rule := get_rule_record id in
  let* run_id := enqueue_rule_run dec_leb rule_config_from_str payload_to_string (aw_run w) rule (aw_now_ms w) in
  ret (Enqueued run_id).

Definition schedule_preview (w : AdminWorld) (req : AdminRequest) : M Answer :=
  let* body := try_ (read_json read_preview req) in
  let* occurrences := try_ (next_occurrences (pv_cron body) (pv_timezone body) (aw_now_ms w) SCHEDULE_PREVIEW_COUNT) in
  ret (Preview (trim (pv_cron body)) (trim (pv_timezone body)) occurrences).

(** *** Deliveries *)
Definition list_deliveries (req : AdminRequest) : M Answer :=
  let offset := Z.max 0 (unwrap_or (query_i64 (rq_query req) "offset") 0) in
  let limit := Z.max 1 (Z.min MAX_DELIVERY_LIMIT (unwrap_or (query_i64 (rq_query req) "limit") DEFAULT_DELIVERY_LIMIT)) in
  let status := query_string (rq_query req) "status" in
  if is_some_and status (λ s, negb (is_one_of s ["pending"; "sending"; "succeeded"; "failed"; "skipped"])) then
    leave (Err (bad_request "invalid_delivery_status" "status is not a supported delivery state" (Some "status")))
  else
    let* items := query (notification_list_deliveries offset limit status (query_i64 (rq_query req) "rule_id")) in
    ret (Deliveries items offset limit).

Definition get_delivery_record (id : string) : M DeliveryView :=
  let* view := query (notification_get_delivery id) in
  try_ (ok_or view (not_found "notification delivery not found")).

Definition get_delivery (id : string) : M Answer :=
  let* view := get_delivery_record id in
  let* event_payload := try_ (map_err internal (json_from_str (rn_payload_json (vw_run view)))) in
  ret (DeliveryDetail view event_payload).

Definition retry_delivery (w : AdminWorld) (id : string) : M Answer :=
  let* delivery := get_delivery_record id in
  if negb (String.eqb (dv_status (vw_delivery delivery)) "failed") then
    leave (Err (conflict "delivery_not_retryable" "only failed deliveries can be retried"))
  else
    let* retried := update (notification_retry_delivery id (aw_now_ms w)) in
    if negb retried then leave (Err (conflict "delivery_retry_conflict" "delivery state changed before retry"))
    else
      modify wake ;;
      let* delivery := get_delivery_record id in
      ret (DeliveryRetried delivery).

Definition summary (w : AdminWorld) : M Answer :=
  let* counts := query (notification_summary (aw_now_ms w)) in
  ret (Summary counts).

(** *** Dispatch *)
Definition dispatch (w : AdminWorld) (req : AdminRequest) : M Answer :=
  let* endpoint := try_ (route (rq_method req) (rq_path req)) in
  match endpoint with
  | SummaryEndpoint => summary w
  | ListChannels => list_channels
  | CreateChannel => create_channel w req
  | ListRules => list_rules req
  | CreateRule => create_rule w req
  | SchedulePreview => schedule_preview w req
  | ListDeliveries => list_deliveries req
  | GetChannel id => get_channel id
  | UpdateChannel id => update_channel w id req
  | DeleteChannel id => delete_channel id
  | TestChannel id => test_channel w id req
  | GetRule id => get_rule id
  | UpdateRule id => update_rule w id req
  | DeleteRule id => delete_rule id
  | RunRule id => run_rule w id
  | RetryDelivery id => retry_delivery w id
  | GetDelivery id => get_delivery id
  end.
End Admin.

(** ** An administrator among the passes *)
Section Edits.
Context `{CronOk} (rule_config_from_str : string → RuleConfig + string) (owner : string).

Lemma insert_rule_channels_rules rule_id ids : ∀ t t', insert_rule_channels rule_id ids t = inl t' → nt_rules t' = nt_rules t.
Proof.
  induction ids as [|id ids IH]; intros t t' E; cbn [insert_rule_channels] in E; [by injection E as <-|].
  destruct (is_none _ || _); [done|]. by apply IH in E.
Qed.

(** What an accepted edit writes: a rule whose next run is after the clock, or an alert. *)
Lemma edited_rule now clock config next r :
  now <= clock → initial_next_run config clock = inl next → rule_config_from_str (rl_config_json r) = inl config →
  rl_next_run_at_ms r = next → ends_by now r →
  (report_config rule_config_from_str r = None ∨ now < rl_next_run_at_ms r) ∧ scheduled rule_config_from_str r.
Proof.
  intros Hclock Hn Hc <- He. destruct config as [c|c]; cbn [initial_next_run] in Hn.
  - apply first_occurrence_spec in Hn as (s & z & Hp & Hlt & Ho & _). split; [right; lia|].
    intros c' s' z' e Hc' Hp' Hl. unfold report_config in Hc'. rewrite Hc in Hc'. injection Hc' as <-. rewrite Hp in Hp'. injection Hp' as <- <-.
    specialize (He e Hl). exists (rl_next_run_at_ms r). split_and!; [done|lia|done].
  - split; [left; unfold report_config; by rewrite Hc|]. intros c' s' z' e Hc'. unfold report_config in Hc'. by rewrite Hc in Hc'.
Qed.

(** What the passes assume of administrators ([NotifySchedule.others_edit]) holds of them:
    whatever rule is created, edited or deleted while a pass runs, it is without the lease of
    the pass, and a report among them is due after the pass and after the end of its last
    window. *)
Theorem edits_are_assumed now clock config next json name kind enabled ids id :
  now <= clock → initial_next_run config clock = inl next → rule_config_from_str json = inl config →
  others_edit rule_config_from_str owner now (λ t, (notification_update_rule id name enabled json next ids clock t).2)
  ∧ others_edit rule_config_from_str owner now (λ t, (notification_insert_rule name kind enabled json next ids clock t).2)
  ∧ others_edit rule_config_from_str owner now (λ t, (notification_delete_rule id t).2).
Proof.
  intros Hclock Hn Hc. split_and!; intros t Hinv i row.
  - unfold notification_update_rule.
    pose proof (λ f g, update_row_lookup id f g (nt_rules t) i row) as Hu.
    destruct (update_row _ _ _ _) as [hit rules] eqn:E. destruct hit; cbn [negb snd]; [|by left].
    destruct (insert_rule_channels _ _ _) as [t'|e] eqn:Ei; [|by left]. apply insert_rule_channels_rules in Ei. cbn [snd]. rewrite Ei.
    cbn [drop_rule_channels set_nt_rule_channels set_nt_rules nt_rules]. intros Hr.
    specialize (Hu (λ _, true) (λ r, MkRuleRow (MkRule (rl_id (rr_rule r)) name (rl_kind (rr_rule r)) enabled json next
      (rl_last_window_end_ms (rr_rule r)) (rl_created_at_ms (rr_rule r)) clock) None None)). rewrite E in Hu. destruct (Hu Hr) as [?|(-> & row0 & Hr0 & _ & ->)]; [by left|]. right.
    destruct (Hinv _ _ Hr0) as (Hid & _ & He). cbn.
    destruct (edited_rule now clock config next (MkRule (rl_id (rr_rule row0)) name (rl_kind (rr_rule row0)) enabled json next
      (rl_last_window_end_ms (rr_rule row0)) (rl_created_at_ms (rr_rule row0)) clock) Hclock Hn Hc eq_refl He) as [Hl Hs].
    by split_and!.
  - unfold notification_insert_rule. destruct (insert_rule_channels _ _ _) as [t'|e] eqn:Ei; [|by left].
    apply insert_rule_channels_rules in Ei. cbn [snd]. rewrite Ei. cbn [nt_rules]. intros [[<- <-]|[_ Hr]]%lookup_insert_Some; [|by left].
    right. destruct (edited_rule now clock config next (MkRule (nt_next_rule t) name kind enabled json next None clock clock) Hclock Hn Hc
      eq_refl) as [Hl Hs]; [done|]. by split_and!.
  - cbn. intros [_ Hr]%lookup_delete_Some. by left.
Qed.
End Edits.

(** ** Editing a channel *)
Section Secrets.
Context `{TransportLib}.
Context (channel_config_from_str : string → ChannelConfig + string) (decrypt_secret : string → string + string).

(** A client sends a channel back as it was shown: what was shown as it is, what was not shown
    blank (so does [channelInputFromDraft] of NotificationsPage.tsx with an unedited draft). *)
Definition sent_back (view : PublicChannelConfig) (sent : ChannelConfig) : Prop :=
  match view, sent with
  | PublicSmtp v, Smtp c =>
      sm_host c = pm_host v ∧ sm_port c = pm_port v ∧ sm_security c = pm_security v ∧ sm_username c = pm_username v
      ∧ sm_from_name c = pm_from_name v ∧ sm_from_email c = pm_from_email v ∧ sm_recipients c = pm_recipients v ∧ sm_password c = None
  | PublicWebhook v, Webhook c =>
      wk_format c = pk_format v ∧ trim (wk_url c) = "" ∧ trim (wk_signing_secret c) = ""
      ∧ wk_headers c = map (λ header, MkWebhookHeader header.1 "") (pk_headers v)
  | _, _ => False
  end.

(** The value of the first header of a name, in whatever case. *)
Definition first_value (headers : list WebhookHeader) (name : string) : option string :=
  head (omap (λ h, if String.eqb (to_ascii_lowercase (wh_name h)) (to_ascii_lowercase name) then Some (wh_value h) else None) headers).

Definition with_first_values (config : ChannelConfig) : ChannelConfig :=
  match config with
  | Smtp _ => config
  | Webhook c =>
      Webhook (MkWebhook (wk_url c) (wk_format c) (wk_signing_secret c)
        (map (λ h, MkWebhookHeader (wh_name h) (unwrap_or (first_value (wk_headers c) (wh_name h)) "")) (wk_headers c)))
  end.

(** No two headers have the same name, in whatever case. *)
Definition distinct_headers (config : ChannelConfig) : Prop :=
  match config with
  | Smtp _ => True
  | Webhook c => NoDup (map (λ h, to_ascii_lowercase (wh_name h)) (wk_headers c))
  end.

Lemma first_value_cons h l name :
  first_value (h :: l) name =
    if String.eqb (to_ascii_lowercase (wh_name h)) (to_ascii_lowercase name) then Some (wh_value h) else first_value l name.
Proof. unfold first_value. cbn [omap list_omap]. by destruct (String.eqb _ _). Qed.

Lemma merge_blank l name :
  merge_header l (MkWebhookHeader name "") = MkWebhookHeader name (unwrap_or (first_value l name) "").
Proof.
  unfold merge_header. cbn [wh_name wh_value String.eqb]. induction l as [|h l IH]; [done|].
  cbn [List.find]. rewrite first_value_cons. unfold eq_ignore_ascii_case at 1. by destruct (String.eqb _ _).
Qed.

Lemma first_value_own l h : NoDup (map (λ h, to_ascii_lowercase (wh_name h)) l) → h ∈ l → first_value l (wh_name h) = Some (wh_value h).
Proof.
  induction l as [|x l IH]; intros Hnd Hin; [by apply not_elem_of_nil in Hin|]. apply NoDup_cons in Hnd as [Hx Hnd].
  rewrite first_value_cons. destruct (String.eqb_spec (to_ascii_lowercase (wh_name x)) (to_ascii_lowercase (wh_name h))) as [E|E].
  - apply elem_of_cons in Hin as [->|Hin]; [done|]. destruct Hx. rewrite E.
    apply list_elem_of_In, (in_map (λ h, to_ascii_lowercase (wh_name h))), list_elem_of_In, Hin.
  - apply elem_of_cons in Hin as [->|Hin]; [done|]. by apply IH.
Qed.

Lemma first_value_from l name h : h ∈ l → wh_name h = name → ∃ e, e ∈ l ∧ first_value l name = Some (wh_value e).
Proof.
  intros Hin Hname. induction l as [|x l IH]; [by apply not_elem_of_nil in Hin|]. rewrite first_value_cons.
  destruct (String.eqb_spec (to_ascii_lowercase (wh_name x)) (to_ascii_lowercase name)) as [E|E]; [exists x; split; [left|done]|].
  apply elem_of_cons in Hin as [->|Hin]; [by rewrite Hname in E|]. destruct (IH Hin) as (e & He & ->). exists e. split; [by right|done].
Qed.

Lemma first_values_same config : distinct_headers config → with_first_values config = config.
Proof.
  destruct config as [c|[url format secret headers]]; [done|]. cbn. intros Hnd. do 2 f_equal.
  transitivity (map (λ h, h) headers); [|apply map_id]. apply map_ext_in. intros h Hin%list_elem_of_In.
  rewrite first_value_own //. by destruct h.
Qed.

Lemma merge_back config sent :
  sent_back (public_config config) sent → merge_channel_secrets sent config = inl (with_first_values config).
Proof.
  destruct config as [c|c], sent as [i|i]; cbn; try done.
  - intros (H1 & H2 & H3 & H4 & H5 & H6 & H7 & H8). rewrite H8 H4 /opt_string_eqb bool_decide_eq_true_2 //. cbn.
    destruct c, i. cbn in *. congruence.
  - intros (-> & -> & -> & ->). rewrite bool_decide_eq_true_2 //=. do 3 f_equal. rewrite !map_map. apply map_ext. intros h. apply merge_blank.
Qed.

Lemma check_headers_all headers :
  check_headers headers = inl tt ↔ ∀ h, h ∈ headers → validate_custom_header (wh_name h) (wh_value h) = inl tt.
Proof.
  induction headers as [|h headers IH]; cbn [check_headers].
  { split; [|done]. intros _ h Hh. by apply not_elem_of_nil in Hh. }
  destruct (validate_custom_header (wh_name h) (wh_value h)) as [[]|e] eqn:E; cbn [res_bind].
  - rewrite IH. split; intros Hall x; [intros [->|Hx]%elem_of_cons; [done|by apply Hall]|intros Hx; apply Hall; by right].
  - split; [done|]. intros Hall. rewrite (Hall h) // in E. left.
Qed.

Lemma valid_value name value name' value' :
  validate_custom_header name value = inl tt → validate_custom_header name' value' = inl tt →
  validate_custom_header name value' = inl tt.
Proof.
  unfold validate_custom_header. destruct (header_name_from (trim name)) as [parsed|e]; [|done]. cbn [map_err res_bind].
  destruct (header_name_from (trim name')) as [parsed'|e]; [|done]. cbn [map_err res_bind].
  destruct (String.eqb value ""); [done|]. destruct (String.eqb value' ""); [done|].
  destruct (header_value_from value); [done|]. destruct (header_value_from value'); [done|].
  by destruct (is_one_of parsed reserved_headers).
Qed.

Lemma first_values_valid config : validate_channel_config config = inl tt → validate_channel_config (with_first_values config) = inl tt.
Proof.
  destruct config as [c|c]; [done|]. cbn. unfold validate_webhook_config. cbn [wk_url wk_format wk_signing_secret wk_headers].
  destruct (map_err _ _) as [uri|e]; [cbn [res_bind]|done]. do 3 (case_match; [done|]).
  rewrite !check_headers_all. intros Hall x (h & <- & Hh)%list_elem_of_In%in_map_iff. apply list_elem_of_In in Hh. cbn [wh_name wh_value].
  destruct (first_value_from (wk_headers c) (wh_name h) h Hh eq_refl) as (e & He & ->). cbn [unwrap_or].
  eapply valid_value; [by apply Hall|by apply Hall].
Qed.

(** C31. A channel that is read and sent back as it was shown stays what it was: password, URL,
    signing secret and the values of its headers, none of which are shown, are kept - except that
    headers of one name, in whatever case, all get the value of the first of them. *)
Theorem edit_keeps_secrets current config view sent :
  decrypt_channel_config channel_config_from_str decrypt_secret (ch_config_enc current) = inl config →
  ch_kind current = channel_kind_as_str (channel_kind config) → validate_channel_config config = inl tt →
  channel_view channel_config_from_str decrypt_secret current = inl view → sent_back (cv_config view) sent →
  updated_channel_config channel_config_from_str decrypt_secret current (Some sent) = inl (with_first_values config)
  ∧ (distinct_headers config → with_first_values config = config).
Proof.
  intros Hd Hk Hv Hview Hs. split; [|apply first_values_same]. unfold channel_view in Hview. rewrite Hd in Hview. injection Hview as <-.
  unfold updated_channel_config. rewrite Hd. cbn [res_bind]. rewrite (merge_back config sent Hs). cbn [res_bind].
  assert (channel_kind (with_first_values config) = channel_kind config) as -> by by destruct config.
  by rewrite Hk String.eqb_refl /= first_values_valid.
Qed.
End Secrets.

(** ** Runs *)
Section Runs.
#[local] Existing Instances hourly hourly_ok plain_transport.

Lemma edits_are_assumed_witness :
  others_edit hour_config "us" half_past_four
    (λ t, (notification_update_rule 1 "renamed" true "" (5 * HOUR) [] (half_past_four + 1000) t).2).
Proof.
  refine (proj1 (edits_are_assumed hour_config "us" half_past_four (half_past_four + 1000)
    (ScheduledReport (MkReportConfig "0 * * * *" "UTC" EnUs 20)) (5 * HOUR) "" "renamed" "scheduled_report" true [] 1 _ _ _)).
  - by vm_compute.
  - reflexivity.
  - reflexivity.
Defined.

Definition team_hook (headers : list WebhookHeader) : ChannelConfig :=
  Webhook (MkWebhook "https://hooks.example/t" Generic "0123456789abcdef0123456789abcdef" headers).
Definition team_channel : ChannelRecord := MkChannel 1 "team" "webhook" true "stored" 0 0.

(** What the page sends of a hook with these headers: names without values. *)
Definition untouched (names : list string) : ChannelConfig :=
  Webhook (MkWebhook "" Generic "" (map (λ name, MkWebhookHeader name "") names)).

Lemma edit_keeps_secrets_witness :
  let hook := team_hook [MkWebhookHeader "X-Team" "ops"; MkWebhookHeader "X-Token" "s3cret"] in
  updated_channel_config (λ _, inl hook) inl team_channel (Some (untouched ["X-Team"; "X-Token"])) = inl hook.
Proof.
  intros hook. destruct (edit_keeps_secrets (λ _, inl hook) inl team_channel hook
    (MkChannelView 1 "team" true (public_config hook) 0 0) (untouched ["X-Team"; "X-Token"])) as [-> Hsame].
  - reflexivity.
  - reflexivity.
  - vm_compute. reflexivity.
  - reflexivity.
  - split_and!; reflexivity.
  - rewrite Hsame; [reflexivity|]. apply (bool_decide_unpack (NoDup _)). vm_compute. exact I.
Defined.

(** Two headers of one name are accepted and sent, but an edit that does not repeat their
    values gives both the value of the first. *)
Example equal_headers_merged :
  let hook := team_hook [MkWebhookHeader "X-Token" "first"; MkWebhookHeader "x-token" "second"] in
  validate_channel_config hook = inl tt
  ∧ merge_channel_secrets (untouched ["X-Token"; "x-token"]) hook
    = inl (team_hook [MkWebhookHeader "X-Token" "first"; MkWebhookHeader "x-token" "first"]).
Proof. split; reflexivity. Qed.

Example routes :
  route PATCH "/api/v1/notifications/channels/12" = inl (UpdateChannel 12)
  ∧ route POST "/api/v1/notifications/channels/12/test" = inl (TestChannel 12)
  ∧ route POST "/api/v1/notifications/deliveries/01J-3/retry" = inl (RetryDelivery "01J-3")
  ∧ route GET "/api/v1/notifications/rules/7/run" = inr method_not_allowed
  ∧ route GET "/api/v1/notifications/rules/seven" = inr (not_found "notification endpoint not found").
Proof. by vm_compute. Qed.
End Runs.
