(* ===== verification/Crypto.v ===== *)
(** * Crypto: secrets at rest

    Models [crypto.rs]: the derivation of the key, the digest an account is found by, and the
    encryption of secrets in the database. The hash, the cipher and base64 are the class
    [CryptoLib]; [CryptoOk] states what they promise. *)
From Stdlib Require Import Ascii String.
From S2P Require Import Prelude Text Affinity.

Local Open Scope string_scope.
Local Open Scope list_scope.
Local Open Scope Z_scope.

Class CryptoLib := {
  blake3 : list Z → list Z;
  blake3_keyed : list Z → list Z → list Z;
  (** AES-256-GCM under a key and a nonce; the error is its text. *)
  aes_seal : list Z → list Z → list Z → list Z + string;
  aes_open : list Z → list Z → list Z → list Z + string;
  (** [URL_SAFE_NO_PAD] *)
  base64_encode : list Z → string;
  base64_decode : string → list Z + string;
  utf8_error : string
}.

Definition is_byte (b : Z) : Prop := 0 <= b < 256.

(** What is sealed is bytes and opens under the same key and nonce; bytes that are encoded
    decode. *)
Class CryptoOk `{CryptoLib} := {
  aes_seal_bytes key nonce plaintext sealed : Forall is_byte plaintext → aes_seal key nonce plaintext = inl sealed → Forall is_byte sealed;
  aes_open_seal key nonce plaintext sealed : aes_seal key nonce plaintext = inl sealed → aes_open key nonce sealed = inl plaintext;
  base64_decode_encode bytes : Forall is_byte bytes → base64_decode (base64_encode bytes) = inl bytes
}.

Definition of_bytes (l : list Z) : string := of_chars (map (λ b, ascii_of_nat (Z.to_nat b)) l).

Section Crypto.
Context `{CryptoLib}.

Definition derive_32 (master_key : string) : list Z := blake3 (as_bytes master_key).

Definition hash_codex_account (master_key account_id : string) : string :=
  hex_encode (blake3_keyed (derive_32 master_key) (as_bytes "little-gate/codex-account/v1" ++ [0] ++ as_bytes account_id)).

(** The nonce is the one drawn: twelve bytes. *)
Definition encrypt_secret (nonce : list Z) (master_key plaintext : string) : string + string :=
  let? ciphertext := aes_seal (derive_32 master_key) nonce (as_bytes plaintext) in
  inl (base64_encode (nonce ++ ciphertext)).

Definition decrypt_secret (master_key blob_b64 : string) : string + string :=
  let? blob := base64_decode blob_b64 in
  if len blob <? 12 then inr "encrypted secret blob too short"
  else
    let? plaintext := aes_open (derive_32 master_key) (take 12 blob) (drop 12 blob) in
    ok_or (from_utf8 (of_bytes plaintext)) utf8_error.
End Crypto.

Lemma of_as_bytes s : of_bytes (as_bytes s) = s.
Proof.
  unfold of_bytes, as_bytes. rewrite map_map -{2}(of_chars_chars s). f_equal. rewrite -{2}(map_id (chars s)). apply map_ext.
  intros c. unfold code. by rewrite Nat2Z.id ascii_nat_embedding.
Qed.

Lemma as_bytes_byte s : Forall is_byte (as_bytes s).
Proof.
  apply Forall_forall. intros b Hb%list_elem_of_In. apply in_map_iff in Hb as (c & <- & _). unfold is_byte, code.
  pose proof (nat_ascii_bounded c). lia.
Qed.

Lemma as_of_bytes l : Forall is_byte l → as_bytes (of_bytes l) = l.
Proof.
  unfold as_bytes, of_bytes. rewrite chars_of_chars. induction 1 as [|b l Hb _ IH]; [done|]. cbn [map]. rewrite IH. f_equal.
  unfold is_byte in Hb. unfold code. rewrite nat_ascii_embedding; lia.
Qed.

(** What was encrypted is decrypted, when it is a text. *)
Lemma decrypt_encrypted `{CryptoOk} nonce master_key plaintext blob :
  len nonce = 12 → Forall is_byte nonce → from_utf8 plaintext = Some plaintext → encrypt_secret nonce master_key plaintext = inl blob →
  decrypt_secret master_key blob = inl plaintext.
Proof.
  intros Hn Hb Hu (sealed & Hs & [= <-])%res_bind_inl. unfold decrypt_secret.
  rewrite base64_decode_encode; [|apply Forall_app; split; [done|]; eapply aes_seal_bytes; [apply as_bytes_byte|done]]. cbn [res_bind].
  unfold len in *. rewrite length_app. destruct (Z.ltb_spec (Z.of_nat (length nonce + length sealed)) 12); [lia|]. assert (length nonce = 12%nat) as Hl by lia.
  rewrite -Hl take_app_length drop_app_length (aes_open_seal _ _ _ _ Hs). cbn [res_bind]. by rewrite of_as_bytes Hu.
Qed.

(** A cipher that hides nothing, for examples. *)
Definition plain_crypto : CryptoLib := {|
  blake3 := id; blake3_keyed _ := id; aes_seal _ _ := inl; aes_open _ _ := inl;
  base64_encode := of_bytes; base64_decode s := inl (as_bytes s); utf8_error := "" |}.
Lemma plain_crypto_ok : @CryptoOk plain_crypto.
Proof.
  split; [by intros ? ? p s Hp [= <-]|by intros ? ? p s [= <-]|]. intros bytes Hb. exact (f_equal inl (as_of_bytes bytes Hb)).
Qed.
