(* ===== verification/CodexTokens.v ===== *)
(** * CodexTokens: what the OAuth login exchanges

    Models the messages of [codex_oauth.rs]: the errors and their texts, the authorization
    URL and the callback URL, the requests to the authorization server and what its answers
    mean. The URL parser, JSON and base64, and the readers derived by [serde], are the class
    [OAuthLib]. *)
From Stdlib Require Import Ascii String.
From S2P Require Import Prelude Text Json ResponseEvents Headers.

Local Open Scope string_scope.
Local Open Scope list_scope.
Local Open Scope Z_scope.

Definition BROWSER_REDIRECT_URI : string := "http://localhost:1455/auth/callback".
Definition DEVICE_VERIFICATION_URI : string := "https://auth.openai.com/codex/device".
Definition DEVICE_USER_CODE_URL : string := "https://auth.openai.com/api/accounts/deviceauth/usercode".
Definition DEVICE_TOKEN_URL : string := "https://auth.openai.com/api/accounts/deviceauth/token".
Definition AUTHORIZE_URL : string := "https://auth.openai.com/oauth/authorize".
Definition TOKEN_URL : string := "https://auth.openai.com/oauth/token".
Definition DEVICE_REDIRECT_URI : string := "https://auth.openai.com/deviceauth/callback".
Definition CODEX_CLIENT_ID : string := "app_EMoamEEZ73f0CkXaXp7hrann".
Definition CODEX_OAUTH_SCOPE : string := "openid profile email offline_access api.connectors.read api.connectors.invoke".
Definition CODEX_MODELS_URL : string := "https://chatgpt.com/backend-api/codex/models?client_version=0.144.1".
Definition CODEX_USAGE_URL : string := "https://chatgpt.com/backend-api/wham/usage".
Definition DEVICE_DEFAULT_POLL_INTERVAL_MS : Z := 5000.
Definition OAUTH_BODY_MAX_BYTES : Z := 1024 * 1024.
Definition QUOTA_BODY_MAX_BYTES : Z := 512 * 1024.
Definition MODEL_BODY_MAX_BYTES : Z := 4 * 1024 * 1024.

(** ** Errors *)
Inductive CodexOAuthErrorKind := BadRequest | Conflict | Temporary | Upstream | ReauthRequired | Forbidden | Database.

#[export] Instance error_kind_eq_dec : EqDecision CodexOAuthErrorKind.
Proof. solve_decision. Defined.

Record CodexOAuthError := MkOAuthError {
  oe_code : string;
  oe_message : string;
  oe_kind : CodexOAuthErrorKind;
  oe_reauth_required : bool
}.

Definition secret_markers : list string :=
  ["access_token"; "refresh_token"; "id_token"; "authorization_code"; "code_verifier"; "user_code"].

Definition sanitize_persisted_error (message : string) : string :=
  let trimmed := trim message in
  let sanitized := if String.eqb trimmed "" then "unknown OAuth error" else of_chars (take_chars 240 (chars trimmed)) in
  if existsb (λ marker, contains marker (to_ascii_lowercase sanitized)) secret_markers then "upstream OAuth request failed"
  else sanitized.

Definition oauth_error (kind : CodexOAuthErrorKind) (code message : string) : CodexOAuthError :=
  MkOAuthError code (sanitize_persisted_error message) kind (bool_decide (kind = ReauthRequired)).
Definition bad_request := oauth_error BadRequest.
Definition conflict := oauth_error Conflict.
Definition temporary := oauth_error Temporary.
Definition upstream := oauth_error Upstream.
Definition reauth := oauth_error ReauthRequired.
Definition forbidden := oauth_error Forbidden.
Definition database (error : string) : CodexOAuthError := oauth_error Database "oauth_database_error" error.

Definition http_status (e : CodexOAuthError) : Z :=
  match oe_kind e with
  | BadRequest => 400
  | Conflict => 409
  | Forbidden => 403
  | ReauthRequired => 401
  | Temporary => 503
  | Upstream => 502
  | Database => 500
  end.

(** ** The libraries *)
Record Url := MkUrl {
  url_scheme : string;
  url_host_str : option string;
  url_port : option Z;
  url_path : string;
  url_username : string;
  url_password : option string;
  url_fragment : option string;
  url_query_pairs : list (string * string)
}.

Record DeviceUserCodeResponse := MkUserCode {
  uc_device_auth_id : string;
  uc_user_code : option string;
  uc_user_code_alt : option string;
  uc_interval : option Value
}.
Record DeviceTokenResponse := MkDeviceToken {
  dt_authorization_code : string;
  dt_code_verifier : string;
  dt_code_challenge : string
}.
Record TokenResponse := MkTokenResponse {
  tr_access_token : string;
  tr_refresh_token : option string;
  tr_id_token : option string;
  tr_expires_in : option Z
}.

Class OAuthLib := {
  parse_url : string → option Url;
  (** [Url::parse], [query_pairs_mut().append_pair(..)] and [into]. *)
  url_with_pairs : string → list (string * string) → option string;
  json_from_slice : list ascii → option Value;
  json_to_vec : Value → option string;
  user_code_from_slice : list ascii → option DeviceUserCodeResponse;
  device_token_from_slice : list ascii → option DeviceTokenResponse;
  token_from_slice : list ascii → option TokenResponse;
  (** [URL_SAFE_NO_PAD] and [URL_SAFE]. *)
  url_safe_no_pad : string → option (list ascii);
  url_safe : string → option (list ascii);
  sha256 : list ascii → list ascii;
  no_pad_encode : list ascii → string;
  (** [HeaderValue::from_str(s).is_ok()] and [HeaderValue::to_str]. *)
  oauth_header_value : string → bool;
  oauth_to_str : string → option string
}.

(** ** URLs *)
Section Urls.
Context `{OAuthLib}.

(** The bytes are the ones drawn. *)
Definition random_urlsafe (bytes : list ascii) : string := no_pad_encode bytes.
Definition pkce_challenge (code_verifier : string) : string := no_pad_encode (sha256 (chars code_verifier)).

Definition authorization_pairs (state code_challenge : string) : list (string * string) :=
  [("client_id", CODEX_CLIENT_ID); ("response_type", "code"); ("redirect_uri", BROWSER_REDIRECT_URI);
   ("scope", CODEX_OAUTH_SCOPE); ("code_challenge", code_challenge); ("code_challenge_method", "S256");
   ("state", state); ("originator", CODEX_ORIGINATOR); ("id_token_add_organizations", "true");
   ("codex_cli_simplified_flow", "true")].

Definition build_authorization_url (state code_challenge : string) : string + CodexOAuthError :=
  ok_or (url_with_pairs AUTHORIZE_URL (authorization_pairs state code_challenge))
    (bad_request "oauth_authorize_url_invalid" "the OAuth authorization URL is invalid").

Record BrowserCallback := MkCallback {
  cb_state : string;
  cb_code : option string;
  cb_error : option string;
  cb_error_description : option string
}.

(** The four parameters as they are read: a second one of a name is an error. *)
Record CallbackParams := MkParams {
  pm_state : option string;
  pm_code : option string;
  pm_error : option string;
  pm_error_description : option string
}.

Definition duplicate_parameter : CodexOAuthError :=
  bad_request "oauth_callback_parameter_duplicate" "the OAuth callback URL contains a duplicate parameter".

Definition read_param (p : CallbackParams) (key value : string) : CallbackParams + CodexOAuthError :=
  let set slot result := if is_some slot then inr duplicate_parameter else inl result in
  if String.eqb key "state" then set (pm_state p) (MkParams (Some value) (pm_code p) (pm_error p) (pm_error_description p))
  else if String.eqb key "code" then set (pm_code p) (MkParams (pm_state p) (Some value) (pm_error p) (pm_error_description p))
  else if String.eqb key "error" then set (pm_error p) (MkParams (pm_state p) (pm_code p) (Some value) (pm_error_description p))
  else if String.eqb key "error_description" then set (pm_error_description p) (MkParams (pm_state p) (pm_code p) (pm_error p) (Some value))
  else inl p.

Fixpoint read_params (pairs : list (string * string)) (p : CallbackParams) : CallbackParams + CodexOAuthError :=
  match pairs with
  | [] => inl p
  | (key, value) :: pairs => let? p := read_param p key value in read_params pairs p
  end.

Definition not_blank (s : string) : bool := negb (String.eqb (trim s) "").

(** Whether the URL is the redirect URI, up to its query. *)
Definition is_redirect_url (url : Url) : bool :=
  String.eqb (url_scheme url) "http" && is_some_and (url_host_str url) (String.eqb "localhost")
  && opt_eqb (url_port url) (Some 1455) && String.eqb (url_path url) "/auth/callback"
  && String.eqb (url_username url) "" && is_none (url_password url) && is_none (url_fragment url).

Definition parse_browser_callback_url (redirect_url : string) : BrowserCallback + CodexOAuthError :=
  if 16 * 1024 <? str_len redirect_url then inr (bad_request "oauth_callback_url_too_long" "the OAuth callback URL is too long")
  else
    let? url := ok_or (parse_url (trim redirect_url)) (bad_request "oauth_callback_url_invalid" "the OAuth callback URL is invalid") in
    if negb (is_redirect_url url)
    then inr (bad_request "oauth_callback_url_invalid" ("the OAuth callback URL must use " +:+ BROWSER_REDIRECT_URI))
    else
      let? p := read_params (url_query_pairs url) (MkParams None None None None) in
      let? state := ok_or (opt_filter not_blank (pm_state p))
                      (bad_request "oauth_callback_state_missing" "the OAuth callback did not include state") in
      let code := opt_filter not_blank (pm_code p) in
      let error := opt_filter not_blank (pm_error p) in
      if Bool.eqb (is_some code) (is_some error)
      then inr (bad_request "oauth_callback_payload_invalid" "the OAuth callback must include exactly one of code or error")
      else inl (MkCallback state code error (pm_error_description p)).
End Urls.

(** ** Forms *)

Definition unreserved (c : ascii) : bool :=
  let n := code c in
  ((65 <=? n) && (n <=? 90)) || ((97 <=? n) && (n <=? 122)) || ((48 <=? n) && (n <=? 57)) || existsb (Z.eqb n) [45; 95; 46; 126].

Definition upper_hex (n : Z) : ascii := ascii_of_nat (Z.to_nat (if n <? 10 then 48 + n else 55 + n)).

Definition encode_byte (c : ascii) : list ascii :=
  if unreserved c then [c]
  else if code c =? 32 then ["+"%char]
  else ["%"%char; upper_hex (code c / 16); upper_hex (code c mod 16)].

Definition encode_component (input : string) : string := of_chars (concat (map encode_byte (chars input))).

Definition encode_pair (pair : string * string) : string := encode_component pair.1 +:+ "=" +:+ encode_component pair.2.

Definition form_urlencode (pairs : list (string * string)) : string := String.concat "&" (map encode_pair pairs).

Definition authorization_code_form (code redirect_uri code_verifier : string) : string :=
  form_urlencode [("grant_type", "authorization_code"); ("client_id", CODEX_CLIENT_ID); ("code", code);
                  ("redirect_uri", redirect_uri); ("code_verifier", code_verifier)].

(** ** Requests and answers *)

Record OAuthRequest := MkOAuthRequest { rq_method : string; rq_url : string; rq_headers : HeaderMap; rq_body : string }.

(** What comes back: nothing in time, no connection, or a status and as much of the body as
    arrived, and whether that is all of it. *)
Inductive Transmission := TimedOut | Unavailable | Received (status : Z) (body : list ascii) (complete : bool).

Definition send_bounded (max_bytes : Z) (t : Transmission) : (Z * list ascii) + CodexOAuthError :=
  match t with
  | TimedOut => inr (temporary "oauth_request_timeout" "upstream OAuth request timed out")
  | Unavailable => inr (temporary "oauth_request_unavailable" "upstream OAuth endpoint is unavailable")
  | Received status body complete =>
      if complete && (len body <=? max_bytes) then inl (status, body)
      else inr (upstream "oauth_response_too_large" "upstream OAuth response exceeded the safety limit")
  end.

Definition is_success (status : Z) : bool := (200 <=? status) && (status <? 300).

Definition status_message (subject : string) (status : Z) : string := subject +:+ " returned status " +:+ show_Z status.

Inductive DevicePoll := Pending | Ready (token : DeviceTokenResponse).
Record TokenBundle := MkBundle { tb_access_token : string; tb_refresh_token : string; tb_id_token : string; tb_expires_in_seconds : Z }.
Record RefreshTokenBundle := MkRefreshBundle {
  rb_access_token : string;
  rb_refresh_token : option string;
  rb_id_token : option string;
  rb_expires_in_seconds : Z
}.
Record IdTokenClaims := MkClaims { cl_account_id : string; cl_email : string; cl_plan_type : option string }.

Section Answers.
Context `{OAuthLib}.

Definition request_form (url form : string) : OAuthRequest :=
  MkOAuthRequest "POST" url
    (hinsert "originator" CODEX_ORIGINATOR (hinsert "user-agent" CODEX_USER_AGENT
      (hinsert "accept" "application/json" (hinsert "content-type" "application/x-www-form-urlencoded" ∅)))) form.

Definition request_json (method url : string) (body : option Value) (headers : HeaderMap) : OAuthRequest + CodexOAuthError :=
  let? bytes :=
    match body with
    | Some body => ok_or (json_to_vec body) (bad_request "oauth_request_invalid" "OAuth request JSON is invalid")
    | None => inl ""
    end in
  let headers := if is_some body then hinsert "content-type" "application/json" headers else headers in
  inl (MkOAuthRequest method url (hinsert "accept" "application/json" headers) bytes).

(** *** The device flow *)
Definition request_device_user_code : OAuthRequest + CodexOAuthError :=
  request_json "POST" DEVICE_USER_CODE_URL (Some (json_obj [("client_id", String CODEX_CLIENT_ID)])) ∅.

Definition device_user_code_answer (t : Transmission) : DeviceUserCodeResponse + CodexOAuthError :=
  let? answer := send_bounded OAUTH_BODY_MAX_BYTES t in
  let '(status, bytes) := answer in
  if negb (is_success status)
  then inr (upstream (if status =? 404 then "device_endpoint_unavailable" else "device_code_request_failed")
              (status_message "device code endpoint" status))
  else ok_or (user_code_from_slice bytes) (upstream "device_code_invalid" "device code endpoint returned invalid JSON").

Definition parse_poll_interval_ms (value : option Value) : Z :=
  let seconds := opt_bind value (λ value, opt_or (as_i64 value) (opt_bind (as_str value) (λ raw, parse_i64 (trim raw)))) in
  unwrap_or (opt_bind (opt_filter (λ seconds, 0 <? seconds) seconds) (λ seconds, i64_checked (seconds * 1000)))
    DEVICE_DEFAULT_POLL_INTERVAL_MS.

Definition poll_device_token_request (device_auth_id user_code : string) : OAuthRequest + CodexOAuthError :=
  request_json "POST" DEVICE_TOKEN_URL
    (Some (json_obj [("device_auth_id", String device_auth_id); ("user_code", String user_code)])) ∅.

Definition poll_device_token (t : Transmission) : DevicePoll + CodexOAuthError :=
  let? answer := send_bounded OAUTH_BODY_MAX_BYTES t in
  let '(status, bytes) := answer in
  if (status =? 403) || (status =? 404) then inl Pending
  else if negb (is_success status)
  then inr (upstream "device_token_poll_failed" (status_message "device token endpoint" status))
  else
    let? parsed := ok_or (device_token_from_slice bytes) (upstream "device_token_invalid" "device token endpoint returned invalid JSON") in
    if not_blank (dt_authorization_code parsed) && not_blank (dt_code_verifier parsed) && not_blank (dt_code_challenge parsed)
    then inl (Ready parsed)
    else inr (upstream "device_token_invalid" "device token endpoint omitted required fields").

(** *** Exchanging a code *)
Definition exchange_authorization_code (code redirect_uri code_verifier : string) : OAuthRequest :=
  request_form TOKEN_URL (authorization_code_form code redirect_uri code_verifier).

Definition exchange_device_code (device : DeviceTokenResponse) : OAuthRequest :=
  exchange_authorization_code (trim (dt_authorization_code device)) DEVICE_REDIRECT_URI (trim (dt_code_verifier device)).
Definition exchange_browser_code (code code_verifier : string) : OAuthRequest :=
  exchange_authorization_code (trim code) BROWSER_REDIRECT_URI (trim code_verifier).

Definition exchange_answer (t : Transmission) : TokenBundle + CodexOAuthError :=
  let? answer := send_bounded OAUTH_BODY_MAX_BYTES t in
  let '(status, bytes) := answer in
  if negb (status =? 200) then inr (upstream "token_exchange_failed" (status_message "OAuth token exchange" status))
  else
    let? token := ok_or (token_from_slice bytes) (upstream "token_exchange_invalid" "OAuth token exchange returned invalid JSON") in
    let refresh_token := unwrap_or (tr_refresh_token token) "" in
    let id_token := unwrap_or (tr_id_token token) "" in
    if not_blank (tr_access_token token) && not_blank refresh_token && not_blank id_token
    then inl (MkBundle (tr_access_token token) refresh_token id_token (Z.max (unwrap_or (tr_expires_in token) 3600) 1))
    else inr (upstream "token_exchange_invalid" "OAuth token exchange omitted required tokens").

(** *** Refreshing *)
Definition refresh_token_payload (refresh_token : string) : Value :=
  json_obj [("client_id", String CODEX_CLIENT_ID); ("grant_type", String "refresh_token"); ("refresh_token", String refresh_token)].

Definition refresh_tokens_request (refresh_token : string) : OAuthRequest + CodexOAuthError :=
  request_json "POST" TOKEN_URL (Some (refresh_token_payload refresh_token))
    (hinsert "originator" CODEX_ORIGINATOR (hinsert "user-agent" CODEX_USER_AGENT ∅)).

Definition rejected_grants : list string := ["invalid_grant"; "refresh_token_reused"; "token_reused"; "revoked"].

Definition classify_refresh_failure (status : Z) (bytes : list ascii) : CodexOAuthError :=
  let text := to_ascii_lowercase (from_utf8_lossy bytes) in
  if (status =? 400) && existsb (λ needle, contains needle text) rejected_grants
  then reauth (if contains "refresh_token_reused" text || contains "token_reused" text then "refresh_token_reused"
               else "token_refresh_rejected") "the refresh token is no longer valid; sign in again"
  else temporary "token_refresh_failed" (status_message "OAuth token refresh" status).

Definition refresh_tokens (t : Transmission) : RefreshTokenBundle + CodexOAuthError :=
  let? answer := send_bounded OAUTH_BODY_MAX_BYTES t in
  let '(status, bytes) := answer in
  if negb (status =? 200) then inr (classify_refresh_failure status bytes)
  else
    let? token := ok_or (token_from_slice bytes) (upstream "token_refresh_invalid" "OAuth token refresh returned invalid JSON") in
    if negb (not_blank (tr_access_token token))
    then inr (upstream "token_refresh_invalid" "OAuth token refresh omitted the access token")
    else inl (MkRefreshBundle (tr_access_token token) (tr_refresh_token token) (tr_id_token token)
                (Z.max (unwrap_or (tr_expires_in token) 3600) 1)).

(** *** The ID token *)
Definition parse_id_token (token : string) : IdTokenClaims + CodexOAuthError :=
  let? payload :=
    match split "." token with
    | [_; payload; _] => inl payload
    | _ => inr (upstream "id_token_invalid" "ID token has an invalid format")
    end in
  let? decoded := ok_or (opt_or (url_safe_no_pad payload) (url_safe payload))
                    (upstream "id_token_invalid" "ID token payload is not valid base64") in
  let? value := ok_or (json_from_slice decoded) (upstream "id_token_invalid" "ID token payload is not valid JSON") in
  let auth := opt_bind (get "https://api.openai.com/auth" value) as_object in
  inl (MkClaims (unwrap_or (opt_bind (opt_bind auth (assoc "chatgpt_account_id")) as_str) "")
         (unwrap_or (get_str "email" value) "")
         (opt_filter (λ s, negb (String.eqb s "")) (option_map trim (opt_bind (opt_bind auth (assoc "chatgpt_plan_type")) as_str)))).

(** *** Quota and models *)
Definition request_quota (auth : PreparedCodexAuth) : OAuthRequest + CodexOAuthError :=
  request_json "GET" CODEX_USAGE_URL None (apply_codex_headers oauth_header_value oauth_to_str ∅ auth).
Definition request_models (auth : PreparedCodexAuth) : OAuthRequest + CodexOAuthError :=
  request_json "GET" CODEX_MODELS_URL None (apply_codex_headers oauth_header_value oauth_to_str ∅ auth).
End Answers.

(** ** What is shown of an account *)
Definition last_chars (n : Z) (s : string) : string :=
  of_chars (drop_chars (Z.to_nat (char_count s - n)) (chars s)).

Definition default_account_name (email account_id : string) : string :=
  let email := trim email in
  if negb (String.eqb email "") then "Codex " +:+ email else "Codex " +:+ last_chars 6 account_id.

Definition mask_email (email : string) : option string :=
  let! parts := split_once "@" (trim email) in
  let '(local, domain) := parts in
  if String.eqb local "" || String.eqb domain "" then None
  else Some (of_chars (take_chars 1 (chars local)) +:+ "***@" +:+ domain).

Definition mask_account_id (account_id : string) : option string :=
  let account_id := trim account_id in
  if String.eqb account_id "" then None else Some ("…" +:+ last_chars 6 account_id).

(** ** The form is read back *)

(** What a form means: the parser of [application/x-www-form-urlencoded]. *)
Definition hex_value (c : ascii) : option Z :=
  let n := code c in
  if (48 <=? n) && (n <=? 57) then Some (n - 48)
  else if (65 <=? n) && (n <=? 70) then Some (n - 55)
  else if (97 <=? n) && (n <=? 102) then Some (n - 87)
  else None.

Fixpoint percent_decode (l : list ascii) : list ascii :=
  match l with
  | [] => []
  | c :: l' =>
      if Ascii.eqb c "+" then " "%char :: percent_decode l'
      else if Ascii.eqb c "%" then
        match l' with
        | a :: b :: l'' =>
            match hex_value a, hex_value b with
            | Some x, Some y => ascii_of_nat (Z.to_nat (16 * x + y)) :: percent_decode l''
            | _, _ => c :: percent_decode l'
            end
        | _ => c :: percent_decode l'
        end
      else c :: percent_decode l'
  end.

Definition decode_component (l : list ascii) : string := of_chars (percent_decode l).

Definition parse_pair (piece : list ascii) : string * string :=
  match split_once_chars "=" piece with
  | Some (key, value) => (decode_component key, decode_component value)
  | None => (decode_component piece, "")
  end.

Definition parse_form (form : string) : list (string * string) :=
  map parse_pair (List.filter (λ piece, negb (is_empty piece)) (split_chars "&" (chars form))).

(** A code in a form is read back as it was, whatever its characters. *)
Lemma decode_encode_byte c l : percent_decode (encode_byte c ++ l) = c :: percent_decode l.
Proof. destruct c as [[] [] [] [] [] [] [] []]; reflexivity. Qed.

(** Nothing that is encoded is a separator. *)
Definition plain (d : ascii) : bool := negb (Ascii.eqb d "&") && negb (Ascii.eqb d "=").

Lemma encode_byte_plain c : forallb plain (encode_byte c) = true.
Proof. destruct c as [[] [] [] [] [] [] [] []]; reflexivity. Qed.

Lemma decode_encoded s : percent_decode (chars (encode_component s)) = chars s.
Proof.
  unfold encode_component. rewrite chars_of_chars. induction (chars s) as [|c l IH]; [done|]. cbn [map concat].
  by rewrite decode_encode_byte IH.
Qed.

Lemma encoded_plain s : forallb plain (chars (encode_component s)) = true.
Proof.
  unfold encode_component. rewrite chars_of_chars. induction (chars s) as [|c l IH]; [done|]. cbn [map concat].
  by rewrite forallb_app encode_byte_plain.
Qed.

Lemma decode_component_encoded s : decode_component (chars (encode_component s)) = s.
Proof. unfold decode_component. by rewrite decode_encoded of_chars_chars. Qed.

Lemma encode_pair_chars pair : chars (encode_pair pair) = chars (encode_component pair.1) ++ "="%char :: chars (encode_component pair.2).
Proof. unfold encode_pair. by rewrite !chars_append. Qed.

Lemma parse_encoded_pair pair : parse_pair (chars (encode_pair pair)) = pair.
Proof.
  unfold parse_pair. rewrite encode_pair_chars split_once_chars_app.
  - rewrite !decode_component_encoded. by destruct pair.
  - apply forallb_forall. intros d Hd. pose proof (proj1 (forallb_forall _ _) (encoded_plain pair.1) d Hd) as Hp.
    by apply andb_true_iff in Hp as [_ ?].
Qed.

Lemma encode_pair_no_amp pair : forallb (λ d, negb (Ascii.eqb d "&")) (chars (encode_pair pair)) = true.
Proof.
  rewrite encode_pair_chars forallb_app. cbn [forallb].
  assert (∀ s, forallb (λ d, negb (Ascii.eqb d "&")) (chars (encode_component s)) = true) as H; [|by rewrite !H].
  intros s. apply forallb_forall. intros d Hd. pose proof (proj1 (forallb_forall _ _) (encoded_plain s) d Hd) as Hp.
  by apply andb_true_iff in Hp as [? _].
Qed.

Lemma form_pieces p pairs : split_chars "&" (chars (form_urlencode (p :: pairs))) = map (λ pair, chars (encode_pair pair)) (p :: pairs).
Proof.
  revert p. induction pairs as [|q pairs IH]; intros p.
  - change (form_urlencode [p]) with (encode_pair p). apply split_chars_plain, encode_pair_no_amp.
  - change (form_urlencode (p :: q :: pairs)) with (encode_pair p +:+ "&" +:+ form_urlencode (q :: pairs)).
    rewrite (chars_append (encode_pair p)) (chars_append "&"). cbn [chars list_ascii_of_string app].
    rewrite split_chars_app; [|apply encode_pair_no_amp]. by rewrite IH.
Qed.

(** A form carries exactly what was put into it: whatever characters a code, a verifier or
    any other value contains, the parser of the server reads back the same names and values. *)
Theorem form_read_back pairs : parse_form (form_urlencode pairs) = pairs.
Proof.
  destruct pairs as [|p pairs]; [done|]. unfold parse_form. rewrite form_pieces. revert p.
  enough (∀ l, map parse_pair (List.filter (λ piece, negb (is_empty piece)) (map (λ pair, chars (encode_pair pair)) l)) = l) by eauto.
  induction l as [|p l IH]; [done|]. cbn [map List.filter].
  destruct (is_empty (chars (encode_pair p))) eqn:E.
  - rewrite encode_pair_chars in E. by destruct (chars (encode_component p.1)).
  - cbn [negb map]. by rewrite parse_encoded_pair IH.
Qed.
