(* ===== verification/CodexAccounts.v ===== *)
(** * CodexAccounts: the stored OAuth accounts

    Models the statements of [codex_oauth.rs] on the table of accounts and on the upstream
    keys they belong to: saving a login, the refresh lease, the rotation of the tokens, the
    status, the quota, and reading an account. A statement is a function to its result and the
    tables; a transaction that fails leaves them unchanged. Foreign keys and uniqueness are
    enforced, as both engines do. *)
From Stdlib Require Import SpecFloat Ascii String.
From S2P Require Import Prelude Float64 Text Affinity Snapshot Headers Crypto CodexTokens.

Local Open Scope string_scope.
Local Open Scope list_scope.
Local Open Scope Z_scope.

Definition AUTH_STATUS_ACTIVE : string := "active".
Definition AUTH_STATUS_REAUTH_REQUIRED : string := "reauth_required".
Definition AUTH_STATUS_FORBIDDEN : string := "forbidden".

(** ** Records *)
Record CodexOAuthCredentials := MkCredentials {
  cr_refresh_token : string;
  cr_id_token : string;
  cr_account_id : string;
  cr_email : string
}.

Record CodexOAuthAccount := MkAccount {
  ac_upstream_key_id : Z;
  ac_provider_id : Z;
  ac_access_token : string;
  ac_credentials : CodexOAuthCredentials;
  ac_plan_type : option string;
  ac_token_expires_at_ms : option Z;
  ac_last_refresh_at_ms : option Z;
  ac_auth_status : string;
  ac_last_error : option string;
  ac_quota : option CodexQuotaSnapshot;
  ac_quota_checked_at_ms : option Z;
  ac_refresh_lease_until_ms : option Z
}.

Definition routing (a : CodexOAuthAccount) : CodexOAuthRoutingAccount := MkRoutingAccount (ac_auth_status a) (ac_quota a).

Record CodexOAuthAccountView := MkAccountView {
  av_upstream_key_id : Z;
  av_provider_id : Z;
  av_email_masked : option string;
  av_account_id_suffix : option string;
  av_plan_type : option string;
  av_token_expires_at_ms : option Z;
  av_last_refresh_at_ms : option Z;
  av_auth_status : string;
  av_last_error : option string;
  av_quota : option CodexQuotaSnapshot;
  av_quota_checked_at_ms : option Z
}.

Definition account_view (a : CodexOAuthAccount) : CodexOAuthAccountView :=
  MkAccountView (ac_upstream_key_id a) (ac_provider_id a) (mask_email (cr_email (ac_credentials a)))
    (mask_account_id (cr_account_id (ac_credentials a))) (ac_plan_type a) (ac_token_expires_at_ms a) (ac_last_refresh_at_ms a)
    (ac_auth_status a) (ac_last_error a) (ac_quota a) (ac_quota_checked_at_ms a).

Inductive CodexLoginOperation := Created | Updated.
Definition operation_str (o : CodexLoginOperation) : string := match o with Created => "created" | Updated => "updated" end.

Record SaveCodexLogin := MkSaveLogin {
  sl_provider_id : Z;
  sl_replace_key_id : option Z;
  sl_account_hash : string;
  sl_access_token : string;
  sl_refresh_token : string;
  sl_id_token : string;
  sl_account_id : string;
  sl_email : string;
  sl_plan_type : option string;
  sl_token_expires_at_ms : option Z;
  sl_now_ms : Z
}.
Record SaveCodexLoginResult := MkSaved { sr_key_id : Z; sr_operation : CodexLoginOperation }.

(** ** The tables *)
Record AccountRow := MkAccountRow {
  ar_provider_id : Z;
  ar_account_hash : string;
  ar_credentials_enc : string;
  ar_plan_type : option string;
  ar_token_expires_at_ms : option Z;
  ar_last_refresh_at_ms : option Z;
  ar_auth_status : string;
  ar_last_error : option string;
  ar_quota_json : option string;
  ar_quota_checked_at_ms : option Z;
  ar_refresh_lease_owner : option string;
  ar_refresh_lease_until_ms : option Z;
  ar_created_at_ms : Z;
  ar_updated_at_ms : Z
}.

Record KeyRow := MkKeyRow {
  kr_provider_id : Z;
  kr_name : string;
  kr_secret_enc : string;
  kr_enabled : bool;
  kr_priority : Z;
  kr_weight : Z;
  kr_created_at_ms : Z;
  kr_updated_at_ms : Z
}.

(** The providers there are, the keys with the next id, and the accounts by key. *)
Record CodexTables := MkCodexTables {
  ct_providers : gset Z;
  ct_keys : gmap Z KeyRow;
  ct_next_key : Z;
  ct_accounts : gmap Z AccountRow
}.
Definition set_ct_keys v t := MkCodexTables (ct_providers t) v (ct_next_key t) (ct_accounts t).
Definition set_ct_accounts v t := MkCodexTables (ct_providers t) (ct_keys t) (ct_next_key t) v.

Definition DbError : Type := string.
Definition constraint_failed : DbError := "constraint violation".

(** [UPDATE codex_oauth_accounts SET .. WHERE upstream_key_id = ? AND ..]: whether a row was
    updated. *)
Definition update_account (key_id : Z) (cond : AccountRow → bool) (f : AccountRow → AccountRow) (t : CodexTables) : bool * CodexTables :=
  match ct_accounts t !! key_id with
  | Some row => if cond row then (true, set_ct_accounts (<[key_id := f row]> (ct_accounts t)) t) else (false, t)
  | None => (false, t)
  end.

Definition set_secret (secret_enc : string) (now_ms : Z) (k : KeyRow) : KeyRow :=
  MkKeyRow (kr_provider_id k) (kr_name k) secret_enc (kr_enabled k) (kr_priority k) (kr_weight k) (kr_created_at_ms k) now_ms.

Definition update_key_secret (key_id : Z) (secret_enc : string) (now_ms : Z) (t : CodexTables) : CodexTables :=
  set_ct_keys (alter (set_secret secret_enc now_ms) key_id (ct_keys t)) t.

(** ** The refresh lease *)
Definition with_lease (owner : option string) (until : option Z) (now_ms : Z) (r : AccountRow) : AccountRow :=
  MkAccountRow (ar_provider_id r) (ar_account_hash r) (ar_credentials_enc r) (ar_plan_type r) (ar_token_expires_at_ms r)
    (ar_last_refresh_at_ms r) (ar_auth_status r) (ar_last_error r) (ar_quota_json r) (ar_quota_checked_at_ms r)
    owner until (ar_created_at_ms r) now_ms.

Definition lease_free (owner : string) (now_ms : Z) (r : AccountRow) : bool :=
  is_none_or (ar_refresh_lease_until_ms r) (λ until, until <=? now_ms) || is_some_and (ar_refresh_lease_owner r) (String.eqb owner).

Definition try_acquire_codex_refresh_lease (key_id : Z) (owner : string) (lease_until_ms now_ms : Z) : CodexTables → bool * CodexTables :=
  update_account key_id (lease_free owner now_ms) (with_lease (Some owner) (Some lease_until_ms) now_ms).

Definition leased_by (owner : string) (r : AccountRow) : bool := is_some_and (ar_refresh_lease_owner r) (String.eqb owner).

Definition release_codex_refresh_lease (key_id : Z) (owner : string) (now_ms : Z) (t : CodexTables) : CodexTables :=
  (update_account key_id (leased_by owner) (with_lease None None now_ms) t).2.

(** ** Status and quota *)
Definition with_status (status : string) (error : option string) (now_ms : Z) (r : AccountRow) : AccountRow :=
  MkAccountRow (ar_provider_id r) (ar_account_hash r) (ar_credentials_enc r) (ar_plan_type r) (ar_token_expires_at_ms r)
    (ar_last_refresh_at_ms r) status error (ar_quota_json r) (ar_quota_checked_at_ms r)
    (ar_refresh_lease_owner r) (ar_refresh_lease_until_ms r) (ar_created_at_ms r) now_ms.

Definition update_codex_auth_status (key_id : Z) (status : string) (error : option string) (now_ms : Z) (t : CodexTables) : CodexTables :=
  (update_account key_id (λ _, true) (with_status status (option_map sanitize_persisted_error error) now_ms) t).2.

Definition update_codex_temporary_error (key_id : Z) (error : string) (now_ms : Z) (t : CodexTables) : CodexTables :=
  (update_account key_id (λ _, true) (λ r, with_status (ar_auth_status r) (Some (sanitize_persisted_error error)) now_ms r) t).2.

Definition with_quota (quota_json : string) (now_ms : Z) (r : AccountRow) : AccountRow :=
  MkAccountRow (ar_provider_id r) (ar_account_hash r) (ar_credentials_enc r) (ar_plan_type r) (ar_token_expires_at_ms r)
    (ar_last_refresh_at_ms r) AUTH_STATUS_ACTIVE None (Some quota_json) (Some now_ms)
    (ar_refresh_lease_owner r) (ar_refresh_lease_until_ms r) (ar_created_at_ms r) now_ms.

(** ** Secrets and records as text *)

(** The readers and printers derived by [serde]. *)
Class AccountLib := {
  credentials_to_string : CodexOAuthCredentials → string + string;
  credentials_from_str : string → CodexOAuthCredentials + string;
  quota_to_string : CodexQuotaSnapshot → string + string;
  quota_from_str : string → CodexQuotaSnapshot + string
}.

(** What is printed is text, and is read back. *)
Class AccountOk `{AccountLib} := {
  credentials_read_back c s : credentials_to_string c = inl s → credentials_from_str s = inl c ∧ from_utf8 s = Some s;
  quota_read_back q s : quota_to_string q = inl s → quota_from_str s = inl q
}.

Section Accounts.
Context `{CryptoLib, AccountLib} (master_key : string).

Definition update_codex_quota_success (key_id : Z) (quota : CodexQuotaSnapshot) (now_ms : Z) (t : CodexTables)
    : (unit + DbError) * CodexTables :=
  match quota_to_string quota with
  | inr error => (inr ("encode Codex quota failed: " +:+ error), t)
  | inl quota_json => (inl tt, (update_account key_id (λ _, true) (with_quota quota_json now_ms) t).2)
  end.

Definition encrypt_token (nonce : list Z) (access_token : string) : string + DbError :=
  map_err (λ error, "encrypt Codex access token failed: " +:+ error) (encrypt_secret nonce master_key access_token).

Definition encrypt_credentials (nonce : list Z) (c : CodexOAuthCredentials) : string + DbError :=
  let? json := map_err (λ error, "encode Codex credentials failed: " +:+ error) (credentials_to_string c) in
  map_err (λ error, "encrypt Codex credentials failed: " +:+ error) (encrypt_secret nonce master_key json).

(** *** Reading an account *)
Definition decode_account_fields (key_id : Z) (secret_enc : string) (r : AccountRow) : CodexOAuthAccount + DbError :=
  let? access_token := map_err (λ error, "decrypt Codex access token failed: " +:+ error) (decrypt_secret master_key secret_enc) in
  let? credentials_json := map_err (λ error, "decrypt Codex credentials failed: " +:+ error)
                             (decrypt_secret master_key (ar_credentials_enc r)) in
  let? credentials := map_err (λ error, "decode Codex credentials failed: " +:+ error) (credentials_from_str credentials_json) in
  let? quota :=
    match ar_quota_json r with
    | None => inl None
    | Some json => map_err (λ error, "decode Codex quota failed: " +:+ error) (let? q := quota_from_str json in inl (Some q))
    end in
  inl (MkAccount key_id (ar_provider_id r) access_token credentials (ar_plan_type r) (ar_token_expires_at_ms r)
         (ar_last_refresh_at_ms r) (ar_auth_status r) (ar_last_error r) quota (ar_quota_checked_at_ms r)
         (ar_refresh_lease_until_ms r)).

(** The join of an account with its key. *)
Definition joined (t : CodexTables) (key_id : Z) : option (KeyRow * AccountRow) :=
  match ct_accounts t !! key_id, ct_keys t !! key_id with
  | Some account, Some key => Some (key, account)
  | _, _ => None
  end.

Definition find_codex_oauth_account (key_id : Z) (t : CodexTables) : option CodexOAuthAccount + DbError :=
  match joined t key_id with
  | None => inl None
  | Some (key, row) => let? account := decode_account_fields key_id (kr_secret_enc key) row in inl (Some account)
  end.

Fixpoint collect {A} (l : list (A + DbError)) : list A + DbError :=
  match l with
  | [] => inl []
  | r :: l => let? a := r in let? rest := collect l in inl (a :: rest)
  end.

Definition list_codex_oauth_accounts (t : CodexTables) : list CodexOAuthAccount + DbError :=
  let rows := omap (λ '(key_id, row), option_map (λ key, (key_id, kr_secret_enc key, row)) (ct_keys t !! key_id))
                (map_to_list (ct_accounts t)) in
  let sorted := sort_by_key2 (λ '(key_id, _, row), (ar_provider_id row, key_id)) rows in
  collect (map (λ '(key_id, secret_enc, row), decode_account_fields key_id secret_enc row) sorted).

Definition list_codex_oauth_account_views (provider_id : Z) (t : CodexTables) : gmap Z CodexOAuthAccountView + DbError :=
  let? accounts := list_codex_oauth_accounts t in
  inl (list_to_map (map (λ a, (ac_upstream_key_id a, account_view a))
         (List.filter (λ a, ac_provider_id a =? provider_id) accounts))).

(** *** Rotating the tokens *)
Definition rotated (credentials_enc : string) (plan_type : option string) (token_expires_at_ms : option Z) (auth_status : string)
    (last_error : option string) (now_ms : Z) (r : AccountRow) : AccountRow :=
  MkAccountRow (ar_provider_id r) (ar_account_hash r) credentials_enc plan_type token_expires_at_ms (Some now_ms)
    auth_status last_error (ar_quota_json r) (ar_quota_checked_at_ms r) None None (ar_created_at_ms r) now_ms.

Definition persist_codex_token_refresh (token_nonce credentials_nonce : list Z) (key_id : Z) (owner access_token : string)
    (credentials : CodexOAuthCredentials) (plan_type : option string) (token_expires_at_ms : option Z) (auth_status : string)
    (last_error : option string) (now_ms : Z) (t : CodexTables) : (bool + DbError) * CodexTables :=
  match encrypt_token token_nonce access_token, encrypt_credentials credentials_nonce credentials with
  | inr e, _ | _, inr e => (inr e, t)
  | inl access_token_enc, inl credentials_enc =>
      let last_error := option_map sanitize_persisted_error last_error in
      match update_account key_id (leased_by owner)
              (rotated credentials_enc plan_type token_expires_at_ms auth_status last_error now_ms) t with
      | (false, _) => (inl false, t)
      | (true, t') => (inl true, update_key_secret key_id access_token_enc now_ms t')
      end
  end.

(** *** Saving a login *)

(** The key the account is attached to; uniqueness leaves at most one. *)
Definition attached_key (provider_id : Z) (account_hash : string) (t : CodexTables) : option Z :=
  head (map fst (List.filter (λ '(_, row), (ar_provider_id row =? provider_id) && String.eqb (ar_account_hash row) account_hash)
                   (map_to_list (ct_accounts t)))).

(** The key a login goes to; a new one is inserted. *)
Definition login_key (input : SaveCodexLogin) (default_name access_token_enc : string) (t : CodexTables)
    : (Z * CodexLoginOperation * CodexTables) + DbError :=
  let existing := attached_key (sl_provider_id input) (sl_account_hash input) t in
  match sl_replace_key_id input with
  | Some replace_key_id =>
      match ct_keys t !! replace_key_id with
      | None => inr "replacement upstream key not found"
      | Some owner =>
          if negb (kr_provider_id owner =? sl_provider_id input) then inr "replacement upstream key belongs to another provider"
          else if is_some_and existing (λ existing, negb (existing =? replace_key_id))
          then inr "Codex account is already attached to another key"
          else inl (replace_key_id, Updated, t)
      end
  | None =>
      match existing with
      | Some existing => inl (existing, Updated, t)
      | None =>
          if bool_decide (sl_provider_id input ∈ ct_providers t) then
            let id := ct_next_key t in
            inl (id, Created,
              MkCodexTables (ct_providers t)
                (<[id := MkKeyRow (sl_provider_id input) default_name access_token_enc true 100 1 (sl_now_ms input) (sl_now_ms input)]>
                   (ct_keys t)) (id + 1) (ct_accounts t))
          else inr constraint_failed
      end
  end.

(** The row of a login: an account that was there keeps its quota and its creation time. *)
Definition login_row (input : SaveCodexLogin) (credentials_enc : string) (old : option AccountRow) : AccountRow :=
  MkAccountRow (sl_provider_id input) (sl_account_hash input) credentials_enc (sl_plan_type input) (sl_token_expires_at_ms input)
    (Some (sl_now_ms input)) AUTH_STATUS_ACTIVE None (opt_bind old ar_quota_json) (opt_bind old ar_quota_checked_at_ms) None None
    (match old with Some r => ar_created_at_ms r | None => sl_now_ms input end) (sl_now_ms input).

Definition upsert_account (input : SaveCodexLogin) (credentials_enc : string) (key_id : Z) (t : CodexTables) : CodexTables + DbError :=
  if bool_decide (sl_provider_id input ∈ ct_providers t) && is_some (ct_keys t !! key_id)
     && is_none_or (attached_key (sl_provider_id input) (sl_account_hash input) t) (λ other, other =? key_id)
  then inl (set_ct_accounts (<[key_id := login_row input credentials_enc (ct_accounts t !! key_id)]> (ct_accounts t)) t)
  else inr constraint_failed.

(** The transaction. *)
Definition save_codex_login (input : SaveCodexLogin) (default_name access_token_enc credentials_enc : string) (t : CodexTables)
    : (SaveCodexLoginResult + DbError) * CodexTables :=
  match (let? r := login_key input default_name access_token_enc t in
         let '(key_id, operation, t1) := r in
         let? t2 := upsert_account input credentials_enc key_id (update_key_secret key_id access_token_enc (sl_now_ms input) t1) in
         inl (MkSaved key_id operation, t2)) with
  | inl (saved, t') => (inl saved, t')
  | inr e => (inr e, t)
  end.

Definition login_credentials (input : SaveCodexLogin) : CodexOAuthCredentials :=
  MkCredentials (sl_refresh_token input) (sl_id_token input) (sl_account_id input) (sl_email input).

Definition save_codex_oauth_login (token_nonce credentials_nonce : list Z) (input : SaveCodexLogin) (t : CodexTables)
    : (SaveCodexLoginResult + DbError) * CodexTables :=
  match encrypt_token token_nonce (sl_access_token input), encrypt_credentials credentials_nonce (login_credentials input) with
  | inr e, _ | _, inr e => (inr e, t)
  | inl access_token_enc, inl credentials_enc =>
      save_codex_login input (default_account_name (sl_email input) (sl_account_id input)) access_token_enc credentials_enc t
  end.
End Accounts.

(** ** The invariant of the tables *)

(** An account belongs to a key of its provider, an account of the service to one key of a
    provider, and the next id is free. *)
Record tables_ok (t : CodexTables) : Prop := {
  ok_joined k a : ct_accounts t !! k = Some a →
    ar_provider_id a ∈ ct_providers t ∧ ∃ key, ct_keys t !! k = Some key ∧ kr_provider_id key = ar_provider_id a;
  ok_unique k k' a a' : ct_accounts t !! k = Some a → ct_accounts t !! k' = Some a' →
    ar_provider_id a = ar_provider_id a' → ar_account_hash a = ar_account_hash a' → k = k';
  ok_keys k key : ct_keys t !! k = Some key → k < ct_next_key t ∧ kr_provider_id key ∈ ct_providers t
}.

Definition attached (provider_id : Z) (account_hash : string) (t : CodexTables) (k : Z) : Prop :=
  ∃ a, ct_accounts t !! k = Some a ∧ ar_provider_id a = provider_id ∧ ar_account_hash a = account_hash.

Lemma attached_key_elem p h t k : attached_key p h t = Some k → attached p h t k.
Proof.
  intros Hk. apply head_Some_elem_of in Hk. apply list_elem_of_In, in_map_iff in Hk as ([k' a] & <- & Hin).
  apply filter_In in Hin as [Hin [Hp Hh%String.eqb_eq]%andb_true_iff]. exists a.
  split; [by apply elem_of_map_to_list, list_elem_of_In|]. split; [lia|done].
Qed.

Lemma attached_key_none p h t k : attached_key p h t = None → ¬ attached p h t k.
Proof.
  intros Hn (a & Ha & <- & <-). unfold attached_key in Hn.
  assert ((k, a) ∈ List.filter (λ '(_, row), (ar_provider_id row =? ar_provider_id a) && String.eqb (ar_account_hash row) (ar_account_hash a))
            (map_to_list (ct_accounts t))) as Hin.
  { apply list_elem_of_In, filter_In. split; [by apply list_elem_of_In, elem_of_map_to_list|].
    by rewrite Z.eqb_refl String.eqb_refl. }
  destruct (List.filter _ _); [by apply not_elem_of_nil in Hin|done].
Qed.

Lemma attached_key_spec t p h k : tables_ok t → attached_key p h t = Some k ↔ attached p h t k.
Proof.
  intros Hok. split; [apply attached_key_elem|]. intros Ha. destruct (attached_key p h t) as [k'|] eqn:E.
  - apply attached_key_elem in E as (a' & Ha' & Hp' & Hh'). destruct Ha as (a & Ha & Hp & Hh). f_equal.
    apply (ok_unique _ Hok k' k a' a); congruence.
  - by apply (attached_key_none _ _ _ k) in E.
Qed.

(** Updating a row in place, its provider and hash kept, keeps the invariant. *)
Lemma update_account_lookup key_id cond f t k :
  ct_accounts (update_account key_id cond f t).2 !! k =
    (if bool_decide (k = key_id) && is_some_and (ct_accounts t !! key_id) cond
     then option_map f (ct_accounts t !! key_id) else ct_accounts t !! k).
Proof.
  unfold update_account. case_bool_decide as E; cbn [andb].
  - subst k. destruct (ct_accounts t !! key_id) as [row|] eqn:Er; [|done]. cbn. destruct (cond row); [|done].
    by rewrite lookup_insert_eq.
  - destruct (ct_accounts t !! key_id) as [row|]; [|done]. destruct (cond row); [|done]. by rewrite lookup_insert_ne.
Qed.

Lemma update_account_others key_id cond f t :
  ct_keys (update_account key_id cond f t).2 = ct_keys t ∧ ct_providers (update_account key_id cond f t).2 = ct_providers t
  ∧ ct_next_key (update_account key_id cond f t).2 = ct_next_key t.
Proof. unfold update_account. destruct (ct_accounts t !! key_id) as [row|]; [|done]. by destruct (cond row). Qed.

Lemma update_account_hit key_id cond f t :
  (update_account key_id cond f t).1 = is_some_and (ct_accounts t !! key_id) cond.
Proof. unfold update_account. destruct (ct_accounts t !! key_id) as [row|]; [|done]. cbn. by destruct (cond row). Qed.

Lemma update_account_ok key_id cond f t :
  (∀ r, ar_provider_id (f r) = ar_provider_id r ∧ ar_account_hash (f r) = ar_account_hash r) →
  tables_ok t → tables_ok (update_account key_id cond f t).2.
Proof.
  intros Hf [Hj Hu Hk]. destruct (update_account_others key_id cond f t) as (Ek & Ep & En).
  assert (∀ k a, ct_accounts (update_account key_id cond f t).2 !! k = Some a →
    ∃ a0, ct_accounts t !! k = Some a0 ∧ ar_provider_id a = ar_provider_id a0 ∧ ar_account_hash a = ar_account_hash a0) as Hs.
  { intros k a. rewrite update_account_lookup. case_bool_decide as E; cbn [andb]; [|eauto]. subst k.
    destruct (ct_accounts t !! key_id) as [row|] eqn:Er; [|done]. cbn. destruct (cond row); [|intros [= <-]; eauto].
    intros [= <-]. exists row. by destruct (Hf row). }
  split; rewrite ?Ek ?Ep ?En; [|intros k k' a a' (b & Hb & Ep1 & Eh1)%Hs (b' & Hb' & Ep2 & Eh2)%Hs ??; apply (Hu k k' b b'); congruence|done].
  intros k a (b & Hb & Epb & _)%Hs. destruct (Hj k b Hb) as (? & key & Hkey & ?). rewrite Epb. split; [done|]. exists key. split; congruence.
Qed.

Lemma update_secret_ok key_id secret now t : tables_ok t → tables_ok (update_key_secret key_id secret now t).
Proof.
  intros [Hj Hu Hk]. split; cbn [update_key_secret set_ct_keys ct_accounts ct_keys ct_providers ct_next_key]; [|done|].
  - intros k a Ha. destruct (Hj k a Ha) as (? & key & Hkey & ?). split; [done|].
    destruct (decide (k = key_id)) as [->|Hne]; [|exists key; by rewrite lookup_alter_ne].
    exists (set_secret secret now key). rewrite lookup_alter_eq Hkey. done.
  - intros k key. destruct (decide (k = key_id)) as [->|Hne]; [|rewrite lookup_alter_ne //; apply Hk].
    rewrite lookup_alter_eq. destruct (ct_keys t !! key_id) as [k0|] eqn:E0; [|done]. cbn. intros [= <-]. by apply (Hk _ _ E0).
Qed.

(** ** Saving a login *)
Section Login.
Context `{CryptoOk, AccountOk} (master_key : string).

(** A login can be saved when its key is of the provider and the account on no other key. *)
Definition login_possible (input : SaveCodexLogin) (t : CodexTables) : Prop :=
  match sl_replace_key_id input with
  | Some k => (∃ key, ct_keys t !! k = Some key ∧ kr_provider_id key = sl_provider_id input)
              ∧ ∀ k', attached (sl_provider_id input) (sl_account_hash input) t k' → k' = k
  | None => sl_provider_id input ∈ ct_providers t
  end.

(** The key it goes to: the replaced one, the one the account is on, or a new one. *)
Definition login_target (input : SaveCodexLogin) (t : CodexTables) (k : Z) : Prop :=
  match sl_replace_key_id input with
  | Some r => k = r
  | None => attached (sl_provider_id input) (sl_account_hash input) t k
            ∨ (∀ k', ¬ attached (sl_provider_id input) (sl_account_hash input) t k') ∧ k = ct_next_key t
  end.

Record login_effect (input : SaveCodexLogin) (secret_enc credentials_enc : string) (t t' : CodexTables) (k : Z) : Prop := {
  le_ok : tables_ok t';
  le_target : login_target input t k;
  le_row : ct_accounts t' !! k = Some (login_row input credentials_enc (ct_accounts t !! k));
  le_key : ∃ key, ct_keys t' !! k = Some key ∧ kr_secret_enc key = secret_enc;
  le_others k' : k' ≠ k → ct_accounts t' !! k' = ct_accounts t !! k' ∧ ct_keys t' !! k' = ct_keys t !! k';
  le_settings key : ct_keys t !! k = Some key → ∃ key', ct_keys t' !! k = Some key'
    ∧ (kr_name key', kr_enabled key', kr_priority key', kr_weight key') = (kr_name key, kr_enabled key, kr_priority key, kr_weight key)
}.

Lemma login_written input secret credentials t t1 k :
  tables_ok t1 → sl_provider_id input ∈ ct_providers t1 →
  (∃ key, ct_keys t1 !! k = Some key ∧ kr_provider_id key = sl_provider_id input) →
  (∀ k', attached (sl_provider_id input) (sl_account_hash input) t1 k' → k' = k) →
  login_target input t k → ct_accounts t1 = ct_accounts t →
  (∀ k', k' ≠ k → ct_keys t1 !! k' = ct_keys t !! k') →
  (∀ key, ct_keys t !! k = Some key → ct_keys t1 !! k = Some key) →
  ∃ t', upsert_account input credentials k (update_key_secret k secret (sl_now_ms input) t1) = inl t'
        ∧ login_effect input secret credentials t t' k.
Proof.
  intros Hok Hp (key & Hkey & Hkp) Hu Ht Ea Ek Es. pose proof (update_secret_ok k secret (sl_now_ms input) t1 Hok) as Hok2.
  set (t2 := update_key_secret k secret (sl_now_ms input) t1) in *.
  assert (ct_keys t2 !! k = Some (set_secret secret (sl_now_ms input) key)) as Hk2 by (cbn; by rewrite lookup_alter_eq Hkey).
  exists (set_ct_accounts (<[k := login_row input credentials (ct_accounts t !! k)]> (ct_accounts t2)) t2). split.
  { unfold upsert_account. rewrite bool_decide_eq_true_2 // Hk2 /= -Ea.
    destruct (attached_key _ _ t2) as [k'|] eqn:E; cbn; [|done]. apply attached_key_elem, Hu in E as ->. by rewrite Z.eqb_refl. }
  split; cbn [set_ct_accounts ct_accounts ct_keys]; [|done|by rewrite lookup_insert_eq|eauto| |].
  - destruct Hok2 as [Hj Hun Hks]. split; cbn [set_ct_accounts ct_accounts ct_keys ct_providers ct_next_key]; [| |done].
    + intros k' a. rewrite lookup_insert_Some. intros [[<- <-]|[_ Ha]]; [|by apply Hj]. cbn. split; [done|]. eauto.
    + intros k1 k2 a1 a2. rewrite !lookup_insert_Some. intros [[<- <-]|[Hn1 Ha1]] [[<- <-]|[Hn2 Ha2]]; cbn; [done| | |by apply Hun].
      * intros E1 E2. symmetry. apply Hu. by exists a2.
      * intros E1 E2. apply Hu. by exists a1.
  - intros k' Hne. rewrite lookup_insert_ne //. cbn. rewrite Ea lookup_alter_ne //. split; [done|by apply Ek].
  - intros key0 Hkey0. pose proof (Es _ Hkey0) as Hs. rewrite Hkey in Hs. injection Hs as ->. eexists. split; [exact Hk2|done].
Qed.

Lemma key_not_next t k key : tables_ok t → ct_keys t !! k = Some key → k ≠ ct_next_key t.
Proof. intros Hok Hk%(ok_keys _ Hok). lia. Qed.

Lemma fresh_key_ok t key : tables_ok t → kr_provider_id key ∈ ct_providers t →
  tables_ok (MkCodexTables (ct_providers t) (<[ct_next_key t := key]> (ct_keys t)) (ct_next_key t + 1) (ct_accounts t)).
Proof.
  intros Hok Hp. split; cbn; [| |].
  - intros k a Ha. destruct (ok_joined _ Hok k a Ha) as (? & key' & Hk' & ?). split; [done|]. exists key'.
    rewrite lookup_insert_ne //. by apply not_eq_sym, (key_not_next t k key').
  - apply (ok_unique _ Hok).
  - intros k key'. rewrite lookup_insert_Some. intros [[<- <-]|[_ Hk']]; [split; [lia|done]|].
    apply (ok_keys _ Hok) in Hk' as [? ?]. split; [lia|done].
Qed.

Lemma login_existing input secret credentials t k key : tables_ok t →
  ct_keys t !! k = Some key → kr_provider_id key = sl_provider_id input →
  (∀ k', attached (sl_provider_id input) (sl_account_hash input) t k' → k' = k) → login_target input t k →
  ∃ t', upsert_account input credentials k (update_key_secret k secret (sl_now_ms input) t) = inl t'
        ∧ login_effect input secret credentials t t' k.
Proof.
  intros Hok Hk Hp Hu Ht. apply login_written; [done| |by exists key|done..]. rewrite -Hp. by apply (ok_keys _ Hok k).
Qed.

Lemma login_new input secret credentials t name :
  let key := MkKeyRow (sl_provider_id input) name secret true 100 1 (sl_now_ms input) (sl_now_ms input) in
  tables_ok t → sl_replace_key_id input = None → sl_provider_id input ∈ ct_providers t →
  (∀ k', ¬ attached (sl_provider_id input) (sl_account_hash input) t k') →
  ∃ t', upsert_account input credentials (ct_next_key t) (update_key_secret (ct_next_key t) secret (sl_now_ms input)
          (MkCodexTables (ct_providers t) (<[ct_next_key t := key]> (ct_keys t)) (ct_next_key t + 1) (ct_accounts t))) = inl t'
        ∧ login_effect input secret credentials t t' (ct_next_key t).
Proof.
  intros key Hok Er Hp Hu. apply login_written.
  - by apply fresh_key_ok.
  - done.
  - exists key. cbn. by rewrite lookup_insert_eq.
  - intros k' Ha. by destruct (Hu k').
  - unfold login_target. rewrite Er. by right.
  - done.
  - intros k' Hne. cbn. by rewrite lookup_insert_ne.
  - intros key' Hk'. by apply key_not_next in Hk'.
Qed.

(** A login as a transaction: it is saved exactly when it is possible, and then this is its
    effect; uniqueness and foreign keys never refuse it. *)
Definition login_outcome (input : SaveCodexLogin) (secret credentials : string) (t : CodexTables)
    (r : (SaveCodexLoginResult + DbError) * CodexTables) : Prop :=
  match r with
  | (inl saved, t') => login_possible input t ∧ login_effect input secret credentials t t' (sr_key_id saved)
      ∧ (sr_operation saved = Created ↔ ct_keys t !! sr_key_id saved = None)
  | (inr _, t') => ¬ login_possible input t ∧ t' = t
  end.

Lemma save_replacing input name secret credentials t r : tables_ok t → sl_replace_key_id input = Some r →
  login_outcome input secret credentials t (save_codex_login input name secret credentials t).
Proof.
  intros Hok Er. unfold save_codex_login, login_key. rewrite Er.
  destruct (ct_keys t !! r) as [owner|] eqn:Eo; cbn [res_bind].
  2:{ split; [|done]. unfold login_possible. rewrite Er Eo. by intros [(key & [=] & _) _]. }
  destruct (Z.eqb_spec (kr_provider_id owner) (sl_provider_id input)) as [Ep|Ep]; cbn [negb].
  2:{ split; [|done]. unfold login_possible. rewrite Er Eo. by intros [(key & [= <-] & ?) _]. }
  destruct (is_some_and _ _) eqn:Ea; cbn [res_bind].
  - apply is_some_and_true in Ea as (e & Ea & Hne). split; [|done]. unfold login_possible. rewrite Er.
    intros [_ Hu]. apply attached_key_elem, Hu in Ea as ->. by rewrite Z.eqb_refl in Hne.
  - assert (∀ k', attached (sl_provider_id input) (sl_account_hash input) t k' → k' = r) as Hu.
    { intros k' Ha%(attached_key_spec _ _ _ _ Hok). rewrite Ha in Ea. cbn in Ea. lia. }
    destruct (login_existing input secret credentials t r owner Hok Eo Ep Hu) as (t' & -> & He); [unfold login_target; by rewrite Er|].
    cbn. split_and!; [unfold login_possible; rewrite Er; eauto|done|by rewrite Eo].
Qed.

Lemma save_attaching input name secret credentials t : tables_ok t → sl_replace_key_id input = None →
  login_outcome input secret credentials t (save_codex_login input name secret credentials t).
Proof.
  intros Hok Er. unfold save_codex_login, login_key. rewrite Er.
  destruct (attached_key _ _ t) as [e|] eqn:Ea; cbn [res_bind].
  - apply (attached_key_spec _ _ _ _ Hok) in Ea. pose proof Ea as (a & Ha & Hpa & Hha).
    destruct (ok_joined _ Hok e a Ha) as (Hp & key & Hk & Hkp).
    destruct (login_existing input secret credentials t e key Hok Hk) as (t' & -> & He).
    + congruence.
    + intros k' (a' & Ha' & Hpa' & Hha'). apply (ok_unique _ Hok k' e a' a); congruence.
    + unfold login_target. rewrite Er. by left.
    + cbn. split_and!; [unfold login_possible; rewrite Er; congruence|done|by rewrite Hk].
  - case_bool_decide as Hp; cbn [res_bind].
    + destruct (login_new input secret credentials t name Hok Er Hp) as (t' & -> & He); [intros k'; by apply attached_key_none|].
      cbn. split_and!; [unfold login_possible; by rewrite Er|done|]. split; [intros _|done].
      apply eq_None_not_Some. intros [key Hk]. by apply (key_not_next t _ _ Hok Hk).
    + split; [|done]. unfold login_possible. by rewrite Er.
Qed.

Lemma save_login_spec input name secret credentials t : tables_ok t →
  login_outcome input secret credentials t (save_codex_login input name secret credentials t).
Proof. intros Hok. destruct (sl_replace_key_id input) as [r|] eqn:Er; [by eapply save_replacing|by apply save_attaching]. Qed.

(** What the tables hold can be read: the quotas of the accounts decode. *)
Definition quotas_readable (t : CodexTables) : Prop :=
  ∀ k a json, ct_accounts t !! k = Some a → ar_quota_json a = Some json → ∃ q, quota_from_str json = inl q.

(** The bytes of a nonce. *)
Definition nonce_ok (nonce : list Z) : Prop := len nonce = 12 ∧ Forall is_byte nonce.

Lemma encrypt_token_decrypts nonce token enc : nonce_ok nonce → from_utf8 token = Some token →
  encrypt_token master_key nonce token = inl enc → decrypt_secret master_key enc = inl token.
Proof. intros [Hn Hb] Hu He%map_err_inl. by eapply decrypt_encrypted. Qed.

Lemma encrypt_credentials_decrypts nonce c enc : nonce_ok nonce → encrypt_credentials master_key nonce c = inl enc →
  ∃ json, decrypt_secret master_key enc = inl json ∧ credentials_from_str json = inl c.
Proof.
  intros [Hn Hb] (json & Hj%map_err_inl & He%map_err_inl)%res_bind_inl. apply credentials_read_back in Hj as [Hj Hu].
  exists json. split; [by eapply decrypt_encrypted|done].
Qed.

(** C27. A login is saved exactly when its provider exists and, for a key that is signed in
    again, the key belongs to the provider and the account is on no other key; otherwise nothing
    changes. Once saved, the account that is read has the tokens of the login and is active,
    whatever its state was; the key keeps its name, priority and weight, and no other account
    or key changes. *)
Theorem login_saved_exactly n1 n2 input t : tables_ok t → quotas_readable t →
  nonce_ok n1 → nonce_ok n2 → from_utf8 (sl_access_token input) = Some (sl_access_token input) →
  is_ok (encrypt_token master_key n1 (sl_access_token input)) = true → is_ok (encrypt_credentials master_key n2 (login_credentials input)) = true →
  match save_codex_oauth_login master_key n1 n2 input t with
  | (inr _, t') => ¬ login_possible input t ∧ t' = t
  | (inl saved, t') =>
      login_possible input t ∧ tables_ok t' ∧ login_target input t (sr_key_id saved)
      ∧ (sr_operation saved = Created ↔ ct_keys t !! sr_key_id saved = None)
      ∧ (∃ a, find_codex_oauth_account master_key (sr_key_id saved) t' = inl (Some a)
         ∧ ac_access_token a = sl_access_token input ∧ ac_credentials a = login_credentials input
         ∧ ac_auth_status a = AUTH_STATUS_ACTIVE ∧ ac_refresh_lease_until_ms a = None)
      ∧ (∀ key, ct_keys t !! sr_key_id saved = Some key → ∃ key', ct_keys t' !! sr_key_id saved = Some key'
         ∧ (kr_name key', kr_enabled key', kr_priority key', kr_weight key') = (kr_name key, kr_enabled key, kr_priority key, kr_weight key))
      ∧ ∀ k, k ≠ sr_key_id saved → ct_accounts t' !! k = ct_accounts t !! k ∧ ct_keys t' !! k = ct_keys t !! k
  end.
Proof.
  intros Hok Hq Hn1 Hn2 Hu He1 He2. unfold save_codex_oauth_login.
  destruct (encrypt_token _ _ _) as [secret|] eqn:E1; [|done]. destruct (encrypt_credentials _ _ _) as [enc|] eqn:E2; [|done].
  pose proof (save_login_spec input (default_account_name (sl_email input) (sl_account_id input)) secret enc t Hok) as Hs.
  destruct (save_codex_login _ _ _ _ t) as [[saved|e] t']; [|done]. destruct Hs as (Hl & [Hok' Ht Hr (key & Hk & Hks) Ho Hset] & Hop).
  split_and!; try done. unfold find_codex_oauth_account, joined. rewrite Hr Hk. unfold decode_account_fields.
  rewrite Hks (encrypt_token_decrypts n1 _ _ Hn1 Hu E1). cbn [map_err res_bind].
  destruct (encrypt_credentials_decrypts n2 _ _ Hn2 E2) as (json & Hd & Hc). cbn [login_row ar_credentials_enc]. rewrite Hd. cbn [map_err res_bind].
  rewrite Hc. cbn [map_err res_bind login_row ar_quota_json].
  destruct (ct_accounts t !! sr_key_id saved) as [old|] eqn:Eo; cbn [opt_bind]; [|by eexists].
  destruct (ar_quota_json old) as [qj|] eqn:Eq; [|by eexists]. destruct (Hq _ _ _ Eo Eq) as [q ->]. by eexists.
Qed.
End Login.

(** ** Examples *)
#[export] Instance credentials_eq_dec : EqDecision CodexOAuthCredentials.
Proof. solve_decision. Defined.

Definition example_credentials : CodexOAuthCredentials := MkCredentials "refresh-1" "a.b.c" "account-1" "ada@example.org".

(** The same account after its tokens were rotated. *)
Definition rotated_credentials : CodexOAuthCredentials := MkCredentials "refresh-2" "a.b.c" "account-1" "ada@example.org".

(** A printer for the two records of the examples. *)
Definition example_account_lib : AccountLib := {|
  credentials_to_string c := if decide (c = example_credentials) then inl "{1}" else if decide (c = rotated_credentials) then inl "{2}" else inr "unknown";
  credentials_from_str s := if String.eqb s "{1}" then inl example_credentials else if String.eqb s "{2}" then inl rotated_credentials else inr "unknown";
  quota_to_string _ := inr "unknown";
  quota_from_str _ := inr "unknown" |}.

Lemma example_account_ok : @AccountOk example_account_lib.
Proof.
  split; cbn; [|done]. intros c s. destruct (decide _) as [->|]; [intros [= <-]; by split|].
  destruct (decide _) as [->|]; [|done]. intros [= <-]. by split.
Qed.

Definition example_login (replace : option Z) : SaveCodexLogin :=
  MkSaveLogin 7 replace "hash-1" "access-1" "refresh-1" "a.b.c" "account-1" "ada@example.org" (Some "plus") (Some 3600000) 0.
Definition example_nonce : list Z := [1; 2; 3; 4; 5; 6; 7; 8; 9; 10; 11; 12].

Definition example_tables : CodexTables :=
  MkCodexTables {[7]} {[3 := MkKeyRow 7 "work" "old" false 5 2 0 0]} 4
    {[3 := MkAccountRow 7 "hash-1" "old" None None None AUTH_STATUS_REAUTH_REQUIRED (Some "sign in") None None (Some "elsewhere") (Some 9) 0 0]}.

Lemma example_tables_ok : tables_ok example_tables.
Proof.
  split; cbn.
  - intros k a [<- <-]%lookup_singleton_Some. split; [set_solver|]. eexists. split; [by apply lookup_singleton_Some|done].
  - intros k k' a a' [<- <-]%lookup_singleton_Some [<- <-]%lookup_singleton_Some. done.
  - intros k key [<- <-]%lookup_singleton_Some. cbn. split; [lia|set_solver].
Qed.

Lemma login_saved_exactly_witness :
  ∃ saved t', @save_codex_oauth_login plain_crypto example_account_lib "master" example_nonce example_nonce (example_login None) example_tables
              = (inl saved, t')
    ∧ sr_key_id saved = 3 ∧ tables_ok t'
    ∧ ∃ a, @find_codex_oauth_account plain_crypto example_account_lib "master" 3 t' = inl (Some a) ∧ ac_auth_status a = "active".
Proof.
  destruct (@save_codex_oauth_login plain_crypto example_account_lib "master" example_nonce example_nonce (example_login None) example_tables)
    as [[saved|e] t'] eqn:E; [|by vm_compute in E].
  assert (sr_key_id saved = 3) as Hk by (by vm_compute in E; injection E as <- _).
  assert (nonce_ok example_nonce) as Hn by (split; [done|]; repeat constructor; done).
  assert (@quotas_readable example_account_lib example_tables) as Hq.
  { intros k a json Ha. cbn in Ha. apply lookup_singleton_Some in Ha as [_ <-]. done. }
  pose proof (@login_saved_exactly plain_crypto plain_crypto_ok example_account_lib example_account_ok "master" example_nonce example_nonce
    (example_login None) example_tables example_tables_ok Hq Hn Hn eq_refl eq_refl eq_refl) as H. rewrite E Hk in H.
  destruct H as (_ & Hok & _ & _ & (a & Hf & _ & _ & Hs & _) & _). exists saved, t'. split_and!; try done. by exists a.
Defined.
