(* ===== verification/CodexRefresh.v ===== *)
(** * CodexRefresh: valid tokens, the quota and the models of an account

    Models the operations of [codex_oauth.rs] on an account that is signed in:
    [prepare_auth_with_status] with the refresh of the tokens under a lease, [refresh_quota],
    [fetch_models], and what follows a login. A task runs in a monad over the tables and the
    quota book; before each of its statements other tasks may change both, and a statement may
    fail, with or without having taken effect. The clock, the answers of the service and what
    is drawn at random come from the world. *)
From Stdlib Require Import SpecFloat Ascii String.
From S2P Require Import Prelude Float64 Text Json Snapshot Quota Headers CodexRequests Crypto CodexTokens CodexAccounts Computation.

Local Open Scope string_scope.
Local Open Scope list_scope.
Local Open Scope Z_scope.
Local Open Scope loop_scope.

Definition REFRESH_LEEWAY_MS : Z := 60000.
Definition REFRESH_LEASE_MS : Z := 30000.
Definition REFRESH_LEASE_WAIT_ATTEMPTS : nat := 20.

(** ** The world and the state *)
Inductive Fault := Lost (e : DbError) | Unacknowledged (e : DbError).

(** What tasks share: the tables and the quota book. *)
Record OAuthShared := MkShared { sh_tables : CodexTables; sh_quota : QuotaBook }.

(** Everything that comes from outside, by the time it is asked for. *)
Record OAuthWorld := MkOAuthWorld {
  ow_clock : nat → Z;
  ow_answer : nat → Transmission;
  ow_others : nat → OAuthShared → OAuthShared;
  ow_fault : nat → option Fault;
  ow_ulid : nat → string;
  ow_nonce : nat → list Z;
  ow_models_saved : unit + DbError
}.

(** The state of a task: what is shared, the time, and what it has done: the requests it has
    sent, the last first, and how often it has invalidated the snapshot. *)
Record OAuthState := MkOAuthState {
  os_shared : OAuthShared;
  os_time : nat;
  os_sent : list OAuthRequest;
  os_invalidated : nat
}.
Definition os_tables (s : OAuthState) : CodexTables := sh_tables (os_shared s).
Definition set_os_tables (t : CodexTables) (s : OAuthState) : OAuthState :=
  MkOAuthState (MkShared t (sh_quota (os_shared s))) (os_time s) (os_sent s) (os_invalidated s).
Definition set_os_quota (q : QuotaBook) (s : OAuthState) : OAuthState :=
  MkOAuthState (MkShared (sh_tables (os_shared s)) q) (os_time s) (os_sent s) (os_invalidated s).
Definition set_os_shared (v : OAuthShared) (s : OAuthState) : OAuthState :=
  MkOAuthState v (os_time s) (os_sent s) (os_invalidated s).
Definition tick (s : OAuthState) : OAuthState := MkOAuthState (os_shared s) (S (os_time s)) (os_sent s) (os_invalidated s).
Definition log_request (r : OAuthRequest) (s : OAuthState) : OAuthState :=
  MkOAuthState (os_shared s) (os_time s) (r :: os_sent s) (os_invalidated s).
Definition count_invalidation (s : OAuthState) : OAuthState :=
  MkOAuthState (os_shared s) (os_time s) (os_sent s) (S (os_invalidated s)).

Notation M := (comp OAuthState CodexOAuthError).

(** What [prepare_auth] hands out. *)
Definition prepared_auth (a : CodexOAuthAccount) : PreparedCodexAuth :=
  MkCodexAuth (ac_access_token a) (cr_account_id (ac_credentials a)).

(** How waiting for the lease of another task ends. *)
Inductive Waited := RefreshedElsewhere (a : CodexOAuthAccount) | Acquired (a : CodexOAuthAccount) | StillLeased.

Section Refresh.
Context `{CryptoLib, AccountLib, OAuthLib} (master_key : string) (w : OAuthWorld).

(** ** Steps *)
Definition draw {A} (f : nat → A) : M A := λ s, (inl (f (os_time s)), tick s).
Definition clock : M Z := draw (ow_clock w).
Definition new_ulid : M string := draw (ow_ulid w).
Definition nonce : M (list Z) := draw (ow_nonce w).

(** What others did before the task goes on. *)
Definition others (s : OAuthState) : OAuthState := set_os_shared (ow_others w (os_time s) (os_shared s)) (tick s).

(** A statement and its result; the caller decides what an error means. *)
Definition statement {A} (op : CodexTables → (A + DbError) * CodexTables) : M (A + DbError) :=
  λ s,
    let fault := ow_fault w (os_time s) in
    let s := others s in
    match fault with
    | Some (Lost e) => (inl (inr e), s)
    | Some (Unacknowledged e) => (inl (inr e), set_os_tables (op (os_tables s)).2 s)
    | None => let '(r, t) := op (os_tables s) in (inl r, set_os_tables t s)
    end.

Definition try_ {A} (r : A + CodexOAuthError) : M A := match r with inl a => ret a | inr e => leave e end.
Definition or_database {A} (m : M (A + DbError)) : M A := let* r := m in try_ (map_err database r).
Definition query {A} (f : CodexTables → A + DbError) : M (A + DbError) := statement (λ t, (f t, t)).
Definition execute (f : CodexTables → CodexTables) : M (unit + DbError) := statement (λ t, (inl tt, f t)).
Definition update {A} (f : CodexTables → A * CodexTables) : M (A + DbError) := statement (λ t, let '(a, t') := f t in (inl a, t')).

Definition with_book (f : QuotaBook → QuotaBook) : M unit :=
  λ s, let s := others s in (inl tt, set_os_quota (f (sh_quota (os_shared s))) s).
Definition invalidate : M unit := modify count_invalidation.

(** [send_bounded]: the request is sent, and this comes back. *)
Definition send (request : OAuthRequest + CodexOAuthError) : M Transmission :=
  let* r := try_ request in modify (log_request r) ;; draw (ow_answer w).

(** ** Reading an account *)
Definition load_account (key_id : Z) (allow_forbidden : bool) : M CodexOAuthAccount :=
  let* found := or_database (query (find_codex_oauth_account master_key key_id)) in
  let* account := try_ (ok_or found (reauth "oauth_metadata_missing" "this legacy Codex key must be signed in again")) in
  if String.eqb (ac_auth_status account) AUTH_STATUS_ACTIVE then ret account
  else if String.eqb (ac_auth_status account) AUTH_STATUS_FORBIDDEN then
    if allow_forbidden then ret account
    else leave (forbidden "account_forbidden" "the Codex account is not currently entitled to use the service")
  else leave (reauth "reauth_required" "the Codex account must be signed in again").

(** ** The lease *)
Definition acquire (key_id : Z) (owner : string) (now_ms : Z) : M bool :=
  or_database (update (try_acquire_codex_refresh_lease key_id owner (i64_sat_add now_ms REFRESH_LEASE_MS) now_ms)).

Definition expires_after (a : CodexOAuthAccount) (now_ms : Z) : option bool :=
  option_map (λ expires, i64_sat_add now_ms REFRESH_LEEWAY_MS <? expires) (ac_token_expires_at_ms a).

Fixpoint wait_for_lease (attempts : nat) (key_id : Z) (owner : string) (allow_forbidden : bool) : M Waited :=
  match attempts with
  | O => ret StillLeased
  | S attempts =>
      let* account := load_account key_id allow_forbidden in
      let* current := clock in
      if unwrap_or (expires_after account current) false then ret (RefreshedElsewhere account)
      else if is_none_or (ac_refresh_lease_until_ms account) (λ until, until <=? current) then
        let* acquired := acquire key_id owner current in
        if acquired : bool then ret (Acquired account) else wait_for_lease attempts key_id owner allow_forbidden
      else wait_for_lease attempts key_id owner allow_forbidden
  end.

(** ** Refreshing the tokens *)
Definition refreshed_credentials (a : CodexOAuthAccount) (refreshed : RefreshTokenBundle) (claims : option IdTokenClaims)
    : CodexOAuthCredentials :=
  MkCredentials
    (unwrap_or (opt_filter not_blank (rb_refresh_token refreshed)) (cr_refresh_token (ac_credentials a)))
    (unwrap_or (opt_filter not_blank (rb_id_token refreshed)) (cr_id_token (ac_credentials a)))
    (cr_account_id (ac_credentials a))
    (unwrap_or (opt_filter not_blank (option_map cl_email claims)) (cr_email (ac_credentials a))).

Definition refreshed_claims (refreshed : RefreshTokenBundle) : option IdTokenClaims + CodexOAuthError :=
  match opt_filter not_blank (rb_id_token refreshed) with
  | None => inl None
  | Some token => let? claims := parse_id_token token in inl (Some claims)
  end.

(** A refresh that was refused: the lease is given back, and an account that must be signed in
    again is marked; errors of these statements are ignored. *)
Definition refresh_failed {A} (key_id : Z) (owner : string) (error : CodexOAuthError) : M A :=
  let* released_at := clock in
  execute (release_codex_refresh_lease key_id owner released_at) ;;
  (if oe_reauth_required error then
     let* marked_at := clock in
     execute (update_codex_auth_status key_id AUTH_STATUS_REAUTH_REQUIRED (Some (oe_message error)) marked_at) ;;
     invalidate
   else ret tt) ;;
  leave error.

Definition persist_refresh (key_id : Z) (owner : string) (a : CodexOAuthAccount) (refreshed : RefreshTokenBundle) : M unit :=
  let* claims := try_ (refreshed_claims refreshed) in
  let credentials := refreshed_credentials a refreshed claims in
  let plan_type := opt_or (opt_bind claims cl_plan_type) (ac_plan_type a) in
  let* refreshed_at_ms := clock in
  let expires_at_ms := Some (i64_sat_add refreshed_at_ms (i64_sat_mul (Z.max (rb_expires_in_seconds refreshed) 1) 1000)) in
  let preserved_last_error := if String.eqb (ac_auth_status a) AUTH_STATUS_ACTIVE then None else ac_last_error a in
  let* n1 := nonce in
  let* n2 := nonce in
  let* persisted := or_database (statement (persist_codex_token_refresh master_key n1 n2 key_id owner (rb_access_token refreshed)
                      credentials plan_type expires_at_ms (ac_auth_status a) preserved_last_error refreshed_at_ms)) in
  if persisted : bool then invalidate
  else leave (temporary "refresh_lease_lost" "the account refresh lease was lost before credentials were saved").

(** The lease is held: the tokens are refreshed and the account is read again. *)
Definition refresh_under_lease (key_id : Z) (owner : string) (allow_forbidden : bool) (a : CodexOAuthAccount) : M PreparedCodexAuth :=
  let* answer := send (refresh_tokens_request (cr_refresh_token (ac_credentials a))) in
  let* refreshed := match refresh_tokens answer with
                    | inl refreshed => ret refreshed
                    | inr error => refresh_failed key_id owner error
                    end in
  persist_refresh key_id owner a refreshed ;;
  let* account := load_account key_id allow_forbidden in
  ret (prepared_auth account).

Definition prepare_auth_with_status (key_id : Z) (force_refresh allow_forbidden : bool) : M PreparedCodexAuth :=
  let* account := load_account key_id allow_forbidden in
  let* now_ms := clock in
  if negb force_refresh && unwrap_or (expires_after account now_ms) true then ret (prepared_auth account)
  else if negb (not_blank (cr_refresh_token (ac_credentials account))) then
    or_database (execute (update_codex_auth_status key_id AUTH_STATUS_REAUTH_REQUIRED (Some "refresh token is missing") now_ms)) ;;
    invalidate ;;
    leave (reauth "refresh_token_missing" "the account must be signed in again")
  else
    let* owner := new_ulid in
    let* acquired := acquire key_id owner now_ms in
    let* waited := if acquired : bool then ret (Acquired account)
                   else wait_for_lease REFRESH_LEASE_WAIT_ATTEMPTS key_id owner allow_forbidden in
    match waited with
    | RefreshedElsewhere account => ret (prepared_auth account)
    | Acquired account => refresh_under_lease key_id owner allow_forbidden account
    | StillLeased => leave (temporary "refresh_in_progress" "another gateway instance is refreshing this account")
    end.

Definition prepare_auth (key_id : Z) (force_refresh : bool) : M PreparedCodexAuth := prepare_auth_with_status key_id force_refresh false.
Definition prepare_auth_for_quota (key_id : Z) (force_refresh : bool) : M PreparedCodexAuth := prepare_auth_with_status key_id force_refresh true.

(** ** The quota *)
Definition fetch (max_bytes : Z) (request : OAuthRequest + CodexOAuthError) : M (Z * list ascii) :=
  let* answer := send request in try_ (send_bounded max_bytes answer).

(** The errors of a body that cannot be read, by their codes. *)
Definition quota_error (code : string) : CodexOAuthError := upstream code "quota endpoint returned invalid JSON".
Definition models_error (code : string) : CodexOAuthError :=
  upstream code (if String.eqb code "models_empty" then "models endpoint returned an empty inventory"
                 else "models endpoint returned invalid JSON").

(** With a token the service accepts: one that is refused is refreshed once. *)
Definition with_fresh_token (prepare : bool → M PreparedCodexAuth) (max_bytes : Z)
    (request : PreparedCodexAuth → OAuthRequest + CodexOAuthError) : M (Z * list ascii) :=
  let* auth := prepare false in
  let* response := fetch max_bytes (request auth) in
  if response.1 =? 401 then
    let* auth := prepare true in
    fetch max_bytes (request auth)
  else ret response.

Definition mark_status (key_id : Z) (status error : string) (now_ms : Z) : M unit :=
  or_database (execute (update_codex_auth_status key_id status (Some error) now_ms)) ;; invalidate.

Definition record_quota (key_id : Z) (status : Z) (bytes : list ascii) (now_ms : Z) : M unit :=
  if status =? 200 then
    let* quota := try_ (map_err quota_error (parse_quota_snapshot json_from_slice bytes now_ms)) in
    or_database (statement (update_codex_quota_success key_id quota now_ms)) ;;
    match Snapshot.blocked_until_ms quota now_ms with
    | Some until => with_book (λ b, set_cooldown_until b key_id until now_ms)
    | None => with_book (λ b, clear_cooldown b key_id now_ms)
    end ;;
    invalidate
  else if status =? 401 then
    mark_status key_id AUTH_STATUS_REAUTH_REQUIRED "upstream rejected the refreshed access token" now_ms ;;
    leave (reauth "access_token_rejected" "the Codex account must be signed in again")
  else if status =? 403 then
    mark_status key_id AUTH_STATUS_FORBIDDEN "the quota endpoint returned 403" now_ms ;;
    leave (forbidden "quota_forbidden" "the Codex quota endpoint denied this account")
  else
    let message := status_message "quota endpoint" status in
    execute (update_codex_temporary_error key_id message now_ms) ;;
    leave (temporary "quota_request_failed" message).

Definition refresh_quota (key_id : Z) : M CodexOAuthAccountView :=
  let* response := with_fresh_token (prepare_auth_for_quota key_id) QUOTA_BODY_MAX_BYTES request_quota in
  let* now_ms := clock in
  record_quota key_id response.1 response.2 now_ms ;;
  let* found := or_database (query (find_codex_oauth_account master_key key_id)) in
  let* account := try_ (ok_or found (database "Codex OAuth account disappeared")) in
  ret (account_view account).

(** ** The models *)
Definition fetch_models (key_id : Z) : M (list string) :=
  let* response := with_fresh_token (prepare_auth key_id) MODEL_BODY_MAX_BYTES request_models in
  if response.1 =? 401 then
    let* now_ms := clock in
    mark_status key_id AUTH_STATUS_REAUTH_REQUIRED "model endpoint rejected the refreshed access token" now_ms ;;
    leave (reauth "access_token_rejected" "the Codex account must be signed in again")
  else if negb (response.1 =? 200) then
    leave (upstream "models_request_failed" (status_message "models endpoint" response.1))
  else try_ (map_err models_error (parse_model_ids json_from_slice response.2)).

(** ** After a login *)

(** The result of a computation as a value, as [match] sees it. *)
Definition result_of {A} (m : M A) : M (A + CodexOAuthError) := λ s, let '(r, s) := m s in (inl r, s).

(** The quota and the models of the account that has signed in; what fails is a warning. *)
Definition login_follow_up (key_id : Z) : M (list string) :=
  let* quota := result_of (refresh_quota key_id) in
  let quota_warnings := match quota with inl _ => [] | inr error => ["quota: " +:+ oe_message error] end in
  let* models := result_of (fetch_models key_id) in
  match models with
  | inr error => ret (quota_warnings ++ ["models: " +:+ oe_message error])
  | inl _ =>
      match ow_models_saved w with
      | inr error => ret (quota_warnings ++ ["models: " +:+ sanitize_persisted_error error])
      | inl _ => invalidate ;; ret quota_warnings
      end
  end.
End Refresh.

(** ** What a task hands out and sends *)
Section Facts.
Context `{CryptoLib, AccountLib, OAuthLib} (master_key : string) (w : OAuthWorld).
Notation statement := (statement w).
Notation load_account := (load_account master_key w).
Notation find := (find_codex_oauth_account master_key).

(** An account that may be used, for the quota also while it is forbidden. *)
Definition usable (allow_forbidden : bool) (a : CodexOAuthAccount) : Prop :=
  ac_auth_status a = AUTH_STATUS_ACTIVE ∨ allow_forbidden = true ∧ ac_auth_status a = AUTH_STATUS_FORBIDDEN.

(** The account is the one stored, and usable. *)
Definition current_account (key_id : Z) (allow_forbidden : bool) (a : CodexOAuthAccount) (s : OAuthState) : Prop :=
  find key_id (os_tables s) = inl (Some a) ∧ usable allow_forbidden a.

Lemma post_true {A} (m : M A) s : post m (λ _ _, True) (λ _ _, True) s.
Proof. unfold post. by destruct (m s) as [[a|e] s']. Qed.

Lemma post_clock {Q : Z → OAuthState → Prop} {X} s : (∀ now, Q now (tick s)) → post (clock w) Q X s.
Proof. intros HQ. apply HQ. Qed.

Lemma post_try {A} (r : A + CodexOAuthError) (Q : A → OAuthState → Prop) s : (∀ a, r = inl a → Q a s) → post (try_ r) Q (λ _ _, True) s.
Proof. destruct r; cbn; auto. Qed.

(** What a query reads is in the tables it leaves. *)
Lemma post_query {A} (f : CodexTables → A + DbError) s :
  post (or_database (query w f)) (λ a s', f (os_tables s') = inl a) (λ _ _, True) s.
Proof.
  unfold or_database, query, statement. unfold post, bind. destruct (ow_fault w (os_time s)) as [[e|e]|]; [done|done|].
  set (s' := others w s). by destruct (f (os_tables s')) as [a|e] eqn:E; cbn; rewrite ?E.
Qed.

Lemma post_load key_id allow s : post (load_account key_id allow) (current_account key_id allow) (λ _ _, True) s.
Proof.
  unfold load_account. apply post_bind. eapply post_weaken; [apply post_query|cbn|done]. intros found s1 Hf.
  apply post_bind, post_try. intros a ->%ok_or_inl.
  destruct (String.eqb_spec (ac_auth_status a) AUTH_STATUS_ACTIVE) as [Ea|_]; [by split; [|left]|].
  destruct (String.eqb_spec (ac_auth_status a) AUTH_STATUS_FORBIDDEN) as [Ef|_]; [|done].
  destruct allow; [|done]. by split; [|right].
Qed.

Definition waited_well (key_id : Z) (allow : bool) (r : Waited) (s : OAuthState) : Prop :=
  match r with RefreshedElsewhere a => current_account key_id allow a s | _ => True end.

Lemma post_wait n key_id owner allow s : post (wait_for_lease master_key w n key_id owner allow) (waited_well key_id allow) (λ _ _, True) s.
Proof.
  revert s. induction n as [|n IH]; intros s; [done|]. cbn [wait_for_lease]. apply post_bind.
  eapply post_weaken; [apply post_load|cbn|done]. intros a s1 Ha. apply post_bind, post_clock. intros now.
  apply post_if; intros _; [exact Ha|]. apply post_if; intros _; [|apply IH].
  apply post_bind. eapply post_weaken; [apply post_true|cbn|done]. intros [] s2 _; [done|apply IH].
Qed.

(** C17. Whatever other tasks do and wherever a statement fails, the token that is handed out for
    a request is the stored token of an account that is active at that moment; only for reading
    the quota it may be the token of a forbidden one. *)
Theorem auth_of_usable_account key_id force allow s :
  match prepare_auth_with_status master_key w key_id force allow s with
  | (inl auth, s') => ∃ a, find key_id (os_tables s') = inl (Some a) ∧ usable allow a ∧ auth = prepared_auth a
  | (inr _, _) => True
  end.
Proof.
  enough (post (prepare_auth_with_status master_key w key_id force allow)
    (λ auth s', ∃ a, current_account key_id allow a s' ∧ auth = prepared_auth a) (λ _ _, True) s) as Hp.
  { unfold post in Hp. destruct (prepare_auth_with_status _ _ _ _ _ s) as [[auth|e] s']; [|done].
    destruct Hp as (a & [Hf Hu] & ->). by exists a. }
  unfold prepare_auth_with_status. apply post_bind. eapply post_weaken; [apply post_load|cbn beta|done]. intros a s1 Ha.
  apply post_bind, post_clock. intros now. apply post_if; intros _; [by exists a|]. apply post_if; intros _.
  { apply post_bind. eapply post_weaken; [apply post_true|cbn beta|done]. done. }
  apply post_bind. eapply post_weaken; [apply post_true|cbn beta|done]. intros owner s2 _.
  apply post_bind. eapply post_weaken; [apply post_true|cbn beta|done]. intros acquired s3 _.
  apply post_bind, (post_weaken _ (waited_well key_id allow) _ (λ _ _, True) _); [|cbn beta|done].
  { destruct acquired; [done|apply post_wait]. }
  intros [b|b|] s4 Hw; [by exists b| |done]. unfold refresh_under_lease.
  do 3 (apply post_bind; eapply post_weaken; [apply post_true|cbn beta; intros ? ? _|done]).
  apply post_bind. eapply post_weaken; [apply post_load|cbn beta|done]. intros c s4' Hc. by exists c.
Qed.
End Facts.

(** ** How often the service is asked *)
Section Sends.
Context `{CryptoLib, AccountLib, OAuthLib} (master_key : string) (w : OAuthWorld).

(** A computation that sends [n] requests at most. *)
Definition sends {A} (n : nat) (m : comp OAuthState CodexOAuthError A) : Prop :=
  ∀ s, (length (os_sent (m s).2) <= length (os_sent s) + n)%nat.

Lemma sends_bind {A B} n k (m : comp OAuthState CodexOAuthError A) (f : A → comp OAuthState CodexOAuthError B) :
  sends n m → (∀ a, sends k (f a)) → sends (n + k) (bind m f).
Proof.
  intros Hm Hf s. unfold bind. specialize (Hm s). destruct (m s) as [[a|e] s']; cbn [snd] in *; [|lia]. specialize (Hf a s'). lia.
Qed.

Lemma sends_quiet {A B} k (m : comp OAuthState CodexOAuthError A) (f : A → comp OAuthState CodexOAuthError B) :
  sends 0 m → (∀ a, sends k (f a)) → sends k (bind m f).
Proof. apply (sends_bind 0). Qed.

Lemma sends_weaken {A} n k (m : comp OAuthState CodexOAuthError A) : (n <= k)%nat → sends n m → sends k m.
Proof. intros Hle Hm s. specialize (Hm s). lia. Qed.

Lemma sends_pure {A} n (v : A + CodexOAuthError) : sends n (λ s, (v, s)).
Proof. intros s. cbn. lia. Qed.

Lemma sends_draw {A} (f : nat → A) : sends 0 (draw f).
Proof. intros s. cbn. lia. Qed.

Lemma sends_statement {A} (op : CodexTables → (A + DbError) * CodexTables) : sends 0 (statement w op).
Proof.
  intros s. unfold statement. destruct (ow_fault w (os_time s)) as [[e|e]|]; [cbn; lia|cbn; lia|].
  destruct (op _) as [r t]. cbn. lia.
Qed.

Lemma sends_try {A} (r : A + CodexOAuthError) : sends 0 (try_ r).
Proof. destruct r; apply sends_pure. Qed.

Lemma sends_database {A} (m : comp OAuthState CodexOAuthError (A + DbError)) : sends 0 m → sends 0 (or_database m).
Proof. intros Hm. apply sends_quiet; [done|]. intros r. apply sends_try. Qed.

Lemma sends_modify f : (∀ s, os_sent (f s) = os_sent s) → sends 0 (modify f).
Proof. intros Hf s. cbn. rewrite Hf. lia. Qed.

Lemma sends_invalidate : sends 0 invalidate.
Proof. by apply sends_modify. Qed.

Lemma sends_with_book f : sends 0 (with_book w f).
Proof. intros s. cbn. lia. Qed.

Lemma sends_send request : sends 1 (send w request).
Proof.
  unfold send. apply sends_quiet; [apply sends_try|]. intros r.
  apply (sends_bind 1 0); [intros s; cbn; lia|intros _; apply sends_draw].
Qed.
End Sends.

Create HintDb sends.
#[export] Hint Resolve sends_pure sends_draw sends_statement sends_try sends_database sends_invalidate sends_with_book sends_send : sends.

(** Takes a computation apart that sends nothing, or as much as its last step. *)
Ltac quiet :=
  repeat first
    [ progress intros
    | solve [eauto with sends]
    | match goal with
      | |- sends _ (bind _ _) => apply sends_quiet; [solve [quiet]|]
      | |- sends _ (if ?b then _ else _) => destruct b
      | |- sends _ (match ?x with _ => _ end) => destruct x
      end ].

Section Bounds.
Context `{CryptoLib, AccountLib, OAuthLib} (master_key : string) (w : OAuthWorld).

Lemma sends_load key_id allow : sends 0 (load_account master_key w key_id allow).
Proof. unfold load_account, query. quiet. Qed.

Lemma sends_acquire key_id owner now : sends 0 (acquire w key_id owner now).
Proof. unfold acquire, update. quiet. Qed.
#[local] Hint Resolve sends_load sends_acquire : sends.

Lemma sends_wait n key_id owner allow : sends 0 (wait_for_lease master_key w n key_id owner allow).
Proof. induction n as [|n IH]; cbn [wait_for_lease]; unfold clock; quiet. Qed.
#[local] Hint Resolve sends_wait : sends.

Lemma sends_under_lease key_id owner allow a : sends 1 (refresh_under_lease master_key w key_id owner allow a).
Proof.
  unfold refresh_under_lease. apply (sends_bind 1 0); [apply sends_send|]. intros answer.
  unfold persist_refresh, refresh_failed, execute, clock, nonce. quiet.
Qed.

Lemma sends_prepare key_id force allow : sends 1 (prepare_auth_with_status master_key w key_id force allow).
Proof.
  assert (∀ m : comp OAuthState CodexOAuthError PreparedCodexAuth, sends 0 m → sends 1 m) as Hw by (intros m; apply sends_weaken; lia).
  pose proof sends_under_lease. unfold prepare_auth_with_status, clock, execute, new_ulid. quiet.
Qed.

Lemma sends_fetch max_bytes request : sends 1 (fetch w max_bytes request).
Proof. unfold fetch. apply (sends_bind 1 0); [apply sends_send|]. quiet. Qed.

Lemma sends_fresh prepare max_bytes request : (∀ force, sends 1 (prepare force)) → sends 4 (with_fresh_token w prepare max_bytes request).
Proof.
  intros Hp. unfold with_fresh_token. apply (sends_bind 1 3); [apply Hp|]. intros auth.
  apply (sends_bind 1 2); [apply sends_fetch|]. intros response. destruct (_ =? _); [|apply sends_pure].
  apply (sends_bind 1 1); [apply Hp|]. intros. apply sends_fetch.
Qed.

Lemma sends_refresh_quota key_id : sends 4 (refresh_quota master_key w key_id).
Proof.
  unfold refresh_quota. apply (sends_bind 4 0); [apply sends_fresh; intros; apply sends_prepare|].
  unfold record_quota, mark_status, execute, query, clock. quiet.
Qed.

Lemma sends_fetch_models key_id : sends 4 (fetch_models master_key w key_id).
Proof.
  unfold fetch_models. apply (sends_bind 4 0); [apply sends_fresh; intros; apply sends_prepare|].
  unfold mark_status, execute, clock. quiet.
Qed.

Lemma sends_result {A} n (m : comp OAuthState CodexOAuthError A) : sends n m → sends n (result_of m).
Proof. intros Hm s. unfold result_of. specialize (Hm s). by destruct (m s). Qed.

(** An account never makes the gateway hammer the service: whatever it answers, a valid token
    costs one request at most, the quota and the models four each - with one refresh after a
    token was refused - and what follows a login eight. *)
Theorem account_requests_bounded key_id force allow s :
  (length (os_sent (prepare_auth_with_status master_key w key_id force allow s).2) <= length (os_sent s) + 1)%nat
  ∧ (length (os_sent (refresh_quota master_key w key_id s).2) <= length (os_sent s) + 4)%nat
  ∧ (length (os_sent (fetch_models master_key w key_id s).2) <= length (os_sent s) + 4)%nat
  ∧ (length (os_sent (login_follow_up master_key w key_id s).2) <= length (os_sent s) + 8)%nat.
Proof.
  split_and!; [apply sends_prepare|apply sends_refresh_quota|apply sends_fetch_models|].
  apply (sends_bind 4 4); [apply sends_result, sends_refresh_quota|]. intros quota.
  apply (sends_bind 4 0); [apply sends_result, sends_fetch_models|]. intros models. quiet.
Qed.
End Bounds.
