(* ===== verification/CodexLease.v ===== *)
(** * CodexLease: refreshing the tokens of an account on several instances

    The tasks of [prepare_auth_with_status] as a transition system over the tables: any number
    of them on any number of instances, each instance with its lock per key, interleaved with
    logins and everything else that writes the accounts. The theorems say what the lease is
    worth, and what the lock adds on a single instance. *)
From Stdlib Require Import SpecFloat Ascii String.
From S2P Require Import Prelude Text Snapshot Headers Crypto CodexTokens CodexAccounts CodexRefresh.

Local Open Scope string_scope.
Local Open Scope list_scope.
Local Open Scope Z_scope.

(** ** The system *)

(** A task has loaded its account; it holds the lease; it has sent the refresh token. With the
    lease it remembers, for the theorems, the credentials it found in the row. *)
Inductive RefreshPhase := Loaded | Leased (found : string) | Asked (found : string).

(** A task of an instance, under the lock of its key; whether there was a login on the key since
    it loaded the account is for the theorems. *)
Record RefreshTask := MkRefreshTask {
  rt_instance : nat;
  rt_key : Z;
  rt_owner : string;
  rt_account : CodexOAuthAccount;
  rt_phase : RefreshPhase;
  rt_overtaken : bool
}.
Definition set_rt_phase (p : RefreshPhase) (tk : RefreshTask) : RefreshTask :=
  MkRefreshTask (rt_instance tk) (rt_key tk) (rt_owner tk) (rt_account tk) p (rt_overtaken tk).
Definition reloaded (a : CodexOAuthAccount) (tk : RefreshTask) : RefreshTask :=
  MkRefreshTask (rt_instance tk) (rt_key tk) (rt_owner tk) a Loaded false.
Definition overtake (key_id : Z) (tk : RefreshTask) : RefreshTask :=
  MkRefreshTask (rt_instance tk) (rt_key tk) (rt_owner tk) (rt_account tk) (rt_phase tk)
    (rt_overtaken tk || (rt_key tk =? key_id)).

(** A refresh token that was sent, with the one stored at that moment. *)
Record Sending := MkSending { sd_key : Z; sd_token : string; sd_stored : option string; sd_overtaken : bool }.
(** Credentials that were replaced by a refresh, with those its lease was taken on. *)
Record Replacing := MkReplacing { rp_key : Z; rp_found : string; rp_replaced : option string }.

Record LeaseSystem := MkLeaseSystem {
  ls_tables : CodexTables;
  ls_tasks : list RefreshTask;
  ls_sent : list Sending;
  ls_replaced : list Replacing;
  ls_owners : gset string
}.

Section Lease.
Context `{CryptoLib, AccountLib} (master_key : string).

(** The credentials of a row, as they are read. *)
Definition read_credentials (credentials_enc : string) : option CodexOAuthCredentials :=
  match decrypt_secret master_key credentials_enc with
  | inl json => match credentials_from_str json with inl c => Some c | inr _ => None end
  | inr _ => None
  end.
Definition stored_credentials (key_id : Z) (t : CodexTables) : option string := option_map ar_credentials_enc (ct_accounts t !! key_id).
Definition stored_refresh_token (key_id : Z) (t : CodexTables) : option string :=
  option_map cr_refresh_token (opt_bind (stored_credentials key_id t) read_credentials).

(** What every other statement leaves of the accounts: some rows are gone, the rest have their
    credentials and their lease. *)
Definition rows_left (t t' : CodexTables) : Prop :=
  ∀ k r', ct_accounts t' !! k = Some r' → ∃ r, ct_accounts t !! k = Some r
    ∧ ar_credentials_enc r' = ar_credentials_enc r ∧ ar_refresh_lease_owner r' = ar_refresh_lease_owner r.

(** The steps, on the given instances. *)
Inductive refresh_step (instances : list nat) (s : LeaseSystem) : LeaseSystem → Prop :=
| StepLoad i key_id owner a :
    i ∈ instances → (∀ tk, tk ∈ ls_tasks s → ¬ (rt_instance tk = i ∧ rt_key tk = key_id)) →
    find_codex_oauth_account master_key key_id (ls_tables s) = inl (Some a) → owner ∉ ls_owners s →
    refresh_step instances s (MkLeaseSystem (ls_tables s) (MkRefreshTask i key_id owner a Loaded false :: ls_tasks s)
      (ls_sent s) (ls_replaced s) ({[owner]} ∪ ls_owners s))
| StepReload before tk after a :
    ls_tasks s = before ++ tk :: after → rt_phase tk = Loaded →
    find_codex_oauth_account master_key (rt_key tk) (ls_tables s) = inl (Some a) →
    refresh_step instances s (MkLeaseSystem (ls_tables s) (before ++ reloaded a tk :: after) (ls_sent s) (ls_replaced s) (ls_owners s))
| StepAcquire before tk after until now t found :
    ls_tasks s = before ++ tk :: after → rt_phase tk = Loaded →
    try_acquire_codex_refresh_lease (rt_key tk) (rt_owner tk) until now (ls_tables s) = (true, t) →
    stored_credentials (rt_key tk) (ls_tables s) = Some found →
    refresh_step instances s (MkLeaseSystem t (before ++ set_rt_phase (Leased found) tk :: after) (ls_sent s) (ls_replaced s) (ls_owners s))
| StepSend before tk after found :
    ls_tasks s = before ++ tk :: after → rt_phase tk = Leased found →
    refresh_step instances s (MkLeaseSystem (ls_tables s) (before ++ set_rt_phase (Asked found) tk :: after)
      (MkSending (rt_key tk) (cr_refresh_token (ac_credentials (rt_account tk))) (stored_refresh_token (rt_key tk) (ls_tables s)) (rt_overtaken tk)
         :: ls_sent s) (ls_replaced s) (ls_owners s))
| StepPersist before tk after found n1 n2 token credentials plan expires status error now b t :
    ls_tasks s = before ++ tk :: after → rt_phase tk = Asked found →
    persist_codex_token_refresh master_key n1 n2 (rt_key tk) (rt_owner tk) token credentials plan expires status error now (ls_tables s)
      = (inl b, t) →
    refresh_step instances s (MkLeaseSystem t (before ++ after) (ls_sent s)
      (if b then MkReplacing (rt_key tk) found (stored_credentials (rt_key tk) (ls_tables s)) :: ls_replaced s else ls_replaced s) (ls_owners s))
| StepRelease key_id owner now :
    refresh_step instances s (MkLeaseSystem (release_codex_refresh_lease key_id owner now (ls_tables s)) (ls_tasks s) (ls_sent s)
      (ls_replaced s) (ls_owners s))
| StepEnd before tk after :
    ls_tasks s = before ++ tk :: after →
    refresh_step instances s (MkLeaseSystem (ls_tables s) (before ++ after) (ls_sent s) (ls_replaced s) (ls_owners s))
| StepLogin n1 n2 input saved t :
    save_codex_oauth_login master_key n1 n2 input (ls_tables s) = (inl saved, t) →
    refresh_step instances s (MkLeaseSystem t (map (overtake (sr_key_id saved)) (ls_tasks s)) (ls_sent s) (ls_replaced s) (ls_owners s))
| StepElsewhere t :
    rows_left (ls_tables s) t →
    refresh_step instances s (MkLeaseSystem t (ls_tasks s) (ls_sent s) (ls_replaced s) (ls_owners s)).

(** At the start there are no tasks; the ids of leases held by then are not drawn again. *)
Definition lease_start (s : LeaseSystem) : Prop :=
  ls_tasks s = [] ∧ ls_sent s = [] ∧ ls_replaced s = []
  ∧ ∀ k r o, ct_accounts (ls_tables s) !! k = Some r → ar_refresh_lease_owner r = Some o → o ∈ ls_owners s.

(** ** What others leave *)
Lemma rows_left_refl t : rows_left t t.
Proof. intros k r Hr. by exists r. Qed.

Lemma rows_left_update key_id cond f t :
  (∀ r, ar_credentials_enc (f r) = ar_credentials_enc r ∧ ar_refresh_lease_owner (f r) = ar_refresh_lease_owner r) →
  rows_left t (update_account key_id cond f t).2.
Proof.
  intros Hf k r'. rewrite update_account_lookup. destruct (bool_decide _ && _) eqn:E; [|intros Hr; by exists r'].
  apply andb_true_iff in E as [->%bool_decide_eq_true_1 _]. destruct (ct_accounts t !! key_id) as [r|]; [|done].
  cbn. intros [= <-]. exists r. destruct (Hf r). done.
Qed.

(** The statements of the status and the quota are such statements. *)
Lemma rows_left_status key_id status error now t : rows_left t (update_codex_auth_status key_id status error now t).
Proof. by apply rows_left_update. Qed.
Lemma rows_left_error key_id error now t : rows_left t (update_codex_temporary_error key_id error now t).
Proof. by apply rows_left_update. Qed.
Lemma rows_left_quota key_id quota now t : rows_left t (update_codex_quota_success key_id quota now t).2.
Proof. unfold update_codex_quota_success. destruct (quota_to_string quota); [by apply rows_left_update|apply rows_left_refl]. Qed.

(** *** Rows after a statement *)
Lemma acquire_row key_id owner until now t t' k r' :
  try_acquire_codex_refresh_lease key_id owner until now t = (true, t') → ct_accounts t' !! k = Some r' →
  if bool_decide (k = key_id) then ∃ r, ct_accounts t !! k = Some r ∧ ar_credentials_enc r' = ar_credentials_enc r ∧ ar_refresh_lease_owner r' = Some owner
  else ct_accounts t !! k = Some r'.
Proof.
  unfold try_acquire_codex_refresh_lease. intros E Hr.
  pose proof (update_account_lookup key_id (lease_free owner now) (with_lease (Some owner) (Some until) now) t k) as Hl.
  pose proof (update_account_hit key_id (lease_free owner now) (with_lease (Some owner) (Some until) now) t) as Hh.
  rewrite E in Hl, Hh. cbn [fst snd] in Hl, Hh. rewrite Hr -Hh andb_true_r in Hl. case_bool_decide; [|done]. subst k.
  destruct (ct_accounts t !! key_id) as [r|]; [|done]. injection Hl as ->. by exists r.
Qed.

Lemma release_row key_id owner now t k r' : ct_accounts (release_codex_refresh_lease key_id owner now t) !! k = Some r' →
  ∃ r, ct_accounts t !! k = Some r ∧ ar_credentials_enc r' = ar_credentials_enc r
       ∧ (ar_refresh_lease_owner r' = None ∨ ar_refresh_lease_owner r' = ar_refresh_lease_owner r).
Proof.
  unfold release_codex_refresh_lease. rewrite update_account_lookup. destruct (bool_decide _ && _) eqn:E; [|intros Hr; exists r'; auto].
  apply andb_true_iff in E as [->%bool_decide_eq_true_1 _]. destruct (ct_accounts t !! key_id) as [r|]; [|done].
  cbn. intros [= <-]. exists r. auto.
Qed.

Lemma leased_by_true owner r : leased_by owner r = true → ar_refresh_lease_owner r = Some owner.
Proof. intros (o & Ho & E%String.eqb_eq)%is_some_and_true. congruence. Qed.

Lemma persist_hit n1 n2 key_id owner token credentials plan expires status error now t t' :
  persist_codex_token_refresh master_key n1 n2 key_id owner token credentials plan expires status error now t = (inl true, t') →
  ∃ r, ct_accounts t !! key_id = Some r ∧ ar_refresh_lease_owner r = Some owner.
Proof.
  unfold persist_codex_token_refresh. destruct (encrypt_token _ _ _) as [secret|]; [|done].
  destruct (encrypt_credentials _ _ _) as [enc|]; [|done].
  set (f := rotated _ _ _ _ _ _). pose proof (update_account_hit key_id (leased_by owner) f t) as Hh.
  destruct (update_account key_id (leased_by owner) f t) as [[] t1]; [|done]. intros _. cbn in Hh.
  symmetry in Hh. apply is_some_and_true in Hh as (r & Hr & Hl%leased_by_true). by exists r.
Qed.

Lemma persist_row n1 n2 key_id owner token credentials plan expires status error now t b t' k r' :
  persist_codex_token_refresh master_key n1 n2 key_id owner token credentials plan expires status error now t = (inl b, t') →
  ct_accounts t' !! k = Some r' →
  if b && bool_decide (k = key_id) then ar_refresh_lease_owner r' = None else ct_accounts t !! k = Some r'.
Proof.
  unfold persist_codex_token_refresh. destruct (encrypt_token _ _ _) as [secret|]; [|done].
  destruct (encrypt_credentials _ _ _) as [enc|]; [|done].
  set (f := rotated _ _ _ _ _ _). pose proof (update_account_lookup key_id (leased_by owner) f t k) as Hl.
  pose proof (update_account_hit key_id (leased_by owner) f t) as Hh.
  destruct (update_account key_id (leased_by owner) f t) as [[] t1] eqn:E; cbn [fst snd] in *; intros [= <- <-]; [|done].
  cbn. rewrite Hl -Hh andb_true_r. case_bool_decide; [|done]. subst k.
  destruct (ct_accounts t !! key_id) as [r|] eqn:Er; [|done]. by intros [= <-].
Qed.

Lemma login_row_of n1 n2 input t saved t' k r' :
  save_codex_oauth_login master_key n1 n2 input t = (inl saved, t') → ct_accounts t' !! k = Some r' →
  if bool_decide (k = sr_key_id saved) then ar_refresh_lease_owner r' = None else ct_accounts t !! k = Some r'.
Proof.
  unfold save_codex_oauth_login. destruct (encrypt_token _ _ _) as [secret|]; [|done].
  destruct (encrypt_credentials _ _ _) as [enc|]; [|done]. unfold save_codex_login.
  destruct (login_key _ _ _ t) as [[[key_id op] t1]|e] eqn:El; cbn [res_bind]; [|done].
  assert (ct_accounts t1 = ct_accounts t) as E1.
  { unfold login_key in El. repeat case_match; simplify_eq/=; done. }
  unfold upsert_account. destruct (_ && _ && _); cbn [res_bind]; [|done]. intros [= <- <-]. cbn. rewrite E1.
  case_bool_decide as Ek; [subst k; rewrite lookup_insert_eq; by intros [= <-]|]. by rewrite lookup_insert_ne.
Qed.

(** ** Any number of instances *)

(** What a task knows of a row that names it as the holder. *)
Definition task_fits (tk : RefreshTask) (r : AccountRow) : Prop :=
  match rt_phase tk with Loaded => False | Leased found | Asked found => ar_credentials_enc r = found end.

Record lease_inv (s : LeaseSystem) : Prop := {
  li_distinct : NoDup (map rt_owner (ls_tasks s));
  li_tasks tk : tk ∈ ls_tasks s → rt_owner tk ∈ ls_owners s;
  li_rows k r o : ct_accounts (ls_tables s) !! k = Some r → ar_refresh_lease_owner r = Some o → o ∈ ls_owners s;
  li_fits tk r : tk ∈ ls_tasks s → ct_accounts (ls_tables s) !! rt_key tk = Some r → ar_refresh_lease_owner r = Some (rt_owner tk) →
    task_fits tk r;
  li_replaced e : e ∈ ls_replaced s → rp_replaced e = Some (rp_found e)
}.

(** Fewer tasks, or rows that know less of them, keep the invariant. *)
Lemma inv_rows s t sent replaced owners :
  (∀ k r', ct_accounts t !! k = Some r' → ar_refresh_lease_owner r' = None
     ∨ ∃ r, ct_accounts (ls_tables s) !! k = Some r ∧ ar_credentials_enc r' = ar_credentials_enc r ∧ ar_refresh_lease_owner r' = ar_refresh_lease_owner r) →
  (∀ e, e ∈ replaced → rp_replaced e = Some (rp_found e)) → ls_owners s ⊆ owners →
  lease_inv s → lease_inv (MkLeaseSystem t (ls_tasks s) sent replaced owners).
Proof.
  intros Hl He Ho [Hd Ht Hr Hf _]. split; cbn; [done|set_solver| | |done].
  - intros k r' o Hk Hown. destruct (Hl _ _ Hk) as [?|(r & Hr' & _ & E)]; [congruence|]. apply Ho, (Hr k r); congruence.
  - intros tk r' Hin Hk Hown. destruct (Hl _ _ Hk) as [?|(r & Hr' & Ec & E)]; [congruence|].
    pose proof (Hf tk r Hin Hr') as Hfit. unfold task_fits in *. rewrite Ec. apply Hfit. congruence.
Qed.

Lemma inv_fewer s before tk after sent :
  ls_tasks s = before ++ tk :: after → lease_inv s → lease_inv (MkLeaseSystem (ls_tables s) (before ++ after) sent (ls_replaced s) (ls_owners s)).
Proof.
  intros E [Hd Ht Hr Hf He]. rewrite E in Hd Ht Hf. apply NoDup_map_middle in Hd as [Hd _].
  split; cbn; try done; [intros tk' Hin; apply Ht|intros tk' r Hin; apply Hf]; by apply elem_of_rest.
Qed.

(** A task goes on, and still fits the rows. *)
Lemma inv_swap s before tk tk' after sent :
  ls_tasks s = before ++ tk :: after → rt_owner tk' = rt_owner tk →
  (∀ r, ct_accounts (ls_tables s) !! rt_key tk' = Some r → ar_refresh_lease_owner r = Some (rt_owner tk) → task_fits tk' r) →
  lease_inv s → lease_inv (MkLeaseSystem (ls_tables s) (before ++ tk' :: after) sent (ls_replaced s) (ls_owners s)).
Proof.
  intros E Eo Hfit [Hd Ht Hr Hf He]. rewrite E in Hd Ht Hf. split; cbn; try done.
  - by rewrite (map_swap rt_owner before tk).
  - intros x [->|Hin]%(elem_of_swap _ _ tk); [rewrite Eo; apply Ht; set_solver|by apply Ht].
  - intros x r [->|Hin]%(elem_of_swap _ _ tk); [rewrite Eo; apply Hfit|by apply Hf].
Qed.

Lemma inv_load s i key_id owner a : owner ∉ ls_owners s → lease_inv s →
  lease_inv (MkLeaseSystem (ls_tables s) (MkRefreshTask i key_id owner a Loaded false :: ls_tasks s) (ls_sent s) (ls_replaced s) ({[owner]} ∪ ls_owners s)).
Proof.
  intros Hn [Hd Ht Hr Hf He]. split; cbn.
  - apply NoDup_cons. split; [|done]. intros (tk & <- & Hin)%list_elem_of_In%in_map_iff. by apply Hn, Ht, list_elem_of_In.
  - intros tk [->|Hin]%elem_of_cons; cbn; set_solver.
  - intros k r o Hk Ho. apply elem_of_union. right. by eapply Hr.
  - intros tk r [->|Hin]%elem_of_cons Hk Ho; [|by apply Hf]. cbn in Hk, Ho. destruct (Hn (Hr _ _ _ Hk Ho)).
  - done.
Qed.

Lemma inv_acquire s before tk after until now t found :
  ls_tasks s = before ++ tk :: after → rt_phase tk = Loaded →
  try_acquire_codex_refresh_lease (rt_key tk) (rt_owner tk) until now (ls_tables s) = (true, t) →
  stored_credentials (rt_key tk) (ls_tables s) = Some found → lease_inv s →
  lease_inv (MkLeaseSystem t (before ++ set_rt_phase (Leased found) tk :: after) (ls_sent s) (ls_replaced s) (ls_owners s)).
Proof.
  intros E Hp Ha Hs [Hd Ht Hr Hf He]. rewrite E in Hd Ht Hf. pose proof (NoDup_map_middle rt_owner _ _ _ Hd) as [_ Hother].
  split; cbn; [by rewrite (map_swap rt_owner before tk)| | | |done].
  - intros x [->|Hin]%(elem_of_swap _ _ tk); [apply (Ht tk); set_solver|by apply Ht].
  - intros k r o Hk Ho. pose proof (acquire_row _ _ _ _ _ _ _ _ Ha Hk) as Hrow. case_bool_decide; [|by eapply Hr].
    destruct Hrow as (r0 & _ & _ & Ho'). assert (o = rt_owner tk) as -> by congruence. apply Ht. set_solver.
  - intros x r Hin Hk Ho. pose proof (acquire_row _ _ _ _ _ _ _ _ Ha Hk) as Hrow.
    apply elem_of_middle in Hin as [->|Hin].
    + cbn in Hk, Hrow. rewrite bool_decide_eq_true_2 // in Hrow. destruct Hrow as (r0 & Hr0 & Ec & _). cbn.
      unfold stored_credentials in Hs. rewrite Hr0 in Hs. injection Hs as <-. done.
    + case_bool_decide; [|apply Hf; [by apply elem_of_rest|done..]]. destruct Hrow as (r0 & _ & _ & Ho').
      destruct (Hother _ Hin). congruence.
Qed.

Lemma inv_persist s before tk after found n1 n2 token credentials plan expires status error now b t :
  ls_tasks s = before ++ tk :: after → rt_phase tk = Asked found →
  persist_codex_token_refresh master_key n1 n2 (rt_key tk) (rt_owner tk) token credentials plan expires status error now (ls_tables s) = (inl b, t) →
  lease_inv s →
  lease_inv (MkLeaseSystem t (before ++ after) (ls_sent s)
    (if b then MkReplacing (rt_key tk) found (stored_credentials (rt_key tk) (ls_tables s)) :: ls_replaced s else ls_replaced s) (ls_owners s)).
Proof.
  intros E Hp Hpe Hi. pose proof (inv_fewer s before tk after (ls_sent s) E Hi) as Hi'. destruct Hi as [_ _ _ Hf He].
  refine (inv_rows (MkLeaseSystem (ls_tables s) (before ++ after) (ls_sent s) (ls_replaced s) (ls_owners s)) t (ls_sent s) _ (ls_owners s) _ _ _ Hi'); cbn; [| |done].
  - intros k r' Hk. pose proof (persist_row _ _ _ _ _ _ _ _ _ _ _ _ _ _ _ _ Hpe Hk) as Hrow.
    destruct (b && _); [by left|right; by exists r'].
  - destruct b; [|done]. intros e [->|Hin]%elem_of_cons; [|by apply He]. cbn.
    apply persist_hit in Hpe as (r & Hr & Ho). unfold stored_credentials. rewrite Hr. cbn. f_equal.
    specialize (Hf tk r). unfold task_fits in Hf. rewrite Hp in Hf. apply Hf; [rewrite E; set_solver|done|done].
Qed.

Lemma lease_inv_step instances s s' : lease_inv s → refresh_step instances s s' → lease_inv s'.
Proof.
  intros Hi Hs. destruct Hs.
  - by apply inv_load.
  - apply (inv_swap s before tk); [done|done| |done]. intros r Hk Ho. destruct Hi as [_ _ _ Hf _].
    specialize (Hf tk r ltac:(rewrite H1; set_solver) Hk Ho). unfold task_fits in Hf. by rewrite H2 in Hf.
  - by eapply inv_acquire.
  - apply (inv_swap s before tk); [done|done| |done]. intros r Hk Ho. destruct Hi as [_ _ _ Hf _].
    specialize (Hf tk r ltac:(rewrite H1; set_solver) Hk Ho). unfold task_fits in *. by rewrite H2 in Hf.
  - by eapply inv_persist.
  - apply inv_rows; [|apply Hi|done|done]. intros k r' (r & Hr & Ec & [Eo|Eo])%release_row; [by left|right; by exists r].
  - by eapply inv_fewer.
  - assert (lease_inv (MkLeaseSystem t (ls_tasks s) (ls_sent s) (ls_replaced s) (ls_owners s))) as [Hd Ht Hr Hf He].
    { apply inv_rows; [|apply Hi|done|done]. intros k r' Hk. pose proof (login_row_of _ _ _ _ _ _ _ _ H1 Hk) as Hrow.
      case_bool_decide; [by left|right; by exists r']. }
    split; cbn in *; try done.
    + by rewrite map_map.
    + intros x (tk & <- & Hin)%list_elem_of_In%in_map_iff. by apply (Ht tk), list_elem_of_In.
    + intros x r (tk & <- & Hin)%list_elem_of_In%in_map_iff Hk Ho. by apply (Hf tk r); [apply list_elem_of_In| |].
  - apply inv_rows; [|apply Hi|done|done]. intros k r' (r & Hr & Ec & Eo)%H1. right. by exists r.
Qed.

Lemma lease_inv_start s : lease_start s → lease_inv s.
Proof. intros (Et & _ & Er & Ho). split; rewrite ?Et ?Er; cbn; [constructor|set_solver|exact Ho|set_solver|set_solver]. Qed.

Lemma lease_inv_reachable instances s0 s : lease_start s0 → rtc (refresh_step instances) s0 s → lease_inv s.
Proof. intros Hs%lease_inv_start Hr. revert Hs. induction Hr; [done|]. intros Hi. by eapply IHHr, lease_inv_step. Qed.

(** C8. Whatever the number of instances and the interleaving of their tasks with logins and
    other changes, a refresh that is stored replaces exactly the credentials that were stored
    when its lease was taken: new tokens, of another refresh or of a login, are never
    overwritten by a refresh that began before them. *)
Theorem refresh_replaces_what_it_leased instances s0 s e :
  lease_start s0 → rtc (refresh_step instances) s0 s → e ∈ ls_replaced s → rp_replaced e = Some (rp_found e).
Proof. intros Hs Hr. by apply (li_replaced _ (lease_inv_reachable _ _ _ Hs Hr)). Qed.

(** ** One instance *)

(** A sending that is in order: of the token stored, or the account was signed in again or is
    gone. *)
Definition sending_current (e : Sending) : Prop :=
  sd_overtaken e = true ∨ sd_stored e = None ∨ sd_stored e = Some (sd_token e).

(** A task that was not overtaken and has not sent knows the credentials of its row. *)
Definition knows (t : CodexTables) (tk : RefreshTask) : Prop :=
  rt_overtaken tk = false → (∀ found, rt_phase tk ≠ Asked found) →
  ∀ r, ct_accounts t !! rt_key tk = Some r → read_credentials (ar_credentials_enc r) = Some (ac_credentials (rt_account tk)).

Record single_inv (i : nat) (s : LeaseSystem) : Prop := {
  si_keys : NoDup (map rt_key (ls_tasks s));
  si_instance tk : tk ∈ ls_tasks s → rt_instance tk = i;
  si_knows tk : tk ∈ ls_tasks s → knows (ls_tables s) tk;
  si_sent e : e ∈ ls_sent s → sending_current e
}.

Lemma find_reads key_id t a r : find_codex_oauth_account master_key key_id t = inl (Some a) → ct_accounts t !! key_id = Some r →
  read_credentials (ar_credentials_enc r) = Some (ac_credentials a).
Proof.
  unfold find_codex_oauth_account, joined. intros Hf Hr. rewrite Hr in Hf. destruct (ct_keys t !! key_id) as [key|]; [|done].
  apply res_bind_inl in Hf as (a' & Hd & [= ->]). unfold decode_account_fields in Hd.
  apply res_bind_inl in Hd as (token & _ & Hd). apply res_bind_inl in Hd as (json & Hj%map_err_inl & Hd).
  apply res_bind_inl in Hd as (c & Hc%map_err_inl & Hd). apply res_bind_inl in Hd as (q & _ & [= <-]).
  unfold read_credentials. by rewrite Hj Hc.
Qed.

Lemma knows_left t t' tk : (∀ r', ct_accounts t' !! rt_key tk = Some r' → ∃ r, ct_accounts t !! rt_key tk = Some r
    ∧ ar_credentials_enc r' = ar_credentials_enc r) → knows t tk → knows t' tk.
Proof. intros Hl Hk Ho Hp r' (r & Hr & ->)%Hl. by apply Hk. Qed.

(** A statement that leaves what the tasks know. *)
Lemma single_rows i s t replaced owners :
  (∀ tk, tk ∈ ls_tasks s → knows (ls_tables s) tk → knows t tk) →
  single_inv i s → single_inv i (MkLeaseSystem t (ls_tasks s) (ls_sent s) replaced owners).
Proof. intros Hl [Hd Hi Hk He]. split; cbn; try done. intros tk Hin. by apply Hl, Hk. Qed.

Lemma single_fewer i s before tk after replaced owners : ls_tasks s = before ++ tk :: after →
  single_inv i s → single_inv i (MkLeaseSystem (ls_tables s) (before ++ after) (ls_sent s) replaced owners).
Proof.
  intros E [Hd Hi Hk He]. rewrite E in Hd Hi Hk. apply NoDup_map_middle in Hd as [Hd _].
  split; cbn; try done; intros x Hin; [apply Hi|apply Hk]; by apply elem_of_rest.
Qed.

Lemma single_swap i s before tk tk' after sent : ls_tasks s = before ++ tk :: after →
  rt_key tk' = rt_key tk → rt_instance tk' = rt_instance tk → (knows (ls_tables s) tk → knows (ls_tables s) tk') →
  (∀ e, e ∈ sent → sending_current e) →
  single_inv i s → single_inv i (MkLeaseSystem (ls_tables s) (before ++ tk' :: after) sent (ls_replaced s) (ls_owners s)).
Proof.
  intros E Ek Ein Hkn Hs [Hd Hi Hk He]. rewrite E in Hd Hi Hk. split; cbn; [by rewrite (map_swap rt_key before tk)| | |done].
  - intros x [->|Hin]%(elem_of_swap _ _ tk); [rewrite Ein; apply Hi; set_solver|by apply Hi].
  - intros x [->|Hin]%(elem_of_swap _ _ tk); [apply Hkn, Hk; set_solver|by apply Hk].
Qed.

Lemma single_step i s s' : single_inv i s → refresh_step [i] s s' → single_inv i s'.
Proof.
  intros Hi Hs. destruct Hs.
  - destruct Hi as [Hd Hin Hk He]. apply list_elem_of_singleton in H1 as ->. split; cbn; [| | |done].
    + apply NoDup_cons. split; [|done]. intros (tk & Ek & Hel)%list_elem_of_In%in_map_iff. apply list_elem_of_In in Hel.
      apply (H2 tk Hel). split; [by apply Hin|done].
    + intros tk [->|Hel]%elem_of_cons; [done|by apply Hin].
    + intros tk [->|Hel]%elem_of_cons; [|by apply Hk]. intros _ _ r Hr. by eapply find_reads.
  - apply (single_swap i s before tk); [done..| |by apply (si_sent i)|done]. intros _ _ _ r Hr. by eapply find_reads.
  - apply (single_swap i (MkLeaseSystem t (ls_tasks s) (ls_sent s) (ls_replaced s) (ls_owners s)) before tk); cbn; [done..| |by apply (si_sent i)|].
    + intros Hk Ho Hp. apply Hk; [done|]. intros f Hf. by rewrite H2 in Hf.
    + apply single_rows; [|done]. intros x Hin. apply knows_left. intros r' Hr. pose proof (acquire_row _ _ _ _ _ _ _ _ H3 Hr) as Hrow.
      case_bool_decide as E; [|by exists r']. destruct Hrow as (r & ? & ? & _). by exists r.
  - apply (single_swap i s before tk); [done..| | |done].
    + intros _ _ Hp. by destruct (Hp found).
    + intros e [->|Hin]%elem_of_cons; [|by apply (si_sent i s)]. unfold sending_current. cbn.
      destruct (rt_overtaken tk) eqn:Eo; [by left|]. right. unfold stored_refresh_token, stored_credentials.
      destruct (ct_accounts (ls_tables s) !! rt_key tk) as [r|] eqn:Er; [right|by left]. cbn.
      assert (tk ∈ ls_tasks s) as Hin by (rewrite H1; set_solver).
      assert (∀ f, rt_phase tk ≠ Asked f) as Hp by (intros f; by rewrite H2).
      by rewrite (si_knows i s Hi tk Hin Eo Hp r Er).
  - pose proof (NoDup_map_middle rt_key before tk after) as Hother. rewrite -H1 in Hother.
    destruct (Hother (si_keys i s Hi)) as [_ Hne].
    apply (single_rows i (MkLeaseSystem (ls_tables s) (before ++ after) (ls_sent s) (ls_replaced s) (ls_owners s)));
      [cbn|by apply (single_fewer i s before tk after)]. intros x Hin. apply knows_left. intros r' Hr.
    pose proof (persist_row _ _ _ _ _ _ _ _ _ _ _ _ _ _ _ _ H3 Hr) as Hrow. rewrite (bool_decide_eq_false_2 _ (Hne x Hin)) andb_false_r in Hrow.
    by exists r'.
  - apply single_rows; [|done]. intros x Hin. apply knows_left. intros r' (r & ? & ? & _)%release_row. by exists r.
  - by eapply single_fewer.
  - destruct Hi as [Hd Hin Hk He]. split; cbn; [by rewrite map_map| | |done].
    + intros x (tk & <- & Hel)%list_elem_of_In%in_map_iff. by apply (Hin tk), list_elem_of_In.
    + intros x (tk & <- & Hel)%list_elem_of_In%in_map_iff. apply list_elem_of_In in Hel. unfold overtake. intros Ho. cbn in Ho.
      apply orb_false_iff in Ho as [Ho Hne]. intros Hp r' Hr. cbn in Hp, Hr |- *.
      pose proof (login_row_of _ _ _ _ _ _ _ _ H1 Hr) as Hrow. rewrite bool_decide_eq_false_2 in Hrow; [|lia].
      by apply (Hk tk Hel Ho Hp).
  - apply single_rows; [|done]. intros x Hin. apply knows_left. intros r' (r & ? & ? & _)%H1. by exists r.
Qed.

Lemma single_start i s : lease_start s → single_inv i s.
Proof. intros (Et & Es & _). split; rewrite ?Et ?Es; cbn; [constructor|set_solver..]. Qed.

(** C16. On a single instance the lock of the key makes every refresh use the current token: the
    refresh token that is sent is the one stored at that moment, unless the account was signed
    in again, or deleted, after the task read it. *)
Theorem single_instance_sends_current_token i s0 s e :
  lease_start s0 → rtc (refresh_step [i]) s0 s → e ∈ ls_sent s →
  sd_overtaken e = true ∨ sd_stored e = None ∨ sd_stored e = Some (sd_token e).
Proof.
  intros Hs%(single_start i) Hr. apply (si_sent i s). revert Hs. induction Hr; [done|]. intros Hi. by eapply IHHr, single_step.
Qed.
End Lease.

(** ** Two instances *)

(** An account that was signed in, and whose access token has expired. *)
#[local] Existing Instance plain_crypto.
#[local] Existing Instance example_account_lib.

Definition race_tables : CodexTables :=
  (save_codex_oauth_login "master" example_nonce example_nonce (example_login None)
     (MkCodexTables {[7]} ∅ 3 ∅)).2.
Definition race_account : CodexOAuthAccount :=
  MkAccount 3 7 "access-1" example_credentials (Some "plus") (Some 3600000) (Some 0) "active" None None None None.
Definition race_now : Z := 3600000.
Definition race_start : LeaseSystem := MkLeaseSystem race_tables [] [] [] ∅.
Definition race_task (i : nat) (owner : string) : RefreshTask := MkRefreshTask i 3 owner race_account Loaded false.

(** The tables after the first instance took the lease, stored the new tokens, and after the
    second took the lease in turn. *)
Definition race_leased : CodexTables := (try_acquire_codex_refresh_lease 3 "first" (race_now + 30000) race_now race_tables).2.
Definition race_rotated : CodexTables :=
  (persist_codex_token_refresh "master" example_nonce example_nonce 3 "first" "access-2" rotated_credentials (Some "plus")
     (Some 7200000) "active" None race_now race_leased).2.
Definition race_leased_again : CodexTables := (try_acquire_codex_refresh_lease 3 "second" (race_now + 30000) race_now race_rotated).2.
Definition race_found (t : CodexTables) : string := match stored_credentials 3 t with Some c => c | None => "" end.

Lemma race_starts : lease_start race_start.
Proof.
  split_and!; [done..|]. intros k r o Hk Ho.
  assert (save_codex_oauth_login "master" example_nonce example_nonce (example_login None) (MkCodexTables {[7]} ∅ 3 ∅)
    = (inl (MkSaved 3 Created), race_tables)) as E by (by vm_compute).
  pose proof (login_row_of _ _ _ _ _ _ _ _ _ E Hk) as Hrow. case_bool_decide; [congruence|done].
Qed.

(** The first instance alone, up to the new tokens. *)
Definition race_sent : Sending := MkSending 3 "refresh-1" (stored_refresh_token "master" 3 race_leased) false.
Definition race_replaced : Replacing := MkReplacing 3 (race_found race_tables) (stored_credentials 3 race_leased).
Definition race_end : LeaseSystem := MkLeaseSystem race_rotated [] [race_sent] [race_replaced] ({["first"]} ∪ ∅).

Lemma race_alone : rtc (refresh_step "master" [0%nat]) race_start race_end.
Proof.
  eapply rtc_l; [apply (StepLoad _ _ _ 0%nat 3 "first" race_account); [set_solver|set_solver|by vm_compute|set_solver]|].
  eapply rtc_l; [apply (StepAcquire _ _ _ [] (race_task 0 "first") [] (race_now + 30000) race_now race_leased (race_found race_tables)); by vm_compute|].
  eapply rtc_l; [apply (StepSend _ _ _ [] (set_rt_phase (Leased (race_found race_tables)) (race_task 0 "first")) [] (race_found race_tables)); by vm_compute|].
  eapply rtc_l; [apply (StepPersist _ _ _ [] (set_rt_phase (Asked (race_found race_tables)) (race_task 0 "first")) [] (race_found race_tables)
    example_nonce example_nonce "access-2" rotated_credentials (Some "plus") (Some 7200000) "active" None race_now true race_rotated); by vm_compute|].
  apply rtc_refl.
Qed.

Lemma refresh_replaces_what_it_leased_witness :
  rp_replaced race_replaced = Some (rp_found race_replaced) ∧ stored_refresh_token "master" 3 (ls_tables race_end) = Some "refresh-2".
Proof.
  split; [|by vm_compute].
  apply (refresh_replaces_what_it_leased "master" [0%nat] race_start race_end race_replaced race_starts race_alone). left.
Defined.

Lemma single_instance_sends_current_token_witness :
  sd_overtaken race_sent = true ∨ sd_stored race_sent = None ∨ sd_stored race_sent = Some (sd_token race_sent).
Proof.
  apply (single_instance_sends_current_token "master" 0 race_start race_end race_sent race_starts race_alone). left.
Defined.

(** With two instances the lease does not have that effect: both read the account, one
    refreshes it and gives the lease back, the other takes the lease then and sends the refresh
    token that was just replaced, without having read the account again. *)
Theorem two_instances_send_replaced_token :
  ∃ s e, lease_start race_start ∧ rtc (refresh_step "master" [0%nat; 1%nat]) race_start s
    ∧ head (ls_sent s) = Some e ∧ sd_overtaken e = false ∧ sd_token e = "refresh-1" ∧ sd_stored e = Some "refresh-2".
Proof.
  do 2 eexists. split.
  { apply race_starts. }
  split.
  - eapply rtc_l; [apply (StepLoad _ _ _ 0%nat 3 "first" race_account); [set_solver|set_solver|by vm_compute|set_solver]|]. cbn [ls_tables ls_tasks ls_sent ls_replaced ls_owners race_start].
    eapply rtc_l; [apply (StepLoad _ _ _ 1%nat 3 "second" race_account); cbn; [set_solver| |by vm_compute|set_solver]|].
    { intros tk ->%list_elem_of_singleton [? _]. done. }
    eapply rtc_l; [apply (StepAcquire _ _ _ [race_task 1 "second"] (race_task 0 "first") [] (race_now + 30000) race_now race_leased (race_found race_tables)); by vm_compute|].
    eapply rtc_l; [apply (StepSend _ _ _ [race_task 1 "second"] (set_rt_phase (Leased (race_found race_tables)) (race_task 0 "first")) [] (race_found race_tables)); by vm_compute|].
    eapply rtc_l; [apply (StepPersist _ _ _ [race_task 1 "second"] (set_rt_phase (Asked (race_found race_tables)) (race_task 0 "first")) [] (race_found race_tables)
      example_nonce example_nonce "access-2" rotated_credentials (Some "plus") (Some 7200000) "active" None race_now true race_rotated); by vm_compute|].
    eapply rtc_l; [apply (StepAcquire _ _ _ [] (race_task 1 "second") [] (race_now + 30000) race_now race_leased_again (race_found race_rotated)); by vm_compute|].
    eapply rtc_l; [apply (StepSend _ _ _ [] (set_rt_phase (Leased (race_found race_rotated)) (race_task 1 "second")) [] (race_found race_rotated)); by vm_compute|].
    apply rtc_refl.
  - cbn. split; [reflexivity|]. by vm_compute.
Qed.
