(* ===== verification/CodexSessions.v ===== *)
(** * CodexSessions: signing an account in

    Models the login sessions of [codex_oauth.rs]: the sessions and the targets that are being
    started, the operations of [CodexOAuthManager] on them, and the task that carries a login
    through - polling for the device code, exchanging the code, saving the credentials - as the
    state machine of its waits. The answers it waits for are what [CodexTokens] makes of them;
    the login is saved by [CodexAccounts], and followed up by [CodexRefresh]. *)
From Stdlib Require Import Ascii String.
From S2P Require Import Prelude Text Json Crypto CodexTokens CodexAccounts.

Local Open Scope string_scope.
Local Open Scope list_scope.
Local Open Scope Z_scope.

Definition DEVICE_SESSION_TTL_MS : Z := 15 * 60 * 1000.
Definition BROWSER_SESSION_TTL_MS : Z := 5 * 60 * 1000.
Definition DEVICE_SESSION_TOMBSTONE_MS : Z := 5 * 60 * 1000.
Definition BROWSER_POLL_INTERVAL_MS : Z := 1000.

(** ** Sessions *)
Inductive SessionStatus := Pending | Completed | Failed | Cancelled | Expired.
Inductive CodexOAuthFlow := Browser | Device.
Inductive SessionStage := WaitingForUser | Exchanging | Finalizing | Finished.
Inductive SessionFlowData :=
| DeviceData (device_auth_id user_code : string)
| BrowserData (state code_verifier authorization_url : string) (callback_claimed : bool).

#[export] Instance status_eq_dec : EqDecision SessionStatus.
Proof. solve_decision. Defined.
#[export] Instance stage_eq_dec : EqDecision SessionStage.
Proof. solve_decision. Defined.

Definition status_str (s : SessionStatus) : string :=
  match s with Pending => "pending" | Completed => "completed" | Failed => "failed" | Cancelled => "cancelled" | Expired => "expired" end.
Definition flow_str (f : CodexOAuthFlow) : string := match f with Browser => "browser" | Device => "device" end.
Definition stage_str (s : SessionStage) : string :=
  match s with WaitingForUser => "waiting_for_user" | Exchanging => "exchanging" | Finalizing => "finalizing" | Finished => "finished" end.
Definition terminal (s : SessionStatus) : bool := negb (bool_decide (s = Pending)).

(** A provider, and the key that is signed in again. *)
Definition SessionTarget : Type := Z * option Z.

(** A session; its flag [cancel_requested] is kept in the manager, its save gate is held by the
    task that saves. *)
Record SessionRecord := MkSession {
  se_session_id : string;
  se_provider_id : Z;
  se_replace_key_id : option Z;
  se_flow : CodexOAuthFlow;
  se_flow_data : SessionFlowData;
  se_stage : SessionStage;
  se_poll_interval_ms : Z;
  se_expires_at_ms : Z;
  se_terminal_at_ms : option Z;
  se_status : SessionStatus;
  se_key_id : option Z;
  se_operation : option CodexLoginOperation;
  se_warnings : list string;
  se_error_code : option string;
  se_error_message : option string
}.
Definition se_target (r : SessionRecord) : SessionTarget := (se_provider_id r, se_replace_key_id r).

(** The record after it ended, or went on to another stage. *)
Definition ended (status : SessionStatus) (now_ms : Z) (code message : option string) (r : SessionRecord) : SessionRecord :=
  MkSession (se_session_id r) (se_provider_id r) (se_replace_key_id r) (se_flow r) (se_flow_data r) Finished (se_poll_interval_ms r)
    (se_expires_at_ms r) (Some now_ms) status (se_key_id r) (se_operation r) (se_warnings r) code message.
Definition set_se_stage (stage : SessionStage) (r : SessionRecord) : SessionRecord :=
  MkSession (se_session_id r) (se_provider_id r) (se_replace_key_id r) (se_flow r) (se_flow_data r) stage (se_poll_interval_ms r)
    (se_expires_at_ms r) (se_terminal_at_ms r) (se_status r) (se_key_id r) (se_operation r) (se_warnings r) (se_error_code r) (se_error_message r).
Definition set_se_flow_data (d : SessionFlowData) (r : SessionRecord) : SessionRecord :=
  MkSession (se_session_id r) (se_provider_id r) (se_replace_key_id r) (se_flow r) d (se_stage r) (se_poll_interval_ms r)
    (se_expires_at_ms r) (se_terminal_at_ms r) (se_status r) (se_key_id r) (se_operation r) (se_warnings r) (se_error_code r) (se_error_message r).
Definition completed (saved : SaveCodexLoginResult) (warnings : list string) (now_ms : Z) (r : SessionRecord) : SessionRecord :=
  MkSession (se_session_id r) (se_provider_id r) (se_replace_key_id r) (se_flow r) (se_flow_data r) Finished (se_poll_interval_ms r)
    (se_expires_at_ms r) (Some now_ms) Completed (Some (sr_key_id saved)) (Some (sr_operation saved)) warnings (se_error_code r) (se_error_message r).

Definition expired_record (now_ms : Z) : SessionRecord → SessionRecord :=
  ended Expired now_ms (Some "oauth_session_expired") (Some "the OAuth login session expired").

Record CodexOAuthSessionView := MkSessionView {
  vs_session_id : string;
  vs_status : string;
  vs_flow : string;
  vs_stage : string;
  vs_verification_uri : string;
  vs_user_code : option string;
  vs_expires_at_ms : Z;
  vs_poll_interval_ms : Z;
  vs_key_id : option Z;
  vs_operation : option string;
  vs_warnings : list string;
  vs_error_code : option string;
  vs_error_message : option string
}.

Definition session_view (r : SessionRecord) : CodexOAuthSessionView :=
  let '(verification_uri, user_code) :=
    match se_flow_data r with
    | DeviceData _ user_code => (DEVICE_VERIFICATION_URI, Some user_code)
    | BrowserData _ _ authorization_url _ => (authorization_url, None)
    end in
  MkSessionView (se_session_id r) (status_str (se_status r)) (flow_str (se_flow r)) (stage_str (se_stage r)) verification_uri user_code
    (se_expires_at_ms r) (se_poll_interval_ms r) (se_key_id r) (option_map operation_str (se_operation r)) (se_warnings r)
    (se_error_code r) (se_error_message r).

(** ** The manager *)

(** The sessions, the targets being started, and the sessions whose flag [cancel_requested] is
    set; the flag outlives its session in the tasks that hold it. *)
Record Manager := MkManager {
  mg_sessions : gmap string SessionRecord;
  mg_starting : gset SessionTarget;
  mg_cancel_requested : gset string
}.
Definition set_mg_sessions v m := MkManager v (mg_starting m) (mg_cancel_requested m).
Definition request_cancel (id : string) (m : Manager) : Manager :=
  MkManager (mg_sessions m) (mg_starting m) ({[id]} ∪ mg_cancel_requested m).
Definition put_session (id : string) (r : SessionRecord) (m : Manager) : Manager := set_mg_sessions (<[id := r]> (mg_sessions m)) m.

Definition kept (now_ms : Z) (r : SessionRecord) : bool :=
  if negb (terminal (se_status r)) then now_ms <? i64_sat_add (se_expires_at_ms r) DEVICE_SESSION_TOMBSTONE_MS
  else is_none_or (se_terminal_at_ms r) (λ at_ms, now_ms <? i64_sat_add at_ms DEVICE_SESSION_TOMBSTONE_MS).

Definition prune_sessions (now_ms : Z) (m : Manager) : Manager :=
  set_mg_sessions (filter (λ '(_, r), kept now_ms r = true) (mg_sessions m)) m.

(** *** Starting a session *)
Definition is_pending (r : SessionRecord) : bool := bool_decide (se_status r = Pending).

Definition in_progress (target : SessionTarget) (m : Manager) : bool :=
  bool_decide (target ∈ mg_starting m)
  || existsb (λ '(_, r), is_pending r && bool_decide (se_target r = target)) (map_to_list (mg_sessions m)).

Definition reserve_starting_target (target : SessionTarget) (m : Manager) : Manager + CodexOAuthError :=
  if in_progress target m
  then inr (conflict "oauth_session_in_progress" "an OAuth session is already active for this target")
  else inl (MkManager (mg_sessions m) ({[target]} ∪ mg_starting m) (mg_cancel_requested m)).

(** The guard is dropped while it is armed. *)
Definition drop_starting_guard (target : SessionTarget) (m : Manager) : Manager :=
  MkManager (mg_sessions m) (mg_starting m ∖ {[target]}) (mg_cancel_requested m).

Definition insert_session (id : string) (r : SessionRecord) (target : SessionTarget) (m : Manager) : Manager :=
  MkManager (<[id := r]> (mg_sessions m)) (mg_starting m ∖ {[target]}) (mg_cancel_requested m).

Section Start.
Context `{OAuthLib}.

(** What a flow begins with: its data, its interval and when it expires. *)
Definition device_flow (now_ms : Z) (response : DeviceUserCodeResponse) : (SessionFlowData * Z * Z) + CodexOAuthError :=
  let code := opt_filter (λ value, negb (String.eqb value "")) (option_map trim (opt_or (uc_user_code response) (uc_user_code_alt response))) in
  let? user_code := ok_or code (upstream "device_code_invalid" "device code response did not include a user code") in
  let device_auth_id := trim (uc_device_auth_id response) in
  if String.eqb device_auth_id ""
  then inr (upstream "device_code_invalid" "device code response did not include a device auth id")
  else inl (DeviceData device_auth_id user_code, parse_poll_interval_ms (uc_interval response), i64_sat_add now_ms DEVICE_SESSION_TTL_MS).

(** The bytes are the ones drawn: 32 for the state, 96 for the verifier. *)
Definition browser_flow (now_ms : Z) (state_bytes verifier_bytes : list ascii) : (SessionFlowData * Z * Z) + CodexOAuthError :=
  let state := random_urlsafe state_bytes in
  let code_verifier := random_urlsafe verifier_bytes in
  let? url := build_authorization_url state (pkce_challenge code_verifier) in
  inl (BrowserData state code_verifier url false, BROWSER_POLL_INTERVAL_MS, i64_sat_add now_ms BROWSER_SESSION_TTL_MS).

Definition begin_flow (flow : CodexOAuthFlow) (now_ms : Z) (answer : Transmission) (state_bytes verifier_bytes : list ascii)
    : (SessionFlowData * Z * Z) + CodexOAuthError :=
  match flow with
  | Device => let? response := device_user_code_answer answer in device_flow now_ms response
  | Browser => browser_flow now_ms state_bytes verifier_bytes
  end.
End Start.

Definition new_session (id : string) (target : SessionTarget) (flow : CodexOAuthFlow) (start : SessionFlowData * Z * Z) : SessionRecord :=
  let '(flow_data, poll_interval_ms, expires_at_ms) := start in
  MkSession id target.1 target.2 flow flow_data WaitingForUser poll_interval_ms expires_at_ms None Pending None None [] None None.

(** *** Reading and cancelling, under the gate of the session *)
Definition overdue (now_ms : Z) (r : SessionRecord) : bool :=
  is_pending r && negb (bool_decide (se_stage r = Finalizing)) && (se_expires_at_ms r <=? now_ms).

Definition get_session (now_ms : Z) (id : string) (m : Manager) : option CodexOAuthSessionView * Manager :=
  match mg_sessions m !! id with
  | None => (None, m)
  | Some r =>
      if overdue now_ms r then
        let r := expired_record now_ms r in (Some (session_view r), request_cancel id (put_session id r m))
      else (Some (session_view r), m)
  end.

Definition cancel_session (now_ms : Z) (id : string) (m : Manager) : bool * Manager :=
  match mg_sessions m !! id with
  | None => (false, m)
  | Some r =>
      if is_pending r && negb (bool_decide (se_stage r = Finalizing))
      then (true, put_session id (ended Cancelled now_ms None None r) (request_cancel id m))
      else (true, m)
  end.

(** *** The callback of the browser *)
Record ClaimedBrowserCallback := MkClaimed { cc_code : string; cc_code_verifier : string; cc_view : CodexOAuthSessionView }.

Definition session_not_found : CodexOAuthError := bad_request "oauth_session_not_found" "the OAuth login session was not found".

(** The session whose state came back, when the request names none. *)
Definition session_by_state {Ord : HashOrder string SessionRecord} (state : string) (m : Manager) : string + CodexOAuthError :=
  let matches '(id, r) := match se_flow_data r with BrowserData s _ _ _ => String.eqb s state | DeviceData _ _ => false end in
  ok_or (head (map fst (List.filter matches (hash_entries (mg_sessions m)))))
    (bad_request "oauth_state_invalid" "the OAuth callback state did not match an active session").

Definition authorization_failed (callback : BrowserCallback) (error : string) : string :=
  let detail := unwrap_or (opt_filter not_blank (cb_error_description callback)) error in
  sanitize_persisted_error ("OpenAI authorization failed: " +:+ detail).

Definition claim_browser_callback (now_ms : Z) (id : string) (callback : BrowserCallback) (m : Manager)
    : (ClaimedBrowserCallback + CodexOAuthError) * Manager :=
  match mg_sessions m !! id with
  | None => (inr session_not_found, m)
  | Some r =>
      match se_flow_data r with
      | DeviceData _ _ => (inr (bad_request "oauth_flow_mismatch" "the OAuth session does not accept browser callbacks"), m)
      | BrowserData state code_verifier url claimed =>
          if negb (String.eqb state (cb_state callback))
          then (inr (bad_request "oauth_state_invalid" "the OAuth callback state did not match the login session"), m)
          else if negb (is_pending r)
          then (inr (conflict "oauth_session_not_pending" "the OAuth login session is no longer pending"), m)
          else if se_expires_at_ms r <=? now_ms
          then (inr (conflict "oauth_session_expired" "the OAuth login session expired"), request_cancel id (put_session id (expired_record now_ms r) m))
          else if claimed
          then (inr (conflict "oauth_callback_already_submitted" "the OAuth callback was already submitted"), m)
          else
            let r := set_se_flow_data (BrowserData state code_verifier url true) r in
            match cb_error callback with
            | Some error =>
                let message := authorization_failed callback error in
                (inr (bad_request "oauth_authorization_failed" message),
                 put_session id (ended Failed now_ms (Some "oauth_authorization_failed") (Some message) r) m)
            | None =>
                match cb_code callback with
                | None => (inr (bad_request "oauth_callback_code_missing" "the OAuth callback did not include an authorization code"), m)
                | Some code =>
                    let r := set_se_stage Exchanging r in
                    (inl (MkClaimed code code_verifier (session_view r)), put_session id r m)
                end
            end
      end
  end.

(** [submit_callback], which names its session, and [submit_callback_url], which does not: the
    session and what was claimed. *)
Definition submit_callback `{OAuthLib} {Ord : HashOrder string SessionRecord} (now_ms : Z) (session_id : option string) (redirect_url : string)
    (m : Manager) : (string * ClaimedBrowserCallback + CodexOAuthError) * Manager :=
  match parse_browser_callback_url redirect_url with
  | inr error => (inr error, m)
  | inl callback =>
      let m := prune_sessions now_ms m in
      match (match session_id with Some id => inl id | None => session_by_state (cb_state callback) m end) with
      | inr error => (inr error, m)
      | inl id =>
          match claim_browser_callback now_ms id callback m with
          | (inl claimed, m) => (inl (id, claimed), m)
          | (inr error, m) => (inr error, m)
          end
      end
  end.

(** The page the browser is sent to, by its status, title and message. *)
Record CallbackPage := MkPage { pg_status : Z; pg_title : string; pg_message : string }.

Definition handle `{OAuthLib} {Ord : HashOrder string SessionRecord} (now_ms : Z) (method path : string) (path_and_query : option string)
    (m : Manager) : CallbackPage * Manager :=
  if negb (String.eqb method "GET") then (MkPage 405 "Method Not Allowed" "Return to the admin console and start sign-in again.", m)
  else if negb (String.eqb path "/auth/callback") then (MkPage 404 "Callback Not Found" "Return to the admin console and start sign-in again.", m)
  else
    let redirect_url := "http://localhost:1455" +:+ unwrap_or path_and_query "/auth/callback" in
    match submit_callback now_ms None redirect_url m with
    | (inl _, m) => (MkPage 200 "Codex Sign-In Received" "You can close this tab and return to the admin console.", m)
    | (inr error, m) =>
        (MkPage (http_status error) "Codex Sign-In Could Not Be Completed"
           "Return to the admin console to retry or submit the callback URL manually.", m)
    end.

(** *** What the task of a login asks and marks *)
Record SessionPollSnapshot := MkSnapshot {
  sp_device_auth_id : string;
  sp_user_code : string;
  sp_poll_interval_ms : Z;
  sp_expires_at_ms : Z
}.

Definition session_poll_snapshot (id : string) (m : Manager) : option SessionPollSnapshot :=
  let! r := mg_sessions m !! id in
  if negb (is_pending r) || negb (bool_decide (se_stage r = WaitingForUser)) then None
  else
    match se_flow_data r with
    | DeviceData device_auth_id user_code => Some (MkSnapshot device_auth_id user_code (se_poll_interval_ms r) (se_expires_at_ms r))
    | BrowserData _ _ _ _ => None
    end.

Definition session_target (id : string) (m : Manager) : option SessionTarget := option_map se_target (mg_sessions m !! id).

Definition cancel_requested (id : string) (m : Manager) : bool := bool_decide (id ∈ mg_cancel_requested m).

Definition session_cancelled (id : string) (m : Manager) : bool :=
  is_none_or (mg_sessions m !! id) (λ r, negb (is_pending r) || cancel_requested id m).

Definition session_expired (id : string) (now_ms : Z) (m : Manager) : bool :=
  is_none_or (mg_sessions m !! id) (λ r, se_expires_at_ms r <=? now_ms).

Definition mark_session_stage (id : string) (stage : SessionStage) (m : Manager) : bool * Manager :=
  match mg_sessions m !! id with
  | None => (false, m)
  | Some r => if negb (is_pending r) || cancel_requested id m then (false, m) else (true, put_session id (set_se_stage stage r) m)
  end.

Definition mark_session_error (id : string) (status : SessionStatus) (code message : string) (now_ms : Z) (m : Manager) : Manager :=
  match mg_sessions m !! id with
  | None => m
  | Some r => if is_pending r then put_session id (ended status now_ms (Some code) (Some (sanitize_persisted_error message)) r) m else m
  end.

Definition mark_session_completed (id : string) (saved : SaveCodexLoginResult) (warnings : list string) (now_ms : Z) (m : Manager) : Manager :=
  match mg_sessions m !! id with
  | None => m
  | Some r => if negb (is_pending r) || cancel_requested id m then m else put_session id (completed saved warnings now_ms r) m
  end.

(** ** The task of a login *)

(** Where a task waits: before it polls again; for the answer to a poll; for the exchange of
    its code; for the gate of its session, with the tokens; for the credentials to be saved,
    holding the gate; for what follows. *)
Inductive Phase :=
| Polling
| PollAsked (snapshot : SessionPollSnapshot)
| Exchange (request : OAuthRequest)
| WaitGate (bundle : TokenBundle) (claims : IdTokenClaims)
| Saving (login : SaveCodexLogin)
| Following (saved : SaveCodexLoginResult).

(** What it finds when it goes on: the time, an answer, the outcome of the save, the warnings. *)
Record WorkerInput := MkInput {
  wi_now_ms : Z;
  wi_answer : Transmission;
  wi_saved : SaveCodexLoginResult + DbError;
  wi_warnings : list string
}.

Section Worker.
Context `{CryptoLib, OAuthLib} (master_key : string).

Definition fail_session (id : string) (error : CodexOAuthError) (now_ms : Z) : Manager → Manager :=
  mark_session_error id Failed (oe_code error) (oe_message error) now_ms.
Definition expire_session (id : string) (now_ms : Z) : Manager → Manager :=
  mark_session_error id Expired "oauth_session_expired" "the OAuth login session expired" now_ms.

(** The top of the polling loop. *)
Definition poll_again (id : string) (now_ms : Z) (m : Manager) : option Phase * Manager :=
  match session_poll_snapshot id m with
  | None => (None, m)
  | Some snapshot =>
      if cancel_requested id m then (None, m)
      else if sp_expires_at_ms snapshot <=? now_ms then (None, expire_session id now_ms m)
      else (Some (PollAsked snapshot), m)
  end.

Definition polled (id : string) (answer : Transmission) (now_ms : Z) (m : Manager) : option Phase * Manager :=
  match poll_device_token answer with
  | inl CodexTokens.Pending => (Some Polling, m)
  | inl (Ready token) =>
      let '(live, m) := mark_session_stage id Exchanging m in
      (if live then Some (Exchange (exchange_device_code token)) else None, m)
  | inr error => (None, fail_session id error now_ms m)
  end.

(** The first part of [finish_token_bundle], up to the gate. *)
Definition exchanged (id : string) (answer : Transmission) (now_ms : Z) (m : Manager) : option Phase * Manager :=
  match exchange_answer answer with
  | inr error => (None, fail_session id error now_ms m)
  | inl bundle =>
      if session_cancelled id m then (None, m)
      else
        match parse_id_token (tb_id_token bundle) with
        | inr error => (None, fail_session id error now_ms m)
        | inl claims =>
            if negb (not_blank (cl_account_id claims))
            then (None, mark_session_error id Failed "account_claim_missing" "the ID token did not include a ChatGPT account id" now_ms m)
            else (Some (WaitGate bundle claims), m)
        end
  end.

Definition session_login (target : SessionTarget) (bundle : TokenBundle) (claims : IdTokenClaims) (now_ms : Z) : SaveCodexLogin :=
  MkSaveLogin target.1 target.2 (hash_codex_account master_key (trim (cl_account_id claims))) (tb_access_token bundle)
    (tb_refresh_token bundle) (tb_id_token bundle) (trim (cl_account_id claims)) (trim (cl_email claims)) (cl_plan_type claims)
    (Some (i64_sat_add now_ms (i64_sat_mul (tb_expires_in_seconds bundle) 1000))) now_ms.

(** The gate is taken: the session must still be live. *)
Definition gate_taken (id : string) (bundle : TokenBundle) (claims : IdTokenClaims) (now_ms : Z) (m : Manager) : option Phase * Manager :=
  if session_cancelled id m then (None, m)
  else if session_expired id now_ms m then (None, expire_session id now_ms m)
  else
    match session_target id m with
    | None => (None, m)
    | Some target => (Some (Saving (session_login target bundle claims now_ms)), m)
    end.

Definition save_returned (id : string) (saved : SaveCodexLoginResult + DbError) (now_ms : Z) (m : Manager) : option Phase * Manager :=
  match saved with
  | inr error => (None, mark_session_error id Failed "credential_save_failed" (sanitize_persisted_error error) now_ms m)
  | inl saved => let '(live, m) := mark_session_stage id Finalizing m in (if live then Some (Following saved) else None, m)
  end.

(** One step of the task, from wait to wait; [None] when it has ended. *)
Definition worker_step (id : string) (input : WorkerInput) (phase : Phase) (m : Manager) : option Phase * Manager :=
  let now_ms := wi_now_ms input in
  match phase with
  | Polling => poll_again id now_ms m
  | PollAsked _ => polled id (wi_answer input) now_ms m
  | Exchange _ => exchanged id (wi_answer input) now_ms m
  | WaitGate bundle claims => gate_taken id bundle claims now_ms m
  | Saving _ => save_returned id (wi_saved input) now_ms m
  | Following saved => (None, mark_session_completed id saved (wi_warnings input) now_ms m)
  end.

Definition holds_gate (phase : Phase) : bool := match phase with Saving _ => true | _ => false end.
End Worker.
