(* ===== verification/CodexLogin.v ===== *)
(** * CodexLogin: what the login sessions promise

    The sessions of [CodexSessions] as a transition system: any number of logins are started,
    read, cancelled, called back and carried through at once. The theorems say that a login
    uses its code and stores its credentials at most once, that one that was cancelled stores
    nothing, and that a target has one login at a time. *)
From Stdlib Require Import Ascii String.
From S2P Require Import Prelude Text Json Crypto CodexTokens CodexAccounts CodexSessions.

Local Open Scope string_scope.
Local Open Scope list_scope.
Local Open Scope Z_scope.

(** ** The system *)

(** The manager, the guards of the targets being started and the tasks; for the theorems the
    ids that were drawn, the sessions whose code was exchanged, whose credentials were handed
    to the database, and the logins that were stored. *)
Record LoginSystem := MkLoginSystem {
  lg_manager : Manager;
  lg_starts : list SessionTarget;
  lg_workers : list (string * Phase);
  lg_seen : gset string;
  lg_exchanged : list string;
  lg_saving : list string;
  lg_stored : list (string * Z)
}.
Definition set_lg_manager (m : Manager) (s : LoginSystem) : LoginSystem :=
  MkLoginSystem m (lg_starts s) (lg_workers s) (lg_seen s) (lg_exchanged s) (lg_saving s) (lg_stored s).

Notation sessions s := (mg_sessions (lg_manager s)).

(** Nobody holds the gate of the session. *)
Definition gate_free (id : string) (s : LoginSystem) : Prop := ∀ phase, (id, phase) ∈ lg_workers s → holds_gate phase = false.

Definition enters_exchange (id : string) (next : option Phase) : list string := match next with Some (Exchange _) => [id] | _ => [] end.
Definition enters_saving (id : string) (next : option Phase) : list string := match next with Some (Saving _) => [id] | _ => [] end.
Definition stores (id : string) (phase : Phase) (saved : SaveCodexLoginResult + DbError) : list (string * Z) :=
  match phase, saved with Saving _, inl saved => [(id, sr_key_id saved)] | _, _ => [] end.
Definition goes_on (id : string) (next : option Phase) : list (string * Phase) := match next with Some phase => [(id, phase)] | None => [] end.

Section Login.
Context `{CryptoLib, OAuthLib} (master_key : string).

Inductive login_step (s : LoginSystem) : LoginSystem → Prop :=
| LoginPrune now : login_step s (set_lg_manager (prune_sessions now (lg_manager s)) s)
| LoginReserve target m :
    reserve_starting_target target (lg_manager s) = inl m →
    login_step s (MkLoginSystem m (target :: lg_starts s) (lg_workers s) (lg_seen s) (lg_exchanged s) (lg_saving s) (lg_stored s))
| LoginDrop before target after :
    lg_starts s = before ++ target :: after →
    login_step s (MkLoginSystem (drop_starting_guard target (lg_manager s)) (before ++ after) (lg_workers s) (lg_seen s)
      (lg_exchanged s) (lg_saving s) (lg_stored s))
| LoginInsert before target after id flow now answer b1 b2 start :
    lg_starts s = before ++ target :: after → id ∉ lg_seen s → begin_flow flow now answer b1 b2 = inl start →
    login_step s (MkLoginSystem (insert_session id (new_session id target flow start) target (lg_manager s)) (before ++ after)
      (match flow with Device => (id, Polling) :: lg_workers s | Browser => lg_workers s end) ({[id]} ∪ lg_seen s)
      (lg_exchanged s) (lg_saving s) (lg_stored s))
| LoginGet now id : gate_free id s → login_step s (set_lg_manager (get_session now id (lg_manager s)).2 s)
| LoginCancel now id : gate_free id s → login_step s (set_lg_manager (cancel_session now id (lg_manager s)).2 s)
| LoginClaim now id callback claimed m :
    gate_free id s → claim_browser_callback now id callback (lg_manager s) = (inl claimed, m) →
    login_step s (MkLoginSystem m (lg_starts s)
      ((id, Exchange (exchange_browser_code (cc_code claimed) (cc_code_verifier claimed))) :: lg_workers s) (lg_seen s)
      (id :: lg_exchanged s) (lg_saving s) (lg_stored s))
| LoginClaimRefused now id callback error m :
    gate_free id s → claim_browser_callback now id callback (lg_manager s) = (inr error, m) →
    login_step s (set_lg_manager m s)
| LoginWork before id phase after input next m :
    lg_workers s = before ++ (id, phase) :: after → worker_step master_key id input phase (lg_manager s) = (next, m) →
    login_step s (MkLoginSystem m (lg_starts s) (before ++ goes_on id next ++ after) (lg_seen s)
      (enters_exchange id next ++ lg_exchanged s) (enters_saving id next ++ lg_saving s) (stores id phase (wi_saved input) ++ lg_stored s)).

Definition login_start (s : LoginSystem) : Prop :=
  lg_manager s = MkManager ∅ ∅ ∅ ∧ lg_starts s = [] ∧ lg_workers s = [] ∧ lg_exchanged s = [] ∧ lg_saving s = [] ∧ lg_stored s = [].

(** ** What an operation does to a session *)

(** An operation on the session [id]: it leaves everything, or it changes a pending session so,
    and raises the flag of that session only when it ends it. *)
Definition evolves (id : string) (P : SessionRecord → SessionRecord → Prop) (m m' : Manager) : Prop :=
  m' = m ∨ ∃ r r', mg_sessions m !! id = Some r ∧ se_status r = Pending ∧ se_target r' = se_target r ∧ P r r'
    ∧ (m' = put_session id r' m ∨ se_status r' ≠ Pending ∧ m' = request_cancel id (put_session id r' m)).

Lemma evolves_same id P m : evolves id P m m.
Proof. by left. Qed.

Lemma evolves_put id (P : SessionRecord → SessionRecord → Prop) m r r' : mg_sessions m !! id = Some r → is_pending r = true →
  se_target r' = se_target r → P r r' → evolves id P m (put_session id r' m).
Proof. intros Hr Hp%bool_decide_eq_true_1 Ht HP. right. exists r, r'. split_and!; try done. by left. Qed.

Lemma evolves_cancel id (P : SessionRecord → SessionRecord → Prop) m r r' : mg_sessions m !! id = Some r → is_pending r = true →
  se_target r' = se_target r → P r r' → se_status r' ≠ Pending → evolves id P m (request_cancel id (put_session id r' m)).
Proof. intros Hr Hp%bool_decide_eq_true_1 Ht HP Hn. right. exists r, r'. split_and!; try done. by right. Qed.

(** The record may have ended, before it was being finalised. *)
Definition stopped (status : SessionStatus) (r r' : SessionRecord) : Prop :=
  se_stage r ≠ Finalizing ∧ se_status r' = status ∧ se_flow_data r' = se_flow_data r.

Lemma get_evolves now id m : evolves id (stopped Expired) m (get_session now id m).2.
Proof.
  unfold get_session. destruct (mg_sessions m !! id) as [r|] eqn:Er; [|apply evolves_same].
  destruct (overdue now r) eqn:Eo; [|apply evolves_same]. unfold overdue in Eo.
  apply andb_true_iff in Eo as [[Hp Hs%negb_true_iff%bool_decide_eq_false_1]%andb_true_iff _].
  by apply (evolves_cancel _ _ _ r).
Qed.

Lemma cancel_evolves now id m : evolves id (stopped Cancelled) m (cancel_session now id m).2.
Proof.
  unfold cancel_session. destruct (mg_sessions m !! id) as [r|] eqn:Er; [|apply evolves_same].
  destruct (is_pending r && _) eqn:Eo; [|apply evolves_same].
  apply andb_true_iff in Eo as [Hp Hs%negb_true_iff%bool_decide_eq_false_1].
  by refine (evolves_cancel id _ m r (ended Cancelled now None None r) Er Hp _ _ _).
Qed.

(** The callback was not claimed before, and is now; or the record ended. *)
Definition unclaimed (r : SessionRecord) : Prop := ∃ state verifier url, se_flow_data r = BrowserData state verifier url false.

Definition claim_made (r r' : SessionRecord) : Prop :=
  unclaimed r ∧ ¬ unclaimed r' ∧ se_status r' = Pending ∧ se_stage r' = Exchanging.
Definition claim_refused (r r' : SessionRecord) : Prop :=
  (se_status r' = Expired ∨ se_status r' = Failed) ∧ (unclaimed r' → unclaimed r).

Lemma claim_evolves now id callback m :
  match claim_browser_callback now id callback m with
  | (inl _, m') => mg_cancel_requested m' = mg_cancel_requested m
      ∧ ∃ r r', mg_sessions m !! id = Some r ∧ se_status r = Pending ∧ se_target r' = se_target r ∧ claim_made r r'
                ∧ m' = put_session id r' m
  | (inr _, m') => evolves id claim_refused m m'
  end.
Proof.
  unfold claim_browser_callback. destruct (mg_sessions m !! id) as [r|] eqn:Er; [|apply evolves_same].
  destruct (se_flow_data r) as [|state verifier url claimed] eqn:Ed; [apply evolves_same|].
  destruct (negb (String.eqb _ _)); [apply evolves_same|]. destruct (is_pending r) eqn:Ep; [|apply evolves_same]. cbn [negb].
  destruct (se_expires_at_ms r <=? now); [apply (evolves_cancel _ _ _ r); [done|done|done|split; [by left|done]|done]|].
  destruct claimed; [apply evolves_same|].
  destruct (cb_error callback) as [error|].
  - apply (evolves_put _ _ _ r); [done|done|done|]. split; [by right|]. intros _. by exists state, verifier, url.
  - destruct (cb_code callback) as [code|]; [|apply evolves_same]. split; [done|].
    exists r, (set_se_stage Exchanging (set_se_flow_data (BrowserData state verifier url true) r)).
    apply bool_decide_eq_true_1 in Ep. split_and!; try done. split_and!; try done; [by exists state, verifier, url|].
    intros (? & ? & ? & E). by injection E.
Qed.

(** What the task of a login may do to its session. *)
Definition errored (r r' : SessionRecord) : Prop := (se_status r' = Failed ∨ se_status r' = Expired) ∧ se_flow_data r' = se_flow_data r.

Lemma error_evolves id status code message now m : status = Failed ∨ status = Expired →
  evolves id errored m (mark_session_error id status code message now m).
Proof.
  intros Hs. unfold mark_session_error. destruct (mg_sessions m !! id) as [r|] eqn:Er; [|apply evolves_same].
  destruct (is_pending r) eqn:Ep; [|apply evolves_same]. by apply (evolves_put _ _ _ r).
Qed.

Lemma stage_evolves id stage m :
  match mark_session_stage id stage m with
  | (true, m') => ∃ r, mg_sessions m !! id = Some r ∧ se_status r = Pending ∧ m' = put_session id (set_se_stage stage r) m
  | (false, m') => m' = m ∧ ∀ r, mg_sessions m !! id = Some r → se_status r = Pending → id ∈ mg_cancel_requested m
  end.
Proof.
  unfold mark_session_stage. destruct (mg_sessions m !! id) as [r|] eqn:Er; [|done].
  destruct (is_pending r) eqn:Ep; cbn [negb orb].
  - destruct (cancel_requested id m) eqn:Ec; [|apply bool_decide_eq_true_1 in Ep; eauto].
    apply bool_decide_eq_true_1 in Ec. split; [done|]. done.
  - split; [done|]. intros ? [= <-] Hp. unfold is_pending in Ep. by rewrite Hp in Ep.
Qed.
Definition finished_as (key_id : Z) (r r' : SessionRecord) : Prop :=
  se_status r' = Completed ∧ se_key_id r' = Some key_id ∧ se_flow_data r' = se_flow_data r.

(** A step of a task, by what it does to the sessions. *)
Inductive worked (id : string) (m : Manager) : Phase → SaveCodexLoginResult + DbError → option Phase → Manager → Prop :=
| WkStop phase saved m' : holds_gate phase = false → evolves id errored m m' → worked id m phase saved None m'
| WkPoll saved snapshot : worked id m Polling saved (Some (PollAsked snapshot)) m
| WkPending snapshot saved : worked id m (PollAsked snapshot) saved (Some Polling) m
| WkReady snapshot saved request r :
    mg_sessions m !! id = Some r → se_status r = Pending →
    worked id m (PollAsked snapshot) saved (Some (Exchange request)) (put_session id (set_se_stage Exchanging r) m)
| WkBundle request saved bundle claims : worked id m (Exchange request) saved (Some (WaitGate bundle claims)) m
| WkGate bundle claims saved login r :
    mg_sessions m !! id = Some r → se_status r = Pending →
    worked id m (WaitGate bundle claims) saved (Some (Saving login)) m
| WkSaved login saved r :
    mg_sessions m !! id = Some r → se_status r = Pending →
    worked id m (Saving login) (inl saved) (Some (Following saved)) (put_session id (set_se_stage Finalizing r) m)
| WkStale login saved :
    (∀ r, mg_sessions m !! id = Some r → se_status r = Pending → id ∈ mg_cancel_requested m) →
    worked id m (Saving login) (inl saved) None m
| WkFailed login error m' :
    evolves id errored m m' → (∀ r', mg_sessions m' !! id = Some r' → se_status r' ≠ Pending) →
    worked id m (Saving login) (inr error) None m'
| WkDone result saved m' :
    evolves id (finished_as (sr_key_id result)) m m' → worked id m (Following result) saved None m'.

Lemma poll_works id now m saved next m' : poll_again id now m = (next, m') → worked id m Polling saved next m'.
Proof.
  unfold poll_again. destruct (session_poll_snapshot id m) as [snapshot|]; [|intros [= <- <-]; by apply WkStop; [|apply evolves_same]].
  destruct (cancel_requested id m); [intros [= <- <-]; by apply WkStop; [|apply evolves_same]|].
  destruct (_ <=? now); intros [= <- <-]; [|constructor]. apply WkStop; [done|]. apply error_evolves. by right.
Qed.

Lemma polled_works id snapshot answer now m saved next m' :
  polled id answer now m = (next, m') → worked id m (PollAsked snapshot) saved next m'.
Proof.
  unfold polled. destruct (poll_device_token answer) as [[|token]|error].
  - intros [= <- <-]. constructor.
  - pose proof (stage_evolves id Exchanging m) as He. destruct (mark_session_stage id Exchanging m) as [[] m1]; intros [= <- <-].
    + destruct He as (r & Hr & Hp & ->). by constructor.
    + destruct He as [-> _]. by apply WkStop; [|apply evolves_same].
  - intros [= <- <-]. apply WkStop; [done|]. apply error_evolves. by left.
Qed.

Lemma exchanged_works id request answer now m saved next m' :
  exchanged id answer now m = (next, m') → worked id m (Exchange request) saved next m'.
Proof.
  assert (∀ code message, worked id m (Exchange request) saved None (mark_session_error id Failed code message now m)) as Hf.
  { intros code message. apply WkStop; [done|]. apply error_evolves. by left. }
  unfold exchanged. destruct (exchange_answer answer) as [bundle|error]; [|intros [= <- <-]; apply Hf].
  destruct (session_cancelled id m); [intros [= <- <-]; by apply WkStop; [|apply evolves_same]|].
  destruct (parse_id_token _) as [claims|error]; [|intros [= <- <-]; apply Hf].
  destruct (negb _); intros [= <- <-]; [apply Hf|constructor].
Qed.

Lemma session_live id m : session_cancelled id m = false → ∃ r, mg_sessions m !! id = Some r ∧ se_status r = Pending.
Proof.
  unfold session_cancelled. destruct (mg_sessions m !! id) as [r|]; cbn; [|done]. intros [Hp _]%orb_false_iff.
  apply negb_false_iff, bool_decide_eq_true_1 in Hp. by exists r.
Qed.

Lemma gate_works id bundle claims now m saved next m' :
  gate_taken master_key id bundle claims now m = (next, m') → worked id m (WaitGate bundle claims) saved next m'.
Proof.
  unfold gate_taken. destruct (session_cancelled id m) eqn:Ec; [intros [= <- <-]; by apply WkStop; [|apply evolves_same]|].
  apply session_live in Ec as (r & Hr & Hp).
  destruct (session_expired id now m); [intros [= <- <-]; apply WkStop; [done|]; apply error_evolves; by right|].
  unfold session_target. rewrite Hr. cbn. intros [= <- <-]. by apply (WkGate _ _ _ _ _ _ r).
Qed.

Lemma error_ends id status code message now m r : status ≠ Pending →
  mg_sessions (mark_session_error id status code message now m) !! id = Some r → se_status r ≠ Pending.
Proof.
  intros Hs. unfold mark_session_error. destruct (mg_sessions m !! id) as [r0|] eqn:Er; [|congruence].
  destruct (is_pending r0) eqn:Ep; cbn.
  - rewrite lookup_insert_eq. by intros [= <-].
  - rewrite Er. intros [= <-]. by apply bool_decide_eq_false_1 in Ep.
Qed.

Lemma save_works id login saved now m next m' :
  save_returned id saved now m = (next, m') → worked id m (Saving login) saved next m'.
Proof.
  unfold save_returned. destruct saved as [result|error].
  - pose proof (stage_evolves id Finalizing m) as He. destruct (mark_session_stage id Finalizing m) as [[] m1]; intros [= <- <-].
    + destruct He as (r & Hr & Hp & ->). by apply WkSaved.
    + destruct He as [-> Hf]. by apply WkStale.
  - intros [= <- <-]. apply WkFailed; [apply error_evolves; by left|]. intros r'. by apply error_ends.
Qed.

Lemma done_evolves id saved warnings now m : evolves id (finished_as (sr_key_id saved)) m (mark_session_completed id saved warnings now m).
Proof.
  unfold mark_session_completed. destruct (mg_sessions m !! id) as [r|] eqn:Er; [|apply evolves_same].
  destruct (is_pending r) eqn:Ep; [|apply evolves_same]. cbn [negb orb]. destruct (cancel_requested id m); [apply evolves_same|].
  by apply (evolves_put _ _ _ r).
Qed.

Lemma worker_works id input phase m next m' : worker_step master_key id input phase m = (next, m') → worked id m phase (wi_saved input) next m'.
Proof.
  destruct phase; cbn [worker_step]; intros E.
  - by eapply poll_works.
  - by eapply polled_works.
  - by eapply exchanged_works.
  - by eapply gate_works.
  - by eapply save_works.
  - injection E as <- <-. apply WkDone, done_evolves.
Qed.
(** ** One login per target *)

Record target_inv (s : LoginSystem) : Prop := {
  ti_starts : NoDup (lg_starts s);
  ti_starting target : target ∈ mg_starting (lg_manager s) ↔ target ∈ lg_starts s;
  ti_pending id r : sessions s !! id = Some r → se_status r = Pending → se_target r ∉ lg_starts s;
  ti_alone id id' r r' : sessions s !! id = Some r → sessions s !! id' = Some r' →
    se_status r = Pending → se_status r' = Pending → se_target r = se_target r' → id = id'
}.

(** No new pending session, and no target changes. *)
Definition tame (m m' : Manager) : Prop :=
  mg_starting m' = mg_starting m ∧ ∀ id r', mg_sessions m' !! id = Some r' → se_status r' = Pending →
    ∃ r, mg_sessions m !! id = Some r ∧ se_status r = Pending ∧ se_target r' = se_target r.

Lemma evolves_tame id P m m' : evolves id P m m' → tame m m'.
Proof.
  intros [->|(r & r1 & Hr1 & Hp1 & Ht & _ & [->|[_ ->]])]; [split; [done|eauto]|split; [done|]..];
    intros x r'; cbn; intros [[<- <-]|[_ Hr]]%lookup_insert_Some Hp; eauto.
Qed.

Lemma put_tame id m r r' : mg_sessions m !! id = Some r → se_status r = Pending → se_target r' = se_target r → tame m (put_session id r' m).
Proof.
  intros Hr Hp Ht. split; [done|]. intros x r1. cbn. intros [[<- <-]|[_ Hr1]]%lookup_insert_Some ?; [by exists r|by exists r1].
Qed.

Lemma tame_refl m : tame m m.
Proof. split; [done|]. eauto. Qed.

Lemma worked_tame id m phase saved next m' : worked id m phase saved next m' → tame m m'.
Proof.
  destruct 1; try apply tame_refl; try (by eapply evolves_tame); by eapply put_tame.
Qed.

Lemma prune_tame now m : tame m (prune_sessions now m).
Proof. split; [done|]. intros id r'. cbn. intros [Hr _]%map_lookup_filter_Some Hp. by exists r'. Qed.

Lemma claim_tame now id callback m : tame m (claim_browser_callback now id callback m).2.
Proof.
  pose proof (claim_evolves now id callback m) as Hc. destruct (claim_browser_callback now id callback m) as [[claimed|error] m'].
  - destruct Hc as (_ & r & r' & Hr & Hp & Ht & _ & ->). by eapply put_tame.
  - by eapply evolves_tame.
Qed.

Lemma target_tame s m workers seen exchanged saving stored : tame (lg_manager s) m → target_inv s →
  target_inv (MkLoginSystem m (lg_starts s) workers seen exchanged saving stored).
Proof.
  intros [Es Hm] [Hd Hst Hp Ha]. split; cbn; [done|by rewrite Es| |].
  - intros id r' Hr' Hpr'. destruct (Hm _ _ Hr' Hpr') as (r & Hr & Hpr & ->). by apply (Hp id).
  - intros id id' r1 r1' Hr1 Hr1' Hp1 Hp1' Et. destruct (Hm _ _ Hr1 Hp1) as (r & Hr & Hpr & E1).
    destruct (Hm _ _ Hr1' Hp1') as (r' & Hr' & Hpr' & E1'). apply (Ha id id' r r'); congruence.
Qed.

Lemma target_reserve s target m : reserve_starting_target target (lg_manager s) = inl m → target_inv s →
  target_inv (MkLoginSystem m (target :: lg_starts s) (lg_workers s) (lg_seen s) (lg_exchanged s) (lg_saving s) (lg_stored s)).
Proof.
  unfold reserve_starting_target. destruct (in_progress target (lg_manager s)) eqn:E; [done|]. intros [= <-] [Hd Hst Hp Ha].
  apply orb_false_iff in E as [Hn%bool_decide_eq_false_1 Hf]. rewrite Hst in Hn.
  assert (∀ id r, sessions s !! id = Some r → se_status r = Pending → se_target r ≠ target) as Hne.
  { intros id r Hr Hpr Et. apply not_true_iff_false in Hf. apply Hf, existsb_exists. exists (id, r).
    split; [by apply list_elem_of_In, elem_of_map_to_list|]. apply andb_true_iff. split; by apply bool_decide_eq_true_2. }
  split; cbn; [by constructor|set_solver| |done].
  intros id r Hr Hpr. rewrite not_elem_of_cons. split; [by eapply Hne|by eapply Hp].
Qed.

Lemma target_drop s before target after : lg_starts s = before ++ target :: after → target_inv s →
  target_inv (MkLoginSystem (drop_starting_guard target (lg_manager s)) (before ++ after) (lg_workers s) (lg_seen s)
    (lg_exchanged s) (lg_saving s) (lg_stored s)).
Proof.
  intros E [Hd Hst Hp Ha]. rewrite E in Hd Hst Hp. pose proof (NoDup_map_middle id before target after) as Hm. rewrite !map_id in Hm.
  destruct (Hm Hd) as [Hd' Hne]. split; cbn; [done| | |done].
  - intros t. specialize (Hst t). specialize (Hne t). cbn in Hne. set_solver.
  - intros x r Hr Hpr Hin. apply (Hp x r Hr Hpr). by apply elem_of_rest.
Qed.

Lemma target_insert s before target after id r seen workers : lg_starts s = before ++ target :: after → se_target r = target →
  sessions s !! id = None → target_inv s →
  target_inv (MkLoginSystem (insert_session id r target (lg_manager s)) (before ++ after) workers seen
    (lg_exchanged s) (lg_saving s) (lg_stored s)).
Proof.
  intros E Er Hid Hi. pose proof (ti_pending s Hi) as Hp0. pose proof (ti_starts s Hi) as Hd0.
  destruct (target_drop s before target after E Hi) as [Hd Hst Hp Ha]. cbn in *.
  assert (target ∉ before ++ after) as Hn.
  { rewrite E in Hd0. pose proof (NoDup_map_middle Datatypes.id before target after) as Hm. rewrite !map_id in Hm.
    destruct (Hm Hd0) as [_ Hne]. intros Hin. by apply (Hne target). }
  assert (∀ x r', sessions s !! x = Some r' → se_status r' = Pending → se_target r' ≠ target) as Hother.
  { intros x r' Hr' Hpr' Et. apply (Hp0 x r' Hr' Hpr'). rewrite E Et. set_solver. }
  split; cbn; [done|done| |].
  - intros x r' [[<- <-]|[_ Hr']]%lookup_insert_Some Hpr; [by rewrite Er|by eapply Hp].
  - intros x x' r1 r2 [[<- <-]|[_ H1]]%lookup_insert_Some [[<- <-]|[_ H2]]%lookup_insert_Some Hp1 Hp2 Et; [done| | |by eapply Ha].
    + destruct (Hother x' r2 H2 Hp2). congruence.
    + destruct (Hother x r1 H1 Hp1). congruence.
Qed.

(** ** Codes and credentials *)

(** How far a task has come: whether its code was exchanged, its credentials were handed over. *)
Definition has_exchanged (phase : Phase) : Z := match phase with Polling | PollAsked _ => 0 | _ => 1 end.
Definition has_saved (phase : Phase) : Z := match phase with Saving _ | Following _ => 1 | _ => 0 end.

(** What the system knows of one session: its record and flag, its tasks, whether its id was
    drawn, how often its code was exchanged and its credentials handed over, and the keys its
    logins were stored on. *)
Record View := MkView {
  vw_record : option SessionRecord;
  vw_flag : bool;
  vw_phases : list Phase;
  vw_seen : bool;
  vw_exchanged : Z;
  vw_saving : Z;
  vw_stored : list Z
}.

Definition of_id {A} (id : string) (l : list (string * A)) : list A := map snd (List.filter (λ w, String.eqb id w.1) l).

#[local] Arguments of_id : simpl never.
#[local] Arguments times : simpl never.

Definition view (id : string) (s : LoginSystem) : View :=
  MkView (sessions s !! id) (bool_decide (id ∈ mg_cancel_requested (lg_manager s))) (of_id id (lg_workers s))
    (bool_decide (id ∈ lg_seen s)) (times id (lg_exchanged s)) (times id (lg_saving s)) (of_id id (lg_stored s)).

Definition phase_ok (v : View) (phase : Phase) : Prop :=
  vw_seen v = true ∧ vw_exchanged v = has_exchanged phase ∧ vw_saving v = has_saved phase
  ∧ ∀ saved, phase = Following saved → sr_key_id saved ∈ vw_stored v.

Definition record_ok (v : View) (r : SessionRecord) : Prop :=
  vw_seen v = true
  ∧ (se_status r = Pending → vw_flag v = false)
  ∧ (unclaimed r → vw_phases v = [] ∧ vw_exchanged v = 0 ∧ vw_saving v = 0)
  ∧ (se_status r = Pending → se_stage r ≠ Finalizing → (∀ p, p ∈ vw_phases v → holds_gate p = false) → vw_saving v = 0)
  ∧ (se_status r = Cancelled → vw_saving v = 0)
  ∧ (se_status r = Completed → ∃ k, se_key_id r = Some k ∧ k ∈ vw_stored v).

Record view_ok (v : View) : Prop := {
  vo_phases : (length (vw_phases v) <= 1)%nat;
  vo_phase p : p ∈ vw_phases v → phase_ok v p;
  vo_bounds : 0 <= vw_exchanged v <= 1 ∧ 0 <= vw_saving v <= 1;
  vo_fresh : vw_seen v = false → vw_phases v = [] ∧ vw_exchanged v = 0 ∧ vw_saving v = 0 ∧ vw_flag v = false;
  vo_record r : vw_record v = Some r → record_ok v r
}.

Lemma of_id_cons {A} id x (a : A) l : of_id id ((x, a) :: l) = if String.eqb id x then a :: of_id id l else of_id id l.
Proof. unfold of_id. cbn. by destruct (String.eqb id x). Qed.

Lemma of_id_app {A} id (l l' : list (string * A)) : of_id id (l ++ l') = of_id id l ++ of_id id l'.
Proof. unfold of_id. by rewrite List.filter_app map_app. Qed.

Lemma elem_of_of_id {A} id (a : A) l : a ∈ of_id id l ↔ (id, a) ∈ l.
Proof.
  induction l as [|[x b] l IH]; [set_solver|]. rewrite of_id_cons elem_of_cons. destruct (String.eqb_spec id x) as [->|Hne].
  - rewrite elem_of_cons IH. naive_solver.
  - rewrite IH. naive_solver.
Qed.

(** *** Changes of a view *)

(** The record is replaced, or gone, and so is nothing else. *)
Definition with_record (r : option SessionRecord) (flag : bool) (v : View) : View :=
  MkView r flag (vw_phases v) (vw_seen v) (vw_exchanged v) (vw_saving v) (vw_stored v).

Lemma view_gone v flag : (flag = true → vw_seen v = true) → view_ok v → view_ok (with_record None flag v).
Proof.
  intros Hf [Hl Hp Hb Hfr Hr]. split; try done. cbn. intros Hs. destruct (Hfr Hs) as (? & ? & ? & _). split_and!; [done..|].
  destruct flag; [|done]. rewrite Hf in Hs; done.
Qed.

(** The record ended. *)
Lemma view_ended v r r' flag : vw_record v = Some r → se_status r' ≠ Pending →
  (unclaimed r' → unclaimed r) → (se_status r' = Cancelled → vw_saving v = 0) →
  (se_status r' = Completed → ∃ k, se_key_id r' = Some k ∧ k ∈ vw_stored v) →
  view_ok v → view_ok (with_record (Some r') flag v).
Proof.
  intros Er Hn Hu Hc Hco [Hl Hp Hb Hfr Hr]. destruct (Hr r Er) as (Hs & _ & Hun & _). split; cbn; try done.
  - intros Hs'. congruence.
  - intros ? [= <-]. split_and!; cbn; try done. intros Hu'. by apply Hun, Hu.
Qed.
(** An operation without a task on a session. *)
Lemma evolves_view id P s m x : evolves id P (lg_manager s) m →
  view x (set_lg_manager m s) = view x s
  ∨ x = id ∧ ∃ r r' flag, sessions s !! id = Some r ∧ se_status r = Pending ∧ P r r'
      ∧ view id (set_lg_manager m s) = with_record (Some r') flag (view id s) ∧ (se_status r' = Pending → flag = vw_flag (view id s)).
Proof.
  intros [->|(r & r' & Hr & Hp & _ & HP & Hm)]; [by left; destruct s|].
  destruct (decide (x = id)) as [->|Hne].
  - right. split; [done|]. destruct Hm as [->|[Hn ->]]; (eexists r, r', _; split_and!; [done|done|done| |]).
    + unfold view, with_record. cbn. by rewrite lookup_insert_eq.
    + done.
    + unfold view, with_record. cbn. by rewrite lookup_insert_eq.
    + done.
  - left. destruct Hm as [->|[_ ->]]; unfold view; cbn; rewrite lookup_insert_ne //. do 2 f_equal.
    apply bool_decide_ext. set_solver.
Qed.

Lemma ok_evolves id P s m : evolves id P (lg_manager s) m → (∀ x, view_ok (view x s)) →
  (∀ r r', sessions s !! id = Some r → se_status r = Pending → P r r' →
     se_status r' ≠ Pending ∧ (unclaimed r' → unclaimed r) ∧ (se_status r' = Cancelled → times id (lg_saving s) = 0)
     ∧ se_status r' ≠ Completed) →
  ∀ x, view_ok (view x (set_lg_manager m s)).
Proof.
  intros He Hok HP x. destruct (evolves_view id P s m x He) as [->|(-> & r & r' & flag & Hr & Hp & HPr & -> & _)]; [done|].
  destruct (HP r r' Hr Hp HPr) as (Hn & Hu & Hc & Hco). by apply (view_ended _ r).
Qed.

Lemma ok_prune now s : (∀ x, view_ok (view x s)) → ∀ x, view_ok (view x (set_lg_manager (prune_sessions now (lg_manager s)) s)).
Proof.
  intros Hok x. specialize (Hok x). destruct (mg_sessions (prune_sessions now (lg_manager s)) !! x) as [r|] eqn:E.
  - assert (view x (set_lg_manager (prune_sessions now (lg_manager s)) s) = view x s) as ->; [|done].
    unfold view. cbn in E |- *. rewrite E. by apply map_lookup_filter_Some in E as [-> _].
  - assert (view x (set_lg_manager (prune_sessions now (lg_manager s)) s) = with_record None (vw_flag (view x s)) (view x s)) as ->.
    { unfold view, with_record. cbn in E |- *. by rewrite E. }
    apply view_gone; [|done]. intros Hf. destruct (vw_seen (view x s)) eqn:Es; [done|].
    destruct (vo_fresh _ Hok Es) as (_ & _ & _ & Hn). congruence.
Qed.

(** The gate is free for a session that has not been saved: there is no task that saves it. *)
Lemma unsaved id s r : view_ok (view id s) → sessions s !! id = Some r → se_status r = Pending → se_stage r ≠ Finalizing →
  gate_free id s → times id (lg_saving s) = 0.
Proof.
  intros Hok Hr Hp Hst Hg. destruct (vo_record _ Hok r Hr) as (_ & _ & _ & Hu & _). apply Hu; [done|done|].
  intros p Hin. apply Hg. by apply elem_of_of_id.
Qed.

Lemma ok_get now id s : gate_free id s → (∀ x, view_ok (view x s)) → ∀ x, view_ok (view x (set_lg_manager (get_session now id (lg_manager s)).2 s)).
Proof.
  intros Hg Hok. apply (ok_evolves id (stopped Expired)); [apply get_evolves|done|].
  intros r r' Hr Hp (Hst & -> & Ef). split_and!; [done| |done|done]. unfold unclaimed. by rewrite Ef.
Qed.

Lemma ok_cancel now id s : gate_free id s → (∀ x, view_ok (view x s)) → ∀ x, view_ok (view x (set_lg_manager (cancel_session now id (lg_manager s)).2 s)).
Proof.
  intros Hg Hok. apply (ok_evolves id (stopped Cancelled)); [apply cancel_evolves|done|].
  intros r r' Hr Hp (Hst & -> & Ef). split_and!; [done| | |done]; [unfold unclaimed; by rewrite Ef|]. intros _. by eapply unsaved.
Qed.

Lemma ok_claim_refused now id callback error m s : claim_browser_callback now id callback (lg_manager s) = (inr error, m) →
  (∀ x, view_ok (view x s)) → ∀ x, view_ok (view x (set_lg_manager m s)).
Proof.
  intros E Hok. pose proof (claim_evolves now id callback (lg_manager s)) as He. rewrite E in He.
  apply (ok_evolves id claim_refused); [done|done|]. intros r r' Hr Hp [Hs Hu].
  split_and!; [by destruct Hs as [->| ->]|done|by destruct Hs as [->| ->]|by destruct Hs as [->| ->]].
Qed.
(** *** A new session *)
Lemma begin_flow_data flow now answer b1 b2 start : begin_flow flow now answer b1 b2 = inl start →
  match flow with Device => ∃ d u, start.1.1 = DeviceData d u | Browser => ∃ a b c, start.1.1 = BrowserData a b c false end.
Proof.
  destruct flow; cbn.
  - unfold browser_flow. intros (url & _ & [= <-])%res_bind_inl. cbn. eauto.
  - intros (response & _ & Hd)%res_bind_inl. unfold device_flow in Hd. apply res_bind_inl in Hd as (code & _ & Hd).
    destruct (String.eqb _ _); [done|]. injection Hd as <-. cbn. eauto.
Qed.

Lemma ok_insert s id target flow now answer b1 b2 start starts : id ∉ lg_seen s → begin_flow flow now answer b1 b2 = inl start →
  (∀ x, view_ok (view x s)) → ∀ x, view_ok (view x
    (MkLoginSystem (insert_session id (new_session id target flow start) target (lg_manager s)) starts
      (match flow with Device => (id, Polling) :: lg_workers s | Browser => lg_workers s end) ({[id]} ∪ lg_seen s)
      (lg_exchanged s) (lg_saving s) (lg_stored s))).
Proof.
  intros Hn Hb Hok x. destruct (decide (x = id)) as [->|Hne].
  - pose proof (Hok id) as [_ _ _ Hfr _]. cbn in Hfr. rewrite bool_decide_eq_false_2 // in Hfr.
    destruct (Hfr eq_refl) as (Hph & Hx & Hs & Hfl). apply begin_flow_data in Hb. destruct start as [[data interval] expires].
    assert (of_id id (match flow with Device => (id, Polling) :: lg_workers s | Browser => lg_workers s end)
      = match flow with Device => [Polling] | Browser => [] end) as Hph'.
    { destruct flow; [done|]. by rewrite of_id_cons String.eqb_refl Hph. }
    assert (bool_decide (id ∈ ({[id]} ∪ lg_seen s)) = true) as Hseen by (apply bool_decide_eq_true_2; set_solver).
    unfold view. cbn. rewrite Hph' Hseen Hx Hs Hfl lookup_insert_eq. split; cbn; [destruct flow; cbn; lia|..].
    + intros p Hin. destruct flow; [by apply not_elem_of_nil in Hin|]. apply list_elem_of_singleton in Hin as ->. done.
    + lia.
    + done.
    + intros r [= <-]. split_and!; cbn; try done. intros (a & b & c & E). destruct flow; [done|]. cbn in Hb, E.
      destruct Hb as (? & ? & ->). done.
  - assert (of_id x (match flow with Device => (id, Polling) :: lg_workers s | Browser => lg_workers s end) = of_id x (lg_workers s)) as Hph.
    { destruct flow; [done|]. rewrite of_id_cons. by destruct (String.eqb_spec x id). }
    specialize (Hok x). unfold view in *. cbn. rewrite Hph lookup_insert_ne //.
    assert (bool_decide (x ∈ ({[id]} ∪ lg_seen s)) = bool_decide (x ∈ lg_seen s)) as -> by (apply bool_decide_ext; set_solver). done.
Qed.

(** *** A callback that is accepted *)
Lemma ok_claim s now id callback claimed m request : claim_browser_callback now id callback (lg_manager s) = (inl claimed, m) →
  (∀ x, view_ok (view x s)) → ∀ x, view_ok (view x
    (MkLoginSystem m (lg_starts s) ((id, Exchange request) :: lg_workers s) (lg_seen s) (id :: lg_exchanged s) (lg_saving s) (lg_stored s))).
Proof.
  intros E Hok x. pose proof (claim_evolves now id callback (lg_manager s)) as He. rewrite E in He.
  destruct He as (_ & r & r' & Hr & Hp & _ & (Hu & Hu' & Hp' & Hst) & ->). unfold view. cbn. rewrite of_id_cons times_cons.
  destruct (String.eqb_spec x id) as [->|Hne].
  - pose proof (Hok id) as [_ _ _ _ Hrec]. destruct (Hrec r Hr) as (Hs & Hf & Hun & _). destruct (Hun Hu) as (Hph & Hx & Hsv).
    cbn in Hph, Hx, Hsv, Hs, Hf. rewrite Hph Hx Hsv Hs lookup_insert_eq. split; cbn; [lia| |lia|done|].
    + intros p ->%list_elem_of_singleton. done.
    + intros ? [= <-]. split_and!; cbn; try done; [by intros _; apply Hf|by rewrite Hp'].
  - specialize (Hok x). rewrite lookup_insert_ne //.
Qed.

(** *** A step of a task *)
Lemma sole_phase v p : view_ok v → p ∈ vw_phases v → vw_phases v = [p].
Proof.
  intros [Hl _ _ _ _] Hin. destruct (vw_phases v) as [|q [|? ?]]; cbn in Hl; [by apply not_elem_of_nil in Hin| |lia].
  by apply list_elem_of_singleton in Hin as ->.
Qed.

(** The view after the task went from [phase] to [next]. *)
Definition stepped (id : string) (phase : Phase) (saved : SaveCodexLoginResult + DbError) (next : option Phase) (m : Manager) (v : View) : View :=
  MkView (mg_sessions m !! id) (bool_decide (id ∈ mg_cancel_requested m)) (map snd (goes_on id next)) (vw_seen v)
    (len (enters_exchange id next) + vw_exchanged v) (len (enters_saving id next) + vw_saving v)
    (map snd (stores id phase saved) ++ vw_stored v).

Lemma ok_errored id m m' v phase saved : evolves id errored m m' → vw_record v = mg_sessions m !! id →
  vw_flag v = bool_decide (id ∈ mg_cancel_requested m) → vw_phases v = [phase] → stores id phase saved = [] →
  (∀ r, mg_sessions m' !! id = Some r → se_status r = Pending → se_stage r ≠ Finalizing → vw_saving v = 0) →
  view_ok v → view_ok (stepped id phase saved None m' v).
Proof.
  intros He Er Ef Eph Est Hu [Hl Hp Hb Hfr Hr]. assert (phase ∈ vw_phases v) as Hin by (rewrite Eph; left).
  destruct (Hp phase Hin) as (Hs & Hx & Hsv & _). unfold stepped. rewrite Est. split; [cbn; lia|set_solver|cbn -[Z.add]; exact Hb|cbn; congruence|cbn].
  intros r Hrm.
  destruct He as [->|(r0 & r1 & Hr0 & Hp0 & _ & [Hst Hfd] & Hm)].
  - rewrite -Er in Hrm. destruct (Hr r Hrm) as (_ & Hf & Hun & _ & Hc & Hco). split_and!; cbn; try done.
    + intros Hpr. rewrite -Ef. by apply Hf.
    + intros Hu'. destruct (Hun Hu') as (E & _). congruence.
    + intros Hpr Hst _. rewrite (Hu r); [done|congruence|done|done].
  - assert (r = r1) as ->.
    { destruct Hm as [->|[_ ->]]; cbn in Hrm; rewrite lookup_insert_eq in Hrm; congruence. }
    rewrite -Er in Hr0. destruct (Hr r0 Hr0) as (_ & _ & Hun & _).
    split_and!; cbn; try done; try (destruct Hst as [-> | ->]; done).
    unfold unclaimed. rewrite Hfd. intros Hu'. destruct (Hun Hu') as (E & _). congruence.
Qed.
Lemma evolves_elsewhere id P m m' x : evolves id P m m' → x ≠ id →
  mg_sessions m' !! x = mg_sessions m !! x ∧ (x ∈ mg_cancel_requested m' ↔ x ∈ mg_cancel_requested m).
Proof.
  intros [->|(r & r' & _ & _ & _ & _ & [->|[_ ->]])] Hne; cbn; [done|by rewrite lookup_insert_ne|].
  rewrite lookup_insert_ne //. set_solver.
Qed.

Lemma worked_elsewhere id m phase saved next m' x : worked id m phase saved next m' → x ≠ id →
  mg_sessions m' !! x = mg_sessions m !! x ∧ (x ∈ mg_cancel_requested m' ↔ x ∈ mg_cancel_requested m).
Proof. destruct 1; intros Hne; try done; try (by eapply evolves_elsewhere); cbn; by rewrite lookup_insert_ne. Qed.

Definition after_work (s : LoginSystem) (before : list (string * Phase)) (id : string) (phase : Phase) (after : list (string * Phase))
    (saved : SaveCodexLoginResult + DbError) (next : option Phase) (m : Manager) : LoginSystem :=
  MkLoginSystem m (lg_starts s) (before ++ goes_on id next ++ after) (lg_seen s)
    (enters_exchange id next ++ lg_exchanged s) (enters_saving id next ++ lg_saving s) (stores id phase saved ++ lg_stored s).

Lemma times_app id l l' : times id (l ++ l') = times id l + times id l'.
Proof. unfold times, len. rewrite List.filter_app length_app. lia. Qed.

Lemma of_id_goes_on id x next : of_id x (goes_on id next) = if String.eqb x id then map snd (goes_on id next) else [].
Proof. destruct next; cbn [goes_on]; [rewrite of_id_cons|]; by destruct (String.eqb x id). Qed.

Lemma times_enters id x (b : bool) (l := if b then [id] else []) : times x l = if String.eqb x id then len l else 0.
Proof. subst l. destruct b; [rewrite times_cons|]; destruct (String.eqb x id); done. Qed.

Lemma times_enters_exchange id x next : times x (enters_exchange id next) = if String.eqb x id then len (enters_exchange id next) else 0.
Proof. destruct next as [[]|]; first [apply (times_enters id x true)|apply (times_enters id x false)]. Qed.
Lemma times_enters_saving id x next : times x (enters_saving id next) = if String.eqb x id then len (enters_saving id next) else 0.
Proof. destruct next as [[]|]; first [apply (times_enters id x true)|apply (times_enters id x false)]. Qed.

Lemma of_id_stores id x phase saved : of_id x (stores id phase saved) = if String.eqb x id then map snd (stores id phase saved) else [].
Proof. destruct phase, saved; cbn [stores]; rewrite ?of_id_cons; by destruct (String.eqb x id). Qed.

Lemma work_view s before id phase after saved next m x :
  lg_workers s = before ++ (id, phase) :: after → view_ok (view id s) → worked id (lg_manager s) phase saved next m →
  view x (after_work s before id phase after saved next m)
  = if String.eqb x id then stepped id phase saved next m (view id s) else view x s.
Proof.
  intros E Hok Hw. unfold view, after_work, stepped.
  cbn [lg_manager lg_workers lg_seen lg_exchanged lg_saving lg_stored vw_seen vw_exchanged vw_saving vw_stored].
  rewrite !of_id_app !times_app of_id_goes_on times_enters_exchange times_enters_saving of_id_stores.
  destruct (String.eqb_spec x id) as [->|Hne].
  - assert (of_id id before = [] ∧ of_id id after = []) as [-> ->].
    { pose proof (vo_phases _ Hok) as Hl. cbn in Hl. rewrite E of_id_app of_id_cons String.eqb_refl length_app /= in Hl.
      split; apply length_zero_iff_nil; lia. }
    by rewrite app_nil_r.
  - destruct (worked_elsewhere _ _ _ _ _ _ x Hw Hne) as [Es Ef]. rewrite Es E of_id_app of_id_cons.
    apply String.eqb_neq in Hne as ->. cbn. f_equal. by apply bool_decide_ext.
Qed.

(** A task that went on with the record it had. *)
Lemma ok_onward v phase next flag :
  vw_phases v = [phase] → has_exchanged next = has_exchanged phase → has_saved next = has_saved phase →
  (∀ saved, next ≠ Following saved) → holds_gate phase = false → flag = vw_flag v → view_ok v →
  view_ok (MkView (vw_record v) flag [next] (vw_seen v) (vw_exchanged v) (vw_saving v) (vw_stored v)).
Proof.
  intros Eph Ex Es Hf Hg -> [Hl Hp Hb Hfr Hr]. destruct (Hp phase ltac:(rewrite Eph; left)) as (Hs & Hx & Hsv & _).
  split; cbn; [lia| |done|congruence|].
  - intros p ->%list_elem_of_singleton. split_and!; cbn; [done|congruence|congruence|]. intros saved E. by destruct (Hf saved).
  - intros r Er. destruct (Hr r Er) as (? & ? & Hun & Hu & ? & ?). split_and!; cbn; try done.
    + intros Hu'. destruct (Hun Hu') as (E & _). congruence.
    + intros Hp' Hst _. apply Hu; [done|done|]. intros p. by rewrite Eph => /list_elem_of_singleton ->.
Qed.
Lemma ok_stepped s id phase saved next m : view_ok (view id s) → vw_phases (view id s) = [phase] →
  worked id (lg_manager s) phase saved next m → view_ok (stepped id phase saved next m (view id s)).
Proof.
  intros Hok Eph Hw. pose proof Hok as [Hl Hp Hb Hfr Hr].
  destruct (Hp phase ltac:(rewrite Eph; left)) as (Hs & Hx & Hsv & Hfo).
  destruct Hw as [phase saved m' Hg He|saved snapshot|snapshot saved|snapshot saved request r Er Hpr|request saved bundle claims
    |bundle claims saved login r Er Hpr|login saved r Er Hpr|login saved Hstale|login error m' He Hn|result saved m' He].
  - apply (ok_errored id (lg_manager s)); [done|done|done|done|by destruct phase, saved| |done].
    intros r Er Hpr Hst. destruct He as [->|(r0 & r1 & _ & _ & _ & [Hst1 _] & Hm)].
    + destruct (Hr r Er) as (_ & _ & _ & Hu & _). apply Hu; [done|done|]. intros p. by rewrite Eph => /list_elem_of_singleton ->.
    + destruct Hm as [->|[_ ->]]; cbn in Er; rewrite lookup_insert_eq in Er; injection Er as <-; by destruct Hst1 as [E|E]; rewrite E in Hpr.
  - by apply (ok_onward (view id s) Polling (PollAsked snapshot) (vw_flag (view id s))).
  - by apply (ok_onward (view id s) (PollAsked snapshot) Polling (vw_flag (view id s))).
  - destruct (Hr r Er) as (_ & Hf & Hun & _). unfold stepped. cbn -[Z.add len]. change (len [id]) with 1; change (len (@nil string)) with 0. rewrite lookup_insert_eq. cbn in Hx, Hsv, Hs, Hf. rewrite Hx Hsv Hs.
    split; cbn; [lia| |lia|done|]; [intros p ->%list_elem_of_singleton; done|].
    intros ? [= <-]. split_and!; cbn; try first [done|by rewrite Hpr].
    intros Hu. destruct (Hun Hu) as (E & _). congruence.
  - by apply (ok_onward (view id s) (Exchange request) (WaitGate bundle claims) (vw_flag (view id s))).
  - destruct (Hr r Er) as (_ & Hf & Hun & _). unfold stepped. cbn -[Z.add len]. change (len [id]) with 1; change (len (@nil string)) with 0. cbn in Hx, Hsv, Hs, Hf. rewrite Hx Hsv Hs Er.
    split; cbn; [lia| |lia|done|]; [intros p ->%list_elem_of_singleton; done|].
    intros ? [= <-]. split_and!; cbn; try first [done|by rewrite Hpr|by intros _ _ Hg; specialize (Hg (Saving login) ltac:(left))].
    intros Hu. destruct (Hun Hu) as (E & _). congruence.
  - destruct (Hr r Er) as (_ & Hf & Hun & _). unfold stepped. cbn -[Z.add len]. change (len [id]) with 1; change (len (@nil string)) with 0. rewrite lookup_insert_eq. cbn in Hx, Hsv, Hs, Hf. rewrite Hx Hsv Hs.
    split; cbn; [lia| |lia|done|].
    { intros p ->%list_elem_of_singleton. split_and!; cbn; [done..|]. intros ? [= <-]. left. }
    intros ? [= <-]. split_and!; cbn; try first [done|by rewrite Hpr].
    intros Hu. destruct (Hun Hu) as (E & _). congruence.
  - unfold stepped. cbn -[Z.add len]. change (len [id]) with 1; change (len (@nil string)) with 0. cbn in Hs, Hsv; split; cbn; [lia|set_solver|exact Hb|by rewrite Hs|].
    intros r Er. destruct (Hr r Er) as (_ & Hf & Hun & _ & Hc & Hco). cbn in Hf, Hc, Hco.
    assert (se_status r ≠ Pending) as Hnp.
    { intros Hpr. specialize (Hf Hpr). specialize (Hstale r Er Hpr). by apply bool_decide_eq_false_1 in Hf. }
    split_and!; cbn; try done.
    + intros Hu. destruct (Hun Hu) as (E & _). congruence.
    + intros Ec. destruct (Hco Ec) as (k & ? & ?). exists k. split; [done|by right].
  - apply (ok_errored id (lg_manager s)); [done|done|done|done|done| |done]. intros r Er Hpr. by destruct (Hn r Er).
  - unfold stepped. cbn -[Z.add len]. change (len [id]) with 1; change (len (@nil string)) with 0. cbn in Hs, Hsv; split; cbn; [lia|set_solver|exact Hb|by rewrite Hs|].
    intros r Er. destruct He as [->|(r0 & r1 & Er0 & Hp0 & _ & (Hst & Hk & Hfd) & Hm)].
    + destruct (Hr r Er) as (_ & Hf & Hun & Hu & Hc & Hco). split_and!; cbn; try done.
      * intros Hu'. destruct (Hun Hu') as (E & _). congruence.
      * intros Hpr Hst _. apply Hu; [done|done|]. intros p. rewrite Eph. by intros ->%list_elem_of_singleton.
    + assert (r = r1) as ->.
      { destruct Hm as [->|[_ ->]]; cbn in Er; rewrite lookup_insert_eq in Er; congruence. }
      destruct (Hr r0 Er0) as (_ & _ & Hun & _). split_and!; cbn; try done; try (by rewrite Hst).
      * unfold unclaimed. rewrite Hfd. intros Hu'. destruct (Hun Hu') as (E & _). congruence.
      * intros _. exists (sr_key_id result). split; [done|]. by apply (Hfo result).
Qed.
Lemma ok_step s s' : login_step s s' → (∀ x, view_ok (view x s)) → ∀ x, view_ok (view x s').
Proof.
  intros Hs Hok x. destruct Hs as [now|target m E|before target after E|before target after id flow now answer b1 b2 start E Hn Hb
    |now id Hg|now id Hg|now id callback claimed m Hg E|now id callback error m Hg E|before id phase after input next m E Ew].
  - by apply ok_prune.
  - assert (view x s = view x (MkLoginSystem m (target :: lg_starts s) (lg_workers s) (lg_seen s) (lg_exchanged s) (lg_saving s) (lg_stored s))) as <-; [|done].
    unfold reserve_starting_target in E. destruct (in_progress _ _); [done|]. by injection E as <-.
  - apply (Hok x).
  - by apply ok_insert with now answer b1 b2.
  - by apply ok_get.
  - by apply ok_cancel.
  - by eapply ok_claim.
  - by eapply ok_claim_refused.
  - apply worker_works in Ew. fold (after_work s before id phase after (wi_saved input) next m). rewrite work_view //.
    destruct (String.eqb x id); [|done]. apply ok_stepped; [done| |done]. apply sole_phase; [done|]. cbn. apply elem_of_of_id. rewrite E. set_solver.
Qed.

Lemma ok_start s : login_start s → ∀ x, view_ok (view x s).
Proof.
  intros (Em & _ & Ew & Ee & Es & Et) x. unfold view. rewrite Em Ew Ee Es Et. change (times x []) with 0. change (of_id x (@nil (string * Phase))) with (@nil Phase).
  split; cbn; [lia|set_solver|lia| |done].
  intros _. split_and!; try done.
Qed.

Lemma views_ok s0 s : login_start s0 → rtc login_step s0 s → ∀ x, view_ok (view x s).
Proof.
  intros Hs Hr. pose proof (ok_start _ Hs) as Hok. clear Hs. induction Hr as [|s1 s2 s3 H12 Hr IH]; [done|].
  apply IH. intros y. by apply (ok_step s1).
Qed.

(** A session that was handed over to nobody and is pending no more. *)
Definition never_saved (id : string) (s : LoginSystem) : Prop :=
  id ∈ lg_seen s ∧ times id (lg_saving s) = 0 ∧ ∀ r, sessions s !! id = Some r → se_status r ≠ Pending.

Lemma evolves_settled id id' P m m' : evolves id' P m m' → (∀ r, mg_sessions m !! id = Some r → se_status r ≠ Pending) →
  ∀ r, mg_sessions m' !! id = Some r → se_status r ≠ Pending.
Proof.
  intros He Hn r Hr. destruct (decide (id = id')) as [->|Hne].
  - destruct He as [->|(r0 & _ & Hr0 & Hp & _)]; [by apply Hn|]. by destruct (Hn r0 Hr0).
  - destruct (evolves_elsewhere _ _ _ _ id He Hne) as [E _]. rewrite E in Hr. by apply Hn.
Qed.

Lemma worked_settled id m phase saved next m' : worked id m phase saved next m' → (∀ r, mg_sessions m !! id = Some r → se_status r ≠ Pending) →
  enters_saving id next = [] ∧ ∀ r, mg_sessions m' !! id = Some r → se_status r ≠ Pending.
Proof.
  intros Hw Hn. destruct Hw; try (by destruct (Hn r)); (split; [done|]); try done; by eapply evolves_settled.
Qed.

Lemma never_step id s s' : login_step s s' → never_saved id s → never_saved id s'.
Proof.
  intros Hs (Hseen & Ht & Hn). destruct Hs as [now|target m E|before target after E|before target after id' flow now answer b1 b2 start E Hf Hb
    |now id' Hg|now id' Hg|now id' callback claimed m Hg E|now id' callback error m Hg E|before id' phase after input next m E Ew].
  - split_and!; [done..|]. cbn. intros r [Hr _]%map_lookup_filter_Some. by apply Hn.
  - split_and!; [done..|]. unfold reserve_starting_target in E. destruct (in_progress _ _); [done|]. by injection E as <-.
  - done.
  - split_and!; cbn; [set_solver|done|]. intros r. rewrite lookup_insert_ne; [apply Hn|]. by intros ->.
  - split_and!; [done..|]. by eapply evolves_settled; [apply get_evolves|].
  - split_and!; [done..|]. by eapply evolves_settled; [apply cancel_evolves|].
  - pose proof (claim_evolves now id' callback (lg_manager s)) as He. rewrite E in He.
    destruct He as (_ & r & r' & Hr & Hp & _ & _ & ->). split_and!; cbn; [done..|]. intros r1 [[<- <-]|[_ Hr1]]%lookup_insert_Some; [|by apply Hn].
    by destruct (Hn r).
  - pose proof (claim_evolves now id' callback (lg_manager s)) as He. rewrite E in He. split_and!; [done..|]. by eapply evolves_settled.
  - apply worker_works in Ew. split_and!; cbn; [done| |].
    + rewrite times_app times_enters_saving. destruct (String.eqb_spec id id') as [<-|Hne]; [|done].
      destruct (worked_settled _ _ _ _ _ _ Ew Hn) as [-> _]. done.
    + destruct (decide (id = id')) as [<-|Hne]; [by destruct (worked_settled _ _ _ _ _ _ Ew Hn)|].
      destruct (worked_elsewhere _ _ _ _ _ _ id Ew Hne) as [-> _]. exact Hn.
Qed.

Lemma never_later id s s' : rtc login_step s s' → never_saved id s → never_saved id s'.
Proof. induction 1; [done|]. intros Hn. by eapply IHrtc, never_step. Qed.

(** C3. However many logins run at once, and however they are read, called back, cancelled and
    carried through: a login exchanges its authorization code at most once and hands its
    credentials to the database at most once; when it is reported as cancelled it has stored
    nothing and never will; when it is reported as completed, its account was stored on the key
    it names. *)
Theorem login_stores_once_or_never s0 s id : login_start s0 → rtc login_step s0 s →
  times id (lg_exchanged s) <= 1 ∧ times id (lg_saving s) <= 1
  ∧ ∀ r, sessions s !! id = Some r →
      (se_status r = Cancelled → ∀ s', rtc login_step s s' → times id (lg_saving s') = 0)
      ∧ (se_status r = Completed → ∃ k, se_key_id r = Some k ∧ (id, k) ∈ lg_stored s).
Proof.
  intros Hs Hr. pose proof (views_ok s0 s Hs Hr id) as [_ _ [Hx Hsv] _ Hrec]. split_and!; [apply Hx|apply Hsv|].
  intros r Hid. destruct (Hrec r Hid) as (Hseen & _ & _ & _ & Hc & Hco). split.
  - intros Ec s' Hr'. apply (never_later id s s' Hr'). split_and!; [by apply bool_decide_eq_true_1 in Hseen|by apply Hc|congruence].
  - intros Ed. destruct (Hco Ed) as (k & Hk & Hin). exists k. split; [done|]. by apply elem_of_of_id.
Qed.

Lemma target_step s s' : login_step s s' → (∀ x, view_ok (view x s)) → target_inv s → target_inv s'.
Proof.
  intros Hs Hok Hi. destruct Hs as [now|target m E|before target after E|before target after id flow now answer b1 b2 start E Hf Hb
    |now id Hg|now id Hg|now id callback claimed m Hg E|now id callback error m Hg E|before id phase after input next m E Ew].
  - apply (target_tame s); [apply prune_tame|done].
  - by apply target_reserve.
  - by apply target_drop.
  - apply target_insert; [done|by destruct start as [[? ?] ?], target| |done].
    destruct (sessions s !! id) as [r|] eqn:Er; [|done]. destruct (vo_record _ (Hok id) r Er) as (Hseen & _).
    by apply bool_decide_eq_true_1 in Hseen.
  - apply (target_tame s); [|done]. eapply evolves_tame, get_evolves.
  - apply (target_tame s); [|done]. eapply evolves_tame, cancel_evolves.
  - apply (target_tame s); [|done]. pose proof (claim_tame now id callback (lg_manager s)) as Ht. by rewrite E in Ht.
  - apply (target_tame s); [|done]. pose proof (claim_tame now id callback (lg_manager s)) as Ht. by rewrite E in Ht.
  - apply (target_tame s); [|done]. by eapply worked_tame, worker_works.
Qed.

(** C26. A target - a provider, with the key that is signed in again - never has two logins: of all
    sessions that are pending, no two are for the same target, and none is for a target whose
    login is being started. *)
Theorem one_login_per_target s0 s id id' r r' : login_start s0 → rtc login_step s0 s →
  sessions s !! id = Some r → se_status r = Pending →
  se_target r ∉ lg_starts s ∧ (sessions s !! id' = Some r' → se_status r' = Pending → se_target r = se_target r' → id = id').
Proof.
  intros Hs Hr Hid Hp.
  assert (target_inv s) as [_ _ Hpe Ha]; [|split; [by apply (Hpe id)|intros ???; by apply (Ha id id' r r')]]. clear Hid Hp r r' id id'.
  pose proof (ok_start _ Hs) as Hok. assert (target_inv s0) as Hi.
  { destruct Hs as (Em & Es & _). split; rewrite ?Em ?Es; cbn; [constructor|set_solver|done|done]. }
  revert Hok Hi. clear Hs. induction Hr as [|s1 s2 s3 H12 Hr IH]; [done|]. intros Hok Hi. apply IH; [intros y; by apply (ok_step s1)|by eapply target_step].
Qed.
End Login.

(** ** A login in a browser *)

(** A service that answers every exchange with the same tokens. *)
Definition example_claims : Value :=
  Object [("email", String "ada@example.org"); ("https://api.openai.com/auth", Object [("chatgpt_account_id", String "account-1")])].
Definition example_oauth_lib : OAuthLib := {|
  parse_url _ := None;
  url_with_pairs base _ := Some base;
  json_from_slice _ := Some example_claims;
  json_to_vec _ := Some "{}";
  user_code_from_slice _ := None;
  device_token_from_slice _ := None;
  token_from_slice _ := Some (MkTokenResponse "access-1" (Some "refresh-1") (Some "a.b.c") (Some 3600));
  url_safe_no_pad s := Some (chars s);
  url_safe _ := None;
  sha256 := Datatypes.id;
  no_pad_encode := of_chars;
  oauth_header_value _ := true;
  oauth_to_str s := Some s |}.
#[local] Existing Instance plain_crypto.
#[local] Existing Instance example_oauth_lib.

Definition run_state : string := "state-1".
Definition run_target : SessionTarget := (7, None).
Definition run_flow : SessionFlowData * Z * Z :=
  (BrowserData run_state "verifier-1" AUTHORIZE_URL false, BROWSER_POLL_INTERVAL_MS, BROWSER_SESSION_TTL_MS).
Definition run_callback : BrowserCallback := MkCallback run_state (Some "code-1") None None.
Definition run_session : SessionRecord := new_session "login-1" run_target Browser run_flow.
Definition run_claimed : SessionRecord :=
  set_se_stage Exchanging (set_se_flow_data (BrowserData run_state "verifier-1" AUTHORIZE_URL true) run_session).
Definition run_answer : Transmission := Received 200 [] true.
Definition run_bundle : TokenBundle := MkBundle "access-1" "refresh-1" "a.b.c" 3600.
Definition run_id_claims : IdTokenClaims := MkClaims "account-1" "ada@example.org" None.
Definition run_input : WorkerInput := MkInput 1000 run_answer (inl (MkSaved 3 Created)) [].
Definition run_exchange : Phase := Exchange (exchange_browser_code "code-1" "verifier-1").
Definition run_manager (r : SessionRecord) : Manager := MkManager {["login-1" := r]} ∅ ∅.

Definition run_start : LoginSystem := MkLoginSystem (MkManager ∅ ∅ ∅) [] [] ∅ [] [] [].
Definition run_begun : LoginSystem := MkLoginSystem (run_manager run_session) [] [] {["login-1"]} [] [] [].
Definition run_saving : LoginSystem :=
  MkLoginSystem (run_manager run_claimed) [] [("login-1", Saving (session_login "master" run_target run_bundle run_id_claims 1000))]
    {["login-1"]} ["login-1"] ["login-1"] [].

Lemma run_starts : login_start run_start.
Proof. done. Qed.

Lemma run_begins : rtc (login_step "master") run_start run_begun.
Proof.
  eapply rtc_l; [by apply (LoginReserve _ _ run_target (MkManager ∅ {[run_target]} ∅)); vm_compute|].
  eapply rtc_l; [apply (LoginInsert _ _ [] run_target [] "login-1" Browser 0 TimedOut (chars run_state) (chars "verifier-1") run_flow); [done|set_solver|by vm_compute]|].
  exact (rtc_refl _ run_begun).
Qed.

Lemma run_saves : rtc (login_step "master") run_begun run_saving.
Proof.
  eapply rtc_l; [apply (LoginClaim _ _ 1000 "login-1" run_callback (MkClaimed "code-1" "verifier-1" (session_view run_claimed)) (run_manager run_claimed));
    [by intros p Hp%not_elem_of_nil|by vm_compute]|].
  eapply rtc_l; [apply (LoginWork _ _ [] "login-1" run_exchange [] run_input (Some (WaitGate run_bundle run_id_claims)) (run_manager run_claimed)); by vm_compute|].
  eapply rtc_l; [apply (LoginWork _ _ [] "login-1" (WaitGate run_bundle run_id_claims) [] run_input
    (Some (Saving (session_login "master" run_target run_bundle run_id_claims 1000))) (run_manager run_claimed)); by vm_compute|].
  exact (rtc_refl _ run_saving).
Qed.

(** The login completes, with the key its account was stored on. *)
Definition run_following : LoginSystem :=
  MkLoginSystem (run_manager (set_se_stage Finalizing run_claimed)) [] [("login-1", Following (MkSaved 3 Created))]
    {["login-1"]} ["login-1"] ["login-1"] [("login-1", 3)].
Definition run_completed : LoginSystem :=
  MkLoginSystem (run_manager (completed (MkSaved 3 Created) [] 1000 (set_se_stage Finalizing run_claimed))) [] []
    {["login-1"]} ["login-1"] ["login-1"] [("login-1", 3)].

Lemma run_follows : rtc (login_step "master") run_saving run_following.
Proof.
  eapply rtc_l; [apply (LoginWork _ _ [] "login-1" (Saving (session_login "master" run_target run_bundle run_id_claims 1000)) [] run_input
    (Some (Following (MkSaved 3 Created))) (run_manager (set_se_stage Finalizing run_claimed))); by vm_compute|].
  exact (rtc_refl _ run_following).
Qed.

Lemma run_completes : rtc (login_step "master") run_following run_completed.
Proof.
  eapply rtc_l; [apply (LoginWork _ _ [] "login-1" (Following (MkSaved 3 Created)) [] run_input None
    (run_manager (completed (MkSaved 3 Created) [] 1000 (set_se_stage Finalizing run_claimed)))); by vm_compute|].
  exact (rtc_refl _ run_completed).
Qed.

Lemma login_stores_once_or_never_witness :
  times "login-1" (lg_saving run_completed) = 1
  ∧ ∃ r k, sessions run_completed !! "login-1" = Some r ∧ se_key_id r = Some k ∧ ("login-1", k) ∈ lg_stored run_completed.
Proof.
  split; [done|].
  assert (rtc (login_step "master") run_start run_completed) as Hr.
  { etrans; [apply run_begins|]. etrans; [apply run_saves|].
    etrans; [apply run_follows|apply run_completes]. }
  destruct (login_stores_once_or_never "master" run_start run_completed "login-1" run_starts Hr) as (_ & _ & Hd).
  destruct (Hd (completed (MkSaved 3 Created) [] 1000 (set_se_stage Finalizing run_claimed)) eq_refl) as [_ Hc].
  destruct (Hc eq_refl) as (k & Hk & Hin). eexists _, k. split_and!; [reflexivity|exact Hk|exact Hin].
Defined.

Lemma one_login_per_target_witness : se_target run_session ∉ lg_starts run_begun
  ∧ (sessions run_begun !! "login-1" = Some run_session → se_status run_session = Pending → se_target run_session = se_target run_session → "login-1" = "login-1").
Proof.
  apply (one_login_per_target "master" run_start run_begun "login-1" "login-1" run_session run_session run_starts run_begins); reflexivity.
Defined.

(** The same callback is submitted again while the login is being finished, and the session has
    just expired. *)
Definition run_late : LoginSystem := set_lg_manager (request_cancel "login-1" (run_manager (expired_record 300000 (set_se_stage Finalizing run_claimed)))) run_following.

(** A login whose credentials are stored may still be reported as expired, with no key: reading
    and cancelling leave a session alone that is being finished, but a callback that is
    submitted again after the deadline ends it all the same, and the task finds it ended. *)
Theorem late_callback_hides_login :
  ∃ s id r k, rtc (login_step "master") run_start s ∧ lg_workers s = [] ∧ sessions s !! id = Some r
    ∧ se_status r = Expired ∧ se_key_id r = None ∧ (id, k) ∈ lg_stored s.
Proof.
  exists (set_lg_manager (request_cancel "login-1" (run_manager (expired_record 300000 (set_se_stage Finalizing run_claimed)))) run_completed),
    "login-1", (expired_record 300000 (set_se_stage Finalizing run_claimed)), 3.
  split_and!; [|done|done|done|done|left].
  etrans; [apply run_begins|]. etrans; [apply run_saves|]. etrans; [apply run_follows|].
  eapply rtc_l; [apply (LoginClaimRefused _ _ 300000 "login-1" run_callback (conflict "oauth_session_expired" "the OAuth login session expired")
    (lg_manager run_late)); [intros p; cbn; intros [= ->]%list_elem_of_singleton; done|by vm_compute]|].
  eapply rtc_l; [apply (LoginWork _ _ [] "login-1" (Following (MkSaved 3 Created)) [] run_input None (lg_manager run_late)); by vm_compute|].
  exact (rtc_refl _ _).
Qed.
