(* ===== verification/StatsTables.v ===== *)
(** * StatsTables: the tables of the statistics and of the request log

    Models the tables [stats_daily], [stats_hourly], [stats_events] and [request_logs] of
    [db.rs], with their rows ([types.rs]) and the statements [telemetry.rs] runs on them. A
    table is the map of its primary key. The counters of a row are grouped as [telemetry.rs]
    groups them. A sum that leaves 64 bits inside the database is outside the model. *)
From Stdlib Require Import Ascii String.
From S2P Require Import Prelude Json Types.

Local Open Scope string_scope.
Local Open Scope list_scope.
Local Open Scope Z_scope.

(** ** Counters *)
Record StatsAgg := MkAgg {
  sa_request_success : Z;
  sa_request_failed : Z;
  sa_input_tokens : Z;
  sa_output_tokens : Z;
  sa_cache_read_input_tokens : Z;
  sa_cache_creation_input_tokens : Z;
  sa_reasoning_output_tokens : Z;
  sa_usage_observed_requests : Z;
  sa_wait_time_ms : Z
}.

Record HourlyStatsAgg := MkHourlyAgg {
  ha_stats : StatsAgg;
  ha_latency_lt_500ms : Z;
  ha_latency_lt_1000ms : Z;
  ha_latency_lt_2000ms : Z;
  ha_latency_lt_5000ms : Z;
  ha_latency_lt_15000ms : Z;
  ha_latency_gte_15000ms : Z
}.

(** [Default] *)
Definition no_stats : StatsAgg := MkAgg 0 0 0 0 0 0 0 0 0.
Definition no_hourly : HourlyStatsAgg := MkHourlyAgg no_stats 0 0 0 0 0 0.

Record HourlyKey := MkHourlyKey {
  hk_bucket_ms : Z;
  hk_api_key_id : Z;
  hk_provider_id : Z;
  hk_endpoint_id : Z;
  hk_upstream_key_id : Z;
  hk_api_format : string;
  hk_model : string;
  hk_price_version_id : Z;
  hk_price_tier_index : Z
}.

#[export] Instance StatsAgg_eq_dec : EqDecision StatsAgg.
Proof. solve_decision. Defined.
#[export] Instance HourlyKey_eq_dec : EqDecision HourlyKey.
Proof. solve_decision. Defined.
#[export] Program Instance HourlyKey_countable : Countable HourlyKey :=
  inj_countable'
    (λ k, (hk_bucket_ms k, hk_api_key_id k, hk_provider_id k, hk_endpoint_id k, hk_upstream_key_id k, hk_api_format k, hk_model k,
           hk_price_version_id k, hk_price_tier_index k))
    (λ '(a, b, c, d, e, f, g, h, i), MkHourlyKey a b c d e f g h i) _.
Next Obligation. by intros []. Qed.

(** ** Rows *)
Record StatsDailyRow := MkDaily { dy_date : string; dy_api_key_id : Z; dy_agg : StatsAgg; dy_updated_at_ms : Z }.
Record StatsHourlyRow := MkHourly { hr_key : HourlyKey; hr_agg : HourlyStatsAgg; hr_updated_at_ms : Z }.

Record StatsEventRow := MkEventRow {
  ev_id : string;
  ev_time_ms : Z;
  ev_api_key_id : Z;
  ev_provider_id : option Z;
  ev_endpoint_id : option Z;
  ev_upstream_key_id : option Z;
  ev_api_format : string;
  ev_model : option string;
  ev_http_status : option Z;
  ev_error_type : option string;
  ev_usage : Usage;
  ev_usage_observed : bool;
  ev_price_version_id : option Z;
  ev_price_tier_index : option Z;
  ev_duration_ms : option Z;
  ev_created_at_ms : Z
}.

Record RequestLogRow := MkLogRow {
  lg_id : string;
  lg_time_ms : Z;
  lg_api_key_id : Z;
  lg_provider_id : option Z;
  lg_endpoint_id : option Z;
  lg_upstream_key_id : option Z;
  lg_api_format : string;
  lg_upstream_api_format : option string;
  lg_model : option string;
  lg_http_status : option Z;
  lg_error_type : option string;
  lg_error_message : option string;
  lg_usage : Usage;
  lg_usage_observed : bool;
  lg_price_version_id : option Z;
  lg_price_tier_index : option Z;
  lg_t_stream_ms : option Z;
  lg_t_first_byte_ms : option Z;
  lg_t_first_token_ms : option Z;
  lg_duration_ms : option Z;
  lg_span_kind : string;
  lg_transport : string;
  lg_parent_id : option string;
  lg_ws_session_id : option string;
  lg_ttft_source : option string;
  lg_requested_reasoning_effort : option string;
  lg_upstream_reasoning_effort : option string;
  lg_requested_service_tier : option string;
  lg_upstream_service_tier : option string;
  lg_service_tier : option string;
  lg_routing_trace : option Value;
  lg_created_at_ms : Z
}.

Record StatsTables := MkStatsTables {
  st_daily : gmap (string * Z) StatsDailyRow;
  st_hourly : gmap HourlyKey StatsHourlyRow;
  st_events : gmap string StatsEventRow;
  st_logs : gmap string RequestLogRow
}.
Definition set_st_daily v t := MkStatsTables v (st_hourly t) (st_events t) (st_logs t).
Definition set_st_hourly v t := MkStatsTables (st_daily t) v (st_events t) (st_logs t).
Definition set_st_events v t := MkStatsTables (st_daily t) (st_hourly t) v (st_logs t).
Definition set_st_logs v t := MkStatsTables (st_daily t) (st_hourly t) (st_events t) v.

Definition DbError : Type := string.
Definition unique_violation : DbError := "UNIQUE constraint failed".

(** ** Daily statistics *)
Definition list_stats_daily_by_date (date : string) (t : StatsTables) : list StatsDailyRow :=
  List.filter (λ r, String.eqb (dy_date r) date) (map snd (map_to_list (st_daily t))).

Definition upsert_daily_row (r : StatsDailyRow) (t : StatsTables) : StatsTables :=
  set_st_daily (<[(dy_date r, dy_api_key_id r) := r]> (st_daily t)) t.
(** One transaction. *)
Definition upsert_stats_daily (rows : list StatsDailyRow) (t : StatsTables) : StatsTables := foldl (λ t r, upsert_daily_row r t) t rows.

(** ** Hourly statistics *)
Definition stats_plus (a b : StatsAgg) : StatsAgg :=
  MkAgg (sa_request_success a + sa_request_success b) (sa_request_failed a + sa_request_failed b)
    (sa_input_tokens a + sa_input_tokens b) (sa_output_tokens a + sa_output_tokens b)
    (sa_cache_read_input_tokens a + sa_cache_read_input_tokens b)
    (sa_cache_creation_input_tokens a + sa_cache_creation_input_tokens b)
    (sa_reasoning_output_tokens a + sa_reasoning_output_tokens b)
    (sa_usage_observed_requests a + sa_usage_observed_requests b) (sa_wait_time_ms a + sa_wait_time_ms b).
Definition hourly_plus (a b : HourlyStatsAgg) : HourlyStatsAgg :=
  MkHourlyAgg (stats_plus (ha_stats a) (ha_stats b)) (ha_latency_lt_500ms a + ha_latency_lt_500ms b)
    (ha_latency_lt_1000ms a + ha_latency_lt_1000ms b) (ha_latency_lt_2000ms a + ha_latency_lt_2000ms b)
    (ha_latency_lt_5000ms a + ha_latency_lt_5000ms b) (ha_latency_lt_15000ms a + ha_latency_lt_15000ms b)
    (ha_latency_gte_15000ms a + ha_latency_gte_15000ms b).

(** [ON CONFLICT DO UPDATE SET x = stats_hourly.x + excluded.x] *)
Definition merge_hourly (old : option StatsHourlyRow) (r : StatsHourlyRow) : StatsHourlyRow :=
  match old with
  | None => r
  | Some o => MkHourly (hr_key r) (hourly_plus (hr_agg o) (hr_agg r)) (hr_updated_at_ms r)
  end.
Definition upsert_hourly_row (r : StatsHourlyRow) (t : StatsTables) : StatsTables :=
  set_st_hourly (<[hr_key r := merge_hourly (st_hourly t !! hr_key r) r]> (st_hourly t)) t.

(** ** Events and logs *)

(** The inserts of one transaction: a key that is there already fails them all. *)
Fixpoint insert_rows {R} (id : R → string) (rows : list R) (m : gmap string R) : option (gmap string R) :=
  match rows with
  | [] => Some m
  | r :: rest => if is_some (m !! id r) then None else insert_rows id rest (<[id r := r]> m)
  end.

Definition insert_request_logs (rows : list RequestLogRow) (t : StatsTables) : (unit + DbError) * StatsTables :=
  match insert_rows lg_id rows (st_logs t) with
  | Some logs => (inl tt, set_st_logs logs t)
  | None => (inr unique_violation, t)
  end.
Definition insert_stats_events (rows : list StatsEventRow) (t : StatsTables) : (unit + DbError) * StatsTables :=
  match insert_rows ev_id rows (st_events t) with
  | Some events => (inl tt, set_st_events events t)
  | None => (inr unique_violation, t)
  end.

(** ** Retention *)

(** [WHERE time_ms < ? ORDER BY time_ms ASC, id ASC LIMIT ?] *)
Definition older {R} (time : R → Z) (id : R → string) (a b : R) : bool :=
  (time a <? time b) || ((time a =? time b) && str_leb (id a) (id b)).
Definition oldest {R} (time : R → Z) (id : R → string) (cutoff limit : Z) (m : gmap string R) : list R :=
  take_Z (Z.max limit 1) (sort_by (older time id) (List.filter (λ r, time r <? cutoff) (map snd (map_to_list m)))).
Definition delete_rows {K R} `{Countable K} (key : R → K) (rows : list R) (m : gmap K R) : gmap K R :=
  foldr (λ r m, delete (key r) m) m rows.

Definition list_request_logs_before (cutoff limit : Z) (t : StatsTables) : list RequestLogRow :=
  oldest lg_time_ms lg_id cutoff limit (st_logs t).
Definition delete_request_logs_before (cutoff limit : Z) (t : StatsTables) : Z * StatsTables :=
  let rows := list_request_logs_before cutoff limit t in (len rows, set_st_logs (delete_rows lg_id rows (st_logs t)) t).
Definition delete_stats_events_before (cutoff limit : Z) (t : StatsTables) : Z * StatsTables :=
  let rows := oldest ev_time_ms ev_id cutoff limit (st_events t) in (len rows, set_st_events (delete_rows ev_id rows (st_events t)) t).

(** [ORDER BY date ASC, api_key_id ASC]; a date is written so that its bytes order it. *)
Definition daily_leb (a b : StatsDailyRow) : bool :=
  if String.eqb (dy_date a) (dy_date b) then dy_api_key_id a <=? dy_api_key_id b else str_leb (dy_date a) (dy_date b).
Definition before_date (cutoff date : string) : bool := negb (str_leb cutoff date).
Definition delete_stats_daily_before (cutoff : string) (limit : Z) (t : StatsTables) : Z * StatsTables :=
  let rows := take_Z (Z.max limit 1) (sort_by daily_leb (List.filter (λ r, before_date cutoff (dy_date r)) (map snd (map_to_list (st_daily t))))) in
  (len rows, set_st_daily (delete_rows (λ r, (dy_date r, dy_api_key_id r)) rows (st_daily t)) t).
