(* ===== verification/Telemetry.v ===== *)
(** * Telemetry: the worker that writes statistics and logs

    Models [telemetry.rs] and [log_archive.rs]: the worker that receives an event for every
    request, counts it, and writes the daily and hourly statistics, the events of the
    statistics and the request log; the retention with its archive; and the order in which the
    worker serves what it is sent. The worker runs in a monad over its own state, the tables
    and the archive; before each of its statements others may change the tables, and a
    statement may fail, with or without having taken effect. Rows that are only dropped or
    counted in a log message leave no other trace. *)
From Stdlib Require Import Ascii String.
From S2P Require Import Prelude Text Json Types StatsTables Computation.

Local Open Scope string_scope.
Local Open Scope list_scope.
Local Open Scope Z_scope.
Local Open Scope loop_scope.

Definition MILLIS_PER_DAY : Z := 86400000.
Definition MILLIS_PER_HOUR : Z := 3600000.
Definition RETENTION_MAX_BATCHES_PER_RUN : nat := 4.

(** ** Events *)
Record TelemetryEvent := MkEvent {
  tm_id : option string;
  tm_api_key_id : Z;
  tm_log_enabled : bool;
  tm_provider_id : option Z;
  tm_endpoint_id : option Z;
  tm_upstream_key_id : option Z;
  tm_api_format : string;
  tm_upstream_api_format : option string;
  tm_model : option string;
  tm_http_status : option Z;
  tm_error_type : option string;
  tm_error_message : option string;
  tm_t_stream_ms : option Z;
  tm_t_first_byte_ms : option Z;
  tm_t_first_token_ms : option Z;
  tm_duration_ms : option Z;
  tm_usage : Usage;
  tm_usage_observed : bool;
  tm_price_version_id : option Z;
  tm_price_tier_index : option Z;
  tm_time_ms : Z;
  tm_span_kind : string;
  tm_transport : string;
  tm_parent_id : option string;
  tm_ws_session_id : option string;
  tm_ttft_source : option string;
  tm_requested_reasoning_effort : option string;
  tm_upstream_reasoning_effort : option string;
  tm_requested_service_tier : option string;
  tm_upstream_service_tier : option string;
  tm_service_tier : option string;
  tm_routing_trace : option Value
}.

(** ** Counting *)

(** [StatsAgg::add] *)
Definition stats_add (ok : bool) (usage : Usage) (usage_observed : bool) (wait_time_ms : Z) (a : StatsAgg) : StatsAgg :=
  MkAgg (if ok then i64_wrap (sa_request_success a + 1) else sa_request_success a)
    (if ok then sa_request_failed a else i64_wrap (sa_request_failed a + 1))
    (i64_wrap (sa_input_tokens a + us_input_tokens usage)) (i64_wrap (sa_output_tokens a + us_output_tokens usage))
    (i64_wrap (sa_cache_read_input_tokens a + us_cache_read_input_tokens usage))
    (i64_wrap (sa_cache_creation_input_tokens a + us_cache_creation_input_tokens usage))
    (i64_wrap (sa_reasoning_output_tokens a + us_reasoning_output_tokens usage))
    (if usage_observed then i64_wrap (sa_usage_observed_requests a + 1) else sa_usage_observed_requests a)
    (i64_wrap (sa_wait_time_ms a + wait_time_ms)).

(** [HourlyStatsAgg::add] *)
Definition hourly_add (ok : bool) (event : TelemetryEvent) (wait_time_ms : Z) (h : HourlyStatsAgg) : HourlyStatsAgg :=
  let stats := stats_add ok (tm_usage event) (tm_usage_observed event) wait_time_ms (ha_stats h) in
  let incr b n := if (b : bool) then i64_wrap (n + 1) else n in
  let below l := wait_time_ms <? l in
  MkHourlyAgg stats (incr (below 500) (ha_latency_lt_500ms h))
    (incr (negb (below 500) && below 1000) (ha_latency_lt_1000ms h))
    (incr (negb (below 1000) && below 2000) (ha_latency_lt_2000ms h))
    (incr (negb (below 2000) && below 5000) (ha_latency_lt_5000ms h))
    (incr (negb (below 5000) && below 15000) (ha_latency_lt_15000ms h))
    (incr (negb (below 15000)) (ha_latency_gte_15000ms h)).

(** [div_euclid] by a positive divisor is the division of [Z]. *)
Definition hour_bucket_ms (time_ms : Z) : Z := i64_wrap (time_ms / MILLIS_PER_HOUR * MILLIS_PER_HOUR).

Definition event_ok (e : TelemetryEvent) : bool := (unwrap_or (tm_http_status e) 500 <? 400) && is_none (tm_error_type e).
Definition event_wait (e : TelemetryEvent) : Z := unwrap_or (tm_duration_ms e) 0.
Definition counts_for_stats (e : TelemetryEvent) : bool :=
  String.eqb (tm_span_kind e) "request" || String.eqb (tm_span_kind e) "ws_turn".

Definition hourly_key (e : TelemetryEvent) : HourlyKey :=
  MkHourlyKey (hour_bucket_ms (tm_time_ms e)) (tm_api_key_id e) (unwrap_or (tm_provider_id e) 0) (unwrap_or (tm_endpoint_id e) 0)
    (unwrap_or (tm_upstream_key_id e) 0) (tm_api_format e)
    (unwrap_or (opt_filter (λ v, negb (String.eqb v "")) (option_map trim (tm_model e))) "unknown")
    (unwrap_or (tm_price_version_id e) 0) (unwrap_or (tm_price_tier_index e) (-1)).

Definition stats_event_from_event (e : TelemetryEvent) (ok : bool) (ulid : string) (created_at_ms : Z) : StatsEventRow :=
  MkEventRow ulid (tm_time_ms e) (tm_api_key_id e) (tm_provider_id e) (tm_endpoint_id e) (tm_upstream_key_id e) (tm_api_format e)
    (tm_model e) (opt_or (tm_http_status e) (if ok then Some 200 else Some 500)) (tm_error_type e) (tm_usage e) (tm_usage_observed e)
    (tm_price_version_id e) (tm_price_tier_index e) (tm_duration_ms e) created_at_ms.

(** [String::truncate(512)], which panics inside a character. *)
Definition truncate_message (s : string) : option string :=
  if (512 <? String.length s)%nat
  then (if is_char_boundary 512 (chars s) then Some (of_chars (take 512 (chars s))) else None)
  else Some s.

Definition log_row (e : TelemetryEvent) (id : string) (message : option string) (created_at_ms : Z) : RequestLogRow :=
  MkLogRow id (tm_time_ms e) (tm_api_key_id e) (tm_provider_id e) (tm_endpoint_id e) (tm_upstream_key_id e) (tm_api_format e)
    (tm_upstream_api_format e) (tm_model e) (tm_http_status e) (tm_error_type e) message (tm_usage e) (tm_usage_observed e)
    (tm_price_version_id e) (tm_price_tier_index e) (tm_t_stream_ms e) (tm_t_first_byte_ms e) (tm_t_first_token_ms e)
    (tm_duration_ms e) (tm_span_kind e) (tm_transport e) (tm_parent_id e) (tm_ws_session_id e) (tm_ttft_source e)
    (tm_requested_reasoning_effort e) (tm_upstream_reasoning_effort e) (tm_requested_service_tier e)
    (tm_upstream_service_tier e) (tm_service_tier e) (tm_routing_trace e) created_at_ms.

(** ** The worker *)
Record RetentionPolicy := MkRetention {
  rp_request_log_retention_days : Z;
  rp_stats_daily_retention_days : Z;
  rp_cleanup_interval_ms : Z;
  rp_delete_batch : Z;
  rp_request_log_archive_enabled : bool;
  rp_request_log_archive_dir : string;
  rp_request_log_archive_compress : bool
}.
Definition new_retention (log_days daily_days interval_ms delete_batch : Z) (archive : bool) (dir : string) (compress : bool) : RetentionPolicy :=
  MkRetention log_days daily_days interval_ms (Z.max delete_batch 1) archive dir compress.
Definition retention_enabled (r : RetentionPolicy) : bool :=
  (0 <? rp_request_log_retention_days r) || (0 <? rp_stats_daily_retention_days r).

Record TelemetryWorker := MkWorker {
  wk_log_batch_max : Z;
  wk_retention : RetentionPolicy;
  wk_next_retention_run_ms : Z;
  wk_current_date : string;
  wk_stats_by_key : gmap Z StatsAgg;
  wk_hourly_stats : gmap HourlyKey HourlyStatsAgg;
  wk_dirty : bool;
  wk_log_buffer : list RequestLogRow;
  wk_stats_event_buffer : list StatsEventRow
}.
Definition set_wk_next_run v k := MkWorker (wk_log_batch_max k) (wk_retention k) v (wk_current_date k) (wk_stats_by_key k)
  (wk_hourly_stats k) (wk_dirty k) (wk_log_buffer k) (wk_stats_event_buffer k).
Definition set_wk_current_date v k := MkWorker (wk_log_batch_max k) (wk_retention k) (wk_next_retention_run_ms k) v
  (wk_stats_by_key k) (wk_hourly_stats k) (wk_dirty k) (wk_log_buffer k) (wk_stats_event_buffer k).
Definition set_wk_stats_by_key v k := MkWorker (wk_log_batch_max k) (wk_retention k) (wk_next_retention_run_ms k) (wk_current_date k)
  v (wk_hourly_stats k) (wk_dirty k) (wk_log_buffer k) (wk_stats_event_buffer k).
Definition set_wk_hourly_stats v k := MkWorker (wk_log_batch_max k) (wk_retention k) (wk_next_retention_run_ms k) (wk_current_date k)
  (wk_stats_by_key k) v (wk_dirty k) (wk_log_buffer k) (wk_stats_event_buffer k).
Definition set_wk_dirty v k := MkWorker (wk_log_batch_max k) (wk_retention k) (wk_next_retention_run_ms k) (wk_current_date k)
  (wk_stats_by_key k) (wk_hourly_stats k) v (wk_log_buffer k) (wk_stats_event_buffer k).
Definition set_wk_log_buffer v k := MkWorker (wk_log_batch_max k) (wk_retention k) (wk_next_retention_run_ms k) (wk_current_date k)
  (wk_stats_by_key k) (wk_hourly_stats k) (wk_dirty k) v (wk_stats_event_buffer k).
Definition set_wk_stats_event_buffer v k := MkWorker (wk_log_batch_max k) (wk_retention k) (wk_next_retention_run_ms k) (wk_current_date k)
  (wk_stats_by_key k) (wk_hourly_stats k) (wk_dirty k) (wk_log_buffer k) v.

(** ** The archive *)
Record ArchiveFile := MkArchiveFile { af_path : string; af_lines : list string; af_compressed : bool }.
Record ArchiveIndexEntry := MkIndexEntry {
  ai_created_at_ms : Z;
  ai_relative_path : string;
  ai_row_count : Z;
  ai_file_size_bytes : Z;
  ai_uncompressed_bytes : Z;
  ai_min_time_ms : option Z;
  ai_max_time_ms : option Z;
  ai_compressed : bool
}.

(** What the archive directory holds: the files that were written to their end, and the lines
    of the index. *)
Record Archive := MkArchive { ar_files : list ArchiveFile; ar_index : list ArchiveIndexEntry }.

(** ** The world and the state *)
Inductive Fault := Lost (e : DbError) | Unacknowledged (e : DbError).

Record TelemetryWorld := MkTelemetryWorld {
  tw_clock : nat → Z;
  tw_ulid : nat → string;
  tw_others : nat → StatsTables → StatsTables;
  tw_fault : nat → option Fault;
  (** Whether working on a file fails, and the size of the file. *)
  tw_io : nat → option string;
  tw_file_size : nat → Z
}.

Record TelemetryState := MkTState { ts_worker : TelemetryWorker; ts_tables : StatsTables; ts_archive : Archive; ts_time : nat }.
Definition set_ts_worker v s := MkTState v (ts_tables s) (ts_archive s) (ts_time s).
Definition set_ts_tables v s := MkTState (ts_worker s) v (ts_archive s) (ts_time s).
Definition set_ts_archive v s := MkTState (ts_worker s) (ts_tables s) v (ts_time s).
Definition tick s := MkTState (ts_worker s) (ts_tables s) (ts_archive s) (S (ts_time s)).

Inductive Exit := Panicked.
Notation M := (comp TelemetryState Exit).

(** Third-party code: the format [YYYYMMDD] of an instant and the printer of a log row. *)
Class TelemetryLib := {
  yyyymmdd : Z → string;
  row_to_string : RequestLogRow → string + string
}.

Section Worker.
Context `{TelemetryLib} {DOrd : HashOrder Z StatsAgg} {HOrd : HashOrder HourlyKey HourlyStatsAgg} (w : TelemetryWorld).

(** ** Steps *)

(** What others do while time goes on. *)
Definition others (s : TelemetryState) : TelemetryState := tick (set_ts_tables (tw_others w (ts_time s) (ts_tables s)) s).
Definition draw {A} (f : nat → A) : M A := λ s, (inl (f (ts_time s)), others s).
Definition clock : M Z := draw (tw_clock w).
Definition new_ulid : M string := draw (tw_ulid w).
Definition worker {A} (f : TelemetryWorker → A) : M A := gets (λ s, f (ts_worker s)).
Definition update (f : TelemetryWorker → TelemetryWorker) : M unit := modify (λ s, set_ts_worker (f (ts_worker s)) s).

Definition today_yyyymmdd_utc : M string := let* now := clock in ret (yyyymmdd now).
Definition yyyymmdd_utc_days_ago (days_back : Z) : M string :=
  let* now := clock in ret (yyyymmdd (now - Z.max days_back 0 * MILLIS_PER_DAY)).

Definition statement {A} (op : StatsTables → (A + DbError) * StatsTables) : M (A + DbError) :=
  λ s,
    let fault := tw_fault w (ts_time s) in
    let s := others s in
    match fault with
    | Some (Lost e) => (inl (inr e), s)
    | Some (Unacknowledged e) => (inl (inr e), set_ts_tables (op (ts_tables s)).2 s)
    | None => let '(r, t) := op (ts_tables s) in (inl r, set_ts_tables t s)
    end.
Definition query {A} (f : StatsTables → A) : M (A + DbError) := statement (λ t, (inl (f t), t)).
Definition execute (f : StatsTables → StatsTables) : M (unit + DbError) := statement (λ t, (inl tt, f t)).
Definition remove (f : StatsTables → Z * StatsTables) : M (Z + DbError) := statement (λ t, let '(n, t') := f t in (inl n, t')).

(** Not a transaction: each row is written on its own, up to the first error. *)
Fixpoint upsert_stats_hourly (rows : list StatsHourlyRow) : M (unit + DbError) :=
  match rows with
  | [] => ret (inl tt)
  | r :: rest =>
      let* result := execute (upsert_hourly_row r) in
      match result with inl _ => upsert_stats_hourly rest | inr e => ret (inr e) end
  end.

(** ** Writing *)
Definition flush_logs : M unit :=
  let* batch := worker wk_log_buffer in
  if is_empty batch then ret tt
  else update (set_wk_log_buffer []) ;; statement (insert_request_logs batch) ;; ret tt.

Definition flush_stats_events : M unit :=
  let* batch := worker wk_stats_event_buffer in
  if is_empty batch then ret tt
  else update (set_wk_stats_event_buffer []) ;; statement (insert_stats_events batch) ;; ret tt.

Definition daily_rows (now_ms : Z) (k : TelemetryWorker) : list StatsDailyRow :=
  map (λ '(api_key_id, agg), MkDaily (wk_current_date k) api_key_id agg now_ms) (hash_entries (wk_stats_by_key k)).
Definition hourly_rows (updated_at_ms : Z) (k : TelemetryWorker) : list StatsHourlyRow :=
  map (λ '(key, agg), MkHourly key agg updated_at_ms) (hash_entries (wk_hourly_stats k)).

(** What is written is no longer held; after an error everything is written again. *)
Definition flush_hourly (now_ms : Z) : M unit :=
  let* hourly := worker wk_hourly_stats in
  if bool_decide (hourly = ∅) then ret tt
  else
    let* rows := worker (hourly_rows now_ms) in
    let* result := upsert_stats_hourly rows in
    match result with
    | inl _ => update (set_wk_hourly_stats ∅)
    | inr _ => update (set_wk_dirty true)
    end.

Definition flush_stats : M unit :=
  let* now_ms := clock in
  let* rows := worker (daily_rows now_ms) in
  let* result := execute (upsert_stats_daily rows) in
  (match result with inl _ => ret tt | inr _ => update (set_wk_dirty true) end) ;;
  flush_hourly now_ms.

Definition flush : M unit :=
  let* dirty := worker wk_dirty in
  (if (dirty : bool) then update (set_wk_dirty false) ;; flush_stats else ret tt) ;;
  flush_logs ;; flush_stats_events.

(** ** An event *)
Definition add_daily (key : Z) (e : TelemetryEvent) (k : TelemetryWorker) : TelemetryWorker :=
  set_wk_stats_by_key
    (<[key := stats_add (event_ok e) (tm_usage e) (tm_usage_observed e) (event_wait e) (default no_stats (wk_stats_by_key k !! key))]>
       (wk_stats_by_key k)) k.
Definition add_hourly (e : TelemetryEvent) (k : TelemetryWorker) : TelemetryWorker :=
  set_wk_hourly_stats
    (<[hourly_key e := hourly_add (event_ok e) e (event_wait e) (default no_hourly (wk_hourly_stats k !! hourly_key e))]>
       (wk_hourly_stats k)) k.

Definition full {A} (buffer : list A) (k : TelemetryWorker) : bool := wk_log_batch_max k <=? len buffer.

Definition push_stats_event (e : TelemetryEvent) : M unit :=
  let* id := new_ulid in
  let* now_ms := clock in
  update (λ k, set_wk_stats_event_buffer (wk_stats_event_buffer k ++ [stats_event_from_event e (event_ok e) id now_ms]) k) ;;
  let* is_full := worker (λ k, full (wk_stats_event_buffer k) k) in
  (if (is_full : bool) then flush_stats_events else ret tt) ;;
  update (set_wk_dirty true).

Definition count_event (e : TelemetryEvent) : M unit :=
  update (add_daily (tm_api_key_id e) e) ;;
  update (add_daily 0 e) ;;
  update (add_hourly e) ;;
  push_stats_event e.

Definition event_id (e : TelemetryEvent) : M string := match tm_id e with Some id => ret id | None => new_ulid end.
Definition shortened (message : option string) : M (option string) :=
  match message with
  | None => ret None
  | Some s => match truncate_message s with Some s => ret (Some s) | None => leave Panicked end
  end.
Definition push_log (row : RequestLogRow) : M unit :=
  update (λ k, set_wk_log_buffer (wk_log_buffer k ++ [row]) k) ;;
  let* is_full := worker (λ k, full (wk_log_buffer k) k) in
  if (is_full : bool) then flush_logs else ret tt.

Definition log_event (e : TelemetryEvent) : M unit :=
  let* id := event_id e in
  let* message := shortened (tm_error_message e) in
  let* now_ms := clock in
  push_log (log_row e id message now_ms).

Definition on_event (e : TelemetryEvent) : M unit :=
  (if counts_for_stats e then count_event e else ret tt) ;;
  if tm_log_enabled e then log_event e else ret tt.

(** ** A new day *)
Definition load_daily (rows : list StatsDailyRow) (m : gmap Z StatsAgg) : gmap Z StatsAgg :=
  foldl (λ m r, <[dy_api_key_id r := dy_agg r]> m) m rows.

Definition maybe_rotate_day : M unit :=
  let* now_date := today_yyyymmdd_utc in
  let* current := worker wk_current_date in
  if String.eqb now_date current then ret tt
  else
    flush ;;
    update (λ k, set_wk_dirty false (set_wk_stats_by_key ∅ (set_wk_current_date now_date k))) ;;
    let* rows := query (list_stats_daily_by_date now_date) in
    match rows with
    | inl rows => update (λ k, set_wk_stats_by_key (load_daily rows (wk_stats_by_key k)) k)
    | inr _ => ret tt
    end.

(** ** Archiving *)
Definition archive_path (dir date id : string) (now_ms : Z) (compress : bool) : string :=
  dir +:+ "/" +:+ date +:+ "/request_logs_" +:+ show_Z now_ms +:+ "_" +:+ id +:+ "." +:+ (if compress then "jsonl.gz" else "jsonl").
Definition relative_archive_path (date id : string) (now_ms : Z) (compress : bool) : string :=
  date +:+ "/request_logs_" +:+ show_Z now_ms +:+ "_" +:+ id +:+ "." +:+ (if compress then "jsonl.gz" else "jsonl").

(** The lines of a batch, or the error of the first row that cannot be printed. *)
Fixpoint archive_lines (rows : list RequestLogRow) : list string + string :=
  match rows with
  | [] => inl []
  | r :: rest => let? line := row_to_string r in let? lines := archive_lines rest in inl (line :: lines)
  end.
Definition uncompressed_bytes (lines : list string) : Z := sum_Z (map (λ l, Z.of_nat (String.length l) + 1) lines).

Definition index_entry (rows : list RequestLogRow) (lines : list string) (relative_path : string) (created_at_ms size : Z) (compress : bool)
    : ArchiveIndexEntry :=
  MkIndexEntry created_at_ms relative_path (len rows) size (uncompressed_bytes lines)
    (min_opt (map lg_time_ms rows)) (max_opt (map lg_time_ms rows)) compress.

(** Whether it succeeded; a batch without rows writes nothing. *)
Definition archive_request_logs_jsonl (dir : string) (rows : list RequestLogRow) (compress : bool) : M bool :=
  if is_empty rows then ret true
  else
    let* date := today_yyyymmdd_utc in
    let* now_ms := clock in
    let* id := new_ulid in
    let* written := draw (tw_io w) in
    match written, archive_lines rows with
    | None, inl lines =>
        modify (λ s, set_ts_archive (MkArchive (ar_files (ts_archive s) ++ [MkArchiveFile (archive_path dir date id now_ms compress) lines compress])
                                       (ar_index (ts_archive s))) s) ;;
        let* stat := draw (tw_io w) in
        if is_some stat then ret false
        else
          let* size := draw (tw_file_size w) in
          let* created := clock in
          let* indexed := draw (tw_io w) in
          if is_some indexed then ret false
          else
            modify (λ s, set_ts_archive (MkArchive (ar_files (ts_archive s)) (ar_index (ts_archive s)
                       ++ [index_entry rows lines (relative_archive_path date id now_ms compress) created size compress])) s) ;;
            ret true
    | _, _ => ret false
    end.

(** ** Retention *)

(** [for _ in 0..n]: deletes batch after batch, until one is not full or fails. *)
Fixpoint delete_batches (n : nat) (batch : Z) (delete : M (Z + DbError)) : M unit :=
  match n with
  | O => ret tt
  | S n =>
      let* removed := delete in
      match removed with
      | inl removed => if removed <? batch then ret tt else delete_batches n batch delete
      | inr _ => ret tt
      end
  end.

Fixpoint archive_batches (n : nat) (r : RetentionPolicy) (cutoff batch : Z) : M unit :=
  match n with
  | O => ret tt
  | S n =>
      let* rows := query (list_request_logs_before cutoff batch) in
      match rows with
      | inl ((_ :: _) as rows) =>
          let* archived := (if rp_request_log_archive_enabled r
                            then archive_request_logs_jsonl (rp_request_log_archive_dir r) rows (rp_request_log_archive_compress r)
                            else ret true) in
          if (archived : bool) then
            let* removed := remove (delete_request_logs_before cutoff batch) in
            match removed with
            | inl removed => if removed <? batch then ret tt else archive_batches n r cutoff batch
            | inr _ => ret tt
            end
          else ret tt
      | _ => ret tt
      end
  end.

Definition log_cutoff (r : RetentionPolicy) (now_ms : Z) : Z :=
  i64_sat_sub now_ms (i64_sat_mul (rp_request_log_retention_days r) MILLIS_PER_DAY).

Definition run_retention (r : RetentionPolicy) (now_ms : Z) : M unit :=
  let batch := rp_delete_batch r in
  (if 0 <? rp_request_log_retention_days r then
     delete_batches RETENTION_MAX_BATCHES_PER_RUN batch (remove (delete_stats_events_before (log_cutoff r now_ms) batch)) ;;
     archive_batches RETENTION_MAX_BATCHES_PER_RUN r (log_cutoff r now_ms) batch
   else ret tt) ;;
  if 0 <? rp_stats_daily_retention_days r then
    let* cutoff := yyyymmdd_utc_days_ago (u32_sat_sub (rp_stats_daily_retention_days r) 1) in
    delete_batches RETENTION_MAX_BATCHES_PER_RUN batch (remove (delete_stats_daily_before cutoff batch))
  else ret tt.

Definition maybe_run_retention : M unit :=
  let* r := worker wk_retention in
  if negb (retention_enabled r) then ret tt
  else
    let* now_ms := clock in
    let* next := worker wk_next_retention_run_ms in
    if now_ms <? next then ret tt
    else update (set_wk_next_run (i64_wrap (now_ms + Z.min (rp_cleanup_interval_ms r) i64_max))) ;; run_retention r now_ms.

(** ** The worker's life *)

(** [TelemetryWorker::new]: the counters of the day, and when retention runs first. *)
Definition new_worker (log_batch_max : Z) (r : RetentionPolicy) (date : string) (rows : list StatsDailyRow) (now_ms : Z) : TelemetryWorker :=
  MkWorker (Z.max log_batch_max 1) r
    (if retention_enabled r then i64_wrap (now_ms + Z.min (rp_cleanup_interval_ms r) i64_max) else i64_max)
    date (load_daily rows ∅) ∅ false [] [].

(** What the worker is woken by. *)
Inductive Signal := FlushRequested | EventReceived (e : TelemetryEvent) | Ticked.

Definition on_tick : M unit := maybe_rotate_day ;; flush ;; maybe_run_retention.
Definition serve (signal : Signal) : M unit :=
  match signal with
  | FlushRequested => flush
  | EventReceived e => on_event e
  | Ticked => on_tick
  end.
Fixpoint serve_all (signals : list Signal) : M unit :=
  match signals with [] => ret tt | signal :: rest => serve signal ;; serve_all rest end.
(** [run]: until the senders of events are gone. *)
Definition run (signals : list Signal) : M unit := serve_all signals ;; on_tick.
End Worker.

(** ** The mailbox

    [tokio::select!] is [biased]: a flush that was asked for is served before the events that
    wait, and the ticker after both. *)
Record Mailbox := MkMailbox { mb_flushes : nat; mb_events : list TelemetryEvent; mb_ticked : bool }.

Definition select (m : Mailbox) : option (Signal * Mailbox) :=
  match mb_flushes m, mb_events m, mb_ticked m with
  | S n, events, t => Some (FlushRequested, MkMailbox n events t)
  | O, e :: events, t => Some (EventReceived e, MkMailbox 0 events t)
  | O, [], true => Some (Ticked, MkMailbox 0 [] false)
  | O, [], false => None
  end.

(** ** An example *)
Definition example_telemetry_lib : TelemetryLib := {| yyyymmdd z := show_Z (z / MILLIS_PER_DAY); row_to_string r := inl (lg_id r) |}.
Definition quiet_world (now_ms : Z) (others : nat → StatsTables → StatsTables) : TelemetryWorld :=
  MkTelemetryWorld (λ _, now_ms) (λ n, show_Z (Z.of_nat n)) others (λ _, None) (λ _, None) (λ _, 0).
Definition example_event (time_ms : Z) : TelemetryEvent :=
  MkEvent None 7 true (Some 1) (Some 2) (Some 3) "responses" (Some "responses") (Some "gpt-5") (Some 200) None None None (Some 10) None
    (Some 700) (MkUsage 100 20 0 0 5) true None None time_ms "request" "http" None None None None None None None None None.
Definition example_log (id : string) (time_ms : Z) : RequestLogRow := log_row (example_event time_ms) id None time_ms.
Definition no_tables : StatsTables := MkStatsTables ∅ ∅ ∅ ∅.
