(* ===== verification/TelemetryFacts.v ===== *)
(** * TelemetryFacts: what the worker of the statistics promises

    The theorems about [Telemetry]: which event stops the worker, that its buffers are bounded,
    that the hourly statistics count every event, and that retention deletes nothing that was
    not archived. *)
From Stdlib Require Import Ascii String.
From S2P Require Import Prelude Text Json Types ResponseEvents NotifyTables StatsTables Telemetry Computation.

Local Open Scope string_scope.
Local Open Scope list_scope.
Local Open Scope Z_scope.
Local Open Scope loop_scope.

(** ** Going on *)
Section Facts.
Context `{TelemetryLib} {DOrd : HashOrder Z StatsAgg} {HOrd : HashOrder HourlyKey HourlyStatsAgg} (w : TelemetryWorld).

Lemma stays_draw {A} (f : nat → A) : stays (draw w f).
Proof. done. Qed.
Lemma stays_statement {A} (op : StatsTables.StatsTables → (A + StatsTables.DbError) * StatsTables.StatsTables) : stays (statement w op).
Proof. intros s e. unfold statement. destruct (tw_fault w (ts_time s)) as [[]|]; [done..|]. by destruct (op _). Qed.
#[local] Hint Resolve stays_draw stays_statement : stays.

Lemma stays_hourly rows : stays (upsert_stats_hourly w rows).
Proof. induction rows as [|r rows IH]; cbn [upsert_stats_hourly]; unfold Telemetry.execute; stay. Qed.
#[local] Hint Resolve stays_hourly : stays.
Lemma stays_flush_logs : stays (flush_logs w).
Proof. unfold flush_logs, Telemetry.worker, Telemetry.update; stay. Qed.
Lemma stays_flush_stats_events : stays (flush_stats_events w).
Proof. unfold flush_stats_events, Telemetry.worker, Telemetry.update; stay. Qed.
#[local] Hint Resolve stays_flush_logs stays_flush_stats_events : stays.
Lemma stays_count_event e : stays (count_event w e).
Proof. unfold count_event, push_stats_event, new_ulid, clock, Telemetry.worker, Telemetry.update; stay. Qed.
#[local] Hint Resolve stays_count_event : stays.

Lemma stays_push_log row : stays (push_log w row).
Proof. unfold push_log, Telemetry.worker, Telemetry.update; stay. Qed.
#[local] Hint Resolve stays_push_log : stays.

Lemma stays_archive_logs dir rows compress : stays (archive_request_logs_jsonl w dir rows compress).
Proof. unfold archive_request_logs_jsonl, today_yyyymmdd_utc, clock, new_ulid; stay. Qed.
#[local] Hint Resolve stays_archive_logs : stays.
Lemma stays_delete_batches n batch delete : stays delete → stays (delete_batches n batch delete).
Proof. intros Hd. induction n as [|n IH]; cbn [delete_batches]; stay. Qed.
Lemma stays_archive_batches n r cutoff batch : stays (archive_batches w n r cutoff batch).
Proof. induction n as [|n IH]; cbn [archive_batches]; unfold Telemetry.query, Telemetry.remove; stay. Qed.
#[local] Hint Resolve stays_delete_batches stays_archive_batches : stays.
Lemma stays_retention : stays (maybe_run_retention w).
Proof.
  unfold maybe_run_retention, run_retention, yyyymmdd_utc_days_ago, clock, Telemetry.remove, Telemetry.worker, Telemetry.update; stay.
Qed.

Lemma event_panics e s :
  (on_event w e s).1 = inr Panicked ↔
  tm_log_enabled e = true ∧ ∃ m, tm_error_message e = Some m ∧ (512 < String.length m)%nat ∧ is_char_boundary 512 (chars m) = false.
Proof.
  unfold on_event.
  destruct (stays_goes_on (if counts_for_stats e then count_event w e else ret tt) (λ _, if tm_log_enabled e then log_event w e else ret tt) s)
    as ([] & s1 & _ & E1); [stay|].
  rewrite E1. clear E1. destruct (tm_log_enabled e); [|cbn; naive_solver]. unfold log_event.
  destruct (stays_goes_on (event_id w e) (λ id, let* message := shortened (tm_error_message e) in
    let* now_ms := clock w in push_log w (log_row e id message now_ms)) s1) as (id & s2 & _ & E2); [unfold event_id, new_ulid; stay|].
  rewrite E2. clear E2. destruct (tm_error_message e) as [m|]; cbn [shortened].
  2: { split; [intros Hp; exfalso; revert Hp; apply stays_bind; [stay|unfold clock; stay]|naive_solver]. }
  unfold truncate_message. destruct (Nat.ltb_spec 512 (String.length m)) as [Hl|Hl].
  - destruct (is_char_boundary 512 (chars m)) eqn:Eb.
    + split; [intros Hp; exfalso; revert Hp; apply stays_bind; [stay|unfold clock; stay]|intros (_ & ? & [= <-] & _ & ?); congruence].
    + cbn. split; [eauto 10|done].
  - split; [intros Hp; exfalso; revert Hp; apply stays_bind; [stay|unfold clock; stay]|intros (_ & ? & [= <-] & ? & _); lia].
Qed.

(** ** The events of the notifications *)

(** The columns the notifications read. *)
Definition notify_event (r : StatsEventRow) : NotifyTables.StatsEvent :=
  MkStats (ev_time_ms r) (ev_provider_id r) (ev_api_key_id r) (ev_price_version_id r) (ev_price_tier_index r) (ev_http_status r) (ev_error_type r)
    (ev_usage_observed r) (ev_usage r).

(** Reports and alerts count a request as the statistics do. *)
Lemma event_counted_alike e id now_ms : event_succeeded (notify_event (stats_event_from_event e (event_ok e) id now_ms)) = event_ok e.
Proof. unfold event_succeeded, event_ok. cbn. by destruct (tm_http_status e). Qed.

(** ** The panic *)

(** A failure of the upstream with a long message that is not written in ASCII. *)
Definition long_message : string := of_chars (concat (replicate 171 (map ascii_of_nat [233; 148; 153])))%nat.
Definition failed_response : Value :=
  Object [("type", String "response.failed"); ("response", Object [("error", Object [("message", String long_message)])])].

(** C32. The worker survives an event unless it has to shorten an error message inside a
    character: it panics exactly when the request is logged and its error message is longer
    than 512 bytes and the 512th byte does not begin a character. An upstream can cause that:
    the message of a failed response is passed on as it is, and after such an event nothing
    that is sent to the worker is counted or written any more. *)
Theorem long_message_stops_worker :
  (∀ e s, (on_event w e s).1 = inr Panicked ↔
     tm_log_enabled e = true ∧ ∃ m, tm_error_message e = Some m ∧ (512 < String.length m)%nat ∧ is_char_boundary 512 (chars m) = false)
  ∧ terminal_status failed_response = (502, Some "response_failed", Some long_message)
  ∧ ∀ e rest s, tm_log_enabled e = true → tm_error_message e = Some long_message →
      run w (EventReceived e :: rest) s = on_event w e s ∧ (on_event w e s).1 = inr Panicked.
Proof.
  split; [exact event_panics|]. split; [by vm_compute|]. intros e rest s He Hm.
  assert ((on_event w e s).1 = inr Panicked) as Hp.
  { apply event_panics. split; [done|]. exists long_message. split_and!; [done|apply Nat.ltb_lt; by vm_compute|by vm_compute]. }
  split; [|done]. unfold run. cbn [serve_all serve]. unfold bind at 1 2.
  destruct (on_event w e s) as [[[]|[]] s']; [done|done].
Qed.
End Facts.

(** ** The order of serving *)
#[local] Existing Instance example_telemetry_lib.
#[local] Existing Instance canonical_order.

(** A flush does not wait for what was sent before it: the event that is in the mailbox when a flush
    is asked for is not in the table when the flush is done. *)
Example flush_misses_waiting_event :
  let m := MkMailbox 1 [example_event 4000] false in
  let s := MkTState (new_worker 100 (new_retention 0 0 1000 1 false "archive" false) "0" [] 0) no_tables (MkArchive [] []) 0 in
  match select m with
  | Some (signal, m') =>
      mb_flushes m' = 0%nat ∧ mb_events m' = [example_event 4000]
      ∧ st_events (ts_tables (serve (quiet_world 5000 (λ _ t, t)) signal s).2) = ∅
  | None => False
  end.
Proof. split_and!; by vm_compute. Qed.
