(* ===== verification/HourlyFacts.v ===== *)
(** * HourlyFacts: the hourly statistics count every event

    What the worker has added to the table of the hourly statistics and what it still holds,
    taken together, grow by exactly what each event counts; a statement that fails may add
    something twice, since the rows of a flush are not written in one transaction. *)
From Stdlib Require Import Ascii String.
From S2P Require Import Prelude Text Json Types StatsTables Telemetry Computation.

Local Open Scope string_scope.
Local Open Scope list_scope.
Local Open Scope Z_scope.
Local Open Scope loop_scope.

(** ** Counters *)
Definition counters : list (HourlyStatsAgg → Z) :=
  [λ h, sa_request_success (ha_stats h); λ h, sa_request_failed (ha_stats h); λ h, sa_input_tokens (ha_stats h);
   λ h, sa_output_tokens (ha_stats h); λ h, sa_cache_read_input_tokens (ha_stats h);
   λ h, sa_cache_creation_input_tokens (ha_stats h); λ h, sa_reasoning_output_tokens (ha_stats h);
   λ h, sa_usage_observed_requests (ha_stats h); λ h, sa_wait_time_ms (ha_stats h);
   ha_latency_lt_500ms; ha_latency_lt_1000ms; ha_latency_lt_2000ms; ha_latency_lt_5000ms; ha_latency_lt_15000ms;
   ha_latency_gte_15000ms].

(** What an event adds. *)
Definition hourly_of (e : TelemetryEvent) : HourlyStatsAgg := hourly_add (event_ok e) e (event_wait e) no_hourly.

(** The amounts of an event are no larger than [B]. *)
Definition within (B : Z) (e : TelemetryEvent) : Prop :=
  Forall (λ z, 0 <= z <= B)
    [us_input_tokens (tm_usage e); us_output_tokens (tm_usage e); us_cache_read_input_tokens (tm_usage e);
     us_cache_creation_input_tokens (tm_usage e); us_reasoning_output_tokens (tm_usage e); event_wait e].

Definition held (n : Z) (h : HourlyStatsAgg) : Prop := Forall (λ f : HourlyStatsAgg → Z, 0 <= f h <= n) counters.

Lemma counter_none f : f ∈ counters → f no_hourly = 0.
Proof. unfold counters. rewrite !elem_of_cons elem_of_nil. intros Hf. by destruct_or! Hf; subst. Qed.
Lemma counter_plus f a b : f ∈ counters → f (hourly_plus a b) = f a + f b.
Proof. unfold counters. rewrite !elem_of_cons elem_of_nil. intros Hf. by destruct_or! Hf; subst. Qed.

Lemma incr_wrap (b : bool) n z : 0 <= z <= n → n + 1 <= i64_max → (if b then i64_wrap (z + 1) else z) = z + (if b then i64_wrap (0 + 1) else 0).
Proof. intros. destruct b; rewrite ?i64_wrap_id; mlia. Qed.
Lemma add_wrap n B z a : 0 <= z <= n → 0 <= a <= B → n + B <= i64_max → i64_wrap (z + a) = z + i64_wrap (0 + a).
Proof. intros. rewrite !i64_wrap_id; mlia. Qed.
Lemma incr_range (b : bool) B : 1 <= B → B <= i64_max → 0 <= (if b then i64_wrap (0 + 1) else 0) <= B.
Proof. intros. destruct b; rewrite ?i64_wrap_id; mlia. Qed.
Lemma add_range B a : 0 <= a <= B → B <= i64_max → 0 <= i64_wrap (0 + a) <= B.
Proof. intros. rewrite i64_wrap_id; mlia. Qed.

Ltac each_field H := unfold counters in H; rewrite !elem_of_cons elem_of_nil in H; destruct_or! H; subst.

Lemma hourly_of_range B e f : within B e → 1 <= B → B <= i64_max → f ∈ counters → 0 <= f (hourly_of e) <= B.
Proof.
  intros Hw H1 HB Hf. unfold within in Hw. rewrite !Forall_cons in Hw. destruct Hw as (? & ? & ? & ? & ? & ? & _).
  each_field Hf; cbn; try (by apply add_range); try (by apply incr_range); destruct (event_ok e); rewrite ?i64_wrap_id; mlia.
Qed.

Lemma hourly_add_plus n B e h f : held n h → within B e → 1 <= B → n + B <= i64_max → f ∈ counters →
  f (hourly_add (event_ok e) e (event_wait e) h) = f h + f (hourly_of e).
Proof.
  intros Hh Hw H1 Hn Hf. unfold held, counters in Hh. rewrite !Forall_cons in Hh.
  destruct Hh as (? & ? & ? & ? & ? & ? & ? & ? & ? & ? & ? & ? & ? & ? & ? & _).
  unfold within in Hw. rewrite !Forall_cons in Hw. destruct Hw as (? & ? & ? & ? & ? & ? & _).
  each_field Hf; cbn; try (eapply add_wrap; eassumption); try (apply (incr_wrap _ n); [done|lia]);
    destruct (event_ok e); rewrite ?i64_wrap_id; mlia.
Qed.

Lemma held_add n B e h : held n h → within B e → 1 <= B → n + B <= i64_max → held (n + B) (hourly_add (event_ok e) e (event_wait e) h).
Proof.
  intros Hh Hw H1 Hn. unfold held. rewrite Forall_forall. intros f Hf.
  assert (0 <= n) as H0. { unfold held, counters in Hh. rewrite !Forall_cons in Hh. lia. }
  rewrite (hourly_add_plus n B e h f Hh Hw H1 Hn Hf). pose proof (hourly_of_range B e f Hw H1 ltac:(lia) Hf).
  unfold held in Hh. rewrite Forall_forall in Hh. specialize (Hh f Hf). lia.
Qed.
Lemma held_none n : 0 <= n → held n no_hourly.
Proof. intros. unfold held. rewrite Forall_forall. intros f Hf. rewrite (counter_none f Hf). lia. Qed.
Lemma held_le n n' h : n <= n' → held n h → held n' h.
Proof. intros ? Hh. unfold held in *. eapply Forall_impl; [exact Hh|]. cbn. intros; lia. Qed.

(** ** The table and what is held *)
Definition hourly_at (k : HourlyKey) (t : StatsTables) : HourlyStatsAgg := from_option hr_agg no_hourly (st_hourly t !! k).
Definition pending (k : HourlyKey) (s : TelemetryState) : HourlyStatsAgg := default no_hourly (wk_hourly_stats (ts_worker s) !! k).

Definition has_key {R} (key : R → HourlyKey) (k : HourlyKey) (r : R) : bool := bool_decide (key r = k).
Definition sum_for {R} (key : R → HourlyKey) (value : R → Z) (k : HourlyKey) (l : list R) : Z :=
  sum_Z (map value (List.filter (has_key key k) l)).

Lemma sum_for_cons {R} key (value : R → Z) k r l :
  sum_for key value k (r :: l) = (if has_key key k r then value r else 0) + sum_for key value k l.
Proof. unfold sum_for. cbn [List.filter]. by destruct (has_key key k r). Qed.

Lemma sum_for_perm {R} key (value : R → Z) k l l' : l ≡ₚ l' → sum_for key value k l = sum_for key value k l'.
Proof. induction 1; rewrite ?sum_for_cons; [done|lia|lia|congruence]. Qed.

Lemma sum_for_absent {R} key (value : R → Z) k l : (∀ r, r ∈ l → key r ≠ k) → sum_for key value k l = 0.
Proof.
  induction l as [|r l IH]; intros Hl; [done|]. rewrite sum_for_cons IH; [|set_solver].
  unfold has_key. rewrite bool_decide_eq_false_2; [done|]. apply Hl. set_solver.
Qed.

Lemma sum_for_nonneg {R} key (value : R → Z) k l : (∀ r, r ∈ l → 0 <= value r) → 0 <= sum_for key value k l.
Proof.
  induction l as [|r l IH]; intros Hl; [done|]. rewrite sum_for_cons.
  pose proof (Hl r (list_elem_of_here _ _)). assert (0 <= sum_for key value k l) by (apply IH; set_solver). destruct (has_key key k r); lia.
Qed.

(** The entries of a map hold what the map has at the key. *)
Lemma sum_for_map (f : HourlyStatsAgg → Z) (m : gmap HourlyKey HourlyStatsAgg) k :
  f no_hourly = 0 → sum_for fst (λ kv, f kv.2) k (map_to_list m) = f (default no_hourly (m !! k)).
Proof.
  intros Hf. destruct (m !! k) as [h|] eqn:E.
  - rewrite (sum_for_perm _ _ _ _ ((k, h) :: map_to_list (delete k m))); [|symmetry; by apply map_to_list_delete].
    rewrite sum_for_cons. unfold has_key at 1. cbn [fst]. rewrite bool_decide_eq_true_2; [|done]. rewrite sum_for_absent; [cbn; lia|].
    intros [k' h'] Hin%elem_of_map_to_list. cbn. intros ->. by rewrite lookup_delete_eq in Hin.
  - rewrite sum_for_absent; [by rewrite Hf|]. intros [k' h'] Hin%elem_of_map_to_list. cbn. intros ->. congruence.
Qed.

Lemma merge_hourly_at f k r t : f ∈ counters →
  f (hourly_at k (upsert_hourly_row r t)) = f (hourly_at k t) + (if has_key hr_key k r then f (hr_agg r) else 0).
Proof.
  intros Hf. unfold hourly_at, upsert_hourly_row, has_key. cbn [st_hourly set_st_hourly]. destruct (decide (hr_key r = k)) as [<-|Hne].
  - rewrite lookup_insert_eq bool_decide_eq_true_2; [|done]. destruct (st_hourly t !! hr_key r) as [o|]; cbn; rewrite ?counter_plus ?counter_none; (done || lia).
  - rewrite lookup_insert_ne; [|done]. rewrite bool_decide_eq_false_2; [lia|done].
Qed.

(** ** Steps *)
Section Hourly.
Context `{TelemetryLib} {DOrd : HashOrder Z StatsAgg} {HOrd : HashOrder HourlyKey HourlyStatsAgg} `{!HashOrderOk HourlyKey HourlyStatsAgg}.
Context (w : TelemetryWorld) (B : Z) (gift : nat → HourlyKey → HourlyStatsAgg).
(** Other instances add to the table; what they add is [gift]. *)
Hypothesis others_add : ∀ n t k, hourly_at k (tw_others w n t) = hourly_plus (hourly_at k t) (gift n k).
Hypothesis B_positive : 1 <= B.

Definition faultless : Prop := ∀ n, tw_fault w n = None.

(** What others have added up to a time. *)
Fixpoint given (f : HourlyStatsAgg → Z) (k : HourlyKey) (n : nat) : Z :=
  match n with O => 0 | S n => given f k n + f (gift n k) end.
(** What is in the table without it, and with what the worker holds. *)
Definition stored (f : HourlyStatsAgg → Z) (k : HourlyKey) (s : TelemetryState) : Z := f (hourly_at k (ts_tables s)) - given f k (ts_time s).
Definition total (f : HourlyStatsAgg → Z) (k : HourlyKey) (s : TelemetryState) : Z := stored f k s + f (pending k s).

Definition holds (n : Z) (s : TelemetryState) : Prop := ∀ k, held n (pending k s).

Section Counter.
Context (f : HourlyStatsAgg → Z) (k : HourlyKey) (Hf : f ∈ counters).

Lemma stored_others s : stored f k (others w s) = stored f k s.
Proof. unfold stored, others. cbn [ts_tables ts_time tick set_ts_tables given]. rewrite others_add (counter_plus f _ _ Hf). lia. Qed.

(** A step that neither writes the table nor changes what is held, whether or not it fails. *)
Definition aside (s s' : TelemetryState) : Prop :=
  stored f k s' = stored f k s ∧ wk_hourly_stats (ts_worker s') = wk_hourly_stats (ts_worker s).
#[local] Instance aside_preorder : PreOrder aside.
Proof. split; [by intros s|]. intros s1 s2 s3 [H1 H2] [H3 H4]. split; congruence. Qed.

Lemma aside_draw {A} (g : nat → A) : moves aside (draw w g).
Proof. intros s. split; [apply stored_others|done]. Qed.
Lemma aside_update g : (∀ wk, wk_hourly_stats (g wk) = wk_hourly_stats wk) → moves aside (update g).
Proof. intros Hg. apply moves_modify. intros s. split; [done|apply Hg]. Qed.
Lemma aside_worker {A} (g : TelemetryWorker → A) : moves aside (worker g).
Proof. intros s. split; done. Qed.
Lemma aside_archive g : moves aside (modify (λ s, set_ts_archive (g s) s) : M unit).
Proof. apply moves_modify. intros s. by split. Qed.
Lemma aside_statement {A} (op : StatsTables.StatsTables → (A + StatsTables.DbError) * StatsTables.StatsTables) :
  (∀ t, st_hourly (op t).2 = st_hourly t) → moves aside (statement w op).
Proof.
  intros Hop s. unfold statement. pose proof (stored_others s) as Ho. set (s1 := others w s) in *.
  assert (∀ t, st_hourly t = st_hourly (ts_tables s1) → aside s (set_ts_tables t s1)) as Hset.
  { intros t Ht. split; [|done]. rewrite -Ho. unfold stored, hourly_at. cbn [ts_tables ts_time set_ts_tables]. by rewrite Ht. }
  destruct (tw_fault w (ts_time s)) as [[]|]; cbn [snd]; [by split|apply Hset, Hop|]. specialize (Hop (ts_tables s1)).
  destruct (op (ts_tables s1)) as [r t]. apply Hset, Hop.
Qed.

(** A step after which nothing is lost, and without a fault nothing is counted twice. *)
Definition grows (s s' : TelemetryState) : Prop :=
  ∀ n, holds n s → holds n s' ∧ total f k s <= total f k s' ∧ (faultless → total f k s = total f k s').
#[local] Instance grows_preorder : PreOrder grows.
Proof.
  split; [intros s n Hn; split; [done|]; split; [lia|done]|]. intros s1 s2 s3 H12 H23 n Hn.
  destruct (H12 n Hn) as (Hn2 & L12 & E12). destruct (H23 n Hn2) as (Hn3 & L23 & E23).
  split; [done|]. split; [lia|]. intros Hff. specialize (E12 Hff). specialize (E23 Hff). lia.
Qed.

Lemma aside_grows {A} (m : M A) : moves aside m → moves grows m.
Proof.
  intros Hm s n Hn. destruct (Hm s) as [Hs Hp]. set (s' := (m s).2) in *.
  assert (∀ k', pending k' s' = pending k' s) as Hk by (intros k'; unfold pending; by rewrite Hp).
  split; [intros k'; rewrite Hk; apply Hn|]. unfold total. rewrite Hs Hk. split; [lia|done].
Qed.

Lemma execute_row r s : 0 <= f (hr_agg r) →
  match execute w (upsert_hourly_row r) s with
  | (inl (inl _), s') => ts_worker s' = ts_worker s ∧ stored f k s' = stored f k s + (if has_key hr_key k r then f (hr_agg r) else 0)
  | (inl (inr _), s') => ts_worker s' = ts_worker s ∧ stored f k s <= stored f k s' ∧ ¬ faultless
  | (inr _, _) => False
  end.
Proof.
  intros Hr. unfold execute, statement. pose proof (stored_others s) as Ho. set (s1 := others w s) in *.
  assert (stored f k (set_ts_tables (upsert_hourly_row r (ts_tables s1)) s1) = stored f k s + (if has_key hr_key k r then f (hr_agg r) else 0)) as Hw.
  { rewrite -Ho. unfold stored. cbn [ts_tables ts_time set_ts_tables]. rewrite (merge_hourly_at f k r _ Hf). lia. }
  destruct (tw_fault w (ts_time s)) as [[]|] eqn:Ef; cbn [snd].
  - split_and!; [done|lia|]. intros Hff. by rewrite Hff in Ef.
  - split_and!; [done|rewrite Hw; destruct (has_key hr_key k r); lia|]. intros Hff. by rewrite Hff in Ef.
  - by split.
Qed.

Lemma hourly_loop rows s : (∀ r, r ∈ rows → 0 <= f (hr_agg r)) →
  match upsert_stats_hourly w rows s with
  | (inl (inl _), s') => ts_worker s' = ts_worker s ∧ stored f k s' = stored f k s + sum_for hr_key (λ r, f (hr_agg r)) k rows
  | (inl (inr _), s') => ts_worker s' = ts_worker s ∧ stored f k s <= stored f k s' ∧ ¬ faultless
  | (inr _, _) => False
  end.
Proof.
  revert s. induction rows as [|r rows IH]; intros s Hr; cbn [upsert_stats_hourly]; [cbn; split; [done|]; unfold sum_for; cbn; lia|].
  pose proof (execute_row r s (Hr r (list_elem_of_here _ _))) as Hx. unfold bind.
  destruct (execute w (upsert_hourly_row r) s) as [[[[]|e]|x] s1]; [|by cbn|done]. destruct Hx as [Hw1 Hs1].
  specialize (IH s1 ltac:(set_solver)). destruct (upsert_stats_hourly w rows s1) as [[[[]|e]|x] s2]; [|destruct IH as (-> & ? & ?)|done].
  - destruct IH as [-> Hs2]. split; [done|]. rewrite sum_for_cons. lia.
  - split_and!; [done| |done]. assert (0 <= f (hr_agg r)) by (apply Hr, list_elem_of_here). destruct (has_key hr_key k r); lia.
Qed.

Lemma sum_hourly_rows now_ms wk : sum_for hr_key (λ r, f (hr_agg r)) k (hourly_rows now_ms wk) = f (default no_hourly (wk_hourly_stats wk !! k)).
Proof.
  rewrite -(sum_for_map f _ k (counter_none f Hf)) -(sum_for_perm _ _ _ _ _ (hash_entries_perm (wk_hourly_stats wk))).
  unfold hourly_rows. induction (hash_entries (wk_hourly_stats wk)) as [|[key agg] l IH]; [done|]. cbn [map]. by rewrite !sum_for_cons IH.
Qed.

(** Writing the hourly statistics moves them from the worker to the table. *)
Lemma grows_flush_hourly now_ms : moves grows (flush_hourly w now_ms).
Proof.
  intros s. unfold flush_hourly, worker, gets. unfold bind at 1. destruct (bool_decide _); [reflexivity|]. unfold bind at 1. intros n Hn.
  assert (∀ r, r ∈ hourly_rows now_ms (ts_worker s) → 0 <= f (hr_agg r)) as Hr.
  { unfold hourly_rows. intros r ([key agg] & -> & Hin)%list_elem_of_fmap. cbn [hr_agg]. rewrite elem_of_hash_entries in Hin.
    specialize (Hn key). unfold pending, held in Hn. rewrite Hin Forall_forall in Hn. by apply Hn. }
  pose proof (hourly_loop _ s Hr) as Hl. unfold bind.
  destruct (upsert_stats_hourly w (hourly_rows now_ms (ts_worker s)) s) as [[[[]|e]|x] s1]; [| |done]; cbn [update modify snd].
  - destruct Hl as [Hw Hs]. rewrite sum_hourly_rows in Hs.
    assert (∀ k', pending k' (set_ts_worker (set_wk_hourly_stats ∅ (ts_worker s1)) s1) = no_hourly) as Hp.
    { intros k'. unfold pending. cbn. by rewrite lookup_empty. }
    assert (0 <= n) as H0. { specialize (Hn k). unfold held, counters in Hn. rewrite Forall_cons in Hn. lia. }
    split; [intros k'; rewrite Hp; by apply held_none|]. unfold total. rewrite Hp (counter_none f Hf).
    change (stored f k (set_ts_worker (set_wk_hourly_stats ∅ (ts_worker s1)) s1)) with (stored f k s1). rewrite Hs. unfold pending. split; [lia|intros _; lia].
  - destruct Hl as (Hw & Hs & Hff).
    assert (∀ k', pending k' (set_ts_worker (set_wk_dirty true (ts_worker s1)) s1) = pending k' s) as Hp.
    { intros k'. unfold pending. cbn. by rewrite Hw. }
    split; [intros k'; rewrite Hp; apply Hn|]. unfold total. rewrite Hp.
    change (stored f k (set_ts_worker (set_wk_dirty true (ts_worker s1)) s1)) with (stored f k s1). split; [lia|done].
Qed.

#[local] Hint Resolve aside_draw aside_update aside_worker aside_archive aside_statement grows_flush_hourly : moves.

Lemma aside_execute op : (∀ t, st_hourly (op t) = st_hourly t) → moves aside (execute w op).
Proof. intros Hop. by apply aside_statement. Qed.
Lemma aside_query {A} (op : StatsTables.StatsTables → A) : moves aside (query w op).
Proof. by apply aside_statement. Qed.
Lemma aside_remove op : (∀ t, st_hourly (op t).2 = st_hourly t) → moves aside (remove w op).
Proof. intros Hop. apply aside_statement. intros t. specialize (Hop t). by destruct (op t). Qed.
#[local] Hint Resolve aside_execute aside_query aside_remove : moves.

Lemma upsert_daily_keeps rows t : st_hourly (upsert_stats_daily rows t) = st_hourly t.
Proof. unfold upsert_stats_daily. revert t. induction rows as [|r rows IH]; intros t; [done|]. cbn [foldl]. by rewrite IH. Qed.
Lemma insert_logs_keeps rows t : st_hourly (insert_request_logs rows t).2 = st_hourly t.
Proof. unfold insert_request_logs. by destruct (insert_rows _ _ _). Qed.
Lemma insert_events_keeps rows t : st_hourly (insert_stats_events rows t).2 = st_hourly t.
Proof. unfold insert_stats_events. by destruct (insert_rows _ _ _). Qed.
#[local] Hint Resolve upsert_daily_keeps insert_logs_keeps insert_events_keeps : moves.

Lemma aside_flush_logs : moves aside (flush_logs w).
Proof. unfold flush_logs. carry. Qed.
Lemma aside_flush_stats_events : moves aside (flush_stats_events w).
Proof. unfold flush_stats_events. carry. Qed.
#[local] Hint Resolve aside_flush_logs aside_flush_stats_events : moves.

Lemma grows_flush : moves grows (flush w).
Proof.
  unfold flush, flush_stats. apply moves_bind; [apply _|apply aside_grows, aside_worker|intros dirty].
  apply moves_bind; [apply _| |intros _; apply aside_grows; carry]. destruct (dirty : bool); [|apply moves_pure, _].
  apply moves_bind; [apply _|apply aside_grows; carry|intros _]. unfold clock.
  do 3 (apply moves_bind; [apply _|apply aside_grows; carry|intros ?]). apply moves_bind; [apply _|apply aside_grows; carry|intros _; apply grows_flush_hourly].
Qed.

Lemma aside_archive_logs dir rows compress : moves aside (archive_request_logs_jsonl w dir rows compress).
Proof. unfold archive_request_logs_jsonl, today_yyyymmdd_utc, clock, new_ulid. carry. Qed.
#[local] Hint Resolve aside_archive_logs : moves.
Lemma aside_delete_batches n batch delete : moves aside delete → moves aside (delete_batches n batch delete).
Proof. intros Hd. induction n as [|n IH]; cbn [delete_batches]; carry. Qed.
Lemma aside_archive_batches n r cutoff batch : moves aside (archive_batches w n r cutoff batch).
Proof. induction n as [|n IH]; cbn [archive_batches]; carry. Qed.
#[local] Hint Resolve aside_delete_batches aside_archive_batches : moves.
Lemma aside_retention : moves aside (maybe_run_retention w).
Proof. unfold maybe_run_retention, run_retention, clock, yyyymmdd_utc_days_ago, clock. carry. Qed.

Lemma grows_rotate : moves grows (maybe_rotate_day w).
Proof.
  unfold maybe_rotate_day, today_yyyymmdd_utc, clock. apply moves_bind; [apply _|apply aside_grows; carry|intros now_date].
  apply moves_bind; [apply _|apply aside_grows; carry|intros current]. destruct (String.eqb _ _); [apply moves_pure, _|].
  apply moves_bind; [apply _|apply grows_flush|intros _]. apply aside_grows. carry.
Qed.
Lemma grows_tick : moves grows (on_tick w).
Proof.
  unfold on_tick. apply moves_bind; [apply _|apply grows_rotate|intros _].
  apply moves_bind; [apply _|apply grows_flush|intros _]. apply aside_grows, aside_retention.
Qed.

(** ** Events *)

(** What an event adds to the counter of a key. *)
Definition adds (e : TelemetryEvent) : Z := if counts_for_stats e && has_key hourly_key k e then f (hourly_of e) else 0.

(** After a step that counts [c]. *)
Definition counted (c n : Z) (s s' : TelemetryState) : Prop :=
  holds n s' ∧ total f k s + c <= total f k s' ∧ (faultless → total f k s + c = total f k s').

Lemma counted_grows c n s s1 s' : counted c n s s1 → grows s1 s' → counted c n s s'.
Proof.
  intros (Hn & Hl & He) Hg. destruct (Hg n Hn) as (Hn' & Hl' & He'). split; [done|]. split; [lia|].
  intros Hff. specialize (He Hff). specialize (He' Hff). lia.
Qed.

Lemma add_hourly_counted e n s : within B e → n + B <= i64_max → holds n s →
  counted (if has_key hourly_key k e then f (hourly_of e) else 0) (n + B) s (set_ts_worker (add_hourly e (ts_worker s)) s).
Proof.
  intros Hw Hn Hs.
  assert (∀ k', pending k' (set_ts_worker (add_hourly e (ts_worker s)) s) =
    if has_key hourly_key k' e then hourly_add (event_ok e) e (event_wait e) (pending k' s) else pending k' s) as Hp.
  { intros k'. unfold pending, add_hourly, has_key. cbn. destruct (decide (hourly_key e = k')) as [<-|Hne].
    - by rewrite lookup_insert_eq bool_decide_eq_true_2.
    - by rewrite lookup_insert_ne // bool_decide_eq_false_2. }
  split; [|change (total f k (set_ts_worker (add_hourly e (ts_worker s)) s))
             with (stored f k s + f (pending k (set_ts_worker (add_hourly e (ts_worker s)) s)))].
  - intros k'. rewrite Hp. destruct (has_key hourly_key k' e); [by apply held_add|]. apply (held_le n); [lia|apply Hs].
  - rewrite Hp. unfold total. destruct (has_key hourly_key k e); [rewrite (hourly_add_plus n B e _ f (Hs k) Hw B_positive Hn Hf)|]; split; lia.
Qed.

Lemma on_event_counted e n s : within B e → n + B <= i64_max → holds n s → counted (adds e) (n + B) s (on_event w e s).2.
Proof.
  intros Hw Hn Hs.
  assert (∀ s1, counted (adds e) (n + B) s s1 → ∀ m : M unit, moves aside m → counted (adds e) (n + B) s (m s1).2) as Hthen.
  { intros s1 H1 m Hm. eapply counted_grows; [exact H1|]. by apply aside_grows. }
  assert (moves aside (if tm_log_enabled e then log_event w e else ret tt)) as Hlog.
  { unfold log_event, event_id, shortened, push_log, clock, new_ulid. carry. }
  unfold on_event, adds in *. destruct (counts_for_stats e); cbn [andb] in *.
  - unfold count_event.
    set (s0 := set_ts_worker (add_daily 0 e (add_daily (tm_api_key_id e) e (ts_worker s))) s).
    assert (holds n s0) as Hs0 by exact Hs.
    pose proof (add_hourly_counted e n s0 Hw Hn Hs0) as Hc.
    set (c := if has_key hourly_key k e then f (hourly_of e) else 0) in *.
    set (s1 := set_ts_worker (add_hourly e (ts_worker s0)) s0) in *.
    assert (counted c (n + B) s s1) as Hc1 by exact Hc. clear Hc.
    assert (moves aside (bind (push_stats_event w e) (λ _, if tm_log_enabled e then log_event w e else ret tt))) as Hrest.
    { apply moves_bind; [apply _| |intros _; exact Hlog]. unfold push_stats_event, new_ulid, clock. carry. }
    exact (Hthen s1 Hc1 _ Hrest).
  - unfold bind, ret. apply Hthen; [|exact Hlog]. split; [intros k'; apply (held_le n); [lia|apply Hs]|]. split; lia.
Qed.

Fixpoint adds_all (signals : list Signal) : Z :=
  match signals with
  | [] => 0
  | EventReceived e :: rest => adds e + adds_all rest
  | _ :: rest => adds_all rest
  end.

Lemma serve_all_counted signals n s s' : (∀ e, EventReceived e ∈ signals → within B e) → n + len signals * B <= i64_max → holds n s →
  serve_all w signals s = (inl tt, s') →
  total f k s + adds_all signals <= total f k s' ∧ (faultless → total f k s + adds_all signals = total f k s').
Proof.
  revert n s. induction signals as [|signal rest IH]; intros n s Hw Hn Hs E.
  - injection E as <-. cbn. split; lia.
  - cbn [serve_all] in E. unfold bind in E. destruct (serve w signal s) as [[[]|x] s1] eqn:E1; [|done].
    assert (len (signal :: rest) = len rest + 1) as El by (unfold len; cbn [length]; lia). rewrite El in Hn.
    assert (0 <= len rest) by (unfold len; lia).
    assert (counted (match signal with EventReceived e => adds e | _ => 0 end) (n + B) s s1) as Hc.
    { assert (s1 = (serve w signal s).2) as -> by (by rewrite E1).
      assert (∀ m : M unit, moves grows m → counted 0 (n + B) s (m s).2) as Hg.
      { intros m Hm. eapply counted_grows; [|apply Hm]. split; [intros k'; apply (held_le n); [lia|apply Hs]|]. split; lia. }
      destruct signal as [|e|]; cbn [serve]; [apply Hg, grows_flush| |apply Hg, grows_tick].
      apply on_event_counted; [apply Hw; set_solver|nia|done]. }
    destruct Hc as (Hs1 & Hl & He). destruct (IH (n + B) s1 ltac:(set_solver) ltac:(lia) Hs1 E) as [Hl' He'].
    destruct signal as [|e|]; cbn [adds_all]; (split; [lia|intros Hff; specialize (He Hff); specialize (He' Hff); lia]).
Qed.
End Counter.

(** C6. The hourly statistics count every event: whatever signals the worker serves, and however
    its statements fail, what the table and the worker hold for an hour, key and model grows by
    at least what the events count there, next to what other instances add; while no statement
    fails it grows by exactly that. *)
Theorem hourly_counts_every_event f k signals s s' :
  f ∈ counters → wk_hourly_stats (ts_worker s) = ∅ →
  (∀ e, EventReceived e ∈ signals → within B e) → len signals * B <= i64_max →
  serve_all w signals s = (inl tt, s') →
  f (hourly_at k (ts_tables s)) - given f k (ts_time s) + adds_all f k signals
    <= f (hourly_at k (ts_tables s')) + f (pending k s') - given f k (ts_time s')
  ∧ (faultless → f (hourly_at k (ts_tables s)) - given f k (ts_time s) + adds_all f k signals
                  = f (hourly_at k (ts_tables s')) + f (pending k s') - given f k (ts_time s')).
Proof.
  intros Hf He Hw Hn E.
  assert (∀ k', pending k' s = no_hourly) as Hp by (intros k'; unfold pending; by rewrite He lookup_empty).
  assert (holds 0 s) as Hs by (intros k'; rewrite Hp; by apply held_none).
  destruct (serve_all_counted f k Hf signals 0 s s' Hw ltac:(lia) Hs E) as [Hl Heq].
  unfold total, stored in Hl, Heq. rewrite Hp (counter_none f Hf) in Hl, Heq. split; [lia|intros Hff; specialize (Heq Hff); lia].
Qed.
End Hourly.

(** ** A flush that fails in the middle *)
#[local] Existing Instance example_telemetry_lib.
#[local] Existing Instance canonical_order.
#[local] Existing Instance canonical_order_ok.

Definition hourly_start : TelemetryState :=
  MkTState (new_worker 100 (new_retention 0 0 1000 1 false "archive" false) "0" [] 0) no_tables (MkArchive [] []) 0.
(** The statement with this number fails. *)
Definition failing (n : nat) : TelemetryWorld :=
  MkTelemetryWorld (λ _, 5000) (λ n, show_Z (Z.of_nat n)) (λ _ t, t) (λ m, if (m =? n)%nat then Some (Lost "database is locked") else None) (λ _, None) (λ _, 0).
Definition hour (z : Z) : HourlyKey := hourly_key (example_event (z * MILLIS_PER_HOUR)).
Definition two_hours : list Signal :=
  [EventReceived (example_event 0); EventReceived (example_event MILLIS_PER_HOUR); FlushRequested; FlushRequested].

Definition calm_world : TelemetryWorld := quiet_world 5000 (λ _ t, t).
Definition tokens (h : HourlyStatsAgg) : Z := sa_input_tokens (ha_stats h).
Definition hourly_end : TelemetryState := (serve_all calm_world two_hours hourly_start).2.

Lemma hourly_counts_every_event_witness :
  tokens (hourly_at (hour 0) (ts_tables hourly_end)) = 100
  ∧ tokens (hourly_at (hour 0) (ts_tables hourly_start)) - given (λ _ _, no_hourly) tokens (hour 0) (ts_time hourly_start)
      + adds_all tokens (hour 0) two_hours
    <= tokens (hourly_at (hour 0) (ts_tables hourly_end)) + tokens (pending (hour 0) hourly_end)
       - given (λ _ _, no_hourly) tokens (hour 0) (ts_time hourly_end).
Proof.
  split; [by vm_compute|].
  assert (∀ n t k, hourly_at k (tw_others calm_world n t) = hourly_plus (hourly_at k t) no_hourly) as Ho.
  { intros n t k. unfold calm_world. cbn [quiet_world tw_others]. generalize (hourly_at k t). intros [[] ? ? ? ? ? ?]. unfold hourly_plus, stats_plus. cbn.
    by rewrite !Z.add_0_r. }
  assert (serve_all calm_world two_hours hourly_start = (inl tt, hourly_end)) as E.
  { assert ((serve_all calm_world two_hours hourly_start).1 = inl tt) as E by (by vm_compute). unfold hourly_end.
    destruct (serve_all calm_world two_hours hourly_start) as [x s']. cbn in *. by subst x. }
  assert (∀ e, EventReceived e ∈ two_hours → within 1000 e) as Hw.
  { assert (∀ t, within 1000 (example_event t)) as Hx by (intros t; unfold within, event_wait; cbn; repeat constructor; done).
    unfold two_hours. intros e He. rewrite !elem_of_cons elem_of_nil in He. destruct_or! He; try discriminate He; injection He as ->; apply Hx. }
  assert (tokens ∈ counters) as Hc by (unfold counters; do 2 right; left).
  destruct (hourly_counts_every_event calm_world 1000 (λ _ _, no_hourly) Ho ltac:(lia) tokens (hour 0) two_hours hourly_start hourly_end Hc
    eq_refl Hw ltac:(by vm_compute) E) as [Hl _].
  exact Hl.
Defined.

(** The rows of a flush are written one by one: when the second fails, the first was written, and
    the next flush adds it again. *)
Example failed_flush_counts_twice :
  ∃ n k, let s' := (serve_all (failing n) two_hours hourly_start).2 in
    adds_all (λ h, sa_request_success (ha_stats h)) k two_hours = 1
    ∧ sa_request_success (ha_stats (hourly_at k (ts_tables s'))) = 2 ∧ pending k s' = no_hourly.
Proof. exists 11%nat, (hour 0). split_and!; by vm_compute. Qed.
