(* ===== verification/DailyFacts.v ===== *)
(** * DailyFacts: the daily statistics refine a book of counters

    The worker counts the current day in memory and writes it from time to time; what is
    counted, wherever it is, is a book with one entry for each day and key. While no statement
    fails and nobody else writes the table, an event changes the entries of its key and of all
    keys for the day, and nothing else changes any entry but retention, which forgets the days
    that are no longer kept. *)
From Stdlib Require Import Ascii String.
From S2P Require Import Prelude Text Json Types StatsTables Computation Telemetry TelemetryFacts.

Local Open Scope string_scope.
Local Open Scope list_scope.
Local Open Scope Z_scope.
Local Open Scope loop_scope.

(** ** The book *)

(** An event of a request, on a day. *)
Definition counts_on (date : string) (e : TelemetryEvent) (book : string → Z → StatsAgg) (d : string) (k : Z) : StatsAgg :=
  let add key b d k := if bool_decide (d = date ∧ k = key) then stats_add (event_ok e) (tm_usage e) (tm_usage_observed e) (event_wait e) (b d k)
                       else b d k in
  if counts_for_stats e then add 0 (add (tm_api_key_id e) book) d k else book d k.

Definition stored_daily (d : string) (k : Z) (t : StatsTables) : StatsAgg := from_option dy_agg no_stats (st_daily t !! (d, k)).
(** The entry is in memory for the current day and in the table for every other. *)
Definition book (s : TelemetryState) (d : string) (k : Z) : StatsAgg :=
  if String.eqb d (wk_current_date (ts_worker s)) then default no_stats (wk_stats_by_key (ts_worker s) !! k) else stored_daily d k (ts_tables s).

Record daily_ok (s : TelemetryState) : Prop := {
  do_keyed : ∀ d k r, st_daily (ts_tables s) !! (d, k) = Some r → dy_date r = d ∧ dy_api_key_id r = k;
  do_loaded : ∀ k, is_Some (st_daily (ts_tables s) !! (wk_current_date (ts_worker s), k)) → is_Some (wk_stats_by_key (ts_worker s) !! k);
  do_clean : wk_dirty (ts_worker s) = false → ∀ k,
    stored_daily (wk_current_date (ts_worker s)) k (ts_tables s) = default no_stats (wk_stats_by_key (ts_worker s) !! k)
}.

(** ** Writing and reading the rows *)
Lemma upsert_daily_lookup rows t d k :
  (∃ r, r ∈ rows ∧ (dy_date r, dy_api_key_id r) = (d, k) ∧ st_daily (upsert_stats_daily rows t) !! (d, k) = Some r)
  ∨ (∀ r, r ∈ rows → (dy_date r, dy_api_key_id r) ≠ (d, k)) ∧ st_daily (upsert_stats_daily rows t) !! (d, k) = st_daily t !! (d, k).
Proof.
  unfold upsert_stats_daily. revert t. induction rows as [|x rows IH]; intros t; [right; split; [set_solver|done]|]. cbn [foldl].
  destruct (IH (upsert_daily_row x t)) as [(r & Hin & Hk & Hl)|[Hno Hl]]; [left; exists r; split_and!; [set_solver|done|done]|].
  rewrite Hl. unfold upsert_daily_row. cbn [st_daily set_st_daily]. destruct (decide ((dy_date x, dy_api_key_id x) = (d, k))) as [E|E].
  - left. exists x. rewrite E lookup_insert_eq. split_and!; [left|done|done].
  - right. rewrite lookup_insert_ne; [|done]. split; [set_solver|done].
Qed.

(** What is written does not depend on the other tables. *)
Lemma upsert_daily_same rows t t' : st_daily t = st_daily t' → st_daily (upsert_stats_daily rows t) = st_daily (upsert_stats_daily rows t').
Proof.
  unfold upsert_stats_daily. revert t t'. induction rows as [|r rows IH]; intros t t' E; [done|]. cbn [foldl]. apply IH.
  unfold upsert_daily_row. cbn [st_daily set_st_daily]. by rewrite E.
Qed.

Lemma load_daily_lookup rows m k :
  (∃ r, r ∈ rows ∧ dy_api_key_id r = k ∧ load_daily rows m !! k = Some (dy_agg r))
  ∨ (∀ r, r ∈ rows → dy_api_key_id r ≠ k) ∧ load_daily rows m !! k = m !! k.
Proof.
  unfold load_daily. revert m. induction rows as [|x rows IH]; intros m; [right; split; [set_solver|done]|]. cbn [foldl].
  destruct (IH (<[dy_api_key_id x := dy_agg x]> m)) as [(r & Hin & Hk & Hl)|[Hno Hl]]; [left; exists r; split_and!; [set_solver|done|done]|].
  rewrite Hl. destruct (decide (dy_api_key_id x = k)) as [<-|E].
  - left. exists x. rewrite lookup_insert_eq. split_and!; [left|done|done].
  - right. rewrite lookup_insert_ne; [|done]. split; [set_solver|done].
Qed.

Lemma elem_of_daily date t r : r ∈ list_stats_daily_by_date date t ↔ dy_date r = date ∧ ∃ i, st_daily t !! i = Some r.
Proof.
  unfold list_stats_daily_by_date. rewrite list_elem_of_In filter_In -list_elem_of_In String.eqb_eq. split.
  - intros [Hr He]. split; [done|]. apply list_elem_of_fmap in Hr as ([i r'] & -> & Hin%elem_of_map_to_list). by exists i.
  - intros [He [i Hi]]. split; [|done]. apply list_elem_of_fmap. exists (i, r). split; [done|by apply elem_of_map_to_list].
Qed.

Lemma load_table date t k : (∀ d k r, st_daily t !! (d, k) = Some r → dy_date r = d ∧ dy_api_key_id r = k) →
  load_daily (list_stats_daily_by_date date t) ∅ !! k = option_map dy_agg (st_daily t !! (date, k)).
Proof.
  intros Hk. destruct (load_daily_lookup (list_stats_daily_by_date date t) ∅ k) as [(r & Hr & <- & ->)|[Hno ->]].
  - apply elem_of_daily in Hr as [<- [[d k'] Hi]]. destruct (Hk _ _ _ Hi) as [<- <-]. by rewrite Hi.
  - rewrite lookup_empty. destruct (st_daily t !! (date, k)) as [r|] eqn:E; [|done]. destruct (Hk _ _ _ E) as [Hd Hi].
    exfalso. apply (Hno r); [|done]. apply elem_of_daily. split; [done|by exists (date, k)].
Qed.

(** ** Steps *)
Section Daily.
Context `{TelemetryLib} {DOrd : HashOrder Z StatsAgg} `{!HashOrderOk Z StatsAgg} {HOrd : HashOrder HourlyKey HourlyStatsAgg}.
Context (w : TelemetryWorld).
Hypothesis others_keep : ∀ n t, st_daily (tw_others w n t) = st_daily t.
Hypothesis faultless : ∀ n, tw_fault w n = None.

(** What the daily statistics depend on, and the retention policy. *)
Definition daily_part (s : TelemetryState) : gmap (string * Z) StatsDailyRow * string * gmap Z StatsAgg * RetentionPolicy :=
  (st_daily (ts_tables s), wk_current_date (ts_worker s), wk_stats_by_key (ts_worker s), wk_retention (ts_worker s)).
(** The same, and whether it has to be written. *)
Definition daily_view (s : TelemetryState) := (daily_part s, wk_dirty (ts_worker s)).

Lemma view_draw {A} (g : nat → A) : keeps daily_view (draw w g).
Proof. intros s. unfold daily_view, daily_part, draw, others. cbn. by rewrite others_keep. Qed.
Lemma view_update g : (∀ wk, (wk_current_date (g wk), wk_stats_by_key (g wk), wk_retention (g wk), wk_dirty (g wk))
    = (wk_current_date wk, wk_stats_by_key wk, wk_retention wk, wk_dirty wk)) → keeps daily_view (update g).
Proof. intros Hg s. unfold daily_view, daily_part. cbn. specialize (Hg (ts_worker s)). congruence. Qed.
Lemma view_worker {A} (g : TelemetryWorker → A) : keeps daily_view (worker g).
Proof. done. Qed.
Lemma view_archive g : keeps daily_view (modify (λ s, set_ts_archive (g s) s) : M unit).
Proof. done. Qed.
Lemma view_statement {A} (op : StatsTables → (A + DbError) * StatsTables) :
  (∀ t, st_daily (op t).2 = st_daily t) → keeps daily_view (statement w op).
Proof.
  intros Hop s. unfold statement. rewrite faultless. specialize (Hop (ts_tables (others w s))).
  destruct (op (ts_tables (others w s))) as [r t]. unfold daily_view, daily_part, others in *. cbn in *. by rewrite Hop others_keep.
Qed.
Lemma view_execute op : (∀ t, st_daily (op t) = st_daily t) → keeps daily_view (execute w op).
Proof. intros Hop. apply view_statement. intros t. apply Hop. Qed.
Lemma view_query {A} (op : StatsTables → A) : keeps daily_view (query w op).
Proof. by apply view_statement. Qed.
Lemma view_remove op : (∀ t, st_daily (op t).2 = st_daily t) → keeps daily_view (remove w op).
Proof. intros Hop. apply view_statement. intros t. specialize (Hop t). by destruct (op t). Qed.
Lemma view_insert_logs rows : keeps daily_view (statement w (insert_request_logs rows)).
Proof. apply view_statement. intros t. unfold insert_request_logs. by destruct (insert_rows _ _ _). Qed.
Lemma view_insert_events rows : keeps daily_view (statement w (insert_stats_events rows)).
Proof. apply view_statement. intros t. unfold insert_stats_events. by destruct (insert_rows _ _ _). Qed.
#[local] Hint Resolve view_draw view_update view_worker view_archive view_execute view_query view_remove view_insert_logs view_insert_events : keeps.

Lemma view_flush_logs : keeps daily_view (flush_logs w).
Proof. unfold flush_logs. keep. Qed.
Lemma view_flush_stats_events : keeps daily_view (flush_stats_events w).
Proof. unfold flush_stats_events. keep. Qed.
#[local] Hint Resolve view_flush_logs view_flush_stats_events : keeps.

(** A step that leaves the daily statistics alone. *)
Lemma ok_view s s' : daily_view s' = daily_view s → daily_ok s → daily_ok s' ∧ ∀ d k, book s' d k = book s d k.
Proof.
  intros [= E1 E2 E3 E4 E5] [Hk Hl Hc]. split; [|intros d k; unfold book, stored_daily; by rewrite E1 E2 E3].
  split; [by rewrite E1|by rewrite E1 E2 E3|unfold stored_daily in *; by rewrite E1 E2 E3 E5].
Qed.

Lemma hourly_written rows s : (upsert_stats_hourly w rows s).1 = inl (inl tt) ∧ daily_view (upsert_stats_hourly w rows s).2 = daily_view s.
Proof.
  revert s. induction rows as [|r rows IH]; intros s; [done|]. cbn [upsert_stats_hourly]. unfold bind.
  assert (keeps daily_view (execute w (upsert_hourly_row r))) as Hk by (by apply view_execute). specialize (Hk s).
  assert ((execute w (upsert_hourly_row r) s).1 = inl (inl tt)) as Hr by (unfold execute, statement; by rewrite faultless).
  destruct (execute w (upsert_hourly_row r) s) as [x s1]. cbn [fst snd] in *. subst x. destruct (IH s1) as [-> ->]. done.
Qed.

(** A step that goes on, with this result and in such a state. *)
Definition does {A} (m : M A) (s : TelemetryState) (P : A → TelemetryState → Prop) : Prop := ∃ a, (m s).1 = inl a ∧ P a (m s).2.

Lemma does_bind {A C} (m : M A) (g : A → M C) s P : does m s (λ a s', does (g a) s' P) → does (bind m g) s P.
Proof. intros (a & E & Hg). unfold does, bind in *. destruct (m s) as [x s']. cbn [fst snd] in *. subst x. apply Hg. Qed.
Lemma does_view {A} (m : M A) s (P : A → TelemetryState → Prop) : stays m → keeps daily_view m → (∀ a s', daily_view s' = daily_view s → P a s') → does m s P.
Proof.
  intros Hs Hk HP. specialize (Hs s). specialize (Hk s). unfold does. destruct (m s) as [[a|e] s']; [|by destruct (Hs e)].
  exists a. split; [done|by apply HP].
Qed.

#[local] Hint Resolve stays_draw stays_flush_logs stays_flush_stats_events : stays.

Lemma flush_hourly_does now_ms s (P : unit → TelemetryState → Prop) : (∀ a s', daily_view s' = daily_view s → P a s') → does (flush_hourly w now_ms) s P.
Proof.
  intros HP. unfold flush_hourly, does, bind, worker, gets. destruct (bool_decide _); [exists tt; by auto|].
  destruct (hourly_written (hourly_rows now_ms (ts_worker s)) s) as [Hr Hv]. destruct (upsert_stats_hourly w _ s) as [x s1]. cbn [fst snd] in *.
  subst x. exists tt. split; [done|]. apply HP. rewrite -Hv. done.
Qed.

(** Everything counted is in the table. *)
Definition flushed (s s' : TelemetryState) : Prop :=
  daily_ok s' ∧ wk_dirty (ts_worker s') = false ∧ (∀ d k, book s' d k = book s d k)
  ∧ wk_current_date (ts_worker s') = wk_current_date (ts_worker s) ∧ wk_retention (ts_worker s') = wk_retention (ts_worker s).

(** The rows of the day, written over the table. *)
Lemma rows_written now_ms s s' : daily_ok s →
  daily_part s' = (st_daily (upsert_stats_daily (daily_rows now_ms (ts_worker s)) (ts_tables s)), wk_current_date (ts_worker s), wk_stats_by_key (ts_worker s),
                   wk_retention (ts_worker s)) → wk_dirty (ts_worker s') = false → flushed s s'.
Proof.
  intros [Hk Hl Hc] [= E1 E2 E3 E4] Ed. set (cur := wk_current_date (ts_worker s)) in *.
  assert (∀ r, r ∈ daily_rows now_ms (ts_worker s) ↔ ∃ k a, wk_stats_by_key (ts_worker s) !! k = Some a ∧ r = MkDaily cur k a now_ms) as Hrows.
  { intros r. unfold daily_rows. rewrite list_elem_of_fmap. split.
    - intros ([k a] & -> & Hin%elem_of_hash_entries). by exists k, a.
    - intros (k & a & Hin & ->). exists (k, a). split; [done|by apply elem_of_hash_entries]. }
  assert (∀ k, st_daily (ts_tables s') !! (cur, k) = match wk_stats_by_key (ts_worker s) !! k with
            Some a => Some (MkDaily cur k a now_ms) | None => st_daily (ts_tables s) !! (cur, k) end) as Hcur.
  { intros k. rewrite E1. destruct (upsert_daily_lookup (daily_rows now_ms (ts_worker s)) (ts_tables s) cur k) as [(r & (k' & a & Ha & ->)%Hrows & [= ->] & ->)|[Hno ->]].
    - by rewrite Ha.
    - destruct (wk_stats_by_key (ts_worker s) !! k) as [a|] eqn:Ea; [|done]. exfalso. eapply (Hno (MkDaily cur k a now_ms)); [apply Hrows; by exists k, a|done]. }
  assert (∀ d k, d ≠ cur → st_daily (ts_tables s') !! (d, k) = st_daily (ts_tables s) !! (d, k)) as Hother.
  { intros d k Hne. rewrite E1. destruct (upsert_daily_lookup (daily_rows now_ms (ts_worker s)) (ts_tables s) d k) as [(r & (k' & a & Ha & ->)%Hrows & [= <- _] & _)|[_ ->]]; done. }
  assert (∀ k, stored_daily cur k (ts_tables s') = default no_stats (wk_stats_by_key (ts_worker s) !! k)) as Hst.
  { intros k. unfold stored_daily. rewrite Hcur. destruct (wk_stats_by_key (ts_worker s) !! k) as [a|] eqn:Ea; [done|].
    destruct (st_daily (ts_tables s) !! (cur, k)) as [r|] eqn:Er; [|done]. destruct (Hl k) as [a Ha]; [by exists r|congruence]. }
  split_and!; [|done| |done|done].
  - split.
    + intros d k r Hr. destruct (decide (d = cur)) as [->|Hne]; [|rewrite (Hother d k Hne) in Hr; by apply Hk].
      rewrite Hcur in Hr. destruct (wk_stats_by_key (ts_worker s) !! k); [by injection Hr as <-|by apply Hk].
    + intros k [r Hr]. rewrite E2 in Hr. rewrite E3. rewrite Hcur in Hr.
      destruct (wk_stats_by_key (ts_worker s) !! k) as [a|] eqn:Ea; [by exists a|]. rewrite -Ea. apply Hl. by exists r.
    + intros _ k. rewrite E2 E3. apply Hst.
  - intros d k. unfold book. rewrite E2 E3. fold cur. destruct (String.eqb_spec d cur) as [->|Hne]; [done|]. unfold stored_daily. by rewrite (Hother d k Hne).
Qed.

Lemma does_worker {A C} (f : TelemetryWorker → A) (g : A → M C) s P : does (g (f (ts_worker s))) s P → does (bind (worker f) g) s P.
Proof. done. Qed.
Lemma does_update {C} u (g : unit → M C) s P : does (g tt) (set_ts_worker (u (ts_worker s)) s) P → does (bind (update u) g) s P.
Proof. done. Qed.
Lemma does_ret {A} (a : A) s (P : A → TelemetryState → Prop) : P a s → does (ret a) s P.
Proof. intros HP. by exists a. Qed.
Lemma does_weaken {A} (m : M A) s (P Q : A → TelemetryState → Prop) : does m s P → (∀ a s', P a s' → Q a s') → does m s Q.
Proof. intros (a & E & HP) HQ. exists a. auto. Qed.
Lemma does_clock {C} (g : Z → M C) s P :
  (∀ now s', daily_view s' = daily_view s → does (g now) s' P) → does (bind (clock w) g) s P.
Proof. intros Hg. apply (Hg (tw_clock w (ts_time s)) (others w s)). apply (view_draw (tw_clock w) s). Qed.

Lemma flush_buffers s (P : unit → TelemetryState → Prop) : (∀ a s', daily_view s' = daily_view s → P a s') → does (flush_logs w ;; flush_stats_events w) s P.
Proof. intros HP. apply does_view; [stay|keep|exact HP]. Qed.

Lemma flush_does s : daily_ok s → does (flush w) s (λ _, flushed s).
Proof.
  intros Hok. unfold flush. apply does_worker. destruct (wk_dirty (ts_worker s)) eqn:Ed.
  - apply does_bind, does_update. set (s0 := set_ts_worker _ s). unfold flush_stats. apply does_clock. intros now_ms s1 E1. apply does_worker.
    assert (daily_rows now_ms (ts_worker s1) = daily_rows now_ms (ts_worker s)) as Er by (injection E1 as _ E2 E3 _ _; unfold daily_rows; by rewrite E2 E3).
    rewrite Er. apply does_bind. unfold does at 1, execute, statement. rewrite faultless. eexists. split; [done|]. cbn [snd].
    set (s2 := set_ts_tables _ _).
    assert (daily_part s2 = (st_daily (upsert_stats_daily (daily_rows now_ms (ts_worker s)) (ts_tables s)), wk_current_date (ts_worker s),
              wk_stats_by_key (ts_worker s), wk_retention (ts_worker s)) ∧ wk_dirty (ts_worker s2) = false) as [Ep Ed2].
    { injection E1 as Et E2 E3 E4 E5. split; [|exact E5]. unfold daily_part, s2. cbn [ts_tables ts_worker set_ts_tables others tick].
      cbn in E2, E3, E4. rewrite E2 E3 E4. f_equal. f_equal. f_equal. apply upsert_daily_same. by rewrite others_keep Et. }
    assert (∀ s', daily_view s' = daily_view s2 → flushed s s') as Hend.
    { intros s' E. injection E as E2 E3 E4 E5 E6. apply (rows_written now_ms); [done| |by rewrite E6].
      rewrite -Ep. unfold daily_part. by rewrite E2 E3 E4 E5. }
    apply does_bind, does_ret. apply flush_hourly_does. intros _ s3 E3. apply flush_buffers. intros _ s4 E4. apply Hend. by rewrite E4.
  - apply does_bind, does_ret. apply flush_buffers. intros _ s' E. destruct (ok_view _ _ E Hok) as [Hok' Hb].
    injection E as E1 E2 E3 E4 E5. split_and!; [done|by rewrite E5|done|done|done].
Qed.

(** A step that changes no entry of the book. *)
Definition calm (s s' : TelemetryState) : Prop :=
  daily_ok s' ∧ (∀ d k, book s' d k = book s d k) ∧ wk_retention (ts_worker s') = wk_retention (ts_worker s).

Lemma calm_trans s1 s2 s3 : calm s1 s2 → calm s2 s3 → calm s1 s3.
Proof. intros (_ & Hb & Hr) (Hok & Hb' & Hr'). split_and!; [done|intros d k; by rewrite Hb' Hb|congruence]. Qed.
Lemma calm_view s s' : daily_ok s → daily_view s' = daily_view s → calm s s'.
Proof. intros Hok E. destruct (ok_view _ _ E Hok) as [Hok' Hb]. injection E as _ _ _ Hr _. by split_and!. Qed.
Lemma calm_flushed s s' : flushed s s' → calm s s'.
Proof. intros (Hok & _ & Hb & _ & Hr). by split_and!. Qed.

(** The counters of another day, read from the table. *)
Lemma day_loaded date s s' : daily_ok s → wk_dirty (ts_worker s) = false → date ≠ wk_current_date (ts_worker s) →
  daily_view s' = (st_daily (ts_tables s), date, load_daily (list_stats_daily_by_date date (ts_tables s)) ∅, wk_retention (ts_worker s), false) →
  calm s s'.
Proof.
  intros [Hk Hl Hc] Ed Hne [= E1 E2 E3 E4 E5].
  assert (∀ k, wk_stats_by_key (ts_worker s') !! k = option_map dy_agg (st_daily (ts_tables s) !! (date, k))) as Hload.
  { intros k. rewrite E3. by apply load_table. }
  assert (∀ k, stored_daily date k (ts_tables s) = default no_stats (wk_stats_by_key (ts_worker s') !! k)) as Hst.
  { intros k. rewrite Hload. unfold stored_daily. by destruct (st_daily (ts_tables s) !! (date, k)). }
  split_and!; [split| |done].
  - by rewrite E1.
  - intros k. rewrite E1 E2 Hload. intros [r ->]. by eexists.
  - intros _ k. unfold stored_daily in *. rewrite E1 E2. apply Hst.
  - intros d k. unfold book. rewrite E2. destruct (String.eqb_spec d date) as [->|Hd].
    + rewrite -Hst. by destruct (String.eqb_spec date (wk_current_date (ts_worker s))).
    + unfold stored_daily in *. rewrite E1. destruct (String.eqb_spec d (wk_current_date (ts_worker s))) as [->|]; [|done]. by apply Hc.
Qed.

Lemma rotate_does s : daily_ok s → does (maybe_rotate_day w) s (λ _, calm s).
Proof.
  intros Hok. unfold maybe_rotate_day. apply does_bind. unfold today_yyyymmdd_utc at 1. apply does_clock. intros now s1 E1. apply does_ret.
  assert (calm s s1) as H1 by by apply calm_view. set (date := yyyymmdd now). apply does_worker.
  destruct (String.eqb_spec date (wk_current_date (ts_worker s1))) as [|Hne]; [by apply does_ret|].
  apply does_bind. eapply does_weaken; [apply flush_does; by destruct H1|]. cbn beta. intros a s2 Hs2. clear a.
  pose proof (calm_trans s s1 s2 H1 (calm_flushed _ _ Hs2)) as H2.
  destruct Hs2 as (Hok2 & Ed2 & _ & Ec2 & Er2). apply does_update. apply does_bind. unfold does at 1, query, statement. rewrite faultless.
  eexists. split; [done|]. cbn beta iota. unfold does. exists tt. split; [done|]. eapply calm_trans; [exact H2|].
  apply (day_loaded date); [done|done|by rewrite Ec2|]. cbn. unfold daily_view, daily_part. cbn. rewrite others_keep.
  f_equal. f_equal. f_equal. unfold list_stats_daily_by_date. by rewrite others_keep.
Qed.

Lemma view_delete_batches n batch delete : keeps daily_view delete → keeps daily_view (delete_batches n batch delete).
Proof. intros Hd. induction n as [|n IH]; cbn [delete_batches]; keep. Qed.
Lemma view_archive_logs dir rows compress : keeps daily_view (archive_request_logs_jsonl w dir rows compress).
Proof. unfold archive_request_logs_jsonl, today_yyyymmdd_utc, clock, new_ulid. keep. Qed.
#[local] Hint Resolve view_delete_batches view_archive_logs : keeps.
Lemma view_archive_batches n r cutoff batch : keeps daily_view (archive_batches w n r cutoff batch).
Proof. induction n as [|n IH]; cbn [archive_batches]; keep. Qed.
#[local] Hint Resolve view_archive_batches : keeps.

(** ** Retention

    Time goes on, and rows of days before the cutoff leave the table. *)
Definition later (s s' : TelemetryState) : Prop := (ts_time s <= ts_time s')%nat.
#[local] Instance later_preorder : PreOrder later.
Proof. split; [intros s; unfold later; lia|intros s1 s2 s3; unfold later; lia]. Qed.
Lemma later_draw {A} (g : nat → A) : moves later (draw w g).
Proof. intros s. unfold later. cbn. lia. Qed.
Lemma later_statement {A} (op : StatsTables → (A + DbError) * StatsTables) : moves later (statement w op).
Proof.
  intros s. unfold statement, later. rewrite faultless. destruct (op (ts_tables (others w s))). cbn. lia.
Qed.
Lemma later_modify g : (∀ s, ts_time (g s) = ts_time s) → moves later (modify g : M unit).
Proof. intros Hg s. unfold later. cbn. by rewrite Hg. Qed.
#[local] Hint Resolve later_draw later_statement later_modify : moves.
Lemma later_delete_batches n batch delete : moves later delete → moves later (delete_batches n batch delete).
Proof. intros Hd. induction n as [|n IH]; cbn [delete_batches]; carry. Qed.
#[local] Hint Resolve later_delete_batches : moves.
Lemma later_archive_batches n r cutoff batch : moves later (archive_batches w n r cutoff batch).
Proof.
  induction n as [|n IH]; cbn [archive_batches]; unfold archive_request_logs_jsonl, today_yyyymmdd_utc, clock, new_ulid, query, remove; carry.
Qed.
#[local] Hint Resolve later_archive_batches : moves.

(** The first day that is kept, by a reading of the clock. *)
Definition first_kept (days : Z) (n : nat) : string := yyyymmdd (tw_clock w n - Z.max (u32_sat_sub days 1) 0 * MILLIS_PER_DAY).

(** Rows of days before the cutoff may be gone; nothing else has changed. *)
Definition trimmed (cutoff : string) (s s' : TelemetryState) : Prop :=
  (wk_current_date (ts_worker s'), wk_stats_by_key (ts_worker s'), wk_retention (ts_worker s'), wk_dirty (ts_worker s'))
    = (wk_current_date (ts_worker s), wk_stats_by_key (ts_worker s), wk_retention (ts_worker s), wk_dirty (ts_worker s))
  ∧ ((∀ d k r, st_daily (ts_tables s) !! (d, k) = Some r → dy_date r = d ∧ dy_api_key_id r = k) →
     (∀ d k r, st_daily (ts_tables s') !! (d, k) = Some r → dy_date r = d ∧ dy_api_key_id r = k)
     ∧ ∀ d k, st_daily (ts_tables s') !! (d, k) = st_daily (ts_tables s) !! (d, k)
              ∨ before_date cutoff d = true ∧ st_daily (ts_tables s') !! (d, k) = None).
#[local] Instance trimmed_preorder cutoff : PreOrder (trimmed cutoff).
Proof.
  split; [intros s; split; [done|intros Hk; split; [done|by left]]|].
  intros s1 s2 s3 [E12 H12] [E23 H23]. split; [congruence|]. intros Hk1. destruct (H12 Hk1) as [Hk2 T12].
  destruct (H23 Hk2) as [Hk3 T23]. split; [done|]. intros d k. destruct (T23 d k) as [->|[? ->]]; [apply T12|by right].
Qed.
Lemma trimmed_view cutoff s s' : daily_view s' = daily_view s → trimmed cutoff s s'.
Proof. intros [= E1 E2 E3 E4 E5]. split; [congruence|]. rewrite E1. intros Hk. split; [done|by left]. Qed.

Lemma delete_rows_lookup {K R'} `{Countable K} (key : R' → K) rows (m : gmap K R') i :
  delete_rows key rows m !! i = m !! i ∨ (∃ x, x ∈ rows ∧ key x = i) ∧ delete_rows key rows m !! i = None.
Proof.
  unfold delete_rows. induction rows as [|x rows IH]; [by left|]. cbn [foldr]. destruct (decide (key x = i)) as [<-|Hne].
  - right. rewrite lookup_delete_eq. split; [exists x; split; [left|done]|done].
  - rewrite lookup_delete_ne //. destruct IH as [?|[(y & Hy & E) ?]]; [by left|]. right. split; [exists y; split; [by right|done]|done].
Qed.

Lemma trimmed_delete cutoff batch : moves (trimmed cutoff) (remove w (delete_stats_daily_before cutoff batch)).
Proof.
  intros s. unfold remove, statement. rewrite faultless. set (s1 := others w s).
  etransitivity; [apply (trimmed_view cutoff s s1); unfold daily_view, daily_part, s1, others; cbn; by rewrite others_keep|].
  unfold delete_stats_daily_before. cbn [snd]. split; [done|]. cbn [ts_tables set_ts_tables st_daily set_st_daily]. intros Hk.
  set (rows := take_Z _ _). set (key := λ r : StatsDailyRow, (dy_date r, dy_api_key_id r)).
  assert (∀ x, x ∈ rows → before_date cutoff (dy_date x) = true) as Hrows.
  { intros x Hx%elem_of_take_Z. rewrite sort_by_perm in Hx. by apply list_elem_of_In, filter_In in Hx as [_ Hx]. }
  split.
  - intros d k r Hr. apply Hk. destruct (delete_rows_lookup key rows (st_daily (ts_tables s1)) (d, k)) as [E|[_ E]]; congruence.
  - intros d k. destruct (delete_rows_lookup key rows (st_daily (ts_tables s1)) (d, k)) as [E|[(x & Hx & Ex) E]]; [by left|].
    right. split; [|done]. injection Ex as <- _. by apply Hrows.
Qed.
#[local] Hint Resolve trimmed_delete : moves.
Lemma trimmed_delete_batches cutoff n batch :
  moves (trimmed cutoff) (delete_batches n batch (remove w (delete_stats_daily_before cutoff batch))).
Proof. induction n as [|n IH]; cbn [delete_batches]; carry. Qed.

(** What retention does to the daily statistics. *)
Definition retained (s s' : TelemetryState) : Prop :=
  later s s' ∧ (daily_view s' = daily_view s
    ∨ let days := rp_stats_daily_retention_days (wk_retention (ts_worker s)) in
      0 < days ∧ ∃ n, (ts_time s <= n < ts_time s')%nat ∧ trimmed (first_kept days n) s s').

#[local] Hint Resolve stays_draw stays_statement stays_delete_batches stays_archive_batches : stays.

Lemma run_retention_retained now_ms s : retained s (run_retention w (wk_retention (ts_worker s)) now_ms s).2.
Proof.
  unfold run_retention. set (r := wk_retention (ts_worker s)).
  match goal with |- context [bind ?logs ?daily] => set (m := logs); set (k := daily) end.
  assert (keeps daily_view m) as Hk by (unfold m; keep). assert (moves later m) as Hl by (unfold m, remove; carry).
  assert (stays m) as Hs by (unfold m, remove; stay). destruct (stays_goes_on m k s Hs) as ([] & s1 & E & ->).
  specialize (Hk s). specialize (Hl s). rewrite E in Hk, Hl. cbn [snd] in Hk, Hl. subst k. cbn beta.
  destruct (Z.ltb_spec 0 (rp_stats_daily_retention_days r)) as [Hdays|]; [|split; [done|by left]].
  unfold yyyymmdd_utc_days_ago, clock. unfold bind at 1. unfold bind at 1. cbn [draw fst snd ret].
  set (cutoff := yyyymmdd _). set (s2 := others w s1). change cutoff with (first_kept (rp_stats_daily_retention_days r) (ts_time s1)).
  pose proof (trimmed_delete_batches (first_kept (rp_stats_daily_retention_days r) (ts_time s1)) RETENTION_MAX_BATCHES_PER_RUN (rp_delete_batch r) s2) as Ht.
  assert (moves later (delete_batches RETENTION_MAX_BATCHES_PER_RUN (rp_delete_batch r)
    (remove w (delete_stats_daily_before (first_kept (rp_stats_daily_retention_days r) (ts_time s1)) (rp_delete_batch r))))) as Hl2 by (unfold remove; carry).
  specialize (Hl2 s2). assert (ts_time s2 = S (ts_time s1)) as E2 by done. unfold later in *.
  split; [unfold later; lia|]. right. split; [done|].
  exists (ts_time s1). split; [lia|].
  etransitivity; [|exact Ht]. apply trimmed_view. rewrite -Hk. unfold daily_view, daily_part, s2, others. cbn. by rewrite others_keep.
Qed.

Lemma retention_retained s : retained s (maybe_run_retention w s).2.
Proof.
  unfold maybe_run_retention, worker, gets. unfold bind at 1. set (r := wk_retention (ts_worker s)).
  destruct (negb (retention_enabled r)); [by split; [unfold later|left]|]. unfold bind at 1, clock, draw. set (s1 := others w s).
  assert (daily_view s1 = daily_view s) as E1 by (unfold daily_view, daily_part, s1, others; cbn; by rewrite others_keep).
  assert (later s s1) as L1 by (unfold later, s1; cbn; lia). unfold bind at 1.
  destruct (_ <? _); [by split; [|left]|]. unfold bind, update, modify. cbn [fst snd]. set (s2 := set_ts_worker _ s1).
  pose proof (run_retention_retained (tw_clock w (ts_time s)) s2) as [Hl Hrun].
  change (wk_retention (ts_worker s2)) with r in Hl, Hrun. change (ts_time s2) with (ts_time s1) in Hrun. change (later s1 (run_retention w r (tw_clock w (ts_time s)) s2).2) in Hl.
  split; [by etransitivity|]. destruct Hrun as [E|(Hd & n & Hn & Ht)].
  - left. by rewrite E.
  - right. split; [done|]. exists n. unfold later in *. split; [lia|]. etransitivity; [|exact Ht]. by apply trimmed_view.
Qed.

(** ** Days that are no longer kept *)
Definition outdated (s s' : TelemetryState) (d : string) : Prop :=
  let days := rp_stats_daily_retention_days (wk_retention (ts_worker s)) in
  0 < days ∧ ∃ n, (ts_time s <= n < ts_time s')%nat ∧ before_date (first_kept days n) d = true.

(** A step that forgets only days that are no longer kept. *)
Definition calm_but_outdated (s s' : TelemetryState) : Prop :=
  daily_ok s' ∧ wk_retention (ts_worker s') = wk_retention (ts_worker s)
  ∧ ∀ d k, book s' d k = book s d k ∨ outdated s s' d ∧ book s' d k = no_stats.

Lemma calm_retained s s' : daily_ok s → retained s s' → ¬ outdated s s' (wk_current_date (ts_worker s')) → calm_but_outdated s s'.
Proof.
  intros Hok [Hl Hret] Hno. destruct Hret as [E|(Hdays & n & Hn & [E Ht])].
  { destruct (ok_view _ _ E Hok) as [Hok' Hb]. injection E as _ _ _ Hr _. split_and!; [done|done|]. intros d k. by left. }
  injection E as E1 E2 E3 E4. destruct Hok as [Hk Hld Hc]. destruct (Ht Hk) as [Hk' Hrows].
  set (cur := wk_current_date (ts_worker s)) in *.
  assert (∀ k, st_daily (ts_tables s') !! (cur, k) = st_daily (ts_tables s) !! (cur, k)) as Hcur.
  { intros k. destruct (Hrows cur k) as [->|[Hb _]]; [done|]. destruct Hno. split; [done|]. exists n. rewrite E1. by split. }
  split; [split; [done| |]|split; [done|]].
  - intros k. rewrite E1 E2 Hcur. apply Hld.
  - rewrite E4 E1 E2. intros Hd k. unfold stored_daily. rewrite Hcur. by apply Hc.
  - intros d k. unfold book. rewrite E1 E2. fold cur. destruct (String.eqb d cur); [by left|]. unfold stored_daily.
    destruct (Hrows d k) as [->|[Hb ->]]; [by left|]. right. split; [|done]. split; [done|]. by exists n.
Qed.

Lemma later_flush : moves later (flush w).
Proof.
  assert (∀ rows, moves later (upsert_stats_hourly w rows)) as Hh.
  { induction rows as [|r rows IH]; cbn [upsert_stats_hourly]; unfold execute; carry. }
  unfold flush, flush_stats, flush_hourly, flush_logs, flush_stats_events, clock, execute, worker, update. carry.
Qed.
#[local] Hint Resolve later_flush : moves.
Lemma later_rotate : moves later (maybe_rotate_day w).
Proof. unfold maybe_rotate_day, today_yyyymmdd_utc, clock, query, worker, update. carry. Qed.

Lemma tick_does s : daily_ok s →
  does (on_tick w) s (λ _ s', ¬ outdated s s' (wk_current_date (ts_worker s')) → calm_but_outdated s s').
Proof.
  intros Hok. pose proof (later_rotate s) as L1. unfold on_tick. apply does_bind. destruct (rotate_does s Hok) as ([] & E1 & H1).
  exists tt. split; [done|]. set (s1 := (maybe_rotate_day w s).2) in *. clearbody s1. clear E1.
  pose proof (later_flush s1) as L2. apply does_bind. destruct (flush_does s1 ltac:(by destruct H1)) as ([] & E2 & Hs2).
  exists tt. split; [done|]. set (s2 := (flush w s1).2) in *. clearbody s2. clear E2.
  assert (calm s s2) as H2 by (eapply calm_trans; [exact H1|by apply calm_flushed]). destruct H2 as (Hok2 & Hb2 & Hr2).
  pose proof (retention_retained s2) as Hret. pose proof (stays_retention w s2) as Hs. unfold does.
  destruct (maybe_run_retention w s2) as [[[]|e] s3]; [|by destruct (Hs e)]. exists tt. split; [done|]. cbn [snd] in *. intros Hno.
  assert (∀ d, outdated s2 s3 d → outdated s s3 d) as Hout.
  { intros d (Hd & n & Hn & Hb). rewrite Hr2 in Hd, Hb. split; [done|]. exists n. unfold later in *. split; [lia|done]. }
  destruct (calm_retained s2 s3 Hok2 Hret) as (Hok3 & Hr3 & Hb3); [by intros Hx%Hout|]. split_and!; [done|congruence|].
  intros d k. destruct (Hb3 d k) as [->|[Ho ->]]; [left; by rewrite Hb2|right; by split; [apply Hout|]].
Qed.

(** ** An event *)
Lemma part_of_view {A} (m : M A) : keeps daily_view m → keeps daily_part m.
Proof. intros Hm s. exact (f_equal fst (Hm s)). Qed.

Lemma push_event_does e s : does (push_stats_event w e) s (λ _ s', daily_part s' = daily_part s ∧ wk_dirty (ts_worker s') = true).
Proof.
  unfold push_stats_event, new_ulid. apply does_bind. apply does_view; [stay|keep|]. intros id s1 E1. apply does_clock. intros now s2 E2.
  apply does_update, does_worker. set (s3 := set_ts_worker _ s2). apply does_bind.
  assert (daily_view s3 = daily_view s2) as E3 by done. destruct (full _ _).
  1: apply does_view; [apply stays_flush_stats_events|apply view_flush_stats_events|]; intros _ s4 E4.
  2: apply does_ret; pose proof E3 as E4; set (s4 := s3) in E4 |- *.
  all: exists tt; split; [done|]; split; [|done].
  all: change (daily_part s4 = daily_part s); exact (f_equal fst (eq_trans E4 (eq_trans E3 (eq_trans E2 E1)))) || exact (f_equal fst (eq_trans E4 (eq_trans E2 E1))).
Qed.

Lemma entry_added (g : StatsAgg → StatsAgg) key (m : gmap Z StatsAgg) k :
  default no_stats (<[key := g (default no_stats (m !! key))]> m !! k) = if bool_decide (k = key) then g (default no_stats (m !! k)) else default no_stats (m !! k).
Proof.
  destruct (decide (k = key)) as [->|Hne]; [by rewrite lookup_insert_eq bool_decide_eq_true_2|].
  by rewrite lookup_insert_ne // bool_decide_eq_false_2.
Qed.

(** The entries of a day after an event. *)
Lemma count_does e s : daily_ok s → counts_for_stats e = true →
  does (count_event w e) s (λ _ s', daily_ok s' ∧ wk_retention (ts_worker s') = wk_retention (ts_worker s)
    ∧ ∀ d k, book s' d k = counts_on (wk_current_date (ts_worker s)) e (book s) d k).
Proof.
  intros [Hk Hl Hc] He. unfold count_event. do 3 apply does_update. eapply does_weaken; [apply push_event_does|]. cbn beta.
  intros _ s' [E Ed]. injection E as E1 E2 E3 E4. cbn in E1, E2, E3, E4. split; [split|split; [done|]].
  - by rewrite E1.
  - intros k. rewrite E1 E2 E3. intros [a Ha]%Hl. rewrite !lookup_insert. case_decide; [by eexists|]. case_decide; [by eexists|]. by exists a.
  - congruence.
  - intros d k. unfold book, counts_on. rewrite He E2 E3. destruct (String.eqb_spec d (wk_current_date (ts_worker s))) as [->|Hne].
    + assert (∀ key, bool_decide (wk_current_date (ts_worker s) = wk_current_date (ts_worker s) ∧ k = key) = bool_decide (k = key)) as Hb
        by (intros key; apply bool_decide_ext; naive_solver).
      by rewrite !Hb !entry_added.
    + assert (∀ key, bool_decide (d = wk_current_date (ts_worker s) ∧ k = key) = false) as Hb
        by (intros key; apply bool_decide_eq_false_2; naive_solver).
      rewrite !Hb. unfold stored_daily. by rewrite E1.
Qed.

(** C24. The daily statistics are a book with an entry for each day and key, wherever it is kept: an
    event changes the entries of its key and of all keys for the current day by what it counts;
    writing changes none, nor does starting a new day; and retention makes those of days it no
    longer keeps zero, and changes no other. This relies on statements that succeed, on there
    being no other instance, and on the current day being within the retention period. *)
Theorem daily_refines_book signal s s' : daily_ok s → serve w signal s = (inl tt, s') →
  ¬ outdated s s' (wk_current_date (ts_worker s')) →
  daily_ok s' ∧ wk_retention (ts_worker s') = wk_retention (ts_worker s)
  ∧ ∀ d k, match signal with
           | EventReceived e => book s' d k = counts_on (wk_current_date (ts_worker s)) e (book s) d k
           | FlushRequested => book s' d k = book s d k
           | Ticked => book s' d k = book s d k ∨ outdated s s' d ∧ book s' d k = no_stats
           end.
Proof.
  intros Hok E Hno.
  assert (∀ (m : M unit) P, does m s P → m s = (inl tt, s') → P tt s') as Hend.
  { intros m P (a & Ea & HP) Em. rewrite Em in Ea, HP. cbn in *. by injection Ea as ->. }
  destruct signal as [|e|]; cbn [serve] in E.
  - destruct (calm_flushed _ _ (Hend _ _ (flush_does s Hok) E)) as (? & ? & ?). by split_and!.
  - assert (keeps daily_view (if tm_log_enabled e then log_event w e else ret tt)) as Hlog.
    { unfold log_event, event_id, shortened, push_log, clock, new_ulid. keep. }
    unfold on_event in E. unfold bind in E. destruct (counts_for_stats e) eqn:Ec.
    + destruct (count_does e s Hok Ec) as ([] & Er & Hok1 & Hr1 & Hb). destruct (count_event w e s) as [x s1]. cbn [fst snd] in *. subst x.
      specialize (Hlog s1). rewrite E in Hlog. cbn [snd] in Hlog. destruct (ok_view _ _ Hlog Hok1) as [Hok' Hb']. injection Hlog as _ _ _ Hr' _.
      split_and!; [done|congruence|]. intros d k. by rewrite Hb' Hb.
    + cbn [ret] in E. specialize (Hlog s). unfold ret in E. rewrite E in Hlog. cbn [snd] in Hlog.
      destruct (calm_view _ _ Hok Hlog) as (? & Hb & ?). split_and!; [done|done|]. intros d k. rewrite Hb. unfold counts_on. by rewrite Ec.
  - destruct (Hend _ _ (tick_does s Hok) E Hno) as (? & ? & ?). by split_and!.
Qed.

(** A worker that has just started. *)
Lemma new_worker_ok max r date t now_ms archive time : (∀ d k row, st_daily t !! (d, k) = Some row → dy_date row = d ∧ dy_api_key_id row = k) →
  daily_ok (MkTState (new_worker max r date (list_stats_daily_by_date date t) now_ms) t archive time).
Proof.
  intros Hk. assert (∀ k, load_daily (list_stats_daily_by_date date t) ∅ !! k = option_map dy_agg (st_daily t !! (date, k))) as Hload
    by (intros k; by apply load_table).
  split; cbn [ts_tables ts_worker wk_current_date wk_stats_by_key new_worker]; [done| |].
  - intros k [row Hrow]. rewrite Hload Hrow. by eexists.
  - intros _ k. rewrite Hload. unfold stored_daily. by destruct (st_daily t !! (date, k)).
Qed.
End Daily.

(** ** An event, and the table after a flush *)
#[local] Existing Instance example_telemetry_lib.
#[local] Existing Instance canonical_order.
#[local] Existing Instance canonical_order_ok.
Definition first_day : TelemetryState :=
  MkTState (new_worker 100 (new_retention 0 0 1000 1 false "archive" false) "0" (list_stats_daily_by_date "0" no_tables) 0) no_tables (MkArchive [] []) 0.
Definition counting : TelemetryWorld := quiet_world 5000 (λ _ t, t).

Definition first_event : TelemetryState := (serve counting (EventReceived (example_event 4000)) first_day).2.

(** The ninth day of a table that keeps two, where the first and the eighth have a row. *)
Definition ninth_day : TelemetryState :=
  let t := set_st_daily {[("1", 7) := MkDaily "1" 7 (MkAgg 3 0 30 0 0 0 0 3 10) 0; ("8", 7) := MkDaily "8" 7 (MkAgg 2 0 20 0 0 0 0 2 10) 0]} no_tables in
  MkTState (new_worker 100 (new_retention 0 2 1000 10 false "archive" false) "9" (list_stats_daily_by_date "9" t) 0) t (MkArchive [] []) 0.
Definition on_ninth_day : TelemetryWorld := quiet_world (9 * MILLIS_PER_DAY + 5000) (λ _ t, t).
Definition after_retention : TelemetryState := (serve on_ninth_day Ticked ninth_day).2.

Lemma daily_refines_book_witness :
  (book first_event "0" 7 = MkAgg 1 0 100 20 0 0 5 1 700
   ∧ book first_event "0" 7 = counts_on (wk_current_date (ts_worker first_day)) (example_event 4000) (book first_day) "0" 7)
  ∧ (book after_retention "1" 7 = no_stats ∧ book after_retention "8" 7 = MkAgg 2 0 20 0 0 0 0 2 10)
  ∧ (book after_retention "8" 7 = book ninth_day "8" 7 ∨ outdated on_ninth_day ninth_day after_retention "8" ∧ book after_retention "8" 7 = no_stats).
Proof.
  split; [|split; [split; by vm_compute|]].
  - split; [by vm_compute|].
    assert (serve counting (EventReceived (example_event 4000)) first_day = (inl tt, first_event)) as E.
    { assert ((serve counting (EventReceived (example_event 4000)) first_day).1 = inl tt) as E by (by vm_compute). unfold first_event.
      destruct (serve counting (EventReceived (example_event 4000)) first_day) as [x s']. cbn in *. by subst x. }
    assert (∀ d k r, st_daily no_tables !! (d, k) = Some r → dy_date r = d ∧ dy_api_key_id r = k) as Hk by (intros d k r; by rewrite lookup_empty).
    destruct (daily_refines_book counting (λ _ _, eq_refl) (λ _, eq_refl) _ first_day first_event
      (new_worker_ok _ _ "0" no_tables 0 (MkArchive [] []) 0 Hk) E) as (_ & _ & Hb).
    { intros [Hdays _]. vm_compute in Hdays. discriminate. }
    exact (Hb "0" 7).
  - assert (serve on_ninth_day Ticked ninth_day = (inl tt, after_retention)) as E.
    { assert ((serve on_ninth_day Ticked ninth_day).1 = inl tt) as E by (by vm_compute). unfold after_retention.
      destruct (serve on_ninth_day Ticked ninth_day) as [x s']. cbn in *. by subst x. }
    destruct (daily_refines_book on_ninth_day (λ _ _, eq_refl) (λ _, eq_refl) Ticked ninth_day after_retention) as (_ & _ & Hb); [|exact E| |].
    + apply new_worker_ok. intros d k r. cbn. rewrite lookup_insert_Some lookup_singleton_Some.
      clear E. intros [[[= <- <-] <-]|[_ [[= <- <-] <-]]]; done.
    + intros (_ & n & _ & Hn). vm_compute in Hn. discriminate.
    + exact (Hb "8" 7).
Defined.

(** Where the table cannot be written at the moment a new day begins. *)
Definition midnight : TelemetryWorld :=
  MkTelemetryWorld (λ n, if (n <? 4)%nat then 5000 else MILLIS_PER_DAY + 1) (λ n, show_Z (Z.of_nat n)) (λ _ t, t)
    (λ n, if (n =? 6)%nat then Some (Lost "database is locked") else None) (λ _, None) (λ _, 0).

(** A day whose counters cannot be written when the next day begins is lost: they are forgotten
    whether or not they were written. *)
Example failed_write_loses_day :
  let s1 := (serve midnight (EventReceived (example_event 4000)) first_day).2 in
  let s2 := (serve midnight Ticked s1).2 in
  book s1 "0" 7 = MkAgg 1 0 100 20 0 0 5 1 700 ∧ book s2 "0" 7 = no_stats ∧ wk_dirty (ts_worker s2) = false.
Proof. split_and!; by vm_compute. Qed.
