(* ===== verification/ArchiveFacts.v ===== *)
(** * ArchiveFacts: no log is deleted that was not archived

    The retention of the request log: while one instance deletes from the table, it deletes
    only rows that are old enough and were written to the archive first, whatever fails and
    whatever recent requests other instances log at the same time. *)
From Stdlib Require Import Ascii String.
From S2P Require Import Prelude Text Json Types StatsTables Telemetry Computation.

Local Open Scope string_scope.
Local Open Scope list_scope.
Local Open Scope Z_scope.
Local Open Scope loop_scope.

Lemma insert_rows_keeps {R} (id : R → string) rows m m' i r :
  insert_rows id rows m = Some m' → m !! i = Some r → m' !! i = Some r.
Proof.
  revert m. induction rows as [|x rows IH]; intros m; cbn [insert_rows]; [by intros [= ->]|].
  destruct (m !! id x) eqn:E; [done|]. cbn. intros Hi Hr. eapply IH; [exact Hi|]. rewrite lookup_insert_ne; [done|congruence].
Qed.

Lemma insert_rows_keyed {R} (id : R → string) rows m m' :
  insert_rows id rows m = Some m' → (∀ i r, m !! i = Some r → id r = i) → ∀ i r, m' !! i = Some r → id r = i.
Proof.
  revert m. induction rows as [|x rows IH]; intros m; cbn [insert_rows]; [by intros [= ->]|].
  destruct (m !! id x); [done|]. cbn. intros Hi Hk. apply (IH _ Hi). intros i r. rewrite lookup_insert_Some. naive_solver.
Qed.

(** A row that is still there was not deleted. *)
Lemma delete_rows_spec {R} (id : R → string) rows (m : gmap string R) i r :
  (∀ i r, m !! i = Some r → id r = i) → (∀ x, x ∈ rows → m !! id x = Some x) →
  m !! i = Some r → delete_rows id rows m !! i = Some r ∨ r ∈ rows.
Proof.
  intros Hk Hin Hr. unfold delete_rows. induction rows as [|x rows IH]; [by left|]. cbn [foldr].
  destruct (decide (id x = i)) as [<-|Hne].
  - right. rewrite (Hin x (list_elem_of_here _ _)) in Hr. injection Hr as <-. left.
  - rewrite lookup_delete_ne; [|done]. destruct IH as [?|?]; [set_solver|by left|right; by right].
Qed.
Lemma delete_rows_subseteq {R} (id : R → string) rows (m : gmap string R) : delete_rows id rows m ⊆ m.
Proof. unfold delete_rows. induction rows as [|x rows IH]; [done|]. cbn [foldr]. etrans; [apply delete_subseteq|done]. Qed.

Lemma elem_of_oldest {R} time id cutoff limit (m : gmap string R) r : r ∈ oldest time id cutoff limit m → (∃ i, m !! i = Some r) ∧ time r < cutoff.
Proof.
  unfold oldest. intros Hr%elem_of_take_Z. rewrite sort_by_perm in Hr. rewrite !list_elem_of_In in Hr.
  apply filter_In in Hr as [Hr Ht]. apply list_elem_of_In, list_elem_of_fmap in Hr as ([i r'] & -> & Hin%elem_of_map_to_list).
  split; [by exists i|]. by apply Z.ltb_lt.
Qed.

(** Rows that are not old do not change which rows are the oldest. *)
Lemma oldest_same {R} (time : R → Z) (id : R → string) cutoff limit (m m' : gmap string R) :
  (∀ i r, m' !! i = Some r → id r = i) → m ⊆ m' → (∀ i r, m !! i = None → m' !! i = Some r → cutoff <= time r) →
  oldest time id cutoff limit m' = oldest time id cutoff limit m.
Proof.
  intros Hk Hsub Hnew. unfold oldest. f_equal.
  assert (∀ (m : gmap string R) r, r ∈ List.filter (λ r, time r <? cutoff) (map snd (map_to_list m)) ↔ time r < cutoff ∧ ∃ i, m !! i = Some r) as Hin.
  { intros m0 r. rewrite list_elem_of_In filter_In -list_elem_of_In Z.ltb_lt. split.
    - intros [Hr Ht]. split; [done|]. apply list_elem_of_fmap in Hr as ([i r'] & -> & Hin%elem_of_map_to_list). by exists i.
    - intros [Ht [i Hi]]. split; [|done]. apply list_elem_of_fmap. exists (i, r). split; [done|by apply elem_of_map_to_list]. }
  assert (∀ m0 : gmap string R, m0 ⊆ m' → NoDup (map snd (map_to_list m0))) as Hnd.
  { intros m0 Hs. apply NoDup_fmap_2_strong; [|apply NoDup_map_to_list]. intros [i r] [j r'] Hi%elem_of_map_to_list Hj%elem_of_map_to_list. cbn. intros <-.
    by rewrite -(Hk i r (lookup_weaken _ _ _ _ Hi Hs)) -(Hk j r (lookup_weaken _ _ _ _ Hj Hs)). }
  assert (∀ a b, older time id a b = false → older time id b a = true) as Htot.
  { unfold older. intros a b [Ht%Z.ltb_ge Hi]%orb_false_iff. destruct (Z.ltb_spec (time b) (time a)); [done|].
    replace (time b) with (time a) in * by lia. rewrite Z.eqb_refl in Hi |- *. by apply Is_true_true_1, str_leb_total. }
  assert (∀ a b c, older time id a b = true → older time id b c = true → older time id a c = true) as Htr.
  { unfold older. intros a b c. rewrite !orb_true_iff !andb_true_iff !Z.ltb_lt !Z.eqb_eq. intros [?|[? ?]] [?|[? ?]]; try (left; lia).
    right. split; [lia|]. apply Is_true_true_1. eapply str_leb_trans; apply Is_true_true_2; eassumption. }
  apply (StronglySorted_unique_strong (λ a b, older time id a b = true)); [|by apply sort_by_sorted..|].
  - intros a b. rewrite !sort_by_perm. intros (_ & i & Hi)%Hin (_ & j & Hj)%Hin. unfold older.
    rewrite !orb_true_iff !andb_true_iff !Z.ltb_lt !Z.eqb_eq. intros [?|[? ?]] [?|[? ?]]; try lia.
    assert (id a = id b) as E by (by apply str_leb_antisym; apply Is_true_true_2). pose proof (lookup_weaken _ _ _ _ Hj Hsub) as Hj'.
    rewrite (Hk i a Hi) (Hk j b Hj') in E. subst j. congruence.
  - rewrite !sort_by_perm. apply NoDup_Permutation; [by apply NoDup_ListNoDup, List.NoDup_filter, NoDup_ListNoDup, Hnd..|].
    intros r. rewrite !Hin. split; intros [Ht [i Hi]]; (split; [done|]); exists i; [|by eapply lookup_weaken].
    destruct (m !! i) as [r'|] eqn:E; [|exfalso; specialize (Hnew i r E Hi); lia].
    pose proof (lookup_weaken _ _ _ _ E Hsub). congruence.
Qed.

Section Retention.
Context `{TelemetryLib} {DOrd : HashOrder Z StatsAgg} {HOrd : HashOrder HourlyKey HourlyStatsAgg} (w : TelemetryWorld) (R : RetentionPolicy).
(** Other instances only add to the request log, each row under its identifier, and no row that is
    past the retention period by a reading of the clock. *)
Hypothesis others_add : ∀ n t, st_logs t ⊆ st_logs (tw_others w n t).
Hypothesis others_keyed : ∀ n t, (∀ i r, st_logs t !! i = Some r → lg_id r = i) → ∀ i r, st_logs (tw_others w n t) !! i = Some r → lg_id r = i.
Hypothesis others_recent : ∀ n m t i r, (m <= n)%nat → st_logs t !! i = None → st_logs (tw_others w n t) !! i = Some r →
  log_cutoff R (tw_clock w m) <= lg_time_ms r.
Hypothesis archive_enabled : rp_request_log_archive_enabled R = true.

Definition logs (s : TelemetryState) : gmap string RequestLogRow := st_logs (ts_tables s).
Definition keyed (s : TelemetryState) : Prop := ∀ i r, logs s !! i = Some r → lg_id r = i.
(** A file of the archive has the line of the row. *)
Definition archived (r : RequestLogRow) (s : TelemetryState) : Prop :=
  ∃ file line, file ∈ ar_files (ts_archive s) ∧ row_to_string r = inl line ∧ line ∈ af_lines file.
(** Old enough when retention ran. *)
Definition expired (r : RequestLogRow) : Prop := ∃ n, lg_time_ms r < log_cutoff R (tw_clock w n).

Definition safe (s s' : TelemetryState) : Prop :=
  wk_retention (ts_worker s) = R → (ts_time s <= ts_time s')%nat ∧ wk_retention (ts_worker s') = R
  ∧ (keyed s → keyed s' ∧ (∀ r, archived r s → archived r s')
     ∧ ∀ i r, logs s !! i = Some r → logs s' !! i = Some r ∨ archived r s' ∧ expired r).
#[local] Instance safe_preorder : PreOrder safe.
Proof.
  split; [intros s Hr; split_and!; [done|done|intros Hk; split_and!; auto]|]. intros s1 s2 s3 H12 H23 Hr1.
  destruct (H12 Hr1) as (T12 & Hr2 & K12). destruct (H23 Hr2) as (T23 & Hr3 & K23). split_and!; [lia|done|]. intros Hk.
  destruct (K12 Hk) as (Hk2 & Ha12 & Hl12). destruct (K23 Hk2) as (Hk3 & Ha23 & Hl23).
  split_and!; [done|auto|]. intros i r Hi. destruct (Hl12 i r Hi) as [Hi2|[Ha He]]; [by apply Hl23|right; auto].
Qed.

(** The log with rows that are added, none of them past the retention period by reading [n]. *)
Definition grows (n : nat) (s s' : TelemetryState) : Prop :=
  (ts_time s <= ts_time s')%nat ∧ ((n <= ts_time s)%nat →
  logs s ⊆ logs s' ∧ ∀ i r, logs s !! i = None → logs s' !! i = Some r → log_cutoff R (tw_clock w n) <= lg_time_ms r).
#[local] Instance grows_preorder n : PreOrder (grows n).
Proof.
  split; [intros s; split; [done|split; [done|congruence]]|]. intros s1 s2 s3 [T12 H12] [T23 H23]. split; [lia|]. intros Hn.
  destruct (H12 Hn) as [S12 N12]. destruct (H23 ltac:(lia)) as [S23 N23]. split; [by etransitivity|]. intros i r Hi Hr.
  destruct (logs s2 !! i) as [r2|] eqn:E; [|by eapply N23]. pose proof (lookup_weaken _ _ _ _ E S23). apply (N12 i); congruence.
Qed.
Lemma grows_others n s : grows n s (others w s).
Proof. split; [cbn; lia|]. intros Hn. split; [apply others_add|]. intros i r. by apply others_recent. Qed.

(** Steps that leave the log alone, and only add to the archive. *)
Lemma safe_same s s' : logs s' = logs s → wk_retention (ts_worker s') = wk_retention (ts_worker s) → (ts_time s <= ts_time s')%nat →
  (∀ r, archived r s → archived r s') → safe s s'.
Proof. intros Hl Hw Ht Ha Hr. unfold keyed. rewrite Hl Hw. split_and!; auto. Qed.

Lemma safe_others s : safe s (others w s).
Proof.
  intros Hr. split_and!; [cbn; lia|done|]. intros Hk. split_and!; [exact (others_keyed _ _ Hk)|done|]. intros i r Hi. left. by eapply lookup_weaken, others_add.
Qed.
Lemma safe_draw {A} (g : nat → A) : moves safe (draw w g).
Proof. intros s. apply safe_others. Qed.
Lemma safe_update g : (∀ wk, wk_retention (g wk) = wk_retention wk) → moves safe (update g).
Proof. intros Hg. apply moves_modify. intros s. apply safe_same; [done|apply Hg|done|done]. Qed.
Lemma safe_worker {A} (g : TelemetryWorker → A) : moves safe (worker g).
Proof. intros s. reflexivity. Qed.
Lemma safe_bind_at {A B} (m : M A) (g : A → M B) s : safe s (m s).2 →
  (∀ a s', m s = (inl a, s') → (ts_time s <= ts_time s')%nat → safe s' (g a s').2) → safe s (bind m g s).2.
Proof.
  intros Hm Hg. unfold bind. destruct (m s) as [[a|e] s'] eqn:E; cbn [snd] in *; [|done]. intros Hr. destruct (Hm Hr) as (Ht & _ & _).
  assert (safe s (g a s').2) as Hs by (etransitivity; [exact Hm|by apply Hg]). by apply Hs.
Qed.

(** What a statement may do to the log. *)
Definition log_step (t t' : StatsTables) : Prop :=
  (∀ i r, st_logs t !! i = Some r → st_logs t' !! i = Some r)
  ∧ ((∀ i r, st_logs t !! i = Some r → lg_id r = i) → ∀ i r, st_logs t' !! i = Some r → lg_id r = i).

Lemma safe_statement {A} (op : StatsTables → (A + DbError) * StatsTables) : (∀ t, log_step t (op t).2) → moves safe (statement w op).
Proof.
  intros Hop s. unfold statement. pose proof (safe_others s) as H1. set (s1 := others w s) in *.
  assert (∀ t, log_step (ts_tables s1) t → safe s (set_ts_tables t s1)) as Hset.
  { intros t [Hl Hkd]. etransitivity; [exact H1|]. intros Hr. split_and!; [done|done|]. intros Hk. split_and!; [exact (Hkd Hk)|auto|]. intros i r Hi. left. by apply Hl. }
  destruct (tw_fault w (ts_time s)) as [[]|]; cbn [snd]; [done|apply Hset, Hop|]. specialize (Hop (ts_tables s1)).
  destruct (op (ts_tables s1)) as [a t]. apply Hset, Hop.
Qed.

Lemma log_step_same t t' : st_logs t' = st_logs t → log_step t t'.
Proof. intros E. unfold log_step. rewrite E. auto. Qed.
Lemma safe_execute op : (∀ t, st_logs (op t) = st_logs t) → moves safe (execute w op).
Proof. intros Hop. apply safe_statement. intros t. apply log_step_same, Hop. Qed.
Lemma safe_query {A} (op : StatsTables → A) : moves safe (query w op).
Proof. apply safe_statement. intros t. by apply log_step_same. Qed.
Lemma safe_remove op : (∀ t, st_logs (op t).2 = st_logs t) → moves safe (remove w op).
Proof. intros Hop. apply safe_statement. intros t. specialize (Hop t). destruct (op t). by apply log_step_same. Qed.
Lemma safe_insert_logs rows : moves safe (statement w (insert_request_logs rows)).
Proof.
  apply safe_statement. intros t. unfold insert_request_logs. destruct (insert_rows lg_id rows (st_logs t)) as [m|] eqn:E; [|by apply log_step_same].
  split; cbn; [intros i r; by apply (insert_rows_keeps _ _ _ _ _ _ E)|by apply (insert_rows_keyed _ _ _ _ E)].
Qed.
Lemma insert_events_keeps_logs rows t : st_logs (insert_stats_events rows t).2 = st_logs t.
Proof. unfold insert_stats_events. by destruct (insert_rows _ _ _). Qed.
Lemma safe_insert_events rows : moves safe (statement w (insert_stats_events rows)).
Proof. apply safe_statement. intros t. apply log_step_same, insert_events_keeps_logs. Qed.
Lemma upsert_daily_keeps_logs rows t : st_logs (upsert_stats_daily rows t) = st_logs t.
Proof. unfold upsert_stats_daily. revert t. induction rows as [|r rows IH]; intros t; [done|]. cbn [foldl]. by rewrite IH. Qed.
#[local] Hint Resolve safe_draw safe_update safe_worker safe_execute safe_query safe_remove safe_insert_logs safe_insert_events upsert_daily_keeps_logs : moves.

(** ** Retention *)
Lemma safe_archive files index :
  moves safe (modify (λ s, set_ts_archive (MkArchive (ar_files (ts_archive s) ++ files) (index s)) s) : M unit).
Proof.
  apply moves_modify. intros s. apply safe_same; [done..|]. intros r (file & line & Hf & Hl & Hi). exists file, line. split_and!; [cbn; set_solver|done|done].
Qed.
Lemma safe_index index : moves safe (modify (λ s, set_ts_archive (MkArchive (ar_files (ts_archive s)) (index s)) s) : M unit).
Proof. apply moves_modify. intros s. by apply safe_same. Qed.
Lemma grows_draw {A} n (g : nat → A) : moves (grows n) (draw w g).
Proof. intros s. apply grows_others. Qed.
Lemma grows_archive n g : moves (grows n) (modify (λ s, set_ts_archive (g s) s) : M unit).
Proof. apply moves_modify. intros s. split; [done|split; [done|]]. unfold logs. cbn. congruence. Qed.
#[local] Hint Resolve safe_archive safe_index grows_draw grows_archive : moves.
Lemma safe_archive_logs dir rows compress : moves safe (archive_request_logs_jsonl w dir rows compress).
Proof. unfold archive_request_logs_jsonl, today_yyyymmdd_utc, clock, new_ulid. carry. Qed.
Lemma grows_archive_logs n dir rows compress : moves (grows n) (archive_request_logs_jsonl w dir rows compress).
Proof. unfold archive_request_logs_jsonl, today_yyyymmdd_utc, clock, new_ulid. carry. Qed.

Lemma archive_lines_all rows lines r : archive_lines rows = inl lines → r ∈ rows → ∃ line, row_to_string r = inl line ∧ line ∈ lines.
Proof.
  revert lines. induction rows as [|x rows IH]; intros lines; [set_solver|]. cbn [archive_lines].
  destruct (row_to_string x) as [line|] eqn:Ex; [|done]. cbn. destruct (archive_lines rows) as [ls|]; [|done]. intros [= <-].
  intros [->|Hr]%elem_of_cons; [exists line; set_solver|]. destruct (IH ls eq_refl Hr) as (l & ? & ?). exists l. set_solver.
Qed.

(** A batch that was archived is in the archive. *)
Lemma archived_batch dir rows compress s :
  (archive_request_logs_jsonl w dir rows compress s).1 = inl true → ∀ r, r ∈ rows → archived r (archive_request_logs_jsonl w dir rows compress s).2.
Proof.
  assert (∀ {A} (g : nat → A) s0, draw w g s0 = (inl (g (ts_time s0)), others w s0)) as Hd by done.
  unfold archive_request_logs_jsonl, today_yyyymmdd_utc, clock, new_ulid. destruct rows as [|r0 rows]; cbn [is_empty]; [set_solver|].
  set (rs := r0 :: rows). unfold bind. repeat (rewrite Hd; cbn [ret fst snd]).
  match goal with |- context [tw_io w ?n] => destruct (tw_io w n) as [e|] end; [done|destruct (archive_lines rs) as [lines|e] eqn:El; [|done]].
  unfold modify. cbn [fst snd]. repeat (rewrite Hd; cbn [ret fst snd]).
  match goal with |- context [is_some (tw_io w ?n)] => destruct (is_some (tw_io w n)); [done|] end.
  repeat (rewrite Hd; cbn [ret fst snd]). match goal with |- context [is_some (tw_io w ?n)] => destruct (is_some (tw_io w n)); [done|] end.
  intros _ r Hr. destruct (archive_lines_all rs lines r El Hr) as (line & Hl & Hin).
  eexists _, line. split_and!; [cbn; apply elem_of_app; right; left|done|done].
Qed.

(** The oldest rows stay the same until they are deleted. *)
Lemma grows_oldest n batch s s' : grows n s s' → (n <= ts_time s)%nat → keyed s' →
  oldest lg_time_ms lg_id (log_cutoff R (tw_clock w n)) batch (logs s') = oldest lg_time_ms lg_id (log_cutoff R (tw_clock w n)) batch (logs s).
Proof. intros [_ Hg] Hn Hk. destruct (Hg Hn). by apply oldest_same. Qed.

(** Deleting what was archived. *)
Lemma delete_post batch n s : (n <= ts_time s)%nat →
  (keyed s → ∀ r, r ∈ oldest lg_time_ms lg_id (log_cutoff R (tw_clock w n)) batch (logs s) → archived r s) →
  safe s (remove w (delete_request_logs_before (log_cutoff R (tw_clock w n)) batch) s).2.
Proof.
  set (cutoff := log_cutoff R (tw_clock w n)). intros Hn Ha. unfold remove, statement. pose proof (safe_others s) as H1.
  pose proof (grows_oldest n batch _ _ (grows_others n s) Hn) as Hold. fold cutoff in Hold. set (s1 := others w s) in *.
  assert (safe s (set_ts_tables (delete_request_logs_before cutoff batch (ts_tables s1)).2 s1)) as Hdel.
  { intros Hr. destruct (H1 Hr) as (Ht & Hr1 & H1k). split_and!; [done|done|]. intros Hk. destruct (H1k Hk) as (Hk1 & Ha1 & Hl1).
    specialize (Ha Hk). rewrite -(Hold Hk1) in Ha.
    unfold keyed, logs in *. unfold delete_request_logs_before. cbn [snd set_ts_tables ts_tables set_st_logs st_logs]. unfold list_request_logs_before.
    split_and!; [intros i r Hi; apply Hk1; eapply lookup_weaken; [exact Hi|apply delete_rows_subseteq]|done|].
    intros i r Hi. destruct (Hl1 i r Hi) as [Hi1|?]; [|by right].
    destruct (delete_rows_spec lg_id (oldest lg_time_ms lg_id cutoff batch (st_logs (ts_tables s1))) _ i r Hk1) as [?|Hin]; [|done|by left|].
    - intros x ([j Hj] & _)%elem_of_oldest. by rewrite (Hk1 j x Hj).
    - right. split; [by apply Ha|]. exists n. by eapply elem_of_oldest. }
  destruct (tw_fault w (ts_time s)) as [[]|]; cbn [snd]; [done|exact Hdel|]. exact Hdel.
Qed.

Lemma safe_archive_batches m batch n s : (n <= ts_time s)%nat → safe s (archive_batches w m R (log_cutoff R (tw_clock w n)) batch s).2.
Proof.
  set (cutoff := log_cutoff R (tw_clock w n)). revert s. induction m as [|m IH]; intros s Hn; cbn [archive_batches]; [reflexivity|].
  apply safe_bind_at; [apply safe_query|]. intros rows s1 Eq Ht1.
  assert (match rows with inl rows => rows = oldest lg_time_ms lg_id cutoff batch (logs s1) | inr _ => True end) as Hrows.
  { unfold query, statement in Eq. destruct (tw_fault w (ts_time s)) as [[]|]; injection Eq as <- <-; done. }
  destruct rows as [[|r0 rows]|e]; [reflexivity| |reflexivity]. rewrite archive_enabled.
  apply safe_bind_at; [apply safe_archive_logs|]. intros ok s2 Ea Ht2.
  pose proof (archived_batch (rp_request_log_archive_dir R) (r0 :: rows) (rp_request_log_archive_compress R) s1) as Hall.
  pose proof (grows_archive_logs n (rp_request_log_archive_dir R) (r0 :: rows) (rp_request_log_archive_compress R) s1) as Hg.
  rewrite Ea in Hall, Hg. cbn [fst snd] in Hall, Hg. destruct ok; [|reflexivity].
  apply safe_bind_at.
  { apply (delete_post batch n); [lia|]. intros Hk. rewrite (grows_oldest n batch s1 s2 Hg ltac:(lia) Hk). fold cutoff. rewrite -Hrows. by apply Hall. }
  intros [removed|e] s3 _ Ht3; [|reflexivity]. destruct (removed <? batch); [reflexivity|]. apply IH. lia.
Qed.

Lemma safe_delete_batches n batch delete : moves safe delete → moves safe (delete_batches n batch delete).
Proof. intros Hd. induction n as [|n IH]; cbn [delete_batches]; carry. Qed.
#[local] Hint Resolve safe_delete_batches : moves.

Lemma safe_run_retention n s : (n <= ts_time s)%nat → safe s (run_retention w R (tw_clock w n) s).2.
Proof.
  intros Hn. unfold run_retention. apply safe_bind_at.
  - destruct (0 <? rp_request_log_retention_days R); [|reflexivity].
    apply safe_bind_at; [match goal with |- safe _ (?m _).2 => enough (moves safe m) as Hm by apply Hm end; carry|].
    intros _ s1 _ Ht. apply safe_archive_batches. lia.
  - intros _ s1 _ _. match goal with |- safe _ (?m _).2 => enough (moves safe m) as Hm by apply Hm end. unfold yyyymmdd_utc_days_ago, clock. carry.
Qed.

(** The cutoff is taken from a reading of the clock, and the policy is the worker's. *)
Lemma safe_retention : moves safe (maybe_run_retention w).
Proof.
  intros s. enough (wk_retention (ts_worker s) = R → safe s (maybe_run_retention w s).2) as Hs by (intros Hr; by apply Hs).
  intros Hr. unfold maybe_run_retention, worker, gets, clock. unfold bind at 1. rewrite Hr.
  destruct (negb (retention_enabled R)); [reflexivity|]. apply (safe_bind_at (draw w (tw_clock w))); [apply safe_draw|]. intros now_ms s1 [= <- <-] _.
  unfold bind at 1. destruct (_ <? _); [reflexivity|]. apply safe_bind_at; [by refine (safe_update (set_wk_next_run _) _ _)|].
  intros [] s2 Es2 _. injection Es2 as <-. apply safe_run_retention. change (ts_time s <= S (ts_time s))%nat. lia.
Qed.

Lemma safe_flush_logs : moves safe (flush_logs w).
Proof. unfold flush_logs. carry. Qed.
Lemma safe_flush_stats_events : moves safe (flush_stats_events w).
Proof. unfold flush_stats_events. carry. Qed.
#[local] Hint Resolve safe_retention safe_flush_logs safe_flush_stats_events : moves.
Lemma safe_hourly rows : moves safe (upsert_stats_hourly w rows).
Proof. induction rows as [|r rows IH]; cbn [upsert_stats_hourly]; carry. Qed.
#[local] Hint Resolve safe_hourly : moves.
Lemma safe_flush : moves safe (flush w).
Proof. unfold flush, flush_stats, flush_hourly, clock. carry. Qed.
#[local] Hint Resolve safe_flush : moves.
Lemma safe_serve signal : moves safe (serve w signal).
Proof.
  destruct signal as [|e|]; cbn [serve]; [apply safe_flush| |].
  - unfold on_event, count_event, push_stats_event, log_event, event_id, shortened, push_log, clock, new_ulid. carry.
  - unfold on_tick, maybe_rotate_day, today_yyyymmdd_utc, clock. carry.
Qed.

Lemma safe_serve_all signals : moves safe (serve_all w signals).
Proof.
  induction signals as [|signal rest IH]; cbn [serve_all]; [intros ?; reflexivity|].
  apply moves_bind; [apply _|apply safe_serve|intros _; exact IH].
Qed.

(** C23. With the archive enabled, retention never deletes a request that was not archived: whatever
    the worker serves and whichever statement or file fails, a row of the request log is either
    still there, or it was older than the retention period when retention ran and a file of the
    archive has its line. Other instances may log requests at the same time, but must not delete
    any, nor log one that is already past the retention period. *)
Theorem archived_before_deleted signals s i r :
  wk_retention (ts_worker s) = R → (∀ i r, st_logs (ts_tables s) !! i = Some r → lg_id r = i) →
  st_logs (ts_tables s) !! i = Some r →
  st_logs (ts_tables (serve_all w signals s).2) !! i = Some r
  ∨ archived r (serve_all w signals s).2 ∧ ∃ n, lg_time_ms r < log_cutoff R (tw_clock w n).
Proof.
  intros Hr Hk Hi. destruct (safe_serve_all signals s Hr) as (_ & _ & Hs). by apply Hs.
Qed.
End Retention.

(** ** Two instances *)
#[local] Existing Instance example_telemetry_lib.
#[local] Existing Instance canonical_order.

Definition archive_policy : RetentionPolicy := new_retention 1 0 1000 1 true "archive" false.
Definition now : Z := 10 * MILLIS_PER_DAY.
Definition two_logs : StatsTables := set_st_logs {["a" := example_log "a" 1; "b" := example_log "b" 2]} no_tables.
Definition archive_start (t : StatsTables) : TelemetryState :=
  MkTState (new_worker 100 archive_policy (yyyymmdd now) [] 0) t (MkArchive [] []) 0.
(** Another instance that has archived the same batch deletes it just before this one does. *)
Definition beside : TelemetryWorld :=
  quiet_world now (λ n t, if (n =? 12)%nat then (delete_request_logs_before (log_cutoff archive_policy now) 1 t).2 else t).

(** Another instance logs a request while this one is between reading a batch and deleting it. *)
Definition logging : TelemetryWorld :=
  quiet_world now (λ n t, if (n =? 12)%nat then (insert_request_logs [example_log "c" now] t).2 else t).

Lemma logging_adds t :
  st_logs (insert_request_logs [example_log "c" now] t).2
  = match st_logs t !! "c" with Some _ => st_logs t | None => <["c" := example_log "c" now]> (st_logs t) end.
Proof. unfold insert_request_logs. cbn [insert_rows]. change (lg_id (example_log "c" now)) with "c". by destruct (st_logs t !! "c"). Qed.

Lemma archived_before_deleted_witness :
  let s := (serve_all logging [Ticked] (archive_start two_logs)).2 in
  st_logs (ts_tables s) = {["c" := example_log "c" now]}
  ∧ (st_logs (ts_tables s) !! "a" = Some (example_log "a" 1)
     ∨ archived (example_log "a" 1) s ∧ ∃ n, lg_time_ms (example_log "a" 1) < log_cutoff archive_policy (tw_clock logging n)).
Proof.
  split; [by vm_compute|]. apply (archived_before_deleted logging archive_policy); [| | |done|done| |done].
  - intros n t. cbn. destruct (n =? 12)%nat; [|done]. rewrite logging_adds. destruct (st_logs t !! "c") eqn:E; [done|by apply insert_subseteq].
  - intros n t Hk i r. cbn. destruct (n =? 12)%nat; [|apply Hk]. rewrite logging_adds. destruct (st_logs t !! "c"); [apply Hk|].
    rewrite lookup_insert_Some. intros [[<- <-]|[_ Hi]]; [done|by apply Hk].
  - intros n m t i r _ Hi. cbn. destruct (n =? 12)%nat; [|congruence]. rewrite logging_adds. destruct (st_logs t !! "c"); [congruence|].
    rewrite lookup_insert_Some. intros [[_ <-]|[_ Hr]]; [by vm_compute|congruence].
  - intros i r. unfold archive_start, two_logs. cbn [ts_tables st_logs set_st_logs]. rewrite lookup_insert_Some lookup_singleton_Some. naive_solver.
Defined.

(** Two instances that share a database may delete a request that neither has archived: both
    read and archive the same batch, one deletes it, and the other then deletes the next
    batch, since what is deleted is chosen again when it is deleted. *)
Theorem two_instances_delete_unarchived :
  let s := (serve_all beside [Ticked] (archive_start two_logs)).2 in
  list_request_logs_before (log_cutoff archive_policy now) 1 two_logs = [example_log "a" 1]
  ∧ st_logs (ts_tables s) !! "b" = None ∧ ¬ archived (example_log "b" 2) s.
Proof.
  split; [by vm_compute|]. split; [by vm_compute|]. intros (file & line & Hf & Hl & Hin).
  assert (Forall (λ f, af_lines f = ["a"]) (ar_files (ts_archive (serve_all beside [Ticked] (archive_start two_logs)).2))) as Hall
    by (vm_compute; repeat constructor).
  rewrite Forall_forall in Hall. injection Hl as <-. rewrite (Hall file Hf) in Hin. set_solver.
Qed.
